(* ===== verification/_CoqProject ===== *)
-Q . S2P
Prelude.v
Ordered.v
Float64.v
Float64Facts.v
TimeNs.v
SpscQueue.v
Geometry.v
World.v
Candidate.v
Messages.v
Lifecycle.v
Authority.v
AuthorityInv.v
AuthorityProps.v
AuthorityTxn.v
Sampler.v
Decisions.v
Mission.v
FloatOrder.v
WorldGrid.v
AStar.v
AStarProps.v
Route.v
RouteProps.v
LioTime.v
Measurement.v
MeasurementProps.v
MissionProgress.v
MissionProps.v
PlanningContract.v
Admission.v
PlanningWorker.v
PlanningWorkerProps.v
CommandContract.v
TrackingGuard.v
VelocityOnly.v
AdapterProps.v
CriticalSections.v
NavigationMode.v
NavigationModeProps.v
ModeExecutor.v
OdometryTime.v
OdometryFrames.v
ResetCompensator.v
OdometryRing.v
ExternalBridge.v
ExternalBridgeProps.v
EstimatorBridge.v
EstimatorBridgeProps.v
MappingWorker.v
MappingWorkerProps.v
MapSnapshot.v
MapSnapshotProps.v
MapRay.v
MapRayProps.v
MapActor.v
MapActorProps.v
MapActorContract.v
RuntimePolicy.v
RuntimePolicyProps.v
PathTracking.v
PathTrackingProps.v
RecordUpdate.v
LioState.v
LioRegistration.v
LioEstimator.v
LioPropagator.v
LioInit.v
LioPipeline.v
LioReference.v
LioEstimatorProps.v
LioPipelineProps.v
RogSliding.v
RogCounter.v
RogInfProps.v
RogRaycaster.v
