(* ===== verification/Prelude.v ===== *)
(** * UAV navigation: a verified model of the command path

    This library models the part of the repository that decides which command
    the vehicle executes, from the synchronised measurements and the planner's
    grid search, over the planning worker and the execution authority, to the
    PX4 mode that publishes the setpoint; and proves the properties that make it
    correct.  Numerical kernels in between (the vendored filter and trees,
    trajectory optimisation) are parameters or produce the values modelled here.

    ** How the program works

    FAST-LIO groups lidar scans with the IMU samples that bracket them
    ([MeasurementSynchronizer]), and its pipeline predicts over the samples,
    deskews the scan, corrects the prediction against the map and reports whether
    it tracks ([FastLioPipeline]); bridges carry odometry between it and PX4.
    The mapping side publishes world snapshots through [WorldSnapshotStore]; every
    refresh must recertify or revoke the executing bundle.  A planning request is
    built for one goal, one world and one predecessor, handed to the [PlanningWorker] (a one-place priority mailbox
    in front of one thread), solved by the backend, whose front end is the grid
    search [Astar], and its candidate is admitted against the request.  The
    result is an immutable [CandidateBundle]: an evaluator of a trajectory with
    its lease, its role schedule (MAIN, then BACKUP), its certificates and the
    identity of the world it was validated in.  [ExecutionAuthority] owns the one
    executing bundle and at most one staged successor, with the lifecycle and
    recovery state of the episode.  The command timer activates a due successor,
    samples the executing bundle with [CommandSampler], and exposes the sample
    through [publishIfCurrent].  Decision predicates choose between continuing,
    braking and holding.  [MissionProgress] watches measured samples along the
    route and accepts waypoints in order.  On the vehicle side [NavigationMode]
    admits the command stream, follows the held command while odometry and
    estimator health are fresh, and hands control to PX4's Hold through the
    [NavigationModeExecutor] otherwise.

    ** Files and what they model

    Source paths are under [src/src/].

    - [Prelude]: notations, machine integers, shared pointers, runs of an
      operation language, the [nav] hint databases and tactics.
    - [Float64], [Float64Facts], [FloatOrder]: binary64, binary32 and the x87
      extended format over the Standard Library's [spec_float]; validity,
      exactness on integers, order and NaN lemmas.  They model the C++ arithmetic
      itself.
    - [TimeNs]: [common/navigation_common/.../time.hpp].
    - [SpscQueue]: [common/navigation_common/.../bounded_spsc_queue.hpp].
    - [Geometry], [Libm]: the operations taken from Eigen and from the C
      mathematical library, as classes.
    - [World]: [mapping/navigation_world_model/.../world_model_view.hpp],
      [goal_contract.hpp], [world_commit_authorizer.hpp],
      [mapping/navigation_mapping/.../world_snapshot_store.hpp], and
      [timestamp_freshness.hpp], [world_temporal_assessment.hpp] of
      [execution/navigation_execution].  [WorldGrid] has the grid geometry and the
      support queries of the view interface.
    - [Candidate]: [planning/navigation_planning/.../candidate_bundle.hpp],
      [route_boundary.hpp], [execution_anchor.hpp], [planning_timing.hpp],
      [kinematic_state.hpp] and [execution/navigation_execution/.../execution_anchor.hpp].
    - [Messages]: the ROS messages the other files read.
    - [Lifecycle]: [execution_recovery_state.hpp], [execution_lifecycle.hpp].
    - [Authority]: every operation of [execution_authority.hpp].
      [AuthorityInv] has its operation language, reachability and invariant;
      [AuthorityProps] and [AuthorityTxn] the theorems.
    - [Sampler]: [execution_state_store.hpp], [execution_state_lease.hpp],
      [execution_state_gate.hpp], [command_sampler.hpp],
      [certified_continuation.hpp].
    - [Decisions]: every predicate of [execution_decisions.hpp].
    - [Mission]: [contracts/navigation_mission/.../mission.hpp],
      [trajectory_completion.hpp], [waypoint_behavior.hpp].
    - [LineBox], [AStar]: the grid search of [planning/navigation_planning_backend]
      ([astar.cpp], [astar.h]) with the line-box intersection it uses;
      [AStarProps] and [AStarEscape] the theorems.
    - [Route], [RouteProps]: [route_progress.hpp] and [route_progress.cpp].
    - [LioTime], [Measurement], [MeasurementProps]: time, sensor records, buffer
      and synchroniser of [estimation/fast_lio_core].
    - [MissionProgress], [MissionProps]: [mission_progress.hpp] and
      [mission_progress.cpp].
    - [PlanningContract], [Admission]: the planning requests, limits, outcomes and
      the admission of candidates of [planning/navigation_planning].
    - [PlanningWorker], [PlanningWorkerProps]: [planning_worker.hpp] of
      [runtime/navigation_runtime].
    - [CommandContract]: [NavigationCommand.msg], the validators of
      [contracts/navigation_contracts] and the admission predicates of
      [px4/px4_navigation_external_mode].
    - [TrackingGuard], [VelocityOnly], [AdapterProps]: the geometric guards, the
      adapter and the velocity limiter of the external mode, and their theorems.
    - [CriticalSections]: operations as sequences of critical sections under one
      mutex, with a rely-guarantee weakest precondition and its adequacy.
    - [NavigationMode], [NavigationModeProps]: [NavigationMode] of
      [navigation_mode_node.cpp] and its theorems; [ModeExecutor]:
      [NavigationModeExecutor].
    - [Ordered]: lists ordered by a key and the binary searches over them.
    - [OdometryTime], [OdometryFrames], [ResetCompensator], [OdometryRing]: the
      library of [px4/px4_odometry_bridge] (time validation and mapping, jump
      latch, frame conversion, reset compensation, ring buffer);
      [ExternalBridge], [EstimatorBridge]: its two nodes, with their theorems in
      [ExternalBridgeProps] and [EstimatorBridgeProps].
    - [ObservationAccounting], [MappingWorker], [MappingWorkerProps]:
      [observation_accounting.hpp] and [mapping_worker.hpp] of
      [mapping/navigation_mapping].
    - [MapSnapshot], [MapRay]: [mapping_world_snapshot.hpp] (grids, patches,
      queries; the two segment oracles); [MapActor]: [mapping_actor.cpp] over the
      class [MapBackend]; [MapSnapshotProps], [MapRayProps], [MapActorProps],
      [MapActorContract] the theorems.
    - [RuntimePolicy], [RuntimePolicyProps]: the headers of
      [navigation_runtime_policy] and the small policies of [navigation_runtime];
      [PathTracking], [PathTrackingProps]: [path_relative_tracking.hpp] and
      [experimental_tracking.hpp].
    - [RecordUpdate]: updates of one field of a record.
    - [LioState], [LioRegistration], [LioEstimator], [LioPropagator], [LioInit],
      [LioPipeline]: [estimation/fast_lio_core] above the synchroniser, from
      transforms and deskewing over plane fits, residuals and the iterated filter
      to the initialiser, the prior and the pipeline with its lifecycle;
      [LioReference] a concrete instance of what they take from libraries;
      [LioEstimatorProps], [LioPipelineProps] the theorems.

    ** How state and operations correspond to the code

    A class is a record of its members; a method maps the record to its result
    and the new record; the names are the source's, with a short prefix on the
    fields.  A [std::shared_ptr<const T>] is an address with its value
    ([shared]); [a.get() == b.get()] compares addresses.  [std::optional] and a
    throwing call are [option]; callbacks the code runs inside a critical
    section are given by their outcome ([callback_outcome]) because the code
    catches every exception there.  A function called under a mutex is one
    transition; an operation of the authority that releases its mutex
    ([reserveAnchor], the world publication) is two, with arbitrary operations of
    other owners in between; the planning worker and the queue are step relations
    at the granularity of their critical sections and atomic accesses; the
    operations of the PX4 mode are programs of critical sections, interleaved
    with the callbacks of the state-input thread.  Unsigned counters wrap modulo
    [2^64] (or [2^32]).  Floating-point expressions round once per operator,
    [long double] is the x87 format.

    ** What the theorems show

    - The authority: it refines an abstract command slot
      ([authority_refines_slot]), its invariant holds in every reachable state
      ([reachable_coherent]), transactions are consumed once, the commit
      operations agree, activation and world publication are exact and
      linearizable, a failure latches, and what reaches the transport is the
      current command ([exposure_sound]).
    - Bundles and anchors: sampling, role schedules, handoff and anchor
      matching are sound; a reserved anchor is accepted.
    - World: publication is atomic with its finalizer and monotone; superseded
      worlds never authorise a commit; freshness in [long double] is exact.
    - Lifecycle, sampler, decisions: safety roles are one-way, the sampler
      reports exactly what its status says, emergency braking is one-shot,
      phase certificates are evidence about the bundle they name.
    - Mission: routes are built gap-free, lookup by arc is exact, progress is
      monotone, waypoints are accepted in order and only with the physical and
      execution evidence their behaviour demands.
    - Planning: a valid request speaks of one episode, world and predecessor;
      the worker refines a one-place priority mailbox, comes to rest without
      losing a job or a wake-up, and interrupts only the job it means to.
    - Search: a path handed out is certified edge by edge, the searches terminate
      with turns for the cells of the window, and the local index is injective.
    - Measurement synchronisation: emitted groups are bracketed and gap-bounded,
      no accepted motion is skipped, every scan is accounted for, and the queue
      drains.
    - PX4 mode: under every interleaving a held command satisfies the wire contract
      and belongs to the current epoch and activation; every tracking setpoint
      is justified by a held command inside its lease; authority once closed stays
      closed; the limiter keeps its caps; Hold is requested a bounded number of
      times and then released.
    - Estimation: predictions and corrections are transactions on the vendored
      filter ([prediction_transactional], [correction_transactional]); tracking
      is reported only from a checked correction and has to be earned again after
      it was lost ([tracking_confirmed_by_correction]).
    - Odometry bridges: what is published is inside its lease, ordered and under
      an open latch; resets are compensated exactly; the ring buffer is a linear
      search.
    - Mapping: observations are processed in order and accounted for to the last
      one; a published snapshot is the map, a region without a change record is
      unchanged, reads are in bounds, accepted segments are certified voxel by
      voxel, and a failure is terminal.
    - Runtime policies: a renewal is deferred and a refinement started only with
      their evidence, tickets are unique, tracking is accepted only inside the
      certified tube around the nearest projection.

    - Queue and time: FIFO and race freedom under every interleaving; round
      trips of the stamp conversions.
    - Some theorems state behaviours where the code departs from its comments or
      intent: [anchor_yaw_overflow_matches], [activation_lowers_generation],
      [invalidateIfCurrent_keeps_phase], [stop_confirmation_spans_gap],
      [refinement_displaces_waiting_emergency], [frontier_fallback_unreachable],
      [certified_emergency_refused],
      [new_epoch_published_under_old_counter],
      [associated_metadata_never_compensates], [estimator_bridge_never_publishes],
      [segment_oracle_can_spin], [pending_region_reaches_origin].

    ** Bounds and fuel

    The bisection [lower_bound_loop] takes fuel: the length halves, so the length
    of the list plus one suffices ([lower_bound_loop_spec]).  The searches take
    turns: a cell enters the queue at most once per neighbour it is relaxed from,
    so [26 * cells + 2] turns empty the queue ([goal_search_terminates],
    [escape_search_correct]); following parents takes at most as many steps as
    nodes were visited plus one; the loops of the synchroniser and of the worker
    take as many turns as their queues are long.  The segment
    oracles take fuel for the voxels between the two ends ([segment_fuel],
    [body_fuel]); the body oracle always ends within it, the plain one ends or is
    the spin of [segment_oracle_can_spin], the result [None]; the loops of the path
    projection have the constant numbers of turns of the source; [wrapAngle] takes [kWrapTurns] turns, enough for a difference of two
    results of [atan2].  The projection of the velocity limiter stops after 4096
    iterations, as in the source.  An operation of the PX4 mode is a finite
    program.  Theorems over runs of the authority that
    rely on its version counter assume fewer than [2^63] operations between
    observation and use, the exact condition under which a 64-bit counter that
    moves by at most two cannot wrap to its old value.

    ** What is a parameter, and what is not modelled

    Eigen's operations are the classes [EigenOps], [EigenNormOps], [EigenRotOps],
    [EigenFloatOps], [EigenMatOps], [EigenPoseOps], [LioEigen], [LioMatOps] and
    [CovOps], with the documented laws [EigenLaws] and
    [EigenArith] where a theorem needs them; the mathematical functions of the C
    library are [LibmOps] and [LioInitOps]; the vendored filter is [IkfomOps], the
    vendored search tree [KdTreeOps], the mutable voxel map [MapBackend]; the
    tie-breaking of [std::priority_queue] is [PqOps];
    the conversions of the PX4 ROS 2 library are [Px4Ros2].  Each has one concrete
    implementation, used by the witnesses.  Clock readings and the arming state
    are part of the environment of an operation.  Trajectory evaluators, world
    validators and the world view are functions stored in the bundles and
    snapshots, as in the code.  Not modelled: mission YAML loading and parameter
    loading, the planner backend's numerical optimisation (third-party solvers),
    the vendored voxel map and its adapter, the ROS nodes of the runtime and of
    FAST-LIO (wiring around modelled components), telemetry (metrics,
    traces, diagnostics), drivers, and vendored code.  The queue's memory orders
    are taken at their guarantee for one producer and one consumer (release
    stores are seen with what precedes them).

    ** Plan

    Next: the trajectory algebra under [navigation_planning/polynomial], the
    projection of estimates to the base frame, and the callbacks of the runtime
    node, whose decisions are calls of the modelled components.  *)

From stdpp Require Export base tactics option list numbers strings.
From Stdlib Require Export ZArith Lia Bool.

#[global] Open Scope Z_scope.

(** ** Notation scope of the development *)

Declare Scope nav_scope.
Delimit Scope nav_scope with nav.
#[global] Open Scope nav_scope.

(** Equality test on the enumerations of the source ([a == b] on an
    [enum class]); it computes through the [EqDecision] instance. *)
Notation "a ==? b" := (bool_decide (a = b)) (at level 70, no associativity) : nav_scope.
Notation "a !=? b" := (negb (bool_decide (a = b))) (at level 70, no associativity) : nav_scope.

(** [has p] is the contextual conversion of a [std::optional] or of a smart
    pointer to [bool]. *)
Definition has {A : Type} (o : option A) : bool :=
  match o with Some _ => true | None => false end.

(** ** Machine integers

    A [std::uint64_t], [std::int64_t] or [std::uint32_t] is a [Z] kept in its
    range; the arithmetic that can leave the range writes the wrap out. *)

Definition u64_max : Z := 2 ^ 64 - 1.
Definition i64_max : Z := 2 ^ 63 - 1.
Definition i64_min : Z := - 2 ^ 63.
Definition u32_max : Z := 2 ^ 32 - 1.
Definition i32_max : Z := 2 ^ 31 - 1.
Definition i32_min : Z := - 2 ^ 31.

Definition is_u64 (x : Z) : Prop := 0 <= x <= u64_max.
Definition is_i64 (x : Z) : Prop := i64_min <= x <= i64_max.
Definition is_u32 (x : Z) : Prop := 0 <= x <= u32_max.
Definition is_i32 (x : Z) : Prop := i32_min <= x <= i32_max.

(** Unsigned arithmetic modulo [2^64]. *)
Definition u64_add (a b : Z) : Z := (a + b) mod 2 ^ 64.
Definition u64_sub (a b : Z) : Z := (a - b) mod 2 ^ 64.
Definition u64_inc (a : Z) : Z := u64_add a 1.

(** ** Shared pointers to immutable objects

    The source passes every bundle and goal as [std::shared_ptr<const T>].  The
    pointee never changes, so a pointer is the address of the object together
    with its value; [get] is what the code compares, the value is what it reads. *)

Record shared (A : Type) : Type := Shared { sp_addr : positive; sp_obj : A }.
Arguments Shared {A} _ _.
Arguments sp_addr {A} _.
Arguments sp_obj {A} _.

Abbreviation ptr A := (option (shared A)).

Definition get {A : Type} (p : ptr A) : option positive := sp_addr <$> p.
Definition same_get {A : Type} (p q : ptr A) : bool := bool_decide (get p = get q).

(** Two live pointers to one address read one object. *)
Definition aliased {A : Type} (p q : ptr A) : Prop := get p = get q -> p = q.

(** ** Outcome of a callback the code runs inside a transaction

    The source catches every exception of such a callback, so raising is an
    outcome and not a divergence of the model. *)
Inductive callback_outcome : Type :=
| cb_returns (b : bool)
| cb_throws.

#[export] Instance callback_outcome_eq_dec : EqDecision callback_outcome.
Proof. solve_decision. Defined.

(** [try { r = static_cast<bool>(f()); } catch (...) { r = false; }] *)
Definition callback_ok (o : callback_outcome) : bool :=
  match o with cb_returns b => b | cb_throws => false end.

(** ** Finite runs of an operation language *)

Section Runs.
Context {state op : Type}.
Variable step : state -> op -> state.

Definition run (s : state) (ops : list op) : state := foldl step s ops.

Lemma run_app s ops1 ops2 : run s (ops1 ++ ops2) = run (run s ops1) ops2.
Proof. apply foldl_app. Qed.

Lemma run_snoc s ops o : run s (ops ++ [o]) = step (run s ops) o.
Proof. by rewrite run_app. Qed.

(** Rule induction over a run: an invariant kept by every operation holds
    after every sequence of operations. *)
Lemma run_invariant (I : state -> Prop) s ops :
  I s -> (forall s o, I s -> I (step s o)) -> I (run s ops).
Proof. revert s; induction ops as [|o ops IH]; intros s Hs Hstep; simpl; eauto. Qed.

(** A preorder respected by every operation relates the ends of a run. *)
Lemma run_preorder (R : state -> state -> Prop) s ops :
  Reflexive R -> Transitive R -> (forall s o, R s (step s o)) -> R s (run s ops).
Proof.
  intros Hr Ht Hstep; revert s; induction ops as [|o ops IH]; intros s; simpl; [reflexivity|].
  transitivity (step s o); auto.
Qed.

(** The same under an invariant. *)
Lemma run_preorder_inv (I : state -> Prop) (R : state -> state -> Prop) s ops :
  Reflexive R -> Transitive R -> I s ->
  (forall s o, I s -> I (step s o)) -> (forall s o, I s -> R s (step s o)) -> R s (run s ops).
Proof.
  intros Hr Ht Hs Hi Hstep; revert s Hs; induction ops as [|o ops IH]; intros s Hs; simpl;
    [reflexivity|].
  transitivity (step s o); auto.
Qed.
End Runs.

Arguments run {state op} step s ops.

(** ** Histories

    A concurrent object logs what happens to its items; its abstract
    specification is a partial machine that replays the log. *)

Section Histories.
Context {machine event : Type}.
Variable step : machine -> event -> option machine.

Fixpoint replay (m : machine) (es : list event) : option machine :=
  match es with
  | [] => Some m
  | e :: es => step m e ≫= fun m => replay m es
  end.

Lemma replay_app m es1 es2 : replay m (es1 ++ es2) = replay m es1 ≫= fun m => replay m es2.
Proof. revert m. induction es1 as [|e es1 IH]; intros m; simpl; [done|]. destruct (step m e); simpl; auto. Qed.

(** What every step keeps, a legal history keeps. *)
Lemma replay_invariant (I : machine -> Prop) m es m' :
  (forall m e m', I m -> e ∈ es -> step m e = Some m' -> I m') ->
  I m -> replay m es = Some m' -> I m'.
Proof.
  revert m. induction es as [|e es IH]; intros m Hs Hm; simpl; [by intros [= <-]|].
  intros (m1 & H1 & H2)%bind_Some. apply (IH m1); [|by apply (Hs m e); [|by left|]|done].
  intros m2 e2 m3 Hi He. apply Hs; [done|by right].
Qed.
End Histories.

Arguments replay {machine event} step m es.

(** The number of events of one kind. *)
Definition count_of {E : Type} (f : E -> bool) (es : list E) : Z :=
  Z.of_nat (length (List.filter f es)).

Lemma count_of_app {E} (f : E -> bool) es1 es2 : count_of f (es1 ++ es2) = count_of f es1 + count_of f es2.
Proof. unfold count_of. rewrite List.filter_app, length_app. lia. Qed.

Lemma count_of_cons {E} (f : E -> bool) e es :
  count_of f (e :: es) = (if f e then 1 else 0) + count_of f es.
Proof. unfold count_of. simpl. destruct (f e); simpl; lia. Qed.

Lemma count_of_nil {E} (f : E -> bool) : count_of f [] = 0.
Proof. done. Qed.

Definition occupied {A} (o : option A) : Z := if has o then 1 else 0.

(** ** Automation *)

Create HintDb nav discriminated.
Create Rewrite HintDb nav_bool.

(** Boolean guards of the code to propositions. *)
#[export] Hint Rewrite andb_true_iff orb_true_iff negb_true_iff andb_false_iff orb_false_iff
  negb_false_iff Z.eqb_eq Z.eqb_neq Z.ltb_lt Z.ltb_ge Z.leb_le Z.leb_gt
  bool_decide_eq_true bool_decide_eq_false : nav_bool.

Ltac breflect := autorewrite with nav_bool in *.

(** Split the conjunctions of the context after reflecting the guards. *)
Ltac bsplit := repeat (progress (breflect; destruct_and?)).

(** Case analysis on the innermost test of the goal or of a hypothesis. *)
Ltac guard_case :=
  match goal with
  | |- context [if ?b then _ else _] => destruct b eqn:?
  | H : context [if ?b then _ else _] |- _ => destruct b eqn:?
  end.

Ltac guard_cases := repeat (guard_case; simplify_eq/=).

Ltac u64_unfold :=
  unfold u64_inc, u64_add, u64_sub, is_u64, is_i64, is_u32, is_i32, u64_max, i64_max, i64_min,
    u32_max, i32_max, i32_min in *.

(** Linear arithmetic after unfolding the widths and the powers of two. *)
Ltac zlia :=
  u64_unfold;
  change (2 ^ 64) with 18446744073709551616 in *;
  change (2 ^ 63) with 9223372036854775808 in *;
  change (2 ^ 32) with 4294967296 in *; change (2 ^ 31) with 2147483648 in *;
  Z.to_euclidean_division_equations; lia.

(** ** Generic lemmas *)

Lemma has_true {A} (o : option A) : has o = true <-> is_Some o.
Proof. destruct o; simpl; split; intros H; try done; by destruct H. Qed.

Lemma has_false {A} (o : option A) : has o = false <-> o = None.
Proof. by destruct o. Qed.

#[export] Hint Rewrite @has_true @has_false : nav_bool.

Lemma get_none {A} (p : ptr A) : get p = None <-> p = None.
Proof. destruct p; naive_solver. Qed.

Lemma get_some {A} (p q : ptr A) : get p = get q -> is_Some p -> is_Some q.
Proof. destruct p, q; simpl; intros; try done; naive_solver. Qed.

Lemma same_get_refl {A} (p : ptr A) : same_get p p = true.
Proof. unfold same_get. by apply bool_decide_eq_true. Qed.

Lemma same_get_true {A} (p q : ptr A) : same_get p q = true <-> get p = get q.
Proof. apply bool_decide_eq_true. Qed.

Lemma same_get_false {A} (p q : ptr A) : same_get p q = false <-> get p <> get q.
Proof. apply bool_decide_eq_false. Qed.

#[export] Hint Rewrite @same_get_true @same_get_false : nav_bool.

Lemma u64_inc_range a : is_u64 (u64_inc a).
Proof. zlia. Qed.

Lemma u64_inc_small a : is_u64 a -> a <> u64_max -> u64_inc a = a + 1.
Proof. intros. zlia. Qed.

Lemma u64_inc_neq a : is_u64 a -> u64_inc a <> a.
Proof. intros. zlia. Qed.

Lemma u64_inc_inc_neq a : is_u64 a -> u64_inc (u64_inc a) <> a.
Proof. intros. zlia. Qed.

#[export] Hint Resolve u64_inc_range u64_inc_neq u64_inc_inc_neq : nav.
