(* ===== verification/Ordered.v ===== *)
(** * Lists ordered by a key, and the bisections of the standard library

    [std::lower_bound] and [std::upper_bound] over the queues and histories of the
    components, with their specifications on ordered lists. *)

From S2P Require Import Prelude.

(** ** [std::lower_bound]

    The bisection of the standard library over the positions of a list:
    [first] and [len] are the remaining range, [less] is the comparator applied
    to the searched value.  The length halves, so the length plus one is
    enough fuel. *)
Section LowerBound.
Context {A : Type} (less : A -> bool) (l : list A).

Fixpoint lower_bound_loop (fuel first len : nat) : nat :=
  match fuel with
  | O => first
  | S fuel =>
      match len with
      | O => first
      | _ =>
          let half := Nat.div2 len in
          let middle := (first + half)%nat in
          match l !! middle with
          | Some x =>
              if less x then lower_bound_loop fuel (S middle) (len - half - 1)%nat
              else lower_bound_loop fuel first half
          | None => first
          end
      end
  end.

Definition lower_bound : nat := lower_bound_loop (S (length l)) 0 (length l).

(** A range partitioned by the comparator. *)
Definition partitioned : Prop :=
  forall i j x y, (i <= j)%nat -> l !! i = Some x -> l !! j = Some y ->
  less y = true -> less x = true.

Lemma lower_bound_loop_spec fuel first len :
  partitioned -> (len < fuel)%nat -> (first + len <= length l)%nat ->
  (forall i x, (i < first)%nat -> l !! i = Some x -> less x = true) ->
  (forall i x, (first + len <= i)%nat -> l !! i = Some x -> less x = false) ->
  let r := lower_bound_loop fuel first len in
  (r <= length l)%nat /\
  (forall i x, (i < r)%nat -> l !! i = Some x -> less x = true) /\
  (forall i x, (r <= i)%nat -> l !! i = Some x -> less x = false).
Proof.
  intros Hp. revert first len; induction fuel as [|fuel IH]; intros first len Hf Hb Hlo Hhi; [lia|].
  destruct len as [|n].
  { simpl. split_and!; [lia|done|]. intros i x Hi. apply Hhi. lia. }
  cbn [lower_bound_loop]. set (half := Nat.div2 (S n)).
  assert (half < S n)%nat as Hhalf by (apply Nat.lt_div2; lia).
  destruct (lookup_lt_is_Some_2 l (first + half)) as [x Hx]; [lia|]. rewrite Hx.
  destruct (less x) eqn:Hl; apply IH; try lia.
  - intros i y Hi Hy. by eapply (Hp i (first + half)%nat y x); eauto; lia.
  - intros i y Hi. apply Hhi. lia.
  - done.
  - intros i y Hi Hy. destruct (less y) eqn:Hly; [|done].
    rewrite (Hp (first + half)%nat i x y) in Hl; eauto.
Qed.

Lemma lower_bound_spec :
  partitioned ->
  (lower_bound <= length l)%nat /\
  (forall i x, (i < lower_bound)%nat -> l !! i = Some x -> less x = true) /\
  (forall i x, (lower_bound <= i)%nat -> l !! i = Some x -> less x = false).
Proof.
  intros Hp. apply lower_bound_loop_spec; try done; try lia.
  intros i x Hi Hx. apply lookup_lt_Some in Hx. lia.
Qed.
End LowerBound.

(** ** Searches by a key *)

(** [std::upper_bound] by a key: the first element whose key is above [x]. *)
Definition upper_bound_by {A} (key : A -> Z) (x : Z) (l : list A) : nat :=
  lower_bound (fun a => negb (x <? key a)) l.

(** [std::lower_bound] by a key: the first element whose key is not below [x]. *)
Definition lower_bound_by {A} (key : A -> Z) (x : Z) (l : list A) : nat :=
  lower_bound (fun a => key a <? x) l.

(** [deque::insert] at a position *)
Definition insert_at {A} (n : nat) (a : A) (l : list A) : list A := take n l ++ a :: drop n l.

(** ** Lists ordered by a key *)

Section Ordered.
Context {A : Type} (key : A -> Z).

Definition ordered (l : list A) : Prop :=
  forall i j x y, (i <= j)%nat -> l !! i = Some x -> l !! j = Some y -> key x <= key y.

Definition strictly_ordered (l : list A) : Prop :=
  forall i j x y, (i < j)%nat -> l !! i = Some x -> l !! j = Some y -> key x < key y.

Lemma ordered_nil : ordered [].
Proof. by intros i j x y _ Hx. Qed.

Lemma ordered_drop n l : ordered l -> ordered (drop n l).
Proof.
  intros Ho i j x y Hij. rewrite !lookup_drop. apply Ho. lia.
Qed.

Lemma ordered_cons a l : ordered (a :: l) -> ordered l.
Proof. apply (ordered_drop 1). Qed.

Lemma ordered_app l1 l2 :
  ordered l1 -> ordered l2 -> (forall x y, x ∈ l1 -> y ∈ l2 -> key x <= key y) ->
  ordered (l1 ++ l2).
Proof.
  intros H1 H2 H12 i j x y Hij. rewrite !lookup_app.
  destruct (l1 !! i) as [a|] eqn:Hi, (l1 !! j) as [b|] eqn:Hj; intros Hx Hy; simplify_eq.
  - by eapply (H1 i j).
  - apply H12; eapply list_elem_of_lookup_2; eauto.
  - apply lookup_ge_None in Hi. apply lookup_lt_Some in Hj. lia.
  - apply lookup_ge_None in Hi, Hj. eapply (H2 (i - length l1)%nat (j - length l1)%nat); eauto. lia.
Qed.

Lemma ordered_take n l : ordered l -> ordered (take n l).
Proof.
  intros Ho i j x y Hij [Hx _]%lookup_take_Some [Hy _]%lookup_take_Some. by apply (Ho i j).
Qed.

Lemma ordered_last l x y : ordered l -> last l = Some y -> x ∈ l -> key x <= key y.
Proof.
  rewrite last_lookup. intros Ho Hy [i Hx]%list_elem_of_lookup_1.
  assert (i < length l)%nat by (by eapply lookup_lt_Some). by eapply (Ho i (pred (length l))); eauto; lia.
Qed.

Lemma ordered_head l x y : ordered l -> head l = Some y -> x ∈ l -> key y <= key x.
Proof.
  rewrite head_lookup. intros Ho Hy [i Hx]%list_elem_of_lookup_1. by eapply (Ho 0%nat i); eauto; lia.
Qed.

Lemma strictly_ordered_snoc l a :
  strictly_ordered l -> (forall x, x ∈ l -> key x < key a) -> strictly_ordered (l ++ [a]).
Proof.
  intros Ho Ha i j x y Hij Hx Hy. apply lookup_app_Some in Hy as [Hy|[Hj Hy]].
  - eapply (Ho i j); eauto. rewrite lookup_app_l in Hx; [done|]. apply lookup_lt_Some in Hy. lia.
  - apply list_lookup_singleton_Some in Hy as [Hj' <-].
    apply Ha. rewrite lookup_app_l in Hx by lia. by eapply list_elem_of_lookup_2.
Qed.

Lemma upper_bound_by_spec x l :
  ordered l ->
  (upper_bound_by key x l <= length l)%nat /\
  (forall i a, (i < upper_bound_by key x l)%nat -> l !! i = Some a -> key a <= x) /\
  (forall i a, (upper_bound_by key x l <= i)%nat -> l !! i = Some a -> x < key a).
Proof.
  intros Ho. destruct (lower_bound_spec (fun a => negb (x <? key a)) l) as (H1&H2&H3).
  - intros i j a b Hij Ha Hb Hlt. bsplit. specialize (Ho i j a b Hij Ha Hb). lia.
  - unfold upper_bound_by. split_and!; [done| |]; intros i a Hi Ha.
    + specialize (H2 i a Hi Ha). bsplit. lia.
    + specialize (H3 i a Hi Ha). bsplit. lia.
Qed.

Lemma lower_bound_by_spec x l :
  ordered l ->
  (lower_bound_by key x l <= length l)%nat /\
  (forall i a, (i < lower_bound_by key x l)%nat -> l !! i = Some a -> key a < x) /\
  (forall i a, (lower_bound_by key x l <= i)%nat -> l !! i = Some a -> x <= key a).
Proof.
  intros Ho. destruct (lower_bound_spec (fun a => key a <? x) l) as (H1&H2&H3).
  - intros i j a b Hij Ha Hb Hlt. bsplit. specialize (Ho i j a b Hij Ha Hb). lia.
  - unfold lower_bound_by. split_and!; [done| |]; intros i a Hi Ha.
    + specialize (H2 i a Hi Ha). bsplit. lia.
    + specialize (H3 i a Hi Ha). bsplit. lia.
Qed.
End Ordered.
