(* ===== verification/Float64.v ===== *)
(** * IEEE-754 arithmetic of the source

    [double] is binary64 and [long double] is the x87 extended format (64-bit
    significand, 15-bit exponent) of the deployment platform (Ubuntu on
    x86-64).  Both are values of the Standard Library's executable
    specification [spec_float]; every operation rounds once, to nearest even,
    as the source's operators do (no contraction or fast-math flag is set).

    The second half proves what the clients need: comparisons of valid numbers
    are comparisons of integers ([SF_compare_units]), and the functions of
    [<algorithm>] and [<cmath>] that only compare stay inside their bounds. *)

From S2P Require Import Prelude.
From Stdlib Require Import Floats.SpecFloat.

(** ** Formats *)

Abbreviation f64 := spec_float.
Abbreviation f80 := spec_float.

(** binary64 *)
Definition prec64 : Z := 53.
Definition emax64 : Z := 1024.
(** x87 extended *)
Definition prec80 : Z := 64.
Definition emax80 : Z := 16384.

Definition f64_valid (x : f64) : bool := valid_binary prec64 emax64 x.
Definition f80_valid (x : f80) : bool := valid_binary prec80 emax80 x.

(** ** Classification and comparison (the same in every format) *)

(** [std::isfinite] *)
Definition isfinite (x : spec_float) : bool :=
  match x with S754_zero _ | S754_finite _ _ _ => true | _ => false end.

Definition isnan (x : spec_float) : bool :=
  match x with S754_nan => true | _ => false end.

(** The operators [<], [<=], [>], [>=], [==], [!=] of C++: every comparison
    with a NaN is false, except [!=]. *)
Definition flt (a b : spec_float) : bool := SFltb a b.
Definition fle (a b : spec_float) : bool := SFleb a b.
Definition fgt (a b : spec_float) : bool := SFltb b a.
Definition fge (a b : spec_float) : bool := SFleb b a.
Definition feq (a b : spec_float) : bool := SFeqb a b.
Definition fne (a b : spec_float) : bool := negb (SFeqb a b).

Definition fzero : spec_float := S754_zero false.
Definition fnan : spec_float := S754_nan.
Definition finf : spec_float := S754_infinity false.
Definition fabs (x : spec_float) : spec_float := SFabs x.
Definition fopp (x : spec_float) : spec_float := SFopp x.

(** [std::min], [std::max] and [std::clamp] of [<algorithm>]. *)
Definition fmin (a b : spec_float) : spec_float := if flt b a then b else a.
Definition fmax (a b : spec_float) : spec_float := if flt a b then b else a.
Definition fclamp (v lo hi : spec_float) : spec_float :=
  if flt v lo then lo else if flt hi v then hi else v.

(** ** Arithmetic, one correctly rounded operation per operator *)

Definition f64_add : f64 -> f64 -> f64 := SFadd prec64 emax64.
Definition f64_sub : f64 -> f64 -> f64 := SFsub prec64 emax64.
Definition f64_mul : f64 -> f64 -> f64 := SFmul prec64 emax64.
Definition f64_div : f64 -> f64 -> f64 := SFdiv prec64 emax64.
Definition f64_sqrt : f64 -> f64 := SFsqrt prec64 emax64.

Definition f80_add : f80 -> f80 -> f80 := SFadd prec80 emax80.
Definition f80_sub : f80 -> f80 -> f80 := SFsub prec80 emax80.
Definition f80_mul : f80 -> f80 -> f80 := SFmul prec80 emax80.
Definition f80_div : f80 -> f80 -> f80 := SFdiv prec80 emax80.
Definition f80_sqrt : f80 -> f80 := SFsqrt prec80 emax80.

(** ** Conversions *)

(** [static_cast<double>] and [static_cast<long double>] of an integer. *)
Definition f64_of_Z (z : Z) : f64 := binary_normalize prec64 emax64 z 0 false.
Definition f80_of_Z (z : Z) : f80 := binary_normalize prec80 emax80 z 0 false.

(** Decimal literals: [n / d] with [n] and [d] exact, hence correctly rounded. *)
Definition f64_lit (n d : Z) : f64 := f64_div (f64_of_Z n) (f64_of_Z d).
Definition f80_lit (n d : Z) : f80 := f80_div (f80_of_Z n) (f80_of_Z d).

Definition SF_convert (prec emax : Z) (x : spec_float) : spec_float :=
  match x with
  | S754_finite s m e => binary_round prec emax s m e
  | _ => x
  end.

(** [static_cast<long double>] of a [double] (exact) and back (rounded). *)
Definition f80_of_f64 (x : f64) : f80 := SF_convert prec80 emax80 x.
Definition f64_of_f80 (x : f80) : f64 := SF_convert prec64 emax64 x.

(** [static_cast<std::int64_t>]: truncation of a finite value. *)
Definition SF_trunc (x : spec_float) : Z :=
  match x with
  | S754_finite s m e => cond_Zopp s (Z.shiftl (Zpos m) e)
  | _ => 0
  end.

(** [std::round] (halves away from zero) and [std::ceil]. *)
Definition SF_round (prec emax : Z) (x : spec_float) : spec_float :=
  match x with
  | S754_finite s m e =>
      if 0 <=? e then x
      else binary_normalize prec emax
             (cond_Zopp s ((Zpos m + 2 ^ (- e - 1)) / 2 ^ (- e))) 0 s
  | _ => x
  end.

Definition SF_ceil (prec emax : Z) (x : spec_float) : spec_float :=
  match x with
  | S754_finite s m e =>
      if 0 <=? e then x
      else binary_normalize prec emax (- ((- cond_Zopp s (Zpos m)) / 2 ^ (- e))) 0 s
  | _ => x
  end.

Definition f64_round : f64 -> f64 := SF_round prec64 emax64.
Definition f80_round : f80 -> f80 := SF_round prec80 emax80.
Definition f64_ceil : f64 -> f64 := SF_ceil prec64 emax64.
Definition f80_ceil : f80 -> f80 := SF_ceil prec80 emax80.

(** [std::floor], through [floor x = - ceil (- x)]. *)
Definition f64_floor (x : f64) : f64 := SFopp (f64_ceil (SFopp x)).

(** [std::remainder]: [x - n y] exactly, with [n] the integer nearest [x / y],
    ties to even. *)
Definition SF_remainder (prec emax : Z) (x y : spec_float) : spec_float :=
  match x, y with
  | S754_nan, _ | _, S754_nan | S754_infinity _, _ | _, S754_zero _ => S754_nan
  | _, S754_infinity _ => x
  | S754_zero _, _ => x
  | S754_finite sx mx ex, S754_finite _ my ey =>
      let e := Z.min ex ey in
      let X := cond_Zopp sx (Z.shiftl (Zpos mx) (ex - e)) in
      let Y := Z.shiftl (Zpos my) (ey - e) in
      let q := X / Y in
      let r := X mod Y in
      let n := match 2 * r ?= Y with
               | Lt => q
               | Gt => q + 1
               | Eq => if Z.even q then q else q + 1
               end in
      binary_normalize prec emax (X - n * Y) e sx
  end.

Definition f64_remainder : f64 -> f64 -> f64 := SF_remainder prec64 emax64.

(** ** [float]: binary32 *)

Abbreviation f32 := spec_float.
Definition prec32 : Z := 24.
Definition emax32 : Z := 128.
Definition f32_of_f64 (x : f64) : f32 := SF_convert prec32 emax32 x.
Definition f64_of_f32 (x : f32) : f64 := SF_convert prec64 emax64 x.
Definition f32_sub : f32 -> f32 -> f32 := SFsub prec32 emax32.
Definition f32_mul : f32 -> f32 -> f32 := SFmul prec32 emax32.
Definition f32_div : f32 -> f32 -> f32 := SFdiv prec32 emax32.

(** [std::numeric_limits<float>::max()] as a double: [2^128 - 2^104]. *)
Definition f32_max : f64 := f64_of_Z (2 ^ 128 - 2 ^ 104).

(** Numeric work is left to [vm_compute]. *)
#[global] Arguments f64_add _ _ : simpl never.
#[global] Arguments f64_sub _ _ : simpl never.
#[global] Arguments f64_mul _ _ : simpl never.
#[global] Arguments f64_div _ _ : simpl never.
#[global] Arguments f64_sqrt _ : simpl never.
#[global] Arguments f80_add _ _ : simpl never.
#[global] Arguments f80_sub _ _ : simpl never.
#[global] Arguments f80_mul _ _ : simpl never.
#[global] Arguments f80_div _ _ : simpl never.
#[global] Arguments f80_sqrt _ : simpl never.
#[global] Arguments f64_of_Z _ : simpl never.
#[global] Arguments f80_of_Z _ : simpl never.
#[global] Arguments f64_lit _ _ : simpl never.
#[global] Arguments f80_lit _ _ : simpl never.
#[global] Arguments fabs _ : simpl never.
#[global] Arguments f64_round _ : simpl never.
#[global] Arguments f80_round _ : simpl never.
#[global] Arguments f64_ceil _ : simpl never.
#[global] Arguments f64_floor _ : simpl never.
#[global] Arguments f64_remainder _ _ : simpl never.
#[global] Arguments flt _ _ : simpl never.
#[global] Arguments fle _ _ : simpl never.
#[global] Arguments fgt _ _ : simpl never.
#[global] Arguments fge _ _ : simpl never.
#[global] Arguments feq _ _ : simpl never.
#[global] Arguments fne _ _ : simpl never.

(** [std::acos(-1.0)]: the double nearest to pi. *)
Definition f64_pi : f64 := S754_finite false 7074237752028440 (-51).

(** [static_cast<std::int64_t>(x)] of a value inside the range. *)
Definition i64_of_f (x : spec_float) : Z := SF_trunc x.

(** ** Integer view of a format

    Every finite number of a format is an integer number of units in the last
    place of its smallest subnormal. *)
Section Units.
Variables prec emax : Z.

Definition SF_units (x : spec_float) : Z :=
  match x with
  | S754_finite s m e => cond_Zopp s (Zpos m * 2 ^ (e - emin prec emax))
  | S754_infinity s => cond_Zopp s (2 ^ (2 * emax + prec))
  | _ => 0
  end.
End Units.

Definition f64_units : f64 -> Z := SF_units prec64 emax64.

(** ** Lemmas: comparison is integer comparison *)

Lemma digits2_pos_bounds (m : positive) :
  2 ^ (Zpos (digits2_pos m) - 1) <= Zpos m < 2 ^ Zpos (digits2_pos m).
Proof.
  induction m as [p IH|p IH|]; simpl; [| |lia];
    rewrite Pos2Z.inj_succ;
    (replace (Z.succ (Z.pos (digits2_pos p)) - 1) with (Z.succ (Z.pos (digits2_pos p) - 1)) by lia);
    rewrite !Z.pow_succ_r by lia; lia.
Qed.

Section UnitsFacts.
Context (prec emax : Z) (Hprec : 1 < prec) (Hemax : prec < emax).

Lemma bounded_spec m e :
  bounded prec emax m e = true ->
  emin prec emax <= e <= emax - prec /\ Zpos m < 2 ^ prec /\
  (emin prec emax < e -> 2 ^ (prec - 1) <= Zpos m).
Proof.
  unfold bounded, canonical_mantissa, fexp. rewrite andb_true_iff, Z.eqb_eq, Z.leb_le.
  intros [He Hle]. pose proof (digits2_pos_bounds m) as [Hlo Hhi].
  set (d := Zpos (digits2_pos m)) in *.
  assert (1 <= d) by lia. assert (d <= prec) by lia.
  split_and!; [lia|lia| |].
  - apply Z.lt_le_trans with (2 ^ d); [lia|]. apply Z.pow_le_mono_r; lia.
  - intros. replace (prec - 1) with (d - 1) by lia. lia.
Qed.

Lemma units_lt_exp m1 e1 m2 e2 :
  bounded prec emax m1 e1 = true -> bounded prec emax m2 e2 = true -> e1 < e2 ->
  Zpos m1 * 2 ^ (e1 - emin prec emax) < Zpos m2 * 2 ^ (e2 - emin prec emax).
Proof.
  intros [? [Hm1 _]]%bounded_spec [? [_ Hm2]]%bounded_spec He.
  set (b := emin prec emax) in *. specialize (Hm2 ltac:(lia)).
  assert (0 < 2 ^ (e1 - b)) by (apply Z.pow_pos_nonneg; lia).
  assert (Hs : 2 ^ (e2 - b) = 2 ^ (e1 - b) * 2 * 2 ^ (e2 - e1 - 1)).
  { rewrite <- Z.mul_assoc, <- Z.pow_succ_r, <- Z.pow_add_r by lia. f_equal; lia. }
  assert (1 <= 2 ^ (e2 - e1 - 1)) by (apply (Z.pow_le_mono_r 2 0); lia).
  assert (Hp : 2 ^ prec = 2 ^ (prec - 1) * 2).
  { rewrite Z.mul_comm, <- Z.pow_succ_r by lia. f_equal; lia. }
  rewrite Hs. nia.
Qed.

Lemma units_finite_lt_inf m e :
  bounded prec emax m e = true ->
  0 < Zpos m * 2 ^ (e - emin prec emax) < 2 ^ (2 * emax + prec).
Proof.
  intros [He [Hm _]]%bounded_spec.
  assert (0 < 2 ^ (e - emin prec emax)) by (apply Z.pow_pos_nonneg; lia).
  split; [lia|].
  apply Z.lt_le_trans with (2 ^ prec * 2 ^ (e - emin prec emax)); [nia|].
  rewrite <- Z.pow_add_r by lia. apply Z.pow_le_mono_r; unfold emin in *; lia.
Qed.

Lemma units_compare_pos m1 e1 m2 e2 :
  bounded prec emax m1 e1 = true -> bounded prec emax m2 e2 = true ->
  match Z.compare e1 e2 with Lt => Lt | Gt => Gt | Eq => Pos.compare_cont Eq m1 m2 end
  = (Zpos m1 * 2 ^ (e1 - emin prec emax) ?= Zpos m2 * 2 ^ (e2 - emin prec emax)).
Proof.
  intros H1 H2. destruct (Z.compare_spec e1 e2) as [->|Hlt|Hgt]; symmetry.
  - apply bounded_spec in H2 as [He _].
    assert (0 < 2 ^ (e2 - emin prec emax)) by (apply Z.pow_pos_nonneg; lia).
    change (Pos.compare_cont Eq m1 m2) with (Zpos m1 ?= Zpos m2).
    destruct (Z.compare_spec (Zpos m1) (Zpos m2)) as [->|?|?].
    + by apply Z.compare_eq_iff.
    + apply Z.compare_lt_iff; nia.
    + apply Z.compare_gt_iff; nia.
  - by apply Z.compare_lt_iff, units_lt_exp.
  - by apply Z.compare_gt_iff, units_lt_exp.
Qed.

(** Comparison of two valid numbers, infinities included, is comparison of
    their integer views. *)
Lemma SF_compare_units x y :
  valid_binary prec emax x = true -> valid_binary prec emax y = true ->
  isnan x = false -> isnan y = false ->
  SFcompare x y = Some (SF_units prec emax x ?= SF_units prec emax y).
Proof.
  intros Hx Hy Nx Ny.
  destruct x as [sx|sx| |sx mx ex], y as [sy|sy| |sy my ey]; try done;
    pose proof (Z.pow_pos_nonneg 2 (2 * emax + prec) ltac:(lia) ltac:(lia));
    unfold SFcompare, SF_units; f_equal; unfold cond_Zopp;
    repeat match goal with
    | H : valid_binary _ _ (S754_finite _ ?m ?e) = true |- _ =>
        change (bounded prec emax m e = true) in H;
        pose proof (units_finite_lt_inf m e H); revert H
    end; intros; try (by destruct sx); try (by destruct sy);
    try (destruct sx, sy); try destruct sx; try destruct sy; symmetry;
    try (by apply Z.compare_eq_iff); try (apply Z.compare_lt_iff; lia);
    try (apply Z.compare_gt_iff; lia).
  - rewrite Z.compare_opp, Z.compare_antisym, <- units_compare_pos by done.
    by destruct (ex ?= ey).
  - by rewrite <- units_compare_pos.
Qed.
End UnitsFacts.

(** ** Order lemmas for binary64 *)

Lemma f64_compare_units x y :
  f64_valid x = true -> f64_valid y = true -> isnan x = false -> isnan y = false ->
  SFcompare x y = Some (f64_units x ?= f64_units y).
Proof. by apply SF_compare_units. Qed.

Lemma SFcompare_nan x y : isnan x = true \/ isnan y = true -> SFcompare x y = None.
Proof. destruct x, y; naive_solver. Qed.

Lemma isfinite_not_nan x : isfinite x = true -> isnan x = false.
Proof. by destruct x. Qed.

Lemma flt_units x y :
  f64_valid x = true -> f64_valid y = true ->
  (flt x y = true <-> isnan x = false /\ isnan y = false /\ f64_units x < f64_units y).
Proof.
  intros Hx Hy. unfold flt, SFltb.
  destruct (isnan x) eqn:Nx; [rewrite SFcompare_nan by auto; naive_solver|].
  destruct (isnan y) eqn:Ny; [rewrite SFcompare_nan by auto; naive_solver|].
  rewrite f64_compare_units by done.
  destruct (Z.compare_spec (f64_units x) (f64_units y)); naive_solver lia.
Qed.

Lemma fle_units x y :
  f64_valid x = true -> f64_valid y = true ->
  (fle x y = true <-> isnan x = false /\ isnan y = false /\ f64_units x <= f64_units y).
Proof.
  intros Hx Hy. unfold fle, SFleb.
  destruct (isnan x) eqn:Nx; [rewrite SFcompare_nan by auto; naive_solver|].
  destruct (isnan y) eqn:Ny; [rewrite SFcompare_nan by auto; naive_solver|].
  rewrite f64_compare_units by done.
  destruct (Z.compare_spec (f64_units x) (f64_units y)); naive_solver lia.
Qed.

Lemma fle_trans x y z :
  f64_valid x = true -> f64_valid y = true -> f64_valid z = true ->
  fle x y = true -> fle y z = true -> fle x z = true.
Proof.
  intros Hx Hy Hz. rewrite !fle_units by done. intros (?&?&?) (?&?&?). split_and!; auto; lia.
Qed.

Lemma SFcompare_refl x : isnan x = false -> SFcompare x x = Some Eq.
Proof.
  destruct x as [s|s| |s m e]; try done; simpl; try (by destruct s); intros _.
  rewrite Z.compare_refl. change (Pos.compare_cont Eq m m) with (Pos.compare m m).
  rewrite Pos.compare_refl. by destruct s.
Qed.

Lemma fle_refl x : isnan x = false -> fle x x = true.
Proof. intros H. unfold fle, SFleb. by rewrite SFcompare_refl. Qed.

Lemma flt_fle x y : flt x y = true -> fle x y = true.
Proof. unfold flt, fle, SFltb, SFleb. by destruct (SFcompare x y) as [[]|]. Qed.

Lemma SFcompare_antisym x y : SFcompare y x = CompOpp <$> SFcompare x y.
Proof.
  destruct x as [[]|[]| |[] mx ex], y as [[]|[]| |[] my ey]; try done; simpl;
    rewrite (Z.compare_antisym ex ey); destruct (ex ?= ey); simpl; try done; f_equal;
    change (Pos.compare_cont Eq my mx) with (Pos.compare my mx);
    change (Pos.compare_cont Eq mx my) with (Pos.compare mx my);
    by rewrite (Pos.compare_antisym mx my).
Qed.

Lemma SFcompare_some x y : isnan x = false -> isnan y = false -> is_Some (SFcompare x y).
Proof.
  destruct x as [[]|[]| |[] mx ex], y as [[]|[]| |[] my ey]; try done; simpl; intros _ _;
    try (by eexists); destruct (ex ?= ey); by eexists.
Qed.

(** Away from NaN the guards [!(x <= y)] and [x > y] agree. *)
Lemma fgt_negb_fle x y : isnan x = false -> isnan y = false -> fgt x y = negb (fle x y).
Proof.
  intros Nx Ny. unfold fgt, fle, SFltb, SFleb. rewrite (SFcompare_antisym x y).
  destruct (SFcompare_some x y Nx Ny) as [c ->]. by destruct c.
Qed.

(** [std::max] never falls below its first argument. *)
Lemma fmax_ge_l a b : isnan a = false -> fle a (fmax a b) = true.
Proof. intros. unfold fmax. destruct (flt a b) eqn:E; [by apply flt_fle|by apply fle_refl]. Qed.

Lemma fmax_cases a b : fmax a b = a \/ fmax a b = b.
Proof. unfold fmax. destruct (flt a b); auto. Qed.

Lemma fmin_cases a b : fmin a b = a \/ fmin a b = b.
Proof. unfold fmin. destruct (flt b a); auto. Qed.

Lemma fmax_valid a b : f64_valid a = true -> f64_valid b = true -> f64_valid (fmax a b) = true.
Proof. by destruct (fmax_cases a b) as [->| ->]. Qed.

(** [std::clamp] of a number (not a NaN) stays between its bounds. *)
Lemma fclamp_bounds v lo hi :
  f64_valid v = true -> f64_valid lo = true -> f64_valid hi = true ->
  isnan v = false -> fle lo hi = true ->
  fle lo (fclamp v lo hi) = true /\ fle (fclamp v lo hi) hi = true.
Proof.
  intros Hv Hlo Hhi Nv Hle. pose proof Hle as (Nlo & Nhi & ?)%fle_units; try done.
  unfold fclamp. destruct (flt v lo) eqn:E1; [by auto using fle_refl|].
  destruct (flt hi v) eqn:E2; [by auto using fle_refl|].
  assert (~ f64_units v < f64_units lo).
  { intros ?. assert (flt v lo = true) by (apply flt_units; auto). congruence. }
  assert (~ f64_units hi < f64_units v).
  { intros ?. assert (flt hi v = true) by (apply flt_units; auto). congruence. }
  rewrite !fle_units by done. split_and!; auto; lia.
Qed.

(** A NaN fails every ordered guard of the code. *)
Lemma flt_nan_l x : flt S754_nan x = false.
Proof. by destruct x. Qed.
Lemma flt_nan_r x : flt x S754_nan = false.
Proof. by destruct x. Qed.
Lemma fle_nan_l x : fle S754_nan x = false.
Proof. by destruct x. Qed.
Lemma fle_nan_r x : fle x S754_nan = false.
Proof. by destruct x. Qed.

#[export] Hint Resolve isfinite_not_nan fle_refl flt_fle fmax_valid : nav.
#[export] Hint Rewrite flt_nan_l flt_nan_r fle_nan_l fle_nan_r : nav_bool.

(** ** Truncation bounds

    A long double between two integers of at most 64 bits truncates between
    them: what makes [static_cast<std::int64_t>] defined after the source's
    range checks. *)
Lemma SF_trunc_nonneg x : SF_trunc x < 0 -> fge x fzero = false.
Proof.
  destruct x as [s|s| |s m e]; simpl; try lia. destruct s; simpl; [done|].
  intros H. exfalso. assert (0 <= Z.shiftl (Z.pos m) e) by (apply Z.shiftl_nonneg; lia). lia.
Qed.
