(* ===== verification/Float64Facts.v ===== *)
(** * Rounding keeps numbers canonical

    Every arithmetic operation of [Float64] returns a canonical number of its
    format ([f64_valid], [f80_valid]): the side condition of the comparison
    lemmas is discharged for computed values, and so are the bounds of the
    float-to-integer conversions. *)

From S2P Require Import Prelude Float64.
From Stdlib Require Import Floats.SpecFloat.

(** ** Digits *)

Lemma Zdigits2_nonneg m : 0 <= Zdigits2 m.
Proof. by destruct m. Qed.

Lemma Zdigits2_bounds m : 0 < m -> 2 ^ (Zdigits2 m - 1) <= m < 2 ^ Zdigits2 m.
Proof. destruct m as [|p|p]; try lia. intros _. apply digits2_pos_bounds. Qed.

Lemma Zdigits2_lt m : 0 <= m -> m < 2 ^ Zdigits2 m.
Proof. destruct m as [|p|p]; try lia; intros _; [simpl; lia|]. apply digits2_pos_bounds. Qed.

Lemma Zdigits2_ge_iff m k : 0 <= m -> 0 < k -> (k <= Zdigits2 m <-> 2 ^ (k - 1) <= m).
Proof.
  intros Hm Hk. destruct (decide (m = 0)) as [->|Hm0].
  { simpl. split; [lia|]. assert (0 < 2 ^ (k - 1)) by (apply Z.pow_pos_nonneg; lia). lia. }
  pose proof (Zdigits2_bounds m ltac:(lia)) as [Hlo Hhi]. split.
  - intros. apply Z.le_trans with (2 ^ (Zdigits2 m - 1)); [apply Z.pow_le_mono_r; lia|done].
  - intros. destruct (Z.le_gt_cases k (Zdigits2 m)); [done|].
    assert (2 ^ Zdigits2 m <= 2 ^ (k - 1)) by (apply Z.pow_le_mono_r; lia). lia.
Qed.

Lemma Zdigits2_mono m n : 0 <= m <= n -> Zdigits2 m <= Zdigits2 n.
Proof.
  intros. destruct (decide (Zdigits2 m = 0)) as [->|]; [apply Zdigits2_nonneg|].
  pose proof (Zdigits2_nonneg m). assert (0 < m) by (destruct (decide (m = 0)); subst; simpl in *; lia).
  pose proof (Zdigits2_bounds m ltac:(lia)). apply Zdigits2_ge_iff; lia.
Qed.

Lemma Zdigits2_unique m k : 0 < k -> 2 ^ (k - 1) <= m < 2 ^ k -> Zdigits2 m = k.
Proof.
  intros Hk [Hlo Hhi]. assert (0 < 2 ^ (k - 1)) by (apply Z.pow_pos_nonneg; lia).
  assert (k <= Zdigits2 m) by (apply Zdigits2_ge_iff; lia).
  destruct (Z.le_gt_cases (k + 1) (Zdigits2 m)) as [Hc|]; [|lia].
  apply Zdigits2_ge_iff in Hc; [|lia..]. replace (k + 1 - 1) with k in Hc by lia. lia.
Qed.

Lemma Zdigits2_shiftr m n : 0 < m / 2 ^ n -> 0 < m -> 0 <= n -> Zdigits2 (m / 2 ^ n) = Zdigits2 m - n.
Proof.
  intros Hq Hm Hn. pose proof (Zdigits2_bounds m Hm) as [Hlo Hhi].
  assert (Hp : 0 < 2 ^ n) by (apply Z.pow_pos_nonneg; lia).
  assert (n < Zdigits2 m).
  { destruct (Z.le_gt_cases (Zdigits2 m) n); [|done].
    assert (2 ^ Zdigits2 m <= 2 ^ n) by (apply Z.pow_le_mono_r; [lia|done]).
    rewrite Z.div_small in Hq; lia. }
  apply Zdigits2_unique; [lia|]. split.
  - apply Z.div_le_lower_bound; [done|]. rewrite <- Z.pow_add_r by lia.
    by replace (n + (Zdigits2 m - n - 1)) with (Zdigits2 m - 1) by lia.
  - apply Z.div_lt_upper_bound; [done|]. rewrite <- Z.pow_add_r by lia.
    by replace (n + (Zdigits2 m - n)) with (Zdigits2 m) by lia.
Qed.

Lemma Zdigits2_shiftl m d : 0 < m -> 0 <= d -> Zdigits2 (m * 2 ^ d) = Zdigits2 m + d.
Proof.
  intros Hm Hd. pose proof (Zdigits2_bounds m Hm) as [Hlo Hhi].
  assert (1 <= Zdigits2 m) by (apply Zdigits2_ge_iff; simpl; lia).
  assert (0 < 2 ^ d) by (apply Z.pow_pos_nonneg; lia).
  apply Zdigits2_unique; [lia|].
  replace (Zdigits2 m + d - 1) with (Zdigits2 m - 1 + d) by lia.
  rewrite !Z.pow_add_r by lia. nia.
Qed.

Lemma Pos_iter_xO m d : Zpos (Pos.iter xO m d) = Zpos m * 2 ^ Zpos d.
Proof.
  induction d as [|d IH] using Pos.peano_ind; [simpl; lia|].
  rewrite Pos.iter_succ, Pos2Z.inj_succ, Z.pow_succ_r by lia.
  change (Zpos (Pos.iter xO m d)~0) with (2 * Zpos (Pos.iter xO m d)). rewrite IH. lia.
Qed.

(** ** The shift of the rounding *)

Lemma shr_1_m mrs : 0 <= shr_m mrs -> shr_m (shr_1 mrs) = shr_m mrs / 2.
Proof.
  destruct mrs as [m r s]. simpl. intros Hm.
  destruct m as [|[p|p|]|p]; simpl; try lia; try done.
  - change (Zpos p~1) with (2 * Zpos p + 1). rewrite Z.mul_comm, Z.div_add_l by lia. change (1 / 2) with 0. lia.
  - change (Zpos p~0) with (2 * Zpos p). rewrite Z.mul_comm, Z.div_mul by lia. done.
Qed.

Lemma iter_shr_1_m p mrs :
  0 <= shr_m mrs -> shr_m (iter_pos shr_1 p mrs) = shr_m mrs / 2 ^ Zpos p.
Proof.
  assert (Hp : forall q, 0 < 2 ^ Zpos q) by (intros; by apply Z.pow_pos_nonneg).
  revert mrs. induction p as [p IH|p IH|]; intros mrs Hm; simpl; [| |by apply shr_1_m].
  - assert (H1 : 0 <= shr_m (shr_1 mrs)) by (rewrite shr_1_m by done; by apply Z.div_pos).
    assert (H2 : 0 <= shr_m (iter_pos shr_1 p (shr_1 mrs))) by (rewrite IH by done; by apply Z.div_pos).
    rewrite (IH _ H2), (IH _ H1), shr_1_m by done.
    rewrite !Z.div_div by (try apply Z.neq_sym, Z.lt_neq; auto; lia).
    replace (Z.pos p~1) with (1 + Z.pos p + Z.pos p) by lia.
    rewrite !Z.pow_add_r by lia. f_equal; lia.
  - assert (H2 : 0 <= shr_m (iter_pos shr_1 p mrs)) by (rewrite IH by done; by apply Z.div_pos).
    rewrite (IH _ H2), (IH _ Hm), Z.div_div by (try apply Z.neq_sym, Z.lt_neq; auto).
    replace (Z.pos p~0) with (Z.pos p + Z.pos p) by lia. by rewrite Z.pow_add_r by lia.
Qed.

Lemma shr_record_of_loc_m m l : shr_m (shr_record_of_loc m l) = m.
Proof. by destruct l as [|[]]. Qed.

Section Rounding.
Context (prec emax : Z) (Hprec : 1 < prec) (Hemax : prec < emax).

#[local] Abbreviation fexp := (fexp prec emax).
#[local] Abbreviation emin := (emin prec emax).

Lemma fexp_mono a b : a <= b -> fexp a <= fexp b.
Proof. unfold SpecFloat.fexp. lia. Qed.

Lemma shr_fexp_m m e l mrs e' :
  0 <= m -> e <= fexp (Zdigits2 m + e) -> shr_fexp prec emax m e l = (mrs, e') ->
  e' = fexp (Zdigits2 m + e) /\ shr_m mrs = m / 2 ^ (e' - e).
Proof.
  intros Hm He. unfold shr_fexp, shr.
  destruct (fexp (Zdigits2 m + e) - e) as [|p|p] eqn:En; intros [= <- <-]; try lia.
  - split; [lia|]. by rewrite shr_record_of_loc_m, Z.sub_diag, Z.div_1_r.
  - split; [lia|]. rewrite iter_shr_1_m; rewrite shr_record_of_loc_m; [|done].
    by replace (e + Z.pos p - e) with (Z.pos p) by lia.
Qed.

(** After the shift a nonzero mantissa is canonical; a zero one is at the
    smallest exponent. *)
Lemma shr_fexp_canonical m e l mrs e' :
  0 <= m -> e <= fexp (Zdigits2 m + e) -> shr_fexp prec emax m e l = (mrs, e') ->
  0 <= shr_m mrs /\ emin <= e' /\ (0 < shr_m mrs -> fexp (Zdigits2 (shr_m mrs) + e') = e') /\
  (shr_m mrs = 0 -> e' = emin).
Proof.
  intros Hm He Hs. apply shr_fexp_m in Hs as [-> Hq]; [|done..].
  set (f := fexp (Zdigits2 m + e)) in *.
  assert (0 < 2 ^ (f - e)) by (apply Z.pow_pos_nonneg; lia).
  assert (0 <= shr_m mrs) by (rewrite Hq; by apply Z.div_pos).
  split_and!; [done|unfold f, SpecFloat.fexp; lia| |].
  - intros Hpos. rewrite Hq in *. destruct (decide (m = 0)) as [->|].
    { rewrite Z.div_0_l in Hpos; lia. }
    rewrite Zdigits2_shiftr by lia. unfold f. f_equal. lia.
  - intros Hz. rewrite Hz in Hq. symmetry in Hq. apply Z.div_small_iff in Hq; [|lia].
    destruct Hq as [[_ Hq]|]; [|lia].
    assert (Zdigits2 m <= f - e).
    { destruct (decide (Zdigits2 m = 0)) as [->|]; [lia|].
      pose proof (Zdigits2_nonneg m).
      destruct (Z.le_gt_cases (Zdigits2 m) (f - e)); [done|].
      assert (2 ^ (f - e) <= 2 ^ (Zdigits2 m - 1)) by (apply Z.pow_le_mono_r; lia).
      assert (2 ^ (Zdigits2 m - 1) <= m); [|lia].
      apply Zdigits2_bounds. destruct (decide (m = 0)); subst; simpl in *; lia. }
    unfold f, SpecFloat.fexp in *. lia.
Qed.

Lemma round_nearest_even_cases m l :
  round_nearest_even m l = m \/ round_nearest_even m l = m + 1.
Proof. destruct l as [|[]]; simpl; auto. destruct (Z.even m); auto. Qed.

Lemma binary_round_aux_valid s m e l :
  0 <= m -> e <= fexp (Zdigits2 m + e) ->
  valid_binary prec emax (binary_round_aux prec emax s m e l) = true.
Proof.
  intros Hm He. unfold binary_round_aux.
  destruct (shr_fexp prec emax m e l) as [mrs1 e1] eqn:E1.
  apply shr_fexp_canonical in E1 as (H1 & Hmin1 & Hc1 & Hz1); [|done..].
  destruct (shr_fexp prec emax (round_nearest_even _ _) e1 _) as [mrs2 e2] eqn:E2.
  set (r := round_nearest_even _ _) in *.
  assert (Hr : r = shr_m mrs1 \/ r = shr_m mrs1 + 1) by apply round_nearest_even_cases.
  assert (e1 <= fexp (Zdigits2 r + e1)) as Hle.
  { destruct (decide (shr_m mrs1 = 0)) as [Hz|Hnz].
    - rewrite (Hz1 Hz). unfold SpecFloat.fexp. lia.
    - rewrite <- (Hc1 ltac:(lia)) at 1. apply fexp_mono.
      pose proof (Zdigits2_mono (shr_m mrs1) r). lia. }
  apply shr_fexp_canonical in E2 as (H2 & Hmin2 & Hc2 & Hz2); [|lia|done].
  destruct (shr_m mrs2) as [|p|p] eqn:Ep; try done.
  destruct (e2 <=? emax - prec) eqn:Hb; [|done]. simpl. unfold bounded, canonical_mantissa.
  rewrite Hb, andb_true_r. apply Z.eqb_eq. apply (Hc2 ltac:(lia)).
Qed.

Lemma binary_round_valid s m e :
  valid_binary prec emax (binary_round prec emax s m e) = true.
Proof.
  unfold binary_round, shl_align.
  set (f := fexp (Z.pos (digits2_pos m) + e)).
  destruct (f - e) as [|p|p] eqn:Ef; apply binary_round_aux_valid; try lia;
    try (change (Zdigits2 (Z.pos m)) with (Z.pos (digits2_pos m)); fold f; lia).
  rewrite Pos_iter_xO, Zdigits2_shiftl by lia. simpl. unfold f in *.
  replace (Z.pos (digits2_pos m) + Z.pos p + (fexp (Z.pos (digits2_pos m) + e)))
    with (Z.pos (digits2_pos m) + e) by lia. lia.
Qed.

Lemma binary_normalize_valid m e s :
  valid_binary prec emax (binary_normalize prec emax m e s) = true.
Proof. destruct m; [done|apply binary_round_valid..]. Qed.

Lemma SF_convert_valid' x : valid_binary prec emax (SF_convert prec emax x) = true.
Proof. destruct x; try done. apply binary_round_valid. Qed.

Lemma SFadd_valid x y :
  valid_binary prec emax x = true -> valid_binary prec emax y = true ->
  valid_binary prec emax (SFadd prec emax x y) = true.
Proof.
  intros Hx Hy. destruct x as [[]|[]| |? ? ?], y as [[]|[]| |? ? ?]; try done.
  all: apply binary_normalize_valid.
Qed.

Lemma SFsub_valid x y :
  valid_binary prec emax x = true -> valid_binary prec emax y = true ->
  valid_binary prec emax (SFsub prec emax x y) = true.
Proof.
  intros Hx Hy. destruct x as [[]|[]| |? ? ?], y as [[]|[]| |? ? ?]; try done.
  all: apply binary_normalize_valid.
Qed.

Lemma SFmul_valid x y :
  valid_binary prec emax x = true -> valid_binary prec emax y = true ->
  valid_binary prec emax (SFmul prec emax x y) = true.
Proof.
  intros Hx Hy. destruct x as [sx|sx| |sx mx ex], y as [sy|sy| |sy my ey]; try done.
  change (bounded prec emax mx ex = true) in Hx. change (bounded prec emax my ey = true) in Hy.
  pose proof (bounded_spec _ _ Hprec _ _ Hx) as (? & ? & Hx').
  pose proof (bounded_spec _ _ Hprec _ _ Hy) as (? & ? & Hy').
  apply binary_round_aux_valid; [lia|]. rewrite Pos2Z.inj_mul.
  assert (Hd : ex = emin \/ prec <= Zdigits2 (Z.pos mx)).
  { destruct (decide (ex = emin)); [auto|right]. apply Zdigits2_ge_iff; [lia..|apply Hx'; lia]. }
  assert (Hd' : ey = emin \/ prec <= Zdigits2 (Z.pos my)).
  { destruct (decide (ey = emin)); [auto|right]. apply Zdigits2_ge_iff; [lia..|apply Hy'; lia]. }
  assert (Zdigits2 (Z.pos mx) <= Zdigits2 (Z.pos mx * Z.pos my)) by (apply Zdigits2_mono; nia).
  assert (Zdigits2 (Z.pos my) <= Zdigits2 (Z.pos mx * Z.pos my)) by (apply Zdigits2_mono; nia).
  unfold SpecFloat.fexp. destruct Hd, Hd'; unfold SpecFloat.emin in *; lia.
Qed.

Lemma SFdiv_valid x y :
  valid_binary prec emax x = true -> valid_binary prec emax y = true ->
  valid_binary prec emax (SFdiv prec emax x y) = true.
Proof.
  intros _ _. destruct x as [sx|sx| |sx mx ex], y as [sy|sy| |sy my ey]; try done.
  unfold SFdiv, SFdiv_core_binary.
  set (d1 := Zdigits2 (Z.pos mx)). set (d2 := Zdigits2 (Z.pos my)).
  set (e' := Z.min _ _). set (m' := match _ with Z0 => _ | _ => _ end).
  assert (Hs : 0 <= ex - ey - e') by (unfold e'; lia).
  assert (Hm' : m' = Z.pos mx * 2 ^ (ex - ey - e')).
  { unfold m'. destruct (ex - ey - e') as [|p|p] eqn:E; try lia.
    all: by rewrite ?Z.shiftl_mul_pow2, ?Z.mul_1_r. }
  destruct (Z.div_eucl m' (Z.pos my)) as [q r] eqn:Eq.
  assert (q = m' / Z.pos my) as -> by (unfold Z.div; by rewrite Eq).
  assert (0 < 2 ^ (ex - ey - e')) by (apply Z.pow_pos_nonneg; lia).
  assert (0 <= m' / Z.pos my) by (apply Z.div_pos; nia).
  apply binary_round_aux_valid; [done|].
  apply Z.le_trans with (fexp (d1 + ex - (d2 + ey))); [unfold e'; lia|].
  apply fexp_mono. assert (d1 + (ex - ey - e') - d2 <= Zdigits2 (m' / Z.pos my)); [|lia].
  destruct (Z.le_gt_cases (d1 + (ex - ey - e') - d2) 0); [pose proof (Zdigits2_nonneg (m' / Z.pos my)); lia|].
  apply Zdigits2_ge_iff; [done|done|].
  apply Z.div_le_lower_bound; [lia|].
  pose proof (Zdigits2_bounds (Z.pos mx) ltac:(lia)) as [Hlo _]. fold d1 in Hlo.
  pose proof (Zdigits2_bounds (Z.pos my) ltac:(lia)) as [_ Hhi]. fold d2 in Hhi.
  assert (0 <= d2) by apply Zdigits2_nonneg.
  assert (1 <= d1) by (apply Zdigits2_ge_iff; simpl; lia).
  apply Z.le_trans with (2 ^ d2 * 2 ^ (d1 + (ex - ey - e') - d2 - 1)).
  { apply Z.mul_le_mono_nonneg_r; [apply Z.pow_nonneg; lia|lia]. }
  rewrite <- Z.pow_add_r, Hm' by lia.
  replace (d2 + (d1 + (ex - ey - e') - d2 - 1)) with (d1 - 1 + (ex - ey - e')) by lia.
  rewrite Z.pow_add_r by lia. nia.
Qed.

Lemma SF_round_valid x :
  valid_binary prec emax x = true -> valid_binary prec emax (SF_round prec emax x) = true.
Proof.
  intros Hx. destruct x as [| | |s m e]; try done. unfold SF_round.
  destruct (0 <=? e); [done|apply binary_normalize_valid].
Qed.

Lemma SF_ceil_valid x :
  valid_binary prec emax x = true -> valid_binary prec emax (SF_ceil prec emax x) = true.
Proof.
  intros Hx. destruct x as [| | |s m e]; try done. unfold SF_ceil.
  destruct (0 <=? e); [done|apply binary_normalize_valid].
Qed.
End Rounding.

(** ** The two formats of the source *)

Lemma f64_add_valid x y : f64_valid x = true -> f64_valid y = true -> f64_valid (f64_add x y) = true.
Proof. by apply SFadd_valid. Qed.
Lemma f64_sub_valid x y : f64_valid x = true -> f64_valid y = true -> f64_valid (f64_sub x y) = true.
Proof. by apply SFsub_valid. Qed.
Lemma f64_mul_valid x y : f64_valid x = true -> f64_valid y = true -> f64_valid (f64_mul x y) = true.
Proof. by apply SFmul_valid. Qed.
Lemma f64_div_valid x y : f64_valid x = true -> f64_valid y = true -> f64_valid (f64_div x y) = true.
Proof. by apply SFdiv_valid. Qed.
Lemma f64_of_Z_valid z : f64_valid (f64_of_Z z) = true.
Proof. by apply binary_normalize_valid. Qed.
Lemma f80_of_Z_valid z : f80_valid (f80_of_Z z) = true.
Proof. by apply binary_normalize_valid. Qed.
Lemma f64_lit_valid n d : f64_valid (f64_lit n d) = true.
Proof. apply f64_div_valid; apply f64_of_Z_valid. Qed.
Lemma f80_of_f64_valid x : f80_valid (f80_of_f64 x) = true.
Proof. by apply SF_convert_valid'. Qed.
Lemma f80_add_valid x y : f80_valid x = true -> f80_valid y = true -> f80_valid (f80_add x y) = true.
Proof. by apply SFadd_valid. Qed.
Lemma f80_mul_valid x y : f80_valid x = true -> f80_valid y = true -> f80_valid (f80_mul x y) = true.
Proof. by apply SFmul_valid. Qed.
Lemma f80_div_valid x y : f80_valid x = true -> f80_valid y = true -> f80_valid (f80_div x y) = true.
Proof. by apply SFdiv_valid. Qed.
Lemma f80_round_valid x : f80_valid x = true -> f80_valid (f80_round x) = true.
Proof. by apply SF_round_valid. Qed.
Lemma f64_ceil_valid x : f64_valid x = true -> f64_valid (f64_ceil x) = true.
Proof. by apply SF_ceil_valid. Qed.

#[export] Hint Resolve f64_add_valid f64_sub_valid f64_mul_valid f64_div_valid f64_of_Z_valid
  f80_of_Z_valid f64_lit_valid f80_of_f64_valid f80_add_valid f80_mul_valid f80_div_valid
  f80_round_valid f64_ceil_valid : nav.

(** ** Float-to-integer conversion inside a range *)

Section Trunc.
Context (prec emax : Z) (Hprec : 1 < prec) (Hemax : prec < emax).

Lemma SF_trunc_units x :
  valid_binary prec emax x = true -> isfinite x = true -> 0 <= SF_trunc x ->
  SF_trunc x * 2 ^ (- emin prec emax) <= Z.max 0 (SF_units prec emax x).
Proof.
  destruct x as [s|s| |s m e]; try done.
  intros Hv _ Hnn. change (bounded prec emax m e = true) in Hv.
  pose proof (bounded_spec _ _ Hprec _ _ Hv) as (He & _ & _).
  unfold SF_trunc, SF_units in *. set (b := emin prec emax) in *.
  assert (b < 0) by (unfold b, emin; lia).
  assert (Hp : 0 < 2 ^ (- b)) by (apply Z.pow_pos_nonneg; lia).
  assert (Hs : 0 <= Z.shiftl (Z.pos m) e) by (apply Z.shiftl_nonneg; lia).
  destruct s; cbn [cond_Zopp] in *.
  { replace (Z.shiftl (Z.pos m) e) with 0 by lia. lia. }
  apply Z.le_trans with (Z.pos m * 2 ^ (e - b)); [|lia].
  destruct (Z.le_gt_cases 0 e).
  - rewrite Z.shiftl_mul_pow2, <- Z.mul_assoc, <- Z.pow_add_r by lia. by replace (e + - b) with (e - b) by lia.
  - rewrite Z.shiftl_div_pow2 by lia.
    assert (0 < 2 ^ (- e)) by (apply Z.pow_pos_nonneg; lia).
    replace (- b) with (- e + (e - b)) by lia. rewrite Z.pow_add_r, Z.mul_assoc by lia.
    apply Z.mul_le_mono_nonneg_r; [apply Z.pow_nonneg; lia|].
    rewrite Z.mul_comm. apply Z.mul_div_le. lia.
Qed.
End Trunc.

(** The source's guard [!isfinite(x) || x < 0 || x > INT64_MAX] makes the cast
    of a [long double] to [std::int64_t] defined. *)
Lemma f80_trunc_range x :
  f80_valid x = true -> isfinite x = true ->
  flt x fzero = false -> fgt x (f80_of_Z i64_max) = false ->
  0 <= i64_of_f x <= i64_max.
Proof.
  intros Hv Hf Hlo Hhi. unfold i64_of_f.
  assert (Hnn : 0 <= SF_trunc x).
  { destruct (Z.le_gt_cases 0 (SF_trunc x)) as [|Hneg]; [done|].
    apply SF_trunc_nonneg in Hneg. revert Hlo Hneg. unfold flt, fge, SFltb, SFleb.
    by destruct x as [[]|[]| |[] ? ?]. }
  split; [done|].
  pose proof (SF_trunc_units prec80 emax80 ltac:(done) ltac:(done) x Hv Hf Hnn) as Hu.
  unfold fgt, SFltb in Hhi. rewrite (SF_compare_units prec80 emax80) in Hhi by
    (done || apply f80_of_Z_valid || by apply isfinite_not_nan).
  destruct (Z.compare_spec (SF_units prec80 emax80 (f80_of_Z i64_max)) (SF_units prec80 emax80 x))
    as [He|He|He]; [| done |].
  all: assert (Hmax : SF_units prec80 emax80 (f80_of_Z i64_max) = i64_max * 2 ^ (- emin prec80 emax80))
    by (by vm_compute).
  all: rewrite Hmax in He; assert (0 < 2 ^ (- emin prec80 emax80)) by (by vm_compute).
  all: assert (0 <= i64_max) by (by vm_compute).
  all: apply Z.mul_le_mono_pos_r with (2 ^ (- emin prec80 emax80)); lia.
Qed.

(** ** Exact results

    When the exact value of an operation is representable, rounding returns
    it: stated on the integer view, for a mantissa [m] at an exponent [e] whose
    value equals that of some [m0] of at most [prec] bits. *)

Lemma iter_shr_exact p m :
  0 <= m -> (2 ^ Zpos p | m) ->
  iter_pos shr_1 p (Build_shr_record m false false) = Build_shr_record (m / 2 ^ Zpos p) false false.
Proof.
  assert (H1 : forall m, 0 <= m -> (2 | m) ->
    shr_1 (Build_shr_record m false false) = Build_shr_record (m / 2) false false).
  { intros m' Hm [k ->]. rewrite Z.div_mul by lia. destruct k as [|k|k]; try done.
    by rewrite Z.mul_comm. }
  assert (Hp : forall q, 0 < 2 ^ Zpos q) by (intros; by apply Z.pow_pos_nonneg).
  revert m. induction p as [p IH|p IH|]; intros m Hm [k ->]; cbn [iter_pos].
  - replace (Z.pos p~1) with (1 + (Z.pos p + Z.pos p)) in * by lia.
    rewrite !Z.pow_add_r in * by lia. change (2 ^ 1) with 2 in *.
    set (P := 2 ^ Z.pos p) in *. assert (0 < P) by apply Hp.
    replace (k * (2 * (P * P))) with (k * P * P * 2) in * by lia.
    rewrite H1, Z.div_mul by (lia || by eexists).
    rewrite IH, Z.div_mul by (try lia; by eexists).
    rewrite IH, Z.div_mul by (try lia; by eexists).
    f_equal. rewrite <- (Z.div_mul k (2 * (P * P))) at 1 by lia. f_equal; lia.
  - replace (Z.pos p~0) with (Z.pos p + Z.pos p) in * by lia.
    rewrite !Z.pow_add_r in * by lia. set (P := 2 ^ Z.pos p) in *. assert (0 < P) by apply Hp.
    replace (k * (P * P)) with (k * P * P) in * by lia.
    rewrite IH, Z.div_mul by (try lia; by eexists).
    rewrite IH, Z.div_mul by (try lia; by eexists).
    f_equal. rewrite <- (Z.div_mul k (P * P)) at 1 by lia. f_equal; lia.
  - apply H1; [done|by exists k].
Qed.

Section Exact.
Context (prec emax : Z) (Hprec : 1 < prec) (Hemax : prec < emax).

#[local] Abbreviation fexp := (fexp prec emax).
#[local] Abbreviation emin := (emin prec emax).

Lemma shr_fexp_exact m e :
  0 <= m -> e <= fexp (Zdigits2 m + e) -> (2 ^ (fexp (Zdigits2 m + e) - e) | m) ->
  shr_fexp prec emax m e loc_Exact =
  (Build_shr_record (m / 2 ^ (fexp (Zdigits2 m + e) - e)) false false, fexp (Zdigits2 m + e)).
Proof.
  intros Hm He Hd. unfold shr_fexp, shr. simpl shr_record_of_loc.
  set (f := fexp (Zdigits2 m + e)) in *. destruct (f - e) as [|p|p] eqn:E; [| |lia].
  - rewrite Z.div_1_r. f_equal. lia.
  - rewrite iter_shr_exact by done. f_equal. lia.
Qed.

Lemma binary_round_aux_exact s m e :
  0 < m -> e <= fexp (Zdigits2 m + e) -> (2 ^ (fexp (Zdigits2 m + e) - e) | m) -> emin <= e ->
  Zdigits2 m + e <= emax ->
  exists mz ez, binary_round_aux prec emax s m e loc_Exact = S754_finite s mz ez /\
  SF_units prec emax (S754_finite s mz ez) = cond_Zopp s (m * 2 ^ (e - emin)).
Proof.
  intros Hm He Hd Hmin Hmax. unfold binary_round_aux.
  rewrite shr_fexp_exact by (lia || done).
  set (f := fexp (Zdigits2 m + e)) in *. cbn [shr_m loc_of_shr_record round_nearest_even].
  destruct Hd as [k Hkm]. assert (0 < 2 ^ (f - e)) by (apply Z.pow_pos_nonneg; lia).
  assert (m / 2 ^ (f - e) = k) as -> by (symmetry; apply Z.div_unique_exact; lia).
  assert (0 < k) by nia.
  assert (Hk : Zdigits2 k + f = Zdigits2 m + e).
  { clearbody f. subst m. rewrite Zdigits2_shiftl by lia. lia. }
  assert (Hf : fexp (Zdigits2 k + f) = f) by (unfold f at 2; by rewrite Hk).
  rewrite shr_fexp_exact; [|lia|lia|].
  2:{ rewrite Hf, Z.sub_diag. apply Z.divide_1_l. }
  rewrite Hf, Z.sub_diag, Z.div_1_r. cbn [shr_m].
  destruct k as [|p|p]; try lia.
  assert ((f <=? emax - prec) = true) as ->.
  { apply Z.leb_le. unfold f, SpecFloat.fexp, SpecFloat.emin in *. lia. }
  exists p, f. split; [done|]. unfold SF_units. f_equal.
  clearbody f. subst m. rewrite <- Z.mul_assoc, <- Z.pow_add_r by lia. f_equal. f_equal. lia.
Qed.

Lemma binary_normalize_exact m e m0 e0 z :
  emin <= e -> emin <= e0 -> Z.abs m0 < 2 ^ prec -> prec + e0 <= emax ->
  m * 2 ^ (e - emin) = m0 * 2 ^ (e0 - emin) ->
  isfinite (binary_normalize prec emax m e z) = true /\
  SF_units prec emax (binary_normalize prec emax m e z) = m * 2 ^ (e - emin).
Proof.
  intros He He0 Hm0 Hov Heq.
  assert (Haux : forall s p, m = cond_Zopp s (Z.pos p) ->
    exists mz ez, binary_round prec emax s p e = S754_finite s mz ez /\
    SF_units prec emax (S754_finite s mz ez) = m * 2 ^ (e - emin)).
  { intros s p Hm.
    assert (Hpow : forall k, emin <= k -> 0 < 2 ^ (k - emin)) by (intros; apply Z.pow_pos_nonneg; lia).
    pose proof (Hpow e He). pose proof (Hpow e0 He0).
    assert (Habs : Z.pos p * 2 ^ (e - emin) = Z.abs m0 * 2 ^ (e0 - emin)).
    { rewrite <- (Z.abs_eq (2 ^ (e - emin))), <- (Z.abs_eq (2 ^ (e0 - emin))) by lia.
      rewrite <- Z.abs_mul, <- Heq, Z.abs_mul. f_equal. subst m. by destruct s. }
    assert (0 < Z.abs m0) by nia.
    assert (Hdig : Zdigits2 (Z.pos p) + e = Zdigits2 (Z.abs m0) + e0).
    { assert (Zdigits2 (Z.pos p * 2 ^ (e - emin)) = Zdigits2 (Z.abs m0 * 2 ^ (e0 - emin))) as Hd by (by rewrite Habs).
      rewrite !Zdigits2_shiftl in Hd by lia. lia. }
    assert (Zdigits2 (Z.abs m0) <= prec).
    { destruct (Z.le_gt_cases (Zdigits2 (Z.abs m0)) prec) as [|Hgt]; [done|].
      assert (prec + 1 <= Zdigits2 (Z.abs m0)) as Hge%Zdigits2_ge_iff by lia; [|lia..].
      replace (prec + 1 - 1) with prec in Hge by lia. lia. }
    assert (Hsu : forall u t, cond_Zopp s u * t = cond_Zopp s (u * t)) by (intros; destruct s; simpl; lia).
    unfold binary_round, shl_align. set (f := fexp (Z.pos (digits2_pos p) + e)).
    change (Z.pos (digits2_pos p)) with (Zdigits2 (Z.pos p)) in f.
    assert (Hf : f = Z.max (Zdigits2 (Z.abs m0) + e0 - prec) emin) by (unfold f, SpecFloat.fexp; lia).
    rewrite Hm, Hsu. destruct (f - e) as [|d|d] eqn:E.
    - apply binary_round_aux_exact; fold f; try lia. rewrite E. apply Z.divide_1_l.
    - apply binary_round_aux_exact; fold f; try lia. rewrite E.
      exists (Z.abs m0 * 2 ^ (e0 - f)).
      apply Z.mul_reg_r with (2 ^ (e - emin)); [lia|]. rewrite Habs, <- Z.mul_assoc, <- Z.mul_assoc.
      rewrite <- !Z.pow_add_r by lia. f_equal. f_equal. lia.
    - rewrite Pos_iter_xO.
      assert (HD : Zdigits2 (Z.pos p * 2 ^ Z.pos d) + f = Zdigits2 (Z.pos p) + e)
        by (rewrite Zdigits2_shiftl by lia; lia).
      destruct (binary_round_aux_exact s (Z.pos p * 2 ^ Z.pos d) f) as (mz & ez & E1 & E2).
      + assert (0 < 2 ^ Z.pos d) by (by apply Z.pow_pos_nonneg). lia.
      + rewrite HD. fold f. lia.
      + rewrite HD. fold f. rewrite Z.sub_diag. apply Z.divide_1_l.
      + lia.
      + lia.
      + exists mz, ez. split; [exact E1|]. rewrite E2. f_equal. rewrite <- Z.mul_assoc, <- Z.pow_add_r by lia.
        f_equal. f_equal. lia. }
  destruct m as [|p|p]; simpl binary_normalize.
  - split; [done|]. simpl. lia.
  - destruct (Haux false p eq_refl) as (mz & ez & -> & E). by rewrite E.
  - destruct (Haux true p eq_refl) as (mz & ez & -> & E). by rewrite E.
Qed.
End Exact.

(** ** Exact sums and differences of integers in the extended format *)

Section ExactSub.
Context (prec emax : Z) (Hprec : 1 < prec) (Hemax : prec < emax).

#[local] Abbreviation emin := (emin prec emax).
#[local] Abbreviation units := (SF_units prec emax).

Lemma shl_align_fst m e e' : e' <= e -> Zpos (fst (shl_align m e e')) = Zpos m * 2 ^ (e - e').
Proof.
  intros. unfold shl_align. destruct (e' - e) as [|d|d] eqn:E; [|lia|].
  - simpl. replace (e - e') with 0 by lia. lia.
  - simpl fst. rewrite Pos_iter_xO. f_equal. f_equal. lia.
Qed.

Lemma aligned_units s m e e' :
  emin <= e' -> e' <= e ->
  cond_Zopp s (Zpos (fst (shl_align m e e'))) * 2 ^ (e' - emin) = units (S754_finite s m e).
Proof.
  intros. rewrite shl_align_fst by done. unfold SF_units.
  replace (e - emin) with (e - e' + (e' - emin)) by lia. rewrite Z.pow_add_r by lia.
  destruct s; simpl; lia.
Qed.

Lemma SFsub_exact x y m0 e0 :
  valid_binary prec emax x = true -> valid_binary prec emax y = true ->
  isfinite x = true -> isfinite y = true ->
  emin <= e0 -> Z.abs m0 < 2 ^ prec -> prec + e0 <= emax ->
  units x - units y = m0 * 2 ^ (e0 - emin) ->
  isfinite (SFsub prec emax x y) = true /\ units (SFsub prec emax x y) = units x - units y.
Proof.
  intros Hx Hy Fx Fy He0 Hm0 Hov Heq.
  destruct x as [sx|sx| |sx mx ex], y as [sy|sy| |sy my ey]; try done.
  - by destruct sx, sy.
  - split; [done|]. unfold SFsub, SF_units. destruct sy; simpl; lia.
  - split; [done|]. unfold SFsub, SF_units. lia.
  - change (bounded prec emax mx ex = true) in Hx. change (bounded prec emax my ey = true) in Hy.
    pose proof (bounded_spec _ _ Hprec _ _ Hx) as (? & _).
    pose proof (bounded_spec _ _ Hprec _ _ Hy) as (? & _).
    set (ez := Z.min ex ey).
    assert (emin <= ez /\ ez <= ex /\ ez <= ey) as (Hz & Hzx & Hzy) by (unfold ez; lia).
    assert (Hu : (cond_Zopp sx (Zpos (fst (shl_align mx ex ez)))
                  - cond_Zopp sy (Zpos (fst (shl_align my ey ez)))) * 2 ^ (ez - emin)
                 = units (S754_finite sx mx ex) - units (S754_finite sy my ey)).
    { rewrite Z.mul_sub_distr_r, !aligned_units by done. done. }
    rewrite <- Hu in Heq |- *.
    by apply (binary_normalize_exact prec emax Hprec Hemax) with m0 e0.
Qed.

Lemma SF_of_Z_units n :
  Z.abs n < 2 ^ prec ->
  isfinite (binary_normalize prec emax n 0 false) = true /\
  units (binary_normalize prec emax n 0 false) = n * 2 ^ (- emin).
Proof.
  intros. apply (binary_normalize_exact prec emax Hprec Hemax) with n 0; unfold SpecFloat.emin in *; try lia.
Qed.

Lemma SF_ltb_units x y :
  valid_binary prec emax x = true -> valid_binary prec emax y = true ->
  isnan x = false -> isnan y = false -> flt x y = (units x <? units y).
Proof.
  intros Hx Hy Nx Ny. unfold flt, SFltb. rewrite (SF_compare_units prec emax) by done.
  unfold Z.ltb. by destruct (_ ?= _).
Qed.
End ExactSub.

Lemma SF_units_opp prec emax x : SF_units prec emax (fopp x) = - SF_units prec emax x.
Proof. destruct x as [[]|[]| |[] m e]; simpl; lia. Qed.

Lemma f80_valid_opp x : f80_valid x = true -> f80_valid (fopp x) = true.
Proof. by destruct x. Qed.

(** One unit of an integer, in units of the smallest subnormal long double. *)
Definition f80_scale : Z := 2 ^ (- emin prec80 emax80).

Lemma f80_scale_pos : 0 < f80_scale.
Proof. by apply Z.pow_pos_nonneg. Qed.

Lemma f80_of_Z_units n :
  Z.abs n < 2 ^ 64 ->
  isfinite (f80_of_Z n) = true /\ SF_units prec80 emax80 (f80_of_Z n) = n * f80_scale.
Proof. by apply SF_of_Z_units. Qed.

#[global] Opaque f80_scale.

(** Comparisons of integer-valued long doubles are integer comparisons. *)
Lemma f80_ltb_Z x y a b :
  f80_valid x = true -> f80_valid y = true -> isfinite x = true -> isfinite y = true ->
  SF_units prec80 emax80 x = a * f80_scale -> SF_units prec80 emax80 y = b * f80_scale ->
  flt x y = (a <? b).
Proof.
  intros Hx Hy Fx Fy Ex Ey. pose proof f80_scale_pos as Hs.
  rewrite (SF_ltb_units prec80 emax80) by (assumption || by apply isfinite_not_nan).
  rewrite Ex, Ey. generalize dependent f80_scale. intros k _ _ Hs.
  destruct (a <? b) eqn:E; breflect; [apply Z.ltb_lt|apply Z.ltb_ge]; nia.
Qed.

Lemma f80_sub_Z a b :
  Z.abs a < 2 ^ 64 -> Z.abs b < 2 ^ 64 -> Z.abs (a - b) < 2 ^ 64 ->
  f80_valid (f80_sub (f80_of_Z a) (f80_of_Z b)) = true /\
  isfinite (f80_sub (f80_of_Z a) (f80_of_Z b)) = true /\
  SF_units prec80 emax80 (f80_sub (f80_of_Z a) (f80_of_Z b)) = (a - b) * f80_scale.
Proof.
  intros Ha Hb Hab.
  destruct (f80_of_Z_units a Ha) as [Fa Ea]. destruct (f80_of_Z_units b Hb) as [Fb Eb].
  split; [apply SFsub_valid; try done; apply f80_of_Z_valid|].
  destruct (SFsub_exact prec80 emax80 ltac:(done) ltac:(done) (f80_of_Z a) (f80_of_Z b) (a - b) 0)
    as [Hf Hu]; try assumption; try apply f80_of_Z_valid; try (exact Hab); try done.
  - rewrite Ea, Eb, Z.sub_0_l, Z.mul_sub_distr_r. reflexivity.
  - split; [assumption|]. rewrite Z.mul_sub_distr_r, <- Ea, <- Eb. exact Hu.
Qed.

(** A comparison of long doubles that hold integers, in the [>=] form. *)
Lemma f80_fge_Z x y a b :
  f80_valid x = true -> f80_valid y = true -> isfinite x = true -> isfinite y = true ->
  SF_units prec80 emax80 x = a * f80_scale -> SF_units prec80 emax80 y = b * f80_scale ->
  fge x y = (b <=? a).
Proof.
  intros Hx Hy Fx Fy Ex Ey.
  assert (fge x y = negb (flt x y)) as ->.
  { change (fge x y) with (fle y x). change (flt x y) with (fgt y x).
    rewrite fgt_negb_fle by (by apply isfinite_not_nan). by rewrite negb_involutive. }
  rewrite (f80_ltb_Z x y a b) by assumption. by rewrite <- Z.leb_antisym.
Qed.

(** Arithmetic on finite numbers may overflow but is never a NaN. *)
Section NoNan.
Context (prec emax : Z) (Hprec : 1 < prec) (Hemax : prec < emax).

Lemma binary_round_aux_not_nan s m e l :
  0 <= m -> e <= SpecFloat.fexp prec emax (Zdigits2 m + e) ->
  isnan (binary_round_aux prec emax s m e l) = false.
Proof.
  intros Hm He. unfold binary_round_aux.
  destruct (shr_fexp prec emax m e l) as [mrs1 e1] eqn:E1.
  apply shr_fexp_canonical in E1 as (H1 & Hmin1 & Hc1 & Hz1); [|done..].
  destruct (shr_fexp prec emax (round_nearest_even _ _) e1 _) as [mrs2 e2] eqn:E2.
  set (r := round_nearest_even _ _) in *.
  assert (Hr : r = shr_m mrs1 \/ r = shr_m mrs1 + 1) by apply round_nearest_even_cases.
  assert (e1 <= SpecFloat.fexp prec emax (Zdigits2 r + e1)) as Hle.
  { destruct (decide (shr_m mrs1 = 0)) as [Hz|Hnz].
    - rewrite (Hz1 Hz). unfold SpecFloat.fexp. lia.
    - rewrite <- (Hc1 ltac:(lia)) at 1. apply fexp_mono.
      pose proof (Zdigits2_mono (shr_m mrs1) r). lia. }
  apply shr_fexp_canonical in E2 as (H2 & _); [|done|lia|done].
  destruct (shr_m mrs2) as [|p|p]; try done. by destruct (e2 <=? emax - prec).
Qed.

Lemma binary_normalize_not_nan m e s : isnan (binary_normalize prec emax m e s) = false.
Proof.
  assert (Hr : forall sg p, isnan (binary_round prec emax sg p e) = false).
  { intros sg p. unfold binary_round, shl_align.
    set (f := SpecFloat.fexp prec emax (Z.pos (digits2_pos p) + e)).
    destruct (f - e) as [|q|q] eqn:Ef; apply binary_round_aux_not_nan; try lia;
      try (change (Zdigits2 (Z.pos p)) with (Z.pos (digits2_pos p)); fold f; lia).
    rewrite Pos_iter_xO, Zdigits2_shiftl by lia. simpl. unfold f in *.
    replace (Z.pos (digits2_pos p) + Z.pos q + (SpecFloat.fexp prec emax (Z.pos (digits2_pos p) + e)))
      with (Z.pos (digits2_pos p) + e) by lia. lia. }
  destruct m; [done|apply Hr..].
Qed.

Lemma SFsub_not_nan x y :
  isfinite x = true -> isfinite y = true -> isnan (SFsub prec emax x y) = false.
Proof.
  intros Hx Hy. destruct x as [[]|[]| |? ? ?], y as [[]|[]| |? ? ?]; try done.
  all: apply binary_normalize_not_nan.
Qed.
End NoNan.

Lemma f64_sub_not_nan x y :
  isfinite x = true -> isfinite y = true -> isnan (f64_sub x y) = false.
Proof. by apply SFsub_not_nan. Qed.

#[export] Hint Resolve f64_sub_not_nan : nav.
