(* ===== verification/TimeNs.v ===== *)
(** * Integer-nanosecond time boundary

    Model of [src/common/navigation_common/include/navigation_common/time.hpp]:
    every conversion between seconds, microseconds, ROS stamps and the signed
    64-bit nanosecond timestamps of the core, with its range checks.  The
    widening to [__int128] of the source is exact, so the differences are plain
    integers; [long double] products use the x87 format of [Float64]. *)

From S2P Require Import Prelude Float64 Float64Facts.

(** ** Definitions *)

Definition TimestampNs : Type := Z.

Definition kNanosecondsPerSecond : Z := 1000000000.
Definition kNanosecondsPerMicrosecond : Z := 1000.

Definition checkedDifference (lhs rhs : Z) : option Z :=
  let difference := lhs - rhs in
  if (difference <? i64_min) || (i64_max <? difference) then None else Some difference.

Definition microsecondsToNanoseconds (microseconds : Z) : option Z :=
  if i64_max / kNanosecondsPerMicrosecond <? microseconds then None
  else
    let nanoseconds := microseconds * kNanosecondsPerMicrosecond in
    if nanoseconds =? 0 then None else Some nanoseconds.

Definition nanosecondsToMicroseconds (nanoseconds : Z) : option Z :=
  if nanoseconds <=? 0 then None
  else
    let microseconds := Z.quot nanoseconds kNanosecondsPerMicrosecond in
    if microseconds =? 0 then None else Some microseconds.

(** The guard and cast shared by the two conversions from seconds. *)
Definition rounded_in_range (rounded : f80) : option Z :=
  if negb (isfinite rounded) || flt rounded fzero || fgt rounded (f80_of_Z i64_max) then None
  else Some (i64_of_f rounded).

Definition secondsToNanoseconds (seconds : f64) : option Z :=
  if negb (isfinite seconds) || flt seconds fzero then None
  else
    let product := f80_mul (f80_of_f64 seconds) (f80_of_Z kNanosecondsPerSecond) in
    rounded_in_range (f80_round product).

Definition secondsSumToNanoseconds (base_seconds offset_seconds : f64) : option Z :=
  if negb (isfinite base_seconds) || negb (isfinite offset_seconds)
     || flt base_seconds fzero || flt offset_seconds fzero then None
  else
    let seconds := f80_add (f80_of_f64 base_seconds) (f80_of_f64 offset_seconds) in
    rounded_in_range (f80_round (f80_mul seconds (f80_of_Z kNanosecondsPerSecond))).

(** [builtin_interfaces::msg::Time] *)
Record RosTime : Type := mkRosTime { sec : Z; nanosec : Z }.

Definition rosTimeToNanoseconds (stamp : RosTime) : option Z :=
  if kNanosecondsPerSecond <=? nanosec stamp then None
  else
    let nanoseconds := sec stamp * kNanosecondsPerSecond + nanosec stamp in
    if (nanoseconds <? i64_min) || (i64_max <? nanoseconds) then None else Some nanoseconds.

Definition nanosecondsToRosTime (nanoseconds : Z) : option RosTime :=
  if nanoseconds <? 0 then None
  else
    let seconds := Z.quot nanoseconds kNanosecondsPerSecond in
    if i32_max <? seconds then None
    else Some (mkRosTime seconds (Z.rem nanoseconds kNanosecondsPerSecond)).

Definition secondsToRosTime (seconds : f64) : option RosTime :=
  if negb (isfinite seconds) || flt seconds fzero || fgt seconds (f64_of_Z i32_max) then None
  else
    let whole_seconds := SF_trunc seconds in
    let fraction := f64_sub seconds (f64_of_Z whole_seconds) in
    if flt fraction fzero then None
    else
      let nanoseconds := SF_trunc (f64_mul fraction (f64_of_Z kNanosecondsPerSecond)) in
      if (nanoseconds <? 0) || (kNanosecondsPerSecond <=? nanoseconds) then None
      else nanosecondsToRosTime (whole_seconds * kNanosecondsPerSecond + nanoseconds).

(** A stamp as the wire format can carry it. *)
Definition ros_time_wf (t : RosTime) : Prop := is_i32 (sec t) /\ is_u32 (nanosec t).

(** ** Lemmas *)

Lemma checkedDifference_some lhs rhs d :
  checkedDifference lhs rhs = Some d <-> d = lhs - rhs /\ is_i64 d.
Proof.
  unfold checkedDifference, is_i64. destruct (_ || _) eqn:E; bsplit; naive_solver lia.
Qed.

Lemma rounded_in_range_bounds r n :
  f80_valid r = true -> rounded_in_range r = Some n -> 0 <= n <= i64_max.
Proof.
  unfold rounded_in_range. destruct (_ || _ || _) eqn:E; [done|]. intros Hv [= <-].
  apply orb_false_iff in E as [[Hf Hlt]%orb_false_iff Hgt].
  apply f80_trunc_range; try done. by destruct (isfinite r).
Qed.

(** Every conversion from seconds yields a representable, nonnegative stamp. *)
Lemma secondsToNanoseconds_range s n :
  secondsToNanoseconds s = Some n -> 0 <= n <= i64_max.
Proof.
  unfold secondsToNanoseconds. destruct (_ || _); [done|].
  apply rounded_in_range_bounds. auto with nav.
Qed.

Lemma secondsSumToNanoseconds_range a b n :
  secondsSumToNanoseconds a b = Some n -> 0 <= n <= i64_max.
Proof.
  unfold secondsSumToNanoseconds. destruct (_ || _); [done|].
  apply rounded_in_range_bounds. auto 6 with nav.
Qed.

Lemma secondsToNanoseconds_nonfinite s :
  isfinite s = false -> secondsToNanoseconds s = None.
Proof. intros H. unfold secondsToNanoseconds. by rewrite H. Qed.

Lemma secondsToNanoseconds_negative s :
  flt s fzero = true -> secondsToNanoseconds s = None.
Proof. intros H. unfold secondsToNanoseconds. by rewrite H, orb_true_r. Qed.

Lemma ros_time_split ns :
  0 <= ns ->
  ns = Z.quot ns kNanosecondsPerSecond * kNanosecondsPerSecond + Z.rem ns kNanosecondsPerSecond /\
  0 <= Z.rem ns kNanosecondsPerSecond < kNanosecondsPerSecond.
Proof. unfold kNanosecondsPerSecond. intros. zlia. Qed.

#[export] Hint Resolve secondsToNanoseconds_range secondsSumToNanoseconds_range : nav.

(** ** Properties *)

(** A stamp that fits the wire format survives the trip through ROS time,
    and a normalised nonnegative ROS stamp survives the trip through
    nanoseconds: the two conversions are inverse on their common range. *)
Theorem ros_time_roundtrip (ns : Z) (t : RosTime) :
  ros_time_wf t ->
  nanosecondsToRosTime ns = Some t <-> rosTimeToNanoseconds t = Some ns /\ 0 <= ns.
Proof.
  destruct t as [s n]. unfold ros_time_wf. cbn [sec nanosec]. intros [Hs Hn].
  pose proof (ros_time_split ns) as Hsplit.
  unfold nanosecondsToRosTime, rosTimeToNanoseconds, kNanosecondsPerSecond in *. cbn [sec nanosec].
  destruct (ns <? 0) eqn:E1; bsplit; [destruct (1000000000 <=? n); naive_solver lia|].
  destruct (Hsplit E1) as [Hq Hr].
  split.
  - destruct (i32_max <? _) eqn:E2; bsplit; [done|]. intros [= <- <-].
    rewrite <- Hq.
    destruct (1000000000 <=? _) eqn:E3; bsplit; [lia|]. destruct (_ || _) eqn:E4; bsplit; [zlia|done].
  - intros [H _]. destruct (1000000000 <=? n) eqn:E2; bsplit; [done|].
    destruct (_ || _) eqn:E3; bsplit; [done|]. injection H as <-.
    destruct (i32_max <? _) eqn:E4; bsplit; [zlia|]. f_equal. f_equal; zlia.
Qed.

Lemma ros_time_roundtrip_witness :
  ros_time_wf (mkRosTime 1700000000 250) /\
  (nanosecondsToRosTime 1700000000000000250 = Some (mkRosTime 1700000000 250) <->
   rosTimeToNanoseconds (mkRosTime 1700000000 250) = Some 1700000000000000250 /\
   0 <= 1700000000000000250).
Proof.
  assert (H : ros_time_wf (mkRosTime 1700000000 250)) by (split; simpl; zlia).
  split; [exact H|apply (ros_time_roundtrip _ _ H)].
Defined.

(** Microsecond stamps convert to nanoseconds exactly when they are nonzero
    and fit 63 bits, the result is a positive stamp, and converting back gives
    the original value. *)
Theorem microseconds_roundtrip (us : Z) :
  is_u64 us ->
  match microsecondsToNanoseconds us with
  | Some ns => ns = us * 1000 /\ 0 < ns <= i64_max /\ nanosecondsToMicroseconds ns = Some us
  | None => us = 0 \/ i64_max < us * 1000
  end.
Proof.
  unfold microsecondsToNanoseconds, nanosecondsToMicroseconds, kNanosecondsPerMicrosecond.
  intros Hus. destruct (_ <? us) eqn:E1; bsplit; [right; zlia|].
  destruct (us * 1000 =? 0) eqn:E2; bsplit; [left; zlia|].
  destruct (us * 1000 <=? 0) eqn:E3; bsplit; [zlia|].
  destruct (_ =? 0) eqn:E4; bsplit; [zlia|]. split_and!; [done|zlia|zlia|f_equal; zlia].
Qed.

Lemma microseconds_roundtrip_witness :
  is_u64 1234567 /\
  match microsecondsToNanoseconds 1234567 with
  | Some ns => ns = 1234567 * 1000 /\ 0 < ns <= i64_max /\ nanosecondsToMicroseconds ns = Some 1234567
  | None => 1234567 = 0 \/ i64_max < 1234567 * 1000
  end.
Proof.
  assert (H : is_u64 1234567) by zlia. split; [exact H|exact (microseconds_roundtrip _ H)].
Defined.
