(* ===== verification/SpscQueue.v ===== *)
(** * Bounded single-producer single-consumer queue

    Model of [src/common/navigation_common/include/navigation_common/bounded_spsc_queue.hpp].
    [tryPush], [tryPop] and [sizeApprox] are given twice: as whole calls on the
    queue, and as the sequences of atomic accesses a producer thread and a
    consumer thread interleave ([spsc_step]).  The indices are unsigned 64-bit
    counters that wrap; a slot is addressed by the index modulo the capacity.

    The interleaved queue is proved to refine an abstract FIFO: what is popped
    is exactly the prefix of what was pushed, in order, and no slot is written
    while it can still be read. *)

From S2P Require Import Prelude.

Section Queue.
Context {T : Type}.
Variable Capacity : Z.

(** ** State and whole calls *)

Record BoundedSpscQueue : Type := mkQueue {
  slots_ : list T;
  write_index_ : Z;
  read_index_ : Z
}.

Definition slot_of (index : Z) : nat := Z.to_nat (index mod Capacity).

Definition tryPush (q : BoundedSpscQueue) (value : T) : bool * BoundedSpscQueue :=
  let write := write_index_ q in
  let read := read_index_ q in
  if Capacity <=? u64_sub write read then (false, q)
  else (true, mkQueue (<[slot_of write := value]> (slots_ q)) (u64_inc write) read).

Definition tryPop (q : BoundedSpscQueue) : option T * BoundedSpscQueue :=
  let read := read_index_ q in
  let write := write_index_ q in
  if read =? write then (None, q)
  else (slots_ q !! slot_of read, mkQueue (slots_ q) write (u64_inc read)).

Definition sizeApprox (q : BoundedSpscQueue) : Z :=
  let size := u64_sub (write_index_ q) (read_index_ q) in
  if Capacity <? size then Capacity else size.

(** ** Interleaving of the two threads

    One constructor per point between two shared accesses of the call. *)
Inductive producer : Type :=
| P_idle
| P_loaded_write (value : T) (write : Z)
| P_loaded_both (value : T) (write read : Z)
| P_slot_written (value : T) (write : Z).

Inductive consumer : Type :=
| C_idle
| C_loaded_read (read : Z)
| C_loaded_both (read write : Z)
| C_slot_copied (value : T) (read : Z).

Record system : Type := mkSystem { sys_queue : BoundedSpscQueue; sys_prod : producer; sys_cons : consumer }.

(** The visible outcome of a step: a completed push or pop, a refusal, or nothing. *)
Inductive event : Type :=
| ev_tau
| ev_pushed (v : T)
| ev_full (v : T)
| ev_popped (v : T)
| ev_empty.

Inductive spsc_step : system -> event -> system -> Prop :=
| push_load_write q c v :
    spsc_step (mkSystem q P_idle c) ev_tau (mkSystem q (P_loaded_write v (write_index_ q)) c)
| push_load_read q c v w :
    spsc_step (mkSystem q (P_loaded_write v w) c) ev_tau
              (mkSystem q (P_loaded_both v w (read_index_ q)) c)
| push_refused q c v w r :
    (Capacity <=? u64_sub w r) = true ->
    spsc_step (mkSystem q (P_loaded_both v w r) c) (ev_full v) (mkSystem q P_idle c)
| push_write_slot q c v w r :
    (Capacity <=? u64_sub w r) = false ->
    spsc_step (mkSystem q (P_loaded_both v w r) c) ev_tau
              (mkSystem (mkQueue (<[slot_of w := v]> (slots_ q)) (write_index_ q) (read_index_ q))
                        (P_slot_written v w) c)
| push_publish q c v w :
    spsc_step (mkSystem q (P_slot_written v w) c) (ev_pushed v)
              (mkSystem (mkQueue (slots_ q) (u64_inc w) (read_index_ q)) P_idle c)
| pop_load_read q p :
    spsc_step (mkSystem q p C_idle) ev_tau (mkSystem q p (C_loaded_read (read_index_ q)))
| pop_load_write q p r :
    spsc_step (mkSystem q p (C_loaded_read r)) ev_tau
              (mkSystem q p (C_loaded_both r (write_index_ q)))
| pop_refused q p r w :
    (r =? w) = true ->
    spsc_step (mkSystem q p (C_loaded_both r w)) ev_empty (mkSystem q p C_idle)
| pop_copy_slot q p r w v :
    (r =? w) = false ->
    slots_ q !! slot_of r = Some v ->
    spsc_step (mkSystem q p (C_loaded_both r w)) ev_tau (mkSystem q p (C_slot_copied v r))
| pop_publish q p v r :
    spsc_step (mkSystem q p (C_slot_copied v r)) (ev_popped v)
              (mkSystem (mkQueue (slots_ q) (write_index_ q) (u64_inc r)) p C_idle).

Inductive spsc_run : system -> list event -> system -> Prop :=
| run_done s : spsc_run s [] s
| run_step s1 s2 s3 e tr : spsc_run s1 tr s2 -> spsc_step s2 e s3 -> spsc_run s1 (tr ++ [e]) s3.

Definition empty_system (d : T) : system :=
  mkSystem (mkQueue (replicate (Z.to_nat Capacity) d) 0 0) P_idle C_idle.

(** ** The abstract queue *)

Definition pushes (tr : list event) : list T :=
  omap (fun e => match e with ev_pushed v => Some v | _ => None end) tr.
Definition pops (tr : list event) : list T :=
  omap (fun e => match e with ev_popped v => Some v | _ => None end) tr.

(** ** Representation invariant

    [W] and [R] are the unbounded counts of completed pushes and pops whose
    residues the indices are; [q] is the abstract content. *)
Record rep (s : system) (W R : Z) (q : list T) : Prop := mkRep {
  rep_w : write_index_ (sys_queue s) = W mod 2 ^ 64;
  rep_r : read_index_ (sys_queue s) = R mod 2 ^ 64;
  rep_order : 0 <= R <= W;
  rep_cap : W - R <= Capacity;
  rep_len : Z.of_nat (length q) = W - R;
  rep_slots : Z.of_nat (length (slots_ (sys_queue s))) = Capacity;
  rep_content : forall i, (i < length q)%nat ->
    slots_ (sys_queue s) !! Z.to_nat ((R + Z.of_nat i) mod Capacity) = q !! i;
  rep_prod : match sys_prod s with
             | P_idle => True
             | P_loaded_write _ w => w = W mod 2 ^ 64
             | P_loaded_both _ w r =>
                 w = W mod 2 ^ 64 /\ exists R', r = R' mod 2 ^ 64 /\ R' <= R /\ W - R' <= Capacity
             | P_slot_written v w =>
                 w = W mod 2 ^ 64 /\ W - R < Capacity /\
                 slots_ (sys_queue s) !! Z.to_nat (W mod Capacity) = Some v
             end;
  rep_cons : match sys_cons s with
             | C_idle => True
             | C_loaded_read r => r = R mod 2 ^ 64
             | C_loaded_both r w => r = R mod 2 ^ 64 /\ exists W', w = W' mod 2 ^ 64 /\ R <= W' <= W
             | C_slot_copied v r => r = R mod 2 ^ 64 /\ head q = Some v
             end
}.

(** ** Lemmas *)

Context (Hcap : 0 < Capacity < 2 ^ 64) (Hdiv : (Capacity | 2 ^ 64)).

Lemma slot_of_residue n : slot_of (n mod 2 ^ 64) = Z.to_nat (n mod Capacity).
Proof. unfold slot_of. by rewrite Z.mod_mod_divide. Qed.

Lemma residue_sub W R :
  0 <= W - R <= Capacity -> u64_sub (W mod 2 ^ 64) (R mod 2 ^ 64) = W - R.
Proof. intros. unfold u64_sub. rewrite <- Zminus_mod. apply Z.mod_small. lia. Qed.

Lemma residue_inc W : u64_inc (W mod 2 ^ 64) = (W + 1) mod 2 ^ 64.
Proof. unfold u64_inc, u64_add. by rewrite Zplus_mod_idemp_l. Qed.

Lemma residue_eq R W : 0 <= W - R <= Capacity -> R mod 2 ^ 64 = W mod 2 ^ 64 <-> R = W.
Proof.
  intros H. split; [|by intros ->]. intros E. pose proof (residue_sub W R H) as Hs.
  unfold u64_sub in Hs. rewrite E, Z.sub_diag, Z.mod_0_l in Hs by lia. lia.
Qed.

Lemma slot_distinct a b :
  0 < b - a < Capacity -> Z.to_nat (a mod Capacity) <> Z.to_nat (b mod Capacity).
Proof.
  intros H E. pose proof (Z.mod_pos_bound a Capacity). pose proof (Z.mod_pos_bound b Capacity).
  apply Z2Nat.inj in E; [|lia..].
  assert ((b - a) mod Capacity = 0) as Hz by (rewrite Zminus_mod, E, Z.sub_diag; apply Z.mod_0_l; lia).
  rewrite Z.mod_small in Hz; lia.
Qed.

Lemma rep_head s W R v q :
  rep s W R (v :: q) -> slots_ (sys_queue s) !! Z.to_nat (R mod Capacity) = Some v.
Proof. intros Hrep. pose proof (rep_content _ _ _ _ Hrep 0) as H. simpl in H. rewrite Z.add_0_r in H. apply H; lia. Qed.

(** What an event does to the abstract queue. *)
Definition abs_step (q : list T) (e : event) (q' : list T) : Prop :=
  match e with
  | ev_pushed v => q' = q ++ [v]
  | ev_popped v => q = v :: q'
  | _ => q' = q
  end.

Definition abs_w (W : Z) (e : event) : Z := match e with ev_pushed _ => W + 1 | _ => W end.
Definition abs_r (R : Z) (e : event) : Z := match e with ev_popped _ => R + 1 | _ => R end.

(** A producer step keeps the representation. *)
Lemma rep_push_publish q c v w W R l :
  rep (mkSystem q (P_slot_written v w) c) W R l ->
  rep (mkSystem (mkQueue (slots_ q) (u64_inc w) (read_index_ q)) P_idle c) (W + 1) R (l ++ [v]).
Proof.
  intros [Hw Hr Ho Hc Hl Hs Hcont (-> & Hlt & Hslot) Hcons]. simpl in *. split; simpl; try done; try lia.
  - apply residue_inc.
  - rewrite length_app; simpl; lia.
  - intros i Hi. rewrite length_app in Hi. simpl in Hi.
    destruct (decide (i < length l)%nat) as [Hlt'|Hge].
    + rewrite lookup_app_l by done. by apply Hcont.
    + assert (i = length l) as -> by lia. rewrite lookup_app_r, Nat.sub_diag by lia. simpl.
      by replace (R + Z.of_nat (length l)) with W by lia.
  - destruct c as [| |r w'|v' r]; try done.
    + destruct Hcons as [-> (W' & -> & ?)]. split; [done|]. exists W'. split; [done|lia].
    + destruct Hcons as [-> Hh]. split; [done|]. by destruct l.
Qed.

Lemma rep_push_write q c v w r W R l :
  (Capacity <=? u64_sub w r) = false ->
  rep (mkSystem q (P_loaded_both v w r) c) W R l ->
  rep (mkSystem (mkQueue (<[slot_of w := v]> (slots_ q)) (write_index_ q) (read_index_ q))
                (P_slot_written v w) c) W R l.
Proof.
  intros Hnf [Hw Hr Ho Hc Hl Hs Hcont (-> & R' & -> & HR' & HW) Hcons]. simpl in *.
  rewrite residue_sub in Hnf by lia. apply Z.leb_gt in Hnf.
  split; simpl; try done; rewrite ?length_insert; try done.
  - intros i Hi. rewrite slot_of_residue.
    rewrite list_lookup_insert_ne; [by apply Hcont|].
    apply not_eq_sym, slot_distinct. lia.
  - split_and!; [done|lia|]. rewrite slot_of_residue. apply list_lookup_insert_eq.
    pose proof (Z.mod_pos_bound W Capacity). lia.
Qed.

Lemma rep_pop_publish q p v r W R l :
  rep (mkSystem q p (C_slot_copied v r)) W R l ->
  exists l', l = v :: l' /\
  rep (mkSystem (mkQueue (slots_ q) (write_index_ q) (u64_inc r)) p C_idle) W (R + 1) l'.
Proof.
  intros [Hw Hr Ho Hc Hl Hs Hcont Hprod (-> & Hh)]. simpl in *.
  destruct l as [|v' l']; [done|]. injection Hh as ->. exists l'. split; [done|].
  simpl in Hl. split; simpl; try done; try lia.
  - apply residue_inc.
  - intros i Hi. specialize (Hcont (S i) ltac:(simpl; lia)). simpl in Hcont.
    by replace (R + 1 + Z.of_nat i) with (R + Z.of_nat (S i)) by lia.
  - destruct p as [| |v0 w r0|v0 w]; try done.
    + destruct Hprod as [-> (R' & -> & ? & ?)]. split; [done|]. exists R'. split_and!; [done|lia|lia].
    + destruct Hprod as (-> & ? & ?). split_and!; [done|lia|done].
Qed.

Lemma rep_pop_copy q p v r w W R l :
  (r =? w) = false -> slots_ q !! slot_of r = Some v ->
  rep (mkSystem q p (C_loaded_both r w)) W R l ->
  rep (mkSystem q p (C_slot_copied v r)) W R l.
Proof.
  intros Hne Hv [Hw Hr Ho Hc Hl Hs Hcont Hprod (-> & W' & -> & HW')]. simpl in *.
  split; simpl; try done. split; [done|]. apply Z.eqb_neq in Hne.
  assert (R <> W') by (intros ->; done).
  destruct l as [|v0 l]; [simpl in Hl; lia|].
  specialize (Hcont 0%nat ltac:(simpl; lia)). simpl in Hcont. rewrite Z.add_0_r in Hcont.
  rewrite slot_of_residue in Hv. simpl. congruence.
Qed.

Lemma rep_step s e s' W R l :
  rep s W R l -> spsc_step s e s' ->
  exists l', abs_step l e l' /\ rep s' (abs_w W e) (abs_r R e) l'.
Proof.
  intros Hrep Hstep. destruct Hstep.
  1-4: exists l; split; [done|].
  5: eexists; split; [done|]; by apply rep_push_publish.
  9: by apply rep_pop_publish in Hrep as (l' & -> & ?); exists l'.
  4: by eapply rep_push_write.
  7: exists l; split; [done|]; by eapply rep_pop_copy.
  all: try (exists l; split; [done|]).
  all: destruct Hrep as [Hw Hr Ho Hc Hl Hs Hcont Hprod Hcons]; simpl in *; split; simpl; try done.
  - split; [done|]. exists R. split_and!; [done|lia|lia].
  - split; [done|]. exists W. split; [done|lia].
Qed.

Lemma rep_init d : rep (empty_system d) 0 0 [].
Proof.
  split; simpl; try done; try lia.
  - rewrite length_replicate. lia.
Qed.

Lemma rep_run d tr s :
  spsc_run (empty_system d) tr s ->
  exists W R l, rep s W R l /\ pushes tr = pops tr ++ l.
Proof.
  remember (empty_system d) as s0 eqn:E. intros Hrun. induction Hrun as [s|s1 s2 s3 e tr Hrun IH Hstep].
  { subst. exists 0, 0, []. split; [apply rep_init|done]. }
  destruct (IH E) as (W & R & l & Hrep & Heq).
  destruct (rep_step _ _ _ _ _ _ Hrep Hstep) as (l' & Habs & Hrep').
  exists (abs_w W e), (abs_r R e), l'. split; [done|].
  unfold pushes, pops in *. rewrite !omap_app, Heq.
  destruct e; simpl in *; subst; rewrite ?app_nil_r, <- ?app_assoc; done.
Qed.

(** Running one call alone performs the whole-call definition. *)
Lemma push_alone q v :
  exists tr, spsc_run (mkSystem q P_idle C_idle) tr (mkSystem (tryPush q v).2 P_idle C_idle) /\
  tr = [ev_tau; ev_tau] ++ (if (tryPush q v).1 then [ev_tau; ev_pushed v] else [ev_full v]).
Proof.
  eexists; split; [|reflexivity]. unfold tryPush.
  pose proof (run_step _ _ _ _ _ (run_step _ _ _ _ _ (run_done (mkSystem q P_idle C_idle))
    (push_load_write q C_idle v)) (push_load_read q C_idle v (write_index_ q))) as Hrun.
  destruct (Capacity <=? _) eqn:E; simpl.
  - exact (run_step _ _ _ _ _ Hrun (push_refused _ _ _ _ _ E)).
  - exact (run_step _ _ _ _ _ (run_step _ _ _ _ _ Hrun (push_write_slot _ _ _ _ _ E))
      (push_publish _ _ _ _)).
Qed.

Lemma pop_alone q v :
  (tryPop q).1 = Some v ->
  spsc_run (mkSystem q P_idle C_idle) [ev_tau; ev_tau; ev_tau; ev_popped v]
           (mkSystem (tryPop q).2 P_idle C_idle).
Proof.
  unfold tryPop. destruct (_ =? _) eqn:E; [done|]. simpl. intros Hv.
  exact (run_step _ _ _ _ _ (run_step _ _ _ _ _ (run_step _ _ _ _ _ (run_step _ _ _ _ _
    (run_done _) (pop_load_read q P_idle)) (pop_load_write q P_idle _))
    (pop_copy_slot _ _ _ _ _ E Hv)) (pop_publish _ _ _ _)).
Qed.

(** ** Properties *)

(** C31. FIFO refinement under every interleaving of the producer and the
    consumer: after any run from the empty queue the pushed values are the
    popped values followed by the queue content, which never exceeds the
    capacity.  The capacity has to divide [2^64], as the product's (256) does. *)
Theorem spsc_fifo (d : T) (tr : list event) (s : system) :
  spsc_run (empty_system d) tr s ->
  exists content, pushes tr = pops tr ++ content /\ Z.of_nat (length content) <= Capacity.
Proof.
  intros (W & R & l & Hrep & Heq)%rep_run. exists l. split; [done|].
  pose proof (rep_len _ _ _ _ Hrep). pose proof (rep_cap _ _ _ _ Hrep). lia.
Qed.

(** Freedom from data races: whenever a producer that passed its fullness
    check is about to write a slot and a consumer that passed its emptiness
    check is about to read one, the two slots differ. *)
Theorem spsc_race_free (d : T) (tr : list event) (q : BoundedSpscQueue) v w r r' w' :
  spsc_run (empty_system d) tr (mkSystem q (P_loaded_both v w r) (C_loaded_both r' w')) ->
  (Capacity <=? u64_sub w r) = false -> (r' =? w') = false ->
  slot_of w <> slot_of r'.
Proof.
  intros (W & R & l & Hrep & _)%rep_run Hnf Hne.
  destruct Hrep as [_ _ Ho Hc _ _ _ (-> & R' & -> & HR' & HW) (-> & W' & -> & HW')]. simpl in *.
  rewrite residue_sub in Hnf by lia. apply Z.leb_gt in Hnf. apply Z.eqb_neq in Hne.
  assert (R <> W') by (intros ->; done).
  rewrite !slot_of_residue. apply not_eq_sym, slot_distinct. lia.
Qed.
End Queue.

(** ** Witnesses and the capacity hypothesis *)

Lemma run_trans {T} (cap : Z) (s1 s2 s3 : @system T) tr1 tr2 :
  spsc_run cap s1 tr1 s2 -> spsc_run cap s2 tr2 s3 -> spsc_run cap s1 (tr1 ++ tr2) s3.
Proof.
  intros H1 H2. induction H2 as [|? ? ? e tr ? IH Hstep]; [by rewrite app_nil_r|].
  rewrite app_assoc. eapply run_step; eauto.
Qed.

(** One value pushed and popped through a queue of the product's capacity. *)
Lemma demo_run :
  spsc_run 256 (empty_system 256 0)
    [ev_tau; ev_tau; ev_tau; ev_pushed 11; ev_tau; ev_tau; ev_tau; ev_popped 11]
    (mkSystem (mkQueue (<[0%nat:=11]> (replicate 256 0)) 1 1) P_idle C_idle).
Proof.
  pose proof (push_alone 256 (mkQueue (replicate (Z.to_nat 256) 0) 0 0) 11) as (tr & Hpush & ->).
  pose proof (pop_alone 256 (mkQueue (<[0%nat:=11]> (replicate 256 0)) 1 0) 11 eq_refl) as Hpop.
  exact (run_trans _ _ _ _ _ _ Hpush Hpop).
Qed.

(** Both threads stopped just before their slot access, one value in the queue. *)
Lemma demo_race :
  spsc_run 256 (empty_system 256 0)
    [ev_tau; ev_tau; ev_tau; ev_pushed 11; ev_tau; ev_tau; ev_tau; ev_tau]
    (mkSystem (mkQueue (<[0%nat:=11]> (replicate 256 0)) 1 0)
              (P_loaded_both 22 1 0) (C_loaded_both 0 1)).
Proof.
  pose proof (push_alone 256 (mkQueue (replicate (Z.to_nat 256) 0) 0 0) 11) as (tr & Hpush & ->).
  refine (run_trans _ _ _ _ _ [ev_tau; ev_tau; ev_tau; ev_tau] Hpush _).
  refine (run_step 256 _ _ _ ev_tau [ev_tau; ev_tau; ev_tau] _ (pop_load_write 256 _ _ 0)).
  refine (run_step 256 _ _ _ ev_tau [ev_tau; ev_tau] _ (pop_load_read 256 _ _)).
  refine (run_step 256 _ _ _ ev_tau [ev_tau] _ (push_load_read 256 _ _ 22 1)).
  refine (run_step 256 _ _ _ ev_tau [] (run_done 256 _) (push_load_write 256 _ _ 22)).
Qed.

Lemma spsc_fifo_witness :
  exists content, @pushes Z [ev_tau; ev_tau; ev_tau; ev_pushed 11; ev_tau; ev_tau; ev_tau; ev_popped 11]
    = pops [ev_tau; ev_tau; ev_tau; ev_pushed 11; ev_tau; ev_tau; ev_tau; ev_popped 11] ++ content /\
    Z.of_nat (length content) <= 256.
Proof.
  refine (spsc_fifo 256 _ _ 0 _ _ demo_run); [lia|exists (2 ^ 56); reflexivity].
Defined.

Lemma spsc_race_free_witness : slot_of 256 1 <> slot_of 256 0.
Proof.
  refine (spsc_race_free 256 _ _ 0 _ _ 22 1 0 0 1 demo_race _ _);
    [lia|exists (2 ^ 56); reflexivity|reflexivity|reflexivity].
Defined.

(** The capacity hypothesis is needed: the source only asserts [Capacity > 0].
    With three slots, two pushes across the wrap of the index land in one slot
    and the first value is lost. *)
Example wrap_loses_value :
  let q0 := mkQueue [0; 0; 0] u64_max u64_max in
  let q1 := (tryPush 3 q0 11).2 in
  let q2 := (tryPush 3 q1 22).2 in
  (tryPop 3 q2).1 = Some 22.
Proof. reflexivity. Qed.
