(* ===== verification/Geometry.v ===== *)
(** * Three-vectors of doubles

    [Eigen] is a third-party library: its operations on [Vector3d] and
    [Quaterniond] are the fields of the class [EigenOps], over which every
    definition of the development that calls them is generalised.  The storage
    (three or four doubles) is concrete.  [eigen_reference] is one concrete
    implementation, used only to evaluate witnesses. *)

From S2P Require Import Prelude Float64 Float64Facts.
From Stdlib Require Import Floats.SpecFloat.

(** [Eigen::Vector3d] *)
Record vec3 : Type := Vec3 { vx : f64; vy : f64; vz : f64 }.

(** [Vector3d::Zero()] and [Vector3d::Constant(c)] *)
Definition vec3_zero : vec3 := Vec3 fzero fzero fzero.
Definition vec3_constant (c : f64) : vec3 := Vec3 c c c.

(** [Eigen::Quaterniond] in the order of [coeffs()]: x, y, z, w. *)
Record quat : Type := Quat { qx : f64; qy : f64; qz : f64; qw : f64 }.
Definition quat_identity : quat := Quat fzero fzero fzero (f64_of_Z 1).

(** [Eigen::Vector3f] *)
Record vec3f : Type := Vec3f { fx : f32; fy : f32; fz : f32 }.

(** [v.cast<float>()] *)
Definition vec3f_of_vec3 (v : vec3) : vec3f :=
  Vec3f (f32_of_f64 (vx v)) (f32_of_f64 (vy v)) (f32_of_f64 (vz v)).

(** [Eigen::Matrix3d], by rows. *)
Record mat3 : Type := Mat3 { row0 : vec3; row1 : vec3; row2 : vec3 }.

(** The operations the source takes from Eigen. *)
Class EigenOps : Type := {
  v_allFinite : vec3 -> bool;
  v_norm : vec3 -> f64;
  v_squaredNorm : vec3 -> f64;
  v_dot : vec3 -> vec3 -> f64;
  v_add : vec3 -> vec3 -> vec3;
  v_sub : vec3 -> vec3 -> vec3;
  v_scale : f64 -> vec3 -> vec3;
  v_div : vec3 -> f64 -> vec3;
  (** [(a.array() >= b.array()).all()] and [(a.array() <= b.array()).all()] *)
  v_all_ge : vec3 -> vec3 -> bool;
  v_all_le : vec3 -> vec3 -> bool;
  (** [a.array() - s] and [a.array() + s] *)
  v_sub_scalar : vec3 -> f64 -> vec3;
  v_add_scalar : vec3 -> f64 -> vec3;
  q_allFinite : quat -> bool;
  q_absMaxCoeff : quat -> f64;
  q_div : quat -> f64 -> quat;
  q_squaredNorm : quat -> f64
}.

(** Documented behaviour the theorems rely on where they name it. *)
Class EigenLaws (E : EigenOps) : Prop := {
  v_allFinite_spec : forall v,
    v_allFinite v = isfinite (vx v) && isfinite (vy v) && isfinite (vz v);
  v_all_ge_spec : forall a b,
    v_all_ge a b = fge (vx a) (vx b) && fge (vy a) (vy b) && fge (vz a) (vz b);
  v_all_le_spec : forall a b,
    v_all_le a b = fle (vx a) (vx b) && fle (vy a) (vy b) && fle (vz a) (vz b)
}.

(** ** A concrete implementation *)

Definition map3 (f : f64 -> f64 -> f64) (a b : vec3) : vec3 :=
  Vec3 (f (vx a) (vx b)) (f (vy a) (vy b)) (f (vz a) (vz b)).

Definition ref_dot (a b : vec3) : f64 :=
  f64_add (f64_mul (vx a) (vx b)) (f64_add (f64_mul (vy a) (vy b)) (f64_mul (vz a) (vz b))).

Definition eigen_reference : EigenOps := {|
  v_allFinite v := isfinite (vx v) && isfinite (vy v) && isfinite (vz v);
  v_norm v := f64_sqrt (ref_dot v v);
  v_squaredNorm v := ref_dot v v;
  v_dot := ref_dot;
  v_add := map3 f64_add;
  v_sub := map3 f64_sub;
  v_scale s := map3 f64_mul (vec3_constant s);
  v_div v s := map3 f64_div v (vec3_constant s);
  v_all_ge a b := fge (vx a) (vx b) && fge (vy a) (vy b) && fge (vz a) (vz b);
  v_all_le a b := fle (vx a) (vx b) && fle (vy a) (vy b) && fle (vz a) (vz b);
  v_sub_scalar a s := map3 f64_sub a (vec3_constant s);
  v_add_scalar a s := map3 f64_add a (vec3_constant s);
  q_allFinite q := isfinite (qx q) && isfinite (qy q) && isfinite (qz q) && isfinite (qw q);
  q_absMaxCoeff q := fmax (fmax (fabs (qx q)) (fabs (qy q))) (fmax (fabs (qz q)) (fabs (qw q)));
  q_div q s := Quat (f64_div (qx q) s) (f64_div (qy q) s) (f64_div (qz q) s) (f64_div (qw q) s);
  q_squaredNorm q :=
    f64_add (f64_add (f64_mul (qx q) (qx q)) (f64_mul (qy q) (qy q)))
            (f64_add (f64_mul (qz q) (qz q)) (f64_mul (qw q) (qw q)))
|}.

Lemma eigen_reference_laws : EigenLaws eigen_reference.
Proof. by constructor. Qed.

(** * Mathematical functions and matrices the adapter uses

    [std::hypot], [std::cos], [std::sin] and [std::atan2] of the C++ library and
    the matrix and rotation products of Eigen are parameters: the classes
    [LibmOps] and [EigenMatOps].  The references are concrete implementations
    used only to evaluate witnesses ([cos], [sin] and [atan2] are the first
    terms of their series, exact at the angle zero). *)

Class LibmOps : Type := {
  std_hypot : f64 -> f64 -> f64;
  std_cos : f64 -> f64;
  std_sin : f64 -> f64;
  std_atan2 : f64 -> f64 -> f64
}.

Definition libm_reference : LibmOps := {|
  std_hypot x y := f64_sqrt (f64_add (f64_mul x x) (f64_mul y y));
  std_cos x := f64_sub (f64_of_Z 1) (f64_div (f64_mul x x) (f64_of_Z 2));
  std_sin x := x;
  std_atan2 y x := f64_div y x
|}.

Class EigenMatOps : Type := {
  (** [m * v] and [m * n] *)
  m_mulv : mat3 -> vec3 -> vec3;
  m_mul : mat3 -> mat3 -> mat3;
  (** [q.normalized()] and [q * v] *)
  q_normalized : quat -> quat;
  q_rotate : quat -> vec3 -> vec3
}.

Definition ref_mulv (m : mat3) (v : vec3) : vec3 :=
  Vec3 (ref_dot (row0 m) v) (ref_dot (row1 m) v) (ref_dot (row2 m) v).

Definition ref_mat_col (m : mat3) (c : vec3 -> f64) : vec3 :=
  Vec3 (c (row0 m)) (c (row1 m)) (c (row2 m)).

Definition ref_mat_mul (m n : mat3) : mat3 :=
  let row r := Vec3 (ref_dot r (ref_mat_col n vx)) (ref_dot r (ref_mat_col n vy))
                    (ref_dot r (ref_mat_col n vz)) in
  Mat3 (row (row0 m)) (row (row1 m)) (row (row2 m)).

Definition ref_cross (a b : vec3) : vec3 :=
  Vec3 (f64_sub (f64_mul (vy a) (vz b)) (f64_mul (vz a) (vy b)))
       (f64_sub (f64_mul (vz a) (vx b)) (f64_mul (vx a) (vz b)))
       (f64_sub (f64_mul (vx a) (vy b)) (f64_mul (vy a) (vx b))).

(** [v + 2 w (u x v) + 2 u x (u x v)] for the quaternion [(u, w)]. *)
Definition ref_rotate (q : quat) (v : vec3) : vec3 :=
  let u := Vec3 (qx q) (qy q) (qz q) in
  let two := f64_of_Z 2 in
  let uv := ref_cross u v in
  map3 f64_add v
    (map3 f64_add (map3 f64_mul (vec3_constant (f64_mul two (qw q))) uv)
                  (map3 f64_mul (vec3_constant two) (ref_cross u uv))).

Definition eigen_mat_reference : EigenMatOps := {|
  m_mulv := ref_mulv;
  m_mul := ref_mat_mul;
  q_normalized q :=
    let n := f64_sqrt (f64_add (f64_add (f64_mul (qx q) (qx q)) (f64_mul (qy q) (qy q)))
                               (f64_add (f64_mul (qz q) (qz q)) (f64_mul (qw q) (qw q)))) in
    Quat (f64_div (qx q) n) (f64_div (qy q) n) (f64_div (qz q) n) (f64_div (qw q) n);
  q_rotate := ref_rotate
|}.

(** * A segment against an axis-aligned box

    [lineIntersectBox], [InBox] and [GetIntersection] of
    [mapping/rog_map_vendor/.../common_lib.hpp], which graph search uses to
    project end points onto the local map.  The signed distances to a face are
    passed as [float], so they are rounded to binary32 before they are compared. *)

Section LineBox.
Context `{EigenOps}.

(** [Some Hit] when the function returns [true]. *)
Definition GetIntersection (fDst1 fDst2 : f32) (P1 P2 : vec3) : option vec3 :=
  if fge (f32_mul fDst1 fDst2) fzero then None
  else if feq fDst1 fDst2 then None
  else Some (v_add P1 (v_scale (f64_of_f32 (f32_div (fopp fDst1) (f32_sub fDst2 fDst1)))
                         (v_sub P2 P1))).

Definition InBox (Hit B1 B2 : vec3) (Axis : Z) : bool :=
  let inside (c : vec3 -> f64) := fgt (c Hit) (c B1) && flt (c Hit) (c B2) in
  ((Axis =? 1) && inside vz && inside vy)
  || ((Axis =? 2) && inside vz && inside vx)
  || ((Axis =? 3) && inside vx && inside vy).

(** One disjunct of the test: the face of coordinate [c] of corner [B]. *)
Definition face_hit (L1 L2 B1 B2 B : vec3) (c : vec3 -> f64) (Axis : Z) : option vec3 :=
  Hit ← GetIntersection (f32_of_f64 (f64_sub (c L1) (c B))) (f32_of_f64 (f64_sub (c L2) (c B))) L1 L2;
  if InBox Hit B1 B2 Axis then Some Hit else None.

(** Both ends beyond the box on one side of coordinate [c]. *)
Definition beyond (L1 L2 B1 B2 : vec3) (c : vec3 -> f64) : bool :=
  (flt (c L2) (c B1) && flt (c L1) (c B1)) || (fgt (c L2) (c B2) && fgt (c L1) (c B2)).

Definition first_some {A} (l : list (option A)) : option A :=
  foldr (fun o r => match o with Some a => Some a | None => r end) None l.

Definition lineIntersectBox (L1 L2 B1 B2 : vec3) : option vec3 :=
  if beyond L1 L2 B1 B2 vx || beyond L1 L2 B1 B2 vy || beyond L1 L2 B1 B2 vz then None
  else first_some
    [face_hit L1 L2 B1 B2 B1 vx 1; face_hit L1 L2 B1 B2 B1 vy 2; face_hit L1 L2 B1 B2 B1 vz 3;
     face_hit L1 L2 B1 B2 B2 vx 1; face_hit L1 L2 B1 B2 B2 vy 2; face_hit L1 L2 B1 B2 B2 vz 3].

(** A reported hit lies strictly inside one face of the box, up to the
    coordinate of that face. *)
Lemma lineIntersectBox_in_face L1 L2 B1 B2 h :
  lineIntersectBox L1 L2 B1 B2 = Some h ->
  InBox h B1 B2 1 = true \/ InBox h B1 B2 2 = true \/ InBox h B1 B2 3 = true.
Proof.
  assert (Hf : forall B c a, face_hit L1 L2 B1 B2 B c a = Some h -> InBox h B1 B2 a = true).
  { intros B c a. unfold face_hit. destruct (GetIntersection _ _ _ _) as [p|]; cbn; [|done].
    destruct (InBox p B1 B2 a) eqn:E; [|done]. by intros [= ->]. }
  unfold lineIntersectBox. destruct (_ || _); [done|]. cbn.
  repeat (let E := fresh "E" in destruct (face_hit _ _ _ _ _ _ _) eqn:E;
          [intros [= ->]; apply Hf in E; auto|clear E]).
  done.
Qed.
End LineBox.

(** The normalisation of Eigen, which returns the zero vector unchanged. *)
Class EigenNormOps : Type := { v_normalized : vec3 -> vec3 }.
