(* ===== verification/World.v ===== *)
(** * World snapshots: identities, cells, publication

    Model of [src/mapping/navigation_world_model] (the identity, cell states and
    the read-only view interface) and of the publication store
    [src/mapping/navigation_mapping/.../world_snapshot_store.hpp], with the
    source-time assessment of a snapshot
    ([src/execution/.../timestamp_freshness.hpp], [world_temporal_assessment.hpp]).

    A view is the record of the virtual functions of [WorldModelView]; its
    identity is the value [identity()] returns. *)

From S2P Require Import Prelude Float64 Float64Facts Geometry.

(** ** Cells *)

Inductive CellState : Type :=
| kUndefined | kUnknown | kOutOfMap | kOccupied | kKnownFree | kFrontier.
#[export] Instance CellState_eq_dec : EqDecision CellState.
Proof. solve_decision. Defined.

Inductive FreeSpaceEvidence : Type :=
| kEvidenceUnknown | kSensorFree | kEvidenceOccupied | kEvidenceOutOfMap.
#[export] Instance FreeSpaceEvidence_eq_dec : EqDecision FreeSpaceEvidence.
Proof. solve_decision. Defined.

Inductive HandoverClearanceReason : Type :=
| kReasonNone | kNoSensorEvidence | kOccupiedContradiction.

Inductive GridLayer : Type := kEvidence | kInflated.
Inductive UnknownPolicy : Type := kAllowUnknown | kRequireKnownFree.
#[export] Instance UnknownPolicy_eq_dec : EqDecision UnknownPolicy.
Proof. solve_decision. Defined.

Definition isStoredCellState (state : CellState) : bool :=
  (state ==? kUnknown) || (state ==? kOccupied) || (state ==? kKnownFree).

Definition isCellTraversable (state : CellState) (unknown_policy : UnknownPolicy) : bool :=
  match state with
  | kKnownFree => true
  | kUnknown | kFrontier => unknown_policy ==? kAllowUnknown
  | kUndefined | kOutOfMap | kOccupied => false
  end.

(** ** Boxes *)

Record AxisAlignedBox : Type := mkBox { minimum : vec3; maximum : vec3 }.

Definition AxisAlignedBox_default : AxisAlignedBox := mkBox vec3_zero vec3_zero.

Definition AxisAlignedBox_valid `{EigenOps} (b : AxisAlignedBox) : bool :=
  v_allFinite (minimum b) && v_allFinite (maximum b) && v_all_ge (maximum b) (minimum b).

(** ** Snapshot identities *)

Record WorldSnapshotIdentity : Type := mkIdentity {
  wi_localization_epoch : Z;
  wi_generation : Z;
  wi_revision : Z;
  wi_observation_stamp_ns : Z
}.
#[export] Instance WorldSnapshotIdentity_eq_dec : EqDecision WorldSnapshotIdentity.
Proof. solve_decision. Defined.

Definition WorldSnapshotIdentity_default : WorldSnapshotIdentity := mkIdentity 0 0 0 0.

Definition sameWorldSnapshotIdentity (lhs rhs : WorldSnapshotIdentity) : bool :=
  (wi_localization_epoch lhs =? wi_localization_epoch rhs)
  && (wi_generation lhs =? wi_generation rhs)
  && (wi_revision lhs =? wi_revision rhs)
  && (wi_observation_stamp_ns lhs =? wi_observation_stamp_ns rhs).

(** ** The view interface: the virtual functions the consumers call *)

Record WorldModelView : Type := mkView {
  identity : WorldSnapshotIdentity;
  classify : vec3 -> GridLayer -> CellState;
  contains : vec3 -> bool;
  isSegmentTraversable : vec3 -> vec3 -> GridLayer -> UnknownPolicy -> bool;
  changedRegionIntersectsSince : WorldSnapshotIdentity -> AxisAlignedBox -> bool
}.

(** Default implementations of the interface. *)
Definition classifyFreeSpace (w : WorldModelView) (point : vec3) (layer : GridLayer)
  : FreeSpaceEvidence :=
  match classify w point layer with
  | kKnownFree => kSensorFree
  | kOccupied => kEvidenceOccupied
  | kOutOfMap => kEvidenceOutOfMap
  | kUnknown | kFrontier | kUndefined => kEvidenceUnknown
  end.

Definition handoverClearanceReason (w : WorldModelView) (point : vec3) (layer : GridLayer)
  : HandoverClearanceReason :=
  let state := classify w point layer in
  if state ==? kOccupied then kOccupiedContradiction
  else if state ==? kKnownFree then kReasonNone else kNoSensorEvidence.

Definition isSensorKnownFree (w : WorldModelView) (point : vec3) (layer : GridLayer) : bool :=
  classifyFreeSpace w point layer ==? kSensorFree.

Definition isOccupiedOrInflated (w : WorldModelView) (point : vec3) (layer : GridLayer) : bool :=
  classifyFreeSpace w point layer ==? kEvidenceOccupied.

Definition isGoalSegmentTraversable `{EigenOps} (world : WorldModelView) (start goal : vec3) : bool :=
  if negb (v_allFinite start) || negb (v_allFinite goal)
     || negb (contains world start) || negb (contains world goal) then false
  else isSegmentTraversable world start goal kInflated kAllowUnknown.

(** ** Commit decisions of the world boundary *)

Inductive WorldCommitDecision : Type :=
| wNotAttempted | wCommitted | wNoPublishedWorld | wWorldAdvanced | wSuperseded
| wCancelled | wCandidateRejected.
#[export] Instance WorldCommitDecision_eq_dec : EqDecision WorldCommitDecision.
Proof. solve_decision. Defined.

(** ** The publication store

    The state is the one atomic pointer [latest_]; each operation below is one
    critical section of [publication_gate_]. *)

Definition WorldSnapshotStore : Type := ptr WorldModelView.

(** The exceptions [publish] raises to its caller. *)
Inductive publish_error : Type := invalid_argument | logic_error.

Definition strictlyAdvances (current next : WorldSnapshotIdentity) : bool :=
  if negb (wi_localization_epoch next =? wi_localization_epoch current) then
    wi_localization_epoch current <? wi_localization_epoch next
  else if negb (wi_generation next =? wi_generation current) then
    wi_generation current <? wi_generation next
  else (wi_revision current <? wi_revision next)
       && (wi_observation_stamp_ns current <=? wi_observation_stamp_ns next).

Definition load (store : WorldSnapshotStore) : ptr WorldModelView * WorldSnapshotIdentity :=
  (store, match store with
          | Some view => identity (sp_obj view)
          | None => WorldSnapshotIdentity_default
          end).

(** The argument checks of the two publication operations. *)
Definition publish_check (store next : ptr WorldModelView) : publish_error + WorldModelView :=
  match next with
  | None => inl invalid_argument
  | Some n =>
      let next_identity := identity (sp_obj n) in
      if (wi_localization_epoch next_identity =? 0) || (wi_generation next_identity =? 0)
         || (wi_observation_stamp_ns next_identity <? 0) then inl invalid_argument
      else
        match store with
        | Some current =>
            if negb (strictlyAdvances (identity (sp_obj current)) next_identity)
            then inl logic_error else inr (sp_obj n)
        | None => inr (sp_obj n)
        end
  end.

Definition publish (store next : ptr WorldModelView)
  : (publish_error + unit) * WorldSnapshotStore :=
  match publish_check store next with
  | inl e => (inl e, store)
  | inr _ => (inr tt, next)
  end.

(** Outcome of the dependent transaction run before the world becomes visible:
    a typed decision, a boolean, or an exception. *)
Inductive finalize_outcome : Type :=
| fin_decision (d : WorldCommitDecision)
| fin_bool (b : bool)
| fin_throws.

Definition finalize_decision (o : finalize_outcome) : WorldCommitDecision :=
  match o with
  | fin_decision d => d
  | fin_bool true => wCommitted
  | fin_bool false | fin_throws => wCancelled
  end.

Definition publishAndFinalizeDecision (store next : ptr WorldModelView) (finalize : finalize_outcome)
  : (publish_error + WorldCommitDecision) * WorldSnapshotStore :=
  match publish_check store next with
  | inl e => (inl e, store)
  | inr _ =>
      let decision := finalize_decision finalize in
      if decision !=? wCommitted then (inr decision, store) else (inr wCommitted, next)
  end.

Definition publishAndFinalize (store next : ptr WorldModelView) (finalize : finalize_outcome)
  : (publish_error + bool) * WorldSnapshotStore :=
  match publishAndFinalizeDecision store next finalize with
  | (inl e, store') => (inl e, store')
  | (inr decision, store') => (inr (decision ==? wCommitted), store')
  end.

(** The commit callbacks of the next two operations run under the gate and
    their exceptions propagate to the caller: [None]. *)
Definition commit_decision (o : callback_outcome) : option WorldCommitDecision :=
  match o with
  | cb_returns true => Some wCommitted
  | cb_returns false => Some wCancelled
  | cb_throws => None
  end.

Definition authorize (store : WorldSnapshotStore) (validated_identity : WorldSnapshotIdentity)
    (commit : callback_outcome) : option WorldCommitDecision :=
  match store with
  | None => Some wNoPublishedWorld
  | Some latest =>
      if negb (sameWorldSnapshotIdentity (identity (sp_obj latest)) validated_identity)
      then Some wWorldAdvanced
      else commit_decision commit
  end.

Definition commitIfCurrentOrUnaffected (store : WorldSnapshotStore)
    (validated_identity : WorldSnapshotIdentity) (protected_region : AxisAlignedBox)
    (final_commit : shared WorldModelView -> WorldSnapshotIdentity -> callback_outcome)
  : option WorldCommitDecision :=
  match store with
  | None => Some wNoPublishedWorld
  | Some latest =>
      let latest_identity := identity (sp_obj latest) in
      if negb (sameWorldSnapshotIdentity latest_identity validated_identity)
         && changedRegionIntersectsSince (sp_obj latest) validated_identity protected_region
      then Some wWorldAdvanced
      else commit_decision (final_commit latest latest_identity)
  end.

(** The operations that write the store. *)
Inductive store_op : Type :=
| op_publish (next : ptr WorldModelView)
| op_publishAndFinalize (next : ptr WorldModelView) (finalize : finalize_outcome).

Definition store_step (store : WorldSnapshotStore) (o : store_op) : WorldSnapshotStore :=
  match o with
  | op_publish next => snd (publish store next)
  | op_publishAndFinalize next finalize => snd (publishAndFinalizeDecision store next finalize)
  end.

(** ** Freshness of a source stamp *)

Inductive TimestampFreshness : Type := VALID | INVALID | STALE | FUTURE.
#[export] Instance TimestampFreshness_eq_dec : EqDecision TimestampFreshness.
Proof. solve_decision. Defined.

(** [long double] holds every 64-bit integer and a difference of two of them is
    rounded to 64 bits of significand. *)
Definition classifyTimestampFreshness (now_ns stamp_ns maximum_age_ns : Z) : TimestampFreshness :=
  if (now_ns <=? 0) || (stamp_ns <=? 0) || (maximum_age_ns <=? 0) then INVALID
  else
    let age_ns := f80_sub (f80_of_Z now_ns) (f80_of_Z stamp_ns) in
    if fgt age_ns (f80_of_Z maximum_age_ns) then STALE
    else if flt age_ns (fopp (f80_of_Z maximum_age_ns)) then FUTURE
    else VALID.

Inductive WorldTemporalReason : Type :=
| kCurrent | kNoSnapshot | kInvalidTimeContract | kSourceStampMissing | kSourceStale | kSourceFuture.
#[export] Instance WorldTemporalReason_eq_dec : EqDecision WorldTemporalReason.
Proof. solve_decision. Defined.

Record WorldTemporalAssessment : Type := mkAssessment {
  wta_identity : WorldSnapshotIdentity;
  reason : WorldTemporalReason;
  source_time_result : TimestampFreshness
}.

Definition sourceCurrent (a : WorldTemporalAssessment) : bool := reason a ==? kCurrent.

Definition assessWorldTemporal (snapshot_available : bool) (identity : WorldSnapshotIdentity)
    (now_ros_ns maximum_source_age_ns : Z) : WorldTemporalAssessment :=
  let result r s := mkAssessment identity r s in
  if negb snapshot_available then result kNoSnapshot INVALID
  else if (maximum_source_age_ns <=? 0) || (now_ros_ns <=? 0) then result kInvalidTimeContract INVALID
  else if wi_observation_stamp_ns identity <=? 0 then result kSourceStampMissing INVALID
  else
    match classifyTimestampFreshness now_ros_ns (wi_observation_stamp_ns identity)
            maximum_source_age_ns with
    | VALID => result kCurrent VALID
    | STALE => result kSourceStale STALE
    | FUTURE => result kSourceFuture FUTURE
    | INVALID => result kInvalidTimeContract INVALID
    end.

(** ** Lemmas: identities and the publication order *)

Lemma sameWorldSnapshotIdentity_eq a b : sameWorldSnapshotIdentity a b = true <-> a = b.
Proof.
  destruct a, b. unfold sameWorldSnapshotIdentity. cbn. rewrite !andb_true_iff, !Z.eqb_eq.
  split; [intros [[[-> ->] ->] ->]; done|by intros [= -> -> -> ->]].
Qed.

Lemma sameWorldSnapshotIdentity_neq a b : sameWorldSnapshotIdentity a b = false <-> a <> b.
Proof. rewrite <- (sameWorldSnapshotIdentity_eq a b). by destruct (sameWorldSnapshotIdentity a b). Qed.

#[export] Hint Rewrite sameWorldSnapshotIdentity_eq sameWorldSnapshotIdentity_neq : nav_bool.

(** The order of publication: epoch, then generation, then revision, with a
    source stamp that never goes back inside a generation. *)
Definition advances (a b : WorldSnapshotIdentity) : Prop :=
  wi_localization_epoch a < wi_localization_epoch b \/
  (wi_localization_epoch a = wi_localization_epoch b /\
   (wi_generation a < wi_generation b \/
    (wi_generation a = wi_generation b /\ wi_revision a < wi_revision b /\
     wi_observation_stamp_ns a <= wi_observation_stamp_ns b))).

Lemma strictlyAdvances_spec a b : strictlyAdvances a b = true <-> advances a b.
Proof.
  unfold strictlyAdvances, advances. guard_cases; breflect; lia.
Qed.

#[export] Instance advances_transitive : Transitive advances.
Proof. intros a b c. unfold advances. lia. Qed.

#[export] Instance advances_irreflexive : Irreflexive advances.
Proof. intros a. unfold complement, advances. lia. Qed.

(** What a reader may see next: the same pointer, or a world that advances. *)
Definition store_le (s s' : WorldSnapshotStore) : Prop :=
  s = s' \/
  match s, s' with
  | Some a, Some b => advances (identity (sp_obj a)) (identity (sp_obj b))
  | None, Some _ => True
  | _, None => False
  end.

#[export] Instance store_le_reflexive : Reflexive store_le.
Proof. by left. Qed.

#[export] Instance store_le_transitive : Transitive store_le.
Proof.
  intros s1 s2 s3 [->|H12] [->|H23]; try (by left); try (by right). right.
  destruct s1, s2, s3; try done. by etransitivity.
Qed.

Lemma publish_check_advances store next n :
  publish_check store next = inr n -> store_le store next /\ is_Some next.
Proof.
  unfold publish_check. destruct next as [v|]; [|done]. destruct (_ || _); [done|].
  intros Hc. split; [|done]. right. destruct store as [c|]; [|done].
  destruct (strictlyAdvances _ _) eqn:E; [by apply strictlyAdvances_spec|done].
Qed.

Lemma store_step_le store o : store_le store (store_step store o).
Proof.
  destruct o as [next|next fin]; simpl; unfold publish, publishAndFinalizeDecision;
    (destruct (publish_check store next) as [|n] eqn:E; [done|]); simpl.
  - by apply publish_check_advances in E as [? _].
  - destruct (_ !=? _); [done|]. by apply publish_check_advances in E as [? _].
Qed.

Lemma store_run_le store ops : store_le store (run store_step store ops).
Proof. apply run_preorder; [apply _|apply _|apply store_step_le]. Qed.

(** ** Properties *)

(** The freshness verdict, computed in long double, is exactly the integer
    one: invalid when a stamp or the bound is not positive, stale when the stamp
    is older than the bound, future when it is ahead by more than the bound,
    valid otherwise; rounding never moves a boundary, over the whole 64-bit
    range. *)
Theorem classifyTimestampFreshness_exact (now stamp age : Z) :
  is_i64 now -> is_i64 stamp -> is_i64 age ->
  classifyTimestampFreshness now stamp age =
    if decide (now <= 0 \/ stamp <= 0 \/ age <= 0) then INVALID
    else if decide (now - stamp > age) then STALE
    else if decide (now - stamp < - age) then FUTURE else VALID.
Proof.
  intros Hn Hs Ha. unfold classifyTimestampFreshness.
  destruct (_ || _ || _) eqn:E; bsplit.
  { rewrite decide_True; [done|]. lia. }
  rewrite decide_False by lia.
  destruct (f80_sub_Z now stamp) as (Hv & Hf & Hu); [zlia..|].
  destruct (f80_of_Z_units age) as [Fa Ua]; [zlia|].
  pose proof (f80_of_Z_valid age) as Va. unfold fgt. cbv zeta.
  change (SpecFloat.SFltb ?a ?b) with (flt a b).
  rewrite (f80_ltb_Z _ _ _ _ Va Hv Fa Hf Ua Hu).
  rewrite (f80_ltb_Z _ _ (now - stamp) (- age) Hv (f80_valid_opp _ Va) Hf).
  - clear Hv Hf Hu Fa Ua Va. destruct (age <? now - stamp) eqn:E1; bsplit.
    + by rewrite decide_True by lia.
    + rewrite decide_False by lia. destruct (now - stamp <? - age) eqn:E2; bsplit.
      * by rewrite decide_True by lia.
      * by rewrite decide_False by lia.
  - by destruct (f80_of_Z age).
  - done.
  - rewrite SF_units_opp, Ua. lia.
Qed.

Lemma classifyTimestampFreshness_exact_witness :
  is_i64 9223372036854775807 /\
  classifyTimestampFreshness 9223372036854775807 1 9223372036854775806 = VALID.
Proof.
  assert (H1 : is_i64 9223372036854775807) by zlia.
  assert (H2 : is_i64 1) by zlia. assert (H3 : is_i64 9223372036854775806) by zlia.
  split; [exact H1|].
  rewrite (classifyTimestampFreshness_exact _ _ _ H1 H2 H3). reflexivity.
Defined.

(** A superseded world never authorises again: once a publication has made
    another world visible, no later sequence of publications, finalised or
    refused, lets a commit be authorised against the old identity. *)
Theorem superseded_world_never_authorizes (old : shared WorldModelView)
    (ops1 ops2 : list store_op) (commit : callback_outcome) :
  run store_step None ops1 = Some old ->
  run store_step (Some old) ops2 <> Some old ->
  forall ops3, authorize (run store_step None (ops1 ++ ops2 ++ ops3)) (identity (sp_obj old)) commit
    = Some wWorldAdvanced.
Proof.
  intros Hold Hnew ops3. rewrite !run_app, Hold.
  destruct (store_run_le (Some old) ops2) as [Heq|Hle]; [by destruct Hnew|].
  destruct (run store_step (Some old) ops2) as [mid|] eqn:Em; [|done].
  assert (Hadv : exists last, run store_step (Some mid) ops3 = Some last /\
            advances (identity (sp_obj old)) (identity (sp_obj last))).
  { destruct (store_run_le (Some mid) ops3) as [<-|H3]; [by exists mid|].
    destruct (run store_step (Some mid) ops3) as [l|]; [|done]. exists l. split; [done|].
    by etransitivity. }
  destruct Hadv as (l & -> & Hl). unfold authorize.
  destruct (sameWorldSnapshotIdentity _ _) eqn:E; [|done]. breflect. rewrite E in Hl.
  by destruct (advances_irreflexive _ Hl).
Qed.

(** A view that answers every query negatively. *)
Definition demo_view (i : WorldSnapshotIdentity) : WorldModelView :=
  mkView i (fun _ _ => kUnknown) (fun _ => false) (fun _ _ _ _ => false) (fun _ _ => false).

Lemma superseded_world_never_authorizes_witness :
  authorize (run store_step None
    ([op_publish (Some (Shared 1 (demo_view (mkIdentity 1 1 1 10))))] ++
     [op_publishAndFinalize (Some (Shared 2 (demo_view (mkIdentity 1 1 2 20)))) (fin_bool true)] ++
     [op_publish (Some (Shared 3 (demo_view (mkIdentity 1 1 1 10))))]))
    (mkIdentity 1 1 1 10) (cb_returns true) = Some wWorldAdvanced.
Proof.
  apply (superseded_world_never_authorizes (Shared 1 (demo_view (mkIdentity 1 1 1 10))));
    [reflexivity|vm_compute; discriminate].
Defined.

(** A publication that must be finalised is atomic with the dependent
    transaction: the new world becomes visible exactly when its identity is
    admissible and advances the visible one and the dependent transaction
    reports a commit; in every other case, an exception included, the store
    keeps the old pointer. *)
Theorem publishAndFinalize_atomic (store next : ptr WorldModelView) (o : finalize_outcome) :
  let '(result, store') := publishAndFinalizeDecision store next o in
  (result = inr wCommitted <->
     exists n, next = Some n /\
       wi_localization_epoch (identity (sp_obj n)) <> 0 /\
       wi_generation (identity (sp_obj n)) <> 0 /\
       0 <= wi_observation_stamp_ns (identity (sp_obj n)) /\
       (forall c, store = Some c -> advances (identity (sp_obj c)) (identity (sp_obj n))) /\
       (o = fin_decision wCommitted \/ o = fin_bool true)) /\
  (result = inr wCommitted -> store' = next) /\
  (result <> inr wCommitted -> store' = store).
Proof.
  unfold publishAndFinalizeDecision, publish_check.
  destruct next as [n|]; [|split_and!; naive_solver].
  destruct (_ || _) eqn:Eg; bsplit.
  { split_and!; try done. split; [done|]. intros (n' & [= <-] & ? & ? & ? & _). lia. }
  assert (Hfin : finalize_decision o = wCommitted <->
    o = fin_decision wCommitted \/ o = fin_bool true).
  { destruct o as [d|[]|]; simpl; naive_solver. }
  assert (Hgoal : forall d : bool, d = (finalize_decision o ==? wCommitted) ->
    (forall c, store = Some c -> advances (identity (sp_obj c)) (identity (sp_obj n))) ->
    let '(result, store') := if negb d then (inr (finalize_decision o), store)
                             else (@inr publish_error _ wCommitted, Some n) in
    (result = inr wCommitted <->
     exists n0, Some n = Some n0 /\
       wi_localization_epoch (identity (sp_obj n0)) <> 0 /\
       wi_generation (identity (sp_obj n0)) <> 0 /\
       0 <= wi_observation_stamp_ns (identity (sp_obj n0)) /\
       (forall c, store = Some c -> advances (identity (sp_obj c)) (identity (sp_obj n0))) /\
       (o = fin_decision wCommitted \/ o = fin_bool true)) /\
    (result = inr wCommitted -> store' = Some n) /\ (result <> inr wCommitted -> store' = store)).
  { intros d -> Hadv. destruct (finalize_decision o ==? wCommitted) eqn:Ed; breflect; simpl.
    - split_and!; try done. split; [intros _|done]. exists n. split_and!; try done. by apply Hfin.
    - split_and!; try done; [|intros [= E]; done].
      split; [intros [= E]; done|]. intros (? & _ & _ & _ & _ & _ & Ho). by apply Hfin in Ho. }
  destruct store as [c|]; [|by apply Hgoal].
  destruct (strictlyAdvances _ _) eqn:Ea; simpl.
  - apply strictlyAdvances_spec in Ea. apply Hgoal; [done|]. by intros ? [= <-].
  - split_and!; try done. split; [done|]. intros (n' & [= <-] & _ & _ & _ & Hc & _).
    specialize (Hc c eq_refl). apply strictlyAdvances_spec in Hc. congruence.
Qed.
