(* ===== verification/Candidate.v ===== *)
(** * Candidate bundles: what a planner hands to execution

    Model of [src/planning/navigation_planning/include/navigation_planning]:
    [route_boundary.hpp], [candidate_bundle.hpp], [execution_anchor.hpp],
    [planning_timing.hpp] and [kinematic_state.hpp], with the anchor comparison
    of [src/execution/.../execution_anchor.hpp].

    The evaluator and the world validator are [std::function] values: absent,
    or a callable that may throw. *)

From S2P Require Import Prelude Float64 Float64Facts TimeNs Geometry World.

(** ** Enumerations *)

Inductive CandidateRole : Type := kMain | kBackup | kEmergency.
#[export] Instance CandidateRole_eq_dec : EqDecision CandidateRole.
Proof. solve_decision. Defined.

Inductive CandidateBundleKind : Type :=
| kMainWithBackup | kTerminalStop | kBackupOnly | kEmergencyBrake.
#[export] Instance CandidateBundleKind_eq_dec : EqDecision CandidateBundleKind.
Proof. solve_decision. Defined.

Inductive CandidateSource : Type :=
| kDeterministicBaseline | kRefined | kRetained | kSourceEmergency.
#[export] Instance CandidateSource_eq_dec : EqDecision CandidateSource.
Proof. solve_decision. Defined.

Inductive RouteBoundaryEventKind : Type := kEventPassThrough | kEventTerminalStop.
#[export] Instance RouteBoundaryEventKind_eq_dec : EqDecision RouteBoundaryEventKind.
Proof. solve_decision. Defined.

(** The source's literals. *)
Definition f64_1 : f64 := f64_of_Z 1.
Definition f64_1e_3 : f64 := f64_lit 1 1000.
Definition f64_1e_4 : f64 := f64_lit 1 10000.
Definition f64_1e_5 : f64 := f64_lit 1 100000.
Definition f64_1e_6 : f64 := f64_lit 1 1000000.
Definition f64_1e_9 : f64 := f64_lit 1 1000000000.

(** ** Route boundaries *)

Record RouteBoundaryEvent : Type := mkEvent {
  re_kind : RouteBoundaryEventKind;
  re_junction_index : Z;
  re_boundary_stamp_ns : Z;
  re_position_world : vec3;
  re_incoming_tangent : vec3;
  re_outgoing_tangent : vec3;
  re_corner_speed_mps : f64
}.

Record RouteBoundaryConstraint : Type := mkConstraint {
  rc_admissible_volume : AxisAlignedBox;
  rc_junction_index : Z;
  rc_incoming_tangent : vec3;
  rc_outgoing_tangent : vec3;
  rc_corner_speed_mps : f64
}.

Section RouteBoundary.
Context `{EigenOps}.

Definition RouteBoundaryEvent_valid (e : RouteBoundaryEvent) : bool :=
  let incoming_norm := v_norm (re_incoming_tangent e) in
  let outgoing_norm := v_norm (re_outgoing_tangent e) in
  (0 <? re_boundary_stamp_ns e) && v_allFinite (re_position_world e)
  && v_allFinite (re_incoming_tangent e) && v_allFinite (re_outgoing_tangent e)
  && isfinite incoming_norm && fgt incoming_norm f64_1e_9
  && isfinite outgoing_norm && fgt outgoing_norm f64_1e_9
  && fle (fabs (f64_sub incoming_norm f64_1)) f64_1e_6
  && fle (fabs (f64_sub outgoing_norm f64_1)) f64_1e_6
  && isfinite (re_corner_speed_mps e) && fge (re_corner_speed_mps e) fzero.

Definition RouteBoundaryConstraint_valid (c : RouteBoundaryConstraint) : bool :=
  let incoming_norm := v_norm (rc_incoming_tangent c) in
  let outgoing_norm := v_norm (rc_outgoing_tangent c) in
  AxisAlignedBox_valid (rc_admissible_volume c) && v_allFinite (rc_incoming_tangent c)
  && v_allFinite (rc_outgoing_tangent c) && isfinite incoming_norm
  && isfinite outgoing_norm && fgt incoming_norm f64_1e_9
  && fgt outgoing_norm f64_1e_9 && fle (fabs (f64_sub incoming_norm f64_1)) f64_1e_6
  && fle (fabs (f64_sub outgoing_norm f64_1)) f64_1e_6
  && isfinite (rc_corner_speed_mps c) && fge (rc_corner_speed_mps c) fzero.

Definition RouteBoundaryConstraint_contains (c : RouteBoundaryConstraint) (point : vec3) : bool :=
  let kBoundaryRoundoffM := f64_1e_6 in
  RouteBoundaryConstraint_valid c && v_allFinite point
  && v_all_ge point (v_sub_scalar (minimum (rc_admissible_volume c)) kBoundaryRoundoffM)
  && v_all_le point (v_add_scalar (maximum (rc_admissible_volume c)) kBoundaryRoundoffM).
End RouteBoundary.

(** ** Bundle data *)

Record CandidateRoleInterval : Type := mkInterval {
  begin_time_s : f64;
  end_time_s : f64;
  interval_role : CandidateRole
}.

Record TrajectoryValidationResult : Type := mkValidation {
  tv_valid : bool;
  tv_reused_unchanged_certificate : bool;
  tv_pinned_world : WorldSnapshotIdentity;
  tv_validated_world : WorldSnapshotIdentity;
  tv_begin_time_s : f64;
  tv_first_blocked_time_s : f64;
  tv_first_blocked_position : vec3;
  tv_first_blocked_cell_state : Z;
  tv_failure_code : Z;
  tv_blocked_role : Z;
  tv_sample_count : Z;
  tv_segment_count : Z;
  tv_blocking_cell_observed : bool;
  tv_tube_failure_code : Z;
  tv_evaluated_unknown_policy : Z;
  tv_evaluated_generation : Z;
  tv_unsafe_interval_end_time_s : f64;
  tv_curve_deviation_bound_m : f64;
  tv_curve_deviation_tolerance_m : f64
}.

(** The three fields [validateWorld] writes. *)
Definition tv_stamp (r : TrajectoryValidationResult) (pinned validated : WorldSnapshotIdentity)
    (generation : Z) : TrajectoryValidationResult :=
  mkValidation (tv_valid r) (tv_reused_unchanged_certificate r) pinned validated
    (tv_begin_time_s r) (tv_first_blocked_time_s r) (tv_first_blocked_position r)
    (tv_first_blocked_cell_state r) (tv_failure_code r) (tv_blocked_role r) (tv_sample_count r)
    (tv_segment_count r) (tv_blocking_cell_observed r) (tv_tube_failure_code r)
    (tv_evaluated_unknown_policy r) generation (tv_unsafe_interval_end_time_s r)
    (tv_curve_deviation_bound_m r) (tv_curve_deviation_tolerance_m r).

Definition TrajectoryValidationResult_default : TrajectoryValidationResult :=
  mkValidation false false WorldSnapshotIdentity_default WorldSnapshotIdentity_default
    fzero fzero (vec3_constant fnan) 0 0 0 0 0 false 0 (-1) 0 fnan fnan fnan.

Record CompleteBundleCertificates : Type := mkCertificates {
  dynamics : bool;
  flatness : bool;
  world : bool;
  cert_terminal_stop : bool
}.

Definition completeFor (c : CompleteBundleCertificates) (kind : CandidateBundleKind) : bool :=
  if negb (dynamics c) || negb (flatness c) || negb (world c) then false
  else (kind !=? kTerminalStop) || cert_terminal_stop c.

Record CompleteCandidateQuality : Type := mkQuality {
  remaining_main_horizon_s : f64;
  minimum_clearance_m : f64;
  maximum_dynamic_utilization : f64;
  route_progress_m : f64;
  objective_cost : f64
}.

Definition CompleteCandidateQuality_finite (q : CompleteCandidateQuality) : bool :=
  isfinite (remaining_main_horizon_s q)
  && isfinite (minimum_clearance_m q) && fge (minimum_clearance_m q) fzero
  && isfinite (maximum_dynamic_utilization q) && fge (maximum_dynamic_utilization q) fzero
  && isfinite (route_progress_m q) && fge (route_progress_m q) fzero
  && isfinite (objective_cost q).

Definition candidateRoleValid (role : CandidateRole) : bool :=
  (role ==? kMain) || (role ==? kBackup) || (role ==? kEmergency).

Record TrajectoryPoint : Type := mkPoint {
  p_position_world : vec3;
  p_velocity_world : vec3;
  p_acceleration_world : vec3;
  p_jerk_world : vec3;
  p_yaw : f64;
  p_yaw_rate : f64;
  p_role : CandidateRole;
  p_finished : bool;
  p_trajectory_time_s : f64
}.

Definition TrajectoryPoint_default (role : CandidateRole) : TrajectoryPoint :=
  mkPoint vec3_zero vec3_zero vec3_zero vec3_zero fzero fzero role false fzero.

Definition p_set_finished (p : TrajectoryPoint) : TrajectoryPoint :=
  mkPoint (p_position_world p) (p_velocity_world p) (p_acceleration_world p) (p_jerk_world p)
    (p_yaw p) (p_yaw_rate p) (p_role p) true (p_trajectory_time_s p).

Definition TrajectoryPoint_finite `{EigenOps} (p : TrajectoryPoint) : bool :=
  v_allFinite (p_position_world p) && v_allFinite (p_velocity_world p)
  && v_allFinite (p_acceleration_world p) && v_allFinite (p_jerk_world p)
  && isfinite (p_yaw p) && isfinite (p_yaw_rate p) && isfinite (p_trajectory_time_s p).

(** [bool evaluator(stamp, point&)]: false, true with the written point, or an
    exception. *)
Inductive evaluator_outcome : Type :=
| ev_false
| ev_point (p : TrajectoryPoint)
| ev_throws.

Abbreviation CandidateEvaluator := (Z -> TrajectoryPoint -> evaluator_outcome).

(** [None] is a validator that throws. *)
Abbreviation CandidateWorldValidator :=
  (ptr WorldModelView -> f64 -> option TrajectoryValidationResult).

Record CandidateBundle : Type := mkBundle {
  b_pinned_world_identity : WorldSnapshotIdentity;
  b_world_identity : WorldSnapshotIdentity;
  b_localization_epoch : Z;
  b_goal_epoch : Z;
  b_request_id : Z;
  b_bundle_generation : Z;
  b_producer_planning_cycle_id : Z;
  b_valid_from_ns : Z;
  b_valid_until_ns : Z;
  b_activation_stamp_ns : Z;
  b_role : CandidateRole;
  b_start_wall_time_s : f64;
  b_duration_s : f64;
  b_declared_start_ns : Z;
  b_declared_end_ns : Z;
  b_backup_start_time_s : f64;
  b_backup_available : bool;
  b_terminal_stop : bool;
  b_kind : CandidateBundleKind;
  b_source : CandidateSource;
  b_certificates : CompleteBundleCertificates;
  b_protected_region : AxisAlignedBox;
  b_role_schedule : list CandidateRoleInterval;
  b_quality : option CompleteCandidateQuality;
  b_route_boundary_constraint : option RouteBoundaryConstraint;
  b_route_boundary_event : option RouteBoundaryEvent;
  b_world_validator : option CandidateWorldValidator;
  b_evaluator : option CandidateEvaluator
}.

(** ** The role schedule *)

(** One turn of the validation loop: [None] is the early [return false]. *)
Definition roleInterval_step (duration_s cursor : f64) (interval : CandidateRoleInterval)
  : option f64 :=
  if negb (isfinite (begin_time_s interval))
     || negb (isfinite (end_time_s interval))
     || fgt (fabs (f64_sub (begin_time_s interval) cursor)) f64_1e_6
     || fle (end_time_s interval) (begin_time_s interval)
     || fgt (end_time_s interval) (f64_add duration_s f64_1e_6)
     || negb (candidateRoleValid (interval_role interval)) then None
  else Some (end_time_s interval).

Fixpoint roleSchedule_loop (duration_s cursor : f64) (schedule : list CandidateRoleInterval)
  : option f64 :=
  match schedule with
  | [] => Some cursor
  | interval :: rest =>
      match roleInterval_step duration_s cursor interval with
      | None => None
      | Some cursor' => roleSchedule_loop duration_s cursor' rest
      end
  end.

Definition roleScheduleValid (b : CandidateBundle) : bool :=
  if negb (isfinite (b_duration_s b)) || flt (b_duration_s b) fzero
     || bool_decide (b_role_schedule b = []) then false
  else
    match roleSchedule_loop (b_duration_s b) fzero (b_role_schedule b) with
    | None => false
    | Some cursor => fle (fabs (f64_sub cursor (b_duration_s b))) f64_1e_6
    end.

Definition to_offset_ns (seconds : f64) : option Z :=
  if negb (isfinite seconds) || flt seconds fzero then None
  else
    let rounded := f80_round (f80_mul (f80_of_f64 seconds) (f80_of_Z 1000000000)) in
    if negb (isfinite rounded) || fgt rounded (f80_of_Z i64_max) then None
    else Some (i64_of_f rounded).

(** The half-open interval test of the lookup loop. *)
Definition interval_holds (sample_ns : Z) (interval : CandidateRoleInterval) : bool :=
  match to_offset_ns (begin_time_s interval), to_offset_ns (end_time_s interval) with
  | Some begin_ns, Some end_ns => (begin_ns <=? sample_ns) && (sample_ns <? end_ns)
  | _, _ => false
  end.

Definition scheduledRole (b : CandidateBundle) (trajectory_time_s : f64) : option CandidateRole :=
  if negb (roleScheduleValid b) || negb (isfinite trajectory_time_s)
     || flt trajectory_time_s fzero
     || fgt trajectory_time_s (f64_add (b_duration_s b) f64_1e_9) then None
  else
    match to_offset_ns trajectory_time_s with
    | None => None
    | Some sample_ns =>
        match find (interval_holds sample_ns) (b_role_schedule b) with
        | Some interval => Some (interval_role interval)
        | None =>
            match to_offset_ns (b_duration_s b) with
            | Some duration_ns =>
                if sample_ns =? duration_ns
                then interval_role <$> last (b_role_schedule b) else None
            | None => None
            end
        end
    end.

Definition sampledRoleAllowed (b : CandidateBundle) (sampled_role : CandidateRole) : bool :=
  if negb (candidateRoleValid sampled_role) then false
  else if b_role b ==? kEmergency then sampled_role ==? kEmergency
  else if b_role b ==? kBackup then sampled_role ==? kBackup
  else (sampled_role ==? kMain) || (b_backup_available b && (sampled_role ==? kBackup)).

(** ** Bundle validity *)

Definition kind_contract (b : CandidateBundle) : bool :=
  ((b_kind b ==? kMainWithBackup) && (b_role b ==? kMain) && b_backup_available b)
  || ((b_kind b ==? kTerminalStop) && (b_role b ==? kMain) && negb (b_backup_available b))
  || ((b_kind b ==? kBackupOnly) && (b_role b ==? kBackup))
  || ((b_kind b ==? kEmergencyBrake) && (b_role b ==? kEmergency)).

Definition terminal_stop_contract (b : CandidateBundle) : bool :=
  negb (b_terminal_stop b)
  || ((b_role b ==? kMain)
      && ((b_kind b ==? kTerminalStop) || (b_kind b ==? kMainWithBackup))
      && cert_terminal_stop (b_certificates b)).

Definition endpoint_metadata_consistent (b : CandidateBundle) : bool :=
  (0 <? b_declared_start_ns b) && (b_declared_start_ns b <=? b_declared_end_ns b)
  && match secondsToNanoseconds (b_start_wall_time_s b),
           secondsSumToNanoseconds (b_start_wall_time_s b) (b_duration_s b) with
     | Some expected_start_ns, Some expected_end_ns =>
         (b_declared_start_ns b =? expected_start_ns) && (b_declared_end_ns b =? expected_end_ns)
     | _, _ => false
     end.

(** The world-identity clauses of [CandidateBundle::valid] and of
    [ExecutionAnchor::valid]. *)
Definition identity_of_epoch (w : WorldSnapshotIdentity) (localization_epoch : Z) : bool :=
  (wi_localization_epoch w =? localization_epoch) && negb (wi_generation w =? 0)
  && negb (wi_revision w =? 0) && (0 <? wi_observation_stamp_ns w).

Definition opt_all {A} (f : A -> bool) (o : option A) : bool :=
  match o with Some a => f a | None => true end.

Section Bundle.
Context `{EigenOps}.

Definition CandidateBundle_valid (b : CandidateBundle) : bool :=
  let activation_metadata_consistent :=
    (0 <? b_activation_stamp_ns b) && (b_activation_stamp_ns b =? b_valid_from_ns b) in
  negb (b_localization_epoch b =? 0) && negb (b_goal_epoch b =? 0) && negb (b_request_id b =? 0)
  && negb (b_bundle_generation b =? 0) && (0 <? b_valid_from_ns b)
  && (b_valid_from_ns b <=? b_valid_until_ns b) && has (b_evaluator b)
  && candidateRoleValid (b_role b) && kind_contract b && terminal_stop_contract b
  && completeFor (b_certificates b) (b_kind b) && AxisAlignedBox_valid (b_protected_region b)
  && activation_metadata_consistent
  && endpoint_metadata_consistent b
  && roleScheduleValid b && opt_all CompleteCandidateQuality_finite (b_quality b)
  && opt_all RouteBoundaryConstraint_valid (b_route_boundary_constraint b)
  && opt_all RouteBoundaryEvent_valid (b_route_boundary_event b)
  && (negb (has (b_route_boundary_constraint b)) || has (b_route_boundary_event b))
  && identity_of_epoch (b_pinned_world_identity b) (b_localization_epoch b)
  && identity_of_epoch (b_world_identity b) (b_localization_epoch b).

Definition hasTrajectoryMetadata (b : CandidateBundle) : bool :=
  isfinite (b_start_wall_time_s b) && fgt (b_start_wall_time_s b) fzero
  && isfinite (b_duration_s b) && fge (b_duration_s b) fzero
  && isfinite (b_backup_start_time_s b) && fge (b_backup_start_time_s b) fzero
  && fle (b_backup_start_time_s b) (f64_add (b_duration_s b) f64_1e_9).

Definition hasDeclaredEndpointMetadata (b : CandidateBundle) : bool :=
  isfinite (b_start_wall_time_s b) && fgt (b_start_wall_time_s b) fzero
  && isfinite (b_duration_s b) && fge (b_duration_s b) fzero.

Definition validateWorld (b : CandidateBundle) (w : ptr WorldModelView)
    (authorization_wall_time_s : f64) : TrajectoryValidationResult :=
  let validated_world :=
    match w with Some v => identity (sp_obj v) | None => WorldSnapshotIdentity_default end in
  let result := tv_stamp TrajectoryValidationResult_default (b_pinned_world_identity b)
                  validated_world (b_bundle_generation b) in
  match b_world_validator b with
  | Some validator =>
      if negb (has w) || negb (CandidateBundle_valid b)
         || negb (isfinite authorization_wall_time_s) then result
      else
        match validator w authorization_wall_time_s with
        | None => result
        | Some validated =>
            if negb (tv_evaluated_generation validated =? 0)
               && negb (tv_evaluated_generation validated =? b_bundle_generation b) then result
            else tv_stamp validated (b_pinned_world_identity b) validated_world
                   (b_bundle_generation b)
        end
  | None => result
  end.

(** ** Sampling *)

(** The part shared by the declared-stamp and declared-end queries: call the
    evaluator at a stamp, then check the point and its role against the
    schedule at [role_time]. *)
Definition evaluate_checked (b : CandidateBundle) (stamp_ns : Z)
    (role_time : TrajectoryPoint -> f64) : option TrajectoryPoint :=
  match b_evaluator b with
  | None => None
  | Some evaluator =>
      match evaluator stamp_ns (TrajectoryPoint_default (b_role b)) with
      | ev_false | ev_throws => None
      | ev_point point =>
          if negb (TrajectoryPoint_finite point) || negb (sampledRoleAllowed b (p_role point))
          then None
          else
            match scheduledRole b (role_time point) with
            | Some scheduled => if scheduled !=? p_role point then None else Some point
            | None => None
            end
      end
  end.

Definition sampleAtDeclaredStamp (b : CandidateBundle) (stamp_ns : Z) : option TrajectoryPoint :=
  if negb (CandidateBundle_valid b) || (stamp_ns <? b_declared_start_ns b)
     || (b_declared_end_ns b <? stamp_ns) then None
  else evaluate_checked b stamp_ns p_trajectory_time_s.

Definition sample (b : CandidateBundle) (stamp_ns : Z) : option TrajectoryPoint :=
  if negb (CandidateBundle_valid b) || (stamp_ns <? b_valid_from_ns b)
     || (b_valid_until_ns b <? stamp_ns) then None
  else sampleAtDeclaredStamp b stamp_ns.

Definition sampleAtDeclaredEnd (b : CandidateBundle) : option TrajectoryPoint :=
  if negb (CandidateBundle_valid b) || negb (hasDeclaredEndpointMetadata b) then None
  else
    let end_stamp_ns :=
      if 0 <? b_declared_end_ns b then Some (b_declared_end_ns b)
      else secondsSumToNanoseconds (b_start_wall_time_s b) (b_duration_s b) in
    match end_stamp_ns with
    | Some stamp =>
        if stamp <=? 0 then None
        else p_set_finished <$> evaluate_checked b stamp (fun _ => b_duration_s b)
    | None => None
    end.

(** ** Handoff between two analytic commands *)

Definition kPositionToleranceM : f64 := f64_1e_5.
Definition kVelocityToleranceMps : f64 := f64_1e_5.
Definition kAccelerationToleranceMps2 : f64 := f64_1e_4.
Definition kJerkToleranceMps3 : f64 := f64_1e_3.
Definition kYawToleranceRad : f64 := f64_1e_6.
Definition kYawRateToleranceRadS : f64 := f64_1e_5.

Definition yaw_residual (a b : TrajectoryPoint) : f64 :=
  f64_remainder (f64_sub (p_yaw a) (p_yaw b)) (f64_mul (f64_of_Z 2) f64_pi).

(** The exception for a fully expired safety suffix or terminal stop. *)
Definition expired_previous (previous : CandidateBundle) : bool :=
  match sampleAtDeclaredEnd previous with
  | None => false
  | Some previous_endpoint =>
      let expired_emergency :=
        (b_kind previous ==? kEmergencyBrake) && (p_role previous_endpoint ==? kEmergency) in
      let expired_backup_suffix :=
        ((b_kind previous ==? kMainWithBackup) || (b_kind previous ==? kBackupOnly))
        && (p_role previous_endpoint ==? kBackup) in
      let expired_terminal_stop :=
        (b_kind previous ==? kTerminalStop) && b_terminal_stop previous
        && (p_role previous_endpoint ==? kMain) in
      p_finished previous_endpoint
      && (expired_emergency || expired_backup_suffix || expired_terminal_stop)
  end.

Definition points_continuous (next_sample previous_sample : TrajectoryPoint) : bool :=
  fle (v_norm (v_sub (p_position_world next_sample) (p_position_world previous_sample)))
      kPositionToleranceM
  && fle (v_norm (v_sub (p_velocity_world next_sample) (p_velocity_world previous_sample)))
         kVelocityToleranceMps
  && fle (v_norm (v_sub (p_acceleration_world next_sample) (p_acceleration_world previous_sample)))
         kAccelerationToleranceMps2
  && fle (v_norm (v_sub (p_jerk_world next_sample) (p_jerk_world previous_sample)))
         kJerkToleranceMps3
  && fle (fabs (yaw_residual next_sample previous_sample)) kYawToleranceRad
  && fle (fabs (f64_sub (p_yaw_rate next_sample) (p_yaw_rate previous_sample)))
         kYawRateToleranceRadS.

(** The result and the value written through [handoff_stamp_ns], [None] when
    the pointer is not written. *)
Definition candidateBundleHandoffContinuous (previous next : CandidateBundle)
    (allow_expired_safety_after_certified_stop : bool) : bool * option Z :=
  if negb (CandidateBundle_valid previous) || negb (CandidateBundle_valid next)
     || (b_kind next ==? kEmergencyBrake) || negb (hasDeclaredEndpointMetadata next)
  then (false, None)
  else
    let handoff :=
      if 0 <? b_declared_start_ns next then Some (b_declared_start_ns next)
      else secondsToNanoseconds (b_start_wall_time_s next) in
    match handoff with
    | None => (false, None)
    | Some h =>
        if h <=? 0 then (false, None)
        else
          let expired :=
            allow_expired_safety_after_certified_stop && (0 <? b_declared_end_ns previous)
            && (b_declared_end_ns previous <=? h) && expired_previous previous in
          if expired then (true, Some h)
          else
            match sample previous h, sampleAtDeclaredStamp next h with
            | Some previous_sample, Some next_sample =>
                (points_continuous next_sample previous_sample, Some h)
            | _, _ => (false, Some h)
            end
    end.
End Bundle.

(** ** Execution anchors *)

Record ExecutionAnchor : Type := mkAnchor {
  an_active_bundle_generation : Z;
  an_execution_lineage_version : Z;
  an_localization_epoch : Z;
  an_goal_epoch : Z;
  an_request_id : Z;
  an_request_stamp_ns : Z;
  an_activation_stamp_ns : Z;
  an_state : TrajectoryPoint;
  an_active_role : CandidateRole;
  an_active_main_end_ns : Z;
  an_active_bundle_end_ns : Z;
  an_command_world : WorldSnapshotIdentity
}.

Inductive AnchorMatchResult : Type :=
| kMatch | kInvalidAnchor | kInvalidCandidate | kNoSample | kPositionMismatch
| kVelocityMismatch | kAccelerationMismatch | kJerkMismatch | kYawMismatch | kYawRateMismatch.
#[export] Instance AnchorMatchResult_eq_dec : EqDecision AnchorMatchResult.
Proof. solve_decision. Defined.

Section Anchor.
Context `{EigenOps}.

Definition ExecutionAnchor_valid (a : ExecutionAnchor) : bool :=
  negb (an_active_bundle_generation a =? 0) && negb (an_execution_lineage_version a =? 0)
  && negb (an_localization_epoch a =? 0)
  && negb (an_goal_epoch a =? 0) && negb (an_request_id a =? 0) && (0 <? an_request_stamp_ns a)
  && (an_request_stamp_ns a <=? an_activation_stamp_ns a) && TrajectoryPoint_finite (an_state a)
  && candidateRoleValid (an_active_role a)
  && (an_activation_stamp_ns a <=? an_active_main_end_ns a)
  && (an_active_main_end_ns a <=? an_active_bundle_end_ns a)
  && identity_of_epoch (an_command_world a) (an_localization_epoch a).

Definition candidateMatchesAnchor (candidate : CandidateBundle) (anchor : ExecutionAnchor)
  : AnchorMatchResult :=
  if negb (ExecutionAnchor_valid anchor) then kInvalidAnchor
  else if negb (CandidateBundle_valid candidate) || (b_kind candidate ==? kEmergencyBrake)
  then kInvalidCandidate
  else if negb (b_valid_from_ns candidate =? an_activation_stamp_ns anchor) then kNoSample
  else
    match sample candidate (an_activation_stamp_ns anchor) with
    | None => kNoSample
    | Some s =>
        let a := an_state anchor in
        if fgt (v_norm (v_sub (p_position_world s) (p_position_world a))) f64_1e_5
        then kPositionMismatch
        else if fgt (v_norm (v_sub (p_velocity_world s) (p_velocity_world a))) f64_1e_5
        then kVelocityMismatch
        else if fgt (v_norm (v_sub (p_acceleration_world s) (p_acceleration_world a))) f64_1e_4
        then kAccelerationMismatch
        else if fgt (v_norm (v_sub (p_jerk_world s) (p_jerk_world a))) f64_1e_3
        then kJerkMismatch
        else if fgt (fabs (yaw_residual s a)) f64_1e_6 then kYawMismatch
        else if fgt (fabs (f64_sub (p_yaw_rate s) (p_yaw_rate a))) f64_1e_5
        then kYawRateMismatch
        else kMatch
    end.
End Anchor.

(** ** Timing contract and measured state *)

Definition kPlannerPeriodS : f64 := f64_lit 10 100.
Definition kSolveDeadlineS : f64 := f64_lit 8 100.
Definition kStitchDurationS : f64 := f64_lit 40 100.
Definition kCommitGuardS : f64 := f64_lit 2 100.
Definition kMinimumMainReserveS : f64 :=
  f64_add (f64_add (f64_add kSolveDeadlineS kStitchDurationS) kPlannerPeriodS) kCommitGuardS.
Definition kUrgentBaselineThresholdS : f64 := f64_1.
Definition kCommandPeriodS : f64 := f64_lit 2 100.
Definition kCommandStreamTimeoutS : f64 := f64_lit 10 100.
Definition kInitialHoldTimeoutS : f64 := f64_of_Z 5.
Definition kStoppedRecoveryTimeoutS : f64 := f64_of_Z 5.
Definition kStationarySpeedMps : f64 := f64_lit 15 100.

Record KinematicState : Type := mkKinematic {
  k_position_world : vec3;
  k_velocity_world : vec3;
  k_acceleration_world : vec3;
  k_jerk_world : vec3;
  k_acceleration_estimated : bool;
  k_jerk_estimated : bool;
  k_orientation_world_body : quat;
  k_yaw_rad : f64;
  k_source_stamp_ns : Z;
  k_receive_stamp_ns : Z;
  k_localization_epoch : Z;
  k_world_frame_id : string;
  k_body_frame_id : string
}.

Definition KinematicState_finite `{EigenOps} (s : KinematicState) : bool :=
  let quaternion_scale := q_absMaxCoeff (k_orientation_world_body s) in
  let scaled_quaternion := q_div (k_orientation_world_body s) quaternion_scale in
  let quaternion_norm :=
    f80_mul (f80_of_f64 quaternion_scale) (f80_sqrt (f80_of_f64 (q_squaredNorm scaled_quaternion))) in
  v_allFinite (k_position_world s) && v_allFinite (k_velocity_world s)
  && v_allFinite (k_acceleration_world s) && v_allFinite (k_jerk_world s)
  && q_allFinite (k_orientation_world_body s)
  && isfinite quaternion_scale && fgt quaternion_scale f64_1e_9
  && isfinite (f64_of_f80 quaternion_norm)
  && fle (fabs (f80_sub quaternion_norm (f80_of_Z 1))) (f80_lit 1 1000000)
  && (0 <? k_source_stamp_ns s) && (0 <? k_receive_stamp_ns s) && isfinite (k_yaw_rad s)
  && negb (k_localization_epoch s =? 0)
  && negb (k_world_frame_id s ==? EmptyString) && negb (k_body_frame_id s ==? EmptyString).

(** The checks stay folded; the lemmas below open them. *)
#[global] Arguments CandidateBundle_valid {_} _ : simpl never.
#[global] Arguments ExecutionAnchor_valid {_} _ : simpl never.
#[global] Arguments roleScheduleValid _ : simpl never.
#[global] Arguments TrajectoryPoint_finite {_} _ : simpl never.
#[global] Arguments scheduledRole _ _ : simpl never.
#[global] Arguments candidateMatchesAnchor {_} _ _ : simpl never.
#[global] Arguments sample {_} _ _ : simpl never.
#[global] Arguments sampleAtDeclaredStamp {_} _ _ : simpl never.
#[global] Arguments sampleAtDeclaredEnd {_} _ : simpl never.
#[global] Arguments validateWorld {_} _ _ _ : simpl never.
#[global] Arguments candidateBundleHandoffContinuous {_} _ _ _ : simpl never.
#[global] Arguments points_continuous {_} _ _ : simpl never.
#[global] Arguments kind_contract _ : simpl never.
#[global] Arguments terminal_stop_contract _ : simpl never.
#[global] Arguments KinematicState_finite {_} _ : simpl never.

(** ** A concrete bundle for the witnesses *)

Definition demo_identity : WorldSnapshotIdentity := mkIdentity 1 1 1 1000000000.

Definition demo_point (role : CandidateRole) (offset_ns : Z) : TrajectoryPoint :=
  mkPoint vec3_zero vec3_zero vec3_zero vec3_zero fzero fzero role false
    (f64_mul (f64_of_Z offset_ns) f64_1e_9).

(** A two-second stop at the origin starting at [halves] half seconds: MAIN for
    one second, then its BACKUP. *)
Definition demo_bundle_at (generation halves : Z) : CandidateBundle :=
  let start_ns := halves * 500000000 in {|
  b_pinned_world_identity := demo_identity;
  b_world_identity := demo_identity;
  b_localization_epoch := 1; b_goal_epoch := 1; b_request_id := 1;
  b_bundle_generation := generation;
  b_producer_planning_cycle_id := 1;
  b_valid_from_ns := start_ns; b_valid_until_ns := start_ns + 2000000000;
  b_activation_stamp_ns := start_ns;
  b_role := kMain;
  b_start_wall_time_s := f64_lit halves 2; b_duration_s := f64_of_Z 2;
  b_declared_start_ns := start_ns; b_declared_end_ns := start_ns + 2000000000;
  b_backup_start_time_s := f64_1; b_backup_available := true; b_terminal_stop := false;
  b_kind := kMainWithBackup; b_source := kDeterministicBaseline;
  b_certificates := mkCertificates true true true true;
  b_protected_region := mkBox vec3_zero (vec3_constant f64_1);
  b_role_schedule := [mkInterval fzero f64_1 kMain; mkInterval f64_1 (f64_of_Z 2) kBackup];
  b_quality := None; b_route_boundary_constraint := None; b_route_boundary_event := None;
  b_world_validator := None;
  b_evaluator := Some (fun stamp_ns _ =>
    let offset := stamp_ns - start_ns in
    ev_point (demo_point (if offset <? 1000000000 then kMain else kBackup) offset))
|}.

Definition demo_bundle : CandidateBundle := demo_bundle_at 1 20.

Example demo_bundle_valid : @CandidateBundle_valid eigen_reference demo_bundle = true.
Proof. vm_compute. reflexivity. Qed.

Example demo_bundle_sample_roles :
  (p_role <$> @sample eigen_reference demo_bundle 10500000000) = Some kMain /\
  (p_role <$> @sample eigen_reference demo_bundle 11000000000) = Some kBackup /\
  (p_role <$> @sampleAtDeclaredEnd eigen_reference demo_bundle) = Some kBackup /\
  @sample eigen_reference demo_bundle 12000000001 = None.
Proof. by vm_compute. Qed.

(** ** Lemmas: validity, roles and the schedule *)

(** The roles a bundle of each kind may emit. *)
Definition kind_emits (kind : CandidateBundleKind) (role : CandidateRole) : Prop :=
  match kind with
  | kMainWithBackup => role = kMain \/ role = kBackup
  | kTerminalStop => role = kMain
  | kBackupOnly => role = kBackup
  | kEmergencyBrake => role = kEmergency
  end.

Lemma kind_contract_role b :
  kind_contract b = true ->
  match b_kind b with
  | kMainWithBackup => b_role b = kMain /\ b_backup_available b = true
  | kTerminalStop => b_role b = kMain /\ b_backup_available b = false
  | kBackupOnly => b_role b = kBackup
  | kEmergencyBrake => b_role b = kEmergency
  end.
Proof.
  unfold kind_contract. destruct (b_kind b), (b_role b), (b_backup_available b); simpl; naive_solver.
Qed.

Lemma sampledRoleAllowed_kind b r :
  kind_contract b = true -> sampledRoleAllowed b r = true -> kind_emits (b_kind b) r.
Proof.
  intros Hk%kind_contract_role. unfold sampledRoleAllowed, kind_emits.
  destruct (b_kind b); destruct_and?; simplify_eq/=;
    repeat match goal with H : _ = _ |- _ => rewrite H end; destruct r; simpl; naive_solver.
Qed.

Lemma candidateRoleValid_true r : candidateRoleValid r = true.
Proof. by destruct r. Qed.

Section ValidFacts.
Context `{EigenOps}.

(** The clauses of [CandidateBundle::valid] the clients read. *)
Lemma CandidateBundle_valid_spec b :
  CandidateBundle_valid b = true ->
  (b_localization_epoch b <> 0 /\ b_goal_epoch b <> 0 /\ b_request_id b <> 0 /\
   b_bundle_generation b <> 0) /\
  (0 < b_valid_from_ns b <= b_valid_until_ns b /\ b_activation_stamp_ns b = b_valid_from_ns b) /\
  (is_Some (b_evaluator b) /\ kind_contract b = true /\ terminal_stop_contract b = true /\
   roleScheduleValid b = true) /\
  (0 < b_declared_start_ns b <= b_declared_end_ns b /\
   secondsToNanoseconds (b_start_wall_time_s b) = Some (b_declared_start_ns b) /\
   secondsSumToNanoseconds (b_start_wall_time_s b) (b_duration_s b) = Some (b_declared_end_ns b)) /\
  (identity_of_epoch (b_pinned_world_identity b) (b_localization_epoch b) = true /\
   identity_of_epoch (b_world_identity b) (b_localization_epoch b) = true).
Proof.
  unfold CandidateBundle_valid, endpoint_metadata_consistent.
  destruct (secondsToNanoseconds _) as [s|]; [|by rewrite !andb_false_r, ?andb_false_l].
  destruct (secondsSumToNanoseconds _ _) as [e|]; [|by rewrite !andb_false_r, ?andb_false_l].
  intros Hv. bsplit. subst. split_and!; try done; try lia.
Qed.

Lemma CandidateBundle_valid_generation b :
  CandidateBundle_valid b = true -> b_bundle_generation b <> 0.
Proof. intros (?&?)%CandidateBundle_valid_spec. tauto. Qed.

Lemma evaluate_checked_spec b t f p :
  evaluate_checked b t f = Some p ->
  exists ev, b_evaluator b = Some ev /\ ev t (TrajectoryPoint_default (b_role b)) = ev_point p /\
    TrajectoryPoint_finite p = true /\ sampledRoleAllowed b (p_role p) = true /\
    scheduledRole b (f p) = Some (p_role p).
Proof.
  unfold evaluate_checked. destruct (b_evaluator b) as [ev|]; [|done].
  destruct (ev _ _) as [|q|] eqn:E; try done.
  destruct (_ || _) eqn:E1; [done|]. destruct (scheduledRole b (f q)) as [r|] eqn:E2; [|done].
  destruct (r !=? p_role q) eqn:E3; [done|]. intros [= <-]. bsplit. subst r.
  by exists ev.
Qed.

Lemma sampleAtDeclaredStamp_spec b t p :
  sampleAtDeclaredStamp b t = Some p ->
  CandidateBundle_valid b = true /\ b_declared_start_ns b <= t <= b_declared_end_ns b /\
  evaluate_checked b t p_trajectory_time_s = Some p.
Proof.
  unfold sampleAtDeclaredStamp. destruct (_ || _) eqn:E; [done|]. intros. bsplit.
  split_and!; done || lia.
Qed.

Lemma sample_spec b t p :
  sample b t = Some p ->
  b_valid_from_ns b <= t <= b_valid_until_ns b /\ sampleAtDeclaredStamp b t = Some p.
Proof.
  unfold sample. destruct (_ || _) eqn:E; [done|]. intros. bsplit. split; [lia|done].
Qed.
End ValidFacts.

(** Where the schedule assigns a role. *)
Lemma scheduledRole_spec b t r :
  scheduledRole b t = Some r ->
  exists s, to_offset_ns t = Some s /\
    ((exists interval, interval ∈ b_role_schedule b /\ interval_role interval = r /\
        interval_holds s interval = true) \/
     (to_offset_ns (b_duration_s b) = Some s /\ interval_role <$> last (b_role_schedule b) = Some r)).
Proof.
  unfold scheduledRole. destruct (_ || _); [done|].
  destruct (to_offset_ns t) as [s|]; [|done]. intros Hr. exists s. split; [done|].
  destruct (find _ _) as [i|] eqn:Ef.
  - apply find_some in Ef as [Hi Hh]. injection Hr as <-. left. exists i. split_and!; try done.
    by apply list_elem_of_In.
  - right. destruct (to_offset_ns (b_duration_s b)) as [d|]; [|done].
    destruct (s =? d) eqn:E; [|done]. apply Z.eqb_eq in E. by subst.
Qed.

(** The nanosecond cut points of a schedule form a chain: each interval starts
    at the nanosecond where the previous one ends. *)
Fixpoint schedule_chain (cursor : Z) (schedule : list CandidateRoleInterval) (finish : Z) : Prop :=
  match schedule with
  | [] => cursor = finish
  | i :: rest =>
      to_offset_ns (begin_time_s i) = Some cursor /\
      exists e, to_offset_ns (end_time_s i) = Some e /\ schedule_chain e rest finish
  end.

Lemma schedule_chain_covers schedule c finish s :
  schedule_chain c schedule finish -> c <= s < finish ->
  exists i, find (interval_holds s) schedule = Some i.
Proof.
  revert c; induction schedule as [|i rest IH]; intros c Hc Hs; simpl in *; [lia|].
  destruct Hc as [Hb (e & He & Hrest)].
  destruct (interval_holds s i) eqn:Eh; [by exists i|].
  apply (IH e Hrest). unfold interval_holds in Eh. rewrite Hb, He in Eh. bsplit. lia.
Qed.

(** ** Properties *)

(** A sampled point is a value the evaluator wrote at that stamp, inside both
    the execution lease and the declared trajectory, finite in every component,
    with a role its bundle kind may emit and that the role schedule assigns to
    its trajectory time: an emergency bundle emits only EMERGENCY, a BACKUP-only
    bundle only BACKUP, a terminal stop only MAIN. *)
Theorem sample_sound `{EigenOps} (b : CandidateBundle) (t : Z) (p : TrajectoryPoint) :
  sample b t = Some p ->
  b_valid_from_ns b <= t <= b_valid_until_ns b /\
  b_declared_start_ns b <= t <= b_declared_end_ns b /\
  (exists ev, b_evaluator b = Some ev /\ ev t (TrajectoryPoint_default (b_role b)) = ev_point p) /\
  TrajectoryPoint_finite p = true /\
  kind_emits (b_kind b) (p_role p) /\
  exists s, to_offset_ns (p_trajectory_time_s p) = Some s /\
    ((exists i, i ∈ b_role_schedule b /\ interval_role i = p_role p /\ interval_holds s i = true) \/
     (to_offset_ns (b_duration_s b) = Some s /\
      interval_role <$> last (b_role_schedule b) = Some (p_role p))).
Proof.
  intros [Hl (Hv & Hd & (ev & He & Hp & Hf & Ha & Hr)%evaluate_checked_spec)
    %sampleAtDeclaredStamp_spec]%sample_spec.
  apply CandidateBundle_valid_spec in Hv as (_ & _ & (_ & Hk & _) & _).
  apply scheduledRole_spec in Hr. apply sampledRoleAllowed_kind in Ha; [|done].
  split_and!; eauto; lia.
Qed.

Lemma sample_sound_witness :
  exists p, @sample eigen_reference demo_bundle 10500000000 = Some p /\
    b_valid_from_ns demo_bundle <= 10500000000 <= b_valid_until_ns demo_bundle /\
    kind_emits (b_kind demo_bundle) (p_role p).
Proof.
  destruct (@sample eigen_reference demo_bundle 10500000000) as [p|] eqn:E;
    [|exfalso; vm_compute in E; discriminate].
  exists p. split; [reflexivity|].
  pose proof (@sample_sound eigen_reference demo_bundle 10500000000 p E) as (Hl & _ & _ & _ & Hk & _).
  split; [exact Hl|exact Hk].
Defined.

(** The schedule leaves no instant without a role: when the interval
    boundaries meet at the nanosecond and the last one is the declared duration,
    every trajectory time up to the duration has a scheduled role, and it is the
    role of the first interval that holds the instant (the last interval at the
    declared end). *)
Theorem scheduledRole_total (b : CandidateBundle) (t : f64) (s d : Z) :
  roleScheduleValid b = true ->
  isfinite t = true -> flt t fzero = false ->
  fgt t (f64_add (b_duration_s b) f64_1e_9) = false ->
  to_offset_ns t = Some s -> to_offset_ns (b_duration_s b) = Some d ->
  schedule_chain 0 (b_role_schedule b) d -> 0 <= s <= d ->
  exists r, scheduledRole b t = Some r /\
    (s < d -> exists i, find (interval_holds s) (b_role_schedule b) = Some i /\ r = interval_role i) /\
    (s = d -> find (interval_holds s) (b_role_schedule b) = None ->
     interval_role <$> last (b_role_schedule b) = Some r).
Proof.
  intros Hv Hf Ht0 Ht1 Hs Hd Hc Hrange. unfold scheduledRole.
  rewrite Hv, Hf, Ht0, Ht1, Hs, Hd. simpl.
  destruct (find _ (b_role_schedule b)) as [i|] eqn:Ef.
  { exists (interval_role i). split_and!; try done. by exists i. }
  destruct (decide (s = d)) as [->|Hne].
  - rewrite Z.eqb_refl. unfold roleScheduleValid in Hv.
    destruct (_ || _) eqn:E in Hv; [done|]. bsplit.
    destruct (last (b_role_schedule b)) as [i|] eqn:El.
    + exists (interval_role i). split_and!; [done|lia|done].
    + by apply last_None in El.
  - destruct (schedule_chain_covers _ _ _ s Hc) as [i Hi]; [lia|]. congruence.
Qed.

Lemma scheduledRole_total_witness :
  roleScheduleValid demo_bundle = true /\
  exists r, scheduledRole demo_bundle f64_1 = Some r /\ r = kBackup.
Proof.
  assert (Hv : roleScheduleValid demo_bundle = true) by (vm_compute; reflexivity).
  split; [exact Hv|].
  assert (Hc : schedule_chain 0 (b_role_schedule demo_bundle) 2000000000).
  { split; [vm_compute; reflexivity|]. exists 1000000000. split; [vm_compute; reflexivity|].
    split; [vm_compute; reflexivity|]. exists 2000000000. split; vm_compute; reflexivity. }
  destruct (scheduledRole_total demo_bundle f64_1 1000000000 2000000000 Hv) as (r & Hr & Hlt & _);
    [vm_compute; reflexivity..|exact Hc|lia|].
  exists r. split; [exact Hr|]. destruct (Hlt ltac:(lia)) as (i & Hi & ->).
  vm_compute in Hi. injection Hi as <-. reflexivity.
Defined.

(** C12. A handoff is accepted only at the successor's declared start, never for
    an emergency successor, and only in two cases: both commands are sampled at
    that instant inside the predecessor's lease and agree within the
    tolerances; or the caller allowed the expired-safety exception and the
    predecessor has reached its declared end in EMERGENCY, in BACKUP or in a
    certified terminal stop, never in an active nominal MAIN. *)
Theorem handoff_sound `{EigenOps} (previous next : CandidateBundle) (allow : bool) (out : option Z) :
  candidateBundleHandoffContinuous previous next allow = (true, out) ->
  out = Some (b_declared_start_ns next) /\ b_kind next <> kEmergencyBrake /\
  ((b_valid_from_ns previous <= b_declared_start_ns next <= b_valid_until_ns previous /\
    exists p n, sample previous (b_declared_start_ns next) = Some p /\
      sampleAtDeclaredStamp next (b_declared_start_ns next) = Some n /\
      points_continuous n p = true) \/
   (allow = true /\ b_declared_end_ns previous <= b_declared_start_ns next /\
    exists e, sampleAtDeclaredEnd previous = Some e /\ p_finished e = true /\
      (p_role e = kMain -> b_kind previous = kTerminalStop /\ b_terminal_stop previous = true))).
Proof.
  unfold candidateBundleHandoffContinuous. destruct (_ || _ || _ || _) eqn:Eg; [done|]. bsplit.
  pose proof (CandidateBundle_valid_spec next) as (_ & _ & _ & (Hs & _) & _); [done|].
  destruct (0 <? b_declared_start_ns next) eqn:E0; bsplit; [|lia].
  destruct (b_declared_start_ns next <=? 0) eqn:E1; bsplit; [lia|].
  destruct (_ && _ && _ && _) eqn:Ee.
  - intros [= <-]. bsplit. split_and!; try done. right. unfold expired_previous in *.
    destruct (sampleAtDeclaredEnd previous) as [e|]; [|done]. bsplit.
    split_and!; try done. exists e. split_and!; try done. intros Hr. rewrite Hr in *.
    destruct_or?; destruct_and?; done.
  - intros Hr. destruct (sample previous _) as [p|] eqn:Ep; [|done].
    destruct (sampleAtDeclaredStamp next _) as [n|] eqn:En; [|done].
    injection Hr as Hc <-. split_and!; try done. left.
    pose proof (sample_spec _ _ _ Ep) as [Hl _]. split; [done|]. by exists p, n.
Qed.

Lemma handoff_sound_witness :
  @candidateBundleHandoffContinuous eigen_reference demo_bundle demo_bundle false
    = (true, Some 10000000000) /\ b_kind demo_bundle <> kEmergencyBrake.
Proof.
  assert (E : @candidateBundleHandoffContinuous eigen_reference demo_bundle demo_bundle false
              = (true, Some 10000000000)) by (vm_compute; reflexivity).
  split; [exact E|].
  exact (proj1 (proj2 (@handoff_sound eigen_reference demo_bundle demo_bundle false _ E))).
Defined.

(** The residual norms and angles of two points are numbers. *)
Definition residuals_defined `{EigenOps} (s a : TrajectoryPoint) : bool :=
  negb (isnan (v_norm (v_sub (p_position_world s) (p_position_world a))))
  && negb (isnan (v_norm (v_sub (p_velocity_world s) (p_velocity_world a))))
  && negb (isnan (v_norm (v_sub (p_acceleration_world s) (p_acceleration_world a))))
  && negb (isnan (v_norm (v_sub (p_jerk_world s) (p_jerk_world a))))
  && negb (isnan (fabs (yaw_residual s a)))
  && negb (isnan (fabs (f64_sub (p_yaw_rate s) (p_yaw_rate a)))).

(** The admission-time anchor test and the handoff test decide the same
    continuity: when every residual is a number, a candidate matches an anchor
    exactly when anchor and candidate are valid, the candidate is not an
    emergency brake, its lease starts at the activation instant, and its sample
    there is continuous with the anchored state. *)
Theorem candidateMatchesAnchor_iff `{EigenOps} (c : CandidateBundle) (a : ExecutionAnchor) :
  (forall s, sample c (an_activation_stamp_ns a) = Some s ->
     residuals_defined s (an_state a) = true) ->
  candidateMatchesAnchor c a = kMatch <->
  ExecutionAnchor_valid a = true /\ CandidateBundle_valid c = true /\
  b_kind c <> kEmergencyBrake /\ b_valid_from_ns c = an_activation_stamp_ns a /\
  exists s, sample c (an_activation_stamp_ns a) = Some s /\
    points_continuous s (an_state a) = true.
Proof.
  intros Hdef. unfold candidateMatchesAnchor.
  destruct (ExecutionAnchor_valid a) eqn:Ea; cbn [negb orb]; [|split; [done|by intros (? & _)]].
  destruct (CandidateBundle_valid c) eqn:Ec; cbn [negb orb]; [|split; [done|by intros (_ & ? & _)]].
  destruct (b_kind c ==? kEmergencyBrake) eqn:Ek; bsplit; [split; [done|by intros (_ & _ & ? & _)]|].
  destruct (b_valid_from_ns c =? an_activation_stamp_ns a) eqn:Ef; cbn [negb orb]; bsplit;
    [|split; [done|by intros (_ & _ & _ & ? & _)]].
  destruct (sample c _) as [s|]; [|split; [done|by intros (_ & _ & _ & _ & ? & ? & _)]]. specialize (Hdef s eq_refl).
  unfold residuals_defined in Hdef. bsplit.
  assert (Hg : forall x y (r : AnchorMatchResult) k, isnan x = false -> isnan y = false ->
    (if fgt x y then r else k) = if fle x y then k else r).
  { intros x y r k Hx Hy. rewrite fgt_negb_fle by done. by destruct (fle x y). }
  rewrite !Hg by done. unfold points_continuous, kPositionToleranceM, kVelocityToleranceMps,
    kAccelerationToleranceMps2, kJerkToleranceMps3, kYawToleranceRad, kYawRateToleranceRadS.
  split.
  - intros Hm. split_and!; try done. exists s. split; [done|].
    guard_cases; bsplit; done.
  - intros (_ & _ & _ & _ & s' & [= <-] & Hp). bsplit.
    repeat match goal with H : fle _ _ = true |- _ => rewrite H; clear H end. done.
Qed.

Definition demo_anchor : ExecutionAnchor := {|
  an_active_bundle_generation := 1; an_execution_lineage_version := 1;
  an_localization_epoch := 1; an_goal_epoch := 1; an_request_id := 1;
  an_request_stamp_ns := 9000000000; an_activation_stamp_ns := 10000000000;
  an_state := demo_point kMain 0; an_active_role := kMain;
  an_active_main_end_ns := 11000000000; an_active_bundle_end_ns := 12000000000;
  an_command_world := demo_identity
|}.

Lemma candidateMatchesAnchor_iff_witness :
  @candidateMatchesAnchor eigen_reference demo_bundle demo_anchor = kMatch /\
  exists s, @sample eigen_reference demo_bundle 10000000000 = Some s.
Proof.
  assert (E : @candidateMatchesAnchor eigen_reference demo_bundle demo_anchor = kMatch)
    by (vm_compute; reflexivity).
  split; [exact E|].
  apply (@candidateMatchesAnchor_iff eigen_reference demo_bundle demo_anchor) in E.
  - destruct E as (_ & _ & _ & _ & s & Hs & _). exists s. exact Hs.
  - intros s Hs. vm_compute in Hs. injection Hs as <-. vm_compute. reflexivity.
Defined.

(** Without the hypothesis on the residuals the equivalence fails: the anchor
    test rejects with [>], which a NaN residual does not satisfy.  Two finite
    yaw angles whose difference overflows match. *)
Definition huge_yaw (sign : bool) (p : TrajectoryPoint) : TrajectoryPoint :=
  mkPoint (p_position_world p) (p_velocity_world p) (p_acceleration_world p) (p_jerk_world p)
    (SpecFloat.S754_finite sign 9007199254740991 971) (p_yaw_rate p) (p_role p) (p_finished p)
    (p_trajectory_time_s p).

Definition huge_yaw_bundle : CandidateBundle :=
  mkBundle (b_pinned_world_identity demo_bundle) (b_world_identity demo_bundle) 1 1 1 1 1
    10000000000 12000000000 10000000000 kMain (f64_of_Z 10) (f64_of_Z 2) 10000000000 12000000000
    f64_1 true false kMainWithBackup kDeterministicBaseline (mkCertificates true true true true)
    (mkBox vec3_zero (vec3_constant f64_1)) (b_role_schedule demo_bundle) None None None None
    (Some (fun t _ => ev_point (huge_yaw false (demo_point kMain (t - 10000000000))))).

Definition huge_yaw_anchor : ExecutionAnchor :=
  mkAnchor 1 1 1 1 1 9000000000 10000000000 (huge_yaw true (demo_point kMain 0)) kMain
    11000000000 12000000000 demo_identity.

(** The anchor test accepts a finite sample and a finite anchored state whose
    yaw difference overflows, which the handoff test rejects. *)
Theorem anchor_yaw_overflow_matches :
  exists s, @sample eigen_reference huge_yaw_bundle 10000000000 = Some s /\
    @TrajectoryPoint_finite eigen_reference s = true /\
    @TrajectoryPoint_finite eigen_reference (an_state huge_yaw_anchor) = true /\
    @candidateMatchesAnchor eigen_reference huge_yaw_bundle huge_yaw_anchor = kMatch /\
    @points_continuous eigen_reference s (an_state huge_yaw_anchor) = false.
Proof.
  exists (huge_yaw false (demo_point kMain 0)).
  split_and!; vm_compute; reflexivity.
Qed.

(** Whatever the world validator returns or throws, the result is labelled
    with the bundle's own pinned world and generation and with the world it was
    asked about, and it is positive only for a valid bundle whose validator
    answered for this generation (or for no generation). *)
Theorem validateWorld_sound `{EigenOps} (b : CandidateBundle) (w : ptr WorldModelView) (t : f64) :
  let r := validateWorld b w t in
  tv_pinned_world r = b_pinned_world_identity b /\
  tv_evaluated_generation r = b_bundle_generation b /\
  (forall v, w = Some v -> tv_validated_world r = identity (sp_obj v)) /\
  (tv_valid r = true ->
   CandidateBundle_valid b = true /\ is_Some w /\ isfinite t = true /\
   exists validator answer, b_world_validator b = Some validator /\ validator w t = Some answer /\
     tv_valid answer = true /\
     (tv_evaluated_generation answer = 0 \/
      tv_evaluated_generation answer = b_bundle_generation b)).
Proof.
  unfold validateWorld. cbv zeta.
  destruct (b_world_validator b) as [validator|]; [|split_and!; try done; by intros ? ->].
  destruct (_ || _ || _) eqn:E1; [split_and!; try done; by intros ? ->|].
  destruct (validator w t) as [answer|] eqn:Ev; [|split_and!; try done; by intros ? ->].
  destruct (_ && _) eqn:E2; split_and!; try done; try (by intros ? ->).
  change (tv_valid (tv_stamp answer _ _ _)) with (tv_valid answer).
  intros Ht. bsplit. split_and!; try done.
  exists validator, answer. by split_and!.
Qed.
