(* ===== verification/Messages.v ===== *)
(** * ROS messages

    The interface messages of [src/contracts/navigation_contracts/msg] the
    modelled components read and write, as records with the fields of the
    [.msg] files.  Stamps are the nanosecond integers of [TimeNs]. *)

From S2P Require Import Prelude Float64 TimeNs Geometry.

(** [geometry_msgs/Point] has the three doubles of a [vec3]. *)
Abbreviation Point := vec3.

Definition BEHAVIOR_PASS_THROUGH : Z := 0.
Definition BEHAVIOR_STOP : Z := 1.

Record RouteSnapshot : Type := mkRoute {
  r_mission_id : string;
  r_frame_id : string;
  r_route_revision : Z;
  r_request_id : Z;
  r_active_waypoint_index : Z;
  r_waypoint_positions : list Point;
  r_waypoint_ids : list string;
  r_waypoint_acceptance_radii_m : list f64;
  r_waypoint_behaviors : list Z;
  r_measured_progress_valid : bool;
  r_measured_segment_index : Z;
  r_measured_progress_arc_m : f64;
  r_measured_projection_arc_m : f64;
  r_measured_lateral_error_m : f64
}.

Definition RouteSnapshot_default : RouteSnapshot :=
  mkRoute EmptyString EmptyString 0 0 0 [] [] [] [] false 0 fzero fzero fzero.

Record NavigationGoal : Type := mkGoal {
  g_mission_id : string;
  g_waypoint_index : Z;
  g_request_id : Z;
  g_target : Point;
  g_acceptance_radius_m : f64;
  g_behavior : Z;
  g_has_next_target : bool;
  g_next_target : Point;
  g_route : RouteSnapshot
}.

(** [NavigationMissionProgress.event] *)
Definition EVENT_GOAL : Z := 0.
Definition EVENT_COMPLETE : Z := 1.

(** [NavigationModeStatus.state] *)
Definition STATE_ACTIVE : Z := 0.
Definition STATE_BRAKING : Z := 1.
Definition STATE_PAUSED : Z := 2.
Definition STATE_COMPLETE : Z := 3.
Definition STATE_FAILED : Z := 4.

(** The validity flags of [EstimatorHealth] *)
Record HealthFlags : Type := mkHealthFlags {
  hf_navigation_valid : bool;
  hf_covariance_valid : bool;
  hf_observability_valid : bool;
  hf_correction_fresh : bool;
  hf_propagation_valid : bool
}.

(** [EstimatorHealth.TRACKING] *)
Definition HEALTH_TRACKING : Z := 2.

Record EstimatorHealth : Type := mkEstimatorHealth {
  eh_stamp : RosTime;
  eh_localization_epoch : Z;
  eh_state : Z;
  eh_flags : HealthFlags
}.
