(* ===== verification/Lifecycle.v ===== *)
(** * Execution lifecycle

    Model of [src/execution/.../execution_recovery_state.hpp] and
    [execution_lifecycle.hpp]: the recovery state machine and the five facets of
    the lifecycle value the authority owns. *)

From S2P Require Import Prelude.

Inductive ExecutionRecoveryState : Type :=
| rInitialHold | rTrackMain | rTrackBackup | rEmergencyBrake | rStoppedRecovery | rPx4Hold.
#[export] Instance ExecutionRecoveryState_eq_dec : EqDecision ExecutionRecoveryState.
Proof. solve_decision. Defined.

Inductive ExecutionRecoveryEvent : Type :=
| kMainCommitted | kBackupActivated | kEmergencyCommitted | kCertifiedStopObserved
| kTerminalStopCompleted | kEmergencyCertificationFailed.
#[export] Instance ExecutionRecoveryEvent_eq_dec : EqDecision ExecutionRecoveryEvent.
Proof. solve_decision. Defined.

Definition executionRecoveryStateKnown (state : ExecutionRecoveryState) : bool :=
  (state ==? rInitialHold) || (state ==? rTrackMain) || (state ==? rTrackBackup)
  || (state ==? rEmergencyBrake) || (state ==? rStoppedRecovery) || (state ==? rPx4Hold).

Definition nominalPlanningAllowed (state : ExecutionRecoveryState) : bool :=
  (state ==? rInitialHold) || (state ==? rTrackMain) || (state ==? rStoppedRecovery).

Definition transitionExecutionRecovery (state : ExecutionRecoveryState)
    (event : ExecutionRecoveryEvent) : ExecutionRecoveryState :=
  if negb (executionRecoveryStateKnown state) then rPx4Hold
  else if state ==? rPx4Hold then state
  else if event ==? kEmergencyCertificationFailed then rPx4Hold
  else
    match state with
    | rInitialHold =>
        if event ==? kMainCommitted then rTrackMain
        else if event ==? kBackupActivated then rTrackBackup
        else if event ==? kEmergencyCommitted then rEmergencyBrake
        else state
    | rTrackMain =>
        if event ==? kBackupActivated then rTrackBackup
        else if event ==? kEmergencyCommitted then rEmergencyBrake
        else if event ==? kTerminalStopCompleted then rStoppedRecovery
        else state
    | rTrackBackup | rEmergencyBrake =>
        if event ==? kCertifiedStopObserved then rStoppedRecovery else state
    | rStoppedRecovery => if event ==? kMainCommitted then rTrackMain else state
    | rPx4Hold => state
    end.

Inductive ExecutionPhase : Type :=
| phInitialHold | phTrackingMain | phTrackingBackup | phStoppedHold | phPx4Hold.
#[export] Instance ExecutionPhase_eq_dec : EqDecision ExecutionPhase.
Proof. solve_decision. Defined.

Definition executionPhaseTelemetryCodeV1 (phase : ExecutionPhase) : Z :=
  match phase with
  | phInitialHold => 0
  | phTrackingMain => 2
  | phTrackingBackup => 3
  | phStoppedHold => 4
  | phPx4Hold => 5
  end.

Inductive ExecutionExposure : Type := kUnavailable | kAvailable | kSuspended | kFailed.
#[export] Instance ExecutionExposure_eq_dec : EqDecision ExecutionExposure.
Proof. solve_decision. Defined.

Inductive ExecutionSafetyOwnership : Type := kNominal | kSafetySuffix.
#[export] Instance ExecutionSafetyOwnership_eq_dec : EqDecision ExecutionSafetyOwnership.
Proof. solve_decision. Defined.

Inductive ExecutionRestartRequest : Type := kRestartNone | kFromRest.
#[export] Instance ExecutionRestartRequest_eq_dec : EqDecision ExecutionRestartRequest.
Proof. solve_decision. Defined.

Record ExecutionLifecycleState : Type := mkLifecycle {
  phase : ExecutionPhase;
  recovery : ExecutionRecoveryState;
  exposure : ExecutionExposure;
  safety : ExecutionSafetyOwnership;
  restart : ExecutionRestartRequest
}.
#[export] Instance ExecutionLifecycleState_eq_dec : EqDecision ExecutionLifecycleState.
Proof. solve_decision. Defined.

(** [lifecycle_ = {}] *)
Definition Lifecycle_default : ExecutionLifecycleState :=
  mkLifecycle phInitialHold rInitialHold kUnavailable kNominal kRestartNone.

(** Assignments to one facet. *)
Definition set_phase (x : ExecutionPhase) (l : ExecutionLifecycleState) :=
  mkLifecycle x (recovery l) (exposure l) (safety l) (restart l).
Definition set_recovery (x : ExecutionRecoveryState) (l : ExecutionLifecycleState) :=
  mkLifecycle (phase l) x (exposure l) (safety l) (restart l).
Definition set_exposure (x : ExecutionExposure) (l : ExecutionLifecycleState) :=
  mkLifecycle (phase l) (recovery l) x (safety l) (restart l).
Definition set_safety (x : ExecutionSafetyOwnership) (l : ExecutionLifecycleState) :=
  mkLifecycle (phase l) (recovery l) (exposure l) x (restart l).
Definition set_restart (x : ExecutionRestartRequest) (l : ExecutionLifecycleState) :=
  mkLifecycle (phase l) (recovery l) (exposure l) (safety l) x.

(** ** Lemmas *)

Lemma executionRecoveryStateKnown_true s : executionRecoveryStateKnown s = true.
Proof. by destruct s. Qed.

(** A moving safety command is under way. *)
Definition safety_moving (s : ExecutionRecoveryState) : Prop :=
  s = rTrackBackup \/ s = rEmergencyBrake.

Lemma safety_moving_no_planning s : safety_moving s -> nominalPlanningAllowed s = false.
Proof. by intros [->| ->]. Qed.

Lemma transition_px4Hold e : transitionExecutionRecovery rPx4Hold e = rPx4Hold.
Proof. by destruct e. Qed.

Lemma recovery_run_px4Hold es : run transitionExecutionRecovery rPx4Hold es = rPx4Hold.
Proof. induction es as [|e es IH]; simpl; [done|]. by destruct e. Qed.

(** ** Properties *)

(** BACKUP and emergency braking are one-way: from a moving safety state,
    no sequence of events without a certified stop re-admits nominal planning,
    whatever late MAIN, BACKUP or emergency commits arrive. *)
Theorem safety_one_way (s : ExecutionRecoveryState) (es : list ExecutionRecoveryEvent) :
  safety_moving s -> kCertifiedStopObserved ∉ es ->
  nominalPlanningAllowed (run transitionExecutionRecovery s es) = false.
Proof.
  revert s; induction es as [|e es IH]; intros s Hs Hes; simpl.
  - by apply safety_moving_no_planning.
  - apply not_elem_of_cons in Hes as [He Hes].
    destruct (decide (e = kEmergencyCertificationFailed)) as [->|].
    + destruct Hs as [->| ->]; simpl; by rewrite recovery_run_px4Hold.
    + apply IH; [|done]. destruct Hs as [->| ->]; [left|right]; by destruct e.
Qed.

Lemma safety_one_way_witness :
  nominalPlanningAllowed
    (run transitionExecutionRecovery rTrackBackup [kMainCommitted; kTerminalStopCompleted]) = false.
Proof. apply safety_one_way; [left; reflexivity|]. intros [H|[H|H]%elem_of_cons]%elem_of_cons; [discriminate..|by apply not_elem_of_nil in H]. Defined.

(** Once a certified stop is observed the vehicle may plan again, the only
    way out of the stopped state into motion is a MAIN commit, and the PX4 hold
    entered on a failed emergency certificate is absorbing. *)
Theorem recovery_exits (s : ExecutionRecoveryState) (e : ExecutionRecoveryEvent)
    (es : list ExecutionRecoveryEvent) :
  (safety_moving s -> transitionExecutionRecovery s kCertifiedStopObserved = rStoppedRecovery) /\
  (transitionExecutionRecovery rStoppedRecovery e <> rStoppedRecovery ->
     e = kMainCommitted /\ transitionExecutionRecovery rStoppedRecovery e = rTrackMain \/
     e = kEmergencyCertificationFailed /\ transitionExecutionRecovery rStoppedRecovery e = rPx4Hold) /\
  run transitionExecutionRecovery (transitionExecutionRecovery s kEmergencyCertificationFailed) es
    = rPx4Hold.
Proof.
  split_and!.
  - by intros [->| ->].
  - destruct e; naive_solver.
  - replace (transitionExecutionRecovery s kEmergencyCertificationFailed) with rPx4Hold
      by (by destruct s). apply recovery_run_px4Hold.
Qed.
