(* ===== verification/Authority.v ===== *)
(** * The execution authority: owner of the command that may reach the sampler

    Model of [src/execution/.../execution_authority.hpp].  The state is the
    record of the members; every operation that holds [mutex_] throughout is one
    function of the state, and the two operations that release it
    ([reserveAnchor], the world publication) are split at the release into an
    observation and a finishing step, so that other operations can run between.

    Pointers carry their address ([ptr]).  Callbacks passed to an operation are
    values of [callback_outcome]; the allocation of a recertified copy may fail
    and is given by the address it returns. *)

From S2P Require Import Prelude Float64 TimeNs Geometry World Candidate Messages Lifecycle.

(** ** Data *)

Record CommitToken : Type := mkToken {
  tok_world_identity : WorldSnapshotIdentity;
  tok_goal_epoch : Z;
  tok_transaction_id : Z
}.

Inductive ConditionalExecutionMutation : Type := kApplied | kStale | kAlreadyFailed.

Inductive CommitDecision : Type :=
| kCommitted | kNoActiveGoal | kWorldAdvanced | kGoalAdvanced | kCommitInvalidCandidate
| kCancelled | kFinalizationFailed | kPredecessorAdvanced | kAdmissionRejected.
#[export] Instance CommitDecision_eq_dec : EqDecision CommitDecision.
Proof. solve_decision. Defined.

Inductive StageDecision : Type :=
| sStaged | sNoActiveGoal | sWorldAdvanced | sGoalAdvanced | sInvalidCandidate | sInvalidAnchor
| sActivationTooLate | sCancelled | sFinalizationFailed | sPredecessorAdvanced.
#[export] Instance StageDecision_eq_dec : EqDecision StageDecision.
Proof. solve_decision. Defined.

Abbreviation BundlePtr := (ptr CandidateBundle).
Abbreviation GoalPtr := (ptr NavigationGoal).

Record ActiveRecord : Type := mkActive { ac_goal : GoalPtr; ac_bundle : BundlePtr }.
Record StagedRecord : Type := mkStaged {
  st_goal : GoalPtr; st_bundle : BundlePtr; st_activation_ns : Z
}.

Record ExecutionAuthority : Type := mkAuthority {
  admission_goal_epoch_ : Z;
  admission_localization_epoch_ : Z;
  timeline_version_ : Z;
  active_lineage_version_ : Z;
  last_transaction_id_ : Z;
  world_identity_ : option WorldSnapshotIdentity;
  active_ : ActiveRecord;
  staged_ : StagedRecord;
  lifecycle_ : ExecutionLifecycleState
}.

(** The default-constructed store. *)
Definition Authority_init : ExecutionAuthority :=
  mkAuthority 0 0 0 0 0 None (mkActive None None) (mkStaged None None 0) Lifecycle_default.

Record ExecutionAuthoritySnapshot : Type := mkSnapshot {
  s_version : Z;
  s_world_identity : option WorldSnapshotIdentity;
  s_active : BundlePtr;
  s_pending : BundlePtr;
  s_pending_activation_ns : Z;
  s_active_goal : GoalPtr;
  s_pending_goal : GoalPtr;
  s_active_lineage : Z;
  s_admission_goal_epoch : Z;
  s_admission_localization_epoch : Z;
  s_lifecycle : ExecutionLifecycleState
}.

Definition commandAvailable (s : ExecutionAuthoritySnapshot) : bool :=
  exposure (s_lifecycle s) ==? kAvailable.
Definition failed (s : ExecutionAuthoritySnapshot) : bool :=
  exposure (s_lifecycle s) ==? kFailed.
Definition safetySuffixActive (s : ExecutionAuthoritySnapshot) : bool :=
  safety (s_lifecycle s) ==? kSafetySuffix.
Definition restartFromRest (s : ExecutionAuthoritySnapshot) : bool :=
  restart (s_lifecycle s) ==? kFromRest.

(** [ptr ? ptr->field : 0U] *)
Definition field_or_zero {A} (f : A -> Z) (p : ptr A) : Z :=
  match p with Some sh => f (sp_obj sh) | None => 0 end.

Definition activeGeneration (s : ExecutionAuthoritySnapshot) : Z :=
  field_or_zero b_bundle_generation (s_active s).
Definition activeGoalEpoch (s : ExecutionAuthoritySnapshot) : Z :=
  field_or_zero b_goal_epoch (s_active s).
Definition activeRequestId (s : ExecutionAuthoritySnapshot) : Z :=
  field_or_zero b_request_id (s_active s).
Definition admissionRequestId (s : ExecutionAuthoritySnapshot) : Z :=
  match s_active s with
  | Some b => if b_goal_epoch (sp_obj b) =? s_admission_goal_epoch s
              then b_request_id (sp_obj b) else 0
  | None => 0
  end.

(** ** Assignments *)

Definition set_admission (goal_epoch localization_epoch : Z) (a : ExecutionAuthority) :=
  mkAuthority goal_epoch localization_epoch (timeline_version_ a) (active_lineage_version_ a)
    (last_transaction_id_ a) (world_identity_ a) (active_ a) (staged_ a) (lifecycle_ a).
Definition bump_timeline (a : ExecutionAuthority) :=
  mkAuthority (admission_goal_epoch_ a) (admission_localization_epoch_ a)
    (u64_inc (timeline_version_ a)) (active_lineage_version_ a)
    (last_transaction_id_ a) (world_identity_ a) (active_ a) (staged_ a) (lifecycle_ a).
Definition bump_lineage (a : ExecutionAuthority) :=
  mkAuthority (admission_goal_epoch_ a) (admission_localization_epoch_ a)
    (timeline_version_ a) (u64_inc (active_lineage_version_ a))
    (last_transaction_id_ a) (world_identity_ a) (active_ a) (staged_ a) (lifecycle_ a).
Definition set_transaction (x : Z) (a : ExecutionAuthority) :=
  mkAuthority (admission_goal_epoch_ a) (admission_localization_epoch_ a)
    (timeline_version_ a) (active_lineage_version_ a)
    x (world_identity_ a) (active_ a) (staged_ a) (lifecycle_ a).
Definition set_world (x : option WorldSnapshotIdentity) (a : ExecutionAuthority) :=
  mkAuthority (admission_goal_epoch_ a) (admission_localization_epoch_ a)
    (timeline_version_ a) (active_lineage_version_ a)
    (last_transaction_id_ a) x (active_ a) (staged_ a) (lifecycle_ a).
Definition set_active (x : ActiveRecord) (a : ExecutionAuthority) :=
  mkAuthority (admission_goal_epoch_ a) (admission_localization_epoch_ a)
    (timeline_version_ a) (active_lineage_version_ a)
    (last_transaction_id_ a) (world_identity_ a) x (staged_ a) (lifecycle_ a).
Definition set_staged (x : StagedRecord) (a : ExecutionAuthority) :=
  mkAuthority (admission_goal_epoch_ a) (admission_localization_epoch_ a)
    (timeline_version_ a) (active_lineage_version_ a)
    (last_transaction_id_ a) (world_identity_ a) (active_ a) x (lifecycle_ a).
Definition set_lifecycle (x : ExecutionLifecycleState) (a : ExecutionAuthority) :=
  mkAuthority (admission_goal_epoch_ a) (admission_localization_epoch_ a)
    (timeline_version_ a) (active_lineage_version_ a)
    (last_transaction_id_ a) (world_identity_ a) (active_ a) (staged_ a) x.

Abbreviation active_bundle a := (ac_bundle (active_ a)).
Abbreviation active_goal a := (ac_goal (active_ a)).
Abbreviation staged_bundle a := (st_bundle (staged_ a)).
Abbreviation staged_goal a := (st_goal (staged_ a)).
Abbreviation staged_activation a := (st_activation_ns (staged_ a)).

(** ** Private helpers, called with the lock held *)

Definition noteLifecycleChangeLocked (before : ExecutionLifecycleState) (a : ExecutionAuthority) :=
  if lifecycle_ a !=? before then bump_timeline a else a.

Definition activeBundleIdentityMatchesLocked (a : ExecutionAuthority) (bundle : CandidateBundle)
  : bool :=
  match active_bundle a with
  | Some active =>
      has (active_goal a)
      && negb (b_localization_epoch bundle =? 0) && negb (b_goal_epoch bundle =? 0)
      && negb (b_request_id bundle =? 0) && negb (b_bundle_generation bundle =? 0)
      && (b_localization_epoch (sp_obj active) =? b_localization_epoch bundle)
      && (b_goal_epoch (sp_obj active) =? b_goal_epoch bundle)
      && (b_request_id (sp_obj active) =? b_request_id bundle)
      && (b_bundle_generation (sp_obj active) =? b_bundle_generation bundle)
  | None => false
  end.

Definition failClosedLifecycleLocked (a : ExecutionAuthority) : ExecutionAuthority :=
  set_lifecycle (mkLifecycle phPx4Hold rPx4Hold kFailed kNominal kRestartNone) a.

Definition is_safety_role (r : CandidateRole) : bool := (r ==? kBackup) || (r ==? kEmergency).

Definition commit_event (r : CandidateRole) : ExecutionRecoveryEvent :=
  if r ==? kEmergency then kEmergencyCommitted
  else if r ==? kBackup then kBackupActivated else kMainCommitted.

(** The lifecycle a commit of [bundle] installs. *)
Definition committed_lifecycle (role : CandidateRole) (l : ExecutionLifecycleState) :=
  mkLifecycle (if is_safety_role role then phTrackingBackup else phTrackingMain)
    (transitionExecutionRecovery (recovery l) (commit_event role))
    kAvailable (if is_safety_role role then kSafetySuffix else kNominal) (restart l).

Definition committedLifecycleLocked (bundle : CandidateBundle) (previous_generation : Z)
    (a : ExecutionAuthority) : ExecutionAuthority :=
  if (exposure (lifecycle_ a) ==? kFailed)
     || (b_bundle_generation bundle <=? previous_generation)
     || negb (b_localization_epoch bundle =? admission_localization_epoch_ a)
     || negb (b_goal_epoch bundle =? admission_goal_epoch_ a) then a
  else
    match active_goal a with
    | Some goal =>
        if negb (g_request_id (sp_obj goal) =? b_request_id bundle) then a
        else set_lifecycle (committed_lifecycle (b_role bundle) (lifecycle_ a)) a
    | None => a
    end.

Definition goalMatchesCandidate (goal : GoalPtr) (candidate : BundlePtr) : bool :=
  match goal, candidate with
  | Some g, Some c =>
      negb (g_mission_id (sp_obj g) ==? EmptyString) && negb (g_request_id (sp_obj g) =? 0)
      && (g_request_id (sp_obj g) =? b_request_id (sp_obj c))
  | _, _ => false
  end.

Definition clearActiveLocked (a : ExecutionAuthority) : ExecutionAuthority :=
  let a := set_active (mkActive None None) a in
  if exposure (lifecycle_ a) ==? kAvailable
  then set_lifecycle (set_exposure kUnavailable (lifecycle_ a)) a else a.

Definition clearStagedLocked (a : ExecutionAuthority) : ExecutionAuthority :=
  set_staged (mkStaged None None 0) a.

Definition enforceInvariantLocked (a : ExecutionAuthority) : ExecutionAuthority :=
  if negb (has (active_bundle a)) then clearStagedLocked a else a.

(** [if (c) a = f(a);] *)
Definition when (c : bool) (f : ExecutionAuthority -> ExecutionAuthority) (a : ExecutionAuthority) :=
  if c then f a else a.

(** ** Admission scope and episode reset *)

Definition setAdmissionGoalEpoch (goal_epoch : Z) (retain_committed_bundle : bool)
    (a : ExecutionAuthority) : bool * ExecutionAuthority :=
  if goal_epoch =? 0 then (false, a)
  else if goal_epoch <? admission_goal_epoch_ a then (false, a)
  else
    let localization_epoch :=
      match world_identity_ a with
      | Some w => wi_localization_epoch w
      | None => admission_localization_epoch_ a
      end in
    let a := set_admission goal_epoch localization_epoch a in
    let a := when (negb retain_committed_bundle && has (active_bundle a))
               (fun a => bump_lineage (clearActiveLocked a)) a in
    let a := when (negb retain_committed_bundle) (set_lifecycle Lifecycle_default) a in
    (true, bump_timeline (enforceInvariantLocked (clearStagedLocked a))).

Definition beginGoal (localization_epoch goal_epoch : Z) (retain_active : bool)
    (a : ExecutionAuthority) : bool * ExecutionAuthority :=
  if (localization_epoch =? 0) || (goal_epoch =? 0) then (false, a)
  else if (goal_epoch <? admission_goal_epoch_ a)
          || (localization_epoch <? admission_localization_epoch_ a) then (false, a)
  else
    let retain :=
      retain_active && has (active_goal a) && (exposure (lifecycle_ a) ==? kAvailable)
      && match active_bundle a with
         | Some b => b_localization_epoch (sp_obj b) =? localization_epoch
         | None => false
         end in
    let a := set_admission goal_epoch localization_epoch a in
    let a := when (negb retain)
               (fun a => set_lifecycle Lifecycle_default
                           (clearActiveLocked (when (has (active_bundle a)) bump_lineage a))) a in
    (true, bump_timeline (clearStagedLocked a)).

Definition reset (localization_epoch : Z) (a : ExecutionAuthority) : ExecutionAuthority :=
  let a := when (has (active_bundle a)) bump_lineage a in
  let a := clearStagedLocked (clearActiveLocked a) in
  bump_timeline (set_lifecycle Lifecycle_default (set_admission 0 localization_epoch a)).

Definition clearGoal (localization_epoch : Z) (a : ExecutionAuthority) : ExecutionAuthority :=
  reset localization_epoch a.

Definition invalidate (a : ExecutionAuthority) : ExecutionAuthority :=
  let a := when (has (active_bundle a)) bump_lineage a in
  let a := clearStagedLocked (clearActiveLocked (set_lifecycle Lifecycle_default a)) in
  bump_timeline (enforceInvariantLocked a).

(** ** Lifecycle facets *)

(** The pattern [before = lifecycle_; lifecycle_ = ...; noteLifecycleChange]. *)
Definition update_lifecycle (f : ExecutionLifecycleState -> ExecutionLifecycleState)
    (a : ExecutionAuthority) : ExecutionAuthority :=
  noteLifecycleChangeLocked (lifecycle_ a) (set_lifecycle (f (lifecycle_ a)) a).

Definition failClosed (a : ExecutionAuthority) : ExecutionAuthority :=
  noteLifecycleChangeLocked (lifecycle_ a) (failClosedLifecycleLocked a).

Definition suspendCommand (a : ExecutionAuthority) : ExecutionAuthority :=
  if exposure (lifecycle_ a) !=? kFailed then update_lifecycle (set_exposure kSuspended) a else a.

(** The guard of the bundle-identified lifecycle operations. *)
Definition owns_live (a : ExecutionAuthority) (bundle : CandidateBundle) : bool :=
  negb (exposure (lifecycle_ a) ==? kFailed) && activeBundleIdentityMatchesLocked a bundle.

Definition observeRetainedCommand (bundle : CandidateBundle) (safety_suffix_active : bool)
    (a : ExecutionAuthority) : bool * ExecutionAuthority :=
  if negb (owns_live a bundle) then (false, a)
  else
    (true, update_lifecycle (fun l =>
      set_phase (if (b_role bundle ==? kEmergency) || (b_role bundle ==? kBackup)
                 then phTrackingBackup else phTrackingMain)
        (set_safety (if safety_suffix_active then kSafetySuffix else kNominal)
          (set_exposure kAvailable l))) a).

Definition observeSampledSafetyRole (bundle : CandidateBundle) (sampled_role : CandidateRole)
    (a : ExecutionAuthority) : bool * ExecutionAuthority :=
  if negb (owns_live a bundle)
     || ((sampled_role !=? kBackup) && (sampled_role !=? kEmergency)) then (false, a)
  else
    (true, update_lifecycle (fun l =>
      set_recovery
        (transitionExecutionRecovery (recovery l)
           (if sampled_role ==? kEmergency then kEmergencyCommitted else kBackupActivated))
        (set_safety kSafetySuffix (set_phase phTrackingBackup l))) a).

Definition preserveSafetySuffix (bundle : CandidateBundle) (a : ExecutionAuthority)
  : bool * ExecutionAuthority :=
  if (exposure (lifecycle_ a) !=? kAvailable) || negb (activeBundleIdentityMatchesLocked a bundle)
  then (false, a)
  else (true, update_lifecycle (set_safety kSafetySuffix) a).

Definition requestRestartFromRest (bundle : CandidateBundle) (a : ExecutionAuthority)
  : bool * ExecutionAuthority :=
  if negb (owns_live a bundle) then (false, a)
  else (true, update_lifecycle (set_restart kFromRest) a).

Definition clearRestartFromRest (a : ExecutionAuthority) : ExecutionAuthority :=
  if restart (lifecycle_ a) !=? kRestartNone then update_lifecycle (set_restart kRestartNone) a
  else a.

Definition applyRecoveryEvent (event : ExecutionRecoveryEvent) (bundle : CandidateBundle)
    (a : ExecutionAuthority) : bool * ExecutionAuthority :=
  if negb (owns_live a bundle) then (false, a)
  else
    (true, update_lifecycle (fun l =>
      set_recovery (transitionExecutionRecovery (recovery l) event) l) a).

Definition stoppedHold (bundle : CandidateBundle) (a : ExecutionAuthority)
  : bool * ExecutionAuthority :=
  if negb (owns_live a bundle) then (false, a)
  else
    (true, update_lifecycle (fun l =>
      set_safety kNominal (set_exposure kAvailable (set_phase phStoppedHold l))) a).

(** ** Queries *)

Definition load (a : ExecutionAuthority) : BundlePtr := active_bundle a.

Definition snapshot (a : ExecutionAuthority) : ExecutionAuthoritySnapshot :=
  mkSnapshot (timeline_version_ a) (world_identity_ a) (active_bundle a) (staged_bundle a)
    (staged_activation a) (active_goal a) (staged_goal a) (active_lineage_version_ a)
    (admission_goal_epoch_ a) (admission_localization_epoch_ a) (lifecycle_ a).

Definition executingGoal (a : ExecutionAuthority) : GoalPtr := active_goal a.

Definition executingGoalEpoch (a : ExecutionAuthority) : Z :=
  field_or_zero b_goal_epoch (active_bundle a).

Definition matchesActive (goal : NavigationGoal) (goal_epoch localization_epoch bundle_generation : Z)
    (a : ExecutionAuthority) : bool :=
  match active_goal a, active_bundle a with
  | Some g, Some b =>
      if negb (g_mission_id (sp_obj g) ==? g_mission_id goal)
         || negb (g_waypoint_index (sp_obj g) =? g_waypoint_index goal)
         || negb (g_request_id (sp_obj g) =? g_request_id goal)
         || negb (b_goal_epoch (sp_obj b) =? goal_epoch)
         || negb (b_localization_epoch (sp_obj b) =? localization_epoch)
         || negb (b_request_id (sp_obj b) =? g_request_id goal) then false
      else (bundle_generation =? 0) || (b_bundle_generation (sp_obj b) =? bundle_generation)
  | _, _ => false
  end.

Definition matchesActiveSnapshot (expected : ExecutionAuthoritySnapshot) (a : ExecutionAuthority)
  : bool :=
  has (s_active expected) && has (s_active_goal expected)
  && has (active_bundle a) && has (active_goal a)
  && same_get (active_bundle a) (s_active expected)
  && same_get (active_goal a) (s_active_goal expected)
  && (active_lineage_version_ a =? s_active_lineage expected).

Definition matchesAuthorityIdentity (expected : ExecutionAuthoritySnapshot) (a : ExecutionAuthority)
  : bool :=
  same_get (active_bundle a) (s_active expected)
  && same_get (active_goal a) (s_active_goal expected)
  && (active_lineage_version_ a =? s_active_lineage expected)
  && (admission_goal_epoch_ a =? s_admission_goal_epoch expected)
  && (admission_localization_epoch_ a =? s_admission_localization_epoch expected).

Definition isCurrentSnapshot (expected : ExecutionAuthoritySnapshot) (a : ExecutionAuthority)
  : bool :=
  (timeline_version_ a =? s_version expected)
  && same_get (active_bundle a) (s_active expected)
  && same_get (active_goal a) (s_active_goal expected)
  && (active_lineage_version_ a =? s_active_lineage expected)
  && (admission_goal_epoch_ a =? s_admission_goal_epoch expected)
  && (admission_localization_epoch_ a =? s_admission_localization_epoch expected).

Definition invariantHolds (a : ExecutionAuthority) : bool :=
  (negb (has (staged_bundle a)) || has (active_bundle a))
  && Bool.eqb (has (active_goal a)) (has (active_bundle a))
  && Bool.eqb (has (staged_goal a)) (has (staged_bundle a)).

(** ** Conditional mutations against an observed snapshot *)

Definition failClosedIfCurrentSnapshot (expected : ExecutionAuthoritySnapshot)
    (a : ExecutionAuthority) : ConditionalExecutionMutation * ExecutionAuthority :=
  if negb (isCurrentSnapshot expected a) then (kStale, a)
  else if exposure (lifecycle_ a) ==? kFailed then (kAlreadyFailed, a)
  else (kApplied, noteLifecycleChangeLocked (lifecycle_ a) (failClosedLifecycleLocked a)).

Definition suspendIfCurrentSnapshot (expected : ExecutionAuthoritySnapshot)
    (a : ExecutionAuthority) : bool * ExecutionAuthority :=
  if negb (has (s_active expected)) || negb (has (s_active_goal expected))
     || negb (timeline_version_ a =? s_version expected)
     || negb (same_get (active_bundle a) (s_active expected))
     || negb (same_get (active_goal a) (s_active_goal expected))
     || negb (active_lineage_version_ a =? s_active_lineage expected)
     || (exposure (lifecycle_ a) ==? kFailed) then (false, a)
  else (true, update_lifecycle (set_exposure kSuspended) a).

Definition invalidateIfCurrent (expected : ExecutionAuthoritySnapshot) (a : ExecutionAuthority)
  : bool * ExecutionAuthority :=
  if negb (timeline_version_ a =? s_version expected)
     || negb (same_get (active_bundle a) (s_active expected)) then (false, a)
  else (true, bump_timeline (clearStagedLocked (bump_lineage (clearActiveLocked a)))).

(** ** World publication *)

(** The bundle with a new world identity and lease end. *)
Definition recertify_fields (b : CandidateBundle) (next : WorldSnapshotIdentity) (until : Z)
  : CandidateBundle :=
  mkBundle (b_pinned_world_identity b) next (b_localization_epoch b) (b_goal_epoch b)
    (b_request_id b) (b_bundle_generation b) (b_producer_planning_cycle_id b) (b_valid_from_ns b)
    until (b_activation_stamp_ns b) (b_role b) (b_start_wall_time_s b) (b_duration_s b)
    (b_declared_start_ns b) (b_declared_end_ns b) (b_backup_start_time_s b) (b_backup_available b)
    (b_terminal_stop b) (b_kind b) (b_source b) (b_certificates b) (b_protected_region b)
    (b_role_schedule b) (b_quality b) (b_route_boundary_constraint b) (b_route_boundary_event b)
    (b_world_validator b) (b_evaluator b).

Section Operations.
Context `{EigenOps}.

(** [prepare]: [None] is the empty pointer.  [address] is where [make_shared]
    puts the copy, [None] when the allocation throws. *)
Definition prepare (source : CandidateBundle) (next : WorldSnapshotIdentity)
    (refreshed_until_ns : Z) (address : option positive) : BundlePtr :=
  match address with
  | None => None
  | Some addr =>
      let renewed :=
        if b_valid_until_ns source <? refreshed_until_ns then
          if hasDeclaredEndpointMetadata source then
            match secondsSumToNanoseconds (b_start_wall_time_s source) (b_duration_s source) with
            | Some endpoint_ns =>
                if endpoint_ns <=? 0 then None else Some (Z.min refreshed_until_ns endpoint_ns)
            | None => None
            end
          else Some refreshed_until_ns
        else Some (b_valid_until_ns source) in
      match renewed with
      | None => None
      | Some until =>
          let copy := recertify_fields source next until in
          if negb (CandidateBundle_valid copy) then None else Some (Shared addr copy)
      end
  end.

(** The arguments of one publication. *)
Record PublishRequest : Type := mkPublish {
  pub_identity : WorldSnapshotIdentity;
  pub_expected_version : Z;
  pub_expected_bundle : BundlePtr;
  pub_retain_bundle : bool;
  pub_refreshed_until_ns : Z;
  pub_expected_pending : BundlePtr;
  pub_retain_pending : bool;
  pub_active_address : option positive;
  pub_pending_address : option positive
}.

(** What the first critical section observed, and the copies prepared from it. *)
Record PublishPlan : Type := mkPlan {
  pl_prior_world : option WorldSnapshotIdentity;
  pl_observed_active : BundlePtr;
  pl_observed_pending : BundlePtr;
  pl_exact_active_owner : bool;
  pl_prepare_active : bool;
  pl_recertified_active : BundlePtr;
  pl_recertified_pending : BundlePtr;
  pl_active_preparation_failed : bool
}.

Definition same_world_opt (o : option WorldSnapshotIdentity) (w : WorldSnapshotIdentity) : bool :=
  match o with Some v => sameWorldSnapshotIdentity v w | None => false end.

(** [advances] of the store is the order of the world store. *)
Definition world_advances (a : ExecutionAuthority) (next : WorldSnapshotIdentity) : bool :=
  match world_identity_ a with Some current => strictlyAdvances current next | None => true end.

Definition publish_identity_ok (identity : WorldSnapshotIdentity) : bool :=
  negb ((wi_localization_epoch identity =? 0) || (wi_generation identity =? 0)
        || (wi_revision identity =? 0) || (wi_observation_stamp_ns identity <=? 0)).

(** Up to the second lock: the early returns, or the plan. *)
Definition publish_observe (req : PublishRequest) (a : ExecutionAuthority)
  : WorldCommitDecision + PublishPlan :=
  if negb (publish_identity_ok (pub_identity req)) then inl wCandidateRejected
  else if negb (timeline_version_ a =? pub_expected_version req) then inl wSuperseded
  else if negb (world_advances a (pub_identity req)) then inl wWorldAdvanced
  else
    let prior_world := world_identity_ a in
    let observed_active := active_bundle a in
    let observed_pending := staged_bundle a in
    let expected_active_matches :=
      has (pub_expected_bundle req) && has observed_active
      && same_get (pub_expected_bundle req) observed_active in
    let expected_pending_matches :=
      has (pub_expected_pending req) && has observed_pending
      && same_get (pub_expected_pending req) observed_pending in
    let world_of (p : BundlePtr) :=
      match p with Some b => same_world_opt prior_world (b_world_identity (sp_obj b)) | None => false end in
    let exact_active_owner := expected_active_matches && world_of observed_active in
    let prepare_active := pub_retain_bundle req && exact_active_owner in
    let prepare_pending :=
      prepare_active && pub_retain_pending req && expected_pending_matches && world_of observed_pending in
    let recertified_active :=
      match observed_active with
      | Some b => if prepare_active
                  then prepare (sp_obj b) (pub_identity req) (pub_refreshed_until_ns req)
                         (pub_active_address req)
                  else None
      | None => None
      end in
    let active_preparation_failed := prepare_active && negb (has recertified_active) in
    let recertified_pending :=
      match observed_pending with
      | Some b => if prepare_pending && negb active_preparation_failed
                  then prepare (sp_obj b) (pub_identity req) 0 (pub_pending_address req)
                  else None
      | None => None
      end in
    inr (mkPlan prior_world observed_active observed_pending exact_active_owner prepare_active
           recertified_active recertified_pending active_preparation_failed).

(** [active_.bundle] and [active_.goal] moved out. *)
Definition revokeActive (a : ExecutionAuthority) : ExecutionAuthority :=
  let had := has (active_bundle a) in
  when had failClosedLifecycleLocked
    (when had bump_lineage (set_active (mkActive None None) a)).

(** The second critical section.  The third component says whether the
    revocation callback ran. *)
Definition publish_finish (req : PublishRequest) (plan : PublishPlan) (a : ExecutionAuthority)
  : WorldCommitDecision * ExecutionAuthority * bool :=
  let prior_world_still_current :=
    match world_identity_ a, pl_prior_world plan with
    | Some current, Some prior => sameWorldSnapshotIdentity current prior
    | None, None => true
    | _, _ => false
    end in
  if negb (timeline_version_ a =? pub_expected_version req)
     || negb (same_get (active_bundle a) (pl_observed_active plan))
     || negb (same_get (staged_bundle a) (pl_observed_pending plan))
     || negb prior_world_still_current then (wSuperseded, a, false)
  else if negb (world_advances a (pub_identity req)) then (wWorldAdvanced, a, false)
  else
    let revoke_exact_active :=
      pl_exact_active_owner plan && (negb (pl_prepare_active plan) || pl_active_preparation_failed plan) in
    if pl_active_preparation_failed plan then
      (wCandidateRejected, bump_timeline (revokeActive (clearStagedLocked a)), revoke_exact_active)
    else
      let a :=
        if pl_prepare_active plan
        then set_active (mkActive (active_goal a) (pl_recertified_active plan)) a
        else revokeActive a in
      let a :=
        if pl_prepare_active plan && has (pl_recertified_pending plan)
        then set_staged (mkStaged (staged_goal a) (pl_recertified_pending plan) (staged_activation a)) a
        else clearStagedLocked a in
      let a := when (negb (has (active_bundle a))) clearStagedLocked a in
      (wCommitted, bump_timeline (set_world (Some (pub_identity req)) a), revoke_exact_active).

(** The publication with nothing running between its critical sections. *)
Definition publishWorldIdentityIfCurrentAndFinalizeRevocation (req : PublishRequest)
    (a : ExecutionAuthority) : WorldCommitDecision * ExecutionAuthority * bool :=
  match publish_observe req a with
  | inl decision => (decision, a, false)
  | inr plan => publish_finish req plan a
  end.

Definition publishWorldIdentityIfCurrent (req : PublishRequest) (a : ExecutionAuthority)
  : WorldCommitDecision * ExecutionAuthority :=
  fst (publishWorldIdentityIfCurrentAndFinalizeRevocation req a).

(** ** Anchor reservation *)

Record AnchorPlan : Type := mkAnchorPlan {
  ap_predecessor : shared CandidateBundle;
  ap_expected_world : WorldSnapshotIdentity;
  ap_expected_version : Z;
  ap_expected_lineage_version : Z
}.

Definition reserve_observe (request_stamp_ns activation_stamp_ns : Z) (a : ExecutionAuthority)
  : option AnchorPlan :=
  if (request_stamp_ns <=? 0) || (activation_stamp_ns <? request_stamp_ns) then None
  else
    match active_bundle a, world_identity_ a with
    | Some active, Some w =>
        if negb (sameWorldSnapshotIdentity w (b_world_identity (sp_obj active)))
           || (activation_stamp_ns <? b_valid_from_ns (sp_obj active))
           || (b_valid_until_ns (sp_obj active) <? activation_stamp_ns) then None
        else Some (mkAnchorPlan active w (timeline_version_ a) (active_lineage_version_ a))
    | _, _ => None
    end.

Definition declared_or_lease_end (b : CandidateBundle) : Z :=
  if 0 <? b_declared_end_ns b then b_declared_end_ns b else b_valid_until_ns b.

Definition bundle_main_end (b : CandidateBundle) : option Z :=
  if b_backup_available b
  then secondsSumToNanoseconds (b_start_wall_time_s b) (b_backup_start_time_s b)
  else Some (declared_or_lease_end b).

(** The evaluation outside the lock. *)
Definition reserve_build (request_stamp_ns activation_stamp_ns : Z) (plan : AnchorPlan)
  : option ExecutionAnchor :=
  let predecessor := sp_obj (ap_predecessor plan) in
  match sample predecessor activation_stamp_ns with
  | None => None
  | Some point =>
      let end_ns := declared_or_lease_end predecessor in
      match bundle_main_end predecessor with
      | None => None
      | Some main_end_ns =>
          if (main_end_ns <? activation_stamp_ns) || (end_ns <? activation_stamp_ns) then None
          else
            let anchor :=
              mkAnchor (b_bundle_generation predecessor) (ap_expected_lineage_version plan)
                (b_localization_epoch predecessor) (b_goal_epoch predecessor)
                (b_request_id predecessor) request_stamp_ns activation_stamp_ns point
                (p_role point) main_end_ns end_ns (b_world_identity predecessor) in
            if negb (ExecutionAnchor_valid anchor) then None else Some anchor
      end
  end.

Definition reserve_finish (plan : AnchorPlan) (result : ExecutionAnchor) (a : ExecutionAuthority)
  : option ExecutionAnchor :=
  if negb (timeline_version_ a =? ap_expected_version plan)
     || negb (same_get (active_bundle a) (Some (ap_predecessor plan)))
     || negb (same_world_opt (world_identity_ a) (ap_expected_world plan)) then None
  else Some result.

Definition reserveAnchor (request_stamp_ns activation_stamp_ns : Z) (a : ExecutionAuthority)
  : option ExecutionAnchor :=
  match reserve_observe request_stamp_ns activation_stamp_ns a with
  | None => None
  | Some plan =>
      match reserve_build request_stamp_ns activation_stamp_ns plan with
      | None => None
      | Some result => reserve_finish plan result a
      end
  end.

Definition predecessorMatchesAnchor (predecessor : CandidateBundle) (anchor : ExecutionAnchor)
  : bool :=
  if negb (ExecutionAnchor_valid anchor) || negb (CandidateBundle_valid predecessor)
     || negb (b_bundle_generation predecessor =? an_active_bundle_generation anchor)
     || negb (b_localization_epoch predecessor =? an_localization_epoch anchor)
     || negb (b_goal_epoch predecessor =? an_goal_epoch anchor)
     || negb (b_request_id predecessor =? an_request_id anchor)
     || negb (sameWorldSnapshotIdentity (b_world_identity predecessor) (an_command_world anchor))
  then false
  else
    let end_ns := declared_or_lease_end predecessor in
    match secondsToNanoseconds (b_start_wall_time_s predecessor), bundle_main_end predecessor with
    | Some start_ns, Some main_end_ns =>
        if (an_activation_stamp_ns anchor <? b_valid_from_ns predecessor)
           || (b_valid_until_ns predecessor <? an_activation_stamp_ns anchor)
           || (an_activation_stamp_ns anchor <? start_ns)
           || negb (main_end_ns =? an_active_main_end_ns anchor)
           || negb (end_ns =? an_active_bundle_end_ns anchor)
           || (end_ns <? an_activation_stamp_ns anchor) then false
        else
          let elapsed_ns := an_activation_stamp_ns anchor - start_ns in
          if elapsed_ns <? 0 then false
          else
            match scheduledRole predecessor (f64_mul (f64_of_Z elapsed_ns) f64_1e_9) with
            | Some scheduled => scheduled ==? an_active_role anchor
            | None => false
            end
    | _, _ => false
    end.

(** ** Staging a successor *)

(** The checks of [stagePending] and [stagePendingAndFinalize]: [None] admits. *)
Definition stage_guard (expected : CommitToken) (anchor : ExecutionAnchor) (goal : GoalPtr)
    (candidate : BundlePtr) (a : ExecutionAuthority) : option StageDecision :=
  match candidate with
  | None => Some sInvalidCandidate
  | Some c =>
      if negb (goalMatchesCandidate goal candidate) || negb (CandidateBundle_valid (sp_obj c))
         || (tok_goal_epoch expected =? 0) || (tok_transaction_id expected =? 0)
      then Some sInvalidCandidate
      else if negb (ExecutionAnchor_valid anchor)
              || negb (b_valid_from_ns (sp_obj c) =? an_activation_stamp_ns anchor)
              || negb (b_activation_stamp_ns (sp_obj c) =? an_activation_stamp_ns anchor)
              || negb (b_localization_epoch (sp_obj c) =? an_localization_epoch anchor)
              || negb (sameWorldSnapshotIdentity (b_world_identity (sp_obj c))
                         (tok_world_identity expected))
      then Some sInvalidAnchor
      else if admission_goal_epoch_ a =? 0 then Some sNoActiveGoal
      else if exposure (lifecycle_ a) ==? kFailed then Some sCancelled
      else if negb (admission_goal_epoch_ a =? tok_goal_epoch expected)
              || negb (b_goal_epoch (sp_obj c) =? tok_goal_epoch expected)
      then Some sGoalAdvanced
      else if negb (same_world_opt (world_identity_ a) (tok_world_identity expected))
      then Some sWorldAdvanced
      else if tok_transaction_id expected <=? last_transaction_id_ a then Some sCancelled
      else if (an_active_main_end_ns anchor <? an_activation_stamp_ns anchor)
              || (b_valid_until_ns (sp_obj c) <? an_activation_stamp_ns anchor)
      then Some sActivationTooLate
      else
        match active_bundle a with
        | None => Some sPredecessorAdvanced
        | Some active =>
            if negb (active_lineage_version_ a =? an_execution_lineage_version anchor)
               || negb (predecessorMatchesAnchor (sp_obj active) anchor)
            then Some sPredecessorAdvanced else None
        end
  end.

Definition stage_install (expected : CommitToken) (anchor : ExecutionAnchor) (goal : GoalPtr)
    (candidate : BundlePtr) (a : ExecutionAuthority) : ExecutionAuthority :=
  bump_timeline (set_transaction (tok_transaction_id expected)
    (set_staged (mkStaged goal candidate (an_activation_stamp_ns anchor)) a)).

Definition stagePending (expected : CommitToken) (anchor : ExecutionAnchor) (goal : GoalPtr)
    (candidate : BundlePtr) (a : ExecutionAuthority) : StageDecision * ExecutionAuthority :=
  match stage_guard expected anchor goal candidate a with
  | Some decision => (decision, a)
  | None => (sStaged, stage_install expected anchor goal candidate a)
  end.

Definition stagePendingAndFinalize (expected : CommitToken) (anchor : ExecutionAnchor)
    (goal : GoalPtr) (candidate : BundlePtr) (finalize : callback_outcome) (a : ExecutionAuthority)
  : StageDecision * ExecutionAuthority :=
  match stage_guard expected anchor goal candidate a with
  | Some decision => (decision, a)
  | None =>
      let previous_staged := staged_ a in
      let previous_transaction_id := last_transaction_id_ a in
      let a := stage_install expected anchor goal candidate a in
      if negb (callback_ok finalize)
      then (sFinalizationFailed,
            bump_timeline (set_transaction previous_transaction_id (set_staged previous_staged a)))
      else (sStaged, a)
  end.

(** ** Activation of the staged successor *)

Definition clear_staged_and_bump (a : ExecutionAuthority) : ExecutionAuthority :=
  bump_timeline (clearStagedLocked a).

(** The transaction checks that discard the staged record when they fail. *)
Definition activation_coherent (now_ns : Z) (a : ExecutionAuthority) : bool :=
  match staged_goal a, active_goal a, staged_bundle a, active_bundle a with
  | Some sg, Some _, Some sb, Some ab =>
      (g_request_id (sp_obj sg) =? b_request_id (sp_obj sb))
      && same_world_opt (world_identity_ a) (b_world_identity (sp_obj sb))
      && (admission_goal_epoch_ a =? b_goal_epoch (sp_obj sb))
      && (now_ns <=? b_valid_until_ns (sp_obj sb)) && CandidateBundle_valid (sp_obj sb)
      && CandidateBundle_valid (sp_obj ab)
      && same_world_opt (world_identity_ a) (b_world_identity (sp_obj ab))
  | _, _, _, _ => false
  end.

Definition activatePendingIfDueAndFinalizeLocked (now_ns : Z) (expected_pending : BundlePtr)
    (expected_version expected_activation_ns : Z) (require_exact_token : bool)
    (finalize : Z -> callback_outcome) (a : ExecutionAuthority) : bool * ExecutionAuthority :=
  if exposure (lifecycle_ a) ==? kFailed then (false, a)
  else if has (staged_bundle a) && negb (has (active_bundle a))
  then (false, clear_staged_and_bump a)
  else
    match staged_bundle a with
    | None => (false, a)
    | Some successor =>
        if (staged_activation a <=? 0) || (now_ns <? staged_activation a) then (false, a)
        else if require_exact_token
                && (negb (timeline_version_ a =? expected_version)
                    || negb (staged_activation a =? expected_activation_ns)) then (false, a)
        else if has expected_pending
                && (negb (same_get (staged_bundle a) expected_pending)
                    || negb (b_bundle_generation (sp_obj successor)
                             =? field_or_zero b_bundle_generation expected_pending))
        then (false, a)
        else if negb (activation_coherent now_ns a) then (false, clear_staged_and_bump a)
        else
          let previous_lifecycle := lifecycle_ a in
          let previous := active_ a in
          let a := set_active (mkActive (staged_goal a) (staged_bundle a)) a in
          let a := clear_staged_and_bump a in
          if negb (callback_ok (finalize (b_bundle_generation (sp_obj successor)))) then
            (false, bump_timeline (enforceInvariantLocked (clearStagedLocked
                      (set_active previous (set_lifecycle previous_lifecycle a)))))
          else
            (true, bump_lineage (committedLifecycleLocked (sp_obj successor)
                     (field_or_zero b_bundle_generation (ac_bundle previous)) a))
    end.

Definition activatePendingIfDueAndFinalize (now_ns : Z) (expected : ExecutionAuthoritySnapshot)
    (finalize : Z -> callback_outcome) (a : ExecutionAuthority) : bool * ExecutionAuthority :=
  activatePendingIfDueAndFinalizeLocked now_ns (s_pending expected) (s_version expected)
    (s_pending_activation_ns expected) true finalize a.

(** ** Exposure to the transport *)

Definition publish_guard (expected : BundlePtr) (expected_goal_epoch : Z) (a : ExecutionAuthority)
  : bool :=
  match expected, active_bundle a with
  | Some e, Some active =>
      same_get (active_bundle a) expected
      && (exposure (lifecycle_ a) ==? kAvailable)
      && (b_goal_epoch (sp_obj active) =? expected_goal_epoch)
      && same_world_opt (world_identity_ a) (b_world_identity (sp_obj e))
  | _, _ => false
  end.

(** The second component is the lifecycle the callback was run with. *)
Definition publishIfCurrent (expected : BundlePtr) (expected_goal_epoch : Z)
    (expose : ExecutionLifecycleState -> callback_outcome) (a : ExecutionAuthority)
  : bool * option ExecutionLifecycleState :=
  if negb (publish_guard expected expected_goal_epoch a) then (false, None)
  else (callback_ok (expose (lifecycle_ a)), Some (lifecycle_ a)).

(** ** Commits *)

(** The checks the three commit operations share: [None] admits. *)
Definition commit_guard (expected : CommitToken) (goal : GoalPtr) (candidate : BundlePtr)
    (a : ExecutionAuthority) : option CommitDecision :=
  match candidate with
  | None => Some kCommitInvalidCandidate
  | Some c =>
      if negb (goalMatchesCandidate goal candidate) || negb (CandidateBundle_valid (sp_obj c))
         || (tok_goal_epoch expected =? 0) || (tok_transaction_id expected =? 0)
      then Some kCommitInvalidCandidate
      else if admission_goal_epoch_ a =? 0 then Some kNoActiveGoal
      else if exposure (lifecycle_ a) ==? kFailed then Some kCancelled
      else if negb (admission_goal_epoch_ a =? tok_goal_epoch expected)
              || negb (b_goal_epoch (sp_obj c) =? tok_goal_epoch expected)
      then Some kGoalAdvanced
      else if negb (same_world_opt (world_identity_ a) (tok_world_identity expected))
              || negb (same_world_opt (world_identity_ a) (b_world_identity (sp_obj c)))
      then Some kWorldAdvanced
      else if tok_transaction_id expected <=? last_transaction_id_ a then Some kCancelled
      else if has (active_bundle a)
              && (b_bundle_generation (sp_obj c)
                  <? field_or_zero b_bundle_generation (active_bundle a))
      then Some kPredecessorAdvanced
      else None
  end.

(** Swap the active record, with the lifecycle of the commit. *)
Definition commit_swap (expected : CommitToken) (goal : GoalPtr) (candidate : BundlePtr)
    (a : ExecutionAuthority) : ExecutionAuthority :=
  let prior_generation := field_or_zero b_bundle_generation (active_bundle a) in
  let a := set_active (mkActive goal candidate) a in
  let a :=
    match candidate with
    | Some c => committedLifecycleLocked (sp_obj c) prior_generation a
    | None => a
    end in
  bump_timeline (set_transaction (tok_transaction_id expected) (clearStagedLocked a)).

Definition tryCommit (expected : CommitToken) (goal : GoalPtr) (candidate : BundlePtr)
    (a : ExecutionAuthority) : CommitDecision * ExecutionAuthority :=
  match commit_guard expected goal candidate a with
  | Some decision => (decision, a)
  | None => (kCommitted, bump_lineage (commit_swap expected goal candidate a))
  end.

Definition tryCommitIfCurrent (expected : CommitToken) (predecessor : ExecutionAuthoritySnapshot)
    (goal : GoalPtr) (candidate : BundlePtr) (admission : callback_outcome) (a : ExecutionAuthority)
  : CommitDecision * ExecutionAuthority :=
  match commit_guard expected goal candidate a with
  | Some decision => (decision, a)
  | None =>
      if negb (timeline_version_ a =? s_version predecessor)
         || negb (same_get (active_bundle a) (s_active predecessor))
         || negb (same_get (staged_bundle a) (s_pending predecessor))
         || negb (staged_activation a =? s_pending_activation_ns predecessor)
      then (kPredecessorAdvanced, a)
      else if negb (callback_ok admission) then (kAdmissionRejected, a)
      else (kCommitted, bump_lineage (commit_swap expected goal candidate a))
  end.

Definition tryCommitAndFinalize (expected : CommitToken) (goal : GoalPtr) (candidate : BundlePtr)
    (finalize : callback_outcome) (a : ExecutionAuthority) : CommitDecision * ExecutionAuthority :=
  match commit_guard expected goal candidate a with
  | Some decision => (decision, a)
  | None =>
      let previous_lifecycle := lifecycle_ a in
      let previous_active := active_ a in
      let previous_staged := staged_ a in
      let previous_transaction_id := last_transaction_id_ a in
      let a := commit_swap expected goal candidate a in
      if negb (callback_ok finalize)
      then (kFinalizationFailed,
            bump_timeline (set_transaction previous_transaction_id
              (set_staged previous_staged (set_active previous_active
                (set_lifecycle previous_lifecycle a)))))
      else (kCommitted, bump_lineage a)
  end.
End Operations.
