(* ===== verification/AuthorityInv.v ===== *)
(** * The authority's invariant, its version counter and its transactions

    The operations of [Authority] as one operation language, the states a
    process can reach with it, the invariant those states keep, and the
    properties of the transactions.

    The only assumption on an operation is [op_live]: while a publication holds
    the pointers it observed, an address of a live object names that object. *)

From S2P Require Import Prelude Float64 TimeNs Geometry World Candidate Messages Lifecycle.
From S2P Require Import Authority.

(** ** The operation language *)

Inductive auth_op : Type :=
| op_setAdmissionGoalEpoch (goal_epoch : Z) (retain : bool)
| op_beginGoal (localization_epoch goal_epoch : Z) (retain : bool)
| op_reset (localization_epoch : Z)
| op_invalidate
| op_failClosed
| op_suspendCommand
| op_observeRetainedCommand (b : CandidateBundle) (safety_suffix : bool)
| op_observeSampledSafetyRole (b : CandidateBundle) (r : CandidateRole)
| op_preserveSafetySuffix (b : CandidateBundle)
| op_requestRestartFromRest (b : CandidateBundle)
| op_clearRestartFromRest
| op_applyRecoveryEvent (e : ExecutionRecoveryEvent) (b : CandidateBundle)
| op_stoppedHold (b : CandidateBundle)
| op_failClosedIfCurrentSnapshot (expected : ExecutionAuthoritySnapshot)
| op_suspendIfCurrentSnapshot (expected : ExecutionAuthoritySnapshot)
| op_invalidateIfCurrent (expected : ExecutionAuthoritySnapshot)
| op_publishWorld (req : PublishRequest) (observed : ExecutionAuthority)
| op_stagePending (tok : CommitToken) (anchor : ExecutionAnchor) (g : GoalPtr) (c : BundlePtr)
| op_stagePendingAndFinalize (tok : CommitToken) (anchor : ExecutionAnchor) (g : GoalPtr)
    (c : BundlePtr) (fin : callback_outcome)
| op_activatePending (now_ns : Z) (expected : ExecutionAuthoritySnapshot)
    (fin : Z -> callback_outcome)
| op_tryCommit (tok : CommitToken) (g : GoalPtr) (c : BundlePtr)
| op_tryCommitIfCurrent (tok : CommitToken) (pred : ExecutionAuthoritySnapshot) (g : GoalPtr)
    (c : BundlePtr) (admission : callback_outcome)
| op_tryCommitAndFinalize (tok : CommitToken) (g : GoalPtr) (c : BundlePtr)
    (fin : callback_outcome).

Section AuthorityRuns.
Context `{EigenOps}.

(** The state after one operation.  A publication finishes on the current state
    with the plan it prepared from the state it observed earlier. *)
Definition auth_step (a : ExecutionAuthority) (o : auth_op) : ExecutionAuthority :=
  match o with
  | op_setAdmissionGoalEpoch e r => snd (setAdmissionGoalEpoch e r a)
  | op_beginGoal l e r => snd (beginGoal l e r a)
  | op_reset l => reset l a
  | op_invalidate => invalidate a
  | op_failClosed => failClosed a
  | op_suspendCommand => suspendCommand a
  | op_observeRetainedCommand b s => snd (observeRetainedCommand b s a)
  | op_observeSampledSafetyRole b r => snd (observeSampledSafetyRole b r a)
  | op_preserveSafetySuffix b => snd (preserveSafetySuffix b a)
  | op_requestRestartFromRest b => snd (requestRestartFromRest b a)
  | op_clearRestartFromRest => clearRestartFromRest a
  | op_applyRecoveryEvent e b => snd (applyRecoveryEvent e b a)
  | op_stoppedHold b => snd (stoppedHold b a)
  | op_failClosedIfCurrentSnapshot s => snd (failClosedIfCurrentSnapshot s a)
  | op_suspendIfCurrentSnapshot s => snd (suspendIfCurrentSnapshot s a)
  | op_invalidateIfCurrent s => snd (invalidateIfCurrent s a)
  | op_publishWorld req observed =>
      match publish_observe req observed with
      | inl _ => a
      | inr plan => snd (fst (publish_finish req plan a))
      end
  | op_stagePending tok anchor g c => snd (stagePending tok anchor g c a)
  | op_stagePendingAndFinalize tok anchor g c fin =>
      snd (stagePendingAndFinalize tok anchor g c fin a)
  | op_activatePending now s fin => snd (activatePendingIfDueAndFinalize now s fin a)
  | op_tryCommit tok g c => snd (tryCommit tok g c a)
  | op_tryCommitIfCurrent tok pred g c admission => snd (tryCommitIfCurrent tok pred g c admission a)
  | op_tryCommitAndFinalize tok g c fin => snd (tryCommitAndFinalize tok g c fin a)
  end.

(** The pointers a publication observed are still held when it finishes. *)
Definition op_live (a : ExecutionAuthority) (o : auth_op) : Prop :=
  match o with
  | op_publishWorld _ observed =>
      aliased (active_bundle a) (active_bundle observed) /\
      aliased (staged_bundle a) (staged_bundle observed)
  | _ => True
  end.

Inductive reachable : ExecutionAuthority -> Prop :=
| reach_init : reachable Authority_init
| reach_step a o : reachable a -> op_live a o -> reachable (auth_step a o).

(** ** The invariant *)

Definition failed_lifecycle : ExecutionLifecycleState :=
  mkLifecycle phPx4Hold rPx4Hold kFailed kNominal kRestartNone.

Definition bundle_ok (w : option WorldSnapshotIdentity) (g : shared NavigationGoal)
    (b : shared CandidateBundle) : Prop :=
  goalMatchesCandidate (Some g) (Some b) = true /\ CandidateBundle_valid (sp_obj b) = true /\
  w = Some (b_world_identity (sp_obj b)).

Definition active_ok (w : option WorldSnapshotIdentity) (r : ActiveRecord) : Prop :=
  match ac_goal r, ac_bundle r with
  | None, None => True
  | Some g, Some b => bundle_ok w g b
  | _, _ => False
  end.

Definition staged_ok (w : option WorldSnapshotIdentity) (goal_epoch : Z) (r : StagedRecord) : Prop :=
  match st_goal r, st_bundle r with
  | None, None => st_activation_ns r = 0
  | Some g, Some b =>
      bundle_ok w g b /\ b_goal_epoch (sp_obj b) = goal_epoch /\
      st_activation_ns r = b_valid_from_ns (sp_obj b)
  | _, _ => False
  end.

Record inv (a : ExecutionAuthority) : Prop := mkInv {
  inv_timeline : is_u64 (timeline_version_ a);
  inv_lineage : is_u64 (active_lineage_version_ a);
  inv_active : active_ok (world_identity_ a) (active_ a);
  inv_staged : staged_ok (world_identity_ a) (admission_goal_epoch_ a) (staged_ a);
  inv_order : is_Some (staged_bundle a) -> is_Some (active_bundle a);
  inv_available : exposure (lifecycle_ a) = kAvailable -> is_Some (active_bundle a);
  inv_failed : exposure (lifecycle_ a) = kFailed -> lifecycle_ a = failed_lifecycle
}.

(** ** Preservation, building block by building block *)

Lemma inv_init : inv Authority_init.
Proof. constructor; done || zlia. Qed.

Lemma inv_bump_timeline a : inv a -> inv (bump_timeline a).
Proof. intros []. constructor; simpl; auto with nav. Qed.

Lemma inv_bump_lineage a : inv a -> inv (bump_lineage a).
Proof. intros []. constructor; simpl; auto with nav. Qed.

Lemma inv_set_transaction x a : inv a -> inv (set_transaction x a).
Proof. intros []. by constructor. Qed.

Lemma inv_clear_staged a : inv a -> inv (clearStagedLocked a).
Proof. intros []. constructor; simpl; try done; by intros [? ?]. Qed.

(** A lifecycle write that neither exposes a missing command nor leaves the
    failed state half set. *)
Lemma inv_set_lifecycle l a :
  inv a ->
  (exposure l = kAvailable -> is_Some (active_bundle a)) ->
  (exposure l = kFailed -> l = failed_lifecycle) -> inv (set_lifecycle l a).
Proof. intros [] ? ?. by constructor. Qed.

Lemma inv_note before a : inv a -> inv (noteLifecycleChangeLocked before a).
Proof. unfold noteLifecycleChangeLocked. destruct (_ !=? _); auto using inv_bump_timeline. Qed.

Lemma inv_when c f a : inv a -> (inv a -> inv (f a)) -> inv (when c f a).
Proof. destruct c; simpl; auto. Qed.

(** Emptying the active and the staged record together. *)
Lemma inv_clear_both l a :
  inv a -> (exposure l <> kAvailable) -> (exposure l = kFailed -> l = failed_lifecycle) ->
  inv (set_lifecycle l (clearStagedLocked (set_active (mkActive None None) a))).
Proof. intros [] ? ?. constructor; simpl; try done; by intros [? ?]. Qed.

Lemma inv_set_admission g l a :
  inv a -> staged_bundle a = None -> staged_goal a = None -> inv (set_admission g l a).
Proof.
  intros [] Hb Hg. constructor; simpl; try done.
  unfold staged_ok in *. rewrite Hb, Hg in *. done.
Qed.
#[local] Hint Resolve inv_bump_timeline inv_bump_lineage inv_set_transaction inv_clear_staged
  inv_note inv_when : nav.

(** ** Field equations of the helpers *)

Lemma clearActive_eq a :
  clearActiveLocked a =
  set_lifecycle (set_exposure (if exposure (lifecycle_ a) ==? kAvailable then kUnavailable
                               else exposure (lifecycle_ a)) (lifecycle_ a))
    (set_active (mkActive None None) a).
Proof.
  unfold clearActiveLocked. simpl. destruct (_ ==? _); [done|].
  destruct a as [? ? ? ? ? ? ? ? []]; done.
Qed.

(** Clearing both records from a good state, whatever else is assigned around. *)
Lemma inv_clear_all a : inv a -> inv (clearStagedLocked (clearActiveLocked a)).
Proof.
  intros Hi. rewrite clearActive_eq.
  apply (inv_clear_both (set_exposure (if exposure (lifecycle_ a) ==? kAvailable then kUnavailable
                               else exposure (lifecycle_ a)) (lifecycle_ a)) a Hi); simpl.
  - destruct (_ ==? _) eqn:E; breflect; done.
  - destruct (_ ==? _) eqn:E; breflect; [done|]. intros Hf.
    rewrite (inv_failed a Hi Hf). done.
Qed.

Lemma inv_default_lifecycle a :
  inv a -> inv (set_lifecycle Lifecycle_default a).
Proof. intros. by apply inv_set_lifecycle. Qed.
#[local] Hint Resolve inv_clear_all inv_default_lifecycle : nav.

(** A lifecycle update guarded as the code guards it. *)
Lemma inv_update f a :
  inv a ->
  (exposure (f (lifecycle_ a)) = kAvailable -> is_Some (active_bundle a)) ->
  (exposure (f (lifecycle_ a)) = kFailed -> f (lifecycle_ a) = failed_lifecycle) ->
  inv (update_lifecycle f a).
Proof. intros. unfold update_lifecycle. by apply inv_note, inv_set_lifecycle. Qed.

Lemma owns_live_spec a b :
  owns_live a b = true -> exposure (lifecycle_ a) <> kFailed /\ is_Some (active_bundle a).
Proof.
  unfold owns_live, activeBundleIdentityMatchesLocked. destruct (active_bundle a); [|by rewrite andb_false_r].
  intros. bsplit. done.
Qed.

(** The update of an owned lifecycle that keeps or raises the exposure. *)
Lemma inv_update_owned f a b :
  inv a -> owns_live a b = true ->
  (forall l, exposure l <> kFailed -> exposure (f l) <> kFailed) -> inv (update_lifecycle f a).
Proof.
  intros Hi [Hl Ha]%owns_live_spec Hf. apply inv_update; try done. intros ?. by destruct (Hf _ Hl).
Qed.

(** ** What the guards establish *)

Lemma same_world_opt_spec o w : same_world_opt o w = true <-> o = Some w.
Proof.
  destruct o as [v|]; simpl; [|naive_solver]. rewrite sameWorldSnapshotIdentity_eq. naive_solver.
Qed.

Lemma goalMatches_some g c :
  goalMatchesCandidate g c = true -> exists sg sc, g = Some sg /\ c = Some sc.
Proof. destruct g, c; try done. eauto. Qed.

Lemma commit_guard_none tok g c a :
  commit_guard tok g c a = None ->
  exists sg sc, g = Some sg /\ c = Some sc /\
    bundle_ok (world_identity_ a) sg sc /\
    (admission_goal_epoch_ a <> 0 /\ tok_goal_epoch tok = admission_goal_epoch_ a /\
     b_goal_epoch (sp_obj sc) = admission_goal_epoch_ a) /\
    exposure (lifecycle_ a) <> kFailed /\
    world_identity_ a = Some (tok_world_identity tok) /\
    last_transaction_id_ a < tok_transaction_id tok /\
    (is_Some (active_bundle a) ->
     field_or_zero b_bundle_generation (active_bundle a) <= b_bundle_generation (sp_obj sc)).
Proof.
  unfold commit_guard. destruct c as [sc|]; [|done].
  destruct (_ || _ || _ || _) eqn:E1; [done|]. destruct (admission_goal_epoch_ a =? 0) eqn:E2; [done|].
  destruct (_ ==? kFailed) eqn:E3; [done|]. destruct (negb (admission_goal_epoch_ a =? _) || _) eqn:E4; [done|].
  destruct (negb (same_world_opt _ _) || _) eqn:E5; [done|].
  destruct (_ <=? _) eqn:E6; [done|]. destruct (has _ && _) eqn:E7; [done|]. intros _.
  apply orb_false_iff in E1 as [[[Hm Hv]%orb_false_iff Hg]%orb_false_iff Ht].
  apply negb_false_iff in Hm, Hv. apply orb_false_iff in E5 as [Hw Hw'].
  apply negb_false_iff in Hw, Hw'. apply same_world_opt_spec in Hw, Hw'.
  destruct (goalMatches_some _ _ Hm) as (sg & sc' & -> & [= <-]).
  exists sg, sc. breflect. destruct_and?. split_and!; try done; try lia; try congruence.
  intros [? Hs]. destruct E7 as [E7|]; [congruence|lia].
Qed.

Lemma stage_guard_none tok anchor g c a :
  stage_guard tok anchor g c a = None ->
  exists sg sc pred, g = Some sg /\ c = Some sc /\ active_bundle a = Some pred /\
    bundle_ok (world_identity_ a) sg sc /\
    (admission_goal_epoch_ a <> 0 /\ tok_goal_epoch tok = admission_goal_epoch_ a /\
     b_goal_epoch (sp_obj sc) = admission_goal_epoch_ a) /\
    exposure (lifecycle_ a) <> kFailed /\
    world_identity_ a = Some (tok_world_identity tok) /\
    last_transaction_id_ a < tok_transaction_id tok /\
    (ExecutionAnchor_valid anchor = true /\ b_valid_from_ns (sp_obj sc) = an_activation_stamp_ns anchor /\
     active_lineage_version_ a = an_execution_lineage_version anchor /\
     predecessorMatchesAnchor (sp_obj pred) anchor = true).
Proof.
  unfold stage_guard. destruct c as [sc|]; [|done].
  destruct (_ || _ || _ || _) eqn:E1; [done|].
  destruct (negb (ExecutionAnchor_valid anchor) || _ || _ || _ || _) eqn:E2; [done|].
  destruct (admission_goal_epoch_ a =? 0) eqn:E3; [done|].
  destruct (_ ==? kFailed) eqn:E4; [done|].
  destruct (negb (admission_goal_epoch_ a =? _) || _) eqn:E5; [done|].
  destruct (negb (same_world_opt _ _)) eqn:E6; [done|].
  destruct (tok_transaction_id _ <=? _) eqn:E7; [done|]. destruct ((_ <? _) || (_ <? _)) eqn:E8; [done|].
  destruct (active_bundle a) as [pred|]; [|done].
  destruct (negb (active_lineage_version_ a =? _) || _) eqn:E9; [done|]. intros _.
  apply orb_false_iff in E1 as [[[Hm Hv]%orb_false_iff Hg]%orb_false_iff Ht].
  apply negb_false_iff in Hm, Hv, E6. apply same_world_opt_spec in E6.
  destruct (goalMatches_some _ _ Hm) as (sg & sc' & -> & [= <-]).
  exists sg, sc, pred. breflect. destruct_and?. unfold bundle_ok; split_and!; try done; try lia; congruence.
Qed.

(** ** Preservation by the transactions *)

(** The lifecycle a commit leaves: unchanged or that of the new command. *)
Lemma committedLifecycle_cases b prev a :
  committedLifecycleLocked b prev a = a \/
  exposure (lifecycle_ a) <> kFailed /\ is_Some (active_goal a) /\ prev < b_bundle_generation b /\
  committedLifecycleLocked b prev a =
    set_lifecycle (committed_lifecycle (b_role b) (lifecycle_ a)) a.
Proof.
  unfold committedLifecycleLocked. destruct (_ || _ || _ || _) eqn:E; [by left|].
  destruct (active_goal a) as [g|]; [|by left].
  destruct (negb (g_request_id _ =? _)); [by left|right]. breflect. destruct_and?. split_and!; try done; lia.
Qed.

Lemma inv_committedLifecycle b prev a : inv a -> inv (committedLifecycleLocked b prev a).
Proof.
  intros Hi. destruct (committedLifecycle_cases b prev a) as [->|(_ & Hg & _ & ->)]; [done|].
  apply inv_set_lifecycle; [done| |done]. intros _. pose proof (inv_active a Hi) as Ha.
  unfold active_ok in Ha. destruct Hg as [g Hg]. rewrite Hg in Ha. by destruct (active_bundle a).
Qed.

Lemma inv_set_active g b a :
  inv a -> bundle_ok (world_identity_ a) g b -> inv (set_active (mkActive (Some g) (Some b)) a).
Proof. intros [] ?. constructor; simpl; eauto. Qed.

Lemma inv_set_staged g b t a :
  inv a -> bundle_ok (world_identity_ a) g b -> is_Some (active_bundle a) ->
  b_goal_epoch (sp_obj b) = admission_goal_epoch_ a -> t = b_valid_from_ns (sp_obj b) ->
  inv (set_staged (mkStaged (Some g) (Some b) t) a).
Proof. intros [] ? ? ? ?. constructor; simpl; done. Qed.

Lemma inv_commit_swap tok g c a :
  inv a -> commit_guard tok g c a = None -> inv (commit_swap tok g c a).
Proof.
  intros Hi (sg & sc & -> & -> & Hok & _)%commit_guard_none. unfold commit_swap.
  apply inv_bump_timeline, inv_set_transaction, inv_clear_staged, inv_committedLifecycle.
  by apply inv_set_active.
Qed.

Lemma inv_stage_install tok anchor g c a :
  inv a -> stage_guard tok anchor g c a = None -> inv (stage_install tok anchor g c a).
Proof.
  intros Hi (sg & sc & p & -> & -> & Hp & Hok & (_ & _ & He) & _ & _ & _ & _ & Hf & _)%stage_guard_none.
  apply inv_bump_timeline, inv_set_transaction. apply inv_set_staged; done.
Qed.

Lemma commit_swap_admission tok g c a :
  admission_goal_epoch_ (commit_swap tok g c a) = admission_goal_epoch_ a /\
  world_identity_ (commit_swap tok g c a) = world_identity_ a /\
  active_lineage_version_ (commit_swap tok g c a) = active_lineage_version_ a /\
  timeline_version_ (commit_swap tok g c a) = u64_inc (timeline_version_ a) /\
  admission_localization_epoch_ (commit_swap tok g c a) = admission_localization_epoch_ a /\
  active_ (commit_swap tok g c a) = mkActive g c /\
  staged_ (commit_swap tok g c a) = mkStaged None None 0 /\
  last_transaction_id_ (commit_swap tok g c a) = tok_transaction_id tok.
Proof.
  unfold commit_swap. destruct c as [c|]; [|done].
  destruct (committedLifecycle_cases (sp_obj c) (field_or_zero b_bundle_generation (active_bundle a))
    (set_active (mkActive g (Some c)) a)) as [->|(_ & _ & _ & ->)]; done.
Qed.

(** A rejected finalizer restores everything but the version. *)
Lemma commit_rollback_eq tok g c a :
  bump_timeline (set_transaction (last_transaction_id_ a)
    (set_staged (staged_ a) (set_active (active_ a)
      (set_lifecycle (lifecycle_ a) (commit_swap tok g c a))))) =
  bump_timeline (bump_timeline a).
Proof.
  pose proof (commit_swap_admission tok g c a) as (E1 & E2 & E3 & E4 & E5 & _).
  destruct a as [? ? ? ? ? ? ? ? ?]. unfold bump_timeline, set_transaction, set_staged, set_active,
    set_lifecycle in *. cbn in *. congruence.
Qed.

Lemma stage_rollback_eq tok anchor g c a :
  bump_timeline (set_transaction (last_transaction_id_ a)
    (set_staged (staged_ a) (stage_install tok anchor g c a))) =
  bump_timeline (bump_timeline a).
Proof. by destruct a. Qed.

(** ** Preservation by the world publication *)

Lemma prepare_some src next until addr r :
  prepare src next until addr = Some r ->
  exists u, sp_obj r = recertify_fields src next u /\ CandidateBundle_valid (sp_obj r) = true /\
    (u = b_valid_until_ns src \/ b_valid_until_ns src < until /\ u <= until).
Proof.
  unfold prepare. destruct addr as [addr|]; [|done].
  set (renewed := if b_valid_until_ns src <? until then _ else _).
  destruct renewed as [u|] eqn:Er; [|done].
  destruct (negb (CandidateBundle_valid _)) eqn:Ev; [done|]. intros [= <-]. exists u.
  split_and!; [done|by apply negb_false_iff in Ev|]. unfold renewed in Er.
  destruct (_ <? until) eqn:E1; [|left; congruence]. apply Z.ltb_lt in E1. right.
  destruct (hasDeclaredEndpointMetadata src); [|injection Er as <-; lia].
  destruct (secondsSumToNanoseconds _ _) as [e|]; [|done].
  destruct (e <=? 0); [done|]. injection Er as <-. lia.
Qed.

(** A recertified copy keeps the bundle's ownership and takes the new world. *)
Lemma prepare_bundle_ok w src g next until addr r :
  bundle_ok w g src -> prepare (sp_obj src) next until addr = Some r ->
  bundle_ok (Some next) g r /\ b_goal_epoch (sp_obj r) = b_goal_epoch (sp_obj src) /\
  b_valid_from_ns (sp_obj r) = b_valid_from_ns (sp_obj src) /\
  b_bundle_generation (sp_obj r) = b_bundle_generation (sp_obj src).
Proof.
  intros (Hm & _ & _) (u & Hr & Hv & _)%prepare_some.
  unfold bundle_ok. simpl in *. rewrite Hr in *. by split_and!.
Qed.

Lemma publish_observe_inr req obs plan :
  publish_observe req obs = inr plan ->
  pl_prior_world plan = world_identity_ obs /\
  pl_observed_active plan = active_bundle obs /\ pl_observed_pending plan = staged_bundle obs /\
  pl_active_preparation_failed plan =
    pl_prepare_active plan && negb (has (pl_recertified_active plan)) /\
  (forall r, pl_recertified_active plan = Some r -> exists b, active_bundle obs = Some b /\
     prepare (sp_obj b) (pub_identity req) (pub_refreshed_until_ns req) (pub_active_address req)
       = Some r) /\
  (forall r, pl_recertified_pending plan = Some r -> exists b, staged_bundle obs = Some b /\
     prepare (sp_obj b) (pub_identity req) 0 (pub_pending_address req) = Some r) /\
  publish_identity_ok (pub_identity req) = true /\
  timeline_version_ obs = pub_expected_version req.
Proof.
  unfold publish_observe. destruct (negb (publish_identity_ok _)) eqn:E1; [done|].
  destruct (negb (timeline_version_ obs =? _)) eqn:E2; [done|].
  destruct (negb (world_advances _ _)) eqn:E3; [done|]. intros [= <-]. cbn.
  breflect. split_and!; try done.
  - intros r. destruct (active_bundle obs) as [b|]; [|done].
    destruct (pub_retain_bundle req && _); [|done]. eauto.
  - intros r. destruct (staged_bundle obs) as [b|]; [|done].
    match goal with |- (if ?c then _ else _) = _ -> _ => destruct c end; [|done]. eauto.
Qed.

(** The record an ABA-free pointer comparison identifies. *)
Lemma same_get_live {A} (p q : ptr A) : aliased p q -> same_get p q = true -> p = q.
Proof. intros Ha Hg. apply Ha. by apply same_get_true. Qed.

Lemma inv_revokeActive a :
  inv a -> inv (revokeActive (clearStagedLocked a)).
Proof.
  intros Hi. unfold revokeActive. cbn.
  assert (Hc : has (active_bundle a) = false -> inv (set_active (mkActive None None) (clearStagedLocked a))).
  { intros Hb. destruct Hi. constructor; simpl; try done; try (by intros [? ?]).
    intros E. destruct (inv_available0 E) as [? Hs]. by rewrite Hs in Hb. }
  destruct (has (active_bundle a)); cbn [when]; [|by apply Hc].
  destruct Hi. constructor; simpl; try done; auto with nav; by intros [? ?].
Qed.

Lemma inv_set_world w a :
  inv a -> active_bundle a = None -> inv (set_world w (clearStagedLocked a)).
Proof.
  intros [] Hb. constructor; simpl; try done.
  unfold active_ok in *. rewrite Hb in *. by destruct (active_goal a).
Qed.

Lemma revokeActive_clears a : active_bundle (revokeActive a) = None.
Proof. unfold revokeActive. by destruct (has (active_bundle a)). Qed.

Lemma revokeActive_clear_comm a :
  clearStagedLocked (revokeActive a) = revokeActive (clearStagedLocked a).
Proof. unfold revokeActive. cbn. by destruct (has (active_bundle a)). Qed.

(** The retained command and, when it survives, its successor, both moved to the
    new world. *)
Lemma inv_recertify g b a w ra (p : StagedRecord) :
  inv a -> active_ a = mkActive (Some g) (Some b) ->
  bundle_ok (Some w) g ra -> staged_ok (Some w) (admission_goal_epoch_ a) p ->
  inv (set_world (Some w) (set_staged p (set_active (mkActive (Some g) (Some ra)) a))).
Proof. intros [] ? ? ?. constructor; simpl; done. Qed.

Lemma inv_publish_retained req obs plan a r :
  inv a -> publish_observe req obs = inr plan ->
  active_bundle a = active_bundle obs -> staged_bundle a = staged_bundle obs ->
  pl_recertified_active plan = Some r ->
  inv (set_world (Some (pub_identity req))
    (let a1 := set_active (mkActive (active_goal a) (pl_recertified_active plan)) a in
     if has (pl_recertified_pending plan)
     then set_staged (mkStaged (staged_goal a1) (pl_recertified_pending plan) (staged_activation a1)) a1
     else clearStagedLocked a1)).
Proof.
  intros Hi (_ & _ & _ & _ & Hra & Hrp & _)%publish_observe_inr Ea Es Hr.
  destruct (Hra r Hr) as (b & Hb & Hprep). rewrite <- Ea in Hb. rewrite Hr.
  pose proof (inv_active a Hi) as Hok. unfold active_ok in Hok. rewrite Hb in Hok.
  destruct (active_goal a) as [g|] eqn:Hg; [|done].
  destruct (prepare_bundle_ok _ _ _ _ _ _ _ Hok Hprep) as (Hok' & _).
  assert (Hact : active_ a = mkActive (Some g) (Some b)).
  { destruct (active_ a); simpl in *; congruence. }
  destruct (pl_recertified_pending plan) as [rp|] eqn:Hp; cbn [has].
  - destruct (Hrp rp eq_refl) as (sb & Hsb & Hsprep). rewrite <- Es in Hsb.
    pose proof (inv_staged a Hi) as Hst. unfold staged_ok in Hst. rewrite Hsb in Hst.
    cbn. destruct (staged_goal a) as [sg|]; [|done]. destruct Hst as (Hsok & He & Hf).
    destruct (prepare_bundle_ok _ _ _ _ _ _ _ Hsok Hsprep) as (Hsok' & He' & Hf' & _).
    apply (inv_recertify g b); try done. cbn. split_and!; congruence || done.
  - by apply (inv_recertify g b a _ r (mkStaged None None 0)).
Qed.

Lemma inv_publish_finish req obs plan a :
  inv a -> aliased (active_bundle a) (active_bundle obs) ->
  aliased (staged_bundle a) (staged_bundle obs) ->
  publish_observe req obs = inr plan -> inv (snd (fst (publish_finish req plan a))).
Proof.
  intros Hi Hla Hls Hobs.
  pose proof (publish_observe_inr _ _ _ Hobs) as (_ & Ea & Es & Hfail & _).
  unfold publish_finish. destruct (_ || _ || _ || _) eqn:E1; [done|].
  destruct (negb (world_advances _ _)); [done|].
  apply orb_false_iff in E1 as [[[_ E2]%orb_false_iff E3]%orb_false_iff _].
  apply negb_false_iff in E2, E3. rewrite Ea in E2. rewrite Es in E3.
  apply same_get_live in E2, E3; try done.
  destruct (pl_active_preparation_failed plan) eqn:Ef; cbn [fst snd].
  { by apply inv_bump_timeline, inv_revokeActive. }
  apply inv_bump_timeline. destruct (pl_prepare_active plan); cbn [andb] in *.
  - destruct (pl_recertified_active plan) as [r|] eqn:Er; [|done].
    pose proof (inv_publish_retained req obs plan a r Hi Hobs E2 E3 Er) as Hres.
    rewrite Er in Hres. by destruct (has (pl_recertified_pending plan)).
  - pose proof (revokeActive_clears a) as Hc. cbn [andb].
    change (active_bundle (clearStagedLocked ?x)) with (active_bundle x). rewrite Hc.
    cbn [has negb when]. apply inv_set_world; [|done].
    rewrite revokeActive_clear_comm. by apply inv_revokeActive.
Qed.

(** ** Preservation by the activation *)

Lemma activation_coherent_spec now a :
  activation_coherent now a = true ->
  exists sg sb ag ab, staged_goal a = Some sg /\ staged_bundle a = Some sb /\
    active_goal a = Some ag /\ active_bundle a = Some ab /\
    world_identity_ a = Some (b_world_identity (sp_obj sb)) /\
    world_identity_ a = Some (b_world_identity (sp_obj ab)) /\
    admission_goal_epoch_ a = b_goal_epoch (sp_obj sb) /\
    now <= b_valid_until_ns (sp_obj sb) /\ CandidateBundle_valid (sp_obj sb) = true.
Proof.
  unfold activation_coherent.
  destruct (staged_goal a) as [sg|], (active_goal a) as [ag|], (staged_bundle a) as [sb|],
    (active_bundle a) as [ab|]; try done.
  intros Hc. repeat (apply andb_true_iff in Hc as [Hc ?]).
  exists sg, sb, ag, ab. breflect.
  repeat match goal with Hw : same_world_opt _ _ = true |- _ => apply same_world_opt_spec in Hw end.
  by split_and!.
Qed.

(** Every outcome of the activation step. *)
Inductive activation_outcome (now : Z) (fin : Z -> callback_outcome) (a : ExecutionAuthority)
  : bool -> ExecutionAuthority -> Prop :=
| act_unchanged : activation_outcome now fin a false a
| act_discarded : activation_outcome now fin a false (clear_staged_and_bump a)
| act_rejected sb :
    staged_bundle a = Some sb -> activation_coherent now a = true ->
    callback_ok (fin (b_bundle_generation (sp_obj sb))) = false ->
    activation_outcome now fin a false (clear_staged_and_bump (bump_timeline a))
| act_activated sb :
    staged_bundle a = Some sb -> activation_coherent now a = true ->
    callback_ok (fin (b_bundle_generation (sp_obj sb))) = true ->
    exposure (lifecycle_ a) <> kFailed ->
    0 < staged_activation a <= now ->
    activation_outcome now fin a true
      (bump_lineage (committedLifecycleLocked (sp_obj sb)
         (field_or_zero b_bundle_generation (active_bundle a))
         (clear_staged_and_bump (set_active (mkActive (staged_goal a) (staged_bundle a)) a)))).

Lemma activation_rollback_eq r a :
  is_Some (active_bundle a) ->
  bump_timeline (enforceInvariantLocked (clearStagedLocked
    (set_active (active_ a) (set_lifecycle (lifecycle_ a)
       (clear_staged_and_bump (set_active r a)))))) =
  clear_staged_and_bump (bump_timeline a).
Proof.
  intros [b Hb]. unfold enforceInvariantLocked. cbn. rewrite Hb. by destruct a.
Qed.

Lemma activate_outcome now p v t rq fin a :
  activation_outcome now fin a
    (fst (activatePendingIfDueAndFinalizeLocked now p v t rq fin a))
    (snd (activatePendingIfDueAndFinalizeLocked now p v t rq fin a)).
Proof.
  unfold activatePendingIfDueAndFinalizeLocked.
  destruct (exposure (lifecycle_ a) ==? kFailed) eqn:Ef; [constructor|].
  destruct (has (staged_bundle a) && _); [constructor|].
  destruct (staged_bundle a) as [sb|] eqn:Es; [|constructor].
  destruct ((staged_activation a <=? 0) || _) eqn:Et; [constructor|].
  destruct (rq && _); [constructor|]. destruct (has p && _); [constructor|].
  destruct (activation_coherent now a) eqn:Ec; cbn [negb]; [|constructor].
  pose proof (activation_coherent_spec _ _ Ec) as (sg & sb' & ag & ab & _ & _ & _ & Hab & _).
  destruct (callback_ok _) eqn:Ecb; cbn [negb].
  - rewrite <- Es. breflect. by apply act_activated; try done; lia.
  - rewrite activation_rollback_eq by done. by apply (act_rejected _ _ _ sb).
Qed.

Lemma inv_activation_outcome now fin a r a' :
  inv a -> activation_outcome now fin a r a' -> inv a'.
Proof.
  intros Hi Ho. destruct Ho as [| |sb Hs Hc Hf|sb Hs Hc Hf Hx Ht];
    unfold clear_staged_and_bump; auto 6 with nav.
  apply activation_coherent_spec in Hc as (sg & sb' & _ & _ & Hg & Hs' & _).
  pose proof (inv_staged a Hi) as Hok. unfold staged_ok in Hok. rewrite Hg, Hs' in Hok.
  apply inv_bump_lineage, inv_committedLifecycle, inv_bump_timeline, inv_clear_staged.
  rewrite Hg, Hs'. apply inv_set_active; [done|]. apply Hok.
Qed.

(** ** Every operation preserves the invariant *)

(** The empty records under any scope. *)
Lemma inv_cleared a l :
  is_u64 (timeline_version_ a) -> is_u64 (active_lineage_version_ a) ->
  active_ a = mkActive None None -> staged_ a = mkStaged None None 0 ->
  lifecycle_ a = l -> exposure l <> kAvailable -> (exposure l = kFailed -> l = failed_lifecycle) ->
  inv a.
Proof.
  intros ? ? Ha Hs Hl ? ?. constructor; rewrite ?Ha, ?Hs, ?Hl; try done; by intros [? ?].
Qed.

(** The retained record under a new scope. *)
Lemma inv_rescope g l a :
  inv a -> inv (set_admission g l (clearStagedLocked a)).
Proof. intros. apply inv_set_admission; auto with nav. Qed.

Lemma inv_setAdmissionGoalEpoch e r a : inv a -> inv (snd (setAdmissionGoalEpoch e r a)).
Proof.
  intros Hi. unfold setAdmissionGoalEpoch. do 2 (guard_case; [done|]). cbn [snd].
  apply inv_bump_timeline. unfold enforceInvariantLocked.
  set (l := match world_identity_ a with Some _ => _ | None => _ end).
  match goal with |- inv (if _ then _ else ?x) =>
    assert (inv x); [|by destruct (negb (has (active_bundle x))); auto with nav] end.
  destruct r; cbn [negb andb when]; [by apply (inv_rescope e l a)|].
  destruct (has (active_bundle (set_admission e l a))) eqn:Hb; cbn [when].
  - destruct Hi. apply inv_cleared with Lifecycle_default; try done; simpl; auto with nav;
      unfold clearActiveLocked; simpl; by destruct (_ ==? _); auto with nav.
  - pose proof (inv_rescope e l a Hi) as Hi'. by apply inv_default_lifecycle in Hi'.
Qed.

Lemma inv_beginGoal l e r a : inv a -> inv (snd (beginGoal l e r a)).
Proof.
  intros Hi. unfold beginGoal. do 2 (guard_case; [done|]). cbn [snd]. apply inv_bump_timeline.
  set (retain := _ && _). destruct retain; cbn [negb when]; [by apply (inv_rescope e l a)|].
  destruct Hi. apply inv_cleared with Lifecycle_default; try done; simpl; unfold clearActiveLocked, when;
    repeat (case_match; simpl); auto with nav; done.
Qed.

Lemma inv_reset l a : inv a -> inv (reset l a).
Proof.
  intros []. apply inv_cleared with Lifecycle_default; try done; unfold reset, clearActiveLocked, when; simpl;
    repeat (case_match; simpl); auto with nav; done.
Qed.

Lemma inv_invalidate a : inv a -> inv (invalidate a).
Proof.
  intros []. apply inv_cleared with Lifecycle_default; try done; unfold invalidate, enforceInvariantLocked,
    clearActiveLocked, when; simpl; repeat (case_match; simpl); auto with nav; done.
Qed.

Lemma inv_failClosed a : inv a -> inv (failClosed a).
Proof. intros. by apply inv_note, inv_set_lifecycle. Qed.

Lemma inv_suspend a :
  inv a -> exposure (lifecycle_ a) <> kFailed -> inv (update_lifecycle (set_exposure kSuspended) a).
Proof. intros. by apply inv_update. Qed.

Lemma inv_owned_op (f : ExecutionLifecycleState -> ExecutionLifecycleState) (c : bool) a b r :
  inv a -> (forall l, exposure l <> kFailed -> exposure (f l) <> kFailed) ->
  (c = false -> owns_live a b = true) ->
  inv (snd (if c then (false, a) else (r, update_lifecycle f a))).
Proof. intros Hi Hf Hc. destruct c; [done|]. apply (inv_update_owned f a b); auto. Qed.

Lemma inv_transactions a :
  inv a ->
  (forall tok g c, inv (snd (tryCommit tok g c a))) /\
  (forall tok p g c adm, inv (snd (tryCommitIfCurrent tok p g c adm a))) /\
  (forall tok g c fin, inv (snd (tryCommitAndFinalize tok g c fin a))) /\
  (forall tok an g c, inv (snd (stagePending tok an g c a))) /\
  (forall tok an g c fin, inv (snd (stagePendingAndFinalize tok an g c fin a))).
Proof.
  intros Hi. split_and!; intros.
  - unfold tryCommit. destruct (commit_guard _ _ _ _) eqn:E; [done|].
    by apply inv_bump_lineage, inv_commit_swap.
  - unfold tryCommitIfCurrent. destruct (commit_guard _ _ _ _) eqn:E; [done|].
    destruct (_ || _); [done|]. destruct (negb _); [done|].
    by apply inv_bump_lineage, inv_commit_swap.
  - unfold tryCommitAndFinalize. destruct (commit_guard _ _ _ _) eqn:E; [done|].
    destruct (negb _); cbn [snd]; [|by apply inv_bump_lineage, inv_commit_swap].
    rewrite commit_rollback_eq. auto with nav.
  - unfold stagePending. destruct (stage_guard _ _ _ _ _) eqn:E; [done|]. by apply inv_stage_install.
  - unfold stagePendingAndFinalize. destruct (stage_guard _ _ _ _ _) eqn:E; [done|].
    destruct (negb _); cbn [snd]; [|by apply inv_stage_install].
    rewrite stage_rollback_eq. auto with nav.
Qed.

Lemma inv_invalidateIfCurrent s a : inv a -> inv (snd (invalidateIfCurrent s a)).
Proof.
  intros Hi. unfold invalidateIfCurrent. destruct (_ || _); [done|]. cbn [snd].
  apply inv_bump_timeline. by apply (inv_bump_lineage (clearStagedLocked (clearActiveLocked a))), inv_clear_all.
Qed.

(** Every operation keeps the invariant. *)
Lemma inv_auth_step a o : inv a -> op_live a o -> inv (auth_step a o).
Proof.
  intros Hi Hl. pose proof (inv_transactions a Hi) as (Ht1 & Ht2 & Ht3 & Ht4 & Ht5).
  destruct o; cbn [auth_step op_live] in *; try apply inv_setAdmissionGoalEpoch;
    try apply inv_beginGoal; try apply inv_reset; try apply inv_invalidate; try apply inv_failClosed;
    try apply inv_invalidateIfCurrent; auto.
  - unfold suspendCommand. destruct (_ !=? kFailed) eqn:E; [|done]. breflect. by apply inv_suspend.
  - apply (inv_owned_op _ _ _ b true); [done|done|]. by destruct (owns_live a b).
  - apply (inv_owned_op _ _ _ b true); [done|done|]. by destruct (owns_live a b).
  - unfold preserveSafetySuffix. destruct (_ || _) eqn:E; [done|]. apply inv_update; [done| |].
    + intros Ha. by apply inv_available in Ha.
    + breflect. destruct E as [E _]. intros Ha. cbn in Ha. congruence.
  - apply (inv_owned_op _ _ _ b true); [done|done|]. by destruct (owns_live a b).
  - unfold clearRestartFromRest. destruct (_ !=? _) eqn:E; [|done]. apply inv_update; [done| |].
    + intros Ha. by apply inv_available in Ha.
    + intros Ha. cbn in Ha. breflect. rewrite (inv_failed a Hi Ha) in E. done.
  - apply (inv_owned_op _ _ _ b true); [done|done|]. by destruct (owns_live a b).
  - apply (inv_owned_op _ _ _ b true); [done|done|]. by destruct (owns_live a b).
  - unfold failClosedIfCurrentSnapshot. destruct (negb _); [done|]. destruct (_ ==? _); [done|].
    by apply inv_failClosed.
  - unfold suspendIfCurrentSnapshot. destruct (_ || _) eqn:E; [done|]. breflect.
    apply inv_suspend; tauto.
  - destruct (publish_observe req observed) as [|plan] eqn:E; [done|].
    destruct Hl. by apply (inv_publish_finish _ observed).
  - eapply inv_activation_outcome; [done|]. apply activate_outcome.
Qed.

Lemma reachable_inv a : reachable a -> inv a.
Proof. induction 1; auto using inv_init, inv_auth_step. Qed.

(** ** The version counter *)

(** What an operation does to the counter: nothing at all happened, or it moved
    by one or two. *)
Definition versioned (a a' : ExecutionAuthority) : Prop :=
  a' = a \/
  timeline_version_ a' = u64_inc (timeline_version_ a) \/
  timeline_version_ a' = u64_inc (u64_inc (timeline_version_ a)).

Lemma set_lifecycle_id a : set_lifecycle (lifecycle_ a) a = a.
Proof. by destruct a. Qed.

Lemma versioned_note l a : versioned a (noteLifecycleChangeLocked (lifecycle_ a) (set_lifecycle l a)).
Proof.
  unfold noteLifecycleChangeLocked, versioned. cbn. destruct (l ==? lifecycle_ a) eqn:E; cbn.
  - breflect. subst l. left. apply set_lifecycle_id.
  - by right; left.
Qed.

Lemma versioned_update f a : versioned a (update_lifecycle f a).
Proof. apply versioned_note. Qed.

Lemma versioned_if (c : bool) {A} (r r' : A) a a' :
  versioned a a' -> versioned a (snd (if c then (r, a) else (r', a'))).
Proof. intros. destruct c; [by left|done]. Qed.
#[local] Hint Resolve versioned_note versioned_update versioned_if : nav.

Lemma committedLifecycle_timeline b p a :
  timeline_version_ (committedLifecycleLocked b p a) = timeline_version_ a.
Proof. by destruct (committedLifecycle_cases b p a) as [->|(_ & _ & _ & ->)]. Qed.

Lemma versioned_activation now fin a r a' : activation_outcome now fin a r a' -> versioned a a'.
Proof.
  intros [| |sb ? ? ?|sb ? ? ? ? ?]; unfold versioned; cbn; auto.
  rewrite committedLifecycle_timeline. auto.
Qed.

Lemma versioned_revoke a : timeline_version_ (revokeActive a) = timeline_version_ a.
Proof. unfold revokeActive. by destruct (has (active_bundle a)). Qed.

Lemma versioned_publish req plan a : versioned a (snd (fst (publish_finish req plan a))).
Proof.
  unfold publish_finish. destruct (_ || _ || _ || _); [by left|].
  destruct (negb (world_advances _ _)); [by left|]. right; left.
  destruct (pl_active_preparation_failed plan); cbn [fst snd bump_timeline timeline_version_].
  - by rewrite versioned_revoke.
  - f_equal. unfold when. destruct (pl_prepare_active plan); cbn;
      repeat (match goal with |- context [if ?c then _ else _] => destruct c end; cbn);
      by rewrite ?versioned_revoke.
Qed.

Lemma versioned_episode a :
  (forall e r, versioned a (snd (setAdmissionGoalEpoch e r a))) /\
  (forall l e r, versioned a (snd (beginGoal l e r a))) /\
  (forall l, versioned a (reset l a)) /\ versioned a (invalidate a).
Proof.
  split_and!; intros; unfold setAdmissionGoalEpoch, beginGoal, reset, invalidate,
    enforceInvariantLocked, clearActiveLocked, when;
    repeat (case_match; cbn [snd]; try (by left)); right; left; reflexivity.
Qed.

Lemma versioned_transactions a :
  (forall tok g c, versioned a (snd (tryCommit tok g c a))) /\
  (forall tok p g c adm, versioned a (snd (tryCommitIfCurrent tok p g c adm a))) /\
  (forall tok g c fin, versioned a (snd (tryCommitAndFinalize tok g c fin a))) /\
  (forall tok an g c, versioned a (snd (stagePending tok an g c a))) /\
  (forall tok an g c fin, versioned a (snd (stagePendingAndFinalize tok an g c fin a))).
Proof.
  assert (Hc : forall tok g c, versioned a (bump_lineage (commit_swap tok g c a))).
  { intros. right; left. by pose proof (commit_swap_admission tok g c a) as (_ & _ & _ & ? & _). }
  split_and!; intros.
  - unfold tryCommit. destruct (commit_guard _ _ _ _); [by left|apply Hc].
  - unfold tryCommitIfCurrent. destruct (commit_guard _ _ _ _); [by left|].
    destruct (_ || _); [by left|]. destruct (negb _); [by left|apply Hc].
  - unfold tryCommitAndFinalize. destruct (commit_guard _ _ _ _); [by left|].
    destruct (negb _); cbn [snd]; [|apply Hc]. rewrite commit_rollback_eq. by right; right.
  - unfold stagePending. destruct (stage_guard _ _ _ _ _); [by left|by right; left].
  - unfold stagePendingAndFinalize. destruct (stage_guard _ _ _ _ _); [by left|].
    destruct (negb _); cbn [snd]; [|by right; left]. rewrite stage_rollback_eq. by right; right.
Qed.

Lemma versioned_auth_step a o : versioned a (auth_step a o).
Proof.
  pose proof (versioned_transactions a) as (? & ? & ? & ? & ?).
  pose proof (versioned_episode a) as (? & ? & ? & ?).
  destruct o; cbn [auth_step]; auto; try (apply versioned_note);
    unfold suspendCommand, observeRetainedCommand, observeSampledSafetyRole, preserveSafetySuffix,
      requestRestartFromRest, clearRestartFromRest, applyRecoveryEvent, stoppedHold,
      suspendIfCurrentSnapshot; try (apply versioned_if, versioned_update).
  - destruct (_ !=? _); [apply versioned_update|by left].
  - destruct (_ !=? _); [apply versioned_update|by left].
  - unfold failClosedIfCurrentSnapshot. destruct (negb _); [by left|]. destruct (_ ==? _); [by left|].
    apply versioned_note.
  - unfold invalidateIfCurrent. apply versioned_if. right; left.
    unfold clearActiveLocked. by destruct (_ ==? _).
  - destruct (publish_observe _ _); [by left|apply versioned_publish].
  - eapply versioned_activation, activate_outcome.
Qed.

(** Over a run the counter moves by at most two per operation, and not at all
    only when nothing happened. *)
Lemma version_run a ops :
  is_u64 (timeline_version_ a) ->
  exists k, 0 <= k <= 2 * Z.of_nat (length ops) /\
    timeline_version_ (run auth_step a ops) = (timeline_version_ a + k) mod 2 ^ 64 /\
    (k = 0 -> run auth_step a ops = a).
Proof.
  revert a. induction ops as [|o ops IH]; intros a Ha; simpl.
  - exists 0. split_and!; try lia; [|done]. zlia.
  - assert (Hstep : exists k, 0 <= k <= 2 /\
      timeline_version_ (auth_step a o) = (timeline_version_ a + k) mod 2 ^ 64 /\
      (k = 0 -> auth_step a o = a)).
    { destruct (versioned_auth_step a o) as [->|[Hv|Hv]].
      - exists 0. split_and!; try done. zlia.
      - exists 1. by rewrite Hv.
      - exists 2. split_and!; try done. rewrite Hv. zlia. }
    destruct Hstep as (k1 & Hk1 & E1 & Z1).
    destruct (IH (auth_step a o)) as (k2 & Hk2 & E2 & Z2); [rewrite E1; zlia|].
    exists (k1 + k2). split_and!; [lia|lia| |].
    + rewrite E2, E1, Zplus_mod_idemp_l. f_equal; lia.
    + intros. rewrite (Z2 ltac:(lia)). apply Z1. lia.
Qed.
End AuthorityRuns.

#[export] Hint Resolve inv_bump_timeline inv_bump_lineage inv_set_transaction inv_clear_staged
  inv_note inv_when reachable_inv : nav.
