(* ===== verification/AuthorityProps.v ===== *)
(** * What the execution authority guarantees

    Properties of every state the operations of [Authority] reach, and the
    refinement of an abstract command slot: one world, at most one command
    certified for it, at most one successor. *)

From S2P Require Import Prelude Float64 TimeNs Geometry World Candidate Messages Lifecycle.
From S2P Require Import Authority AuthorityInv.

(** ** A concrete execution for the witnesses *)

Definition demo_goal : NavigationGoal :=
  mkGoal "mission" 0 1 vec3_zero f64_1 BEHAVIOR_STOP false vec3_zero RouteSnapshot_default.
Definition demo_goal_ptr : GoalPtr := Some (Shared 1 demo_goal).
Definition demo_bundle_ptr : BundlePtr := Some (Shared 2 demo_bundle).
Definition demo_token : CommitToken := mkToken demo_identity 1 1.
Definition demo_publish : PublishRequest :=
  mkPublish demo_identity 0 None false 0 None false None None.

(** A world, a goal and one committed command. *)
Definition demo_admitted : ExecutionAuthority :=
  @auth_step eigen_reference
    (@auth_step eigen_reference Authority_init (op_publishWorld demo_publish Authority_init))
    (op_beginGoal 1 1 false).

Definition demo_live : ExecutionAuthority :=
  @auth_step eigen_reference demo_admitted (op_tryCommit demo_token demo_goal_ptr demo_bundle_ptr).

Lemma demo_admitted_reachable : @reachable eigen_reference demo_admitted.
Proof.
  unfold demo_admitted. apply (@reach_step eigen_reference _ (op_beginGoal 1 1 false)); [|exact I].
  apply (@reach_step eigen_reference _ (op_publishWorld demo_publish Authority_init));
    [apply reach_init|].
  split; intros _; reflexivity.
Qed.

Lemma demo_live_reachable : @reachable eigen_reference demo_live.
Proof.
  unfold demo_live. generalize demo_admitted_reachable. generalize demo_admitted. intros a Ha.
  by apply (@reach_step eigen_reference a (op_tryCommit demo_token demo_goal_ptr demo_bundle_ptr)).
Qed.

Example demo_live_available :
  exposure (lifecycle_ demo_live) = kAvailable /\ get (active_bundle demo_live) = Some 2%positive.
Proof. split; vm_compute; reflexivity. Qed.

(** ** The abstract command slot *)

Record slot : Type := mkSlot {
  slot_world : option WorldSnapshotIdentity;
  slot_command : option (shared NavigationGoal * shared CandidateBundle);
  slot_successor : option (shared NavigationGoal * shared CandidateBundle);
  slot_visible : bool
}.

Section Properties.
Context `{EigenOps}.

(** The same trajectory for the same goal under another world. *)
Definition recertified (x y : shared NavigationGoal * shared CandidateBundle)
    (w : WorldSnapshotIdentity) : Prop :=
  fst y = fst x /\ bundle_ok (Some w) (fst y) (snd y) /\
  exists until, sp_obj (snd y) = recertify_fields (sp_obj (snd x)) w until.

(** Everything a step may do to the slot: keep it, install a certified command,
    stage, promote or drop the successor, show or hide the command, revoke it,
    or move to a later world with the command revoked or recertified. *)
Inductive slot_step : slot -> slot -> Prop :=
| slot_stutter s : slot_step s s
| slot_commit w c u v g b v' :
    bundle_ok w g b -> (c = None -> v = false) ->
    slot_step (mkSlot w c u v) (mkSlot w (Some (g, b)) None v')
| slot_stage w c u v g b :
    bundle_ok w g b ->
    slot_step (mkSlot w (Some c) u v) (mkSlot w (Some c) (Some (g, b)) v)
| slot_promote w c u v v' :
    slot_step (mkSlot w (Some c) (Some u) v) (mkSlot w (Some u) None v')
| slot_drop w c u v : slot_step (mkSlot w c u v) (mkSlot w c None v)
| slot_show w c u v v' :
    slot_step (mkSlot w (Some c) u v) (mkSlot w (Some c) u v')
| slot_hide w c u v : slot_step (mkSlot w c u v) (mkSlot w c u false)
| slot_revoke w c u v : slot_step (mkSlot w c u v) (mkSlot w None None false)
| slot_world_revoke w c u v w' :
    (forall x, w = Some x -> advances x w') ->
    slot_step (mkSlot w c u v) (mkSlot (Some w') None None false)
| slot_world_keep w c c' u u' v w' :
    (forall x, w = Some x -> advances x w') -> recertified c c' w' ->
    (u' = None \/ exists x y, u = Some x /\ u' = Some y /\ recertified x y w') ->
    slot_step (mkSlot w (Some c) u v) (mkSlot (Some w') (Some c') u' v).

Definition pair_opt {A B} (x : option A) (y : option B) : option (A * B) :=
  match x, y with Some a, Some b => Some (a, b) | _, _ => None end.

(** The slot a concrete state implements. *)
Definition abs (a : ExecutionAuthority) : slot :=
  mkSlot (world_identity_ a) (pair_opt (active_goal a) (active_bundle a))
    (pair_opt (staged_goal a) (staged_bundle a)) (exposure (lifecycle_ a) ==? kAvailable).

(** Hidden, or visible with the command the invariant promises. *)
Lemma inv_active_pair a :
  inv a ->
  (active_ a = mkActive None None /\ exposure (lifecycle_ a) <> kAvailable) \/
  exists g b, active_ a = mkActive (Some g) (Some b) /\ bundle_ok (world_identity_ a) g b.
Proof.
  intros Hi. pose proof (inv_active a Hi) as Ha. pose proof (inv_available a Hi) as Hv.
  unfold active_ok in Ha. destruct (active_ a) as [[g|] [b|]]; simpl in *; try done; [right; eauto|left].
  split; [done|]. intros E. by destruct (Hv E).
Qed.

Lemma inv_staged_pair a :
  inv a ->
  staged_ a = mkStaged None None 0 \/
  exists g b, staged_ a = mkStaged (Some g) (Some b) (b_valid_from_ns (sp_obj b)) /\
    bundle_ok (world_identity_ a) g b /\ b_goal_epoch (sp_obj b) = admission_goal_epoch_ a.
Proof.
  intros Hi. pose proof (inv_staged a Hi) as Ha. unfold staged_ok in Ha.
  destruct (staged_ a) as [[g|] [b|] t]; simpl in *; try done; [right|left; congruence].
  destruct Ha as (? & ? & ->). by exists g, b.
Qed.

(** Lifecycle-only changes show, hide or keep the command. *)
Lemma slot_lifecycle_only a a' :
  inv a -> inv a' -> world_identity_ a' = world_identity_ a -> active_ a' = active_ a ->
  staged_ a' = staged_ a -> slot_step (abs a) (abs a').
Proof.
  intros Hi Hi' Hw Ha Hs. unfold abs. rewrite Hw, Ha, Hs.
  destruct (inv_active_pair a Hi) as [[E Hx]|(g & b & E & _)].
  - destruct (inv_active_pair a' Hi') as [[_ Hx']|(g & b & E' & _)]; [|congruence].
    rewrite (bool_decide_eq_false_2 (exposure (lifecycle_ a') = kAvailable)) by done. apply slot_hide.
  - rewrite E. apply slot_show.
Qed.

(** Dropping the successor only. *)
Lemma slot_drop_staged a a' :
  world_identity_ a' = world_identity_ a -> active_ a' = active_ a ->
  staged_ a' = mkStaged None None 0 -> lifecycle_ a' = lifecycle_ a -> slot_step (abs a) (abs a').
Proof. intros Hw Ha Hs Hl. unfold abs. rewrite Hw, Ha, Hs, Hl. apply slot_drop. Qed.

(** Emptying both records. *)
Lemma slot_revoke_both a a' :
  world_identity_ a' = world_identity_ a -> active_ a' = mkActive None None ->
  staged_ a' = mkStaged None None 0 -> exposure (lifecycle_ a') <> kAvailable ->
  slot_step (abs a) (abs a').
Proof.
  intros Hw Ha Hs Hl. unfold abs. rewrite Hw, Ha, Hs.
  rewrite (bool_decide_eq_false_2 (exposure (lifecycle_ a') = kAvailable)) by done.
  apply slot_revoke.
Qed.

Lemma update_fields f a :
  world_identity_ (update_lifecycle f a) = world_identity_ a /\
  active_ (update_lifecycle f a) = active_ a /\ staged_ (update_lifecycle f a) = staged_ a.
Proof. unfold update_lifecycle, noteLifecycleChangeLocked. by destruct (_ !=? _). Qed.

Lemma slot_update f a :
  inv a -> inv (update_lifecycle f a) -> slot_step (abs a) (abs (update_lifecycle f a)).
Proof. intros. destruct (update_fields f a) as (? & ? & ?). by apply slot_lifecycle_only. Qed.

Lemma slot_episode a :
  inv a ->
  (forall e r, slot_step (abs a) (abs (snd (setAdmissionGoalEpoch e r a)))) /\
  (forall l e r, slot_step (abs a) (abs (snd (beginGoal l e r a)))) /\
  (forall l, slot_step (abs a) (abs (reset l a))) /\ slot_step (abs a) (abs (invalidate a)).
Proof.
  intros Hi. split_and!; intros.
  - unfold setAdmissionGoalEpoch. do 2 (guard_case; [apply slot_stutter|]). cbn [snd].
    destruct r; cbn [negb andb when].
    + apply slot_drop_staged; unfold enforceInvariantLocked; by destruct (negb _).
    + cbn. destruct (inv_active_pair a Hi) as [[E _]|(g & b & E & _)]; rewrite E; cbn [ac_bundle has when];
        apply slot_revoke_both; unfold enforceInvariantLocked, clearActiveLocked; cbn; rewrite ?E;
        try done; repeat (case_match; cbn); done.
  - unfold beginGoal. do 2 (guard_case; [apply slot_stutter|]). cbn [snd].
    match goal with |- context [when (negb ?x) _ _] => destruct x end; cbn [negb when].
    + by apply slot_drop_staged.
    + apply slot_revoke_both; unfold clearActiveLocked, when; repeat (case_match; cbn); done.
  - apply slot_revoke_both; unfold reset, clearActiveLocked, when; repeat (case_match; cbn); done.
  - apply slot_revoke_both; unfold invalidate, enforceInvariantLocked, clearActiveLocked, when;
      repeat (case_match; cbn); done.
Qed.

Lemma slot_commit_step tok g c a :
  inv a -> commit_guard tok g c a = None ->
  slot_step (abs a) (abs (bump_lineage (commit_swap tok g c a))).
Proof.
  intros Hi (sg & sc & -> & -> & Hok & _)%commit_guard_none.
  pose proof (commit_swap_admission tok (Some sg) (Some sc) a) as (_ & Hw & _ & _ & _ & Ha & Hs & _).
  unfold abs. cbn [bump_lineage world_identity_ active_ staged_ lifecycle_]. rewrite Hw, Ha, Hs.
  apply slot_commit; [done|]. intros Hn. apply bool_decide_eq_false_2. intros Hx.
  destruct (inv_active_pair a Hi) as [[_ ?]|(g' & b' & E & _)]; [done|]. by rewrite E in Hn.
Qed.

Lemma slot_stage_step tok an g c a :
  inv a -> stage_guard tok an g c a = None ->
  slot_step (abs a) (abs (stage_install tok an g c a)).
Proof.
  intros Hi (sg & sc & p & -> & -> & Hp & Hok & _)%stage_guard_none.
  destruct (inv_active_pair a Hi) as [[E _]|(g' & b' & E & _)]; [by rewrite E in Hp|].
  unfold abs, stage_install. cbn. rewrite E. by apply slot_stage.
Qed.

Lemma slot_transactions a :
  inv a ->
  (forall tok g c, slot_step (abs a) (abs (snd (tryCommit tok g c a)))) /\
  (forall tok p g c adm, slot_step (abs a) (abs (snd (tryCommitIfCurrent tok p g c adm a)))) /\
  (forall tok g c fin, slot_step (abs a) (abs (snd (tryCommitAndFinalize tok g c fin a)))) /\
  (forall tok an g c, slot_step (abs a) (abs (snd (stagePending tok an g c a)))) /\
  (forall tok an g c fin, slot_step (abs a) (abs (snd (stagePendingAndFinalize tok an g c fin a)))).
Proof.
  intros Hi. split_and!; intros.
  - unfold tryCommit. destruct (commit_guard _ _ _ _) eqn:E; [apply slot_stutter|].
    by apply slot_commit_step.
  - unfold tryCommitIfCurrent. destruct (commit_guard _ _ _ _) eqn:E; [apply slot_stutter|].
    destruct (_ || _); [apply slot_stutter|]. destruct (negb _); [apply slot_stutter|].
    by apply slot_commit_step.
  - unfold tryCommitAndFinalize. destruct (commit_guard _ _ _ _) eqn:E; [apply slot_stutter|].
    destruct (negb _); cbn [snd]; [|by apply slot_commit_step].
    rewrite commit_rollback_eq. apply slot_stutter.
  - unfold stagePending. destruct (stage_guard _ _ _ _ _) eqn:E; [apply slot_stutter|].
    by apply slot_stage_step.
  - unfold stagePendingAndFinalize. destruct (stage_guard _ _ _ _ _) eqn:E; [apply slot_stutter|].
    destruct (negb _); cbn [snd]; [|by apply slot_stage_step].
    rewrite stage_rollback_eq. apply slot_stutter.
Qed.

Lemma slot_activation now fin a r a' :
  inv a -> activation_outcome now fin a r a' -> slot_step (abs a) (abs a').
Proof.
  intros Hi [| |sb ? ? ?|sb Hs Hc ? ? ?]; [apply slot_stutter|by apply slot_drop_staged..|].
  apply activation_coherent_spec in Hc as (sg & sb' & ag & ab & Hg & Hs' & Hag & Hab & _).
  rewrite Hs in Hs'. injection Hs' as <-. unfold abs at 1. rewrite Hg, Hs, Hag, Hab. unfold abs. cbn.
  destruct (committedLifecycle_cases (sp_obj sb) (b_bundle_generation (sp_obj ab))
    (clear_staged_and_bump (set_active (mkActive (Some sg) (Some sb)) a))) as [->|(_ & _ & _ & ->)];
    apply slot_promote.
Qed.

Lemma world_advances_spec a w x :
  world_advances a w = true -> world_identity_ a = Some x -> advances x w.
Proof. unfold world_advances. intros Hw Hx. rewrite Hx in Hw. by apply strictlyAdvances_spec. Qed.

(** A record the plan recertified is the observed one under the new world. *)
Lemma prepare_recertified w g b next until addr r :
  bundle_ok w g b -> prepare (sp_obj b) next until addr = Some r -> recertified (g, b) (g, r) next.
Proof.
  intros Hok Hp. destruct (prepare_bundle_ok _ _ _ _ _ _ _ Hok Hp) as (Hok' & _).
  apply prepare_some in Hp as (u & Hr & _). split_and!; [done|done|by exists u].
Qed.

Lemma revokeActive_hides a :
  inv a -> exposure (lifecycle_ (revokeActive (clearStagedLocked a))) <> kAvailable.
Proof.
  intros Hi. unfold revokeActive. cbn.
  destruct (inv_active_pair a Hi) as [[E Hx]|(g & b & E & _)]; by rewrite E.
Qed.

Lemma revokeActive_fields a :
  world_identity_ (revokeActive a) = world_identity_ a /\
  active_ (revokeActive a) = mkActive None None /\ staged_ (revokeActive a) = staged_ a.
Proof. unfold revokeActive. by destruct (has (active_bundle a)). Qed.

Lemma clear_staged_idem a :
  when (negb (has (active_bundle (clearStagedLocked a)))) clearStagedLocked (clearStagedLocked a)
  = clearStagedLocked a.
Proof. unfold when. by destruct (negb _). Qed.

Lemma slot_revoke_world a a' w' :
  (forall x, world_identity_ a = Some x -> advances x w') ->
  world_identity_ a' = Some w' -> active_ a' = mkActive None None ->
  staged_ a' = mkStaged None None 0 -> exposure (lifecycle_ a') <> kAvailable ->
  slot_step (abs a) (abs a').
Proof.
  intros Hadv Hw Ha Hs Hl. unfold abs. rewrite Hw, Ha, Hs.
  rewrite (bool_decide_eq_false_2 (exposure (lifecycle_ a') = kAvailable)) by done.
  by apply slot_world_revoke.
Qed.

Lemma slot_publish req obs plan a :
  inv a -> aliased (active_bundle a) (active_bundle obs) ->
  aliased (staged_bundle a) (staged_bundle obs) -> publish_observe req obs = inr plan ->
  slot_step (abs a) (abs (snd (fst (publish_finish req plan a)))).
Proof.
  intros Hi Hla Hls Hobs.
  pose proof (publish_observe_inr _ _ _ Hobs) as (_ & Ea & Es & Hfail & Hra & Hrp & _).
  unfold publish_finish. destruct (_ || _ || _ || _) eqn:E1; [apply slot_stutter|].
  destruct (negb (world_advances _ _)) eqn:Ew; [apply slot_stutter|].
  apply orb_false_iff in E1 as [[[_ E2]%orb_false_iff E3]%orb_false_iff _].
  apply negb_false_iff in E2, E3, Ew. rewrite Ea in E2. rewrite Es in E3.
  apply same_get_live in E2, E3; try done.
  pose proof (revokeActive_hides a Hi) as Hh.
  destruct (pl_active_preparation_failed plan) eqn:Ef; cbn [fst snd].
  { destruct (revokeActive_fields (clearStagedLocked a)) as (? & ? & ?). by apply slot_revoke_both. }
  assert (Hadv : forall x, world_identity_ a = Some x -> advances x (pub_identity req))
    by (intros; by eapply world_advances_spec).
  destruct (pl_prepare_active plan); cbn [andb] in *.
  - destruct (pl_recertified_active plan) as [r|] eqn:Er; [|done].
    destruct (Hra r eq_refl) as (b & Hb & Hpr). rewrite <- E2 in Hb.
    destruct (inv_active_pair a Hi) as [[E _]|(g & b' & E & Hok)]; [by rewrite E in Hb|].
    rewrite E in Hb. injection Hb as ->. unfold abs. cbn. rewrite E. cbn.
    destruct (pl_recertified_pending plan) as [rp|] eqn:Erp; cbn.
    + destruct (Hrp rp eq_refl) as (sb & Hsb & Hspr). rewrite <- E3 in Hsb.
      destruct (inv_staged_pair a Hi) as [Est|(sg & sb' & Est & Hsok & _)]; [by rewrite Est in Hsb|].
      rewrite Est in Hsb |- *. injection Hsb as ->. cbn.
      apply slot_world_keep; [done|by eapply prepare_recertified|right].
      exists (sg, sb), (sg, rp). split_and!; [done..|]. by eapply prepare_recertified.
    + apply slot_world_keep; [done|by eapply prepare_recertified|by left].
  - destruct (revokeActive_fields a) as (_ & Eact & _).
    rewrite clear_staged_idem, revokeActive_clear_comm.
    destruct (revokeActive_fields (clearStagedLocked a)) as (_ & Ha & Hs).
    by apply (slot_revoke_world a _ (pub_identity req)).
Qed.

(** ** Properties *)

(** C1. Refinement: whatever operation runs on a reachable authority, in any
    interleaving with the two-phase operations, the slot the rest of the system
    sees takes a step of the abstract machine: one world that only advances, a
    command always certified for that world, a successor that can only be
    promoted or dropped, and no command ever visible that was not committed. *)
Theorem authority_refines_slot (a : ExecutionAuthority) (o : auth_op) :
  reachable a -> op_live a o -> slot_step (abs a) (abs (auth_step a o)).
Proof.
  intros Hr Hl. pose proof (reachable_inv a Hr) as Hi. pose proof (inv_auth_step a o Hi Hl) as Hi'.
  pose proof (slot_transactions a Hi) as (? & ? & ? & ? & ?).
  pose proof (slot_episode a Hi) as (? & ? & ? & ?).
  destruct o; cbn [auth_step op_live] in *; auto.
  - unfold failClosed, noteLifecycleChangeLocked in *.
    destruct (_ !=? _); by apply slot_lifecycle_only.
  - unfold suspendCommand in *. destruct (_ !=? _); [by apply slot_update|apply slot_stutter].
  - unfold observeRetainedCommand in *. destruct (negb _); [apply slot_stutter|by apply slot_update].
  - unfold observeSampledSafetyRole in *. destruct (_ || _); [apply slot_stutter|by apply slot_update].
  - unfold preserveSafetySuffix in *. destruct (_ || _); [apply slot_stutter|by apply slot_update].
  - unfold requestRestartFromRest in *. destruct (negb _); [apply slot_stutter|by apply slot_update].
  - unfold clearRestartFromRest in *. destruct (_ !=? _); [by apply slot_update|apply slot_stutter].
  - unfold applyRecoveryEvent in *. destruct (negb _); [apply slot_stutter|by apply slot_update].
  - unfold stoppedHold in *. destruct (negb _); [apply slot_stutter|by apply slot_update].
  - unfold failClosedIfCurrentSnapshot, noteLifecycleChangeLocked in *.
    destruct (negb _); [apply slot_stutter|]. destruct (_ ==? kFailed); [apply slot_stutter|].
    cbn [snd] in *. destruct (_ !=? _); by apply slot_lifecycle_only.
  - unfold suspendIfCurrentSnapshot in *. destruct (_ || _); [apply slot_stutter|by apply slot_update].
  - unfold invalidateIfCurrent in *. destruct (_ || _); [apply slot_stutter|]. cbn [snd] in *.
    rewrite clearActive_eq. apply slot_revoke_both; try done. cbn.
    destruct (_ ==? _) eqn:E; breflect; done.
  - destruct (publish_observe req observed) as [|plan] eqn:E; [apply slot_stutter|].
    destruct Hl. by apply (slot_publish _ observed).
  - eapply slot_activation; [done|]. apply activate_outcome.
Qed.

(** C10. In every reachable state the records are coherent: goals and bundles
    come in pairs of one request, a successor only exists behind a command, both
    are valid and certified for the current world, the successor belongs to the
    admitted goal, a visible command exists, and the failed state is the whole
    PX4-hold lifecycle. *)
Theorem reachable_coherent (a : ExecutionAuthority) :
  reachable a ->
  invariantHolds a = true /\
  (forall g b, active_goal a = Some g -> active_bundle a = Some b ->
     CandidateBundle_valid (sp_obj b) = true /\ g_request_id (sp_obj g) = b_request_id (sp_obj b) /\
     world_identity_ a = Some (b_world_identity (sp_obj b))) /\
  (forall g b, staged_goal a = Some g -> staged_bundle a = Some b ->
     CandidateBundle_valid (sp_obj b) = true /\ g_request_id (sp_obj g) = b_request_id (sp_obj b) /\
     world_identity_ a = Some (b_world_identity (sp_obj b)) /\
     b_goal_epoch (sp_obj b) = admission_goal_epoch_ a /\
     staged_activation a = b_valid_from_ns (sp_obj b)) /\
  (exposure (lifecycle_ a) = kAvailable -> is_Some (active_bundle a)) /\
  (exposure (lifecycle_ a) = kFailed -> phase (lifecycle_ a) = phPx4Hold /\
     recovery (lifecycle_ a) = rPx4Hold /\ restart (lifecycle_ a) = kRestartNone).
Proof.
  intros Hi%reachable_inv. unfold invariantHolds.
  assert (Hreq : forall w g b, bundle_ok w g b -> g_request_id (sp_obj g) = b_request_id (sp_obj b)).
  { intros w g b (Hm & _). simpl in Hm. by bsplit. }
  pose proof (inv_order a Hi) as Ho. split_and!.
  - destruct (inv_active_pair a Hi) as [[E _]|(g & b & E & _)];
      destruct (inv_staged_pair a Hi) as [E'|(g' & b' & E' & _)]; rewrite E, E' in *; try done.
    by destruct Ho.
  - intros g b Hg Hb. destruct (inv_active_pair a Hi) as [[E _]|(g' & b' & E & Hok)];
      rewrite E in Hg, Hb; [done|]. simplify_eq/=. pose proof Hok as (_ & ? & ?).
    split_and!; eauto.
  - intros g b Hg Hb. destruct (inv_staged_pair a Hi) as [E|(g' & b' & E & Hok & He)];
      rewrite E in Hg, Hb |- *; [done|]. simplify_eq/=. pose proof Hok as (_ & ? & ?).
    split_and!; eauto.
  - apply (inv_available a Hi).
  - intros Hf. by rewrite (inv_failed a Hi Hf).
Qed.

(** The version is a faithful witness: if a snapshot still tests as current
    after fewer than 2^63 operations by other owners, then none of them changed
    anything, so a conditional mutation acts on exactly the state its owner
    observed.  (One operation moves the counter by at most two.) *)
Theorem current_snapshot_faithful (a : ExecutionAuthority) (ops : list auth_op) :
  reachable a -> 2 * Z.of_nat (length ops) < 2 ^ 64 ->
  isCurrentSnapshot (snapshot a) (run auth_step a ops) = true -> run auth_step a ops = a.
Proof.
  intros Hi%reachable_inv Hn Hc. unfold isCurrentSnapshot in Hc.
  repeat (apply andb_true_iff in Hc as [Hc _]). apply Z.eqb_eq in Hc.
  destruct (version_run a ops (inv_timeline a Hi)) as (k & Hk & Hv & Hz). apply Hz.
  cbn in Hc. rewrite Hv in Hc. pose proof (inv_timeline a Hi). zlia.
Qed.

(** What [tryCommit] requires of the token, the goal and the candidate. *)
Definition commit_admissible (tok : CommitToken) (g : GoalPtr) (c : BundlePtr)
    (a : ExecutionAuthority) : Prop :=
  exists sg sc, g = Some sg /\ c = Some sc /\
    bundle_ok (world_identity_ a) sg sc /\
    admission_goal_epoch_ a <> 0 /\ tok_goal_epoch tok = admission_goal_epoch_ a /\
    b_goal_epoch (sp_obj sc) = admission_goal_epoch_ a /\
    exposure (lifecycle_ a) <> kFailed /\
    world_identity_ a = Some (tok_world_identity tok) /\
    tok_transaction_id tok <> 0 /\ last_transaction_id_ a < tok_transaction_id tok /\
    (forall b, active_bundle a = Some b ->
       b_bundle_generation (sp_obj b) <= b_bundle_generation (sp_obj sc)).

Lemma commit_guard_iff tok g c a :
  commit_guard tok g c a = None <-> commit_admissible tok g c a.
Proof.
  split.
  - intros Hg. assert (Ht : tok_transaction_id tok <> 0).
    { unfold commit_guard in Hg. destruct c as [sc|]; [|done]. intros E. rewrite E in Hg.
      by rewrite orb_true_r in Hg. }
    apply commit_guard_none in Hg as (sg & sc & -> & -> & ? & (? & ? & ?) & ? & ? & ? & Hgen).
    exists sg, sc. split_and!; try done. intros b Hb. rewrite Hb in Hgen. by apply Hgen.
  - intros (sg & sc & -> & -> & (Hm & Hv & Hw) & H1 & H2 & H3 & H4 & H5 & H6 & H7 & H8).
    unfold commit_guard. rewrite Hm, Hv, H2, H3, H5 in *. simpl.
    apply Z.eqb_neq in H1 as ->. apply Z.eqb_neq in H6 as ->. simpl.
    rewrite bool_decide_eq_false_2 by done. rewrite Z.eqb_refl. simpl.
    assert (sameWorldSnapshotIdentity (tok_world_identity tok) (tok_world_identity tok) = true) as ->
      by (by apply sameWorldSnapshotIdentity_eq).
    injection Hw as Hw. assert (sameWorldSnapshotIdentity (tok_world_identity tok)
      (b_world_identity (sp_obj sc)) = true) as -> by (by apply sameWorldSnapshotIdentity_eq).
    simpl. destruct (_ <=? _) eqn:E; [breflect; lia|].
    destruct (active_bundle a) as [b|]; [|done]. simpl. specialize (H8 b eq_refl).
    destruct (_ <? _) eqn:E'; [breflect; lia|done].
Qed.

Lemma commit_guard_never_commits tok g c a : commit_guard tok g c a <> Some kCommitted.
Proof.
  unfold commit_guard. intros Hc.
  repeat (case_match; simplify_eq).
Qed.

(** [tryCommit] commits exactly the admissible candidates: valid, owned by
    the goal, for the admitted epoch and the current world, with a fresh
    transaction and no older generation.  A commit installs exactly the pair
    given, empties the successor, consumes the transaction and moves version and
    lineage; a refusal changes nothing. *)
Theorem tryCommit_spec (tok : CommitToken) (g : GoalPtr) (c : BundlePtr) (a : ExecutionAuthority) :
  let '(d, a') := tryCommit tok g c a in
  (d = kCommitted <-> commit_admissible tok g c a) /\
  (d <> kCommitted -> a' = a) /\
  (d = kCommitted ->
     active_ a' = mkActive g c /\ staged_ a' = mkStaged None None 0 /\
     last_transaction_id_ a' = tok_transaction_id tok /\
     timeline_version_ a' = u64_inc (timeline_version_ a) /\
     active_lineage_version_ a' = u64_inc (active_lineage_version_ a) /\
     world_identity_ a' = world_identity_ a /\
     admission_goal_epoch_ a' = admission_goal_epoch_ a).
Proof.
  unfold tryCommit. destruct (commit_guard tok g c a) as [d|] eqn:E.
  - split_and!; [|done|]; [split; [intros ->|intros Hc%commit_guard_iff; congruence]|intros ->];
      by destruct (commit_guard_never_commits tok g c a).
  - pose proof (commit_swap_admission tok g c a) as (? & ? & ? & ? & ? & ? & ? & ?).
    apply commit_guard_iff in E. split_and!; try done. intros _. unfold bump_lineage.
    cbn [active_ staged_ last_transaction_id_ timeline_version_ active_lineage_version_
      world_identity_ admission_goal_epoch_]. split_and!; congruence.
Qed.

(** The three commit operations decide one transaction.  The conditional one
    is [tryCommit] when the observed predecessor is current and the bounded
    admission agrees, and otherwise changes nothing; the finalised one is
    [tryCommit] when the finalizer succeeds, and when it fails or throws it
    leaves the state as it was but for the version, which moved by two so that
    every observer of the intermediate state is invalidated. *)
Theorem commit_variants_agree (tok : CommitToken) (pred : ExecutionAuthoritySnapshot) (g : GoalPtr)
    (c : BundlePtr) (o : callback_outcome) (a : ExecutionAuthority) :
  (tryCommitIfCurrent tok (snapshot a) g c (cb_returns true) a = tryCommit tok g c a) /\
  (fst (tryCommitIfCurrent tok pred g c o a) = kCommitted ->
     tryCommitIfCurrent tok pred g c o a = tryCommit tok g c a /\
     timeline_version_ a = s_version pred /\ callback_ok o = true) /\
  (fst (tryCommitIfCurrent tok pred g c o a) <> kCommitted ->
     snd (tryCommitIfCurrent tok pred g c o a) = a) /\
  (callback_ok o = true -> tryCommitAndFinalize tok g c o a = tryCommit tok g c a) /\
  (callback_ok o = false -> commit_admissible tok g c a ->
     tryCommitAndFinalize tok g c o a = (kFinalizationFailed, bump_timeline (bump_timeline a))).
Proof.
  unfold tryCommitIfCurrent, tryCommitAndFinalize, tryCommit.
  pose proof (commit_guard_never_commits tok g c a) as Hn.
  assert (Hsame : forall A (p : ptr A), same_get p p = true) by (intros; apply same_get_refl).
  split_and!.
  - destruct (commit_guard _ _ _ _); [done|]. cbn. by rewrite !Z.eqb_refl, !Hsame.
  - destruct (commit_guard _ _ _ _) as [d|] eqn:E; [cbn; naive_solver|].
    destruct (_ || _ || _ || _) eqn:Ep; [done|]. destruct (callback_ok o); [|done]. intros _.
    apply orb_false_iff in Ep as [[[Ep _]%orb_false_iff _]%orb_false_iff _]. breflect. done.
  - destruct (commit_guard _ _ _ _) as [d|]; [done|]. destruct (_ || _ || _ || _); [done|].
    by destruct (callback_ok o).
  - intros ->. by destruct (commit_guard _ _ _ _).
  - intros -> Hc%commit_guard_iff. rewrite Hc. cbn [negb]. by rewrite commit_rollback_eq.
Qed.

(** The operations that start a new episode; only they leave the failed state. *)
Definition episode_op (o : auth_op) : bool :=
  match o with
  | op_setAdmissionGoalEpoch _ false | op_beginGoal _ _ _ | op_reset _ | op_invalidate => true
  | _ => false
  end.

Lemma failed_transactions a :
  exposure (lifecycle_ a) = kFailed ->
  (forall tok g c, commit_guard tok g c a <> None) /\
  (forall tok an g c, stage_guard tok an g c a <> None) /\
  (forall b, owns_live a b = false).
Proof.
  intros Hf. split_and!.
  - intros tok g c (? & ? & _ & _ & _ & _ & ? & _)%commit_guard_none. done.
  - intros tok an g c (? & ? & ? & _ & _ & _ & _ & _ & ? & _)%stage_guard_none. done.
  - intros b. unfold owns_live. by rewrite Hf.
Qed.

Lemma failed_step a o :
  exposure (lifecycle_ a) = kFailed -> episode_op o = false ->
  exposure (lifecycle_ (auth_step a o)) = kFailed.
Proof.
  intros Hf He. destruct (failed_transactions a Hf) as (Hc & Hs & Ho).
  destruct o as [e []|l e r| | | | | | | | | | | | | | |req obs| | | | | |]; try done;
    cbn [auth_step].
  - unfold setAdmissionGoalEpoch, enforceInvariantLocked. do 2 (guard_case; [done|]). cbn.
    by destruct (negb _).
  - unfold failClosed, noteLifecycleChangeLocked. by destruct (_ !=? _).
  - unfold suspendCommand. by rewrite Hf.
  - unfold observeRetainedCommand. by rewrite Ho.
  - unfold observeSampledSafetyRole. by rewrite Ho.
  - unfold preserveSafetySuffix. by rewrite Hf.
  - unfold requestRestartFromRest. by rewrite Ho.
  - unfold clearRestartFromRest, update_lifecycle, noteLifecycleChangeLocked.
    by repeat (case_match; cbn).
  - unfold applyRecoveryEvent. by rewrite Ho.
  - unfold stoppedHold. by rewrite Ho.
  - unfold failClosedIfCurrentSnapshot. rewrite Hf. by destruct (negb _).
  - unfold suspendIfCurrentSnapshot. rewrite Hf. by rewrite orb_true_r.
  - unfold invalidateIfCurrent, clearActiveLocked. cbn. rewrite Hf. by destruct (_ || _).
  - destruct (publish_observe req obs) as [|plan]; [done|]. unfold publish_finish, when.
    assert (Hrv : forall x, exposure (lifecycle_ x) = kFailed ->
      exposure (lifecycle_ (revokeActive x)) = kFailed).
    { intros x Hx. unfold revokeActive, when. by destruct (has (active_bundle x)). }
    repeat (match goal with |- context [if ?b then _ else _] => destruct b end; cbn);
      auto; by apply Hrv.
  - unfold stagePending. destruct (stage_guard _ _ _ _ _) eqn:E; [done|]. by destruct (Hs _ _ _ _ E).
  - unfold stagePendingAndFinalize. destruct (stage_guard _ _ _ _ _) eqn:E; [done|].
    by destruct (Hs _ _ _ _ E).
  - unfold activatePendingIfDueAndFinalize, activatePendingIfDueAndFinalizeLocked. by rewrite Hf.
  - unfold tryCommit. destruct (commit_guard _ _ _ _) eqn:E; [done|]. by destruct (Hc _ _ _ E).
  - unfold tryCommitIfCurrent. destruct (commit_guard _ _ _ _) eqn:E; [done|]. by destruct (Hc _ _ _ E).
  - unfold tryCommitAndFinalize. destruct (commit_guard _ _ _ _) eqn:E; [done|].
    by destruct (Hc _ _ _ E).
Qed.

(** Failing closed latches: until an operation starts a new episode, no
    sequence of commits, activations, publications or observations leaves the
    failed state, and no command is exposed from it. *)
Theorem failure_latched (a : ExecutionAuthority) (ops : list auth_op) (expected : BundlePtr)
    (goal_epoch : Z) (expose : ExecutionLifecycleState -> callback_outcome) :
  exposure (lifecycle_ a) = kFailed -> Forall (fun o => episode_op o = false) ops ->
  exposure (lifecycle_ (run auth_step a ops)) = kFailed /\
  publishIfCurrent expected goal_epoch expose (run auth_step a ops) = (false, None).
Proof.
  intros Hf Hops. assert (Hr : exposure (lifecycle_ (run auth_step a ops)) = kFailed).
  { revert a Hf. induction Hops as [|o ops Ho _ IH]; intros a Hf; [done|]. cbn.
    by apply IH, failed_step. }
  split; [done|]. unfold publishIfCurrent, publish_guard. destruct expected, (active_bundle (run auth_step a ops)); try done.
  rewrite Hr. cbn. by rewrite andb_false_r.
Qed.

(** Whatever reaches the transport is the current command: the exposure
    callback runs only on a visible, non-failed command that is the very object
    the sampler sampled, still valid, of the expected goal and certified for the
    world in force at that instant. *)
Theorem exposure_sound (a : ExecutionAuthority) (expected : BundlePtr) (goal_epoch : Z)
    (expose : ExecutionLifecycleState -> callback_outcome) (r : bool) (l : ExecutionLifecycleState) :
  reachable a -> publishIfCurrent expected goal_epoch expose a = (r, Some l) ->
  l = lifecycle_ a /\ exposure l = kAvailable /\ r = callback_ok (expose l) /\
  exists b, active_bundle a = Some b /\ get expected = Some (sp_addr b) /\
    CandidateBundle_valid (sp_obj b) = true /\ b_goal_epoch (sp_obj b) = goal_epoch /\
    world_identity_ a = Some (b_world_identity (sp_obj b)).
Proof.
  intros Hi%reachable_inv. unfold publishIfCurrent, publish_guard.
  destruct expected as [e|]; [|done]. destruct (active_bundle a) as [b|] eqn:Hb; [|done].
  destruct (negb _) eqn:Eg; [done|]. intros [= <- <-]. bsplit.
  destruct (inv_active_pair a Hi) as [[E _]|(g & b' & E & (_ & Hv & Hw))]; rewrite E in Hb; [done|].
  injection Hb as ->. split_and!; try done. exists b. by split_and!.
Qed.
End Properties.

(** ** Witnesses *)

Lemma authority_refines_slot_witness :
  @slot_step eigen_reference (abs demo_live) (abs (@auth_step eigen_reference demo_live op_failClosed)).
Proof. exact (@authority_refines_slot eigen_reference demo_live op_failClosed demo_live_reachable I). Defined.

Lemma reachable_coherent_witness :
  invariantHolds demo_live = true /\ is_Some (active_bundle demo_live).
Proof.
  pose proof (@reachable_coherent eigen_reference demo_live demo_live_reachable) as (Hi & _ & _ & Hv & _).
  split; [exact Hi|apply Hv; exact (proj1 demo_live_available)].
Defined.

Lemma current_snapshot_faithful_witness :
  run (@auth_step eigen_reference) demo_live [op_clearRestartFromRest] = demo_live.
Proof.
  apply (@current_snapshot_faithful eigen_reference demo_live [op_clearRestartFromRest] demo_live_reachable);
    vm_compute; reflexivity.
Defined.

Lemma failure_latched_witness :
  exposure (lifecycle_ (run (@auth_step eigen_reference) (failClosed demo_live)
    [op_tryCommit demo_token demo_goal_ptr demo_bundle_ptr; op_suspendCommand])) = kFailed.
Proof.
  apply (@failure_latched eigen_reference (failClosed demo_live)
    [op_tryCommit demo_token demo_goal_ptr demo_bundle_ptr; op_suspendCommand] None 0
    (fun _ => cb_throws)); [vm_compute; reflexivity|repeat constructor].
Defined.

Lemma exposure_sound_witness :
  exists b, active_bundle demo_live = Some b /\ b_goal_epoch (sp_obj b) = 1.
Proof.
  assert (E : publishIfCurrent demo_bundle_ptr 1 (fun _ => cb_returns true) demo_live
              = (true, Some (lifecycle_ demo_live))) by (vm_compute; reflexivity).
  pose proof (@exposure_sound eigen_reference demo_live demo_bundle_ptr 1 (fun _ => cb_returns true) _ _
    demo_live_reachable E) as (_ & _ & _ & b & Hb & _ & _ & He & _).
  exists b. split; [exact Hb|exact He].
Defined.
