(* ===== verification/AuthorityTxn.v ===== *)
(** * Transactions of the execution authority

    The watermark, the two-phase operations under interleaving, anchors and
    activation, and the two places where the code departs from what its comments
    say. *)

From S2P Require Import Prelude Float64 TimeNs Geometry World Candidate Messages Lifecycle.
From S2P Require Import Authority AuthorityInv AuthorityProps.

Section Transactions.
Context `{EigenOps}.

(** The transaction an operation gets accepted. *)
Definition accepted (a : ExecutionAuthority) (o : auth_op) : option Z :=
  let committed (d : CommitDecision) (tok : CommitToken) :=
    if d ==? kCommitted then Some (tok_transaction_id tok) else None in
  let staged (d : StageDecision) (tok : CommitToken) :=
    if d ==? sStaged then Some (tok_transaction_id tok) else None in
  match o with
  | op_tryCommit tok g c => committed (fst (tryCommit tok g c a)) tok
  | op_tryCommitIfCurrent tok p g c adm => committed (fst (tryCommitIfCurrent tok p g c adm a)) tok
  | op_tryCommitAndFinalize tok g c fin => committed (fst (tryCommitAndFinalize tok g c fin a)) tok
  | op_stagePending tok an g c => staged (fst (stagePending tok an g c a)) tok
  | op_stagePendingAndFinalize tok an g c fin =>
      staged (fst (stagePendingAndFinalize tok an g c fin a)) tok
  | _ => None
  end.

Lemma stage_guard_never_stages tok an g c a : stage_guard tok an g c a <> Some sStaged.
Proof. unfold stage_guard. intros Hc. repeat (case_match; simplify_eq). Qed.

(** An accepted transaction is newer than the watermark and becomes it. *)
Lemma accepted_watermark a o t :
  accepted a o = Some t -> last_transaction_id_ a < t /\ last_transaction_id_ (auth_step a o) = t.
Proof.
  assert (Hc : forall tok g c, commit_guard tok g c a = None ->
    last_transaction_id_ a < tok_transaction_id tok /\
    last_transaction_id_ (bump_lineage (commit_swap tok g c a)) = tok_transaction_id tok).
  { intros tok g c Hg. pose proof (commit_swap_admission tok g c a) as (_ & _ & _ & _ & _ & _ & _ & ?).
    apply commit_guard_none in Hg as (? & ? & _ & _ & _ & _ & _ & _ & ? & _). done. }
  pose proof (fun tok g c => commit_guard_never_commits tok g c a) as Hn.
  pose proof (fun tok an g c => stage_guard_never_stages tok an g c a) as Hs.
  destruct o; cbn [accepted auth_step]; try done;
    unfold tryCommit, tryCommitIfCurrent, tryCommitAndFinalize, stagePending, stagePendingAndFinalize.
  - destruct (stage_guard _ _ _ _ _) eqn:E; cbn;
      [destruct (_ ==? sStaged) eqn:Ed; breflect; [subst; by destruct (Hs tok anchor g c)|done]|].
    intros [= <-]. apply stage_guard_none in E as (? & ? & ? & _ & _ & _ & _ & _ & _ & _ & ? & _). done.
  - destruct (stage_guard _ _ _ _ _) eqn:E; cbn;
      [destruct (_ ==? sStaged) eqn:Ed; breflect; [subst; by destruct (Hs tok anchor g c)|done]|].
    destruct (callback_ok fin); cbn; [|done].
    intros [= <-]. apply stage_guard_none in E as (? & ? & ? & _ & _ & _ & _ & _ & _ & _ & ? & _). done.
  - destruct (commit_guard _ _ _ _) eqn:E; cbn -[commit_swap];
      [destruct (_ ==? kCommitted) eqn:Ed; breflect; [subst; by destruct (Hn tok g c)|done]|].
    intros [= <-]. exact (Hc _ _ _ E).
  - destruct (commit_guard _ _ _ _) eqn:E; cbn -[commit_swap];
      [destruct (_ ==? kCommitted) eqn:Ed; breflect; [subst; by destruct (Hn tok g c)|done]|].
    destruct (_ || _); [done|]. destruct (callback_ok admission); [|done]. intros [= <-]. exact (Hc _ _ _ E).
  - destruct (commit_guard _ _ _ _) eqn:E; cbn -[commit_swap];
      [destruct (_ ==? kCommitted) eqn:Ed; breflect; [subst; by destruct (Hn tok g c)|done]|].
    destruct (callback_ok fin); [|done]. intros [= <-]. exact (Hc _ _ _ E).
Qed.

Lemma watermark_activation now fin a r a' :
  activation_outcome now fin a r a' -> last_transaction_id_ a' = last_transaction_id_ a.
Proof.
  intros [| |sb ? ? ?|sb ? ? ? ? ?]; try done. cbn [bump_lineage last_transaction_id_].
  by destruct (committedLifecycle_cases (sp_obj sb) (field_or_zero b_bundle_generation
    (active_bundle a)) (clear_staged_and_bump (set_active (mkActive (staged_goal a)
    (staged_bundle a)) a))) as [->|(_ & _ & _ & ->)].
Qed.

(** No operation lowers the watermark. *)
Lemma watermark_step a o : last_transaction_id_ a <= last_transaction_id_ (auth_step a o).
Proof.
  destruct (accepted a o) as [t|] eqn:Ea; [apply accepted_watermark in Ea; lia|].
  assert (last_transaction_id_ (auth_step a o) = last_transaction_id_ a); [|lia].
  assert (Hu : forall f x, last_transaction_id_ (update_lifecycle f x) = last_transaction_id_ x)
    by (intros; unfold update_lifecycle, noteLifecycleChangeLocked; by destruct (_ !=? _)).
  assert (Hrv : forall x, last_transaction_id_ (revokeActive x) = last_transaction_id_ x)
    by (intros; unfold revokeActive; by destruct (has (active_bundle x))).
  destruct o; cbn [auth_step];
    unfold suspendCommand, observeRetainedCommand, observeSampledSafetyRole, preserveSafetySuffix,
      requestRestartFromRest, clearRestartFromRest, applyRecoveryEvent, stoppedHold,
      suspendIfCurrentSnapshot;
    try (match goal with |- context [if ?b then _ else _] => destruct b end; cbn [snd];
         by rewrite ?Hu).
  - unfold setAdmissionGoalEpoch, enforceInvariantLocked, clearActiveLocked, when.
    by repeat (case_match; cbn).
  - unfold beginGoal, clearActiveLocked, when. by repeat (case_match; cbn).
  - unfold reset, clearActiveLocked, when. by repeat (case_match; cbn).
  - unfold invalidate, enforceInvariantLocked, clearActiveLocked, when. by repeat (case_match; cbn).
  - unfold failClosed, noteLifecycleChangeLocked. by destruct (_ !=? _).
  - unfold failClosedIfCurrentSnapshot, noteLifecycleChangeLocked. by repeat (case_match; cbn).
  - unfold invalidateIfCurrent, clearActiveLocked. by repeat (case_match; cbn).
  - destruct (publish_observe req observed) as [|plan]; [done|]. unfold publish_finish, when.
    repeat (match goal with |- context [if ?b then _ else _] => destruct b end; cbn); by rewrite ?Hrv.
  - cbn [accepted] in Ea. unfold stagePending in *. by destruct (stage_guard _ _ _ _ _).
  - cbn [accepted] in Ea. unfold stagePendingAndFinalize in *. destruct (stage_guard _ _ _ _ _); [done|].
    by destruct (callback_ok fin).
  - eapply watermark_activation, activate_outcome.
  - cbn [accepted] in Ea. unfold tryCommit in *. by destruct (commit_guard _ _ _ _).
  - cbn [accepted] in Ea. unfold tryCommitIfCurrent in *. destruct (commit_guard _ _ _ _); [done|].
    destruct (_ || _); [done|]. by destruct (callback_ok admission).
  - cbn [accepted] in Ea. unfold tryCommitAndFinalize in *. destruct (commit_guard _ _ _ _); [done|].
    by destruct (callback_ok fin).
Qed.

(** ** Properties *)

(** A transaction is consumed once: after an operation accepted transaction
    [t], no later commit or staging with the same or an older identifier is
    accepted, whatever runs in between, resets included. *)
Theorem transaction_consumed_once (a : ExecutionAuthority) (o o' : auth_op) (ops : list auth_op)
    (t t' : Z) :
  accepted a o = Some t -> accepted (run auth_step (auth_step a o) ops) o' = Some t' -> t < t'.
Proof.
  intros [_ Ht]%accepted_watermark [Ht' _]%accepted_watermark.
  assert (last_transaction_id_ (auth_step a o) <= last_transaction_id_ (run auth_step (auth_step a o) ops)); [|lia].
  apply (run_preorder auth_step (fun x y => last_transaction_id_ x <= last_transaction_id_ y)).
  - intros x. lia.
  - intros x y z. lia.
  - apply watermark_step.
Qed.

(** What a run between the two phases of an operation can have done, seen by a
    finishing phase that compares the version it observed. *)
Lemma version_unmoved a ops :
  reachable a -> 2 * Z.of_nat (length ops) < 2 ^ 64 ->
  timeline_version_ (run auth_step a ops) = timeline_version_ a -> run auth_step a ops = a.
Proof.
  intros Hi%reachable_inv Hn Hv. pose proof (inv_timeline a Hi).
  destruct (version_run a ops (inv_timeline a Hi)) as (k & Hk & Hr & Hz). apply Hz.
  rewrite Hv in Hr. zlia.
Qed.

(** C2. The world publication, which releases the lock while it prepares the
    recertified copies, is linearizable: whatever other owners did in between,
    its second phase either is superseded, changes nothing and runs no callback,
    or nothing happened in between and it is the publication executed in one
    piece. *)
Theorem publication_linearizable (req : PublishRequest) (plan : PublishPlan)
    (a : ExecutionAuthority) (ops : list auth_op) :
  reachable a -> 2 * Z.of_nat (length ops) < 2 ^ 64 -> publish_observe req a = inr plan ->
  let a' := run auth_step a ops in
  publish_finish req plan a' = (wSuperseded, a', false) \/
  a' = a /\ publish_finish req plan a' = publishWorldIdentityIfCurrentAndFinalizeRevocation req a'.
Proof.
  intros Hr Hn Hobs a'.
  pose proof (publish_observe_inr _ _ _ Hobs) as (_ & _ & _ & _ & _ & _ & _ & Hv).
  destruct (decide (timeline_version_ a' = timeline_version_ a)) as [Hs|Hne].
  - assert (Ha : a' = a) by (by apply version_unmoved). right. split; [done|].
    unfold publishWorldIdentityIfCurrentAndFinalizeRevocation. by rewrite Ha, Hobs.
  - left. unfold publish_finish. destruct (timeline_version_ a' =? pub_expected_version req) eqn:E; [|done].
    breflect. congruence.
Qed.

(** When a copy of the command is prepared, the request named that command. *)
Lemma publish_prepared req a plan :
  publish_observe req a = inr plan ->
  (pl_prepare_active plan = true ->
     pub_retain_bundle req = true /\ get (active_bundle a) = get (pub_expected_bundle req) /\
     pl_exact_active_owner plan = true /\ exists b, active_bundle a = Some b).
Proof.
  unfold publish_observe. do 3 (guard_case; [done|]). intros [= <-]. cbn.
  intros Hp. apply andb_true_iff in Hp as [Hr He]. split_and!; try done;
    apply andb_true_iff in He as [He _]; apply andb_true_iff in He as [He Hg].
  - symmetry. by apply same_get_true.
  - apply andb_true_iff in He as [_ He]. destruct (active_bundle a); [eauto|done].
Qed.

(** Outcomes of the publication on a reachable state.  It moves the world
    only when it commits, and then only forward and only to a well-formed
    identity; a superseded or stale request changes nothing; a rejected one
    leaves the world but no command, failed closed if there was one; and a
    command that is not recertified is never left behind under the new world. *)
Theorem publication_outcomes (req : PublishRequest) (a : ExecutionAuthority) :
  reachable a ->
  let '(d, a', revoked) := publishWorldIdentityIfCurrentAndFinalizeRevocation req a in
  match d with
  | wCommitted =>
      world_identity_ a' = Some (pub_identity req) /\
      publish_identity_ok (pub_identity req) = true /\
      (forall w, world_identity_ a = Some w -> advances w (pub_identity req)) /\
      (active_bundle a' = None /\ staged_bundle a' = None /\
         (is_Some (active_bundle a) -> exposure (lifecycle_ a') = kFailed) \/
       pub_retain_bundle req = true /\ get (active_bundle a) = get (pub_expected_bundle req) /\
         active_goal a' = active_goal a /\ lifecycle_ a' = lifecycle_ a /\ revoked = false /\
         exists b b' until, active_bundle a = Some b /\ active_bundle a' = Some b' /\
           sp_obj b' = recertify_fields (sp_obj b) (pub_identity req) until /\
           CandidateBundle_valid (sp_obj b') = true)
  | wCandidateRejected =>
      world_identity_ a' = world_identity_ a /\
      (a' = a \/ active_bundle a' = None /\ staged_bundle a' = None /\ revoked = true /\
                exposure (lifecycle_ a') = kFailed)
  | _ => a' = a /\ revoked = false
  end.
Proof.
  intros Hr. pose proof (reachable_inv a Hr) as Hi.
  unfold publishWorldIdentityIfCurrentAndFinalizeRevocation.
  destruct (publish_observe req a) as [d|plan] eqn:Hobs.
  { unfold publish_observe in Hobs. repeat (case_match; simplify_eq); auto. }
  pose proof (publish_observe_inr _ _ _ Hobs) as (Hpw & Ea & Es & Hfail & Hra & _ & Hok & Hv).
  pose proof (publish_prepared req a plan Hobs) as Hprep.
  unfold publish_finish. destruct (_ || _ || _ || _) eqn:E1; [done|].
  destruct (negb (world_advances _ _)) eqn:Ew; [done|]. apply negb_false_iff in Ew.
  destruct (pl_active_preparation_failed plan) eqn:Ef.
  - destruct (revokeActive_fields (clearStagedLocked a)) as (Hw & Ha & Hs).
    symmetry in Hfail. apply andb_true_iff in Hfail as [Hp _].
    destruct (Hprep Hp) as (_ & _ & He & b & Hb). cbn. rewrite Hw, Ha, Hs, He, Hp.
    split; [done|right]. split_and!; try done. unfold revokeActive, when. cbn. by rewrite Hb.
  - assert (Hadv : forall w, world_identity_ a = Some w -> advances w (pub_identity req))
      by (intros; by eapply world_advances_spec).
    split_and!; try done. destruct (pl_prepare_active plan) eqn:Hp; cbn [andb] in *.
    + right. destruct (pl_recertified_active plan) as [r|] eqn:Er; [|done].
      destruct (Hprep eq_refl) as (Hret & Hg & He & b & Hb).
      destruct (Hra r eq_refl) as (b' & Hb' & (u & Hu & Hval & _)%prepare_some).
      rewrite He. cbn [negb orb andb].
      destruct (has (pl_recertified_pending plan)); cbn; split_and!; try done;
        exists b', r, u; by split_and!.
    + left. rewrite clear_staged_idem. cbn. destruct (revokeActive_fields a) as (_ & Hac & _).
      rewrite Hac. split_and!; try done. intros [b Hb]. unfold revokeActive, when. by rewrite Hb.
Qed.

(** A successful activation matched the token. *)
Lemma activation_token now p v t fin a a' :
  activatePendingIfDueAndFinalizeLocked now p v t true fin a = (true, a') ->
  timeline_version_ a = v /\ staged_activation a = t.
Proof.
  unfold activatePendingIfDueAndFinalizeLocked. destruct (_ ==? kFailed); [done|].
  destruct (has (staged_bundle a) && _); [done|]. destruct (staged_bundle a) as [sb|]; [|done].
  destruct ((staged_activation a <=? 0) || _); [done|].
  destruct (true && _) eqn:E; [done|]. intros _. cbn in E. by bsplit.
Qed.

Lemma committed_fields b prev a :
  active_ (committedLifecycleLocked b prev a) = active_ a /\
  staged_ (committedLifecycleLocked b prev a) = staged_ a /\
  timeline_version_ (committedLifecycleLocked b prev a) = timeline_version_ a /\
  active_lineage_version_ (committedLifecycleLocked b prev a) = active_lineage_version_ a.
Proof. by destruct (committedLifecycle_cases b prev a) as [->|(_ & _ & _ & ->)]. Qed.

(** Activation is exact: it succeeds only against the timeline its caller
    observed, inside the successor's lease, on a coherent pair of records, with
    the finalizer's consent for that generation; then the active record is the
    staged one, nothing is staged, and version and lineage move.  When the
    finalizer refuses, the previous command and lifecycle stay. *)
Theorem activation_exact (now : Z) (expected : ExecutionAuthoritySnapshot)
    (fin : Z -> callback_outcome) (a : ExecutionAuthority) :
  reachable a ->
  let '(r, a') := activatePendingIfDueAndFinalize now expected fin a in
  (r = true ->
     exists g b, staged_ a = mkStaged (Some g) (Some b) (b_valid_from_ns (sp_obj b)) /\
       timeline_version_ a = s_version expected /\
       b_valid_from_ns (sp_obj b) = s_pending_activation_ns expected /\
       b_valid_from_ns (sp_obj b) <= now <= b_valid_until_ns (sp_obj b) /\
       world_identity_ a = Some (b_world_identity (sp_obj b)) /\
       b_goal_epoch (sp_obj b) = admission_goal_epoch_ a /\
       callback_ok (fin (b_bundle_generation (sp_obj b))) = true /\
       exposure (lifecycle_ a) <> kFailed /\
       active_ a' = mkActive (Some g) (Some b) /\ staged_ a' = mkStaged None None 0 /\
       timeline_version_ a' = u64_inc (timeline_version_ a) /\
       active_lineage_version_ a' = u64_inc (active_lineage_version_ a)) /\
  (r = false -> active_ a' = active_ a /\ lifecycle_ a' = lifecycle_ a /\
     world_identity_ a' = world_identity_ a /\
     (staged_ a' = staged_ a \/ staged_ a' = mkStaged None None 0)).
Proof.
  intros Hi%reachable_inv.
  destruct (activatePendingIfDueAndFinalize now expected fin a) as [r a'] eqn:Er.
  pose proof (activate_outcome now (s_pending expected) (s_version expected)
    (s_pending_activation_ns expected) true fin a) as Ho.
  unfold activatePendingIfDueAndFinalize in Er. rewrite Er in Ho. cbn [fst snd] in Ho.
  destruct r; split; try done; intros _.
  - pose proof (activation_token _ _ _ _ _ _ _ Er) as [Hv Ht].
    inversion Ho as [| | |sb Hs Hc Hf Hx Hd Hr Ha']; subst a'.
    apply activation_coherent_spec in Hc as (sg & sb' & ag & ab & Hg & Hs' & _ & _ & Hw & _ & He & Hu & _).
    rewrite Hs in Hs'. injection Hs' as <-.
    destruct (inv_staged_pair a Hi) as [E|(g & b & E & _)]; rewrite E in Hs, Hg, Hd, Ht |- *; [done|].
    cbn in Hs, Hg. simplify_eq. exists sg, sb. rewrite E in *. cbn in Hd, Ht.
    destruct (committed_fields (sp_obj sb) (field_or_zero b_bundle_generation (active_bundle a))
      (clear_staged_and_bump (set_active (mkActive (Some sg) (Some sb)) a))) as (F1 & F2 & F3 & F4).
    split_and!; try done; try lia; cbn [bump_lineage active_ staged_ timeline_version_
      active_lineage_version_ staged_goal staged_bundle st_goal st_bundle];
      by rewrite ?F1, ?F2, ?F3, ?F4.
  - inversion Ho as [| |sb Hs Hc Hf Hr Ha'|]; subst a'; split_and!; auto.
Qed.

(** An anchor is a promise the store keeps: when the predecessor's evaluator
    reports the elapsed time of its declared start, the anchor [reserveAnchor]
    returns passes, on the same state, every predecessor check of staging, so
    only the successor itself can still be refused. *)
Theorem reserved_anchor_accepted (rq act : Z) (a : ExecutionAuthority) (anchor : ExecutionAnchor) :
  reachable a -> reserveAnchor rq act a = Some anchor ->
  exists b, active_bundle a = Some b /\ an_activation_stamp_ns anchor = act /\
    an_execution_lineage_version anchor = active_lineage_version_ a /\
    sample (sp_obj b) act = Some (an_state anchor) /\
    an_active_role anchor = p_role (an_state anchor) /\
    (p_trajectory_time_s (an_state anchor) =
       f64_mul (f64_of_Z (act - b_declared_start_ns (sp_obj b))) f64_1e_9 ->
     predecessorMatchesAnchor (sp_obj b) anchor = true).
Proof.
  intros Hi%reachable_inv. unfold reserveAnchor, reserve_observe.
  destruct (_ || _) eqn:E0; [done|]. destruct (active_bundle a) as [b|] eqn:Hb; [|done].
  destruct (world_identity_ a) as [w|] eqn:Hw; [|done]. destruct (_ || _ || _) eqn:E1; [done|].
  unfold reserve_build. cbv zeta. cbn [ap_predecessor ap_expected_lineage_version].
  destruct (sample (sp_obj b) act) as [p|] eqn:Ep; [|done].
  destruct (bundle_main_end (sp_obj b)) as [me|] eqn:Em; [|done].
  destruct ((me <? act) || _) eqn:E2; [done|].
  destruct (negb (ExecutionAnchor_valid _)) eqn:Ev; [done|]. apply negb_false_iff in Ev.
  unfold reserve_finish. cbv zeta. destruct (negb (timeline_version_ a =? _) || _ || _) eqn:E3; [done|]. intros [= <-].
  exists b. split_and!; try done. cbn [an_state]. intros Ht.
  apply sample_spec in Ep as [Hl (Hv & Hd & (ev & _ & _ & _ & _ & Hs)%evaluate_checked_spec)
    %sampleAtDeclaredStamp_spec].
  pose proof (CandidateBundle_valid_spec _ Hv) as (_ & _ & _ & (_ & Hst & _) & _).
  unfold predecessorMatchesAnchor. rewrite Ev, Hv, Hst, Em.
  cbn [an_active_bundle_generation an_localization_epoch an_goal_epoch an_request_id an_command_world
       an_activation_stamp_ns an_active_main_end_ns an_active_bundle_end_ns an_active_role].
  rewrite !Z.eqb_refl. assert (sameWorldSnapshotIdentity (b_world_identity (sp_obj b))
    (b_world_identity (sp_obj b)) = true) as -> by (by apply sameWorldSnapshotIdentity_eq).
  cbn [negb orb]. breflect. destruct_and?.
  rewrite (proj2 (Z.ltb_ge _ _)) by lia. rewrite (proj2 (Z.ltb_ge _ _)) by lia.
  rewrite (proj2 (Z.ltb_ge _ _)) by lia. rewrite (proj2 (Z.ltb_ge _ _)) by lia.
  cbn [orb]. rewrite (proj2 (Z.ltb_ge _ _)) by lia. rewrite <- Ht, Hs.
  by apply bool_decide_eq_true_2.
Qed.
End Transactions.

(** ** Witnesses and counterexamples *)

Lemma transaction_consumed_once_witness : 1 < 2.
Proof.
  apply (@transaction_consumed_once eigen_reference demo_admitted
    (op_tryCommit demo_token demo_goal_ptr demo_bundle_ptr)
    (op_tryCommit (mkToken demo_identity 1 2) demo_goal_ptr demo_bundle_ptr) [op_suspendCommand]);
    vm_compute; reflexivity.
Defined.

(** A later world, retaining the live command. *)
Definition demo_next_identity : WorldSnapshotIdentity := mkIdentity 1 1 2 2000000000.
Definition demo_refresh : PublishRequest :=
  mkPublish demo_next_identity (timeline_version_ demo_live) demo_bundle_ptr true 0 None false
    (Some 3%positive) None.

Lemma publication_linearizable_witness :
  exists plan, @publish_observe eigen_reference demo_refresh demo_live = inr plan /\
    let a' := run (@auth_step eigen_reference) demo_live [op_suspendCommand] in
    publish_finish demo_refresh plan a' = (wSuperseded, a', false) \/
    a' = demo_live /\ publish_finish demo_refresh plan a' =
      @publishWorldIdentityIfCurrentAndFinalizeRevocation eigen_reference demo_refresh a'.
Proof.
  assert (Hs : match @publish_observe eigen_reference demo_refresh demo_live with
               | inl _ => false | inr _ => true end = true) by (vm_compute; reflexivity).
  destruct (@publish_observe eigen_reference demo_refresh demo_live) as [d|plan] eqn:E;
    [discriminate|]. clear Hs.
  exists plan. split; [reflexivity|].
  apply (@publication_linearizable eigen_reference demo_refresh plan demo_live [op_suspendCommand]
    demo_live_reachable); [vm_compute; reflexivity|exact E].
Defined.

Example demo_refresh_commits :
  fst (fst (@publishWorldIdentityIfCurrentAndFinalizeRevocation eigen_reference demo_refresh demo_live))
    = wCommitted.
Proof. vm_compute. reflexivity. Qed.

Lemma publication_outcomes_witness :
  world_identity_ (snd (fst (@publishWorldIdentityIfCurrentAndFinalizeRevocation eigen_reference
    demo_refresh demo_live))) = Some demo_next_identity.
Proof.
  pose proof (@publication_outcomes eigen_reference demo_refresh demo_live demo_live_reachable) as Ho.
  pose proof demo_refresh_commits as Hc. revert Ho Hc.
  destruct (@publishWorldIdentityIfCurrentAndFinalizeRevocation eigen_reference demo_refresh demo_live)
    as [[d a'] rv]. intros Ho Hc. simpl in Hc. subst d. exact (proj1 Ho).
Defined.

(** A command of generation 5 with a staged successor of generation [g]. *)
Definition demo_active_5 : ExecutionAuthority :=
  @auth_step eigen_reference demo_admitted
    (op_tryCommit demo_token demo_goal_ptr (Some (Shared 2 (demo_bundle_at 5 20)))).

Lemma demo_active_5_reachable : @reachable eigen_reference demo_active_5.
Proof.
  unfold demo_active_5. generalize demo_admitted_reachable. generalize demo_admitted. intros a Ha.
  by apply (@reach_step eigen_reference a).
Qed.

(** The anchor the store hands out for half a second later. *)
Definition demo_anchor_5 : option ExecutionAnchor :=
  @reserveAnchor eigen_reference 10000000000 10500000000 demo_active_5.

Lemma reserved_anchor_accepted_witness :
  exists anchor b, demo_anchor_5 = Some anchor /\ active_bundle demo_active_5 = Some b /\
    @sample eigen_reference (sp_obj b) 10500000000 = Some (an_state anchor).
Proof.
  destruct demo_anchor_5 as [anchor|] eqn:E; [|exfalso; vm_compute in E; discriminate].
  destruct (@reserved_anchor_accepted eigen_reference _ _ _ _ demo_active_5_reachable E)
    as (b & Hb & _ & _ & Hs & _).
  exists anchor, b. split; [reflexivity|]. split; [exact Hb|exact Hs].
Defined.

Definition demo_stage (g : Z) : ExecutionAuthority :=
  match demo_anchor_5 with
  | Some anchor =>
      @auth_step eigen_reference demo_active_5
        (op_stagePending (mkToken demo_identity 1 2) anchor demo_goal_ptr
           (Some (Shared 4 (demo_bundle_at g 21))))
  | None => demo_active_5
  end.

Definition demo_activate (g : Z) : bool * ExecutionAuthority :=
  @activatePendingIfDueAndFinalize eigen_reference 10500000000 (snapshot (demo_stage g))
    (fun _ => cb_returns true) (demo_stage g).

Lemma demo_stage_reachable g : @reachable eigen_reference (demo_stage g).
Proof.
  unfold demo_stage. generalize demo_active_5_reachable. generalize demo_active_5. intros a Ha.
  destruct demo_anchor_5; [by apply (@reach_step eigen_reference a)|done].
Qed.

Lemma activation_exact_witness :
  fst (demo_activate 6) = true /\
  exists g b, staged_ (demo_stage 6) = mkStaged (Some g) (Some b) (b_valid_from_ns (sp_obj b)).
Proof.
  assert (E : fst (demo_activate 6) = true) by (vm_compute; reflexivity).
  split; [exact E|].
  pose proof (@activation_exact eigen_reference 10500000000 (snapshot (demo_stage 6))
    (fun _ => cb_returns true) (demo_stage 6) (demo_stage_reachable 6)) as Ha.
  revert Ha E. unfold demo_activate.
  destruct (activatePendingIfDueAndFinalize 10500000000 (snapshot (demo_stage 6))
    (fun _ => cb_returns true) (demo_stage 6)) as [r a'].
  intros [Ht _] E. simpl in E. subst r. destruct (Ht eq_refl) as (g & b & Hs & _).
  exists g, b. exact Hs.
Defined.

(** The commit operations refuse a candidate older than the active record
    ("a late result may never replace the active record with an older
    generation"); staging and activation do not: a reachable authority activates
    generation 3 over generation 5. *)
Theorem activation_lowers_generation :
  exists a, @reachable eigen_reference a /\
    field_or_zero b_bundle_generation (active_bundle a) = 5 /\
    exists s, fst (@activatePendingIfDueAndFinalize eigen_reference 10500000000 s
                     (fun _ => cb_returns true) a) = true /\
      field_or_zero b_bundle_generation (active_bundle
        (snd (@activatePendingIfDueAndFinalize eigen_reference 10500000000 s
                (fun _ => cb_returns true) a))) = 3.
Proof.
  exists (demo_stage 3). split; [apply demo_stage_reachable|].
  split; [vm_compute; reflexivity|]. exists (snapshot (demo_stage 3)).
  split; vm_compute; reflexivity.
Qed.

(** [invalidate] resets every lifecycle facet so that no command-less
    snapshot claims a tracking phase; [invalidateIfCurrent] revokes the command
    and leaves phase, recovery and safety ownership as they were. *)
Theorem invalidateIfCurrent_keeps_phase :
  exists a s, @reachable eigen_reference a /\
    fst (invalidateIfCurrent s a) = true /\
    active_bundle (snd (invalidateIfCurrent s a)) = None /\
    phase (lifecycle_ (snd (invalidateIfCurrent s a))) = phTrackingBackup /\
    safety (lifecycle_ (snd (invalidateIfCurrent s a))) = kSafetySuffix /\
    phase (lifecycle_ (invalidate a)) = phInitialHold.
Proof.
  exists (@auth_step eigen_reference demo_live (op_observeSampledSafetyRole demo_bundle kBackup)).
  exists (snapshot (@auth_step eigen_reference demo_live
                      (op_observeSampledSafetyRole demo_bundle kBackup))).
  split; [|split_and!; vm_compute; reflexivity].
  generalize demo_live_reachable. generalize demo_live. intros a Ha.
  by apply (@reach_step eigen_reference a).
Qed.
