(* ===== verification/Sampler.v ===== *)
(** * Sampling the command and the measured state

    Model of [src/execution/.../command_sampler.hpp], [execution_state_store.hpp],
    [execution_state_lease.hpp], [execution_state_gate.hpp] and
    [certified_continuation.hpp]: the read side of the authority, the epoch-tagged
    store of the measured state, the failure latch and the continuation window. *)

From S2P Require Import Prelude Float64 Float64Facts TimeNs Geometry World Candidate Messages.
From S2P Require Import Lifecycle Authority AuthorityInv AuthorityProps.

(** ** The measured state *)

Record ExecutionStateLease : Type := mkLease {
  lease_state : KinematicState;
  ingress_sequence : Z
}.

Record ExecutionStateStore : Type := mkStateStore {
  active_epoch_ : Z;
  next_ingress_sequence_ : Z;
  state_ : option ExecutionStateLease
}.

Definition ExecutionStateStore_init : ExecutionStateStore := mkStateStore 0 0 None.

Section StateStore.
Context `{EigenOps}.

Definition publish_state (state : KinematicState) (s : ExecutionStateStore)
  : bool * ExecutionStateStore :=
  if negb (KinematicState_finite state) then (false, s)
  else if negb (active_epoch_ s =? 0) && negb (k_localization_epoch state =? active_epoch_ s)
  then (false, s)
  else if match state_ s with
          | Some l => k_source_stamp_ns state <=? k_source_stamp_ns (lease_state l)
          | None => false
          end then (false, s)
  else
    let ingress := u64_inc (next_ingress_sequence_ s) in
    (true, mkStateStore (k_localization_epoch state) ingress (Some (mkLease state ingress))).

Definition resetForLocalizationEpoch (localization_epoch : Z) (s : ExecutionStateStore)
  : bool * ExecutionStateStore :=
  if localization_epoch =? 0 then (false, s)
  else (true, mkStateStore localization_epoch (next_ingress_sequence_ s) None).

Inductive state_op : Type :=
| op_publish_state (state : KinematicState)
| op_reset_epoch (localization_epoch : Z).

Definition state_step (s : ExecutionStateStore) (o : state_op) : ExecutionStateStore :=
  match o with
  | op_publish_state state => snd (publish_state state s)
  | op_reset_epoch e => snd (resetForLocalizationEpoch e s)
  end.
End StateStore.

(** ** The failure latch *)

(** [compare_exchange_strong(false, true)] *)
Definition tryLatch (latched_ : bool) : bool * bool :=
  if latched_ then (false, latched_) else (true, true).

Definition resetForNewGoal (latched_ : bool) : bool := false.
Definition allowsCommandExposure (latched_ : bool) : bool := negb latched_.

(** ** The command sampler *)

Inductive SampleStatus : Type :=
| kNoActiveBundle | kAwaitingActivation | kActiveSample | kStoppedHoldSample | kExpiredLease
| kGoalMismatch | kEvaluatorFailure.
#[export] Instance SampleStatus_eq_dec : EqDecision SampleStatus.
Proof. solve_decision. Defined.

Record SampleResult : Type := mkSample {
  sr_bundle : BundlePtr;
  sr_point : option TrajectoryPoint;
  sr_awaiting_activation : bool;
  sr_planned_stop_hold : bool;
  sr_status : SampleStatus;
  sr_timeline_version : Z
}.

Definition SampleResult_bool (r : SampleResult) : bool := has (sr_bundle r) && has (sr_point r).

Definition goal_mismatch (expected_goal_epoch : Z) (b : shared CandidateBundle) : bool :=
  negb (expected_goal_epoch =? 0) && negb (b_goal_epoch (sp_obj b) =? expected_goal_epoch).

Section CommandSampler.
Context `{EigenOps}.

Definition sampleActive (timeline : ExecutionAuthoritySnapshot) (stamp_ns expected_goal_epoch : Z)
  : SampleResult :=
  let version := s_version timeline in
  match s_active timeline with
  | None =>
      match s_pending timeline with
      | None => mkSample None None false false kNoActiveBundle version
      | Some pending =>
          if goal_mismatch expected_goal_epoch pending
          then mkSample (Some pending) None false false kGoalMismatch version
          else mkSample (Some pending) None true false kAwaitingActivation version
      end
  | Some bundle =>
      let b := sp_obj bundle in
      if goal_mismatch expected_goal_epoch bundle
      then mkSample (Some bundle) None false false kGoalMismatch version
      else if stamp_ns <? b_valid_from_ns b
      then mkSample (Some bundle) None true false kAwaitingActivation version
      else
        let point := sample b stamp_ns in
        let declared_end_ns :=
          if 0 <? b_declared_end_ns b then Some (b_declared_end_ns b)
          else secondsSumToNanoseconds (b_start_wall_time_s b) (b_duration_s b) in
        let ended :=
          match declared_end_ns with
          | Some e => negb (has point) && (b_valid_until_ns b <? stamp_ns) && (e <=? stamp_ns)
          | None => false
          end in
        match (if ended then sampleAtDeclaredEnd b else None) with
        | Some endpoint => mkSample (Some bundle) (Some endpoint) false true kStoppedHoldSample version
        | None =>
            let status :=
              if has point then kActiveSample
              else if b_valid_until_ns b <? stamp_ns then kExpiredLease else kEvaluatorFailure in
            mkSample (Some bundle) point false false status version
        end
  end.

Definition CommandSampler_sample (store : ExecutionAuthority) (stamp_ns expected_goal_epoch : Z)
  : SampleResult :=
  sampleActive (snapshot store) stamp_ns expected_goal_epoch.
End CommandSampler.

(** ** Certified continuation of a pass-through boundary *)

Record CertifiedMainContinuationBoundaryFacts : Type := mkBoundaryFacts {
  pass_through_goal : bool;
  coincident_terminal_stop : bool;
  trajectory_finished : bool;
  has_boundary_event : bool;
  has_boundary_constraint : bool;
  candidate_localization_epoch : Z;
  expected_localization_epoch : Z;
  candidate_goal_epoch : Z;
  expected_goal_epoch : Z;
  candidate_request_id : Z;
  expected_request_id : Z;
  boundary_kind : RouteBoundaryEventKind;
  boundary_role : CandidateRole;
  boundary_junction_index : Z;
  constraint_junction_index : Z;
  expected_junction_index : Z;
  bf_boundary_stamp_ns : Z;
  bf_declared_start_ns : Z;
  bf_declared_end_ns : Z;
  main_interval_begin_ns : Z;
  main_interval_end_ns : Z
}.

Record CertifiedMainContinuationWindow : Type := mkWindow {
  w_boundary_stamp_ns : Z;
  w_main_end_stamp_ns : Z
}.

(** [std::llround] of a finite long double. *)
Definition minimumMainContinuationReserveNs : Z :=
  let reserve_ns := f80_mul (f80_of_f64 kMinimumMainReserveS) (f80_of_Z 1000000000) in
  if negb (isfinite reserve_ns) || fgt reserve_ns (f80_of_Z i64_max) then i64_max
  else i64_of_f (f80_round reserve_ns).

Definition certifiedMainContinuationBoundaryEligible (facts : CertifiedMainContinuationBoundaryFacts)
  : bool :=
  if negb (pass_through_goal facts) || coincident_terminal_stop facts
     || trajectory_finished facts
     || negb (has_boundary_event facts) || negb (has_boundary_constraint facts)
     || (candidate_localization_epoch facts =? 0)
     || negb (candidate_localization_epoch facts =? expected_localization_epoch facts)
     || (candidate_goal_epoch facts =? 0)
     || negb (candidate_goal_epoch facts =? expected_goal_epoch facts)
     || (candidate_request_id facts =? 0)
     || negb (candidate_request_id facts =? expected_request_id facts)
     || (boundary_kind facts !=? kEventPassThrough)
     || (boundary_role facts !=? kMain)
     || negb (boundary_junction_index facts =? expected_junction_index facts)
     || negb (constraint_junction_index facts =? expected_junction_index facts)
     || (bf_boundary_stamp_ns facts <=? 0)
     || (bf_declared_end_ns facts <=? bf_declared_start_ns facts)
     || (bf_boundary_stamp_ns facts <? bf_declared_start_ns facts)
     || (bf_declared_end_ns facts <=? bf_boundary_stamp_ns facts) then false
  else
    let boundary_offset_ns := bf_boundary_stamp_ns facts - bf_declared_start_ns facts in
    let main_reserve_ns := minimumMainContinuationReserveNs in
    (0 <=? main_interval_begin_ns facts)
    && (main_interval_begin_ns facts <? main_interval_end_ns facts)
    && (main_interval_begin_ns facts <=? boundary_offset_ns)
    && (boundary_offset_ns <? main_interval_end_ns facts)
    && (main_reserve_ns <=? main_interval_end_ns facts - boundary_offset_ns).

Definition certifiedMainContinuationHandoffReady (window : CertifiedMainContinuationWindow)
    (now_ns : Z) : bool :=
  if (now_ns <=? 0) || (w_boundary_stamp_ns window <=? 0)
     || (w_main_end_stamp_ns window <=? w_boundary_stamp_ns window)
     || (w_main_end_stamp_ns window <=? now_ns) then false
  else minimumMainContinuationReserveNs <=? w_main_end_stamp_ns window - now_ns.

(** ** Lemmas *)

Example reserve_is_600_ms : minimumMainContinuationReserveNs = 600000000.
Proof. vm_compute. reflexivity. Qed.

(** What the store holds after any run: the state of the active epoch. *)
Definition state_inv (s : ExecutionStateStore) : Prop :=
  match state_ s with
  | Some l => k_localization_epoch (lease_state l) = active_epoch_ s /\ active_epoch_ s <> 0 /\
              ingress_sequence l = next_ingress_sequence_ s
  | None => True
  end.

Section StateStoreFacts.
Context `{EigenOps}.

Lemma KinematicState_finite_epoch s : KinematicState_finite s = true -> k_localization_epoch s <> 0.
Proof.
  unfold KinematicState_finite. cbv zeta. intros Hf.
  repeat (apply andb_true_iff in Hf as [Hf ?]). by bsplit.
Qed.

Lemma state_inv_step s o : state_inv s -> state_inv (state_step s o).
Proof.
  intros Hs. destruct o as [state|e]; cbn [state_step].
  - unfold publish_state. destruct (negb (KinematicState_finite state)) eqn:Ef; [done|].
    apply negb_false_iff in Ef. destruct (_ && _); [done|].
    destruct (match state_ s with Some _ => _ | None => _ end); [done|]. cbn.
    split_and!; try done. by apply KinematicState_finite_epoch.
  - unfold resetForLocalizationEpoch. by destruct (e =? 0).
Qed.

(** One publication replaces a state of the same epoch by a newer one. *)
Lemma state_step_publish s state l :
  state_inv s -> state_ s = Some l ->
  state_step s (op_publish_state state) = s \/
  exists l', state_ (state_step s (op_publish_state state)) = Some l' /\ lease_state l' = state /\
    k_localization_epoch state = k_localization_epoch (lease_state l) /\
    k_source_stamp_ns (lease_state l) < k_source_stamp_ns state /\
    active_epoch_ (state_step s (op_publish_state state)) = active_epoch_ s.
Proof.
  intros Hs Hl. cbn [state_step]. unfold publish_state. unfold state_inv in Hs. rewrite Hl in *.
  destruct Hs as (He & He0 & _).
  destruct (negb (KinematicState_finite state)); [by left|].
  destruct (_ && _) eqn:Ee; [by left|]. destruct (_ <=? _) eqn:Et; [by left|]. right. cbn.
  breflect. assert (k_localization_epoch state = active_epoch_ s) by (destruct Ee; congruence).
  eexists. split_and!; done || lia || congruence.
Qed.
End StateStoreFacts.

(** ** Properties *)

Section SamplerProperties.
Context `{EigenOps}.

(** The measured state only moves forward: until the next epoch reset, every
    later load is the same lease or one of the same localization epoch with a
    strictly later source stamp, and the loaded state always belongs to the
    active epoch. *)
Theorem state_store_monotone (ops1 ops2 : list KinematicState) (resets : list state_op)
    (l l' : ExecutionStateLease) :
  let s0 := run state_step ExecutionStateStore_init resets in
  let s1 := run state_step s0 (op_publish_state <$> ops1) in
  let s2 := run state_step s1 (op_publish_state <$> ops2) in
  state_ s1 = Some l -> state_ s2 = Some l' ->
  k_localization_epoch (lease_state l') = active_epoch_ s2 /\
  k_localization_epoch (lease_state l') = k_localization_epoch (lease_state l) /\
  (l' = l \/ k_source_stamp_ns (lease_state l) < k_source_stamp_ns (lease_state l')).
Proof.
  intros s0 s1 s2 H1 H2.
  assert (Hi : state_inv s1).
  { unfold s1, s0. rewrite <- run_app. apply run_invariant; [done|]. apply state_inv_step. }
  revert H2. unfold s2. clearbody s1. clear s2. revert s1 l H1 Hi.
  induction ops2 as [|k ops2 IH]; intros s1 l H1 Hi.
  - cbn. rewrite H1. intros [= <-]. unfold state_inv in Hi. rewrite H1 in Hi. by split_and!; [apply Hi|..|left].
  - rewrite fmap_cons.
    change (run state_step s1 (op_publish_state k :: (op_publish_state <$> ops2))) with
      (run state_step (state_step s1 (op_publish_state k)) (op_publish_state <$> ops2)).
    intros H2. pose proof (state_inv_step s1 (op_publish_state k) Hi) as Hi'.
    destruct (state_step_publish s1 k l Hi H1) as [Heq|(lm & Hlm & <- & Hep & Hlt & _)].
    + rewrite Heq in *. by apply IH.
    + destruct (IH _ lm Hlm Hi' H2) as (A & B & C). split_and!; [done|congruence|right].
      destruct C as [->|]; lia.
Qed.

(** C11. A sample is exactly what its status says.  An active sample is a point
    of the active command inside its lease; the stopped hold is the declared
    endpoint, offered only after both the lease and the declared end have
    passed; every other status carries no point, and no point ever comes from a
    command of another goal. *)
Theorem sampler_sound (a : ExecutionAuthority) (stamp expected : Z) :
  let r := CommandSampler_sample a stamp expected in
  (is_Some (sr_point r) -> exists b, active_bundle a = Some b /\ sr_bundle r = Some b /\
     (expected = 0 \/ b_goal_epoch (sp_obj b) = expected)) /\
  match sr_status r with
  | kActiveSample => exists b, active_bundle a = Some b /\ sr_point r = sample (sp_obj b) stamp /\
      is_Some (sr_point r) /\ b_valid_from_ns (sp_obj b) <= stamp <= b_valid_until_ns (sp_obj b)
  | kStoppedHoldSample => exists b, active_bundle a = Some b /\
      sr_point r = sampleAtDeclaredEnd (sp_obj b) /\ is_Some (sr_point r) /\
      sr_planned_stop_hold r = true /\
      b_valid_until_ns (sp_obj b) < stamp /\ b_declared_end_ns (sp_obj b) <= stamp
  | _ => sr_point r = None
  end.
Proof.
  cbv zeta. unfold CommandSampler_sample, sampleActive. cbn [snapshot s_active s_pending s_version].
  destruct (active_bundle a) as [b|] eqn:Hb.
  2:{ destruct (staged_bundle a) as [p|]; [destruct (goal_mismatch expected p)|];
        split; try done; by intros [? ?]. }
  destruct (goal_mismatch expected b) eqn:Hg; [split; [by intros [? ?]|done]|].
  destruct (stamp <? _) eqn:Hf; [split; [by intros [? ?]|done]|].
  assert (Hgoal : expected = 0 \/ b_goal_epoch (sp_obj b) = expected).
  { unfold goal_mismatch in Hg. breflect. destruct Hg; breflect; auto. }
  destruct (sample (sp_obj b) stamp) as [p|] eqn:Hs.
  - pose proof (sample_spec _ _ _ Hs) as [Hl _].
    assert (Hn : forall o, (match o with Some e => negb (has (Some p)) && (b_valid_until_ns (sp_obj b) <? stamp)
                             && (e <=? stamp) | None => false end) = false) by (by intros []).
    rewrite Hn. cbn. split; [by exists b|]. exists b. rewrite Hs. split_and!; done || (by eexists) || lia.
  - cbn [has negb andb]. destruct (0 <? b_declared_end_ns (sp_obj b)) eqn:Hd.
    + destruct ((_ <? stamp) && (_ <=? stamp)) eqn:He; cbn.
      * breflect. destruct (sampleAtDeclaredEnd (sp_obj b)) as [e|] eqn:Hend.
        -- cbn. split; [by exists b|]. exists b. rewrite Hend. split_and!; done || lia.
        -- cbn. destruct (_ <? stamp); split; done || by intros [? ?].
      * destruct (_ <? stamp); split; done || by intros [? ?].
    + destruct (secondsSumToNanoseconds _ _) as [e|] eqn:Hse.
      * destruct ((_ <? stamp) && _) eqn:He; [|destruct (_ <? stamp); split; done || by intros [? ?]].
        destruct (sampleAtDeclaredEnd (sp_obj b)) as [q|] eqn:Hend;
          [|destruct (_ <? stamp); split; done || by intros [? ?]].
        exfalso. unfold sampleAtDeclaredEnd in Hend. destruct (_ || _) eqn:Ev in Hend; [done|].
        apply orb_false_iff in Ev as [Ev _]. apply negb_false_iff in Ev.
        apply CandidateBundle_valid_spec in Ev as (_ & _ & _ & (? & _) & _). breflect. lia.
      * destruct (_ <? stamp); split; done || by intros [? ?].
Qed.

(** In every reachable authority the sampler never sees a successor without
    a command: with no active command it reports so, and a visible command
    inside its lease whose evaluator answers is sampled. *)
Theorem sampler_reachable (a : ExecutionAuthority) (stamp expected : Z) :
  reachable a ->
  (active_bundle a = None -> sr_status (CommandSampler_sample a stamp expected) = kNoActiveBundle) /\
  (forall b p, active_bundle a = Some b -> sample (sp_obj b) stamp = Some p ->
     expected = 0 \/ expected = b_goal_epoch (sp_obj b) ->
     CommandSampler_sample a stamp expected
       = mkSample (Some b) (Some p) false false kActiveSample (timeline_version_ a)).
Proof.
  intros Hi%reachable_inv. split.
  - intros Hb. unfold CommandSampler_sample, sampleActive. cbn [snapshot s_active s_pending s_version].
    rewrite Hb. destruct (inv_staged_pair a Hi) as [E|(g & s & E & _)]; [by rewrite E|].
    pose proof (inv_order a Hi) as Ho. rewrite E, Hb in Ho. by destruct Ho.
  - intros b p Hb Hp He. unfold CommandSampler_sample, sampleActive.
    cbn [snapshot s_active s_pending s_version]. rewrite Hb, Hp.
    pose proof (sample_spec _ _ _ Hp) as [Hl _].
    assert (goal_mismatch expected b = false) as ->.
    { unfold goal_mismatch. breflect. destruct He as [->| ->]; [by left|]. by right. }
    rewrite (proj2 (Z.ltb_ge _ _)) by lia. cbn [has negb andb].
    by destruct (if 0 <? _ then _ else _).
Qed.

(** A continuation granted at a boundary always leaves the planner its whole
    reserve: eligibility guarantees at least 600 ms of MAIN after the boundary,
    and readiness can only be lost, never regained, as time passes. *)
Theorem continuation_reserve (facts : CertifiedMainContinuationBoundaryFacts)
    (window : CertifiedMainContinuationWindow) (now later : Z) :
  (certifiedMainContinuationBoundaryEligible facts = true ->
     bf_declared_start_ns facts <= bf_boundary_stamp_ns facts < bf_declared_end_ns facts /\
     bf_boundary_stamp_ns facts + 600000000
       <= bf_declared_start_ns facts + main_interval_end_ns facts) /\
  (now <= later -> 0 < now -> certifiedMainContinuationHandoffReady window later = true ->
     certifiedMainContinuationHandoffReady window now = true /\
     later + 600000000 <= w_main_end_stamp_ns window).
Proof.
  split.
  - unfold certifiedMainContinuationBoundaryEligible. rewrite reserve_is_600_ms.
    match goal with |- (if ?c then _ else _) = _ -> _ => destruct c eqn:E end; [done|].
    intros Hr. cbv zeta in Hr. bsplit. lia.
  - unfold certifiedMainContinuationHandoffReady. rewrite reserve_is_600_ms.
    intros Hle Hn. destruct (_ || _ || _ || _) eqn:E in |- *; [done|].
    intros Hr. breflect. destruct_and?.
    rewrite (proj2 (Z.leb_gt now 0)), (proj2 (Z.leb_gt (w_boundary_stamp_ns window) 0)),
      (proj2 (Z.leb_gt (w_main_end_stamp_ns window) (w_boundary_stamp_ns window))),
      (proj2 (Z.leb_gt (w_main_end_stamp_ns window) now)) by lia.
    cbn [orb]. rewrite Z.leb_le. lia.
Qed.
End SamplerProperties.

(** ** Witnesses *)

Definition demo_state (stamp_ns : Z) : KinematicState :=
  mkKinematic vec3_zero vec3_zero vec3_zero vec3_zero true true quat_identity fzero stamp_ns stamp_ns
    1 "world"%string "base_link"%string.

Lemma state_store_monotone_witness :
  exists l l',
    state_ (run (@state_step eigen_reference) ExecutionStateStore_init
              (op_publish_state <$> [demo_state 5])) = Some l /\
    state_ (run (@state_step eigen_reference)
              (run (@state_step eigen_reference) ExecutionStateStore_init
                 (op_publish_state <$> [demo_state 5]))
              (op_publish_state <$> [demo_state 4; demo_state 7])) = Some l' /\
    (l' = l \/ k_source_stamp_ns (lease_state l) < k_source_stamp_ns (lease_state l')).
Proof.
  exists (mkLease (demo_state 5) 1), (mkLease (demo_state 7) 2).
  assert (H1 : state_ (run (@state_step eigen_reference) ExecutionStateStore_init
    (op_publish_state <$> [demo_state 5])) = Some (mkLease (demo_state 5) 1)) by (vm_compute; reflexivity).
  assert (H2 : state_ (run (@state_step eigen_reference)
    (run (@state_step eigen_reference) ExecutionStateStore_init (op_publish_state <$> [demo_state 5]))
    (op_publish_state <$> [demo_state 4; demo_state 7])) = Some (mkLease (demo_state 7) 2))
    by (vm_compute; reflexivity).
  split; [exact H1|]. split; [exact H2|].
  exact (proj2 (proj2 (@state_store_monotone eigen_reference [demo_state 5]
    [demo_state 4; demo_state 7] [] _ _ H1 H2))).
Defined.

Lemma sampler_reachable_witness :
  sr_status (@CommandSampler_sample eigen_reference demo_admitted 10500000000 0) = kNoActiveBundle.
Proof.
  apply (proj1 (@sampler_reachable eigen_reference demo_admitted 10500000000 0 demo_admitted_reachable)).
  vm_compute. reflexivity.
Defined.
