(* ===== verification/Decisions.v ===== *)
(** * Execution decisions

    Model of [src/execution/.../execution_decisions.hpp]: the stateless
    predicates the runtime consults before it keeps, replaces or holds a command,
    and the source-time phase certificate. *)

From S2P Require Import Prelude Float64 Float64Facts TimeNs Geometry World Candidate Lifecycle.

(** [static_cast<CellState>] of an [int]: the value modulo 256 names an
    enumerator or none. *)
Definition cell_of_int (z : Z) : option CellState :=
  nth_error [kUndefined; kUnknown; kOutOfMap; kOccupied; kKnownFree; kFrontier]
    (Z.to_nat (z mod 256)).

Definition kRequireKnownFree_int : Z := 1.

Section Decisions.
Context `{EigenOps}.

Definition hasObservedClearanceFailure (validation : TrajectoryValidationResult) (generation : Z)
    (world : WorldSnapshotIdentity) : bool :=
  let evaluated := tv_validated_world validation in
  let world_matches :=
    negb (wi_localization_epoch world =? 0) && negb (wi_generation world =? 0)
    && negb (wi_revision world =? 0)
    && (wi_localization_epoch evaluated =? wi_localization_epoch world)
    && (wi_generation evaluated =? wi_generation world)
    && (wi_revision evaluated =? wi_revision world)
    && (wi_observation_stamp_ns evaluated =? wi_observation_stamp_ns world) in
  let cell := cell_of_int (tv_first_blocked_cell_state validation) in
  let blocked :=
    (cell ==? Some kOccupied) || (cell ==? Some kOutOfMap)
    || (((cell ==? Some kUnknown) || (cell ==? Some kFrontier))
        && (tv_evaluated_unknown_policy validation =? kRequireKnownFree_int)) in
  negb (tv_valid validation) && tv_blocking_cell_observed validation && blocked
  && negb (generation =? 0) && (tv_evaluated_generation validation =? generation) && world_matches
  && v_allFinite (tv_first_blocked_position validation)
  && isfinite (tv_first_blocked_time_s validation) && fge (tv_first_blocked_time_s validation) fzero.

Record PassThroughTerminalAckFacts : Type := mkAckFacts {
  successful_terminal_status : bool;
  status_matches_active_identity : bool;
  desired_goal_is_pass_through : bool;
  outgoing_route_exists : bool;
  certified_main_command : bool;
  certified_continuation_boundary : bool;
  execution_identity_current : bool;
  failure_latched : bool;
  safety_suffix_active : bool;
  command_exposure_allowed : bool;
  command_lease_valid : bool
}.

Definition passThroughTerminalAckMayRetainCommand (facts : PassThroughTerminalAckFacts) : bool :=
  successful_terminal_status facts
  && status_matches_active_identity facts
  && desired_goal_is_pass_through facts && outgoing_route_exists facts
  && certified_main_command facts && certified_continuation_boundary facts
  && execution_identity_current facts && negb (failure_latched facts)
  && negb (safety_suffix_active facts) && command_exposure_allowed facts
  && command_lease_valid facts.

Definition stoppedHoldCommandRole (endpoint_role : CandidateRole) (endpoint_valid : bool)
  : CandidateRole :=
  if endpoint_valid && (endpoint_role ==? kBackup) then kBackup else kMain.

Inductive RetainedValidationTransition : Type := PreserveExistingState | FailClosed.

Definition commandAnchorRecoveryDue (command_available : bool) (command_role : CandidateRole)
    (command_anchor_error_m maximum_anchor_error_m : f64) : bool :=
  if negb command_available || (command_role !=? kMain)
     || negb (isfinite command_anchor_error_m)
     || negb (isfinite maximum_anchor_error_m) || fle maximum_anchor_error_m fzero then false
  else fge command_anchor_error_m maximum_anchor_error_m.

Definition terminalStopMayDeferAnchorRecovery (stop_waypoint command_available
    trajectory_metadata_valid terminal_stop : bool) (command_role : CandidateRole)
    (anchor_recovery_due : bool) (anchor_error_m maximum_anchor_error_m : f64)
    (projected_tracking_certificate_exceeded : bool) : bool :=
  stop_waypoint && command_available && trajectory_metadata_valid
  && terminal_stop && (command_role ==? kMain)
  && anchor_recovery_due && isfinite anchor_error_m
  && isfinite maximum_anchor_error_m && fgt maximum_anchor_error_m fzero
  && fle anchor_error_m maximum_anchor_error_m
  && negb projected_tracking_certificate_exceeded.

Definition terminalStopCompletionObserved (terminal_stop nominal_main_terminal endpoint_valid : bool)
    (endpoint_error_m measured_error_m acceptance_tolerance_m : f64) : bool :=
  terminal_stop && nominal_main_terminal && endpoint_valid
  && isfinite endpoint_error_m && isfinite measured_error_m
  && isfinite acceptance_tolerance_m && fge acceptance_tolerance_m fzero
  && fle endpoint_error_m acceptance_tolerance_m
  && fle measured_error_m acceptance_tolerance_m.

Definition terminalStopEndpointContractValid (terminal_stop : bool) (bundle_kind : CandidateBundleKind)
    (bundle_role endpoint_role : CandidateRole) : bool :=
  let terminal_bundle_kind := (bundle_kind ==? kTerminalStop) || (bundle_kind ==? kMainWithBackup) in
  let endpoint_role_valid := (endpoint_role ==? kMain) || (endpoint_role ==? kBackup) in
  terminal_stop && terminal_bundle_kind && (bundle_role ==? kMain) && endpoint_role_valid.

Definition terminalSuccessorHoldMayTransfer (predecessor_terminal_stop predecessor_pass_through
    successor_stop coincident_route successor_identity_newer predecessor_endpoint_valid
    endpoint_matches_successor measured_inside_successor execution_identity_current
    desired_identity_current command_exposure_allowed : bool) : bool :=
  predecessor_terminal_stop && predecessor_pass_through && successor_stop
  && coincident_route && successor_identity_newer && predecessor_endpoint_valid
  && endpoint_matches_successor && measured_inside_successor
  && execution_identity_current && desired_identity_current
  && command_exposure_allowed.

Definition retainedValidationTransition (usable : bool) : RetainedValidationTransition :=
  if usable then PreserveExistingState else FailClosed.

Definition terminalMainHasIndeterminatePreStartPressure (bundle : CandidateBundle)
    (source_sample_valid : bool) (source_ns now_ns : Z)
    (raw_error_m tracking_limit_m command_anchor_limit_m : f64) : bool :=
  (b_kind bundle ==? kTerminalStop)
  && b_terminal_stop bundle && negb (b_backup_available bundle)
  && (b_role bundle ==? kMain)
  && hasDeclaredEndpointMetadata bundle && negb source_sample_valid
  && (0 <? source_ns) && (source_ns <? b_declared_start_ns bundle)
  && (b_declared_start_ns bundle <=? now_ns) && (now_ns <? b_declared_end_ns bundle)
  && (b_valid_from_ns bundle <=? now_ns) && (now_ns <=? b_valid_until_ns bundle)
  && isfinite raw_error_m && isfinite tracking_limit_m
  && isfinite command_anchor_limit_m && fgt tracking_limit_m fzero
  && fge command_anchor_limit_m tracking_limit_m && fgt raw_error_m tracking_limit_m
  && fle raw_error_m command_anchor_limit_m.

(** The discarded arguments of the source are kept in the signature. *)
Definition measuredStateEmergencyMayReplaceCommittedCommand
    (validate_without_new_commit committed_suffix_usable fresh_vehicle_state
     committed_command_available command_anchor_valid tracking_certificate_exceeded : bool)
    (recovery_state : ExecutionRecoveryState) (committed_role : CandidateRole)
    (projected_tracking_certificate_exceeded current_vehicle_state_known_free
     safety_trajectory_available terminal_stop indeterminate_pre_start_tracking
     clearance_exceeded : bool) : bool :=
  let clearance_recovery :=
    clearance_exceeded && current_vehicle_state_known_free && negb safety_trajectory_available in
  negb validate_without_new_commit && fresh_vehicle_state
  && committed_command_available && command_anchor_valid
  && clearance_recovery
  && (recovery_state ==? rTrackMain)
  && (committed_role !=? kEmergency).

Definition makeMeasuredEmergencyBoundary (source : TrajectoryPoint)
    (acceleration_estimated jerk_estimated : bool) : TrajectoryPoint :=
  mkPoint (p_position_world source) (p_velocity_world source)
    (if acceleration_estimated then vec3_zero else p_acceleration_world source)
    (if jerk_estimated then vec3_zero else p_jerk_world source)
    (p_yaw source) (p_yaw_rate source) (p_role source) (p_finished source)
    (p_trajectory_time_s source).

Definition plannerEmergencyTerminalAltitude (measured_altitude_m command_anchor_altitude_m
    correction_limit_m : f64) : f64 :=
  if negb (isfinite measured_altitude_m) then fnan
  else if negb (isfinite command_anchor_altitude_m)
          || negb (isfinite correction_limit_m) || flt correction_limit_m fzero
  then measured_altitude_m
  else
    let bounded_correction :=
      fclamp (f64_sub command_anchor_altitude_m measured_altitude_m)
        (fopp correction_limit_m) correction_limit_m in
    f64_add measured_altitude_m bounded_correction.

Definition terminalHoldIsPending (command_available reaches_goal stop_waypoint : bool)
    (terminal_bundle_generation : Z) : bool :=
  command_available && reaches_goal && stop_waypoint && negb (terminal_bundle_generation =? 0).

Definition committedTerminalBundleHoldIsPending (command_available stop_waypoint terminal_stop_bundle
    main_role identity_matches : bool) (bundle_generation : Z) : bool :=
  command_available && stop_waypoint && terminal_stop_bundle && main_role
  && identity_matches && negb (bundle_generation =? 0).

Definition backupStopNeedsMeasuredRestart (state : ExecutionRecoveryState)
    (completion_observed terminal_hold_pending : bool) : bool :=
  (state ==? rTrackBackup) && completion_observed && negb terminal_hold_pending.

Definition stoppedPlanningTimeoutMayFailClosed (state : ExecutionRecoveryState) (stationary : bool)
    (elapsed_s timeout_s : f64) : bool :=
  let stopped_state := (state ==? rInitialHold) || (state ==? rStoppedRecovery) in
  stopped_state && stationary && isfinite elapsed_s
  && isfinite timeout_s && fgt timeout_s fzero && fge elapsed_s timeout_s.

Definition worldFreshnessSuspendedCommandMayResume (suspended_generation recertified_generation
    bundle_localization_epoch bundle_goal_epoch active_localization_epoch executing_goal_epoch
    valid_until_ns now_ns : Z)
    (bundle_valid planner_failure_latched execution_lease_allows_command : bool) : bool :=
  negb (suspended_generation =? 0)
  && (recertified_generation =? suspended_generation) && bundle_valid
  && (bundle_localization_epoch =? active_localization_epoch)
  && (bundle_goal_epoch =? executing_goal_epoch) && (now_ns <=? valid_until_ns)
  && negb planner_failure_latched && execution_lease_allows_command.

Definition supersedingBundleMayRemainAvailable (sampled_generation current_generation
    bundle_localization_epoch bundle_goal_epoch active_localization_epoch executing_goal_epoch
    valid_until_ns now_ns : Z)
    (bundle_valid planner_failure_latched execution_lease_allows_command : bool) : bool :=
  negb (sampled_generation =? 0)
  && (sampled_generation <=? current_generation) && bundle_valid
  && (bundle_localization_epoch =? active_localization_epoch)
  && (bundle_goal_epoch =? executing_goal_epoch) && (now_ns <=? valid_until_ns)
  && negb planner_failure_latched && execution_lease_allows_command.

Inductive StaleCommandPublicationDisposition : Type :=
| kDropStale | kRetainSuperseding | kDispositionFailClosed.

Definition classifyStaleCommandPublication (sampled_execution_still_current
    superseding_bundle_may_remain_available : bool) : StaleCommandPublicationDisposition :=
  if negb sampled_execution_still_current then kDropStale
  else if superseding_bundle_may_remain_available then kRetainSuperseding else kDispositionFailClosed.

Definition committedSafetySuffixIsUsable (safety_trajectory_available : bool)
    (elapsed_s total_duration_s safety_transition_s anchor_error_m maximum_anchor_error_m : f64)
    (sampled_path_clear : bool) : bool :=
  let common_contract :=
    isfinite elapsed_s && isfinite total_duration_s && isfinite safety_transition_s
    && isfinite anchor_error_m && isfinite maximum_anchor_error_m
    && fge elapsed_s fzero && fgt total_duration_s elapsed_s
    && fgt maximum_anchor_error_m fzero
    && fle anchor_error_m maximum_anchor_error_m && sampled_path_clear in
  if negb common_contract then false
  else if negb safety_trajectory_available then
    fle (fabs (f64_sub safety_transition_s elapsed_s)) f64_1e_9
  else fge safety_transition_s elapsed_s && fle safety_transition_s total_duration_s.

Definition retainedSafetyTransitionMayActivateBackup (safety_suffix_usable backup_available : bool)
    (sampled_role : CandidateRole) : bool :=
  safety_suffix_usable && backup_available && (sampled_role ==? kBackup).

Definition retainedCommandMatchesExecutionIdentity (bundle_present bundle_has_trajectory_metadata : bool)
    (bundle_localization_epoch execution_localization_epoch bundle_goal_epoch command_goal_epoch
     bundle_request_id : Z) (executing_goal_present : bool) (executing_request_id : Z)
    (same_mission_as_desired : bool) : bool :=
  bundle_present && bundle_has_trajectory_metadata
  && executing_goal_present && same_mission_as_desired
  && negb (command_goal_epoch =? 0)
  && (bundle_localization_epoch =? execution_localization_epoch)
  && (bundle_goal_epoch =? command_goal_epoch)
  && (bundle_request_id =? executing_request_id).

Definition retainedCommandTrackingLimit (planner_tracking_budget_m execution_anchor_limit_m : f64)
  : f64 :=
  if negb (isfinite planner_tracking_budget_m) || flt planner_tracking_budget_m fzero
     || negb (isfinite execution_anchor_limit_m) || flt execution_anchor_limit_m fzero
  then fnan else fmin planner_tracking_budget_m execution_anchor_limit_m.

Record TimeAlignedRetainedTracking : Type := mkTracking {
  support_valid : bool;
  within_limits : bool;
  tracking_error_m : f64;
  absolute_anchor_error_m : f64
}.

Definition assessTimeAlignedRetainedTracking (command_error_at_state_source_m command_error_at_now_m
    tracking_budget_m absolute_anchor_cap_m : f64) : TimeAlignedRetainedTracking :=
  if negb (isfinite command_error_at_state_source_m)
     || flt command_error_at_state_source_m fzero
     || negb (isfinite command_error_at_now_m) || flt command_error_at_now_m fzero
     || negb (isfinite tracking_budget_m) || fle tracking_budget_m fzero
     || negb (isfinite absolute_anchor_cap_m) || fle absolute_anchor_cap_m fzero
  then mkTracking false false fnan fnan
  else
    mkTracking true
      (fle command_error_at_state_source_m tracking_budget_m
       && fle command_error_at_now_m absolute_anchor_cap_m)
      command_error_at_state_source_m command_error_at_now_m.

Inductive PhaseExecutionCertificateStatus : Type := kPhaseInvalid | kPhaseAccepted | kPhaseRejected.
#[export] Instance PhaseExecutionCertificateStatus_eq_dec : EqDecision PhaseExecutionCertificateStatus.
Proof. solve_decision. Defined.

Record PhaseExecutionCertificate : Type := mkPhase {
  ph_status : PhaseExecutionCertificateStatus;
  ph_phase_lag_s : f64;
  ph_source_time_error_m : f64;
  ph_predicted_source_error_m : f64;
  ph_raw_divergence_m : f64;
  ph_source_speed_mps : f64;
  ph_measured_speed_mps : f64;
  ph_relative_velocity_mps : f64
}.

Definition PhaseExecutionCertificate_default : PhaseExecutionCertificate :=
  mkPhase kPhaseInvalid fnan fnan fnan fnan fnan fnan fnan.

Definition phase_accepted (c : PhaseExecutionCertificate) : bool := ph_status c ==? kPhaseAccepted.

(** The inputs of the certificate. *)
Record PhaseInputs : Type := mkPhaseInputs {
  pi_measured_position : vec3;
  pi_measured_velocity : vec3;
  pi_now_ns : Z;
  pi_source_stamp_ns : Z;
  pi_maximum_phase_lag_ns : Z;
  pi_validation_interval_s : f64;
  pi_tracking_position_budget_m : f64;
  pi_absolute_command_anchor_cap_m : f64;
  pi_measured_state_known_free : bool;
  pi_sampled_path_clear : bool
}.

(** The first group of guards. *)
Definition phase_inputs_ok (bundle : CandidateBundle) (i : PhaseInputs) : bool :=
  CandidateBundle_valid bundle && (b_kind bundle ==? kMainWithBackup)
  && (b_role bundle ==? kMain) && negb (b_terminal_stop bundle) && b_backup_available bundle
  && v_allFinite (pi_measured_position i) && v_allFinite (pi_measured_velocity i)
  && (0 <? pi_now_ns i) && (0 <? pi_source_stamp_ns i) && (0 <? pi_maximum_phase_lag_ns i)
  && (pi_source_stamp_ns i <=? pi_now_ns i)
  && isfinite (pi_validation_interval_s i) && negb (fle (pi_validation_interval_s i) fzero)
  && isfinite (pi_tracking_position_budget_m i)
  && negb (fle (pi_tracking_position_budget_m i) fzero)
  && isfinite (pi_absolute_command_anchor_cap_m i)
  && negb (fle (pi_absolute_command_anchor_cap_m i) fzero)
  && pi_measured_state_known_free i && pi_sampled_path_clear i.

(** Both stamps inside the lease, and the lease outlives the interval. *)
Definition phase_lease_ok (bundle : CandidateBundle) (i : PhaseInputs) : bool :=
  let lease_remaining_s :=
    f80_mul (f80_sub (f80_of_Z (b_valid_until_ns bundle)) (f80_of_Z (pi_now_ns i)))
            (f80_lit 1 1000000000) in
  (b_valid_from_ns bundle <=? pi_now_ns i) && (pi_now_ns i <=? b_valid_until_ns bundle)
  && (b_valid_from_ns bundle <=? pi_source_stamp_ns i)
  && (pi_source_stamp_ns i <=? b_valid_until_ns bundle)
  && isfinite lease_remaining_s
  && negb (fgt (f80_of_f64 (pi_validation_interval_s i))
               (f80_add lease_remaining_s (f80_lit 1 1000000000000))).

(** The sample pair is ordered and ends before the backup switch. *)
Definition phase_window_ok (bundle : CandidateBundle) (i : PhaseInputs)
    (command_now command_at_source : TrajectoryPoint) : bool :=
  let phase_lag_ns := pi_now_ns i - pi_source_stamp_ns i in
  (0 <? phase_lag_ns) && (phase_lag_ns <=? pi_maximum_phase_lag_ns i)
  && negb (fgt (p_trajectory_time_s command_at_source)
               (f64_add (p_trajectory_time_s command_now) f64_1e_9))
  && negb (fgt (f64_add (p_trajectory_time_s command_now) (pi_validation_interval_s i))
               (f64_add (b_backup_start_time_s bundle) f64_1e_9)).

(** The measured quantities, with the status left open. *)
Definition phase_measure (i : PhaseInputs) (command_now command_at_source : TrajectoryPoint)
    (status : PhaseExecutionCertificateStatus) : PhaseExecutionCertificate :=
  let phase_lag_s := f64_mul (f64_of_Z (pi_now_ns i - pi_source_stamp_ns i)) f64_1e_9 in
  let source_time_error_m :=
    v_norm (v_sub (p_position_world command_at_source) (pi_measured_position i)) in
  let raw_divergence_m :=
    v_norm (v_sub (p_position_world command_now) (pi_measured_position i)) in
  let relative_velocity_mps :=
    v_norm (v_sub (p_velocity_world command_at_source) (pi_measured_velocity i)) in
  mkPhase status phase_lag_s source_time_error_m
    (f64_add source_time_error_m
       (f64_mul relative_velocity_mps (f64_add phase_lag_s (pi_validation_interval_s i))))
    raw_divergence_m (v_norm (p_velocity_world command_at_source))
    (v_norm (pi_measured_velocity i)) relative_velocity_mps.

Definition phase_rejected (i : PhaseInputs) (c : PhaseExecutionCertificate)
    (command_at_source : TrajectoryPoint) : bool :=
  negb (isfinite (ph_phase_lag_s c)) || negb (isfinite (ph_source_time_error_m c))
  || negb (isfinite (ph_predicted_source_error_m c))
  || negb (isfinite (ph_raw_divergence_m c)) || negb (isfinite (ph_source_speed_mps c))
  || negb (isfinite (ph_measured_speed_mps c))
  || negb (isfinite (ph_relative_velocity_mps c)) || fle (ph_source_speed_mps c) f64_1e_3
  || fle (ph_measured_speed_mps c) f64_1e_3
  || fgt (ph_source_time_error_m c) (pi_tracking_position_budget_m i)
  || fgt (ph_predicted_source_error_m c) (pi_tracking_position_budget_m i)
  || fgt (ph_raw_divergence_m c) (pi_absolute_command_anchor_cap_m i)
  || flt (v_dot (p_velocity_world command_at_source) (pi_measured_velocity i)) fzero.

Definition assessPhaseExecutionCertificate (bundle : CandidateBundle) (i : PhaseInputs)
  : PhaseExecutionCertificate :=
  if negb (phase_inputs_ok bundle i) then PhaseExecutionCertificate_default
  else if negb (phase_lease_ok bundle i) then PhaseExecutionCertificate_default
  else
    match sampleAtDeclaredStamp bundle (pi_now_ns i),
          sampleAtDeclaredStamp bundle (pi_source_stamp_ns i) with
    | Some command_now, Some command_at_source =>
        if (p_role command_now !=? kMain) || (p_role command_at_source !=? kMain)
        then PhaseExecutionCertificate_default
        else if negb (phase_window_ok bundle i command_now command_at_source)
        then PhaseExecutionCertificate_default
        else
          let measured := phase_measure i command_now command_at_source in
          if phase_rejected i (measured kPhaseRejected) command_at_source
          then measured kPhaseRejected else measured kPhaseAccepted
    | _, _ => PhaseExecutionCertificate_default
    end.

Definition phaseExecutionBridgeMayPreserveMain (phase_certificate_accepted committed
    fresh_vehicle_state command_anchor_valid plan_from_rest : bool)
    (recovery_state : ExecutionRecoveryState)
    (state_localization_epoch bundle_localization_epoch : Z) (failure_latched : bool)
    (now_ns valid_until_ns validation_interval_ns : Z) : bool :=
  if negb phase_certificate_accepted || negb committed || negb fresh_vehicle_state
     || negb command_anchor_valid || plan_from_rest
     || (recovery_state !=? rTrackMain) || failure_latched
     || (state_localization_epoch =? 0)
     || negb (state_localization_epoch =? bundle_localization_epoch) || (now_ns <=? 0)
     || (valid_until_ns <? now_ns) || (validation_interval_ns <=? 0) then false
  else fge (f80_sub (f80_of_Z valid_until_ns) (f80_of_Z now_ns)) (f80_of_Z validation_interval_ns).

Definition projectedRetainedAnchorErrorUpperBound (anchor_error_m relative_speed_mps
    validation_interval_s : f64) : f64 :=
  if negb (isfinite anchor_error_m) || flt anchor_error_m fzero
     || negb (isfinite relative_speed_mps) || flt relative_speed_mps fzero
     || negb (isfinite validation_interval_s) || fle validation_interval_s fzero then fnan
  else
    let projected_error_m := f64_add anchor_error_m (f64_mul relative_speed_mps validation_interval_s) in
    if isfinite projected_error_m then projected_error_m else fnan.
End Decisions.

#[global] Arguments phase_inputs_ok {_} _ _ : simpl never.
#[global] Arguments phase_lease_ok _ _ : simpl never.
#[global] Arguments phase_window_ok _ _ _ _ : simpl never.
#[global] Arguments phase_rejected {_} _ _ _ : simpl never.

(** ** Properties *)

(** A measured-state emergency brake is one-shot: it may replace a command
    only while MAIN is tracked, and once it is committed no sequence of recovery
    events without a new MAIN commit lets a second one replace the first,
    whatever the measured evidence says. *)
Theorem emergency_one_shot (v1 f1 a1 k1 : bool) (r1 : CandidateRole)
    (es : list ExecutionRecoveryEvent) (s : ExecutionRecoveryState)
    (suf1 trk1 prj1 free1 saf1 ts1 ind1 clr1 : bool)
    (v2 suf2 f2 a2 k2 trk2 prj2 free2 saf2 ts2 ind2 clr2 : bool) (r2 : CandidateRole) :
  measuredStateEmergencyMayReplaceCommittedCommand v1 suf1 f1 a1 k1 trk1 s r1 prj1 free1 saf1 ts1
    ind1 clr1 = true ->
  kMainCommitted ∉ es ->
  s = rTrackMain /\ clr1 = true /\ free1 = true /\ saf1 = false /\ r1 <> kEmergency /\
  measuredStateEmergencyMayReplaceCommittedCommand v2 suf2 f2 a2 k2 trk2
    (run transitionExecutionRecovery (transitionExecutionRecovery s kEmergencyCommitted) es)
    r2 prj2 free2 saf2 ts2 ind2 clr2 = false.
Proof.
  unfold measuredStateEmergencyMayReplaceCommittedCommand. intros H1 Hes. bsplit. subst s.
  split_and!; try done.
  assert (Hr : run transitionExecutionRecovery (transitionExecutionRecovery rTrackMain kEmergencyCommitted) es
               <> rTrackMain).
  { assert (Hg : forall s, s <> rTrackMain -> s <> rInitialHold ->
      run transitionExecutionRecovery s es <> rTrackMain).
    { induction es as [|e es IH]; intros s Hs Hs'; [done|].
      apply not_elem_of_cons in Hes as [He Hes]. cbn. apply IH; [done|..];
        by destruct s, e. }
    by apply Hg. }
  auto.
Qed.

Lemma emergency_one_shot_witness :
  measuredStateEmergencyMayReplaceCommittedCommand false true true true true false
    (run transitionExecutionRecovery (transitionExecutionRecovery rTrackMain kEmergencyCommitted)
       [kCertifiedStopObserved]) kMain false true false false false true = false.
Proof.
  refine (proj2 (proj2 (proj2 (proj2 (proj2 (emergency_one_shot false true true true kMain
    [kCertifiedStopObserved] rTrackMain true false false true false false false true
    false true true true true false false true false false false true kMain _ _))))));
    [reflexivity|].
  intros [H|H]%elem_of_cons; [discriminate|by apply not_elem_of_nil in H].
Defined.

(** An accepted phase certificate is evidence about the one immutable MAIN
    it names: both of its samples are MAIN samples of that bundle inside its
    lease, ordered in time and at most the allowed lag apart; the measured state
    is within the tracking budget now and after the validation interval, the
    current command within the anchor cap, and both are moving forward. *)
Theorem phase_certificate_sound `{EigenOps} (b : CandidateBundle) (i : PhaseInputs) :
  let c := assessPhaseExecutionCertificate b i in
  phase_accepted c = true ->
  CandidateBundle_valid b = true /\ b_kind b = kMainWithBackup /\ b_terminal_stop b = false /\
  b_valid_from_ns b <= pi_source_stamp_ns i /\ pi_source_stamp_ns i < pi_now_ns i /\
  pi_now_ns i <= b_valid_until_ns b /\
  pi_now_ns i - pi_source_stamp_ns i <= pi_maximum_phase_lag_ns i /\
  exists pn ps, sampleAtDeclaredStamp b (pi_now_ns i) = Some pn /\
    sampleAtDeclaredStamp b (pi_source_stamp_ns i) = Some ps /\
    p_role pn = kMain /\ p_role ps = kMain /\ c = phase_measure i pn ps kPhaseAccepted /\
    fgt (ph_source_time_error_m c) (pi_tracking_position_budget_m i) = false /\
    fgt (ph_predicted_source_error_m c) (pi_tracking_position_budget_m i) = false /\
    isfinite (ph_predicted_source_error_m c) = true /\
    fgt (ph_raw_divergence_m c) (pi_absolute_command_anchor_cap_m i) = false /\
    flt (v_dot (p_velocity_world ps) (pi_measured_velocity i)) fzero = false.
Proof.
  cbv zeta. unfold assessPhaseExecutionCertificate.
  destruct (phase_inputs_ok b i) eqn:E1; cbn [negb]; [|done].
  destruct (phase_lease_ok b i) eqn:E2; cbn [negb]; [|done].
  destruct (sampleAtDeclaredStamp b (pi_now_ns i)) as [pn|]; [|done].
  destruct (sampleAtDeclaredStamp b (pi_source_stamp_ns i)) as [ps|]; [|done].
  destruct (_ || _) eqn:E3; [done|]. destruct (phase_window_ok b i pn ps) eqn:E4; cbn [negb]; [|done].
  cbv zeta. destruct (phase_rejected i _ ps) eqn:E5; [done|]. intros _.
  unfold phase_inputs_ok in E1. unfold phase_lease_ok in E2. unfold phase_window_ok in E4.
  unfold phase_rejected in E5. cbv zeta in *.
  repeat match goal with H : _ && _ = true |- _ => apply andb_true_iff in H as [? ?] end.
  repeat match goal with H : _ || _ = false |- _ => apply orb_false_iff in H as [? ?] end.
  repeat match goal with
  | H : (_ <=? _) = true |- _ => apply Z.leb_le in H
  | H : (_ <? _) = true |- _ => apply Z.ltb_lt in H
  | H : (_ ==? _) = true |- _ => apply bool_decide_eq_true in H
  | H : negb _ = true |- _ => apply negb_true_iff in H
  | H : negb _ = false |- _ => apply negb_false_iff in H
  end.
  split_and!; try assumption; try lia.
  exists pn, ps. split_and!; try reflexivity; try assumption;
    by apply bool_decide_eq_true.
Qed.

(** A command whose predicted position the measured state matches. *)
Definition demo_moving_bundle : CandidateBundle :=
  mkBundle (b_pinned_world_identity demo_bundle) (b_world_identity demo_bundle) 1 1 1 1 1
    10000000000 12000000000 10000000000 kMain (f64_of_Z 10) (f64_of_Z 2) 10000000000 12000000000
    f64_1 true false kMainWithBackup kDeterministicBaseline (mkCertificates true true true true)
    (mkBox vec3_zero (vec3_constant f64_1)) (b_role_schedule demo_bundle) None None None None
    (Some (fun t _ => ev_point
      (mkPoint vec3_zero (vec3_constant f64_1) vec3_zero vec3_zero fzero fzero
         kMain false (f64_mul (f64_of_Z (t - 10000000000)) f64_1e_9)))).

Definition demo_phase_inputs : PhaseInputs :=
  mkPhaseInputs vec3_zero (vec3_constant f64_1) 10300000000 10200000000 200000000 f64_1e_3
    f64_1 f64_1 true true.

Lemma phase_certificate_sound_witness :
  b_kind demo_moving_bundle = kMainWithBackup /\
  pi_source_stamp_ns demo_phase_inputs < pi_now_ns demo_phase_inputs.
Proof.
  assert (E : phase_accepted
    (@assessPhaseExecutionCertificate eigen_reference demo_moving_bundle demo_phase_inputs) = true)
    by (vm_compute; reflexivity).
  destruct (@phase_certificate_sound eigen_reference demo_moving_bundle demo_phase_inputs E)
    as (_ & Hk & _ & _ & Hlt & _).
  split; [exact Hk|exact Hlt].
Defined.

(** The bridge decides in long double what it means in integers: it preserves
    MAIN exactly when every owner and lifecycle fact holds and the lease still
    covers the whole validation interval, with no rounding at the boundary. *)
Theorem phase_bridge_exact (accepted committed fresh anchor_valid from_rest : bool)
    (s : ExecutionRecoveryState) (se be : Z) (latched : bool) (now until interval : Z) :
  is_i64 now -> is_i64 until -> is_i64 interval ->
  phaseExecutionBridgeMayPreserveMain accepted committed fresh anchor_valid from_rest s se be latched
    now until interval = true <->
  accepted = true /\ committed = true /\ fresh = true /\ anchor_valid = true /\ from_rest = false /\
  s = rTrackMain /\ latched = false /\ se <> 0 /\ se = be /\
  0 < now /\ 0 < interval /\ now + interval <= until.
Proof.
  intros Hn Hu Hi. unfold phaseExecutionBridgeMayPreserveMain.
  match goal with |- (if ?c then _ else _) = _ <-> _ => destruct c eqn:E end.
  - split; [done|]. intros. destruct_and?. subst. exfalso.
    rewrite (bool_decide_eq_true_2 (rTrackMain = rTrackMain)) in E by done. cbn in E.
    rewrite Z.eqb_refl in E. breflect. lia.
  - breflect. destruct_and?.
    destruct (f80_sub_Z until now) as (Hv & Hf & Hd); [zlia..|].
    destruct (f80_of_Z_units interval) as [Fi Ui]; [zlia|].
    rewrite (f80_fge_Z _ _ _ _ Hv (f80_of_Z_valid interval) Hf Fi Hd Ui).
    rewrite Z.leb_le. split; [|lia]. intros. split_and!; done || lia.
Qed.

Lemma phase_bridge_exact_witness :
  phaseExecutionBridgeMayPreserveMain true true true true false rTrackMain 1 1 false
    1000 2000 1000 = true.
Proof.
  apply phase_bridge_exact; [zlia..|]. split_and!; try reflexivity; lia.
Defined.

(** The emergency altitude never leaves the correction band: with finite
    inputs the result is the measured altitude plus a correction between the
    negative and the positive limit, and with an unusable anchor or limit it is
    the measured altitude itself. *)
Theorem emergency_altitude_bounded (measured anchor limit : f64) :
  f64_valid measured = true -> f64_valid anchor = true -> f64_valid limit = true ->
  isfinite measured = true ->
  (isfinite anchor && isfinite limit && negb (flt limit fzero) = false ->
     plannerEmergencyTerminalAltitude measured anchor limit = measured) /\
  (isfinite anchor && isfinite limit && negb (flt limit fzero) = true ->
     exists c, plannerEmergencyTerminalAltitude measured anchor limit = f64_add measured c /\
       fle (fopp limit) c = true /\ fle c limit = true).
Proof.
  intros Hm Ha Hl Fm. unfold plannerEmergencyTerminalAltitude. rewrite Fm. cbn [negb].
  destruct (isfinite anchor) eqn:Fa, (isfinite limit) eqn:Fl, (flt limit fzero) eqn:Ft;
    cbn [negb andb orb]; split; try done. intros _.
  exists (fclamp (f64_sub anchor measured) (fopp limit) limit). split; [done|].
  apply fclamp_bounds; auto with nav; [by destruct limit|].
  assert (Hl0 : fle fzero limit = true).
  { change (fle fzero limit) with (fge limit fzero).
    assert (fge limit fzero = negb (flt limit fzero)) as ->; [|by rewrite Ft].
    change (flt limit fzero) with (fgt fzero limit).
    rewrite fgt_negb_fle by (done || by apply isfinite_not_nan). by rewrite negb_involutive. }
  apply fle_units in Hl0 as (_ & Nl & Hu); [|done..].
  apply fle_units; [by destruct limit|done|]. split_and!; [by destruct limit|done|].
  unfold f64_units in *. rewrite SF_units_opp. cbn [SF_units fzero] in Hu. unfold f64_units in Hu.
  change (SF_units prec64 emax64 fzero) with 0 in Hu. lia.
Qed.

Lemma emergency_altitude_bounded_witness :
  exists c, plannerEmergencyTerminalAltitude (f64_of_Z 10) (f64_of_Z 30) f64_1
              = f64_add (f64_of_Z 10) c /\ fle c f64_1 = true.
Proof.
  destruct (emergency_altitude_bounded (f64_of_Z 10) (f64_of_Z 30) f64_1) as [_ Hb];
    [vm_compute; reflexivity..|].
  destruct Hb as (c & Hc & _ & Hu); [vm_compute; reflexivity|]. exists c. split; [exact Hc|exact Hu].
Defined.
