(* ===== verification/Mission.v ===== *)
(** * Mission contract

    Model of [src/contracts/navigation_mission/include/navigation_mission/]:
    [mission.hpp] (the mission value and its validity), [trajectory_completion.hpp]
    (the identity of a completion observation) and [waypoint_behavior.hpp].
    [loadMission] parses a YAML file and is not modelled. *)

From S2P Require Import Prelude Float64 Geometry World.

Definition kMaximumMissionWaypoints : Z := 4096.
Definition kMaximumMissionIdLength : Z := 256.
Definition kMaximumMissionFrameLength : Z := 128.
Definition kMaximumWaypointIdLength : Z := 256.

(** [goal_contract.hpp] *)
Definition kGoalCompletionToleranceM : f64 := f64_lit 20 100.
Definition kGoalConnectionToleranceM : f64 := kGoalCompletionToleranceM.

Definition str_size (s : string) : Z := Z.of_nat (String.length s).
Definition str_empty (s : string) : bool := bool_decide (s = EmptyString).
Definition vec_size {A} (l : list A) : Z := Z.of_nat (length l).

(** [v[i]] for an index the code has checked; [None] is the access the guards
    rule out. *)
Definition at_index {A} (l : list A) (i : Z) : option A :=
  if i <? 0 then None else l !! Z.to_nat i.

(** ** Waypoints and mission *)

Inductive Behavior : Type := PassThrough | Stop.
#[export] Instance Behavior_eq_dec : EqDecision Behavior.
Proof. solve_decision. Defined.

Record MissionWaypoint : Type := mkWaypoint {
  w_id : string;
  w_position_enu : vec3;
  w_acceptance_radius_m : f64;
  w_hold_s : f64;
  w_behavior : Behavior
}.

Record Mission : Type := mkMission {
  m_schema_version : Z;
  m_id : string;
  m_frame : string;
  m_waypoints : list MissionWaypoint;
  m_requested_cruise_speed_mps : f64;
  m_unknown_policy : UnknownPolicy;
  m_acceptance_speed_mps : f64;
  m_acceptance_confirmation_s : f64
}.

Section MissionContract.
Context {E : EigenOps}.

(** The geometric and behavioural conditions on one waypoint, shared by
    [Mission::valid], the [RouteProgress] constructor and
    [ImmutableRouteSnapshot::valid]. *)
Definition waypoint_geometry_ok (waypoint : MissionWaypoint) : bool :=
  negb (negb (v_allFinite (w_position_enu waypoint))
        || negb (isfinite (w_acceptance_radius_m waypoint))
        || fle (w_acceptance_radius_m waypoint) fzero
        || negb (isfinite (w_hold_s waypoint))
        || flt (w_hold_s waypoint) fzero
        || ((w_behavior waypoint !=? PassThrough) && (w_behavior waypoint !=? Stop))
        || ((w_behavior waypoint ==? PassThrough) && fgt (w_hold_s waypoint) fzero)).

(** The loop of [Mission::valid]; [ids] is the set of identifiers inserted. *)
Fixpoint waypoints_valid (waypoints : list MissionWaypoint) (ids : list string) : bool :=
  match waypoints with
  | [] => true
  | waypoint :: rest =>
      if str_empty (w_id waypoint)
         || (kMaximumWaypointIdLength <? str_size (w_id waypoint))
         || negb (waypoint_geometry_ok waypoint)
         || bool_decide (w_id waypoint ∈ ids)
      then false
      else waypoints_valid rest (w_id waypoint :: ids)
  end.

Definition Mission_valid (m : Mission) : bool :=
  if (m_schema_version m !=? 1) || str_empty (m_id m)
     || (kMaximumMissionIdLength <? str_size (m_id m))
     || str_empty (m_frame m) || (kMaximumMissionFrameLength <? str_size (m_frame m))
     || (vec_size (m_waypoints m) =? 0) || (kMaximumMissionWaypoints <? vec_size (m_waypoints m))
     || negb (isfinite (m_requested_cruise_speed_mps m))
     || fle (m_requested_cruise_speed_mps m) fzero
     || ((m_unknown_policy m !=? kAllowUnknown) && (m_unknown_policy m !=? kRequireKnownFree))
     || negb (isfinite (m_acceptance_speed_mps m)) || flt (m_acceptance_speed_mps m) fzero
     || negb (isfinite (m_acceptance_confirmation_s m))
     || flt (m_acceptance_confirmation_s m) fzero
  then false
  else waypoints_valid (m_waypoints m) [].

Lemma waypoints_valid_Forall ws ids :
  waypoints_valid ws ids = true ->
  Forall (fun w => waypoint_geometry_ok w = true /\ w_id w <> EmptyString) ws /\
  NoDup (w_id <$> ws) /\ (forall w, w ∈ ws -> w_id w ∉ ids).
Proof.
  revert ids; induction ws as [|w ws IH]; intros ids; simpl.
  { intros _. split_and!; [constructor|constructor|]. intros w Hw. by apply elem_of_nil in Hw. }
  destruct (str_empty (w_id w) || _ || _ || _) eqn:Hg; [done|]. intros H.
  bsplit. destruct (IH _ H) as (Hall & Hnd & Hni).
  split_and!.
  - constructor; [|done]. split; [done|]. by apply bool_decide_eq_false in H0.
  - constructor; [|done]. intros (w' & Heq & Hin)%list_elem_of_fmap.
    apply (Hni w' Hin). rewrite <- Heq. left.
  - intros w' Hw'. apply elem_of_cons in Hw' as [->|Hin]; [done|].
    intros ?. apply (Hni w' Hin). by right.
Qed.

Lemma Mission_valid_waypoints m :
  Mission_valid m = true ->
  0 < vec_size (m_waypoints m) <= kMaximumMissionWaypoints /\
  waypoints_valid (m_waypoints m) [] = true.
Proof.
  unfold Mission_valid.
  destruct (_ || flt (m_acceptance_confirmation_s m) fzero) eqn:Hg; [done|]. intros H.
  bsplit. unfold vec_size in *. split; [lia|done].
Qed.
End MissionContract.

(** ** Trajectory completion *)

Record TrajectoryCompletionWitness : Type := mkCompletion {
  tc_bundle_generation : Z;
  tc_timeline_version : Z;
  tc_localization_epoch : Z;
  tc_goal_epoch : Z;
  tc_request_id : Z;
  tc_mission_id : string;
  tc_waypoint_index : Z
}.

Definition TrajectoryCompletionWitness_valid (w : TrajectoryCompletionWitness) : bool :=
  (tc_bundle_generation w !=? 0) && (tc_timeline_version w !=? 0)
  && (tc_localization_epoch w !=? 0)
  && (tc_goal_epoch w !=? 0) && (tc_request_id w !=? 0) && negb (str_empty (tc_mission_id w)).

Definition completionWitnessMatches (w : TrajectoryCompletionWitness)
    (bundle_generation timeline_version localization_epoch goal_epoch request_id : Z)
    (mission_id : string) (waypoint_index : Z) : bool :=
  TrajectoryCompletionWitness_valid w && (tc_bundle_generation w ==? bundle_generation)
  && (tc_timeline_version w ==? timeline_version)
  && (tc_localization_epoch w ==? localization_epoch)
  && (tc_goal_epoch w ==? goal_epoch) && (tc_request_id w ==? request_id)
  && (tc_mission_id w ==? mission_id) && (tc_waypoint_index w ==? waypoint_index).

Definition completion_eqb (lhs rhs : TrajectoryCompletionWitness) : bool :=
  (tc_bundle_generation lhs ==? tc_bundle_generation rhs)
  && (tc_timeline_version lhs ==? tc_timeline_version rhs)
  && (tc_localization_epoch lhs ==? tc_localization_epoch rhs)
  && (tc_goal_epoch lhs ==? tc_goal_epoch rhs) && (tc_request_id lhs ==? tc_request_id rhs)
  && (tc_mission_id lhs ==? tc_mission_id rhs) && (tc_waypoint_index lhs ==? tc_waypoint_index rhs).

(** Matching a witness against the fields of another is equality with it. *)
Lemma completion_matches_eq w v :
  completionWitnessMatches w (tc_bundle_generation v) (tc_timeline_version v)
    (tc_localization_epoch v) (tc_goal_epoch v) (tc_request_id v) (tc_mission_id v)
    (tc_waypoint_index v) = true <->
  TrajectoryCompletionWitness_valid w = true /\ w = v.
Proof.
  unfold completionWitnessMatches. rewrite !andb_true_iff, !bool_decide_eq_true. split.
  - intros H. destruct_and! H. split; [done|]. destruct w, v; simpl in *. congruence.
  - by intros [? ->].
Qed.

Lemma completion_eqb_spec lhs rhs : completion_eqb lhs rhs = true <-> lhs = rhs.
Proof.
  unfold completion_eqb. rewrite !andb_true_iff, !bool_decide_eq_true. split.
  - intros H. destruct_and! H. destruct lhs, rhs; simpl in *. congruence.
  - by intros ->.
Qed.

(** ** Waypoint behaviour *)

Definition completedPassThroughRequiresContinuation (trajectory_completed endpoint_valid
    pass_through_waypoint has_outgoing_route : bool) : bool :=
  trajectory_completed && endpoint_valid && pass_through_waypoint && has_outgoing_route.

Definition waypointBehaviorContractValid (pass_through_waypoint has_next_waypoint : bool) : bool :=
  negb pass_through_waypoint || has_next_waypoint.
