(* ===== verification/FloatOrder.v ===== *)
(** * Order and exceptional values of the doubles

    The comparisons of [Float64] are a total preorder on the values that are
    not NaN, and NaN propagates through the arithmetic: what the route
    geometry needs of [std::clamp], [std::max], [std::lower_bound] and of the
    [std::isfinite] guards.  No canonicity of the operands is assumed. *)
From S2P Require Import Prelude Float64 Float64Facts.
From Stdlib Require Import Floats.SpecFloat.

(** ** The order as a lexicographic key *)

Definition fkey (x : spec_float) : Z * Z * Z :=
  match x with
  | S754_nan | S754_zero _ => (0, 0, 0)
  | S754_infinity s => (cond_Zopp s 2, 0, 0)
  | S754_finite s m e => (cond_Zopp s 1, cond_Zopp s e, cond_Zopp s (Zpos m))
  end.

Definition key_lt (a b : Z * Z * Z) : Prop :=
  a.1.1 < b.1.1 \/ (a.1.1 = b.1.1 /\ (a.1.2 < b.1.2 \/ (a.1.2 = b.1.2 /\ a.2 < b.2))).

Lemma flt_key x y :
  flt x y = true <-> isnan x = false /\ isnan y = false /\ key_lt (fkey x) (fkey y).
Proof.
  unfold flt, SFltb, key_lt.
  destruct x as [[]|[]| |[] mx ex], y as [[]|[]| |[] my ey]; simpl;
    try (split; [intros ?; split_and!; done || lia|intros (?&?&?); try done; lia]);
    change (Pos.compare_cont Eq mx my) with (Zpos mx ?= Zpos my);
    destruct (Z.compare_spec ex ey), (Z.compare_spec (Zpos mx) (Zpos my)); simpl;
    (split; [intros ?; split_and!; try done; lia|intros (_&_&?); try done; lia]).
Qed.

Lemma flt_trans x y z : flt x y = true -> flt y z = true -> flt x z = true.
Proof. rewrite !flt_key. unfold key_lt. intros (?&?&?) (?&?&?). split_and!; auto; lia. Qed.

Lemma fle_negb_flt x y :
  fle x y = true <-> isnan x = false /\ isnan y = false /\ flt y x = false.
Proof.
  destruct (isnan x) eqn:Nx.
  { split; [|naive_solver]. unfold fle, SFleb. rewrite SFcompare_nan by auto. done. }
  destruct (isnan y) eqn:Ny.
  { split; [|naive_solver]. unfold fle, SFleb. rewrite SFcompare_nan by auto. done. }
  pose proof (fgt_negb_fle x y Nx Ny) as Hg. change (fgt x y) with (flt y x) in Hg.
  rewrite Hg. destruct (fle x y); naive_solver.
Qed.

Lemma fmax_ge_r a b : isnan a = false -> isnan b = false -> fle b (fmax a b) = true.
Proof.
  intros Na Nb. unfold fmax. destruct (flt a b) eqn:Hab; [by apply fle_refl|].
  by apply fle_negb_flt.
Qed.

Lemma fle_key x y :
  fle x y = true <-> isnan x = false /\ isnan y = false /\ ~ key_lt (fkey y) (fkey x).
Proof.
  rewrite fle_negb_flt. split; intros (Nx & Ny & H); split_and!; auto.
  - intros Hk. by rewrite (proj2 (flt_key y x)) in H.
  - destruct (flt y x) eqn:E; [|done]. apply flt_key in E as (_&_&?). done.
Qed.

Ltac fkey_solve :=
  rewrite ?flt_key, ?fle_key in *; unfold key_lt in *; destruct_and?; split_and?; auto; lia.

Lemma fle_trans' x y z : fle x y = true -> fle y z = true -> fle x z = true.
Proof. intros. fkey_solve. Qed.

Lemma flt_fle_trans x y z : flt x y = true -> fle y z = true -> flt x z = true.
Proof. intros. fkey_solve. Qed.

Lemma fle_flt_trans x y z : fle x y = true -> flt y z = true -> flt x z = true.
Proof. intros. fkey_solve. Qed.

Lemma fle_not_nan x y : fle x y = true -> isnan x = false /\ isnan y = false.
Proof. rewrite fle_negb_flt. naive_solver. Qed.

(** [std::clamp] to a non-empty range, for any value that is not a NaN. *)
Lemma fclamp_range v lo hi :
  isnan v = false -> fle lo hi = true ->
  fle lo (fclamp v lo hi) = true /\ fle (fclamp v lo hi) hi = true.
Proof.
  intros Nv Hle. pose proof (fle_not_nan _ _ Hle) as [Nl Nh]. unfold fclamp.
  destruct (flt v lo) eqn:E1; [by auto using fle_refl|].
  destruct (flt hi v) eqn:E2; [by auto using fle_refl|].
  split; apply fle_negb_flt; auto.
Qed.

(** ** Exceptional values through the arithmetic *)

Lemma binary_normalize_finite_or_inf m e s :
  isnan (binary_normalize prec64 emax64 m e s) = false.
Proof. by apply binary_normalize_not_nan. Qed.

Lemma f64_add_not_nan x y :
  isfinite x = true -> isfinite y = true -> isnan (f64_add x y) = false.
Proof.
  intros Hx Hy. unfold f64_add.
  destruct x as [[]|[]| |? ? ?], y as [[]|[]| |? ? ?]; try done; apply binary_normalize_finite_or_inf.
Qed.

Lemma f64_add_finite_inv x y : isfinite (f64_add x y) = true -> isfinite x = true /\ isfinite y = true.
Proof. unfold f64_add. destruct x as [[]|[]| |? ? ?], y as [[]|[]| |? ? ?]; done. Qed.

Lemma f64_sub_finite_inv x y : isfinite (f64_sub x y) = true -> isfinite x = true /\ isfinite y = true.
Proof. unfold f64_sub. destruct x as [[]|[]| |? ? ?], y as [[]|[]| |? ? ?]; done. Qed.

Lemma f64_mul_self_finite_inv x : isfinite (f64_mul x x) = true -> isfinite x = true.
Proof. unfold f64_mul. by destruct x as [[]|[]| |? ? ?]. Qed.

Lemma f64_mul_nan_l y : f64_mul S754_nan y = S754_nan.
Proof. done. Qed.

Lemma shr_fexp_nonneg prec emax m e l mrs e' :
  0 <= m -> shr_fexp prec emax m e l = (mrs, e') -> 0 <= shr_m mrs.
Proof.
  intros Hm. unfold shr_fexp, shr.
  destruct (fexp prec emax (Zdigits2 m + e) - e) as [|p|p]; intros [= <- <-];
    rewrite ?iter_shr_1_m; rewrite ?shr_record_of_loc_m; try done.
  apply Z.div_pos; [done|]. by apply Z.pow_pos_nonneg.
Qed.

Lemma binary_round_aux_not_nan' prec emax s m e l :
  0 <= m -> isnan (binary_round_aux prec emax s m e l) = false.
Proof.
  intros Hm. unfold binary_round_aux.
  destruct (shr_fexp prec emax m e l) as [mrs1 e1] eqn:E1. apply shr_fexp_nonneg in E1; [|done].
  destruct (shr_fexp prec emax (round_nearest_even _ _) e1 _) as [mrs2 e2] eqn:E2.
  apply shr_fexp_nonneg in E2.
  - destruct (shr_m mrs2); try done. by destruct (_ <=? _).
  - destruct (round_nearest_even_cases (shr_m mrs1) (loc_of_shr_record mrs1)) as [-> | ->]; lia.
Qed.

Lemma f64_mul_not_nan x y : isfinite x = true -> isfinite y = true -> isnan (f64_mul x y) = false.
Proof.
  intros Hx Hy. unfold f64_mul.
  destruct x as [?|?| |? ? ?], y as [?|?| |? ? ?]; try done. by apply binary_round_aux_not_nan'.
Qed.

Lemma f64_sqrt_finite_inv x : isfinite (f64_sqrt x) = true -> isfinite x = true.
Proof. unfold f64_sqrt. by destruct x as [[]|[]| |[] ? ?]. Qed.

(** A clamped NaN stays a NaN, a clamped number stays a number. *)
Lemma fclamp_nan lo hi : fclamp S754_nan lo hi = S754_nan.
Proof. unfold fclamp. by rewrite flt_nan_l, flt_nan_r. Qed.

Lemma fclamp_finite v lo hi :
  isnan v = false -> isfinite lo = true -> isfinite hi = true -> fle lo hi = true ->
  isfinite (fclamp v lo hi) = true.
Proof.
  intros Nv Hlo Hhi Hle. unfold fclamp.
  destruct (flt v lo) eqn:E1; [done|]. destruct (flt hi v) eqn:E2; [done|].
  assert (fle lo v = true) as Hl by (apply fle_negb_flt; eauto with nav).
  assert (fle v hi = true) as Hh by (apply fle_negb_flt; eauto with nav).
  destruct v as [|[]| |]; try done; [by destruct lo|by destruct hi].
Qed.

Lemma fmax_not_nan a b : isnan a = false -> isnan b = false -> isnan (fmax a b) = false.
Proof. intros. by destruct (fmax_cases a b) as [-> | ->]. Qed.

#[export] Hint Resolve flt_trans fle_trans' f64_add_not_nan f64_mul_not_nan fmax_not_nan : nav.

(** ** Truncation is the floor of a nonnegative number *)

Lemma f80_trunc_floor x :
  f80_valid x = true -> isfinite x = true -> flt x fzero = false ->
  SF_trunc x = SF_units prec80 emax80 x / f80_scale.
Proof.
  Transparent f80_scale. intros Hv Hf Hlo. unfold f80_scale.
  destruct x as [s|s| |s m e]; [done|done|done|]. change (bounded prec80 emax80 m e = true) in Hv.
  pose proof (bounded_spec prec80 emax80 ltac:(done) m e Hv) as (He & _ & _).
  destruct s; [done|]. unfold SF_trunc, SF_units, cond_Zopp.
  set (b := emin prec80 emax80) in *. assert (Hb : b < 0) by done.
  destruct (Z.le_gt_cases 0 e).
  - rewrite Z.shiftl_mul_pow2 by done. replace (e - b) with (e + - b) by lia.
    rewrite Z.pow_add_r, Z.mul_assoc, Z.div_mul by lia. done.
  - rewrite Z.shiftl_div_pow2 by lia. replace (- b) with ((e - b) + - e) by lia.
    rewrite Z.pow_add_r by lia.
    assert (0 < 2 ^ (e - b)) by (apply Z.pow_pos_nonneg; lia).
    assert (0 < 2 ^ (- e)) by (apply Z.pow_pos_nonneg; lia).
    by rewrite <- Z.div_div, Z.div_mul by lia.
Qed.
#[global] Opaque f80_scale.

(** A number between two integers truncates between them. *)
Lemma f80_trunc_between x lo hi :
  f80_valid x = true -> isfinite x = true -> 0 <= lo -> lo < 2 ^ 64 -> hi < 2 ^ 64 -> 0 <= hi ->
  flt x (f80_of_Z lo) = false -> fgt x (f80_of_Z hi) = false -> lo <= SF_trunc x <= hi.
Proof.
  intros Hv Hf H0 Hlo Hhi H1 Hl Hh.
  destruct (f80_of_Z_units lo ltac:(lia)) as [Flo Ulo].
  destruct (f80_of_Z_units hi ltac:(lia)) as [Fhi Uhi].
  pose proof f80_scale_pos as Hs.
  unfold fgt in Hh. rewrite (SF_ltb_units prec80 emax80) in Hl, Hh by
    (done || apply f80_of_Z_valid || by apply isfinite_not_nan).
  rewrite Ulo in Hl. rewrite Uhi in Hh. apply Z.ltb_ge in Hl, Hh.
  assert (Hz : flt x fzero = false).
  { change fzero with (f80_of_Z 0). destruct (f80_of_Z_units 0 ltac:(lia)) as [F0 U0].
    rewrite (SF_ltb_units prec80 emax80) by (done || apply f80_of_Z_valid || by apply isfinite_not_nan).
    rewrite U0. apply Z.ltb_ge. nia. }
  rewrite f80_trunc_floor by done. split.
  - by apply Z.div_le_lower_bound; [|lia].
  - apply Z.div_le_upper_bound; lia.
Qed.

(** [std::ceil] of a nonnegative number below [2^64] is the least integer above it. *)
Lemma f80_ceil_units x c :
  f80_valid x = true -> isfinite x = true -> flt x fzero = false -> 0 <= c < 2 ^ 64 ->
  SF_units prec80 emax80 x <= c * f80_scale ->
  exists n, f80_valid (f80_ceil x) = true /\ isfinite (f80_ceil x) = true /\
    SF_units prec80 emax80 (f80_ceil x) = n * f80_scale /\ 0 <= n <= c /\
    (n - 1) * f80_scale < SF_units prec80 emax80 x <= n * f80_scale.
Proof.
  Transparent f80_scale. intros Hv Hf Hlo Hc Hu.
  assert (Hvc : f80_valid (f80_ceil x) = true) by (by apply SF_ceil_valid).
  destruct x as [s|s| |s m e]; [|done|done|].
  { exists 0. simpl in *. split_and!; try done; lia. }
  destruct s; [done|]. change (bounded prec80 emax80 m e = true) in Hv.
  pose proof (bounded_spec prec80 emax80 ltac:(done) m e Hv) as (He & _ & _).
  assert (Hs : 0 < f80_scale) by (by apply Z.pow_pos_nonneg).
  unfold f80_ceil, SF_ceil in *. cbn [cond_Zopp] in *.
  set (b := emin prec80 emax80) in *. assert (Hb : b < 0) by done.
  unfold SF_units, cond_Zopp in Hu |- *. fold b in Hu |- *.
  change f80_scale with (2 ^ (- b)) in *.
  destruct (0 <=? e) eqn:Ee; breflect.
  - exists (Z.pos m * 2 ^ e).
    assert (Hx : Z.pos m * 2 ^ (e - b) = Z.pos m * 2 ^ e * 2 ^ (- b)).
    { rewrite <- Z.mul_assoc, <- Z.pow_add_r by lia. by replace (e + - b) with (e - b) by lia. }
    rewrite Hx in *. assert (0 < 2 ^ e) by (apply Z.pow_pos_nonneg; lia).
    split_and!; try done; nia.
  - set (q := - (- Z.pos m / 2 ^ (- e))).
    assert (He2 : 0 < 2 ^ (- e)) by (apply Z.pow_pos_nonneg; lia).
    assert (Hq : (q - 1) * 2 ^ (- e) < Z.pos m <= q * 2 ^ (- e)).
    { pose proof (Z.div_mod (- Z.pos m) (2 ^ (- e)) ltac:(lia)).
      pose proof (Z.mod_pos_bound (- Z.pos m) (2 ^ (- e)) He2). unfold q. nia. }
    assert (Hx : 2 ^ (- b) = 2 ^ (- e) * 2 ^ (e - b)).
    { rewrite <- Z.pow_add_r by lia. f_equal. lia. }
    assert (0 < 2 ^ (e - b)) by (apply Z.pow_pos_nonneg; lia).
    assert (Hqc : q <= c).
    { rewrite Hx, Z.mul_assoc in Hu. apply Z.mul_le_mono_pos_r in Hu; [|done]. nia. }
    assert (Hq0 : 0 <= q) by nia.
    destruct (SF_of_Z_units prec80 emax80 ltac:(done) ltac:(done) q) as [Hfq Huq].
    { change (2 ^ prec80) with (2 ^ 64). lia. }
    fold b in Huq. exists q. split_and!; try done; try lia; rewrite Hx, Z.mul_assoc;
      apply Z.mul_lt_mono_pos_r || apply Z.mul_le_mono_pos_r; done || lia.
Qed.
#[global] Opaque f80_scale.

(** * Rounding does not cross a representable bound

    A sum of nonnegative numbers whose exact value is at most a number of the
    format is finite and rounds to at most that number.  Stated on the integer
    view of [Float64]: units in the last place of the smallest subnormal. *)

Section Bound.
Context (prec emax : Z) (Hprec : 1 < prec) (Hemax : prec < emax).

#[local] Abbreviation fexp := (fexp prec emax).
#[local] Abbreviation emin := (emin prec emax).
#[local] Abbreviation units := (SF_units prec emax).

(** A bound [c * 2 ^ k] that the format represents. *)
Definition representable (c k : Z) : Prop := 0 <= c < 2 ^ prec /\ emin <= k /\ prec + k <= emax.

Lemma pow_split a b : 0 <= a -> 0 <= b -> 2 ^ (a + b) = 2 ^ a * 2 ^ b.
Proof. intros. by apply Z.pow_add_r. Qed.

(** Rounding up stops at a bound: the next mantissa does not pass it. *)
Lemma rounded_mantissa_le m e c k q : 0 < m -> emin <= e -> representable c k ->
  e <= fexp (Zdigits2 m + e) -> m * 2 ^ (e - emin) <= c * 2 ^ (k - emin) ->
  q = m / 2 ^ (fexp (Zdigits2 m + e) - e) -> ~ (2 ^ (fexp (Zdigits2 m + e) - e) | m) ->
  (q + 1) * 2 ^ (fexp (Zdigits2 m + e) - emin) <= c * 2 ^ (k - emin).
Proof.
  intros Hm He (Hc & Hk & Hov) Hf Hle Hq Hnd. set (f := fexp (Zdigits2 m + e)) in *.
  assert (emin <= f) as Hfe by (unfold f, SpecFloat.fexp; lia).
  assert (0 < 2 ^ (f - e)) as Hp by (apply Z.pow_pos_nonneg; lia).
  assert (q * 2 ^ (f - e) < m) as Hlt.
  { pose proof (Z.div_mod m (2 ^ (f - e)) ltac:(lia)) as Hdm. pose proof (Z.mod_pos_bound m (2 ^ (f - e)) Hp).
    rewrite <- Hq in Hdm. destruct (Z.eq_dec (m mod 2 ^ (f - e)) 0) as [E|]; [|lia].
    exfalso. apply Hnd. exists q. lia. }
  assert (q * 2 ^ (f - emin) < c * 2 ^ (k - emin)) as Hlt2.
  { apply Z.lt_le_trans with (m * 2 ^ (e - emin)); [|done].
    replace (f - emin) with ((f - e) + (e - emin)) by lia. rewrite pow_split, Z.mul_assoc by lia.
    apply Z.mul_lt_mono_pos_r; [apply Z.pow_pos_nonneg; lia|done]. }
  assert (0 < 2 ^ (f - emin)) by (apply Z.pow_pos_nonneg; lia).
  destruct (Z.le_gt_cases f k) as [Hfk|Hfk].
  - replace (k - emin) with ((k - f) + (f - emin)) in * by lia. rewrite pow_split, Z.mul_assoc in * by lia.
    apply Z.mul_lt_mono_pos_r in Hlt2; [|done]. apply Z.mul_le_mono_nonneg_r; lia.
  - exfalso. assert (f = Zdigits2 m + e - prec) as Ef by (unfold f, SpecFloat.fexp in *; lia).
    pose proof (Zdigits2_bounds m Hm) as [Hlo _].
    assert (2 ^ (Zdigits2 m - 1) * 2 ^ (e - emin) <= m * 2 ^ (e - emin)) as H1.
    { apply Z.mul_le_mono_nonneg_r; [apply Z.pow_nonneg; lia|done]. }
    assert (1 <= Zdigits2 m).
    { destruct (Z.le_gt_cases 1 (Zdigits2 m)); [done|]. pose proof (Zdigits2_lt m ltac:(lia)).
      assert (2 ^ Zdigits2 m <= 2 ^ 0) by (apply Z.pow_le_mono_r; lia). lia. }
    rewrite <- pow_split in H1 by lia.
    assert (c * 2 ^ (k - emin) < 2 ^ prec * 2 ^ (k - emin)) as H2.
    { apply Z.mul_lt_mono_pos_r; [apply Z.pow_pos_nonneg; lia|lia]. }
    rewrite <- pow_split in H2 by lia.
    assert (2 ^ (prec + (k - emin)) <= 2 ^ (Zdigits2 m - 1 + (e - emin))) by (apply Z.pow_le_mono_r; lia).
    lia.
Qed.

(** A mantissa at an exponent below the bound, after the last normalisation. *)
Lemma final_shift_le r e1 c k : 0 <= r -> emin <= e1 -> e1 <= fexp (Zdigits2 r + e1) -> representable c k ->
  r * 2 ^ (e1 - emin) <= c * 2 ^ (k - emin) ->
  let '(mrs, e2) := shr_fexp prec emax r e1 loc_Exact in
  0 <= shr_m mrs /\ emin <= e2 /\ e2 <= emax - prec /\ shr_m mrs * 2 ^ (e2 - emin) <= c * 2 ^ (k - emin).
Proof.
  intros Hr He1 Hf (Hc & Hk & Hov) Hle. destruct (shr_fexp prec emax r e1 loc_Exact) as [mrs e2] eqn:E.
  apply shr_fexp_m in E as [-> Hq]; [|done..].
  set (f := fexp (Zdigits2 r + e1)) in *. assert (emin <= f) by (unfold f, SpecFloat.fexp; lia).
  assert (0 < 2 ^ (f - e1)) by (apply Z.pow_pos_nonneg; lia).
  split_and!; [rewrite Hq; by apply Z.div_pos|done| |].
  - unfold f, SpecFloat.fexp. assert (emin <= emax - prec) by (unfold SpecFloat.emin; lia).
    enough (Zdigits2 r + e1 <= emax) by lia. destruct (decide (r = 0)) as [->|]; [unfold f, SpecFloat.fexp in Hf; simpl in Hf |- *; lia|].
    pose proof (Zdigits2_bounds r ltac:(lia)) as [Hlo _].
    destruct (Z.le_gt_cases (Zdigits2 r + e1) emax) as [|Hgt]; [done|]. exfalso.
    assert (1 <= Zdigits2 r) as Hd1.
    { destruct (Z.le_gt_cases 1 (Zdigits2 r)); [done|]. pose proof (Zdigits2_lt r Hr).
      assert (2 ^ Zdigits2 r <= 2 ^ 0) by (apply Z.pow_le_mono_r; lia). lia. }
    assert (2 ^ (Zdigits2 r - 1) * 2 ^ (e1 - emin) <= r * 2 ^ (e1 - emin)) as Hlow.
    { apply Z.mul_le_mono_nonneg_r; [apply Z.pow_nonneg; lia|done]. }
    rewrite <- pow_split in Hlow by lia.
    assert (c * 2 ^ (k - emin) < 2 ^ prec * 2 ^ (k - emin)) as Hup.
    { apply Z.mul_lt_mono_pos_r; [apply Z.pow_pos_nonneg; lia|lia]. }
    rewrite <- pow_split in Hup by lia.
    assert (2 ^ (prec + (k - emin)) <= 2 ^ (Zdigits2 r - 1 + (e1 - emin))) by (apply Z.pow_le_mono_r; lia).
    lia.
  - apply Z.le_trans with (r * 2 ^ (e1 - emin)); [|done]. rewrite Hq.
    replace (f - emin) with ((f - e1) + (e1 - emin)) by lia. rewrite pow_split, Z.mul_assoc by lia.
    apply Z.mul_le_mono_nonneg_r; [apply Z.pow_nonneg; lia|]. rewrite Z.mul_comm. by apply Z.mul_div_le.
Qed.

Lemma binary_round_aux_le m e c k : 0 < m -> emin <= e -> e <= fexp (Zdigits2 m + e) -> representable c k ->
  m * 2 ^ (e - emin) <= c * 2 ^ (k - emin) ->
  isfinite (binary_round_aux prec emax false m e loc_Exact) = true /\
  0 <= units (binary_round_aux prec emax false m e loc_Exact) <= c * 2 ^ (k - emin).
Proof.
  intros Hm He Hf Hr Hle. unfold binary_round_aux.
  destruct (shr_fexp prec emax m e loc_Exact) as [mrs1 e1] eqn:E1.
  pose proof (shr_fexp_canonical prec emax Hprec m e _ _ _ ltac:(lia) Hf E1) as (H1 & Hmin1 & Hc1 & Hz1).
  destruct (shr_fexp_m prec emax m e _ _ _ ltac:(lia) Hf E1) as [Ee1 Hq1].
  set (r := round_nearest_even _ _).
  assert (r = shr_m mrs1 \/ r = shr_m mrs1 + 1) as Hcase by apply round_nearest_even_cases.
  assert (r * 2 ^ (e1 - emin) <= c * 2 ^ (k - emin)) as Hrle.
  { assert (shr_m mrs1 * 2 ^ (e1 - emin) <= m * 2 ^ (e - emin)) as Hdown.
    { rewrite Hq1. replace (e1 - emin) with ((e1 - e) + (e - emin)) by lia. rewrite pow_split, Z.mul_assoc by lia.
      apply Z.mul_le_mono_nonneg_r; [apply Z.pow_nonneg; lia|]. rewrite Z.mul_comm. apply Z.mul_div_le.
      apply Z.pow_pos_nonneg; lia. }
    assert (0 < 2 ^ (fexp (Zdigits2 m + e) - e)) by (apply Z.pow_pos_nonneg; lia).
    destruct (Z.eq_dec (m mod 2 ^ (fexp (Zdigits2 m + e) - e)) 0) as [Hd%Z.mod_divide|Hnd]; [..|lia|].
    - rewrite shr_fexp_exact in E1 by (lia || done). injection E1 as <- <-.
      assert (r = m / 2 ^ (fexp (Zdigits2 m + e) - e)) as -> by done. cbn [shr_m] in Hdown. lia.
    - destruct Hcase as [->| ->]; [lia|]. subst e1. apply (rounded_mantissa_le m e c k); try done.
      by rewrite <- Z.mod_divide by lia. }
  assert (0 <= r) as Hr0 by lia.
  assert (e1 <= fexp (Zdigits2 r + e1)) as Hf1.
  { destruct (decide (shr_m mrs1 = 0)) as [Hz|Hnz].
    - rewrite (Hz1 Hz). unfold SpecFloat.fexp. lia.
    - rewrite <- (Hc1 ltac:(lia)) at 1. apply fexp_mono. pose proof (Zdigits2_mono (shr_m mrs1) r). lia. }
  pose proof (final_shift_le r e1 c k Hr0 Hmin1 Hf1 Hr Hrle) as Hfin.
  destruct (shr_fexp prec emax r e1 loc_Exact) as [mrs2 e2]. destruct Hfin as (Hp & Hmin2 & Hmax2 & Hle2).
  destruct Hr as (Hc & _). assert (0 <= c * 2 ^ (k - emin)) by (apply Z.mul_nonneg_nonneg; [lia|apply Z.pow_nonneg; lia]).
  destruct (shr_m mrs2) as [|p|p]; [simpl; lia| |lia].
  rewrite (proj2 (Z.leb_le _ _) Hmax2). split; [done|]. unfold SF_units, cond_Zopp. split; [|done].
  apply Z.mul_nonneg_nonneg; [lia|apply Z.pow_nonneg; lia].
Qed.

Lemma binary_normalize_le m e c k z : 0 <= m -> emin <= e -> representable c k ->
  m * 2 ^ (e - emin) <= c * 2 ^ (k - emin) ->
  isfinite (binary_normalize prec emax m e z) = true /\
  0 <= units (binary_normalize prec emax m e z) <= c * 2 ^ (k - emin).
Proof.
  intros Hm He Hr Hle. destruct m as [|p|p]; [simpl; lia| |lia]. simpl. unfold binary_round, shl_align.
  set (f := fexp (Z.pos (digits2_pos p) + e)).
  destruct (f - e) as [|d|d] eqn:Ef.
  - apply binary_round_aux_le; try done. change (e <= f). lia.
  - apply binary_round_aux_le; try done. change (e <= f). lia.
  - rewrite Pos_iter_xO.
    assert (emin <= f) by (unfold f, SpecFloat.fexp; lia).
    assert (0 < 2 ^ Z.pos d) by (by apply Z.pow_pos_nonneg).
    apply binary_round_aux_le; [nia|done| |done|].
    + rewrite Zdigits2_shiftl by lia. unfold f in *.
      change (Zdigits2 (Z.pos p)) with (Z.pos (digits2_pos p)).
      replace (Z.pos (digits2_pos p) + Z.pos d + fexp (Z.pos (digits2_pos p) + e)) with (Z.pos (digits2_pos p) + e) by lia. lia.
    + rewrite <- Z.mul_assoc, <- pow_split by lia. by replace (Z.pos d + (f - emin)) with (e - emin) by lia.
Qed.

(** The sum of two nonnegative numbers under a representable bound. *)
Lemma SFadd_le x y c k :
  valid_binary prec emax x = true -> valid_binary prec emax y = true ->
  isfinite x = true -> isfinite y = true -> 0 <= units x -> 0 <= units y -> representable c k ->
  units x + units y <= c * 2 ^ (k - emin) ->
  isfinite (SFadd prec emax x y) = true /\ 0 <= units (SFadd prec emax x y) <= c * 2 ^ (k - emin).
Proof.
  intros Hx Hy Fx Fy Px Py Hr Hle.
  destruct x as [sx|sx| |sx mx ex], y as [sy|sy| |sy my ey]; try done.
  - simpl in *. split; [by destruct sx, sy|]. destruct sx, sy; simpl; lia.
  - change (SFadd prec emax (S754_finite sx mx ex) (S754_zero sy)) with (S754_finite sx mx ex).
    change (units (S754_zero sy)) with 0 in *. split; [done|lia].
  - change (bounded prec emax mx ex = true) in Hx. change (bounded prec emax my ey = true) in Hy.
    pose proof (bounded_spec _ _ Hprec _ _ Hx) as (? & _).
    pose proof (bounded_spec _ _ Hprec _ _ Hy) as (? & _).
    set (ez := Z.min ex ey).
    assert (emin <= ez /\ ez <= ex /\ ez <= ey) as (Hz & Hzx & Hzy) by (unfold ez; lia).
    assert (Hu : (cond_Zopp sx (Zpos (fst (shl_align mx ex ez)))
                  + cond_Zopp sy (Zpos (fst (shl_align my ey ez)))) * 2 ^ (ez - emin)
                 = units (S754_finite sx mx ex) + units (S754_finite sy my ey)).
    { rewrite Z.mul_add_distr_r, !(aligned_units prec emax) by done. done. }
    rewrite <- Hu in Hle. unfold SFadd. fold ez. apply binary_normalize_le; [|done..].
    assert (0 < 2 ^ (ez - emin)) by (apply Z.pow_pos_nonneg; lia). nia.
Qed.
End Bound.
