(* ===== verification/WorldGrid.v ===== *)
(** * The grid interface of the world and the measured body

    The rest of [mapping/navigation_world_model/.../world_model_view.hpp]:
    discrete bounds and geometry, the distance to the local boundary, the
    support of the measured rigid body, and the index-addressed part of the
    view interface that graph search uses.

    Rotation of a vector by the conjugate of a quaternion, quaternion norm and
    inner product are Eigen's, hence the class [EigenRotOps]. *)

From S2P Require Import Prelude Float64 Float64Facts FloatOrder Geometry World.
From Stdlib Require Import Floats.SpecFloat.

(** ** Discrete geometry *)

(** [GridIndex3 = Eigen::Vector3i], three 32-bit integers *)
Record GridIndex3 : Type := Idx { ix : Z; iy : Z; iz : Z }.
#[export] Instance GridIndex3_eq_dec : EqDecision GridIndex3.
Proof. solve_decision. Defined.

#[export] Instance GridLayer_eq_dec : EqDecision GridLayer.
Proof. solve_decision. Defined.

Record GridBounds : Type := mkBounds { global_min_index : GridIndex3; dimensions : GridIndex3 }.

Definition GridBounds_valid (b : GridBounds) : bool :=
  (0 <? ix (dimensions b)) && (0 <? iy (dimensions b)) && (0 <? iz (dimensions b)).

Record WorldGeometry : Type := mkGeometry {
  evidence_resolution_m : f64;
  inflated_resolution_m : f64;
  occupied_inflation_radius_m : f64;
  effective_virtual_ground_m : f64;
  effective_virtual_ceiling_m : f64;
  local_center_m : vec3;
  local_size_m : vec3;
  virtual_ground_ceiling_enabled : bool;
  evidence_bounds : GridBounds;
  inflated_bounds : GridBounds
}.

(** [v.cwiseAbs().maxCoeff()] and [v(axis)] *)
Definition v_absMaxCoeff (v : vec3) : f64 := fmax (fmax (fabs (vx v)) (fabs (vy v))) (fabs (vz v)).
Definition v_coeffs (v : vec3) : list f64 := [vx v; vy v; vz v].

Definition f64_max : f64 := S754_finite false 9007199254740991 971.
Definition kBoundaryEpsilonM : f64 := f64_lit 1 1000000000.
Definition lit_1e_12 : f64 := f64_lit 1 1000000000000.

(** One axis of the local box, in [long double]. *)
Definition axis_bounds (center size : f64) : option (f64 * f64) :=
  let half := f80_mul (f80_lit 1 2) (f80_of_f64 size) in
  let c := f80_of_f64 center in
  let minimum := f80_sub c half in
  let maximum := f80_add c half in
  if negb (isfinite minimum) || negb (isfinite maximum)
     || flt minimum (f80_of_f64 (fopp f64_max)) || fgt maximum (f80_of_f64 f64_max)
     || fgt minimum maximum
  then None
  else Some (f64_of_f80 minimum, f64_of_f80 maximum).

(** One axis of the support: [None] rejects the query, [Some s] is the new
    running minimum. *)
Definition axis_support (support_m component origin lo hi : f64) : option f64 :=
  if fle (fabs component) lit_1e_12 then Some support_m
  else
    let boundary := if fgt component fzero then hi else lo in
    let distance := f80_div (f80_sub (f80_of_f64 boundary) (f80_of_f64 origin)) (f80_of_f64 component) in
    if negb (isfinite distance) || flt distance (fopp (f80_of_f64 kBoundaryEpsilonM))
       || fgt distance (f80_of_f64 f64_max)
    then None
    else Some (fmin support_m (fmax fzero (f64_of_f80 distance))).

(** [std::isfinite] of the running minimum at the end. *)
Definition finite_support (support_m : f64) : option f64 :=
  if isfinite support_m then Some support_m else None.

Section Support.
Context `{EigenOps}.

Definition support_inputs_ok (origin direction : vec3) (geometry : WorldGeometry) : bool :=
  v_allFinite origin && v_allFinite direction && v_allFinite (local_center_m geometry)
  && v_allFinite (local_size_m geometry)
  && forallb (fun c => negb (fle c fzero)) (v_coeffs (local_size_m geometry)).

Definition directionalSupportToLocalBoundary (origin direction : vec3) (geometry : WorldGeometry)
  : option f64 :=
  if negb (support_inputs_ok origin direction geometry) then None
  else
    let direction_scale := v_absMaxCoeff direction in
    if negb (isfinite direction_scale) || fle direction_scale fzero then None
    else
      let direction_norm := f64_mul direction_scale (v_norm (v_div direction direction_scale)) in
      if negb (isfinite direction_norm) || fle direction_norm lit_1e_12 then None
      else
        let u := v_div direction direction_norm in
        let c := local_center_m geometry in
        let s := local_size_m geometry in
        match axis_bounds (vx c) (vx s), axis_bounds (vy c) (vy s), axis_bounds (vz c) (vz s) with
        | Some (x0, x1), Some (y0, y1), Some (z0, z1) =>
            if existsb id (zip_with flt (v_coeffs origin)
                 (v_coeffs (v_sub_scalar (Vec3 x0 y0 z0) kBoundaryEpsilonM)))
               || existsb id (zip_with fgt (v_coeffs origin)
                 (v_coeffs (v_add_scalar (Vec3 x1 y1 z1) kBoundaryEpsilonM)))
            then Some fzero
            else
              axis_support finf (vx u) (vx origin) x0 x1 ≫= fun m =>
              axis_support m (vy u) (vy origin) y0 y1 ≫= fun m =>
              axis_support m (vz u) (vz origin) z0 z1 ≫= finite_support
        | _, _, _ => None
        end.
End Support.

(** ** The measured body *)

Class EigenRotOps : Type := {
  q_norm : quat -> f64;
  q_dot : quat -> quat -> f64;
  (** [q.conjugate() * v] *)
  q_unrotate : quat -> vec3 -> vec3
}.

Record Box : Type := mkObb { ob_center : vec3; ob_half_extent : vec3; ob_orientation : quat }.

Record CurrentBodySupport : Type := mkSupport {
  cs_snapshot_identity : WorldSnapshotIdentity;
  cs_body_position : vec3;
  cs_body_orientation : quat;
  cs_localization_epoch : Z;
  cs_source_stamp_ns : Z;
  cs_world_frame_id : string;
  cs_body_frame_id : string;
  cs_geometry_provenance : string;
  cs_body_box : Box;
  cs_valid : bool
}.

(** [s.find(t) != npos] *)
Definition str_contains (t s : string) : bool := has (String.index 0 t s).

Definition kProvenanceHash : string := "@sha256=".
Definition kProvenanceComponent : string := "component=base_link_collision_0_main_obb_only".

Definition lit_1e_15 : f64 := f64_lit 1 1000000000000000.
Definition lit_1e_9 : f64 := f64_lit 1 1000000000.
Definition f64_one : f64 := f64_of_Z 1.
(** [numeric_limits<double>::epsilon()] *)
Definition f64_epsilon : f64 := f64_lit 1 4503599627370496.

Section Body.
Context `{EigenOps, EigenRotOps}.

Definition finiteUnitQuaternion (q : quat) : bool :=
  if negb (q_allFinite q) then false
  else
    let norm := q_norm q in
    isfinite norm && fgt norm fzero && fle (fabs (f64_sub norm f64_one)) (f64_lit 1 1000000).

Definition finiteGeometry (s : CurrentBodySupport) : bool :=
  if (cs_geometry_provenance s ==? EmptyString)
     || negb (str_contains kProvenanceHash (cs_geometry_provenance s))
     || negb (str_contains kProvenanceComponent (cs_geometry_provenance s))
     || negb (v_allFinite (cs_body_position s))
     || negb (finiteUnitQuaternion (cs_body_orientation s))
     || (cs_localization_epoch s =? 0) || (cs_world_frame_id s ==? EmptyString)
     || (cs_body_frame_id s !=? "base_link"%string)
     || (cs_source_stamp_ns s <=? 0) || (wi_generation (cs_snapshot_identity s) =? 0)
     || (wi_revision (cs_snapshot_identity s) =? 0)
     || negb (wi_localization_epoch (cs_snapshot_identity s) =? cs_localization_epoch s)
  then false
  else
    v_allFinite (ob_center (cs_body_box s)) && v_allFinite (ob_half_extent (cs_body_box s))
    && forallb (fun c => fgt c fzero) (v_coeffs (ob_half_extent (cs_body_box s)))
    && finiteUnitQuaternion (ob_orientation (cs_body_box s)).

Definition matchesMeasuredState (s : CurrentBodySupport) (measured_position : vec3)
    (measured_orientation : quat) (measured_epoch measured_stamp_ns : Z) : bool :=
  if negb (finiteGeometry s) || negb (v_allFinite measured_position)
     || negb (finiteUnitQuaternion measured_orientation)
     || negb (measured_epoch =? cs_localization_epoch s)
     || negb (measured_stamp_ns =? cs_source_stamp_ns s) then false
  else
    fle (v_norm (v_sub measured_position (cs_body_position s))) lit_1e_9
    && fge (fabs (q_dot measured_orientation (cs_body_orientation s))) (f64_sub f64_one lit_1e_9).

(** The overload with the frames. *)
Definition matchesMeasuredStateInFrames (s : CurrentBodySupport) (measured_position : vec3)
    (measured_orientation : quat) (measured_epoch measured_stamp_ns : Z)
    (measured_world_frame measured_body_frame : string) : bool :=
  matchesMeasuredState s measured_position measured_orientation measured_epoch measured_stamp_ns
  && (measured_world_frame ==? cs_world_frame_id s) && (measured_body_frame ==? cs_body_frame_id s).

Definition matchesWorldSnapshot (s : CurrentBodySupport) (identity : WorldSnapshotIdentity)
    (now_stamp_ns : Z) : bool :=
  cs_valid s && finiteGeometry s && sameWorldSnapshotIdentity (cs_snapshot_identity s) identity
  && (now_stamp_ns =? cs_source_stamp_ns s).

Definition support_contains (s : CurrentBodySupport) (point : vec3)
    (identity : WorldSnapshotIdentity) (now_stamp_ns : Z) : bool :=
  if negb (cs_valid s) || negb (finiteGeometry s) || negb (v_allFinite point)
     || negb (sameWorldSnapshotIdentity (cs_snapshot_identity s) identity)
     || negb (now_stamp_ns =? cs_source_stamp_ns s) then false
  else
    let body_point := q_unrotate (cs_body_orientation s) (v_sub point (cs_body_position s)) in
    if negb (v_allFinite body_point) then false
    else
      let box := cs_body_box s in
      let local := q_unrotate (ob_orientation box) (v_sub body_point (ob_center box)) in
      if negb (v_allFinite local) then false
      else
        let scale := fmax f64_one (v_absMaxCoeff (ob_half_extent box)) in
        let tolerance := f64_mul (f64_mul (f64_of_Z 64) f64_epsilon) scale in
        isfinite tolerance
        && forallb id (zip_with (fun l e => fle (fabs l) (f64_add e tolerance)) (v_coeffs local)
                         (v_coeffs (ob_half_extent box))).

(** One slab of [boxInterval]: the parameters still inside after this axis. *)
Definition box_slab (bounds : option (f64 * f64)) (start delta extent : f64) : option (f64 * f64) :=
  match bounds with
  | None => None
  | Some (lower, upper) =>
      if fle (fabs delta) lit_1e_15 then
        if fgt (fabs start) (f64_add extent lit_1e_12) then None else Some (lower, upper)
      else
        let a := f64_div (f64_sub (fopp extent) start) delta in
        let b := f64_div (f64_sub extent start) delta in
        let '(a, b) := if fgt a b then (b, a) else (a, b) in
        let lower := fmax lower a in
        let upper := fmin upper b in
        if fgt lower (f64_add upper lit_1e_12) then None else Some (lower, upper)
  end.

Definition boxInterval (start delta : vec3) (box : Box) (radius_m : f64) : option (f64 * f64) :=
  let local_start := q_unrotate (ob_orientation box) (v_sub start (ob_center box)) in
  let local_delta := q_unrotate (ob_orientation box) delta in
  let extent := v_sub (ob_half_extent box) (vec3_constant radius_m) in
  if negb (v_allFinite local_start) || negb (v_allFinite local_delta) || negb (v_allFinite extent)
     || existsb (fun c => flt c fzero) (v_coeffs extent) then None
  else
    match box_slab (box_slab (box_slab (Some (fzero, f64_one))
            (vx local_start) (vx local_delta) (vx extent))
            (vy local_start) (vy local_delta) (vy extent))
            (vz local_start) (vz local_delta) (vz extent) with
    | Some (lower, upper) => Some (fclamp lower fzero f64_one, fclamp upper fzero f64_one)
    | None => None
    end.

Definition contiguousBodyPrefixFraction (s : CurrentBodySupport) (start stop : vec3) (radius_m : f64)
  : f64 :=
  if negb (cs_valid s) || negb (finiteGeometry s) || negb (v_allFinite start)
     || negb (v_allFinite stop) || negb (isfinite radius_m) || flt radius_m fzero then fzero
  else
    let local_start := q_unrotate (cs_body_orientation s) (v_sub start (cs_body_position s)) in
    let local_end := q_unrotate (cs_body_orientation s) (v_sub stop (cs_body_position s)) in
    if negb (v_allFinite local_start) || negb (v_allFinite local_end) then fzero
    else
      match boxInterval local_start (v_sub local_end local_start) (cs_body_box s) radius_m with
      | Some (first, second) =>
          if fgt first lit_1e_12 then fzero else fclamp second fzero f64_one
      | None => fzero
      end.

Definition containsSegment (s : CurrentBodySupport) (start stop : vec3)
    (identity : WorldSnapshotIdentity) (now_stamp_ns : Z) (radius_m : f64) : bool :=
  if negb (cs_valid s) || negb (finiteGeometry s) || negb (v_allFinite start)
     || negb (v_allFinite stop) || negb (isfinite radius_m) || flt radius_m fzero
     || negb (sameWorldSnapshotIdentity (cs_snapshot_identity s) identity)
     || negb (now_stamp_ns =? cs_source_stamp_ns s) then false
  else
    fge (contiguousBodyPrefixFraction s start stop radius_m) (f64_sub f64_one lit_1e_12).

Definition unknownIntervalWithinInitialBodyPrefix (s : CurrentBodySupport) (start stop : vec3)
    (interval_begin interval_end : f64) (identity : WorldSnapshotIdentity) (now_stamp_ns : Z)
    (radius_m : f64) : bool :=
  let kIntervalTolerance := lit_1e_9 in
  if negb (isfinite interval_begin) || negb (isfinite interval_end)
     || flt interval_begin (fopp kIntervalTolerance)
     || flt interval_end (f64_sub interval_begin kIntervalTolerance)
     || fgt interval_end (f64_add f64_one kIntervalTolerance)
     || negb (isfinite radius_m) || flt radius_m fzero
     || negb (matchesWorldSnapshot s identity now_stamp_ns)
     || negb (support_contains s start identity now_stamp_ns)
  then false
  else
    let prefix_fraction := contiguousBodyPrefixFraction s start stop radius_m in
    isfinite prefix_fraction && fle interval_end (f64_add prefix_fraction kIntervalTolerance).
End Body.

(** ** The index-addressed part of the view *)

Record GridWorldView : Type := mkGridView {
  gv_view : WorldModelView;
  gv_geometry : WorldGeometry;
  positionToIndex : vec3 -> GridLayer -> GridIndex3;
  indexToPosition : GridIndex3 -> GridLayer -> vec3;
  nearestNotOccupied : vec3 -> GridLayer -> f64 -> option vec3;
  (** The virtual oracle of the measured start prefix; see
      [default_segment_oracle] for the implementation of the interface. *)
  isSegmentTraversableWithCurrentBodySupport :
    vec3 -> vec3 -> GridLayer -> UnknownPolicy -> ptr CurrentBodySupport -> bool
}.

(** The interface's own body of [isSegmentTraversableWithCurrentBodySupport]:
    a body witness is never read as a permission. *)
Definition default_segment_oracle (w : WorldModelView) (start stop : vec3) (layer : GridLayer)
    (unknown_policy : UnknownPolicy) (support : ptr CurrentBodySupport) : bool :=
  if has support then false else isSegmentTraversable w start stop layer unknown_policy.

#[global] Arguments finiteGeometry {_ _} _ : simpl never.

(** ** What a support query returns *)

Lemma axis_support_nonneg m component origin lo hi m' :
  fle fzero m = true -> axis_support m component origin lo hi = Some m' -> fle fzero m' = true.
Proof.
  unfold axis_support. destruct (fle (fabs component) _); [by intros ? [= <-]|].
  intros Hm. cbv zeta. destruct (_ || _ || _); [done|]. intros [= <-].
  destruct (fmin_cases m (fmax fzero (f64_of_f80 (f80_div (f80_sub (f80_of_f64
    (if fgt component fzero then hi else lo)) (f80_of_f64 origin)) (f80_of_f64 component)))))
    as [-> | ->]; [done|]. by apply fmax_ge_l.
Qed.

Lemma finite_support_spec m s : finite_support m = Some s -> s = m /\ isfinite m = true.
Proof. unfold finite_support. destruct (isfinite m) eqn:E; [|done]. by intros [= <-]. Qed.

(** Distance to the boundary: whenever the query answers, its inputs were
    finite with a positive map size, and the answer is a finite length, never
    negative and never a NaN. *)
Theorem directional_support_range `{EigenOps} (origin direction : vec3) (geometry : WorldGeometry)
    (s : f64) :
  directionalSupportToLocalBoundary origin direction geometry = Some s ->
  support_inputs_ok origin direction geometry = true /\ isfinite s = true /\ fle fzero s = true.
Proof.
  unfold directionalSupportToLocalBoundary. cbv zeta.
  destruct (support_inputs_ok _ _ _); [|done]. cbn [negb].
  destruct (_ || _); [done|]. destruct (_ || _); [done|].
  do 3 (destruct (axis_bounds _ _) as [[? ?]|]; [|done]).
  destruct (_ || _); [by intros [= <-]|].
  intros (m1 & E1 & (m2 & E2 & (m3 & E3 & Hs)%bind_Some)%bind_Some)%bind_Some.
  apply finite_support_spec in Hs as [-> Hf]. split_and!; auto.
  eapply axis_support_nonneg; [|done]. eapply axis_support_nonneg; [|done].
  by eapply axis_support_nonneg; [|done].
Qed.

(** ** The body witness is a permission on an initial prefix only *)

(** The running slab bounds are never NaN: [std::min] and [std::max] keep
    their first argument when the other one is a NaN. *)
Definition slab_ok (o : option (f64 * f64)) : Prop :=
  match o with Some (l, u) => isnan l = false /\ isnan u = false | None => True end.

Lemma fmax_keeps_l a b : isnan a = false -> isnan (fmax a b) = false.
Proof. unfold fmax. destruct (flt a b) eqn:E; [|done]. by apply flt_key in E as (_ & ? & _). Qed.

Lemma fmin_keeps_l a b : isnan a = false -> isnan (fmin a b) = false.
Proof. unfold fmin. destruct (flt b a) eqn:E; [|done]. by apply flt_key in E as (? & _ & _). Qed.

Lemma box_slab_ok o start delta extent : slab_ok o -> slab_ok (box_slab o start delta extent).
Proof.
  destruct o as [[l u]|]; [|done]. intros [Hl Hu]. unfold box_slab.
  destruct (fle _ _); [by destruct (fgt _ _)|].
  destruct (if fgt _ _ then _ else _) as [a b]. cbv zeta. destruct (fgt _ _); [done|].
  split; [by apply fmax_keeps_l|by apply fmin_keeps_l].
Qed.

Lemma unit_interval_ok : fle fzero f64_one = true.
Proof. by vm_compute. Qed.

Lemma boxInterval_range `{EigenOps, EigenRotOps} start delta box radius l u :
  boxInterval start delta box radius = Some (l, u) -> isnan l = false /\ isnan u = false.
Proof.
  unfold boxInterval. cbv zeta. destruct (_ || _ || _ || _); [done|].
  match goal with |- context [match ?o with _ => _ end] => assert (slab_ok o) as Hok end.
  { by do 3 apply box_slab_ok. }
  destruct (box_slab _ _ _ _) as [[l' u']|]; [|done]. destruct Hok as [Hl Hu]. intros [= <- <-].
  destruct (fclamp_range l' fzero f64_one Hl unit_interval_ok) as [?%fle_not_nan _].
  destruct (fclamp_range u' fzero f64_one Hu unit_interval_ok) as [?%fle_not_nan _]. by destruct_and!.
Qed.

Lemma prefix_fraction_range `{EigenOps, EigenRotOps} s start stop radius :
  let f := contiguousBodyPrefixFraction s start stop radius in
  fle fzero f = true /\ fle f f64_one = true.
Proof.
  cbv zeta. unfold contiguousBodyPrefixFraction. cbv zeta.
  destruct (_ || _); [by split; vm_compute|]. destruct (_ || _); [by split; vm_compute|].
  destruct (boxInterval _ _ _ _) as [[l u]|] eqn:E; [|by split; vm_compute].
  apply boxInterval_range in E as [_ Hu]. destruct (fgt _ _); [by split; vm_compute|].
  by apply fclamp_range, unit_interval_ok.
Qed.

Lemma body_permission_spec `{EigenOps, EigenRotOps} s start stop b e w now r :
  unknownIntervalWithinInitialBodyPrefix s start stop b e w now r = true ->
  isfinite r = true /\ fle fzero r = true /\ matchesWorldSnapshot s w now = true /\
  support_contains s start w now = true /\
  isfinite (contiguousBodyPrefixFraction s start stop r) = true /\
  fle e (f64_add (contiguousBodyPrefixFraction s start stop r) lit_1e_9) = true.
Proof.
  unfold unknownIntervalWithinInitialBodyPrefix. cbv zeta.
  destruct (_ || _) eqn:E; [done|]. bsplit. intros [Hf Hle]. split_and!; auto.
  apply fle_negb_flt. split_and!; [done|by apply isfinite_not_nan|done].
Qed.

(** The measured body excuses unknown space only along an initial prefix of the
    chord: the permission names the witness's own world and stamp, requires the
    chord to start in the body, never reaches past the contiguous prefix (a
    fraction between 0 and 1) by more than a nanometre-scale tolerance, and with
    an interval every shorter interval is permitted, so leaving the body and
    re-entering it cannot reopen the permission. *)
Theorem body_permission_is_prefix `{EigenOps, EigenRotOps} (s : CurrentBodySupport)
    (start stop : vec3) (b e : f64) (w : WorldSnapshotIdentity) (now : Z) (r : f64) :
  unknownIntervalWithinInitialBodyPrefix s start stop b e w now r = true ->
  let f := contiguousBodyPrefixFraction s start stop r in
  cs_valid s = true /\ cs_snapshot_identity s = w /\
  now = cs_source_stamp_ns s /\ support_contains s start w now = true /\
  fle fzero f = true /\ fle f f64_one = true /\ fle e (f64_add f lit_1e_9) = true /\
  (forall b' e', isfinite b' = true -> isfinite e' = true -> fle (fopp lit_1e_9) b' = true ->
     fle (f64_sub b' lit_1e_9) e' = true -> fle e' (f64_add f64_one lit_1e_9) = true -> fle e' e = true ->
     unknownIntervalWithinInitialBodyPrefix s start stop b' e' w now r = true).
Proof.
  intros Hp. pose proof (body_permission_spec _ _ _ _ _ _ _ _ Hp) as (Hr & Hr0 & Hw & Hc & Hf & He).
  pose proof (prefix_fraction_range s start stop r) as [Hf0 Hf1].
  pose proof Hw as Hw'. unfold matchesWorldSnapshot in Hw'. bsplit. cbv zeta. split_and!; auto.
  intros b' e' Hb' He' K1 K2 K3 K4.
  assert (fle e' (f64_add (contiguousBodyPrefixFraction s start stop r) lit_1e_9) = true) as Hlast
    by eauto using fle_trans'.
  unfold unknownIntervalWithinInitialBodyPrefix. cbv zeta.
  assert (forall x y, fle x y = true -> flt y x = false) as Hlt by (intros x y ?%fle_negb_flt; tauto).
  assert (fgt e' (f64_add f64_one lit_1e_9) = false) as -> by exact (Hlt _ _ K3).
  rewrite Hb', He', Hr, Hc, Hf, Hw, (Hlt _ _ K1), (Hlt _ _ K2), (Hlt _ _ Hr0), Hlast.
  done.
Qed.

(** ** Witnesses *)

Definition v_cross (a b : vec3) : vec3 :=
  Vec3 (f64_sub (f64_mul (vy a) (vz b)) (f64_mul (vz a) (vy b)))
       (f64_sub (f64_mul (vz a) (vx b)) (f64_mul (vx a) (vz b)))
       (f64_sub (f64_mul (vx a) (vy b)) (f64_mul (vy a) (vx b))).

Definition rot_reference : EigenRotOps := {|
  q_norm q := f64_sqrt (@q_squaredNorm eigen_reference q);
  q_dot a b :=
    f64_add (f64_add (f64_mul (qx a) (qx b)) (f64_mul (qy a) (qy b)))
            (f64_add (f64_mul (qz a) (qz b)) (f64_mul (qw a) (qw b)));
  q_unrotate q v :=
    let u := Vec3 (fopp (qx q)) (fopp (qy q)) (fopp (qz q)) in
    let uv := v_cross u v in
    let uv := map3 f64_add uv uv in
    map3 f64_add (map3 f64_add v (map3 f64_mul (vec3_constant (qw q)) uv)) (v_cross u uv)
|}.

Definition demo_support : CurrentBodySupport := {|
  cs_snapshot_identity := mkIdentity 1 1 1 10;
  cs_body_position := vec3_zero;
  cs_body_orientation := quat_identity;
  cs_localization_epoch := 1;
  cs_source_stamp_ns := 10;
  cs_world_frame_id := "map";
  cs_body_frame_id := "base_link";
  cs_geometry_provenance := "m@sha256=0;component=base_link_collision_0_main_obb_only";
  cs_body_box := mkObb vec3_zero (vec3_constant (f64_lit 1 2)) quat_identity;
  cs_valid := true
|}.

Definition demo_geometry : WorldGeometry := {|
  evidence_resolution_m := f64_lit 1 10;
  inflated_resolution_m := f64_lit 1 5;
  occupied_inflation_radius_m := f64_lit 1 2;
  effective_virtual_ground_m := fzero;
  effective_virtual_ceiling_m := f64_of_Z 5;
  local_center_m := vec3_zero;
  local_size_m := vec3_constant (f64_of_Z 10);
  virtual_ground_ceiling_enabled := true;
  evidence_bounds := mkBounds (Idx (-50) (-50) (-50)) (Idx 100 100 100);
  inflated_bounds := mkBounds (Idx (-25) (-25) (-25)) (Idx 50 50 50)
|}.

Lemma directional_support_range_witness :
  let d := Vec3 (f64_of_Z 1) fzero fzero in
  @directionalSupportToLocalBoundary eigen_reference vec3_zero d demo_geometry = Some (f64_of_Z 5) /\
  fle fzero (f64_of_Z 5) = true.
Proof.
  split; [by vm_compute|].
  apply (@directional_support_range eigen_reference vec3_zero (Vec3 (f64_of_Z 1) fzero fzero)
           demo_geometry). by vm_compute.
Defined.

Lemma body_permission_is_prefix_witness :
  @unknownIntervalWithinInitialBodyPrefix eigen_reference rot_reference demo_support vec3_zero
    (Vec3 (f64_of_Z 1) fzero fzero) fzero (f64_lit 1 4) (mkIdentity 1 1 1 10) 10 fzero = true.
Proof.
  apply (@body_permission_is_prefix eigen_reference rot_reference demo_support vec3_zero
    (Vec3 (f64_of_Z 1) fzero fzero) fzero (f64_lit 1 2) (mkIdentity 1 1 1 10) 10 fzero);
    by vm_compute.
Defined.
