(* ===== verification/AStar.v ===== *)
(** * Graph search on the occupancy grid

    [planning/navigation_planning_backend/.../path_search/astar.h] and
    [astar.cpp]: the bounded A* search from a measured start to a goal, and the
    escape search from an occupied start.

    A [GridNode*] is the key under which [visited_nodes_] owns the node, so two
    pointers are equal when their keys are.  The clock is an oracle: the n-th
    read of [steady_clock::now() >= steady_deadline] is [expired n].
    [std::priority_queue] is the class [PqOps]; logging and visualisation are
    left out.  Loops without a structural measure take fuel; [AStarProps]
    proves how much is enough. *)

From S2P Require Import Prelude Float64 Float64Facts Geometry World WorldGrid.
From stdpp Require Import gmap.
From Stdlib Require Import Floats.SpecFloat.
#[local] Open Scope Z_scope.

(** ** Result codes, flags and configuration *)

Inductive RET_CODE : Type :=
| FAILED | NO_NEED | SUCCESS | FINISH | NEW_TRAJ | EMER | OPT_FAILED | INIT_ERROR
| REACH_HORIZON | REACH_GOAL | NO_PATH | TIME_OUT.
#[export] Instance RET_CODE_eq_dec : EqDecision RET_CODE.
Proof. solve_decision. Defined.

Definition ON_INF_MAP : Z := 1.
Definition ON_PROB_MAP : Z := 2.
Definition UNKNOWN_AS_OCCUPIED : Z := 8.
Definition UNKNOWN_AS_FREE : Z := 16.
Definition USE_INF_NEIGHBOR : Z := 32.
Definition DONT_USE_INF_NEIGHBOR : Z := 64.

Definition flag_set (flag bit : Z) : bool := negb (Z.land flag bit =? 0).

Inductive HeuristicType : Type := DIAG | MANH | EUCL.

Record PathSearchConfig : Type := mkSearchConfig {
  allow_diag : bool;
  heu_type : HeuristicType;
  heuristic_weight : f64
}.

(** The checks of the constructor. *)
Definition astar_config_ok (cfg : PathSearchConfig) (search_time_limit_s : f64) : bool :=
  isfinite search_time_limit_s && fgt search_time_limit_s fzero
  && isfinite (heuristic_weight cfg) && fge (heuristic_weight cfg) (f64_of_Z 1)
  && fle (heuristic_weight cfg) (f64_of_Z 5).

(** ** Nodes and queues *)

Inductive enum_state : Type := OPENSET | CLOSEDSET | UNDEFINED.
#[export] Instance enum_state_eq_dec : EqDecision enum_state.
Proof. solve_decision. Defined.

Record GridNode : Type := mkNode {
  n_state : enum_state;
  n_rounds : Z;
  n_id_g : GridIndex3;
  n_total_score : f64;
  n_distance_score : f64;
  n_distance_to_goal : f64;
  n_father_ptr : option Z;
  n_frontier_sequence : Z
}.

(** A fresh node; the code assigns [id_g] before it reads it. *)
Definition GridNode_default : GridNode := mkNode UNDEFINED 0 (Idx 0 0 0) finf finf finf None 0.

Record OpenSetEntry : Type := mkOpen { oe_node : Z; oe_total_score : f64; oe_rounds : Z }.

(** [OpenSetComparator]: the first argument has the lower priority. *)
Definition open_worse (entry1 entry2 : OpenSetEntry) : bool :=
  fgt (oe_total_score entry1) (oe_total_score entry2).

Record FrontierEntry : Type := mkFrontier { fe_node : Z; fe_distance_to_goal : f64; fe_sequence : Z }.

Definition frontier_worse (entry1 entry2 : FrontierEntry) : bool :=
  if fne (fe_distance_to_goal entry1) (fe_distance_to_goal entry2)
  then fgt (fe_distance_to_goal entry1) (fe_distance_to_goal entry2)
  else fe_sequence entry2 <? fe_sequence entry1.

(** [std::priority_queue]: [top] and [pop] together, of the elements that were
    pushed and not popped.  Which of several best elements comes first is not
    specified. *)
Class PqOps : Type := {
  pq_pop : forall {A : Type}, (A -> A -> bool) -> list A -> option (A * list A)
}.

(** A comparison the queue may be used with on the elements it holds. *)
Record strict_weak {A : Type} (l : list A) (worse : A -> A -> bool) : Prop := {
  sw_irrefl : forall a, a ∈ l -> worse a a = false;
  sw_asym : forall a b, a ∈ l -> b ∈ l -> worse a b = true -> worse b a = false;
  sw_neg_trans : forall a b c, a ∈ l -> b ∈ l -> c ∈ l ->
    worse a b = false -> worse b c = false -> worse a c = false
}.

Class PqLaws (Q : PqOps) : Prop := {
  pq_pop_none : forall A (worse : A -> A -> bool) l, pq_pop worse l = None <-> l = [];
  pq_pop_perm : forall A (worse : A -> A -> bool) l x l',
    pq_pop worse l = Some (x, l') -> l ≡ₚ x :: l';
  pq_pop_best : forall A (worse : A -> A -> bool) l x l',
    strict_weak l worse -> pq_pop worse l = Some (x, l') -> forall y, y ∈ l' -> worse x y = false
}.

(** ** Integers *)

Definition checkedIndexStep (base delta : Z) : option Z :=
  if ((0 <? delta) && (i32_max - delta <? base)) || ((delta <? 0) && (base <? i32_min - delta))
  then None
  else Some (base + delta).

Definition index_step (base delta : GridIndex3) : option GridIndex3 :=
  x ← checkedIndexStep (ix base) (ix delta);
  y ← checkedIndexStep (iy base) (iy delta);
  z ← checkedIndexStep (iz base) (iz delta);
  Some (Idx x y z).

Definition isinf (x : spec_float) : bool :=
  match x with S754_infinity _ => true | _ => false end.

(** In [long double]; [Some] is a duration in nanoseconds. *)
Definition checkedSearchDuration (requested_seconds fallback_seconds : f64) : option Z :=
  if isnan requested_seconds || (isinf requested_seconds && fgt requested_seconds fzero) then None
  else
    let seconds := if fge requested_seconds fzero then requested_seconds else fallback_seconds in
    if negb (isfinite seconds) || fle seconds fzero then None
    else
      let nanoseconds := f80_mul (f80_of_f64 seconds) (f80_of_Z 1000000000) in
      if negb (isfinite nanoseconds) || flt nanoseconds (f80_of_Z 1)
         || fgt nanoseconds (f80_of_Z i64_max)
      then None
      else Some (SF_trunc nanoseconds).

Definition range (n : Z) : list Z := (fun k => Z.of_nat k - n) <$> seq 0 (Z.to_nat (2 * n + 1)).

(** Three nested loops over [-n .. n], in the code's order. *)
Definition cube (n : Z) : list GridIndex3 :=
  i ← range n; j ← range n; k ← range n; [Idx i j k].

Definition idx_zero (d : GridIndex3) : bool := (ix d =? 0) && (iy d =? 0) && (iz d =? 0).

Definition kMaximumNeighborStep : Z := 64.

Definition setFineInfNeighbors (neighbor_step : Z) : list GridIndex3 :=
  if (neighbor_step <=? 0) || (kMaximumNeighborStep <? neighbor_step) then []
  else
    filter (fun d => negb (idx_zero d)
                     && (ix d * ix d + iy d * iy d + iz d * iz d <=? neighbor_step * neighbor_step))
      (cube neighbor_step).

(** ** The window of a solve *)

Record MissionData : Type := mkMission {
  md_start_pt : vec3;
  md_goal_pt : vec3;
  md_searching_horizon : f64;
  md_use_inf_map : bool;
  md_use_prob_map : bool;
  md_unknown_as_occ : bool;
  md_unknown_as_free : bool;
  md_use_inf_neighbor : bool;
  md_resolution : f64;
  md_local_map_center_d : vec3;
  md_local_global_min_index : GridIndex3;
  md_local_global_max_index : GridIndex3;
  md_local_voxel_count : GridIndex3;
  md_local_map_min_d : vec3;
  md_local_map_max_d : vec3
}.

Record Astar : Type := mkAstar {
  map_ptr_ : ptr GridWorldView;
  current_body_support_ : ptr CurrentBodySupport;
  current_body_orientation_ : quat;
  cfg_ : PathSearchConfig;
  search_time_limit_s_ : f64;
  neighbor_list : list GridIndex3;
  rounds_ : Z
}.

(** One axis of the window: its first and last index, both representable. *)
Definition axis_window (minimum_index dimension : Z) : option (Z * Z) :=
  if (dimension <=? 0) || (i64_max - (dimension - 1) <? minimum_index) then None
  else
    let maximum_index := minimum_index + dimension - 1 in
    if (i32_max <? minimum_index) || (minimum_index <? i32_min)
       || (i32_max <? maximum_index) || (maximum_index <? i32_min) then None
    else Some (minimum_index, maximum_index).

(** The product of the counts is representable as [size_t]. *)
Definition window_addressable (count : GridIndex3) : bool :=
  negb (iz count =? 0) && (iy count <=? u64_max / iz count)
  && (ix count <=? u64_max / (iy count * iz count)).

Definition search_layer (md : MissionData) : GridLayer :=
  if md_use_inf_map md then kInflated else kEvidence.
Definition configured_search_policy (md : MissionData) : UnknownPolicy :=
  if md_unknown_as_occ md then kRequireKnownFree else kAllowUnknown.

Definition posToGlobalIndex (w : GridWorldView) (md : MissionData) (pos : vec3) : GridIndex3 :=
  positionToIndex w pos (search_layer md).
Definition globalIndexToPos (w : GridWorldView) (md : MissionData) (id_g : GridIndex3) : vec3 :=
  indexToPosition w id_g (search_layer md).

Definition insideLocalMap (md : MissionData) (id_g : GridIndex3) : bool :=
  let lo := md_local_global_min_index md in
  let hi := md_local_global_max_index md in
  (ix lo <=? ix id_g) && (iy lo <=? iy id_g) && (iz lo <=? iz id_g)
  && (ix id_g <=? ix hi) && (iy id_g <=? iy hi) && (iz id_g <=? iz hi).

(** In [size_t]: differences are converted, products and sums wrap. *)
Definition getLocalIndexHash (md : MissionData) (id_in : GridIndex3) : Z :=
  let lo := md_local_global_min_index md in
  let n := md_local_voxel_count md in
  let size_t z := z mod 2 ^ 64 in
  size_t (size_t (size_t (size_t (ix id_in - ix lo) * size_t (iy n)) * size_t (iz n))
          + size_t (size_t (iy id_in - iy lo) * size_t (iz n))
          + size_t (iz id_in - iz lo)).

Section Astar.
Context `{EigenOps, EigenRotOps, EigenNormOps}.

(** Every field of [md_] that the search reads is assigned here, so the mission
    data of a failed setup is not part of the model. *)
Definition setup (a : Astar) (start_pt goal_pt : vec3) (flag : Z) (searching_horizon : f64)
  : RET_CODE + MissionData :=
  if negb (v_allFinite start_pt) || negb (v_allFinite goal_pt) || negb (isfinite searching_horizon)
  then inl INIT_ERROR
  else
    let use_inf_map := flag_set flag ON_INF_MAP in
    let use_prob_map := flag_set flag ON_PROB_MAP in
    let unknown_as_occ := flag_set flag UNKNOWN_AS_OCCUPIED in
    let unknown_as_free := flag_set flag UNKNOWN_AS_FREE in
    let use_inf_neighbor := flag_set flag USE_INF_NEIGHBOR && negb (flag_set flag DONT_USE_INF_NEIGHBOR) in
    if (use_inf_map && use_prob_map) || (negb use_inf_map && negb use_prob_map) then inl INIT_ERROR
    else if unknown_as_occ && unknown_as_free then inl INIT_ERROR
    else
      match map_ptr_ a with
      | None => inl INIT_ERROR
      | Some view =>
          let w := sp_obj view in
          let geometry := gv_geometry w in
          let resolution :=
            if use_prob_map then evidence_resolution_m geometry else inflated_resolution_m geometry in
          let bounds := if use_prob_map then evidence_bounds geometry else inflated_bounds geometry in
          if negb (isfinite resolution) || fle resolution fzero || negb (GridBounds_valid bounds)
          then inl INIT_ERROR
          else
            let lo := global_min_index bounds in
            let n := dimensions bounds in
            match axis_window (ix lo) (ix n), axis_window (iy lo) (iy n), axis_window (iz lo) (iz n) with
            | Some (x0, x1), Some (y0, y1), Some (z0, z1) =>
                if negb (window_addressable n) then inl INIT_ERROR
                else
                  let center :=
                    if fgt searching_horizon fzero then start_pt
                    else v_add (v_scale (f64_lit 1 2) start_pt) (v_scale (f64_lit 1 2) goal_pt) in
                  let layer := if use_inf_map then kInflated else kEvidence in
                  inr (mkMission start_pt goal_pt searching_horizon use_inf_map use_prob_map
                         unknown_as_occ unknown_as_free use_inf_neighbor resolution center
                         (Idx x0 y0 z0) (Idx x1 y1 z1) n
                         (indexToPosition w (Idx x0 y0 z0) layer)
                         (indexToPosition w (Idx x1 y1 z1) layer))
            | _, _, _ => inl INIT_ERROR
            end
      end.

Definition idx_cast (i : GridIndex3) : vec3 :=
  Vec3 (f64_of_Z (ix i)) (f64_of_Z (iy i)) (f64_of_Z (iz i)).

Definition axis_distance (c : GridIndex3 -> Z) (id1 id2 : GridIndex3) : f64 :=
  fabs (f64_sub (f64_of_Z (c id1)) (f64_of_Z (c id2))).

(** [1.0 * sqrt(3.0) * diag + sqrt(2.0) * std::min(a, b) + 1.0 * std::abs(a - b)] *)
Definition octile (diag a b : f64) : f64 :=
  f64_add (f64_add (f64_mul (f64_mul (f64_of_Z 1) (f64_sqrt (f64_of_Z 3))) diag)
             (f64_mul (f64_sqrt (f64_of_Z 2)) (fmin a b)))
    (f64_mul (f64_of_Z 1) (fabs (f64_sub a b))).

Definition getHeu (cfg : PathSearchConfig) (id1 id2 : GridIndex3) : f64 :=
  match heu_type cfg with
  | DIAG =>
      let dx := axis_distance ix id1 id2 in
      let dy := axis_distance iy id1 id2 in
      let dz := axis_distance iz id1 id2 in
      let diag := fmin (fmin dx dy) dz in
      let dx := f64_sub dx diag in
      let dy := f64_sub dy diag in
      let dz := f64_sub dz diag in
      let h := fzero in
      let h := if feq dx fzero then octile diag dy dz else h in
      let h := if feq dy fzero then octile diag dx dz else h in
      let h := if feq dz fzero then octile diag dx dy else h in
      f64_mul (heuristic_weight cfg) h
  | MANH =>
      f64_mul (heuristic_weight cfg)
        (f64_add (f64_add (axis_distance ix id1 id2) (axis_distance iy id1 id2))
           (axis_distance iz id1 id2))
  | EUCL => f64_mul (heuristic_weight cfg) (v_norm (v_sub (idx_cast id2) (idx_cast id1)))
  end.

(** Some neighbour of [src_id] in the inflation ball has state [type]. *)
Definition neighborHaveOne (a : Astar) (w : GridWorldView) (md : MissionData) (type : CellState)
    (src_id : GridIndex3) : bool :=
  existsb (fun nei =>
    match index_step src_id nei with
    | None => false
    | Some nei_id =>
        insideLocalMap md nei_id
        && (classify (gv_view w) (globalIndexToPos w md nei_id) (search_layer md) ==? type)
    end) (neighbor_list a).

(** Whether the measured body may vouch for a prefix that starts at [start]. *)
Definition measured_body_admission (a : Astar) (w : GridWorldView) (start : vec3) : bool :=
  match current_body_support_ a with
  | None => false
  | Some p =>
      let support := sp_obj p in
      matchesMeasuredState support start (current_body_orientation_ a)
        (cs_localization_epoch support) (cs_source_stamp_ns support)
      && sameWorldSnapshotIdentity (cs_snapshot_identity support) (identity (gv_view w))
  end.

Definition startPrefixTraversable (a : Astar) (start stop : vec3) (layer : GridLayer)
    (policy : UnknownPolicy) : bool :=
  match map_ptr_ a with
  | None => false
  | Some p =>
      let w := sp_obj p in
      if negb (v_allFinite start) || negb (v_allFinite stop) then false
      else if negb (measured_body_admission a w start) then
        isSegmentTraversable (gv_view w) start stop layer policy
      else isSegmentTraversableWithCurrentBodySupport w start stop layer policy (current_body_support_ a)
  end.
End Astar.

(** ** The state of one search *)

Record SearchState : Type := mkSearch {
  visited_nodes_ : gmap Z GridNode;
  open_set : list OpenSetEntry;
  frontier_queue : list FrontierEntry;
  frontier_sequence_ : Z
}.

(** [*node] for the node owned under the key [h] *)
Definition node_at (s : SearchState) (h : Z) : GridNode :=
  default GridNode_default (visited_nodes_ s !! h).

Definition put_node (h : Z) (n : GridNode) (s : SearchState) : SearchState :=
  mkSearch (<[h := n]> (visited_nodes_ s)) (open_set s) (frontier_queue s) (frontier_sequence_ s).

Definition set_open (o : list OpenSetEntry) (s : SearchState) : SearchState :=
  mkSearch (visited_nodes_ s) o (frontier_queue s) (frontier_sequence_ s).

Definition set_frontier (f : list FrontierEntry) (s : SearchState) : SearchState :=
  mkSearch (visited_nodes_ s) (open_set s) f (frontier_sequence_ s).

Definition push_open (e : OpenSetEntry) (s : SearchState) : SearchState := set_open (e :: open_set s) s.

Definition n_set_id (id_g : GridIndex3) (n : GridNode) : GridNode :=
  mkNode (n_state n) (n_rounds n) id_g (n_total_score n) (n_distance_score n)
    (n_distance_to_goal n) (n_father_ptr n) (n_frontier_sequence n).

Definition n_set_state (state : enum_state) (n : GridNode) : GridNode :=
  mkNode state (n_rounds n) (n_id_g n) (n_total_score n) (n_distance_score n)
    (n_distance_to_goal n) (n_father_ptr n) (n_frontier_sequence n).

(** [nodeAt] followed by the assignment of [id_g], as every caller does. *)
Definition touch (h : Z) (id_g : GridIndex3) (s : SearchState) : SearchState :=
  put_node h (n_set_id id_g (node_at s h)) s.

(** The local variables of one search that its loop reads. *)
Record SearchTask : Type := mkTask {
  t_astar : Astar;
  t_view : GridWorldView;
  t_md : MissionData;
  t_round : Z;
  t_start_pt : vec3;
  t_start_key : Z;
  t_end_key : Z;
  t_start_pt_out_local_map : bool;
  t_end_pt_out_local_map : bool;
  t_prefer_start_goal_altitude : bool;
  t_preferred_min_z : f64;
  t_preferred_max_z : f64;
  t_expired : nat -> bool
}.

(** The 26 neighbour offsets in the order of the three loops. *)
Definition neighbor_offsets : list GridIndex3 := filter (fun d => negb (idx_zero d)) (cube 1).

Definition axial (d : GridIndex3) : bool := Z.abs (ix d) + Z.abs (iy d) + Z.abs (iz d) <=? 1.

(** [sqrt(dx * dx + dy * dy + dz * dz)] *)
Definition step_length (d : GridIndex3) : f64 :=
  f64_sqrt (f64_of_Z (ix d * ix d + iy d * iy d + iz d * iz d)).

(** The end of the neighbour loop of both searches: a new or cheaper node is
    attached to [cur] and pushed.  [goal_distance] is written by the goal
    search only. *)
Definition relax (round : Z) (cur h : Z) (d : GridIndex3) (heu_score : f64) (writes_goal_distance : bool)
    (s : SearchState) : SearchState :=
  let n := node_at s h in
  let flag_explored := n_rounds n =? round in
  let distance_score := f64_add (n_distance_score (node_at s cur)) (step_length d) in
  let total := f64_add distance_score heu_score in
  let goal_distance := if writes_goal_distance then heu_score else n_distance_to_goal n in
  if negb flag_explored then
    push_open (mkOpen h total round)
      (put_node h (mkNode OPENSET round (n_id_g n) total distance_score goal_distance (Some cur)
                     (n_frontier_sequence n)) s)
  else if flt distance_score (n_distance_score n) then
    push_open (mkOpen h total round)
      (put_node h (mkNode (n_state n) round (n_id_g n) total distance_score goal_distance (Some cur)
                     (n_frontier_sequence n)) s)
  else s.

(** [retrievePath]: the node and its fathers; [None] when the fuel runs out. *)
Fixpoint retrievePath (fuel : nat) (s : SearchState) (current : Z) : option (list Z) :=
  match fuel with
  | O => None
  | S fuel =>
      match n_father_ptr (node_at s current) with
      | None => Some [current]
      | Some father => cons current <$> retrievePath fuel s father
      end
  end.

(** Every node of the search can occur once on a path. *)
Definition retrieve_fuel (s : SearchState) : nat := S (size (visited_nodes_ s)).

Definition path_ids (s : SearchState) (current : Z) : option (list GridIndex3) :=
  map (fun h => n_id_g (node_at s h)) <$> retrievePath (retrieve_fuel s) s current.

Definition ConvertNodePathToPointPath (w : GridWorldView) (md : MissionData)
    (node_path : list GridIndex3) : list vec3 :=
  reverse (globalIndexToPos w md <$> node_path).
#[global] Arguments ConvertNodePathToPointPath _ _ _ : simpl never.

Section Search.
Context `{EigenOps, EigenRotOps, EigenNormOps, PqOps}.

(** What the search takes a cell to be. *)
Definition neighbor_type (t : SearchTask) (idx : GridIndex3) : CellState :=
  let w := t_view t in
  let md := t_md t in
  if md_use_inf_map md || negb (md_use_inf_neighbor md) then
    classify (gv_view w) (globalIndexToPos w md idx) (search_layer md)
  else
    let type := if neighborHaveOne (t_astar t) w md kOccupied idx then kOccupied else kUnknown in
    if md_unknown_as_occ md && (type !=? kOccupied) then
      if neighborHaveOne (t_astar t) w md kKnownFree idx then kKnownFree else kUnknown
    else type.

(** The two oracles an edge has to pass. *)
Definition edge_traversable (t : SearchTask) (a b : GridIndex3) : bool :=
  let w := t_view t in
  let md := t_md t in
  let from := globalIndexToPos w md a in
  let to := globalIndexToPos w md b in
  isSegmentTraversable (gv_view w) from to (search_layer md) (configured_search_policy md)
  && ((search_layer md ==? kInflated)
      || isSegmentTraversable (gv_view w) from to kInflated (configured_search_policy md)).

Definition in_preferred_slab (t : SearchTask) (pos : vec3) : bool :=
  negb (t_prefer_start_goal_altitude t
        && (flt (vz pos) (t_preferred_min_z t) || fgt (vz pos) (t_preferred_max_z t))).

(** The body of the neighbour loop; [None] is the [INIT_ERROR] of an exhausted
    frontier sequence. *)
Definition expand_neighbor (t : SearchTask) (cur : Z) (s : SearchState) (d : GridIndex3)
  : option SearchState :=
  let w := t_view t in
  let md := t_md t in
  let cfg := cfg_ (t_astar t) in
  if negb (allow_diag cfg) && negb (axial d) then Some s
  else
    match index_step (n_id_g (node_at s cur)) d with
    | None => Some s
    | Some neighborIdx =>
        let neighborPos := globalIndexToPos w md neighborIdx in
        if negb (insideLocalMap md neighborIdx) then Some s
        else if negb (in_preferred_slab t neighborPos) then Some s
        else
          let h := getLocalIndexHash md neighborIdx in
          let s := touch h neighborIdx s in
          let n := node_at s h in
          if (n_rounds n =? t_round t) && (n_state n ==? CLOSEDSET) then Some s
          else
            let type := neighbor_type t neighborIdx in
            if negb (isCellTraversable type kAllowUnknown) then Some s
            else if negb (edge_traversable t (n_id_g (node_at s cur)) neighborIdx) then Some s
            else
              let heu_score := getHeu cfg neighborIdx (n_id_g (node_at s (t_end_key t))) in
              if md_unknown_as_occ md && (type ==? kUnknown) then
                if frontier_sequence_ s =? u64_max then None
                else
                  let seq := frontier_sequence_ s + 1 in
                  Some (mkSearch
                    (<[h := mkNode (n_state n) (n_rounds n) (n_id_g n) (n_total_score n)
                              (n_distance_score n) heu_score (Some cur) seq]> (visited_nodes_ s))
                    (open_set s) (mkFrontier h heu_score seq :: frontier_queue s) seq)
              else Some (relax (t_round t) cur h d heu_score true s)
    end.

(** The neighbour loop. *)
Fixpoint expand (t : SearchTask) (cur : Z) (ds : list GridIndex3) (s : SearchState)
  : option SearchState :=
  match ds with
  | [] => Some s
  | d :: ds => s ← expand_neighbor t cur s d; expand t cur ds s
  end.

(** An entry is stale when its node has been closed or was pushed again. *)
Definition entry_stale (s : SearchState) (e : OpenSetEntry) : bool :=
  let n := node_at s (oe_node e) in
  negb (oe_rounds e =? n_rounds n) || fne (oe_total_score e) (n_total_score n)
  || (n_state n ==? CLOSEDSET).

Definition frontier_stale (s : SearchState) (e : FrontierEntry) : bool :=
  negb (n_frontier_sequence (node_at s (fe_node e)) =? fe_sequence e).

(** [discard_stale_frontier_entries]; one turn per entry. *)
Fixpoint discard_stale (turns : nat) (s : SearchState) (q : list FrontierEntry)
  : list FrontierEntry :=
  match turns with
  | O => q
  | S turns =>
      match pq_pop frontier_worse q with
      | None => q
      | Some (e, rest) => if frontier_stale s e then discard_stale turns s rest else q
      end
  end.

Definition discard_stale_frontier_entries (s : SearchState) : SearchState :=
  set_frontier (discard_stale (length (frontier_queue s)) s (frontier_queue s)) s.

(** The node a search cut off by its horizon ends at. *)
Definition horizon_goal (t : SearchTask) (s : SearchState) (current : Z) : Z :=
  if md_unknown_as_occ (t_md t) then
    match pq_pop frontier_worse (frontier_queue s) with
    | None => current
    | Some (e, _) =>
        match n_father_ptr (node_at s (fe_node e)) with
        | Some parent =>
            if fgt (n_distance_to_goal (node_at s parent)) (n_distance_to_goal (node_at s current))
            then parent else current
        | None => current
        end
    end
  else current.

(** The best live frontier at least a metre from the start. *)
Fixpoint pick_frontier (turns : nat) (t : SearchTask) (s : SearchState) (q : list FrontierEntry)
  : option Z :=
  match turns with
  | O => None
  | S turns =>
      match pq_pop frontier_worse q with
      | None => None
      | Some (e, rest) =>
          if frontier_stale s e then pick_frontier turns t s rest
          else
            let pos := globalIndexToPos (t_view t) (t_md t) (n_id_g (node_at s (fe_node e))) in
            if flt (v_norm (v_sub pos (t_start_pt t))) (f64_of_Z 1) then pick_frontier turns t s rest
            else Some (fe_node e)
      end
  end.

Definition SearchResult : Type := RET_CODE * list vec3.

Definition emit (t : SearchTask) (code : RET_CODE) (ids : option (list GridIndex3))
  : option SearchResult :=
  (fun l => (code, ConvertNodePathToPointPath (t_view t) (t_md t) l)) <$> ids.

(** [node_path.push_back(startPtr)] when the start was projected. *)
Definition with_start (t : SearchTask) (s : SearchState) (ids : list GridIndex3) : list GridIndex3 :=
  if t_start_pt_out_local_map t then ids ++ [n_id_g (node_at s (t_start_key t))] else ids.

(** The goal was popped: a projected start adds the cell of the real start. *)
Definition goal_reached (t : SearchTask) (s : SearchState) (current : Z) : option SearchResult :=
  emit t (if t_end_pt_out_local_map t then REACH_HORIZON else REACH_GOAL)
    ((fun ids => if t_start_pt_out_local_map t
                 then ids ++ [posToGlobalIndex (t_view t) (t_md t) (t_start_pt t)] else ids)
     <$> path_ids s current).

Definition horizon_reached (t : SearchTask) (s : SearchState) (current : Z) : option SearchResult :=
  let s := discard_stale_frontier_entries s in
  emit t REACH_HORIZON (with_start t s <$> path_ids s (horizon_goal t s current)).

(** After the loop. *)
Definition search_exhausted (t : SearchTask) (ck : nat) (s : SearchState) : option SearchResult :=
  if t_expired t ck then Some (TIME_OUT, [])
  else
    let s := discard_stale_frontier_entries s in
    if md_unknown_as_occ (t_md t) && negb (bool_decide (frontier_queue s = [])) then
      match pick_frontier (length (frontier_queue s)) t s (frontier_queue s) with
      | None => Some (NO_PATH, [])
      | Some local_goal => emit t REACH_HORIZON (with_start t s <$> path_ids s local_goal)
      end
    else Some (NO_PATH, []).

(** The main loop; [ck] counts the reads of the clock. *)
Fixpoint search_loop (fuel : nat) (t : SearchTask) (ck : nat) (s : SearchState)
  : option SearchResult :=
  match fuel with
  | O => None
  | S fuel =>
      match pq_pop open_worse (open_set s) with
      | None => search_exhausted t ck s
      | Some (entry, rest) =>
          if t_expired t ck then Some (TIME_OUT, [])
          else
            let s := set_open rest s in
            let current := oe_node entry in
            let n := node_at s current in
            if entry_stale s entry then search_loop fuel t (S ck) s
            else if n_id_g n ==? n_id_g (node_at s (t_end_key t)) then goal_reached t s current
            else if fgt (md_searching_horizon (t_md t)) fzero
                    && fgt (n_distance_score n)
                         (f64_div (md_searching_horizon (t_md t)) (md_resolution (t_md t)))
            then horizon_reached t s current
            else
              match expand t current neighbor_offsets
                      (put_node current (n_set_state CLOSEDSET n) s) with
              | None => Some (INIT_ERROR, [])
              | Some s =>
                  if t_expired t (S ck) then Some (TIME_OUT, [])
                  else search_loop fuel t (S (S ck)) s
              end
      end
  end.
End Search.

(** ** The goal search *)

Section PointToPoint.
Context `{EigenOps, EigenRotOps, EigenNormOps, PqOps}.

(** [start + dir * length] with [dir] from [start] to [hit]. *)
Definition extend_to (start hit : vec3) (extra : f64) : vec3 :=
  let dir := v_normalized (v_sub hit start) in
  let dis := v_norm (v_sub hit start) in
  v_add start (v_scale (f64_add dis extra) dir).

Definition inside_pos (w : GridWorldView) (md : MissionData) (pos : vec3) : bool :=
  insideLocalMap md (posToGlobalIndex w md pos).

(** The start inside the window, and whether it was projected; [None] is
    [INIT_ERROR]. *)
Definition localize_start (w : GridWorldView) (md : MissionData) (start_pt : vec3)
  : option (vec3 * bool) :=
  if inside_pos w md start_pt then Some (start_pt, false)
  else
    match lineIntersectBox start_pt (md_local_map_center_d md) (md_local_map_min_d md)
            (md_local_map_max_d md) with
    | None => Some (start_pt, false)
    | Some hit_pt =>
        let p := extend_to start_pt hit_pt (f64_mul (md_resolution md) (f64_of_Z 2)) in
        (fun nearest => (nearest, true)) <$> nearestNotOccupied w p kInflated (f64_of_Z 3)
    end.

Definition endpoint_inset_m (md : MissionData) : f64 := f64_mul (f64_of_Z 2) (md_resolution md).

Definition localize_end (w : GridWorldView) (md : MissionData) (start_pt end_pt : vec3)
    (start_pt_out_local_map : bool) : option (vec3 * bool) :=
  if inside_pos w md end_pt then Some (end_pt, false)
  else
    let seed_pt := if start_pt_out_local_map then md_local_map_center_d md else start_pt in
    match lineIntersectBox end_pt seed_pt (md_local_map_min_d md) (md_local_map_max_d md) with
    | None => Some (end_pt, false)
    | Some hit_pt =>
        let p := extend_to end_pt hit_pt (endpoint_inset_m md) in
        (fun nearest => (nearest, true)) <$> nearestNotOccupied w p kInflated (f64_of_Z 2)
    end.

(** The intersection of the end point with the allocated map. *)
Definition project_into_map (w : GridWorldView) (md : MissionData) (local_start_pt : vec3)
    (local_end : vec3 * bool) : option (vec3 * bool) :=
  let '(local_end_pt, end_pt_out_local_map) := local_end in
  if contains (gv_view w) local_end_pt then Some local_end
  else
    let geometry := gv_geometry w in
    let map_center := local_center_m geometry in
    let map_half_size := v_scale (f64_lit 1 2) (local_size_m geometry) in
    let map_margin := vec3_constant (f64_mul (f64_of_Z 2) (md_resolution md)) in
    let map_min := v_add (v_sub map_center map_half_size) map_margin in
    let map_max := v_sub (v_add map_center map_half_size) map_margin in
    match lineIntersectBox local_end_pt local_start_pt map_min map_max with
    | None => None
    | Some hit_pt =>
        let inward := v_normalized (v_sub local_start_pt hit_pt) in
        Some (v_add hit_pt (v_scale (endpoint_inset_m md) inward), true)
    end.

(** *** The virtual start *)

Record StartCandidate : Type := mkCandidate {
  sc_index : GridIndex3;
  sc_position : vec3;
  sc_score : f64
}.

Definition chebyshev (d : GridIndex3) : Z := Z.max (Z.max (Z.abs (ix d)) (Z.abs (iy d))) (Z.abs (iz d)).

Definition idx_add (a b : GridIndex3) : GridIndex3 := Idx (ix a + ix b) (iy a + iy b) (iz a + iz b).

Definition lit_0_05 : f64 := f64_lit 5 100.

(** One voxel of a shell: [Some] when it may seed the graph. *)
Definition start_candidate (a : Astar) (w : GridWorldView) (md : MissionData)
    (local_start_pt local_end_pt : vec3) (prefer_start_goal_altitude : bool)
    (search_policy : UnknownPolicy) (start_idx d : GridIndex3) : option StartCandidate :=
  let candidate_idx := idx_add start_idx d in
  if negb (insideLocalMap md candidate_idx) then None
  else
    let candidate_pos := globalIndexToPos w md candidate_idx in
    if negb (contains (gv_view w) candidate_pos)
       || (prefer_start_goal_altitude
           && fgt (fabs (f64_sub (vz candidate_pos) (vz local_start_pt))) (md_resolution md)) then None
    else
      let candidate_type := classify (gv_view w) candidate_pos (search_layer md) in
      if (candidate_type ==? kOccupied) || (candidate_type ==? kOutOfMap)
         || (candidate_type ==? kUndefined) then None
      else if negb (isCellTraversable candidate_type search_policy) then None
      else if negb (startPrefixTraversable a local_start_pt candidate_pos (search_layer md) search_policy)
      then None
      else
        let distance_from_pose := v_squaredNorm (v_sub candidate_pos local_start_pt) in
        let distance_to_goal := v_squaredNorm (v_sub candidate_pos local_end_pt) in
        Some (mkCandidate candidate_idx candidate_pos
                (f64_add distance_from_pose (f64_mul lit_0_05 distance_to_goal))).

Definition better_candidate (best : option StartCandidate) (c : option StartCandidate)
  : option StartCandidate :=
  match c, best with
  | None, _ => best
  | Some _, None => c
  | Some c', Some b => if flt (sc_score c') (sc_score b) then c else best
  end.

Definition shell_candidate (offer : GridIndex3 -> option StartCandidate) (radius : Z)
  : option StartCandidate :=
  foldl (fun best d => better_candidate best (offer d)) None
    (filter (fun d => chebyshev d =? radius) (cube radius)).

Definition kVirtualStartSearchRadiusCells : Z := 3.

(** The nearest shell with a candidate. *)
Definition virtual_start (offer : GridIndex3 -> option StartCandidate) : option StartCandidate :=
  first_some (shell_candidate offer <$> [1; 2; kVirtualStartSearchRadiusCells]).

(** The policy under which the seed of the graph has to be free. *)
Definition seed_policy (a : Astar) (w : GridWorldView) (md : MissionData) (local_start_pt : vec3)
  : UnknownPolicy :=
  if measured_body_admission a w local_start_pt then kRequireKnownFree
  else configured_search_policy md.

(** The first graph node; [None] is [NO_PATH]. *)
Definition graph_seed (a : Astar) (w : GridWorldView) (md : MissionData)
    (local_start_pt local_end_pt : vec3) (prefer_start_goal_altitude : bool) (start_idx : GridIndex3)
  : option GridIndex3 :=
  let search_policy := seed_policy a w md local_start_pt in
  let graph_start_pt := globalIndexToPos w md start_idx in
  let graph_start_state := classify (gv_view w) graph_start_pt (search_layer md) in
  if isCellTraversable graph_start_state search_policy
     && startPrefixTraversable a local_start_pt graph_start_pt (search_layer md) search_policy
  then Some start_idx
  else sc_index <$> virtual_start
         (start_candidate a w md local_start_pt local_end_pt prefer_start_goal_altitude search_policy
            start_idx).

(** *** The open segment *)

Definition direct_segment_safe (a : Astar) (w : GridWorldView) (md : MissionData)
    (local_start_pt local_end_pt : vec3) : bool :=
  if measured_body_admission a w local_start_pt then
    startPrefixTraversable a local_start_pt local_end_pt (search_layer md) kRequireKnownFree
  else
    isSegmentTraversable (gv_view w) local_start_pt local_end_pt (search_layer md)
      (configured_search_policy md).

(** The number of samples; [None] is [INIT_ERROR]. *)
Definition direct_sample_count (md : MissionData) (delta : vec3) : option Z :=
  let distance := v_norm delta in
  let sample_ratio := f64_div distance (md_resolution md) in
  if negb (isfinite distance) || negb (isfinite sample_ratio)
     || fgt sample_ratio (f64_of_Z (i32_max - 1)) then None
  else Some (Z.max 1 (SF_trunc (f64_ceil sample_ratio))).

Definition direct_samples (local_start_pt delta : vec3) (sample_count : Z) : list vec3 :=
  (fun sample =>
     v_add local_start_pt
       (v_scale (f64_div (f64_of_Z (Z.of_nat sample)) (f64_of_Z sample_count)) delta))
  <$> seq 0 (Z.to_nat sample_count + 1).

(** *** The whole search *)

(** The two nodes the search starts from. *)
Definition initial_state (cfg : PathSearchConfig) (round start_key end_key : Z)
    (start_idx end_idx : GridIndex3) : SearchState :=
  let s := touch end_key end_idx (mkSearch ∅ [] [] 0) in
  let s := touch start_key start_idx s in
  let total := getHeu cfg start_idx (n_id_g (node_at s end_key)) in
  let n := node_at s start_key in
  push_open (mkOpen start_key total round)
    (put_node start_key
       (mkNode OPENSET round start_idx total fzero (n_distance_to_goal n) None (n_frontier_sequence n)) s).

Definition make_task (a : Astar) (w : GridWorldView) (md : MissionData) (expired : nat -> bool)
    (round start_key end_key : Z) (start_pt local_start_pt local_end_pt : vec3)
    (start_out end_out prefer_start_goal_altitude : bool) : SearchTask := {|
  t_astar := a;
  t_view := w;
  t_md := md;
  t_round := round;
  t_start_pt := start_pt;
  t_start_key := start_key;
  t_end_key := end_key;
  t_start_pt_out_local_map := start_out;
  t_end_pt_out_local_map := end_out;
  t_prefer_start_goal_altitude := prefer_start_goal_altitude;
  t_preferred_min_z := f64_sub (fmin (vz local_start_pt) (vz local_end_pt)) (md_resolution md);
  t_preferred_max_z := f64_add (fmax (vz local_start_pt) (vz local_end_pt)) (md_resolution md);
  t_expired := expired
|}.

(** From the localized end points on. *)
Definition search_between (fuel : nat) (a : Astar) (w : GridWorldView) (md : MissionData)
    (expired : nat -> bool) (round : Z) (start_pt local_start_pt local_end_pt : vec3)
    (start_out end_out prefer_start_goal_altitude : bool) : option SearchResult :=
  let start_idx := posToGlobalIndex w md local_start_pt in
  let end_idx := posToGlobalIndex w md local_end_pt in
  if negb (insideLocalMap md start_idx) || negb (insideLocalMap md end_idx)
  then Some (INIT_ERROR, [])
  else
    match graph_seed a w md local_start_pt local_end_pt prefer_start_goal_altitude start_idx with
    | None => Some (NO_PATH, [])
    | Some start_idx =>
        if contains (gv_view w) local_start_pt && contains (gv_view w) local_end_pt
           && direct_segment_safe a w md local_start_pt local_end_pt
        then
          let delta := v_sub local_end_pt local_start_pt in
          match direct_sample_count md delta with
          | None => Some (INIT_ERROR, [])
          | Some sample_count =>
              Some (if end_out then REACH_HORIZON else REACH_GOAL,
                    direct_samples local_start_pt delta sample_count)
          end
        else
          let start_key := getLocalIndexHash md start_idx in
          let end_key := getLocalIndexHash md end_idx in
          let t := make_task a w md expired round start_key end_key start_pt local_start_pt
                     local_end_pt start_out end_out prefer_start_goal_altitude in
          search_loop fuel t 1 (initial_state (cfg_ a) round start_key end_key start_idx end_idx)
    end.

Definition with_round (a : Astar) (round : Z) : Astar :=
  mkAstar (map_ptr_ a) (current_body_support_ a) (current_body_orientation_ a) (cfg_ a)
    (search_time_limit_s_ a) (neighbor_list a) round.

(** The result code, [out_path] and the object after the call; [None] only when
    the fuel of the model runs out. *)
Definition pointToPointPathSearch (fuel : nat) (expired : nat -> bool) (a : Astar)
    (start_pt end_pt : vec3) (flag : Z) (searching_horizon : f64) (out_path : list vec3)
    (time_out : f64) (prefer_start_goal_altitude : bool) : option (RET_CODE * list vec3 * Astar) :=
  if isnan time_out || (isinf time_out && fgt time_out fzero) then Some (INIT_ERROR, out_path, a)
  else if negb (has (checkedSearchDuration time_out (search_time_limit_s_ a)))
  then Some (INIT_ERROR, out_path, a)
  else
    match setup a start_pt end_pt flag searching_horizon, map_ptr_ a with
    | inl code, _ => Some (code, out_path, a)
    | inr _, None => Some (INIT_ERROR, out_path, a)
    | inr md, Some view =>
        let w := sp_obj view in
        if expired 0%nat then Some (TIME_OUT, [], a)
        else if rounds_ a =? i32_max then Some (INIT_ERROR, [], a)
        else
          let a := with_round a (rounds_ a + 1) in
          let result :=
            match localize_start w md start_pt with
            | None => Some (INIT_ERROR, [])
            | Some (local_start_pt, start_out) =>
                match localize_end w md start_pt end_pt start_out ≫= project_into_map w md local_start_pt with
                | None => Some (INIT_ERROR, [])
                | Some (local_end_pt, end_out) =>
                    search_between fuel a w md expired (rounds_ a) start_pt local_start_pt local_end_pt
                      start_out end_out prefer_start_goal_altitude
                end
            end in
          (fun r => (r.1, r.2, a)) <$> result
    end.
End PointToPoint.

(** ** The escape search *)

Section Escape.
Context `{EigenOps, EigenRotOps, EigenNormOps, PqOps}.

Definition escape_neighbor (t : SearchTask) (local_start_pt : vec3) (cur : Z) (s : SearchState)
    (d : GridIndex3) : SearchState :=
  let w := t_view t in
  let md := t_md t in
  match index_step (n_id_g (node_at s cur)) d with
  | None => s
  | Some neighborIdx =>
      let neighborPos := globalIndexToPos w md neighborIdx in
      if negb (contains (gv_view w) neighborPos) || negb (insideLocalMap md neighborIdx) then s
      else if t_prefer_start_goal_altitude t
              && fgt (fabs (f64_sub (vz neighborPos) (vz local_start_pt))) (md_resolution md) then s
      else
        let type := classify (gv_view w) neighborPos (search_layer md) in
        if negb (isCellTraversable type kAllowUnknown) then s
        else if md_unknown_as_occ md && (type ==? kUnknown) then s
        else
          let h := getLocalIndexHash md neighborIdx in
          let s := touch h neighborIdx s in
          let n := node_at s h in
          if (n_rounds n =? t_round t) && (n_state n ==? CLOSEDSET) then s
          else relax (t_round t) cur h d fzero false s
  end.

Definition escape_expand (t : SearchTask) (local_start_pt : vec3) (cur : Z) (s : SearchState)
  : SearchState :=
  foldl (escape_neighbor t local_start_pt cur) s neighbor_offsets.

(** A cell in which the escape may end. *)
Definition escape_done (md : MissionData) (cur_type : CellState) : bool :=
  (md_unknown_as_occ md && (cur_type !=? kOccupied) && (cur_type !=? kUnknown))
  || (md_unknown_as_free md && isCellTraversable cur_type (configured_search_policy md)).

Fixpoint escape_loop (fuel : nat) (t : SearchTask) (local_start_pt : vec3) (ck : nat)
    (s : SearchState) : option SearchResult :=
  match fuel with
  | O => None
  | S fuel =>
      match pq_pop open_worse (open_set s) with
      | None => Some (if t_expired t ck then TIME_OUT else NO_PATH, [])
      | Some (entry, rest) =>
          if t_expired t ck then Some (TIME_OUT, [])
          else
            let s := set_open rest s in
            let current := oe_node entry in
            let n := node_at s current in
            if entry_stale s entry then escape_loop fuel t local_start_pt (S ck) s
            else
              let cur_pos := globalIndexToPos (t_view t) (t_md t) (n_id_g n) in
              let cur_type := classify (gv_view (t_view t)) cur_pos (search_layer (t_md t)) in
              if escape_done (t_md t) cur_type then emit t REACH_HORIZON (path_ids s current)
              else
                let s := escape_expand t local_start_pt current
                           (put_node current (n_set_state CLOSEDSET n) s) in
                if t_expired t (S ck) then Some (TIME_OUT, [])
                else escape_loop fuel t local_start_pt (S (S ck)) s
      end
  end.

Definition escape_initial (round start_key : Z) (start_idx : GridIndex3) : SearchState :=
  push_open (mkOpen start_key fzero round)
    (put_node start_key (mkNode OPENSET round start_idx fzero fzero finf None 0)
       (mkSearch ∅ [] [] 0)).

(** [out_path] is only written by a search that ends with a path, or when
    none is needed. *)
Definition escapePathSearch (fuel : nat) (expired : nat -> bool) (a : Astar) (start_pt : vec3)
    (flag : Z) (out_path : list vec3) (prefer_start_altitude : bool) (time_out : f64)
  : option (RET_CODE * list vec3 * Astar) :=
  if negb (has (checkedSearchDuration time_out (search_time_limit_s_ a)))
  then Some (INIT_ERROR, out_path, a)
  else
    match setup a start_pt start_pt flag (f64_of_Z 999), map_ptr_ a with
    | inl code, _ => Some (code, out_path, a)
    | inr _, None => Some (INIT_ERROR, out_path, a)
    | inr md, Some view =>
        let w := sp_obj view in
        if expired 0%nat then Some (TIME_OUT, out_path, a)
        else if rounds_ a =? i32_max then Some (INIT_ERROR, out_path, a)
        else
          let a := with_round a (rounds_ a + 1) in
          if negb (inside_pos w md start_pt) || negb (contains (gv_view w) start_pt)
          then Some (INIT_ERROR, out_path, a)
          else
            let exact_start_type := classify (gv_view w) start_pt (search_layer md) in
            if md_unknown_as_free md && isCellTraversable exact_start_type kAllowUnknown
            then Some (NO_NEED, [], a)
            else
              match nearestNotOccupied w start_pt (search_layer md) (f64_of_Z 3) with
              | None => Some (INIT_ERROR, out_path, a)
              | Some local_start_pt =>
                  let start_idx := posToGlobalIndex w md local_start_pt in
                  let start_key := getLocalIndexHash md start_idx in
                  let t := make_task a w md expired (rounds_ a) start_key start_key start_pt
                             local_start_pt local_start_pt false false prefer_start_altitude in
                  (fun r => (r.1,
                     if (r.1 ==? REACH_HORIZON) then r.2 else out_path, a))
                  <$> escape_loop fuel t local_start_pt 1 (escape_initial (rounds_ a) start_key start_idx)
              end
    end.
End Escape.

(** ** A priority queue *)

(** A scan for the first best element. *)
Fixpoint pq_scan {A : Type} (worse : A -> A -> bool) (best : A) (rest : list A) : A * list A :=
  match rest with
  | [] => (best, [])
  | x :: rest =>
      if worse best x then let '(b, l) := pq_scan worse x rest in (b, best :: l)
      else let '(b, l) := pq_scan worse best rest in (b, x :: l)
  end.

Definition pq_reference : PqOps := {|
  pq_pop A worse l := match l with [] => None | x :: l => Some (pq_scan worse x l) end
|}.

Lemma pq_scan_perm {A} (worse : A -> A -> bool) best rest :
  best :: rest ≡ₚ (pq_scan worse best rest).1 :: (pq_scan worse best rest).2.
Proof.
  revert best. induction rest as [|x rest IH]; intros best; cbn; [done|].
  destruct (worse best x); [specialize (IH x)|specialize (IH best)];
    destruct (pq_scan worse _ rest) as [b l]; cbn in *.
  - rewrite IH. constructor.
  - rewrite Permutation_swap, IH. constructor.
Qed.

Lemma strict_weak_sub {A} (worse : A -> A -> bool) l l' :
  (forall a, a ∈ l' -> a ∈ l) -> strict_weak l worse -> strict_weak l' worse.
Proof. intros Hs [H1 H2 H3]. split; eauto. Qed.

Lemma pq_scan_best {A} (worse : A -> A -> bool) best rest :
  strict_weak (best :: rest) worse ->
  (forall y, y ∈ (pq_scan worse best rest).2 -> worse (pq_scan worse best rest).1 y = false) /\
  worse (pq_scan worse best rest).1 best = false.
Proof.
  revert best. induction rest as [|x rest IH]; intros best W; cbn.
  { split; [by intros y ?%elem_of_nil|apply (sw_irrefl _ _ W)]. constructor. }
  assert (strict_weak (best :: rest) worse /\ strict_weak (x :: rest) worse) as [Wb Wx].
  { split; eapply (strict_weak_sub _ _ _ _ W).
    Unshelve. all: intros a; rewrite !elem_of_cons; tauto. }
  assert (Hin : forall z, z ∈ z :: rest) by constructor.
  destruct (worse best x) eqn:E; [specialize (IH x Wx)|specialize (IH best Wb)];
    match goal with |- context [pq_scan worse ?z rest] => pose proof (pq_scan_perm worse z rest) as Hp end;
    destruct (pq_scan worse _ rest) as [b l]; cbn in *; destruct IH as [IH1 IH2];
    assert (b ∈ best :: x :: rest) as Hb
      by (assert (b ∈ b :: l) as Hb by constructor; rewrite <- Hp in Hb;
          revert Hb; rewrite !elem_of_cons; tauto).
  - assert (worse b best = false).
    { eapply (sw_neg_trans _ _ W b x best); [done|..|exact IH2|]; [by constructor 2; constructor|constructor|].
      apply (sw_asym _ _ W); [constructor|by constructor 2; constructor|done]. }
    split; [|done]. intros y [->|Hy]%elem_of_cons; auto.
  - assert (worse b x = false).
    { eapply (sw_neg_trans _ _ W b best x); [done|constructor|by constructor 2; constructor|done..]. }
    split; [|done]. intros y [->|Hy]%elem_of_cons; auto.
Qed.

#[export] Instance pq_reference_laws : PqLaws pq_reference.
Proof.
  split; intros A worse [|x l]; cbn; try done.
  - intros y l' [= E]. rewrite (pq_scan_perm worse x l), E. done.
  - intros y l' W [= E]. pose proof (pq_scan_best worse x l W) as [Hb _]. by rewrite E in Hb.
Qed.
