(* ===== verification/AStarProps.v ===== *)
(** * Correctness of the graph search

    Keys address the window injectively; the search forest (closed nodes in
    closing order, every father closed earlier) makes path retrieval
    terminate; the loop terminates because every turn consumes an entry and
    every closing pushes at most 26; and every path handed out is a chain of
    certified edges from the certified seed. *)
From stdpp Require Import gmap.
From S2P Require Import Prelude Float64 Float64Facts Geometry World WorldGrid AStar.
From Stdlib Require Import Floats.SpecFloat.
#[local] Open Scope Z_scope.

(** ** The window *)

Definition window_ok (md : MissionData) : Prop :=
  let lo := md_local_global_min_index md in
  let hi := md_local_global_max_index md in
  let n := md_local_voxel_count md in
  ix n = ix hi - ix lo + 1 /\ iy n = iy hi - iy lo + 1 /\ iz n = iz hi - iz lo + 1 /\
  0 < ix n /\ 0 < iy n /\ 0 < iz n /\
  is_i32 (ix lo) /\ is_i32 (iy lo) /\ is_i32 (iz lo) /\
  is_i32 (ix hi) /\ is_i32 (iy hi) /\ is_i32 (iz hi) /\
  ix n * (iy n * iz n) <= u64_max.

Definition cells (md : MissionData) : Z :=
  ix (md_local_voxel_count md) * (iy (md_local_voxel_count md) * iz (md_local_voxel_count md)).

Lemma axis_window_spec lo n a b :
  axis_window lo n = Some (a, b) -> a = lo /\ n = b - a + 1 /\ 0 < n /\ is_i32 a /\ is_i32 b.
Proof.
  unfold axis_window. intros E. guard_cases. breflect. destruct_and!. unfold is_i32.
  split_and!; lia.
Qed.

Lemma window_addressable_spec n :
  0 < ix n -> 0 < iy n -> 0 < iz n -> window_addressable n = true ->
  ix n * (iy n * iz n) <= u64_max.
Proof.
  unfold window_addressable. intros Hx Hy Hz. intros H. bsplit.
  assert (0 < iy n * iz n) by nia.
  transitivity (u64_max / (iy n * iz n) * (iy n * iz n)); [nia|].
  rewrite Z.mul_comm. by apply Z.mul_div_le.
Qed.

Lemma setup_window `{EigenOps} a start goal flag horizon md :
  setup a start goal flag horizon = inr md -> window_ok md.
Proof.
  unfold setup. intros Hs. guard_case; [done|]. guard_case; [done|]. guard_case; [done|].
  destruct (map_ptr_ a) as [p|]; [|done]. guard_case; [done|]. revert Hs.
  generalize (if flag_set flag ON_PROB_MAP then evidence_bounds (gv_geometry (sp_obj p))
              else inflated_bounds (gv_geometry (sp_obj p))). intros bounds.
  destruct (axis_window (ix _) _) as [[x0 x1]|] eqn:Ex; [|done].
  destruct (axis_window (iy _) _) as [[y0 y1]|] eqn:Ey; [|done].
  destruct (axis_window (iz _) _) as [[z0 z1]|] eqn:Ez; [|done].
  destruct (window_addressable _) eqn:Ea; [|done]. cbn [negb]. intros [= <-].
  apply axis_window_spec in Ex as (? & ? & ? & ? & ?), Ey as (? & ? & ? & ? & ?),
    Ez as (? & ? & ? & ? & ?).
  unfold window_ok. cbn. split_and!; auto. by apply window_addressable_spec.
Qed.

(** A setup that fails reports [INIT_ERROR]. *)
Lemma setup_fails `{EigenOps} a start goal flag horizon code :
  setup a start goal flag horizon = inl code -> code = INIT_ERROR.
Proof.
  unfold setup.
  repeat (match goal with |- context [if ?b then _ else _] => destruct b; [by intros [= <-]|] end).
  repeat case_match; by intros [= <-].
Qed.

Lemma inside_spec md i :
  insideLocalMap md i = true <->
  ix (md_local_global_min_index md) <= ix i <= ix (md_local_global_max_index md) /\
  iy (md_local_global_min_index md) <= iy i <= iy (md_local_global_max_index md) /\
  iz (md_local_global_min_index md) <= iz i <= iz (md_local_global_max_index md).
Proof. unfold insideLocalMap. rewrite !andb_true_iff, !Z.leb_le. tauto. Qed.

(** The linear index of the code, without wrap-around. *)
Lemma hash_exact md i :
  window_ok md -> insideLocalMap md i = true ->
  getLocalIndexHash md i =
    (ix i - ix (md_local_global_min_index md)) *
      (iy (md_local_voxel_count md) * iz (md_local_voxel_count md))
    + (iy i - iy (md_local_global_min_index md)) * iz (md_local_voxel_count md)
    + (iz i - iz (md_local_global_min_index md)) /\
  0 <= getLocalIndexHash md i < cells md.
Proof.
  intros (Hx & Hy & Hz & Px & Py & Pz & _ & _ & _ & _ & _ & _ & Hm) Hi%inside_spec.
  unfold getLocalIndexHash, cells in *.
  set (a := ix i - _). set (b := iy i - _). set (c := iz i - _).
  set (nx := ix (md_local_voxel_count md)) in *. set (ny := iy (md_local_voxel_count md)) in *.
  set (nz := iz (md_local_voxel_count md)) in *.
  assert (0 <= a < nx /\ 0 <= b < ny /\ 0 <= c < nz) as (Ha & Hb & Hc) by (unfold a, b, c; lia).
  assert (0 <= b * nz + c < ny * nz) by nia.
  assert (0 <= a * (ny * nz) + (b * nz + c) < nx * (ny * nz)) by nia.
  unfold u64_max in Hm.
  assert (0 <= a < 2 ^ 64 /\ 0 <= b < 2 ^ 64 /\ 0 <= c < 2 ^ 64 /\ 0 <= ny < 2 ^ 64 /\ 0 <= nz < 2 ^ 64
          /\ 0 <= a * ny < 2 ^ 64 /\ 0 <= b * nz < 2 ^ 64 /\ 0 <= a * ny * nz < 2 ^ 64)
    as (? & ? & ? & ? & ? & ? & ? & ?) by (split_and!; nia).
  rewrite !(Z.mod_small a), !(Z.mod_small b), !(Z.mod_small c), !(Z.mod_small ny), !(Z.mod_small nz),
    (Z.mod_small (a * ny)), (Z.mod_small (b * nz)), (Z.mod_small (a * ny * nz)) by lia.
  rewrite Z.mod_small by lia. lia.
Qed.

Lemma hash_range md i :
  window_ok md -> insideLocalMap md i = true -> 0 <= getLocalIndexHash md i < cells md.
Proof. intros. by apply hash_exact. Qed.

Lemma hash_inj md i j :
  window_ok md -> insideLocalMap md i = true -> insideLocalMap md j = true ->
  getLocalIndexHash md i = getLocalIndexHash md j -> i = j.
Proof.
  intros W Hi Hj. destruct (hash_exact md i W Hi) as [-> _], (hash_exact md j W Hj) as [-> _].
  destruct W as (Hx & Hy & Hz & Px & Py & Pz & _).
  apply inside_spec in Hi, Hj. destruct i as [a b c], j as [a' b' c']. cbn in *.
  set (lo := md_local_global_min_index md) in *. set (nx := ix (md_local_voxel_count md)) in *.
  set (ny := iy (md_local_voxel_count md)) in *. set (nz := iz (md_local_voxel_count md)) in *.
  intros E.
  destruct (Z.div_mod_unique (ny * nz) (a - ix lo) (a' - ix lo)
              ((b - iy lo) * nz + (c - iz lo)) ((b' - iy lo) * nz + (c' - iz lo)))
    as [Ea E']; [left; nia|left; nia|lia|].
  destruct (Z.div_mod_unique nz (b - iy lo) (b' - iy lo) (c - iz lo) (c' - iz lo))
    as [Eb Ec]; [left; lia|left; lia|lia|].
  f_equal; lia.
Qed.

(** ** The search forest *)

Definition explored (round : Z) (s : SearchState) (h : Z) : Prop := n_rounds (node_at s h) = round.
Definition is_closed (round : Z) (s : SearchState) (h : Z) : Prop :=
  explored round s h /\ n_state (node_at s h) = CLOSEDSET.
Definition father (s : SearchState) (h : Z) : option Z := n_father_ptr (node_at s h).

(** [closed] lists the closed nodes, the last one closed first. *)
Record forest (round start_key : Z) (s : SearchState) (closed : list Z) : Prop := {
  f_closed : forall h, h ∈ closed <-> is_closed round s h;
  f_nodup : NoDup closed;
  f_order : forall l h r, closed = l ++ h :: r ->
    match father s h with Some f => f ∈ r | None => h = start_key end;
  f_father : forall h f, father s h = Some f -> f ∈ closed;
  f_root : forall h, explored round s h -> father s h = None -> h = start_key;
  f_open : forall e, e ∈ open_set s -> explored round s (oe_node e)
}.

Lemma node_at_put h h' n s :
  node_at (put_node h n s) h' = if decide (h = h') then n else node_at s h'.
Proof.
  unfold node_at, put_node. cbn. case_decide as E; subst;
    [by rewrite lookup_insert_eq|by rewrite lookup_insert_ne].
Qed.

Lemma node_at_open o s h : node_at (set_open o s) h = node_at s h.
Proof. done. Qed.

Section Forest.
Context (round start_key : Z).
Abbreviation forest := (forest round start_key).
Abbreviation explored := (explored round).
Abbreviation is_closed := (is_closed round).

(** The new content of one node changes nothing the forest speaks of except,
    possibly, the father of an open node. *)
Lemma forest_put h n s closed :
  forest s closed ->
  (n_rounds n = round -> n_state n = CLOSEDSET -> h ∈ closed /\ n_father_ptr n = father s h) ->
  (h ∈ closed -> n_rounds n = round /\ n_state n = CLOSEDSET) ->
  (forall f, n_father_ptr n = Some f -> f ∈ closed) ->
  (n_rounds n = round -> n_father_ptr n = None -> h = start_key) ->
  (explored s h -> n_rounds n = round) ->
  forest (put_node h n s) closed.
Proof.
  intros [H1 H2 H3 H4 H5 H6] Hc Hc' Hf Hr He. unfold father, AStarProps.explored in *.
  split; unfold father, AStarProps.is_closed, AStarProps.explored in *.
  - intros h'. rewrite node_at_put. case_decide as E; [subst h'|apply H1]. split; [auto|].
    intros [? ?]. by apply Hc.
  - done.
  - intros l h' r E. specialize (H3 l h' r E). rewrite node_at_put. case_decide as E'; [subst h'|done].
    assert (h ∈ closed) as Hin by (rewrite E; set_solver).
    destruct (Hc' Hin) as [Hr' Hs']. by destruct (Hc Hr' Hs') as [_ ->].
  - intros h' f. rewrite node_at_put. case_decide; eauto.
  - intros h'. rewrite node_at_put. case_decide; subst; eauto.
  - intros e He'. rewrite node_at_put. case_decide; subst; auto.
Qed.

(** Opening, pushing and frontier bookkeeping leave the forest alone. *)
Lemma forest_nodes s s' closed :
  visited_nodes_ s' = visited_nodes_ s ->
  (forall e, e ∈ open_set s' -> explored s (oe_node e)) ->
  forest s closed -> forest s' closed.
Proof.
  intros E Ho [H1 H2 H3 H4 H5 H6].
  assert (Hn : forall h, node_at s' h = node_at s h) by (intros h; unfold node_at; by rewrite E).
  split; unfold father, AStarProps.is_closed, AStarProps.explored in *;
    try setoid_rewrite Hn; auto.
Qed.

Lemma forest_touch h i s closed : forest s closed -> forest (touch h i s) closed.
Proof.
  intros F. apply forest_put; cbn; auto.
  - intros Hr Hs. split; [|done]. by apply (f_closed _ _ _ _ F).
  - by intros ?%(f_closed _ _ _ _ F).
  - apply (f_father _ _ _ _ F).
  - apply (f_root _ _ _ _ F).
Qed.

(** Attaching an open node to a closed one. *)
Lemma forest_attach h n cur s closed :
  forest s closed -> cur ∈ closed -> h ∉ closed -> n_father_ptr n = Some cur ->
  n_state n <> CLOSEDSET \/ n_rounds n <> round ->
  (explored s h -> n_rounds n = round) ->
  forest (put_node h n s) closed.
Proof.
  intros F Hcur Hh Hf Hs He. apply forest_put; auto; intros; try tauto; congruence.
Qed.

Lemma forest_close h s closed :
  forest s closed -> explored s h -> h ∉ closed ->
  forest (put_node h (n_set_state CLOSEDSET (node_at s h)) s) (h :: closed).
Proof.
  intros [H1 H2 H3 H4 H5 H6] He Hh.
  split; unfold father, AStarProps.is_closed, AStarProps.explored in *.
  - intros h'. rewrite node_at_put, elem_of_cons, H1.
    case_decide; subst; cbn; [tauto|]. split; [intros [->|?]; tauto|auto].
  - by constructor.
  - intros l h' r E. rewrite node_at_put. destruct l as [|x l]; cbn in E; injection E as -> E.
    + subst r. rewrite decide_True by done. cbn. destruct (n_father_ptr _) eqn:Ef; eauto.
    + specialize (H3 l h' r E). case_decide as E'; [subst h'|done].
      exfalso. apply Hh. rewrite E. set_solver.
  - intros h' f. rewrite node_at_put, elem_of_cons. case_decide; subst; cbn; eauto.
  - intros h'. rewrite node_at_put. case_decide; subst; cbn; eauto.
  - intros e Hin. rewrite node_at_put. case_decide; subst; cbn; auto.
Qed.

(** ** Path retrieval *)

(** A list of nodes linked by fathers, from [h] back to a root. *)
Inductive father_chain (s : SearchState) : Z -> list Z -> Prop :=
| fc_root h : father s h = None -> father_chain s h [h]
| fc_step h f l : father s h = Some f -> father_chain s f l -> father_chain s h (h :: l).

Lemma retrieve_sound fuel s h l : retrievePath fuel s h = Some l -> father_chain s h l.
Proof.
  revert h l. induction fuel as [|fuel IH]; intros h l; cbn; [done|].
  destruct (n_father_ptr (node_at s h)) as [f|] eqn:E; [|intros [= <-]; by constructor].
  destruct (retrievePath fuel s f) as [l'|] eqn:E'; [|done]. intros [= <-].
  econstructor; eauto.
Qed.

(** From a closed node the fathers lie deeper and deeper in the closing order. *)
Lemma retrieve_from_closed s closed r l h fuel :
  forest s closed -> closed = l ++ r -> h ∈ r -> (length r <= fuel)%nat ->
  is_Some (retrievePath fuel s h).
Proof.
  intros F. revert r l h. induction fuel as [|fuel IH]; intros r l h E Hh Hf.
  { destruct r; [by apply elem_of_nil in Hh|cbn in Hf; lia]. }
  apply list_elem_of_split in Hh as (l1 & r1 & ->). cbn.
  pose proof (f_order _ _ _ _ F (l ++ l1) h r1) as Ho. unfold father in Ho.
  destruct (n_father_ptr (node_at s h)) as [f|]; [|by eexists].
  rewrite length_app in Hf. cbn in Hf.
  destruct (IH r1 (l ++ l1 ++ [h]) f) as [p Hp]; [|apply Ho|lia|].
  - by rewrite E, <- !(assoc_L (++)).
  - by rewrite E, <- (assoc_L (++)).
  - rewrite Hp. by eexists.
Qed.

Lemma retrieve_total s closed h fuel :
  forest s closed -> (S (length closed) <= fuel)%nat -> is_Some (retrievePath fuel s h).
Proof.
  intros F Hf. destruct fuel as [|fuel]; [lia|]. cbn.
  destruct (n_father_ptr (node_at s h)) as [f|] eqn:E; [|by eexists].
  destruct (retrieve_from_closed s closed closed [] f fuel F) as [p ->]; [done| |lia|by eexists].
  by apply (f_father _ _ _ _ F h).
Qed.

(** Closed nodes are nodes, so the fuel of [path_ids] is enough. *)
Lemma closed_size s closed :
  round <> 0 -> forest s closed -> (length closed <= size (visited_nodes_ s))%nat.
Proof.
  intros Hr F. rewrite <- (size_dom (D := gset Z)).
  rewrite <- (size_list_to_set (C := gset Z)) by apply (f_nodup _ _ _ _ F).
  apply subseteq_size. intros h Hh%elem_of_list_to_set. apply (f_closed _ _ _ _ F) in Hh as [He _].
  apply elem_of_dom. destruct (visited_nodes_ s !! h) eqn:E; [by eexists|].
  unfold AStarProps.explored, node_at in He. rewrite E in He. cbn in He. congruence.
Qed.

Lemma path_ids_total s closed h :
  round <> 0 -> forest s closed ->
  exists l, father_chain s h l /\ path_ids s h = Some (map (fun h => n_id_g (node_at s h)) l).
Proof.
  intros Hr F. unfold path_ids, retrieve_fuel.
  destruct (retrieve_total s closed h (S (size (visited_nodes_ s))) F) as [l E].
  { pose proof (closed_size s closed Hr F). lia. }
  exists l. rewrite E. split; [by eapply retrieve_sound|done].
Qed.
End Forest.

(** ** Linked nodes *)

Definition id_at (s : SearchState) (h : Z) : GridIndex3 := n_id_g (node_at s h).

Section Linked.
Context (md : MissionData) (round start_key end_key : Z) (E : GridIndex3 -> GridIndex3 -> Prop).
Hypothesis W : window_ok md.
Hypothesis Hround : round <> 0.

(** Every node sits under the key of its cell, and is reached from its father
    by an edge of the search. *)
Record search_inv (s : SearchState) (closed : list Z) : Prop := {
  si_forest : forest round start_key s closed;
  si_key : forall h n, visited_nodes_ s !! h = Some n ->
    insideLocalMap md (n_id_g n) = true /\ getLocalIndexHash md (n_id_g n) = h;
  si_edge : forall h f, father s h = Some f -> E (id_at s f) (id_at s h);
  si_roots : forall k, k = start_key \/ k = end_key -> is_Some (visited_nodes_ s !! k);
  si_frontier : forall e, e ∈ frontier_queue s -> is_Some (father s (fe_node e))
}.

Lemma explored_node s h : explored round s h -> is_Some (visited_nodes_ s !! h).
Proof.
  unfold explored, node_at. destruct (visited_nodes_ s !! h); [by eexists|]. cbn. congruence.
Qed.

Lemma closed_node s closed h :
  forest round start_key s closed -> h ∈ closed -> is_Some (visited_nodes_ s !! h).
Proof. intros F Hh. apply explored_node. by apply (f_closed _ _ _ _ F) in Hh as [? _]. Qed.

Lemma node_at_some s h : is_Some (visited_nodes_ s !! h) -> visited_nodes_ s !! h = Some (node_at s h).
Proof. unfold node_at. by intros [n ->]. Qed.

Lemma id_at_key s closed h :
  search_inv s closed -> is_Some (visited_nodes_ s !! h) ->
  insideLocalMap md (id_at s h) = true /\ getLocalIndexHash md (id_at s h) = h.
Proof. intros I Hh. apply (si_key _ _ I). by apply node_at_some. Qed.

(** The key determines the cell. *)
Lemma id_at_unique s closed i :
  search_inv s closed -> insideLocalMap md i = true ->
  is_Some (visited_nodes_ s !! getLocalIndexHash md i) -> id_at s (getLocalIndexHash md i) = i.
Proof.
  intros I Hi Hh. destruct (id_at_key s closed _ I Hh) as [Hin Hk]. by apply (hash_inj md).
Qed.

Lemma closed_in_window s closed h :
  search_inv s closed -> h ∈ closed -> 0 <= h < cells md.
Proof.
  intros I Hh. pose proof (closed_node _ _ _ (si_forest _ _ I) Hh) as Hn.
  destruct (id_at_key s closed h I Hn) as [Hin <-]. by apply hash_range.
Qed.

(** At most as many nodes are closed as the window has cells. *)
Lemma closed_bound s closed : search_inv s closed -> Z.of_nat (length closed) <= cells md.
Proof.
  intros I. assert (0 <= cells md).
  { unfold cells. destruct W as (_ & _ & _ & ? & ? & ? & _). nia. }
  assert (length closed <= length (seqZ 0 (cells md)))%nat as Hl.
  { apply submseteq_length, NoDup_submseteq; [apply (f_nodup _ _ _ _ (si_forest _ _ I))|].
    intros h Hh. apply elem_of_seqZ. pose proof (closed_in_window s closed h I Hh). lia. }
  rewrite length_seqZ in Hl. lia.
Qed.

Lemma put_lookup h n s h' :
  visited_nodes_ (put_node h n s) !! h' = if decide (h = h') then Some n else visited_nodes_ s !! h'.
Proof. cbn. case_decide; subst; [by rewrite lookup_insert_eq|by rewrite lookup_insert_ne]. Qed.

(** A node keeps its cell and gets at most a certified father. *)
Lemma search_inv_put h n s closed :
  search_inv s closed -> forest round start_key (put_node h n s) closed ->
  is_Some (visited_nodes_ s !! h) -> n_id_g n = id_at s h ->
  (forall f, n_father_ptr n = Some f -> father s h = Some f \/ E (id_at s f) (id_at s h)) ->
  is_Some (n_father_ptr n) ->
  search_inv (put_node h n s) closed.
Proof.
  intros I F Hh Hid Hf Hsome.
  assert (Hids : forall h', id_at (put_node h n s) h' = id_at s h').
  { intros h'. unfold id_at. rewrite node_at_put. by case_decide; subst. }
  split; [done|..].
  - intros h' n'. rewrite put_lookup. case_decide; [|apply (si_key _ _ I)].
    intros [= <-]. subst h'. rewrite Hid. by apply (id_at_key _ _ _ I).
  - intros h' f. rewrite !Hids. unfold father. rewrite node_at_put.
    case_decide as Eh; [subst h'|apply (si_edge _ _ I)].
    intros Hn. destruct (Hf f Hn) as [Hs|]; [by apply (si_edge _ _ I)|done].
  - intros k Hk. rewrite put_lookup. case_decide; [by eexists|by apply (si_roots _ _ I)].
  - intros e He. unfold father. rewrite node_at_put. case_decide; [done|by apply (si_frontier _ _ I)].
Qed.

Lemma search_inv_nodes s s' closed :
  visited_nodes_ s' = visited_nodes_ s ->
  (forall e, e ∈ open_set s' -> explored round s (oe_node e)) ->
  (forall e, e ∈ frontier_queue s' -> is_Some (father s (fe_node e))) ->
  search_inv s closed -> search_inv s' closed.
Proof.
  intros Ev Ho Hfr I.
  assert (Hn : forall h, node_at s' h = node_at s h) by (intros h; unfold node_at; by rewrite Ev).
  split.
  - apply (forest_nodes _ _ s); auto. apply (si_forest _ _ I).
  - rewrite Ev. apply (si_key _ _ I).
  - intros h f. unfold father, id_at. rewrite !Hn. apply (si_edge _ _ I).
  - rewrite Ev. apply (si_roots _ _ I).
  - intros e He. unfold father. rewrite Hn. by apply Hfr.
Qed.

Lemma search_inv_touch i s closed :
  search_inv s closed -> insideLocalMap md i = true ->
  search_inv (touch (getLocalIndexHash md i) i s) closed /\
  is_Some (visited_nodes_ (touch (getLocalIndexHash md i) i s) !! getLocalIndexHash md i) /\
  id_at (touch (getLocalIndexHash md i) i s) (getLocalIndexHash md i) = i /\
  (forall h, h ∈ closed -> id_at (touch (getLocalIndexHash md i) i s) h = id_at s h).
Proof.
  intros I Hi. set (k := getLocalIndexHash md i).
  assert (Hids : forall h, is_Some (visited_nodes_ s !! h) -> id_at (touch k i s) h = id_at s h).
  { intros h Hh. unfold id_at, touch. rewrite node_at_put. case_decide; [subst h|done].
    cbn. symmetry. by apply (id_at_unique s closed). }
  split_and!.
  - split.
    + apply forest_touch, (si_forest _ _ I).
    + intros h n. unfold touch. rewrite put_lookup. case_decide; [|apply (si_key _ _ I)].
      intros [= <-]. cbn. by subst.
    + intros h f Hf.
      assert (father s h = Some f) as Hf'.
      { revert Hf. unfold father, touch. rewrite node_at_put. case_decide; by subst. }
      rewrite (Hids f).
      2: { eapply closed_node; [apply (si_forest _ _ I)|].
           by eapply (f_father _ _ _ _ (si_forest _ _ I)). }
      rewrite Hids; [by apply (si_edge _ _ I)|].
      destruct (visited_nodes_ s !! h) eqn:Eh; [by eexists|].
      unfold father, node_at in Hf'. by rewrite Eh in Hf'.
    + intros h Hh. unfold touch. rewrite put_lookup. case_decide; [by eexists|by apply (si_roots _ _ I)].
    + intros e He. unfold father, touch. rewrite node_at_put.
      case_decide as Eh; [cbn; rewrite Eh|]; by apply (si_frontier _ _ I).
  - unfold touch. rewrite put_lookup, decide_True by done. by eexists.
  - unfold id_at, touch. by rewrite node_at_put, decide_True.
  - intros h Hh. apply Hids. eapply closed_node; [apply (si_forest _ _ I)|done].
Qed.

Lemma search_inv_close h s closed :
  search_inv s closed -> explored round s h -> h ∉ closed ->
  search_inv (put_node h (n_set_state CLOSEDSET (node_at s h)) s) (h :: closed).
Proof.
  intros I He Hh. pose proof (forest_close _ _ _ _ _ (si_forest _ _ I) He Hh) as F.
  assert (Hids : forall h', id_at (put_node h (n_set_state CLOSEDSET (node_at s h)) s) h' = id_at s h').
  { intros h'. unfold id_at. rewrite node_at_put. by case_decide; subst. }
  split; [done|..].
  - intros h' n'. rewrite put_lookup. case_decide; [|apply (si_key _ _ I)].
    intros [= <-]. subst h'. cbn. apply (id_at_key _ _ _ I). by apply explored_node.
  - intros h' f. rewrite !Hids. unfold father. rewrite node_at_put.
    case_decide; subst; cbn; apply (si_edge _ _ I).
  - intros k Hk. rewrite put_lookup. case_decide; [by eexists|by apply (si_roots _ _ I)].
  - intros e Hin. unfold father. rewrite node_at_put.
    case_decide as Eh; [cbn; rewrite Eh|]; by apply (si_frontier _ _ I).
Qed.

(** [relax] attaches an open node by a certified edge and pushes at most one
    entry. *)
Lemma relax_inv cur h d heu gd s closed :
  search_inv s closed -> cur ∈ closed -> h ∉ closed -> is_Some (visited_nodes_ s !! h) ->
  E (id_at s cur) (id_at s h) ->
  search_inv (relax round cur h d heu gd s) closed /\
  (length (open_set (relax round cur h d heu gd s)) <= S (length (open_set s)))%nat.
Proof.
  intros I Hcur Hh Hn He. pose proof (si_forest _ _ I) as F.
  assert (Hpush : forall st total ds gd' sq,
    st <> CLOSEDSET ->
    search_inv (push_open (mkOpen h total round)
      (put_node h (mkNode st round (n_id_g (node_at s h)) total ds gd' (Some cur) sq) s)) closed).
  { intros st total ds gd' sq Hst. set (n := mkNode _ _ _ _ _ _ _ _).
    assert (search_inv (put_node h n s) closed) as I'.
    { apply search_inv_put; [done| |done|done| |by eexists].
      - eapply forest_attach; cbn; eauto.
      - intros f [= <-]. by right. }
    apply (search_inv_nodes (put_node h n s)); [done| |apply (si_frontier _ _ I')|done].
    intros e [->|Hin]%elem_of_cons; unfold explored; cbn; rewrite node_at_put.
    - by rewrite decide_True.
    - case_decide; [done|]. by apply (f_open _ _ _ _ F). }
  unfold relax. destruct (n_rounds (node_at s h) =? round) eqn:Er; cbn [negb].
  - destruct (flt _ _); [|split; [done|lia]]. split; [|cbn; lia]. apply Hpush.
    intros Hs. apply Hh, (f_closed _ _ _ _ F). split; [by apply Z.eqb_eq|done].
  - split; [|cbn; lia]. by apply Hpush.
Qed.

(** The father links of a chain are edges, and the chain ends at the start. *)
Lemma chain_linked s closed h l :
  search_inv s closed -> (father s h = None -> explored round s h) -> father_chain s h l ->
  (forall i a b, map (id_at s) l !! i = Some a -> map (id_at s) l !! S i = Some b -> E b a) /\
  head l = Some h /\ last l = Some start_key.
Proof.
  intros I He Hc. induction Hc as [h Hf|h f l Hf Hc IH].
  - split_and!; [by intros [] ??|done|]. cbn. f_equal. apply (f_root _ _ _ _ (si_forest _ _ I)); auto.
  - destruct IH as (IH & Hh & Hl).
    { intros _. by apply (f_closed _ _ _ _ (si_forest _ _ I)), (f_father _ _ _ _ (si_forest _ _ I) h). }
    split_and!; [|done|].
    + intros [|i] a b; cbn; [|apply IH]. intros [= <-] Hb.
      destruct l as [|x l]; [done|]. cbn in Hh, Hb. simplify_eq. by apply (si_edge _ _ I).
    + by destruct l.
Qed.
End Linked.

(** ** Entries of the open set *)

Section Entries.
Context `{PqOps, !PqLaws _}.
Context (md : MissionData) (round start_key end_key : Z) (E : GridIndex3 -> GridIndex3 -> Prop).
Abbreviation inv := (search_inv md round start_key end_key E).

Lemma pop_inv s closed entry rest :
  inv s closed -> pq_pop open_worse (open_set s) = Some (entry, rest) ->
  inv (set_open rest s) closed /\ explored round (set_open rest s) (oe_node entry) /\
  length (open_set s) = S (length rest).
Proof.
  intros I Hp. apply pq_pop_perm in Hp. pose proof (f_open _ _ _ _ (si_forest _ _ _ _ _ _ _ I)) as Ho.
  split_and!.
  - apply (search_inv_nodes _ _ _ _ _ s); [done| |apply (si_frontier _ _ _ _ _ _ _ I)|done].
    intros e Hin. apply Ho. rewrite Hp. by constructor.
  - apply (Ho entry). rewrite Hp. constructor.
  - by rewrite Hp.
Qed.

Lemma not_stale s closed entry :
  inv s closed -> explored round s (oe_node entry) -> entry_stale s entry = false ->
  oe_node entry ∉ closed.
Proof.
  intros I He Hs Hc. apply (f_closed _ _ _ _ (si_forest _ _ _ _ _ _ _ I)) in Hc as [_ Hc].
  unfold entry_stale in Hs. rewrite Hc in Hs. cbn in Hs. by rewrite orb_true_r in Hs.
Qed.
End Entries.

(** The measure of both loops: entries left, and 26 for every cell not closed. *)
Definition turns_left (md : MissionData) (s : SearchState) (closed : list Z) : nat :=
  length (open_set s) + 26 * (Z.to_nat (cells md) - length closed).

Lemma turns_left_pop md s closed rest :
  length (open_set s) = S (length rest) ->
  turns_left md s closed = S (turns_left md (set_open rest s) closed).
Proof. intros E. unfold turns_left. rewrite E. done. Qed.

(** Closing a node pays for the entries its neighbours push. *)
Lemma turns_left_close md s s' h closed :
  (length (open_set s') <= 26 + length (open_set s))%nat ->
  Z.of_nat (length (h :: closed)) <= cells md ->
  (turns_left md s' (h :: closed) <= turns_left md s closed)%nat.
Proof. intros Ho Hc. unfold turns_left. cbn [length] in *. lia. Qed.

(** ** Paths *)

(** Consecutive cells are joined by edges. *)
Definition edges_along (E : GridIndex3 -> GridIndex3 -> Prop) (ids : list GridIndex3) : Prop :=
  forall i a b, ids !! i = Some a -> ids !! S i = Some b -> E a b.

Lemma edges_along_reverse (E : GridIndex3 -> GridIndex3 -> Prop) l :
  (forall i a b, l !! i = Some a -> l !! S i = Some b -> E b a) -> edges_along E (reverse l).
Proof.
  intros Hl i a b [Ha Hi]%reverse_lookup_Some [Hb Hi']%reverse_lookup_Some.
  apply (Hl (length l - S (S i))%nat); [done|].
  by replace (S (length l - S (S i))) with (length l - S i)%nat by lia.
Qed.

(** The cells retrieved from a node, in travelling order: edges from the cell of
    the start to the cell of the node. *)
Lemma retrieved_path md round start_key end_key E s closed h start_idx :
  window_ok md -> round <> 0 -> search_inv md round start_key end_key E s closed ->
  (father s h = None -> explored round s h) ->
  insideLocalMap md start_idx = true -> getLocalIndexHash md start_idx = start_key ->
  exists ids, path_ids s h = Some (reverse ids) /\ edges_along E ids /\
    head ids = Some start_idx /\ last ids = Some (id_at s h).
Proof.
  intros W Hr I He Hin Hk.
  destruct (path_ids_total round start_key s closed h Hr (si_forest _ _ _ _ _ _ _ I)) as (l & Hc & Hp).
  destruct (chain_linked _ _ _ _ _ _ _ _ _ I He Hc) as (Hl & Hh & Ht).
  exists (reverse (map (id_at s) l)). rewrite reverse_involutive. split_and!; [done|..].
  - by apply edges_along_reverse.
  - rewrite head_reverse. change (map (id_at s) l) with (id_at s <$> l). rewrite fmap_last, Ht. cbn.
    f_equal. subst start_key. eapply id_at_unique; eauto.
    apply (si_roots _ _ _ _ _ _ _ I). by left.
  - rewrite last_reverse. destruct l as [|x l]; [done|]. cbn in Hh |- *. by simplify_eq.
Qed.

(** ** The goal search *)

(** One step of the graph: a neighbour cell inside the window and the preferred
    slab whose segment both oracles certify. *)
Definition graph_edge `{EigenOps} (t : SearchTask) (a b : GridIndex3) : Prop :=
  let md := t_md t in
  (exists d, d ∈ neighbor_offsets /\ index_step a d = Some b /\
     (allow_diag (cfg_ (t_astar t)) = true \/ axial d = true)) /\
  insideLocalMap md b = true /\
  in_preferred_slab t (globalIndexToPos (t_view t) md b) = true /\
  isCellTraversable (neighbor_type t b) kAllowUnknown = true /\
  edge_traversable t a b = true.

Section Goal.
Context `{EigenOps, EigenRotOps, EigenNormOps, PqOps, !PqLaws _}.
Context (t : SearchTask).
Hypothesis W : window_ok (t_md t).
Hypothesis Hround : t_round t <> 0.

Abbreviation inv := (search_inv (t_md t) (t_round t) (t_start_key t) (t_end_key t) (graph_edge t)).

Lemma expand_neighbor_inv cur s d s' closed :
  inv s closed -> cur ∈ closed -> d ∈ neighbor_offsets -> expand_neighbor t cur s d = Some s' ->
  inv s' closed /\ (length (open_set s') <= S (length (open_set s)))%nat.
Proof.
  intros I Hcur Hd. unfold expand_neighbor.
  assert (Hsame : forall s'', Some s = Some s'' ->
    inv s'' closed /\ (length (open_set s'') <= S (length (open_set s)))%nat).
  { intros s'' [= <-]. split; [done|lia]. }
  destruct (negb (allow_diag _) && _) eqn:Ediag; [apply Hsame|].
  destruct (index_step _ d) as [i|] eqn:Estep; [|apply Hsame].
  destruct (insideLocalMap (t_md t) i) eqn:Ein; [cbn [negb]|apply Hsame].
  destruct (in_preferred_slab t _) eqn:Eslab; [cbn [negb]|apply Hsame].
  set (h := getLocalIndexHash (t_md t) i). cbv zeta.
  destruct (search_inv_touch _ _ _ _ _ W Hround i s closed I Ein) as (I1 & Hn & Hid & Hids).
  fold h in I1, Hn, Hid, Hids. set (s1 := touch h i s) in *.
  destruct ((n_rounds (node_at s1 h) =? t_round t) && _) eqn:Eclosed.
  { intros [= <-]. split; [done|cbn; lia]. }
  assert (h ∉ closed) as Hh.
  { intros Hc. apply (f_closed _ _ _ _ (si_forest _ _ _ _ _ _ _ I1)) in Hc as [Hr Hs].
    unfold explored in Hr. rewrite Hr, Hs, Z.eqb_refl in Eclosed. done. }
  destruct (isCellTraversable (neighbor_type t i) kAllowUnknown) eqn:Etype; cbn [negb];
    [|intros [= <-]; split; [done|cbn; lia]].
  destruct (edge_traversable t (n_id_g (node_at s1 cur)) i) eqn:Eedge; cbn [negb];
    [|intros [= <-]; split; [done|cbn; lia]].
  assert (He : graph_edge t (id_at s1 cur) (id_at s1 h)).
  { rewrite Hid. split_and!; auto. exists d. split_and!; [done| |].
    - rewrite (Hids cur Hcur). exact Estep.
    - destruct (allow_diag _); [by left|right]. by destruct (axial d). }
  destruct (md_unknown_as_occ (t_md t) && (neighbor_type t i ==? kUnknown)).
  - destruct (frontier_sequence_ s1 =? u64_max); [done|]. intros [= <-]. split; [|cbn; lia].
    set (n := mkNode _ _ _ _ _ _ _ _).
    assert (inv (put_node h n s1) closed) as I2.
    { apply search_inv_put; [done| |done|done| |by eexists].
      - eapply forest_attach; [apply (si_forest _ _ _ _ _ _ _ I1)|done..| |done].
        cbn. rewrite andb_false_iff in Eclosed.
        destruct Eclosed as [E%Z.eqb_neq|E%bool_decide_eq_false]; auto.
      - intros f [= <-]. by right. }
    apply (search_inv_nodes _ _ _ _ _ (put_node h n s1)); [done| | |done].
    + apply (f_open _ _ _ _ (si_forest _ _ _ _ _ _ _ I2)).
    + intros e [->|Hin]%elem_of_cons; [|by apply (si_frontier _ _ _ _ _ _ _ I2)].
      unfold father. rewrite node_at_put, decide_True by done. by eexists.
  - intros [= <-]. change (open_set s) with (open_set s1).
    by apply (relax_inv _ _ (t_start_key t) (t_end_key t) (graph_edge t)).
Qed.

Lemma expand_inv cur ds s s' closed :
  inv s closed -> cur ∈ closed -> (forall d, d ∈ ds -> d ∈ neighbor_offsets) ->
  expand t cur ds s = Some s' ->
  inv s' closed /\ (length (open_set s') <= length ds + length (open_set s))%nat.
Proof.
  intros I Hcur. revert s I. induction ds as [|d ds IH]; intros s I Hds; cbn.
  { intros [= <-]. split; [done|lia]. }
  destruct (expand_neighbor t cur s d) as [s1|] eqn:E; [cbn|done]. intros E'.
  destruct (expand_neighbor_inv cur s d s1 closed I Hcur) as [I1 Hl]; [apply Hds; constructor|done|].
  destruct (IH s1 I1) as [I2 Hl2]; [|done|].
  - intros d' Hd'. apply Hds. by constructor.
  - split; [done|]. cbn in *. lia.
Qed.

Context (start_idx end_idx : GridIndex3).
Hypothesis Hstart : insideLocalMap (t_md t) start_idx = true.
Hypothesis Hstart_key : getLocalIndexHash (t_md t) start_idx = t_start_key t.
Hypothesis Hend : insideLocalMap (t_md t) end_idx = true.
Hypothesis Hend_key : getLocalIndexHash (t_md t) end_idx = t_end_key t.

(** What a path of the graph search is: the cells [ids] lead from the seed along
    certified edges; a projected start is preceded by one more point. *)
Definition graph_path (code : RET_CODE) (path : list vec3) : Prop :=
  exists before ids,
    path = globalIndexToPos (t_view t) (t_md t) <$> (before ++ ids) /\
    edges_along (graph_edge t) ids /\ head ids = Some start_idx /\
    (if t_start_pt_out_local_map t
     then before = [posToGlobalIndex (t_view t) (t_md t) (t_start_pt t)] \/ before = [start_idx]
     else before = []) /\
    (code = REACH_GOAL -> last ids = Some end_idx /\ t_end_pt_out_local_map t = false).

Definition search_result_ok (r : SearchResult) : Prop :=
  match r.1 with
  | REACH_GOAL | REACH_HORIZON => graph_path r.1 r.2
  | INIT_ERROR | NO_PATH | TIME_OUT => r.2 = []
  | _ => False
  end.

Lemma root_ids s closed :
  inv s closed -> id_at s (t_start_key t) = start_idx /\ id_at s (t_end_key t) = end_idx.
Proof.
  intros I. rewrite <- Hstart_key, <- Hend_key.
  split; eapply id_at_unique; eauto;
    apply (si_roots _ _ _ _ _ _ _ I); rewrite ?Hstart_key, ?Hend_key; auto.
Qed.

Lemma convert_path ids before :
  ConvertNodePathToPointPath (t_view t) (t_md t) (reverse ids ++ before)
  = globalIndexToPos (t_view t) (t_md t) <$> (reverse before ++ ids).
Proof.
  unfold ConvertNodePathToPointPath. by rewrite <- fmap_reverse, reverse_app, reverse_involutive.
Qed.

(** Both ways to leave with a path of which only the start is fixed. *)
Lemma horizon_path s closed h :
  inv s closed -> (father s h = None -> explored (t_round t) s h) ->
  exists path, emit t REACH_HORIZON (with_start t s <$> path_ids s h) = Some (REACH_HORIZON, path) /\
    graph_path REACH_HORIZON path.
Proof.
  intros I He.
  destruct (retrieved_path _ _ _ _ _ s closed h start_idx W Hround I He Hstart Hstart_key)
    as (ids & -> & Hids & Hh & _).
  destruct (root_ids s closed I) as [Es _]. unfold id_at in Es.
  unfold emit, with_start. cbn. destruct (t_start_pt_out_local_map t) eqn:Eo.
  - eexists. split; [done|]. rewrite convert_path. exists [start_idx], ids. rewrite Es, Eo.
    split_and!; auto. done.
  - eexists. split; [done|]. rewrite <- (app_nil_r (reverse ids)), convert_path.
    exists [], ids. rewrite Eo. by split_and!.
Qed.

Lemma goal_path s closed h :
  inv s closed -> explored (t_round t) s h -> id_at s h = end_idx ->
  exists code path, goal_reached t s h = Some (code, path) /\
    search_result_ok (code, path).
Proof.
  intros I He Hgoal. unfold goal_reached, emit.
  destruct (retrieved_path _ _ _ _ _ s closed h start_idx W Hround I (fun _ => He) Hstart Hstart_key)
    as (ids & -> & Hids & Hh & Hl).
  cbn.
  set (code := if t_end_pt_out_local_map t then REACH_HORIZON else REACH_GOAL). exists code.
  assert (Hcode : code = REACH_GOAL -> last ids = Some end_idx /\ t_end_pt_out_local_map t = false).
  { unfold code. destruct (t_end_pt_out_local_map t); [done|]. by rewrite Hl, Hgoal. }
  assert (Hok : forall path, graph_path code path -> search_result_ok (code, path)).
  { intros path Hp. unfold search_result_ok. cbn. by unfold code in *; destruct (t_end_pt_out_local_map t). }
  destruct (t_start_pt_out_local_map t) eqn:Eo.
  - eexists. split; [done|]. apply Hok. rewrite convert_path.
    exists [posToGlobalIndex (t_view t) (t_md t) (t_start_pt t)], ids. rewrite Eo. split_and!; auto.
  - eexists. split; [done|]. apply Hok. rewrite <- (app_nil_r (reverse ids)), convert_path.
    exists [], ids. rewrite Eo. by split_and!.
Qed.

Lemma discard_stale_sub turns s q e : e ∈ discard_stale turns s q -> e ∈ q.
Proof.
  revert q. induction turns as [|turns IH]; intros q; cbn; [done|].
  destruct (pq_pop frontier_worse q) as [[x rest]|] eqn:Ep; [|done].
  destruct (frontier_stale s x); [|done]. intros Hin%IH. apply pq_pop_perm in Ep. rewrite Ep.
  by constructor.
Qed.

Lemma discard_inv s closed : inv s closed -> inv (discard_stale_frontier_entries s) closed.
Proof.
  intros I. apply (search_inv_nodes _ _ _ _ _ s); [done|..|done].
  - apply (f_open _ _ _ _ (si_forest _ _ _ _ _ _ _ I)).
  - intros e Hin%discard_stale_sub. by apply (si_frontier _ _ _ _ _ _ _ I).
Qed.

Lemma father_explored s closed h f : inv s closed -> father s h = Some f -> explored (t_round t) s f.
Proof.
  intros I Hf. pose proof (si_forest _ _ _ _ _ _ _ I) as F.
  apply (f_father _ _ _ _ F) in Hf. by apply (f_closed _ _ _ _ F) in Hf as [? _].
Qed.

Lemma horizon_goal_explored s closed current :
  inv s closed -> explored (t_round t) s current -> explored (t_round t) s (horizon_goal t s current).
Proof.
  intros I He. unfold horizon_goal. destruct (md_unknown_as_occ _); [|done].
  destruct (pq_pop _ _) as [[e rest]|]; [|done].
  destruct (n_father_ptr (node_at s (fe_node e))) as [p|] eqn:Ef; [|done].
  destruct (fgt _ _); [|done]. by eapply father_explored.
Qed.

Lemma pick_frontier_in turns s q h :
  pick_frontier turns t s q = Some h -> exists e, e ∈ q /\ fe_node e = h.
Proof.
  revert q. induction turns as [|turns IH]; intros q; cbn; [done|].
  destruct (pq_pop frontier_worse q) as [[x rest]|] eqn:Ep; [|done]. apply pq_pop_perm in Ep.
  assert (Hrest : pick_frontier turns t s rest = Some h -> exists e, e ∈ q /\ fe_node e = h).
  { intros (e & Hin & He)%IH. exists e. rewrite Ep. split; [by constructor|done]. }
  destruct (frontier_stale s x); [done|]. destruct (flt _ _); [done|].
  intros [= <-]. exists x. rewrite Ep. split; [constructor|done].
Qed.

Lemma exhausted_ok ck s closed :
  inv s closed -> exists r, search_exhausted t ck s = Some r /\ search_result_ok r.
Proof.
  intros I. unfold search_exhausted. destruct (t_expired t ck); [by eexists|].
  apply discard_inv in I. set (s' := discard_stale_frontier_entries s) in *.
  destruct (md_unknown_as_occ (t_md t) && negb (bool_decide (frontier_queue s' = []))); [|by eexists].
  destruct (pick_frontier _ t s' _) as [h|] eqn:Ep; [|by eexists].
  apply pick_frontier_in in Ep as (e & Hin & <-).
  destruct (horizon_path s' closed (fe_node e) I) as (path & -> & Hp); [|by eexists].
  intros Hn. destruct (si_frontier _ _ _ _ _ _ _ I e Hin) as [f Hf]. congruence.
Qed.

Lemma neighbor_offsets_length : length neighbor_offsets = 26%nat.
Proof. reflexivity. Qed.

(** From every state of the search, either the result is sound or the fuel was
    less than the turns that can still happen. *)
Lemma search_loop_inv fuel s closed ck :
  inv s closed ->
  match search_loop fuel t ck s with
  | Some r => search_result_ok r
  | None => (fuel <= turns_left (t_md t) s closed)%nat
  end.
Proof.
  revert s closed ck. induction fuel as [|fuel IH]; intros s closed ck I; cbn [search_loop]; [lia|].
  destruct (pq_pop open_worse (open_set s)) as [[entry rest]|] eqn:Ep.
  2: { by destruct (exhausted_ok ck s closed I) as (r & -> & Hr). }
  destruct (t_expired t ck); [done|].
  destruct (pop_inv _ _ _ _ _ s closed entry rest I Ep) as (I1 & He & Hlen).
  set (s1 := set_open rest s) in *.
  pose proof (turns_left_pop (t_md t) s closed rest Hlen) as Hturns. fold s1 in Hturns.
  destruct (entry_stale s1 entry) eqn:Est.
  { specialize (IH s1 closed (S ck) I1). destruct (search_loop fuel t (S ck) s1); [done|lia]. }
  pose proof (not_stale _ _ _ _ _ s1 closed entry I1 He Est) as Hnc.
  destruct (root_ids s1 closed I1) as [_ Eend].
  case_bool_decide as Egoal.
  { destruct (goal_path s1 closed (oe_node entry) I1 He) as (code & path & -> & Hok); [|done].
    unfold id_at in *. congruence. }
  destruct (_ && fgt (n_distance_score _) _).
  { unfold horizon_reached.
    destruct (horizon_path _ closed (horizon_goal t (discard_stale_frontier_entries s1) (oe_node entry))
                (discard_inv s1 closed I1)) as (path & -> & Hp); [|done].
    intros _. eapply horizon_goal_explored; [by apply discard_inv|done]. }
  destruct (expand t _ _ _) as [s2|] eqn:Ex; [|done].
  destruct (t_expired t (S ck)); [done|].
  pose proof (search_inv_close _ _ _ _ _ Hround (oe_node entry) s1 closed I1 He Hnc) as I2.
  assert (oe_node entry ∈ oe_node entry :: closed) as Hcur by constructor.
  destruct (expand_inv _ _ _ _ _ I2 Hcur (fun d Hd => Hd) Ex) as [I3 Hl].
  specialize (IH s2 (oe_node entry :: closed) (S (S ck)) I3).
  destruct (search_loop fuel t (S (S ck)) s2); [done|].
  pose proof (closed_bound _ _ _ _ _ W Hround _ _ I3) as Hb. rewrite neighbor_offsets_length in Hl.
  pose proof (turns_left_close _ s1 s2 _ _ Hl Hb). lia.
Qed.
End Goal.

(** *** The initial state *)

(** A search may start from any roots without fathers of which only the start is
    explored. *)
Lemma seeded_inv md round start_key end_key E nodes entries :
  round <> 0 ->
  (forall h n, nodes !! h = Some n ->
     insideLocalMap md (n_id_g n) = true /\ getLocalIndexHash md (n_id_g n) = h /\
     n_father_ptr n = None /\ (n_rounds n = round -> h = start_key /\ n_state n <> CLOSEDSET)) ->
  (forall k, k = start_key \/ k = end_key -> is_Some (nodes !! k)) ->
  (forall e, e ∈ entries -> oe_node e = start_key) ->
  n_rounds (default GridNode_default (nodes !! start_key)) = round ->
  search_inv md round start_key end_key E (mkSearch nodes entries [] 0) [].
Proof.
  intros Hr Hn Hroots Hopen Hstart. set (s := mkSearch nodes entries [] 0).
  assert (Hf : forall h, father s h = None).
  { intros h. unfold father, node_at. cbn. destruct (nodes !! h) eqn:E'; [|done]. apply Hn in E' as (_ & _ & E' & _). exact E'. }
  assert (He : forall h, explored round s h -> h = start_key /\ n_state (node_at s h) <> CLOSEDSET).
  { intros h. unfold explored, node_at. cbn. destruct (nodes !! h) eqn:E'; [|cbn; congruence].
    cbn. intros Hx. apply Hn in E' as (_ & _ & _ & E'). by apply E'. }
  split; [split|..]; try done.
  - intros h. split; [by intros ?%elem_of_nil|]. intros [Hx Hs]. by apply He in Hx as [_ ?].
  - constructor.
  - by intros [] ? ? ?.
  - intros h f Hx. by rewrite Hf in Hx.
  - intros h Hx _. by apply He in Hx as [? _].
  - intros e Hin. unfold explored, node_at. cbn. by rewrite (Hopen e Hin).
  - intros h n Hx. by apply Hn in Hx as (? & ? & _).
  - intros h f Hx. by rewrite Hf in Hx.
  - by intros e ?%elem_of_nil.
Qed.

Lemma initial_inv md cfg `{EigenOps} round start_key end_key start_idx end_idx E :
  round <> 0 ->
  insideLocalMap md start_idx = true -> getLocalIndexHash md start_idx = start_key ->
  insideLocalMap md end_idx = true -> getLocalIndexHash md end_idx = end_key ->
  search_inv md round start_key end_key E
    (initial_state cfg round start_key end_key start_idx end_idx) [].
Proof.
  intros Hr Hs Hsk He Hek. unfold initial_state, push_open, set_open, put_node.
  cbn [visited_nodes_ open_set frontier_queue frontier_sequence_ touch put_node].
  apply seeded_inv; [done|..].
  - intros h n. unfold touch, put_node. cbn [visited_nodes_].
    destruct (decide (start_key = h)) as [<-|Hne]; [rewrite lookup_insert_eq; by intros [= <-]|].
    rewrite !(lookup_insert_ne _ start_key h) by done.
    destruct (decide (end_key = h)) as [<-|Hne2]; [|by rewrite lookup_insert_ne].
    rewrite lookup_insert_eq. intros [= <-]. split_and!; [done..|]. cbn. unfold node_at. cbn.
    rewrite lookup_empty. cbn. congruence.
  - intros k Hk. unfold touch, put_node. cbn [visited_nodes_].
    destruct (decide (start_key = k)) as [<-|Hne]; [rewrite lookup_insert_eq; by eexists|].
    rewrite !(lookup_insert_ne _ start_key k) by done. destruct Hk as [->| ->]; [done|].
    rewrite lookup_insert_eq. by eexists.
  - intros e Hin. apply elem_of_cons in Hin as [->|Hin]; [done|by apply elem_of_nil in Hin].
  - by rewrite lookup_insert_eq.
Qed.

(** ** The seed of the graph *)

Section Seed.
Context `{EigenOps, EigenRotOps}.

Lemma shell_candidate_offered offer radius c :
  shell_candidate offer radius = Some c -> exists d, offer d = Some c.
Proof.
  unfold shell_candidate. generalize (filter (fun d => chebyshev d =? radius) (cube radius)).
  assert (Hg : forall l best, (forall c, best = Some c -> exists d, offer d = Some c) ->
    foldl (fun best d => better_candidate best (offer d)) best l = Some c -> exists d, offer d = Some c).
  { induction l as [|d l IH]; cbn; intros best Hb; [apply Hb|]. apply IH. intros c'.
    unfold better_candidate. destruct (offer d) as [c1|] eqn:Ed; [|apply Hb].
    destruct best as [b|]; [|intros [= <-]; eauto].
    destruct (flt _ _); [intros [= <-]; eauto|apply Hb]. }
  intros l. by apply Hg.
Qed.

Lemma first_some_in {A} (l : list (option A)) a : first_some l = Some a -> Some a ∈ l.
Proof.
  induction l as [|[x|] l IH]; cbn; [done|intros [= ->]; constructor|]. intros E.
  constructor 2. by apply IH.
Qed.

(** The seed lies in the window, is free under the policy of the seed, and the
    segment from the localized start to it has been certified. *)
Lemma graph_seed_sound a w md p q prefer start_idx seed :
  insideLocalMap md start_idx = true -> graph_seed a w md p q prefer start_idx = Some seed ->
  insideLocalMap md seed = true /\
  isCellTraversable (classify (gv_view w) (globalIndexToPos w md seed) (search_layer md))
    (seed_policy a w md p) = true /\
  startPrefixTraversable a p (globalIndexToPos w md seed) (search_layer md) (seed_policy a w md p) = true.
Proof.
  intros Hin. unfold graph_seed.
  destruct (isCellTraversable _ _ && startPrefixTraversable _ _ _ _ _) eqn:E.
  { intros [= <-]. by apply andb_prop in E as [? ?]. }
  destruct (virtual_start _) as [c|] eqn:Ev; [|done]. intros [= <-].
  apply first_some_in in Ev. apply list_elem_of_fmap in Ev as (r & Ev & _). symmetry in Ev.
  apply shell_candidate_offered in Ev as (d & Hd). revert Hd. unfold start_candidate.
  destruct (insideLocalMap md (idx_add start_idx d)) eqn:Ei; [|done]. cbn [negb].
  repeat (let E := fresh "E" in match goal with |- context [if ?b then None else _] =>
            destruct b eqn:E; [done|] end).
  intros [= <-]. cbn.
  repeat match goal with H : negb _ = false |- _ => apply negb_false_iff in H end. by split_and!.
Qed.
End Seed.

(** ** The whole search *)

(** What a call that found a path has established. *)
Definition certified_path `{EigenOps, EigenRotOps, EigenNormOps} (a : Astar) (expired : nat -> bool)
    (start_pt end_pt : vec3) (flag : Z) (searching_horizon : f64) (prefer : bool)
    (code : RET_CODE) (path : list vec3) : Prop :=
  exists view md p start_out q end_out,
    map_ptr_ a = Some view /\ setup a start_pt end_pt flag searching_horizon = inr md /\
    let w := sp_obj view in
    localize_start w md start_pt = Some (p, start_out) /\
    localize_end w md start_pt end_pt start_out ≫= project_into_map w md p = Some (q, end_out) /\
    (code = REACH_GOAL -> end_out = false) /\
    let end_idx := posToGlobalIndex w md q in
    ((contains (gv_view w) p = true /\ contains (gv_view w) q = true /\
      direct_segment_safe a w md p q = true /\
      exists n, direct_sample_count md (v_sub q p) = Some n /\ path = direct_samples p (v_sub q p) n)
     \/
     exists seed round,
       insideLocalMap md seed = true /\
       isCellTraversable (classify (gv_view w) (globalIndexToPos w md seed) (search_layer md))
         (seed_policy a w md p) = true /\
       startPrefixTraversable a p (globalIndexToPos w md seed) (search_layer md)
         (seed_policy a w md p) = true /\
       graph_path (make_task (with_round a round) w md expired round (getLocalIndexHash md seed)
                     (getLocalIndexHash md end_idx) start_pt p q start_out end_out prefer)
         seed end_idx code path).

Section Whole.
Context `{EigenOps, EigenRotOps, EigenNormOps, PqOps, !PqLaws _}.
Context (fuel : nat) (expired : nat -> bool) (a : Astar) (start_pt end_pt : vec3) (flag : Z).
Context (searching_horizon : f64) (out_path : list vec3) (time_out : f64) (prefer : bool).

(** The search from localized end points, with the fuel it needs. *)
Lemma search_between_spec w md round p q start_out end_out :
  window_ok md -> round <> 0 ->
  let a' := with_round a round in
  match search_between fuel a' w md expired round start_pt p q start_out end_out prefer with
  | None => (fuel <= 26 * Z.to_nat (cells md) + 1)%nat
  | Some (code, path) =>
      (path = [] /\ code ∈ [INIT_ERROR; NO_PATH; TIME_OUT]) \/
      (code ∈ [REACH_GOAL; REACH_HORIZON] /\
       (code = REACH_GOAL -> end_out = false) /\
       ((contains (gv_view w) p = true /\ contains (gv_view w) q = true /\
         direct_segment_safe a w md p q = true /\
         exists n, direct_sample_count md (v_sub q p) = Some n /\ path = direct_samples p (v_sub q p) n)
        \/
        exists seed,
          insideLocalMap md seed = true /\
          isCellTraversable (classify (gv_view w) (globalIndexToPos w md seed) (search_layer md))
            (seed_policy a w md p) = true /\
          startPrefixTraversable a p (globalIndexToPos w md seed) (search_layer md)
            (seed_policy a w md p) = true /\
          graph_path (make_task a' w md expired round (getLocalIndexHash md seed)
                        (getLocalIndexHash md (posToGlobalIndex w md q)) start_pt p q start_out end_out
                        prefer)
            seed (posToGlobalIndex w md q) code path))
  end.
Proof.
  intros W Hr a'. unfold search_between.
  destruct (insideLocalMap md (posToGlobalIndex w md p)) eqn:Ep; [|left; split; [done|repeat constructor]].
  destruct (insideLocalMap md (posToGlobalIndex w md q)) eqn:Eq; [|left; split; [done|repeat constructor]].
  cbn [negb orb].
  destruct (graph_seed a' w md p q prefer _) as [seed|] eqn:Es; [|left; split; [done|repeat constructor]].
  apply graph_seed_sound in Es as (Hin & Hfree & Hpre); [|done].
  destruct (contains (gv_view w) p && contains (gv_view w) q && direct_segment_safe a' w md p q) eqn:Ed.
  { destruct (direct_sample_count md (v_sub q p)) as [n|] eqn:En; [|left; split; [done|repeat constructor]].
    right. apply andb_prop in Ed as [[? ?]%andb_prop ?]. split_and!.
    - destruct end_out; repeat constructor.
    - by destruct end_out.
    - left. split_and!; [done..|]. by exists n. }
  set (t := make_task _ _ _ _ _ _ _ _ _ _ _ _ _).
  set (s := initial_state _ _ _ _ _ _).
  assert (I : search_inv md round (getLocalIndexHash md seed)
                (getLocalIndexHash md (posToGlobalIndex w md q)) (graph_edge t) s [])
    by (by apply initial_inv).
  pose proof (search_loop_inv t W Hr seed (posToGlobalIndex w md q) Hin eq_refl Eq eq_refl
                fuel s [] 1 I) as Hl.
  destruct (search_loop fuel t 1 s) as [[code path]|]; [|unfold turns_left in Hl; cbn in Hl; lia].
  assert (Hg : graph_path t seed (posToGlobalIndex w md q) code path ->
    (code = REACH_GOAL -> end_out = false)) by (intros (? & ? & _ & _ & _ & _ & Hc) Hcode; by apply Hc).
  unfold search_result_ok in Hl. cbn [fst snd] in Hl.
  destruct code; try done; try (left; split; [done|repeat constructor]); right;
    (split; [repeat constructor|]; split; [by auto|]; right; exists seed; by split_and!).
Qed.

(** C14. Termination.  Given turns for every cell of the window (each cell is closed
    at most once and pushes at most 26 neighbours), the search returns, whatever
    the clock, the map and the tie-breaking of the queue are: neither the main
    loop nor the walk along the fathers of a path can run forever. *)
Theorem goal_search_terminates :
  0 <= rounds_ a ->
  (forall md, setup a start_pt end_pt flag searching_horizon = inr md ->
   26 * Z.to_nat (cells md) + 1 < fuel)%nat ->
  is_Some (pointToPointPathSearch fuel expired a start_pt end_pt flag searching_horizon out_path
             time_out prefer).
Proof.
  intros Hr Hf. unfold pointToPointPathSearch.
  destruct (_ || _); [by eexists|]. destruct (negb _); [by eexists|].
  destruct (setup a start_pt end_pt flag searching_horizon) as [c|md] eqn:Es; [by eexists|].
  destruct (map_ptr_ a) as [view|]; [|by eexists].
  destruct (expired 0%nat); [by eexists|]. destruct (_ =? i32_max); [by eexists|].
  destruct (localize_start _ _ _) as [[p so]|]; [|by eexists].
  destruct (localize_end _ _ _ _ _ ≫= _) as [[q eo]|]; [|by eexists].
  pose proof (search_between_spec (sp_obj view) md (rounds_ a + 1) p q so eo (setup_window _ _ _ _ _ _ Es)
                ltac:(lia)) as Hb. cbn zeta in Hb. cbn [rounds_ with_round].
  destruct (search_between _ _ _ _ _ _ _ _ _ _ _ _) as [r|]; [by eexists|].
  specialize (Hf md eq_refl). lia.
Qed.

End Whole.

(** Addressing.  On a window that [setup] accepted, the wrapping [size_t]
    arithmetic of the local index is exact: it numbers the cells of the window
    without gaps above their count, and no two cells share a number. *)
Theorem local_index_addresses_cells `{EigenOps} (a : Astar) (start_pt goal_pt : vec3) (flag : Z)
    (searching_horizon : f64) (md : MissionData) (i j : GridIndex3) :
  setup a start_pt goal_pt flag searching_horizon = inr md ->
  insideLocalMap md i = true -> insideLocalMap md j = true ->
  0 <= getLocalIndexHash md i < cells md /\ cells md <= u64_max /\
  (getLocalIndexHash md i = getLocalIndexHash md j -> i = j).
Proof.
  intros W%setup_window Hi Hj. split_and!; [by apply hash_range..| |by apply hash_inj].
  by destruct W as (_ & _ & _ & _ & _ & _ & _ & _ & _ & _ & _ & _ & ?).
Qed.

(** ** The frontier fallback *)

Section Frontier.
Context `{EigenOps, EigenRotOps, EigenNormOps, PqOps, !PqLaws _}.
Context (t : SearchTask).

(** The oracle classifies the end of the segment under the policy it is given,
    as [MappingWorldSnapshot::isSegmentTraversable] does. *)
Hypothesis oracle_checks_end : forall a b layer policy,
  isSegmentTraversable (gv_view (t_view t)) a b layer policy = true ->
  isCellTraversable (classify (gv_view (t_view t)) b layer) policy = true.

Lemma frontier_unreachable cur s d s' :
  md_use_inf_map (t_md t) || negb (md_use_inf_neighbor (t_md t)) = true ->
  expand_neighbor t cur s d = Some s' -> frontier_queue s' = frontier_queue s.
Proof.
  intros Hlayer. unfold expand_neighbor.
  repeat (match goal with |- context [if ?b then Some _ else _] => destruct b; [by intros [= <-]|] end).
  destruct (index_step _ d) as [i|]; [|by intros [= <-]].
  do 3 (match goal with |- context [if ?b then Some _ else _] => destruct b; [by intros [= <-]|] end).
  destruct (negb (isCellTraversable _ _)); [by intros [= <-]|].
  destruct (edge_traversable t _ i) eqn:Ee; [cbn [negb]|by intros [= <-]].
  destruct (md_unknown_as_occ (t_md t) && (neighbor_type t i ==? kUnknown)) eqn:Ef.
  - exfalso. apply andb_prop in Ef as [Hu Ht%bool_decide_eq_true].
    unfold neighbor_type in Ht. rewrite Hlayer in Ht.
    apply andb_prop in Ee as [Hs _]. apply oracle_checks_end in Hs.
    rewrite Ht in Hs. unfold configured_search_policy in Hs. by rewrite Hu in Hs.
  - intros [= <-]. unfold relax. repeat case_match; done.
Qed.

(** Finding.  When the oracle judges a segment by its end cell too, as the
    mapping snapshot does, and cells are classified directly, a search that
    treats unknown space as occupied never records a frontier: the edge to an
    unknown cell was already refused under [kRequireKnownFree].  The fallback
    that ends a failed search at the best frontier cannot be taken. *)
Theorem frontier_fallback_unreachable (cur : Z) (ds : list GridIndex3) (s s' : SearchState) (ck : nat) :
  md_use_inf_map (t_md t) || negb (md_use_inf_neighbor (t_md t)) = true ->
  frontier_queue s = [] -> expand t cur ds s = Some s' ->
  frontier_queue s' = [] /\
  search_exhausted t ck s' = Some (if t_expired t ck then TIME_OUT else NO_PATH, []).
Proof.
  intros Hlayer Hs He. assert (frontier_queue s' = []) as Hs'.
  { revert s Hs He. induction ds as [|d ds IH]; intros s Hs; cbn; [by intros [= <-]|].
    destruct (expand_neighbor t cur s d) as [s1|] eqn:E; [|done]. apply IH.
    by rewrite (frontier_unreachable _ _ _ _ Hlayer E). }
  split; [done|]. unfold search_exhausted, discard_stale_frontier_entries. rewrite Hs'. cbn.
  destruct (t_expired t ck); [done|]. by rewrite andb_false_r.
Qed.
End Frontier.

(** ** A concrete search

    Five by three cells in one layer with a wall of two cells; the way from
    (0,0) to (4,0) leads around it. *)

Definition norm_reference : EigenNormOps := {|
  v_normalized v :=
    let z := @v_squaredNorm eigen_reference v in
    if fgt z fzero then @v_div eigen_reference v (f64_sqrt z) else v
|}.

Definition demo_cell (p : vec3) : GridIndex3 := Idx (SF_trunc (vx p)) (SF_trunc (vy p)) (SF_trunc (vz p)).

Definition demo_free (i : GridIndex3) : bool :=
  (0 <=? ix i) && (ix i <? 5) && (0 <=? iy i) && (iy i <? 3) && (iz i =? 0)
  && negb ((ix i =? 2) && (iy i <? 2)).

Definition demo_point (i : GridIndex3) : vec3 := Vec3 (f64_of_Z (ix i)) (f64_of_Z (iy i)) (f64_of_Z (iz i)).

Definition demo_grid : GridWorldView := {|
  gv_view := {|
    identity := mkIdentity 1 1 1 1;
    classify p _ := if demo_free (demo_cell p) then kKnownFree else kOccupied;
    contains _ := true;
    isSegmentTraversable a b _ _ :=
      demo_free (demo_cell a) && demo_free (demo_cell b)
      && (Z.abs (ix (demo_cell a) - ix (demo_cell b)) <=? 1);
    changedRegionIntersectsSince _ _ := true
  |};
  gv_geometry :=
    mkGeometry (f64_of_Z 1) (f64_of_Z 1) fzero fzero fzero vec3_zero (vec3_constant (f64_of_Z 10)) false
      (mkBounds (Idx 0 0 0) (Idx 5 3 1)) (mkBounds (Idx 0 0 0) (Idx 5 3 1));
  positionToIndex p _ := demo_cell p;
  indexToPosition i _ := demo_point i;
  nearestNotOccupied p _ _ := Some p;
  isSegmentTraversableWithCurrentBodySupport _ _ _ _ _ := false
|}.

Definition demo_astar : Astar :=
  mkAstar (Some (Shared 1 demo_grid)) None quat_identity (mkSearchConfig true DIAG (f64_of_Z 1))
    (f64_of_Z 1) [] 0.

(** The window of the search between the two end points. *)
Definition demo_md : MissionData := Eval vm_compute in
  match @setup eigen_reference demo_astar (demo_point (Idx 0 0 0)) (demo_point (Idx 4 0 0)) 9 (f64_of_Z 100) with
  | inr md => md
  | inl _ => mkMission vec3_zero vec3_zero fzero false false false false false fzero vec3_zero
               (Idx 0 0 0) (Idx 0 0 0) (Idx 0 0 0) vec3_zero vec3_zero
  end.

Lemma demo_setup :
  @setup eigen_reference demo_astar (demo_point (Idx 0 0 0)) (demo_point (Idx 4 0 0)) 9 (f64_of_Z 100)
  = inr demo_md.
Proof. vm_compute. reflexivity. Qed.

Abbreviation demo_search fuel :=
  (@pointToPointPathSearch eigen_reference rot_reference norm_reference pq_reference fuel (fun _ => false)
    demo_astar (demo_point (Idx 0 0 0)) (demo_point (Idx 4 0 0)) 9 (f64_of_Z 100) [] (f64_of_Z 1) false).

Definition demo_path : list vec3 :=
  demo_point <$> [Idx 0 0 0; Idx 1 1 0; Idx 2 2 0; Idx 3 1 0; Idx 4 0 0].

Lemma demo_search_result : fst <$> demo_search 400 = Some (REACH_GOAL, demo_path).
Proof. vm_compute. reflexivity. Qed.

Lemma goal_search_terminates_witness : is_Some (demo_search 400).
Proof.
  apply (@goal_search_terminates eigen_reference rot_reference norm_reference pq_reference
           pq_reference_laws); [discriminate|].
  intros md E. rewrite demo_setup in E. injection E as <-.
  apply Nat.ltb_lt. vm_compute. reflexivity.
Defined.


Lemma local_index_addresses_cells_witness :
  0 <= getLocalIndexHash demo_md (Idx 4 2 0) < cells demo_md /\ cells demo_md = 15.
Proof.
  destruct (@local_index_addresses_cells eigen_reference demo_astar (demo_point (Idx 0 0 0))
    (demo_point (Idx 4 0 0)) 9 (f64_of_Z 100) demo_md (Idx 4 2 0) (Idx 4 2 0) demo_setup
    eq_refl eq_refl) as [H _].
  split; [exact H|reflexivity].
Defined.

Definition demo_task : SearchTask :=
  @make_task demo_astar demo_grid demo_md (fun _ => false) 1 0 12 (demo_point (Idx 0 0 0))
    (demo_point (Idx 0 0 0)) (demo_point (Idx 4 0 0)) false false false.

Definition demo_initial : SearchState :=
  @initial_state eigen_reference (cfg_ demo_astar) 1 0 12 (Idx 0 0 0) (Idx 4 0 0).

Lemma demo_expands :
  is_Some (@expand eigen_reference demo_task 0 neighbor_offsets demo_initial).
Proof. vm_compute. eexists. reflexivity. Qed.

Lemma frontier_fallback_unreachable_witness :
  exists s, @expand eigen_reference demo_task 0 neighbor_offsets demo_initial = Some s /\
    @search_exhausted eigen_reference pq_reference demo_task 1 s = Some (NO_PATH, []).
Proof.
  destruct demo_expands as [s Es]. exists s. split; [exact Es|].
  refine (proj2 (@frontier_fallback_unreachable eigen_reference pq_reference
            demo_task _ 0 neighbor_offsets demo_initial s 1 eq_refl eq_refl Es)).
  intros a b layer policy Hseg. cbn in *. apply andb_prop in Hseg as [[_ Hb]%andb_prop _]. by rewrite Hb.
Defined.

(** * Correctness of the escape search

    The escape search of [astar.cpp] shares nodes, relaxation and path retrieval
    with the goal search, so the invariant of [AStarProps] carries over with the
    weaker edges it walks: neighbouring cells that are in the map and not
    occupied, without a segment certificate. *)
#[local] Open Scope Z_scope.

Definition escape_edge (t : SearchTask) (local_start_pt : vec3) (a b : GridIndex3) : Prop :=
  let md := t_md t in
  let pos := globalIndexToPos (t_view t) md b in
  let type := classify (gv_view (t_view t)) pos (search_layer md) in
  (exists d, d ∈ neighbor_offsets /\ index_step a d = Some b) /\
  insideLocalMap md b = true /\ contains (gv_view (t_view t)) pos = true /\
  isCellTraversable type kAllowUnknown = true /\
  (md_unknown_as_occ md = true -> type <> kUnknown) /\
  (t_prefer_start_goal_altitude t = true ->
   fgt (fabs (f64_sub (vz pos) (vz local_start_pt))) (md_resolution md) = false).

Section Escape.
Context `{EigenOps, EigenRotOps, EigenNormOps, PqOps, !PqLaws _}.
Context (t : SearchTask) (local_start_pt : vec3).
Hypothesis W : window_ok (t_md t).
Hypothesis Hround : t_round t <> 0.

Abbreviation inv := (search_inv (t_md t) (t_round t) (t_start_key t) (t_start_key t)
                       (escape_edge t local_start_pt)).

Lemma escape_neighbor_inv cur s d closed :
  inv s closed -> cur ∈ closed -> d ∈ neighbor_offsets ->
  inv (escape_neighbor t local_start_pt cur s d) closed /\
  (length (open_set (escape_neighbor t local_start_pt cur s d)) <= S (length (open_set s)))%nat.
Proof.
  intros I Hcur Hd. unfold escape_neighbor.
  assert (Hsame : inv s closed /\ (length (open_set s) <= S (length (open_set s)))%nat) by (split; [done|lia]).
  destruct (index_step _ d) as [i|] eqn:Estep; [|done]. cbv zeta.
  destruct (contains (gv_view (t_view t)) _) eqn:Econ; [cbn [negb orb]|done].
  destruct (insideLocalMap (t_md t) i) eqn:Ein; [cbn [negb]|done].
  destruct (t_prefer_start_goal_altitude t && _) eqn:Ealt; [done|].
  destruct (isCellTraversable _ kAllowUnknown) eqn:Etype; [cbn [negb]|done].
  destruct (md_unknown_as_occ (t_md t) && bool_decide (classify _ _ _ = kUnknown)) eqn:Eunk; [done|].
  set (h := getLocalIndexHash (t_md t) i).
  destruct (search_inv_touch _ _ _ _ _ W Hround i s closed I Ein) as (I1 & Hn & Hid & Hids).
  fold h in I1, Hn, Hid, Hids. set (s1 := touch h i s) in *.
  destruct ((n_rounds (node_at s1 h) =? t_round t) && _) eqn:Eclosed.
  { split; [done|cbn; lia]. }
  change (open_set s) with (open_set s1).
  apply (relax_inv _ _ (t_start_key t) (t_start_key t) (escape_edge t local_start_pt)); [done..| |done|].
  - intros Hc. apply (f_closed _ _ _ _ (si_forest _ _ _ _ _ _ _ I1)) in Hc as [Hr Hs].
    unfold explored in Hr. rewrite Hr, Hs, Z.eqb_refl in Eclosed. done.
  - rewrite Hid. split_and!; auto.
    + exists d. split; [done|]. rewrite (Hids cur Hcur). exact Estep.
    + intros Hu. rewrite Hu in Eunk. by apply bool_decide_eq_false in Eunk.
    + intros Ha. by rewrite Ha in Ealt.
Qed.

Lemma escape_expand_inv cur s closed :
  inv s closed -> cur ∈ closed ->
  inv (escape_expand t local_start_pt cur s) closed /\
  (length (open_set (escape_expand t local_start_pt cur s)) <= 26 + length (open_set s))%nat.
Proof.
  intros I Hcur. unfold escape_expand. rewrite <- neighbor_offsets_length.
  assert (Hds : forall d, d ∈ neighbor_offsets -> d ∈ neighbor_offsets) by done. revert Hds I.
  generalize neighbor_offsets at 1 3 4 5. intros ds. revert s.
  induction ds as [|d ds IH]; intros s Hds I; cbn; [split; [done|lia]|].
  destruct (escape_neighbor_inv cur s d closed I Hcur) as [I1 Hl]; [apply Hds; constructor|].
  destruct (IH (escape_neighbor t local_start_pt cur s d)) as [I2 Hl2]; [|done|split; [done|lia]].
  intros d' Hd'. apply Hds. by constructor.
Qed.

Context (start_idx : GridIndex3).
Hypothesis Hstart : insideLocalMap (t_md t) start_idx = true.
Hypothesis Hstart_key : getLocalIndexHash (t_md t) start_idx = t_start_key t.

(** The cells [ids] lead from the start, over cells in the map that are not
    occupied, to a cell in which the escape is complete. *)
Definition escape_path (path : list vec3) : Prop :=
  exists ids last_idx,
    path = globalIndexToPos (t_view t) (t_md t) <$> ids /\
    edges_along (escape_edge t local_start_pt) ids /\ head ids = Some start_idx /\
    last ids = Some last_idx /\
    escape_done (t_md t)
      (classify (gv_view (t_view t)) (globalIndexToPos (t_view t) (t_md t) last_idx)
         (search_layer (t_md t))) = true.

Definition escape_result_ok (r : SearchResult) : Prop :=
  match r.1 with
  | REACH_HORIZON => escape_path r.2
  | NO_PATH | TIME_OUT => r.2 = []
  | _ => False
  end.

Lemma escape_loop_inv fuel s closed ck :
  inv s closed ->
  match escape_loop fuel t local_start_pt ck s with
  | Some r => escape_result_ok r
  | None => (fuel <= turns_left (t_md t) s closed)%nat
  end.
Proof.
  revert s closed ck. induction fuel as [|fuel IH]; intros s closed ck I; cbn [escape_loop]; [lia|].
  destruct (pq_pop open_worse (open_set s)) as [[entry rest]|] eqn:Ep; [|by destruct (t_expired t ck)].
  destruct (t_expired t ck); [done|].
  destruct (pop_inv _ _ _ _ _ s closed entry rest I Ep) as (I1 & He & Hlen).
  set (s1 := set_open rest s) in *.
  pose proof (turns_left_pop (t_md t) s closed rest Hlen) as Hturns. fold s1 in Hturns.
  destruct (entry_stale s1 entry) eqn:Est.
  { specialize (IH s1 closed (S ck) I1). destruct (escape_loop fuel t _ (S ck) s1); [done|lia]. }
  pose proof (not_stale _ _ _ _ _ s1 closed entry I1 He Est) as Hnc.
  destruct (escape_done _ _) eqn:Edone.
  { destruct (retrieved_path _ _ _ _ _ s1 closed (oe_node entry) start_idx W Hround I1 (fun _ => He)
                Hstart Hstart_key) as (ids & -> & Hids & Hh & Hl).
    unfold emit. cbn. exists ids, (id_at s1 (oe_node entry)). split_and!; [|done..].
    unfold ConvertNodePathToPointPath. by rewrite <- fmap_reverse, reverse_involutive. }
  destruct (t_expired t (S ck)); [done|].
  pose proof (search_inv_close _ _ _ _ _ Hround (oe_node entry) s1 closed I1 He Hnc) as I2.
  assert (oe_node entry ∈ oe_node entry :: closed) as Hcur by constructor.
  destruct (escape_expand_inv _ _ _ I2 Hcur) as [I3 Hl].
  revert I3 Hl. generalize (escape_expand t local_start_pt (oe_node entry)
    (put_node (oe_node entry) (n_set_state CLOSEDSET (node_at s1 (oe_node entry))) s1)).
  intros s2 I3 Hl.
  specialize (IH s2 (oe_node entry :: closed) (S (S ck)) I3).
  destruct (escape_loop fuel t _ (S (S ck)) s2); [done|].
  pose proof (closed_bound _ _ _ _ _ W Hround _ _ I3) as Hb.
  pose proof (turns_left_close _ s1 _ _ _ Hl Hb). lia.
Qed.
End Escape.

Lemma escape_initial_inv md round start_key start_idx E :
  round <> 0 -> insideLocalMap md start_idx = true -> getLocalIndexHash md start_idx = start_key ->
  search_inv md round start_key start_key E (escape_initial round start_key start_idx) [].
Proof.
  intros Hr Hs Hk. apply seeded_inv; [done|..].
  - intros h n Hn. cbn [visited_nodes_ put_node] in Hn. apply lookup_insert_Some in Hn as [[<- <-]|[_ Hn]]; [by split_and!|].
    by rewrite lookup_empty in Hn.
  - intros k [-> | ->]; cbn; rewrite lookup_insert_eq; by eexists.
  - intros e Hin. apply elem_of_cons in Hin as [->|Hin]; [done|by apply elem_of_nil in Hin].
  - cbn. by rewrite lookup_insert_eq.
Qed.

(** The escape search, given turns for every cell of the window and a map whose
    nearest free point lies in that window, returns; it reports [REACH_HORIZON]
    exactly with a walk over neighbouring cells in the map, none of them
    occupied (nor unknown, when unknown counts as occupied), from the cell of
    that point to a cell in which the escape is complete.  [NO_NEED] means that
    the start itself is free.  Any other result leaves the caller's path. *)
Theorem escape_search_correct `{EigenOps, EigenRotOps, EigenNormOps, PqOps, !PqLaws _}
    (fuel : nat) (expired : nat -> bool) (a : Astar) (start_pt : vec3) (flag : Z)
    (out_path : list vec3) (prefer : bool) (time_out : f64) :
  0 <= rounds_ a ->
  (forall md view q, setup a start_pt start_pt flag (f64_of_Z 999) = inr md -> map_ptr_ a = Some view ->
     nearestNotOccupied (sp_obj view) start_pt (search_layer md) (f64_of_Z 3) = Some q ->
     inside_pos (sp_obj view) md q = true) ->
  (forall md, setup a start_pt start_pt flag (f64_of_Z 999) = inr md ->
     26 * Z.to_nat (cells md) + 1 < fuel)%nat ->
  exists code path a',
    escapePathSearch fuel expired a start_pt flag out_path prefer time_out = Some (code, path, a') /\
    match code with
    | REACH_HORIZON =>
        exists md view q round,
          setup a start_pt start_pt flag (f64_of_Z 999) = inr md /\ map_ptr_ a = Some view /\
          nearestNotOccupied (sp_obj view) start_pt (search_layer md) (f64_of_Z 3) = Some q /\
          let key := getLocalIndexHash md (posToGlobalIndex (sp_obj view) md q) in
          escape_path (make_task (with_round a round) (sp_obj view) md expired round key key start_pt q q
                         false false prefer) q (posToGlobalIndex (sp_obj view) md q) path
    | NO_NEED =>
        path = [] /\ exists md view, setup a start_pt start_pt flag (f64_of_Z 999) = inr md /\
          map_ptr_ a = Some view /\ md_unknown_as_free md = true /\
          isCellTraversable (classify (gv_view (sp_obj view)) start_pt (search_layer md)) kAllowUnknown = true
    | INIT_ERROR | NO_PATH | TIME_OUT => path = out_path
    | _ => False
    end.
Proof.
  intros Hr Hnear Hf. unfold escapePathSearch.
  destruct (negb (has _)); [by do 3 eexists|].
  destruct (setup a start_pt start_pt flag (f64_of_Z 999)) as [c|md] eqn:Es.
  { do 3 eexists. split; [done|]. by rewrite (setup_fails _ _ _ _ _ _ Es). }
  destruct (map_ptr_ a) as [view|] eqn:Em; [|by do 3 eexists].
  destruct (expired 0%nat); [by do 3 eexists|]. destruct (_ =? i32_max); [by do 3 eexists|].
  destruct (negb (inside_pos _ _ _) || _); [by do 3 eexists|].
  destruct (md_unknown_as_free md && _) eqn:Eneed.
  { do 3 eexists. split; [done|]. apply andb_prop in Eneed as [? ?]. split; [done|].
    by exists md, view. }
  destruct (nearestNotOccupied _ _ _ _) as [q|] eqn:En; [|by do 3 eexists].
  specialize (Hnear md view q eq_refl eq_refl En). specialize (Hf md eq_refl).
  set (k := getLocalIndexHash md _). set (t := make_task _ _ _ _ _ _ _ _ _ _ _ _ _).
  assert (W : window_ok md) by (by eapply setup_window).
  assert (Hround : rounds_ a + 1 <> 0) by lia.
  pose proof (escape_initial_inv md (rounds_ a + 1) k (posToGlobalIndex (sp_obj view) md q)
                (escape_edge t q) Hround Hnear eq_refl) as I.
  pose proof (escape_loop_inv t q W Hround (posToGlobalIndex (sp_obj view) md q) Hnear eq_refl fuel _ [] 1 I)
    as Hl.
  cbn [rounds_ with_round].
  destruct (escape_loop fuel t q 1 _) as [[code path]|]; [|unfold turns_left in Hl; cbn in Hl; lia].
  unfold escape_result_ok in Hl. cbn in Hl |- *.
  destruct code; try done; do 3 eexists; (split; [done|]); cbn; try done.
  by exists md, view, q, (rounds_ a + 1).
Qed.

(** From inside the wall of the example the search steps out of it. *)
Abbreviation demo_escape fuel :=
  (@escapePathSearch eigen_reference pq_reference fuel (fun _ => false)
    demo_astar (demo_point (Idx 2 0 0)) 9 [] false (f64_of_Z 1)).

Lemma demo_escape_result : fst <$> demo_escape 400 = Some (REACH_HORIZON, demo_point <$> [Idx 2 0 0; Idx 3 0 0]).
Proof. vm_compute. reflexivity. Qed.

(** The window of the escape search. *)
Definition demo_escape_md : MissionData := Eval vm_compute in
  match @setup eigen_reference demo_astar (demo_point (Idx 2 0 0)) (demo_point (Idx 2 0 0)) 9 (f64_of_Z 999) with
  | inr md => md
  | inl _ => demo_md
  end.

Lemma demo_escape_setup :
  @setup eigen_reference demo_astar (demo_point (Idx 2 0 0)) (demo_point (Idx 2 0 0)) 9 (f64_of_Z 999)
  = inr demo_escape_md.
Proof. vm_compute. reflexivity. Qed.

Lemma escape_search_correct_witness :
  exists path a', demo_escape 400 = Some (REACH_HORIZON, path, a') /\
    exists md q round start_idx,
      @escape_path
        (@make_task (with_round demo_astar round) demo_grid md (fun _ => false) round
           (getLocalIndexHash md start_idx) (getLocalIndexHash md start_idx)
           (demo_point (Idx 2 0 0)) q q false false false) q start_idx path.
Proof.
  destruct (@escape_search_correct eigen_reference rot_reference norm_reference pq_reference
              pq_reference_laws 400 (fun _ => false) demo_astar (demo_point (Idx 2 0 0)) 9 [] false
              (f64_of_Z 1)) as (code & path & a' & E & Hp); [discriminate|..].
  - intros md view q Es Ev Eq. rewrite demo_escape_setup in Es. injection Es as <-.
    injection Ev as <-. injection Eq as <-. vm_compute. reflexivity.
  - intros md Es. rewrite demo_escape_setup in Es. injection Es as <-.
    apply Nat.ltb_lt. vm_compute. reflexivity.
  - pose proof demo_escape_result as Hd. rewrite E in Hd. cbn [fmap option_fmap option_map fst] in Hd.
    injection Hd as -> ->. exists (demo_point <$> [Idx 2 0 0; Idx 3 0 0]), a'. split; [exact E|].
    destruct Hp as (md & view & q & round & _ & Hv & _ & Hp). injection Hv as <-.
    exists md, q, round, (posToGlobalIndex demo_grid md q). exact Hp.
Defined.
