(* ===== verification/Route.v ===== *)
(** * Route geometry and progress

    Model of [src/contracts/navigation_mission]: [route_progress.hpp] and
    [route_progress.cpp] - the construction of the arc-length parametrised
    route from a mission, the projection of a measured position onto it, the
    monotone progress with its ordered-branch and self-overlap rules, the
    lookups by arc length, and the validity of the immutable snapshot other
    components receive.  A constructor that throws is [None].  [std::size_t]
    values are integers, [size_max] being the "no segment" index. *)

From S2P Require Import Prelude Ordered Float64 Float64Facts FloatOrder Geometry World Mission.

Definition kMinimumSegmentLengthM : f64 := f64_lit 1 1000000000.
Definition kProjectionDistanceTieSquaredM2 : f64 := f64_lit 1 1000000000000.
Definition lit_1e_6 : f64 := f64_lit 1 1000000.
Definition lit_1e_9 : f64 := f64_lit 1 1000000000.
Definition lit_1e_12 : f64 := f64_lit 1 1000000000000.
Definition lit_1 : f64 := f64_of_Z 1.
Definition size_max : Z := u64_max.

(** ** Data *)

Record RouteSegment : Type := mkSegment {
  rs_start_waypoint_index : Z;
  rs_end_waypoint_index : Z;
  rs_start_arc_m : f64;
  rs_end_arc_m : f64;
  rs_length_m : f64;
  rs_start : vec3;
  rs_end : vec3;
  rs_tangent : vec3
}.

Record RouteProjection : Type := mkProjection {
  pj_valid : bool;
  pj_segment_index : Z;
  pj_arc_length_m : f64;
  pj_lateral_error_m : f64;
  pj_segment_fraction : f64;
  pj_point : vec3;
  pj_tangent : vec3
}.

Definition RouteProjection_default : RouteProjection :=
  mkProjection false size_max fzero fzero fzero vec3_zero vec3_zero.

Record RouteProgressState : Type := mkProgress {
  ps_valid : bool;
  ps_backtracking_exceeded : bool;
  ps_projection : RouteProjection;
  ps_progress_arc_m : f64
}.

Definition RouteProgressState_default : RouteProgressState :=
  mkProgress false false RouteProjection_default fzero.

Record ImmutableRouteSnapshot : Type := mkSnapshot {
  is_mission_id : string;
  is_frame : string;
  is_route_revision : Z;
  is_request_id : Z;
  is_active_waypoint_index : Z;
  is_waypoints : list MissionWaypoint;
  is_segments : list RouteSegment;
  is_waypoint_arc_lengths_m : list f64;
  is_measured_progress : RouteProgressState;
  is_total_length_m : f64
}.

Record RouteProgress : Type := mkRouteProgress {
  rp_waypoints : list MissionWaypoint;
  rp_segments : list RouteSegment;
  rp_waypoint_arc_lengths : list f64;
  rp_backtrack_tolerance_m : f64;
  rp_state : RouteProgressState;
  rp_total_length_m : f64
}.

Definition rp_set_state (r : RouteProgress) (s : RouteProgressState) : RouteProgress :=
  mkRouteProgress (rp_waypoints r) (rp_segments r) (rp_waypoint_arc_lengths r)
    (rp_backtrack_tolerance_m r) s (rp_total_length_m r).

(** [RouteProgressConfig{}.backtrack_tolerance_m] *)
Definition kDefaultBacktrackToleranceM : f64 := f64_lit 1 2.

Definition clampArc (arc_length_m total_length_m : f64) : f64 :=
  fclamp arc_length_m fzero total_length_m.

(** ** Operations *)

Section RouteOps.
Context {E : EigenOps}.

Definition optional_finite (x : f64) : option f64 := if isfinite x then Some x else None.

Definition segmentDistanceToPoint (start end_ point : vec3) : option f64 :=
  if negb (v_allFinite start) || negb (v_allFinite end_) || negb (v_allFinite point) then None
  else
    let delta := v_sub end_ start in
    let length_squared := v_squaredNorm delta in
    if negb (isfinite length_squared) then None
    else
      let fraction :=
        if fgt length_squared lit_1e_12
        then fclamp (f64_div (v_dot (v_sub point start) delta) length_squared) fzero lit_1
        else fzero in
      optional_finite (v_norm (v_sub (v_add start (v_scale fraction delta)) point)).

(** *** The constructor *)

(** One leg of the loop: [Some (segment, total)] appends, [None] throws. *)
Definition make_segment (index : Z) (previous waypoint : MissionWaypoint) (total length_m : f64)
    : option RouteSegment :=
  let end_arc := f64_add total length_m in
  if negb (isfinite end_arc) || fle end_arc total then None
  else
    Some (mkSegment (index - 1) index total end_arc length_m (w_position_enu previous)
            (w_position_enu waypoint)
            (v_div (v_sub (w_position_enu waypoint) (w_position_enu previous)) length_m)).

Fixpoint build_route (index : Z) (previous : option MissionWaypoint)
    (rest : list MissionWaypoint) (segments : list RouteSegment) (arcs : list f64) (total : f64)
    : option (list RouteSegment * list f64 * f64) :=
  match rest with
  | [] => Some (segments, arcs, total)
  | waypoint :: rest' =>
      if negb (waypoint_geometry_ok waypoint) then None
      else
        match previous with
        | None => build_route (index + 1) (Some waypoint) rest' segments (arcs ++ [fzero]) total
        | Some prev =>
            let length_m := v_norm (v_sub (w_position_enu waypoint) (w_position_enu prev)) in
            if negb (isfinite length_m) then None
            else if fgt length_m kMinimumSegmentLengthM then
              match make_segment index prev waypoint total length_m with
              | None => None
              | Some segment =>
                  build_route (index + 1) (Some waypoint) rest' (segments ++ [segment])
                    (arcs ++ [rs_end_arc_m segment]) (rs_end_arc_m segment)
              end
            else build_route (index + 1) (Some waypoint) rest' segments (arcs ++ [total]) total
        end
  end.

Definition RouteProgress_make (mission : Mission) (backtrack_tolerance_m : f64)
    : option RouteProgress :=
  if negb (Mission_valid mission) then None
  else if negb (isfinite backtrack_tolerance_m) || flt backtrack_tolerance_m fzero then None
  else
    match build_route 0 None (m_waypoints mission) [] [] fzero with
    | None => None
    | Some (segments, arcs, total) =>
        Some (mkRouteProgress (m_waypoints mission) segments arcs backtrack_tolerance_m
                RouteProgressState_default total)
    end.

Definition RouteProgress_reset (r : RouteProgress) : RouteProgress :=
  rp_set_state r RouteProgressState_default.

(** *** Projection *)

(** The point of a segment at a fraction of its length. *)
Definition segment_point (segment : RouteSegment) (fraction : f64) : vec3 :=
  v_add (rs_start segment) (v_scale fraction (v_sub (rs_end segment) (rs_start segment))).

Definition raw_fraction (segment : RouteSegment) (position : vec3) : f64 :=
  f64_div (v_dot (v_sub position (rs_start segment)) (rs_tangent segment)) (rs_length_m segment).

Definition segment_arc (segment : RouteSegment) (fraction : f64) : f64 :=
  f64_add (rs_start_arc_m segment) (f64_mul fraction (rs_length_m segment)).

Definition projection_on (index : Z) (segment : RouteSegment) (fraction lateral : f64)
    : RouteProjection :=
  mkProjection true index (segment_arc segment fraction) lateral fraction
    (segment_point segment fraction) (rs_tangent segment).

Fixpoint project_loop (position : vec3) (index : Z) (segments : list RouteSegment)
    (best_distance_squared : f64) (result : RouteProjection) : RouteProjection :=
  match segments with
  | [] => result
  | segment :: rest =>
      let raw := raw_fraction segment position in
      if negb (isfinite raw) then project_loop position (index + 1) rest best_distance_squared result
      else
        let fraction := fclamp raw fzero lit_1 in
        let distance_squared := v_squaredNorm (v_sub position (segment_point segment fraction)) in
        if negb (isfinite distance_squared) || fge distance_squared best_distance_squared
        then project_loop position (index + 1) rest best_distance_squared result
        else
          project_loop position (index + 1) rest distance_squared
            (projection_on index segment fraction (f64_sqrt distance_squared))
  end.

Definition project (r : RouteProgress) (position : vec3) : RouteProjection :=
  match rp_waypoints r with
  | [] => RouteProjection_default
  | front :: _ =>
      if negb (v_allFinite position) then RouteProjection_default
      else
        match rp_segments r with
        | [] =>
            let distance_m := v_norm (v_sub position (w_position_enu front)) in
            if negb (isfinite distance_m) then RouteProjection_default
            else mkProjection true size_max fzero distance_m fzero (w_position_enu front) vec3_zero
        | segments => project_loop position 0 segments finf RouteProjection_default
        end
  end.

(** *** Update *)

(** Keep the active leg against a later near-parallel one. *)
Definition ordered_branch (r : RouteProgress) (position : vec3) (projection : RouteProjection)
    : RouteProjection :=
  let active := pj_segment_index (ps_projection (rp_state r)) in
  if ps_valid (rp_state r) && pj_valid (ps_projection (rp_state r))
     && (active <? vec_size (rp_segments r))
     && (u64_inc active <? pj_segment_index projection)
  then
    match at_index (rp_segments r) active with
    | None => projection
    | Some segment =>
        let fraction := fclamp (raw_fraction segment position) fzero lit_1 in
        let distance := v_norm (v_sub position (segment_point segment fraction)) in
        if isfinite distance
           && fle distance (f64_add (pj_lateral_error_m projection) (rp_backtrack_tolerance_m r))
        then projection_on active segment fraction distance
        else projection
    end
  else projection.

(** Among the geometrically tied segments, the arc closest to the previous
    progress; the forward one on a tie of arcs.  [None] is the loop's
    [continue]. *)
Definition tie_candidate (position : vec3) (previous_progress best_distance_squared : f64)
    (index : Z) (segment : RouteSegment) (best_arc_distance : f64) (projection : RouteProjection)
    : option (f64 * RouteProjection) :=
  let raw := raw_fraction segment position in
  if negb (isfinite raw) then None
  else
    let fraction := fclamp raw fzero lit_1 in
    let distance_squared := v_squaredNorm (v_sub position (segment_point segment fraction)) in
    if negb (isfinite distance_squared)
       || fgt (fabs (f64_sub distance_squared best_distance_squared))
            kProjectionDistanceTieSquaredM2
    then None
    else
      let arc := segment_arc segment fraction in
      let arc_distance := fabs (f64_sub arc previous_progress) in
      let closer_to_progress := flt (f64_add arc_distance lit_1e_12) best_arc_distance in
      let forward_on_tie :=
        fle (fabs (f64_sub arc_distance best_arc_distance)) lit_1e_12
        && fgt arc (pj_arc_length_m projection) in
      if negb closer_to_progress && negb forward_on_tie then None
      else Some (arc_distance, projection_on index segment fraction (f64_sqrt distance_squared)).

Fixpoint tie_loop (position : vec3) (previous_progress best_distance_squared : f64) (index : Z)
    (segments : list RouteSegment) (best_arc_distance : f64) (projection : RouteProjection)
    : RouteProjection :=
  match segments with
  | [] => projection
  | segment :: rest =>
      match tie_candidate position previous_progress best_distance_squared index segment
              best_arc_distance projection with
      | None =>
          tie_loop position previous_progress best_distance_squared (index + 1) rest
            best_arc_distance projection
      | Some (arc_distance, candidate) =>
          tie_loop position previous_progress best_distance_squared (index + 1) rest
            arc_distance candidate
      end
  end.

Definition tie_break (r : RouteProgress) (position : vec3) (projection : RouteProjection)
    : RouteProjection :=
  let previous_progress := ps_progress_arc_m (rp_state r) in
  if ps_valid (rp_state r) && negb (vec_size (rp_segments r) =? 0) then
    tie_loop position previous_progress
      (f64_mul (pj_lateral_error_m projection) (pj_lateral_error_m projection)) 0 (rp_segments r)
      (fabs (f64_sub (pj_arc_length_m projection) previous_progress)) projection
  else projection.

Definition update (r : RouteProgress) (position : vec3) : RouteProgress :=
  let projected := project r position in
  if negb (pj_valid projected) then r
  else
    let was_valid := ps_valid (rp_state r) in
    let previous_progress := ps_progress_arc_m (rp_state r) in
    let projection := tie_break r position (ordered_branch r position projected) in
    rp_set_state r
      (mkProgress true
         (was_valid
          && flt (f64_add (pj_arc_length_m projection) (rp_backtrack_tolerance_m r))
               previous_progress)
         projection
         (if was_valid then fmax previous_progress (pj_arc_length_m projection)
          else pj_arc_length_m projection)).

(** *** Lookups by arc length and waypoint *)

Definition waypointArcLengthM (r : RouteProgress) (waypoint_index : Z) : option f64 :=
  if vec_size (rp_waypoint_arc_lengths r) <=? waypoint_index then None
  else at_index (rp_waypoint_arc_lengths r) waypoint_index.

(** The comparator of the two [std::lower_bound] calls. *)
Definition ends_before (value : f64) (segment : RouteSegment) : bool :=
  flt (rs_end_arc_m segment) value.

Definition arc_unusable (r : RouteProgress) (arc_length_m : f64) : bool :=
  negb (isfinite arc_length_m) || negb (isfinite (rp_total_length_m r))
  || flt (rp_total_length_m r) fzero.

Definition segmentForArc (r : RouteProgress) (arc_length_m : f64) : Z :=
  if (vec_size (rp_segments r) =? 0) || arc_unusable r arc_length_m then size_max
  else
    let clamped_arc := clampArc arc_length_m (rp_total_length_m r) in
    let position := lower_bound (ends_before clamped_arc) (rp_segments r) in
    if Z.of_nat position =? vec_size (rp_segments r) then vec_size (rp_segments r) - 1
    else Z.of_nat position.

(** [(clampArc(arc, total) - segment.start_arc) / segment.length], clamped. *)
Definition arc_fraction (total arc_length_m : f64) (segment : RouteSegment) : f64 :=
  fclamp (f64_div (f64_sub (clampArc arc_length_m total) (rs_start_arc_m segment))
            (rs_length_m segment)) fzero lit_1.

Definition RouteProgress_pointAtArc (r : RouteProgress) (arc_length_m : f64) : option vec3 :=
  match rp_waypoints r with
  | [] => None
  | front :: _ =>
      if arc_unusable r arc_length_m then None
      else if vec_size (rp_segments r) =? 0 then Some (w_position_enu front)
      else
        segment ← at_index (rp_segments r) (segmentForArc r arc_length_m);
        Some (segment_point segment (arc_fraction (rp_total_length_m r) arc_length_m segment))
  end.

Definition altitudeAtArc (r : RouteProgress) (arc_length_m : f64) : f64 :=
  match rp_waypoints r with
  | [] => fnan
  | front :: _ =>
      if arc_unusable r arc_length_m then fnan
      else if vec_size (rp_segments r) =? 0 then vz (w_position_enu front)
      else
        match at_index (rp_segments r) (segmentForArc r arc_length_m) with
        | None => fnan
        | Some segment =>
            f64_add (vz (rs_start segment))
              (f64_mul (arc_fraction (rp_total_length_m r) arc_length_m segment)
                 (f64_sub (vz (rs_end segment)) (vz (rs_start segment))))
        end
  end.

Definition incomingTangent (r : RouteProgress) (waypoint_index : Z) : option vec3 :=
  if vec_size (rp_waypoints r) <=? waypoint_index then None
  else
    rs_tangent <$> List.find (fun s => rs_end_waypoint_index s <=? waypoint_index)
                     (rev (rp_segments r)).

Definition outgoingTangent (r : RouteProgress) (waypoint_index : Z) : option vec3 :=
  if vec_size (rp_waypoints r) <=? waypoint_index then None
  else
    rs_tangent <$> List.find (fun s => waypoint_index <=? rs_start_waypoint_index s) (rp_segments r).

Definition insideAcceptance (r : RouteProgress) (waypoint_index : Z) (position : vec3) : bool :=
  match at_index (rp_waypoints r) waypoint_index with
  | None => false
  | Some waypoint =>
      if negb (v_allFinite position) then false
      else
        let distance_m := v_norm (v_sub position (w_position_enu waypoint)) in
        isfinite distance_m && fle distance_m (w_acceptance_radius_m waypoint)
  end.

(** *** Measured passage through a waypoint *)

(** The lambda of [measuredWaypointCrossingError]. *)
Definition ordered_projection (r : RouteProgress) (waypoint_index : Z) (current_position : vec3)
    : option RouteProjection :=
  let stateless := project r current_position in
  if negb (pj_valid stateless) then None
  else
    let stored := ps_projection (rp_state r) in
    let state_point_distance_m := v_norm (v_sub (pj_point stored) current_position) in
    let projection :=
      if ps_valid (rp_state r) && pj_valid stored && isfinite state_point_distance_m
         && fle state_point_distance_m (f64_add (pj_lateral_error_m stateless) lit_1e_6)
         && fle (pj_lateral_error_m stored) (f64_add (pj_lateral_error_m stateless) lit_1e_6)
      then stored else stateless in
    if vec_size (rp_segments r) =? 0 then Some projection
    else
      segment ← at_index (rp_segments r) (pj_segment_index projection);
      waypoint_arc_m ← at_index (rp_waypoint_arc_lengths r) waypoint_index;
      if fgt (fabs (f64_sub (rs_start_arc_m segment) waypoint_arc_m)) lit_1e_6
         && fgt (fabs (f64_sub (rs_end_arc_m segment) waypoint_arc_m)) lit_1e_6
      then None else Some projection.

Definition measuredWaypointCrossingError (r : RouteProgress) (waypoint_index : Z)
    (current_position : vec3) (previous_position : option vec3)
    (sample_gap_s maximum_sample_gap_s : f64) : option f64 :=
  match at_index (rp_waypoints r) waypoint_index with
  | None => None
  | Some waypoint =>
      if negb (v_allFinite current_position) then None
      else
        let current_error := v_norm (v_sub current_position (w_position_enu waypoint)) in
        if isfinite current_error && fle current_error (w_acceptance_radius_m waypoint) then
          if has (ordered_projection r waypoint_index current_position)
          then Some current_error else None
        else
          match previous_position with
          | None => None
          | Some previous =>
              if negb (v_allFinite previous) || negb (isfinite sample_gap_s)
                 || negb (isfinite maximum_sample_gap_s) || flt sample_gap_s fzero
                 || flt maximum_sample_gap_s fzero || fgt sample_gap_s maximum_sample_gap_s
              then None
              else
                incoming ← incomingTangent r waypoint_index;
                let measured_motion := v_sub current_position previous in
                if negb (v_allFinite measured_motion)
                   || fle (v_dot measured_motion incoming) lit_1e_6
                then None
                else
                  error ← segmentDistanceToPoint previous current_position
                            (w_position_enu waypoint);
                  if fgt error (f64_add (w_acceptance_radius_m waypoint) lit_1e_6) then None
                  else if has (ordered_projection r waypoint_index current_position)
                  then Some error else None
          end
  end.

(** *** Snapshot *)

Definition RouteProgress_snapshot (r : RouteProgress) (mission_id frame : string)
    (route_revision request_id active_waypoint_index : Z) : ImmutableRouteSnapshot :=
  mkSnapshot mission_id frame route_revision request_id active_waypoint_index (rp_waypoints r)
    (rp_segments r) (rp_waypoint_arc_lengths r) (rp_state r) (rp_total_length_m r).

(** Two consecutive waypoints that form one terminal boundary. *)
Definition coincident_pass_stop (previous next : MissionWaypoint) : bool :=
  (w_behavior previous ==? PassThrough) && (w_behavior next ==? Stop)
  && v_allFinite (w_position_enu previous) && v_allFinite (w_position_enu next)
  && fle (v_norm (v_sub (w_position_enu next) (w_position_enu previous)))
       (f64_add kGoalConnectionToleranceM lit_1e_6).

Definition passThroughNextWaypointIsCoincidentStop (route : ImmutableRouteSnapshot) : bool :=
  match at_index (is_waypoints route) (is_active_waypoint_index route),
        at_index (is_waypoints route) (u64_inc (is_active_waypoint_index route)) with
  | Some active, Some next => coincident_pass_stop active next
  | _, _ => false
  end.

Definition stopHasCoincidentPassThroughPredecessor (route : ImmutableRouteSnapshot) : bool :=
  if is_active_waypoint_index route =? 0 then false
  else
    match at_index (is_waypoints route) (is_active_waypoint_index route - 1),
          at_index (is_waypoints route) (is_active_waypoint_index route) with
    | Some previous, Some active => coincident_pass_stop previous active
    | _, _ => false
    end.

(** *** [ImmutableRouteSnapshot::valid] *)

Definition exceeds_1e_6 (x : f64) : bool := fgt x lit_1e_6.

Definition snapshot_header_ok (s : ImmutableRouteSnapshot) : bool :=
  let progress := is_measured_progress s in
  let projection := ps_projection progress in
  negb (str_empty (is_mission_id s) || str_empty (is_frame s) || (is_route_revision s =? 0)
        || (is_request_id s =? 0) || (vec_size (is_waypoints s) =? 0)
        || (vec_size (is_waypoints s) <=? is_active_waypoint_index s)
        || negb (vec_size (is_waypoint_arc_lengths_m s) =? vec_size (is_waypoints s))
        || negb (isfinite (is_total_length_m s)) || flt (is_total_length_m s) fzero
        || negb (ps_valid progress) || negb (pj_valid projection)
        || negb (isfinite (ps_progress_arc_m progress))
        || negb (isfinite (pj_arc_length_m projection))
        || negb (isfinite (pj_lateral_error_m projection))
        || negb (isfinite (pj_segment_fraction projection))
        || negb (v_allFinite (pj_point projection)) || negb (v_allFinite (pj_tangent projection))
        || flt (ps_progress_arc_m progress) fzero
        || fgt (ps_progress_arc_m progress) (f64_add (is_total_length_m s) lit_1e_6)
        || flt (pj_arc_length_m projection) fzero
        || fgt (pj_arc_length_m projection) (f64_add (is_total_length_m s) lit_1e_6)
        || flt (pj_lateral_error_m projection) fzero
        || flt (pj_segment_fraction projection) fzero
        || fgt (pj_segment_fraction projection) lit_1).

(** The waypoint loop; [previous] is the waypoint and arc of [index - 1]. *)
Fixpoint snapshot_waypoints_ok (previous : option (MissionWaypoint * f64))
    (waypoints : list MissionWaypoint) (arcs : list f64) (ids : list string)
    (expected_waypoint_arc_m : f64) : bool :=
  match waypoints, arcs with
  | waypoint :: waypoints', arc :: arcs' =>
      if str_empty (w_id waypoint) || negb (waypoint_geometry_ok waypoint) || negb (isfinite arc)
      then false
      else if bool_decide (w_id waypoint ∈ ids) then false
      else
        match previous with
        | None =>
            if flt arc fzero then false
            else
              snapshot_waypoints_ok (Some (waypoint, arc)) waypoints' arcs' (w_id waypoint :: ids)
                expected_waypoint_arc_m
        | Some (previous_waypoint, previous_arc) =>
            if flt arc fzero || flt (f64_add arc lit_1e_9) previous_arc then false
            else
              let length_m :=
                v_norm (v_sub (w_position_enu waypoint) (w_position_enu previous_waypoint)) in
              if negb (isfinite length_m) then false
              else
                let expected :=
                  if fgt length_m kMinimumSegmentLengthM
                  then f64_add expected_waypoint_arc_m length_m else expected_waypoint_arc_m in
                if negb (isfinite expected) || exceeds_1e_6 (fabs (f64_sub arc expected)) then false
                else
                  snapshot_waypoints_ok (Some (waypoint, arc)) waypoints' arcs'
                    (w_id waypoint :: ids) expected
        end
  | _, _ => true
  end.

(** The legs between consecutive waypoints: end index, displacement, length. *)
Fixpoint legs (index : Z) (previous : MissionWaypoint) (rest : list MissionWaypoint)
    : list (Z * vec3 * f64) :=
  match rest with
  | [] => []
  | waypoint :: rest' =>
      let delta := v_sub (w_position_enu waypoint) (w_position_enu previous) in
      (index, delta, v_norm delta) :: legs (index + 1) waypoint rest'
  end.

Definition leg_finite (leg : Z * vec3 * f64) : bool := isfinite leg.2.
Definition leg_long (leg : Z * vec3 * f64) : bool := fgt leg.2 kMinimumSegmentLengthM.

(** One long leg against its segment. *)
Definition leg_matches (leg : Z * vec3 * f64) (segment : RouteSegment) : bool :=
  let '(index, delta, length_m) := leg in
  negb (negb (rs_start_waypoint_index segment =? index - 1)
        || negb (rs_end_waypoint_index segment =? index)
        || exceeds_1e_6 (fabs (f64_sub (rs_length_m segment) length_m))
        || exceeds_1e_6 (fabs (f64_sub (v_norm (rs_tangent segment)) lit_1))
        || exceeds_1e_6 (v_norm (v_sub (rs_tangent segment) (v_div delta length_m)))).

Fixpoint legs_match (long_legs : list (Z * vec3 * f64)) (segments : list RouteSegment) : bool :=
  match long_legs, segments with
  | leg :: legs', segment :: segments' => leg_matches leg segment && legs_match legs' segments'
  | [], _ => true
  | _ :: _, [] => false
  end.

Definition segment_ok (s : ImmutableRouteSnapshot) (segment : RouteSegment) : bool :=
  match at_index (is_waypoints s) (rs_start_waypoint_index segment),
        at_index (is_waypoints s) (rs_end_waypoint_index segment),
        at_index (is_waypoint_arc_lengths_m s) (rs_start_waypoint_index segment),
        at_index (is_waypoint_arc_lengths_m s) (rs_end_waypoint_index segment) with
  | Some start_waypoint, Some end_waypoint, Some start_arc, Some end_arc =>
      negb ((rs_end_waypoint_index segment <=? rs_start_waypoint_index segment)
            || negb (v_allFinite (rs_start segment)) || negb (v_allFinite (rs_end segment))
            || negb (v_allFinite (rs_tangent segment)) || negb (isfinite (rs_start_arc_m segment))
            || negb (isfinite (rs_end_arc_m segment)) || negb (isfinite (rs_length_m segment))
            || fle (rs_length_m segment) fzero
            || fle (rs_end_arc_m segment) (rs_start_arc_m segment)
            || exceeds_1e_6 (fabs (f64_sub (f64_sub (rs_end_arc_m segment) (rs_start_arc_m segment))
                                     (rs_length_m segment)))
            || exceeds_1e_6 (v_norm (v_sub (rs_start segment) (w_position_enu start_waypoint)))
            || exceeds_1e_6 (v_norm (v_sub (rs_end segment) (w_position_enu end_waypoint)))
            || exceeds_1e_6 (fabs (f64_sub (rs_start_arc_m segment) start_arc))
            || exceeds_1e_6 (fabs (f64_sub (rs_end_arc_m segment) end_arc)))
  | _, _, _, _ => false
  end.

Fixpoint snapshot_segments_ok (s : ImmutableRouteSnapshot) (previous : option RouteSegment)
    (segments : list RouteSegment) : bool :=
  match segments with
  | [] => true
  | segment :: rest =>
      if negb (segment_ok s segment)
         || match previous with
            | Some p =>
                exceeds_1e_6 (fabs (f64_sub (rs_start_arc_m segment) (rs_end_arc_m p)))
            | None => false
            end
      then false
      else snapshot_segments_ok s (Some segment) rest
  end.

Definition measured_projection_ok (projection : RouteProjection) (segment : RouteSegment) : bool :=
  if flt (f64_add (pj_arc_length_m projection) lit_1e_6) (rs_start_arc_m segment)
     || fgt (pj_arc_length_m projection) (f64_add (rs_end_arc_m segment) lit_1e_6)
  then false
  else
    let expected_projection := segment_point segment (pj_segment_fraction projection) in
    negb (negb (v_allFinite expected_projection)
          || exceeds_1e_6 (v_norm (v_sub expected_projection (pj_point projection)))
          || exceeds_1e_6 (v_norm (v_sub (pj_tangent projection) (rs_tangent segment)))
          || exceeds_1e_6 (fabs (f64_sub (pj_arc_length_m projection)
                                   (segment_arc segment (pj_segment_fraction projection))))).

Definition ImmutableRouteSnapshot_valid (s : ImmutableRouteSnapshot) : bool :=
  match is_waypoints s, is_waypoint_arc_lengths_m s with
  | first :: rest, first_arc :: _ =>
      let route_legs := legs 1 first rest in
      let projection := ps_projection (is_measured_progress s) in
      snapshot_header_ok s
      && snapshot_waypoints_ok None (is_waypoints s) (is_waypoint_arc_lengths_m s) [] fzero
      && negb (fne first_arc fzero)
      && forallb leg_finite route_legs
      && (vec_size (is_segments s) =? vec_size (List.filter leg_long route_legs))
      && legs_match (List.filter leg_long route_legs) (is_segments s)
      && snapshot_segments_ok s None (is_segments s)
      && negb (exceeds_1e_6 (fabs (f64_sub (List.last (is_waypoint_arc_lengths_m s) fzero)
                                     (is_total_length_m s))))
      && (if vec_size (is_segments s) =? 0 then pj_segment_index projection =? size_max
          else
            match at_index (is_segments s) (pj_segment_index projection) with
            | None => false
            | Some measured_segment => measured_projection_ok projection measured_segment
            end)
  | _, _ => false
  end.

Definition ImmutableRouteSnapshot_pointAtArc (s : ImmutableRouteSnapshot) (arc_length_m : f64)
    : option vec3 :=
  if negb (ImmutableRouteSnapshot_valid s) || negb (isfinite arc_length_m) then None
  else
    match is_segments s, is_waypoints s with
    | [], front :: _ => Some (w_position_enu front)
    | [], [] => None
    | segments, _ =>
        let bounded_arc := fclamp arc_length_m fzero (is_total_length_m s) in
        let position := lower_bound (ends_before bounded_arc) segments in
        segment ← match segments !! position with
                  | Some segment => Some segment
                  | None => last segments
                  end;
        Some (segment_point segment (arc_fraction (is_total_length_m s) arc_length_m segment))
    end.

Definition routeLookaheadPoint (s : ImmutableRouteSnapshot) (lookahead_m : f64) : option vec3 :=
  if negb (ImmutableRouteSnapshot_valid s) || negb (isfinite lookahead_m) || flt lookahead_m fzero
  then None
  else
    ImmutableRouteSnapshot_pointAtArc s
      (f64_add (ps_progress_arc_m (is_measured_progress s)) lookahead_m).
End RouteOps.
