(* ===== verification/RouteProps.v ===== *)
(** * Properties of the route model

    The construction invariant of [RouteProgress] ([route_wf]): the segments
    chain from arc 0 to the total length with strictly increasing ends and lie
    between consecutive waypoints.  From it, exactness of the bisection by arc
    length, and monotonicity of the measured progress over any sequence of
    updates. *)

From S2P Require Import Prelude Ordered Float64 Float64Facts FloatOrder Geometry World Mission Route.

(** Documented coefficient-wise behaviour of Eigen's vector arithmetic. *)
Class EigenArith (E : EigenOps) : Prop := {
  v_add_spec : forall a b, v_add a b = map3 f64_add a b;
  v_sub_spec : forall a b, v_sub a b = map3 f64_sub a b;
  v_scale_spec : forall s v, v_scale s v = map3 f64_mul (vec3_constant s) v;
  v_norm_finite : forall v, isfinite (v_norm v) = true ->
    isfinite (vx v) = true /\ isfinite (vy v) = true /\ isfinite (vz v) = true
}.

#[export] Instance eigen_reference_arith : EigenArith eigen_reference.
Proof.
  constructor; try done. intros v Hf. simpl in Hf. apply f64_sqrt_finite_inv in Hf.
  unfold ref_dot in Hf. apply f64_add_finite_inv in Hf as [Hx Hf].
  apply f64_add_finite_inv in Hf as [Hy Hz]. split_and!; by apply f64_mul_self_finite_inv.
Qed.

Section RouteFacts.
Context {E : EigenOps}.

(** ** The construction invariant *)

Definition segment_wf (s : RouteSegment) : Prop :=
  isfinite (rs_start_arc_m s) = true /\ isfinite (rs_length_m s) = true /\
  isfinite (rs_end_arc_m s) = true /\
  rs_end_arc_m s = f64_add (rs_start_arc_m s) (rs_length_m s) /\
  fgt (rs_length_m s) kMinimumSegmentLengthM = true /\
  flt (rs_start_arc_m s) (rs_end_arc_m s) = true.

(** The segments cover the arcs from [a] to [b] without a gap. *)
Fixpoint chain (a : f64) (segments : list RouteSegment) (b : f64) : Prop :=
  match segments with
  | [] => a = b
  | s :: rest => rs_start_arc_m s = a /\ segment_wf s /\ chain (rs_end_arc_m s) rest b
  end.

(** A segment joins the waypoints its indices name, at their arcs. *)
Definition segment_joins (waypoints : list MissionWaypoint) (arcs : list f64) (s : RouteSegment)
    : Prop :=
  exists j w w', rs_start_waypoint_index s = Z.of_nat j /\
    rs_end_waypoint_index s = Z.of_nat (S j) /\
    waypoints !! j = Some w /\ waypoints !! S j = Some w' /\
    arcs !! j = Some (rs_start_arc_m s) /\ arcs !! S j = Some (rs_end_arc_m s) /\
    rs_start s = w_position_enu w /\ rs_end s = w_position_enu w' /\
    rs_length_m s = v_norm (v_sub (w_position_enu w') (w_position_enu w)) /\
    rs_tangent s = v_div (v_sub (w_position_enu w') (w_position_enu w)) (rs_length_m s).

(** Every leg long enough to have a direction has its segment. *)
Definition legs_covered (waypoints : list MissionWaypoint) (segments : list RouteSegment) : Prop :=
  forall j w w', waypoints !! j = Some w -> waypoints !! S j = Some w' ->
  fgt (v_norm (v_sub (w_position_enu w') (w_position_enu w))) kMinimumSegmentLengthM = true ->
  exists s, s ∈ segments /\ rs_start_waypoint_index s = Z.of_nat j.

Record route_parts (waypoints : list MissionWaypoint) (segments : list RouteSegment)
    (arcs : list f64) (total : f64) : Prop := {
  rw_chain : chain fzero segments total;
  rw_arcs : length arcs = length waypoints;
  rw_first : head arcs = match waypoints with [] => None | _ => Some fzero end;
  rw_last : last arcs = match waypoints with [] => None | _ => Some total end;
  rw_joins : Forall (segment_joins waypoints arcs) segments;
  rw_covered : legs_covered waypoints segments;
  rw_total : isfinite total = true;
  rw_geometry : Forall (fun w => waypoint_geometry_ok w = true) waypoints
}.

Definition route_wf (r : RouteProgress) : Prop :=
  route_parts (rp_waypoints r) (rp_segments r) (rp_waypoint_arc_lengths r) (rp_total_length_m r).

Lemma chain_snoc a segments b s :
  chain a segments b -> rs_start_arc_m s = b -> segment_wf s ->
  chain a (segments ++ [s]) (rs_end_arc_m s).
Proof.
  revert a; induction segments as [|s' rest IH]; intros a; simpl.
  - by intros -> -> ?.
  - intros (?&?&?) ? ?. eauto.
Qed.

Lemma segment_joins_snoc waypoints arcs w arc s :
  segment_joins waypoints arcs s -> segment_joins (waypoints ++ [w]) (arcs ++ [arc]) s.
Proof.
  intros (j & w1 & w2 & H1 & H2 & H3 & H4 & H5 & H6 & H7). exists j, w1, w2.
  rewrite !(lookup_app_l_Some _ _ _ _ H3), !(lookup_app_l_Some _ _ _ _ H4),
    !(lookup_app_l_Some _ _ _ _ H5), !(lookup_app_l_Some _ _ _ _ H6). done.
Qed.

Lemma legs_covered_snoc waypoints segments segments' prev w :
  last waypoints = Some prev -> legs_covered waypoints segments ->
  (forall s, s ∈ segments -> s ∈ segments') ->
  (fgt (v_norm (v_sub (w_position_enu w) (w_position_enu prev))) kMinimumSegmentLengthM = true ->
   exists s, s ∈ segments' /\ rs_start_waypoint_index s = Z.of_nat (length waypoints) - 1) ->
  legs_covered (waypoints ++ [w]) segments'.
Proof.
  intros Hlast Hc Hsub Hnew j w1 w2 H1 H2 Hlong.
  assert (Hlen := lookup_lt_Some _ _ _ H2). rewrite length_app in Hlen. simpl in Hlen.
  destruct (decide (S j < length waypoints)%nat).
  - rewrite lookup_app_l in H1, H2 by lia. destruct (Hc j w1 w2 H1 H2 Hlong) as (s & ? & ?).
    exists s. auto.
  - assert (S j = length waypoints) as Hj by lia. rewrite Hj, list_lookup_middle in H2 by done.
    rewrite lookup_app_l in H1 by lia. rewrite last_lookup in Hlast. simplify_eq.
    replace (Nat.pred (length waypoints)) with j in Hlast by lia. simplify_eq.
    destruct (Hnew Hlong) as (s & ? & ?). exists s. split; [done|]. lia.
Qed.

(** ** Construction *)

Lemma make_segment_some index prev w total length_m s :
  make_segment index prev w total length_m = Some s ->
  isfinite total = true -> isfinite length_m = true ->
  fgt length_m kMinimumSegmentLengthM = true ->
  segment_wf s /\ rs_start_arc_m s = total /\ rs_start_waypoint_index s = index - 1 /\
  rs_end_waypoint_index s = index /\ rs_length_m s = length_m /\
  rs_start s = w_position_enu prev /\ rs_end s = w_position_enu w /\
  rs_tangent s = v_div (v_sub (w_position_enu w) (w_position_enu prev)) length_m.
Proof.
  unfold make_segment. destruct (_ || fle _ total) eqn:Hg; [done|]. intros [= <-] Ht Hl Hlong.
  apply orb_false_iff in Hg as [Hfin Hle]. apply negb_false_iff in Hfin.
  simpl. unfold segment_wf; simpl. split_and!; auto.
  destruct (flt total (f64_add total length_m)) eqn:Hlt; [done|].
  rewrite (proj2 (fle_negb_flt (f64_add total length_m) total)) in Hle; [done|].
  split_and!; eauto with nav.
Qed.

(** One more waypoint, with or without a segment to it. *)
Lemma route_parts_short waypoints segments arcs total prev w :
  last waypoints = Some prev -> route_parts waypoints segments arcs total ->
  waypoint_geometry_ok w = true ->
  fgt (v_norm (v_sub (w_position_enu w) (w_position_enu prev))) kMinimumSegmentLengthM = false ->
  route_parts (waypoints ++ [w]) segments (arcs ++ [total]) total.
Proof.
  intros Hlast [] Hg Hshort. assert (waypoints <> []) by (by intros ->). constructor; auto.
  - rewrite !length_app. simpl. lia.
  - destruct waypoints, arcs; done.
  - rewrite last_snoc. by destruct waypoints.
  - eapply Forall_impl; [done|]. intros s. apply segment_joins_snoc.
  - eapply legs_covered_snoc; eauto. intros Hl. congruence.
  - apply Forall_app; auto.
Qed.

Lemma route_parts_long waypoints segments arcs total prev w s :
  last waypoints = Some prev -> route_parts waypoints segments arcs total ->
  waypoint_geometry_ok w = true ->
  isfinite (v_norm (v_sub (w_position_enu w) (w_position_enu prev))) = true ->
  fgt (v_norm (v_sub (w_position_enu w) (w_position_enu prev))) kMinimumSegmentLengthM = true ->
  make_segment (Z.of_nat (length waypoints)) prev w total
    (v_norm (v_sub (w_position_enu w) (w_position_enu prev))) = Some s ->
  route_parts (waypoints ++ [w]) (segments ++ [s]) (arcs ++ [rs_end_arc_m s]) (rs_end_arc_m s).
Proof.
  intros Hlast [Hc Hal Hfa Hla Hj Hcv Ht Hgs] Hg Hfin Hlong Hs.
  destruct (make_segment_some _ _ _ _ _ _ Hs Ht Hfin Hlong)
    as (Hwf & Harc & Hsi & Hei & Hlen & Hstart & Hend & Htan).
  assert (Hne : waypoints <> []) by (by intros ->).
  assert (Hpos : (0 < length waypoints)%nat) by (destruct waypoints; simpl; [done|lia]).
  rewrite last_lookup in Hlast.
  constructor.
  - by eapply chain_snoc.
  - rewrite !length_app. simpl. lia.
  - destruct waypoints, arcs; done.
  - rewrite last_snoc. by destruct waypoints.
  - apply Forall_app; split.
    { eapply Forall_impl; [done|]. intros s'. apply segment_joins_snoc. }
    constructor; [|constructor]. exists (Nat.pred (length waypoints)), prev, w.
    replace (S (Nat.pred (length waypoints))) with (length waypoints) by lia.
    split_and!; try done; try lia.
    + by apply lookup_app_l_Some.
    + by rewrite list_lookup_middle.
    + rewrite Harc. apply lookup_app_l_Some. rewrite last_lookup, Hal in Hla.
      by destruct waypoints.
    + by rewrite list_lookup_middle.
    + by rewrite Hlen.
  - apply (legs_covered_snoc _ segments _ prev); auto.
    + by rewrite last_lookup.
    + intros s' ?. apply elem_of_app; auto.
    + intros _. exists s. split; [apply elem_of_app; right; constructor|]. by rewrite Hsi.
  - by destruct Hwf as (_&_&?&_).
  - apply Forall_app; auto.
Qed.

Lemma build_route_wf rest waypoints segments arcs total segments' arcs' total' :
  route_parts waypoints segments arcs total -> (waypoints = [] -> total = fzero) ->
  build_route (Z.of_nat (length waypoints)) (last waypoints) rest segments arcs total
    = Some (segments', arcs', total') ->
  route_parts (waypoints ++ rest) segments' arcs' total'.
Proof.
  revert waypoints segments arcs total; induction rest as [|w rest IH];
    intros waypoints segments arcs total Hp Hz; simpl.
  { intros [= <- <- <-]. by rewrite app_nil_r. }
  destruct (waypoint_geometry_ok w) eqn:Hg; simpl; [|done].
  assert (Hstep : forall segs' arc total2,
    route_parts (waypoints ++ [w]) segs' (arcs ++ [arc]) total2 ->
    build_route (Z.of_nat (length waypoints) + 1) (Some w) rest segs' (arcs ++ [arc]) total2
      = Some (segments', arcs', total') ->
    route_parts (waypoints ++ w :: rest) segments' arcs' total').
  { intros segs' arc total2 Hp2 Hb. rewrite (cons_middle w waypoints rest), (assoc app).
    eapply (IH _ segs' (arcs ++ [arc]) total2 Hp2); [by destruct waypoints|].
    rewrite last_snoc, length_app, Nat2Z.inj_add. exact Hb. }
  destruct (last waypoints) as [prev|] eqn:Hlast.
  - destruct (isfinite (v_norm _)) eqn:Hfin; simpl; [|done].
    destruct (fgt (v_norm _) _) eqn:Hlong.
    + destruct (make_segment _ _ _ _ _) as [s|] eqn:Hs; [|done].
      apply Hstep. by eapply route_parts_long.
    + apply Hstep. by eapply route_parts_short.
  - apply last_None in Hlast as ->. apply Hstep. rewrite Hz by done. simpl.
    destruct Hp as [Hc Hal _ _ Hj _ _ _]. destruct arcs; [|done]. rewrite Hz in Hc by done.
    assert (segments = []) as ->.
    { destruct segments as [|s ?]; [done|]. apply Forall_cons in Hj as [(j&?&?&_&_&Hw&_) _].
      by rewrite lookup_nil in Hw. }
    constructor; try done. by constructor.
Qed.

Lemma RouteProgress_make_wf mission tolerance r :
  RouteProgress_make mission tolerance = Some r ->
  route_wf r /\ rp_waypoints r = m_waypoints mission /\ rp_waypoints r <> [] /\
  rp_state r = RouteProgressState_default /\ Mission_valid mission = true /\
  isfinite (rp_backtrack_tolerance_m r) = true.
Proof.
  unfold RouteProgress_make. destruct (Mission_valid mission) eqn:Hv; simpl; [|done].
  destruct (_ || flt tolerance fzero) eqn:Ht; [done|].
  destruct (build_route _ _ _ _ _ _) as [[[segments arcs] total]|] eqn:Hb; [|done].
  intros [= <-]. apply orb_false_iff in Ht as [Ht _]. apply negb_false_iff in Ht.
  split_and!; simpl; auto.
  - apply (build_route_wf (m_waypoints mission) [] [] [] fzero); try done.
  - apply Mission_valid_waypoints in Hv as [[Hv _] _]. by destruct (m_waypoints mission).
Qed.

(** ** Bisection by arc length *)

Lemma chain_bounds a segments b :
  chain a segments b -> isfinite a = true ->
  fle a b = true /\
  (forall i s, segments !! i = Some s ->
     fle a (rs_start_arc_m s) = true /\ fle (rs_end_arc_m s) b = true).
Proof.
  revert a; induction segments as [|s rest IH]; intros a; simpl.
  { intros <- Ha. split; [by apply fle_refl, isfinite_not_nan|done]. }
  intros (<- & (Hfs & Hl & Hfe & He & Hlong & Hlt) & Hc) Ha. destruct (IH _ Hc Hfe) as [Hb Hin].
  apply flt_fle in Hlt. split; [by eapply fle_trans'|].
  intros [|i] s'; simpl.
  - intros [= <-]. split; [by apply fle_refl, isfinite_not_nan|done].
  - intros [Hs ?]%Hin. split; [|done]. by eapply fle_trans'.
Qed.

Lemma chain_app a l1 l2 b : chain a (l1 ++ l2) b <-> exists m, chain a l1 m /\ chain m l2 b.
Proof.
  revert a; induction l1 as [|s l1 IH]; intros a; simpl.
  - split; [eauto|by intros (? & <- & ?)].
  - rewrite IH. naive_solver.
Qed.

(** Element [i] of a chain: the prefix ends at its start, the suffix begins
    at its end. *)
Lemma chain_split a segments b i s :
  chain a segments b -> segments !! i = Some s ->
  chain a (take i segments) (rs_start_arc_m s) /\ segment_wf s /\
  chain (rs_end_arc_m s) (drop (S i) segments) b.
Proof.
  intros Hc Hs. rewrite <- (take_drop_middle segments i s Hs) in Hc.
  apply chain_app in Hc as (m & Hc & (<- & ? & ?)). done.
Qed.

Lemma chain_partitioned a segments b v :
  chain a segments b -> isfinite a = true -> partitioned (ends_before v) segments.
Proof.
  intros Hc Ha i j x y Hij Hx Hy. unfold ends_before. intros Hlt.
  destruct (decide (i = j)) as [->|]; [naive_solver|].
  destruct (chain_split _ _ _ _ _ Hc Hx) as (_ & (Hsx & _ & Hex & _) & Hrest).
  assert (drop (S i) segments !! (j - S i)%nat = Some y) as Hy'.
  { rewrite lookup_drop. rewrite <- Hy. f_equal. lia. }
  destruct (chain_split _ _ _ _ _ Hrest Hy') as (Hmid & (_ & _ & _ & _ & _ & Hyy) & _).
  pose proof (proj1 (chain_bounds _ _ _ Hmid Hex)) as Hxy.
  eapply fle_flt_trans; [exact Hxy|]. by eapply flt_trans.
Qed.

(** The start of segment [i] of a chain is the start of the chain or the end of
    segment [i - 1]. *)
Lemma chain_predecessor a segments b i s :
  chain a segments b -> segments !! S i = Some s ->
  exists p, segments !! i = Some p /\ rs_end_arc_m p = rs_start_arc_m s.
Proof.
  intros Hc Hs. destruct (lookup_lt_is_Some_2 segments i) as [p Hp].
  { apply lookup_lt_Some in Hs. lia. }
  exists p. split; [done|]. destruct (chain_split _ _ _ _ _ Hc Hp) as (_ & _ & Hrest).
  rewrite (drop_S segments s (S i) Hs) in Hrest. by destruct Hrest.
Qed.

(** The bisection finds the segment whose half-open arc range holds the
    clamped arc. *)
Lemma chain_search segments total v :
  chain fzero segments total -> segments <> [] -> fle v total = true ->
  exists i s, lower_bound (ends_before v) segments = i /\ segments !! i = Some s /\
    fle v (rs_end_arc_m s) = true /\ (i = O \/ flt (rs_start_arc_m s) v = true).
Proof.
  intros Hc Hne Hv. set (i := lower_bound (ends_before v) segments).
  pose proof (chain_partitioned _ _ _ v Hc eq_refl) as Hp.
  destruct (lower_bound_spec _ _ Hp) as (Hle & Hlo & Hhi). fold i in Hle, Hlo, Hhi.
  pose proof (fle_not_nan _ _ Hv) as [Nv _].
  assert (Hi : (i < length segments)%nat).
  { destruct (decide (i = length segments)) as [Hi|]; [|lia]. exfalso.
    destruct (last segments) as [s|] eqn:Hlast; [|by apply last_None in Hlast].
    rewrite last_lookup in Hlast.
    assert (0 < length segments)%nat by (destruct segments; simpl; [done|lia]).
    pose proof (Hlo _ s ltac:(rewrite Hi; instantiate (1 := Nat.pred (length segments)); lia) Hlast)
      as Hlt.
    destruct (chain_split _ _ _ _ _ Hc Hlast) as (_ & _ & Hrest).
    rewrite drop_ge in Hrest by lia. simpl in Hrest. unfold ends_before in Hlt. rewrite Hrest in Hlt.
    apply fle_negb_flt in Hv as (_ & _ & Hv). congruence. }
  destruct (lookup_lt_is_Some_2 segments i Hi) as [s Hs]. exists i, s. split_and!; auto.
  - pose proof (Hhi i s ltac:(lia) Hs) as Hge. unfold ends_before in Hge.
    apply fle_negb_flt. split_and!; auto.
    destruct (chain_split _ _ _ _ _ Hc Hs) as (_ & (_ & _ & He & _) & _). by apply isfinite_not_nan.
  - clearbody i. destruct i as [|i]; [by left|right].
    destruct (chain_predecessor _ _ _ _ _ Hc Hs) as (p & Hpp & <-).
    apply (Hlo i p ltac:(lia) Hpp).
Qed.

Lemma route_total_nonneg r : route_wf r -> fle fzero (rp_total_length_m r) = true.
Proof. intros []. by apply (chain_bounds _ _ _ rw_chain0). Qed.

Lemma arc_usable r arc : route_wf r -> arc_unusable r arc = negb (isfinite arc).
Proof.
  intros Hw. unfold arc_unusable. rewrite (rw_total _ _ _ _ Hw).
  pose proof (route_total_nonneg r Hw) as (_ & _ & ->)%fle_negb_flt. by rewrite !orb_false_r.
Qed.

Lemma clampArc_range r arc :
  route_wf r -> isfinite arc = true ->
  fle fzero (clampArc arc (rp_total_length_m r)) = true /\
  fle (clampArc arc (rp_total_length_m r)) (rp_total_length_m r) = true.
Proof. intros Hw Ha. apply fclamp_range; [by apply isfinite_not_nan|by apply route_total_nonneg]. Qed.

Lemma at_index_nat {A} (l : list A) (i : nat) : at_index l (Z.of_nat i) = l !! i.
Proof. unfold at_index. rewrite (proj2 (Z.ltb_ge _ _)) by lia. by rewrite Nat2Z.id. Qed.

Lemma vec_size_zero {A} (l : list A) : (vec_size l =? 0) = true <-> l = [].
Proof. unfold vec_size. rewrite Z.eqb_eq. destruct l; simpl; split; intros; (done || lia). Qed.

Lemma vec_size_nonzero {A} (l : list A) : l <> [] -> (vec_size l =? 0) = false.
Proof. intros Hl. apply not_true_iff_false. by rewrite vec_size_zero. Qed.

Lemma segmentForArc_found r arc :
  route_wf r -> rp_segments r <> [] -> isfinite arc = true ->
  exists i s, segmentForArc r arc = Z.of_nat i /\ rp_segments r !! i = Some s /\
    fle (clampArc arc (rp_total_length_m r)) (rs_end_arc_m s) = true /\
    (i = O \/ flt (rs_start_arc_m s) (clampArc arc (rp_total_length_m r)) = true).
Proof.
  intros Hw Hne Ha. destruct (clampArc_range r arc Hw Ha) as [_ Hle].
  destruct (chain_search _ _ _ (rw_chain _ _ _ _ Hw) Hne Hle) as (i & s & Hi & Hs & Hend & Hstart).
  exists i, s. split_and!; auto. unfold segmentForArc.
  rewrite arc_usable, Ha, vec_size_nonzero by done.
  simpl. rewrite Hi. apply lookup_lt_Some in Hs. unfold vec_size.
  by rewrite (proj2 (Z.eqb_neq _ _)) by lia.
Qed.

(** ** Progress along the route *)

(** The arc of a projection is a number. *)
Definition projection_sound (p : RouteProjection) : Prop := isnan (pj_arc_length_m p) = false.

Lemma f64_add_number x y : isfinite x = true -> isnan y = false -> isnan (f64_add x y) = false.
Proof.
  intros Hx Hy. destruct (isfinite y) eqn:Fy; [by apply f64_add_not_nan|].
  by destruct y; destruct x.
Qed.

Lemma projection_on_sound index s fraction lateral :
  segment_wf s -> isfinite fraction = true ->
  projection_sound (projection_on index s fraction lateral).
Proof.
  intros (Hs & Hl & _) Hf. apply f64_add_number; [done|]. by apply f64_mul_not_nan.
Qed.

Lemma unit_fraction_finite raw : isnan raw = false -> isfinite (fclamp raw fzero lit_1) = true.
Proof. intros. by apply fclamp_finite. Qed.

Lemma project_loop_sound position index segments best result :
  Forall segment_wf segments -> projection_sound result ->
  projection_sound (project_loop position index segments best result).
Proof.
  intros Hs. revert index best result; induction Hs as [|s segments Hw Hs IH];
    intros index best result Hr; simpl; [done|].
  destruct (isfinite (raw_fraction s position)) eqn:Hraw; simpl; [|by apply IH].
  destruct (_ || fge _ best); apply IH; [done|].
  apply projection_on_sound; [done|]. by apply unit_fraction_finite, isfinite_not_nan.
Qed.

Lemma chain_Forall_wf a segments b : chain a segments b -> Forall segment_wf segments.
Proof.
  revert a; induction segments; intros ?; simpl; [constructor|].
  intros (?&?&?). constructor; eauto.
Qed.

Lemma project_sound r position : route_wf r -> projection_sound (project r position).
Proof.
  intros Hw. unfold project. destruct (rp_waypoints r) as [|front ?]; [done|].
  destruct (v_allFinite position); simpl; [|done].
  pose proof (chain_Forall_wf _ _ _ (rw_chain _ _ _ _ Hw)) as Hf.
  destruct (rp_segments r) eqn:Hs.
  - by destruct (isfinite _).
  - by apply (project_loop_sound position 0 (_ :: _)).
Qed.

Lemma segment_point_nan position s :
  EigenArith E -> isfinite (v_norm (v_sub position (segment_point s fnan))) = false.
Proof.
  intros HE. apply not_true_iff_false. intros (Hx & _)%v_norm_finite.
  unfold segment_point in Hx. rewrite v_sub_spec, v_add_spec, v_scale_spec in Hx. simpl in Hx.
  apply f64_sub_finite_inv in Hx as [_ [_ Hx]%f64_add_finite_inv].
  unfold fnan in Hx. by rewrite f64_mul_nan_l in Hx.
Qed.

Lemma ordered_branch_sound r position p :
  EigenArith E -> route_wf r -> projection_sound p ->
  projection_sound (ordered_branch r position p).
Proof.
  intros HE Hw Hp. unfold ordered_branch.
  destruct (ps_valid _ && _ && _ && _); [|done].
  destruct (at_index _ _) as [s|] eqn:Hs; [|done].
  destruct (isfinite _) eqn:Hd; simpl; [|done]. destruct (fle _ _); [|done].
  apply projection_on_sound.
  - pose proof (chain_Forall_wf _ _ _ (rw_chain _ _ _ _ Hw)) as Hf.
    unfold at_index in Hs. destruct (_ <? 0); [done|]. by eapply Forall_lookup_1.
  - apply unit_fraction_finite. destruct (raw_fraction s position) eqn:Hr; try done.
    rewrite fclamp_nan in Hd. by rewrite segment_point_nan in Hd.
Qed.

Lemma tie_candidate_sound position previous best index s best_arc p d c :
  segment_wf s -> tie_candidate position previous best index s best_arc p = Some (d, c) ->
  projection_sound c.
Proof.
  intros Hw. unfold tie_candidate.
  destruct (isfinite (raw_fraction s position)) eqn:Hraw; simpl; [|done].
  destruct (_ || fgt _ _); [done|]. destruct (_ && negb _); [done|]. intros [= <- <-].
  apply projection_on_sound; [done|]. by apply unit_fraction_finite, isfinite_not_nan.
Qed.

Lemma tie_loop_sound position previous best index segments best_arc p :
  Forall segment_wf segments -> projection_sound p ->
  projection_sound (tie_loop position previous best index segments best_arc p).
Proof.
  intros Hs. revert index best_arc p; induction Hs as [|s segments Hw Hs IH];
    intros index best_arc p Hp; simpl; [done|].
  destruct (tie_candidate _ _ _ _ _ _ _) as [[d c]|] eqn:Hc; apply IH; [|done].
  by eapply tie_candidate_sound.
Qed.

Lemma tie_break_sound r position p :
  route_wf r -> projection_sound p -> projection_sound (tie_break r position p).
Proof.
  intros Hw Hp. unfold tie_break. destruct (ps_valid _ && _); [|done].
  apply tie_loop_sound; [|done]. exact (chain_Forall_wf _ _ _ (rw_chain _ _ _ _ Hw)).
Qed.

(** The invariant of the measured progress. *)
Record progress_inv (r : RouteProgress) : Prop := {
  pi_wf : route_wf r;
  pi_number : isnan (ps_progress_arc_m (rp_state r)) = false;
  pi_projection : projection_sound (ps_projection (rp_state r));
  pi_ahead : ps_valid (rp_state r) = true ->
    fle (pj_arc_length_m (ps_projection (rp_state r))) (ps_progress_arc_m (rp_state r)) = true
}.

(** Progress once measured stays measured and never decreases. *)
Definition progress_le (r1 r2 : RouteProgress) : Prop :=
  r1 = r2 \/
  (ps_valid (rp_state r2) = true /\
   (ps_valid (rp_state r1) = true ->
    fle (ps_progress_arc_m (rp_state r1)) (ps_progress_arc_m (rp_state r2)) = true)).

#[export] Instance progress_le_preorder : PreOrder progress_le.
Proof.
  split; [by left|]. intros x y z [->|[Hy Hxy]] [<-|[Hz Hyz]]; unfold progress_le; auto.
  right. split; [done|]. intros Hx. eapply fle_trans'; eauto.
Qed.

Lemma update_inv r position :
  EigenArith E -> progress_inv r ->
  progress_inv (update r position) /\ progress_le r (update r position).
Proof.
  intros HE [Hw Hn Hp Ha]. unfold update.
  destruct (pj_valid (project r position)); simpl; [|by split; [constructor|left]].
  set (p := tie_break r position _).
  assert (Hps : projection_sound p).
  { by apply tie_break_sound, ordered_branch_sound, project_sound. }
  split.
  - constructor; simpl; auto.
    + destruct (ps_valid (rp_state r)); auto with nav.
    + intros _. destruct (ps_valid (rp_state r)); [by apply fmax_ge_r|by apply fle_refl].
  - right; simpl. split; [done|]. intros ->. by apply fmax_ge_l.
Qed.

(** ** Properties *)

(** A [RouteProgress] whose constructor returns holds a gap-free arc
    parametrisation of its mission: segments chain from arc 0 to the total
    length with strictly increasing finite ends, each joins two consecutive
    waypoints at their recorded arcs with the leg's own length and direction,
    every leg longer than a nanometre has its segment, the arcs of the
    waypoints start at 0 and end at the total, and no progress is measured. *)
Theorem route_construction_sound (mission : Mission) (tolerance : f64) (r : RouteProgress) :
  RouteProgress_make mission tolerance = Some r ->
  route_wf r /\ rp_waypoints r = m_waypoints mission /\ rp_waypoints r <> [] /\
  ps_valid (rp_state r) = false.
Proof.
  intros Hr. apply RouteProgress_make_wf in Hr as (Hw & Hm & Hne & Hs & _). by rewrite Hs.
Qed.

(** On a constructed route every finite arc has a point, and the bisection
    of [segmentForArc] returns the one segment whose arc range, open at its
    start, holds the arc clamped to the route. *)
Theorem arc_lookup_exact (mission : Mission) (tolerance : f64) (r : RouteProgress) (arc : f64) :
  RouteProgress_make mission tolerance = Some r -> isfinite arc = true ->
  let clamped := clampArc arc (rp_total_length_m r) in
  is_Some (RouteProgress_pointAtArc r arc) /\
  (rp_segments r <> [] ->
   exists i s, segmentForArc r arc = Z.of_nat i /\ rp_segments r !! i = Some s /\
     fle clamped (rs_end_arc_m s) = true /\ (i = O \/ flt (rs_start_arc_m s) clamped = true)).
Proof.
  intros (Hw & _ & Hne & _)%RouteProgress_make_wf Ha clamped.
  split; [|intros Hs; by apply segmentForArc_found].
  unfold RouteProgress_pointAtArc. rewrite arc_usable, Ha by done. simpl.
  destruct (rp_waypoints r) as [|front ?]; [done|].
  destruct (vec_size (rp_segments r) =? 0) eqn:Hz; [by eexists|].
  destruct (segmentForArc_found r arc Hw) as (i & s & -> & Hs & _); [|done|].
  { intros Hs. by rewrite Hs in Hz. }
  rewrite at_index_nat, Hs. by eexists.
Qed.

(** Measured progress is monotone: over any further measurements [qs] the
    state stays valid, the reported arc never decreases and is never behind the
    arc of the projection it reports with. *)
Theorem route_progress_monotone (HE : EigenArith E) (mission : Mission) (tolerance : f64)
    (r : RouteProgress) (ps qs : list vec3) :
  RouteProgress_make mission tolerance = Some r ->
  let r1 := run update r ps in
  let r2 := run update r1 qs in
  ps_valid (rp_state r1) = true ->
  ps_valid (rp_state r2) = true /\
  fle (ps_progress_arc_m (rp_state r1)) (ps_progress_arc_m (rp_state r2)) = true /\
  fle (pj_arc_length_m (ps_projection (rp_state r2))) (ps_progress_arc_m (rp_state r2)) = true.
Proof.
  intros (Hw & _ & _ & Hs & _)%RouteProgress_make_wf r1 r2 Hv.
  assert (progress_inv r) as Hi by (constructor; rewrite ?Hs; done).
  assert (Hi1 : progress_inv r1) by (apply run_invariant; [done|]; intros; by apply update_inv).
  assert (Hi2 : progress_inv r2) by (apply run_invariant; [done|]; intros; by apply update_inv).
  assert (progress_le r1 r2) as [Heq|[Hv2 Hle]].
  { apply (run_preorder_inv update progress_inv progress_le); try done; try apply _.
    - intros; by apply update_inv.
    - intros; by apply update_inv. }
  - rewrite <- Heq. destruct Hi1 as [_ Hn _ Ha]. split_and!; auto. by apply fle_refl.
  - split_and!; auto. by apply (pi_ahead _ Hi2).
Qed.
End RouteFacts.

(** ** Witnesses: an L-shaped mission, and one that returns on itself *)

Definition demo_waypoint (id : string) (x y z : Z) (behavior : Behavior) : MissionWaypoint :=
  mkWaypoint id (Vec3 (f64_of_Z x) (f64_of_Z y) (f64_of_Z z)) (f64_lit 1 2) fzero behavior.

Definition demo_mission : Mission :=
  mkMission 1 "demo" "map"
    [demo_waypoint "a" 0 0 1 PassThrough; demo_waypoint "b" 4 0 1 PassThrough;
     demo_waypoint "c" 4 3 1 Stop]
    (f64_of_Z 1) kRequireKnownFree (f64_lit 15 100) (f64_lit 1 2).

Definition demo_route : RouteProgress :=
  Eval vm_compute in
    default (mkRouteProgress [] [] [] fzero RouteProgressState_default fzero)
      (RouteProgress_make (E := eigen_reference) demo_mission kDefaultBacktrackToleranceM).

Definition demo_position (x y : Z) : vec3 := Vec3 (f64_lit x 10) (f64_lit y 10) (f64_of_Z 1).

Lemma route_construction_sound_witness :
  RouteProgress_make (E := eigen_reference) demo_mission kDefaultBacktrackToleranceM
    = Some demo_route /\
  length (rp_segments demo_route) = 2%nat /\
  route_wf (E := eigen_reference) demo_route /\
  ps_valid (rp_state demo_route) = false.
Proof.
  assert (H : RouteProgress_make (E := eigen_reference) demo_mission kDefaultBacktrackToleranceM
    = Some demo_route) by (vm_compute; reflexivity).
  destruct (route_construction_sound (E := eigen_reference) _ _ _ H) as (Hw & _ & _ & Hv).
  split; [exact H|split; [reflexivity|split; [exact Hw|exact Hv]]].
Defined.

Lemma arc_lookup_exact_witness :
  segmentForArc demo_route (f64_of_Z 5) = 1 /\
  is_Some (RouteProgress_pointAtArc (E := eigen_reference) demo_route (f64_of_Z 5)).
Proof.
  split; [vm_compute; reflexivity|].
  apply (arc_lookup_exact (E := eigen_reference) demo_mission kDefaultBacktrackToleranceM);
    vm_compute; reflexivity.
Defined.

(** Advance along both legs, then fall back by a metre. *)
Lemma route_progress_monotone_witness :
  let r1 := run (update (E := eigen_reference)) demo_route [demo_position 10 2] in
  let r2 := run (update (E := eigen_reference)) r1 [demo_position 40 20; demo_position 40 10] in
  ps_backtracking_exceeded (rp_state r2) = true /\
  ps_progress_arc_m (rp_state r2) = f64_of_Z 6 /\
  fle (ps_progress_arc_m (rp_state r1)) (ps_progress_arc_m (rp_state r2)) = true.
Proof.
  split; [vm_compute; reflexivity|split; [vm_compute; reflexivity|]].
  refine (proj1 (proj2 (route_progress_monotone (E := eigen_reference) eigen_reference_arith
    demo_mission kDefaultBacktrackToleranceM demo_route [demo_position 10 2]
    [demo_position 40 20; demo_position 40 10] _ _))).
  - vm_compute; reflexivity.
  - vm_compute; reflexivity.
Defined.
