(* ===== verification/LioTime.v ===== *)
(** * Time and status of the estimation core

    [estimation/fast_lio_core]: [common/status.hpp], [common/result.hpp],
    [time/clock_domain.hpp], [time/duration], [time/timestamp] and
    [time/timestamp_validator].  A timestamp is an [int64] count of nanoseconds
    with the clock it was read from; every operation on two of them checks the
    clocks and the overflow first. *)

From S2P Require Import Prelude.

(** [enum class StatusCode]; the message of a [Status] is not kept. *)
Inductive StatusCode : Type :=
| kOk
| kInvalidArgument
| kOutOfRange
| kClockDomainMismatch
| kTimestampRegression
| kBufferFull
| kNotReady
| kInsufficientData
| kNumericalFailure
| kFrameMismatch
| kInitializationRejected
| kDeskewRejected
| kOverlappingLidarInterval
| kImuGap
| kMissingStartBracket
| kMissingEndBracket
| kTransportMessageLoss.

#[export] Instance StatusCode_eq_dec : EqDecision StatusCode.
Proof. solve_decision. Defined.

(** [Status::ok] *)
Definition status_ok (s : StatusCode) : bool := s ==? kOk.

(** [Result<T>]: a value, or a status that is not [kOk] (the constructor from
    a [Status] throws on [kOk]; the source only calls it with error codes). *)
Inductive Result (A : Type) : Type :=
| Value (a : A)
| Error (s : StatusCode).
Arguments Value {A} a.
Arguments Error {A} s.

(** [Result::status] *)
Definition result_status {A} (r : Result A) : StatusCode :=
  match r with Value _ => kOk | Error s => s end.

Definition result_bind {A B} (r : Result A) (k : A -> Result B) : Result B :=
  match r with Value a => k a | Error s => Error s end.

(** ** Clock domains *)

Inductive ClockDomain : Type :=
| kRosTime
| kSimulationTime
| kSensorTime
| kSystemTime
| kSteadyTime.

#[export] Instance ClockDomain_eq_dec : EqDecision ClockDomain.
Proof. solve_decision. Defined.

(** [toString] *)
Definition clock_domain_name (d : ClockDomain) : string :=
  match d with
  | kRosTime => "ros_time"
  | kSimulationTime => "simulation_time"
  | kSensorTime => "sensor_time"
  | kSystemTime => "system_time"
  | kSteadyTime => "steady_time"
  end.

(** ** Durations and timestamps *)

(** [class Duration]: an [int64] of nanoseconds. *)
Record Duration : Type := mkDuration { dur_ns : Z }.

(** [class Timestamp] *)
Record Timestamp : Type := mkTimestamp { ts_ns : Z; ts_clock : ClockDomain }.

#[export] Instance Timestamp_eq_dec : EqDecision Timestamp.
Proof. solve_decision. Defined.

(** The default constructor. *)
Definition timestamp_zero : Timestamp := mkTimestamp 0 kRosTime.

Definition sameClockDomain (a b : Timestamp) : bool := ts_clock a ==? ts_clock b.

(** A timestamp whose count fits its type. *)
Definition ts_wf (t : Timestamp) : Prop := is_i64 (ts_ns t).
Definition dur_wf (d : Duration) : Prop := is_i64 (dur_ns d).

(** The guards are evaluated in [int64]; none of their own sums can overflow
    ([rhs > 0] bounds [max - rhs], and so on), so [Z] arithmetic is theirs. *)
Definition additionOverflows (lhs rhs : Z) : bool :=
  ((0 <? rhs) && (i64_max - rhs <? lhs)) || ((rhs <? 0) && (lhs <? i64_min - rhs)).

Definition checkedAddDuration (lhs rhs : Duration) : Result Duration :=
  if additionOverflows (dur_ns lhs) (dur_ns rhs) then Error kOutOfRange
  else Value (mkDuration (dur_ns lhs + dur_ns rhs)).

Definition subtractionOverflows (lhs rhs : Z) : bool :=
  ((0 <? rhs) && (lhs <? i64_min + rhs)) || ((rhs <? 0) && (i64_max + rhs <? lhs)).

Definition checkedSubtractDuration (lhs rhs : Duration) : Result Duration :=
  if subtractionOverflows (dur_ns lhs) (dur_ns rhs) then Error kOutOfRange
  else Value (mkDuration (dur_ns lhs - dur_ns rhs)).

Definition checkedDifference (lhs rhs : Timestamp) : Result Duration :=
  if negb (sameClockDomain lhs rhs) then Error kClockDomainMismatch
  else if ((ts_ns rhs <? 0) && (i64_max + ts_ns rhs <? ts_ns lhs))
          || ((0 <? ts_ns rhs) && (ts_ns lhs <? i64_min + ts_ns rhs))
       then Error kOutOfRange
       else Value (mkDuration (ts_ns lhs - ts_ns rhs)).

Definition checkedAdd (timestamp : Timestamp) (duration : Duration) : Result Timestamp :=
  result_bind (checkedAddDuration (mkDuration (ts_ns timestamp)) duration)
    (fun sum => Value (mkTimestamp (dur_ns sum) (ts_clock timestamp))).

Definition checkedSubtract (timestamp : Timestamp) (duration : Duration) : Result Timestamp :=
  result_bind (checkedSubtractDuration (mkDuration (ts_ns timestamp)) duration)
    (fun difference => Value (mkTimestamp (dur_ns difference) (ts_clock timestamp))).

(** -1, 0 or 1 as the source returns them. *)
Definition checkedCompare (lhs rhs : Timestamp) : Result Z :=
  if negb (sameClockDomain lhs rhs) then Error kClockDomainMismatch
  else if ts_ns lhs <? ts_ns rhs then Value (-1)
  else if ts_ns rhs <? ts_ns lhs then Value 1
  else Value 0.

(** ** Timestamp validator *)

Record TimestampValidatorConfig : Type := mkTimestampValidatorConfig {
  tvc_expected_clock_domain : option ClockDomain;
  tvc_reject_regression : bool;
  tvc_allow_equal_timestamps : bool
}.

Record TimestampValidator : Type := mkTimestampValidator {
  tv_config : TimestampValidatorConfig;
  tv_last_timestamp : option Timestamp;
  tv_regression_count : Z;
  tv_clock_mismatch_count : Z
}.

(** The constructor *)
Definition validator_new (config : TimestampValidatorConfig) : TimestampValidator :=
  mkTimestampValidator config None 0 0.

Definition count_clock_mismatch (v : TimestampValidator) : TimestampValidator :=
  mkTimestampValidator (tv_config v) (tv_last_timestamp v) (tv_regression_count v)
    (u64_inc (tv_clock_mismatch_count v)).

Definition count_regression (v : TimestampValidator) : TimestampValidator :=
  mkTimestampValidator (tv_config v) (tv_last_timestamp v)
    (u64_inc (tv_regression_count v)) (tv_clock_mismatch_count v).

Definition accept_timestamp (v : TimestampValidator) (t : Timestamp) : TimestampValidator :=
  mkTimestampValidator (tv_config v) (Some t) (tv_regression_count v) (tv_clock_mismatch_count v).

Definition unexpected_clock (c : TimestampValidatorConfig) (t : Timestamp) : bool :=
  match tvc_expected_clock_domain c with
  | Some d => ts_clock t !=? d
  | None => false
  end.

(** [TimestampValidator::validate] *)
Definition tv_validate (v : TimestampValidator) (timestamp : Timestamp)
    : StatusCode * TimestampValidator :=
  let config := tv_config v in
  if unexpected_clock config timestamp then (kClockDomainMismatch, count_clock_mismatch v)
  else
    match tv_last_timestamp v with
    | None => (kOk, accept_timestamp v timestamp)
    | Some last =>
        if negb (sameClockDomain timestamp last) then
          (kClockDomainMismatch, count_clock_mismatch v)
        else
          let regressed := ts_ns timestamp <? ts_ns last in
          let repeated := ts_ns timestamp =? ts_ns last in
          if regressed || (repeated && negb (tvc_allow_equal_timestamps config)) then
            if tvc_reject_regression config || repeated then
              (kTimestampRegression, count_regression v)
            else (kOk, count_regression v)
          else (kOk, accept_timestamp v timestamp)
    end.

(** [TimestampValidator::reset] *)
Definition tv_reset (v : TimestampValidator) : TimestampValidator :=
  mkTimestampValidator (tv_config v) None 0 0.

(** ** Lemmas *)

Lemma sameClockDomain_true a b : sameClockDomain a b = true <-> ts_clock a = ts_clock b.
Proof. apply bool_decide_eq_true. Qed.

Lemma clock_domain_name_inj : Inj (=) (=) clock_domain_name.
Proof. by intros [] []. Qed.

(** The guards are exactly overflow: the checked operations return the
    mathematical result when it fits and an error when it does not. *)
Lemma checkedAddDuration_spec a b :
  dur_wf a -> dur_wf b ->
  checkedAddDuration a b =
    if bool_decide (is_i64 (dur_ns a + dur_ns b)) then Value (mkDuration (dur_ns a + dur_ns b))
    else Error kOutOfRange.
Proof.
  unfold dur_wf, is_i64, checkedAddDuration, additionOverflows, i64_max, i64_min.
  intros Ha Hb. case_bool_decide; destruct (_ || _) eqn:Hg; try done; exfalso; lia.
Qed.

Lemma checkedSubtractDuration_spec a b :
  dur_wf a -> dur_wf b ->
  checkedSubtractDuration a b =
    if bool_decide (is_i64 (dur_ns a - dur_ns b)) then Value (mkDuration (dur_ns a - dur_ns b))
    else Error kOutOfRange.
Proof.
  unfold dur_wf, is_i64, checkedSubtractDuration, subtractionOverflows, i64_max, i64_min.
  intros Ha Hb. case_bool_decide; destruct (_ || _) eqn:Hg; try done; exfalso; lia.
Qed.

Lemma checkedDifference_spec a b :
  ts_wf a -> ts_wf b -> ts_clock a = ts_clock b ->
  checkedDifference a b =
    if bool_decide (is_i64 (ts_ns a - ts_ns b)) then Value (mkDuration (ts_ns a - ts_ns b))
    else Error kOutOfRange.
Proof.
  unfold ts_wf, is_i64, checkedDifference, i64_max, i64_min. intros Ha Hb Hc.
  rewrite (proj2 (sameClockDomain_true a b) Hc). simpl.
  case_bool_decide; destruct (_ || _) eqn:Hg; try done; exfalso; lia.
Qed.

(** Non-negative counts cannot overflow: what the buffer's validated stamps
    satisfy. *)
Lemma checkedDifference_nonneg a b :
  0 <= ts_ns a -> 0 <= ts_ns b -> ts_wf a -> ts_wf b -> ts_clock a = ts_clock b ->
  checkedDifference a b = Value (mkDuration (ts_ns a - ts_ns b)).
Proof.
  intros Ha Hb Hwa Hwb Hc. rewrite checkedDifference_spec by done.
  rewrite bool_decide_true; [done|]. unfold ts_wf, is_i64, i64_min, i64_max in *. lia.
Qed.

Lemma checkedDifference_inv a b d :
  checkedDifference a b = Value d -> ts_clock a = ts_clock b /\ dur_ns d = ts_ns a - ts_ns b.
Proof.
  unfold checkedDifference. destruct (sameClockDomain a b) eqn:Hc; simpl; [|done].
  destruct (_ || _); [done|]. intros [= <-]. by apply sameClockDomain_true in Hc.
Qed.

(** Adding then taking the difference gives the duration back. *)
Lemma checkedAdd_difference t d t' :
  ts_wf t -> dur_wf d -> checkedAdd t d = Value t' -> checkedDifference t' t = Value d.
Proof.
  intros Ht Hd. unfold checkedAdd. rewrite checkedAddDuration_spec by done. simpl.
  case_bool_decide as Hb; [|done]. simpl. intros [= <-].
  rewrite checkedDifference_spec by done. simpl.
  replace (ts_ns t + dur_ns d - ts_ns t) with (dur_ns d) by lia.
  rewrite bool_decide_true by done. by destruct d.
Qed.

(** A stamp is accepted when the validator has none, or when it is on the same
    clock and either later, or earlier with regressions permitted. *)
Lemma tv_validate_ok v t v' :
  tvc_expected_clock_domain (tv_config v) = None ->
  tvc_allow_equal_timestamps (tv_config v) = false ->
  tv_validate v t = (kOk, v') ->
  tv_config v' = tv_config v /\
  match tv_last_timestamp v with
  | None => tv_last_timestamp v' = Some t
  | Some last =>
      ts_clock t = ts_clock last /\
      ((ts_ns last < ts_ns t /\ tv_last_timestamp v' = Some t) \/
       (ts_ns t < ts_ns last /\ tvc_reject_regression (tv_config v) = false /\
        tv_last_timestamp v' = Some last))
  end.
Proof.
  intros Hexp Heq. unfold tv_validate, unexpected_clock. rewrite Hexp, Heq. simpl.
  destruct (tv_last_timestamp v) as [last|] eqn:Hl; [|by intros [= <-]].
  destruct (sameClockDomain t last) eqn:Hc; simpl; [|done]. apply sameClockDomain_true in Hc.
  destruct (Z.ltb_spec (ts_ns t) (ts_ns last)), (Z.eqb_spec (ts_ns t) (ts_ns last));
    try lia; simpl; destruct (tvc_reject_regression (tv_config v)) eqn:Hr; simpl;
    intros [= <-]; simpl; rewrite ?Hl; split_and!; try done;
    first [by right | left; split; [lia|done]].
Qed.
