(* ===== verification/Measurement.v ===== *)
(** * Sensor measurements and their synchronisation

    [estimation/fast_lio_core]: the samples of [sensor/], the bounded
    [MeasurementBuffer] that stores validated scans and IMU samples in time
    order, and [MeasurementSynchronizer::synchronizeNext], which cuts the IMU
    stream into the intervals the estimator propagates over.  Each method runs
    under the buffer's mutex, so it is one transition.  Deques are lists, front
    first; iterators are positions. *)

From S2P Require Import Prelude Ordered Float64 Geometry LioTime Route.

(** [Vector3f::allFinite] comes from Eigen. *)
Class EigenFloatOps : Type := { v3f_allFinite : vec3f -> bool }.

Definition eigen_float_reference : EigenFloatOps := {|
  v3f_allFinite v := isfinite (fx v) && isfinite (fy v) && isfinite (fz v)
|}.

(** ** [sensor/] *)

Record LidarPoint : Type := mkLidarPoint {
  lp_position_lidar_m : vec3f;
  lp_relative_time_ns : Z; (* std::uint32_t *)
  lp_reflectivity : Z;     (* std::uint8_t *)
  lp_tag : Z;
  lp_line : Z
}.

Record LidarScan : Type := mkLidarScan {
  ls_start_time : Timestamp;
  ls_end_time : Timestamp;
  ls_points : list LidarPoint;
  ls_has_per_point_time : bool
}.

Record ImuSample : Type := mkImuSample {
  im_time : Timestamp;
  im_angular_velocity_imu_rad_s : vec3;
  im_linear_acceleration_imu_m_s2 : vec3
}.

Record MeasurementGroup : Type := mkMeasurementGroup {
  mg_scan : LidarScan;
  mg_imu_samples : list ImuSample;
  mg_propagation_start_time : Timestamp;
  mg_has_start_bracket : bool;
  mg_has_end_bracket : bool;
  mg_max_imu_gap_ns : Z
}.

(** [MeasurementGroup::fullyBracketed] *)
Definition fullyBracketed (g : MeasurementGroup) : bool :=
  mg_has_start_bracket g && mg_has_end_bracket g.

Section Sensor.
Context {E : EigenOps} {EF : EigenFloatOps}.

(** [ImuSample::validate] *)
Definition imu_validate (s : ImuSample) : StatusCode :=
  if ts_ns (im_time s) <=? 0 then kInvalidArgument
  else if negb (v_allFinite (im_angular_velocity_imu_rad_s s))
          || negb (v_allFinite (im_linear_acceleration_imu_m_s2 s)) then kInvalidArgument
  else kOk.

(** One turn of the loop over the points. *)
Definition point_status (timed : bool) (duration_ns : Z) (p : LidarPoint) : StatusCode :=
  if negb (v3f_allFinite (lp_position_lidar_m p)) then kInvalidArgument
  else if negb timed && negb (lp_relative_time_ns p =? 0) then kInvalidArgument
  else if timed && (duration_ns <? lp_relative_time_ns p) then kOutOfRange
  else kOk.

Fixpoint points_status (timed : bool) (duration_ns : Z) (points : list LidarPoint) : StatusCode :=
  match points with
  | [] => kOk
  | p :: points =>
      let status := point_status timed duration_ns p in
      if status_ok status then points_status timed duration_ns points else status
  end.

(** [LidarScan::validate]; the duration is not negative where it is cast to
    [uint64]. *)
Definition scan_validate (s : LidarScan) : StatusCode :=
  if (ts_ns (ls_start_time s) <=? 0) || (ts_ns (ls_end_time s) <=? 0) then kInvalidArgument
  else
    match checkedDifference (ls_end_time s) (ls_start_time s) with
    | Error status => status
    | Value duration =>
        if (dur_ns duration <? 0) || ((dur_ns duration =? 0) && ls_has_per_point_time s) then
          kTimestampRegression
        else
          match ls_points s with
          | [] => kInvalidArgument
          | points => points_status (ls_has_per_point_time s) (dur_ns duration) points
          end
    end.

(** [LidarScan::pointTime] *)
Definition pointTime (s : LidarScan) (point : LidarPoint) : Result Timestamp :=
  if negb (ls_has_per_point_time s) && negb (lp_relative_time_ns point =? 0) then
    Error kInvalidArgument
  else
    result_bind (checkedAdd (ls_start_time s) (mkDuration (lp_relative_time_ns point)))
      (fun time =>
         result_bind (checkedCompare time (ls_end_time s))
           (fun compare => if 0 <? compare then Error kOutOfRange else Value time)).
End Sensor.

(** ** [MeasurementBuffer] *)

Record MeasurementBufferConfig : Type := mkMeasurementBufferConfig {
  mbc_maximum_lidar_scans : Z;
  mbc_maximum_imu_samples : Z;
  mbc_reject_timestamp_regression : bool
}.

Record MeasurementBufferStats : Type := mkMeasurementBufferStats {
  mbs_accepted_lidar_scans : Z;
  mbs_accepted_imu_samples : Z;
  mbs_rejected_lidar_scans : Z;
  mbs_rejected_imu_samples : Z;
  mbs_timestamp_regressions : Z;
  mbs_clock_domain_mismatches : Z;
  mbs_buffer_full_rejections : Z
}.

Definition buffer_stats_zero : MeasurementBufferStats := mkMeasurementBufferStats 0 0 0 0 0 0 0.

Definition count_accepted_lidar (s : MeasurementBufferStats) : MeasurementBufferStats :=
  mkMeasurementBufferStats (u64_inc (mbs_accepted_lidar_scans s)) (mbs_accepted_imu_samples s)
    (mbs_rejected_lidar_scans s) (mbs_rejected_imu_samples s) (mbs_timestamp_regressions s)
    (mbs_clock_domain_mismatches s) (mbs_buffer_full_rejections s).

Definition count_accepted_imu (s : MeasurementBufferStats) : MeasurementBufferStats :=
  mkMeasurementBufferStats (mbs_accepted_lidar_scans s) (u64_inc (mbs_accepted_imu_samples s))
    (mbs_rejected_lidar_scans s) (mbs_rejected_imu_samples s) (mbs_timestamp_regressions s)
    (mbs_clock_domain_mismatches s) (mbs_buffer_full_rejections s).

Definition count_rejected_lidar (s : MeasurementBufferStats) : MeasurementBufferStats :=
  mkMeasurementBufferStats (mbs_accepted_lidar_scans s) (mbs_accepted_imu_samples s)
    (u64_inc (mbs_rejected_lidar_scans s)) (mbs_rejected_imu_samples s)
    (mbs_timestamp_regressions s) (mbs_clock_domain_mismatches s) (mbs_buffer_full_rejections s).

Definition count_rejected_imu (s : MeasurementBufferStats) : MeasurementBufferStats :=
  mkMeasurementBufferStats (mbs_accepted_lidar_scans s) (mbs_accepted_imu_samples s)
    (mbs_rejected_lidar_scans s) (u64_inc (mbs_rejected_imu_samples s))
    (mbs_timestamp_regressions s) (mbs_clock_domain_mismatches s) (mbs_buffer_full_rejections s).

Definition add_regressions (n : Z) (s : MeasurementBufferStats) : MeasurementBufferStats :=
  mkMeasurementBufferStats (mbs_accepted_lidar_scans s) (mbs_accepted_imu_samples s)
    (mbs_rejected_lidar_scans s) (mbs_rejected_imu_samples s)
    (u64_add (mbs_timestamp_regressions s) n)
    (mbs_clock_domain_mismatches s) (mbs_buffer_full_rejections s).

Definition count_clock_domain_mismatch (s : MeasurementBufferStats) : MeasurementBufferStats :=
  mkMeasurementBufferStats (mbs_accepted_lidar_scans s) (mbs_accepted_imu_samples s)
    (mbs_rejected_lidar_scans s) (mbs_rejected_imu_samples s) (mbs_timestamp_regressions s)
    (u64_inc (mbs_clock_domain_mismatches s)) (mbs_buffer_full_rejections s).

Definition count_buffer_full (s : MeasurementBufferStats) : MeasurementBufferStats :=
  mkMeasurementBufferStats (mbs_accepted_lidar_scans s) (mbs_accepted_imu_samples s)
    (mbs_rejected_lidar_scans s) (mbs_rejected_imu_samples s) (mbs_timestamp_regressions s)
    (mbs_clock_domain_mismatches s) (u64_inc (mbs_buffer_full_rejections s)).

Definition accountTimestampError (status : StatusCode) (s : MeasurementBufferStats)
    : MeasurementBufferStats :=
  match status with
  | kTimestampRegression => add_regressions 1 s
  | kClockDomainMismatch => count_clock_domain_mismatch s
  | _ => s
  end.

Record MeasurementBuffer : Type := mkMeasurementBuffer {
  mb_config : MeasurementBufferConfig;
  mb_lidar_scans : list LidarScan;
  mb_imu_samples : list ImuSample;
  mb_lidar_start_validator : TimestampValidator;
  mb_lidar_end_validator : TimestampValidator;
  mb_imu_validator : TimestampValidator;
  mb_stats : MeasurementBufferStats
}.

Definition validatorConfig (config : MeasurementBufferConfig) : TimestampValidatorConfig :=
  mkTimestampValidatorConfig None (mbc_reject_timestamp_regression config) false.

(** The constructor; it throws on a zero capacity. *)
Definition buffer_new (config : MeasurementBufferConfig) : option MeasurementBuffer :=
  if (mbc_maximum_lidar_scans config =? 0) || (mbc_maximum_imu_samples config =? 0) then None
  else
    let validator := validator_new (validatorConfig config) in
    Some (mkMeasurementBuffer config [] [] validator validator validator buffer_stats_zero).

Definition mb_set_stats (b : MeasurementBuffer) (f : MeasurementBufferStats -> MeasurementBufferStats)
    : MeasurementBuffer :=
  mkMeasurementBuffer (mb_config b) (mb_lidar_scans b) (mb_imu_samples b)
    (mb_lidar_start_validator b) (mb_lidar_end_validator b) (mb_imu_validator b) (f (mb_stats b)).

Definition mb_set_lidar (b : MeasurementBuffer) (scans : list LidarScan) : MeasurementBuffer :=
  mkMeasurementBuffer (mb_config b) scans (mb_imu_samples b)
    (mb_lidar_start_validator b) (mb_lidar_end_validator b) (mb_imu_validator b) (mb_stats b).

Definition mb_set_imu (b : MeasurementBuffer) (samples : list ImuSample) : MeasurementBuffer :=
  mkMeasurementBuffer (mb_config b) (mb_lidar_scans b) samples
    (mb_lidar_start_validator b) (mb_lidar_end_validator b) (mb_imu_validator b) (mb_stats b).

Definition mb_set_lidar_validators (b : MeasurementBuffer) (s e : TimestampValidator)
    : MeasurementBuffer :=
  mkMeasurementBuffer (mb_config b) (mb_lidar_scans b) (mb_imu_samples b) s e
    (mb_imu_validator b) (mb_stats b).

Definition mb_set_imu_validator (b : MeasurementBuffer) (v : TimestampValidator)
    : MeasurementBuffer :=
  mkMeasurementBuffer (mb_config b) (mb_lidar_scans b) (mb_imu_samples b)
    (mb_lidar_start_validator b) (mb_lidar_end_validator b) v (mb_stats b).

Definition scan_start_ns (s : LidarScan) : Z := ts_ns (ls_start_time s).
Definition scan_end_ns (s : LidarScan) : Z := ts_ns (ls_end_time s).
Definition imu_ns (s : ImuSample) : Z := ts_ns (im_time s).

(** The common tail of the two [push] methods: append when regressions are
    rejected, the queue is empty or the new key is above the last one,
    otherwise insert at the upper bound. *)
Definition enqueue {A} (reject : bool) (key : A -> Z) (a : A) (l : list A) : list A :=
  if reject || match last l with Some b => key b <? key a | None => true end then l ++ [a]
  else insert_at (upper_bound_by key (key a) l) a l.

Section Buffer.
Context {E : EigenOps} {EF : EigenFloatOps}.

(** [MeasurementBuffer::pushLidar] *)
Definition pushLidar (b : MeasurementBuffer) (scan : LidarScan) : StatusCode * MeasurementBuffer :=
  let scan_status := scan_validate scan in
  if negb (status_ok scan_status) then
    (scan_status,
     mb_set_stats b (fun s => accountTimestampError scan_status (count_rejected_lidar s)))
  else if mbc_maximum_lidar_scans (mb_config b) <=? Z.of_nat (length (mb_lidar_scans b)) then
    (kBufferFull, mb_set_stats b (fun s => count_buffer_full (count_rejected_lidar s)))
  else
    let (start_status, start_candidate) :=
      tv_validate (mb_lidar_start_validator b) (ls_start_time scan) in
    if negb (status_ok start_status) then
      (start_status,
       mb_set_stats b (fun s => accountTimestampError start_status (count_rejected_lidar s)))
    else
      let (end_status, end_candidate) :=
        tv_validate (mb_lidar_end_validator b) (ls_end_time scan) in
      if negb (status_ok end_status) then
        (end_status,
         mb_set_stats b (fun s => accountTimestampError end_status (count_rejected_lidar s)))
      else
        let start_regressions :=
          u64_sub (tv_regression_count start_candidate)
                  (tv_regression_count (mb_lidar_start_validator b)) in
        let end_regressions :=
          u64_sub (tv_regression_count end_candidate)
                  (tv_regression_count (mb_lidar_end_validator b)) in
        let b := mb_set_lidar_validators b start_candidate end_candidate in
        let b := mb_set_stats b
                   (fun s => add_regressions end_regressions (add_regressions start_regressions s)) in
        let b := mb_set_lidar b
                   (enqueue (mbc_reject_timestamp_regression (mb_config b)) scan_start_ns scan
                      (mb_lidar_scans b)) in
        (kOk, mb_set_stats b count_accepted_lidar).

(** [MeasurementBuffer::pushImu] *)
Definition pushImu (b : MeasurementBuffer) (sample : ImuSample) : StatusCode * MeasurementBuffer :=
  let sample_status := imu_validate sample in
  if negb (status_ok sample_status) then (sample_status, mb_set_stats b count_rejected_imu)
  else if mbc_maximum_imu_samples (mb_config b) <=? Z.of_nat (length (mb_imu_samples b)) then
    (kBufferFull, mb_set_stats b (fun s => count_buffer_full (count_rejected_imu s)))
  else
    let prior_regressions := tv_regression_count (mb_imu_validator b) in
    let (time_status, validator) := tv_validate (mb_imu_validator b) (im_time sample) in
    let b := mb_set_imu_validator b validator in
    if negb (status_ok time_status) then
      (time_status,
       mb_set_stats b (fun s => accountTimestampError time_status (count_rejected_imu s)))
    else
      let b := mb_set_stats b
                 (add_regressions (u64_sub (tv_regression_count validator) prior_regressions)) in
      let b := mb_set_imu b
                 (enqueue (mbc_reject_timestamp_regression (mb_config b)) imu_ns sample
                    (mb_imu_samples b)) in
      (kOk, mb_set_stats b count_accepted_imu).

(** The queries. *)
Definition lidarSize (b : MeasurementBuffer) : Z := Z.of_nat (length (mb_lidar_scans b)).
Definition imuSize (b : MeasurementBuffer) : Z := Z.of_nat (length (mb_imu_samples b)).
Definition nextLidarStartTime (b : MeasurementBuffer) : option Timestamp :=
  ls_start_time <$> head (mb_lidar_scans b).
Definition buffer_empty (b : MeasurementBuffer) : bool :=
  match mb_lidar_scans b, mb_imu_samples b with [], [] => true | _, _ => false end.

(** [MeasurementBuffer::clear] *)
Definition buffer_clear (b : MeasurementBuffer) : MeasurementBuffer :=
  mkMeasurementBuffer (mb_config b) [] [] (tv_reset (mb_lidar_start_validator b))
    (tv_reset (mb_lidar_end_validator b)) (tv_reset (mb_imu_validator b)) buffer_stats_zero.
End Buffer.

(** ** [MeasurementSynchronizer] *)

Record MeasurementSynchronizerStats : Type := mkMeasurementSynchronizerStats {
  mss_synchronized_groups : Z;
  mss_waiting_count : Z;
  mss_rejected_missing_start_bracket : Z;
  mss_rejected_imu_gap : Z;
  mss_rejected_clock_domain : Z;
  mss_rejected_scan_overlap : Z
}.

Definition sync_stats_zero : MeasurementSynchronizerStats :=
  mkMeasurementSynchronizerStats 0 0 0 0 0 0.

Inductive SynchronizationFailureKind : Type := kNone | kImuDiscontinuity.

Record PropagationDiscontinuity : Type := mkPropagationDiscontinuity {
  pd_failure_kind : SynchronizationFailureKind;
  pd_gap_begin : Timestamp;
  pd_gap_end : Timestamp;
  pd_gap_duration_ns : Z;
  pd_scan_start : Timestamp;
  pd_scan_end : Timestamp;
  pd_resume_time : Timestamp
}.

Record SynchronizationResult : Type := mkSynchronizationResult {
  sr_measurement_group : option MeasurementGroup;
  sr_discontinuity : option PropagationDiscontinuity
}.

(** [SynchronizationResult{}]: more data is needed. *)
Definition sync_waiting : SynchronizationResult := mkSynchronizationResult None None.

Record MeasurementSynchronizer : Type := mkMeasurementSynchronizer {
  ms_maximum_imu_gap_ns : Z;
  ms_stats : MeasurementSynchronizerStats;
  ms_last_synchronized_end_time : option Timestamp;
  ms_scan_index : Z
}.

(** The constructor; it throws unless the maximum gap is positive. *)
Definition synchronizer_new (maximum_imu_gap_ns : Z) : option MeasurementSynchronizer :=
  if maximum_imu_gap_ns <=? 0 then None
  else Some (mkMeasurementSynchronizer maximum_imu_gap_ns sync_stats_zero None 0).

Definition ms_set_stats (m : MeasurementSynchronizer)
    (f : MeasurementSynchronizerStats -> MeasurementSynchronizerStats) : MeasurementSynchronizer :=
  mkMeasurementSynchronizer (ms_maximum_imu_gap_ns m) (f (ms_stats m))
    (ms_last_synchronized_end_time m) (ms_scan_index m).

Definition ms_advance_epoch (m : MeasurementSynchronizer) (t : Timestamp) : MeasurementSynchronizer :=
  mkMeasurementSynchronizer (ms_maximum_imu_gap_ns m) (ms_stats m) (Some t) (ms_scan_index m).

(** [scan_index_++] *)
Definition ms_next_scan (m : MeasurementSynchronizer) : MeasurementSynchronizer :=
  mkMeasurementSynchronizer (ms_maximum_imu_gap_ns m) (ms_stats m)
    (ms_last_synchronized_end_time m) (u64_inc (ms_scan_index m)).

Definition count_synchronized (s : MeasurementSynchronizerStats) : MeasurementSynchronizerStats :=
  mkMeasurementSynchronizerStats (u64_inc (mss_synchronized_groups s)) (mss_waiting_count s)
    (mss_rejected_missing_start_bracket s) (mss_rejected_imu_gap s)
    (mss_rejected_clock_domain s) (mss_rejected_scan_overlap s).
Definition count_waiting (s : MeasurementSynchronizerStats) : MeasurementSynchronizerStats :=
  mkMeasurementSynchronizerStats (mss_synchronized_groups s) (u64_inc (mss_waiting_count s))
    (mss_rejected_missing_start_bracket s) (mss_rejected_imu_gap s)
    (mss_rejected_clock_domain s) (mss_rejected_scan_overlap s).
Definition count_missing_start (s : MeasurementSynchronizerStats) : MeasurementSynchronizerStats :=
  mkMeasurementSynchronizerStats (mss_synchronized_groups s) (mss_waiting_count s)
    (u64_inc (mss_rejected_missing_start_bracket s)) (mss_rejected_imu_gap s)
    (mss_rejected_clock_domain s) (mss_rejected_scan_overlap s).
Definition count_imu_gap (s : MeasurementSynchronizerStats) : MeasurementSynchronizerStats :=
  mkMeasurementSynchronizerStats (mss_synchronized_groups s) (mss_waiting_count s)
    (mss_rejected_missing_start_bracket s) (u64_inc (mss_rejected_imu_gap s))
    (mss_rejected_clock_domain s) (mss_rejected_scan_overlap s).
Definition count_clock_domain (s : MeasurementSynchronizerStats) : MeasurementSynchronizerStats :=
  mkMeasurementSynchronizerStats (mss_synchronized_groups s) (mss_waiting_count s)
    (mss_rejected_missing_start_bracket s) (mss_rejected_imu_gap s)
    (u64_inc (mss_rejected_clock_domain s)) (mss_rejected_scan_overlap s).
Definition count_scan_overlap (s : MeasurementSynchronizerStats) : MeasurementSynchronizerStats :=
  mkMeasurementSynchronizerStats (mss_synchronized_groups s) (mss_waiting_count s)
    (mss_rejected_missing_start_bracket s) (mss_rejected_imu_gap s)
    (mss_rejected_clock_domain s) (u64_inc (mss_rejected_scan_overlap s)).

(** The widest gap of a stretch of samples, with the two times around it. *)
Record gap_scan : Type := mkGapScan { gs_gap_ns : Z; gs_previous_ns : Z; gs_current_ns : Z }.

Definition gap_scan_zero : gap_scan := mkGapScan 0 0 0.

(** The loop over consecutive samples; [previous] is [std::prev(current)]. *)
Fixpoint maximum_gap (acc : gap_scan) (previous : ImuSample) (rest : list ImuSample)
    : Result gap_scan :=
  match rest with
  | [] => Value acc
  | current :: rest =>
      match checkedDifference (im_time current) (im_time previous) with
      | Error status => Error status
      | Value gap =>
          let gap_ns := dur_ns gap in
          let acc := if gs_gap_ns acc <? gap_ns then mkGapScan gap_ns (imu_ns previous) (imu_ns current)
                     else acc in
          maximum_gap acc current rest
      end
  end.

(** The loop over [\[propagation_start_bracket, end_bracket\]]. *)
Definition segment_gap (segment : list ImuSample) : Result gap_scan :=
  match segment with
  | [] => Value gap_scan_zero
  | s :: rest => maximum_gap gap_scan_zero s rest
  end.

Definition sync_outcome : Type :=
  (Result SynchronizationResult * MeasurementSynchronizer * MeasurementBuffer)%type.

Section Synchronize.
Context {E : EigenOps} {EF : EigenFloatOps}.

(** What follows the bracketing: accept the group or report the discontinuity
    (lines 102-170).  [start_after] and [first] are the positions of
    [start_bracket] + 1 and of [propagation_start_bracket], [last_] that of
    [end_bracket], all in [imu]. *)
Definition close_interval (m : MeasurementSynchronizer) (b popped : MeasurementBuffer)
    (scan : LidarScan) (propagation_start_time : Timestamp) (start_after first last_ : nat)
    : sync_outcome :=
  let imu := mb_imu_samples b in
  let segment := take (S last_ - first) (drop first imu) in
  match segment_gap segment with
  | Error status => (Error status, m, popped)
  | Value gap =>
      if ms_maximum_imu_gap_ns m <? gs_gap_ns gap then
        let clock := ts_clock (ls_start_time scan) in
        let gap_begin := mkTimestamp (gs_previous_ns gap) clock in
        let gap_end := mkTimestamp (gs_current_ns gap) clock in
        let resume := lower_bound_by imu_ns (gs_current_ns gap) imu in
        (Value (mkSynchronizationResult None
           (Some (mkPropagationDiscontinuity kImuDiscontinuity gap_begin gap_end (gs_gap_ns gap)
                    (ls_start_time scan) (ls_end_time scan) gap_end))),
         ms_next_scan (ms_advance_epoch (ms_set_stats m count_imu_gap) gap_end),
         mb_set_imu popped (drop resume imu))
      else
        let at_or_before i bound :=
          match imu !! i with Some s => imu_ns s <=? bound | None => false end in
        let at_or_after i bound :=
          match imu !! i with Some s => bound <=? imu_ns s | None => false end in
        let group :=
          mkMeasurementGroup scan segment propagation_start_time
            (at_or_before (pred start_after) (scan_start_ns scan))
            (at_or_after last_ (scan_end_ns scan))
            (gs_gap_ns gap) in
        (Value (mkSynchronizationResult (Some group) None),
         ms_set_stats (ms_next_scan (ms_advance_epoch m (ls_end_time scan))) count_synchronized,
         mb_set_imu popped (drop (pred last_) imu))
  end.

(** The bracketing (lines 66-100).  [std::prev] of a position that is not the
    first is its predecessor; [pred] of the first one is the first one, as in
    the conditional of line 163. *)
Definition bracket_scan (m : MeasurementSynchronizer) (b popped : MeasurementBuffer)
    (scan : LidarScan) : sync_outcome :=
  let imu := mb_imu_samples b in
  let start_after := upper_bound_by imu_ns (scan_start_ns scan) imu in
  if (start_after =? 0)%nat then
    (Error kMissingStartBracket, ms_set_stats m count_missing_start, popped)
  else
    let propagation_start_time :=
      default (ls_start_time scan) (ms_last_synchronized_end_time m) in
    let propagation_start_after := upper_bound_by imu_ns (ts_ns propagation_start_time) imu in
    if (propagation_start_after =? 0)%nat then
      (Error kMissingStartBracket, ms_set_stats m count_missing_start, popped)
    else
      let first := pred propagation_start_after in
      let end_bracket := (first + lower_bound_by imu_ns (scan_end_ns scan) (drop first imu))%nat in
      if (end_bracket =? length imu)%nat then
        (Value sync_waiting, ms_set_stats m count_waiting, b)
      else
        close_interval m b popped scan propagation_start_time start_after first end_bracket.

(** The checks against the previous interval (lines 34-65). *)
Definition check_epoch (m : MeasurementSynchronizer) (scan : LidarScan)
    : option (StatusCode * MeasurementSynchronizer) :=
  match ms_last_synchronized_end_time m with
  | None => None
  | Some previous =>
      if negb (sameClockDomain previous (ls_start_time scan)) then
        Some (kClockDomainMismatch, ms_set_stats m count_clock_domain)
      else if scan_start_ns scan <? ts_ns previous then
        match checkedDifference previous (ls_start_time scan) with
        | Error status => Some (status, m)
        | Value _ =>
            Some (kOverlappingLidarInterval, ms_next_scan (ms_set_stats m count_scan_overlap))
        end
      else None
  end.

(** [MeasurementSynchronizer::synchronizeNext] *)
Definition synchronizeNext (m : MeasurementSynchronizer) (b : MeasurementBuffer) : sync_outcome :=
  match mb_lidar_scans b, head (mb_imu_samples b), last (mb_imu_samples b) with
  | scan :: scans, Some imu_front, Some imu_back =>
      let popped := mb_set_lidar b scans in
      let scan_status := scan_validate scan in
      if negb (status_ok scan_status) then (Error scan_status, m, popped)
      else if negb (sameClockDomain (ls_start_time scan) (im_time imu_front))
              || negb (sameClockDomain (ls_start_time scan) (im_time imu_back)) then
        (Error kClockDomainMismatch, ms_set_stats m count_clock_domain, popped)
      else
        match check_epoch m scan with
        | Some (status, m) => (Error status, m, popped)
        | None => bracket_scan m b popped scan
        end
  | _, _, _ => (Value sync_waiting, ms_set_stats m count_waiting, b)
  end.

(** [MeasurementSynchronizer::epoch] *)
Definition epoch (m : MeasurementSynchronizer) : option Timestamp := ms_last_synchronized_end_time m.

(** [MeasurementSynchronizer::reset] *)
Definition synchronizer_reset (m : MeasurementSynchronizer) : MeasurementSynchronizer :=
  mkMeasurementSynchronizer (ms_maximum_imu_gap_ns m) sync_stats_zero None 0.
End Synchronize.
