(* ===== verification/MeasurementProps.v ===== *)
(** * Correctness of the measurement synchronisation

    The buffer and the synchronizer are driven by the pipeline's operations:
    pushes, synchronisations and resets in any order.  The invariant keeps the
    queues validated, in time order and on one clock, and keeps an IMU sample
    at or before the instant propagation resumes from.  From it follow what a
    group promises the estimator (brackets, gaps, contiguity), that no motion
    between scans is skipped, that every call makes progress, and that the
    counters account for every scan. *)

From S2P Require Import Prelude Ordered Float64 Geometry LioTime Route Measurement.
From Stdlib Require Import SpecFloat.

(** ** Insertion into an ordered queue *)

Section Enqueue.
Context {A : Type} (key : A -> Z).
#[local] Abbreviation ordered := (ordered key).

(** [enqueue] inserts and keeps the order: at the end unless the queue ends
    after the new element. *)
Lemma enqueue_perm reject a l : enqueue reject key a l ≡ₚ a :: l.
Proof.
  unfold enqueue, insert_at. destruct (reject || _).
  - by rewrite Permutation_app_comm.
  - by rewrite <- Permutation_middle, take_drop.
Qed.

Lemma elem_of_enqueue reject a l x : x ∈ enqueue reject key a l <-> x = a \/ x ∈ l.
Proof. by rewrite enqueue_perm, elem_of_cons. Qed.

Lemma enqueue_ordered reject a l :
  ordered l -> (reject = true -> forall x, x ∈ l -> key x <= key a) ->
  ordered (enqueue reject key a l).
Proof.
  intros Ho Ha.
  assert (ordered [a]) as H1.
  { intros i j x y _ Hx Hy. apply list_lookup_singleton_Some in Hx as [_ ->], Hy as [_ ->]. lia. }
  unfold enqueue. destruct (reject || _) eqn:Hg.
  - apply ordered_app; [done..|]. intros x y Hx ->%list_elem_of_singleton.
    destruct reject; [by apply Ha|]. simpl in Hg.
    destruct (last l) as [b|] eqn:Hl; [|by rewrite (proj1 (last_None l) Hl) in Hx; apply not_elem_of_nil in Hx].
    breflect. pose proof (ordered_last key l x b Ho Hl Hx). lia.
  - destruct (upper_bound_by_spec key (key a) l Ho) as (Hb&Hlo&Hhi). unfold insert_at.
    apply ordered_app; [by apply ordered_take| |].
    + apply (ordered_app key [a]); [done|by apply ordered_drop|].
      intros x y ->%list_elem_of_singleton [i Hy]%list_elem_of_lookup_1. rewrite lookup_drop in Hy.
      enough (key a < key y) by lia. eapply Hhi; [|exact Hy]; lia.
    + intros x y [i Hx]%list_elem_of_lookup_1 Hy. apply lookup_take_Some in Hx as [Hx Hi].
      specialize (Hlo i x Hi Hx). apply elem_of_cons in Hy as [->|[j Hy]%list_elem_of_lookup_1]; [done|].
      rewrite lookup_drop in Hy. enough (key a < key y) by lia. eapply Hhi; [|exact Hy]; lia.
Qed.
End Enqueue.

(** ** A validated stream

    A queue filled through a validator: ordered, on the validator's clock and
    not past its frontier. *)

Section Stream.
Context {A : Type} (stamp : A -> Timestamp).

Definition stamp_ns (a : A) : Z := ts_ns (stamp a).

Definition behind (v : TimestampValidator) (a : A) : Prop :=
  exists t, tv_last_timestamp v = Some t /\ ts_clock (stamp a) = ts_clock t /\ stamp_ns a <= ts_ns t.

Record stream_inv (reject : bool) (v : TimestampValidator) (l : list A) : Prop := {
  si_config : tv_config v = mkTimestampValidatorConfig None reject false;
  si_ordered : ordered stamp_ns l;
  si_behind : forall a, a ∈ l -> behind v a
}.

Lemma stream_new reject v :
  tv_config v = mkTimestampValidatorConfig None reject false -> stream_inv reject v [].
Proof. split; [done|apply ordered_nil|]. by intros a ?%not_elem_of_nil. Qed.

Lemma stream_drop reject v n l : stream_inv reject v l -> stream_inv reject v (drop n l).
Proof.
  intros [Hc Ho Hb]. split; [done|by apply ordered_drop|].
  intros a [i Ha]%list_elem_of_lookup_1. rewrite lookup_drop in Ha.
  by eapply Hb, list_elem_of_lookup_2.
Qed.

Lemma stream_same_clock reject v l a b :
  stream_inv reject v l -> a ∈ l -> b ∈ l -> ts_clock (stamp a) = ts_clock (stamp b).
Proof.
  intros [_ _ Hb] Ha Hb'. destruct (Hb _ Ha) as (t&Ht&Hc&_), (Hb _ Hb') as (t'&Ht'&Hc'&_).
  congruence.
Qed.

(** What an accepted stamp does to the validator. *)
Lemma validated reject v t v' :
  tv_config v = mkTimestampValidatorConfig None reject false -> tv_validate v t = (kOk, v') ->
  tv_config v' = tv_config v /\
  (forall l, tv_last_timestamp v = Some l ->
     exists l', tv_last_timestamp v' = Some l' /\ ts_clock l' = ts_clock l /\ ts_ns l <= ts_ns l') /\
  (exists l', tv_last_timestamp v' = Some l' /\ ts_clock t = ts_clock l' /\ ts_ns t <= ts_ns l') /\
  (reject = true -> forall l, tv_last_timestamp v = Some l -> ts_ns l < ts_ns t).
Proof.
  intros Hc Hv. apply tv_validate_ok in Hv as [Hc' Hl]; [|by rewrite Hc..]. split; [done|].
  destruct (tv_last_timestamp v) as [last|].
  - destruct Hl as [Hclk [[Hlt ->]|(Hlt&Hr&->)]].
    + split_and!; [|by eexists|]; intros; simplify_eq; [|done].
      eexists; split_and!; [done|done|lia].
    + split_and!; [|eexists; split_and!; [done|done|lia]|]; intros; simplify_eq.
      * by eexists.
      * by rewrite Hc in Hr.
  - rewrite Hl. split_and!; [done| |done]. by eexists.
Qed.

Lemma stream_push reject v v' a l :
  stream_inv reject v l -> tv_validate v (stamp a) = (kOk, v') ->
  stream_inv reject v' (enqueue reject stamp_ns a l) /\
  (reject = true -> forall b, b ∈ l -> stamp_ns b < stamp_ns a).
Proof.
  intros [Hc Ho Hb] Hv. destruct (validated _ _ _ _ Hc Hv) as (Hc'&Hmono&Hnew&Hrej).
  assert (reject = true -> forall b, b ∈ l -> stamp_ns b < stamp_ns a) as Hlt.
  { intros Hr b (t&Ht&_&Hle)%Hb. specialize (Hrej Hr t Ht). unfold stamp_ns in *. lia. }
  split; [|done]. split; [by rewrite Hc'| |].
  - apply enqueue_ordered; [done|]. intros Hr b Hin. specialize (Hlt Hr b Hin). lia.
  - intros b [->|(t&Ht&Hclk&Hle)%Hb]%elem_of_enqueue; [done|].
    destruct (Hmono t Ht) as (t'&Ht'&Hclk'&Hle'). exists t'. split_and!; [done|congruence|lia].
Qed.
End Stream.

(** ** Validated measurements *)

Definition imu_ok (s : ImuSample) : Prop := 0 < imu_ns s /\ ts_wf (im_time s).

Record scan_ok (s : LidarScan) : Prop := {
  so_start : 0 < scan_start_ns s;
  so_wf_start : ts_wf (ls_start_time s);
  so_wf_end : ts_wf (ls_end_time s);
  so_clock : ts_clock (ls_end_time s) = ts_clock (ls_start_time s);
  so_duration : scan_start_ns s <= scan_end_ns s
}.

Section Validation.
Context {E : EigenOps} {EF : EigenFloatOps}.

Lemma imu_validate_ok s : ts_wf (im_time s) -> imu_validate s = kOk -> imu_ok s.
Proof.
  unfold imu_validate, imu_ok, imu_ns. intros Hw. destruct (_ <=? _) eqn:Hle; [done|].
  intros _. breflect. by split; [lia|].
Qed.

Lemma scan_validate_ok s :
  ts_wf (ls_start_time s) -> ts_wf (ls_end_time s) -> scan_validate s = kOk -> scan_ok s.
Proof.
  unfold scan_validate. intros Hws Hwe. destruct ((_ <=? _) || _) eqn:Hpos; [done|].
  destruct (checkedDifference _ _) as [d|c] eqn:Hd.
  - apply checkedDifference_inv in Hd as [Hclk Hd]. destruct ((dur_ns d <? 0) || _) eqn:Hneg; [done|].
    intros _. bsplit. split; unfold scan_start_ns, scan_end_ns; try done; lia.
  - intros ->. unfold checkedDifference in Hd. by repeat guard_case.
Qed.
End Validation.

(** ** The widest gap *)

Definition gap_between (prev : ImuSample) (rest : list ImuSample) (g : gap_scan) : Prop :=
  exists i x y, (prev :: rest) !! i = Some x /\ rest !! i = Some y /\
    g = mkGapScan (imu_ns y - imu_ns x) (imu_ns x) (imu_ns y).

Lemma maximum_gap_spec clock acc prev rest :
  (forall s, s ∈ prev :: rest -> imu_ok s /\ ts_clock (im_time s) = clock) ->
  exists g, maximum_gap acc prev rest = Value g /\ gs_gap_ns acc <= gs_gap_ns g /\
    (forall i x y, (prev :: rest) !! i = Some x -> rest !! i = Some y ->
                   imu_ns y - imu_ns x <= gs_gap_ns g) /\
    (g = acc \/ gap_between prev rest g).
Proof.
  revert acc prev; induction rest as [|cur rest IH]; intros acc prev Hok.
  { exists acc. by split_and!; [..|left]. }
  cbn [maximum_gap].
  destruct (Hok prev) as [[Hp Hwp] Hcp]; [by left|].
  destruct (Hok cur) as [[Hq Hwq] Hcq]; [by right; left|].
  unfold imu_ns in Hp, Hq.
  rewrite checkedDifference_nonneg by (done || lia || congruence). cbn [dur_ns].
  fold (imu_ns cur) (imu_ns prev).
  match goal with |- context [maximum_gap ?a cur rest] => set (acc' := a) end.
  destruct (IH acc' cur) as (g&Hg&Hle&Hall&Hwhere); [intros s Hs; apply Hok; by right|].
  assert (gs_gap_ns acc <= gs_gap_ns acc' /\ imu_ns cur - imu_ns prev <= gs_gap_ns acc') as [H1 H2].
  { unfold acc'. destruct (Z.ltb_spec (gs_gap_ns acc) (imu_ns cur - imu_ns prev)); simpl; lia. }
  exists g. split_and!; [done|lia| |].
  - intros [|i] x y Hx Hy; simplify_eq/=; [lia|by eapply Hall].
  - destruct Hwhere as [->|(i&x&y&Hx&Hy&->)].
    + unfold acc'. destruct (_ <? _); [right|by left]. by exists 0%nat, prev, cur.
    + right. by exists (S i), x, y.
Qed.

(** A stretch of a validated stream always has a gap: no difference of its
    stamps overflows. *)
Lemma segment_gap_spec clock seg :
  (forall s, s ∈ seg -> imu_ok s /\ ts_clock (im_time s) = clock) ->
  exists g, segment_gap seg = Value g /\ 0 <= gs_gap_ns g /\
    (forall i x y, seg !! i = Some x -> seg !! S i = Some y -> imu_ns y - imu_ns x <= gs_gap_ns g) /\
    (0 < gs_gap_ns g -> exists i x y, seg !! i = Some x /\ seg !! S i = Some y /\
       g = mkGapScan (imu_ns y - imu_ns x) (imu_ns x) (imu_ns y)).
Proof.
  intros Hok. destruct seg as [|s rest]; cbn [segment_gap].
  { exists gap_scan_zero. by split_and!. }
  destruct (maximum_gap_spec clock gap_scan_zero s rest Hok) as (g&Hg&Hle&Hall&Hw).
  exists g. split_and!; try done. intros Hpos. destruct Hw as [->|(i&x&y&?&?&?)]; [simpl in *; lia|].
  by exists i, x, y.
Qed.

(** ** The invariant of the buffer and the synchronizer *)

(** Where propagation resumes: on the clock of the scans, and with an IMU
    sample at or before it still queued. *)
Record epoch_inv (b : MeasurementBuffer) (t : Timestamp) : Prop := {
  ei_positive : 0 < ts_ns t;
  ei_wf : ts_wf t;
  ei_clock : exists l, tv_last_timestamp (mb_lidar_start_validator b) = Some l /\ ts_clock l = ts_clock t;
  ei_bracket : exists s, head (mb_imu_samples b) = Some s /\ imu_ns s <= ts_ns t
}.

Definition rejects (b : MeasurementBuffer) : bool := mbc_reject_timestamp_regression (mb_config b).

Section Invariant.
Context {E : EigenOps} {EF : EigenFloatOps}.

Record fusion_inv (m : MeasurementSynchronizer) (b : MeasurementBuffer) : Prop := {
  fi_gap : 0 < ms_maximum_imu_gap_ns m;
  fi_imu : stream_inv im_time (rejects b) (mb_imu_validator b) (mb_imu_samples b);
  fi_scan : stream_inv ls_start_time (rejects b) (mb_lidar_start_validator b) (mb_lidar_scans b);
  fi_end : tv_config (mb_lidar_end_validator b) = mkTimestampValidatorConfig None (rejects b) false;
  fi_imu_ok : forall s, s ∈ mb_imu_samples b -> imu_ok s;
  fi_scan_ok : forall s, s ∈ mb_lidar_scans b -> scan_ok s /\ scan_validate s = kOk;
  fi_epoch : forall t, ms_last_synchronized_end_time m = Some t -> epoch_inv b t
}.

(** The interval [synchronizeNext] brackets for the front scan: [first] is the
    last sample at or before the start of propagation, [last_] the first one
    from there at or after the scan end. *)
Record interval (m : MeasurementSynchronizer) (b : MeasurementBuffer) (scan : LidarScan)
    (p : Timestamp) (first last_ : nat) : Prop := {
  iv_scan : exists scans, mb_lidar_scans b = scan :: scans;
  iv_start : p = default (ls_start_time scan) (ms_last_synchronized_end_time m);
  iv_start_le : ts_ns p <= scan_start_ns scan;
  iv_start_clock : ts_clock p = ts_clock (ls_start_time scan);
  iv_clock : forall s, s ∈ mb_imu_samples b -> ts_clock (im_time s) = ts_clock (ls_start_time scan);
  iv_bounds : (first <= last_ < length (mb_imu_samples b))%nat;
  iv_first : forall x, mb_imu_samples b !! first = Some x -> imu_ns x <= ts_ns p;
  iv_after : forall i x, (first < i)%nat -> mb_imu_samples b !! i = Some x -> ts_ns p < imu_ns x;
  iv_before : forall i x, (first <= i < last_)%nat -> mb_imu_samples b !! i = Some x ->
                imu_ns x < scan_end_ns scan;
  iv_last : forall x, mb_imu_samples b !! last_ = Some x -> scan_end_ns scan <= imu_ns x
}.

Definition segment (b : MeasurementBuffer) (first last_ : nat) : list ImuSample :=
  take (S last_ - first) (drop first (mb_imu_samples b)).

(** Nothing can be decided yet. *)
Definition starved (b : MeasurementBuffer) : Prop :=
  match mb_lidar_scans b with
  | [] => True
  | scan :: _ => forall s, s ∈ mb_imu_samples b -> imu_ns s < scan_end_ns scan
  end.

Definition gap_outcome (m : MeasurementSynchronizer) (b : MeasurementBuffer) (scan : LidarScan)
    (g : gap_scan) : sync_outcome :=
  let clock := ts_clock (ls_start_time scan) in
  let gap_end := mkTimestamp (gs_current_ns g) clock in
  (Value (mkSynchronizationResult None
     (Some (mkPropagationDiscontinuity kImuDiscontinuity (mkTimestamp (gs_previous_ns g) clock)
              gap_end (gs_gap_ns g) (ls_start_time scan) (ls_end_time scan) gap_end))),
   ms_next_scan (ms_advance_epoch (ms_set_stats m count_imu_gap) gap_end),
   mb_set_imu (mb_set_lidar b (tail (mb_lidar_scans b)))
     (drop (lower_bound_by imu_ns (gs_current_ns g) (mb_imu_samples b)) (mb_imu_samples b))).

Definition group_outcome (m : MeasurementSynchronizer) (b : MeasurementBuffer) (scan : LidarScan)
    (p : Timestamp) (first last_ : nat) (g : gap_scan) : sync_outcome :=
  (Value (mkSynchronizationResult
     (Some (mkMeasurementGroup scan (segment b first last_) p true true (gs_gap_ns g))) None),
   ms_set_stats (ms_next_scan (ms_advance_epoch m (ls_end_time scan))) count_synchronized,
   mb_set_imu (mb_set_lidar b (tail (mb_lidar_scans b))) (drop (pred last_) (mb_imu_samples b))).

(** Every outcome of a call, with its reason. *)
Inductive sync_case (m : MeasurementSynchronizer) (b : MeasurementBuffer) : sync_outcome -> Prop :=
| sc_wait :
    starved b -> sync_case m b (Value sync_waiting, ms_set_stats m count_waiting, b)
| sc_clock scan scans s :
    mb_lidar_scans b = scan :: scans -> s ∈ mb_imu_samples b ->
    ts_clock (im_time s) <> ts_clock (ls_start_time scan) ->
    sync_case m b
      (Error kClockDomainMismatch, ms_set_stats m count_clock_domain, mb_set_lidar b scans)
| sc_overlap scan scans t :
    mb_lidar_scans b = scan :: scans -> ms_last_synchronized_end_time m = Some t ->
    scan_start_ns scan < ts_ns t ->
    sync_case m b
      (Error kOverlappingLidarInterval, ms_next_scan (ms_set_stats m count_scan_overlap),
       mb_set_lidar b scans)
| sc_missing scan scans :
    mb_lidar_scans b = scan :: scans -> ms_last_synchronized_end_time m = None ->
    (forall s, s ∈ mb_imu_samples b -> scan_start_ns scan < imu_ns s) ->
    sync_case m b
      (Error kMissingStartBracket, ms_set_stats m count_missing_start, mb_set_lidar b scans)
| sc_gap scan p first last_ g :
    interval m b scan p first last_ -> segment_gap (segment b first last_) = Value g ->
    ms_maximum_imu_gap_ns m < gs_gap_ns g ->
    sync_case m b (gap_outcome m b scan g)
| sc_group scan p first last_ g :
    interval m b scan p first last_ -> segment_gap (segment b first last_) = Value g ->
    gs_gap_ns g <= ms_maximum_imu_gap_ns m ->
    sync_case m b (group_outcome m b scan p first last_ g).

Lemma segment_elem b first last_ s : s ∈ segment b first last_ -> s ∈ mb_imu_samples b.
Proof.
  intros [i Hs]%list_elem_of_lookup_1. apply lookup_take_Some in Hs as [Hs _].
  rewrite lookup_drop in Hs. by eapply list_elem_of_lookup_2.
Qed.

Lemma segment_lookup b first last_ i x :
  segment b first last_ !! i = Some x <->
  mb_imu_samples b !! (first + i)%nat = Some x /\ (first + i <= last_)%nat.
Proof. unfold segment. rewrite lookup_take_Some, lookup_drop. split; intros []; split; done || lia. Qed.

Lemma interval_gap m b scan p first last_ :
  fusion_inv m b -> interval m b scan p first last_ ->
  exists g, segment_gap (segment b first last_) = Value g /\ 0 <= gs_gap_ns g /\
    (forall i x y, (first <= i < last_)%nat -> mb_imu_samples b !! i = Some x ->
       mb_imu_samples b !! S i = Some y -> imu_ns y - imu_ns x <= gs_gap_ns g) /\
    (0 < gs_gap_ns g -> exists i x y, (first <= i < last_)%nat /\ mb_imu_samples b !! i = Some x /\
       mb_imu_samples b !! S i = Some y /\ g = mkGapScan (imu_ns y - imu_ns x) (imu_ns x) (imu_ns y)).
Proof.
  intros Hi Hv.
  destruct (segment_gap_spec (ts_clock (ls_start_time scan)) (segment b first last_))
    as (g&Hg&Hpos&Hall&Hw).
  { intros s Hs%segment_elem. split; [by apply (fi_imu_ok _ _ Hi)|by apply (iv_clock _ _ _ _ _ _ Hv)]. }
  exists g. split_and!; try done.
  - intros i x y Hib Hx Hy. apply (Hall (i - first)%nat); apply segment_lookup; split; try lia.
    + by replace (first + (i - first))%nat with i by lia.
    + by replace (first + S (i - first))%nat with (S i) by lia.
  - intros (i&x&y&[Hx Hix]%segment_lookup&[Hy Hiy]%segment_lookup&->)%Hw.
    exists (first + i)%nat, x, y. rewrite Nat.add_succ_r in Hy, Hiy. split_and!; try done; lia.
Qed.

Lemma close_interval_spec m b scan scans p start_after first last_ :
  fusion_inv m b -> mb_lidar_scans b = scan :: scans -> interval m b scan p first last_ ->
  start_after = upper_bound_by imu_ns (scan_start_ns scan) (mb_imu_samples b) ->
  start_after <> 0%nat ->
  sync_case m b (close_interval m b (mb_set_lidar b scans) scan p start_after first last_).
Proof.
  intros Hi Hs Hv -> Hne. destruct (interval_gap _ _ _ _ _ _ Hi Hv) as (g&Hg&_).
  unfold close_interval. fold (segment b first last_). rewrite Hg.
  replace scans with (tail (mb_lidar_scans b)) by (by rewrite Hs).
  destruct (Z.ltb_spec (ms_maximum_imu_gap_ns m) (gs_gap_ns g)) as [Hgap|Hgap].
  { by apply (sc_gap m b scan p first last_). }
  destruct (upper_bound_by_spec imu_ns (scan_start_ns scan) (mb_imu_samples b)) as (Hle&Hlo&_);
    [apply (fi_imu _ _ Hi)|].
  set (start_after := upper_bound_by _ _ _) in *.
  destruct (lookup_lt_is_Some_2 (mb_imu_samples b) (pred start_after)) as [x Hx]; [lia|].
  destruct (lookup_lt_is_Some_2 (mb_imu_samples b) last_) as [y Hy]; [apply (iv_bounds _ _ _ _ _ _ Hv)|].
  cbv zeta. rewrite Hx, Hy.
  rewrite (proj2 (Z.leb_le _ _) (Hlo (pred start_after) x ltac:(lia) Hx)).
  rewrite (proj2 (Z.leb_le _ _) (iv_last _ _ _ _ _ _ Hv y Hy)).
  by apply (sc_group m b scan p first last_ g).
Qed.

Lemma bracket_scan_spec m b scan scans :
  fusion_inv m b -> mb_lidar_scans b = scan :: scans -> mb_imu_samples b <> [] ->
  (forall s, s ∈ mb_imu_samples b -> ts_clock (im_time s) = ts_clock (ls_start_time scan)) ->
  (forall t, ms_last_synchronized_end_time m = Some t ->
     ts_ns t <= scan_start_ns scan /\ ts_clock t = ts_clock (ls_start_time scan)) ->
  sync_case m b (bracket_scan m b (mb_set_lidar b scans) scan).
Proof.
  intros Hi Hs Hne Hclk Hepoch. unfold bracket_scan. cbv zeta.
  assert (ordered imu_ns (mb_imu_samples b)) as Ho by apply (fi_imu _ _ Hi).
  set (imu := mb_imu_samples b) in *.
  destruct (upper_bound_by_spec imu_ns (scan_start_ns scan) imu Ho) as (Hle&Hlo&Hhi).
  set (p := default (ls_start_time scan) (ms_last_synchronized_end_time m)).
  destruct (upper_bound_by_spec imu_ns (ts_ns p) imu Ho) as (Hle'&Hlo'&Hhi').
  assert (forall t x, ms_last_synchronized_end_time m = Some t -> imu !! 0%nat = Some x ->
            imu_ns x <= ts_ns t) as Hfront.
  { intros t x Ht Hx. destruct (ei_bracket _ _ (fi_epoch _ _ Hi t Ht)) as (y&Hy&Hyle).
    rewrite head_lookup in Hy. unfold imu in Hx. by simplify_eq. }
  assert (exists x, imu !! 0%nat = Some x) as [x0 Hx0] by (destruct imu; [done|by eexists]).
  destruct (Nat.eqb_spec (upper_bound_by imu_ns (scan_start_ns scan) imu) 0) as [Hz|Hz].
  { destruct (ms_last_synchronized_end_time m) as [t|] eqn:Ht.
    - exfalso. specialize (Hfront t x0 eq_refl Hx0). destruct (Hepoch t eq_refl) as [Hte _].
      specialize (Hhi 0%nat x0 ltac:(lia) Hx0). lia.
    - apply (sc_missing m b scan scans); [done..|].
      intros s [i Hx]%list_elem_of_lookup_1. by apply (Hhi i); [lia|]. }
  assert (upper_bound_by imu_ns (ts_ns p) imu <> 0%nat) as Hz'.
  { unfold p in *. destruct (ms_last_synchronized_end_time m) as [t|] eqn:Ht; [|done]. simpl in *.
    intros Hz'. specialize (Hfront t x0 eq_refl Hx0). specialize (Hhi' 0%nat x0 ltac:(lia) Hx0). lia. }
  rewrite (proj2 (Nat.eqb_neq _ _) Hz').
  set (first := pred (upper_bound_by imu_ns (ts_ns p) imu)) in *.
  destruct (lower_bound_by_spec imu_ns (scan_end_ns scan) (drop first imu)) as (Hle2&Hlo2&Hhi2);
    [by apply ordered_drop|].
  set (k := lower_bound_by imu_ns (scan_end_ns scan) (drop first imu)) in *.
  rewrite length_drop in Hle2.
  assert (forall i x, (first <= i)%nat -> imu !! i = Some x -> drop first imu !! (i - first)%nat = Some x)
    as Hdrop by (intros i x Hi' Hx; rewrite lookup_drop; by replace (first + (i - first))%nat with i by lia).
  destruct (Nat.eqb_spec (first + k) (length imu)) as [Hend|Hend].
  { apply sc_wait. unfold starved. rewrite Hs. intros s [i Hx]%list_elem_of_lookup_1. fold imu in Hx.
    assert (i < length imu)%nat by (by eapply lookup_lt_Some).
    destruct (le_lt_dec first i) as [Hfi|Hfi].
    - apply (Hlo2 (i - first)%nat); [lia|by apply Hdrop].
    - destruct (lookup_lt_is_Some_2 imu first) as [y Hy]; [lia|].
      specialize (Hlo2 0%nat y ltac:(lia)).
      assert (imu_ns s <= imu_ns y) by (eapply (Ho i first); eauto; lia).
      enough (imu_ns y < scan_end_ns scan) by lia. apply Hlo2.
      rewrite <- (Nat.sub_diag first). by apply Hdrop. }
  apply (close_interval_spec m b scan scans); try done. split; try done.
  - by exists scans.
  - unfold p. destruct (ms_last_synchronized_end_time m) as [t|] eqn:Ht; [|done]. by apply Hepoch.
  - unfold p. destruct (ms_last_synchronized_end_time m) as [t|] eqn:Ht; [|done]. by apply Hepoch.
  - fold imu. lia.
  - fold imu. intros x Hx. apply (Hlo' first); [lia|done].
  - fold imu. intros i x Hi' Hx. apply (Hhi' i); [lia|done].
  - fold imu. intros i x Hi' Hx. apply (Hlo2 (i - first)%nat); [lia|]. apply Hdrop; [lia|done].
  - fold imu. intros x Hx. apply (Hhi2 k); [lia|].
    rewrite lookup_drop. by rewrite Hx.
Qed.

(** Every reachable call is one of the cases. *)
Lemma synchronize_spec m b : fusion_inv m b -> sync_case m b (synchronizeNext m b).
Proof.
  intros Hi. unfold synchronizeNext.
  destruct (mb_lidar_scans b) as [|scan scans] eqn:Hs; [by apply sc_wait; unfold starved; rewrite Hs|].
  destruct (head (mb_imu_samples b)) as [front|] eqn:Hf.
  2: { apply head_None in Hf. apply sc_wait. unfold starved. rewrite Hs, Hf. by intros s ?%not_elem_of_nil. }
  destruct (last (mb_imu_samples b)) as [back|] eqn:Hb.
  2: { apply last_None in Hb. by rewrite Hb in Hf. }
  destruct (fi_scan_ok _ _ Hi scan) as [Hok Hval]; [rewrite Hs; by left|].
  rewrite Hval. cbn [status_ok negb].
  assert (front ∈ mb_imu_samples b) as Hfin by (apply list_elem_of_lookup; exists 0%nat; by rewrite <- head_lookup).
  assert (back ∈ mb_imu_samples b) as Hbin by (rewrite last_lookup in Hb; by eapply list_elem_of_lookup_2).
  unfold status_ok. rewrite bool_decide_true by done. cbn [negb].
  destruct (sameClockDomain (ls_start_time scan) (im_time front)) eqn:Hcf; cbn [negb orb].
  2: { apply (sc_clock m b scan scans front); try done. intros Hc. by rewrite (proj2 (sameClockDomain_true _ _) (eq_sym Hc)) in Hcf. }
  destruct (sameClockDomain (ls_start_time scan) (im_time back)) eqn:Hcb; cbn [negb].
  2: { apply (sc_clock m b scan scans back); try done. intros Hc. by rewrite (proj2 (sameClockDomain_true _ _) (eq_sym Hc)) in Hcb. }
  apply sameClockDomain_true in Hcf.
  assert (forall t, ms_last_synchronized_end_time m = Some t -> ts_clock t = ts_clock (ls_start_time scan)) as Hte.
  { intros t Ht. destruct (ei_clock _ _ (fi_epoch _ _ Hi t Ht)) as (l&Hl&Hlc).
    destruct (si_behind _ _ _ _ (fi_scan _ _ Hi) scan) as (l'&Hl'&Hc'&_); [rewrite Hs; by left|]. congruence. }
  assert (forall s, s ∈ mb_imu_samples b -> ts_clock (im_time s) = ts_clock (ls_start_time scan)) as Hclk.
  { intros s Hin. rewrite Hcf. by apply (stream_same_clock _ _ _ _ _ _ (fi_imu _ _ Hi)). }
  assert (mb_imu_samples b <> []) as Hne by (intros Hn; by rewrite Hn in Hf).
  unfold check_epoch. destruct (ms_last_synchronized_end_time m) as [t|] eqn:Ht.
  2: { by apply (bracket_scan_spec m b scan scans); rewrite ?Ht. }
  rewrite (proj2 (sameClockDomain_true _ _) (Hte t eq_refl)). cbn [negb].
  destruct (Z.ltb_spec (scan_start_ns scan) (ts_ns t)) as [Hlt|Hge].
  - destruct (fi_epoch _ _ Hi t Ht) as [Hp Hw _ _]. destruct Hok as [Hp' Hw' _ _ _]. unfold scan_start_ns in Hp'.
    rewrite checkedDifference_nonneg by (done || lia || by apply Hte). by apply (sc_overlap m b scan scans t).
  - apply (bracket_scan_spec m b scan scans); try done. intros t' Ht'. rewrite Ht in Ht'. simplify_eq. by auto.
Qed.

(** ** Every operation keeps the invariant *)

Lemma fusion_new config gap b m :
  buffer_new config = Some b -> synchronizer_new gap = Some m -> fusion_inv m b.
Proof.
  unfold buffer_new, synchronizer_new. destruct (_ || _); [done|]. intros [= <-].
  destruct (Z.leb_spec gap 0); [done|]. intros [= <-].
  split; simpl; try done; try (by apply stream_new); by intros s ?%not_elem_of_nil.
Qed.

Lemma fusion_set_stats m b f g :
  fusion_inv m b -> fusion_inv (ms_set_stats m f) (mb_set_stats b g).
Proof.
  intros [? ? ? ? ? ? He]. split; try done. intros t Ht. by destruct (He t Ht).
Qed.

Lemma fusion_next_scan m b : fusion_inv m b -> fusion_inv (ms_next_scan m) b.
Proof. intros []. by split. Qed.

(** Neither the statistics nor the capacity take part: a rejected push keeps
    everything the invariant reads but the IMU validator's counters. *)
Lemma fusion_buffer_stats m b g : fusion_inv m b -> fusion_inv m (mb_set_stats b g).
Proof. intros [? ? ? ? ? ? He]. split; try done. intros t Ht. by destruct (He t Ht). Qed.

Lemma tv_validate_error v t c v' :
  tv_validate v t = (c, v') -> c <> kOk ->
  tv_config v' = tv_config v /\ tv_last_timestamp v' = tv_last_timestamp v.
Proof. unfold tv_validate. intros Hv Hc. by repeat (guard_case || case_match; simplify_eq). Qed.

Lemma stream_validator {A} (stamp : A -> Timestamp) reject v v' l :
  tv_config v' = tv_config v -> tv_last_timestamp v' = tv_last_timestamp v ->
  stream_inv stamp reject v l -> stream_inv stamp reject v' l.
Proof.
  intros Hc Hl [Hcfg Ho Hb]. split; [congruence|done|]. intros a (t&?&?&?)%Hb. exists t. by rewrite Hl.
Qed.

(** Removing scans, and IMU samples from the front, when no epoch has to keep
    its bracket. *)
Lemma fusion_pop_scan m b scan scans :
  fusion_inv m b -> mb_lidar_scans b = scan :: scans -> fusion_inv m (mb_set_lidar b scans).
Proof.
  intros [? ? Hscan ? ? Hok He] Hs. rewrite Hs in Hscan, Hok. split; simpl; try done.
  - by apply (stream_drop _ _ _ 1) in Hscan.
  - intros x Hx. apply Hok. by right.
  - intros t Ht. by destruct (He t Ht).
Qed.

(** A late sample cannot take the epoch's bracket away. *)
Lemma enqueue_head reject a l x :
  ordered imu_ns l -> ordered imu_ns (enqueue reject imu_ns a l) -> head l = Some x ->
  exists y, head (enqueue reject imu_ns a l) = Some y /\ imu_ns y <= imu_ns x.
Proof.
  intros Ho Ho' Hx.
  assert (x ∈ l) as Hin by (apply list_elem_of_lookup; exists 0%nat; by rewrite <- head_lookup).
  destruct (head (enqueue reject imu_ns a l)) as [y|] eqn:Hy.
  - exists y. split; [done|]. apply (ordered_head _ _ _ _ Ho' Hy). apply elem_of_enqueue. by right.
  - apply head_None in Hy. exfalso. eapply not_elem_of_nil. rewrite <- Hy. apply elem_of_enqueue. by left.
Qed.

Lemma pushImu_accepted m b s :
  fusion_inv m b -> ts_wf (im_time s) -> fst (pushImu b s) = kOk ->
  fusion_inv m (snd (pushImu b s)) /\
  mb_imu_samples (snd (pushImu b s)) = enqueue (rejects b) imu_ns s (mb_imu_samples b) /\
  mb_lidar_scans (snd (pushImu b s)) = mb_lidar_scans b /\
  behind im_time (mb_imu_validator (snd (pushImu b s))) s /\
  (forall x, behind im_time (mb_imu_validator b) x ->
     behind im_time (mb_imu_validator (snd (pushImu b s))) x /\
     (rejects b = true -> imu_ns x < imu_ns s)).
Proof.
  intros Hi Hw. unfold pushImu. destruct (imu_validate s) eqn:Hval; try done. cbn [status_ok].
  unfold status_ok. rewrite bool_decide_true by done. cbn [negb].
  destruct (_ <=? _); [done|]. cbv zeta.
  destruct (tv_validate (mb_imu_validator b) (im_time s)) as [c v] eqn:Hv.
  destruct (decide (c = kOk)) as [->|Hc].
  2: { rewrite bool_decide_false by done. done. }
  rewrite bool_decide_true by done. intros _. cbn [negb fst snd].
  destruct Hi as [Hgap Himu Hscan Hend Hok Hsok He].
  destruct (stream_push _ _ _ _ s _ Himu Hv) as [Hpush _].
  change (stamp_ns im_time) with imu_ns in Hpush.
  destruct (validated _ _ _ _ (si_config _ _ _ _ Himu) Hv) as (_&Hmono&Hnew&Hlt).
  split_and!; try done.
  2: { intros x (t&Ht&Hxc&Hxt). destruct (Hmono t Ht) as (t'&Ht'&Hc'&Hle').
       split; [exists t'; split_and!; [done|congruence|lia]|].
       intros Hr. specialize (Hlt Hr t Ht). unfold imu_ns, stamp_ns in *. lia. }
  split; simpl; try done.
  - intros x [->|Hx]%elem_of_enqueue; [by apply imu_validate_ok|by apply Hok].
  - intros t Ht. destruct (He t Ht) as [? ? ? (x&Hx&Hxt)]. split; try done. simpl.
    destruct (enqueue_head (rejects b) s (mb_imu_samples b) x) as (y&Hy&Hyx);
      [apply Himu|apply Hpush|done|]. exists y. split; [done|lia].
Qed.

Lemma pushImu_rejected m b s :
  fusion_inv m b -> fst (pushImu b s) <> kOk ->
  fusion_inv m (snd (pushImu b s)) /\
  mb_imu_samples (snd (pushImu b s)) = mb_imu_samples b /\
  mb_lidar_scans (snd (pushImu b s)) = mb_lidar_scans b /\
  tv_last_timestamp (mb_imu_validator (snd (pushImu b s))) = tv_last_timestamp (mb_imu_validator b).
Proof.
  intros Hi. unfold pushImu. destruct (negb _); [by intros _; split_and!; [apply fusion_buffer_stats|..]|].
  destruct (_ <=? _); [by intros _; split_and!; [apply fusion_buffer_stats|..]|]. cbv zeta.
  destruct (tv_validate (mb_imu_validator b) (im_time s)) as [c v] eqn:Hv.
  unfold status_ok. destruct (decide (c = kOk)) as [->|Hc]; [by rewrite bool_decide_true|].
  rewrite bool_decide_false by done. cbn [negb fst snd]. intros _.
  destruct (tv_validate_error _ _ _ _ Hv Hc) as [Hcfg Hl].
  split_and!; try done. apply fusion_buffer_stats. destruct Hi as [? Himu ? ? ? ? He].
  split; try done; [by eapply stream_validator|]. intros t Ht. by destruct (He t Ht).
Qed.

Lemma pushLidar_accepted m b s :
  fusion_inv m b -> ts_wf (ls_start_time s) -> ts_wf (ls_end_time s) -> fst (pushLidar b s) = kOk ->
  fusion_inv m (snd (pushLidar b s)) /\
  mb_imu_samples (snd (pushLidar b s)) = mb_imu_samples b /\
  mb_lidar_scans (snd (pushLidar b s)) = enqueue (rejects b) scan_start_ns s (mb_lidar_scans b) /\
  mb_imu_validator (snd (pushLidar b s)) = mb_imu_validator b /\
  mbs_accepted_lidar_scans (mb_stats (snd (pushLidar b s))) =
    u64_inc (mbs_accepted_lidar_scans (mb_stats b)).
Proof.
  intros Hi Hws Hwe. unfold pushLidar. destruct (scan_validate s) eqn:Hval; try done. cbn [status_ok].
  unfold status_ok. rewrite bool_decide_true by done. cbn [negb].
  destruct (_ <=? _); [done|]. cbv zeta.
  destruct (tv_validate (mb_lidar_start_validator b) (ls_start_time s)) as [c v] eqn:Hv.
  destruct (decide (c = kOk)) as [->|Hc]; [|by rewrite bool_decide_false].
  rewrite bool_decide_true by done. cbn [negb].
  destruct (tv_validate (mb_lidar_end_validator b) (ls_end_time s)) as [c' v'] eqn:Hv'.
  destruct (decide (c' = kOk)) as [->|Hc']; [|by rewrite bool_decide_false].
  rewrite bool_decide_true by done. cbn [negb fst snd]. intros _.
  destruct Hi as [Hgap Himu Hscan Hend Hok Hsok He].
  destruct (stream_push _ _ _ _ s _ Hscan Hv) as [Hpush _].
  change (stamp_ns ls_start_time) with scan_start_ns in Hpush.
  split_and!; try done. split; simpl; try done.
  - destruct (validated _ _ _ _ Hend Hv') as [-> _]. done.
  - intros x [->|Hx]%elem_of_enqueue; [|by apply Hsok]. split; [|done]. by apply scan_validate_ok.
  - intros t Ht. destruct (He t Ht) as [? ? (l&Hl&Hlc) ?]. split; try done. simpl.
    destruct (validated _ _ _ _ (si_config _ _ _ _ Hscan) Hv) as (_&Hmono&_).
    destruct (Hmono l Hl) as (l'&?&?&_). exists l'. split; [done|congruence].
Qed.

Lemma pushLidar_rejected b s :
  fst (pushLidar b s) <> kOk ->
  exists g, snd (pushLidar b s) = mb_set_stats b g /\
    mbs_accepted_lidar_scans (g (mb_stats b)) = mbs_accepted_lidar_scans (mb_stats b).
Proof.
  assert (forall c st, mbs_accepted_lidar_scans (accountTimestampError c (count_rejected_lidar st)) =
            mbs_accepted_lidar_scans st) as Hacc by (by intros [] ?).
  unfold pushLidar. destruct (negb _); [intros _; eexists; split; [reflexivity|first [done|apply Hacc]]|].
  destruct (_ <=? _); [intros _; eexists; split; [reflexivity|first [done|apply Hacc]]|]. cbv zeta.
  destruct (tv_validate _ (ls_start_time s)) as [c v]. destruct (negb _); [intros _; eexists; split; [reflexivity|first [done|apply Hacc]]|].
  destruct (tv_validate _ (ls_end_time s)) as [c' v']. destruct (negb _); [intros _; eexists; split; [reflexivity|first [done|apply Hacc]]|].
  done.
Qed.

(** ** A synchronisation keeps the invariant *)

(** Where the estimator resumes after a result, if it moves. *)
Definition resume_of (r : Result SynchronizationResult) : option Timestamp :=
  match r with
  | Value s =>
      match sr_measurement_group s, sr_discontinuity s with
      | Some g, _ => Some (ls_end_time (mg_scan g))
      | None, Some d => Some (pd_resume_time d)
      | None, None => None
      end
  | Error _ => None
  end.

(** Advancing the epoch to [t] and dropping [n] samples. *)
Lemma fusion_advance m b scan scans t n x :
  fusion_inv m b -> mb_lidar_scans b = scan :: scans ->
  0 < ts_ns t -> ts_wf t -> ts_clock t = ts_clock (ls_start_time scan) ->
  mb_imu_samples b !! n = Some x -> imu_ns x <= ts_ns t ->
  fusion_inv (ms_advance_epoch m t)
    (mb_set_imu (mb_set_lidar b scans) (drop n (mb_imu_samples b))).
Proof.
  intros Hi Hs Hpos Hw Hc Hx Hle.
  destruct (fusion_pop_scan _ _ _ _ Hi Hs) as [Hgap Himu Hscan Hend Hok Hsok _].
  split; simpl; try done.
  - by apply stream_drop.
  - intros y [i Hy]%list_elem_of_lookup_1. rewrite lookup_drop in Hy.
    by eapply Hok, list_elem_of_lookup_2.
  - intros t' [= <-]. split; simpl; try done.
    + destruct (si_behind _ _ _ _ (fi_scan _ _ Hi) scan) as (l&Hl&Hlc&_); [rewrite Hs; by left|].
      exists l. split; [done|congruence].
    + exists x. split; [|done]. rewrite head_lookup, lookup_drop. by rewrite Nat.add_0_r.
Qed.

Lemma fusion_sync_stats m b f : fusion_inv m b -> fusion_inv (ms_set_stats m f) b.
Proof. intros []. by split. Qed.

Lemma gap_outcome_inv m b scan p first last_ g :
  fusion_inv m b -> interval m b scan p first last_ ->
  segment_gap (segment b first last_) = Value g -> ms_maximum_imu_gap_ns m < gs_gap_ns g ->
  fusion_inv (snd (fst (gap_outcome m b scan g))) (snd (gap_outcome m b scan g)).
Proof.
  intros Hi Hv Hg Hlt. destruct (interval_gap _ _ _ _ _ _ Hi Hv) as (g'&Hg'&_&_&Hw).
  rewrite Hg in Hg'. simplify_eq. pose proof (fi_gap _ _ Hi).
  destruct Hw as (i&x&y&Hib&Hx&Hy&->); [lia|]. destruct (iv_scan _ _ _ _ _ _ Hv) as [scans Hs].
  destruct (lower_bound_by_spec imu_ns (imu_ns y) (mb_imu_samples b)) as (Hle&Hlo&Hhi);
    [apply (fi_imu _ _ Hi)|]. cbn.
  set (resume := lower_bound_by imu_ns (imu_ns y) (mb_imu_samples b)) in *.
  assert (resume <= S i)%nat as Hri.
  { destruct (le_lt_dec resume (S i)) as [|Hgt]; [done|]. specialize (Hlo _ _ Hgt Hy). lia. }
  assert (S i < length (mb_imu_samples b))%nat by (by eapply lookup_lt_Some).
  destruct (lookup_lt_is_Some_2 (mb_imu_samples b) resume) as [z Hz]; [lia|].
  assert (imu_ns z <= imu_ns y) as Hzy by (by eapply (si_ordered _ _ _ _ (fi_imu _ _ Hi) resume (S i))).
  destruct (fi_imu_ok _ _ Hi y) as [Hy0 Hyw]; [by eapply list_elem_of_lookup_2|].
  rewrite Hs. cbn [tail]. apply fusion_next_scan.
  by apply (fusion_advance _ _ scan _ _ _ z); [apply fusion_sync_stats|..].
Qed.

Lemma group_outcome_inv m b scan p first last_ g :
  fusion_inv m b -> interval m b scan p first last_ ->
  let out := group_outcome m b scan p first last_ g in fusion_inv (snd (fst out)) (snd out).
Proof.
  intros Hi Hv. cbn. destruct (iv_scan _ _ _ _ _ _ Hv) as [scans Hs].
  destruct (fi_scan_ok _ _ Hi scan) as [[Hpos Hws Hwe Hc Hd] _]; [rewrite Hs; by left|].
  pose proof (iv_bounds _ _ _ _ _ _ Hv).
  destruct (lookup_lt_is_Some_2 (mb_imu_samples b) (pred last_)) as [z Hz]; [lia|].
  rewrite Hs. cbn [tail]. apply fusion_sync_stats, fusion_next_scan.
  apply (fusion_advance _ _ scan _ _ _ z); try done; [unfold scan_start_ns, scan_end_ns in *; lia|].
  change (imu_ns z <= scan_end_ns scan). destruct (decide (first = last_)) as [->|Hne].
  - destruct (lookup_lt_is_Some_2 (mb_imu_samples b) last_) as [w Hwl]; [lia|].
    pose proof (iv_first _ _ _ _ _ _ Hv w Hwl). pose proof (iv_start_le _ _ _ _ _ _ Hv).
    assert (imu_ns z <= imu_ns w) by (eapply (si_ordered _ _ _ _ (fi_imu _ _ Hi) (pred last_) last_); eauto; lia).
    lia.
  - enough (imu_ns z < scan_end_ns scan) by lia. eapply (iv_before _ _ _ _ _ _ Hv); [|exact Hz]. lia.
Qed.

Lemma sync_case_effects m b r m' b' :
  fusion_inv m b -> sync_case m b (r, m', b') ->
  fusion_inv m' b' /\ mb_config b' = mb_config b /\
  ms_last_synchronized_end_time m' =
    match resume_of r with Some t => Some t | None => ms_last_synchronized_end_time m end /\
  (exists n, mb_imu_samples b' = drop n (mb_imu_samples b)) /\
  mb_imu_validator b' = mb_imu_validator b.
Proof.
  intros Hi Hc. inversion Hc; subst; clear Hc;
    try (assert (fusion_inv m (mb_set_lidar b scans)) by (by eapply fusion_pop_scan)).
  - split_and!; [by apply fusion_sync_stats|done|done|by exists 0%nat|done].
  - split_and!; [by apply fusion_sync_stats|done|done|by exists 0%nat|done].
  - split_and!; [by apply fusion_next_scan, fusion_sync_stats|done|done|by exists 0%nat|done].
  - split_and!; [by apply fusion_sync_stats|done|done|by exists 0%nat|done].
  - split_and!; [|done|done|by eexists|done]. by eapply gap_outcome_inv.
  - split_and!; [|done|done|by eexists|done]. by apply (group_outcome_inv m b scan p first last_ g).
Qed.
End Invariant.

(** ** Runs of the pipeline *)

Inductive event : Type :=
| ev_imu (s : ImuSample)
| ev_lidar (s : LidarScan)
| ev_sync (r : Result SynchronizationResult)
| ev_reset.

Record fusion : Type := mkFusion {
  fu_sync : MeasurementSynchronizer;
  fu_buffer : MeasurementBuffer;
  fu_log : list event
}.

(** What [FastLioPipeline] does with the two: [pushImu], [pushLidar],
    [processNext], and [reset], which clears both. *)
Inductive fusion_op : Type :=
| op_push_imu (s : ImuSample)
| op_push_lidar (s : LidarScan)
| op_synchronize
| op_reset.

Section Runs.
Context {E : EigenOps} {EF : EigenFloatOps}.

(** Only accepted measurements are logged. *)
Definition fusion_step (f : fusion) (o : fusion_op) : fusion :=
  match o with
  | op_push_imu s =>
      let (status, b) := pushImu (fu_buffer f) s in
      mkFusion (fu_sync f) b (fu_log f ++ if status_ok status then [ev_imu s] else [])
  | op_push_lidar s =>
      let (status, b) := pushLidar (fu_buffer f) s in
      mkFusion (fu_sync f) b (fu_log f ++ if status_ok status then [ev_lidar s] else [])
  | op_synchronize =>
      let '(r, m, b) := synchronizeNext (fu_sync f) (fu_buffer f) in
      mkFusion m b (fu_log f ++ [ev_sync r])
  | op_reset =>
      mkFusion (synchronizer_reset (fu_sync f)) (buffer_clear (fu_buffer f)) (fu_log f ++ [ev_reset])
  end.

Definition fusion_init (config : MeasurementBufferConfig) (maximum_imu_gap_ns : Z) : option fusion :=
  b ← buffer_new config;
  m ← synchronizer_new maximum_imu_gap_ns;
  Some (mkFusion m b []).

Definition op_wf (o : fusion_op) : Prop :=
  match o with
  | op_push_imu s => ts_wf (im_time s)
  | op_push_lidar s => ts_wf (ls_start_time s) /\ ts_wf (ls_end_time s)
  | _ => True
  end.

(** A state the pipeline can reach from the two constructors. *)
Inductive fusion_reachable : fusion -> Prop :=
| fr_init config gap f : fusion_init config gap = Some f -> fusion_reachable f
| fr_step f o : fusion_reachable f -> op_wf o -> fusion_reachable (fusion_step f o).

(** The instant the log says propagation has reached since the last reset. *)
Definition covered_until (log : list event) : option Timestamp :=
  foldl (fun t e =>
    match e with
    | ev_sync r => match resume_of r with Some t' => Some t' | None => t end
    | ev_reset => None
    | _ => t
    end) None log.

(** The IMU samples accepted since the last reset, oldest first. *)
Definition accepted_imu (log : list event) : list ImuSample :=
  foldl (fun l e => match e with ev_imu s => l ++ [s] | ev_reset => [] | _ => l end) [] log.

Lemma covered_until_snoc log e :
  covered_until (log ++ [e]) =
    match e with
    | ev_sync r => match resume_of r with Some t' => Some t' | None => covered_until log end
    | ev_reset => None
    | _ => covered_until log
    end.
Proof. unfold covered_until. by rewrite foldl_app. Qed.

Lemma accepted_imu_snoc log e :
  accepted_imu (log ++ [e]) =
    match e with
    | ev_imu s => accepted_imu log ++ [s] | ev_reset => [] | _ => accepted_imu log
    end.
Proof. unfold accepted_imu. by rewrite foldl_app. Qed.

(** The state agrees with its log. *)
Record log_inv (f : fusion) : Prop := {
  li_inv : fusion_inv (fu_sync f) (fu_buffer f);
  li_epoch : epoch (fu_sync f) = covered_until (fu_log f);
  li_stream : rejects (fu_buffer f) = true ->
    (exists before, accepted_imu (fu_log f) = before ++ mb_imu_samples (fu_buffer f)) /\
    strictly_ordered imu_ns (accepted_imu (fu_log f)) /\
    (forall s, s ∈ accepted_imu (fu_log f) -> behind im_time (mb_imu_validator (fu_buffer f)) s)
}.

Lemma pushImu_config b s : mb_config (snd (pushImu b s)) = mb_config b.
Proof.
  unfold pushImu. destruct (negb _); [done|]. destruct (_ <=? _); [done|].
  destruct (tv_validate _ _). by destruct (negb _).
Qed.

Lemma pushLidar_config b s : mb_config (snd (pushLidar b s)) = mb_config b.
Proof.
  unfold pushLidar. destruct (negb _); [done|]. destruct (_ <=? _); [done|].
  destruct (tv_validate _ _). destruct (negb _); [done|].
  destruct (tv_validate _ _). by destruct (negb _).
Qed.

Lemma log_inv_imu f s :
  log_inv f -> ts_wf (im_time s) -> log_inv (fusion_step f (op_push_imu s)).
Proof.
  intros [Hi He Hl] Hw. pose proof (pushImu_config (fu_buffer f) s) as Hcfg. simpl.
  destruct (decide (fst (pushImu (fu_buffer f) s) = kOk)) as [Hc|Hc].
  - destruct (pushImu_accepted _ _ s Hi Hw Hc) as (Hi'&Himu&_&Hnew&Hold).
    destruct (pushImu (fu_buffer f) s) as [c b]. simpl in *. subst c.
    split; simpl; [done|by rewrite covered_until_snoc|].
    unfold rejects in *. rewrite Hcfg. intros Hr. destruct (Hl Hr) as ([before Hb]&Hso&Hbeh).
    rewrite accepted_imu_snoc. split_and!.
    + exists before. rewrite Hb, Himu. unfold enqueue. rewrite Hr. simpl. by rewrite app_assoc.
    + apply strictly_ordered_snoc; [done|]. intros x Hx. by apply Hold; [apply Hbeh|].
    + intros x [Hx| ->%list_elem_of_singleton]%elem_of_app; [by apply Hold, Hbeh|done].
  - destruct (pushImu_rejected _ _ s Hi Hc) as (Hi'&Himu&_&Hlast).
    destruct (pushImu (fu_buffer f) s) as [c b]. simpl in *.
    unfold status_ok. rewrite bool_decide_false, app_nil_r by done.
    split; simpl; [done|done|]. unfold rejects in *. rewrite Hcfg, Himu. intros Hr.
    destruct (Hl Hr) as (?&?&Hbeh). split_and!; try done. intros x (t&?&?&?)%Hbeh.
    exists t. by rewrite Hlast.
Qed.

Lemma log_inv_lidar f s :
  log_inv f -> ts_wf (ls_start_time s) -> ts_wf (ls_end_time s) ->
  log_inv (fusion_step f (op_push_lidar s)).
Proof.
  intros [Hi He Hl] Hws Hwe. pose proof (pushLidar_config (fu_buffer f) s) as Hcfg. simpl.
  destruct (decide (fst (pushLidar (fu_buffer f) s) = kOk)) as [Hc|Hc].
  - destruct (pushLidar_accepted _ _ s Hi Hws Hwe Hc) as (Hi'&Himu&_&Hval&_).
    destruct (pushLidar (fu_buffer f) s) as [c b]. simpl in *. subst c.
    split; simpl; [done|by rewrite covered_until_snoc|].
    unfold rejects in *. by rewrite Hcfg, accepted_imu_snoc, Himu, Hval.
  - destruct (pushLidar_rejected _ s Hc) as (g&Hb&_).
    destruct (pushLidar (fu_buffer f) s) as [c b]. simpl in *. subst b.
    unfold status_ok. rewrite bool_decide_false, app_nil_r by done.
    split; simpl; [by apply fusion_buffer_stats|done|done].
Qed.

Lemma log_inv_sync f : log_inv f -> log_inv (fusion_step f op_synchronize).
Proof.
  intros [Hi He Hl]. pose proof (synchronize_spec _ _ Hi) as Hc. simpl.
  destruct (synchronizeNext (fu_sync f) (fu_buffer f)) as [[r m] b].
  destruct (sync_case_effects _ _ _ _ _ Hi Hc) as (Hi'&Hcfg&Hep&(n&Hn)&Hval).
  split; simpl; [done| |].
  - rewrite covered_until_snoc, <- He. apply Hep.
  - unfold rejects in *. rewrite Hcfg. intros Hr. destruct (Hl Hr) as ([before Hb]&Hso&Hbeh).
    rewrite accepted_imu_snoc, Hval. split_and!; [|done..].
    exists (before ++ take n (mb_imu_samples (fu_buffer f))).
    by rewrite Hb, Hn, <- app_assoc, take_drop.
Qed.

Lemma log_inv_reset f : log_inv f -> log_inv (fusion_step f op_reset).
Proof.
  intros [[Hg [Hc _ _] [Hc' _ _] Hend _ _ _] _ _]. split; simpl.
  - split; simpl; try done; try (by apply stream_new); by intros s ?%not_elem_of_nil.
  - by rewrite covered_until_snoc.
  - intros _. rewrite accepted_imu_snoc.
    split_and!; [by exists []|by intros i j x y _ Hx|by intros x ?%not_elem_of_nil].
Qed.

Lemma reachable_log_inv f : fusion_reachable f -> log_inv f.
Proof.
  induction 1 as [config gap f Hf|f o _ IH Hw].
  - unfold fusion_init in Hf. destruct (buffer_new config) as [b|] eqn:Hb; [|done].
    destruct (synchronizer_new gap) as [m|] eqn:Hm; [|done]. simplify_eq/=.
    split; simpl; [by eapply fusion_new| |].
    + unfold synchronizer_new in Hm. by destruct (_ <=? _); simplify_eq/=.
    + intros _. split_and!; [|by intros i j x y _ Hx|by intros x ?%not_elem_of_nil].
      exists []. unfold buffer_new in Hb. by destruct (_ || _); simplify_eq/=.
  - destruct o as [s|s| |]; simpl in Hw.
    + by apply log_inv_imu.
    + by apply log_inv_lidar; destruct Hw.
    + by apply log_inv_sync.
    + by apply log_inv_reset.
Qed.

(** A group or a discontinuity of a reachable state comes from its case. *)
Lemma group_case f g d m b :
  log_inv f ->
  synchronizeNext (fu_sync f) (fu_buffer f) = (Value (mkSynchronizationResult (Some g) d), m, b) ->
  exists scan p first last_ gap,
    interval (fu_sync f) (fu_buffer f) scan p first last_ /\
    segment_gap (segment (fu_buffer f) first last_) = Value gap /\
    gs_gap_ns gap <= ms_maximum_imu_gap_ns (fu_sync f) /\
    g = mkMeasurementGroup scan (segment (fu_buffer f) first last_) p true true (gs_gap_ns gap) /\
    d = None /\ epoch m = Some (ls_end_time scan).
Proof.
  intros [Hi _ _] Hs. pose proof (synchronize_spec _ _ Hi) as Hc. rewrite Hs in Hc.
  inversion Hc; subst. by exists scan, p, first, last_, g0.
Qed.

Lemma segment_head b first last_ x :
  (first <= last_)%nat -> mb_imu_samples b !! first = Some x -> head (segment b first last_) = Some x.
Proof.
  intros Hle Hx. rewrite head_lookup. apply segment_lookup. rewrite Nat.add_0_r. by split.
Qed.

Lemma segment_length b first last_ :
  (first <= last_ < length (mb_imu_samples b))%nat ->
  length (segment b first last_) = (S last_ - first)%nat.
Proof. intros H. unfold segment. rewrite length_take, length_drop. lia. Qed.

Lemma segment_last b first last_ x :
  (first <= last_)%nat -> mb_imu_samples b !! last_ = Some x -> last (segment b first last_) = Some x.
Proof.
  intros Hle Hx. assert (last_ < length (mb_imu_samples b))%nat by (by eapply lookup_lt_Some).
  rewrite last_lookup, segment_length by lia. apply segment_lookup.
  split; [|lia]. by replace (first + pred (S last_ - first))%nat with last_ by lia.
Qed.
End Runs.

(** ** Accounting *)

Section Accounting.
Context {E : EigenOps} {EF : EigenFloatOps}.

(** The scans the synchronizer's counters have seen leave the queue. *)
Definition scans_consumed (s : MeasurementSynchronizerStats) : Z :=
  mss_synchronized_groups s + mss_rejected_missing_start_bracket s + mss_rejected_imu_gap s +
  mss_rejected_clock_domain s + mss_rejected_scan_overlap s.

(** The counters are unsigned 64-bit, so the books balance modulo [2^64]. *)
Definition scans_balanced (f : fusion) : Prop :=
  mbs_accepted_lidar_scans (mb_stats (fu_buffer f)) mod 2 ^ 64 =
  (scans_consumed (ms_stats (fu_sync f)) + Z.of_nat (length (mb_lidar_scans (fu_buffer f)))) mod 2 ^ 64.

Lemma mod_step (n a a' b b' : Z) :
  a mod n = b mod n -> (a' - a) mod n = (b' - b) mod n -> a' mod n = b' mod n.
Proof.
  intros H1 H2. replace a' with (a + (a' - a)) by lia. replace b' with (b + (b' - b)) by lia.
  by rewrite Zplus_mod, H1, H2, <- Zplus_mod.
Qed.

Lemma u64_inc_mod x : exists k, u64_inc x = x + 1 + k * 2 ^ 64.
Proof.
  unfold u64_inc, u64_add. exists (- ((x + 1) / 2 ^ 64)). rewrite Z.mod_eq by done. lia.
Qed.

(** Popping the front scan while one counter of the synchronizer moves up. *)
Lemma balanced_consume m m' b b' log log' scan :
  scans_balanced (mkFusion m b log) ->
  mb_stats b' = mb_stats b -> mb_lidar_scans b = scan :: mb_lidar_scans b' ->
  (exists k, scans_consumed (ms_stats m') = scans_consumed (ms_stats m) + 1 + k * 2 ^ 64) ->
  scans_balanced (mkFusion m' b' log').
Proof.
  unfold scans_balanced. simpl. intros Hb -> Hs [k ->]. rewrite Hb, Hs. cbn [length].
  rewrite Nat2Z.inj_succ. symmetry. rewrite <- (Z_mod_plus_full _ (- k)). f_equal. lia.
Qed.

Lemma balanced_sync f : log_inv f -> scans_balanced f -> scans_balanced (fusion_step f op_synchronize).
Proof.
  destruct f as [m b log]. intros [Hi _ _] Hb. pose proof (synchronize_spec _ _ Hi) as Hc. simpl in *.
  destruct (synchronizeNext m b) as [[r m'] b'].
  inversion Hc; subst; clear Hc; [done|eapply (balanced_consume m _ b _ log)..]; try done;
    try (eapply iv_scan in H2 as [scans Hs]; by rewrite Hs).
  all: unfold scans_consumed; simpl;
    match goal with |- context [u64_inc ?x] => destruct (u64_inc_mod x) as [k ->]; exists k; lia end.
Qed.

Lemma balanced_lidar f s :
  log_inv f -> ts_wf (ls_start_time s) -> ts_wf (ls_end_time s) ->
  scans_balanced f -> scans_balanced (fusion_step f (op_push_lidar s)).
Proof.
  destruct f as [m b log]. intros [Hi _ _] Hws Hwe Hb. simpl in *.
  destruct (decide (fst (pushLidar b s) = kOk)) as [Hc|Hc].
  - destruct (pushLidar_accepted _ _ s Hi Hws Hwe Hc) as (_&_&Hl&_&Hacc).
    destruct (pushLidar b s) as [c b']. simpl in *. unfold scans_balanced in *. simpl in *.
    rewrite Hl, Hacc, enqueue_perm. simpl. destruct (u64_inc_mod (mbs_accepted_lidar_scans (mb_stats b))) as [k ->].
    rewrite Z_mod_plus_full. apply (mod_step _ _ _ _ _ Hb). f_equal. lia.
  - destruct (pushLidar_rejected _ s Hc) as (g&Hb'&Hacc).
    destruct (pushLidar b s) as [c b']. simpl in *. subst b'.
    unfold scans_balanced in *. simpl in *. by rewrite Hacc.
Qed.

Lemma pushImu_scans b s :
  mb_lidar_scans (snd (pushImu b s)) = mb_lidar_scans b /\
  mbs_accepted_lidar_scans (mb_stats (snd (pushImu b s))) = mbs_accepted_lidar_scans (mb_stats b).
Proof.
  assert (forall c st, mbs_accepted_lidar_scans (accountTimestampError c (count_rejected_imu st)) =
            mbs_accepted_lidar_scans st) as Hacc by (by intros [] ?).
  unfold pushImu. destruct (negb _); [done|]. destruct (_ <=? _); [done|]. cbv zeta.
  destruct (tv_validate _ _). destruct (negb _); [|done]. simpl. by rewrite Hacc.
Qed.

Lemma reachable_balanced f : fusion_reachable f -> scans_balanced f.
Proof.
  induction 1 as [config gap f Hf|f o Hr IH Hw].
  - unfold fusion_init, buffer_new, synchronizer_new in Hf.
    destruct (_ || _); [done|]. simpl in Hf. by destruct (_ <=? _); simplify_eq/=.
  - pose proof (reachable_log_inv _ Hr) as Hl. destruct o as [s|s| |]; simpl in Hw.
    + destruct f as [m b log]. pose proof (pushImu_scans b s) as [Hs Ha]. simpl.
      destruct (pushImu b s) as [c b']. unfold scans_balanced in *. simpl in *. by rewrite Hs, Ha.
    + by apply balanced_lidar; destruct Hw.
    + by apply balanced_sync.
    + done.
Qed.

(** The cases of a call, in terms of the log. *)
Lemma sync_progress_cases f :
  log_inv f ->
  let '(r, m, b) := synchronizeNext (fu_sync f) (fu_buffer f) in
  (r = Value sync_waiting /\ b = fu_buffer f /\ epoch m = epoch (fu_sync f) /\ starved b) \/
  exists scan, mb_lidar_scans (fu_buffer f) = scan :: mb_lidar_scans b /\
    match r with
    | Value s => s <> sync_waiting
    | Error kClockDomainMismatch =>
        exists s, s ∈ mb_imu_samples (fu_buffer f) /\ ts_clock (im_time s) <> ts_clock (ls_start_time scan)
    | Error kOverlappingLidarInterval =>
        exists t, covered_until (fu_log f) = Some t /\ scan_start_ns scan < ts_ns t
    | Error kMissingStartBracket =>
        covered_until (fu_log f) = None /\
        forall s, s ∈ mb_imu_samples (fu_buffer f) -> scan_start_ns scan < imu_ns s
    | Error _ => False
    end.
Proof.
  intros [Hi He _]. pose proof (synchronize_spec _ _ Hi) as Hc.
  destruct (synchronizeNext (fu_sync f) (fu_buffer f)) as [[r m] b].
  unfold epoch in He. inversion Hc; subst; clear Hc; [by left|right..];
    try (destruct (iv_scan _ _ _ _ _ _ H2) as [scans Hs]);
    exists scan; (split; [by rewrite ?Hs|]); try done.
  - by exists s.
  - exists t. by rewrite <- He.
  - by rewrite <- He.
Qed.
End Accounting.

(** ** Main theorems *)

Section Theorems.
Context {E : EigenOps} {EF : EigenFloatOps}.

(** C15. A measurement group the synchronizer emits in any reachable state is
    what the estimator needs: it is for the oldest queued scan, its samples
    bracket the interval from the instant propagation had reached (the scan
    start for the first group) to the scan end as tightly as the queue allows,
    no two neighbours are further apart than the reported maximum gap, which
    the configuration bounds, both bracket flags are set, and propagation then
    stands at the scan end. *)
Theorem synchronized_group_sound f g d m b :
  fusion_reachable f ->
  synchronizeNext (fu_sync f) (fu_buffer f) = (Value (mkSynchronizationResult (Some g) d), m, b) ->
  let imu := mg_imu_samples g in
  let scan := mg_scan g in
  let p := mg_propagation_start_time g in
  head (mb_lidar_scans (fu_buffer f)) = Some scan /\ fullyBracketed g = true /\
  p = default (ls_start_time scan) (covered_until (fu_log f)) /\
  epoch m = Some (ls_end_time scan) /\
  (exists s0 s1, head imu = Some s0 /\ last imu = Some s1 /\
     imu_ns s0 <= ts_ns p <= scan_start_ns scan /\ scan_start_ns scan <= scan_end_ns scan <= imu_ns s1) /\
  (forall i s, imu !! S i = Some s -> ts_ns p < imu_ns s) /\
  (forall i s t, imu !! i = Some s -> imu !! S i = Some t -> imu_ns s < scan_end_ns scan) /\
  (forall i s t, imu !! i = Some s -> imu !! S i = Some t ->
     0 <= imu_ns t - imu_ns s <= mg_max_imu_gap_ns g) /\
  mg_max_imu_gap_ns g <= ms_maximum_imu_gap_ns (fu_sync f).
Proof.
  intros Hr Hs. pose proof (reachable_log_inv _ Hr) as Hl.
  destruct (group_case _ _ _ _ _ Hl Hs) as (scan&p&first&last_&gap&Hv&Hg&Hmax&->&->&Hm).
  destruct Hl as [Hi He _]. cbn.
  destruct (interval_gap _ _ _ _ _ _ Hi Hv) as (gap'&Hg'&_&Hall&_). rewrite Hg in Hg'. simplify_eq.
  pose proof (iv_bounds _ _ _ _ _ _ Hv) as [Hb1 Hb2].
  destruct (lookup_lt_is_Some_2 (mb_imu_samples (fu_buffer f)) first) as [s0 H0]; [lia|].
  destruct (lookup_lt_is_Some_2 (mb_imu_samples (fu_buffer f)) last_) as [s1 H1]; [done|].
  destruct (iv_scan _ _ _ _ _ _ Hv) as [scans Hsc].
  destruct (fi_scan_ok _ _ Hi scan) as [[_ _ _ _ Hd] _]; [rewrite Hsc; by left|].
  pose proof (si_ordered _ _ _ _ (fi_imu _ _ Hi)) as Ho. change (stamp_ns im_time) with imu_ns in Ho.
  split_and!.
  - by rewrite Hsc.
  - done.
  - rewrite <- He. apply (iv_start _ _ _ _ _ _ Hv).
  - done.
  - exists s0, s1. pose proof (iv_first _ _ _ _ _ _ Hv s0 H0). pose proof (iv_last _ _ _ _ _ _ Hv s1 H1).
    pose proof (iv_start_le _ _ _ _ _ _ Hv). split_and!; try lia; [by apply segment_head|by apply segment_last].
  - intros i s [Hx Hxl]%segment_lookup. eapply (iv_after _ _ _ _ _ _ Hv); [|exact Hx]. lia.
  - intros i s t [Hx Hxl]%segment_lookup [_ Hyl]%segment_lookup.
    eapply (iv_before _ _ _ _ _ _ Hv); [|exact Hx]. lia.
  - intros i s t [Hx Hxl]%segment_lookup [Hy Hyl]%segment_lookup. rewrite Nat.add_succ_r in Hy, Hyl.
    assert (imu_ns s <= imu_ns t) by (eapply (Ho (first + i)%nat); [|exact Hx|exact Hy]; lia).
    specialize (Hall (first + i)%nat s t ltac:(lia) Hx Hy). lia.
  - done.
Qed.

(** With regressions rejected, no motion is skipped: the samples of a group
    are a contiguous stretch of the IMU stream accepted since the last reset,
    and every accepted sample between the end of the previous interval and the
    end of the scan is among them. *)
Theorem no_motion_skipped f g d m b :
  fusion_reachable f -> mbc_reject_timestamp_regression (mb_config (fu_buffer f)) = true ->
  synchronizeNext (fu_sync f) (fu_buffer f) = (Value (mkSynchronizationResult (Some g) d), m, b) ->
  strictly_ordered imu_ns (accepted_imu (fu_log f)) /\
  (exists before after, accepted_imu (fu_log f) = before ++ mg_imu_samples g ++ after) /\
  (forall s, s ∈ accepted_imu (fu_log f) ->
     ts_ns (mg_propagation_start_time g) <= imu_ns s <= scan_end_ns (mg_scan g) ->
     s ∈ mg_imu_samples g).
Proof.
  intros Hr Hrej Hs. pose proof (reachable_log_inv _ Hr) as Hl.
  destruct (group_case _ _ _ _ _ Hl Hs) as (scan&p&first&last_&gap&Hv&_&_&->&_&_). cbn.
  destruct (li_stream _ Hl Hrej) as ([before Hb]&Hso&_). destruct Hl as [Hi _ _].
  set (imu := mb_imu_samples (fu_buffer f)) in *.
  pose proof (iv_bounds _ _ _ _ _ _ Hv) as [Hb1 Hb2]. fold imu in Hb2.
  assert (imu = take first imu ++ segment (fu_buffer f) first last_ ++ drop (S last_) imu) as Himu.
  { unfold segment. fold imu. rewrite <- (take_drop first imu) at 1. f_equal.
    rewrite <- (take_drop (S last_ - first) (drop first imu)) at 1. f_equal.
    rewrite drop_drop. f_equal. lia. }
  split_and!; [done| |].
  { exists (before ++ take first imu), (drop (S last_) imu). rewrite Hb, <- app_assoc. by f_equal. }
  intros s [j Hj]%list_elem_of_lookup_1 [Hps Hse].
  destruct (lookup_lt_is_Some_2 imu first) as [s0 H0]; [lia|].
  destruct (lookup_lt_is_Some_2 imu last_) as [s1 H1]; [done|].
  pose proof (iv_first _ _ _ _ _ _ Hv s0 H0). pose proof (iv_last _ _ _ _ _ _ Hv s1 H1).
  assert (forall i x, imu !! i = Some x -> accepted_imu (fu_log f) !! (length before + i)%nat = Some x) as Hlift.
  { intros i x Hx. rewrite Hb, lookup_app_r by lia. by replace (length before + i - length before)%nat with i by lia. }
  pose proof (Hlift _ _ H0) as H0'. pose proof (Hlift _ _ H1) as H1'.
  destruct (le_lt_dec (length before + first) j) as [Hge|Hlt].
  2: { specialize (Hso _ _ _ _ Hlt Hj H0'). lia. }
  destruct (le_lt_dec j (length before + last_)) as [Hle|Hgt].
  2: { specialize (Hso _ _ _ _ Hgt H1' Hj). lia. }
  rewrite Hb, lookup_app_r in Hj by lia. fold imu in Hj.
  apply (list_elem_of_lookup_2 _ (j - length before - first)%nat). apply segment_lookup. split; [|lia].
  by replace (first + (j - length before - first))%nat with (j - length before)%nat by lia.
Qed.

(** A call never stalls and never fails without its reason: it waits,
    changing nothing but its counter, only when no IMU sample has reached the
    end of the oldest scan; otherwise it removes exactly that scan and reports a
    group, a discontinuity, or one of three errors whose cause is present (IMU
    on another clock, scan starting before the covered instant, no sample
    before the first scan).  Once propagation has started a scan is never
    rejected for a missing start bracket, no time difference overflows, and at
    most as many calls as scans are queued reach a call that waits. *)
Theorem synchronize_progress f :
  fusion_reachable f ->
  (let '(r, m, b) := synchronizeNext (fu_sync f) (fu_buffer f) in
   (r = Value sync_waiting /\ b = fu_buffer f /\ epoch m = epoch (fu_sync f) /\ starved b) \/
   exists scan, mb_lidar_scans (fu_buffer f) = scan :: mb_lidar_scans b /\
     match r with
     | Value s => s <> sync_waiting
     | Error kClockDomainMismatch =>
         exists s, s ∈ mb_imu_samples (fu_buffer f) /\ ts_clock (im_time s) <> ts_clock (ls_start_time scan)
     | Error kOverlappingLidarInterval =>
         exists t, covered_until (fu_log f) = Some t /\ scan_start_ns scan < ts_ns t
     | Error kMissingStartBracket =>
         covered_until (fu_log f) = None /\
         forall s, s ∈ mb_imu_samples (fu_buffer f) -> scan_start_ns scan < imu_ns s
     | Error _ => False
     end) /\
  (exists k, (k <= length (mb_lidar_scans (fu_buffer f)))%nat /\
     let f' := run fusion_step f (repeat op_synchronize k) in
     fst (fst (synchronizeNext (fu_sync f') (fu_buffer f'))) = Value sync_waiting).
Proof.
  intros Hr. split; [by apply sync_progress_cases, reachable_log_inv|].
  remember (length (mb_lidar_scans (fu_buffer f))) as n eqn:Hn.
  revert f Hr Hn; induction n as [|n IH]; intros f Hr Hn;
    pose proof (sync_progress_cases f (reachable_log_inv _ Hr)) as Hp;
    pose proof (fr_step f op_synchronize Hr I) as Hr'; cbn [fusion_step] in Hr';
    destruct (synchronizeNext (fu_sync f) (fu_buffer f)) as [[r m] b] eqn:Hs;
    destruct Hp as [(->&_)|(scan&Hsc&_)]; try (exists 0%nat; split; [lia|]; simpl; by rewrite Hs).
  - by rewrite Hsc in Hn.
  - destruct (IH _ Hr') as (k&Hk&Hw); [simpl; rewrite Hsc in Hn; simpl in Hn; lia|].
    exists (S k). split; [lia|]. simpl. rewrite Hs. exact Hw.
Qed.

(** Every accepted scan is accounted for: in any reachable state the number
    of accepted scans equals the groups emitted, plus the scans rejected for a
    missing start bracket, an IMU gap, a clock mismatch or an overlap, plus the
    scans still queued (modulo the width of the counters): no scan disappears
    on an uncounted error path. *)
Theorem scan_accounting f :
  fusion_reachable f ->
  let s := ms_stats (fu_sync f) in
  mbs_accepted_lidar_scans (mb_stats (fu_buffer f)) mod 2 ^ 64 =
  (mss_synchronized_groups s + mss_rejected_missing_start_bracket s + mss_rejected_imu_gap s +
   mss_rejected_clock_domain s + mss_rejected_scan_overlap s + lidarSize (fu_buffer f)) mod 2 ^ 64.
Proof. apply reachable_balanced. Qed.

(** A discontinuity names the widest gap of the interval, wider than allowed,
    and the IMU queue then starts at the sample that ends it. *)
Theorem discontinuity_sound f d g m b :
  fusion_reachable f ->
  synchronizeNext (fu_sync f) (fu_buffer f) = (Value (mkSynchronizationResult g (Some d)), m, b) ->
  ms_maximum_imu_gap_ns (fu_sync f) < pd_gap_duration_ns d /\
  pd_gap_duration_ns d = ts_ns (pd_gap_end d) - ts_ns (pd_gap_begin d) /\
  pd_resume_time d = pd_gap_end d /\ epoch m = Some (pd_gap_end d) /\
  (exists i x y, mb_imu_samples (fu_buffer f) !! i = Some x /\
     mb_imu_samples (fu_buffer f) !! S i = Some y /\
     imu_ns x = ts_ns (pd_gap_begin d) /\ imu_ns y = ts_ns (pd_gap_end d)) /\
  (exists s, head (mb_imu_samples b) = Some s /\ imu_ns s = ts_ns (pd_gap_end d)).
Proof.
  intros Hr Hs. destruct (reachable_log_inv _ Hr) as [Hi _ _].
  pose proof (synchronize_spec _ _ Hi) as Hc. rewrite Hs in Hc.
  inversion Hc as [| | | |scan p first last_ gap Hv Hg Hlt|]; subst; clear Hc.
  destruct (interval_gap _ _ _ _ _ _ Hi Hv) as (g'&Hg'&_&_&Hw). rewrite Hg in Hg'. simplify_eq.
  pose proof (fi_gap _ _ Hi). destruct Hw as (i&x&y&Hib&Hx&Hy&->); [lia|]. cbn in *.
  split_and!; try done; [by exists i, x, y|].
  destruct (lower_bound_by_spec imu_ns (imu_ns y) (mb_imu_samples (fu_buffer f))) as (Hle&Hlo&Hhi);
    [apply (fi_imu _ _ Hi)|].
  set (resume := lower_bound_by imu_ns (imu_ns y) (mb_imu_samples (fu_buffer f))) in *.
  assert (resume <= S i)%nat as Hri.
  { destruct (le_lt_dec resume (S i)) as [|Hgt]; [done|]. specialize (Hlo _ _ Hgt Hy). lia. }
  assert (S i < length (mb_imu_samples (fu_buffer f)))%nat by (by eapply lookup_lt_Some).
  destruct (lookup_lt_is_Some_2 (mb_imu_samples (fu_buffer f)) resume) as [z Hz]; [lia|].
  exists z. split; [by rewrite head_lookup, lookup_drop, Nat.add_0_r|].
  specialize (Hhi resume z (le_n _) Hz).
  assert (imu_ns z <= imu_ns y); [|lia].
  eapply (si_ordered _ _ _ _ (fi_imu _ _ Hi) resume (S i)); eauto.
Qed.
End Theorems.

(** ** Witnesses *)

Definition demo_stamp (ns : Z) : Timestamp := mkTimestamp ns kRosTime.
Definition demo_imu (ns : Z) : ImuSample := mkImuSample (demo_stamp ns) vec3_zero vec3_zero.
Definition demo_point : LidarPoint :=
  mkLidarPoint (Vec3f (S754_zero false) (S754_zero false) (S754_zero false)) 0 0 0 0.
Definition demo_scan (start_ns end_ns : Z) : LidarScan :=
  mkLidarScan (demo_stamp start_ns) (demo_stamp end_ns) [demo_point] false.

(** Samples every 10 ms, a scan from 12 to 18 ms already synchronised and one
    from 22 to 28 ms queued. *)
Definition demo_fusion_ops : list fusion_op :=
  [op_push_imu (demo_imu 10000000); op_push_imu (demo_imu 20000000);
   op_push_lidar (demo_scan 12000000 18000000); op_synchronize;
   op_push_lidar (demo_scan 22000000 28000000); op_push_imu (demo_imu 30000000)].

Definition demo_fusion_init : fusion :=
  default (mkFusion (mkMeasurementSynchronizer 0 sync_stats_zero None 0)
             (mkMeasurementBuffer (mkMeasurementBufferConfig 0 0 false) [] []
                (validator_new (mkTimestampValidatorConfig None false false))
                (validator_new (mkTimestampValidatorConfig None false false))
                (validator_new (mkTimestampValidatorConfig None false false)) buffer_stats_zero) [])
    (fusion_init (mkMeasurementBufferConfig 32 8192 true) 20000000).

Abbreviation demo_step := (@fusion_step eigen_reference eigen_float_reference).
Abbreviation demo_sync := (@synchronizeNext eigen_float_reference).

Definition demo_fusion : fusion := Eval vm_compute in run demo_step demo_fusion_init demo_fusion_ops.

Definition demo_group : MeasurementGroup :=
  mkMeasurementGroup (demo_scan 22000000 28000000)
    [demo_imu 10000000; demo_imu 20000000; demo_imu 30000000] (demo_stamp 18000000) true true 10000000.

Lemma demo_fusion_reachable :
  @fusion_reachable eigen_reference eigen_float_reference demo_fusion.
Proof.
  change demo_fusion with (run demo_step demo_fusion_init demo_fusion_ops).
  assert (forall ops f, Forall op_wf ops -> @fusion_reachable eigen_reference eigen_float_reference f ->
            @fusion_reachable eigen_reference eigen_float_reference (run demo_step f ops)) as Hrun.
  { induction ops as [|o ops IH]; intros f Hw Hf; [done|]. apply Forall_cons in Hw as [Ho Hw].
    simpl. apply IH; [done|]. by apply fr_step. }
  apply Hrun.
  - repeat constructor; vm_compute; intros; done.
  - by apply (fr_init (mkMeasurementBufferConfig 32 8192 true) 20000000).
Qed.

Lemma synchronized_group_sound_witness :
  mg_imu_samples demo_group = demo_imu 10000000 :: tail (mg_imu_samples demo_group) /\
  mg_propagation_start_time demo_group
    = default (ls_start_time (mg_scan demo_group)) (covered_until (fu_log demo_fusion)).
Proof.
  split; [reflexivity|].
  eapply (@synchronized_group_sound eigen_reference eigen_float_reference demo_fusion demo_group None);
    [exact demo_fusion_reachable|reflexivity].
Defined.

Lemma no_motion_skipped_witness :
  mbc_reject_timestamp_regression (mb_config (fu_buffer demo_fusion)) = true /\
  forall s, s ∈ accepted_imu (fu_log demo_fusion) -> 18000000 <= imu_ns s <= 28000000 ->
            s ∈ mg_imu_samples demo_group.
Proof.
  split; [reflexivity|].
  eapply (@no_motion_skipped eigen_reference eigen_float_reference demo_fusion demo_group None);
    [exact demo_fusion_reachable|reflexivity|reflexivity].
Defined.

Lemma synchronize_progress_witness :
  mb_lidar_scans (fu_buffer demo_fusion) = [demo_scan 22000000 28000000] /\
  exists k, (k <= 1)%nat /\
    let f' := run demo_step demo_fusion (repeat op_synchronize k) in
    fst (fst (demo_sync (fu_sync f') (fu_buffer f'))) = Value sync_waiting.
Proof.
  split; [reflexivity|].
  apply (@synchronize_progress eigen_reference eigen_float_reference demo_fusion demo_fusion_reachable).
Defined.

Lemma scan_accounting_witness :
  lidarSize (fu_buffer demo_fusion) = 1 /\
  mbs_accepted_lidar_scans (mb_stats (fu_buffer demo_fusion)) mod 2 ^ 64 =
  let s := ms_stats (fu_sync demo_fusion) in
  (mss_synchronized_groups s + mss_rejected_missing_start_bracket s + mss_rejected_imu_gap s +
   mss_rejected_clock_domain s + mss_rejected_scan_overlap s + lidarSize (fu_buffer demo_fusion)) mod 2 ^ 64.
Proof.
  split; [reflexivity|].
  apply (@scan_accounting eigen_reference eigen_float_reference demo_fusion demo_fusion_reachable).
Defined.

(** A gap of 40 ms against a maximum of 20 ms. *)
Definition demo_gap_fusion : fusion := Eval vm_compute in
  run demo_step demo_fusion_init
    [op_push_imu (demo_imu 10000000); op_push_imu (demo_imu 50000000);
     op_push_lidar (demo_scan 12000000 18000000)].

Example demo_gap_reported :
  fst (fst (demo_sync (fu_sync demo_gap_fusion) (fu_buffer demo_gap_fusion))) =
  Value (mkSynchronizationResult None
    (Some (mkPropagationDiscontinuity kImuDiscontinuity (demo_stamp 10000000) (demo_stamp 50000000)
             40000000 (demo_stamp 12000000) (demo_stamp 18000000) (demo_stamp 50000000)))).
Proof. reflexivity. Qed.
