(* ===== verification/MissionProgress.v ===== *)
(** * Measured mission progress

    Model of [src/contracts/navigation_mission]: [mission_progress.hpp] and
    [mission_progress.cpp], the one writer of the mission gate.  The gate names
    the waypoint to accept and the request that asked for it; it moves only in
    [accept], which the observation of a measured sample or of a continuation
    witness reaches.  Every operation maps the state to the new state and the
    decision it returns; a throwing call is [None] and changes nothing. *)

From S2P Require Import Prelude Float64 Geometry World Mission Route.

Definition kMaximumCrossingSampleGapNs : Z := 250000000.
Definition lit_1e9 : f64 := f64_of_Z 1000000000.

(** ** Data *)

Record MissionRouteIdentity : Type := mkRouteIdentity {
  ri_mission_id : string;
  ri_revision : Z;
  ri_localization_epoch : Z
}.
#[export] Instance MissionRouteIdentity_eq_dec : EqDecision MissionRouteIdentity.
Proof. solve_decision. Defined.

Record MissionGateIdentity : Type := mkGate {
  gi_waypoint_index : Z;
  gi_request_id : Z
}.
#[export] Instance MissionGateIdentity_eq_dec : EqDecision MissionGateIdentity.
Proof. solve_decision. Defined.

Definition MissionGateIdentity_default : MissionGateIdentity := mkGate 0 0.

Record MissionMeasuredSample : Type := mkMeasured {
  ms_position : vec3;
  ms_velocity : vec3;
  ms_source_stamp_ns : Z;
  ms_sequence : Z;
  ms_localization_epoch : Z
}.

Record MissionCrossingWitness : Type := mkCrossing {
  cw_route : MissionRouteIdentity;
  cw_gate : MissionGateIdentity;
  cw_before : MissionMeasuredSample;
  cw_after : MissionMeasuredSample;
  cw_before_cursor : RouteProjection;
  cw_after_cursor : RouteProjection;
  cw_crossing_error_m : f64
}.

Inductive ContinuationKind : Type := kMain | kTerminalHold | kSafetySuffixStop.
#[export] Instance ContinuationKind_eq_dec : EqDecision ContinuationKind.
Proof. solve_decision. Defined.

Record MissionContinuationWitness : Type := mkContinuation {
  ct_route : MissionRouteIdentity;
  ct_gate : MissionGateIdentity;
  ct_kind : ContinuationKind;
  ct_bundle_generation : Z;
  ct_boundary_stamp_ns : Z;
  ct_valid_until_ns : Z
}.

Inductive DecisionKind : Type := kNone | kGoal | kComplete.
#[export] Instance DecisionKind_eq_dec : EqDecision DecisionKind.
Proof. solve_decision. Defined.

Record MissionProgressDecision : Type := mkDecision {
  md_kind : DecisionKind;
  md_gate : MissionGateIdentity;
  md_accepted : option MissionGateIdentity;
  md_acceptance_error_m : f64;
  md_acceptance_speed_mps : f64
}.

(** [return {};] *)
Definition no_decision : MissionProgressDecision :=
  mkDecision kNone MissionGateIdentity_default None fzero fzero.

(** The members of [class MissionProgress]. *)
Record MissionProgress : Type := mkMissionProgress {
  mp_mission : Mission;
  mp_measured_route : RouteProgress;
  mp_identity : MissionRouteIdentity;
  mp_gate : MissionGateIdentity;
  mp_accepted : option MissionGateIdentity;
  mp_previous : option MissionMeasuredSample;
  mp_crossing : option MissionCrossingWitness;
  mp_continuation : option MissionContinuationWitness;
  mp_latest : option MissionMeasuredSample;
  mp_stop_confirmation_start_ns : option Z;
  mp_stop_hold_start_ns : option Z;
  mp_active : bool
}.

(** Member assignments. *)
Definition set_gate (m : MissionProgress) (g : MissionGateIdentity) : MissionProgress :=
  mkMissionProgress (mp_mission m) (mp_measured_route m) (mp_identity m) g (mp_accepted m)
    (mp_previous m) (mp_crossing m) (mp_continuation m) (mp_latest m)
    (mp_stop_confirmation_start_ns m) (mp_stop_hold_start_ns m) (mp_active m).
Definition set_accepted (m : MissionProgress) (a : option MissionGateIdentity) : MissionProgress :=
  mkMissionProgress (mp_mission m) (mp_measured_route m) (mp_identity m) (mp_gate m) a
    (mp_previous m) (mp_crossing m) (mp_continuation m) (mp_latest m)
    (mp_stop_confirmation_start_ns m) (mp_stop_hold_start_ns m) (mp_active m).
Definition set_previous (m : MissionProgress) (p : option MissionMeasuredSample)
    : MissionProgress :=
  mkMissionProgress (mp_mission m) (mp_measured_route m) (mp_identity m) (mp_gate m)
    (mp_accepted m) p (mp_crossing m) (mp_continuation m) (mp_latest m)
    (mp_stop_confirmation_start_ns m) (mp_stop_hold_start_ns m) (mp_active m).
Definition set_crossing (m : MissionProgress) (c : option MissionCrossingWitness)
    : MissionProgress :=
  mkMissionProgress (mp_mission m) (mp_measured_route m) (mp_identity m) (mp_gate m)
    (mp_accepted m) (mp_previous m) c (mp_continuation m) (mp_latest m)
    (mp_stop_confirmation_start_ns m) (mp_stop_hold_start_ns m) (mp_active m).
Definition set_continuation (m : MissionProgress) (c : option MissionContinuationWitness)
    : MissionProgress :=
  mkMissionProgress (mp_mission m) (mp_measured_route m) (mp_identity m) (mp_gate m)
    (mp_accepted m) (mp_previous m) (mp_crossing m) c (mp_latest m)
    (mp_stop_confirmation_start_ns m) (mp_stop_hold_start_ns m) (mp_active m).
Definition set_stop (m : MissionProgress) (confirmation hold : option Z) : MissionProgress :=
  mkMissionProgress (mp_mission m) (mp_measured_route m) (mp_identity m) (mp_gate m)
    (mp_accepted m) (mp_previous m) (mp_crossing m) (mp_continuation m) (mp_latest m)
    confirmation hold (mp_active m).
Definition set_active (m : MissionProgress) (a : bool) : MissionProgress :=
  mkMissionProgress (mp_mission m) (mp_measured_route m) (mp_identity m) (mp_gate m)
    (mp_accepted m) (mp_previous m) (mp_crossing m) (mp_continuation m) (mp_latest m)
    (mp_stop_confirmation_start_ns m) (mp_stop_hold_start_ns m) a.
(** The route cursor and the two sample slots a new measurement writes. *)
Definition set_measurement (m : MissionProgress) (r : RouteProgress)
    (s : MissionMeasuredSample) : MissionProgress :=
  mkMissionProgress (mp_mission m) r (mp_identity m) (mp_gate m) (mp_accepted m) (Some s)
    (mp_crossing m) (mp_continuation m) (Some s) (mp_stop_confirmation_start_ns m)
    (mp_stop_hold_start_ns m) (mp_active m).

(** [std::uint32_t] successor. *)
Definition u32_inc (a : Z) : Z := (a + 1) mod 2 ^ 32.

Definition sameRoute (a b : MissionRouteIdentity) : bool :=
  (ri_mission_id a ==? ri_mission_id b) && (ri_revision a ==? ri_revision b)
  && (ri_localization_epoch a ==? ri_localization_epoch b).

Definition sameGate (a b : MissionGateIdentity) : bool :=
  (gi_waypoint_index a ==? gi_waypoint_index b) && (gi_request_id a ==? gi_request_id b).

(** The cast is defined: the product stays below [2^63] but at the single
    endpoint of the guard. *)
Definition secondsToNs (seconds : f64) : option Z :=
  if negb (isfinite seconds) || flt seconds fzero
     || fgt seconds (f64_div (f64_of_Z i64_max) lit_1e9)
  then None
  else Some (i64_of_f (f64_ceil (f64_mul seconds lit_1e9))).

(** ** Operations *)

Section MissionOps.
Context {E : EigenOps}.

Definition MissionMeasuredSample_valid (s : MissionMeasuredSample) : bool :=
  v_allFinite (ms_position s) && v_allFinite (ms_velocity s) && (0 <? ms_source_stamp_ns s)
  && (0 <? ms_sequence s) && (0 <? ms_localization_epoch s).

Definition MissionProgress_make (mission : Mission) : option MissionProgress :=
  route ← RouteProgress_make mission kDefaultBacktrackToleranceM;
  if negb (Mission_valid mission) then None
  else
    Some (mkMissionProgress mission route (mkRouteIdentity (m_id mission) 1 0)
            MissionGateIdentity_default None None None None None None None false).

Definition complete (m : MissionProgress) : bool :=
  match mp_accepted m with
  | None => false
  | Some a => u32_inc (gi_waypoint_index a) =? vec_size (m_waypoints (mp_mission m))
  end.

Definition resetIdentity (m : MissionProgress) (route_revision localization_epoch : Z)
    : option MissionProgress :=
  if (route_revision =? 0) || (localization_epoch =? 0) then None
  else
    let '(gate, accepted) :=
      if negb (ri_revision (mp_identity m) =? route_revision)
      then (mkGate 0 (gi_request_id (mp_gate m)), None)
      else (mp_gate m, mp_accepted m) in
    Some (mkMissionProgress (mp_mission m) (RouteProgress_reset (mp_measured_route m))
            (mkRouteIdentity (ri_mission_id (mp_identity m)) route_revision localization_epoch)
            gate accepted None None None None None None false).

Definition activate (m : MissionProgress) : MissionProgress * MissionProgressDecision :=
  if (ri_localization_epoch (mp_identity m) =? 0) || complete m then (m, no_decision)
  else
    let m := set_active m true in
    let m := set_stop (set_continuation (set_crossing m None) None) None None in
    if negb (has (mp_latest m)) || negb (ps_valid (rp_state (mp_measured_route m)))
    then (m, no_decision)
    else if gi_request_id (mp_gate m) =? u64_max then (m, no_decision)
    else
      let gate := mkGate (gi_waypoint_index (mp_gate m)) (u64_inc (gi_request_id (mp_gate m))) in
      (set_gate m gate, mkDecision kGoal gate None fzero fzero).

Definition deactivate (m : MissionProgress) : MissionProgress :=
  set_previous (set_stop (set_continuation (set_crossing (set_active m false) None) None) None None)
    None.

Definition continuationMatches (m : MissionProgress) : bool :=
  match mp_continuation m with
  | None => false
  | Some c =>
      sameRoute (ct_route c) (mp_identity m) && sameGate (ct_gate c) (mp_gate m)
      && (0 <? ct_bundle_generation c) && (0 <? ct_boundary_stamp_ns c)
      && (ct_boundary_stamp_ns c <=? ct_valid_until_ns c)
  end.

Definition routeSnapshot (m : MissionProgress) : ImmutableRouteSnapshot :=
  RouteProgress_snapshot (mp_measured_route m) (m_id (mp_mission m)) (m_frame (mp_mission m))
    (ri_revision (mp_identity m)) (gi_request_id (mp_gate m)) (gi_waypoint_index (mp_gate m)).

Definition isCoincidentTerminalStop (m : MissionProgress) : bool :=
  passThroughNextWaypointIsCoincidentStop (routeSnapshot m).

Definition accept (m : MissionProgress) (error_m speed_mps : f64)
    : MissionProgress * MissionProgressDecision :=
  let just_accepted := mp_gate m in
  let m := set_accepted m (Some just_accepted) in
  let m := set_stop (set_continuation (set_crossing m None) None) None None in
  if vec_size (m_waypoints (mp_mission m)) <=? u32_inc (gi_waypoint_index (mp_gate m)) then
    (set_active m false, mkDecision kComplete (mp_gate m) (Some just_accepted) error_m speed_mps)
  else
    let m :=
      set_gate m (mkGate (u32_inc (gi_waypoint_index (mp_gate m))) (gi_request_id (mp_gate m))) in
    if gi_request_id (mp_gate m) =? u64_max then (m, no_decision)
    else
      let gate := mkGate (gi_waypoint_index (mp_gate m)) (u64_inc (gi_request_id (mp_gate m))) in
      (set_gate m gate, mkDecision kGoal gate (Some just_accepted) error_m speed_mps).

(** The waypoint the gate names. *)
Definition gate_waypoint (m : MissionProgress) : option MissionWaypoint :=
  at_index (m_waypoints (mp_mission m)) (gi_waypoint_index (mp_gate m)).

Definition too_fast (m : MissionProgress) (velocity : vec3) : bool :=
  fgt (v_norm velocity) (m_acceptance_speed_mps (mp_mission m)).

(** The kinds that may carry the vehicle past a PASS_THROUGH waypoint. *)
Definition continuation_carries (m : MissionProgress) (kind : ContinuationKind) : bool :=
  (kind ==? kMain) || (kind ==? kSafetySuffixStop)
  || ((kind ==? kTerminalHold) && isCoincidentTerminalStop m).

Definition observeContinuation (m : MissionProgress) (witness : MissionContinuationWitness)
    (now_ns : Z) : MissionProgress * MissionProgressDecision :=
  if negb (mp_active m) || complete m || (now_ns <=? 0) || (ct_valid_until_ns witness <? now_ns)
     || negb (sameRoute (ct_route witness) (mp_identity m))
     || negb (sameGate (ct_gate witness) (mp_gate m))
     || (ct_bundle_generation witness =? 0) || (ct_boundary_stamp_ns witness <=? 0)
     || (ct_valid_until_ns witness <? ct_boundary_stamp_ns witness)
  then (m, no_decision)
  else if match mp_continuation m with
          | Some c => ct_bundle_generation witness <? ct_bundle_generation c
          | None => false
          end
  then (m, no_decision)
  else
    let m := set_continuation m (Some witness) in
    match gate_waypoint m, mp_crossing m, mp_latest m with
    | Some waypoint, Some crossing, Some latest =>
        if (w_behavior waypoint !=? PassThrough) || negb (continuation_carries m (ct_kind witness))
        then (m, no_decision)
        else if (isCoincidentTerminalStop m || (ct_kind witness ==? kSafetySuffixStop))
                && too_fast m (ms_velocity latest)
        then (m, no_decision)
        else if (ct_kind witness ==? kSafetySuffixStop)
                && negb (insideAcceptance (mp_measured_route m) (gi_waypoint_index (mp_gate m))
                           (ms_position latest))
        then (m, no_decision)
        else accept m (cw_crossing_error_m crossing) (v_norm (ms_velocity (cw_after crossing)))
    | _, _, _ => (m, no_decision)
    end.

(** *** A measured sample *)

(** The early returns on a sample that is not a new measurement. *)
Definition sample_rejected (m : MissionProgress) (s : MissionMeasuredSample) (now_ns : Z) : bool :=
  negb (MissionMeasuredSample_valid s) || (now_ns <? ms_source_stamp_ns s)
  || negb (ms_localization_epoch s =? ri_localization_epoch (mp_identity m)) || complete m.

Definition sample_repeated (m : MissionProgress) (s : MissionMeasuredSample) : bool :=
  match mp_previous m with
  | None => false
  | Some p =>
      (ms_source_stamp_ns s =? ms_source_stamp_ns p) && (ms_sequence s =? ms_sequence p)
  end.

Definition sample_unorderable (m : MissionProgress) (s : MissionMeasuredSample) : bool :=
  match mp_previous m with
  | None => false
  | Some p => (ms_source_stamp_ns s <=? ms_source_stamp_ns p) || (ms_sequence s <=? ms_sequence p)
  end.

Definition forget_crossing (m : MissionProgress) : MissionProgress :=
  set_previous (set_crossing m None) None.

(** The reset after a gap in the stream of samples. *)
Definition after_gap (m : MissionProgress) (s : MissionMeasuredSample) : MissionProgress :=
  match mp_previous m with
  | Some p =>
      if kMaximumCrossingSampleGapNs <? ms_source_stamp_ns s - ms_source_stamp_ns p
      then forget_crossing m else m
  | None => m
  end.

Definition gate_tangent (m : MissionProgress) : vec3 :=
  match incomingTangent (mp_measured_route m) (gi_waypoint_index (mp_gate m)) with
  | Some t => t
  | None =>
      default vec3_zero (outgoingTangent (mp_measured_route m) (gi_waypoint_index (mp_gate m)))
  end.

(** Motion against the route since the prior sample; [m] holds the updated
    route. *)
Definition reverse_crossing (m : MissionProgress) (prior : option MissionMeasuredSample)
    (s : MissionMeasuredSample) : bool :=
  match prior with
  | None => false
  | Some p =>
      let tangent := gate_tangent m in
      has (mp_crossing m) && v_allFinite tangent && fgt (v_norm tangent) fzero
      && flt (v_dot (v_sub (ms_position s) (ms_position p)) tangent)
           (fopp kDefaultBacktrackToleranceM)
  end.

(** The stores every new measurement makes: the route cursor, the sample slots,
    and the loss of a crossing the motion has undone.  The second component says
    whether it was undone. *)
Definition take_measurement (m : MissionProgress) (s : MissionMeasuredSample)
    : MissionProgress * bool :=
  let prior := mp_previous m in
  let m := set_measurement m (update (mp_measured_route m) (ms_position s)) s in
  let undone :=
    ps_backtracking_exceeded (rp_state (mp_measured_route m)) || reverse_crossing m prior s in
  ((if undone then set_crossing m None else m), undone).

(** The crossing a measurement witnesses at a PASS_THROUGH gate. *)
Definition crossing_gap_valid (prior : option MissionMeasuredSample) (s : MissionMeasuredSample)
    : bool :=
  match prior with
  | None => false
  | Some p => ms_source_stamp_ns s - ms_source_stamp_ns p <=? kMaximumCrossingSampleGapNs
  end.

Definition witness_crossing (m : MissionProgress) (prior : option MissionMeasuredSample)
    (before_cursor : RouteProjection) (s : MissionMeasuredSample) : option MissionCrossingWitness :=
  let gap_prior := if crossing_gap_valid prior s then prior else None in
  error ← measuredWaypointCrossingError (mp_measured_route m) (gi_waypoint_index (mp_gate m))
            (ms_position s) (ms_position <$> gap_prior)
            (match gap_prior with
             | Some p => f64_div (f64_of_Z (ms_source_stamp_ns s - ms_source_stamp_ns p)) lit_1e9
             | None => fnan
             end)
            (f64_div (f64_of_Z kMaximumCrossingSampleGapNs) lit_1e9);
  Some (mkCrossing (mp_identity m) (mp_gate m) (default s prior) s before_cursor
          (ps_projection (rp_state (mp_measured_route m))) error).

(** The unexpired, matching continuation certificate. *)
Definition live_continuation (m : MissionProgress) (now_ns : Z)
    : option MissionContinuationWitness :=
  match mp_continuation m with
  | Some c => if continuationMatches m && (now_ns <=? ct_valid_until_ns c) then Some c else None
  | None => None
  end.

(** The certificate that may carry the vehicle through. *)
Definition ready_continuation (m : MissionProgress) (now_ns : Z)
    : option MissionContinuationWitness :=
  match live_continuation m now_ns with
  | Some c => if continuation_carries m (ct_kind c) then Some c else None
  | None => None
  end.

(** Standing inside the first waypoint on the first request. *)
Definition initial_inside (m : MissionProgress) (waypoint : MissionWaypoint)
    (s : MissionMeasuredSample) (error_m : f64) : bool :=
  (gi_waypoint_index (mp_gate m) =? 0) && (gi_request_id (mp_gate m) =? 1)
  && fle error_m (w_acceptance_radius_m waypoint)
  && fle (v_norm (ms_velocity s)) (m_acceptance_speed_mps (mp_mission m)).

(** A certificate that stops at this waypoint. *)
Definition is_safety_suffix (c : option MissionContinuationWitness) : bool :=
  match c with Some c => ct_kind c ==? kSafetySuffixStop | None => false end.

Definition observe_pass_through (m : MissionProgress) (waypoint : MissionWaypoint)
    (prior : option MissionMeasuredSample) (before_cursor : RouteProjection) (undone : bool)
    (s : MissionMeasuredSample) (now_ns : Z) : MissionProgress * MissionProgressDecision :=
  let error_m := v_norm (v_sub (ms_position s) (w_position_enu waypoint)) in
  let m :=
    if undone then m
    else
      match witness_crossing m prior before_cursor s with
      | Some c => set_crossing m (Some c)
      | None => m
      end in
  match mp_crossing m with
  | None => (m, no_decision)
  | Some crossing =>
      let ready := ready_continuation m now_ns in
      if negb (has ready) && negb (initial_inside m waypoint s error_m) then (m, no_decision)
      else if (isCoincidentTerminalStop m || is_safety_suffix ready) && too_fast m (ms_velocity s)
      then (m, no_decision)
      else if is_safety_suffix ready
              && negb (insideAcceptance (mp_measured_route m) (gi_waypoint_index (mp_gate m))
                         (ms_position s))
      then (m, no_decision)
      else accept m (cw_crossing_error_m crossing) (v_norm (ms_velocity s))
  end.

(** The conditions a STOP needs continuously: [inside && slow && hold]. *)
Definition stop_settled (m : MissionProgress) (s : MissionMeasuredSample) (now_ns : Z) : bool :=
  insideAcceptance (mp_measured_route m) (gi_waypoint_index (mp_gate m)) (ms_position s)
  && fle (v_norm (ms_velocity s)) (m_acceptance_speed_mps (mp_mission m))
  && has (live_continuation m now_ns).

Definition observe_stop (m : MissionProgress) (waypoint : MissionWaypoint)
    (s : MissionMeasuredSample) (now_ns : Z) : MissionProgress * MissionProgressDecision :=
  let error_m := v_norm (v_sub (ms_position s) (w_position_enu waypoint)) in
  if negb (stop_settled m s now_ns) then (set_stop m None None, no_decision)
  else
    let confirmation_start := default (ms_source_stamp_ns s) (mp_stop_confirmation_start_ns m) in
    let m := set_stop m (Some confirmation_start) (mp_stop_hold_start_ns m) in
    match secondsToNs (m_acceptance_confirmation_s (mp_mission m)),
          secondsToNs (w_hold_s waypoint) with
    | Some confirmation_ns, Some hold_ns =>
        if ms_source_stamp_ns s - confirmation_start <? confirmation_ns then (m, no_decision)
        else
          let hold_start := default (ms_source_stamp_ns s) (mp_stop_hold_start_ns m) in
          let m := set_stop m (Some confirmation_start) (Some hold_start) in
          if ms_source_stamp_ns s - hold_start <? hold_ns then (m, no_decision)
          else accept m error_m (v_norm (ms_velocity s))
    | _, _ => (m, no_decision)
    end.

Definition observeMeasured (m : MissionProgress) (s : MissionMeasuredSample) (now_ns : Z)
    : MissionProgress * MissionProgressDecision :=
  if sample_rejected m s now_ns then (m, no_decision)
  else if sample_repeated m s then (m, no_decision)
  else if sample_unorderable m s then (forget_crossing m, no_decision)
  else
    let m := after_gap m s in
    let prior := mp_previous m in
    let before_cursor := ps_projection (rp_state (mp_measured_route m)) in
    let '(m, undone) := take_measurement m s in
    if negb (mp_active m) then (m, no_decision)
    else if gi_request_id (mp_gate m) =? 0 then
      let gate := mkGate (gi_waypoint_index (mp_gate m)) 1 in
      (set_gate m gate, mkDecision kGoal gate None fzero fzero)
    else
      match gate_waypoint m with
      | None => (m, no_decision)
      | Some waypoint =>
          match w_behavior waypoint with
          | PassThrough => observe_pass_through m waypoint prior before_cursor undone s now_ns
          | Stop => observe_stop m waypoint s now_ns
          end
      end.

(** ** The operations as one transition function *)

Inductive mission_op : Type :=
| op_reset (route_revision localization_epoch : Z)
| op_activate
| op_deactivate
| op_continuation (witness : MissionContinuationWitness) (now_ns : Z)
| op_measured (sample : MissionMeasuredSample) (now_ns : Z).

Definition mission_step (m : MissionProgress) (o : mission_op)
    : MissionProgress * MissionProgressDecision :=
  match o with
  | op_reset revision epoch => (default m (resetIdentity m revision epoch), no_decision)
  | op_activate => activate m
  | op_deactivate => (deactivate m, no_decision)
  | op_continuation witness now_ns => observeContinuation m witness now_ns
  | op_measured s now_ns => observeMeasured m s now_ns
  end.

Definition mission_next (m : MissionProgress) (o : mission_op) : MissionProgress :=
  (mission_step m o).1.
End MissionOps.
