(* ===== verification/MissionProps.v ===== *)
(** * Properties of the measured mission progress

    The gate moves one waypoint at a time and only through [accept]; what
    authorised an acceptance at a PASS_THROUGH and at a STOP waypoint; and one
    divergence between the code and its comment on the STOP confirmation. *)

From S2P Require Import Prelude Float64 Float64Facts FloatOrder Geometry World Mission Route.
From S2P Require Import RouteProps MissionProgress.

Section MissionFacts.
Context {E : EigenOps}.

(** ** Frames: the members only [accept], [activate] and [resetIdentity] write *)

Record same_frame (m m' : MissionProgress) : Prop := {
  sf_mission : mp_mission m' = mp_mission m;
  sf_identity : mp_identity m' = mp_identity m;
  sf_gate : mp_gate m' = mp_gate m;
  sf_accepted : mp_accepted m' = mp_accepted m;
  sf_route : rp_waypoints (mp_measured_route m') = rp_waypoints (mp_measured_route m)
}.

#[export] Instance same_frame_preorder : PreOrder same_frame.
Proof. split; [done|]. intros x y z [] []. split; congruence. Qed.

Lemma same_frame_sym m m' : same_frame m m' -> same_frame m' m.
Proof. intros []. by split. Qed.

Lemma update_waypoints r p : rp_waypoints (update r p) = rp_waypoints r.
Proof. unfold update. by destruct (pj_valid _). Qed.

Lemma after_gap_frame m s : same_frame m (after_gap m s).
Proof. unfold after_gap. destruct (mp_previous m) as [p|]; [destruct (_ <? _)|]; done. Qed.

Lemma take_measurement_frame m s : same_frame m (take_measurement m s).1.
Proof.
  unfold take_measurement. simpl. destruct (_ || _); split; try done; simpl; apply update_waypoints.
Qed.

Lemma frame_waypoint m m' : same_frame m m' -> gate_waypoint m' = gate_waypoint m.
Proof. intros []. unfold gate_waypoint. congruence. Qed.

(** The state in which a new measurement is judged. *)
Definition measured_state (m : MissionProgress) (s : MissionMeasuredSample) : MissionProgress :=
  (take_measurement (after_gap m s) s).1.

Lemma measured_state_frame m s : same_frame m (measured_state m s).
Proof. etransitivity; [apply after_gap_frame|apply take_measurement_frame]. Qed.

Definition sample_ignored (m : MissionProgress) (s : MissionMeasuredSample) (now_ns : Z) : bool :=
  sample_rejected m s now_ns || sample_repeated m s || sample_unorderable m s.

(** ** What authorises an acceptance *)

(** The time of an observation and the sample it judges. *)
Definition op_now (o : mission_op) : Z :=
  match o with op_continuation _ now_ns | op_measured _ now_ns => now_ns | _ => 0 end.

Definition op_sample (m : MissionProgress) (o : mission_op) : option MissionMeasuredSample :=
  match o with
  | op_measured s _ => Some s
  | op_continuation _ _ => mp_latest m
  | _ => None
  end.

(** A continuation certificate of the current gate, alive at [now_ns]. *)
Definition certifies (m : MissionProgress) (c : MissionContinuationWitness) (now_ns : Z) : Prop :=
  ct_route c = mp_identity m /\ ct_gate c = mp_gate m /\ ct_bundle_generation c <> 0 /\
  0 < ct_boundary_stamp_ns c <= ct_valid_until_ns c /\ now_ns <= ct_valid_until_ns c.

Definition slow_enough (m : MissionProgress) (s : MissionMeasuredSample) : Prop :=
  too_fast m (ms_velocity s) = false.

(** The certificate's kind carries the vehicle through, each kind with its own
    condition on the measured sample [s]. *)
Definition carried_through (m : MissionProgress) (c : MissionContinuationWitness)
    (s : MissionMeasuredSample) : Prop :=
  match ct_kind c with
  | kMain => True
  | kTerminalHold => isCoincidentTerminalStop m = true
  | kSafetySuffixStop =>
      slow_enough m s /\
      exists w, gate_waypoint m = Some w /\
        fle (v_norm (v_sub (ms_position s) (w_position_enu w))) (w_acceptance_radius_m w) = true
  end /\
  (isCoincidentTerminalStop m = true -> slow_enough m s).

Definition standing_at_start (m : MissionProgress) (s : MissionMeasuredSample) : Prop :=
  gi_waypoint_index (mp_gate m) = 0 /\ gi_request_id (mp_gate m) = 1 /\
  exists w, gate_waypoint m = Some w /\
    fle (v_norm (v_sub (ms_position s) (w_position_enu w))) (w_acceptance_radius_m w) = true /\
    fle (v_norm (ms_velocity s)) (m_acceptance_speed_mps (mp_mission m)) = true.

Definition crossing_error_ok (w : MissionWaypoint) (e : f64) : Prop :=
  fle e (w_acceptance_radius_m w) = true \/
  fle e (f64_add (w_acceptance_radius_m w) lit_1e_6) = true.

(** A physical crossing of the gate's waypoint, of this route and gate, between
    two samples at most 250 ms apart. *)
Definition crossing_ok (m : MissionProgress) (c : MissionCrossingWitness) : Prop :=
  cw_route c = mp_identity m /\ cw_gate c = mp_gate m /\ gi_request_id (mp_gate m) <> 0 /\
  ms_localization_epoch (cw_after c) = ri_localization_epoch (mp_identity m) /\
  0 <= ms_source_stamp_ns (cw_after c) - ms_source_stamp_ns (cw_before c)
    <= kMaximumCrossingSampleGapNs /\
  exists w, gate_waypoint m = Some w /\ crossing_error_ok w (cw_crossing_error_m c).

Definition crossing_inv (m : MissionProgress) : Prop :=
  forall c, mp_crossing m = Some c -> crossing_ok m c.

Lemma crossing_ok_frame m m' c : same_frame m m' -> crossing_ok m c -> crossing_ok m' c.
Proof.
  intros Hf. unfold crossing_ok. rewrite (frame_waypoint _ _ Hf).
  destruct Hf as [? -> -> ? ?]. done.
Qed.

Lemma isCoincident_frame m m' :
  same_frame m m' -> isCoincidentTerminalStop m' = isCoincidentTerminalStop m.
Proof.
  intros [? ? Hg ? Hr]. unfold isCoincidentTerminalStop, passThroughNextWaypointIsCoincidentStop.
  simpl. by rewrite Hg, Hr.
Qed.

(** [crossing_inv] is kept when the frame is and the crossing is dropped or kept. *)
Lemma crossing_inv_frame m m' :
  same_frame m m' -> crossing_inv m -> (mp_crossing m' = None \/ mp_crossing m' = mp_crossing m) ->
  crossing_inv m'.
Proof.
  intros Hf Hi [Hc|Hc] c; rewrite Hc; [done|]. intros ?. eapply crossing_ok_frame; eauto.
Qed.

(** ** The state invariant *)

Definition waypoint_count (m : MissionProgress) : Z := vec_size (m_waypoints (mp_mission m)).

Record mission_inv (m : MissionProgress) : Prop := {
  mi_mission : Mission_valid (mp_mission m) = true;
  mi_route : rp_waypoints (mp_measured_route m) = m_waypoints (mp_mission m);
  mi_index : 0 <= gi_waypoint_index (mp_gate m) < waypoint_count m;
  mi_request : is_u64 (gi_request_id (mp_gate m));
  mi_accepted : match mp_accepted m with
                | None => gi_waypoint_index (mp_gate m) = 0
                | Some a =>
                    0 <= gi_waypoint_index a /\
                    gi_waypoint_index a + 1 = gi_waypoint_index (mp_gate m) \/
                    (a = mp_gate m /\ gi_waypoint_index a + 1 = waypoint_count m /\
                     mp_active m = false)
                end;
  mi_crossing : crossing_inv m
}.

Lemma count_range m : mission_inv m -> 0 < waypoint_count m <= 4096.
Proof. intros Hi. by apply Mission_valid_waypoints, Hi. Qed.

Lemma u32_inc_small i : 0 <= i < 4096 -> u32_inc i = i + 1.
Proof. intros. unfold u32_inc. apply Z.mod_small. lia. Qed.

Lemma complete_spec m :
  mission_inv m ->
  (complete m = true <-> mp_accepted m = Some (mp_gate m) /\
     gi_waypoint_index (mp_gate m) + 1 = waypoint_count m).
Proof.
  intros Hi. pose proof (count_range m Hi). destruct Hi as [_ _ Hidx _ Ha _]. unfold complete.
  destruct (mp_accepted m) as [a|]; [|naive_solver].
  change (vec_size (m_waypoints (mp_mission m))) with (waypoint_count m).
  destruct Ha as [[Ha0 Ha]|(-> & Ha & _)].
  - rewrite u32_inc_small, Z.eqb_eq by lia. split; [intros; exfalso; lia|]. intros [[= ->] ?]. lia.
  - rewrite u32_inc_small, Z.eqb_eq by lia. naive_solver.
Qed.

Lemma active_not_complete m : mission_inv m -> mp_active m = true -> complete m = false.
Proof.
  intros Hi Ha. apply not_true_iff_false. rewrite complete_spec by done. intros [Hacc Hlast].
  destruct Hi as [_ _ _ _ Hia _]. rewrite Hacc in Hia. destruct Hia as [[? ?]|(_ & _ & ?)]; [lia|congruence].
Qed.

(** ** Every operation keeps the gate or reaches [accept] with an authority *)

(** The STOP conditions of one accepting sample; the starts default to the
    sample itself. *)
Definition stop_authorised (m : MissionProgress) (w : MissionWaypoint) (s : MissionMeasuredSample)
    (now_ns : Z) : Prop :=
  sample_ignored m s now_ns = false /\ stop_settled (measured_state m s) s now_ns = true /\
  exists confirmation_ns hold_ns,
    secondsToNs (m_acceptance_confirmation_s (mp_mission m)) = Some confirmation_ns /\
    secondsToNs (w_hold_s w) = Some hold_ns /\
    confirmation_ns <=
      ms_source_stamp_ns s - default (ms_source_stamp_ns s) (mp_stop_confirmation_start_ns m) /\
    hold_ns <= ms_source_stamp_ns s - default (ms_source_stamp_ns s) (mp_stop_hold_start_ns m).

Definition pass_authorised (m : MissionProgress) (o : mission_op) (s : MissionMeasuredSample)
    (error_m : f64) : Prop :=
  (exists c, crossing_ok m c /\ error_m = cw_crossing_error_m c) /\
  ((exists k, certifies m k (op_now o) /\ carried_through m k s) \/ standing_at_start m s).

Definition authorised (m : MissionProgress) (o : mission_op) (error_m : f64) : Prop :=
  exists w s, gate_waypoint m = Some w /\ op_sample m o = Some s /\
    match w_behavior w with
    | PassThrough => pass_authorised m o s error_m
    | Stop => exists now_ns, o = op_measured s now_ns /\ stop_authorised m w s now_ns
    end.

Inductive step_shape (m : MissionProgress) (o : mission_op)
    : MissionProgress * MissionProgressDecision -> Prop :=
| ss_keep m1 :
    same_frame m m1 -> crossing_inv m1 ->
    (mp_active m1 = true -> complete m = false) -> step_shape m o (m1, no_decision)
| ss_request m1 r :
    same_frame m m1 -> complete m = false -> mp_crossing m1 = None ->
    is_u64 r -> gi_request_id (mp_gate m) < r ->
    step_shape m o (set_gate m1 (mkGate (gi_waypoint_index (mp_gate m)) r),
                    mkDecision kGoal (mkGate (gi_waypoint_index (mp_gate m)) r) None fzero fzero)
| ss_reset revision epoch m1 :
    o = op_reset revision epoch -> resetIdentity m revision epoch = Some m1 ->
    step_shape m o (m1, no_decision)
| ss_accept m2 error_m speed_mps :
    same_frame m m2 -> complete m = false -> authorised m o error_m ->
    step_shape m o (accept m2 error_m speed_mps).

Lemma insideAcceptance_spec m i p :
  rp_waypoints (mp_measured_route m) = m_waypoints (mp_mission m) ->
  insideAcceptance (mp_measured_route m) i p = true ->
  exists w, at_index (m_waypoints (mp_mission m)) i = Some w /\
    fle (v_norm (v_sub p (w_position_enu w))) (w_acceptance_radius_m w) = true.
Proof.
  intros Hr. unfold insideAcceptance. rewrite Hr. destruct (at_index _ _) as [w|]; [|done].
  destruct (v_allFinite p); simpl; [|done]. intros [_ ?]%andb_true_iff. eauto.
Qed.

Lemma sameRoute_true a b : sameRoute a b = true <-> a = b.
Proof.
  unfold sameRoute. rewrite !andb_true_iff, !bool_decide_eq_true. destruct a, b; simpl.
  split; [intros [[]]; congruence|by intros [= -> -> ->]].
Qed.

Lemma sameGate_true a b : sameGate a b = true <-> a = b.
Proof.
  unfold sameGate. rewrite !andb_true_iff, !bool_decide_eq_true. destruct a, b; simpl.
  split; [intros []; congruence|by intros [= -> ->]].
Qed.

(** The three tests that follow the choice of a certificate, common to both
    observations. *)
Lemma carried_through_intro m m2 k s :
  mission_inv m -> same_frame m m2 -> continuation_carries m2 (ct_kind k) = true ->
  (isCoincidentTerminalStop m2 || (ct_kind k ==? kSafetySuffixStop)) && too_fast m2 (ms_velocity s)
    = false ->
  (ct_kind k ==? kSafetySuffixStop)
    && negb (insideAcceptance (mp_measured_route m2) (gi_waypoint_index (mp_gate m2)) (ms_position s))
    = false ->
  carried_through m k s.
Proof.
  intros Hi Hf. pose proof Hf as [Hm _ Hg _ Hr]. unfold continuation_carries, carried_through.
  rewrite (isCoincident_frame _ _ Hf). unfold too_fast, slow_enough, too_fast. rewrite Hm.
  intros Hk Hfast Hin. split.
  - destruct (ct_kind k); [done| |].
    + by apply orb_true_iff in Hk as [|].
    + rewrite orb_true_r in Hfast. split; [done|]. apply negb_false_iff in Hin.
      apply insideAcceptance_spec in Hin as (w & Hw & ?); [|rewrite Hr, Hm; by apply Hi].
      exists w. unfold gate_waypoint. by rewrite <- Hm, <- Hg.
  - intros Hc. by rewrite Hc in Hfast.
Qed.

Lemma observeContinuation_shape m w now :
  mission_inv m ->
  step_shape m (op_continuation w now) (observeContinuation m w now).
Proof.
  intros Hi. pose proof (mi_crossing m Hi) as Hci.
  assert (Hkeep : forall c, mp_active m = true ->
    step_shape m (op_continuation w now) (set_continuation m c, no_decision)).
  { intros c Ha. apply ss_keep; [done|exact Hci|]. intros _. by apply active_not_complete. }
  assert (Hnone : step_shape m (op_continuation w now) (m, no_decision)).
  { apply ss_keep; [done|done|]. by apply active_not_complete. }
  unfold observeContinuation. destruct (negb (mp_active m) || _ || _ || _ || _ || _ || _ || _ || _) eqn:Hg;
    [done|].
  destruct (match mp_continuation m with Some _ => _ | None => _ end); [done|].
  bsplit. specialize (Hkeep (Some w)). set (m2 := set_continuation m (Some w)) in *.
  assert (Hf : same_frame m m2) by done.
  destruct (gate_waypoint m2) as [wp|] eqn:Hwp; [|by auto].
  destruct (mp_crossing m2) as [c|] eqn:Hc; [|by auto].
  destruct (mp_latest m2) as [s|] eqn:Hs; [|by auto].
  destruct ((w_behavior wp !=? PassThrough) || _) eqn:Hb; [by auto|].
  destruct ((isCoincidentTerminalStop m2 || _) && _) eqn:Hfast; [by auto|].
  destruct (_ && negb (insideAcceptance _ _ _)) eqn:Hin; [by auto|].
  apply orb_false_iff in Hb as [Hb Hk]. apply negb_false_iff in Hb, Hk.
  apply bool_decide_eq_true in Hb.
  apply ss_accept; [done|by apply active_not_complete|].
  exists wp, s. split_and!; [exact Hwp|exact Hs|]. rewrite Hb. split.
  - exists c. split; [by apply Hci|done].
  - left. exists w. split; [|by eapply carried_through_intro].
    repeat match goal with
    | H : sameRoute _ _ = true |- _ => apply sameRoute_true in H
    | H : sameGate _ _ = true |- _ => apply sameGate_true in H
    end.
    unfold certifies; simpl. split_and!; try done; lia.
Qed.

(** *** The measured sample *)

Lemma optional_finite_number x e : optional_finite x = Some e -> isnan e = false.
Proof.
  unfold optional_finite. destruct (isfinite x) eqn:Hx; [|done]. intros [= <-].
  by apply isfinite_not_nan.
Qed.

Lemma crossing_error_bound r i cur prev gap maxgap e :
  Forall (fun w => waypoint_geometry_ok w = true) (rp_waypoints r) ->
  measuredWaypointCrossingError r i cur prev gap maxgap = Some e ->
  exists w, at_index (rp_waypoints r) i = Some w /\ crossing_error_ok w e.
Proof.
  intros Hg. unfold measuredWaypointCrossingError.
  destruct (at_index (rp_waypoints r) i) as [w|] eqn:Hw; [|done].
  destruct (v_allFinite cur); simpl; [|done].
  destruct (isfinite (v_norm _) && _) eqn:Hin.
  { destruct (has _); [|done]. intros [= <-]. exists w. split; [done|]. left.
    by apply andb_true_iff in Hin as [_ ?]. }
  destruct prev as [p|]; [|done]. destruct (_ || fgt gap maxgap); [done|].
  destruct (incomingTangent r i) as [t|]; simpl; [|done].
  destruct (_ || fle _ lit_1e_6); [done|].
  destruct (segmentDistanceToPoint _ _ _) as [e'|] eqn:Hd; simpl; [|done].
  destruct (fgt e' _) eqn:Hle; [done|]. destruct (has _); [|done]. intros [= <-].
  exists w. split; [done|]. right. apply fle_negb_flt. split_and!; [| |done].
  - unfold segmentDistanceToPoint in Hd. destruct (_ || negb (v_allFinite (w_position_enu w))); [done|].
    cbv zeta in Hd. destruct (isfinite (v_squaredNorm _)); simpl in Hd; [|done]. by eapply optional_finite_number.
  - apply f64_add_not_nan; [|done]. unfold at_index in Hw. destruct (i <? 0); [done|].
    apply (Forall_lookup_1 _ _ _ _ Hg) in Hw. unfold waypoint_geometry_ok in Hw.
    apply negb_true_iff in Hw. by bsplit.
Qed.

Lemma mission_geometry m :
  mission_inv m ->
  Forall (fun w => waypoint_geometry_ok w = true) (m_waypoints (mp_mission m)).
Proof.
  intros Hi. destruct (Mission_valid_waypoints _ (mi_mission m Hi)) as [_ Hv].
  apply waypoints_valid_Forall in Hv as [Hv _]. eapply Forall_impl; [done|]. by intros ? [? _].
Qed.

(** The samples on either side of a measurement. *)
Definition prior_ok (prior : option MissionMeasuredSample) (s : MissionMeasuredSample) : Prop :=
  forall p, prior = Some p ->
  0 <= ms_source_stamp_ns s - ms_source_stamp_ns p <= kMaximumCrossingSampleGapNs.

Lemma after_gap_prior m s now :
  sample_ignored m s now = false -> prior_ok (mp_previous (after_gap m s)) s.
Proof.
  unfold sample_ignored, sample_unorderable, after_gap. intros Hn p.
  destruct (mp_previous m) as [p'|] eqn:Hp; [|by rewrite Hp].
  apply orb_false_iff in Hn as [_ Hn]. destruct (_ <? _) eqn:Hgap; simpl; [done|].
  rewrite Hp. intros [= ->]. bsplit. lia.
Qed.

Lemma measured_state_crossing m s :
  mp_crossing (measured_state m s) = None \/
  mp_crossing (measured_state m s) = mp_crossing m.
Proof.
  unfold measured_state, take_measurement, after_gap. simpl.
  destruct (_ || _); simpl; [by left|].
  destruct (mp_previous m) as [p|]; [destruct (_ <? _)|]; simpl; auto.
Qed.

Lemma witness_crossing_ok m m3 prior bc s c :
  mission_inv m -> same_frame m m3 -> prior_ok prior s ->
  ms_localization_epoch s = ri_localization_epoch (mp_identity m) ->
  gi_request_id (mp_gate m) <> 0 ->
  witness_crossing m3 prior bc s = Some c -> crossing_ok m c.
Proof.
  intros Hi Hf Hp He Hr. pose proof Hf as [Hm Hid Hg _ Hrt]. unfold witness_crossing.
  destruct (measuredWaypointCrossingError _ _ _ _ _ _) as [e|] eqn:Hc; simpl; [|done].
  intros [= <-]. unfold crossing_ok; simpl. rewrite Hid, Hg. split_and!; try done.
  - destruct prior as [p|]; simpl; [by apply Hp|lia].
  - destruct prior as [p|]; simpl; [by apply Hp|]. unfold kMaximumCrossingSampleGapNs. lia.
  - rewrite Hg in Hc. apply crossing_error_bound in Hc as (w & Hw & He'); rewrite Hrt, (mi_route m Hi) in *.
    + by exists w.
    + by apply mission_geometry.
Qed.

Lemma live_continuation_certifies m m2 now k :
  same_frame m m2 -> live_continuation m2 now = Some k -> certifies m k now.
Proof.
  intros [_ Hid Hg _ _]. unfold live_continuation, continuationMatches.
  destruct (mp_continuation m2) as [c|]; [|done].
  destruct (_ && (now <=? _)) eqn:Hc; [|done]. intros [= ->]. bsplit.
  repeat match goal with
  | H : sameRoute _ _ = true |- _ => apply sameRoute_true in H
  | H : sameGate _ _ = true |- _ => apply sameGate_true in H
  end.
  unfold certifies. rewrite <- Hid, <- Hg. split_and!; try done; lia.
Qed.

Lemma observe_pass_shape m m3 wp prior bc undone s now :
  mission_inv m -> same_frame m m3 -> crossing_inv m3 ->
  (forall c, witness_crossing m3 prior bc s = Some c -> crossing_ok m c) ->
  complete m = false -> gate_waypoint m = Some wp -> w_behavior wp = PassThrough ->
  step_shape m (op_measured s now) (observe_pass_through m3 wp prior bc undone s now).
Proof.
  intros Hi Hf Hci Hw Hnc Hwp Hb. unfold observe_pass_through.
  set (m2 := if undone then m3 else _).
  assert (Hf2 : same_frame m m2).
  { unfold m2. destruct undone; [done|]. destruct (witness_crossing _ _ _ _); [|done].
    destruct Hf; split; done. }
  assert (Hci2 : crossing_inv m2).
  { unfold m2. destruct undone; [done|]. destruct (witness_crossing _ _ _ _) as [c|] eqn:Hc; [|done].
    intros c' [= <-]. eapply (crossing_ok_frame m); [destruct Hf; split; done|by apply Hw]. }
  clearbody m2.
  assert (Hkeep : step_shape m (op_measured s now) (m2, no_decision)) by (by apply ss_keep).
  destruct (mp_crossing m2) as [c|] eqn:Hc; [|done].
  assert (Hcok : crossing_ok m c).
  { eapply (crossing_ok_frame m2); [by apply same_frame_sym|by apply Hci2]. }
  destruct (negb (has _) && _) eqn:Hr; [done|].
  destruct (_ && too_fast m2 _) eqn:Hfast; [done|].
  destruct (_ && negb (insideAcceptance _ _ _)) eqn:Hin; [done|].
  apply ss_accept; [done|done|]. exists wp, s. rewrite Hb. split_and!; [done..|].
  split; [by exists c|].
  destruct (ready_continuation m2 now) as [k|] eqn:Hk.
  - left. exists k. unfold ready_continuation in Hk.
    destruct (live_continuation m2 now) as [k'|] eqn:Hl; [|done].
    destruct (continuation_carries m2 (ct_kind k')) eqn:Hcar; [|done]. simplify_eq.
    split; [by eapply live_continuation_certifies|by eapply carried_through_intro].
  - right. simpl in Hr. apply negb_false_iff in Hr. unfold initial_inside in Hr.
    destruct Hf2 as [Hm _ Hg _ _]. rewrite Hg, Hm in Hr. bsplit. split_and!; try done. by exists wp.
Qed.

Lemma measured_state_stop m s :
  mp_stop_confirmation_start_ns (measured_state m s) = mp_stop_confirmation_start_ns m /\
  mp_stop_hold_start_ns (measured_state m s) = mp_stop_hold_start_ns m /\
  mp_active (measured_state m s) = mp_active m.
Proof.
  assert (Hg : mp_stop_confirmation_start_ns (after_gap m s) = mp_stop_confirmation_start_ns m /\
    mp_stop_hold_start_ns (after_gap m s) = mp_stop_hold_start_ns m /\
    mp_active (after_gap m s) = mp_active m).
  { unfold after_gap. destruct (mp_previous m); [destruct (_ <? _)|]; done. }
  unfold measured_state, take_measurement. simpl. by destruct (_ || _).
Qed.

Lemma observe_stop_shape m wp s now :
  mission_inv m -> sample_ignored m s now = false -> complete m = false ->
  gate_waypoint m = Some wp -> w_behavior wp = Stop ->
  step_shape m (op_measured s now) (observe_stop (measured_state m s) wp s now).
Proof.
  intros Hi Hs Hnc Hwp Hb. unfold observe_stop.
  pose proof (measured_state_frame m s) as Hf. destruct (measured_state_stop m s) as (Hc & Hh & _).
  assert (Hci : crossing_inv (measured_state m s)).
  { eapply crossing_inv_frame; [done|by apply Hi|apply measured_state_crossing]. }
  assert (Hkeep : forall a b, step_shape m (op_measured s now)
    (set_stop (measured_state m s) a b, no_decision)).
  { intros a b. apply ss_keep; [destruct Hf; split; done|exact Hci|done]. }
  destruct (stop_settled _ s now) eqn:Hset; simpl; [|done].
  rewrite Hc, Hh. destruct (secondsToNs (m_acceptance_confirmation_s _)) as [cn|] eqn:Hcn; [|done].
  destruct (secondsToNs (w_hold_s wp)) as [hn|] eqn:Hhn; [|done].
  destruct (_ <? cn) eqn:Hlc; [done|]. destruct (_ <? hn) eqn:Hlh; [exact (Hkeep (Some _) (Some _))|].
  apply ss_accept; [destruct Hf; split; done|done|]. exists wp, s. rewrite Hb.
  split_and!; [done..|]. exists now. split; [done|]. split_and!; [done..|].
  rewrite (sf_mission _ _ Hf) in Hcn. exists cn, hn. bsplit. split_and!; try done; lia.
Qed.

Lemma observeMeasured_shape m s now :
  mission_inv m -> step_shape m (op_measured s now) (observeMeasured m s now).
Proof.
  intros Hi. pose proof (measured_state_frame m s) as Hf.
  assert (Hnone : step_shape m (op_measured s now) (m, no_decision)).
  { apply ss_keep; [done|by apply Hi|by apply active_not_complete]. }
  unfold observeMeasured. destruct (sample_rejected m s now) eqn:H1; [done|].
  destruct (sample_repeated m s) eqn:H2; [done|].
  pose proof H1 as Hrej. unfold sample_rejected in Hrej. bsplit.
  destruct (sample_unorderable m s) eqn:H3.
  { apply ss_keep; [done|by intros c|done]. }
  assert (Hign : sample_ignored m s now = false) by (unfold sample_ignored; by rewrite H1, H2, H3).
  assert (Hci : crossing_inv (measured_state m s)).
  { eapply crossing_inv_frame; [done|by apply Hi|apply measured_state_crossing]. }
  destruct (measured_state_stop m s) as (_ & _ & Hact). pose proof Hf as [_ _ Hg _ _].
  unfold measured_state in Hf, Hci, Hact, Hg.
  pose proof (observe_stop_shape m) as Hstop. unfold measured_state in Hstop.
  destruct (take_measurement (after_gap m s) s) as [m3 undone] eqn:Ht. cbn [fst] in *.
  destruct (mp_active m3) eqn:Ha; simpl; [|by apply ss_keep].
  assert (Hnc : complete m = false) by (by apply active_not_complete).
  destruct (gi_request_id (mp_gate m3) =? 0) eqn:Hr0.
  { apply Z.eqb_eq in Hr0. rewrite Hg in *. apply ss_request; try done.
    - destruct (mp_crossing m3) as [c|] eqn:Hc; [|done].
      destruct (Hci c Hc) as (_ & _ & Hr & _). by rewrite Hg in Hr.
    - lia. }
  apply Z.eqb_neq in Hr0. rewrite Hg in Hr0.
  destruct (gate_waypoint m3) as [wp|] eqn:Hwp; [|by apply ss_keep].
  rewrite (frame_waypoint _ _ Hf) in Hwp. destruct (w_behavior wp) eqn:Hb.
  - apply observe_pass_shape; try done. intros c Hc. eapply (witness_crossing_ok m m3); eauto.
    by eapply after_gap_prior.
  - specialize (Hstop wp s now). rewrite Ht in Hstop. by apply Hstop.
Qed.

Lemma activate_shape m : mission_inv m -> step_shape m op_activate (activate m).
Proof.
  intros Hi. unfold activate. destruct (_ || complete m) eqn:Hc.
  { apply ss_keep; [done|by apply Hi|by apply active_not_complete]. }
  apply orb_false_iff in Hc as [_ Hc].
  destruct (_ || negb (ps_valid _)); [by apply ss_keep|].
  destruct (_ =? u64_max) eqn:Hm; [by apply ss_keep|].
  apply Z.eqb_neq in Hm. simpl in *. pose proof (mi_request m Hi).
  assert (u64_inc (gi_request_id (mp_gate m)) = gi_request_id (mp_gate m) + 1) as Hr
    by (by apply u64_inc_small).
  apply (ss_request m op_activate (set_stop (set_continuation (set_crossing (set_active m true) None)
    None) None None)); try done; rewrite Hr; zlia.
Qed.

(** Every operation keeps the gate and the acceptance, issues a new request for
    the same waypoint, resets the identity, or accepts the gate's waypoint with
    an authority. *)
Lemma mission_step_shape m o : mission_inv m -> step_shape m o (mission_step m o).
Proof.
  intros Hi. assert (Hnone : step_shape m o (m, no_decision)).
  { apply ss_keep; [done|by apply Hi|by apply active_not_complete]. }
  destruct o as [revision epoch| | |w now|s now]; simpl.
  - destruct (resetIdentity m revision epoch) as [m1|] eqn:Hr; simpl; [|done].
    by eapply ss_reset.
  - by apply activate_shape.
  - by apply ss_keep.
  - by apply observeContinuation_shape.
  - by apply observeMeasured_shape.
Qed.

(** ** The invariant is kept *)

Lemma resetIdentity_some m revision epoch m1 :
  resetIdentity m revision epoch = Some m1 ->
  mp_mission m1 = mp_mission m /\
  rp_waypoints (mp_measured_route m1) = rp_waypoints (mp_measured_route m) /\
  gi_request_id (mp_gate m1) = gi_request_id (mp_gate m) /\
  mp_crossing m1 = None /\ mp_active m1 = false /\
  mp_stop_confirmation_start_ns m1 = None /\ mp_stop_hold_start_ns m1 = None /\
  ri_revision (mp_identity m1) = revision /\ (revision =? 0) = false /\ (epoch =? 0) = false /\
  ((ri_revision (mp_identity m) <> revision /\ gi_waypoint_index (mp_gate m1) = 0 /\
    mp_accepted m1 = None) \/
   (ri_revision (mp_identity m) = revision /\ mp_gate m1 = mp_gate m /\
    mp_accepted m1 = mp_accepted m)).
Proof.
  unfold resetIdentity. destruct (_ || (epoch =? 0)) eqn:Hz; [done|].
  apply orb_false_iff in Hz as [Hz1 Hz2].
  destruct (ri_revision (mp_identity m) =? revision) eqn:Hr; simpl; intros [= <-]; simpl;
    [apply Z.eqb_eq in Hr|apply Z.eqb_neq in Hr]; split_and!; auto.
Qed.

(** The two outcomes of [accept]: the next waypoint's gate, or completion. *)
Lemma accept_cases m m2 e v :
  mission_inv m -> same_frame m m2 ->
  let m' := (accept m2 e v).1 in
  let i := gi_waypoint_index (mp_gate m) in
  mp_mission m' = mp_mission m /\ mp_identity m' = mp_identity m /\
  rp_waypoints (mp_measured_route m') = rp_waypoints (mp_measured_route m) /\
  mp_accepted m' = Some (mp_gate m) /\ mp_crossing m' = None /\
  mp_stop_confirmation_start_ns m' = None /\ mp_stop_hold_start_ns m' = None /\
  is_u64 (gi_request_id (mp_gate m')) /\
  ((i + 1 < waypoint_count m /\ gi_waypoint_index (mp_gate m') = i + 1 /\
    md_kind (accept m2 e v).2 <> kComplete) \/
   (i + 1 = waypoint_count m /\ mp_gate m' = mp_gate m /\ mp_active m' = false /\
    md_kind (accept m2 e v).2 = kComplete)).
Proof.
  intros Hi [Hm Hid Hg _ Hr]. pose proof (count_range m Hi). pose proof (mi_index m Hi) as Hidx.
  pose proof (mi_request m Hi).
  assert (Hinc : u32_inc (gi_waypoint_index (mp_gate m)) = gi_waypoint_index (mp_gate m) + 1)
    by (apply u32_inc_small; lia).
  unfold accept. simpl. rewrite Hm, Hg, Hinc. fold (waypoint_count m).
  destruct (waypoint_count m <=? _) eqn:Hlast; simpl.
  - apply Z.leb_le in Hlast. rewrite Hg. split_and!; auto. right. split_and!; auto. lia.
  - apply Z.leb_gt in Hlast. destruct (_ =? u64_max) eqn:Hmax; simpl; split_and!; auto;
      try apply u64_inc_range; left; split_and!; auto; done.
Qed.

Lemma mission_inv_step m o : mission_inv m -> mission_inv (mission_next m o).
Proof.
  intros Hi. unfold mission_next.
  destruct (mission_step_shape m o Hi) as [m1 Hf Hc Ha|m1 r Hf Hnc Hc Hr Hlt|rev ep m1 -> Hr|m2 e v Hf Hnc _];
    simpl.
  - pose proof Hf as [Hm Hid Hg Hac Hrt]. destruct Hi as [Hv Hw Hidx Hreq Hacc _].
    constructor; unfold waypoint_count in *; rewrite ?Hm, ?Hg, ?Hac, ?Hrt; auto.
    destruct (mp_accepted m) as [a|] eqn:Hma; [|done]. destruct Hacc as [|(-> & Hlast & Hact)]; [by left|].
    right. split_and!; auto. apply not_true_iff_false. intros Hact1. specialize (Ha Hact1).
    apply not_true_iff_false in Ha. apply Ha. unfold complete. rewrite Hma.
    rewrite u32_inc_small; [by apply Z.eqb_eq|].
    destruct (Mission_valid_waypoints _ Hv) as [[? ?] _]. unfold kMaximumMissionWaypoints in *. lia.
  - pose proof Hf as [Hm Hid Hg Hac Hrt]. pose proof (complete_spec m Hi) as Hcs.
    destruct Hi as [Hv Hw Hidx Hreq Hacc _].
    constructor; unfold waypoint_count in *; simpl; rewrite ?Hm, ?Hg, ?Hac, ?Hrt; auto.
    + destruct (mp_accepted m) as [a|] eqn:Hma; [|done].
      destruct Hacc as [|(-> & Hlast & Hact)]; [by left|].
      rewrite (proj2 Hcs) in Hnc by done. done.
    + intros c Hc'. simpl in Hc'. congruence.
  - apply resetIdentity_some in Hr as (Hm & Hrt & Hq & Hc & Hact & _ & _ & _ & _ & _ & Hcase).
    pose proof (count_range m Hi). destruct Hi as [Hv Hw Hidx Hreq Hacc _].
    constructor; unfold waypoint_count in *; rewrite ?Hm, ?Hrt, ?Hq; auto.
    + destruct Hcase as [(_ & -> & _)|(_ & -> & _)]; lia.
    + destruct Hcase as [(_ & -> & ->)|(_ & -> & ->)]; [done|].
      destruct (mp_accepted m); [|done]. naive_solver.
    + intros c Hc'. congruence.
  - pose proof (accept_cases m m2 e v Hi Hf) as (Hm & Hid & Hrt & Hac & Hc & _ & _ & Hq & Hcase).
    destruct Hi as [Hv Hw Hidx Hreq Hacc _].
    constructor; unfold waypoint_count in *; rewrite ?Hm, ?Hrt, ?Hac; auto.
    + destruct Hcase as [(? & -> & _)|(? & -> & _)]; lia.
    + destruct Hcase as [(? & -> & _)|(? & -> & ? & _)]; [left; lia|right; auto].
    + intros c Hc'. congruence.
Qed.

Lemma MissionProgress_make_inv mission m :
  MissionProgress_make mission = Some m ->
  mission_inv m /\ mp_mission m = mission /\ mp_accepted m = None /\
  ri_revision (mp_identity m) = 1 /\ gi_waypoint_index (mp_gate m) = 0 /\
  mp_stop_confirmation_start_ns m = None /\ mp_stop_hold_start_ns m = None /\ mp_active m = false.
Proof.
  unfold MissionProgress_make. destruct (RouteProgress_make _ _) as [r|] eqn:Hr; simpl; [|done].
  apply RouteProgress_make_wf in Hr as (_ & Hw & _ & _ & Hv & _). rewrite Hv. simpl.
  intros [= <-]. split_and!; try done. destruct (Mission_valid_waypoints _ Hv) as [[? ?] _].
  constructor; simpl; try done.
Qed.

Lemma mission_inv_run m ops : mission_inv m -> mission_inv (run mission_next m ops).
Proof. intros. apply run_invariant; auto using mission_inv_step. Qed.

(** ** Acceptances of a run *)

(** The gate an operation accepts, read off the change of [accepted_]. *)
Definition accepted_in (m : MissionProgress) (o : mission_op) : list MissionGateIdentity :=
  if bool_decide (mp_accepted (mission_next m o) = mp_accepted m) then []
  else match mp_accepted (mission_next m o) with Some a => [a] | None => [] end.

Fixpoint acceptances (m : MissionProgress) (ops : list mission_op) : list MissionGateIdentity :=
  match ops with
  | [] => []
  | o :: ops' => accepted_in m o ++ acceptances (mission_next m o) ops'
  end.

(** The operation does not start another revision of the route. *)
Definition keeps_route (revision : Z) (o : mission_op) : Prop :=
  match o with op_reset r _ => r = revision | _ => True end.

Lemma acceptances_snoc m ops o :
  acceptances m (ops ++ [o]) = acceptances m ops ++ accepted_in (run mission_next m ops) o.
Proof.
  revert m; induction ops as [|o' ops IH]; intros m; simpl; [by rewrite app_nil_r|].
  by rewrite IH, (assoc app).
Qed.

(** An acceptance is a call of [accept] that [authorised] allowed. *)
Lemma accepted_in_cases m o :
  mission_inv m ->
  (accepted_in m o = [] /\
   (keeps_route (ri_revision (mp_identity m)) o ->
    mp_mission (mission_next m o) = mp_mission m /\
    mp_accepted (mission_next m o) = mp_accepted m /\
    gi_waypoint_index (mp_gate (mission_next m o)) = gi_waypoint_index (mp_gate m) /\
    ri_revision (mp_identity (mission_next m o)) = ri_revision (mp_identity m)) /\
   md_kind (mission_step m o).2 <> kComplete) \/
  (exists m2 e v, accepted_in m o = [mp_gate m] /\ mission_step m o = accept m2 e v /\
   same_frame m m2 /\ complete m = false /\ authorised m o e).
Proof.
  intros Hi. unfold accepted_in, mission_next.
  destruct (mission_step_shape m o Hi) as [m1 Hf Hc Ha|m1 r Hf Hnc Hc Hr Hlt|rev ep m1 -> Hr|m2 e v Hf Hnc Hau];
    simpl.
  - left. destruct Hf as [? Hid Hg Ha1 ?]. rewrite bool_decide_eq_true_2 by done.
    rewrite Hid, Hg. done.
  - left. destruct Hf as [? Hid Hg Ha1 ?]. rewrite bool_decide_eq_true_2 by done.
    rewrite Hid. done.
  - left. apply resetIdentity_some in Hr as (Hm & _ & _ & _ & _ & _ & _ & Hrev & _ & _ & Hcase).
    destruct Hcase as [(Hne & _ & Hac)|(Heq & Hg & Hac)].
    + rewrite Hac. split; [by case_bool_decide|split; [|done]]. intros Hk. simpl in Hk. congruence.
    + rewrite bool_decide_eq_true_2 by done. rewrite Hg. split_and!; try done. intros _.
      split_and!; try done. congruence.
  - right. exists m2, e, v.
    pose proof (accept_cases m m2 e v Hi Hf) as (_ & _ & _ & Hac & _). rewrite Hac.
    rewrite bool_decide_eq_false_2; [done|]. intros Heq.
    apply not_true_iff_false in Hnc. apply Hnc. apply complete_spec; [done|].
    split; [done|]. pose proof (mi_accepted m Hi) as Hacc. rewrite <- Heq in Hacc.
    destruct Hacc as [[_ ?]|(_ & ? & _)]; [lia|done].
Qed.

(** The state of a run after its acceptances. *)
Definition accepted_prefix (m : MissionProgress) (accepted : list MissionGateIdentity) : Prop :=
  gi_waypoint_index <$> accepted = seqZ 0 (Z.of_nat (length accepted)) /\
  if complete m then Z.of_nat (length accepted) = waypoint_count m
  else gi_waypoint_index (mp_gate m) = Z.of_nat (length accepted).

Lemma complete_same m m' :
  mp_mission m' = mp_mission m -> mp_accepted m' = mp_accepted m -> complete m' = complete m.
Proof. intros Hm Ha. unfold complete. by rewrite Hm, Ha. Qed.

Lemma accepted_prefix_step m o accepted :
  mission_inv m -> keeps_route (ri_revision (mp_identity m)) o -> accepted_prefix m accepted ->
  accepted_prefix (mission_next m o) (accepted ++ accepted_in m o) /\
  ri_revision (mp_identity (mission_next m o)) = ri_revision (mp_identity m) /\
  mp_mission (mission_next m o) = mp_mission m /\
  (md_kind (mission_step m o).2 = kComplete <->
   complete m = false /\ complete (mission_next m o) = true).
Proof.
  intros Hi Hk [Hseq Hpre].
  destruct (accepted_in_cases m o Hi) as [(-> & Hsame & Hd)|(m2 & e & v & -> & Hst & Hf & Hnc & _)].
  - destruct (Hsame Hk) as (Hm & Ha & Hg & Hr). rewrite app_nil_r. split_and!; auto.
    + split; [done|]. unfold waypoint_count. by rewrite (complete_same m (mission_next m o)), Hm, Hg.
    + rewrite (complete_same m (mission_next m o)) by done. split; [done|]. intros [? ?]. congruence.
  - rewrite Hnc in Hpre. pose proof (mission_inv_step m o Hi) as Hi'.
    pose proof (accept_cases m m2 e v Hi Hf) as (Hm & Hid & _ & Hac & _ & _ & _ & _ & Hcase).
    unfold mission_next in *. rewrite Hst in *. pose proof (complete_spec _ Hi') as Hcs.
    unfold waypoint_count in *. rewrite Hm, Hac in Hcs.
    rewrite Hm, Hid. split_and!; try done.
    + split.
      * rewrite fmap_app, Hseq, length_app, Nat2Z.inj_add, seqZ_app by lia. simpl.
        by rewrite Hpre.
      * unfold waypoint_count. rewrite length_app, Hm. simpl.
        destruct (complete (accept m2 e v).1) eqn:Hc.
        { destruct (proj1 Hcs eq_refl) as [Hg Hl].
          destruct Hcase as [(? & Hn & _)|(? & Hn & _)]; [|lia].
          apply (inj Some) in Hg. rewrite <- Hg in Hn. lia. }
        destruct Hcase as [(? & Hn & _)|(? & Hn & _)]; [lia|].
        enough (false = true) by done. apply Hcs. by rewrite Hn.
    + rewrite Hcs. destruct Hcase as [(? & Hn & Hd)|(? & Hn & _ & Hd)].
      * split; [done|]. intros (_ & Hg & _). apply (inj Some) in Hg. rewrite <- Hg in Hn. lia.
      * rewrite Hn. done.
Qed.

Lemma accepted_prefix_run m0 ops :
  mission_inv m0 -> Forall (keeps_route (ri_revision (mp_identity m0))) ops ->
  accepted_prefix m0 [] ->
  accepted_prefix (run mission_next m0 ops) (acceptances m0 ops) /\
  ri_revision (mp_identity (run mission_next m0 ops)) = ri_revision (mp_identity m0) /\
  mp_mission (run mission_next m0 ops) = mp_mission m0.
Proof.
  intros Hi Hk H0. induction ops as [|o ops IH] using rev_ind; [done|].
  apply Forall_app in Hk as [Hk Ho]. destruct (IH Hk) as (Hp & Hr & Hm).
  rewrite run_snoc, acceptances_snoc.
  apply Forall_cons in Ho as [Ho _]. rewrite <- Hr in Ho.
  destruct (accepted_prefix_step _ o _ (mission_inv_run m0 ops Hi) Ho Hp) as (? & Hr' & Hm' & _).
  rewrite Hr', Hm'. done.
Qed.

(** ** The STOP confirmation window *)

(** The sample [s] is judged settled by [observe_stop]. *)
Definition settled_step (m : MissionProgress) (s : MissionMeasuredSample) (now_ns : Z) : bool :=
  negb (sample_ignored m s now_ns) && stop_settled (measured_state m s) s now_ns.

(** An operation that leaves a running confirmation alone: it is ignored, it is
    a continuation, or it is a settled sample. *)
Definition quiet (m : MissionProgress) (o : mission_op) : bool :=
  match o with
  | op_reset revision epoch => (revision =? 0) || (epoch =? 0)
  | op_activate => (ri_localization_epoch (mp_identity m) =? 0) || complete m
  | op_deactivate => false
  | op_continuation _ _ => true
  | op_measured s now_ns => sample_ignored m s now_ns || settled_step m s now_ns
  end.

(** A confirmation runs at a STOP gate of an active mission; a hold runs inside
    a confirmation that has lasted. *)
Record stop_inv (m : MissionProgress) : Prop := {
  si_gate : is_Some (mp_stop_confirmation_start_ns m) ->
    mp_active m = true /\ gi_request_id (mp_gate m) <> 0 /\
    exists w, gate_waypoint m = Some w /\ w_behavior w = Stop;
  si_hold : forall h, mp_stop_hold_start_ns m = Some h ->
    exists c confirmation_ns, mp_stop_confirmation_start_ns m = Some c /\
      secondsToNs (m_acceptance_confirmation_s (mp_mission m)) = Some confirmation_ns /\
      confirmation_ns <= h - c
}.

Lemma stop_inv_none m :
  mp_stop_confirmation_start_ns m = None -> mp_stop_hold_start_ns m = None -> stop_inv m.
Proof. intros Hc Hh. constructor; rewrite ?Hc, ?Hh; [by intros []|done]. Qed.

Lemma stop_inv_same m m' :
  same_frame m m' -> mp_active m' = mp_active m ->
  mp_stop_confirmation_start_ns m' = mp_stop_confirmation_start_ns m ->
  mp_stop_hold_start_ns m' = mp_stop_hold_start_ns m -> stop_inv m -> stop_inv m'.
Proof.
  intros Hf Ha Hc Hh [H1 H2]. pose proof (frame_waypoint _ _ Hf). destruct Hf as [Hm _ Hg _ _].
  constructor; rewrite ?Hc, ?Hh, ?Ha, ?Hg, ?Hm; [by rewrite H|done].
Qed.

(** How one operation treats the confirmation. *)
Definition confirmation_step (m : MissionProgress) (o : mission_op) : Prop :=
  let m' := mission_next m o in
  stop_inv m' /\
  forall c, mp_stop_confirmation_start_ns m' = Some c ->
    (mp_stop_confirmation_start_ns m = Some c /\ quiet m o = true) \/
    (exists s now_ns, o = op_measured s now_ns /\ settled_step m s now_ns = true /\
       c = ms_source_stamp_ns s).

Lemma confirmation_step_none m o :
  mp_stop_confirmation_start_ns (mission_next m o) = None ->
  mp_stop_hold_start_ns (mission_next m o) = None -> confirmation_step m o.
Proof. intros Hc Hh. split; [by apply stop_inv_none|]. intros c. by rewrite Hc. Qed.

Lemma confirmation_step_same m o :
  stop_inv m -> same_frame m (mission_next m o) ->
  mp_active (mission_next m o) = mp_active m ->
  mp_stop_confirmation_start_ns (mission_next m o) = mp_stop_confirmation_start_ns m ->
  mp_stop_hold_start_ns (mission_next m o) = mp_stop_hold_start_ns m -> quiet m o = true ->
  confirmation_step m o.
Proof.
  intros Hi Hf Ha Hc Hh Hq. split; [by eapply stop_inv_same|]. intros c. rewrite Hc. auto.
Qed.

Lemma accept_stop m e v :
  mp_stop_confirmation_start_ns (accept m e v).1 = None /\
  mp_stop_hold_start_ns (accept m e v).1 = None.
Proof. unfold accept. simpl. by destruct (_ <=? _); [|destruct (_ =? u64_max)]. Qed.

Lemma observe_stop_confirmation m wp s now :
  mission_inv m -> stop_inv m -> sample_ignored m s now = false -> mp_active m = true ->
  gi_request_id (mp_gate m) <> 0 -> gate_waypoint m = Some wp -> w_behavior wp = Stop ->
  let m' := (observe_stop (measured_state m s) wp s now).1 in
  stop_inv m' /\
  forall c, mp_stop_confirmation_start_ns m' = Some c ->
    settled_step m s now = true /\ c = default (ms_source_stamp_ns s) (mp_stop_confirmation_start_ns m).
Proof.
  intros Hi [H1 H2] Hign Hact Hreq Hwp Hb. unfold observe_stop, settled_step. rewrite Hign.
  pose proof (measured_state_frame m s) as Hf. destruct (measured_state_stop m s) as (Hc & Hh & Ha).
  pose proof (frame_waypoint _ _ Hf) as Hw. destruct Hf as [Hm _ Hg _ _].
  destruct (stop_settled (measured_state m s) s now) eqn:Hset; simpl;
    [|split; [by apply stop_inv_none|done]].
  rewrite Hc, Hh, Hm. set (c0 := default _ (mp_stop_confirmation_start_ns m)).
  assert (Hinv : forall h, (forall h', h = Some h' -> exists n,
      secondsToNs (m_acceptance_confirmation_s (mp_mission m)) = Some n /\ n <= h' - c0) ->
    stop_inv (set_stop (measured_state m s) (Some c0) h)).
  { intros h Hn. constructor; simpl.
    - intros _. rewrite Ha, Hg. split_and!; try done. exists wp. split; [by rewrite <- Hwp|done].
    - intros h' ->. destruct (Hn h' eq_refl) as (n & Hn1 & Hn2). exists c0, n. by rewrite Hm. }
  assert (Hold : forall h', mp_stop_hold_start_ns m = Some h' -> exists n,
      secondsToNs (m_acceptance_confirmation_s (mp_mission m)) = Some n /\ n <= h' - c0).
  { intros h' (c & n & Hc' & Hn & Hle)%H2. exists n. unfold c0. by rewrite Hc'. }
  destruct (secondsToNs (m_acceptance_confirmation_s _)) as [cn|] eqn:Hcn; simpl;
    [|split; [by apply Hinv|by intros c [= <-]]].
  destruct (secondsToNs (w_hold_s wp)) as [hn|] eqn:Hhn; simpl;
    [|split; [by apply Hinv|by intros c [= <-]]].
  destruct (ms_source_stamp_ns s - c0 <? cn) eqn:Hlc; simpl;
    [split; [by apply Hinv|by intros c [= <-]]|].
  destruct (_ <? hn); simpl.
  - split; [|by intros c [= <-]]. apply Hinv. intros h' [= <-].
    destruct (mp_stop_hold_start_ns m) as [h|]; [by apply Hold|]. simpl. exists cn. bsplit.
    split; [done|lia].
  - destruct (accept_stop (set_stop (set_stop (measured_state m s) (Some c0) (mp_stop_hold_start_ns m))
      (Some c0) (Some (default (ms_source_stamp_ns s) (mp_stop_hold_start_ns m))))
      (v_norm (v_sub (ms_position s) (w_position_enu wp))) (v_norm (ms_velocity s))) as [Hx Hy].
    split; [by apply stop_inv_none|]. intros c. by rewrite Hx.
Qed.

Lemma stop_idle m :
  stop_inv m -> mp_stop_confirmation_start_ns m = None -> mp_stop_hold_start_ns m = None.
Proof.
  intros [_ Hh] Hc. destruct (mp_stop_hold_start_ns m) as [h|]; [|done].
  destruct (Hh h eq_refl) as (c & ? & Hc' & _). congruence.
Qed.

Lemma observe_pass_stop m wp prior bc undone s now :
  mp_stop_confirmation_start_ns m = None -> mp_stop_hold_start_ns m = None ->
  let m' := (observe_pass_through m wp prior bc undone s now).1 in
  mp_stop_confirmation_start_ns m' = None /\ mp_stop_hold_start_ns m' = None.
Proof.
  intros Hc Hh. unfold observe_pass_through. set (m2 := if undone then m else _).
  assert (mp_stop_confirmation_start_ns m2 = None /\ mp_stop_hold_start_ns m2 = None) as Hm2.
  { unfold m2. destruct undone; [done|]. by destruct (witness_crossing _ _ _ _). }
  clearbody m2. destruct (mp_crossing m2) as [c|]; [|done].
  destruct (negb _ && negb _); [done|]. destruct (_ && too_fast _ _); [done|].
  destruct (_ && negb (insideAcceptance _ _ _)); [done|]. apply accept_stop.
Qed.

Lemma continuation_confirmation m w now :
  mission_inv m -> stop_inv m -> confirmation_step m (op_continuation w now).
Proof.
  intros Hi Hs.
  assert (Hsame : forall m1, mission_next m (op_continuation w now) = m1 ->
    (m1 = m \/ m1 = set_continuation m (Some w)) -> confirmation_step m (op_continuation w now)).
  { intros m1 Heq Hm. apply confirmation_step_same; try done; rewrite Heq; by destruct Hm as [-> | ->]. }
  unfold mission_next in Hsame. simpl in Hsame. unfold observeContinuation in Hsame.
  destruct (negb (mp_active m) || _ || _ || _ || _ || _ || _ || _ || _) eqn:Hg; [eauto|].
  destruct (match mp_continuation m with Some _ => _ | None => _ end) eqn:Hg2; [eauto|].
  destruct (gate_waypoint (set_continuation m (Some w))) as [wp|] eqn:Hwp; [|eauto].
  destruct (mp_crossing (set_continuation m (Some w))) as [c|] eqn:Hc; [|eauto].
  destruct (mp_latest (set_continuation m (Some w))) as [s|] eqn:Hl; [|eauto].
  destruct ((w_behavior wp !=? PassThrough) || _) eqn:Hb; [eauto|].
  destruct ((isCoincidentTerminalStop _ || _) && _) eqn:Hfast; [eauto|].
  destruct (_ && negb (insideAcceptance _ _ _)) eqn:Hin; [eauto|].
  clear Hsame.
  assert (Heq : mission_next m (op_continuation w now)
    = (accept (set_continuation m (Some w)) (cw_crossing_error_m c)
         (v_norm (ms_velocity (cw_after c)))).1).
  { unfold mission_next. simpl. unfold observeContinuation.
    by rewrite Hg, Hg2, Hwp, Hc, Hl, Hb, Hfast, Hin. }
  apply confirmation_step_none; rewrite Heq; apply accept_stop.
Qed.

(** The cases of [observeMeasured] on a new sample, over the judged state. *)
Lemma measured_next m s now :
  sample_ignored m s now = false ->
  exists prior bc undone, mission_next m (op_measured s now) =
    let m3 := measured_state m s in
    if negb (mp_active m) then m3
    else if gi_request_id (mp_gate m) =? 0 then
      set_gate m3 (mkGate (gi_waypoint_index (mp_gate m)) 1)
    else match gate_waypoint m with
         | None => m3
         | Some wp => match w_behavior wp with
                      | PassThrough => (observe_pass_through m3 wp prior bc undone s now).1
                      | Stop => (observe_stop m3 wp s now).1
                      end
         end.
Proof.
  intros [[H1 H2]%orb_false_iff H3]%orb_false_iff.
  unfold mission_next; simpl. unfold observeMeasured. rewrite H1, H2, H3.
  pose proof (measured_state_frame m s) as Hf. destruct (measured_state_stop m s) as (_ & _ & Ha).
  pose proof (frame_waypoint _ _ Hf) as Hw. destruct Hf as [_ _ Hg _ _].
  unfold measured_state in *. destruct (take_measurement (after_gap m s) s) as [m3 undone].
  cbn [fst] in *. exists (mp_previous (after_gap m s)),
    (ps_projection (rp_state (mp_measured_route (after_gap m s)))), undone.
  rewrite Ha, Hg, Hw. destruct (mp_active m); [|done]. simpl.
  destruct (_ =? 0); [done|]. destruct (gate_waypoint m) as [wp|]; [|done].
  by destruct (w_behavior wp).
Qed.

Lemma ignored_confirmation m s now :
  stop_inv m -> sample_ignored m s now = true -> confirmation_step m (op_measured s now).
Proof.
  intros Hs Hign. unfold sample_ignored in Hign.
  apply confirmation_step_same; try done; unfold mission_next; simpl; unfold observeMeasured;
    unfold sample_ignored; destruct (sample_rejected m s now); simpl; try done;
    destruct (sample_repeated m s); simpl; try done; simpl in Hign; by rewrite Hign.
Qed.

Lemma measured_confirmation m s now :
  mission_inv m -> stop_inv m -> confirmation_step m (op_measured s now).
Proof.
  intros Hi Hs. destruct (sample_ignored m s now) eqn:Hign; [by apply ignored_confirmation|].
  destruct (measured_next m s now Hign) as (prior & bc & undone & Heq). simpl in Heq.
  destruct (measured_state_stop m s) as (Hc & Hh & _).
  pose proof (observe_stop_confirmation m) as Hstop. unfold confirmation_step.
  destruct (mp_stop_confirmation_start_ns m) as [c0|] eqn:Hcm.
  - destruct (si_gate m Hs) as (Ha & Hr & wp & Hwp & Hb); [by rewrite Hcm|].
    rewrite Ha, (proj2 (Z.eqb_neq _ _) Hr), Hwp, Hb in Heq. simpl in Heq. rewrite Heq.
    destruct (Hstop wp s now) as [Hs' Hc']; try done. split; [done|].
    intros c [Hset ->]%Hc'. left. simpl. by rewrite Hset, orb_true_r.
  - pose proof (stop_idle m Hs Hcm) as Hhm. rewrite Hhm in Hh.
    assert (Hnone : mp_stop_confirmation_start_ns (mission_next m (op_measured s now)) = None ->
      mp_stop_hold_start_ns (mission_next m (op_measured s now)) = None ->
      confirmation_step m (op_measured s now)) by (apply confirmation_step_none).
    unfold confirmation_step in Hnone. rewrite Hcm in Hnone.
    destruct (mp_active m) eqn:Ha; simpl in Heq; [|apply Hnone; by rewrite Heq].
    destruct (gi_request_id (mp_gate m) =? 0) eqn:Hr; [apply Hnone; by rewrite Heq|].
    destruct (gate_waypoint m) as [wp|] eqn:Hwp; [|apply Hnone; by rewrite Heq].
    apply Z.eqb_neq in Hr. destruct (w_behavior wp) eqn:Hb.
    { apply Hnone; rewrite Heq; by apply observe_pass_stop. }
    rewrite Heq. destruct (Hstop wp s now) as [Hs' Hc']; try done. split; [done|].
    intros c [Hset ->]%Hc'. right. by exists s, now.
Qed.

Lemma confirmation_step_all m o : mission_inv m -> stop_inv m -> confirmation_step m o.
Proof.
  intros Hi Hs. destruct o as [revision epoch| | |w now|s now].
  - destruct (resetIdentity m revision epoch) as [m1|] eqn:Hr.
    + apply resetIdentity_some in Hr as Hr'. destruct Hr' as (_&_&_&_&_&Hc&Hh&_).
      apply confirmation_step_none; unfold mission_next; simpl; by rewrite Hr.
    + apply confirmation_step_same; try done; unfold mission_next; simpl; try by rewrite Hr.
      unfold resetIdentity in Hr. destruct (_ || (epoch =? 0)); [done|].
      by destruct (negb _).
  - destruct ((ri_localization_epoch (mp_identity m) =? 0) || complete m) eqn:Hg.
    + apply confirmation_step_same; try done; unfold mission_next; simpl; unfold activate;
        by rewrite Hg.
    + apply confirmation_step_none; unfold mission_next; simpl; unfold activate; rewrite Hg;
        simpl; destruct (_ || negb (ps_valid _)); simpl; try done; by destruct (_ =? u64_max).
  - by apply confirmation_step_none.
  - by apply continuation_confirmation.
  - by apply measured_confirmation.
Qed.

(** A run in which a sample stamped [c] was settled and every later operation
    was quiet: the measured confirmation that started at [c]. *)
Definition stop_window (m0 : MissionProgress) (ops : list mission_op) (c : Z) : Prop :=
  exists pre s now_ns suf,
    ops = pre ++ op_measured s now_ns :: suf /\ ms_source_stamp_ns s = c /\
    settled_step (run mission_next m0 pre) s now_ns = true /\
    forall s1 o s2, suf = s1 ++ o :: s2 ->
      quiet (run mission_next m0 (pre ++ op_measured s now_ns :: s1)) o = true.

Lemma stop_window_snoc m0 ops o c :
  stop_window m0 ops c -> quiet (run mission_next m0 ops) o = true ->
  stop_window m0 (ops ++ [o]) c.
Proof.
  intros (pre & s & now & suf & -> & Hc & Hset & Hq) Ho. exists pre, s, now, (suf ++ [o]).
  split_and!; auto; [by rewrite <- (assoc app)|].
  intros s1 o1 s2 Heq. destruct s2 as [|o2 s2 _] using rev_ind.
  - apply app_inj_tail in Heq as [-> ->]. done.
  - rewrite app_comm_cons, (assoc app) in Heq. apply app_inj_tail in Heq as [-> _]. by eapply Hq.
Qed.

Lemma stop_window_run m0 ops :
  mission_inv m0 -> stop_inv m0 -> mp_stop_confirmation_start_ns m0 = None ->
  stop_inv (run mission_next m0 ops) /\
  forall c, mp_stop_confirmation_start_ns (run mission_next m0 ops) = Some c -> stop_window m0 ops c.
Proof.
  intros Hi Hs H0. induction ops as [|o ops [IHs IHw]] using rev_ind.
  { simpl. split; [done|]. intros c Hc. congruence. }
  rewrite run_snoc. destruct (confirmation_step_all _ o (mission_inv_run m0 ops Hi) IHs) as [Hs' Hc].
  split; [done|]. intros c [[Hold Hq]|(s & now & -> & Hset & ->)]%Hc.
  - apply stop_window_snoc; auto.
  - exists ops, s, now, []. split_and!; try done. intros s1 ? ? Heq. by destruct s1.
Qed.

(** ** Properties *)

(** C5. Waypoints are accepted in order and completely: over any sequence of
    operations on one route revision - localization resets, activations,
    deactivations, continuations and measurements - the accepted waypoint
    indices are exactly 0, 1, 2, ... without gap or repetition; the gate names
    the next one; the mission is complete exactly when every waypoint has been
    accepted; and the next operation returns [Complete] exactly when it
    completes the mission. *)
Theorem acceptances_in_order (mission : Mission) (m0 : MissionProgress) (ops : list mission_op)
    (o : mission_op) :
  MissionProgress_make mission = Some m0 -> Forall (keeps_route 1) ops -> keeps_route 1 o ->
  let m := run mission_next m0 ops in
  let accepted := acceptances m0 ops in
  gi_waypoint_index <$> accepted = seqZ 0 (Z.of_nat (length accepted)) /\
  (length accepted <= length (m_waypoints mission))%nat /\
  (complete m = true <-> length accepted = length (m_waypoints mission)) /\
  (complete m = false -> gi_waypoint_index (mp_gate m) = Z.of_nat (length accepted)) /\
  (md_kind (mission_step m o).2 = kComplete <->
   complete m = false /\ complete (mission_next m o) = true).
Proof.
  intros (Hi & Hm0 & Ha & Hrev & Hg & _)%MissionProgress_make_inv Hk Ho m accepted.
  assert (H0 : accepted_prefix m0 []).
  { split; [done|]. unfold complete. by rewrite Ha. }
  rewrite <- Hrev in Hk. destruct (accepted_prefix_run m0 ops Hi Hk H0) as ([Hseq Hpre] & Hr & Hm).
  pose proof (mission_inv_run m0 ops Hi) as Him. fold m in Hpre, Hr, Hm, Him. fold accepted in Hseq, Hpre.
  rewrite Hrev in Hr.
  destruct (accepted_prefix_step m o accepted Him) as (_ & _ & _ & Hd); [by rewrite Hr|by split|].
  pose proof (mi_index m Him) as Hidx.
  assert (Hn : waypoint_count m = Z.of_nat (length (m_waypoints mission))).
  { unfold waypoint_count, vec_size. by rewrite Hm, Hm0. }
  rewrite Hn in Hpre, Hidx. destruct (complete m); split_and!; try done; lia.
Qed.


(** C3. An acceptance at a STOP waypoint is made on a new measured sample that
    is inside the waypoint, slow and under a live continuation certificate, and
    closes a confirmation: some earlier settled sample started it, every
    operation since was quiet (a continuation, an ignored sample, a call with no
    effect, or another settled sample), and the source time elapsed covers the
    confirmation and the hold durations of the mission. *)
Theorem stop_acceptance_sound (mission : Mission) (m0 : MissionProgress) (ops : list mission_op)
    (o : mission_op) (w : MissionWaypoint) :
  MissionProgress_make mission = Some m0 ->
  let m := run mission_next m0 ops in
  accepted_in m o <> [] -> gate_waypoint m = Some w -> w_behavior w = Stop ->
  exists s now_ns confirmation_ns hold_ns c,
    o = op_measured s now_ns /\ settled_step m s now_ns = true /\
    secondsToNs (m_acceptance_confirmation_s (mp_mission m)) = Some confirmation_ns /\
    secondsToNs (w_hold_s w) = Some hold_ns /\
    (c = ms_source_stamp_ns s \/ stop_window m0 ops c) /\
    confirmation_ns + hold_ns <= ms_source_stamp_ns s - c.
Proof.
  intros (Hi & _ & _ & _ & _ & Hc0 & Hh0 & _)%MissionProgress_make_inv m Hacc Hw Hb.
  pose proof (mission_inv_run m0 ops Hi) as Him. fold m in Him.
  destruct (stop_window_run m0 ops Hi (stop_inv_none _ Hc0 Hh0) Hc0) as [Hsi Hwin].
  fold m in Hsi, Hwin.
  destruct (accepted_in_cases m o Him) as [(He & _)|(m2 & e & v & He & Hst & Hf & _ & Hau)]; [done|].
  destruct Hau as (w' & s & Hw' & Hs & Hau). rewrite Hw in Hw'. simplify_eq.
  rewrite Hb in Hau. destruct Hau as (now & -> & Hign & Hset & cn & hn & Hcn & Hhn & Hlc & Hlh).
  exists s, now, cn, hn, (default (ms_source_stamp_ns s) (mp_stop_confirmation_start_ns m)).
  split_and!; try done.
  - unfold settled_step. by rewrite Hign, Hset.
  - destruct (mp_stop_confirmation_start_ns m) as [c|]; simpl; auto.
  - destruct (mp_stop_hold_start_ns m) as [h|] eqn:Hh; simpl in Hlh; [|lia].
    destruct (si_hold m Hsi h Hh) as (c & n & Hc & Hn & Hle). rewrite Hc in *. simpl in *.
    simplify_eq. lia.
Qed.
End MissionFacts.

(** ** Witnesses *)

(** A measured sample at rest at [(x, y)] tenths of a metre. *)
Definition demo_measured (x y ms sequence : Z) : MissionMeasuredSample :=
  mkMeasured (demo_position x y) vec3_zero (ms * 1000000) sequence 1.

Definition measured_at (x y ms sequence : Z) : mission_op :=
  op_measured (demo_measured x y ms sequence) (ms * 1000000).

Definition demo_certificate (kind : ContinuationKind) (index request valid_ms : Z)
    : MissionContinuationWitness :=
  mkContinuation (mkRouteIdentity "demo" 1 1) (mkGate index request) kind 1 1 (valid_ms * 1000000).

Definition demo_progress : MissionProgress :=
  Eval vm_compute in
    default (mkMissionProgress demo_mission demo_route (mkRouteIdentity "demo" 1 0)
               MissionGateIdentity_default None None None None None None None false)
      (MissionProgress_make (E := eigen_reference) demo_mission).

(** Activate at the first waypoint, accept it at rest, receive a certificate. *)
Definition demo_start : list mission_op :=
  [op_reset 1 1; measured_at 0 0 100 1; op_activate; measured_at 0 0 150 2;
   op_continuation (demo_certificate kMain 1 2 400) (160 * 1000000)].

(** Cross the second waypoint, then settle at the STOP. *)
Definition demo_stop : list mission_op :=
  demo_start ++
  [measured_at 40 0 300 3;
   op_continuation (demo_certificate kTerminalHold 2 3 20000) (310 * 1000000);
   measured_at 40 30 500 4].

Lemma acceptances_in_order_witness :
  let m := run (mission_next (E := eigen_reference)) demo_progress demo_stop in
  gi_waypoint_index <$> acceptances (E := eigen_reference) demo_progress demo_stop = [0; 1] /\
  complete m = false /\
  md_kind (mission_step (E := eigen_reference) m (measured_at 40 30 1000 5)).2 = kComplete /\
  complete (mission_next (E := eigen_reference) m (measured_at 40 30 1000 5)) = true.
Proof.
  split; [vm_compute; reflexivity|split; [vm_compute; reflexivity|]].
  assert (Hk : md_kind (mission_step (E := eigen_reference)
    (run (mission_next (E := eigen_reference)) demo_progress demo_stop)
    (measured_at 40 30 1000 5)).2 = kComplete) by (vm_compute; reflexivity).
  split; [exact Hk|].
  assert (Hm : MissionProgress_make (E := eigen_reference) demo_mission = Some demo_progress)
    by (vm_compute; reflexivity).
  assert (Hr : Forall (keeps_route 1) demo_stop) by (repeat constructor).
  exact (proj2 (proj1 (proj2 (proj2 (proj2 (proj2
    (acceptances_in_order (E := eigen_reference) demo_mission demo_progress demo_stop
       (measured_at 40 30 1000 5) Hm Hr I))))) Hk)).
Defined.

Lemma demo_progress_made :
  MissionProgress_make (E := eigen_reference) demo_mission = Some demo_progress.
Proof. vm_compute. reflexivity. Qed.


Lemma stop_acceptance_sound_witness :
  exists s now_ns confirmation_ns hold_ns c,
    measured_at 40 30 1000 5 = op_measured s now_ns /\
    confirmation_ns + hold_ns <= ms_source_stamp_ns s - c.
Proof.
  assert (Hne : accepted_in (E := eigen_reference)
      (run (mission_next (E := eigen_reference)) demo_progress demo_stop)
      (measured_at 40 30 1000 5) <> []) by (vm_compute; congruence).
  assert (Hw : gate_waypoint (run (mission_next (E := eigen_reference)) demo_progress demo_stop)
    = Some (demo_waypoint "c" 4 3 1 Stop)) by (vm_compute; reflexivity).
  destruct (stop_acceptance_sound (E := eigen_reference) demo_mission demo_progress demo_stop
    (measured_at 40 30 1000 5) (demo_waypoint "c" 4 3 1 Stop) demo_progress_made Hne Hw eq_refl)
    as (s & now & cn & hn & c & Ho & _ & _ & _ & _ & Hle).
  exists s, now, cn, hn, c. split; [exact Ho|exact Hle].
Defined.

(** The STOP confirmation is not continuous in time.  A gap longer than
    the 250 ms the code allows between samples discards the prior sample, but
    not the running confirmation: two settled samples 9.5 s apart, with nothing
    measured in between, confirm a STOP that asks for 0.5 s. *)
Theorem stop_confirmation_spans_gap :
  let m := run (mission_next (E := eigen_reference)) demo_progress demo_stop in
  let late := demo_measured 40 30 10000 5 in
  kMaximumCrossingSampleGapNs <
    ms_source_stamp_ns late - default 0 (ms_source_stamp_ns <$> mp_previous m) /\
  mp_previous (after_gap m late) = None /\
  mp_stop_confirmation_start_ns (after_gap m late) = Some (500 * 1000000) /\
  md_kind (mission_step (E := eigen_reference) m (measured_at 40 30 10000 5)).2 = kComplete.
Proof. vm_compute. done. Qed.
