(* ===== verification/PlanningContract.v ===== *)
(** * Planning requests, outcomes and priorities

    [planning/navigation_planning/.../planning_request.hpp],
    [planning_limits.hpp], [planning_budget.hpp], [planner_status.hpp],
    [planning_outcome.hpp], and [planning_supervisor.hpp] of
    [runtime/navigation_runtime/.../navigation_runtime_policy].

    A [std::stop_token] is the truth of [stop_requested()] at the moment the
    predicate is evaluated; the steady clock is an argument. *)

From S2P Require Import Prelude Float64 Float64Facts Geometry World WorldGrid Candidate Mission Route.
From S2P Require Import RouteProps.

(** ** Keys *)

Inductive PlanningStartMode : Type :=
| kCommittedFutureState | kStoppedMeasuredState | kMeasuredEmergencyBrake.
#[export] Instance PlanningStartMode_eq_dec : EqDecision PlanningStartMode.
Proof. solve_decision. Defined.

Definition planningStartModeKnown (mode : PlanningStartMode) : bool :=
  (mode ==? kCommittedFutureState) || (mode ==? kStoppedMeasuredState)
  || (mode ==? kMeasuredEmergencyBrake).

Record PlanningKey : Type := mkKey {
  key_localization_epoch : Z;
  key_goal_epoch : Z;
  key_request_id : Z;
  key_route_revision : Z;
  key_committed_bundle_generation : Z;
  key_pinned_world_generation : Z;
  key_pinned_world_revision : Z;
  key_start_mode : PlanningStartMode;
  key_anchor_stamp_ns : Z;
  key_dynamics_hash : Z
}.
(** [operator==] is defaulted: equality of every member. *)
#[export] Instance PlanningKey_eq_dec : EqDecision PlanningKey.
Proof. solve_decision. Defined.

Definition PlanningKey_default : PlanningKey :=
  mkKey 0 0 0 0 0 0 0 kStoppedMeasuredState 0 0.

Definition PlanningKey_valid (k : PlanningKey) : bool :=
  negb (key_localization_epoch k =? 0) && negb (key_goal_epoch k =? 0)
  && negb (key_request_id k =? 0) && negb (key_route_revision k =? 0)
  && negb (key_pinned_world_generation k =? 0) && negb (key_pinned_world_revision k =? 0)
  && planningStartModeKnown (key_start_mode k) && (0 <? key_anchor_stamp_ns k)
  && negb (key_dynamics_hash k =? 0).

Record GoalIdentity : Type := mkGoalIdentity {
  gi_localization_epoch : Z;
  gi_goal_epoch : Z;
  gi_mission_id : string;
  gi_goal_waypoint_index : Z;
  gi_goal_request_id : Z
}.

Definition GoalIdentity_valid (g : GoalIdentity) : bool :=
  negb (gi_localization_epoch g =? 0) && negb (gi_goal_epoch g =? 0)
  && (gi_mission_id g !=? EmptyString) && negb (gi_goal_request_id g =? 0).

(** ** Priorities *)

(** In the order of the enumerators. *)
Inductive PlanningPriority : Type :=
| kQualityRefinement | kNormalRenewal | kSafetyRenewal | kGoalTransition | kPriorityEmergency
| kLocalizationReset.
#[export] Instance PlanningPriority_eq_dec : EqDecision PlanningPriority.
Proof. solve_decision. Defined.

(** [static_cast<std::uint8_t>(p)] *)
Definition priority_value (p : PlanningPriority) : Z :=
  match p with
  | kQualityRefinement => 0 | kNormalRenewal => 1 | kSafetyRenewal => 2
  | kGoalTransition => 3 | kPriorityEmergency => 4 | kLocalizationReset => 5
  end.

Definition planningPriorityKnown (p : PlanningPriority) : bool :=
  (priority_value kQualityRefinement <=? priority_value p)
  && (priority_value p <=? priority_value kLocalizationReset).

Definition higherPriority (lhs rhs : PlanningPriority) : bool :=
  priority_value rhs <? priority_value lhs.

Definition samePlanningCancellationIdentity (lhs rhs : PlanningKey) : bool :=
  (key_localization_epoch lhs =? key_localization_epoch rhs)
  && (key_goal_epoch lhs =? key_goal_epoch rhs)
  && (key_request_id lhs =? key_request_id rhs)
  && (key_route_revision lhs =? key_route_revision rhs)
  && (key_committed_bundle_generation lhs =? key_committed_bundle_generation rhs)
  && (key_pinned_world_generation lhs =? key_pinned_world_generation rhs)
  && (key_start_mode lhs ==? key_start_mode rhs)
  && (key_dynamics_hash lhs =? key_dynamics_hash rhs).

Definition classifyPriority (localization_reset emergency goal_transition safety_renewal : bool)
  : PlanningPriority :=
  if localization_reset then kLocalizationReset
  else if emergency then kPriorityEmergency
  else if goal_transition then kGoalTransition
  else if safety_renewal then kSafetyRenewal
  else kNormalRenewal.

Definition resultStillCurrent (request current : PlanningKey) : bool :=
  samePlanningCancellationIdentity request current
  && (key_committed_bundle_generation request =? key_committed_bundle_generation current)
  && (key_pinned_world_generation request =? key_pinned_world_generation current).

(** ** Limits *)

Record VehicleDynamicModel : Type := mkVehicle {
  maximum_velocity_mps : f64;
  maximum_acceleration_mps2 : f64;
  maximum_jerk_mps3 : f64;
  maximum_body_rate_rad_s : f64;
  maximum_yaw_rate_rad_s : f64;
  maximum_yaw_acceleration_rad_s2 : f64;
  minimum_thrust_n : f64;
  maximum_thrust_n : f64;
  mass_kg : f64
}.

Definition finite_positive (x : f64) : bool := isfinite x && fgt x fzero.

Definition VehicleDynamicModel_valid (v : VehicleDynamicModel) : bool :=
  finite_positive (maximum_velocity_mps v) && finite_positive (maximum_acceleration_mps2 v)
  && finite_positive (maximum_jerk_mps3 v) && finite_positive (maximum_body_rate_rad_s v)
  && finite_positive (maximum_yaw_rate_rad_s v)
  && finite_positive (maximum_yaw_acceleration_rad_s2 v)
  && isfinite (minimum_thrust_n v) && fge (minimum_thrust_n v) fzero
  && isfinite (maximum_thrust_n v) && fgt (maximum_thrust_n v) (minimum_thrust_n v)
  && finite_positive (mass_kg v).

Record VehicleControlEnvelope : Type := mkEnvelope {
  ce_maximum_velocity_mps : f64;
  ce_maximum_acceleration_mps2 : f64;
  ce_maximum_jerk_mps3 : f64
}.

Definition VehicleControlEnvelope_valid (e : VehicleControlEnvelope) (physical : VehicleDynamicModel)
  : bool :=
  finite_positive (ce_maximum_velocity_mps e) && finite_positive (ce_maximum_acceleration_mps2 e)
  && finite_positive (ce_maximum_jerk_mps3 e) && VehicleDynamicModel_valid physical
  && fle (ce_maximum_velocity_mps e) (maximum_velocity_mps physical)
  && fle (ce_maximum_acceleration_mps2 e) (maximum_acceleration_mps2 physical)
  && fle (ce_maximum_jerk_mps3 e) (maximum_jerk_mps3 physical).

Record DynamicLimits : Type := mkLimits {
  dl_vehicle : VehicleDynamicModel;
  (** [MotionIntent::requested_cruise_speed_mps] *)
  dl_requested_cruise_speed_mps : f64;
  dl_unknown_space_policy : UnknownPolicy
}.

Definition MotionIntent_valid (requested_cruise_speed_mps : f64) (model : VehicleDynamicModel)
  : bool :=
  VehicleDynamicModel_valid model && finite_positive requested_cruise_speed_mps
  && fle requested_cruise_speed_mps (maximum_velocity_mps model).

Definition DynamicLimits_valid (d : DynamicLimits) : bool :=
  MotionIntent_valid (dl_requested_cruise_speed_mps d) (dl_vehicle d)
  && ((dl_unknown_space_policy d ==? kAllowUnknown)
      || (dl_unknown_space_policy d ==? kRequireKnownFree)).

(** [std::bit_cast<std::uint64_t>] of a double: sign, biased exponent, and the
    significand without its hidden bit.  A NaN never reaches the fingerprint;
    its bits are those of the quiet NaN. *)
Definition f64_bits (x : f64) : Z :=
  match x with
  | SpecFloat.S754_zero s => if s then 2 ^ 63 else 0
  | SpecFloat.S754_infinity s => (if s then 2 ^ 63 else 0) + 2047 * 2 ^ 52
  | SpecFloat.S754_nan => 2047 * 2 ^ 52 + 2 ^ 51
  | SpecFloat.S754_finite s m e =>
      (if s then 2 ^ 63 else 0)
      + (if Zpos m <? 2 ^ 52 then Zpos m else (e + 1075) * 2 ^ 52 + (Zpos m - 2 ^ 52))
  end.

Definition kFnvOffset : Z := 1469598103934665603.
Definition kFnvPrime : Z := 1099511628211.

Definition fnv_byte (hash byte : Z) : Z := (Z.lxor hash byte * kFnvPrime) mod 2 ^ 64.

(** The loop over the shifts 0, 8, ..., 56. *)
Definition fnv_append (hash value : Z) : Z :=
  foldl (fun h shift => fnv_byte h (Z.land (Z.shiftr value shift) 255)) hash
    [0; 8; 16; 24; 32; 40; 48; 56].

Definition policy_value (p : UnknownPolicy) : Z :=
  match p with kAllowUnknown => 0 | kRequireKnownFree => 1 end.

Definition fingerprint_doubles (d : DynamicLimits) : list f64 :=
  let v := dl_vehicle d in
  [maximum_velocity_mps v; maximum_acceleration_mps2 v; maximum_jerk_mps3 v;
   maximum_body_rate_rad_s v; maximum_yaw_rate_rad_s v; maximum_yaw_acceleration_rad_s2 v;
   minimum_thrust_n v; maximum_thrust_n v; mass_kg v; dl_requested_cruise_speed_mps d].

Definition fingerprint_hash (d : DynamicLimits) : Z :=
  fnv_append (foldl fnv_append kFnvOffset (f64_bits <$> fingerprint_doubles d))
    (policy_value (dl_unknown_space_policy d)).

Definition fingerprint (d : DynamicLimits) : Z :=
  if negb (DynamicLimits_valid d) then 0
  else if fingerprint_hash d =? 0 then 1 else fingerprint_hash d.

Definition withinNumericalDynamicLimit (value limit : f64) : bool :=
  if negb (isfinite value) || negb (isfinite limit) || flt limit fzero then false
  else
    let scale := fmax (fmax f64_one (fabs value)) (fabs limit) in
    let numerical_margin := f64_mul (f64_mul (f64_of_Z 64) f64_epsilon) scale in
    fle value (f64_add limit numerical_margin).

(** ** Budget *)

Record PlanningBudget : Type := mkBudget {
  (** [Clock::time_point{}] is 0. *)
  pb_deadline : Z;
  pb_steady_deadline_ns : Z;
  pb_cancellation : bool
}.

Definition budget_expired (b : PlanningBudget) (steady_now : Z) : bool :=
  negb (pb_deadline b =? 0) && (pb_deadline b <=? steady_now).

Definition budget_exhausted (b : PlanningBudget) (steady_now : Z) : bool :=
  pb_cancellation b || budget_expired b steady_now.

(** ** Execution provenance of a request *)

Record PlanningPredecessorEvidence : Type := mkPredecessor {
  pe_bundle_generation : Z;
  pe_localization_epoch : Z;
  pe_goal_epoch : Z;
  pe_request_id : Z;
  pe_kind : CandidateBundleKind;
  pe_role : CandidateRole;
  pe_declared_endpoint_position_world : option vec3
}.

Record PlanningHistory : Type := mkHistory {
  ph_previous_bundle_generation : Z;
  ph_previous_velocity_world : vec3;
  ph_predecessor : option PlanningPredecessorEvidence
}.

Definition kind_role_valid (kind : CandidateBundleKind) (role : CandidateRole) : bool :=
  ((kind ==? kMainWithBackup) && (role ==? kMain)) || ((kind ==? kTerminalStop) && (role ==? kMain))
  || ((kind ==? kBackupOnly) && (role ==? kBackup))
  || ((kind ==? kEmergencyBrake) && (role ==? kEmergency)).

Record PlanningRequest : Type := mkRequest {
  pr_key : PlanningKey;
  pr_goal : GoalIdentity;
  pr_anchor : option ExecutionAnchor;
  pr_activation_stamp_ns : Z;
  pr_start_state : KinematicState;
  pr_history : PlanningHistory;
  pr_route_snapshot : ImmutableRouteSnapshot;
  pr_world : ptr WorldModelView;
  pr_current_body_support : ptr CurrentBodySupport;
  pr_mission_start_position_world : option vec3;
  pr_dynamics : DynamicLimits;
  pr_budget : PlanningBudget;
  (** [cancellation_token.stop_requested()] *)
  pr_cancellation_requested : bool;
  pr_diagnostic_solve_generation : Z;
  pr_diagnostic_planner_cycle : Z
}.

Section Request.
Context `{EigenOps, EigenRotOps}.
(** Eigen's [isZero(1.0e-12)] *)
Variable v_isZero : vec3 -> bool.

Definition PlanningPredecessorEvidence_valid (p : PlanningPredecessorEvidence) : bool :=
  let endpoint_valid :=
    match pe_declared_endpoint_position_world p with
    | Some e => v_allFinite e
    | None => pe_kind p !=? kEmergencyBrake
    end in
  negb (pe_bundle_generation p =? 0) && negb (pe_localization_epoch p =? 0)
  && negb (pe_goal_epoch p =? 0) && negb (pe_request_id p =? 0)
  && candidateRoleValid (pe_role p) && kind_role_valid (pe_kind p) (pe_role p) && endpoint_valid.

(** [PlanningPredecessorEvidence::emergencyEndpointFor] *)
Definition predecessor_emergencyEndpointFor (p : PlanningPredecessorEvidence)
    (expected_generation expected_localization_epoch : Z) : option vec3 :=
  if negb (PlanningPredecessorEvidence_valid p) || (pe_kind p !=? kEmergencyBrake)
     || (pe_role p !=? kEmergency)
     || negb (pe_bundle_generation p =? expected_generation)
     || negb (pe_localization_epoch p =? expected_localization_epoch)
     || negb (has (pe_declared_endpoint_position_world p)) then None
  else pe_declared_endpoint_position_world p.

Definition PlanningHistory_valid (h : PlanningHistory) : bool :=
  let generation_contract :=
    negb (ph_previous_bundle_generation h =? 0)
    || (v_isZero (ph_previous_velocity_world h) && negb (has (ph_predecessor h))) in
  let predecessor_contract :=
    match ph_predecessor h with
    | None => true
    | Some p => PlanningPredecessorEvidence_valid p
                && (pe_bundle_generation p =? ph_previous_bundle_generation h)
    end in
  v_allFinite (ph_previous_velocity_world h) && generation_contract && predecessor_contract.

(** [PlanningHistory::emergencyEndpointFor] *)
Definition history_emergencyEndpointFor (h : PlanningHistory)
    (expected_generation expected_localization_epoch : Z) : option vec3 :=
  if negb (PlanningHistory_valid h) || negb (has (ph_predecessor h))
     || negb (ph_previous_bundle_generation h =? expected_generation) then None
  else
    match ph_predecessor h with
    | Some p => predecessor_emergencyEndpointFor p expected_generation expected_localization_epoch
    | None => None
    end.

Definition startModeContractValid (r : PlanningRequest) : bool :=
  let k := pr_key r in
  let successor_anchor_valid :=
    (key_start_mode k !=? kCommittedFutureState)
    || match pr_anchor r with
       | Some a =>
           ExecutionAnchor_valid a && (0 <? pr_activation_stamp_ns r)
           && (an_activation_stamp_ns a =? pr_activation_stamp_ns r)
           && (an_active_bundle_generation a =? key_committed_bundle_generation k)
           && (an_localization_epoch a =? key_localization_epoch k)
           && (wi_generation (an_command_world a) =? key_pinned_world_generation k)
           && (wi_revision (an_command_world a) =? key_pinned_world_revision k)
       | None => false
       end in
  let stopped_activation_valid :=
    if key_start_mode k ==? kCommittedFutureState
    then key_anchor_stamp_ns k <? pr_activation_stamp_ns r
    else negb (has (pr_anchor r)) && (pr_activation_stamp_ns r =? 0) in
  successor_anchor_valid && stopped_activation_valid.

Definition route_contract_valid (r : PlanningRequest) : bool :=
  let s := pr_route_snapshot r in
  ImmutableRouteSnapshot_valid s && (is_mission_id s ==? gi_mission_id (pr_goal r))
  && (is_route_revision s =? key_route_revision (pr_key r))
  && (is_request_id s =? gi_goal_request_id (pr_goal r))
  && (is_active_waypoint_index s =? gi_goal_waypoint_index (pr_goal r)).

Definition support_contract_valid (r : PlanningRequest) : bool :=
  let s := pr_start_state r in
  let stopped := key_start_mode (pr_key r) ==? kStoppedMeasuredState in
  (negb stopped && negb (has (pr_current_body_support r)))
  || (stopped
      && match pr_current_body_support r with
         | None => true
         | Some support =>
             matchesMeasuredStateInFrames (sp_obj support) (k_position_world s)
               (k_orientation_world_body s) (k_localization_epoch s) (k_source_stamp_ns s)
               (k_world_frame_id s) (k_body_frame_id s)
         end).

Definition world_contract_valid (r : PlanningRequest) : bool :=
  match pr_world r with
  | None => false
  | Some w =>
      let i := identity (sp_obj w) in
      (wi_localization_epoch i =? gi_localization_epoch (pr_goal r))
      && (wi_generation i =? key_pinned_world_generation (pr_key r))
      && (wi_revision i =? key_pinned_world_revision (pr_key r))
      && (0 <? wi_observation_stamp_ns i)
  end.

Definition predecessor_contract_valid (r : PlanningRequest) : bool :=
  let k := pr_key r in
  match ph_predecessor (pr_history r) with
  | None => true
  | Some p =>
      (pe_localization_epoch p =? key_localization_epoch k)
      && (pe_bundle_generation p =? key_committed_bundle_generation k)
      && ((key_start_mode k !=? kCommittedFutureState)
          || match pr_anchor r with
             | Some a =>
                 (pe_bundle_generation p =? an_active_bundle_generation a)
                 && (pe_localization_epoch p =? an_localization_epoch a)
                 && (pe_goal_epoch p =? an_goal_epoch a)
                 && (pe_request_id p =? an_request_id a)
             | None => false
             end)
  end.

Definition PlanningRequest_valid (r : PlanningRequest) (steady_now : Z) : bool :=
  let k := pr_key r in
  PlanningKey_valid k && GoalIdentity_valid (pr_goal r) && route_contract_valid r
  && (key_localization_epoch k =? gi_localization_epoch (pr_goal r))
  && (key_goal_epoch k =? gi_goal_epoch (pr_goal r))
  && (key_request_id k =? gi_goal_request_id (pr_goal r))
  && startModeContractValid r
  && (key_anchor_stamp_ns k =? k_source_stamp_ns (pr_start_state r))
  && KinematicState_finite (pr_start_state r)
  && world_contract_valid r
  && PlanningHistory_valid (pr_history r)
  && (ph_previous_bundle_generation (pr_history r) =? key_committed_bundle_generation k)
  && predecessor_contract_valid r
  && support_contract_valid r
  && opt_all v_allFinite (pr_mission_start_position_world r)
  && DynamicLimits_valid (pr_dynamics r)
  && negb (budget_exhausted (pr_budget r) steady_now).
End Request.

(** ** Outcomes *)

Inductive PlannerStatus : Type :=
| kSuccess | kFinished | kNoNeed | kRestartFromRest | kStatusFailed | kStatusEmergency
| kOptimizationFailed.
#[export] Instance PlannerStatus_eq_dec : EqDecision PlannerStatus.
Proof. solve_decision. Defined.

Inductive CompletePlanningOutcome : Type :=
| kRefinedCompleteBundle | kBaselineCompleteBundle | kDeadlineWithCompleteBundle
| kRetainedCommittedBundle | kMapEvidenceInsufficient | kNoCompleteBundle | kStaleResult
| kCancelledByHigherPriorityRequest | kInvalidRequest.
#[export] Instance CompletePlanningOutcome_eq_dec : EqDecision CompletePlanningOutcome.
Proof. solve_decision. Defined.

Inductive PlanningFailureStage : Type :=
| kStageNone | kStageInput | kStageWorldFreshness | kStageRouteWindow | kStageAStar | kStageCorridor
| kStageNominalSeed | kStageNominalRefinement | kStageBackupSeed | kStageBackupRefinement
| kStageDynamicCertificate | kStageFlatnessCertificate | kStageWorldCertificate
| kStageCommitRecertification | kStageDeadline.
#[export] Instance PlanningFailureStage_eq_dec : EqDecision PlanningFailureStage.
Proof. solve_decision. Defined.

Inductive PlanningFailureReason : Type :=
| kReasonNoFailure | kAnchorOutOfMap | kAnchorUnknown | kAnchorOccupied | kMainPathUnavailable
| kMainCorridorUnavailable | kNominalDynamics | kNominalFlatness | kBackupKnownFreeInsufficient
| kBackupDynamics | kBackupFlatness | kWorldChanged | kNoCompleteBundleAtDeadline
| kReasonStaleResult | kSuperseded | kInvalidInput | kMainKnownFreeInsufficient
| kCandidateExportInvalid | kBackupWorldBlocked | kSensingHorizonInsufficient
| kStopOutsideRecoveryEnvelope | kStopSynthesisFailed | kRouteRegression.
#[export] Instance PlanningFailureReason_eq_dec : EqDecision PlanningFailureReason.
Proof. solve_decision. Defined.

Inductive CandidateRejectionCause : Type :=
| kCauseNone | kNoCommitAuthorizer | kYawRateCertificate | kYawAccelerationCertificate
| kInvalidCommandIdentity | kCauseRouteRegression | kNoPublishedWorld | kCauseWorldValidation
| kCommitTransaction | kMalformedCandidate | kCommandHistory.
#[export] Instance CandidateRejectionCause_eq_dec : EqDecision CandidateRejectionCause.
Proof. solve_decision. Defined.

(** The telemetry names; the code's trailing [return "unknown"] is for values
    outside the enumeration. *)
Definition planningFailureStageName (stage : PlanningFailureStage) : string :=
  match stage with
  | kStageNone => "none"
  | kStageInput => "input"
  | kStageWorldFreshness => "world_freshness"
  | kStageRouteWindow => "route_window"
  | kStageAStar => "a_star"
  | kStageCorridor => "corridor"
  | kStageNominalSeed => "nominal_seed"
  | kStageNominalRefinement => "nominal_refinement"
  | kStageBackupSeed => "backup_seed"
  | kStageBackupRefinement => "backup_refinement"
  | kStageDynamicCertificate => "dynamic_certificate"
  | kStageFlatnessCertificate => "flatness_certificate"
  | kStageWorldCertificate => "world_certificate"
  | kStageCommitRecertification => "commit_recertification"
  | kStageDeadline => "deadline"
  end.

Definition planningFailureReasonName (reason : PlanningFailureReason) : string :=
  match reason with
  | kReasonNoFailure => "none"
  | kAnchorOutOfMap => "anchor_out_of_map"
  | kAnchorUnknown => "anchor_unknown"
  | kAnchorOccupied => "anchor_occupied"
  | kMainPathUnavailable => "main_path_unavailable"
  | kMainCorridorUnavailable => "main_corridor_unavailable"
  | kNominalDynamics => "nominal_dynamics"
  | kNominalFlatness => "nominal_flatness"
  | kBackupKnownFreeInsufficient => "backup_known_free_insufficient"
  | kBackupDynamics => "backup_dynamics"
  | kBackupFlatness => "backup_flatness"
  | kWorldChanged => "world_changed"
  | kNoCompleteBundleAtDeadline => "no_complete_bundle_at_deadline"
  | kReasonStaleResult => "stale_result"
  | kSuperseded => "superseded"
  | kInvalidInput => "invalid_input"
  | kMainKnownFreeInsufficient => "main_known_free_insufficient"
  | kCandidateExportInvalid => "candidate_export_invalid"
  | kBackupWorldBlocked => "backup_world_blocked"
  | kSensingHorizonInsufficient => "sensing_horizon_insufficient"
  | kStopOutsideRecoveryEnvelope => "stop_outside_recovery_envelope"
  | kStopSynthesisFailed => "stop_synthesis_failed"
  | kRouteRegression => "route_regression"
  end.

Definition candidateRejectionCauseName (cause : CandidateRejectionCause) : string :=
  match cause with
  | kCauseNone => "none"
  | kNoCommitAuthorizer => "no_commit_authorizer"
  | kYawRateCertificate => "yaw_rate_certificate"
  | kYawAccelerationCertificate => "yaw_acceleration_certificate"
  | kInvalidCommandIdentity => "invalid_command_identity"
  | kCauseRouteRegression => "route_regression"
  | kNoPublishedWorld => "no_published_world"
  | kCauseWorldValidation => "world_validation"
  | kCommitTransaction => "commit_transaction"
  | kMalformedCandidate => "malformed_candidate"
  | kCommandHistory => "command_history"
  end.

Definition completePlanningSucceeded (outcome : CompletePlanningOutcome) : bool :=
  (outcome ==? kRefinedCompleteBundle) || (outcome ==? kBaselineCompleteBundle)
  || (outcome ==? kDeadlineWithCompleteBundle).

Definition planningRetainedCommittedBundle (outcome : CompletePlanningOutcome) : bool :=
  outcome ==? kRetainedCommittedBundle.

Record PlanningTrace : Type := mkTrace {
  pt_expanded_nodes : Z;
  pt_optimizer_attempts : Z;
  pt_elapsed_steady_ns : Z
}.

Record PlanningOutcome : Type := mkOutcome {
  po_outcome : CompletePlanningOutcome;
  po_failure_stage : PlanningFailureStage;
  po_failure_reason : PlanningFailureReason;
  po_candidate_rejection_cause : CandidateRejectionCause;
  po_candidate : option CandidateBundle;
  po_trace : PlanningTrace
}.

Definition PlanningOutcome_valid `{EigenOps} (o : PlanningOutcome) : bool :=
  let success := completePlanningSucceeded (po_outcome o) in
  let retained := planningRetainedCommittedBundle (po_outcome o) in
  let failure_is_clear :=
    if success || retained
    then (po_failure_stage o ==? kStageNone) && (po_failure_reason o ==? kReasonNoFailure)
    else (po_failure_stage o !=? kStageNone) && (po_failure_reason o !=? kReasonNoFailure) in
  (0 <=? pt_elapsed_steady_ns (po_trace o)) && failure_is_clear
  && ((success && has (po_candidate o)) || (retained && negb (has (po_candidate o)))
      || (negb success && negb retained && negb (has (po_candidate o))))
  && opt_all CandidateBundle_valid (po_candidate o).

(** ** The fingerprint of the limits *)

(** The inverse of the odd prime modulo [2^64]. *)
Definition kFnvPrimeInverse : Z := 14886173955864302971.

Lemma fnv_prime_inverse : (kFnvPrime * kFnvPrimeInverse) mod 2 ^ 64 = 1.
Proof. by vm_compute. Qed.

Lemma fnv_mul_inj x y :
  is_u64 x -> is_u64 y -> (x * kFnvPrime) mod 2 ^ 64 = (y * kFnvPrime) mod 2 ^ 64 -> x = y.
Proof.
  intros Hx Hy E.
  assert (forall z, is_u64 z -> ((z * kFnvPrime) mod 2 ^ 64 * kFnvPrimeInverse) mod 2 ^ 64 = z) as Hinv.
  { intros z Hz. rewrite Z.mul_mod_idemp_l, <- Z.mul_assoc by done.
    rewrite <- Z.mul_mod_idemp_r, fnv_prime_inverse, Z.mul_1_r by done.
    apply Z.mod_small. u64_unfold. lia. }
  by rewrite <- (Hinv x Hx), <- (Hinv y Hy), E.
Qed.

Lemma lxor_u64 h b : is_u64 h -> 0 <= b < 256 -> is_u64 (Z.lxor h b).
Proof.
  intros [Hh0 Hh] Hb. split; [apply Z.lxor_nonneg; lia|].
  destruct (decide (Z.lxor h b = 0)) as [->|Hne]; [done|].
  enough (Z.log2 (Z.lxor h b) < 64) as Hlog.
  { apply Z.log2_lt_pow2 in Hlog; [unfold u64_max; lia|]. pose proof (Z.lxor_nonneg h b). lia. }
  eapply Z.le_lt_trans; [apply Z.log2_lxor; lia|]. apply Z.max_lub_lt.
  - destruct (decide (h = 0)) as [->|]; [done|]. apply Z.log2_lt_pow2; u64_unfold; lia.
  - destruct (decide (b = 0)) as [->|]; [done|]. apply Z.log2_lt_pow2; lia.
Qed.

Lemma fnv_byte_range h b : is_u64 (fnv_byte h b).
Proof. unfold fnv_byte. pose proof (Z.mod_pos_bound (Z.lxor h b * kFnvPrime) (2 ^ 64)). u64_unfold. lia. Qed.

(** A step is injective in the hash and in the byte. *)
Lemma fnv_byte_inj h h' b b' :
  is_u64 h -> is_u64 h' -> 0 <= b < 256 -> 0 <= b' < 256 ->
  fnv_byte h b = fnv_byte h' b' -> Z.lxor h b = Z.lxor h' b'.
Proof. intros. apply fnv_mul_inj; auto using lxor_u64. Qed.

Lemma land_255 v : 0 <= Z.land v 255 < 256.
Proof. change 255 with (Z.ones 8). rewrite Z.land_ones by lia. by apply Z.mod_pos_bound. Qed.

Lemma fnv_append_range h v : is_u64 (fnv_append h v).
Proof. apply fnv_byte_range. Qed.

Lemma fnv_append_small_inj h b b' :
  is_u64 h -> 0 <= b <= 1 -> 0 <= b' <= 1 -> fnv_append h b = fnv_append h b' -> b = b'.
Proof.
  intros Hh Hb Hb'. unfold fnv_append. cbn [foldl].
  assert (forall c s, 0 <= c <= 1 -> 8 <= s -> Z.shiftr c s = 0) as Hz.
  { intros c s Hc Hs. assert (c = 0 \/ c = 1) as [-> | ->] by lia; [apply Z.shiftr_0_l|].
    apply Z.shiftr_eq_0; simpl; lia. }
  rewrite !Z.shiftr_0_r, !Hz, !Z.land_0_l by lia.
  assert (forall c, 0 <= c <= 1 -> Z.land c 255 = c) as Hl.
  { intros c Hc. by assert (c = 0 \/ c = 1) as [-> | ->] by lia. }
  rewrite !Hl by done.
  intros E. do 7 (apply fnv_byte_inj in E; [|auto using fnv_byte_range|auto using fnv_byte_range|lia|lia];
    rewrite !Z.lxor_0_r in E).
  apply fnv_byte_inj in E; [|done|done|lia|lia].
  by apply (f_equal (Z.lxor h)) in E; rewrite <- !Z.lxor_assoc, Z.lxor_nilpotent, !Z.lxor_0_l in E.
Qed.

#[local] Opaque fnv_append.

Lemma foldl_fnv_range l h : is_u64 h -> is_u64 (foldl fnv_append h l).
Proof. revert h. induction l; simpl; auto using fnv_append_range. Qed.

Lemma fnv_prefix_range d : is_u64 (foldl fnv_append kFnvOffset (f64_bits <$> fingerprint_doubles d)).
Proof. by apply foldl_fnv_range. Qed.

Lemma policy_value_inj p q : policy_value p = policy_value q -> p = q.
Proof. by destruct p, q. Qed.

Lemma policy_value_bit p : 0 <= policy_value p <= 1.
Proof. by destruct p. Qed.

Lemma fingerprint_hash_policy d p :
  fingerprint_hash d = fingerprint_hash (mkLimits (dl_vehicle d) (dl_requested_cruise_speed_mps d) p) ->
  p = dl_unknown_space_policy d.
Proof.
  intros E. symmetry. apply policy_value_inj.
  eapply fnv_append_small_inj; [apply (fnv_prefix_range d)|apply policy_value_bit..|exact E].
Qed.

(** The fingerprint identifies a usable profile: it is a 64-bit number that is
    zero exactly for invalid limits, and two valid profiles that differ only in
    whether unknown space may be flown through never share it, unless both
    collapse to the reserved value 1. *)
Theorem fingerprint_identifies (d : DynamicLimits) (p : UnknownPolicy) :
  let d' := mkLimits (dl_vehicle d) (dl_requested_cruise_speed_mps d) p in
  is_u64 (fingerprint d) /\
  (fingerprint d = 0 <-> DynamicLimits_valid d = false) /\
  (DynamicLimits_valid d = true -> fingerprint d = fingerprint d' ->
   p = dl_unknown_space_policy d \/ fingerprint d = 1).
Proof.
  intros d'. pose proof (fnv_append_range _ _ : is_u64 (fingerprint_hash d)) as Hr.
  assert (DynamicLimits_valid d' = DynamicLimits_valid d) as Hd'.
  { unfold DynamicLimits_valid. f_equal. by destruct p, (dl_unknown_space_policy d). }
  pose proof (fingerprint_hash_policy d p) as Hp. fold d' in Hp. unfold fingerprint. rewrite Hd'.
  generalize dependent (fingerprint_hash d). generalize (fingerprint_hash d').
  intros h' h Hr Hp. destruct (DynamicLimits_valid d); cbn [negb]; [|by split_and!].
  destruct (h =? 0) eqn:E; breflect; [split_and!; [done|done|by right]|].
  split_and!; [done|done|]. destruct (h' =? 0) eqn:E'; breflect; auto.
Qed.

(** ** Outcomes and their names *)

(** A telemetry name identifies the value it was printed from. *)
#[export] Instance planningFailureStageName_inj : Inj (=) (=) planningFailureStageName.
Proof. intros [] []; try done; discriminate. Qed.
#[export] Instance planningFailureReasonName_inj : Inj (=) (=) planningFailureReasonName.
Proof. intros [] []; try done; discriminate. Qed.
#[export] Instance candidateRejectionCauseName_inj : Inj (=) (=) candidateRejectionCauseName.
Proof. intros [] []; try done; discriminate. Qed.

(** A valid outcome carries a bundle, and that a valid one, exactly when it
    claims success; it names a failure exactly when it neither succeeds nor
    retains the executing bundle. *)
Lemma valid_outcome_spec `{EigenOps} (o : PlanningOutcome) :
  PlanningOutcome_valid o = true ->
  match po_candidate o with
  | Some b => completePlanningSucceeded (po_outcome o) = true /\ CandidateBundle_valid b = true
  | None => completePlanningSucceeded (po_outcome o) = false
  end /\
  (po_failure_stage o = kStageNone <-> po_failure_reason o = kReasonNoFailure) /\
  (po_failure_stage o = kStageNone <->
   completePlanningSucceeded (po_outcome o) || planningRetainedCommittedBundle (po_outcome o) = true).
Proof.
  destruct o as [oc st rs cause cand tr]. unfold PlanningOutcome_valid. cbn.
  set (b := bool_decide (st = kStageNone)). set (b' := bool_decide (rs = kReasonNoFailure)).
  assert (st = kStageNone <-> b = true) as -> by (unfold b; by rewrite bool_decide_eq_true).
  assert (rs = kReasonNoFailure <-> b' = true) as -> by (unfold b'; by rewrite bool_decide_eq_true).
  clearbody b b'.
  destruct oc, b, b', cand; cbn; rewrite ?andb_false_r, ?andb_true_r; try done;
    intros Hv; try apply andb_prop in Hv as [??]; done.
Qed.

(** ** What a valid request is about *)

#[global] Arguments PlanningKey_valid _ : simpl never.
#[global] Arguments DynamicLimits_valid _ : simpl never.


(** ** Witness *)

Definition demo_vehicle : VehicleDynamicModel :=
  mkVehicle (f64_of_Z 12) (f64_of_Z 9) (f64_of_Z 30) (f64_of_Z 5) (f64_of_Z 5) (f64_lit 3 10)
    (f64_of_Z 9) (f64_of_Z 41) (f64_of_Z 2).

Definition demo_limits : DynamicLimits := mkLimits demo_vehicle (f64_of_Z 6) kRequireKnownFree.

Definition demo_kinematic : KinematicState :=
  mkKinematic vec3_zero vec3_zero vec3_zero vec3_zero false false quat_identity fzero
    9500000000 9500000001 1 "map" "base_link".

Definition demo_key : PlanningKey :=
  mkKey 1 1 1 1 1 1 1 kCommittedFutureState 9500000000 (fingerprint demo_limits).

(** A successor of [demo_bundle], anchored half a second ahead. *)
Definition demo_request : PlanningRequest := {|
  pr_key := demo_key;
  pr_goal := mkGoalIdentity 1 1 "demo" 1 1;
  pr_anchor := Some demo_anchor;
  pr_activation_stamp_ns := 10000000000;
  pr_start_state := demo_kinematic;
  pr_history := mkHistory 1 vec3_zero (Some (mkPredecessor 1 1 1 1 kMainWithBackup kMain None));
  pr_route_snapshot :=
    RouteProgress_snapshot (run (update (E := eigen_reference)) demo_route [demo_position 10 2])
      "demo" "map" 1 1 1;
  pr_world := Some (Shared 1 (demo_view demo_identity));
  pr_current_body_support := None;
  pr_mission_start_position_world := Some vec3_zero;
  pr_dynamics := demo_limits;
  pr_budget := mkBudget 0 0 false;
  pr_cancellation_requested := false;
  pr_diagnostic_solve_generation := 0;
  pr_diagnostic_planner_cycle := 0
|}.


Example demo_fingerprint : fingerprint demo_limits <> 1 /\ fingerprint demo_limits <> 0.
Proof. by vm_compute. Qed.
