(* ===== verification/Admission.v ===== *)
(** * Admission of a finished candidate

    [planning/navigation_planning/.../candidate_admission.hpp] and
    [planning_status.hpp]: the reserve of MAIN a candidate must still have when
    it is committed, and the certified end of a terminal stop. *)

From S2P Require Import Prelude Float64 Float64Facts FloatOrder Geometry World Candidate.
From Stdlib Require Import Floats.SpecFloat.

Inductive PlanningStatus : Type :=
| psSuccess | psNoNeed | psNoPath | psFrontier | psInvalidRequest | psCancelled | psDeadline
| psFailed.
#[export] Instance PlanningStatus_eq_dec : EqDecision PlanningStatus.
Proof. solve_decision. Defined.

Definition planningSucceeded (status : PlanningStatus) : bool :=
  (status ==? psSuccess) || (status ==? psNoNeed) || (status ==? psFrontier).

Definition remainingMainHorizonAtCommit (candidate : CandidateBundle) (commit_wall_time_s : f64)
  : f64 :=
  if negb (hasTrajectoryMetadata candidate) || negb (isfinite commit_wall_time_s) then fopp finf
  else
    let elapsed_s := fmax fzero (f64_sub commit_wall_time_s (b_start_wall_time_s candidate)) in
    f64_sub (b_backup_start_time_s candidate) elapsed_s.

Section Admission.
Context `{EigenOps}.

Definition certifiedTerminalStopAtEndpoint (candidate : CandidateBundle) : bool :=
  if (negb (b_terminal_stop candidate) && (b_kind candidate !=? kTerminalStop))
     || negb (completeFor (b_certificates candidate) (b_kind candidate))
     || negb (cert_terminal_stop (b_certificates candidate)) then false
  else
    match sampleAtDeclaredEnd candidate with
    | Some e =>
        if negb (p_finished e) then false
        else fle (v_norm (p_velocity_world e)) f64_1e_9
             && fle (v_norm (p_acceleration_world e)) f64_1e_9
             && fle (v_norm (p_jerk_world e)) f64_1e_9
    | None => false
    end.

Definition candidateHasRequiredMainReserve (candidate : CandidateBundle)
    (commit_wall_time_s minimum_reserve_s : f64) : bool :=
  if negb (CandidateBundle_valid candidate) || negb (isfinite minimum_reserve_s)
     || fle minimum_reserve_s fzero then false
  else if b_terminal_stop candidate || (b_kind candidate ==? kTerminalStop) then
    certifiedTerminalStopAtEndpoint candidate
  else if (b_kind candidate ==? kBackupOnly) || (b_kind candidate ==? kEmergencyBrake) then true
  else fge (f64_add (remainingMainHorizonAtCommit candidate commit_wall_time_s) f64_1e_9)
         minimum_reserve_s.

(** A point at rest, up to the round-off the code allows. *)
Definition at_rest (e : TrajectoryPoint) : Prop :=
  fle (v_norm (p_velocity_world e)) f64_1e_9 = true /\
  fle (v_norm (p_acceleration_world e)) f64_1e_9 = true /\
  fle (v_norm (p_jerk_world e)) f64_1e_9 = true.

Lemma certified_terminal_stop_spec candidate :
  certifiedTerminalStopAtEndpoint candidate = true ->
  cert_terminal_stop (b_certificates candidate) = true /\
  exists e, sampleAtDeclaredEnd candidate = Some e /\ p_finished e = true /\ at_rest e.
Proof.
  unfold certifiedTerminalStopAtEndpoint, at_rest. intros Hc.
  destruct (cert_terminal_stop (b_certificates candidate)); cbn [negb] in Hc;
    [|rewrite orb_true_r in Hc; discriminate].
  split; [done|]. destruct (_ || _) in Hc; [discriminate|].
  destruct (sampleAtDeclaredEnd candidate) as [e|]; [|discriminate].
  destruct (p_finished e) eqn:Hf; [|discriminate]. cbn in Hc. bsplit. by exists e.
Qed.

(** A candidate admitted for commit is valid, and leads somewhere safe: either
    it declares an end at which it stands still, or it is itself a safety
    trajectory, or its BACKUP is available and its MAIN still lasts for the
    required reserve after the elapsed time. *)
Theorem admitted_candidate_leads_to_safety (candidate : CandidateBundle)
    (commit_wall_time_s minimum_reserve_s : f64) :
  candidateHasRequiredMainReserve candidate commit_wall_time_s minimum_reserve_s = true ->
  CandidateBundle_valid candidate = true /\
  ((exists e, sampleAtDeclaredEnd candidate = Some e /\ p_finished e = true /\ at_rest e) \/
   b_kind candidate = kBackupOnly \/ b_kind candidate = kEmergencyBrake \/
   (b_kind candidate = kMainWithBackup /\ b_backup_available candidate = true /\
    hasTrajectoryMetadata candidate = true /\ isfinite commit_wall_time_s = true /\
    fge (f64_add (f64_sub (b_backup_start_time_s candidate)
           (fmax fzero (f64_sub commit_wall_time_s (b_start_wall_time_s candidate)))) f64_1e_9)
      minimum_reserve_s = true)).
Proof.
  unfold candidateHasRequiredMainReserve. intros Ha.
  destruct (CandidateBundle_valid candidate) eqn:Hv; [|discriminate]. split; [done|].
  destruct (isfinite minimum_reserve_s) eqn:Hm; [|discriminate].
  destruct (fle minimum_reserve_s fzero) eqn:Hp; [discriminate|]. cbn [negb orb] in Ha.
  destruct (_ || _) eqn:Ht in Ha.
  { left. by apply certified_terminal_stop_spec in Ha as [_ ?]. }
  destruct (b_kind candidate) eqn:Hk; [|by rewrite orb_true_r in Ht|by auto..].
  right. right. right. cbn in Ha. split; [done|].
  assert (b_backup_available candidate = true) as ->.
  { unfold CandidateBundle_valid, kind_contract in Hv. rewrite Hk in Hv. cbn in Hv.
    destruct (b_backup_available candidate); [done|].
    rewrite ?andb_false_r in Hv. cbn in Hv. by rewrite ?andb_false_r in Hv. }
  unfold remainingMainHorizonAtCommit in Ha.
  destruct (hasTrajectoryMetadata candidate), (isfinite commit_wall_time_s); cbn [negb orb] in Ha;
    [by split_and!|exfalso..].
  all: destruct minimum_reserve_s; vm_compute in Ha; try discriminate.
Qed.
End Admission.

#[global] Arguments candidateHasRequiredMainReserve {_} _ _ _ : simpl never.

(** A MAIN with backup, committed at its start, keeps the reserve. *)
Lemma admitted_candidate_leads_to_safety_witness :
  @CandidateBundle_valid eigen_reference demo_bundle = true /\ (b_kind demo_bundle = kMainWithBackup -> b_backup_available demo_bundle = true).
Proof.
  destruct (@admitted_candidate_leads_to_safety eigen_reference demo_bundle
              (b_start_wall_time_s demo_bundle) kMinimumMainReserveS)
    as (Hv & _); [vm_compute; reflexivity|].
  split; [exact Hv|intros _; vm_compute; reflexivity].
Defined.
