(* ===== verification/PlanningWorker.v ===== *)
(** * The planning worker

    [runtime/navigation_runtime/.../planning_worker.hpp]: one planner, one
    active job, one latest pending job, one worker thread.

    Every critical section of [mutex_] is one transition, as the lock makes it;
    what the code does between critical sections (the notification after an
    unlock, the backend call, the steps of [shutdown]) are transitions of their
    own, so they interleave with every other thread.  The condition variable is
    modelled with its queue: the worker blocks only after evaluating the
    predicate under the lock, wakes by a notification, by the stop request of
    its [jthread] or spuriously, and a submitter that has left its critical
    section still owes its [notify_one].  [planner_->cancelActiveSolve()] is the
    event [ev_interrupt]; the planner itself, the job's result and the clock are
    inputs of the transitions.  [backend_access_mutex_] is taken by the worker
    thread alone and orders nothing. *)

From S2P Require Import Prelude PlanningContract.

Inductive PlanningSubmitDisposition : Type :=
| kSubmitAccepted | kReplacedPending | kExactDuplicate | kRejectedLowerPriority | kRejectedInvalid
| kRejectedStopped.
#[export] Instance PlanningSubmitDisposition_eq_dec : EqDecision PlanningSubmitDisposition.
Proof. solve_decision. Defined.

Definition disposition_value (d : PlanningSubmitDisposition) : Z :=
  match d with
  | kSubmitAccepted => 0 | kReplacedPending => 1 | kExactDuplicate => 2
  | kRejectedLowerPriority => 3 | kRejectedInvalid => 4 | kRejectedStopped => 5
  end.

(** ** [PlanningWorkerSnapshot] *)

Record WorkerCounts : Type := mkCounts {
  n_submitted : Z;
  n_started : Z;
  n_completed : Z;
  n_cancelled : Z;
  n_exact_duplicates : Z;
  n_replaced_pending : Z;
  n_rejected_lower_priority : Z;
  n_accepted : Z;
  n_rejected_invalid : Z;
  n_rejected_stopped : Z
}.

Inductive counter : Type :=
| c_submitted | c_started | c_completed | c_cancelled | c_exact_duplicates | c_replaced_pending
| c_rejected_lower_priority | c_accepted | c_rejected_invalid | c_rejected_stopped.
#[export] Instance counter_eq_dec : EqDecision counter.
Proof. solve_decision. Defined.

Definition read_count (c : counter) (n : WorkerCounts) : Z :=
  match c with
  | c_submitted => n_submitted n | c_started => n_started n | c_completed => n_completed n
  | c_cancelled => n_cancelled n | c_exact_duplicates => n_exact_duplicates n
  | c_replaced_pending => n_replaced_pending n
  | c_rejected_lower_priority => n_rejected_lower_priority n | c_accepted => n_accepted n
  | c_rejected_invalid => n_rejected_invalid n | c_rejected_stopped => n_rejected_stopped n
  end.

(** [++snapshot_.c] *)
Definition incr (c : counter) (n : WorkerCounts) : WorkerCounts :=
  let f c' := if c ==? c' then u64_inc (read_count c' n) else read_count c' n in
  mkCounts (f c_submitted) (f c_started) (f c_completed) (f c_cancelled) (f c_exact_duplicates)
    (f c_replaced_pending) (f c_rejected_lower_priority) (f c_accepted) (f c_rejected_invalid)
    (f c_rejected_stopped).

Record WorkerTimes : Type := mkTimes {
  t_last_enqueue_wait_us : Z;
  t_last_worker_runtime_us : Z;
  t_last_enqueue_time_steady_ns : Z;
  t_last_worker_start_steady_ns : Z;
  t_last_backend_entry_steady_ns : Z;
  t_last_backend_exit_steady_ns : Z
}.

(** The [last_transaction_*] members. *)
Record TransactionWitness : Type := mkWitness {
  lt_localization_epoch : Z;
  lt_goal_epoch : Z;
  lt_request_id : Z;
  lt_route_revision : Z;
  lt_committed_bundle_generation : Z;
  lt_pinned_world_generation : Z;
  lt_pinned_world_revision : Z;
  lt_anchor_stamp_ns : Z;
  lt_dynamics_hash : Z
}.

Definition witness_of (k : PlanningKey) : TransactionWitness :=
  mkWitness (key_localization_epoch k) (key_goal_epoch k) (key_request_id k) (key_route_revision k)
    (key_committed_bundle_generation k) (key_pinned_world_generation k)
    (key_pinned_world_revision k) (key_anchor_stamp_ns k mod 2 ^ 64) (key_dynamics_hash k).

Record PlanningWorkerSnapshot : Type := mkWorkerSnapshot {
  sn_counts : WorkerCounts;
  sn_times : WorkerTimes;
  sn_last_transaction : TransactionWitness;
  sn_last_submit_disposition : Z;
  sn_in_flight : bool;
  sn_pending : bool;
  sn_fatal : bool
}.

Definition PlanningWorkerSnapshot_default : PlanningWorkerSnapshot :=
  mkWorkerSnapshot (mkCounts 0 0 0 0 0 0 0 0 0 0) (mkTimes 0 0 0 0 0 0)
    (mkWitness 0 0 0 0 0 0 0 0 0) 0 false false false.

(** ** The object *)

Record WorkItem : Type := mkItem { wi_key : PlanningKey; wi_priority : PlanningPriority; wi_enqueued_at : Z }.

(** [stop_source], by whether its stop was requested. *)
Record ActiveItem : Type := mkActiveItem {
  ai_key : PlanningKey;
  ai_priority : PlanningPriority;
  ai_stop_requested : bool
}.

Record PlanningWorker : Type := mkWorker {
  pending_ : option WorkItem;
  active_item_ : option ActiveItem;
  worker_snapshot_ : PlanningWorkerSnapshot;
  accepting_ : bool;
  started_ : bool;
  fatal_ : bool;
  shutdown_started_ : bool;
  joined_ : bool
}.

Definition PlanningWorker_init : PlanningWorker :=
  mkWorker None None PlanningWorkerSnapshot_default true false false false false.

Definition set_pending (p : option WorkItem) (w : PlanningWorker) : PlanningWorker :=
  mkWorker p (active_item_ w) (worker_snapshot_ w) (accepting_ w) (started_ w) (fatal_ w)
    (shutdown_started_ w) (joined_ w).
Definition set_active_item (a : option ActiveItem) (w : PlanningWorker) : PlanningWorker :=
  mkWorker (pending_ w) a (worker_snapshot_ w) (accepting_ w) (started_ w) (fatal_ w)
    (shutdown_started_ w) (joined_ w).
Definition map_snapshot (f : PlanningWorkerSnapshot -> PlanningWorkerSnapshot) (w : PlanningWorker)
  : PlanningWorker :=
  mkWorker (pending_ w) (active_item_ w) (f (worker_snapshot_ w)) (accepting_ w) (started_ w)
    (fatal_ w) (shutdown_started_ w) (joined_ w).
Definition set_flags (accepting started fatal shutdown_started joined : bool) (w : PlanningWorker)
  : PlanningWorker :=
  mkWorker (pending_ w) (active_item_ w) (worker_snapshot_ w) accepting started fatal
    shutdown_started joined.

Definition sn_incr (c : counter) (s : PlanningWorkerSnapshot) : PlanningWorkerSnapshot :=
  mkWorkerSnapshot (incr c (sn_counts s)) (sn_times s) (sn_last_transaction s)
    (sn_last_submit_disposition s) (sn_in_flight s) (sn_pending s) (sn_fatal s).
Definition sn_set_times (t : WorkerTimes) (s : PlanningWorkerSnapshot) : PlanningWorkerSnapshot :=
  mkWorkerSnapshot (sn_counts s) t (sn_last_transaction s) (sn_last_submit_disposition s)
    (sn_in_flight s) (sn_pending s) (sn_fatal s).
Definition sn_set_flight (in_flight pending : bool) (s : PlanningWorkerSnapshot)
  : PlanningWorkerSnapshot :=
  mkWorkerSnapshot (sn_counts s) (sn_times s) (sn_last_transaction s)
    (sn_last_submit_disposition s) in_flight pending (sn_fatal s).
Definition sn_set_last (t : TransactionWitness) (s : PlanningWorkerSnapshot) : PlanningWorkerSnapshot :=
  mkWorkerSnapshot (sn_counts s) (sn_times s) t (sn_last_submit_disposition s) (sn_in_flight s)
    (sn_pending s) (sn_fatal s).

(** [snapshot_.last_submit_disposition = d] *)
Definition sn_disposed (d : PlanningSubmitDisposition) (s : PlanningWorkerSnapshot)
  : PlanningWorkerSnapshot :=
  mkWorkerSnapshot (sn_counts s) (sn_times s) (sn_last_transaction s) (disposition_value d)
    (sn_in_flight s) (sn_pending s) (sn_fatal s).

(** [PlanningWorker::snapshot] *)
Definition worker_snapshot (w : PlanningWorker) : PlanningWorkerSnapshot :=
  let s := worker_snapshot_ w in
  mkWorkerSnapshot (sn_counts s) (sn_times s) (sn_last_transaction s)
    (sn_last_submit_disposition s) (has (active_item_ w)) (has (pending_ w)) (fatal_ w).

(** ** Operations, each one critical section *)

(** What happens to a job, in the order it happens: the ghost history of the
    object.  [first] is the result of [request_stop()]. *)
Inductive worker_event : Type :=
| ev_accept (k : PlanningKey)
| ev_replace (k : PlanningKey)
| ev_take (k : PlanningKey)
| ev_interrupt (k : PlanningKey) (first : bool)
| ev_finish (k : PlanningKey)
| ev_fail (k : PlanningKey)
| ev_drop (k : PlanningKey)
| ev_close.

(** [if (active_->stop_source.request_stop()) ++snapshot_.cancelled;
    planner_->cancelActiveSolve();] *)
Definition interrupt_active (a : ActiveItem) (w : PlanningWorker) : PlanningWorker * list worker_event :=
  let first := negb (ai_stop_requested a) in
  (set_active_item (Some (mkActiveItem (ai_key a) (ai_priority a) true))
     (if first then map_snapshot (sn_incr c_cancelled) w else w),
   [ev_interrupt (ai_key a) first]).

Definition cancelActive (w : PlanningWorker) : PlanningWorker * list worker_event :=
  match active_item_ w with
  | Some a => interrupt_active a w
  | None => (w, [])
  end.

Definition supersedes_active (key : PlanningKey) (priority : PlanningPriority)
    (active : option ActiveItem) : bool :=
  match active with
  | Some a => negb (samePlanningCancellationIdentity (ai_key a) key)
              || higherPriority priority (ai_priority a)
  | None => false
  end.

Definition incumbent_priority (w : PlanningWorker) : PlanningPriority :=
  match pending_ w, active_item_ w with
  | Some p, _ => wi_priority p
  | None, Some a => ai_priority a
  | None, None => kQualityRefinement
  end.

Definition holds_key (key : PlanningKey) (w : PlanningWorker) : bool :=
  match active_item_ w with Some a => ai_key a ==? key | None => false end
  || match pending_ w with Some p => wi_key p ==? key | None => false end.

(** The writes after the guards of [submit]: the new item replaces the pending
    one and its identity is recorded. *)
Definition enqueue (key : PlanningKey) (priority : PlanningPriority) (now : Z) (w : PlanningWorker)
  : PlanningSubmitDisposition * PlanningWorker * list worker_event :=
  let disposition := if has (pending_ w) then kReplacedPending else kSubmitAccepted in
  let replaced := match pending_ w with Some p => [ev_replace (wi_key p)] | None => [] end in
  let w := if has (pending_ w) then map_snapshot (sn_incr c_replaced_pending) w else w in
  let w := set_pending (Some (mkItem key priority now)) w in
  let publish s :=
    let s := sn_incr c_submitted s in
    let s := sn_incr c_accepted s in
    let s := sn_disposed disposition s in
    let t := sn_times s in
    let s := sn_set_times (mkTimes (t_last_enqueue_wait_us t) (t_last_worker_runtime_us t) now
                             (t_last_worker_start_steady_ns t) (t_last_backend_entry_steady_ns t)
                             (t_last_backend_exit_steady_ns t)) s in
    let s := sn_set_last (witness_of key) s in
    sn_set_flight (sn_in_flight s) true s in
  (disposition, map_snapshot publish w, replaced ++ [ev_accept key]).

(** [submit]; [job] is whether the [std::function] holds a target.  The returned
    list is what happened to jobs; [notify_one] follows when it is not empty of
    an acceptance, as a step of the submitting thread. *)
Definition submit (key : PlanningKey) (priority : PlanningPriority) (job : bool) (now : Z)
    (w : PlanningWorker) : PlanningSubmitDisposition * PlanningWorker * list worker_event :=
  let refuse c d := (d, map_snapshot (fun s => sn_disposed d (sn_incr c s)) w, []) in
  if negb (PlanningKey_valid key) || negb (planningPriorityKnown priority) || negb job
  then refuse c_rejected_invalid kRejectedInvalid
  else if negb (accepting_ w) || fatal_ w || shutdown_started_ w
  then refuse c_rejected_stopped kRejectedStopped
  else if holds_key key w then refuse c_exact_duplicates kExactDuplicate
  else
    let supersedes := supersedes_active key priority (active_item_ w) in
    let '(w, es) := if supersedes then cancelActive w else (w, []) in
    if negb supersedes && (has (pending_ w) || has (active_item_ w))
       && higherPriority (incumbent_priority w) priority
    then refuse c_rejected_lower_priority kRejectedLowerPriority
    else let '(d, w, es') := enqueue key priority now w in (d, w, es ++ es').

Definition cancelActiveIfExecutionIdentity
    (localization_epoch goal_epoch request_id committed_bundle_generation : Z) (w : PlanningWorker)
  : bool * PlanningWorker * list worker_event :=
  if (localization_epoch =? 0) || (goal_epoch =? 0) || (request_id =? 0)
     || (committed_bundle_generation =? 0) then (false, w, [])
  else
    match active_item_ w with
    | None => (false, w, [])
    | Some a =>
        if negb (key_localization_epoch (ai_key a) =? localization_epoch)
           || negb (key_goal_epoch (ai_key a) =? goal_epoch)
           || negb (key_request_id (ai_key a) =? request_id)
           || negb (key_committed_bundle_generation (ai_key a) =? committed_bundle_generation)
        then (false, w, [])
        else let '(w, es) := interrupt_active a w in (true, w, es)
    end.

(** The first critical section of [shutdown], for the caller that finds
    [shutdown_started_] unset. *)
Definition shutdown_begin (w : PlanningWorker) : PlanningWorker * list worker_event :=
  let dropped := match pending_ w with Some p => [ev_drop (wi_key p)] | None => [] end in
  let w := set_flags false (started_ w) (fatal_ w) true (joined_ w) w in
  let w := map_snapshot (fun s => sn_set_flight (sn_in_flight s) false s) (set_pending None w) in
  let '(w, es) := cancelActive w in
  (w, [ev_close] ++ dropped ++ es).

(** [start]; [None] is [std::logic_error]. *)
Definition worker_start (w : PlanningWorker) : option PlanningWorker :=
  if started_ w || shutdown_started_ w then None
  else Some (set_flags (accepting_ w) true (fatal_ w) (shutdown_started_ w) (joined_ w) w).

(** ** The worker thread *)

(** [duration_cast<microseconds>] of a difference of two clock readings *)
Definition elapsed_us (stop start : Z) : Z := Z.quot (stop - start) 1000.

(** The critical section that moves the pending item to [active_]. *)
Definition take (work : WorkItem) (now : Z) (w : PlanningWorker) : PlanningWorker * list worker_event :=
  let update s :=
    let t := sn_times s in
    let s := sn_set_times (mkTimes (elapsed_us now (wi_enqueued_at work)) (t_last_worker_runtime_us t)
                             (t_last_enqueue_time_steady_ns t) now
                             (t_last_backend_entry_steady_ns t) (t_last_backend_exit_steady_ns t)) s in
    sn_incr c_started (sn_set_flight true false s) in
  (map_snapshot update
     (set_active_item (Some (mkActiveItem (wi_key work) (wi_priority work) false))
        (set_pending None w)),
   [ev_take (wi_key work)]).

Definition stamp_backend_entry (now : Z) (w : PlanningWorker) : PlanningWorker :=
  map_snapshot (fun s =>
    let t := sn_times s in
    sn_set_times (mkTimes (t_last_enqueue_wait_us t) (t_last_worker_runtime_us t)
      (t_last_enqueue_time_steady_ns t) (t_last_worker_start_steady_ns t) now
      (t_last_backend_exit_steady_ns t)) s) w.

Definition stamp_backend_exit (now : Z) (w : PlanningWorker) : PlanningWorker :=
  map_snapshot (fun s =>
    let t := sn_times s in
    sn_set_times (mkTimes (t_last_enqueue_wait_us t) (t_last_worker_runtime_us t)
      (t_last_enqueue_time_steady_ns t) (t_last_worker_start_steady_ns t)
      (t_last_backend_entry_steady_ns t) now) s) w.

(** After a normal return of the job. *)
Definition finish (started_at now : Z) (w : PlanningWorker) : PlanningWorker * list worker_event :=
  let update s :=
    let t := sn_times s in
    let s := sn_set_times (mkTimes (t_last_enqueue_wait_us t) (elapsed_us now started_at)
                             (t_last_enqueue_time_steady_ns t) (t_last_worker_start_steady_ns t)
                             (t_last_backend_entry_steady_ns t) (t_last_backend_exit_steady_ns t)) s in
    sn_incr c_completed (sn_set_flight false (sn_pending s) s) in
  (map_snapshot update (set_active_item None w),
   match active_item_ w with Some a => [ev_finish (ai_key a)] | None => [] end).

(** The handler of an exception of the job. *)
Definition fail (w : PlanningWorker) : PlanningWorker * list worker_event :=
  (map_snapshot (sn_set_flight false false)
     (set_pending None (set_active_item None
       (set_flags false (started_ w) true (shutdown_started_ w) (joined_ w) w))),
   [ev_close]
   ++ match pending_ w with Some p => [ev_drop (wi_key p)] | None => [] end
   ++ match active_item_ w with Some a => [ev_fail (ai_key a)] | None => [] end).

(** ** The threads around the object *)

(** Where the worker thread is. *)
Inductive worker_pc : Type :=
| wNone                               (* [start] not called *)
| wReady                              (* about to evaluate the wait predicate *)
| wBlocked                            (* in the queue of [cv_] *)
| wTaken (work : WorkItem) (at_ns : Z)    (* item taken, lock released *)
| wRunning (work : WorkItem) (at_ns : Z)  (* inside the job *)
| wReturned (work : WorkItem) (at_ns : Z) (* the job has returned *)
| wExited.

(** Where the thread that runs [shutdown] is. *)
Inductive shutdown_pc : Type := sdIdle | sdEntered | sdStopRequested | sdNotified | sdJoined.
#[export] Instance shutdown_pc_eq_dec : EqDecision shutdown_pc.
Proof. solve_decision. Defined.

Record worker_system : Type := mkSystem {
  sys_worker : PlanningWorker;
  sys_pc : worker_pc;
  sys_stop : bool;          (* the [jthread]'s stop was requested *)
  sys_notifies : nat;       (* submitters between unlock and [notify_one] *)
  sys_shutdown : shutdown_pc;
  sys_log : list worker_event
}.

Definition system_init : worker_system :=
  mkSystem PlanningWorker_init wNone false 0 sdIdle [].

Inductive worker_action : Type :=
| a_start
| a_submit (key : PlanningKey) (priority : PlanningPriority) (job : bool) (now : Z)
| a_notify_one
| a_cancel_active
| a_cancel_if (localization_epoch goal_epoch request_id committed_bundle_generation : Z)
| a_shutdown
| a_request_stop
| a_notify_all
| a_join
| a_spurious
| a_wait (now : Z)
| a_entry (now : Z)
| a_job (outcome : callback_outcome) (now : Z)
| a_finish (now : Z).

(** A wake-up of the condition variable. *)
Definition wake (pc : worker_pc) : worker_pc := match pc with wBlocked => wReady | _ => pc end.

Definition with_worker (s : worker_system) (w : PlanningWorker) (es : list worker_event)
  : worker_system :=
  mkSystem w (sys_pc s) (sys_stop s) (sys_notifies s) (sys_shutdown s) (sys_log s ++ es).

Definition with_pc (s : worker_system) (pc : worker_pc) : worker_system :=
  mkSystem (sys_worker s) pc (sys_stop s) (sys_notifies s) (sys_shutdown s) (sys_log s).

(** One step of one thread; [None] when the thread is not at that point. *)
Definition worker_step (s : worker_system) (a : worker_action) : option worker_system :=
  let w := sys_worker s in
  match a with
  | a_start =>
      match worker_start w with
      | Some w => Some (with_pc (with_worker s w []) wReady)
      | None => Some s
      end
  | a_submit key priority job now =>
      let '(d, w, es) := submit key priority job now w in
      let owed := if (d ==? kSubmitAccepted) || (d ==? kReplacedPending) then 1%nat else 0%nat in
      Some (mkSystem w (sys_pc s) (sys_stop s) (sys_notifies s + owed) (sys_shutdown s)
              (sys_log s ++ es))
  | a_notify_one =>
      match sys_notifies s with
      | S n => Some (mkSystem w (wake (sys_pc s)) (sys_stop s) n (sys_shutdown s) (sys_log s))
      | O => None
      end
  | a_cancel_active => let '(w, es) := cancelActive w in Some (with_worker s w es)
  | a_cancel_if le ge rq gen =>
      let '(_, w, es) := cancelActiveIfExecutionIdentity le ge rq gen w in Some (with_worker s w es)
  | a_shutdown =>
      if shutdown_started_ w then None
      else
        let '(w, es) := shutdown_begin w in
        Some (mkSystem w (sys_pc s) (sys_stop s) (sys_notifies s) sdEntered (sys_log s ++ es))
  | a_request_stop =>
      if sys_shutdown s ==? sdEntered then
        Some (mkSystem w (if started_ w then wake (sys_pc s) else sys_pc s) (started_ w)
                (sys_notifies s) sdStopRequested (sys_log s))
      else None
  | a_notify_all =>
      if sys_shutdown s ==? sdStopRequested then
        Some (mkSystem w (wake (sys_pc s)) (sys_stop s) (sys_notifies s) sdNotified (sys_log s))
      else None
  | a_join =>
      match sys_shutdown s, sys_pc s with
      | sdNotified, wNone | sdNotified, wExited =>
          Some (mkSystem (set_flags (accepting_ w) (started_ w) (fatal_ w) (shutdown_started_ w) true w)
                  (sys_pc s) (sys_stop s) (sys_notifies s) sdJoined (sys_log s))
      | _, _ => None
      end
  | a_spurious =>
      match sys_pc s with wBlocked => Some (with_pc s wReady) | _ => None end
  | a_wait now =>
      match sys_pc s with
      | wReady =>
          if sys_stop s then Some (with_pc s wExited)
          else
            match pending_ w with
            | Some work => let '(w, es) := take work now w in
                           Some (with_pc (with_worker s w es) (wTaken work now))
            | None => Some (with_pc s wBlocked)
            end
      | _ => None
      end
  | a_entry now =>
      match sys_pc s with
      | wTaken work t => Some (with_pc (with_worker s (stamp_backend_entry now w) []) (wRunning work t))
      | _ => None
      end
  | a_job outcome now =>
      match sys_pc s with
      | wRunning work t =>
          match outcome with
          | cb_returns _ =>
              Some (with_pc (with_worker s (stamp_backend_exit now w) []) (wReturned work t))
          | cb_throws => let '(w, es) := fail w in Some (with_pc (with_worker s w es) wExited)
          end
      | _ => None
      end
  | a_finish now =>
      match sys_pc s with
      | wReturned work t => let '(w, es) := finish t now w in
                            Some (with_pc (with_worker s w es) wReady)
      | _ => None
      end
  end.

(** Every state the threads can reach, in any interleaving. *)
Inductive worker_reachable : worker_system -> Prop :=
| wr_init : worker_reachable system_init
| wr_step s a s' : worker_reachable s -> worker_step s a = Some s' -> worker_reachable s'.
