(* ===== verification/PlanningWorkerProps.v ===== *)
(** * Properties of the planning worker

    The abstract specification is a mailbox: a slot for one waiting job and a
    server for one running job.  Every reachable worker is an implementation of
    it; accounting, the target of an interrupt, progress and shutdown follow. *)

From S2P Require Import Prelude PlanningContract PlanningWorker.

(** ** The abstract mailbox *)

Record mailbox : Type := mkMailbox {
  mb_slot : option PlanningKey;
  mb_server : option PlanningKey;
  mb_open : bool
}.

Definition mailbox_init : mailbox := mkMailbox None None true.

Definition is_key (k : PlanningKey) (o : option PlanningKey) : bool := bool_decide (o = Some k).

(** What each event requires and does. *)
Definition mb_step (m : mailbox) (e : worker_event) : option mailbox :=
  let '(mkMailbox slot server open) := m in
  match e with
  | ev_accept k => if open && negb (has slot) then Some (mkMailbox (Some k) server open) else None
  | ev_replace k => if open && is_key k slot then Some (mkMailbox None server open) else None
  | ev_take k =>
      if open && is_key k slot && negb (has server) then Some (mkMailbox None (Some k) open) else None
  | ev_interrupt k _ => if is_key k server then Some m else None
  | ev_finish k => if is_key k server then Some (mkMailbox slot None open) else None
  | ev_fail k => if negb open && is_key k server then Some (mkMailbox slot None open) else None
  | ev_drop k => if negb open && is_key k slot then Some (mkMailbox None server open) else None
  | ev_close => Some (mkMailbox slot server false)
  end.

(** The mailbox after a history of events. *)
Abbreviation mb_run := (replay mb_step).

(** The mailbox a worker object implements. *)
Definition mailbox_of (w : PlanningWorker) : mailbox :=
  mkMailbox (wi_key <$> pending_ w) (ai_key <$> active_item_ w) (accepting_ w).

Lemma is_key_true k o : is_key k o = true <-> o = Some k.
Proof. apply bool_decide_eq_true. Qed.

Lemma is_key_refl k : is_key k (Some k) = true.
Proof. by apply is_key_true. Qed.

#[local] Hint Rewrite is_key_true : nav_bool.

(** ** Counting events *)

(** The events a counter counts; the rejection counters count no event. *)
Definition counts_event (c : counter) (e : worker_event) : bool :=
  match c, e with
  | c_submitted, ev_accept _ | c_accepted, ev_accept _ | c_started, ev_take _
  | c_completed, ev_finish _ | c_replaced_pending, ev_replace _ | c_cancelled, ev_interrupt _ true =>
      true
  | _, _ => false
  end.

Definition tally (c : counter) (es : list worker_event) : Z := count_of (counts_event c) es.

Definition is_logged (c : counter) : bool :=
  match c with
  | c_submitted | c_accepted | c_started | c_completed | c_replaced_pending | c_cancelled => true
  | _ => false
  end.

(** [w'] is [w] after the events [es]: for the mailbox and for the counters. *)
Definition evolves (w w' : PlanningWorker) (es : list worker_event) : Prop :=
  mb_run (mailbox_of w) es = Some (mailbox_of w') /\
  forall c, is_logged c = true -> is_u64 (read_count c (sn_counts (worker_snapshot_ w))) ->
    read_count c (sn_counts (worker_snapshot_ w')) =
      (read_count c (sn_counts (worker_snapshot_ w)) + tally c es) mod 2 ^ 64.

Lemma evolves_trans w w1 w2 es1 es2 :
  evolves w w1 es1 -> evolves w1 w2 es2 -> evolves w w2 (es1 ++ es2).
Proof.
  intros [H1 C1] [H2 C2]. split; [by rewrite replay_app, H1|].
  intros c Hc Hr. specialize (C1 c Hc Hr). rewrite C2, C1 by (done || rewrite C1; zlia).
  unfold tally. rewrite count_of_app. rewrite Z.add_mod_idemp_l by done. f_equal. lia.
Qed.

(** Nothing that happens to jobs: the same slots, the counted counters kept. *)
Lemma evolves_nil w w' :
  mailbox_of w' = mailbox_of w ->
  (forall c, is_logged c = true ->
     read_count c (sn_counts (worker_snapshot_ w')) = read_count c (sn_counts (worker_snapshot_ w))) ->
  evolves w w' [].
Proof.
  intros Hm Hc. split; [simpl; by rewrite Hm|]. intros c Hl Hr. rewrite Hc by done.
  unfold tally. rewrite count_of_nil, Z.add_0_r. symmetry. apply Z.mod_small. u64_unfold. lia.
Qed.

Lemma evolves_refl w : evolves w w [].
Proof. by apply evolves_nil. Qed.

(** Arithmetic of the counters: every bumped counter moved by its tally. *)
Ltac counts_solve :=
  let c := fresh "c" in let Hc := fresh in let Hr := fresh in
  intros c Hc Hr; unfold tally, count_of; destruct c; try discriminate Hc; simpl in *;
  rewrite ?Z.add_0_r; try reflexivity; symmetry; apply Z.mod_small; u64_unfold; lia.

(** ** The invariant *)

Definition pc_job (pc : worker_pc) : option PlanningKey :=
  match pc with
  | wTaken work _ | wRunning work _ | wReturned work _ => Some (wi_key work)
  | _ => None
  end.

Definition pc_started (pc : worker_pc) : bool := match pc with wNone => false | _ => true end.

Record worker_inv (s : worker_system) : Prop := {
  wv_replay : mb_run mailbox_init (sys_log s) = Some (mailbox_of (sys_worker s));
  wv_accepting : accepting_ (sys_worker s) = negb (fatal_ (sys_worker s)) && negb (shutdown_started_ (sys_worker s));
  wv_closed : accepting_ (sys_worker s) = false -> pending_ (sys_worker s) = None;
  wv_active : ai_key <$> active_item_ (sys_worker s) = pc_job (sys_pc s);
  wv_started : started_ (sys_worker s) = pc_started (sys_pc s);
  wv_shutdown : shutdown_started_ (sys_worker s) = negb (sys_shutdown s ==? sdIdle);
  wv_stop : sys_stop s = (match sys_shutdown s with sdIdle | sdEntered => false | _ => started_ (sys_worker s) end);
  wv_blocked : sys_pc s = wBlocked ->
    sys_stop s = false /\ (pending_ (sys_worker s) = None \/ (0 < sys_notifies s)%nat);
  wv_fatal : fatal_ (sys_worker s) = true -> sys_pc s = wExited;
  wv_exited : sys_pc s = wExited -> fatal_ (sys_worker s) = true \/ sys_stop s = true;
  wv_joined : sys_shutdown s = sdJoined -> sys_pc s = wNone \/ sys_pc s = wExited;
  wv_flags : sn_pending (worker_snapshot_ (sys_worker s)) = has (pending_ (sys_worker s)) /\
             sn_in_flight (worker_snapshot_ (sys_worker s)) = has (active_item_ (sys_worker s)) /\
             joined_ (sys_worker s) = (sys_shutdown s ==? sdJoined);
  wv_counts : forall c, is_logged c = true ->
    read_count c (sn_counts (worker_snapshot_ (sys_worker s))) = tally c (sys_log s) mod 2 ^ 64
}.

(** ** What each operation does to the mailbox and to the counters *)

Lemma interrupt_active_evolves a w :
  active_item_ w = Some a -> evolves w (interrupt_active a w).1 (interrupt_active a w).2.
Proof.
  intros Ha. unfold interrupt_active. cbn [fst snd]. split.
  - unfold mailbox_of. destruct (ai_stop_requested a); simpl; rewrite Ha; simpl; by rewrite is_key_refl.
  - destruct (ai_stop_requested a); simpl; counts_solve.
Qed.

Lemma cancelActive_evolves w : evolves w (cancelActive w).1 (cancelActive w).2.
Proof.
  unfold cancelActive. destruct (active_item_ w) as [a|] eqn:Ha;
    [by apply interrupt_active_evolves|apply evolves_refl].
Qed.

Lemma enqueue_evolves key priority now w :
  accepting_ w = true ->
  evolves w (enqueue key priority now w).1.2 (enqueue key priority now w).2.
Proof.
  intros Ho. unfold enqueue. cbn [fst snd]. split.
  - unfold mailbox_of. destruct (pending_ w) as [p|] eqn:Hp; simpl; rewrite Ho; simpl;
      by rewrite ?is_key_refl.
  - destruct (pending_ w); simpl; counts_solve.
Qed.

Lemma take_evolves work now w :
  accepting_ w = true -> pending_ w = Some work -> active_item_ w = None ->
  evolves w (take work now w).1 (take work now w).2.
Proof.
  intros Ho Hp Ha. split.
  - unfold mailbox_of. simpl. rewrite Ho, Hp, Ha. simpl. by rewrite is_key_refl.
  - simpl. counts_solve.
Qed.

Lemma finish_evolves t now w : is_Some (active_item_ w) -> evolves w (finish t now w).1 (finish t now w).2.
Proof.
  intros [a Ha]. unfold finish. split.
  - unfold mailbox_of. simpl. rewrite Ha. simpl. by rewrite is_key_refl.
  - simpl. rewrite Ha. counts_solve.
Qed.

Lemma fail_evolves w : is_Some (active_item_ w) -> evolves w (fail w).1 (fail w).2.
Proof.
  intros [a Ha]. unfold fail. split.
  - unfold mailbox_of. simpl. rewrite Ha. destruct (pending_ w) as [p|]; simpl; by repeat (rewrite is_key_refl; simpl).
  - simpl. rewrite Ha. destruct (pending_ w); counts_solve.
Qed.

Lemma close_evolves w :
  let w1 := map_snapshot (fun s => sn_set_flight (sn_in_flight s) false s)
              (set_pending None (set_flags false (started_ w) (fatal_ w) true (joined_ w) w)) in
  evolves w w1 ([ev_close] ++ match pending_ w with Some p => [ev_drop (wi_key p)] | None => [] end).
Proof.
  cbv zeta. split.
  - unfold mailbox_of. destruct (pending_ w) as [p|]; simpl; by rewrite ?is_key_refl.
  - destruct (pending_ w); simpl; counts_solve.
Qed.

Lemma shutdown_begin_evolves w : evolves w (shutdown_begin w).1 (shutdown_begin w).2.
Proof.
  unfold shutdown_begin.
  set (w1 := map_snapshot _ _). pose proof (close_evolves w) as Hc. fold w1 in Hc.
  pose proof (cancelActive_evolves w1) as Hi. destruct (cancelActive w1) as [w2 es]. cbn [fst snd] in *.
  rewrite app_assoc. by apply (evolves_trans _ w1).
Qed.

(** [submit] refuses without touching the slots, or queues the new job after
    interrupting the active one it supersedes. *)
Inductive submit_outcome (key : PlanningKey) (priority : PlanningPriority) (now : Z) (w : PlanningWorker)
  : PlanningSubmitDisposition * PlanningWorker * list worker_event -> Prop :=
| so_refused d w' :
    d <> kSubmitAccepted -> d <> kReplacedPending ->
    mailbox_of w' = mailbox_of w -> pending_ w' = pending_ w -> active_item_ w' = active_item_ w ->
    sn_pending (worker_snapshot_ w') = sn_pending (worker_snapshot_ w) ->
    sn_in_flight (worker_snapshot_ w') = sn_in_flight (worker_snapshot_ w) ->
    (forall c, is_logged c = true ->
       read_count c (sn_counts (worker_snapshot_ w')) = read_count c (sn_counts (worker_snapshot_ w))) ->
    (fatal_ w', shutdown_started_ w', started_ w', joined_ w')
      = (fatal_ w, shutdown_started_ w, started_ w, joined_ w) ->
    submit_outcome key priority now w (d, w', [])
| so_queued w1 es1 :
    accepting_ w = true -> holds_key key w = false ->
    (w1, es1) = (if supersedes_active key priority (active_item_ w) then cancelActive w else (w, [])) ->
    (supersedes_active key priority (active_item_ w) = true \/
     higherPriority (incumbent_priority w) priority = false \/
     pending_ w = None /\ active_item_ w = None) ->
    submit_outcome key priority now w
      ((enqueue key priority now w1).1.1, (enqueue key priority now w1).1.2,
       es1 ++ (enqueue key priority now w1).2).

Lemma submit_cases key priority job now w :
  submit_outcome key priority now w (submit key priority job now w).
Proof.
  assert (Hrefuse : forall c d, is_logged c = false -> d <> kSubmitAccepted -> d <> kReplacedPending ->
    submit_outcome key priority now w (d, map_snapshot (fun s => sn_disposed d (sn_incr c s)) w, [])).
  { intros c d Hc H1 H2. constructor; try done. intros c' Hc'. destruct c, c'; done. }
  unfold submit.
  destruct (negb _ || _ || _); [by apply Hrefuse|].
  destruct (_ || _ || _) eqn:Es; [by apply Hrefuse|]. bsplit.
  destruct (holds_key key w) eqn:Eh; [by apply Hrefuse|].
  cbv zeta. destruct (supersedes_active key priority (active_item_ w)) eqn:E.
  - destruct (cancelActive w) as [w1 es1] eqn:Ec. cbn [negb andb].
    pose proof (so_queued key priority now w w1 es1) as Hq. rewrite E in Hq.
    destruct (enqueue key priority now w1) as [[d w2] es2]. by apply Hq; auto.
  - destruct (_ && _) eqn:El; [by apply Hrefuse|].
    pose proof (so_queued key priority now w w []) as Hq. rewrite E in Hq.
    destruct (enqueue key priority now w) as [[d w2] es2]. apply Hq; auto. right.
    cbn [negb andb] in El. apply andb_false_iff in El as [Eo|El]; [right|by left].
    apply orb_false_iff in Eo as [?%has_false ?%has_false]. done.
Qed.

(** ** Every step keeps the invariant *)

(** The slot-independent part of an object. *)
Definition flags_of (w : PlanningWorker) : bool * bool * bool * bool * bool :=
  (accepting_ w, started_ w, fatal_ w, shutdown_started_ w, joined_ w).

Definition snapshot_flags_ok (w : PlanningWorker) : Prop :=
  sn_pending (worker_snapshot_ w) = has (pending_ w) /\
  sn_in_flight (worker_snapshot_ w) = has (active_item_ w).

Lemma cancelActive_fields w :
  flags_of (cancelActive w).1 = flags_of w /\ pending_ (cancelActive w).1 = pending_ w /\
  ai_key <$> active_item_ (cancelActive w).1 = ai_key <$> active_item_ w /\
  (snapshot_flags_ok w -> snapshot_flags_ok (cancelActive w).1).
Proof.
  unfold cancelActive, snapshot_flags_ok. destruct (active_item_ w) as [a|] eqn:Ha; [|simpl; by rewrite Ha].
  unfold interrupt_active. destruct (ai_stop_requested a); simpl; by rewrite ?Ha.
Qed.

Lemma enqueue_fields key priority now w :
  let w' := (enqueue key priority now w).1.2 in
  flags_of w' = flags_of w /\ pending_ w' = Some (mkItem key priority now) /\
  active_item_ w' = active_item_ w /\ (snapshot_flags_ok w -> snapshot_flags_ok w') /\
  let d := (enqueue key priority now w).1.1 in d = kSubmitAccepted \/ d = kReplacedPending.
Proof.
  unfold enqueue, snapshot_flags_ok. destruct (pending_ w) eqn:Hp; simpl; split_and!; auto; naive_solver.
Qed.

(** The invariant after a step that replaced the object by [w'] and logged
    [es], when the remaining fields are right. *)
Lemma worker_inv_evolve s w' es :
  worker_inv s -> evolves (sys_worker s) w' es ->
  mb_run mailbox_init (sys_log s ++ es) = Some (mailbox_of w') /\
  forall c, is_logged c = true ->
    read_count c (sn_counts (worker_snapshot_ w')) = tally c (sys_log s ++ es) mod 2 ^ 64.
Proof.
  intros Hi [Hr Hc]. split; [by rewrite replay_app, (wv_replay s Hi)|].
  intros c Hl. rewrite Hc; [|done|rewrite (wv_counts s Hi c Hl); zlia].
  rewrite (wv_counts s Hi c Hl). unfold tally. rewrite count_of_app. by apply Z.add_mod_idemp_l.
Qed.

Lemma submit_step_inv s key priority job now d w' es :
  worker_inv s -> submit key priority job now (sys_worker s) = (d, w', es) ->
  worker_inv (mkSystem w' (sys_pc s) (sys_stop s)
    (sys_notifies s + if (d ==? kSubmitAccepted) || (d ==? kReplacedPending) then 1 else 0)
    (sys_shutdown s) (sys_log s ++ es)).
Proof.
  intros Hi E. pose proof (submit_cases key priority job now (sys_worker s)) as Hs. rewrite E in Hs.
  remember (d, w', es) as r eqn:Er.
  pose proof Hi as [Hrep Hacc Hclo Hact Hsta Hshu Hstop Hblk Hfat Hexi Hjoi (Hfp & Hff & Hfj) Hcnt].
  destruct Hs as [d' w1 Hd1 Hd2 Hm Hp Ha Hsp Hsf Hc Hfl|w1 es1 Ho Hk Hw1 _].
  - injection Er as <- <- <-. rewrite bool_decide_eq_false_2, bool_decide_eq_false_2 by done. cbn [orb].
    rewrite Nat.add_0_r, app_nil_r. injection Hfl as Hf1 Hf2 Hf3 Hf4. pose proof Hm as Hm'.
    unfold mailbox_of in Hm'. injection Hm' as _ _ Hop.
    constructor; simpl; rewrite ?Hm, ?Hp, ?Ha, ?Hf1, ?Hf2, ?Hf3, ?Hf4, ?Hop, ?Hsp, ?Hsf; auto.
    intros c Hl. rewrite Hc by done. auto.
  - destruct (enqueue key priority now w1) as [[d1 w2] es2] eqn:Ee. cbn [fst snd] in Er.
    injection Er as <- <- <-.
    assert (evolves (sys_worker s) w1 es1 /\ flags_of w1 = flags_of (sys_worker s) /\
      ai_key <$> active_item_ w1 = ai_key <$> active_item_ (sys_worker s) /\ snapshot_flags_ok w1)
      as (He1 & Hf1 & Ha1 & Hk1).
    { pose proof (conj Hfp Hff : snapshot_flags_ok (sys_worker s)) as Hk0.
      pose proof (cancelActive_fields (sys_worker s)) as (? & _ & ? & ?).
      pose proof (cancelActive_evolves (sys_worker s)).
      destruct (supersedes_active _ _ _); [|simplify_eq; split_and!; try done; apply evolves_refl].
      rewrite <- Hw1 in *. simpl in *. split_and!; auto. }
    pose proof (enqueue_fields key priority now w1) as (Hf2 & Hp2 & Ha2 & Hk2 & Hd). rewrite Ee in *.
    cbn [fst snd] in *. specialize (Hk2 Hk1) as [Hkp Hkf].
    assert (evolves w1 w2 es2) as He2.
    { pose proof (enqueue_evolves key priority now w1) as Hev. rewrite Ee in Hev. apply Hev.
      unfold flags_of in Hf1. injection Hf1 as -> _ _ _ _. done. }
    destruct (worker_inv_evolve s w2 (es1 ++ es2) Hi (evolves_trans _ _ _ _ _ He1 He2)) as [Hr Hc].
    rewrite Hf1 in Hf2. unfold flags_of in Hf2. injection Hf2 as Hg1 Hg2 Hg3 Hg4 Hg5.
    assert ((d1 ==? kSubmitAccepted) || (d1 ==? kReplacedPending) = true) as ->
      by (by destruct Hd as [-> | ->]).
    constructor; simpl; rewrite ?Hg1, ?Hg2, ?Hg3, ?Hg4, ?Hg5, ?Ha2, ?Ha1; auto; try congruence.
    + intros Hpc. split; [by apply Hblk|right; lia].
    + rewrite Hkp, Hkf, Ha2. done.
Qed.

Lemma worker_inv_init : worker_inv system_init.
Proof. constructor; try done. intros c Hc. by destruct c. Qed.

Lemma cancel_step_inv s w' es :
  worker_inv s -> cancelActive (sys_worker s) = (w', es) -> worker_inv (with_worker s w' es).
Proof.
  intros Hi E. pose proof (cancelActive_fields (sys_worker s)) as (Hf & Hp & Ha & Hk).
  pose proof (cancelActive_evolves (sys_worker s)) as He. rewrite E in *. cbn [fst snd] in *.
  destruct (worker_inv_evolve s w' es Hi He) as [Hr Hc].
  destruct Hi as [? ? ? Hact ? ? ? ? ? ? ? (Hfp & Hff & ?) ?].
  destruct (Hk (conj Hfp Hff)) as [? ?].
  unfold flags_of in Hf. injection Hf as Hg1 Hg2 Hg3 Hg4 Hg5.
  constructor; simpl; rewrite ?Hg1, ?Hg2, ?Hg3, ?Hg4, ?Hg5, ?Hp, ?Ha; auto.
  split_and!; congruence.
Qed.

Lemma shutdown_step_inv s w' es :
  worker_inv s -> shutdown_started_ (sys_worker s) = false ->
  shutdown_begin (sys_worker s) = (w', es) ->
  worker_inv (mkSystem w' (sys_pc s) (sys_stop s) (sys_notifies s) sdEntered (sys_log s ++ es)).
Proof.
  intros Hi Hn E. pose proof (shutdown_begin_evolves (sys_worker s)) as He.
  assert (flags_of w' = (false, started_ (sys_worker s), fatal_ (sys_worker s), true, joined_ (sys_worker s))
    /\ pending_ w' = None /\ ai_key <$> active_item_ w' = ai_key <$> active_item_ (sys_worker s)
    /\ (snapshot_flags_ok (sys_worker s) -> snapshot_flags_ok w')) as (Hf & Hp & Ha & Hk).
  { unfold shutdown_begin in E. set (w1 := map_snapshot _ _) in E.
    pose proof (cancelActive_fields w1) as (Hf & Hp & Ha & Hk). destruct (cancelActive w1).
    injection E as <- <-. cbn [fst] in *. rewrite Hf, Hp, Ha. split_and!; auto.
    intros [_ ?]. apply Hk. split; done. }
  rewrite E in He. cbn [fst snd] in He. destruct (worker_inv_evolve s w' es Hi He) as [Hr Hc].
  destruct Hi as [? ? ? Hact ? Hshu Hstop ? ? ? ? (Hfp & Hff & Hfj) ?].
  destruct (Hk (conj Hfp Hff)) as [? ?]. rewrite Hn in Hshu.
  destruct (sys_shutdown s); try done.
  unfold flags_of in Hf. injection Hf as Hg1 Hg2 Hg3 Hg4 Hg5.
  constructor; simpl; rewrite ?Hg1, ?Hg2, ?Hg3, ?Hg4, ?Hg5, ?Hp, ?Ha; auto.
  - by rewrite andb_false_r.
  - done.
  - rewrite <- Hp. by split_and!.
Qed.

(** After the log and the counters are known, the rest is propositional. *)
Ltac winv :=
  constructor; cbn in *; rewrite ?app_nil_r; auto; intros; destruct_and?; split_and?; auto;
  repeat match goal with
    | H : ?a = ?a -> _ |- _ => specialize (H eq_refl)
    | H : ?P -> _, H' : ?P |- _ => specialize (H H')
    end;
  destruct_and?; destruct_or?; split_and?; auto; try congruence; try (right; lia);
  try (match goal with H : pending_ _ = None |- _ => by rewrite H end).

Lemma worker_inv_step s a s' : worker_inv s -> worker_step s a = Some s' -> worker_inv s'.
Proof.
  intros Hi. destruct s as [w pc stop n sd log].
  pose proof Hi as [Hrep Hacc Hclo Hact Hsta Hshu Hstop Hblk Hfat Hexi Hjoi (Hfp & Hff & Hfj) Hcnt].
  cbn in Hrep, Hacc, Hclo, Hact, Hsta, Hshu, Hstop, Hblk, Hfat, Hexi, Hjoi, Hfp, Hff, Hfj, Hcnt.
  destruct a; cbn [worker_step sys_worker sys_pc sys_stop sys_notifies sys_shutdown sys_log].
  - unfold worker_start. destruct (_ || _) eqn:E; [by intros [= <-]|].
    apply orb_false_iff in E as [E1 E2]. intros [= <-].
    rewrite E1 in Hsta. rewrite E2 in Hshu. destruct pc, sd; try done. winv.
  - destruct (submit _ _ _ _ _) as [[d w'] es] eqn:E. intros [= <-].
    by apply (submit_step_inv _ _ _ _ _ _ _ _ Hi E).
  - destruct n as [|n]; [done|]. intros [= <-]. destruct pc; winv.
  - destruct (cancelActive _) as [w' es] eqn:E. intros [= <-]. by apply cancel_step_inv.
  - unfold cancelActiveIfExecutionIdentity.
    assert (worker_inv (with_worker (mkSystem w pc stop n sd log) w [])) as Hn.
    { unfold with_worker. by rewrite app_nil_r. }
    destruct (_ || _); [by intros [= <-]|].
    destruct (active_item_ w) as [x|] eqn:Ha; [|by intros [= <-]].
    destruct (_ || _); [by intros [= <-]|].
    destruct (interrupt_active x w) as [w' es] eqn:E. intros [= <-].
    apply cancel_step_inv; [done|]. unfold cancelActive. cbn. by rewrite Ha.
  - destruct (shutdown_started_ w) eqn:E; [done|].
    destruct (shutdown_begin _) as [w' es] eqn:Es. intros [= <-].
    by apply (shutdown_step_inv _ _ _ Hi E).
  - destruct sd; try done. intros [= <-]. destruct pc; cbn in Hsta; rewrite Hsta; winv.
  - destruct sd; try done. intros [= <-]. destruct pc; winv.
  - destruct sd, pc; try done; intros [= <-]; winv.
  - destruct pc; try done. intros [= <-]. winv.
  - destruct pc; try done. destruct stop; [intros [= <-]; winv|].
    assert (active_item_ w = None) as Ha by (by destruct (active_item_ w)).
    destruct (pending_ w) as [work|] eqn:Hp; intros [= <-]; [|winv].
    assert (accepting_ w = true) as Ho by (destruct (accepting_ w); [done|by specialize (Hclo eq_refl)]).
    destruct (worker_inv_evolve _ (take work now w).1 (take work now w).2 Hi) as [Hr Hc];
      [by apply take_evolves|]. winv.
  - destruct pc; try done. intros [= <-]. winv.
  - destruct pc as [| | | |work t| |]; try done.
    assert (is_Some (active_item_ w)) as Ha by (destruct (active_item_ w); [by eexists|done]).
    destruct outcome as [b|]; intros [= <-]; [winv|].
    destruct (worker_inv_evolve _ (fail w).1 (fail w).2 Hi) as [Hr Hc]; [by apply fail_evolves|]. winv.
  - destruct pc as [| | | | |work t|]; try done. intros [= <-].
    assert (is_Some (active_item_ w)) as Ha by (destruct (active_item_ w); [by eexists|done]).
    destruct (worker_inv_evolve _ (finish t now w).1 (finish t now w).2 Hi) as [Hr Hc];
      [by apply finish_evolves|]. winv.
Qed.

Lemma worker_reachable_inv s : worker_reachable s -> worker_inv s.
Proof. induction 1; eauto using worker_inv_init, worker_inv_step. Qed.

(** ** Refinement *)


(** ** Accounting *)

Definition is_accept (e : worker_event) : bool := match e with ev_accept _ => true | _ => false end.
Definition is_take (e : worker_event) : bool := match e with ev_take _ => true | _ => false end.
Definition is_replace (e : worker_event) : bool := match e with ev_replace _ => true | _ => false end.
Definition is_drop (e : worker_event) : bool := match e with ev_drop _ => true | _ => false end.
Definition is_finish (e : worker_event) : bool := match e with ev_finish _ => true | _ => false end.
Definition is_fail (e : worker_event) : bool := match e with ev_fail _ => true | _ => false end.

Lemma mb_step_accounting m e m' :
  mb_step m e = Some m' ->
  occupied (mb_slot m') - occupied (mb_slot m)
    = (if is_accept e then 1 else 0) - (if is_take e then 1 else 0)
      - (if is_replace e then 1 else 0) - (if is_drop e then 1 else 0) /\
  occupied (mb_server m') - occupied (mb_server m)
    = (if is_take e then 1 else 0) - (if is_finish e then 1 else 0) - (if is_fail e then 1 else 0).
Proof.
  destruct m as [slot server open]. unfold occupied.
  destruct e; simpl; try (destruct (_ && _) eqn:E; [|done]); try (destruct (is_key _ _) eqn:E; [|done]);
    intros [= <-]; bsplit; destruct slot, server; simpl in *; try done; lia.
Qed.

Lemma mb_run_accounting es m m' :
  mb_run m es = Some m' ->
  occupied (mb_slot m') - occupied (mb_slot m)
    = count_of is_accept es - count_of is_take es - count_of is_replace es - count_of is_drop es /\
  occupied (mb_server m') - occupied (mb_server m)
    = count_of is_take es - count_of is_finish es - count_of is_fail es.
Proof.
  revert m. induction es as [|e es IH]; intros m; simpl; [intros [= <-]; rewrite !count_of_nil; lia|].
  intros (m1 & H1 & H2)%bind_Some. apply mb_step_accounting in H1. apply IH in H2.
  rewrite !count_of_cons. lia.
Qed.

(** No job is lost or duplicated: in every reachable state every accepted job is
    started, replaced, dropped or still waiting, every started one is finished,
    failed or still running, and the exported counters are those numbers modulo
    [2^64]; the exported flags are the state of the two slots. *)
Theorem worker_job_accounting (s : worker_system) :
  worker_reachable s ->
  let n f := count_of f (sys_log s) in
  let w := sys_worker s in
  let c := sn_counts (worker_snapshot w) in
  n is_accept = n is_take + n is_replace + n is_drop + occupied (pending_ w) /\
  n is_take = n is_finish + n is_fail + occupied (active_item_ w) /\
  n_submitted c = n is_accept mod 2 ^ 64 /\ n_accepted c = n is_accept mod 2 ^ 64 /\
  n_started c = n is_take mod 2 ^ 64 /\ n_completed c = n is_finish mod 2 ^ 64 /\
  n_replaced_pending c = n is_replace mod 2 ^ 64 /\
  sn_pending (worker_snapshot_ w) = has (pending_ w) /\
  sn_in_flight (worker_snapshot_ w) = has (active_item_ w).
Proof.
  intros Hs%worker_reachable_inv. cbv zeta.
  pose proof (mb_run_accounting _ _ _ (wv_replay s Hs)) as [H1 H2].
  unfold mailbox_of, occupied in *. simpl in H1, H2.
  assert (forall A B (f : A -> B) o, has (f <$> o) = has o) as Hm by (by intros ? ? ? []).
  rewrite !Hm in *. destruct (wv_flags s Hs) as (Hp & Ha & _).
  pose proof (fun c H => wv_counts s Hs c H) as Hc. unfold tally in Hc.
  split_and!; try done; try lia.
  - apply (Hc c_submitted eq_refl).
  - apply (Hc c_accepted eq_refl).
  - apply (Hc c_started eq_refl).
  - apply (Hc c_completed eq_refl).
  - apply (Hc c_replaced_pending eq_refl).
Qed.

(** ** An interrupt hits the job it was meant for *)

(** The events that end the run of the job in the server. *)
Definition ends_run (e : worker_event) : bool := is_take e || is_finish e || is_fail e.

Lemma server_since es m k :
  mb_run mailbox_init es = Some m -> mb_server m = Some k ->
  exists l0 l1, es = l0 ++ ev_take k :: l1 /\ Forall (fun e => ends_run e = false) l1.
Proof.
  revert m. induction es as [|e es IH] using rev_ind; intros m; [by intros [= <-]|].
  rewrite replay_app. intros (m1 & H1 & (m2 & H2 & [= ->])%bind_Some)%bind_Some Hk.
  destruct (decide (ends_run e = false)) as [He|He].
  - assert (mb_server m1 = Some k) as Hk1.
    { destruct m1 as [slot server open]. destruct e; try done; simpl in H2;
        try (destruct (_ && _); [|done]); try (destruct (is_key _ _); [|done]); by injection H2 as <-. }
    destruct (IH m1 H1 Hk1) as (l0 & l1 & -> & Hl). exists l0, (l1 ++ [e]).
    split; [by rewrite <- app_assoc|]. apply Forall_app. auto.
  - destruct m1 as [slot server open]. destruct e as [| |k'| |k'|k'| |]; try done; simpl in H2.
    + destruct (_ && _); [|done]. injection H2 as <-. injection Hk as <-. exists es, []. split; [done|constructor].
    + destruct (is_key _ _); [|done]. by injection H2 as <-.
    + destruct (_ && _); [|done]. by injection H2 as <-.
Qed.

(** An interrupt never hits another solve: whenever the backend is interrupted
    on behalf of a job, that job was taken before and has neither returned nor
    failed, nor has any other job been started, since. *)
Theorem interrupt_hits_its_job (s : worker_system) (l1 l2 : list worker_event) (k : PlanningKey)
    (first : bool) :
  worker_reachable s -> sys_log s = l1 ++ ev_interrupt k first :: l2 ->
  exists l0 l0', l1 = l0 ++ ev_take k :: l0' /\ Forall (fun e => ends_run e = false) l0'.
Proof.
  intros Hs%worker_reachable_inv Hl. pose proof (wv_replay s Hs) as Hr. rewrite Hl, replay_app in Hr.
  apply bind_Some in Hr as (m & Hm & Hr). apply (server_since _ m); [done|].
  apply bind_Some in Hr as (m' & Hi & _). destruct m as [slot server open]. simpl in *.
  destruct (is_key k server) eqn:E; [|done]. by apply is_key_true in E.
Qed.

(** ** Closing is final *)

Lemma closed_run es m m' :
  mb_run m es = Some m' -> mb_open m = false ->
  Forall (fun e => is_accept e || is_take e || is_replace e = false) es.
Proof.
  revert m. induction es as [|e es IH]; intros m; [constructor|]. simpl.
  intros (m1 & H1 & H2)%bind_Some Ho. destruct m as [slot server open]. simpl in Ho. subst open.
  assert (mb_open m1 = false /\ is_accept e || is_take e || is_replace e = false) as [Ho1 He].
  { destruct e; simpl in H1; try done; try (destruct (is_key _ _); [|done]); by injection H1 as <-. }
  constructor; eauto.
Qed.

(** After a shutdown or a failed job nothing is accepted, replaced or started
    any more, whatever is submitted. *)
Theorem worker_close_is_final (s : worker_system) (l1 l2 : list worker_event) :
  worker_reachable s -> sys_log s = l1 ++ ev_close :: l2 ->
  Forall (fun e => is_accept e || is_take e || is_replace e = false) l2.
Proof.
  intros Hs%worker_reachable_inv Hl. pose proof (wv_replay s Hs) as Hr. rewrite Hl, replay_app in Hr.
  apply bind_Some in Hr as ([slot server open] & _ & Hr). simpl in Hr. by eapply closed_run.
Qed.

(** ** Progress: no lost wake-up, no stuck shutdown *)

(** The steps the threads take by themselves: owed notifications, the worker,
    and the thread that runs [shutdown].  New calls and spurious wake-ups come
    from outside. *)
Definition internal_action (a : worker_action) : bool :=
  match a with
  | a_notify_one | a_request_stop | a_notify_all | a_join | a_wait _ | a_entry _ | a_job _ _
  | a_finish _ => true
  | _ => false
  end.

Definition pc_rank (pc : worker_pc) : nat :=
  match pc with
  | wNone | wBlocked | wExited => 0 | wReady => 1 | wReturned _ _ => 2 | wRunning _ _ => 3
  | wTaken _ _ => 4
  end.

Definition shutdown_rank (sd : shutdown_pc) : nat :=
  match sd with sdEntered => 6 | sdStopRequested => 4 | sdNotified => 1 | sdIdle | sdJoined => 0 end.

Definition worker_measure (s : worker_system) : nat :=
  pc_rank (sys_pc s) + (if has (pending_ (sys_worker s)) then 5 else 0) + 2 * sys_notifies s
  + shutdown_rank (sys_shutdown s).

Lemma internal_decreases s a s' :
  internal_action a = true -> worker_step s a = Some s' ->
  (worker_measure s' < worker_measure s)%nat.
Proof.
  intros Ha. destruct s as [w pc stop n sd log]. unfold worker_measure.
  destruct a; try discriminate Ha; cbn [worker_step sys_worker sys_pc sys_stop sys_notifies sys_shutdown].
  - destruct n as [|n]; [done|]. intros [= <-]. destruct pc; simpl; lia.
  - destruct sd; try done. intros [= <-]. destruct (started_ w), pc; simpl; lia.
  - destruct sd; try done. intros [= <-]. destruct pc; simpl; lia.
  - destruct sd, pc; try done; intros [= <-]; simpl; lia.
  - destruct pc; try done. destruct stop; [intros [= <-]; simpl; lia|].
    destruct (pending_ w) eqn:Hp; intros [= <-]; simpl; rewrite ?Hp; simpl; lia.
  - destruct pc; try done. intros [= <-]. simpl. lia.
  - destruct pc; try done. destruct outcome; intros [= <-]; simpl; destruct (has (pending_ w)); lia.
  - destruct pc; try done. intros [= <-]. simpl. lia.
Qed.

(** C20. Left alone, the worker always comes to rest, and only where it should.
    Every step the threads take by themselves lowers a measure, so they cannot
    go on for ever (provided each job returns or throws, which is one step); and
    where none of them can take a step, no notification is owed, no job is
    running, a job waits only if [start] was never called, and a [shutdown] that
    was entered has joined an ended worker. *)
Theorem worker_comes_to_rest (s : worker_system) :
  worker_reachable s ->
  (forall a s', internal_action a = true -> worker_step s a = Some s' ->
     (worker_measure s' < worker_measure s)%nat) /\
  ((forall a, internal_action a = true -> worker_step s a = None) ->
   sys_notifies s = 0%nat /\ active_item_ (sys_worker s) = None /\
   (is_Some (pending_ (sys_worker s)) -> sys_pc s = wNone) /\
   (shutdown_started_ (sys_worker s) = true ->
    joined_ (sys_worker s) = true /\ pending_ (sys_worker s) = None /\
    (sys_pc s = wNone \/ sys_pc s = wExited))).
Proof.
  intros Hs%worker_reachable_inv. split; [intros a s' Ha; by apply internal_decreases|].
  intros Hstuck. pose proof (Hstuck a_notify_one eq_refl) as S1. pose proof (Hstuck a_request_stop eq_refl) as S2.
  pose proof (Hstuck a_notify_all eq_refl) as S3. pose proof (Hstuck a_join eq_refl) as S4.
  pose proof (Hstuck (a_wait 0) eq_refl) as S5. pose proof (Hstuck (a_entry 0) eq_refl) as S6.
  pose proof (Hstuck (a_job cb_throws 0) eq_refl) as S7. pose proof (Hstuck (a_finish 0) eq_refl) as S8.
  clear Hstuck. destruct Hs as [_ Hacc Hclo Hact Hsta Hshu Hstop Hblk Hfat Hexi Hjoi (_ & _ & Hfj) _].
  destruct s as [w pc stop n sd log]. cbn in *. destruct n; [|done]. split; [done|].
  assert (is_Some (pending_ w) -> accepting_ w = true) as Hopen.
  { intros [p Hp]. destruct (accepting_ w); [done|]. by rewrite Hclo in Hp. }
  assert (active_item_ w = None) as Ha.
  { destruct pc; try done; cbn in Hact; by destruct (active_item_ w). }
  split; [done|]. rewrite Hshu, Hfj.
  assert (pc = wNone \/ pc = wBlocked \/ pc = wExited) as Hpc.
  { destruct pc; auto; [|done..]. by destruct stop, (pending_ w). }
  assert (shutdown_started_ w = true -> pending_ w = None) as Hdrop.
  { intros Hw. apply Hclo. by rewrite Hacc, Hw, andb_false_r. }
  destruct sd; try done.
  - cbn in Hshu. split; [|done]. destruct Hpc as [-> |[-> | ->]]; [done| |].
    + destruct (Hblk eq_refl) as [_ [-> |]]; [by intros []|lia].
    + intros Hp%Hopen. destruct (Hexi eq_refl) as [Hf|Hf]; [|by rewrite Hstop in Hf].
      by rewrite Hf, Hp in Hacc.
  - destruct Hpc as [-> |[-> | ->]]; try done. destruct (Hblk eq_refl) as [Hb _]. cbn in Hsta. congruence.
  - rewrite Hdrop by done. split; [by intros []|]. auto.
Qed.

(** ** [submit] on every branch *)

(** What [submit] requires of the caller and of the object. *)
Definition submit_admissible (key : PlanningKey) (priority : PlanningPriority) (job : bool)
    (w : PlanningWorker) : Prop :=
  PlanningKey_valid key = true /\ job = true /\ accepting_ w = true /\ fatal_ w = false /\
  shutdown_started_ w = false /\ holds_key key w = false /\
  (supersedes_active key priority (active_item_ w) = true \/
   higherPriority (incumbent_priority w) priority = false \/
   pending_ w = None /\ active_item_ w = None).

Definition queued (d : PlanningSubmitDisposition) : Prop := d = kSubmitAccepted \/ d = kReplacedPending.

Lemma enqueue_queued key priority now w : queued (enqueue key priority now w).1.1.
Proof. apply enqueue_fields. Qed.

Lemma submit_queued key priority job now w :
  submit_admissible key priority job w ->
  exists w1 es1,
    (w1, es1) = (if supersedes_active key priority (active_item_ w) then cancelActive w else (w, [])) /\
    submit key priority job now w =
      ((enqueue key priority now w1).1.1, (enqueue key priority now w1).1.2,
       es1 ++ (enqueue key priority now w1).2).
Proof.
  intros (Hk & -> & Ho & Hf & Hs & Hh & Hp). unfold submit. rewrite Hk, Ho, Hf, Hs, Hh.
  replace (planningPriorityKnown priority) with true by (by destruct priority). cbn [negb orb].
  destruct (supersedes_active key priority (active_item_ w)) eqn:E.
  - destruct (cancelActive w) as [w1 es1]. exists w1, es1. split; [done|]. cbn [negb andb].
    by destruct (enqueue key priority now w1) as [[? ?] ?].
  - exists w, []. split; [done|]. cbn [negb andb].
    destruct Hp as [?|[->|[-> ->]]]; [done| |]; rewrite ?andb_false_r; cbn [has orb andb];
      by destruct (enqueue key priority now w) as [[? ?] ?].
Qed.

(** [submit] on every branch.  It queues exactly the admissible jobs: valid, to
    an open worker, not already held, and not of lower priority than the
    incumbent unless they supersede the active solve.  A queued job is the
    pending one, reported as a replacement exactly when another job was waiting;
    the active job is kept and is told to stop exactly when it was superseded (or
    had been told before).  A refused job changes neither slot and interrupts
    nothing. *)
Theorem submit_spec (key : PlanningKey) (priority : PlanningPriority) (job : bool) (now : Z)
    (w : PlanningWorker) :
  let '(d, w', es) := submit key priority job now w in
  (queued d <-> submit_admissible key priority job w) /\
  (queued d ->
     pending_ w' = Some (mkItem key priority now) /\
     (d = kReplacedPending <-> is_Some (pending_ w)) /\
     (ai_key <$> active_item_ w' = ai_key <$> active_item_ w) /\
     (ai_stop_requested <$> active_item_ w'
        = (fun a => ai_stop_requested a || supersedes_active key priority (active_item_ w))
            <$> active_item_ w)) /\
  (~ queued d -> es = [] /\ pending_ w' = pending_ w /\ active_item_ w' = active_item_ w).
Proof.
  destruct (submit key priority job now w) as [[d w'] es] eqn:E.
  pose proof (submit_cases key priority job now w) as Hs. rewrite E in Hs.
  assert (queued d <-> submit_admissible key priority job w) as Hiff.
  { split.
    - intros Hq. unfold submit in E. destruct (negb _ || _ || _) eqn:E1; [destruct Hq; congruence|].
      destruct (_ || _ || _) eqn:E2 in E; [destruct Hq; congruence|].
      remember (d, w', es) as r eqn:Er. destruct Hs as [d' w2 ? ?|w1 es1 Ho Hh ? Hp];
        [destruct Hq; congruence|]. bsplit. by split_and!.
    - intros Ha. destruct (submit_queued _ _ _ now _ Ha) as (w1 & es1 & _ & Hq). rewrite Hq in E.
      injection E as <- _ _. exact (enqueue_queued key priority now w1). }
  split; [done|]. split.
  - intros (w1 & es1 & Hw1 & Hq)%Hiff%(submit_queued _ _ _ now). rewrite Hq in E.
    pose proof (enqueue_fields key priority now w1) as (_ & Hp & Ha & _ & Hd).
    assert (pending_ w1 = pending_ w /\ ai_key <$> active_item_ w1 = ai_key <$> active_item_ w /\
      ai_stop_requested <$> active_item_ w1
        = (fun a => ai_stop_requested a || supersedes_active key priority (active_item_ w)) <$> active_item_ w)
      as (Hp1 & Ha1 & Hs1).
    { destruct (supersedes_active key priority (active_item_ w)) eqn:Es.
      - unfold cancelActive, interrupt_active in Hw1. destruct (active_item_ w) as [a|] eqn:Haw; [|done].
        injection Hw1 as -> _. destruct (ai_stop_requested a); split_and!; simpl; by rewrite ?orb_true_r.
      - injection Hw1 as -> _. split_and!; [done..|]. destruct (active_item_ w) as [a|]; [|done].
        simpl. by rewrite orb_false_r. }
    assert ((enqueue key priority now w1).1.1 = kReplacedPending <-> is_Some (pending_ w1)) as Hr.
    { unfold enqueue. cbn [fst]. destruct (pending_ w1); simpl; split; intros ?; try done; by destruct_and?. }
    destruct (enqueue key priority now w1) as [[d2 w2] es2]. cbn [fst snd] in *. injection E as <- <- <-.
    by rewrite Hp, Hr, Hp1, Ha, Ha1, Hs1.
  - intros Hnq. remember (d, w', es) as r eqn:Er. destruct Hs as [d' w2 ? ? ? ? ?|w1 es1 ? ? ? ?].
    + by injection Er as <- <- <-.
    + injection Er as <- _ _. by destruct Hnq; apply (enqueue_queued key priority now w1).
Qed.

(** ** A lower priority can displace a higher one

    The comparison with the incumbent is skipped when the newcomer supersedes
    the active solve, although the incumbent is then the waiting job. *)

Fixpoint worker_exec (s : worker_system) (acts : list worker_action) : option worker_system :=
  match acts with
  | [] => Some s
  | a :: acts => worker_step s a ≫= fun s => worker_exec s acts
  end.

Lemma worker_exec_reachable s acts s' :
  worker_reachable s -> worker_exec s acts = Some s' -> worker_reachable s'.
Proof.
  revert s. induction acts as [|a acts IH]; intros s Hs; simpl; [by intros [= <-]|].
  intros (s1 & H1 & H2)%bind_Some. apply (IH s1); [by eapply wr_step|done].
Qed.

Definition demo_worker_key (goal_epoch anchor : Z) : PlanningKey :=
  mkKey 1 goal_epoch goal_epoch 1 0 1 1 kStoppedMeasuredState anchor 7.

(** A renewal of goal 1 is running when the emergency job of goal 2 arrives. *)
Definition demo_emergency_waiting : list worker_action :=
  [a_start; a_submit (demo_worker_key 1 10) kNormalRenewal true 100; a_notify_one; a_wait 200;
   a_entry 300; a_submit (demo_worker_key 2 20) kPriorityEmergency true 400].

(** While an emergency job waits behind a superseded solve, a quality refinement
    of the emergency's own identity replaces it: the emergency job never runs,
    although the same refinement would have been refused as of lower priority
    behind an emergency solve that is active. *)
Theorem refinement_displaces_waiting_emergency :
  exists s p, worker_reachable s /\ pending_ (sys_worker s) = Some p /\
    wi_priority p = kPriorityEmergency /\
    let '(d, w, es) := submit (demo_worker_key 2 21) kQualityRefinement true 500 (sys_worker s) in
    samePlanningCancellationIdentity (wi_key p) (demo_worker_key 2 21) = true /\
    d = kReplacedPending /\ (wi_priority <$> pending_ w) = Some kQualityRefinement /\
    ev_replace (wi_key p) ∈ es.
Proof.
  destruct (worker_exec system_init demo_emergency_waiting) as [s|] eqn:E; [|by vm_compute in E].
  pose proof (worker_exec_reachable _ _ _ wr_init E) as Hr. vm_compute in E. injection E as <-.
  eexists _, _. split; [exact Hr|]. split; [reflexivity|]. split; [reflexivity|]. vm_compute.
  split; [done|]. split; [done|]. split; [done|]. apply list_elem_of_further, list_elem_of_here.
Qed.

(** ** Witnesses *)

Definition demo_worker_run : list worker_action :=
  demo_emergency_waiting ++ [a_notify_one; a_job (cb_returns true) 600; a_finish 700; a_wait 800; a_shutdown].

Definition demo_worker_system : worker_system :=
  default system_init (worker_exec system_init demo_worker_run).

Lemma demo_worker_exec : worker_exec system_init demo_worker_run = Some demo_worker_system.
Proof. vm_compute. reflexivity. Qed.


Lemma worker_job_accounting_witness :
  count_of is_take (sys_log demo_worker_system) =
    count_of is_finish (sys_log demo_worker_system) + count_of is_fail (sys_log demo_worker_system)
    + occupied (active_item_ (sys_worker demo_worker_system)).
Proof.
  exact (proj1 (proj2 (worker_job_accounting _
    (worker_exec_reachable _ _ _ wr_init demo_worker_exec)))).
Defined.

Lemma interrupt_hits_its_job_witness :
  exists l0 l0', [ev_accept (demo_worker_key 1 10); ev_take (demo_worker_key 1 10)]
    = l0 ++ ev_take (demo_worker_key 1 10) :: l0' /\ Forall (fun e => ends_run e = false) l0'.
Proof.
  refine (interrupt_hits_its_job demo_worker_system
    [ev_accept (demo_worker_key 1 10); ev_take (demo_worker_key 1 10)]
    [ev_accept (demo_worker_key 2 20); ev_finish (demo_worker_key 1 10);
     ev_take (demo_worker_key 2 20); ev_close; ev_interrupt (demo_worker_key 2 20) true]
    (demo_worker_key 1 10) true (worker_exec_reachable _ _ _ wr_init demo_worker_exec) _).
  vm_compute. reflexivity.
Defined.

Lemma worker_close_is_final_witness :
  Forall (fun e => is_accept e || is_take e || is_replace e = false)
    [ev_interrupt (demo_worker_key 2 20) true].
Proof.
  refine (worker_close_is_final demo_worker_system
    [ev_accept (demo_worker_key 1 10); ev_take (demo_worker_key 1 10);
     ev_interrupt (demo_worker_key 1 10) true; ev_accept (demo_worker_key 2 20);
     ev_finish (demo_worker_key 1 10); ev_take (demo_worker_key 2 20)] _
    (worker_exec_reachable _ _ _ wr_init demo_worker_exec) _).
  vm_compute. reflexivity.
Defined.

Lemma worker_comes_to_rest_witness :
  (worker_measure (default system_init (worker_step demo_worker_system a_request_stop))
   < worker_measure demo_worker_system)%nat.
Proof.
  apply (proj1 (worker_comes_to_rest _ (worker_exec_reachable _ _ _ wr_init demo_worker_exec))
           a_request_stop); [reflexivity|vm_compute; reflexivity].
Defined.
