(* ===== verification/CommandContract.v ===== *)
(** * The command on the wire and its admission predicates

    [contracts/navigation_contracts]: [NavigationCommand.msg],
    [navigation_command_contract.hpp], [execution_state_freshness.hpp],
    [command_safety_contract.hpp]; and of [px4/px4_navigation_external_mode] the
    predicates the adapter admits a command with: [command_acceptance_gate.hpp],
    [command_admission_assessment.hpp], [certified_command_handoff.hpp],
    [mission_command_identity.hpp], [planner_recovery.hpp]. *)

From S2P Require Import Prelude Float64 Float64Facts TimeNs Geometry.

(** ** [NavigationCommand.msg] *)

Definition ROLE_MAIN : Z := 0.
Definition ROLE_BACKUP : Z := 1.
Definition ROLE_EMERGENCY : Z := 2.

Definition STATUS_EMPTY : Z := 0.
Definition STATUS_READY : Z := 1.
Definition STATUS_BRAKING : Z := 2.
Definition STATUS_COMPLETED : Z := 3.
Definition STATUS_REJECTED : Z := 4.
Definition STATUS_HANDOVER : Z := 5.

Definition EMERGENCY_AUTHORIZATION_ACTUAL_ANCHOR_CERTIFICATE_EXCEEDED : Z := 1.
Definition EMERGENCY_AUTHORIZATION_CLEARANCE_EXCEEDED : Z := 5.

Record NavigationCommand : Type := mkNavigationCommand {
  nc_header_stamp : RosTime;
  nc_frame_id : string;
  nc_localization_epoch : Z;
  nc_goal_epoch : Z;
  nc_mode_activation_id : Z;
  nc_mission_id : string;
  nc_waypoint_index : Z;
  nc_request_id : Z;
  nc_world_generation : Z;
  nc_world_revision : Z;
  nc_world_observation_stamp : RosTime;
  nc_bundle_generation : Z;
  nc_certified_main_continuation : bool;
  nc_continuation_boundary_stamp_ns : Z;
  nc_sample_id : Z;
  nc_state_source_stamp : RosTime;
  nc_valid_until : RosTime;
  nc_role : Z;
  nc_status : Z;
  nc_position : vec3;
  nc_velocity : vec3;
  nc_acceleration : vec3;
  nc_jerk : vec3;
  nc_yaw : f64;
  nc_yaw_rate : f64;
  nc_trajectory_time_s : f64;
  nc_emergency_authorization_reason : Z;
  nc_emergency_candidate_commit_result : Z
}.

Inductive CommandContractReason : Type :=
| contract_kValid
| contract_kExpectedFrameMissing
| contract_kMissionIdEmpty
| contract_kFrameMismatch
| contract_kHeaderStampInvalid
| contract_kValidityWindowInvalid
| contract_kWorldStampInvalid
| contract_kStateStampInvalid
| contract_kLocalizationIdentityInvalid
| contract_kGoalIdentityInvalid
| contract_kWorldIdentityInvalid
| contract_kSampleIdentityInvalid
| contract_kStatusInvalid
| contract_kRoleStatusMismatch
| contract_kPvajOrYawNonFinite
| contract_kContinuationContractInvalid
| contract_kTrajectoryTimeInvalid.

#[export] Instance CommandContractReason_eq_dec : EqDecision CommandContractReason.
Proof. solve_decision. Defined.

Inductive CommandTemporalReason : Type :=
| temporal_kValid
| temporal_kNowInvalid
| temporal_kInvalidWindow
| temporal_kNotYetValid
| temporal_kExpired.

#[export] Instance CommandTemporalReason_eq_dec : EqDecision CommandTemporalReason.
Proof. solve_decision. Defined.

Definition commandContractReasonName (reason : CommandContractReason) : string :=
  match reason with
  | contract_kValid => "VALID"
  | contract_kExpectedFrameMissing => "EXPECTED_FRAME_MISSING"
  | contract_kMissionIdEmpty => "MISSION_ID_EMPTY"
  | contract_kFrameMismatch => "FRAME_MISMATCH"
  | contract_kHeaderStampInvalid => "HEADER_STAMP_INVALID"
  | contract_kValidityWindowInvalid => "VALIDITY_WINDOW_INVALID"
  | contract_kWorldStampInvalid => "WORLD_STAMP_INVALID"
  | contract_kStateStampInvalid => "STATE_STAMP_INVALID"
  | contract_kLocalizationIdentityInvalid => "LOCALIZATION_ID_INVALID"
  | contract_kGoalIdentityInvalid => "GOAL_ID_INVALID"
  | contract_kWorldIdentityInvalid => "WORLD_ID_INVALID"
  | contract_kSampleIdentityInvalid => "SAMPLE_ID_INVALID"
  | contract_kStatusInvalid => "STATUS_INVALID"
  | contract_kRoleStatusMismatch => "ROLE_STATUS_MISMATCH"
  | contract_kPvajOrYawNonFinite => "PVAJ_OR_YAW_NONFINITE"
  | contract_kContinuationContractInvalid => "CONTINUATION_CONTRACT_INVALID"
  | contract_kTrajectoryTimeInvalid => "TRAJECTORY_TIME_INVALID"
  end.

Definition commandTemporalReasonName (reason : CommandTemporalReason) : string :=
  match reason with
  | temporal_kValid => "VALID"
  | temporal_kNowInvalid => "NOW_INVALID"
  | temporal_kInvalidWindow => "INVALID_WINDOW"
  | temporal_kNotYetValid => "NOT_YET_VALID"
  | temporal_kExpired => "EXPIRED"
  end.

Definition commandStampNanoseconds (stamp : RosTime) : Z :=
  default 0 (rosTimeToNanoseconds stamp).

Abbreviation header_ns c := (commandStampNanoseconds (nc_header_stamp c)).
Abbreviation valid_until_ns c := (commandStampNanoseconds (nc_valid_until c)).

Definition assessCommandTemporalLease (command : NavigationCommand) (now_ns : Z)
    : CommandTemporalReason :=
  if now_ns <=? 0 then temporal_kNowInvalid
  else if (header_ns command <=? 0) || (valid_until_ns command <=? header_ns command) then
    temporal_kInvalidWindow
  else if now_ns <? header_ns command then temporal_kNotYetValid
  else if valid_until_ns command <? now_ns then temporal_kExpired
  else temporal_kValid.

Definition commandValidAt (command : NavigationCommand) (now_ns : Z) : bool :=
  assessCommandTemporalLease command now_ns ==? temporal_kValid.

(** ** [execution_state_freshness.hpp] *)

Inductive ExecutionStateFreshnessReason : Type :=
| freshness_kValid
| freshness_kInvalidLimit
| freshness_kMissingSourceStamp
| freshness_kMissingReceiveStamp
| freshness_kSourceStale
| freshness_kSourceFuture
| freshness_kReceiveStale
| freshness_kReceiveFuture.

#[export] Instance ExecutionStateFreshnessReason_eq_dec : EqDecision ExecutionStateFreshnessReason.
Proof. solve_decision. Defined.

Record ExecutionStateFreshness : Type := mkFreshness {
  esf_reason : ExecutionStateFreshnessReason;
  esf_source_age_ms : f64;
  esf_receive_age_ms : f64
}.

Definition freshness_valid (f : ExecutionStateFreshness) : bool :=
  esf_reason f ==? freshness_kValid.

(** [static_cast<double>(int64 max) * 1.0e-9] *)
Definition maximum_age_limit_s : f64 := f64_mul (f64_of_Z i64_max) (f64_lit 1 1000000000).

Definition evaluateExecutionStateFreshness
    (now_ros_ns source_stamp_ros_ns now_steady_ns receive_stamp_steady_ns : Z)
    (maximum_age_s : f64) : ExecutionStateFreshness :=
  if (now_ros_ns <=? 0) || (now_steady_ns <=? 0) || negb (isfinite maximum_age_s)
     || fle maximum_age_s fzero || fgt maximum_age_s maximum_age_limit_s then
    mkFreshness freshness_kInvalidLimit fzero fzero
  else if source_stamp_ros_ns <=? 0 then mkFreshness freshness_kMissingSourceStamp fzero fzero
  else if receive_stamp_steady_ns <=? 0 then mkFreshness freshness_kMissingReceiveStamp fzero fzero
  else
    let maximum_age_ns := f80_mul (f80_of_f64 maximum_age_s) (f80_of_Z 1000000000) in
    let source_age_ns := f80_sub (f80_of_Z now_ros_ns) (f80_of_Z source_stamp_ros_ns) in
    let receive_age_ns := f80_sub (f80_of_Z now_steady_ns) (f80_of_Z receive_stamp_steady_ns) in
    let ms ns := f64_of_f80 (f80_mul ns (f80_lit 1 1000000)) in
    let reason :=
      if fgt source_age_ns maximum_age_ns then freshness_kSourceStale
      else if flt source_age_ns (fopp maximum_age_ns) then freshness_kSourceFuture
      else if fgt receive_age_ns maximum_age_ns then freshness_kReceiveStale
      else if flt receive_age_ns fzero then freshness_kReceiveFuture
      else freshness_kValid in
    mkFreshness reason (ms source_age_ns) (ms receive_age_ns).

Definition executionStateFreshnessReasonName (reason : ExecutionStateFreshnessReason) : string :=
  match reason with
  | freshness_kValid => "VALID"
  | freshness_kInvalidLimit => "INVALID_LIMIT"
  | freshness_kMissingSourceStamp => "MISSING_SOURCE_STAMP"
  | freshness_kMissingReceiveStamp => "MISSING_RECEIVE_STAMP"
  | freshness_kSourceStale => "SOURCE_STALE"
  | freshness_kSourceFuture => "SOURCE_FUTURE"
  | freshness_kReceiveStale => "RECEIVE_STALE"
  | freshness_kReceiveFuture => "RECEIVE_FUTURE"
  end.

(** ** The rest of [navigation_command_contract.hpp] *)

Definition continuationWitnessLeaseValid (command_valid_at : bool)
    (now_ns last_receive_ns stale_after_ns : Z)
    (odometry_freshness health_freshness : ExecutionStateFreshness)
    (health_matches failure_reported mission_terminal handover_requested : bool) : bool :=
  command_valid_at && (0 <? now_ns) && (0 <? last_receive_ns) && (0 <=? stale_after_ns)
  && (last_receive_ns <=? now_ns) && (now_ns - last_receive_ns <=? stale_after_ns)
  && freshness_valid odometry_freshness && freshness_valid health_freshness && health_matches
  && negb failure_reported && negb mission_terminal && negb handover_requested.

Definition string_empty (s : string) : bool := s ==? EmptyString.

Definition commandMissionIdentityMatches (command : NavigationCommand) (mission_id : string)
    (waypoint_index request_id : Z) : bool :=
  negb (string_empty mission_id) && (nc_mission_id command ==? mission_id)
  && (nc_waypoint_index command =? waypoint_index) && (nc_request_id command =? request_id).

Definition certifiedMainContinuationFieldsValid (command : NavigationCommand) : bool :=
  let boundary_ns := nc_continuation_boundary_stamp_ns command in
  if negb (nc_certified_main_continuation command) then boundary_ns =? 0
  else (nc_role command =? ROLE_MAIN) && (nc_status command =? STATUS_READY) && (0 <? boundary_ns).

Definition commandWorldIdentityNonRegressing (current previous : NavigationCommand) : bool :=
  if (nc_localization_epoch current <? nc_localization_epoch previous)
     || (nc_goal_epoch current <? nc_goal_epoch previous)
     || (nc_world_generation current <? nc_world_generation previous) then false
  else if (nc_world_generation current =? nc_world_generation previous)
          && ((nc_world_revision current <? nc_world_revision previous)
              || (commandStampNanoseconds (nc_world_observation_stamp current)
                  <? commandStampNanoseconds (nc_world_observation_stamp previous))) then false
  else if (nc_localization_epoch current =? nc_localization_epoch previous)
          && (commandStampNanoseconds (nc_state_source_stamp current)
              <? commandStampNanoseconds (nc_state_source_stamp previous)) then false
  else true.

Definition vec3_isfinite (v : vec3) : bool := isfinite (vx v) && isfinite (vy v) && isfinite (vz v).

Definition pvaj_finite (command : NavigationCommand) : bool :=
  vec3_isfinite (nc_position command) && vec3_isfinite (nc_velocity command)
  && vec3_isfinite (nc_acceleration command) && vec3_isfinite (nc_jerk command)
  && isfinite (nc_yaw command) && isfinite (nc_yaw_rate command)
  && isfinite (nc_trajectory_time_s command).

Definition assessCommandContract (command : NavigationCommand) (expected_frame : string)
    : CommandContractReason :=
  let world_stamp_ns := commandStampNanoseconds (nc_world_observation_stamp command) in
  let state_stamp_ns := commandStampNanoseconds (nc_state_source_stamp command) in
  let rejected := nc_status command =? STATUS_REJECTED in
  let normal := (nc_status command =? STATUS_READY) || (nc_status command =? STATUS_COMPLETED) in
  let braking := nc_status command =? STATUS_BRAKING in
  let role_valid :=
    (normal && ((nc_role command =? ROLE_MAIN) || (nc_role command =? ROLE_BACKUP))
       && negb (nc_bundle_generation command =? 0))
    || (braking && (nc_role command =? ROLE_EMERGENCY) && negb (nc_bundle_generation command =? 0))
    || (rejected && (nc_role command =? ROLE_EMERGENCY)) in
  if string_empty expected_frame then contract_kExpectedFrameMissing
  else if string_empty (nc_mission_id command) then contract_kMissionIdEmpty
  else if nc_frame_id command !=? expected_frame then contract_kFrameMismatch
  else if header_ns command <=? 0 then contract_kHeaderStampInvalid
  else if valid_until_ns command <=? header_ns command then contract_kValidityWindowInvalid
  else if world_stamp_ns <=? 0 then contract_kWorldStampInvalid
  else if state_stamp_ns <=? 0 then contract_kStateStampInvalid
  else if nc_localization_epoch command =? 0 then contract_kLocalizationIdentityInvalid
  else if nc_goal_epoch command =? 0 then contract_kGoalIdentityInvalid
  else if (nc_world_generation command =? 0) || (nc_world_revision command =? 0) then
    contract_kWorldIdentityInvalid
  else if nc_sample_id command =? 0 then contract_kSampleIdentityInvalid
  else if negb (normal || braking || rejected) then contract_kStatusInvalid
  else if negb role_valid then contract_kRoleStatusMismatch
  else if negb (pvaj_finite command) then contract_kPvajOrYawNonFinite
  else if negb (certifiedMainContinuationFieldsValid command) then
    contract_kContinuationContractInvalid
  else if flt (nc_trajectory_time_s command) fzero then contract_kTrajectoryTimeInvalid
  else contract_kValid.

Definition commandContractValid (command : NavigationCommand) (expected_frame : string) : bool :=
  assessCommandContract command expected_frame ==? contract_kValid.

(** ** [command_safety_contract.hpp] *)

(** [0.75] and [0.10] *)
Definition kCommandAnchorErrorLimitM : f64 := f64_lit 3 4.
Definition kMainTrackingPhaseWindowS : f64 := f64_lit 1 10.

Definition estimatorHealthAllowsCommand (typed_health_seen health_valid : bool)
    (command_localization_epoch health_localization_epoch : Z) : bool :=
  typed_health_seen && health_valid && negb (command_localization_epoch =? 0)
  && (command_localization_epoch =? health_localization_epoch).

(** ** [command_acceptance_gate.hpp] *)

Inductive CommandAcceptanceGate : Type :=
| gate_kAccept
| gate_kOdometryStale
| gate_kNonIncreasingMessageId.

#[export] Instance CommandAcceptanceGate_eq_dec : EqDecision CommandAcceptanceGate.
Proof. solve_decision. Defined.

Definition classifyCommandAcceptance (odometry_freshness : ExecutionStateFreshness)
    (incoming_message_id previous_message_id : Z) : CommandAcceptanceGate :=
  if negb (freshness_valid odometry_freshness) then gate_kOdometryStale
  else if negb (previous_message_id =? 0) && (incoming_message_id <=? previous_message_id) then
    gate_kNonIncreasingMessageId
  else gate_kAccept.

(** ** [command_admission_assessment.hpp] *)

Inductive AdmissionStage : Type :=
| kPresence
| kContract
| kTemporalLease
| kTerminalOwnership
| kSessionIdentity
| kOdometryFreshness
| kSampleOrdering
| kTrackingEnvelope
| kCommit.

#[export] Instance AdmissionStage_eq_dec : EqDecision AdmissionStage.
Proof. solve_decision. Defined.

Inductive AdmissionDisposition : Type :=
| kAccept
| kRejectRetainPrevious
| kRejectFailNavigation
| kRejectSafetyStop
| kIgnoreAfterTerminal.

#[export] Instance AdmissionDisposition_eq_dec : EqDecision AdmissionDisposition.
Proof. solve_decision. Defined.

Inductive SessionIdentityReason : Type :=
| session_kValid
| session_kHealthEpochMismatch
| session_kModeActivationMismatch
| session_kMissionSessionMismatch
| session_kRequestRegression
| session_kWorldIdentityRegression.

#[export] Instance SessionIdentityReason_eq_dec : EqDecision SessionIdentityReason.
Proof. solve_decision. Defined.

(** The [std::variant]; [PresenceReason], [TerminalReason] and [TrackingReason]
    have one enumerator each. *)
Inductive AdmissionReason : Type :=
| reason_none
| reason_presence
| reason_contract (r : CommandContractReason)
| reason_temporal (r : CommandTemporalReason)
| reason_terminal
| reason_session (r : SessionIdentityReason)
| reason_freshness (r : ExecutionStateFreshnessReason)
| reason_acceptance (r : CommandAcceptanceGate)
| reason_tracking.

Record CommandAdmissionAssessment : Type := mkAssessment {
  caa_stage : AdmissionStage;
  caa_disposition : AdmissionDisposition;
  caa_reason : AdmissionReason
}.

(** The default member initialisers: accepted at the commit stage. *)
Definition assessment_accept : CommandAdmissionAssessment := mkAssessment kCommit kAccept reason_none.

Definition accepted (a : CommandAdmissionAssessment) : bool := caa_disposition a ==? kAccept.

Definition assessCommandSessionIdentity (incoming : NavigationCommand)
    (previous : option NavigationCommand) (typed_health_seen health_valid : bool)
    (health_localization_epoch mode_activation_id : Z) : SessionIdentityReason :=
  if negb (estimatorHealthAllowsCommand typed_health_seen health_valid
             (nc_localization_epoch incoming) health_localization_epoch) then
    session_kHealthEpochMismatch
  else if negb (mode_activation_id =? 0)
          && negb (nc_mode_activation_id incoming =? mode_activation_id) then
    session_kModeActivationMismatch
  else
    match previous with
    | None => session_kValid
    | Some previous =>
        if nc_mission_id incoming !=? nc_mission_id previous then session_kMissionSessionMismatch
        else if (if nc_goal_epoch incoming =? nc_goal_epoch previous then
                   negb (nc_waypoint_index incoming =? nc_waypoint_index previous)
                   || negb (nc_request_id incoming =? nc_request_id previous)
                 else nc_request_id incoming <? nc_request_id previous) then
          session_kRequestRegression
        else if negb (commandWorldIdentityNonRegressing incoming previous) then
          session_kWorldIdentityRegression
        else session_kValid
    end.

Definition admissionStageName (stage : AdmissionStage) : string :=
  match stage with
  | kPresence => "PRESENCE"
  | kContract => "CONTRACT"
  | kTemporalLease => "TEMPORAL_LEASE"
  | kTerminalOwnership => "TERMINAL_OWNERSHIP"
  | kSessionIdentity => "SESSION_IDENTITY"
  | kOdometryFreshness => "ODOMETRY_FRESHNESS"
  | kSampleOrdering => "SAMPLE_ORDERING"
  | kTrackingEnvelope => "TRACKING_ENVELOPE"
  | kCommit => "COMMIT"
  end.

Definition admissionDispositionName (disposition : AdmissionDisposition) : string :=
  match disposition with
  | kAccept => "ACCEPT"
  | kRejectRetainPrevious => "REJECT_RETAIN_PREVIOUS"
  | kRejectFailNavigation => "REJECT_FAIL_NAVIGATION"
  | kRejectSafetyStop => "REJECT_SAFETY_STOP"
  | kIgnoreAfterTerminal => "IGNORE_AFTER_TERMINAL"
  end.

(** The enumerators as [static_cast] sees them. *)
Definition contract_code (r : CommandContractReason) : Z :=
  match r with
  | contract_kValid => 0 | contract_kExpectedFrameMissing => 1 | contract_kMissionIdEmpty => 2
  | contract_kFrameMismatch => 3 | contract_kHeaderStampInvalid => 4
  | contract_kValidityWindowInvalid => 5 | contract_kWorldStampInvalid => 6
  | contract_kStateStampInvalid => 7 | contract_kLocalizationIdentityInvalid => 8
  | contract_kGoalIdentityInvalid => 9 | contract_kWorldIdentityInvalid => 10
  | contract_kSampleIdentityInvalid => 11 | contract_kStatusInvalid => 12
  | contract_kRoleStatusMismatch => 13 | contract_kPvajOrYawNonFinite => 14
  | contract_kContinuationContractInvalid => 15 | contract_kTrajectoryTimeInvalid => 16
  end.
Definition temporal_code (r : CommandTemporalReason) : Z :=
  match r with
  | temporal_kValid => 0 | temporal_kNowInvalid => 1 | temporal_kInvalidWindow => 2
  | temporal_kNotYetValid => 3 | temporal_kExpired => 4
  end.
Definition session_code (r : SessionIdentityReason) : Z :=
  match r with
  | session_kValid => 0 | session_kHealthEpochMismatch => 1 | session_kModeActivationMismatch => 2
  | session_kMissionSessionMismatch => 3 | session_kRequestRegression => 4
  | session_kWorldIdentityRegression => 5
  end.
Definition freshness_code (r : ExecutionStateFreshnessReason) : Z :=
  match r with
  | freshness_kValid => 0 | freshness_kInvalidLimit => 1 | freshness_kMissingSourceStamp => 2
  | freshness_kMissingReceiveStamp => 3 | freshness_kSourceStale => 4
  | freshness_kSourceFuture => 5 | freshness_kReceiveStale => 6 | freshness_kReceiveFuture => 7
  end.
Definition gate_code (r : CommandAcceptanceGate) : Z :=
  match r with gate_kAccept => 0 | gate_kOdometryStale => 1 | gate_kNonIncreasingMessageId => 2 end.

Definition admissionReasonCode (reason : AdmissionReason) : Z :=
  match reason with
  | reason_none => 0
  | reason_presence | reason_terminal | reason_tracking => 1
  | reason_contract r => contract_code r
  | reason_temporal r => temporal_code r
  | reason_session r => session_code r
  | reason_freshness r => freshness_code r
  | reason_acceptance r => gate_code r
  end.

Definition admissionReasonName (reason : AdmissionReason) : string :=
  match reason with
  | reason_none => "NONE"
  | reason_presence => "MESSAGE_MISSING"
  | reason_contract r => commandContractReasonName r
  | reason_temporal r => commandTemporalReasonName r
  | reason_terminal => "TERMINAL_AUTHORITY_CLOSED"
  | reason_tracking => "TRACKING_ENVELOPE_EXCEEDED"
  | reason_freshness r => executionStateFreshnessReasonName r
  | reason_acceptance gate_kAccept => "ACCEPT"
  | reason_acceptance gate_kOdometryStale => "ODOMETRY_STALE"
  | reason_acceptance gate_kNonIncreasingMessageId => "SAMPLE_NONINCREASING"
  | reason_session session_kValid => "VALID"
  | reason_session session_kHealthEpochMismatch => "HEALTH_EPOCH_MISMATCH"
  | reason_session session_kModeActivationMismatch => "MODE_ACTIVATION_MISMATCH"
  | reason_session session_kMissionSessionMismatch => "MISSION_SESSION_MISMATCH"
  | reason_session session_kRequestRegression => "REQUEST_REGRESSION"
  | reason_session session_kWorldIdentityRegression => "WORLD_IDENTITY_REGRESSION"
  end.

(** ** [certified_command_handoff.hpp] *)

Inductive CertifiedCommandTransition : Type := kRetain | kCommitCommand | kInvalidate.

Definition commandMayBeRetainedAcrossWaypointHandoff (command : NavigationCommand)
    (terminal_successor : bool) : bool :=
  (nc_status command =? STATUS_READY)
  || (terminal_successor && (nc_status command =? STATUS_COMPLETED) && (nc_role command =? ROLE_MAIN)).

Definition transitionCertifiedCommand (current candidate : option NavigationCommand)
    (transition : CertifiedCommandTransition) : option NavigationCommand :=
  match transition with
  | kRetain => current
  | kCommitCommand => candidate
  | kInvalidate => None
  end.

(** ** [mission_command_identity.hpp]; [uint32] sums wrap. *)

Definition u32_succ (x : Z) : Z := (x + 1) mod 2 ^ 32.

Definition missionCommandIdentityMatches (command : NavigationCommand) (mission_id : string)
    (active_waypoint_index active_request_id : Z) (mission_terminal : bool)
    (last_completed_waypoint_index last_completed_request_id : Z) : bool :=
  if negb mission_terminal then
    commandMissionIdentityMatches command mission_id active_waypoint_index active_request_id
  else
    (nc_mission_id command ==? mission_id)
    && (nc_waypoint_index command =? last_completed_waypoint_index)
    && (nc_request_id command =? last_completed_request_id).

Definition priorSafetySuffixCommandIdentityMatches (command : NavigationCommand)
    (mission_id : string)
    (active_waypoint_index active_request_id suffix_waypoint_index suffix_request_id : Z) : bool :=
  (nc_mission_id command ==? mission_id)
  && (nc_waypoint_index command =? suffix_waypoint_index)
  && (nc_request_id command =? suffix_request_id)
  && (u32_succ suffix_waypoint_index =? active_waypoint_index)
  && (suffix_request_id <? active_request_id)
  && (nc_role command =? ROLE_BACKUP)
  && ((nc_status command =? STATUS_READY) || (nc_status command =? STATUS_COMPLETED)).

Definition priorPassThroughCommandIdentityMatches (command : NavigationCommand)
    (mission_id : string) (active_waypoint_index active_request_id : Z)
    (previous_waypoint_is_pass_through terminal_successor : bool) : bool :=
  previous_waypoint_is_pass_through && (0 <? active_waypoint_index)
  && (nc_mission_id command ==? mission_id)
  && (u32_succ (nc_waypoint_index command) =? active_waypoint_index)
  && (nc_request_id command <? active_request_id) && negb (nc_request_id command =? 0)
  && ((nc_role command =? ROLE_MAIN) || (nc_role command =? ROLE_BACKUP))
  && ((nc_status command =? STATUS_READY)
      || (terminal_successor && (nc_role command =? ROLE_MAIN)
          && (nc_status command =? STATUS_COMPLETED))).

(** ** [planner_recovery.hpp] *)

Definition checkedTimestampAdd (base_ns delta_ns : Z) : option Z :=
  if ((0 <? delta_ns) && (i64_max - delta_ns <? base_ns))
     || ((delta_ns <? 0) && (base_ns <? i64_min - delta_ns)) then None
  else Some (base_ns + delta_ns).

Definition plannerRecoveryWaitExpired (pending : bool) (now_ns deadline_ns : Z) : bool :=
  pending && (0 <? deadline_ns) && (deadline_ns <=? now_ns).

Definition terminalRecoveryCommandMayBeHeld (completed_command pending : bool)
    (now_ns deadline_ns : Z) : bool :=
  completed_command && pending && (0 <? now_ns) && (0 <? deadline_ns) && (now_ns <? deadline_ns).

Definition backupEndpointHoldIsAnchored
    (command_inside_acceptance measured_finite command_finite : bool)
    (measured_command_error_m max_anchor_error_m : f64) : bool :=
  command_inside_acceptance && measured_finite && command_finite
  && isfinite measured_command_error_m && isfinite max_anchor_error_m
  && fgt max_anchor_error_m fzero && fle measured_command_error_m max_anchor_error_m.
