(* ===== verification/TrackingGuard.v ===== *)
(** * Geometric guards of the adapter

    [px4/px4_navigation_external_mode]: [tracking_envelope.hpp],
    [local_frame_alignment.hpp], [navigation_input_validation.hpp],
    [frame_transform_contract.hpp]; [contracts/navigation_contracts]:
    [tracking_experiment.hpp] (the policy and its assessment; loading it from
    node parameters is not modelled); and
    [common/navigation_common/.../frame_conventions.hpp]. *)

From S2P Require Import Prelude Float64 Float64Facts Geometry CommandContract.

(** ** [frame_conventions.hpp] *)

Abbreviation f0 := (f64_of_Z 0).
Abbreviation f1 := (f64_of_Z 1).
Abbreviation fm1 := (f64_of_Z (-1)).

Definition c_enu_ned : mat3 := Mat3 (Vec3 f0 f1 f0) (Vec3 f1 f0 f0) (Vec3 f0 f0 fm1).
Definition c_flu_frd : mat3 := Mat3 (Vec3 f1 f0 f0) (Vec3 f0 fm1 f0) (Vec3 f0 f0 fm1).

(** ** [TrackingExperimentPolicy] *)

Record TrackingExperimentPolicy : Type := mkTrackingExperimentPolicy {
  tx_enabled : bool;
  tx_suppress_braking : bool;
  tx_suppress_estimator_health_response : bool;
  tx_base_m : f64;
  tx_lateral_alpha_s : f64;
  tx_longitudinal_beta_s : f64;
  tx_velocity_only_enabled : bool;
  tx_velocity_only_gain_s_inv : f64;
  tx_velocity_only_cap_mps : f64;
  tx_velocity_only_max_acceleration_mps2 : f64;
  tx_velocity_only_max_jerk_mps3 : f64;
  tx_velocity_only_max_timing_bound_s : f64;
  tx_velocity_only_max_reference_age_s : f64;
  tx_velocity_only_output_transport_bound_s : f64;
  tx_velocity_only_px4_consume_bound_s : f64
}.

(** The experiment switched off, as the default members have it. *)
Definition tracking_experiment_off : TrackingExperimentPolicy :=
  mkTrackingExperimentPolicy false false false fzero fzero fzero false fzero fzero fzero fzero
    fzero fzero fzero fzero.

Definition trackingGateEnabled (p : TrackingExperimentPolicy) : bool :=
  fgt (tx_base_m p) fzero || fgt (tx_lateral_alpha_s p) fzero || fgt (tx_longitudinal_beta_s p) fzero.

Definition finite_nonnegative (x : f64) : bool := isfinite x && fge x fzero.
Definition finite_positive (x : f64) : bool := isfinite x && fgt x fzero.

Definition TrackingExperimentPolicy_valid (p : TrackingExperimentPolicy) : bool :=
  finite_nonnegative (tx_base_m p) && finite_nonnegative (tx_lateral_alpha_s p)
  && finite_nonnegative (tx_longitudinal_beta_s p)
  && (negb (tx_suppress_braking p) || tx_enabled p)
  && (negb (tx_suppress_estimator_health_response p) || tx_enabled p)
  && (negb (tx_velocity_only_enabled p)
      || (finite_positive (tx_velocity_only_gain_s_inv p)
          && finite_positive (tx_velocity_only_cap_mps p)
          && finite_positive (tx_velocity_only_max_acceleration_mps2 p)
          && finite_positive (tx_velocity_only_max_jerk_mps3 p)
          && finite_positive (tx_velocity_only_max_timing_bound_s p)
          && finite_positive (tx_velocity_only_max_reference_age_s p)
          && finite_nonnegative (tx_velocity_only_output_transport_bound_s p)
          && finite_nonnegative (tx_velocity_only_px4_consume_bound_s p))).

Record AdaptiveTrackingAssessment : Type := mkAdaptive {
  at_valid : bool;
  at_within_limits : bool;
  at_speed_mps : f64;
  at_lateral_error_m : f64;
  at_longitudinal_error_m : f64;
  at_lateral_limit_m : f64;
  at_longitudinal_limit_m : f64
}.

Definition adaptive_default : AdaptiveTrackingAssessment :=
  mkAdaptive false false fzero fzero fzero fzero fzero.

Section Guards.
Context {E : EigenOps} {M : EigenMatOps} {L : LibmOps}.

Definition enuToNed (value_enu : vec3) : vec3 := m_mulv c_enu_ned value_enu.
Definition nedToEnu (value_ned : vec3) : vec3 := m_mulv c_enu_ned value_ned.
Definition fluToFrd (value_flu : vec3) : vec3 := m_mulv c_flu_frd value_flu.
Definition frdToFlu (value_frd : vec3) : vec3 := m_mulv c_flu_frd value_frd.

(** ** [navigation_input_validation.hpp] *)

Definition floatRepresentable (value : f64) : bool := isfinite value && fle (fabs value) f32_max.

(** [1.0e-12] *)
Definition kQuaternionEpsilon : f64 := f64_lit 1 1000000000000.

Definition isNormalizableOdometryQuaternion (q : quat) : bool :=
  let squared_norm := q_squaredNorm q in
  q_allFinite q && isfinite squared_norm && fgt squared_norm kQuaternionEpsilon.

(** ** [local_frame_alignment.hpp] *)

(** [atan2(2 (w z + x y), 1 - 2 (y y + z z))] *)
Definition yaw_of (q : quat) : f64 :=
  let two := f64_of_Z 2 in
  std_atan2
    (f64_mul two (f64_add (f64_mul (qw q) (qz q)) (f64_mul (qx q) (qy q))))
    (f64_sub f1 (f64_mul two (f64_add (f64_mul (qy q) (qy q)) (f64_mul (qz q) (qz q))))).

Definition yawFromQuaternionEnu (q : quat) : option f64 :=
  if negb (q_allFinite q) || negb (isfinite (q_squaredNorm q))
     || fle (q_squaredNorm q) kQuaternionEpsilon then None
  else
    let yaw := yaw_of (q_normalized q) in
    if negb (isfinite yaw) then None else Some yaw.

Definition yawResidualLioToPx4 (lio_yaw_enu px4_heading_ned : f64) : option f64 :=
  if negb (isfinite lio_yaw_enu) || negb (isfinite px4_heading_ned) then None
  else
    let px4_yaw_enu := f64_sub (f64_mul (f64_lit 1 2) f64_pi) px4_heading_ned in
    let residual := f64_remainder (f64_sub lio_yaw_enu px4_yaw_enu) (f64_mul (f64_of_Z 2) f64_pi) in
    if negb (isfinite residual) then None else Some residual.

(** [(v.cwiseAbs().array() > limit).any()] *)
Definition any_abs_above (v : vec3) (limit : f64) : bool :=
  fgt (fabs (vx v)) limit || fgt (fabs (vy v)) limit || fgt (fabs (vz v)) limit.

Definition checkedEnuToNed (value_enu : vec3) : option vec3f :=
  if negb (v_allFinite value_enu) then None
  else
    let value_ned := enuToNed value_enu in
    if negb (v_allFinite value_ned) || any_abs_above value_ned f32_max then None
    else Some (vec3f_of_vec3 value_ned).

Definition localNedTranslationFromStationaryPair (lio_position_enu px4_position_ned : vec3)
    : option vec3 :=
  if negb (v_allFinite lio_position_enu) || negb (v_allFinite px4_position_ned) then None
  else
    let translation := v_sub px4_position_ned (enuToNed lio_position_enu) in
    if negb (v_allFinite translation) then None else Some translation.

Definition lioPositionToLocalNed (lio_position_enu translation_ned : vec3) : option vec3 :=
  if negb (v_allFinite lio_position_enu) || negb (v_allFinite translation_ned) then None
  else
    let position_ned := v_add (enuToNed lio_position_enu) translation_ned in
    if negb (v_allFinite position_ned) then None else Some position_ned.

(** ** [tracking_envelope.hpp] *)

Definition stableVectorNorm (v : vec3) : f64 := std_hypot (std_hypot (vx v) (vy v)) (vz v).

Record TrackingEnvelopeResult : Type := mkEnvelope {
  te_support_valid : bool;
  te_valid : bool;
  te_longitudinal_error_m : f64;
  te_reverse_error_m : f64;
  te_lateral_error_m : f64;
  te_longitudinal_limit_m : f64;
  te_reverse_limit_m : f64;
  te_lateral_limit_m : f64
}.

Definition envelope_default : TrackingEnvelopeResult :=
  mkEnvelope false false fzero fzero fzero fzero fzero fzero.

Definition evaluateTrackingEnvelope
    (measured_position command_position command_velocity : vec3)
    (geometric_limit_m phase_window_s : f64) : TrackingEnvelopeResult :=
  if negb (v_allFinite measured_position) || negb (v_allFinite command_position)
     || negb (v_allFinite command_velocity) || negb (isfinite geometric_limit_m)
     || fle geometric_limit_m fzero || negb (isfinite phase_window_s)
     || flt phase_window_s fzero then envelope_default
  else
    let error := v_sub command_position measured_position in
    if negb (v_allFinite error) then envelope_default
    else
      let speed := stableVectorNorm command_velocity in
      if negb (isfinite speed) then envelope_default
      else
        let g := geometric_limit_m in
        if fle speed (f64_lit 1 1000) then
          let longitudinal := stableVectorNorm error in
          if negb (isfinite longitudinal) then
            mkEnvelope false false longitudinal fzero fzero g g g
          else mkEnvelope true (fle longitudinal g) longitudinal fzero fzero g g g
        else
          let limit := f64_add g (f64_mul speed phase_window_s) in
          if negb (isfinite limit) then mkEnvelope false false fzero fzero fzero limit limit g
          else
            let tangent := v_div command_velocity speed in
            let along := v_dot error tangent in
            if negb (isfinite along) then mkEnvelope false false fzero fzero fzero limit limit g
            else
              let longitudinal := fmax fzero along in
              let lateral := stableVectorNorm (v_sub error (v_scale along tangent)) in
              let reverse := fmax fzero (fopp along) in
              if negb (isfinite lateral) || negb (isfinite reverse) then
                mkEnvelope false false longitudinal reverse lateral limit limit g
              else
                mkEnvelope true (fle longitudinal limit && fle reverse limit && fle lateral g)
                  longitudinal reverse lateral limit limit g.

(** ** [assessAdaptiveTracking] *)

Definition trackingVectorNorm (v : vec3) : f64 := std_hypot (std_hypot (vx v) (vy v)) (vz v).

Definition assessAdaptiveTracking (policy : TrackingExperimentPolicy)
    (measured_position measured_velocity reference_position reference_velocity : vec3)
    : AdaptiveTrackingAssessment :=
  if negb (TrackingExperimentPolicy_valid policy) || negb (v_allFinite measured_position)
     || negb (v_allFinite measured_velocity) || negb (v_allFinite reference_position)
     || negb (v_allFinite reference_velocity) then adaptive_default
  else
    let error := v_sub measured_position reference_position in
    let measured_speed := trackingVectorNorm measured_velocity in
    let reference_speed := trackingVectorNorm reference_velocity in
    let speed := fmax measured_speed reference_speed in
    let lateral_limit := f64_add (tx_base_m policy) (f64_mul (tx_lateral_alpha_s policy) speed) in
    let longitudinal_limit :=
      f64_add (tx_base_m policy) (f64_mul (tx_longitudinal_beta_s policy) speed) in
    if negb (v_allFinite error) || negb (isfinite speed) || negb (isfinite lateral_limit)
       || negb (isfinite longitudinal_limit) then
      mkAdaptive false false speed fzero fzero lateral_limit longitudinal_limit
    else
      let '(lateral, longitudinal) :=
        if fle speed (f64_lit 1 1000000) then
          let e := trackingVectorNorm error in (e, e)
        else
          let tangent :=
            if fgt reference_speed (f64_lit 1 1000000)
            then v_div reference_velocity reference_speed
            else v_div measured_velocity measured_speed in
          let along := v_dot error tangent in
          (trackingVectorNorm (v_sub error (v_scale along tangent)), fabs along) in
      let valid := isfinite lateral && isfinite longitudinal in
      mkAdaptive valid (valid && fle lateral lateral_limit && fle longitudinal longitudinal_limit)
        speed lateral longitudinal lateral_limit longitudinal_limit.

Definition experimentPermitsTracking (p : TrackingExperimentPolicy) (r : AdaptiveTrackingAssessment)
    : bool :=
  tx_enabled p && at_valid r && (at_within_limits r || tx_suppress_braking p).
End Guards.

(** ** [frame_transform_contract.hpp] *)

Inductive FrameTransformDecision : Type :=
| kUnavailable
| kApplied
| kRecertifyRequired
| kDegradeToL1.

#[export] Instance FrameTransformDecision_eq_dec : EqDecision FrameTransformDecision.
Proof. solve_decision. Defined.

Record FrameTransformConfig : Type := mkFrameTransformConfig {
  ftc_tau_s : f64;
  ftc_horizon_s : f64;
  ftc_frame_budget_m : f64
}.

Definition FrameTransformConfig_valid (c : FrameTransformConfig) : bool :=
  isfinite (ftc_tau_s c) && isfinite (ftc_horizon_s c) && isfinite (ftc_frame_budget_m c)
  && fge (ftc_tau_s c) (f64_of_Z 10) && fgt (ftc_horizon_s c) fzero
  && fgt (ftc_frame_budget_m c) fzero.

Record FrameTransformObservation : Type := mkFrameTransformObservation {
  fto_source_stamp_ns : Z;
  fto_bias_m : vec3;
  fto_bias_var_m2 : vec3;
  fto_innov_test_ratio : vec3;
  fto_yaw_align : bool;
  fto_heading_reset_counter : Z
}.

Record FrameTransformResult : Type := mkFrameTransformResult {
  ftr_decision : FrameTransformDecision;
  ftr_applied_bias_m : option vec3;
  ftr_raw_applied_pressure_m : f64;
  ftr_applied_rate_mps : f64;
  ftr_version : Z
}.

Record FrameTransformContract : Type := mkFrameTransformContract {
  ft_config : FrameTransformConfig;
  ft_applied_bias_m : option vec3;
  ft_previous_bias_var_m2 : option vec3;
  ft_last_source_stamp_ns : Z;
  ft_last_applied_source_stamp_ns : Z;
  ft_heading_reset_counter : option Z;
  ft_degraded : bool;
  ft_version : Z
}.

Definition frame_transform_new (config : FrameTransformConfig) : FrameTransformContract :=
  mkFrameTransformContract config None None 0 0 None false 0.

(** [reset] leaves [last_applied_source_stamp_ns_]. *)
Definition frame_transform_reset (f : FrameTransformContract) : FrameTransformContract :=
  mkFrameTransformContract (ft_config f) None None 0 (ft_last_applied_source_stamp_ns f) None false 0.

Definition kVarianceEpsilon : f64 := f64_lit 1 1000000000000.

(** [v.maxCoeff()] of three finite coefficients. *)
Definition v_maxCoeff (v : vec3) : f64 := fmax (fmax (vx v) (vy v)) (vz v).

Section FrameTransform.
Context {E : EigenOps}.

Definition validPayload (o : FrameTransformObservation) : bool :=
  v_allFinite (fto_bias_m o) && v_allFinite (fto_bias_var_m2 o)
  && v_allFinite (fto_innov_test_ratio o)
  && v_all_ge (fto_bias_var_m2 o) (vec3_constant fzero)
  && v_all_ge (fto_innov_test_ratio o) (vec3_constant fzero).

Definition anyInnovationRejected (test_ratio : vec3) : bool :=
  fge (vx test_ratio) f1 || fge (vy test_ratio) f1 || fge (vz test_ratio) f1.

Definition ft_set_stamp (f : FrameTransformContract) (stamp : Z) : FrameTransformContract :=
  mkFrameTransformContract (ft_config f) (ft_applied_bias_m f) (ft_previous_bias_var_m2 f) stamp
    (ft_last_applied_source_stamp_ns f) (ft_heading_reset_counter f) (ft_degraded f) (ft_version f).

Definition ft_set_degraded (f : FrameTransformContract) : FrameTransformContract :=
  mkFrameTransformContract (ft_config f) (ft_applied_bias_m f) (ft_previous_bias_var_m2 f)
    (ft_last_source_stamp_ns f) (ft_last_applied_source_stamp_ns f) (ft_heading_reset_counter f)
    true (ft_version f).

(** The applied state after an accepted observation. *)
Definition ft_apply (f : FrameTransformContract) (o : FrameTransformObservation) (bias : vec3)
    : FrameTransformContract :=
  mkFrameTransformContract (ft_config f) (Some bias) (Some (fto_bias_var_m2 o))
    (ft_last_source_stamp_ns f) (fto_source_stamp_ns o) (Some (fto_heading_reset_counter o))
    (ft_degraded f) (u64_inc (ft_version f)).

(** [FrameTransformContract::observe] *)
Definition observe (f : FrameTransformContract) (o : FrameTransformObservation)
    : FrameTransformResult * FrameTransformContract :=
  let config := ft_config f in
  let result decision pressure rate :=
    mkFrameTransformResult decision (ft_applied_bias_m f) pressure rate (ft_version f) in
  if negb (FrameTransformConfig_valid config) || (fto_source_stamp_ns o <=? 0)
     || ((0 <? ft_last_source_stamp_ns f) && (fto_source_stamp_ns o <=? ft_last_source_stamp_ns f)) then
    (result kUnavailable fzero fzero, f)
  else
    let f := ft_set_stamp f (fto_source_stamp_ns o) in
    if negb (validPayload o) then (result kUnavailable fzero fzero, f)
    else if ft_degraded f || negb (fto_yaw_align o) then
      (result kDegradeToL1 fzero fzero, ft_set_degraded f)
    else if match ft_heading_reset_counter f with
            | Some c => negb (c =? fto_heading_reset_counter o)
            | None => false
            end then (result kDegradeToL1 fzero fzero, ft_set_degraded f)
    else if anyInnovationRejected (fto_innov_test_ratio o) then
      (result kRecertifyRequired fzero fzero, f)
    else if match ft_previous_bias_var_m2 f with
            | Some v => fgt (v_maxCoeff v) kVarianceEpsilon
                        && fle (v_maxCoeff (fto_bias_var_m2 o)) kVarianceEpsilon
            | None => false
            end then (result kRecertifyRequired fzero fzero, f)
    else
      match ft_applied_bias_m f with
      | None =>
          let f := ft_apply f o (fto_bias_m o) in
          (mkFrameTransformResult kApplied (ft_applied_bias_m f) fzero fzero (ft_version f), f)
      | Some applied =>
          let pressure := v_norm (v_sub (fto_bias_m o) applied) in
          if negb (isfinite pressure) || fgt pressure (ftc_frame_budget_m config) then
            (result kRecertifyRequired pressure fzero, f)
          else
            let dt_s := f64_mul (f64_of_Z (fto_source_stamp_ns o - ft_last_applied_source_stamp_ns f))
                                (f64_lit 1 1000000000) in
            if negb (isfinite dt_s) || fle dt_s fzero then (result kUnavailable pressure fzero, f)
            else
              let alpha := f64_div dt_s (f64_add (ftc_tau_s config) dt_s) in
              let delta := v_scale alpha (v_sub (fto_bias_m o) applied) in
              let rate_mps := f64_div (v_norm delta) dt_s in
              if negb (isfinite alpha) || negb (isfinite rate_mps)
                 || fgt (f64_mul rate_mps (ftc_horizon_s config)) (ftc_frame_budget_m config) then
                (result kRecertifyRequired pressure rate_mps, f)
              else
                let f := ft_apply f o (v_add applied delta) in
                (mkFrameTransformResult kApplied (ft_applied_bias_m f) pressure rate_mps (ft_version f), f)
      end.
End FrameTransform.
