(* ===== verification/VelocityOnly.v ===== *)
(** * The velocity-only boundary of the adapter

    [px4/px4_navigation_external_mode]: [px4_tracking_adapter.hpp] (the pure
    adaptation of a planner reference to PX4's frame, [adapt]) and
    [velocity_only_continuity.hpp] (the limiter [limit], which moves the velocity
    command inside the velocity, acceleration and jerk caps). *)

From S2P Require Import Prelude Float64 Float64Facts Geometry CommandContract TrackingGuard.

(** ** [px4_tracking_adapter.hpp]: data *)

Inductive AdapterMode : Type := mode_kOff | mode_kShadow | mode_kLevelA.

#[export] Instance AdapterMode_eq_dec : EqDecision AdapterMode.
Proof. solve_decision. Defined.

Inductive SetpointBoundary : Type := kPositionVelocityAcceleration | kVelocityOnly.

#[export] Instance SetpointBoundary_eq_dec : EqDecision SetpointBoundary.
Proof. solve_decision. Defined.

Inductive FailureReason : Type :=
| failure_kNone
| failure_kPolicyDisabled
| failure_kInvalidPolicy
| failure_kInvalidReference
| failure_kInvalidLioState
| failure_kInvalidPx4State
| failure_kInvalidTiming
| failure_kResetMismatch
| failure_kUnsupportedFrame
| failure_kRelativeHeadingInvalid
| failure_kDeadReckoning
| failure_kNonFiniteOutput.

#[export] Instance FailureReason_eq_dec : EqDecision FailureReason.
Proof. solve_decision. Defined.

(** [ReferenceFrame] has the one enumerator [kLioEnu]. *)
Inductive ReferenceFrame : Type := kLioEnu.

Inductive CommandRole : Type := role_kMain | role_kBackup | role_kEmergency | role_kPositionHold.

#[export] Instance CommandRole_eq_dec : EqDecision CommandRole.
Proof. solve_decision. Defined.

Record AdapterIdentity : Type := mkAdapterIdentity {
  ad_localization_epoch : Z;
  ad_mission_id : string;
  ad_waypoint_index : Z;
  ad_goal_epoch : Z;
  ad_request_id : Z;
  ad_bundle_generation : Z;
  ad_sample_id : Z;
  ad_role : CommandRole;
  ad_reference_sample_time_ns : Z;
  ad_lease_valid_until_ns : Z
}.

Record AdapterReference : Type := mkAdapterReference {
  rf_frame : ReferenceFrame;
  rf_identity : AdapterIdentity;
  rf_position_enu : vec3;
  rf_velocity_enu : vec3;
  rf_acceleration_enu : vec3;
  rf_yaw_enu : f64;
  rf_yaw_rate_enu_rad_s : f64
}.

Record LioState : Type := mkLioState {
  lio_position_enu : vec3;
  lio_velocity_enu : vec3;
  lio_yaw_enu : f64;
  lio_position_valid : bool;
  lio_velocity_valid : bool;
  lio_orientation_valid : bool;
  lio_navigation_valid : bool;
  lio_covariance_valid : bool;
  lio_observability_valid : bool;
  lio_correction_fresh : bool;
  lio_propagation_valid : bool;
  lio_relative_heading_valid : bool;
  lio_tilt_valid : bool;
  lio_extrinsic_valid : bool;
  lio_localization_epoch : Z;
  lio_sequence : Z;
  lio_source_stamp_ns : Z;
  lio_receive_steady_ns : Z
}.

Record ResetCounters : Type := mkResetCounters {
  rc_xy : Z;
  rc_z : Z;
  rc_vxy : Z;
  rc_vz : Z;
  rc_heading : Z
}.

#[export] Instance ResetCounters_eq_dec : EqDecision ResetCounters.
Proof. solve_decision. Defined.

Definition reset_counters_zero : ResetCounters := mkResetCounters 0 0 0 0 0.

Record RawPx4State : Type := mkRawPx4State {
  px_position_ned : vec3;
  px_velocity_ned : vec3;
  px_yaw_ned : f64;
  px_position_valid : bool * bool * bool;
  px_velocity_valid : bool * bool * bool;
  px_heading_valid : bool;
  px_heading_good_for_control : bool;
  px_dead_reckoning : bool;
  px_heading_variance_rad2 : f64;
  px_timestamp_us : Z;
  px_timestamp_sample_us : Z;
  px_receive_steady_ns : Z;
  px_reset_counters : ResetCounters
}.

Definition all_axes (v : bool * bool * bool) : bool := let '(x, y, z) := v in x && y && z.

Definition kConservativeBoundModelV1 : Z := 1.

Record TimingWitness : Type := mkTimingWitness {
  tw_reference_sample_id : Z;
  tw_lio_localization_epoch : Z;
  tw_lio_sequence : Z;
  tw_px4_timestamp_us : Z;
  tw_px4_timestamp_sample_us : Z;
  tw_clock_mapping_generation : Z;
  tw_conservative_bound_model : Z;
  tw_common_time_contract_valid : bool;
  tw_clock_mapping_uncertainty_s : f64;
  tw_expected_reference_use_time_ns : Z;
  tw_reference_age_s : f64;
  tw_pair_skew_s : f64;
  tw_lio_source_age_s : f64;
  tw_lio_receive_age_s : f64;
  tw_px4_source_age_s : f64;
  tw_px4_receive_age_s : f64;
  tw_predicted_anchor_age_s : f64;
  tw_output_transport_age_s : f64;
  tw_px4_consume_age_s : f64;
  tw_total_bound_s : f64
}.

Record AdapterPolicy : Type := mkAdapterPolicy {
  ap_mode : AdapterMode;
  ap_boundary : SetpointBoundary;
  ap_experiment_id : string;
  ap_velocity_lambda : f64;
  ap_lio_position_feedback_gain_s_inv : f64;
  ap_maximum_velocity_mps : option f64;
  ap_maximum_timing_bound_s : option f64;
  ap_maximum_reference_age_s : option f64;
  ap_expected_px4_reset_counters : option ResetCounters;
  ap_expected_lio_localization_epoch : option Z;
  ap_reject_dead_reckoning : bool
}.

Record AdapterWitness : Type := mkAdapterWitness {
  wt_identity : AdapterIdentity;
  wt_experiment_id : string;
  wt_rotation_lio_enu_to_px4_ned : mat3;
  wt_error_lio_enu : vec3;
  wt_error_adapter_ned : vec3;
  wt_velocity_command_lio_enu : vec3;
  wt_velocity_limited : bool;
  wt_px4_reset_counters : ResetCounters;
  wt_timing : TimingWitness;
  wt_mode : AdapterMode;
  wt_boundary : SetpointBoundary
}.

Record AdaptedReference : Type := mkAdaptedReference {
  ar_position_ned : vec3;
  ar_velocity_ned : vec3;
  ar_acceleration_ned : vec3;
  ar_yaw_ned : f64;
  ar_yaw_rate_ned_rad_s : f64;
  ar_witness : AdapterWitness
}.

(** [Result]: an output without failure, or a failure without output. *)
Definition adapter_result : Type := (AdaptedReference + FailureReason)%type.

Definition success (r : adapter_result) : bool :=
  match r with inl _ => true | inr _ => false end.

Section Adapter.
Context {E : EigenOps} {N : EigenNormOps} {M : EigenMatOps} {L : LibmOps}.

Definition two_pi : f64 := f64_mul (f64_of_Z 2) f64_pi.

Definition wrapPi (angle : f64) : f64 :=
  if negb (isfinite angle) then fnan else f64_remainder angle two_pi.

Definition validIdentity (i : AdapterIdentity) : bool :=
  (0 <? ad_localization_epoch i) && negb (string_empty (ad_mission_id i)) && (0 <? ad_goal_epoch i)
  && (0 <? ad_request_id i) && (0 <? ad_bundle_generation i) && (0 <? ad_sample_id i)
  && (0 <? ad_reference_sample_time_ns i)
  && (ad_reference_sample_time_ns i <=? ad_lease_valid_until_ns i).

Definition validTiming (t : TimingWitness) : bool :=
  (0 <? tw_reference_sample_id t) && (0 <? tw_lio_localization_epoch t) && (0 <? tw_lio_sequence t)
  && (0 <? tw_px4_timestamp_us t) && (0 <? tw_px4_timestamp_sample_us t)
  && (0 <? tw_clock_mapping_generation t)
  && (tw_conservative_bound_model t =? kConservativeBoundModelV1)
  && tw_common_time_contract_valid t && (0 <? tw_expected_reference_use_time_ns t)
  && finite_nonnegative (tw_clock_mapping_uncertainty_s t)
  && finite_nonnegative (tw_reference_age_s t) && finite_nonnegative (tw_pair_skew_s t)
  && finite_nonnegative (tw_lio_source_age_s t) && finite_nonnegative (tw_lio_receive_age_s t)
  && finite_nonnegative (tw_px4_source_age_s t) && finite_nonnegative (tw_px4_receive_age_s t)
  && finite_nonnegative (tw_predicted_anchor_age_s t)
  && finite_nonnegative (tw_output_transport_age_s t)
  && finite_nonnegative (tw_px4_consume_age_s t) && finite_nonnegative (tw_total_bound_s t).

Definition validTimingSnapshotTuple (t : TimingWitness) (r : AdapterReference) (l : LioState)
    (p : RawPx4State) : bool :=
  (tw_reference_sample_id t =? ad_sample_id (rf_identity r))
  && (tw_lio_localization_epoch t =? lio_localization_epoch l)
  && (tw_lio_sequence t =? lio_sequence l)
  && (tw_px4_timestamp_us t =? px_timestamp_us p)
  && (tw_px4_timestamp_sample_us t =? px_timestamp_sample_us p).

Definition nano_s : f64 := f64_lit 1 1000000000.

Definition referenceAgeMatchesSampleAndEvaluation (t : TimingWitness) (r : AdapterReference) : bool :=
  let sample := ad_reference_sample_time_ns (rf_identity r) in
  if tw_expected_reference_use_time_ns t <? sample then false
  else
    let computed_age_s :=
      f64_mul (f64_of_Z (tw_expected_reference_use_time_ns t - sample)) nano_s in
    isfinite computed_age_s
    && fle (fabs (f64_sub computed_age_s (tw_reference_age_s t))) nano_s.

(** [std::max] of an initializer list: the first of the largest. *)
Definition max_list (x : f64) (rest : list f64) : f64 := foldl fmax x rest.

Definition conservativeTimingBoundV1 (t : TimingWitness) : f64 :=
  let overlapping_age :=
    max_list (tw_reference_age_s t)
      [tw_pair_skew_s t; tw_lio_source_age_s t; tw_lio_receive_age_s t; tw_px4_source_age_s t;
       tw_px4_receive_age_s t; tw_predicted_anchor_age_s t] in
  f64_add (f64_add (f64_add (tw_clock_mapping_uncertainty_s t) overlapping_age)
             (tw_output_transport_age_s t)) (tw_px4_consume_age_s t).

Definition basisEnuToNed : mat3 := c_enu_ned.

Definition yawRotation (yaw : f64) : mat3 :=
  let c := std_cos yaw in
  let s := std_sin yaw in
  Mat3 (Vec3 c (fopp s) f0) (Vec3 s c f0) (Vec3 f0 f0 f1).

Definition kEpsilon12 : f64 := f64_lit 1 1000000000000.

Definition option_all {A} (f : A -> bool) (o : option A) : bool :=
  match o with Some a => f a | None => true end.

Definition validPolicy (p : AdapterPolicy) : bool :=
  if negb (ap_mode p ==? mode_kShadow) && negb (ap_mode p ==? mode_kLevelA) then false
  else if string_empty (ap_experiment_id p) || negb (isfinite (ap_velocity_lambda p))
          || fgt (fabs (ap_velocity_lambda p)) kEpsilon12 then false
  else if (match ap_boundary p with
           | kVelocityOnly =>
               negb (finite_positive (ap_lio_position_feedback_gain_s_inv p))
               || negb (match ap_maximum_velocity_mps p with
                        | Some v => finite_positive v
                        | None => false
                        end)
           | kPositionVelocityAcceleration =>
               negb (isfinite (ap_lio_position_feedback_gain_s_inv p))
               || fne (ap_lio_position_feedback_gain_s_inv p) fzero
               || negb (option_all finite_positive (ap_maximum_velocity_mps p))
           end) then false
  else if negb (option_all finite_nonnegative (ap_maximum_timing_bound_s p)) then false
  else if negb (option_all finite_nonnegative (ap_maximum_reference_age_s p)) then false
  else
    negb ((ap_mode p ==? mode_kLevelA)
          && (negb (has (ap_maximum_timing_bound_s p)) || negb (has (ap_maximum_reference_age_s p))
              || negb (has (ap_expected_px4_reset_counters p)))).

(** ** [adapt]: the guards *)

Definition reference_ok (r : AdapterReference) : bool :=
  validIdentity (rf_identity r) && v_allFinite (rf_position_enu r)
  && v_allFinite (rf_velocity_enu r) && v_allFinite (rf_acceleration_enu r)
  && isfinite (rf_yaw_enu r) && isfinite (rf_yaw_rate_enu_rad_s r).

Definition lio_state_ok (l : LioState) (r : AdapterReference) (p : AdapterPolicy) : bool :=
  v_allFinite (lio_position_enu l) && v_allFinite (lio_velocity_enu l) && isfinite (lio_yaw_enu l)
  && lio_position_valid l && lio_velocity_valid l && lio_orientation_valid l
  && lio_navigation_valid l && lio_covariance_valid l && lio_observability_valid l
  && lio_correction_fresh l && lio_propagation_valid l
  && negb (lio_localization_epoch l =? 0) && negb (lio_sequence l =? 0)
  && (0 <? lio_source_stamp_ns l) && (0 <? lio_receive_steady_ns l)
  && (lio_localization_epoch l =? ad_localization_epoch (rf_identity r))
  && option_all (fun e => lio_localization_epoch l =? e) (ap_expected_lio_localization_epoch p).

Definition px4_state_ok (p : RawPx4State) (position_boundary : bool) : bool :=
  (negb position_boundary || (v_allFinite (px_position_ned p) && all_axes (px_position_valid p)))
  && v_allFinite (px_velocity_ned p) && isfinite (px_yaw_ned p) && all_axes (px_velocity_valid p)
  && px_heading_valid p && px_heading_good_for_control p
  && isfinite (px_heading_variance_rad2 p) && negb (flt (px_heading_variance_rad2 p) fzero)
  && negb (px_timestamp_us p =? 0) && negb (px_timestamp_sample_us p =? 0)
  && (0 <? px_receive_steady_ns p).

(** The guards of [adapt], in order; [None] when all pass. *)
Definition adapt_guard (r : AdapterReference) (l : LioState) (px : RawPx4State) (t : TimingWitness)
    (p : AdapterPolicy) : option FailureReason :=
  if ap_mode p ==? mode_kOff then Some failure_kPolicyDisabled
  else if negb (validPolicy p) then Some failure_kInvalidPolicy
  else if negb (reference_ok r) then Some failure_kInvalidReference
  else if negb (lio_state_ok l r p) then Some failure_kInvalidLioState
  else if negb (px4_state_ok px (ap_boundary p ==? kPositionVelocityAcceleration)) then
    Some failure_kInvalidPx4State
  else if ap_reject_dead_reckoning p && px_dead_reckoning px then Some failure_kDeadReckoning
  else if negb (lio_relative_heading_valid l) || negb (lio_tilt_valid l)
          || negb (lio_extrinsic_valid l) then Some failure_kRelativeHeadingInvalid
  else if negb (validTiming t) then Some failure_kInvalidTiming
  else if negb (validTimingSnapshotTuple t r l px)
          || negb (referenceAgeMatchesSampleAndEvaluation t r)
          || flt (f64_add (tw_total_bound_s t) kEpsilon12) (conservativeTimingBoundV1 t) then
    Some failure_kInvalidTiming
  else if negb (option_all (fun m => negb (fgt (tw_reference_age_s t) m))
                  (ap_maximum_reference_age_s p)) then Some failure_kInvalidTiming
  else if negb (option_all (fun m => negb (fgt (tw_total_bound_s t) m))
                  (ap_maximum_timing_bound_s p)) then Some failure_kInvalidTiming
  else if negb (option_all (fun c => px_reset_counters px ==? c)
                  (ap_expected_px4_reset_counters p)) then Some failure_kResetMismatch
  else if ad_lease_valid_until_ns (rf_identity r) <? tw_expected_reference_use_time_ns t then
    Some failure_kInvalidReference
  else if px_timestamp_us px <? px_timestamp_sample_us px then Some failure_kInvalidPx4State
  else None.

(** The velocity command in the LIO frame, with the speed cap of the
    velocity-only boundary; [None] when its speed is not finite. *)
Definition adapted_velocity (r : AdapterReference) (p : AdapterPolicy) (error_lio : vec3)
    : option (vec3 * bool) :=
  match ap_boundary p with
  | kPositionVelocityAcceleration => Some (rf_velocity_enu r, false)
  | kVelocityOnly =>
      let command :=
        v_add (rf_velocity_enu r) (v_scale (ap_lio_position_feedback_gain_s_inv p) error_lio) in
      let speed := v_norm command in
      if negb (isfinite speed) then None
      else
        match ap_maximum_velocity_mps p with
        | Some cap =>
            if fgt speed cap then Some (v_scale (f64_div cap speed) command, true)
            else Some (command, false)
        | None => Some (command, false) (* excluded by [validPolicy] *)
        end
  end.

(** [adapt] *)
Definition adapt (r : AdapterReference) (l : LioState) (px : RawPx4State) (t : TimingWitness)
    (p : AdapterPolicy) : adapter_result :=
  match adapt_guard r l px t p with
  | Some failure => inr failure
  | None =>
      let px4_yaw_enu := wrapPi (f64_sub (f64_div f64_pi (f64_of_Z 2)) (px_yaw_ned px)) in
      let delta := wrapPi (f64_sub px4_yaw_enu (lio_yaw_enu l)) in
      let rotation := m_mul basisEnuToNed (yawRotation delta) in
      let error_lio := v_sub (rf_position_enu r) (lio_position_enu l) in
      match adapted_velocity r p error_lio with
      | None => inr failure_kNonFiniteOutput
      | Some (velocity_command_lio, velocity_limited) =>
          let velocity_only := ap_boundary p ==? kVelocityOnly in
          let nan3 := vec3_constant fnan in
          let position :=
            if velocity_only then nan3 else v_add (px_position_ned px) (m_mulv rotation error_lio) in
          let acceleration := if velocity_only then nan3 else m_mulv rotation (rf_acceleration_enu r) in
          let velocity := m_mulv rotation velocity_command_lio in
          let yaw := wrapPi (f64_sub (px_yaw_ned px) (wrapPi (f64_sub (rf_yaw_enu r) (lio_yaw_enu l)))) in
          let yaw_rate := fopp (rf_yaw_rate_enu_rad_s r) in
          if (negb velocity_only && (negb (v_allFinite position) || negb (v_allFinite acceleration)))
             || negb (v_allFinite velocity) || negb (isfinite yaw) || negb (isfinite yaw_rate) then
            inr failure_kNonFiniteOutput
          else
            inl (mkAdaptedReference position velocity acceleration yaw yaw_rate
                   (mkAdapterWitness (rf_identity r) (ap_experiment_id p) rotation error_lio
                      (if velocity_only then nan3 else v_sub position (px_position_ned px))
                      velocity_command_lio velocity_limited (px_reset_counters px) t
                      (ap_mode p) (ap_boundary p)))
      end
  end.
End Adapter.

(** ** [velocity_only_continuity.hpp]: data *)

Inductive ContinuityRole : Type := continuity_kMain | continuity_kBackup | continuity_kEmergency.

#[export] Instance ContinuityRole_eq_dec : EqDecision ContinuityRole.
Proof. solve_decision. Defined.

Record ContinuityIdentity : Type := mkContinuityIdentity {
  ci_mission_id : string;
  ci_waypoint_index : Z;
  ci_request_id : Z;
  ci_bundle_generation : Z;
  ci_role : ContinuityRole
}.

Record ContinuityPolicy : Type := mkContinuityPolicy {
  cp_maximum_velocity_mps : f64;
  cp_maximum_acceleration_mps2 : f64;
  cp_maximum_jerk_mps3 : f64
}.

Record Previous : Type := mkPrevious {
  pv_identity : ContinuityIdentity;
  pv_velocity_enu : vec3;
  pv_acceleration_enu : vec3;
  pv_stamp_ns : Z
}.

Inductive ContinuityFailure : Type :=
| limit_kNone
| limit_kInvalidPolicy
| limit_kInvalidInput
| limit_kNonPositiveDelta
| limit_kIdentityBoundary
| limit_kAccelerationLimit
| limit_kJerkLimit
| limit_kVelocityLimit
| limit_kVelocityViabilityLimit.

#[export] Instance ContinuityFailure_eq_dec : EqDecision ContinuityFailure.
Proof. solve_decision. Defined.

Definition failureName (failure : ContinuityFailure) : string :=
  match failure with
  | limit_kNone => "none"
  | limit_kInvalidPolicy => "invalid_policy"
  | limit_kInvalidInput => "invalid_input"
  | limit_kNonPositiveDelta => "non_positive_delta"
  | limit_kIdentityBoundary => "identity_boundary"
  | limit_kAccelerationLimit => "acceleration_limit"
  | limit_kJerkLimit => "jerk_limit"
  | limit_kVelocityLimit => "velocity_limit"
  | limit_kVelocityViabilityLimit => "velocity_viability_limit"
  end.

Record ContinuityResult : Type := mkContinuityResult {
  cr_velocity_enu : vec3;
  cr_acceleration_enu : vec3;
  cr_requested_velocity_enu : vec3;
  cr_previous_velocity_enu : vec3;
  cr_previous_acceleration_enu : vec3;
  cr_delta_s : f64;
  cr_velocity_residual_mps : f64;
  cr_velocity_viability_residual_mps : f64;
  cr_radial_acceleration_residual_mps2 : f64;
  cr_acceleration_residual_mps2 : f64;
  cr_jerk_residual_mps3 : f64;
  cr_projection_iterations : Z;
  cr_projection_converged : bool;
  cr_braking_recovery : bool;
  cr_limited : bool;
  cr_failure : ContinuityFailure
}.

Definition limit_success (r : ContinuityResult) : bool := cr_failure r ==? limit_kNone.

Definition ContinuityPolicy_valid (p : ContinuityPolicy) : bool :=
  finite_positive (cp_maximum_velocity_mps p) && finite_positive (cp_maximum_acceleration_mps2 p)
  && finite_positive (cp_maximum_jerk_mps3 p).

Definition ContinuityIdentity_valid (i : ContinuityIdentity) : bool :=
  negb (string_empty (ci_mission_id i)) && (0 <? ci_request_id i) && (0 <? ci_bundle_generation i).

Definition role_continuity (previous current : ContinuityRole) : bool :=
  match previous, current with
  | continuity_kMain, continuity_kMain => true
  | continuity_kMain, continuity_kBackup => true
  | continuity_kBackup, continuity_kBackup => true
  | _, continuity_kEmergency => true
  | _, _ => false
  end.

Definition sameContinuityOwner (previous current : ContinuityIdentity) : bool :=
  if (ci_mission_id previous !=? ci_mission_id current)
     || (ci_bundle_generation current <? ci_bundle_generation previous) then false
  else if negb (role_continuity (ci_role previous) (ci_role current)) then false
  else
    let same_waypoint :=
      (ci_waypoint_index previous =? ci_waypoint_index current)
      && (ci_request_id previous <=? ci_request_id current) in
    let authorized_next_waypoint :=
      (ci_waypoint_index previous <? u32_max)
      && (ci_waypoint_index current =? u32_succ (ci_waypoint_index previous))
      && (ci_request_id previous <? ci_request_id current) in
    (same_waypoint || authorized_next_waypoint) && (0 <? ci_request_id current).

(** [-v] *)
Definition v_neg (v : vec3) : vec3 := Vec3 (fopp (vx v)) (fopp (vy v)) (fopp (vz v)).

Definition unit_x : vec3 := Vec3 f1 f0 f0.

(** [1.0e-10] and [1.0e-13] *)
Definition kProjectionNumericalTolerance : f64 := f64_lit 1 10000000000.
Definition kConvergence : f64 := f64_lit 1 10000000000000.

(** The bound of the projection loop. *)
Definition kMaximumProjectionIterations : Z := 4096.

Section Limit.
Context {E : EigenOps} {N : EigenNormOps}.

(** [projectToBall] *)
Definition projectToBall (value center : vec3) (radius : f64) : vec3 :=
  let offset := v_sub value center in
  let norm := v_norm offset in
  if negb (isfinite norm) || fle norm radius then value
  else v_add center (v_scale (f64_div radius norm) offset).

(** The quantities of one call that the projection reads. *)
Record projection : Type := mkProjection {
  pj_policy : ContinuityPolicy;
  pj_previous : Previous;
  pj_dt_s : f64;
  pj_jerk_radius : f64;
  pj_velocity_center : vec3;
  pj_velocity_radius : f64;
  pj_viability_direction : vec3;
  pj_viability_center : vec3;
  pj_viability_radius : f64
}.

(** The iterate and the four Dykstra corrections. *)
Record iterate : Type := mkIterate {
  it_acceleration : vec3;
  it_acceleration_correction : vec3;
  it_jerk_correction : vec3;
  it_velocity_correction : vec3;
  it_viability_correction : vec3
}.

(** One projection with its correction: the new point and correction. *)
Definition project_step (point correction center : vec3) (radius : f64) : vec3 * vec3 :=
  let shifted := v_add point correction in
  let projected := projectToBall shifted center radius in
  (projected, v_sub shifted projected).

Definition project_iteration (j : projection) (s : iterate) : iterate :=
  let '(a, ca) := project_step (it_acceleration s) (it_acceleration_correction s) vec3_zero
                    (cp_maximum_acceleration_mps2 (pj_policy j)) in
  let '(a, cj) := project_step a (it_jerk_correction s) (pv_acceleration_enu (pj_previous j))
                    (pj_jerk_radius j) in
  let '(a, cv) := project_step a (it_velocity_correction s) (pj_velocity_center j)
                    (pj_velocity_radius j) in
  let '(a, cw) := project_step a (it_viability_correction s) (pj_viability_center j)
                    (pj_viability_radius j) in
  mkIterate a ca cj cv cw.

Definition above (x bound : f64) : f64 := fmax fzero (f64_sub x bound).

(** [v + (2 a - d r) dt]: the velocity after one more step of maximal radial
    braking. *)
Definition next_velocity (j : projection) (a : vec3) : vec3 :=
  v_add (pv_velocity_enu (pj_previous j))
    (v_scale (pj_dt_s j)
       (v_sub (v_scale (f64_of_Z 2) a) (v_scale (pj_jerk_radius j) (pj_viability_direction j)))).

Definition converged (j : projection) (a : vec3) : bool :=
  let v_max := cp_maximum_velocity_mps (pj_policy j) in
  let acceleration_error := above (v_norm a) (cp_maximum_acceleration_mps2 (pj_policy j)) in
  let jerk_error :=
    above (v_norm (v_sub a (pv_acceleration_enu (pj_previous j)))) (pj_jerk_radius j) in
  let velocity_error :=
    above (v_norm (v_add (pv_velocity_enu (pj_previous j)) (v_scale (pj_dt_s j) a))) v_max in
  let viability_error := above (v_norm (next_velocity j a)) v_max in
  fle (max_list acceleration_error [jerk_error; velocity_error; viability_error]) kConvergence.

(** The loop: the last iterate, the number of iterations, whether it converged. *)
Fixpoint project_loop (turns : nat) (iterations : Z) (j : projection) (s : iterate)
    : vec3 * Z * bool :=
  match turns with
  | O => (it_acceleration s, iterations, false)
  | S turns =>
      let s := project_iteration j s in
      if converged j (it_acceleration s) then (it_acceleration s, iterations + 1, true)
      else project_loop turns (iterations + 1) j s
  end.

(** [v.norm() > limit] *)
Definition norm_above (v : vec3) (limit : f64) : bool := fgt (v_norm v) limit.

Definition jerk_of (a : vec3) (previous : Previous) (dt_s : f64) : f64 :=
  f64_div (v_norm (v_sub a (pv_acceleration_enu previous))) dt_s.

Definition integrated (previous : Previous) (a : vec3) (dt_s : f64) : vec3 :=
  v_add (pv_velocity_enu previous) (v_scale dt_s a).

(** The braking step tried when the projection does not converge. *)
Definition braking_candidate (policy : ContinuityPolicy) (previous : Previous)
    (dt_s jerk_radius : f64) (radial_direction : vec3) : vec3 :=
  let braking := v_sub (pv_acceleration_enu previous) (v_scale jerk_radius radial_direction) in
  if norm_above braking (f64_add (cp_maximum_acceleration_mps2 policy) kProjectionNumericalTolerance)
     || fgt (jerk_of braking previous dt_s)
          (f64_add (cp_maximum_jerk_mps3 policy) kProjectionNumericalTolerance) then
    let norm := v_norm (pv_acceleration_enu previous) in
    if fgt norm kEpsilon12 then
      v_div (v_scale (fmax fzero (f64_sub norm jerk_radius)) (pv_acceleration_enu previous)) norm
    else braking
  else braking.

Definition braking_step_valid (policy : ContinuityPolicy) (previous : Previous) (dt_s : f64)
    (braking : vec3) : bool :=
  let velocity := integrated previous braking dt_s in
  v_allFinite braking && v_allFinite velocity
  && fle (v_norm braking) (f64_add (cp_maximum_acceleration_mps2 policy) kProjectionNumericalTolerance)
  && fle (jerk_of braking previous dt_s)
       (f64_add (cp_maximum_jerk_mps3 policy) kProjectionNumericalTolerance)
  && fle (v_norm velocity) (f64_add (cp_maximum_velocity_mps policy) kProjectionNumericalTolerance).

(** A result that carries a failure and the fields set so far. *)
Definition failed (requested : vec3) (velocity previous_velocity previous_acceleration : vec3)
    (delta_s : f64) (failure : ContinuityFailure) : ContinuityResult :=
  mkContinuityResult velocity vec3_zero requested previous_velocity previous_acceleration delta_s
    fzero fzero fzero fzero fzero 0 false false false failure.

(** The final checks of [limit], in order. *)
Definition final_failure (policy : ContinuityPolicy) (previous : Previous) (dt_s : f64)
    (velocity acceleration : vec3) (braking_recovery : bool) (viability_residual : f64)
    : ContinuityFailure :=
  if norm_above velocity (f64_add (cp_maximum_velocity_mps policy) kEpsilon12) then
    limit_kVelocityLimit
  else if norm_above acceleration
            (f64_add (cp_maximum_acceleration_mps2 policy) kProjectionNumericalTolerance) then
    limit_kAccelerationLimit
  else if fgt (jerk_of acceleration previous dt_s)
            (f64_add (cp_maximum_jerk_mps3 policy) kProjectionNumericalTolerance) then
    limit_kJerkLimit
  else if negb braking_recovery && fgt viability_residual kProjectionNumericalTolerance then
    limit_kVelocityViabilityLimit
  else if negb (v_allFinite velocity) || negb (v_allFinite acceleration) then limit_kInvalidInput
  else limit_kNone.

(** From the requested acceleration on (lines 204-366). *)
Definition limit_step (policy : ContinuityPolicy) (previous : Previous) (dt_s : f64)
    (desired requested_acceleration : vec3) : ContinuityResult :=
  let v_prev := pv_velocity_enu previous in
  let jerk_radius := f64_mul (cp_maximum_jerk_mps3 policy) dt_s in
  let velocity_center := v_div (v_neg v_prev) dt_s in
  let velocity_radius := f64_div (cp_maximum_velocity_mps policy) dt_s in
  let pick v := if fle (v_norm v) kEpsilon12 then None else Some v in
  let viability_direction :=
    let d := match pick v_prev with Some v => v | None => requested_acceleration end in
    match pick d with Some v => v_normalized v | None => unit_x end in
  let viability_center :=
    v_add (v_div (v_neg v_prev) (f64_mul (f64_of_Z 2) dt_s))
          (v_scale (f64_mul (f64_lit 1 2) jerk_radius) viability_direction) in
  let viability_radius := f64_mul (f64_lit 1 2) velocity_radius in
  let radial_direction :=
    let d := match pick v_prev with Some v => v | None => requested_acceleration end in
    v_normalized (match pick d with Some v => v | None => unit_x end) in
  let speed_headroom := fmax fzero (f64_sub (cp_maximum_velocity_mps policy) (v_norm v_prev)) in
  let envelope :=
    fmax fzero
      (f64_add (fopp jerk_radius)
         (f64_sqrt (f64_add (f64_mul jerk_radius jerk_radius)
                      (f64_mul (f64_mul (f64_of_Z 2) (cp_maximum_jerk_mps3 policy)) speed_headroom)))) in
  let requested_norm := v_norm requested_acceleration in
  let shaped :=
    if isfinite requested_norm && fgt requested_norm envelope && fgt requested_norm kEpsilon12
    then v_scale (f64_div envelope requested_norm) requested_acceleration
    else requested_acceleration in
  let j := mkProjection policy previous dt_s jerk_radius velocity_center velocity_radius
             viability_direction viability_center viability_radius in
  let '(acceleration, iterations, ok) :=
    project_loop (Z.to_nat kMaximumProjectionIterations) 0 j
      (mkIterate shaped vec3_zero vec3_zero vec3_zero vec3_zero) in
  let braking := braking_candidate policy previous dt_s jerk_radius radial_direction in
  if negb ok && negb (braking_step_valid policy previous dt_s braking) then
    mkContinuityResult (integrated previous acceleration dt_s) acceleration desired v_prev
      (pv_acceleration_enu previous) dt_s fzero fzero fzero fzero
      (above (jerk_of acceleration previous dt_s) (cp_maximum_jerk_mps3 policy))
      iterations ok false false limit_kJerkLimit
  else
    let acceleration := if ok then acceleration else braking in
    let velocity := integrated previous acceleration dt_s in
    let viability_residual :=
      above (v_norm (next_velocity j acceleration)) (cp_maximum_velocity_mps policy) in
    mkContinuityResult velocity acceleration desired v_prev (pv_acceleration_enu previous) dt_s
      (above (v_norm velocity) (cp_maximum_velocity_mps policy))
      viability_residual
      (fmax fzero (f64_sub (v_dot acceleration radial_direction) envelope))
      (above (v_norm acceleration) (cp_maximum_acceleration_mps2 policy))
      (above (jerk_of acceleration previous dt_s) (cp_maximum_jerk_mps3 policy))
      iterations ok (negb ok)
      (norm_above (v_sub acceleration requested_acceleration) kEpsilon12)
      (final_failure policy previous dt_s velocity acceleration (negb ok) viability_residual).

(** [limit] *)
Definition limit (desired : vec3) (now_ns : Z) (identity : ContinuityIdentity)
    (policy : ContinuityPolicy) (previous : option Previous) : ContinuityResult :=
  let fail velocity := failed desired velocity vec3_zero vec3_zero fzero in
  if negb (ContinuityPolicy_valid policy) then fail vec3_zero limit_kInvalidPolicy
  else if negb (ContinuityIdentity_valid identity) || negb (v_allFinite desired)
          || (now_ns <=? 0) then fail vec3_zero limit_kInvalidInput
  else
    let velocity_cap := f64_add (cp_maximum_velocity_mps policy) kEpsilon12 in
    if norm_above desired velocity_cap then fail vec3_zero limit_kVelocityLimit
    else
      match previous with
      | None => failed desired desired vec3_zero vec3_zero fzero limit_kNone
      | Some previous =>
          if negb (ContinuityIdentity_valid (pv_identity previous))
             || negb (v_allFinite (pv_velocity_enu previous))
             || negb (v_allFinite (pv_acceleration_enu previous)) || (pv_stamp_ns previous <=? 0) then
            fail desired limit_kInvalidInput
          else
            let stop dt :=
              failed desired desired (pv_velocity_enu previous) (pv_acceleration_enu previous) dt in
            if negb (sameContinuityOwner (pv_identity previous) identity) then
              stop fzero limit_kIdentityBoundary
            else if norm_above (pv_velocity_enu previous) velocity_cap then
              stop fzero limit_kVelocityLimit
            else if norm_above (pv_acceleration_enu previous)
                      (f64_add (cp_maximum_acceleration_mps2 policy) kEpsilon12) then
              stop fzero limit_kAccelerationLimit
            else if now_ns <=? pv_stamp_ns previous then stop fzero limit_kNonPositiveDelta
            else
              let dt_s := f64_mul (f64_of_Z (now_ns - pv_stamp_ns previous)) nano_s in
              if negb (isfinite dt_s) || fle dt_s fzero || fgt dt_s f1 then
                stop fzero limit_kNonPositiveDelta
              else
                let requested := v_div (v_sub desired (pv_velocity_enu previous)) dt_s in
                if negb (v_allFinite requested) then stop dt_s limit_kInvalidInput
                else limit_step policy previous dt_s desired requested
      end.
End Limit.
