(* ===== verification/AdapterProps.v ===== *)
(** * Theorems on the adapter's guards

    The freshness window is exact on nanosecond stamps; what [adapt] accepts; what
    the velocity limiter promises; the frame transform contract. *)

From S2P Require Import Prelude Float64 Float64Facts TimeNs Geometry CommandContract TrackingGuard VelocityOnly.

(** ** The freshness window *)

(** [0.20] seconds, the bound the adapter's constructor insists on. *)
Definition state_age_bound_s : f64 := f64_lit 1 5.
Definition state_age_bound_ns : Z := 200000000.

Definition state_age_bound_f80 : f80 :=
  f80_mul (f80_of_f64 state_age_bound_s) (f80_of_Z 1000000000).

(** The bound in long doubles lies between two consecutive integers. *)
Lemma state_age_bound_units :
  f80_valid state_age_bound_f80 = true /\ isfinite state_age_bound_f80 = true
  /\ state_age_bound_ns * f80_scale <= SF_units prec80 emax80 state_age_bound_f80
     < (state_age_bound_ns + 1) * f80_scale.
Proof. vm_compute. repeat split; intros; discriminate. Qed.

(** Comparison of an integer with a number between two consecutive integers. *)
Lemma f80_gt_between x y a lo :
  f80_valid x = true -> f80_valid y = true -> isfinite x = true -> isfinite y = true ->
  SF_units prec80 emax80 x = a * f80_scale ->
  lo * f80_scale <= SF_units prec80 emax80 y < (lo + 1) * f80_scale ->
  fgt x y = (lo <? a) /\ flt x (fopp y) = (a <? - lo).
Proof.
  intros Hx Hy Fx Fy Ex Ey. pose proof f80_scale_pos as Hs.
  assert (Fo : isfinite (fopp y) = true) by (by destruct y).
  unfold fgt. rewrite !(SF_ltb_units prec80 emax80)
    by (assumption || (by apply f80_valid_opp) || by apply isfinite_not_nan).
  rewrite SF_units_opp, Ex. generalize dependent f80_scale. intros k _ Ey Hs.
  generalize dependent (SF_units prec80 emax80 y). intros u [Hl Hh].
  split.
  - destruct (lo <? a) eqn:C; breflect; [apply Z.ltb_lt|apply Z.ltb_ge]; nia.
  - destruct (a <? - lo) eqn:C; breflect; [apply Z.ltb_lt|apply Z.ltb_ge]; nia.
Qed.

Lemma f80_lt_zero x a :
  f80_valid x = true -> isfinite x = true -> SF_units prec80 emax80 x = a * f80_scale ->
  flt x fzero = (a <? 0).
Proof. intros Hx Fx Ex. by apply f80_ltb_Z. Qed.

Lemma i64_ages a b :
  is_i64 a -> is_i64 b -> Z.abs a < 2 ^ 64 /\ Z.abs b < 2 ^ 64 /\ Z.abs (a - b) < 2 ^ 64.
Proof. unfold is_i64, i64_min, i64_max. lia. Qed.

(** Case analysis on the integer comparisons of the goal. *)
Ltac zcompare :=
  repeat match goal with
  | |- context [?a <=? ?b] => destruct (Z.leb_spec a b); try lia
  | |- context [?a <? ?b] => destruct (Z.ltb_spec a b); try lia
  end.

(** With positive stamps the test compares the two ages. *)
Lemma freshness_ages now source steady receive :
  is_i64 now -> is_i64 source -> is_i64 steady -> is_i64 receive ->
  0 < now -> 0 < source -> 0 < steady -> 0 < receive ->
  freshness_valid
    (evaluateExecutionStateFreshness now source steady receive state_age_bound_s)
  = (Z.abs (now - source) <=? state_age_bound_ns)
    && (receive <=? steady) && (steady - receive <=? state_age_bound_ns).
Proof.
  intros Hn Hso Hst Hr P1 P2 P3 P4. unfold evaluateExecutionStateFreshness.
  rewrite !(proj2 (Z.leb_gt _ 0)) by lia.
  change (negb (isfinite state_age_bound_s)) with (negb (isfinite (f64_lit 1 5))).
  replace (fle state_age_bound_s fzero) with false by (vm_compute; reflexivity).
  replace (fgt state_age_bound_s maximum_age_limit_s) with false by (vm_compute; reflexivity).
  replace (isfinite (f64_lit 1 5)) with true by (vm_compute; reflexivity).
  simpl orb. cbv iota zeta. fold state_age_bound_f80.
  destruct state_age_bound_units as (Hv & Hf & Hu).
  destruct (i64_ages now source) as (A1 & A2 & A3); [done..|].
  destruct (f80_sub_Z now source A1 A2 A3) as (Vs & Fs & Us).
  destruct (i64_ages steady receive) as (B1 & B2 & B3); [done..|].
  destruct (f80_sub_Z steady receive B1 B2 B3) as (Vr & Fr & Ur).
  destruct (f80_gt_between _ _ _ _ Vs Hv Fs Hf Us Hu) as [-> ->].
  destruct (f80_gt_between _ _ _ _ Vr Hv Fr Hf Ur Hu) as [-> _].
  rewrite (f80_lt_zero _ _ Vr Fr Ur). unfold freshness_valid. simpl esf_reason.
  generalize state_age_bound_ns. intros b. zcompare; reflexivity.
Qed.

(** On 64-bit nanosecond stamps the freshness test of the adapter, which the code
    evaluates in long double arithmetic against 0.20 s, is exactly the integer window:
    positive stamps, a source age of at most 200 ms either way, and a receive age
    between 0 and 200 ms. *)
Theorem freshness_window_exact now source steady receive :
  is_i64 now -> is_i64 source -> is_i64 steady -> is_i64 receive ->
  freshness_valid
    (evaluateExecutionStateFreshness now source steady receive state_age_bound_s)
  = (0 <? now) && (0 <? source) && (0 <? steady) && (0 <? receive)
    && (Z.abs (now - source) <=? state_age_bound_ns)
    && (receive <=? steady) && (steady - receive <=? state_age_bound_ns).
Proof.
  intros Hn Hso Hst Hr.
  destruct (decide (0 < now /\ 0 < source /\ 0 < steady /\ 0 < receive)) as [(P1 & P2 & P3 & P4)|Hz].
  { rewrite freshness_ages by done. by rewrite !(proj2 (Z.ltb_lt 0 _)). }
  unfold evaluateExecutionStateFreshness. cbv zeta.
  replace (negb (isfinite state_age_bound_s)) with false by (vm_compute; reflexivity).
  replace (fle state_age_bound_s fzero) with false by (vm_compute; reflexivity).
  replace (fgt state_age_bound_s maximum_age_limit_s) with false by (vm_compute; reflexivity).
  destruct (Z.leb_spec now 0), (Z.leb_spec steady 0), (Z.leb_spec source 0), (Z.leb_spec receive 0);
    try lia; simpl; zcompare; reflexivity.
Qed.

Lemma freshness_window_exact_witness :
  freshness_valid
    (evaluateExecutionStateFreshness 1000000000 900000000 1000000000 800000000 state_age_bound_s)
  = true.
Proof.
  rewrite (freshness_window_exact 1000000000 900000000 1000000000 800000000);
    [reflexivity|unfold is_i64, i64_min, i64_max; lia..].
Defined.

(** ** The velocity limiter *)

Section Limiter.
Context {E : EigenOps} {N : EigenNormOps}.

(** A step from [p] to [velocity] through [acceleration] respects the caps. *)
Record step_bounded (policy : ContinuityPolicy) (p : Previous) (now_ns : Z)
    (identity : ContinuityIdentity) (velocity acceleration : vec3) : Prop := {
  sb_owner : sameContinuityOwner (pv_identity p) identity = true;
  sb_time : pv_stamp_ns p < now_ns;
  sb_integrated :
    velocity = integrated p acceleration (f64_mul (f64_of_Z (now_ns - pv_stamp_ns p)) nano_s);
  sb_acceleration :
    norm_above acceleration
      (f64_add (cp_maximum_acceleration_mps2 policy) kProjectionNumericalTolerance) = false;
  sb_jerk :
    fgt (jerk_of acceleration p (f64_mul (f64_of_Z (now_ns - pv_stamp_ns p)) nano_s))
      (f64_add (cp_maximum_jerk_mps3 policy) kProjectionNumericalTolerance) = false;
  sb_finite : v_allFinite velocity = true /\ v_allFinite acceleration = true
}.

Lemma final_failure_none policy p dt v a recovery residual :
  final_failure policy p dt v a recovery residual = limit_kNone ->
  norm_above v (f64_add (cp_maximum_velocity_mps policy) kEpsilon12) = false
  /\ norm_above a (f64_add (cp_maximum_acceleration_mps2 policy) kProjectionNumericalTolerance) = false
  /\ fgt (jerk_of a p dt) (f64_add (cp_maximum_jerk_mps3 policy) kProjectionNumericalTolerance) = false
  /\ v_allFinite v = true /\ v_allFinite a = true.
Proof.
  unfold final_failure.
  destruct (norm_above v _) eqn:Hv; [done|]. destruct (norm_above a _) eqn:Ha; [done|].
  destruct (fgt (jerk_of _ _ _) _) eqn:Hj; [done|].
  destruct (_ && fgt residual _); [done|].
  destruct (v_allFinite v), (v_allFinite a); done.
Qed.

Lemma limit_step_none policy p dt desired requested :
  let r := limit_step policy p dt desired requested in
  cr_failure r = limit_kNone ->
  cr_velocity_enu r = integrated p (cr_acceleration_enu r) dt
  /\ exists recovery residual,
       final_failure policy p dt (cr_velocity_enu r) (cr_acceleration_enu r) recovery residual
       = limit_kNone.
Proof.
  unfold limit_step. cbv zeta.
  match goal with |- context [project_loop ?n ?i ?j ?s] =>
    destruct (project_loop n i j s) as [[a k] ok] end.
  destruct (negb ok && _) eqn:Hfail; simpl; [done|]. intros Hf. split; [done|]. by do 2 eexists.
Qed.

(** C34. A successful step of the velocity limiter stays inside the caps: the speed
    is not above the cap, and after a previous output of the same owner the velocity
    is that output integrated over the elapsed time by an acceleration whose norm and
    whose jerk from the previous acceleration are not above their caps (within the
    numerical tolerance), all of it finite; the very first output is the request. *)
Theorem limit_success_bounded desired now_ns identity policy previous :
  let r := limit desired now_ns identity policy previous in
  cr_failure r = limit_kNone ->
  norm_above (cr_velocity_enu r) (f64_add (cp_maximum_velocity_mps policy) kEpsilon12) = false
  /\ match previous with
     | None => cr_velocity_enu r = desired /\ cr_acceleration_enu r = vec3_zero
     | Some p => step_bounded policy p now_ns identity (cr_velocity_enu r) (cr_acceleration_enu r)
     end.
Proof.
  unfold limit. cbv zeta. destruct (negb (ContinuityPolicy_valid policy)); [done|].
  destruct (_ || (now_ns <=? 0)); [done|].
  destruct (norm_above desired _) eqn:Hd; [done|].
  destruct previous as [p|]; [|done].
  destruct (_ || (pv_stamp_ns p <=? 0)); [done|].
  destruct (negb (sameContinuityOwner _ _)) eqn:Ho; [done|]. apply negb_false_iff in Ho.
  destruct (norm_above (pv_velocity_enu p) _); [done|].
  destruct (norm_above (pv_acceleration_enu p) _); [done|].
  destruct (now_ns <=? pv_stamp_ns p) eqn:Ht; [done|]. apply Z.leb_gt in Ht.
  destruct (_ || fgt _ f1); [done|]. destruct (negb (v_allFinite _)); [done|].
  intros [Hi (recovery & residual & Hf)]%limit_step_none.
  apply final_failure_none in Hf as (Hv & Ha & Hj & Hfv & Hfa). split; [done|]. by split.
Qed.
End Limiter.

(** ** The adapter *)

Section Adapt.
Context {E : EigenOps} {N : EigenNormOps} {M : EigenMatOps} {L : LibmOps}.

(** What [adapt] requires of its inputs. *)
Record adapt_inputs_ok (r : AdapterReference) (l : LioState) (px : RawPx4State) (t : TimingWitness)
    (p : AdapterPolicy) : Prop := {
  ai_mode : ap_mode p <> mode_kOff;
  ai_policy : validPolicy p = true;
  ai_reference : reference_ok r = true;
  ai_lio : lio_state_ok l r p = true;
  ai_px4 : px4_state_ok px (ap_boundary p ==? kPositionVelocityAcceleration) = true;
  ai_dead_reckoning : ap_reject_dead_reckoning p = true -> px_dead_reckoning px = false;
  ai_heading : lio_relative_heading_valid l = true /\ lio_tilt_valid l = true;
  ai_tuple : validTimingSnapshotTuple t r l px = true;
  ai_age : referenceAgeMatchesSampleAndEvaluation t r = true;
  ai_bound : flt (f64_add (tw_total_bound_s t) kEpsilon12) (conservativeTimingBoundV1 t) = false;
  ai_maximum_age : forall m, ap_maximum_reference_age_s p = Some m ->
                             fgt (tw_reference_age_s t) m = false;
  ai_maximum_bound : forall m, ap_maximum_timing_bound_s p = Some m ->
                               fgt (tw_total_bound_s t) m = false;
  ai_resets : forall c, ap_expected_px4_reset_counters p = Some c -> px_reset_counters px = c;
  ai_lease : tw_expected_reference_use_time_ns t <= ad_lease_valid_until_ns (rf_identity r);
  ai_sample_time : px_timestamp_sample_us px <= px_timestamp_us px
}.

Lemma adapt_guard_ok r l px t p : adapt_guard r l px t p = None -> adapt_inputs_ok r l px t p.
Proof.
  unfold adapt_guard. intros H.
  repeat match type of H with (if ?b then Some _ else _) = None =>
    destruct b eqn:?; [discriminate H|] end.
  repeat match goal with H : _ || _ = false |- _ => apply orb_false_iff in H as [? ?] end.
  repeat match goal with H : negb _ = false |- _ => apply negb_false_iff in H end.
  split; try done.
  - match goal with H : (ap_mode p ==? mode_kOff) = false |- _ => by apply bool_decide_eq_false in H end.
  - intros Hd. match goal with H : _ && _ = false |- _ => by rewrite Hd in H end.
  - intros m Hm. rewrite Hm in *. by apply negb_true_iff.
  - intros m Hm. rewrite Hm in *. by apply negb_true_iff.
  - intros c Hc. rewrite Hc in *. simpl in *. by breflect.
  - by apply Z.ltb_ge.
  - by apply Z.ltb_ge.
Qed.

(** The adapter produces an output only from inputs that pass every guard (valid
    policy, reference and estimator state of one epoch, a timing witness of exactly
    these samples whose conservative bound is covered and within the policy, the
    expected PX4 reset counters, a live lease, no dead reckoning where it is
    rejected), and then the witness repeats the identity of the reference and the
    commanded velocity and yaw are finite. *)
Theorem adapt_sound r l px t p out :
  adapt r l px t p = inl out ->
  adapt_inputs_ok r l px t p
  /\ wt_identity (ar_witness out) = rf_identity r /\ wt_timing (ar_witness out) = t
  /\ wt_error_lio_enu (ar_witness out) = v_sub (rf_position_enu r) (lio_position_enu l)
  /\ ar_velocity_ned out
     = m_mulv (wt_rotation_lio_enu_to_px4_ned (ar_witness out))
         (wt_velocity_command_lio_enu (ar_witness out))
  /\ v_allFinite (ar_velocity_ned out) = true
  /\ isfinite (ar_yaw_ned out) = true /\ isfinite (ar_yaw_rate_ned_rad_s out) = true.
Proof.
  unfold adapt. destruct (adapt_guard r l px t p) eqn:Hg; [done|]. apply adapt_guard_ok in Hg.
  cbv zeta. destruct (adapted_velocity _ _ _) as [[v limited]|]; [|done].
  destruct (_ || negb (isfinite (fopp _))) eqn:Hfin; [done|]. intros [= <-].
  repeat match goal with H : _ || _ = false |- _ => apply orb_false_iff in H as [? ?] end.
  repeat match goal with H : negb _ = false |- _ => apply negb_false_iff in H end.
  by split_and!.
Qed.
End Adapt.

(** ** The frame transform contract *)

Section FrameTransformProps.
Context {E : EigenOps}.

#[local] Ltac ft_leaf := split_and!; first [done|by left|by right|by intros ?; discriminate].

(** The frame transform contract only moves forward: an observation is either
    ignored, or its stamp is newer than every earlier one; the bias changes exactly
    on [kApplied], which advances the version by one; once degraded it stays degraded
    and applies nothing until [reset]. *)
Theorem frame_transform_forward f o :
  let '(r, f') := observe f o in
  ft_config f' = ft_config f
  /\ (f' = f \/ ft_last_source_stamp_ns f' = fto_source_stamp_ns o
               /\ (0 < ft_last_source_stamp_ns f ->
                   ft_last_source_stamp_ns f < fto_source_stamp_ns o))
  /\ (ftr_decision r = kApplied /\ ft_version f' = u64_inc (ft_version f)
      \/ ftr_decision r <> kApplied /\ ft_version f' = ft_version f
         /\ ft_applied_bias_m f' = ft_applied_bias_m f)
  /\ (ft_degraded f = true -> ft_degraded f' = true /\ ftr_decision r <> kApplied).
Proof.
  unfold observe. cbv zeta.
  destruct (_ || _) eqn:Hg.
  { ft_leaf. }
  assert (Hstamp : 0 < ft_last_source_stamp_ns f ->
                   ft_last_source_stamp_ns f < fto_source_stamp_ns o).
  { apply orb_false_iff in Hg as [_ Hg]. apply andb_false_iff in Hg as [Hg|Hg]; breflect; lia. }
  destruct (negb (validPayload o)); [ft_leaf|].
  cbn [ft_degraded ft_applied_bias_m ft_heading_reset_counter ft_previous_bias_var_m2 ft_config
       ft_last_applied_source_stamp_ns ft_set_stamp ft_version].
  destruct (ft_degraded f) eqn:Hd; cbn [orb]; [ft_leaf|].
  destruct (negb (fto_yaw_align o)); [ft_leaf|].
  destruct (match ft_heading_reset_counter f with Some _ => _ | None => _ end);
    [ft_leaf|].
  destruct (anyInnovationRejected _); [ft_leaf|].
  destruct (match ft_previous_bias_var_m2 f with Some _ => _ | None => _ end);
    [ft_leaf|].
  destruct (ft_applied_bias_m f) as [applied|] eqn:Ha; [|ft_leaf].
  destruct (_ || fgt _ (ftc_frame_budget_m _)); [ft_leaf|].
  destruct (_ || fle _ fzero); [ft_leaf|].
  destruct (_ || fgt _ (ftc_frame_budget_m _)); [ft_leaf|].
  ft_leaf.
Qed.
End FrameTransformProps.

(** ** Witnesses *)

Definition norm_reference : EigenNormOps := {|
  v_normalized v := v_div (EigenOps := eigen_reference) v (v_norm (EigenOps := eigen_reference) v)
|}.

Section Witnesses.
#[local] Existing Instances eigen_reference libm_reference eigen_mat_reference norm_reference.

Definition w_policy : ContinuityPolicy := mkContinuityPolicy (f64_of_Z 3) (f64_of_Z 4) (f64_of_Z 20).
Definition w_identity : ContinuityIdentity := mkContinuityIdentity "mission" 0 1 1 continuity_kMain.
Definition w_previous : Previous := mkPrevious w_identity (Vec3 f1 f0 f0) vec3_zero 1000000000.
Definition w_desired : vec3 := Vec3 (f64_lit 5 4) f0 f0.
Definition w_limited : ContinuityResult :=
  limit w_desired 1050000000 w_identity w_policy (Some w_previous).

Lemma limit_success_bounded_witness :
  step_bounded w_policy w_previous 1050000000 w_identity (cr_velocity_enu w_limited)
    (cr_acceleration_enu w_limited).
Proof.
  apply (limit_success_bounded w_desired 1050000000 w_identity w_policy (Some w_previous)).
  vm_compute. reflexivity.
Defined.

Definition w_adapter_identity : AdapterIdentity :=
  mkAdapterIdentity 7 "mission" 0 1 1 1 10 role_kMain 1000000000 1100000000.
Definition w_reference : AdapterReference :=
  mkAdapterReference kLioEnu w_adapter_identity (Vec3 f1 f1 f1) (Vec3 f1 f0 f0) vec3_zero f0 f0.
Definition w_lio : LioState :=
  mkLioState (Vec3 f1 f0 f1) vec3_zero f0 true true true true true true true true true true true
    7 3 1000000000 1000000000.
Definition w_px4 : RawPx4State :=
  mkRawPx4State vec3_zero vec3_zero f0 (true, true, true) (true, true, true) true true false f0
    1000000 1000000 1000000000 reset_counters_zero.
Definition w_timing : TimingWitness :=
  mkTimingWitness 10 7 3 1000000 1000000 1 1 true f0 1000000000 f0 f0 f0 f0 f0 f0 f0 f0 f0 f0.
Definition w_adapter_policy : AdapterPolicy :=
  mkAdapterPolicy mode_kLevelA kVelocityOnly "w" f0 f1 (Some (f64_of_Z 3)) (Some f1) (Some f1)
    (Some reset_counters_zero) (Some 7) true.

Lemma adapt_sound_witness :
  exists out, adapt w_reference w_lio w_px4 w_timing w_adapter_policy = inl out
              /\ wt_identity (ar_witness out) = w_adapter_identity.
Proof.
  destruct (adapt w_reference w_lio w_px4 w_timing w_adapter_policy) as [out|] eqn:H;
    [|exfalso; revert H; vm_compute; intros; discriminate].
  exists out. split; [reflexivity|].
  exact (proj1 (proj2 (adapt_sound w_reference w_lio w_px4 w_timing w_adapter_policy out H))).
Defined.
End Witnesses.
