(* ===== verification/CriticalSections.v ===== *)
(** * Operations as sequences of critical sections

    An operation of a component whose state is guarded by one mutex is a finite
    sequence of critical sections: each reads the environment (clocks, sensors)
    and the state, computes a value the rest of the operation uses, updates the
    state and publishes effects.  Between two sections other threads may run.
    [prog] is the type of such operations, [system_step] interleaves the
    operations of one thread with the (atomic) inputs of another, and [wp] is a
    rely-guarantee weakest precondition for them, with its adequacy theorem.

    The history of an operation is the list of the sections it has executed, the
    newest first; a guarantee is a property of such histories, so that it can
    relate what a section publishes to what an earlier section of the same
    operation read. *)

From stdpp Require Import relations.
From S2P Require Import Prelude.

Section Programs.
Context {Env St Eff : Type}.

Inductive prog (A : Type) : Type :=
| ret (a : A)
| lock (B : Type) (section : Env -> St -> B * St * list Eff) (k : B -> prog A).

Arguments ret {A} a.
Arguments lock {A B} section k.

Fixpoint bind {A B : Type} (p : prog A) (f : A -> prog B) : prog B :=
  match p with
  | ret a => f a
  | lock section k => lock section (fun b => bind (k b) f)
  end.

(** A section that changes nothing; one that returns nothing; a publication. *)
Definition read {B : Type} (f : Env -> St -> B) : prog B :=
  lock (fun env st => (f env st, st, [])) ret.
Definition update (f : Env -> St -> St) : prog unit :=
  lock (fun env st => (tt, f env st, [])) ret.
Definition publish (f : Env -> list Eff) : prog unit :=
  lock (fun env st => (tt, st, f env)) ret.

(** ** Interleaving *)

Record entry : Type := Entry {
  en_env : Env;
  en_before : St;
  en_effects : list Eff;
  en_after : St
}.

Abbreviation history := (list entry).

Record system : Type := System {
  sy_state : St;
  sy_running : option (prog unit);
  sy_history : history
}.

(** The operation run alone from history [h], its sections reading the given
    environments (the last one repeated): the value, the state, the history. *)
Fixpoint execute {A : Type} (p : prog A) (env : Env) (envs : list Env) (st : St) (h : history)
    : A * St * history :=
  match p with
  | ret a => (a, st, h)
  | lock section k =>
      let '(b, st', effects) := section env st in
      let h := Entry env st effects st' :: h in
      match envs with
      | [] => execute (k b) env [] st' h
      | env :: envs => execute (k b) env envs st' h
      end
  end.

Section Steps.
Variable operations : prog unit -> Prop.
Variable inputs : Env -> St -> St -> Prop.

(** The thread begins an operation, runs its next section, returns; the other
    thread runs one of its operations. *)
Inductive system_step : system -> system -> Prop :=
| system_begin st h p :
    operations p -> system_step (System st None h) (System st (Some p) [])
| system_section st h B (section : Env -> St -> B * St * list Eff) k env b st' effects :
    section env st = (b, st', effects) ->
    system_step (System st (Some (lock section k)) h)
                (System st' (Some (k b)) (Entry env st effects st' :: h))
| system_return st h a :
    system_step (System st (Some (ret a)) h) (System st None h)
| system_input st r h env st' :
    inputs env st st' -> system_step (System st r h) (System st' r h).

Definition system_reachable (initial : St -> Prop) (s : system) : Prop :=
  exists st, initial st /\ rtc system_step (System st None []) s.
End Steps.

(** ** Weakest precondition under interference *)

Section Wp.
Variable inv : St -> Prop.
Variable rely : St -> St -> Prop.
Variable guarantee : history -> Prop.

(** The state a section starts from follows the last one of the history. *)
Definition follows (h : history) (st : St) : Prop :=
  match h with [] => True | e :: _ => rely (en_after e) st end.

Fixpoint wp {A : Type} (p : prog A) (h : history) (Q : A -> history -> Prop) : Prop :=
  match p with
  | ret a => Q a h
  | lock section k =>
      forall env st, inv st -> follows h st ->
        let '(b, st', effects) := section env st in
        let h := Entry env st effects st' :: h in
        inv st' /\ guarantee h /\ wp (k b) h Q
  end.

Lemma wp_mono {A} (p : prog A) h (Q Q' : A -> history -> Prop) :
  wp p h Q -> (forall a h, Q a h -> Q' a h) -> wp p h Q'.
Proof.
  revert h; induction p as [a|B section k IH]; simpl; intros h Hp HQ; [by apply HQ|].
  intros env st Hinv Hf; specialize (Hp env st Hinv Hf).
  destruct (section env st) as [[b st'] effects].
  destruct Hp as (? & ? & Hp); split_and!; [done..|]. by apply IH.
Qed.

Lemma wp_bind {A B} (p : prog A) (f : A -> prog B) h Q :
  wp p h (fun a h => wp (f a) h Q) -> wp (bind p f) h Q.
Proof.
  revert h; induction p as [a|C section k IH]; simpl; intros h Hp; [done|].
  intros env st Hinv Hf; specialize (Hp env st Hinv Hf).
  destruct (section env st) as [[b st'] effects].
  destruct Hp as (? & ? & Hp); split_and!; [done..|]. by apply IH.
Qed.

(** ** Adequacy *)

Context {PO : PreOrder rely}.
Variable operations : prog unit -> Prop.
Variable inputs : Env -> St -> St -> Prop.
Variable initial : St -> Prop.
Hypothesis initial_inv : forall st, initial st -> inv st.
Hypothesis inputs_inv : forall env st st', inputs env st st' -> inv st -> inv st'.
Hypothesis inputs_rely : forall env st st', inputs env st st' -> inv st -> rely st st'.
Hypothesis operations_wp : forall p, operations p -> wp p [] (fun _ _ => True).

(** Every prefix of the operation satisfied the guarantee. *)
Definition guaranteed (h : history) : Prop :=
  forall h1 e h2, h = h1 ++ e :: h2 -> guarantee (e :: h2).

Lemma guaranteed_cons e h : guarantee (e :: h) -> guaranteed h -> guaranteed (e :: h).
Proof. intros He Hh [|e' h1] e2 h2 [= <- ->]; [done|]. by eapply Hh. Qed.

Definition system_ok (s : system) : Prop :=
  inv (sy_state s) /\ guaranteed (sy_history s)
  /\ match sy_running s with
     | Some p => follows (sy_history s) (sy_state s) /\ wp p (sy_history s) (fun _ _ => True)
     | None => True
     end.

Lemma follows_rely h st st' : follows h st -> rely st st' -> follows h st'.
Proof. destruct h as [|e h]; simpl; [done|]. by intros ? ?; etrans. Qed.

Lemma system_step_ok s s' :
  system_step operations inputs s s' -> system_ok s -> system_ok s'.
Proof.
  intros Hstep (Hinv & Hg & Hr).
  inversion Hstep as [st h p Hp|st h B section k env b st' es Hsec|st h a|st r h env st' Hin];
    subst; simpl in *.
  - split_and!; [done|by intros [|? ?]|]. simpl. auto.
  - destruct Hr as [Hf Hwp]. specialize (Hwp env st Hinv Hf). rewrite Hsec in Hwp.
    destruct Hwp as (? & ? & ?). split_and!; [done|by apply guaranteed_cons|].
    split; [simpl; reflexivity|done].
  - done.
  - split_and!; [by eapply inputs_inv|done|].
    destruct r as [p|]; [|done]. destruct Hr. split; [|done].
    eapply follows_rely; [done|]. by eapply inputs_rely.
Qed.

Theorem wp_adequacy s : system_reachable operations inputs initial s -> system_ok s.
Proof.
  intros (st & Hst & Hs). assert (Hok : system_ok (System st None [])).
  { split_and!; [by apply initial_inv|by intros [|? ?]|done]. }
  clear Hst. revert Hok. remember (System st None []) as s0 eqn:E. clear E.
  induction Hs as [|s s1 s2 Hstep Hs IH]; [done|]. intros. apply IH. by eapply system_step_ok.
Qed.
End Wp.

(** ** Runs without interference *)

Section Alone.
Variable operations : prog unit -> Prop.
Variable inputs : Env -> St -> St -> Prop.

(** A run to completion is a run of the system. *)
Lemma execute_steps (p : prog unit) env envs st a st' h h' :
  execute p env envs st h = (a, st', h') ->
  rtc (system_step operations inputs) (System st (Some p) h) (System st' None h').
Proof.
  revert env envs st h; induction p as [a0|B section k IH]; intros env envs st h; simpl.
  { intros [= -> -> <-]. apply rtc_once, system_return. }
  destruct (section env st) as [[b st1] es1] eqn:Hsec. intros Hex.
  eapply rtc_l; [by eapply system_section|]. destruct envs as [|env' envs]; by eapply IH.
Qed.

Lemma execute_reachable initial st h0 (p : prog unit) env envs a st' h :
  system_reachable operations inputs initial (System st None h0) -> operations p ->
  execute p env envs st [] = (a, st', h) ->
  system_reachable operations inputs initial (System st' None h).
Proof.
  intros (st0 & Hst0 & Hs) Hp Hex. exists st0. split; [done|].
  etrans; [exact Hs|]. eapply rtc_l; [by apply system_begin|]. by eapply execute_steps.
Qed.

Lemma input_reachable initial st r h env st' :
  system_reachable operations inputs initial (System st r h) -> inputs env st st' ->
  system_reachable operations inputs initial (System st' r h).
Proof.
  intros (st0 & Hst0 & Hs) Hin. exists st0. split; [done|].
  eapply rtc_r; [exact Hs|]. by eapply system_input.
Qed.
End Alone.
End Programs.

Arguments ret {Env St Eff A} a.
Arguments lock {Env St Eff A B} section k.

Notation "'let!' x ':=' p 'in' q" := (bind p (fun x => q))
  (at level 10, x pattern, p at level 100, q at level 200) : nav_scope.
Notation "p ;; q" := (bind p (fun _ => q)) (at level 100, q at level 200, right associativity) : nav_scope.
