(* ===== verification/NavigationMode.v ===== *)
(** * The PX4 external mode

    [px4/px4_navigation_external_mode/src/navigation_mode_node.cpp]:
    [NavigationMode], the adapter between the planner's command stream and PX4,
    and [NavigationModeExecutor].

    Two threads run it.  The PX4 thread runs the mode callbacks, the command and
    mission subscriptions and the boundary timer: each operation is a [prog], a
    sequence of critical sections of [trajectory_mutex_].  The state-input thread
    runs the odometry, health and local-position callbacks, one critical section
    each.  The state is grouped by who writes it: [ModeThread] (PX4 thread),
    [LioInputs] and [Px4Inputs] (state-input thread), [SharedState] (both).
    Members that only feed logs, metrics and traces are left out. *)

From S2P Require Import Prelude Float64 Float64Facts TimeNs Geometry CommandContract TrackingGuard VelocityOnly Messages CriticalSections.

(** ** Messages and library data *)

(** [nav_msgs/Odometry], the fields the adapter reads. *)
Record Odometry : Type := mkOdometry {
  od_stamp : RosTime;
  od_frame_id : string;
  od_child_frame_id : string;
  od_position : vec3;
  od_orientation : quat;
  od_linear : vec3
}.

Record PropagatedOdometry : Type := mkPropagatedOdometry {
  po_odometry : Odometry;
  po_localization_epoch : Z;
  po_sequence : Z
}.

Definition health_flags_all (f : HealthFlags) : bool :=
  hf_navigation_valid f && hf_covariance_valid f && hf_observability_valid f
  && hf_correction_fresh f && hf_propagation_valid f.

(** [px4_msgs/VehicleLocalPosition], the fields that reach the control state. *)
Record VehicleLocalPosition : Type := mkVehicleLocalPosition {
  vl_timestamp : Z;
  vl_timestamp_sample : Z;
  vl_position : vec3f;
  vl_velocity : vec3f;
  vl_heading : f32;
  vl_heading_var : f32;
  vl_xy_valid : bool;
  vl_z_valid : bool;
  vl_v_xy_valid : bool;
  vl_v_z_valid : bool;
  vl_reset_counters : ResetCounters;
  vl_dead_reckoning : bool;
  vl_heading_good_for_control : bool
}.

Record NavigationMissionProgress : Type := mkMissionProgressMsg {
  mp_stamp : RosTime;
  mp_frame_id : string;
  mp_mission_id : string;
  mp_route_revision : Z;
  mp_localization_epoch : Z;
  mp_mode_activation_id : Z;
  mp_waypoint_index : Z;
  mp_request_id : Z;
  mp_event : Z;
  mp_waypoint_accepted : bool;
  mp_accepted_waypoint_index : Z;
  mp_acceptance_position_error_m : f64;
  mp_acceptance_speed_mps : f64
}.

(** [NavigationModeStatus.reason] and [external_mode_state] *)
Definition REASON_NONE : Z := 0.
Definition REASON_SAFETY_STOP : Z := 1.
Definition REASON_OPERATOR_TAKEOVER : Z := 2.
Definition REASON_ODOMETRY_STALE : Z := 3.
Definition REASON_TRAJECTORY_INVALID : Z := 4.
Definition TRACK_TRAJECTORY : Z := 0.
Definition WAIT_AIRBORNE : Z := 1.
Definition WAIT_HEALTH : Z := 2.
Definition WAIT_FIRST_COMMAND : Z := 3.
Definition COMPLETED_HOLD : Z := 5.
Definition RECOVERY_HOLD : Z := 6.
Definition FAILSAFE_HOLD : Z := 7.
Definition HANDOVER_HOLD : Z := 8.

Record NavigationModeStatus : Type := mkModeStatus {
  ms_stamp_ns : Z;
  ms_frame_id : string;
  ms_mission_id : string;
  ms_waypoint_index : Z;
  ms_request_id : Z;
  ms_activation_id : Z;
  ms_airborne : bool;
  ms_state : Z;
  ms_reason : Z;
  ms_external_mode_state : Z;
  ms_external_mode_reason : string;
  ms_waypoint_accepted : bool;
  ms_accepted_waypoint_index : Z;
  ms_acceptance_position_error_m : f64;
  ms_acceptance_speed_mps : f64
}.

Record NavigationCommandAdmission : Type := mkAdmissionMsg {
  na_stamp_ns : Z;
  na_frame_id : string;
  na_mode_activation_id : Z;
  na_mission_id : string;
  na_localization_epoch : Z;
  na_goal_epoch : Z;
  na_waypoint_index : Z;
  na_request_id : Z;
  na_bundle_generation : Z;
  na_sample_id : Z
}.

(** The command fields copied into the message are those of [nr_command]. *)
Record NavigationCommandRejection : Type := mkRejectionMsg {
  nr_stamp : RosTime;
  nr_frame_id : string;
  nr_callback_steady_ns : Z;
  nr_stage : AdmissionStage;
  nr_reason_code : Z;
  nr_disposition : AdmissionDisposition;
  nr_source_age_ms : f64;
  nr_receive_age_ms : f64;
  nr_tracking_longitudinal_error_m : f64;
  nr_tracking_lateral_error_m : f64;
  nr_command : option NavigationCommand
}.

(** [px4_ros2::TrajectorySetpoint]: the fields set by its [with...] calls. *)
Record TrajectorySetpoint : Type := mkTrajectorySetpoint {
  ts_position_ned_m : option vec3f;
  ts_velocity_ned_m_s : option vec3f;
  ts_acceleration_ned_m_s2 : option vec3f;
  ts_yaw_ned_rad : option f32;
  ts_yaw_rate_ned_rad_s : option f32
}.

Definition f32_zero : f32 := f32_of_f64 fzero.
Definition vec3f_zero : vec3f := Vec3f f32_zero f32_zero f32_zero.

(** [Px4InputTraceBoundary]: which of its writers produced a setpoint. *)
Inductive Px4InputTraceBoundary : Type :=
| boundary_kTracking
| boundary_kVelocityOnly
| boundary_kVelocityHold
| boundary_kPositionHold.

#[export] Instance Px4InputTraceBoundary_eq_dec : EqDecision Px4InputTraceBoundary.
Proof. solve_decision. Defined.

Inductive Px4Result : Type := result_Success | result_Deactivated | result_ModeFailureOther | result_other.

#[export] Instance Px4Result_eq_dec : EqDecision Px4Result.
Proof. solve_decision. Defined.

(** [px4_ros2::yawEnuToNed], [yawRateEnuToNed] and [rclcpp::Duration::seconds]. *)
Class Px4Ros2 : Type := {
  yawEnuToNed : f32 -> f32;
  yawRateEnuToNed : f32 -> f32;
  duration_seconds : Z -> f64
}.

(** ** State *)

Record Ownership : Type := mkOwnership {
  failure_reported : bool;
  mode_active : bool;
  mission_completion_receipt : option NavigationMissionProgress;
  mode_activation_id : Z;
  handover_requested : bool
}.

Record RecoveryEpisode : Type := mkRecoveryEpisode {
  planner_recovery_pending : bool;
  planner_recovery_deadline_ns : Z;
  planner_recovery_mission_id : string;
  planner_recovery_waypoint_index : Z;
  planner_recovery_request_id : Z;
  planner_recovery_bundle_generation : Z
}.

Definition no_recovery : RecoveryEpisode := mkRecoveryEpisode false 0 EmptyString 0 0 0.

Record ModeThread : Type := mkModeThread {
  mt_ownership : Ownership;
  mt_recovery : RecoveryEpisode;
  completion_position : option vec3;
  safety_hold_position : option vec3;
  activation_time_ns : Z;
  airborne_start_ns : Z;
  last_status_state : Z;
  velocity_only_last_reason : string;
  velocity_only_last_reset_counters : ResetCounters
}.

Record LioInputs : Type := mkLioInputs {
  odometry : option Odometry;
  last_odometry_receive_steady_ns : Z;
  last_propagated_state_stamp_ns : Z;
  last_propagated_state_sequence : Z;
  typed_health_seen : bool;
  lio_health_valid : bool;
  lio_localization_epoch : Z;
  last_lio_diagnostics_ns : Z;
  last_health_source_stamp_ns : Z;
  last_health_receive_steady_ns : Z;
  last_health_flags : HealthFlags
}.

Record Px4Inputs : Type := mkPx4Inputs {
  px4_local_position_ned : option vec3;
  px4_local_velocity_ned : option vec3;
  last_px4_position_receive_steady_ns : Z;
  last_px4_local_position_receive_steady_ns : Z;
  px4_reset_counters : ResetCounters;
  last_px4_timestamp_us : Z;
  last_px4_timestamp_sample_us : Z;
  last_px4_xy_valid : bool;
  last_px4_z_valid : bool;
  last_px4_vxy_valid : bool;
  last_px4_vz_valid : bool;
  last_px4_dead_reckoning : bool;
  last_px4_heading_good_for_control : bool;
  last_px4_heading_valid : bool;
  last_px4_heading_ned : f64;
  last_px4_heading_variance_rad2 : f64
}.

Record SharedState : Type := mkSharedState {
  px4_local_frame_aligned : bool;
  lio_to_px4_local_translation_ned : option vec3;
  navigation_command : option NavigationCommand;
  last_command_receive_ns : Z;
  velocity_only_previous : option Previous;
  velocity_only_reset_counters_seen : bool
}.

Record NavigationMode : Type := mkNavigationMode {
  nm_thread : ModeThread;
  nm_lio : LioInputs;
  nm_px4 : Px4Inputs;
  nm_shared : SharedState
}.

Abbreviation nm_ownership st := (mt_ownership (nm_thread st)).
Abbreviation nm_recovery st := (mt_recovery (nm_thread st)).
Abbreviation held st := (navigation_command (nm_shared st)).

Definition health_flags_none : HealthFlags := mkHealthFlags false false false false false.

(** The default member initialisers. *)
Definition mode_initial : NavigationMode :=
  mkNavigationMode
    (mkModeThread (mkOwnership false false None 0 false) no_recovery None None 0 0 STATE_PAUSED
       EmptyString reset_counters_zero)
    (mkLioInputs None 0 0 0 false false 0 0 0 0 health_flags_none)
    (mkPx4Inputs None None 0 0 reset_counters_zero 0 0 false false false false false false false
       fzero fzero)
    (mkSharedState false None None 0 None false).

(** What a critical section reads besides the state: the node clock, the steady
    clock and [isArmed()]. *)
Record Env : Type := mkEnv {
  env_now_ns : Z;
  env_steady_ns : Z;
  env_armed : bool
}.

Inductive Effect : Type :=
| eff_status (s : NavigationModeStatus)
| eff_admission (r : NavigationCommandAdmission)
| eff_rejection (r : NavigationCommandRejection)
| eff_setpoint (boundary : Px4InputTraceBoundary) (sp : TrajectorySetpoint)
| eff_hold_handover
| eff_completed (r : Px4Result)
| eff_arming_failure (event : string).

Abbreviation op A := (@prog Env NavigationMode Effect A).

(** ** Updates *)

Definition set_thread (st : NavigationMode) (t : ModeThread) : NavigationMode :=
  mkNavigationMode t (nm_lio st) (nm_px4 st) (nm_shared st).
Definition set_lio (st : NavigationMode) (l : LioInputs) : NavigationMode :=
  mkNavigationMode (nm_thread st) l (nm_px4 st) (nm_shared st).
Definition set_px4 (st : NavigationMode) (p : Px4Inputs) : NavigationMode :=
  mkNavigationMode (nm_thread st) (nm_lio st) p (nm_shared st).
Definition set_shared (st : NavigationMode) (s : SharedState) : NavigationMode :=
  mkNavigationMode (nm_thread st) (nm_lio st) (nm_px4 st) s.

Definition set_ownership (st : NavigationMode) (o : Ownership) : NavigationMode :=
  let t := nm_thread st in
  set_thread st (mkModeThread o (mt_recovery t) (completion_position t) (safety_hold_position t)
    (activation_time_ns t) (airborne_start_ns t) (last_status_state t)
    (velocity_only_last_reason t) (velocity_only_last_reset_counters t)).

Definition set_recovery (st : NavigationMode) (r : RecoveryEpisode) : NavigationMode :=
  let t := nm_thread st in
  set_thread st (mkModeThread (mt_ownership t) r (completion_position t) (safety_hold_position t)
    (activation_time_ns t) (airborne_start_ns t) (last_status_state t)
    (velocity_only_last_reason t) (velocity_only_last_reset_counters t)).

Definition set_safety_hold (st : NavigationMode) (p : option vec3) : NavigationMode :=
  let t := nm_thread st in
  set_thread st (mkModeThread (mt_ownership t) (mt_recovery t) (completion_position t) p
    (activation_time_ns t) (airborne_start_ns t) (last_status_state t)
    (velocity_only_last_reason t) (velocity_only_last_reset_counters t)).

Definition set_last_status (st : NavigationMode) (s : Z) : NavigationMode :=
  let t := nm_thread st in
  set_thread st (mkModeThread (mt_ownership t) (mt_recovery t) (completion_position t)
    (safety_hold_position t) (activation_time_ns t) (airborne_start_ns t) s
    (velocity_only_last_reason t) (velocity_only_last_reset_counters t)).

Definition set_airborne_start (st : NavigationMode) (ns : Z) : NavigationMode :=
  let t := nm_thread st in
  set_thread st (mkModeThread (mt_ownership t) (mt_recovery t) (completion_position t)
    (safety_hold_position t) (activation_time_ns t) ns (last_status_state t)
    (velocity_only_last_reason t) (velocity_only_last_reset_counters t)).

Definition set_last_reason (st : NavigationMode) (reason : string) : NavigationMode :=
  let t := nm_thread st in
  set_thread st (mkModeThread (mt_ownership t) (mt_recovery t) (completion_position t)
    (safety_hold_position t) (activation_time_ns t) (airborne_start_ns t) (last_status_state t)
    reason (velocity_only_last_reset_counters t)).

Definition set_command (st : NavigationMode) (c : option NavigationCommand) : NavigationMode :=
  let s := nm_shared st in
  set_shared st (mkSharedState (px4_local_frame_aligned s) (lio_to_px4_local_translation_ned s) c
    (last_command_receive_ns s) (velocity_only_previous s) (velocity_only_reset_counters_seen s)).

Definition reset_velocity_only (st : NavigationMode) : NavigationMode :=
  let s := nm_shared st in
  set_shared st (mkSharedState (px4_local_frame_aligned s) (lio_to_px4_local_translation_ned s)
    (navigation_command s) (last_command_receive_ns s) None false).

(** [navigation_command_ = transitionCertifiedCommand(navigation_command_, ...)] *)
Definition transition_command (st : NavigationMode) (candidate : option NavigationCommand)
    (t : CertifiedCommandTransition) : NavigationMode :=
  set_command st (transitionCertifiedCommand (held st) candidate t).

(** ** Parameters *)

Record ModeParameters : Type := mkModeParameters {
  navigation_command_topic : string;
  state_topic : string;
  status_topic : string;
  planning_frame : string;
  body_frame : string;
  stale_after_s : f64;
  state_stale_after_s : f64;
  trajectory_wait_timeout_s : f64;
  planner_recovery_wait_timeout_s : f64;
  tracking_experiment : TrackingExperimentPolicy;
  (** whether the executor has installed [px4_hold_handover_] *)
  px4_hold_handover_set : bool
}.

Definition stale_after_ns (p : ModeParameters) : Z :=
  default 0 (secondsToNanoseconds (stale_after_s p)).
Definition state_stale_after_ns (p : ModeParameters) : Z :=
  default 0 (secondsToNanoseconds (state_stale_after_s p)).
Definition planner_recovery_wait_timeout_ns (p : ModeParameters) : Z :=
  default 0 (secondsToNanoseconds (planner_recovery_wait_timeout_s p)).

(** [std::abs(value - target) > 1.0e-9] *)
Definition differs_from (value target : f64) : bool :=
  fgt (fabs (f64_sub value target)) (f64_lit 1 1000000000).

(** The constructor's checks; [false] where it throws [std::invalid_argument]. *)
Definition parameters_valid (p : ModeParameters) : bool :=
  let positive x := isfinite x && fgt x fzero in
  let positive_ns o := match o with Some ns => 0 <? ns | None => false end in
  negb (string_empty (navigation_command_topic p)) && negb (string_empty (state_topic p))
  && negb (string_empty (planning_frame p)) && negb (string_empty (body_frame p))
  && positive (stale_after_s p) && positive (state_stale_after_s p)
  && positive (trajectory_wait_timeout_s p) && positive (planner_recovery_wait_timeout_s p)
  && negb (differs_from (stale_after_s p) (f64_lit 1 10))
  && negb (differs_from (state_stale_after_s p) (f64_lit 1 5))
  && negb (differs_from (trajectory_wait_timeout_s p) (f64_of_Z 5))
  && negb (differs_from (planner_recovery_wait_timeout_s p) (f64_of_Z 5))
  && negb (fgt (planner_recovery_wait_timeout_s p) (trajectory_wait_timeout_s p))
  && positive_ns (secondsToNanoseconds (stale_after_s p))
  && positive_ns (secondsToNanoseconds (state_stale_after_s p))
  && positive_ns (secondsToNanoseconds (planner_recovery_wait_timeout_s p))
  && negb (string_empty (status_topic p)).

(** ** The recovery episode *)

Definition clearPlannerRecoveryEpisodeLocked (st : NavigationMode) : NavigationMode :=
  set_recovery st no_recovery.

Definition rememberPlannerRecoveryEpisodeLocked (r : RecoveryEpisode) (command : NavigationCommand)
    : RecoveryEpisode :=
  mkRecoveryEpisode (planner_recovery_pending r) (planner_recovery_deadline_ns r)
    (nc_mission_id command) (nc_waypoint_index command) (nc_request_id command)
    (nc_bundle_generation command).

Definition plannerRecoveryEpisodeMatchesLocked (r : RecoveryEpisode) (command : NavigationCommand)
    : bool :=
  planner_recovery_pending r && (nc_mission_id command ==? planner_recovery_mission_id r)
  && (nc_waypoint_index command =? planner_recovery_waypoint_index r)
  && (nc_request_id command =? planner_recovery_request_id r)
  && (nc_bundle_generation command =? planner_recovery_bundle_generation r).

Section Mode.
Context {E : EigenOps} {N : EigenNormOps} {M : EigenMatOps} {L : LibmOps} {P : Px4Ros2}.
Variable cfg : ModeParameters.

Abbreviation experiment := (tracking_experiment cfg).

(** Opening the recovery window: [None] when the deadline is not representable;
    an open window keeps its deadline. *)
Definition open_recovery (st : NavigationMode) (command : NavigationCommand) (now_ns : Z)
    : option NavigationMode :=
  let r := nm_recovery st in
  if planner_recovery_pending r then Some st
  else
    match checkedTimestampAdd now_ns (planner_recovery_wait_timeout_ns cfg) with
    | None => None
    | Some deadline =>
        Some (set_recovery st
                (rememberPlannerRecoveryEpisodeLocked
                   (mkRecoveryEpisode true deadline EmptyString 0 0 0) command))
    end.

(** ** [publishStatus] *)

Definition status_receipt (st : NavigationMode) (state : Z) : option NavigationMissionProgress :=
  if state =? STATE_COMPLETE then mission_completion_receipt (nm_ownership st) else None.

Definition airborne (env : Env) (st : NavigationMode) : bool :=
  match odometry (nm_lio st) with
  | None => false
  | Some o => env_armed env && isfinite (vz (od_position o))
              && fgt (vz (od_position o)) (f64_lit 1 2)
  end.

Definition status_health_ready (st : NavigationMode) : bool :=
  typed_health_seen (nm_lio st)
  && (lio_health_valid (nm_lio st) || tx_suppress_estimator_health_response experiment).

Definition external_mode_state (state reason : Z) (airborne health_ready command_present : bool)
    : Z :=
  if state =? STATE_COMPLETE then COMPLETED_HOLD
  else if state =? STATE_FAILED then FAILSAFE_HOLD
  else if state =? STATE_BRAKING then RECOVERY_HOLD
  else if state =? STATE_PAUSED then
    (if reason =? REASON_OPERATOR_TAKEOVER then HANDOVER_HOLD else RECOVERY_HOLD)
  else if negb airborne then WAIT_AIRBORNE
  else if negb health_ready then WAIT_HEALTH
  else if negb command_present then WAIT_FIRST_COMMAND
  else TRACK_TRAJECTORY.

Definition external_mode_reason (reason external_state : Z) : string :=
  if reason =? REASON_SAFETY_STOP then "SAFETY_STOP"
  else if reason =? REASON_OPERATOR_TAKEOVER then "OPERATOR_TAKEOVER"
  else if reason =? REASON_ODOMETRY_STALE then "ODOMETRY_STALE"
  else if reason =? REASON_TRAJECTORY_INVALID then "TRAJECTORY_INVALID"
  else if external_state =? WAIT_AIRBORNE then "WAIT_AIRBORNE"
  else if external_state =? WAIT_HEALTH then "WAIT_HEALTH"
  else if external_state =? WAIT_FIRST_COMMAND then "WAIT_FIRST_COMMAND"
  else "NONE".

Definition status_message (stamp_ns : Z) (env : Env) (st : NavigationMode) (state reason : Z)
    : NavigationModeStatus :=
  let command := held st in
  let receipt := status_receipt st state in
  let pick {A} (from_receipt : NavigationMissionProgress -> A)
        (from_command : NavigationCommand -> A) (none : A) : A :=
    match receipt, command with
    | Some r, _ => from_receipt r
    | None, Some c => from_command c
    | None, None => none
    end in
  let of_receipt {A} (f : NavigationMissionProgress -> A) (none : A) : A :=
    match receipt with Some r => f r | None => none end in
  let external := external_mode_state state reason (airborne env st) (status_health_ready st)
                    (has command) in
  mkModeStatus stamp_ns (planning_frame cfg)
    (pick mp_mission_id nc_mission_id EmptyString)
    (pick mp_waypoint_index nc_waypoint_index 0)
    (pick mp_request_id nc_request_id 0)
    (mode_activation_id (nm_ownership st)) (airborne env st) state reason external
    (external_mode_reason reason external)
    (of_receipt mp_waypoint_accepted false) (of_receipt mp_accepted_waypoint_index 0)
    (of_receipt mp_acceptance_position_error_m fzero) (of_receipt mp_acceptance_speed_mps fzero).

(** [node().get_clock()->now()] and [steadyClockNowNanoseconds()] outside a lock *)
Definition clock : op Z := read (fun env _ => env_now_ns env).
Definition steady_clock : op Z := read (fun env _ => env_steady_ns env).

Definition publishStatus (state reason : Z) : op unit :=
  let! stamp_ns := clock in
  let! status := read (fun env st => status_message stamp_ns env st state reason) in
  lock (fun _ st => (tt, set_last_status st state, [eff_status status])) ret.

(** ** Ending control *)

Definition handover_effects : list Effect :=
  if px4_hold_handover_set cfg then [eff_hold_handover]
  else [eff_completed result_ModeFailureOther].

(** Latching the measured position to hold at, when it is finite. *)
Definition latch_safety_hold (st : NavigationMode) : NavigationMode :=
  match odometry (nm_lio st) with
  | Some o => if v_allFinite (od_position o) then set_safety_hold st (Some (od_position o)) else st
  | None => st
  end.

(** The critical section of [safetyStopNavigation] and [failNavigation];
    [false] when a failure is already reported. *)
Definition report_failure (st : NavigationMode) : bool * NavigationMode :=
  let o := nm_ownership st in
  if failure_reported o then (false, st)
  else
    let st := latch_safety_hold st in
    let st := set_ownership st
                (mkOwnership true (mode_active o) (mission_completion_receipt o)
                   (mode_activation_id o) true) in
    (true, transition_command st None kInvalidate).

Definition stop_with (state reason : Z) : op unit :=
  let! first := lock (fun _ st => let '(first, st) := report_failure st in (first, st, [])) ret in
  if first then
    publishStatus state reason ;; publish (fun _ => handover_effects)
  else ret tt.

Definition safetyStopNavigation (reason : string) : op unit :=
  stop_with STATE_PAUSED REASON_SAFETY_STOP.

Definition failNavigation (reason : string) : op unit :=
  stop_with STATE_FAILED
    (if has (String.index 0 "odometry" reason) then REASON_ODOMETRY_STALE
     else REASON_TRAJECTORY_INVALID).

(** [requestVelocityOnlyHold]: handover without a reported failure. *)
Definition request_hold (reason : string) (st : NavigationMode) : NavigationMode :=
  let o := nm_ownership st in
  let st := reset_velocity_only (set_last_reason (latch_safety_hold st) reason) in
  let st := set_ownership st
              (mkOwnership (failure_reported o) (mode_active o) (mission_completion_receipt o)
                 (mode_activation_id o) true) in
  transition_command st None kInvalidate.

Definition requestVelocityOnlyHold (reason : string) : op unit :=
  update (fun _ => request_hold reason) ;;
  publishStatus STATE_PAUSED REASON_SAFETY_STOP ;;
  publish (fun _ => handover_effects).

Definition setVelocityOnlyLastReason (reason : string) : op unit :=
  update (fun _ st => set_last_reason st reason).

(** ** Activation *)

(** Authority is closed: failed, completed or handing over. *)
Definition terminal (o : Ownership) : bool :=
  failure_reported o || has (mission_completion_receipt o) || handover_requested o.

Definition updateBoundary : op unit :=
  let! outcome := lock (fun env st =>
    let o := nm_ownership st in
    let r := nm_recovery st in
    if negb (mode_active o && negb (terminal o)) then (None, st, [])
    else
      let expired := plannerRecoveryWaitExpired (planner_recovery_pending r) (env_now_ns env)
                       (planner_recovery_deadline_ns r) in
      (Some expired, if expired then clearPlannerRecoveryEpisodeLocked st else st, [])) ret in
  match outcome with
  | None => ret tt
  | Some true => safetyStopNavigation "planner backend terminal endpoint exceeded bounded recovery window"
  | Some false => publishStatus STATE_ACTIVE REASON_NONE
  end.

(** The first critical section of [onActivate]. *)
Definition activate (now_ns : Z) (st : NavigationMode) : NavigationMode :=
  let o := nm_ownership st in
  let exhausted := negb (mode_activation_id o <? u64_max) in
  let id := if exhausted then mode_activation_id o else mode_activation_id o + 1 in
  mkNavigationMode
    (mkModeThread (mkOwnership exhausted true None id false) no_recovery None None now_ns 0
       (last_status_state (nm_thread st)) EmptyString
       (velocity_only_last_reset_counters (nm_thread st)))
    (nm_lio st) (nm_px4 st)
    (mkSharedState false None (transitionCertifiedCommand (held st) None kInvalidate) 0 None false).

Definition onActivate : op unit :=
  update (fun env st => activate (env_now_ns env) st) ;;
  publishStatus STATE_ACTIVE REASON_NONE ;;
  updateBoundary.

(** The critical section of [onDeactivate]. *)
Definition deactivate (st : NavigationMode) : NavigationMode :=
  let o := nm_ownership st in
  let t := nm_thread st in
  mkNavigationMode
    (mkModeThread
       (mkOwnership true false (mission_completion_receipt o) (mode_activation_id o)
          (handover_requested o))
       no_recovery None None (activation_time_ns t) 0 (last_status_state t) EmptyString
       (velocity_only_last_reset_counters t))
    (nm_lio st) (nm_px4 st)
    (mkSharedState false None (transitionCertifiedCommand (held st) None kInvalidate) 0 None false).

Definition onDeactivate : op unit :=
  update (fun _ => deactivate) ;;
  let! last := read (fun _ st => last_status_state (nm_thread st)) in
  if negb (last =? STATE_PAUSED) && negb (last =? STATE_COMPLETE) && negb (last =? STATE_FAILED)
  then publishStatus STATE_PAUSED REASON_OPERATOR_TAKEOVER
  else ret tt.

(** ** [checkArmingAndRunConditions] *)

(** [static_cast<double>(ns) / 1e9] *)
Definition ns_to_s (ns : Z) : f64 := f64_div (f64_of_Z ns) (f64_of_Z 1000000000).

Definition odometry_freshness_of (env : Env) (l : LioInputs) : ExecutionStateFreshness :=
  evaluateExecutionStateFreshness (env_now_ns env) (last_propagated_state_stamp_ns l)
    (env_steady_ns env) (last_odometry_receive_steady_ns l) (state_stale_after_s cfg).

Definition health_freshness_of (env : Env) (l : LioInputs) : ExecutionStateFreshness :=
  evaluateExecutionStateFreshness (env_now_ns env) (last_health_source_stamp_ns l)
    (env_steady_ns env) (last_health_receive_steady_ns l) (state_stale_after_s cfg).

(** [!odometry_ || odometry_->pose.pose.position.z <= 0.5] *)
Definition on_ground (o : option Odometry) : bool :=
  match o with Some o => fle (vz (od_position o)) (f64_lit 1 2) | None => true end.

Definition run_conditions (env : Env) (st : NavigationMode) : list Effect :=
  let o := nm_ownership st in
  let l := nm_lio st in
  let now_ns := env_now_ns env in
  if negb (mode_active o) then []
  else if handover_requested o then [eff_arming_failure "uav_navigation_handover_requested"]
  else if has (mission_completion_receipt o) then []
  else
    let odometry_stale := negb (freshness_valid (odometry_freshness_of env l)) in
    let health_stale := negb (freshness_valid (health_freshness_of env l)) in
    let bypass := tx_suppress_estimator_health_response experiment && typed_health_seen l
                  && negb health_stale in
    let unhealthy := health_stale || (negb (lio_health_valid l) && negb bypass) in
    let waiting_for_airborne := negb (env_armed env) || on_ground (odometry l) in
    let receive_ns := last_command_receive_ns (nm_shared st) in
    let command_stale :=
      (receive_ns <=? 0) || (now_ns <? receive_ns)
      || fgt (ns_to_s (now_ns - receive_ns)) (trajectory_wait_timeout_s cfg) in
    let start_ns := airborne_start_ns (nm_thread st) in
    let active_s :=
      if (0 <? start_ns) && (start_ns <=? now_ns) then ns_to_s (now_ns - start_ns) else fzero in
    let command_failed :=
      negb waiting_for_airborne && command_stale && fgt active_s (trajectory_wait_timeout_s cfg) in
    (if odometry_stale then [eff_arming_failure "uav_navigation_odometry_stale"] else [])
    ++ (if unhealthy then [eff_arming_failure "uav_navigation_lio_unhealthy"] else [])
    ++ (if command_failed then [eff_arming_failure "uav_navigation_planner_command_stale"] else []).

Definition checkArmingAndRunConditions : op unit :=
  lock (fun env st => (tt, st, run_conditions env st)) ret.

(** ** Command admission *)

Definition publishAdmissionRejection (a : CommandAdmissionAssessment)
    (command : option NavigationCommand) (callback_ros_ns callback_steady_ns : Z)
    (source_age_ms receive_age_ms longitudinal_error_m lateral_error_m : f64) : op unit :=
  if accepted a then ret tt
  else
    publish (fun _ =>
      [eff_rejection
         (mkRejectionMsg (default (mkRosTime 0 0) (nanosecondsToRosTime callback_ros_ns))
            (planning_frame cfg) (Z.max 0 callback_steady_ns) (caa_stage a)
            (admissionReasonCode (caa_reason a)) (caa_disposition a)
            source_age_ms receive_age_ms longitudinal_error_m lateral_error_m command)]).

(** [assessTrackingLocked]: the envelope and [anchor_invalid]. *)
Definition assessTrackingLocked (command : NavigationCommand) (odometry : Odometry)
    (recovery_pending completed : bool) : TrackingEnvelopeResult * bool :=
  let measured := od_position odometry in
  let main_phase_tracking :=
    (nc_role command =? ROLE_MAIN) && (nc_status command =? STATUS_READY)
    && negb recovery_pending && negb completed in
  let envelope :=
    evaluateTrackingEnvelope measured (nc_position command) (nc_velocity command)
      kCommandAnchorErrorLimitM (if main_phase_tracking then kMainTrackingPhaseWindowS else fzero) in
  let support_valid := te_support_valid envelope in
  let '(envelope, anchor_invalid) :=
    if tx_enabled experiment && main_phase_tracking then
      let q := od_orientation odometry in
      let measured_velocity :=
        if isNormalizableOdometryQuaternion q then q_rotate (q_normalized q) (od_linear odometry)
        else vec3_constant fnan in
      let adaptive :=
        assessAdaptiveTracking experiment measured measured_velocity (nc_position command)
          (nc_velocity command) in
      let permitted := experimentPermitsTracking experiment adaptive in
      (mkEnvelope support_valid permitted (at_longitudinal_error_m adaptive) fzero
         (at_lateral_error_m adaptive) (at_longitudinal_limit_m adaptive)
         (at_longitudinal_limit_m adaptive) (at_lateral_limit_m adaptive), negb permitted)
    else (envelope, negb (te_valid envelope)) in
  if anchor_invalid && tx_enabled experiment && tx_suppress_braking experiment && support_valid then
    (mkEnvelope (te_support_valid envelope) true (te_longitudinal_error_m envelope)
       (te_reverse_error_m envelope) (te_lateral_error_m envelope)
       (te_longitudinal_limit_m envelope) (te_reverse_limit_m envelope)
       (te_lateral_limit_m envelope), false)
  else (envelope, anchor_invalid).

(** The checks before the mode is consulted. *)
Definition ingress_assessment (message : option NavigationCommand) (now_ns : Z)
    : CommandAdmissionAssessment :=
  match message with
  | None => mkAssessment kPresence kRejectRetainPrevious reason_presence
  | Some m =>
      let contract := assessCommandContract m (planning_frame cfg) in
      let lease := assessCommandTemporalLease m now_ns in
      if negb (contract ==? contract_kValid) then
        mkAssessment kContract kRejectRetainPrevious (reason_contract contract)
      else if negb (lease ==? temporal_kValid) then
        mkAssessment kTemporalLease kRejectRetainPrevious (reason_temporal lease)
      else assessment_accept
  end.

(** What the admission section leaves to the rest of [onNavigationCommand]. *)
Record admission : Type := mkAdmission {
  am_assessment : CommandAdmissionAssessment;
  am_freshness : ExecutionStateFreshness;
  am_envelope : TrackingEnvelopeResult;
  am_completed : bool;
  am_recovery_needed : bool;
  am_backup_hold : bool;
  am_main_hold : bool
}.

Definition freshness_default : ExecutionStateFreshness :=
  mkFreshness freshness_kInvalidLimit fzero fzero.

Definition rejection_of (a : CommandAdmissionAssessment) (f : ExecutionStateFreshness)
    (e : TrackingEnvelopeResult) : admission := mkAdmission a f e false false false false.

(** [(measured - endpoint).norm() <= kCommandAnchorErrorLimitM], both finite *)
Definition endpoint_anchored (measured endpoint : vec3) : bool :=
  v_allFinite measured && v_allFinite endpoint
  && fle (v_norm (v_sub measured endpoint)) kCommandAnchorErrorLimitM.

(** The session, freshness and ordering gates. *)
Definition admission_gates (m : NavigationCommand) (env : Env) (st : NavigationMode)
    : CommandAdmissionAssessment * ExecutionStateFreshness :=
  let l := nm_lio st in
  let session :=
    assessCommandSessionIdentity m (held st) (typed_health_seen l)
      (lio_health_valid l || tx_suppress_estimator_health_response experiment)
      (lio_localization_epoch l) (mode_activation_id (nm_ownership st)) in
  if negb (session ==? session_kValid) then
    (mkAssessment kSessionIdentity kRejectRetainPrevious (reason_session session), freshness_default)
  else
    let source_ns :=
      match odometry l with
      | Some o => default 0 (rosTimeToNanoseconds (od_stamp o))
      | None => 0
      end in
    let freshness :=
      evaluateExecutionStateFreshness (env_now_ns env) source_ns (env_steady_ns env)
        (last_odometry_receive_steady_ns l) (state_stale_after_s cfg) in
    match classifyCommandAcceptance freshness (nc_sample_id m)
            (match held st with Some c => nc_sample_id c | None => 0 end) with
    | gate_kOdometryStale =>
        (mkAssessment kOdometryFreshness kRejectFailNavigation
           (reason_freshness (esf_reason freshness)), freshness)
    | gate_kNonIncreasingMessageId =>
        (mkAssessment kSampleOrdering kRejectRetainPrevious
           (reason_acceptance gate_kNonIncreasingMessageId), freshness)
    | gate_kAccept => (assessment_accept, freshness)
    end.

(** The critical section that admits a command. *)
Definition admit_command (m : NavigationCommand) (env : Env) (st : NavigationMode)
    : admission * NavigationMode :=
  let '(a, freshness) := admission_gates m env st in
  if negb (accepted a) then (rejection_of a freshness envelope_default, st)
  else
    let o := nm_ownership st in
    let completed := nc_status m =? STATUS_COMPLETED in
    let measured := odometry (nm_lio st) in
    let considered := completed && has measured in
    let inside :=
      match measured with
      | Some odo => completed && endpoint_anchored (od_position odo) (nc_position m)
      | None => false
      end in
    let '(envelope, anchor_invalid) :=
      match measured with
      | Some odo =>
          if negb (nc_status m =? STATUS_REJECTED) && negb inside then
            assessTrackingLocked m odo (planner_recovery_pending (nm_recovery st))
              (has (mission_completion_receipt o))
          else (envelope_default, false)
      | None => (envelope_default, false)
      end in
    if anchor_invalid then
      (rejection_of (mkAssessment kTrackingEnvelope kRejectSafetyStop reason_tracking)
         freshness envelope, st)
    else
      let s := nm_shared st in
      let st := set_shared st
                  (mkSharedState (px4_local_frame_aligned s) (lio_to_px4_local_translation_ned s)
                     (transitionCertifiedCommand (held st) (Some m) kCommitCommand) (env_now_ns env)
                     (velocity_only_previous s) (velocity_only_reset_counters_seen s)) in
      let st := set_ownership st
                  (mkOwnership false (mode_active o) (mission_completion_receipt o)
                     (mode_activation_id o) (handover_requested o)) in
      (mkAdmission assessment_accept freshness envelope completed (considered && negb inside)
         (inside && (nc_role m =? ROLE_BACKUP)) (inside && (nc_role m =? ROLE_MAIN)), st).

Definition admission_receipt (stamp_ns activation_id : Z) (c : NavigationCommand)
    : NavigationCommandAdmission :=
  mkAdmissionMsg stamp_ns (planning_frame cfg) activation_id (nc_mission_id c)
    (nc_localization_epoch c) (nc_goal_epoch c) (nc_waypoint_index c) (nc_request_id c)
    (nc_bundle_generation c) (nc_sample_id c).

(** Opens the window in one critical section; [true] when it could not. *)
Definition open_recovery_section (command : NavigationCommand) : op bool :=
  lock (fun env st =>
    match open_recovery st command (env_now_ns env) with
    | Some st => (false, st, [])
    | None => (true, st, [])
    end) ret.

Definition clear_recovery_section : op unit :=
  update (fun _ => clearPlannerRecoveryEpisodeLocked).

Definition finishAcceptedCommand (command : NavigationCommand) (a : admission) : op unit :=
  let! stamp_ns := clock in
  let! id := read (fun _ st => mode_activation_id (nm_ownership st)) in
  publish (fun _ => [eff_admission (admission_receipt stamp_ns id command)]) ;;
  let! recovery_deadline_invalid :=
    (if am_completed a && am_recovery_needed a then open_recovery_section command
     else if negb (am_completed a) then clear_recovery_section ;; ret false
     else if am_backup_hold a || am_main_hold a then clear_recovery_section ;; ret false
     else ret false) in
  if recovery_deadline_invalid then
    safetyStopNavigation "planner recovery deadline is not representable"
  else ret tt.

Definition onNavigationCommand (message : option NavigationCommand) : op unit :=
  let! now_ns := clock in
  let! steady_ns := steady_clock in
  let reject a := publishAdmissionRejection a message now_ns steady_ns in
  let assessment := ingress_assessment message now_ns in
  match message with
  | Some m =>
      if negb (accepted assessment) then
        update (fun _ st => transition_command st None kRetain) ;;
        reject assessment fzero fzero fzero fzero
      else
        let! closed := read (fun _ st => terminal (nm_ownership st)) in
        if closed then
          reject (mkAssessment kTerminalOwnership kIgnoreAfterTerminal reason_terminal)
            fzero fzero fzero fzero
        else
          let! a := lock (fun env st => let '(a, st) := admit_command m env st in (a, st, [])) ret in
          let f := am_freshness a in
          match caa_disposition (am_assessment a) with
          | kRejectRetainPrevious => reject (am_assessment a) fzero fzero fzero fzero
          | kRejectFailNavigation =>
              reject (am_assessment a) (esf_source_age_ms f) (esf_receive_age_ms f) fzero fzero ;;
              failNavigation "navigation odometry stale at command acceptance"
          | kRejectSafetyStop =>
              reject (am_assessment a) (esf_source_age_ms f) (esf_receive_age_ms f)
                (te_longitudinal_error_m (am_envelope a)) (te_lateral_error_m (am_envelope a)) ;;
              safetyStopNavigation "planner backend PVA command anchor is not near vehicle"
          | kAccept => finishAcceptedCommand m a
          | kIgnoreAfterTerminal => ret tt
          end
  | None =>
      update (fun _ st => transition_command st None kRetain) ;;
      reject assessment fzero fzero fzero fzero
  end.

(** ** [onMissionProgress] *)

Definition completion_message_valid (m : NavigationMissionProgress) : bool :=
  (mp_event m =? EVENT_COMPLETE) && mp_waypoint_accepted m
  && (mp_accepted_waypoint_index m =? mp_waypoint_index m)
  && negb (string_empty (mp_mission_id m)) && negb (mp_route_revision m =? 0)
  && negb (mp_request_id m =? 0).

Definition completion_applies (m : NavigationMissionProgress) (st : NavigationMode) : bool :=
  let o := nm_ownership st in
  mode_active o && negb (failure_reported o) && negb (handover_requested o)
  && negb (has (mission_completion_receipt o))
  && (mp_mode_activation_id m =? mode_activation_id o)
  && (mp_localization_epoch m =? lio_localization_epoch (nm_lio st))
  && (mp_frame_id m ==? planning_frame cfg)
  && (activation_time_ns (nm_thread st) <=? default 0 (rosTimeToNanoseconds (mp_stamp m)))
  && match held st with
     | Some c => (nc_mission_id c ==? mp_mission_id m)
                 && (nc_waypoint_index c =? mp_waypoint_index m)
                 && (nc_request_id c =? mp_request_id m)
     | None => true
     end.

Definition complete_mission (m : NavigationMissionProgress) (st : NavigationMode) : NavigationMode :=
  let o := nm_ownership st in
  let t := nm_thread st in
  let position :=
    match odometry (nm_lio st), held st with
    | Some odo, _ => Some (od_position odo)
    | None, Some c => Some (nc_position c)
    | None, None => completion_position t
    end in
  set_thread st
    (mkModeThread (mkOwnership (failure_reported o) (mode_active o) (Some m) (mode_activation_id o) true)
       no_recovery position (safety_hold_position t) (activation_time_ns t) (airborne_start_ns t)
       (last_status_state t) (velocity_only_last_reason t) (velocity_only_last_reset_counters t)).

Definition onMissionProgress (message : option NavigationMissionProgress) : op unit :=
  match message with
  | None => ret tt
  | Some m =>
      if negb (completion_message_valid m) then ret tt
      else
        let! applied := lock (fun _ st =>
          if completion_applies m st then (true, complete_mission m st, []) else (false, st, [])) ret in
        if applied then
          publishStatus STATE_COMPLETE REASON_NONE ;;
          publish (fun _ => [eff_completed result_Success])
        else ret tt
  end.

(** ** The state-input thread *)

Inductive OdometryDisposition : Type :=
| odometry_INVALID_MESSAGE
| odometry_HEALTH_NOT_READY
| odometry_HEALTH_INVALID
| odometry_LOCALIZATION_EPOCH_MISMATCH
| odometry_SEQUENCE_NON_INCREASING
| odometry_SOURCE_TIMESTAMP_INVALID
| odometry_SOURCE_TIMESTAMP_NON_INCREASING
| odometry_ACCEPTED.

#[local] Instance OdometryDisposition_eq_dec : EqDecision OdometryDisposition.
Proof. solve_decision. Defined.

Definition vec3_of_vec3f (v : vec3f) : vec3 :=
  Vec3 (f64_of_f32 (fx v)) (f64_of_f32 (fy v)) (f64_of_f32 (fz v)).
Definition vec3f_isfinite (v : vec3f) : bool := isfinite (fx v) && isfinite (fy v) && isfinite (fz v).

(** [0.15] and [2.0] *)
Definition stationary_speed_mps : f64 := f64_lit 15 100.
Definition maximum_translation_m : f64 := f64_of_Z 2.

Definition set_alignment (st : NavigationMode) (aligned : bool) (t : option vec3) : NavigationMode :=
  let s := nm_shared st in
  set_shared st (mkSharedState aligned t (navigation_command s) (last_command_receive_ns s)
    (velocity_only_previous s) (velocity_only_reset_counters_seen s)).

Definition tryAlignPx4LocalFrameLocked (env : Env) (st : NavigationMode) : NavigationMode :=
  let p := nm_px4 st in
  match odometry (nm_lio st), px4_local_position_ned p, px4_local_velocity_ned p with
  | Some o, Some position_ned, Some velocity_ned =>
      if px4_local_frame_aligned (nm_shared st) || negb (mode_active (nm_ownership st))
         || negb (env_armed env) || fle (vz (od_position o)) (f64_lit 1 2)
         || negb (last_px4_xy_valid p) || negb (last_px4_z_valid p) || negb (last_px4_vxy_valid p)
         || negb (last_px4_vz_valid p) then st
      else if fgt (v_norm (od_linear o)) stationary_speed_mps
              || fgt (v_norm velocity_ned) stationary_speed_mps then st
      else
        match localNedTranslationFromStationaryPair (od_position o) position_ned with
        | None => st
        | Some t => if fgt (v_norm t) maximum_translation_m then st else set_alignment st true (Some t)
        end
  | _, _, _ => st
  end.

Definition odometry_message_valid (m : PropagatedOdometry) : bool :=
  let o := po_odometry m in
  negb (po_localization_epoch m =? 0) && negb (po_sequence m =? 0)
  && (od_frame_id o ==? planning_frame cfg) && (od_child_frame_id o ==? body_frame cfg)
  && (0 <=? sec (od_stamp o)) && vec3_isfinite (od_position o) && vec3_isfinite (od_linear o)
  && isNormalizableOdometryQuaternion (od_orientation o).

Definition onOdometry (env : Env) (message : option PropagatedOdometry) (st : NavigationMode)
    : OdometryDisposition * NavigationMode :=
  match message with
  | None => (odometry_INVALID_MESSAGE, st)
  | Some m =>
      let o := po_odometry m in
      let l := nm_lio st in
      let source_ns := default 0 (rosTimeToNanoseconds (od_stamp o)) in
      if negb (odometry_message_valid m) then (odometry_INVALID_MESSAGE, st)
      else if negb (typed_health_seen l) then (odometry_HEALTH_NOT_READY, st)
      else if negb (lio_health_valid l)
              && negb (tx_suppress_estimator_health_response experiment) then
        (odometry_HEALTH_INVALID, st)
      else if negb (po_localization_epoch m =? lio_localization_epoch l) then
        (odometry_LOCALIZATION_EPOCH_MISMATCH, st)
      else if (0 <? last_propagated_state_sequence l)
              && (po_sequence m <=? last_propagated_state_sequence l) then
        (odometry_SEQUENCE_NON_INCREASING, st)
      else if source_ns <=? 0 then (odometry_SOURCE_TIMESTAMP_INVALID, st)
      else if (0 <? last_propagated_state_stamp_ns l)
              && (source_ns <=? last_propagated_state_stamp_ns l) then
        (odometry_SOURCE_TIMESTAMP_NON_INCREASING, st)
      else
        let st := set_lio st
                    (mkLioInputs (Some o) (env_steady_ns env) source_ns (po_sequence m)
                       (typed_health_seen l) (lio_health_valid l) (lio_localization_epoch l)
                       (last_lio_diagnostics_ns l) (last_health_source_stamp_ns l)
                       (last_health_receive_steady_ns l) (last_health_flags l)) in
        (odometry_ACCEPTED, tryAlignPx4LocalFrameLocked env st)
  end.

Definition local_position_valid (m : VehicleLocalPosition) : bool :=
  vec3f_isfinite (vl_velocity m) && isfinite (vl_heading m) && isfinite (vl_heading_var m)
  && negb (vl_timestamp m =? 0) && negb (vl_timestamp_sample m =? 0).

Definition onPx4LocalPosition (env : Env) (message : option VehicleLocalPosition)
    (st : NavigationMode) : NavigationMode :=
  match message with
  | None => st
  | Some m =>
      if negb (local_position_valid m) then st
      else
        let p := nm_px4 st in
        let c := vl_reset_counters m in
        let reset :=
          px4_local_frame_aligned (nm_shared st)
          && (negb (rc_xy c =? rc_xy (px4_reset_counters p))
              || negb (rc_z c =? rc_z (px4_reset_counters p))) in
        let st := if reset then set_alignment st false None else st in
        let position_valid := vl_xy_valid m && vl_z_valid m && vec3f_isfinite (vl_position m) in
        let '(position, position_receive) :=
          if position_valid then (Some (vec3_of_vec3f (vl_position m)), env_steady_ns env)
          else
            (if px4_local_frame_aligned (nm_shared st) then px4_local_position_ned p else None,
             if reset then 0 else last_px4_position_receive_steady_ns p) in
        let st := set_px4 st
                    (mkPx4Inputs position (Some (vec3_of_vec3f (vl_velocity m))) position_receive
                       (env_steady_ns env) c (vl_timestamp m) (vl_timestamp_sample m)
                       (vl_xy_valid m) (vl_z_valid m) (vl_v_xy_valid m) (vl_v_z_valid m)
                       (vl_dead_reckoning m) (vl_heading_good_for_control m)
                       (isfinite (vl_heading m)) (f64_of_f32 (vl_heading m))
                       (f64_of_f32 (vl_heading_var m))) in
        tryAlignPx4LocalFrameLocked env st
  end.

Definition healthy (m : EstimatorHealth) : bool :=
  (eh_state m =? HEALTH_TRACKING) && health_flags_all (eh_flags m).

(** A new public frame: the command and everything measured in the old frame go. *)
Definition change_epoch (st : NavigationMode) : NavigationMode :=
  let l := nm_lio st in
  mkNavigationMode (nm_thread st)
    (mkLioInputs None 0 0 0 (typed_health_seen l) (lio_health_valid l) (lio_localization_epoch l)
       (last_lio_diagnostics_ns l) (last_health_source_stamp_ns l)
       (last_health_receive_steady_ns l) (last_health_flags l))
    (nm_px4 st)
    (mkSharedState false None (transitionCertifiedCommand (held st) None kInvalidate) 0 None false).

Definition onEstimatorHealth (env : Env) (message : option EstimatorHealth) (st : NavigationMode)
    : NavigationMode :=
  match message with
  | None => st
  | Some m =>
      if eh_localization_epoch m =? 0 then st
      else
        let l := nm_lio st in
        let source_ns := default 0 (rosTimeToNanoseconds (eh_stamp m)) in
        let with_lio l' := set_lio st l' in
        if source_ns <=? 0 then
          with_lio (mkLioInputs (odometry l) (last_odometry_receive_steady_ns l)
                      (last_propagated_state_stamp_ns l) (last_propagated_state_sequence l) true
                      false (lio_localization_epoch l) (last_lio_diagnostics_ns l)
                      (last_health_source_stamp_ns l) 0 (last_health_flags l))
        else if (0 <? last_lio_diagnostics_ns l) && (source_ns <=? last_lio_diagnostics_ns l) then
          with_lio (mkLioInputs (odometry l) (last_odometry_receive_steady_ns l)
                      (last_propagated_state_stamp_ns l) (last_propagated_state_sequence l) true
                      (lio_health_valid l) (lio_localization_epoch l) (last_lio_diagnostics_ns l)
                      (last_health_source_stamp_ns l) (last_health_receive_steady_ns l)
                      (last_health_flags l))
        else
          let changed :=
            negb (lio_localization_epoch l =? 0)
            && negb (lio_localization_epoch l =? eh_localization_epoch m) in
          let st := if changed then change_epoch st else st in
          let l := nm_lio st in
          set_lio st
            (mkLioInputs (odometry l) (last_odometry_receive_steady_ns l)
               (last_propagated_state_stamp_ns l) (last_propagated_state_sequence l) true
               (healthy m) (eh_localization_epoch m) source_ns source_ns (env_steady_ns env)
               (eh_flags m))
  end.

(** ** The velocity-only boundary *)

Record VelocityOnlySnapshot : Type := mkVelocityOnlySnapshot {
  vs_odometry : Odometry;
  vs_px4 : RawPx4State;
  vs_previous : option Previous;
  vs_last_reset_counters : ResetCounters;
  vs_reset_counters_seen : bool;
  vs_lio_localization_epoch : Z;
  vs_lio_sequence : Z;
  vs_lio_receive_steady_ns : Z;
  vs_health : HealthFlags
}.

Definition raw_px4_state (p : Px4Inputs) : RawPx4State :=
  let nan3 := vec3_constant fnan in
  mkRawPx4State (default nan3 (px4_local_position_ned p)) (default nan3 (px4_local_velocity_ned p))
    (last_px4_heading_ned p)
    (last_px4_xy_valid p, last_px4_xy_valid p, last_px4_z_valid p)
    (last_px4_vxy_valid p, last_px4_vxy_valid p, last_px4_vz_valid p)
    (last_px4_heading_valid p) (last_px4_heading_good_for_control p) (last_px4_dead_reckoning p)
    (last_px4_heading_variance_rad2 p) (last_px4_timestamp_us p) (last_px4_timestamp_sample_us p)
    (last_px4_local_position_receive_steady_ns p) (px4_reset_counters p).

Definition velocity_only_snapshot (st : NavigationMode) : option VelocityOnlySnapshot :=
  let l := nm_lio st in
  match odometry l with
  | Some o =>
      if tx_velocity_only_enabled experiment then
        Some (mkVelocityOnlySnapshot o (raw_px4_state (nm_px4 st))
                (velocity_only_previous (nm_shared st))
                (velocity_only_last_reset_counters (nm_thread st))
                (velocity_only_reset_counters_seen (nm_shared st)) (lio_localization_epoch l)
                (last_propagated_state_sequence l) (last_odometry_receive_steady_ns l)
                (last_health_flags l))
      else None
  | None => None
  end.

Definition certified_emergency (c : NavigationCommand) : bool :=
  (nc_role c =? ROLE_EMERGENCY) && (nc_status c =? STATUS_BRAKING)
  && ((nc_emergency_authorization_reason c
         =? EMERGENCY_AUTHORIZATION_ACTUAL_ANCHOR_CERTIFICATE_EXCEEDED)
      || (nc_emergency_authorization_reason c =? EMERGENCY_AUTHORIZATION_CLEARANCE_EXCEEDED))
  && (nc_emergency_candidate_commit_result c =? 1).

(** [timestamp_sample_us * 1000], zero when it would not fit. *)
Definition px4_sample_ns (p : RawPx4State) : Z :=
  if px_timestamp_sample_us p <=? i64_max / 1000 then px_timestamp_sample_us p * 1000 else 0.

Definition velocity_only_reference (c : NavigationCommand) : AdapterReference :=
  let role :=
    if nc_role c =? ROLE_MAIN then role_kMain
    else if nc_role c =? ROLE_BACKUP then role_kBackup else role_kEmergency in
  mkAdapterReference kLioEnu
    (mkAdapterIdentity (nc_localization_epoch c) (nc_mission_id c) (nc_waypoint_index c)
       (nc_goal_epoch c) (nc_request_id c) (nc_bundle_generation c) (nc_sample_id c) role
       (header_ns c) (valid_until_ns c))
    (nc_position c) (nc_velocity c) (nc_acceleration c) (nc_yaw c) (nc_yaw_rate c).

Definition velocity_only_lio_state (s : VelocityOnlySnapshot) (source_ns : Z) : LioState :=
  let o := vs_odometry s in
  let q := q_normalized (od_orientation o) in
  let velocity := q_rotate q (od_linear o) in
  let f := vs_health s in
  mkLioState (od_position o) velocity (yaw_of q) (v_allFinite (od_position o))
    (v_allFinite velocity) (q_allFinite (od_orientation o)) (hf_navigation_valid f)
    (hf_covariance_valid f) (hf_observability_valid f) (hf_correction_fresh f)
    (hf_propagation_valid f)
    (px_heading_valid (vs_px4 s) && px_heading_good_for_control (vs_px4 s))
    (q_allFinite (od_orientation o)) true (vs_lio_localization_epoch s) (vs_lio_sequence s)
    source_ns (vs_lio_receive_steady_ns s).

(** [static_cast<double>(ns) * 1.0e-9] *)
Definition scaled_s (ns : Z) : f64 := f64_mul (f64_of_Z ns) nano_s.

Definition receive_age_s (receive_ns now_steady_ns : Z) : f64 :=
  if (0 <? receive_ns) && (receive_ns <=? now_steady_ns) then scaled_s (now_steady_ns - receive_ns)
  else fm1.

Definition velocity_only_timing (c : NavigationCommand) (s : VelocityOnlySnapshot)
    (source_ns now_ns now_steady_ns : Z) : TimingWitness :=
  let px := vs_px4 s in
  let sample_ns := px4_sample_ns px in
  let reference_age := scaled_s (now_ns - header_ns c) in
  let skew := f64_mul (fabs (f64_of_Z (source_ns - sample_ns))) nano_s in
  let lio_source_age := scaled_s (now_ns - source_ns) in
  let lio_receive_age := receive_age_s (vs_lio_receive_steady_ns s) now_steady_ns in
  let px4_source_age := scaled_s (now_ns - sample_ns) in
  let px4_receive_age := receive_age_s (px_receive_steady_ns px) now_steady_ns in
  let anchor_age := fmax lio_source_age px4_source_age in
  let transport := tx_velocity_only_output_transport_bound_s experiment in
  let consume := tx_velocity_only_px4_consume_bound_s experiment in
  let overlap :=
    max_list reference_age
      [skew; lio_source_age; lio_receive_age; px4_source_age; px4_receive_age; anchor_age] in
  mkTimingWitness (nc_sample_id c) (vs_lio_localization_epoch s) (vs_lio_sequence s)
    (px_timestamp_us px) (px_timestamp_sample_us px) 1 kConservativeBoundModelV1
    ((source_ns <=? now_ns) && (header_ns c <=? now_ns) && (sample_ns <=? now_ns))
    fzero now_ns reference_age skew lio_source_age lio_receive_age px4_source_age px4_receive_age
    anchor_age transport consume (f64_add (f64_add overlap transport) consume).

Definition velocity_only_policy (s : VelocityOnlySnapshot) : AdapterPolicy :=
  mkAdapterPolicy mode_kLevelA kVelocityOnly "velocity-only-lio-owned-v1" fzero
    (tx_velocity_only_gain_s_inv experiment) (Some (tx_velocity_only_cap_mps experiment))
    (Some (tx_velocity_only_max_timing_bound_s experiment))
    (Some (tx_velocity_only_max_reference_age_s experiment))
    (Some (px_reset_counters (vs_px4 s))) (Some (vs_lio_localization_epoch s)) true.

Definition continuity_identity (c : NavigationCommand) : ContinuityIdentity :=
  mkContinuityIdentity (nc_mission_id c) (nc_waypoint_index c) (nc_request_id c)
    (nc_bundle_generation c)
    (if nc_role c =? ROLE_MAIN then continuity_kMain
     else if nc_role c =? ROLE_BACKUP then continuity_kBackup else continuity_kEmergency).

Definition continuity_policy : ContinuityPolicy :=
  mkContinuityPolicy (tx_velocity_only_cap_mps experiment)
    (tx_velocity_only_max_acceleration_mps2 experiment) (tx_velocity_only_max_jerk_mps3 experiment).

(** An accepted velocity-only setpoint with what the mode remembers of it. *)
Record VelocityOnlyOutput : Type := mkVelocityOnlyOutput {
  vo_setpoint : TrajectorySetpoint;
  vo_previous : Previous;
  vo_limited : bool
}.

(** The computation of [publishVelocityOnlySetpoint]: the output, or the reason
    why there is none. *)
Definition velocity_only_output (c : NavigationCommand) (s : VelocityOnlySnapshot)
    (now_ns now_steady_ns : Z) : VelocityOnlyOutput + string :=
  let source_ns := default 0 (rosTimeToNanoseconds (od_stamp (vs_odometry s))) in
  let px := vs_px4 s in
  let sample_ns := px4_sample_ns px in
  if negb (nc_role c =? ROLE_MAIN) && negb (nc_role c =? ROLE_BACKUP)
     && negb (certified_emergency c) then inr "role_not_authorized_for_velocity_boundary"
  else if negb (nc_status c =? STATUS_READY) then inr "status_requires_native_px4_hold"
  else if (source_ns <=? 0) || (header_ns c <=? 0) || (valid_until_ns c <=? 0) || (now_ns <=? 0)
          || (now_ns <? source_ns) || (now_ns <? header_ns c) || (now_steady_ns <=? 0) then
    inr "timestamp_contract_invalid"
  else if negb (isNormalizableOdometryQuaternion (od_orientation (vs_odometry s))) then
    inr "lio_orientation_invalid"
  else if (sample_ns <=? 0) || (now_ns <? sample_ns) then inr "px4_timestamp_contract_invalid"
  else if (px_reset_counters px !=? vs_last_reset_counters s) && vs_reset_counters_seen s then
    inr "px4_reset_requires_new_velocity_epoch"
  else
    match adapt (velocity_only_reference c) (velocity_only_lio_state s source_ns) px
            (velocity_only_timing c s source_ns now_ns now_steady_ns) (velocity_only_policy s) with
    | inr _ => inr "adapter_rejected"
    | inl adapted =>
        let w := ar_witness adapted in
        let limited := limit (wt_velocity_command_lio_enu w) now_ns (continuity_identity c)
                         continuity_policy (vs_previous s) in
        if negb (cr_failure limited ==? limit_kNone) then
          inr (String.append "continuity_rejected:" (failureName (cr_failure limited)))
        else
          let velocity_ned :=
            m_mulv (wt_rotation_lio_enu_to_px4_ned w) (cr_velocity_enu limited) in
          if negb (v_allFinite velocity_ned
                   && v_all_le (Vec3 (fabs (vx velocity_ned)) (fabs (vy velocity_ned))
                                     (fabs (vz velocity_ned))) (vec3_constant f32_max))
             || negb (floatRepresentable (ar_yaw_ned adapted))
             || negb (floatRepresentable (ar_yaw_rate_ned_rad_s adapted)) then
            inr "velocity_or_yaw_not_representable"
          else
            inl (mkVelocityOnlyOutput
                   (mkTrajectorySetpoint None (Some (vec3f_of_vec3 velocity_ned)) None
                      (Some (f32_of_f64 (ar_yaw_ned adapted)))
                      (Some (f32_of_f64 (ar_yaw_rate_ned_rad_s adapted))))
                   (mkPrevious (continuity_identity c) (cr_velocity_enu limited)
                      (cr_acceleration_enu limited) now_ns)
                   (cr_limited limited))
    end.

Definition record_velocity_only (s : VelocityOnlySnapshot) (out : VelocityOnlyOutput)
    (st : NavigationMode) : NavigationMode :=
  let t := nm_thread st in
  let sh := nm_shared st in
  mkNavigationMode
    (mkModeThread (mt_ownership t) (mt_recovery t) (completion_position t) (safety_hold_position t)
       (activation_time_ns t) (airborne_start_ns t) (last_status_state t)
       (if vo_limited out then "continuity_limited" else "accepted")
       (px_reset_counters (vs_px4 s)))
    (nm_lio st) (nm_px4 st)
    (mkSharedState (px4_local_frame_aligned sh) (lio_to_px4_local_translation_ned sh)
       (navigation_command sh) (last_command_receive_ns sh) (Some (vo_previous out)) true).

Definition publishVelocityOnlySetpoint (c : NavigationCommand) (s : VelocityOnlySnapshot)
    (now_ns : Z) : op bool :=
  let! now_steady_ns := steady_clock in
  match velocity_only_output c s now_ns now_steady_ns with
  | inr reason => setVelocityOnlyLastReason reason ;; ret false
  | inl out =>
      update (fun _ => record_velocity_only s out) ;;
      publish (fun _ => [eff_setpoint boundary_kVelocityOnly (vo_setpoint out)]) ;;
      ret true
  end.

(** ** [updateSetpoint] *)

(** What the first critical sections of [updateSetpoint] capture. *)
Record SetpointSnapshot : Type := mkSetpointSnapshot {
  sn_now_ns : Z;
  sn_command : option NavigationCommand;
  sn_odometry : option Odometry;
  sn_odometry_receive_steady_ns : Z;
  sn_velocity_only : option VelocityOnlySnapshot;
  sn_translation : option vec3;
  sn_px4_yaw_ned : option f32
}.

(** The translation is used while its position sample is fresh. *)
Definition current_translation (env : Env) (st : NavigationMode) : option vec3 :=
  let s := nm_shared st in
  let receive_ns := last_px4_position_receive_steady_ns (nm_px4 st) in
  if px4_local_frame_aligned s && (0 <? receive_ns) && (receive_ns <=? env_steady_ns env)
     && (env_steady_ns env - receive_ns <=? state_stale_after_ns cfg)
  then lio_to_px4_local_translation_ned s else None.

Definition current_px4_yaw (st : NavigationMode) : option f32 :=
  let p := nm_px4 st in
  if tx_velocity_only_enabled experiment && last_px4_heading_valid p
     && last_px4_heading_good_for_control p && floatRepresentable (last_px4_heading_ned p)
  then Some (f32_of_f64 (last_px4_heading_ned p)) else None.

Definition setpoint_snapshot : op SetpointSnapshot :=
  let! now_ns := clock in
  let! capture := read (fun env st =>
    mkSetpointSnapshot now_ns (held st) (odometry (nm_lio st))
      (last_odometry_receive_steady_ns (nm_lio st)) (velocity_only_snapshot st)
      (current_translation env st)) in
  let! yaw := read (fun _ st => current_px4_yaw st) in
  ret (capture yaw).

Definition lioPositionToPx4Ned (translation : option vec3) (position_enu : vec3) : option vec3f :=
  match translation with
  | None => None
  | Some t =>
      match lioPositionToLocalNed position_enu t with
      | None => None
      | Some p => if any_abs_above p f32_max then None else Some (vec3f_of_vec3 p)
      end
  end.

(** The yaw of a hold from the odometry, when its quaternion can be normalised. *)
Definition odometry_yaw_ned (o : option Odometry) : option f32 :=
  match o with
  | Some o =>
      if isNormalizableOdometryQuaternion (od_orientation o) then
        let yaw_enu := yaw_of (q_normalized (od_orientation o)) in
        if floatRepresentable yaw_enu then Some (yawEnuToNed (f32_of_f64 yaw_enu)) else None
      else None
  | None => None
  end.

Definition yaw_rate_zero (yaw : option f32) : option f32 := (fun _ => f32_zero) <$> yaw.

(** [publishStationary]: the setpoint and whether the position could not be
    represented. *)
Definition stationary_setpoint (s : SetpointSnapshot) (position_enu : option vec3)
    : TrajectorySetpoint * bool :=
  let position := position_enu ≫= lioPositionToPx4Ned (sn_translation s) in
  let yaw :=
    if tx_velocity_only_enabled experiment then sn_px4_yaw_ned s
    else odometry_yaw_ned (sn_odometry s) in
  (mkTrajectorySetpoint position (Some vec3f_zero) ((fun _ => vec3f_zero) <$> position) yaw
     (yaw_rate_zero yaw),
   has position_enu && negb (has position)).

Definition publishStationary (s : SetpointSnapshot) (position_enu : option vec3) : list Effect :=
  [eff_setpoint boundary_kVelocityHold (stationary_setpoint s position_enu).1].

(** [publishPositionHold]; [None] when the position cannot be represented. *)
Definition position_hold_setpoint (s : SetpointSnapshot) (position_enu : vec3)
    : option TrajectorySetpoint :=
  match lioPositionToPx4Ned (sn_translation s) position_enu with
  | None => None
  | Some p =>
      let yaw := odometry_yaw_ned (sn_odometry s) in
      Some (mkTrajectorySetpoint (Some p) (Some vec3f_zero) None yaw (yaw_rate_zero yaw))
  end.

(** The setpoint of a command the mode tracks. *)
Definition tracking_setpoint (s : SetpointSnapshot) (c : NavigationCommand)
    : option TrajectorySetpoint :=
  match lioPositionToPx4Ned (sn_translation s) (nc_position c),
        checkedEnuToNed (nc_velocity c), checkedEnuToNed (nc_acceleration c) with
  | Some p, Some v, Some a =>
      if negb (floatRepresentable (nc_yaw c)) || negb (floatRepresentable (nc_yaw_rate c)) then None
      else
        Some (mkTrajectorySetpoint (Some p) (Some v) (Some a)
                (Some (yawEnuToNed (f32_of_f64 (nc_yaw c))))
                (Some (yawRateEnuToNed (f32_of_f64 (nc_yaw_rate c)))))
  | _, _, _ => None
  end.

(** The terminal section: [None] when authority is open, else whether the
    position of the hold could not be represented. *)
Definition terminal_hold_position (s : SetpointSnapshot) (st : NavigationMode) : option (option vec3) :=
  let o := nm_ownership st in
  let t := nm_thread st in
  if failure_reported o then Some (safety_hold_position t)
  else if has (mission_completion_receipt o) then Some (completion_position t)
  else if handover_requested o then
    Some (match safety_hold_position t with
          | Some p => Some p
          | None => od_position <$> sn_odometry s
          end)
  else None.

Definition terminal_section (s : SetpointSnapshot) : op (option bool) :=
  lock (fun _ st =>
    match terminal_hold_position s st with
    | None => (None, st, [])
    | Some position =>
        (Some (stationary_setpoint s position).2, st, publishStationary s position)
    end) ret.

(** [std::min(0.5, std::max(0.0, trajectory_wait_timeout_s_))] *)
Definition diagnostics_wait_s : f64 :=
  fmin (f64_lit 1 2) (fmax fzero (trajectory_wait_timeout_s cfg)).

Inductive HealthVerdict : Type := health_wait | health_failed | health_ok.

(** The estimator-health gate. *)
Definition health_verdict (l : LioInputs) (now_ns steady_ns : Z) (since_activation_s : f64)
    : HealthVerdict :=
  let freshness :=
    evaluateExecutionStateFreshness now_ns (last_health_source_stamp_ns l) steady_ns
      (last_health_receive_steady_ns l) (state_stale_after_s cfg) in
  let fresh := freshness_valid freshness in
  let missing :=
    negb (typed_health_seen l) || (last_health_source_stamp_ns l <=? 0)
    || (last_health_receive_steady_ns l <=? 0) in
  let suppressed :=
    tx_suppress_estimator_health_response experiment && negb missing
    && negb (lio_health_valid l) && fresh in
  if missing && negb (typed_health_seen l) && fle since_activation_s diagnostics_wait_s then
    health_wait
  else if (negb missing && negb (lio_health_valid l) && negb suppressed)
          || (negb missing && negb fresh)
          || (missing && (typed_health_seen l || fgt since_activation_s diagnostics_wait_s)) then
    health_failed
  else health_ok.

(** Why a command may not be executed now, if it may not. *)
Definition command_expired (c : NavigationCommand) (now_ns receive_ns : Z) (recovery_window : bool)
    : option string :=
  let stamp_ns := header_ns c in
  if (0 <? receive_ns) && (receive_ns <=? now_ns) && (stale_after_ns cfg <? now_ns - receive_ns)
     && negb recovery_window then Some "planner backend PVA command stale"%string
  else if (stamp_ns <=? 0) || (now_ns <? stamp_ns)
          || ((stamp_ns <=? now_ns) && (stale_after_ns cfg <? now_ns - stamp_ns)
              && negb recovery_window) then
    Some "planner backend PVA command timestamp invalid or stale"%string
  else if negb recovery_window && negb (commandValidAt c now_ns) then
    Some "planner backend command validity window expired"%string
  else None.

Definition recovery_window_open (c : NavigationCommand) (now_ns : Z) (st : NavigationMode) : bool :=
  let r := nm_recovery st in
  terminalRecoveryCommandMayBeHeld (nc_status c =? STATUS_COMPLETED) (planner_recovery_pending r)
    now_ns (planner_recovery_deadline_ns r)
  && plannerRecoveryEpisodeMatchesLocked r c.

(** A completed command: hold its end point, and open the recovery window when
    the vehicle is not there. *)
Definition update_completed (s : SetpointSnapshot) (c : NavigationCommand) : op unit :=
  if tx_velocity_only_enabled experiment then
    requestVelocityOnlyHold "terminal command requires native PX4 Hold"
  else
    match position_hold_setpoint s (nc_position c) with
    | None => safetyStopNavigation "completed command position is not representable by PX4"
    | Some sp =>
        publish (fun _ => [eff_setpoint boundary_kPositionHold sp]) ;;
        let anchored :=
          match sn_odometry s with
          | Some o => endpoint_anchored (od_position o) (nc_position c)
          | None => false
          end in
        let! completed := read (fun _ st => has (mission_completion_receipt (nm_ownership st))) in
        if ((nc_role c =? ROLE_BACKUP) || (nc_role c =? ROLE_MAIN)) && negb anchored
           && negb completed then
          let! recovery_deadline_invalid :=
            lock (fun _ st =>
              match open_recovery st c (sn_now_ns s) with
              | Some st => (false, st, [])
              | None => (true, st, [])
              end) ret in
          if recovery_deadline_invalid then
            safetyStopNavigation "planner recovery deadline is not representable"
          else ret tt
        else ret tt
    end.

(** The command path. *)
Definition update_command (s : SetpointSnapshot) (c : NavigationCommand) : op unit :=
  let now_ns := sn_now_ns s in
  let! recovery_window := read (fun _ st => recovery_window_open c now_ns st) in
  let! receive_ns := read (fun _ st => last_command_receive_ns (nm_shared st)) in
  match command_expired c now_ns receive_ns recovery_window with
  | Some reason => safetyStopNavigation reason
  | None =>
      if nc_status c =? STATUS_REJECTED then
        safetyStopNavigation "planner backend planner failed without a valid backup trajectory"
      else if nc_status c =? STATUS_COMPLETED then update_completed s c
      else if tx_velocity_only_enabled experiment then
        let! published :=
          (match sn_velocity_only s with
           | Some snapshot => publishVelocityOnlySetpoint c snapshot now_ns
           | None => ret false
           end) in
        if published then ret tt
        else
          let! reason := read (fun _ st =>
            let last := velocity_only_last_reason (nm_thread st) in
            if string_empty last then "velocity-only setpoint unavailable"%string else last) in
          requestVelocityOnlyHold reason
      else
        match tracking_setpoint s c with
        | None => safetyStopNavigation "planner backend PVA command is not representable by PX4"
        | Some sp => publish (fun _ => [eff_setpoint boundary_kTracking sp])
        end
  end.

(** No command yet: hold the measured position during the acquisition window. *)
Definition update_without_command (s : SetpointSnapshot) : op unit :=
  let! start_ns := read (fun _ st => airborne_start_ns (nm_thread st)) in
  if (0 <? start_ns) && (start_ns <=? sn_now_ns s)
     && fle (ns_to_s (sn_now_ns s - start_ns)) (trajectory_wait_timeout_s cfg) then
    publish (fun _ => publishStationary s (od_position <$> sn_odometry s))
  else safetyStopNavigation "planner backend PVA command unavailable".

(** From the health gate on. *)
Definition update_airborne (s : SetpointSnapshot) (since_activation_s : f64) : op unit :=
  let! lio := read (fun _ st => nm_lio st) in
  let! steady_ns := steady_clock in
  match health_verdict lio (sn_now_ns s) steady_ns since_activation_s with
  | health_wait => publish (fun _ => publishStationary s None)
  | health_failed => failNavigation "FAST-LIO navigation health invalid or stale"
  | health_ok =>
      match sn_command s with
      | Some c => update_command s c
      | None => update_without_command s
      end
  end.

Definition updateSetpoint : op unit :=
  let! s := setpoint_snapshot in
  let! hold := terminal_section s in
  match hold with
  | Some true => safetyStopNavigation "terminal hold position is not representable by PX4"
  | Some false => ret tt
  | None =>
      let! (since_activation_s, armed) := read (fun env st =>
        (duration_seconds (sn_now_ns s - activation_time_ns (nm_thread st)), env_armed env)) in
      if negb armed || on_ground (sn_odometry s) then publish (fun _ => publishStationary s None)
      else
        update (fun _ st =>
          if airborne_start_ns (nm_thread st) =? 0 then set_airborne_start st (sn_now_ns s) else st) ;;
        let! steady_ns := steady_clock in
        let source_ns :=
          match sn_odometry s with
          | Some o => default 0 (rosTimeToNanoseconds (od_stamp o))
          | None => 0
          end in
        let freshness :=
          evaluateExecutionStateFreshness (sn_now_ns s) source_ns steady_ns
            (sn_odometry_receive_steady_ns s) (state_stale_after_s cfg) in
        if negb (freshness_valid freshness) then
          failNavigation "navigation odometry stale before setpoint update"
        else update_airborne s since_activation_s
  end.
End Mode.
