(* ===== verification/NavigationModeProps.v ===== *)
(** * Theorems on the PX4 external mode

    Rely-guarantee verification of [NavigationMode]: the invariant of its state,
    the guarantee every critical section of the PX4 thread meets under any
    interference of the state-input thread, and the properties of the published
    setpoints that follow. *)

From stdpp Require Import relations.
From S2P Require Import Prelude Float64 Float64Facts TimeNs Geometry CommandContract TrackingGuard VelocityOnly Messages CriticalSections NavigationMode AdapterProps.

Abbreviation entry := (@entry Env NavigationMode Effect).
Abbreviation history := (list entry).

Section ModeProps.
Context {E : EigenOps} {N : EigenNormOps} {M : EigenMatOps} {L : LibmOps} {P : Px4Ros2}.
Variable cfg : ModeParameters.

(** ** The two threads *)

(** The operations of the PX4 thread. *)
Inductive mode_operation : op unit -> Prop :=
| mode_onActivate : mode_operation (onActivate cfg)
| mode_onDeactivate : mode_operation (onDeactivate cfg)
| mode_checkArming : mode_operation (checkArmingAndRunConditions cfg)
| mode_onNavigationCommand m : mode_operation (onNavigationCommand cfg m)
| mode_onMissionProgress m : mode_operation (onMissionProgress cfg m)
| mode_updateBoundary : mode_operation (updateBoundary cfg)
| mode_updateSetpoint : mode_operation (updateSetpoint cfg).

(** The operations of the state-input thread. *)
Inductive state_input (env : Env) (st : NavigationMode) : NavigationMode -> Prop :=
| input_odometry m : state_input env st (onOdometry cfg env m st).2
| input_local_position m : state_input env st (onPx4LocalPosition env m st)
| input_health m : state_input env st (onEstimatorHealth env m st).

Definition mode_reachable : @system Env NavigationMode Effect -> Prop :=
  system_reachable mode_operation state_input (eq mode_initial).

(** ** The invariant *)

(** What the mode knows about the command it holds. *)
Record command_ok (st : NavigationMode) (c : NavigationCommand) : Prop := {
  co_contract : commandContractValid c (planning_frame cfg) = true;
  co_health_seen : typed_health_seen (nm_lio st) = true;
  co_epoch : nc_localization_epoch c = lio_localization_epoch (nm_lio st);
  co_epoch_valid : nc_localization_epoch c <> 0;
  co_activation :
    mode_activation_id (nm_ownership st) = 0
    \/ nc_mode_activation_id c = mode_activation_id (nm_ownership st);
  co_no_failure : failure_reported (nm_ownership st) = false;
  co_handover : handover_requested (nm_ownership st) = true ->
                has (mission_completion_receipt (nm_ownership st)) = true
}.

Definition mode_inv (st : NavigationMode) : Prop := forall c, held st = Some c -> command_ok st c.

(** The state-input thread leaves the PX4 thread's state alone and can only
    revoke the command. *)
Definition mode_rely (st st' : NavigationMode) : Prop :=
  nm_thread st' = nm_thread st /\ (held st' = held st \/ held st' = None).

#[local] Instance mode_rely_preorder : PreOrder mode_rely.
Proof.
  split; [by intros st; split; [|left]|].
  intros a b c [H1 H2] [H3 H4]. split; [congruence|].
  destruct H4 as [->| ->]; [done|by right].
Qed.

(** ** The guarantee *)

Definition activated (st st' : NavigationMode) : Prop :=
  mode_active (nm_ownership st') = true /\ held st' = None
  /\ (mode_activation_id (nm_ownership st') = mode_activation_id (nm_ownership st) + 1
      \/ failure_reported (nm_ownership st') = true).

Definition admitted (st st' : NavigationMode) : Prop :=
  exists m, held st' = Some m /\ terminal (nm_ownership st) = false
    /\ forall c, held st = Some c ->
         nc_sample_id c < nc_sample_id m /\ nc_mission_id m = nc_mission_id c
         /\ commandWorldIdentityNonRegressing m c = true.

Definition transition_ok (st st' : NavigationMode) : Prop :=
  (terminal (nm_ownership st) = true -> terminal (nm_ownership st') = true \/ activated st st')
  /\ (held st' = held st \/ held st' = None \/ admitted st st')
  /\ (planner_recovery_pending (nm_recovery st) = true ->
      planner_recovery_pending (nm_recovery st') = true -> nm_recovery st' = nm_recovery st).

(** The snapshot was taken by one section of the operation. *)
Definition taken (h : history) (s : SetpointSnapshot) : Prop :=
  exists e, e ∈ h /\ mode_inv (en_before e) /\ sn_command s = held (en_before e)
    /\ sn_odometry s = odometry (nm_lio (en_before e))
    /\ sn_odometry_receive_steady_ns s = last_odometry_receive_steady_ns (nm_lio (en_before e))
    /\ sn_velocity_only s = velocity_only_snapshot cfg (en_before e)
    /\ sn_translation s = current_translation cfg (en_env e) (en_before e).

(** The odometry of the snapshot was fresh at a steady reading of the operation. *)
Definition fresh (h : history) (s : SetpointSnapshot) : Prop :=
  exists e o, e ∈ h /\ sn_odometry s = Some o
    /\ freshness_valid
         (evaluateExecutionStateFreshness (sn_now_ns s)
            (default 0 (rosTimeToNanoseconds (od_stamp o))) (env_steady_ns (en_env e))
            (sn_odometry_receive_steady_ns s) (state_stale_after_s cfg)) = true.

(** The estimator was found healthy by one section of the operation. *)
Definition health_checked (h : history) (s : SetpointSnapshot) : Prop :=
  exists e steady_ns since, e ∈ h
    /\ health_verdict cfg (nm_lio (en_before e)) (sn_now_ns s) steady_ns since = health_ok.

(** The command of the snapshot may be executed at the instant of the snapshot. *)
Definition executable (h : history) (s : SetpointSnapshot) (c : NavigationCommand) : Prop :=
  sn_command s = Some c /\ taken h s /\ fresh h s /\ health_checked h s.

Definition in_lease (s : SetpointSnapshot) (c : NavigationCommand) : Prop :=
  commandValidAt c (sn_now_ns s) = true /\ sn_now_ns s - header_ns c <= stale_after_ns cfg.

Definition moving (c : NavigationCommand) : Prop :=
  nc_status c = STATUS_READY \/ nc_status c = STATUS_BRAKING.

(** What justifies a setpoint published at the end of history [h]. *)
Definition setpoint_ok (h : history) (b : Px4InputTraceBoundary) (sp : TrajectorySetpoint) : Prop :=
  match b with
  | boundary_kVelocityHold => ts_velocity_ned_m_s sp = Some vec3f_zero
  | boundary_kPositionHold =>
      ts_velocity_ned_m_s sp = Some vec3f_zero
      /\ exists s c, executable h s c /\ nc_status c = STATUS_COMPLETED
           /\ position_hold_setpoint s (nc_position c) = Some sp
           /\ tx_velocity_only_enabled (tracking_experiment cfg) = false
  | boundary_kTracking =>
      exists s c, executable h s c /\ in_lease s c /\ moving c
        /\ tracking_setpoint s c = Some sp
        /\ tx_velocity_only_enabled (tracking_experiment cfg) = false
  | boundary_kVelocityOnly =>
      exists s c v steady_ns out, executable h s c /\ in_lease s c /\ nc_status c = STATUS_READY
        /\ sn_velocity_only s = Some v
        /\ velocity_only_output cfg c v (sn_now_ns s) steady_ns = inl out /\ sp = vo_setpoint out
  end.

Definition effect_ok (h : history) (st : NavigationMode) (e : Effect) : Prop :=
  match e with
  | eff_setpoint b sp =>
      setpoint_ok h b sp /\ (b <> boundary_kVelocityHold -> terminal (nm_ownership st) = false)
  | eff_admission r =>
      exists e c stamp id, e ∈ h /\ held (en_after e) = Some c /\ admitted (en_before e) (en_after e)
        /\ r = admission_receipt cfg stamp id c
  | eff_completed result_Success =>
      exists e, e ∈ h /\ terminal (nm_ownership (en_before e)) = false
        /\ has (mission_completion_receipt (nm_ownership (en_after e))) = true
  | _ => True
  end.

Definition mode_guarantee (h : history) : Prop :=
  match h with
  | [] => True
  | e :: h => transition_ok (en_before e) (en_after e)
              /\ Forall (effect_ok h (en_before e)) (en_effects e)
  end.

Abbreviation mwp := (wp mode_inv mode_rely mode_guarantee).

(** Authority is open after the last section. *)
Definition open_after (h : history) : Prop :=
  match h with [] => False | e :: _ => terminal (nm_ownership (en_after e)) = false end.

Lemma open_before h st : open_after h -> follows mode_rely h st -> terminal (nm_ownership st) = false.
Proof. destruct h as [|e h]; simpl; [done|]. by intros H [-> _]. Qed.

Lemma transition_refl st : transition_ok st st.
Proof. split_and!; auto. Qed.
#[local] Hint Resolve transition_refl : core.

(** Only the command may be dropped, nothing else of the guarantee is touched. *)
Lemma transition_same_thread st st' :
  nm_thread st' = nm_thread st -> held st' = held st \/ held st' = None -> transition_ok st st'.
Proof. intros Ht Hc. unfold transition_ok. rewrite Ht. split_and!; [by left|tauto|done]. Qed.

(** Histories only grow. *)
Lemma taken_cons e h s : taken h s -> taken (e :: h) s.
Proof. intros (x & Hx & ?). exists x. split; [by right|done]. Qed.
Lemma fresh_cons e h s : fresh h s -> fresh (e :: h) s.
Proof. intros (x & o & Hx & ?). exists x, o. split; [by right|done]. Qed.
Lemma health_checked_cons e h s : health_checked h s -> health_checked (e :: h) s.
Proof. intros (x & n & t & Hx & ?). exists x, n, t. split; [by right|done]. Qed.
Lemma executable_cons e h s c : executable h s c -> executable (e :: h) s c.
Proof.
  intros (? & ? & ? & ?). split_and!; auto using taken_cons, fresh_cons, health_checked_cons.
Qed.
#[local] Hint Resolve taken_cons fresh_cons health_checked_cons executable_cons : core.

(** ** The state-input thread *)

Lemma align_shared env st :
  let st' := tryAlignPx4LocalFrameLocked env st in
  nm_thread st' = nm_thread st /\ nm_lio st' = nm_lio st /\ held st' = held st.
Proof.
  unfold tryAlignPx4LocalFrameLocked. cbv zeta.
  repeat case_match; split_and!; reflexivity.
Qed.

Lemma inv_same_lio st st' :
  mode_inv st -> nm_thread st' = nm_thread st -> held st' = held st ->
  typed_health_seen (nm_lio st') = true \/ typed_health_seen (nm_lio st') = typed_health_seen (nm_lio st) ->
  lio_localization_epoch (nm_lio st') = lio_localization_epoch (nm_lio st) -> mode_inv st'.
Proof.
  intros Hinv Ht Hc Hs He c. rewrite Hc. intros [? ? ? ? ? ? ?]%Hinv.
  split; rewrite ?Ht, ?He; auto. destruct Hs as [->| ->]; done.
Qed.

Lemma input_ok_same st st' :
  nm_thread st' = nm_thread st -> held st' = held st ->
  typed_health_seen (nm_lio st') = true \/ typed_health_seen (nm_lio st') = typed_health_seen (nm_lio st) ->
  lio_localization_epoch (nm_lio st') = lio_localization_epoch (nm_lio st) ->
  mode_inv st -> mode_inv st' /\ mode_rely st st'.
Proof.
  intros Ht Hc Hs He Hinv. split; [by eapply inv_same_lio|]. split; [done|by left].
Qed.

Lemma odometry_input_ok env m st :
  mode_inv st -> mode_inv (onOdometry cfg env m st).2 /\ mode_rely st (onOdometry cfg env m st).2.
Proof.
  destruct m as [m|]; simpl; [|by split].
  repeat (case_match; [by split|]); simpl.
  match goal with |- context [tryAlignPx4LocalFrameLocked env ?x] =>
    destruct (align_shared env x) as (Ht & Hl & Hh) end.
  apply (input_ok_same); rewrite ?Ht, ?Hl, ?Hh; auto.
Qed.

Lemma local_position_input_ok env m st :
  mode_inv st -> mode_inv (onPx4LocalPosition env m st) /\ mode_rely st (onPx4LocalPosition env m st).
Proof.
  destruct m as [m|]; simpl; [|by split].
  case_match; [by split|]. case_match.
  match goal with |- context [tryAlignPx4LocalFrameLocked env ?x] =>
    destruct (align_shared env x) as (Ht & Hl & Hh) end.
  apply (input_ok_same); rewrite ?Ht, ?Hl, ?Hh; simpl; case_match; auto.
Qed.

Lemma health_input_ok env m st :
  mode_inv st -> mode_inv (onEstimatorHealth env m st) /\ mode_rely st (onEstimatorHealth env m st).
Proof.
  intros Hinv. destruct m as [m|]; simpl; [|by split].
  case_match; [by split|].
  case_match; [apply (input_ok_same); auto|].
  case_match; [apply (input_ok_same); auto|].
  destruct (negb (lio_localization_epoch (nm_lio st) =? 0)
            && negb (lio_localization_epoch (nm_lio st) =? eh_localization_epoch m)) eqn:Hc.
  - split; [by intros c|]. split; [done|by right].
  - destruct (held st) as [c|] eqn:Hh.
    + apply (input_ok_same); simpl; auto.
      destruct (Hinv _ Hh) as [? ? He Hn ? ? ?].
      rewrite andb_false_iff, !negb_false_iff, !Z.eqb_eq in Hc. lia.
    + split; [by intros c; simpl; rewrite Hh|]. split; [done|by left].
Qed.

Lemma input_ok env st st' : state_input env st st' -> mode_inv st -> mode_inv st' /\ mode_rely st st'.
Proof. intros [m|m|m]; [apply odometry_input_ok|apply local_position_input_ok|apply health_input_ok]. Qed.

(** ** Sections that change nothing of the guarantee *)

Lemma guarantee_effects env st es st' h :
  transition_ok st st' -> Forall (effect_ok h st) es ->
  mode_guarantee (Entry env st es st' :: h).
Proof. by split. Qed.

(** A reading. *)
Lemma wp_read {A B} (f : Env -> NavigationMode -> B) (k : B -> op A) h Q :
  (forall env st, mode_inv st -> follows mode_rely h st ->
     mwp (k (f env st)) (Entry env st [] st :: h) Q) ->
  mwp (bind (read f) k) h Q.
Proof. intros Hk env st Hinv Hf. simpl. split_and!; auto. Qed.

(** A publication. *)
Lemma wp_publish {A} (f : Env -> list Effect) (k : unit -> op A) h Q :
  (forall env st, mode_inv st -> follows mode_rely h st ->
     Forall (effect_ok h st) (f env) /\ mwp (k tt) (Entry env st (f env) st :: h) Q) ->
  mwp (bind (publish f) k) h Q.
Proof. intros Hk env st Hinv Hf. simpl. destruct (Hk env st Hinv Hf). split_and!; auto. Qed.

Lemma wp_publish_last (f : Env -> list Effect) h :
  (forall env st, mode_inv st -> follows mode_rely h st -> Forall (effect_ok h st) (f env)) ->
  mwp (publish f) h (fun _ _ => True).
Proof. intros Hk env st Hinv Hf. simpl. split_and!; auto. Qed.

(** An update without effects. *)
Lemma wp_update {A} (f : Env -> NavigationMode -> NavigationMode) (k : unit -> op A) h Q :
  (forall env st, mode_inv st -> follows mode_rely h st ->
     mode_inv (f env st) /\ transition_ok st (f env st)
     /\ mwp (k tt) (Entry env st [] (f env st) :: h) Q) ->
  mwp (bind (update f) k) h Q.
Proof. intros Hk env st Hinv Hf. simpl. destruct (Hk env st Hinv Hf) as (? & ? & ?). split_and!; auto. Qed.

(** Any section, by the value it returns. *)
Lemma wp_section {A B} (section : Env -> NavigationMode -> B * NavigationMode * list Effect)
    (k : B -> op A) h Q :
  (forall env st b st' es, mode_inv st -> follows mode_rely h st -> section env st = (b, st', es) ->
     mode_inv st' /\ transition_ok st st' /\ Forall (effect_ok h st) es
     /\ mwp (k b) (Entry env st es st' :: h) Q) ->
  mwp (bind (lock section ret) k) h Q.
Proof.
  intros Hk env st Hinv Hf. destruct (section env st) as [[b st'] es] eqn:Hsec.
  destruct (Hk env st b st' es Hinv Hf Hsec) as (? & ? & ? & ?). split_and!; auto. by split.
Qed.

(** Updates of the thread's bookkeeping keep the invariant. *)
Lemma inv_bookkeeping st st' :
  nm_ownership st' = nm_ownership st -> nm_lio st' = nm_lio st -> held st' = held st ->
  mode_inv st -> mode_inv st'.
Proof.
  intros Ho Hl Hc Hinv c. rewrite Hc. intros [? ? ? ? ? ? ?]%Hinv. by split; rewrite ?Ho, ?Hl.
Qed.

Lemma transition_bookkeeping st st' :
  nm_ownership st' = nm_ownership st -> held st' = held st ->
  (planner_recovery_pending (nm_recovery st) = true ->
   planner_recovery_pending (nm_recovery st') = true -> nm_recovery st' = nm_recovery st) ->
  transition_ok st st'.
Proof. intros Ho Hc Hr. unfold transition_ok. rewrite Ho. split_and!; auto. Qed.

(** ** [publishStatus] and the ends of control *)

Lemma wp_publishStatus state reason h :
  mwp (publishStatus cfg state reason) h (fun _ h' => h ⊆ h').
Proof.
  unfold publishStatus. apply wp_read; intros env1 st1 Hi1 Hf1.
  apply wp_read; intros env2 st2 Hi2 Hf2.
  intros env st Hinv Hf. cbn. split_and!.
  - by apply (inv_bookkeeping st).
  - by apply transition_bookkeeping.
  - by constructor.
  - set_solver.
Qed.

(** A status and then the rest. *)
Lemma wp_status_then {A} state reason (k : unit -> op A) h Q :
  (forall h', h ⊆ h' -> mwp (k tt) h' Q) ->
  mwp (bind (publishStatus cfg state reason) k) h Q.
Proof.
  intros Hk. apply wp_bind. eapply wp_mono; [apply wp_publishStatus|]. intros [] h'. apply Hk.
Qed.

Lemma wp_status_last state reason h : mwp (publishStatus cfg state reason) h (fun _ _ => True).
Proof. eapply wp_mono; [apply wp_publishStatus|done]. Qed.

Lemma handover_effects_ok h st : Forall (effect_ok h st) (handover_effects cfg).
Proof. unfold handover_effects. case_match; by repeat constructor. Qed.
#[local] Hint Resolve handover_effects_ok : core.

Lemma latch_same st :
  nm_ownership (latch_safety_hold st) = nm_ownership st /\ nm_recovery (latch_safety_hold st) = nm_recovery st
  /\ nm_shared (latch_safety_hold st) = nm_shared st /\ nm_lio (latch_safety_hold st) = nm_lio st.
Proof. unfold latch_safety_hold. by repeat case_match. Qed.

Lemma wp_stop_with state reason h : mwp (stop_with cfg state reason) h (fun _ _ => True).
Proof.
  apply wp_section. intros env st first st' es Hinv Hf. unfold report_failure.
  destruct (failure_reported (nm_ownership st)) eqn:Hfail; intros [= <- <- <-].
  { split_and!; auto. done. }
  split_and!; [by intros c| |by constructor|].
  - destruct (latch_same st) as (_ & Hr & _ & _). split_and!; [by left|by right; left|].
    cbn. by rewrite Hr.
  - apply wp_status_then. intros h' _. by apply wp_publish_last.
Qed.

Lemma wp_safetyStop reason h : mwp (safetyStopNavigation cfg reason) h (fun _ _ => True).
Proof. apply wp_stop_with. Qed.

Lemma wp_failNavigation reason h : mwp (failNavigation cfg reason) h (fun _ _ => True).
Proof. apply wp_stop_with. Qed.
#[local] Hint Resolve wp_safetyStop wp_failNavigation wp_status_last : core.

Lemma wp_requestHold reason h : mwp (requestVelocityOnlyHold cfg reason) h (fun _ _ => True).
Proof.
  apply wp_update. intros env st Hinv Hf. split; [by intros c|]. split.
  - destruct (latch_same st) as (_ & Hr & _ & _). split_and!; [|by right; left|by cbn; rewrite Hr].
    intros _. left. apply orb_true_r.
  - apply wp_status_then. intros h' _. by apply wp_publish_last.
Qed.
#[local] Hint Resolve wp_requestHold : core.

(** ** Activation, boundary, mission completion *)

Lemma wp_updateBoundary h : mwp (updateBoundary cfg) h (fun _ _ => True).
Proof.
  apply wp_section. intros env st b st' es Hinv Hf. cbv zeta.
  destruct (negb (mode_active (nm_ownership st) && negb (terminal (nm_ownership st))));
    [intros [= <- <- <-]; split_and!; auto; done|].
  destruct (plannerRecoveryWaitExpired _ _ _); intros [= <- <- <-]; split_and!; auto.
  - by apply (inv_bookkeeping st).
  - by apply transition_bookkeeping.
Qed.
#[local] Hint Resolve wp_updateBoundary : core.

Lemma wp_onActivate h : mwp (onActivate cfg) h (fun _ _ => True).
Proof.
  apply wp_update. intros env st Hinv Hf. split; [by intros c|]. split.
  - split_and!; [|by right; left|done]. intros _. right. split_and!; [done..|].
    unfold activate. destruct (negb (mode_activation_id (nm_ownership st) <? u64_max)); cbn; auto.
  - apply wp_status_then. auto.
Qed.

Lemma wp_onDeactivate h : mwp (onDeactivate cfg) h (fun _ _ => True).
Proof.
  apply wp_update. intros env st Hinv Hf. split; [by intros c|]. split.
  - split_and!; [by left|by right; left|done].
  - apply wp_read. intros env' st' Hinv' Hf'. by case_match.
Qed.

Lemma wp_checkArming h : mwp (checkArmingAndRunConditions cfg) h (fun _ _ => True).
Proof.
  intros env st Hinv Hf. cbn. split_and!; auto.
  unfold run_conditions. repeat case_match; by repeat constructor.
Qed.

Lemma wp_onMissionProgress m h : mwp (onMissionProgress cfg m) h (fun _ _ => True).
Proof.
  destruct m as [m|]; [|done]. unfold onMissionProgress.
  destruct (negb (completion_message_valid m)); [done|].
  apply wp_section. intros env st b st' es Hinv Hf.
  destruct (completion_applies cfg m st) eqn:Happ; intros [= <- <- <-];
    [|split_and!; auto; done].
  split_and!.
  - intros c Hc. destruct (Hinv c Hc) as [? ? ? ? ? ? ?]. by split.
  - split_and!; [intros _; left; apply orb_true_r|by left|done].
  - by constructor.
  - apply wp_status_then. intros h' Hh. apply wp_publish_last. intros env' st' Hinv' Hf'.
    repeat constructor. eexists. split; [apply Hh; by left|]. split; [|done]. cbn.
    unfold completion_applies in Happ. unfold terminal. by bsplit.
Qed.

(** ** Command admission *)

Lemma wp_reject a m n1 n2 x1 x2 x3 x4 h :
  mwp (publishAdmissionRejection cfg a m n1 n2 x1 x2 x3 x4) h (fun _ _ => True).
Proof.
  unfold publishAdmissionRejection. destruct (accepted a); [done|].
  apply wp_publish_last. by repeat constructor.
Qed.
#[local] Hint Resolve wp_reject : core.

Lemma wp_reject_then {A} a m n1 n2 x1 x2 x3 x4 (k : unit -> op A) h Q :
  (forall h', mwp (k tt) h' Q) ->
  mwp (bind (publishAdmissionRejection cfg a m n1 n2 x1 x2 x3 x4) k) h Q.
Proof. intros Hk. apply wp_bind. eapply wp_mono; [apply wp_reject|]. by intros [] h' _. Qed.

(** The state after an admission. *)
Definition admit_state (m : NavigationCommand) (env : Env) (st : NavigationMode) : NavigationMode :=
  let s := nm_shared st in
  let o := nm_ownership st in
  set_ownership
    (set_shared st
       (mkSharedState (px4_local_frame_aligned s) (lio_to_px4_local_translation_ned s) (Some m)
          (env_now_ns env) (velocity_only_previous s) (velocity_only_reset_counters_seen s)))
    (mkOwnership false (mode_active o) (mission_completion_receipt o) (mode_activation_id o)
       (handover_requested o)).

(** The gates a command passed. *)
Record gates_passed (m : NavigationCommand) (env : Env) (st : NavigationMode)
    (freshness : ExecutionStateFreshness) : Prop := {
  gp_session :
    assessCommandSessionIdentity m (held st) (typed_health_seen (nm_lio st))
      (lio_health_valid (nm_lio st)
       || tx_suppress_estimator_health_response (tracking_experiment cfg))
      (lio_localization_epoch (nm_lio st)) (mode_activation_id (nm_ownership st)) = session_kValid;
  gp_freshness :
    freshness =
      evaluateExecutionStateFreshness (env_now_ns env)
        match odometry (nm_lio st) with
        | Some o => default 0 (rosTimeToNanoseconds (od_stamp o))
        | None => 0
        end (env_steady_ns env) (last_odometry_receive_steady_ns (nm_lio st))
        (state_stale_after_s cfg);
  gp_acceptance :
    classifyCommandAcceptance freshness (nc_sample_id m)
      (match held st with Some c => nc_sample_id c | None => 0 end) = gate_kAccept
}.

Lemma admission_gates_spec m env st a f :
  admission_gates cfg m env st = (a, f) ->
  (accepted a = true -> gates_passed m env st f)
  /\ caa_disposition a <> kIgnoreAfterTerminal /\ caa_disposition a <> kRejectSafetyStop.
Proof.
  unfold admission_gates. cbv zeta.
  destruct (negb (_ ==? session_kValid)) eqn:Hs; [by intros [= <- <-]|].
  apply negb_false_iff, bool_decide_eq_true in Hs.
  destruct (classifyCommandAcceptance _ _ _) eqn:Hg; intros [= <- <-]; split_and!; try done.
Qed.

(** An admission either changes nothing or installs the command. *)
Lemma admit_command_spec m env st a st' :
  admit_command cfg m env st = (a, st') ->
  (accepted (am_assessment a) = false /\ st' = st)
  \/ (am_assessment a = assessment_accept /\ st' = admit_state m env st
      /\ gates_passed m env st (am_freshness a)).
Proof.
  unfold admit_command. destruct (admission_gates cfg m env st) as [a0 f] eqn:Hg.
  apply admission_gates_spec in Hg as (Hg & _). cbv zeta.
  destruct (accepted a0) eqn:Ha0; simpl; [|intros [= <- <-]; by left].
  destruct (match odometry (nm_lio st) with Some _ => _ | None => _ end) as [envelope anchor_invalid].
  destruct anchor_invalid; intros [= <- <-]; [by left|right].
  split_and!; [done|done|]. by apply Hg.
Qed.

Lemma fresh_gate f n p : classifyCommandAcceptance f n p = gate_kAccept -> freshness_valid f = true /\ (p = 0 \/ p < n).
Proof.
  unfold classifyCommandAcceptance. destruct (freshness_valid f); simpl; [|done].
  destruct (negb (p =? 0) && (n <=? p)) eqn:Hc; [done|]. intros _. split; [done|].
  apply andb_false_iff in Hc as [Hc|Hc]; breflect; [by left|by right].
Qed.

(** A valid session. *)
Lemma session_valid m previous seen valid epoch id :
  assessCommandSessionIdentity m previous seen valid epoch id = session_kValid ->
  (seen = true /\ valid = true /\ nc_localization_epoch m <> 0 /\ nc_localization_epoch m = epoch)
  /\ (id = 0 \/ nc_mode_activation_id m = id)
  /\ forall c, previous = Some c ->
       nc_mission_id m = nc_mission_id c /\ commandWorldIdentityNonRegressing m c = true.
Proof.
  unfold assessCommandSessionIdentity, estimatorHealthAllowsCommand.
  destruct (negb (_ && _)) eqn:He; [done|].
  destruct (negb (id =? 0) && _) eqn:Hid; [done|]. intros H.
  apply negb_false_iff in He. split_and!; [by bsplit..| |].
  - apply andb_false_iff in Hid as [Hid|Hid]; breflect; auto.
  - intros c ->. destruct (_ !=? _) eqn:Hm; [done|].
    apply negb_false_iff, bool_decide_eq_true in Hm. split; [done|].
    destruct (if nc_goal_epoch m =? nc_goal_epoch c then _ else _); [done|].
    by destruct (commandWorldIdentityNonRegressing m c).
Qed.

Lemma contract_valid_sample c frame : commandContractValid c frame = true -> nc_sample_id c <> 0.
Proof.
  unfold commandContractValid, assessCommandContract. cbv zeta.
  rewrite bool_decide_eq_true. repeat (case_match; [done|]). intros _. by breflect.
Qed.

(** The admission section keeps the invariant and its guarantee. *)
Lemma admit_ok m env st f :
  mode_inv st -> commandContractValid m (planning_frame cfg) = true ->
  terminal (nm_ownership st) = false -> gates_passed m env st f ->
  mode_inv (admit_state m env st) /\ transition_ok st (admit_state m env st)
  /\ admitted st (admit_state m env st).
Proof.
  intros Hinv Hm Hopen [Hs -> Hg]. apply session_valid in Hs as ((Hseen & _ & He0 & He) & Hid & Hprev).
  apply fresh_gate in Hg as [_ Hg].
  assert (Had : admitted st (admit_state m env st)).
  { exists m. split_and!; [done..|]. intros c Hc. destruct (Hprev c Hc). split; [|done].
    rewrite Hc in Hg. destruct Hg as [Hg|]; [|done].
    by destruct (contract_valid_sample c (planning_frame cfg)); [apply Hinv in Hc as []|]. }
  split; [|split; [|done]]; [|split_and!; [congruence|by right; right|done]].
  intros c [= <-]. split; try done. cbn. intros Hh.
  unfold terminal in Hopen. rewrite Hh, orb_true_r in Hopen. done.
Qed.

Lemma open_recovery_ok st c now st' :
  open_recovery cfg st c now = Some st' -> mode_inv st -> mode_inv st' /\ transition_ok st st'.
Proof.
  unfold open_recovery. destruct (planner_recovery_pending (nm_recovery st)) eqn:Hp.
  { by intros [= <-]. }
  destruct (checkedTimestampAdd _ _); [|done]. intros [= <-] Hinv. split.
  - by apply (inv_bookkeeping st).
  - apply transition_bookkeeping; [done..|]. congruence.
Qed.

Lemma wp_clear_recovery {A} (k : unit -> op A) h Q :
  (forall h', mwp (k tt) h' Q) -> mwp (bind clear_recovery_section k) h Q.
Proof.
  intros Hk. apply wp_update. intros env st Hinv Hf. split_and!; [| |done].
  - by apply (inv_bookkeeping st).
  - by apply transition_bookkeeping.
Qed.

(** Opening the window and the stop when it cannot open. *)
Lemma wp_open_recovery c reason (now : Env -> Z) h :
  mwp (bind (lock (fun env st =>
                     match open_recovery cfg st c (now env) with
                     | Some st => (false, st, [])
                     | None => (true, st, [])
                     end) ret)
            (fun invalid : bool => if invalid then safetyStopNavigation cfg reason else ret tt))
      h (fun _ _ => True).
Proof.
  apply wp_section. intros env st b st' es Hinv Hf.
  destruct (open_recovery cfg st c (now env)) as [st1|] eqn:Ho; intros [= <- <- <-].
  - apply open_recovery_ok in Ho as [? ?]; [|done]. by split_and!.
  - split_and!; auto.
Qed.

Lemma wp_finishAcceptedCommand e m a h :
  e ∈ h -> held (en_after e) = Some m -> admitted (en_before e) (en_after e) ->
  mwp (finishAcceptedCommand cfg m a) h (fun _ _ => True).
Proof.
  intros He Hm Had. apply wp_read; intros env1 st1 Hi1 Hf1. apply wp_read; intros env2 st2 Hi2 Hf2.
  apply wp_publish. intros env st Hinv Hf. split.
  { repeat constructor. exists e, m. do 2 eexists. split_and!; [do 2 right; exact He|done..]. }
  destruct (am_completed a && am_recovery_needed a); [apply wp_open_recovery|].
  destruct (negb (am_completed a)); [by apply wp_clear_recovery|].
  destruct (am_backup_hold a || am_main_hold a); [by apply wp_clear_recovery|done].
Qed.

Lemma wp_retain {A} (k : unit -> op A) h Q :
  (forall h', mwp (k tt) h' Q) ->
  mwp (bind (update (fun _ st => transition_command st None kRetain)) k) h Q.
Proof.
  intros Hk. apply wp_update. intros env st Hinv Hf. split_and!; [| |done].
  - by apply (inv_bookkeeping st).
  - by apply transition_bookkeeping.
Qed.

Lemma ingress_accepted m now :
  accepted (ingress_assessment cfg (Some m) now) = true ->
  commandContractValid m (planning_frame cfg) = true /\ commandValidAt m now = true.
Proof.
  unfold ingress_assessment, commandContractValid, commandValidAt. cbv zeta.
  destruct (_ ==? contract_kValid); [|done]. by destruct (_ ==? temporal_kValid).
Qed.

Lemma wp_onNavigationCommand message h : mwp (onNavigationCommand cfg message) h (fun _ _ => True).
Proof.
  apply wp_read; intros env1 st1 Hi1 Hf1. apply wp_read; intros env2 st2 Hi2 Hf2.
  destruct message as [m|]; cbv zeta beta; [|by apply wp_retain].
  destruct (accepted (ingress_assessment cfg (Some m) (env_now_ns env1))) eqn:Hin; simpl negb;
    [|by apply wp_retain].
  apply ingress_accepted in Hin as [Hcontract _].
  apply wp_read; intros env3 st3 Hi3 Hf3.
  destruct (terminal (nm_ownership st3)) eqn:Hopen; [auto|].
  apply wp_section. intros env st a st' es Hinv Hf.
  destruct (admit_command cfg m env st) as [a0 st0] eqn:Had. intros [= -> -> <-].
  assert (Hopen' : terminal (nm_ownership st) = false) by (destruct Hf as [-> _]; done).
  apply admit_command_spec in Had as [[Ha ->]|(Ha & -> & Hg)].
  - split_and!; auto. unfold accepted in Ha. apply bool_decide_eq_false in Ha.
    destruct (caa_disposition (am_assessment a)); try done; auto using wp_reject_then.
  - destruct (admit_ok m env st _ Hinv Hcontract Hopen' Hg) as (? & ? & ?).
    split_and!; auto. rewrite Ha. cbn [caa_disposition assessment_accept].
    by eapply wp_finishAcceptedCommand; [by left|..].
Qed.

(** ** [updateSetpoint] *)

Lemma open_read h env st es :
  open_after h -> follows mode_rely h st -> open_after (Entry env st es st :: h).
Proof. apply open_before. Qed.
#[local] Hint Resolve open_read : core.

(** A reading of an operation whose authority is open. *)
Lemma wp_read_open {A B} (f : Env -> NavigationMode -> B) (k : B -> op A) h Q :
  open_after h ->
  (forall env st e, mode_inv st -> open_after (e :: h) -> e = Entry env st [] st ->
     mwp (k (f env st)) (e :: h) Q) ->
  mwp (bind (read f) k) h Q.
Proof. intros Ho Hk. apply wp_read. intros env st Hinv Hf. apply Hk; auto. Qed.

Lemma stationary_ok h st s p : Forall (effect_ok h st) (publishStationary cfg s p).
Proof. by repeat constructor. Qed.
#[local] Hint Resolve stationary_ok : core.

Lemma wp_stationary s p h : mwp (publish (fun _ => publishStationary cfg s p)) h (fun _ _ => True).
Proof. apply wp_publish_last. auto. Qed.
#[local] Hint Resolve wp_stationary : core.

(** The lease of a command that is not completed. *)
Lemma not_expired_in_lease s c receive window :
  command_expired cfg c (sn_now_ns s) receive window = None -> window = false -> in_lease s c.
Proof.
  unfold command_expired. cbv zeta. intros H ->. revert H. rewrite !andb_true_r. simpl negb.
  destruct (_ && _); [done|]. destruct (_ || _) eqn:Hs; [done|]. simpl andb.
  destruct (negb (commandValidAt c (sn_now_ns s))) eqn:Hv; [done|]. intros _.
  apply negb_false_iff in Hv. split; [done|].
  apply orb_false_iff in Hs as [Hs1 Hs2]. apply orb_false_iff in Hs1 as [_ Hs1].
  apply andb_false_iff in Hs2 as [Hs2|Hs2]; breflect; lia.
Qed.

Lemma recovery_window_completed c now st :
  nc_status c <> STATUS_COMPLETED -> recovery_window_open c now st = false.
Proof.
  intros Hc. unfold recovery_window_open, terminalRecoveryCommandMayBeHeld.
  by apply Z.eqb_neq in Hc as ->.
Qed.

Lemma contract_status c frame :
  commandContractValid c frame = true ->
  nc_status c = STATUS_COMPLETED \/ nc_status c = STATUS_REJECTED \/ moving c.
Proof.
  unfold commandContractValid, assessCommandContract, moving. cbv zeta. rewrite bool_decide_eq_true.
  repeat (case_match; [done|]). intros _.
  match goal with H : negb (_ || _ || _) = false |- _ => apply negb_false_iff in H end.
  breflect. tauto.
Qed.

Lemma executable_contract h s c :
  executable h s c -> commandContractValid c (planning_frame cfg) = true.
Proof. intros (Hs & (e & _ & Hinv & Hc & _) & _). by apply Hinv; rewrite <-Hc. Qed.

Lemma wp_update_completed s c h :
  executable h s c -> open_after h -> nc_status c = STATUS_COMPLETED ->
  mwp (update_completed cfg s c) h (fun _ _ => True).
Proof.
  intros Hex Hopen Hc. unfold update_completed.
  destruct (tx_velocity_only_enabled _) eqn:Hvo; [auto|].
  destruct (position_hold_setpoint s (nc_position c)) as [sp|] eqn:Hsp; [|auto].
  apply wp_publish. intros env st Hinv Hf. split.
  - repeat constructor; [|by exists s, c|by intros _; eapply open_before].
    unfold position_hold_setpoint in Hsp. case_match; [|done]. by injection Hsp as <-.
  - apply wp_read. intros env' st' Hinv' Hf'.
    destruct (_ && negb (has _)); [|done]. apply wp_open_recovery.
Qed.

Lemma wp_publishVelocityOnly s c v h :
  executable h s c -> open_after h -> in_lease s c -> sn_velocity_only s = Some v ->
  mwp (publishVelocityOnlySetpoint cfg c v (sn_now_ns s)) h (fun _ _ => True).
Proof.
  intros Hex Hopen Hl Hv. apply wp_read_open; [done|]. intros env st e Hinv Ho ->.
  destruct (velocity_only_output _ _ _ _ _) as [out|reason] eqn:Hout.
  - apply wp_update. intros env1 st1 Hi1 Hf1. split_and!.
    + by apply (inv_bookkeeping st1).
    + by apply transition_bookkeeping.
    + apply wp_publish. intros env2 st2 Hi2 Hf2. split; [|done].
      repeat constructor.
      * exists s, c, v, (env_steady_ns env), out. split_and!; auto.
        unfold velocity_only_output in Hout. cbv zeta in Hout.
        destruct (_ && negb (certified_emergency c)) in Hout; [done|].
        destruct (nc_status c =? STATUS_READY) eqn:Hst; [by apply Z.eqb_eq in Hst|done].
      * intros _. destruct Hf2 as [-> _]. cbn. by eapply open_before.
  - apply wp_update. intros env1 st1 Hi1 Hf1. split_and!; [| |done].
    + by apply (inv_bookkeeping st1).
    + by apply transition_bookkeeping.
Qed.

Lemma wp_update_command s c h :
  executable h s c -> open_after h -> mwp (update_command cfg s c) h (fun _ _ => True).
Proof.
  intros Hex Hopen. apply wp_read_open; [done|]. intros env1 st1 e1 Hi1 Ho1 ->.
  apply wp_read_open; [done|]. intros env2 st2 e2 Hi2 Ho2 ->.
  destruct (command_expired _ _ _ _ _) as [reason|] eqn:Hexp; [auto|].
  destruct (nc_status c =? STATUS_REJECTED) eqn:Hr; [auto|].
  destruct (nc_status c =? STATUS_COMPLETED) eqn:Hc.
  { apply wp_update_completed; auto. by apply Z.eqb_eq. }
  apply Z.eqb_neq in Hc, Hr.
  assert (Hl : in_lease s c).
  { eapply not_expired_in_lease; [exact Hexp|]. by apply recovery_window_completed. }
  assert (Hm : moving c).
  { destruct (contract_status c (planning_frame cfg)) as [|[|]]; [|done..].
    by eapply executable_contract. }
  destruct (tx_velocity_only_enabled _) eqn:Hvo.
  - apply wp_bind. apply (wp_mono _ _ _ _ _ (fun _ _ => True)).
    + destruct (sn_velocity_only s) eqn:Hv; [|done]. apply wp_publishVelocityOnly; auto.
    + intros [] h' _; [done|]. apply wp_read. intros env st Hinv Hf. auto.
  - destruct (tracking_setpoint s c) as [sp|] eqn:Hsp; [|auto].
    apply wp_publish_last. intros env st Hinv Hf. repeat constructor.
    + exists s, c. split_and!; auto.
    + intros _. by eapply open_before.
Qed.

Lemma wp_update_airborne s since h :
  taken h s -> fresh h s -> open_after h ->
  mwp (update_airborne cfg s since) h (fun _ _ => True).
Proof.
  intros Ht Hfr Hopen. apply wp_read_open; [done|]. intros env1 st1 e1 Hi1 Ho1 He1.
  apply wp_read_open; [done|]. intros env2 st2 e2 Hi2 Ho2 He2.
  destruct (health_verdict _ _ _ _ _) eqn:Hv; [auto..|].
  destruct (sn_command s) as [c|] eqn:Hc.
  - apply wp_update_command; [|done]. split_and!; auto.
    exists e1, (env_steady_ns env2), since. split; [right; left|]. by rewrite He1.
  - unfold update_without_command. apply wp_read. intros env st Hinv Hf. by case_match.
Qed.

Lemma wp_terminal_section {A} s (k : option bool -> op A) h Q :
  (forall b e, (b = None -> open_after (e :: h)) -> mwp (k b) (e :: h) Q) ->
  mwp (bind (terminal_section cfg s) k) h Q.
Proof.
  intros Hk. apply wp_section. intros env st b st' es Hinv Hf.
  destruct (terminal_hold_position s st) as [p|] eqn:Hp; intros [= <- <- <-]; split_and!; auto;
    apply Hk; [done|]. intros _. simpl.
  unfold terminal_hold_position in Hp. unfold terminal. repeat (case_match; [done|]). done.
Qed.

Lemma wp_updateSetpoint h : mwp (updateSetpoint cfg) h (fun _ _ => True).
Proof.
  apply wp_read. intros env1 st1 Hi1 Hf1. apply wp_read. intros env2 st2 Hi2 Hf2.
  apply wp_read. intros env3 st3 Hi3 Hf3. cbn [bind].
  match goal with |- mwp (bind (terminal_section cfg ?x) _) ?h _ =>
    set (s := x); assert (Ht : taken h s) end.
  { eexists. split; [right; left|]. split_and!; done. }
  generalize dependent s. intros s Ht.
  apply wp_terminal_section. intros [[]|] e Hopen; [auto|done|]. specialize (Hopen eq_refl).
  apply wp_read_open; [done|]. intros env4 st4 e4 Hi4 Ho4 ->. cbv beta iota.
  destruct (_ || on_ground (sn_odometry s)) eqn:Hg; [auto|].
  apply wp_update. intros env5 st5 Hi5 Hf5.
  set (st5' := if airborne_start_ns (nm_thread st5) =? 0 then _ else st5).
  assert (Ho5 : nm_ownership st5' = nm_ownership st5 /\ nm_lio st5' = nm_lio st5
                /\ held st5' = held st5 /\ nm_recovery st5' = nm_recovery st5).
  { subst st5'. by case_match. }
  destruct Ho5 as (Ho5 & Hl5 & Hh5 & Hr5).
  split_and!; [by apply (inv_bookkeeping st5)|by apply transition_bookkeeping|].
  apply wp_read_open. { simpl. rewrite Ho5. by eapply open_before. }
  intros env6 st6 e6 Hi6 Ho6 He6.
  destruct (freshness_valid _) eqn:Hfr; simpl negb; cbv iota; [|auto].
  apply wp_update_airborne; [auto 10| |done].
  destruct (sn_odometry s) as [o|] eqn:Hodo; [|by rewrite orb_true_r in Hg].
  exists e6, o. split; [left|]. by rewrite He6.
Qed.

(** ** Adequacy *)

Lemma mode_operation_wp p : mode_operation p -> mwp p [] (fun _ _ => True).
Proof.
  intros [| | |m|m| |]; auto using wp_onActivate, wp_onDeactivate, wp_checkArming,
    wp_onNavigationCommand, wp_onMissionProgress, wp_updateSetpoint.
Qed.

Lemma mode_reachable_ok s :
  mode_reachable s -> mode_inv (sy_state s) /\ guaranteed mode_guarantee (sy_history s).
Proof.
  intros Hs. edestruct (wp_adequacy mode_inv mode_rely mode_guarantee mode_operation state_input)
    as (? & ? & _); [..|exact Hs|done]; clear.
  - by intros st <- c.
  - intros env st st' Hin Hinv. by eapply input_ok.
  - intros env st st' Hin Hinv. by eapply input_ok.
  - apply mode_operation_wp.
Qed.

(** Every section of every operation meets the guarantee. *)
Lemma mode_section s h1 e h2 :
  mode_reachable s -> sy_history s = h1 ++ e :: h2 -> mode_guarantee (e :: h2).
Proof. intros [_ Hg]%mode_reachable_ok Hh. by eapply Hg. Qed.

(** ** Properties *)

(** C32. Whatever the interleaving, a command the mode holds satisfies the wire
    contract, belongs to the current localization epoch, which typed health has
    announced, and to the current activation; no failure is reported while it is
    held, and a handover is requested only because the mission was completed. *)
Theorem held_command_admissible s c :
  mode_reachable s -> held (sy_state s) = Some c -> command_ok (sy_state s) c.
Proof. intros [Hinv _]%mode_reachable_ok. apply Hinv. Qed.

(** Authority is closed for good: once a failure, a completion or a handover
    is recorded, every further critical section of the PX4 thread keeps it
    recorded until a new activation, admits no command, and publishes only
    setpoints of zero velocity. *)
Theorem closed_authority_latched s h1 e h2 :
  mode_reachable s -> sy_history s = h1 ++ e :: h2 ->
  terminal (nm_ownership (en_before e)) = true ->
  (terminal (nm_ownership (en_after e)) = true \/ activated (en_before e) (en_after e))
  /\ (held (en_after e) = held (en_before e) \/ held (en_after e) = None)
  /\ forall b sp, eff_setpoint b sp ∈ en_effects e ->
       b = boundary_kVelocityHold /\ ts_velocity_ned_m_s sp = Some vec3f_zero.
Proof.
  intros Hs Hh Ht. destruct (mode_section _ _ _ _ Hs Hh) as [(Hl & Hc & _) He].
  split_and!; [by apply Hl| |].
  - destruct Hc as [|[|(m & _ & Hopen & _)]]; [by left|by right|congruence].
  - intros b sp Hin. rewrite Forall_forall in He. destruct (He _ Hin) as [Hok Hopen].
    destruct (decide (b = boundary_kVelocityHold)) as [->|Hb]; [done|].
    apply Hopen in Hb. congruence.
Qed.


(** A velocity-only setpoint is the accepted output of the adapter and of the
    limiter for a READY command that an earlier section of the same operation
    found held, inside its lease, with fresh odometry and a healthy estimator,
    while authority is still open. *)
Theorem velocity_setpoint_justified s h1 e h2 sp :
  mode_reachable s -> sy_history s = h1 ++ e :: h2 ->
  eff_setpoint boundary_kVelocityOnly sp ∈ en_effects e ->
  terminal (nm_ownership (en_before e)) = false
  /\ exists n c e1 v steady_ns out, e1 ∈ h2 /\ held (en_before e1) = Some c
    /\ command_ok (en_before e1) c /\ commandValidAt c (sn_now_ns n) = true
    /\ nc_status c = STATUS_READY /\ velocity_only_snapshot cfg (en_before e1) = Some v
    /\ fresh h2 n /\ health_checked h2 n
    /\ velocity_only_output cfg c v (sn_now_ns n) steady_ns = inl out /\ sp = vo_setpoint out.
Proof.
  intros Hs Hh Hin. destruct (mode_section _ _ _ _ Hs Hh) as [_ He].
  rewrite Forall_forall in He.
  destruct (He _ Hin) as [(n & c & v & t & out & Hex & [Hv _] & Hst & Hn & Hout & ->) Hopen].
  split; [by apply Hopen|].
  destruct Hex as (Hc & (e1 & He1 & Hinv & Hc1 & _ & _ & Hvo & _) & Hf & Hhealth).
  rewrite Hc in Hc1. rewrite Hn in Hvo. exists n, c, e1, v, t, out. split_and!; auto.
Qed.

(** A critical section that replaces the held command does so while authority
    is open, by a command of the same mission with a strictly larger sample id and
    a world identity that does not regress. *)
Theorem command_replacement_monotone s h1 e h2 c m :
  mode_reachable s -> sy_history s = h1 ++ e :: h2 ->
  held (en_before e) = Some c -> held (en_after e) = Some m -> m <> c ->
  terminal (nm_ownership (en_before e)) = false
  /\ nc_sample_id c < nc_sample_id m /\ nc_mission_id m = nc_mission_id c
  /\ commandWorldIdentityNonRegressing m c = true.
Proof.
  intros Hs Hh Hc Hm Hne. destruct (mode_section _ _ _ _ Hs Hh) as [(_ & H & _) _].
  destruct H as [H|[H|(m' & Hm' & Hopen & H)]]; [congruence..|].
  split; [done|]. assert (m' = m) as -> by congruence. by apply H.
Qed.

(** An open recovery window is never extended or moved to another command: a
    section that leaves it open leaves its deadline and its episode unchanged. *)
Theorem recovery_window_fixed s h1 e h2 :
  mode_reachable s -> sy_history s = h1 ++ e :: h2 ->
  planner_recovery_pending (nm_recovery (en_before e)) = true ->
  planner_recovery_pending (nm_recovery (en_after e)) = true ->
  nm_recovery (en_after e) = nm_recovery (en_before e).
Proof. intros Hs Hh. by destruct (mode_section _ _ _ _ Hs Hh) as [(_ & _ & H) _]. Qed.

(** The velocity-only boundary never executes an emergency command: a certified
    emergency passes the authorisation test and is then refused by the status test,
    whatever its content. *)
Theorem certified_emergency_refused c v now_ns steady_ns :
  certified_emergency c = true ->
  velocity_only_output cfg c v now_ns steady_ns = inr "status_requires_native_px4_hold"%string.
Proof.
  intros Hc. unfold velocity_only_output. cbv zeta. rewrite Hc, andb_false_r.
  unfold certified_emergency in Hc. bsplit.
  destruct (nc_status c =? STATUS_READY) eqn:Hs; [|done].
  apply Z.eqb_eq in Hs. rewrite Hs in *. done.
Qed.
End ModeProps.

(** ** Witnesses *)

Definition px4_ros2_reference : Px4Ros2 := {|
  yawEnuToNed yaw := f32_sub (f32_of_f64 (f64_mul (f64_lit 1 2) f64_pi)) yaw;
  yawRateEnuToNed rate := fopp rate;
  duration_seconds ns := f64_div (f64_of_Z ns) (f64_of_Z 1000000000)
|}.

Section Witnesses.
#[local] Existing Instances eigen_reference libm_reference eigen_mat_reference px4_ros2_reference
  norm_reference.

Definition w_experiment (velocity_only : bool) : TrackingExperimentPolicy :=
  mkTrackingExperimentPolicy false false false fzero fzero fzero velocity_only (f64_of_Z 1)
    (f64_of_Z 3) (f64_of_Z 4) (f64_of_Z 20) (f64_of_Z 1) (f64_of_Z 1) fzero fzero.

Definition w_cfg (velocity_only : bool) : ModeParameters :=
  mkModeParameters "/command" "/state" "/status" "lio_odom" "base_link" (f64_lit 1 10)
    (f64_lit 1 5) (f64_of_Z 5) (f64_of_Z 5) (w_experiment velocity_only) true.

Definition w_ns (ms : Z) : Z := 1000000000000 + ms * 1000000.
Definition w_env (ms : Z) : Env := mkEnv (w_ns ms) (w_ns ms) true.
Definition w_stamp (ms : Z) : RosTime := mkRosTime (1000 + ms / 1000) (ms mod 1000 * 1000000).

Definition w_at : vec3 := Vec3 (f64_of_Z 1) (f64_of_Z 2) (f64_of_Z 3).

Definition w_health (ms : Z) : EstimatorHealth :=
  mkEstimatorHealth (w_stamp ms) 7 HEALTH_TRACKING (mkHealthFlags true true true true true).
Definition w_odometry (ms seq : Z) : PropagatedOdometry :=
  mkPropagatedOdometry
    (mkOdometry (w_stamp ms) "lio_odom" "base_link" w_at quat_identity vec3_zero) 7 seq.
Definition w_f32 (z : Z) : f32 := f32_of_f64 (f64_of_Z z).
Definition w_position (ms : Z) : VehicleLocalPosition :=
  mkVehicleLocalPosition (w_ns ms / 1000) (w_ns ms / 1000) (Vec3f (w_f32 2) (w_f32 1) (w_f32 (-3)))
    vec3f_zero f32_zero f32_zero true true true true reset_counters_zero false true.

Definition w_command (ms sample status role : Z) : NavigationCommand :=
  mkNavigationCommand (w_stamp ms) "lio_odom" 7 1 1 "mission" 0 1 1 1 (w_stamp ms) 1 false 0 sample
    (w_stamp ms) (w_stamp (ms + 100)) role status w_at vec3_zero vec3_zero vec3_zero fzero fzero
    fzero 0 0.

(** A mode that has been activated, has fresh inputs and an aligned frame, and holds
    a READY command. *)
Definition run_op (p : op unit) (ms : Z) (st : NavigationMode) : NavigationMode :=
  (execute p (w_env ms) [] st []).1.2.
Definition history_of (p : op unit) (ms : Z) (st : NavigationMode) : history :=
  (execute p (w_env ms) [] st []).2.

Definition w_inputs (v : bool) (ms seq : Z) (st : NavigationMode) : NavigationMode :=
  let st := onEstimatorHealth (w_env ms) (Some (w_health ms)) st in
  let st := onPx4LocalPosition (w_env ms) (Some (w_position ms)) st in
  (onOdometry (w_cfg v) (w_env ms) (Some (w_odometry ms seq)) st).2.

Definition w_active (v : bool) : NavigationMode := run_op (onActivate (w_cfg v)) 0 mode_initial.
Definition w_ready (v : bool) : NavigationMode := w_inputs v 3 1 (w_active v).
Definition w_admit (v : bool) (sample status role ms : Z) : op unit :=
  onNavigationCommand (w_cfg v) (Some (w_command ms sample status role)).
Definition w_holding (v : bool) (status : Z) : NavigationMode :=
  run_op (w_admit v 10 status ROLE_MAIN 4) 5 (w_ready v).
(** The next update comes half a second late: the odometry is stale. *)
Definition w_failed : NavigationMode :=
  run_op (updateSetpoint (w_cfg false)) 500 (w_holding false STATUS_READY).

Lemma w_operation v st h p ms :
  mode_reachable (w_cfg v) (System st None h) -> mode_operation (w_cfg v) p ->
  mode_reachable (w_cfg v) (System (run_op p ms st) None (history_of p ms st)).
Proof.
  intros Hs Hp. unfold run_op, history_of.
  destruct (execute p (w_env ms) [] st []) as [[a st'] h'] eqn:Hex.
  by eapply execute_reachable.
Qed.

Lemma w_inputs_reachable v ms seq st h :
  mode_reachable (w_cfg v) (System st None h) ->
  mode_reachable (w_cfg v) (System (w_inputs v ms seq st) None h).
Proof.
  intros Hs. do 3 (eapply input_reachable; [|constructor]). exact Hs.
Qed.

Lemma w_ready_reachable v : exists h, mode_reachable (w_cfg v) (System (w_ready v) None h).
Proof.
  eexists. apply w_inputs_reachable, w_operation with (h := []); [|constructor].
  exists mode_initial. split; [done|]. reflexivity.
Qed.

Lemma w_holding_reachable v status :
  exists h, mode_reachable (w_cfg v) (System (w_holding v status) None h).
Proof.
  destruct (w_ready_reachable v) as [h Hh]. eexists. by eapply w_operation; [exact Hh|constructor].
Qed.
(** The [n]th entry of a history, the newest first. *)
Lemma entry_split (h : history) n e : h !! n = Some e -> h = take n h ++ e :: drop (S n) h.
Proof. intros. symmetry. by apply take_drop_middle. Qed.

Definition nth_entry (h : history) (n : nat) : entry :=
  default (Entry (w_env 0) mode_initial [] mode_initial) (h !! n).

Lemma nth_entry_split (h : history) n :
  (n <? length h)%nat = true -> h = take n h ++ nth_entry h n :: drop (S n) h.
Proof.
  intros Hn%Nat.ltb_lt. apply entry_split. unfold nth_entry.
  by destruct (lookup_lt_is_Some_2 h n Hn) as [e ->].
Qed.

Lemma held_command_admissible_witness :
  command_ok (w_cfg false) (w_holding false STATUS_READY) (w_command 4 10 STATUS_READY ROLE_MAIN).
Proof.
  destruct (w_holding_reachable false STATUS_READY) as [h Hh].
  apply (held_command_admissible (w_cfg false) _ (w_command 4 10 STATUS_READY ROLE_MAIN) Hh).
  vm_compute. reflexivity.
Defined.

Definition w_update (v : bool) (ms : Z) (st : NavigationMode) : history :=
  history_of (updateSetpoint (w_cfg v)) ms st.

Lemma w_update_reachable v st h ms :
  mode_reachable (w_cfg v) (System st None h) ->
  exists st', mode_reachable (w_cfg v) (System st' None (w_update v ms st)).
Proof. intros Hs. eexists. by eapply w_operation; [exact Hs|constructor]. Qed.

Lemma w_failed_reachable : exists h, mode_reachable (w_cfg false) (System w_failed None h).
Proof.
  destruct (w_holding_reachable false STATUS_READY) as [h Hh].
  eexists. by eapply w_operation; [exact Hh|constructor].
Qed.

Lemma closed_authority_latched_witness :
  let e := nth_entry (w_update false 510 w_failed) 1 in
  (exists b sp, en_effects e = [eff_setpoint b sp])
  /\ (terminal (nm_ownership (en_after e)) = true \/ activated (en_before e) (en_after e)).
Proof.
  destruct w_failed_reachable as [h Hh]. destruct (w_update_reachable _ _ _ 510 Hh) as [st Hst].
  intros e. split; [eexists; eexists; vm_compute; reflexivity|].
  apply (closed_authority_latched (w_cfg false) _ _ e _ Hst
           (nth_entry_split (w_update false 510 w_failed) 1 ltac:(vm_compute; reflexivity))).
  vm_compute. reflexivity.
Defined.

(** An update that tracks the held command; with [true], at the velocity boundary. *)
Definition w_tracking (v : bool) : history := w_update v 6 (w_holding v STATUS_READY).

Lemma w_tracking_reachable v :
  exists st, mode_reachable (w_cfg v) (System st None (w_tracking v)).
Proof. destruct (w_holding_reachable v STATUS_READY) as [h Hh]. exact (w_update_reachable v _ h 6 Hh). Qed.


Lemma velocity_setpoint_justified_witness :
  exists sp n c e1, en_effects (nth_entry (w_tracking true) 0) = [eff_setpoint boundary_kVelocityOnly sp]
    /\ e1 ∈ drop 1 (w_tracking true) /\ held (en_before e1) = Some c
    /\ commandValidAt c (sn_now_ns n) = true /\ nc_status c = STATUS_READY.
Proof.
  destruct (w_tracking_reachable true) as [st Hst].
  assert (Heff : exists sp, en_effects (nth_entry (w_tracking true) 0)
                            = [eff_setpoint boundary_kVelocityOnly sp])
    by (eexists; vm_compute; reflexivity).
  destruct Heff as [sp Heff]. exists sp.
  destruct (velocity_setpoint_justified (w_cfg true) _ _ (nth_entry (w_tracking true) 0) _ sp Hst
              (nth_entry_split (w_tracking true) 0 ltac:(vm_compute; reflexivity)))
    as (_ & n & c & e1 & v & t & out & He1 & Hc & Hok & Hv & Hs & _).
  { rewrite Heff. left. }
  exists n, c, e1. exact (conj Heff (conj He1 (conj Hc (conj Hv Hs)))).
Defined.

(** The next command of the stream, and its admission section. *)
Definition w_next : op unit := w_admit false 11 STATUS_READY ROLE_MAIN 6.
Definition w_replacement : history := history_of w_next 7 (w_holding false STATUS_READY).

Lemma command_replacement_monotone_witness :
  nc_sample_id (w_command 4 10 STATUS_READY ROLE_MAIN)
  < nc_sample_id (w_command 6 11 STATUS_READY ROLE_MAIN).
Proof.
  destruct (w_holding_reachable false STATUS_READY) as [h Hh].
  assert (Hst : mode_reachable (w_cfg false)
                  (System (run_op w_next 7 (w_holding false STATUS_READY)) None w_replacement)).
  { eapply w_operation; [exact Hh|constructor]. }
  apply (command_replacement_monotone (w_cfg false) _ _ (nth_entry w_replacement 4) _
           (w_command 4 10 STATUS_READY ROLE_MAIN) (w_command 6 11 STATUS_READY ROLE_MAIN) Hst
           (nth_entry_split w_replacement 4 ltac:(vm_compute; reflexivity))).
  - vm_compute. reflexivity.
  - vm_compute. reflexivity.
  - by intros [=].
Defined.

Definition w_emergency : NavigationCommand :=
  mkNavigationCommand (w_stamp 4) "lio_odom" 7 1 1 "mission" 0 1 1 1 (w_stamp 4) 1 false 0 10
    (w_stamp 4) (w_stamp 104) ROLE_EMERGENCY STATUS_BRAKING w_at vec3_zero vec3_zero vec3_zero fzero
    fzero fzero EMERGENCY_AUTHORIZATION_CLEARANCE_EXCEEDED 1.

Lemma certified_emergency_refused_witness :
  exists v, velocity_only_snapshot (w_cfg true) (w_ready true) = Some v
    /\ velocity_only_output (w_cfg true) w_emergency v (w_ns 6) (w_ns 6)
       = inr "status_requires_native_px4_hold"%string.
Proof.
  eexists. split; [vm_compute; reflexivity|].
  apply (certified_emergency_refused (w_cfg true) w_emergency). vm_compute. reflexivity.
Defined.
End Witnesses.
