(* ===== verification/ModeExecutor.v ===== *)
(** * The mode executor

    [NavigationModeExecutor] of
    [px4/px4_navigation_external_mode/src/navigation_mode_node.cpp]: it starts the
    navigation mode and hands control to PX4's Hold mode, retrying a bounded number
    of times.  All its callbacks run on the PX4 thread. *)

From S2P Require Import Prelude CriticalSections NavigationMode.

Definition kMaxPx4HoldHandoverAttempts : Z := 3.

Definition shouldRetryPx4HoldHandover (attempts : Z) : bool :=
  attempts <? kMaxPx4HoldHandoverAttempts.

(** [kHoldRetryPeriodNs] *)
Definition kHoldRetryPeriodNs : Z := 250000000.

Record NavigationModeExecutor : Type := mkExecutor {
  px4_hold_confirmed : bool;
  hold_handover_pending : bool;
  hold_handover_in_flight : bool;
  hold_handover_complete_navigation_failure : bool;
  hold_handover_attempts : Z;
  hold_handover_next_retry_steady_ns : Z
}.

Definition executor_initial : NavigationModeExecutor := mkExecutor false false false false 0 0.

(** What [scheduleMode] is asked to start. *)
Inductive Scheduled : Type := schedule_owned_mode | schedule_hold.

#[export] Instance Scheduled_eq_dec : EqDecision Scheduled.
Proof. solve_decision. Defined.

(** [onVehicleStatus]: whether PX4 reports [NAVIGATION_STATE_AUTO_LOITER]. *)
Definition onVehicleStatus (auto_loiter : bool) (x : NavigationModeExecutor) : NavigationModeExecutor :=
  if auto_loiter then
    mkExecutor true false false (hold_handover_complete_navigation_failure x)
      (hold_handover_attempts x) (hold_handover_next_retry_steady_ns x)
  else
    mkExecutor false (hold_handover_pending x) (hold_handover_in_flight x)
      (hold_handover_complete_navigation_failure x) (hold_handover_attempts x)
      (hold_handover_next_retry_steady_ns x).

Definition schedulePx4Hold (complete_navigation_failure : bool) (x : NavigationModeExecutor)
    : NavigationModeExecutor * list Scheduled :=
  let failure := hold_handover_complete_navigation_failure x || complete_navigation_failure in
  let with_ pending in_flight attempts :=
    mkExecutor (px4_hold_confirmed x) pending in_flight failure attempts
      (hold_handover_next_retry_steady_ns x) in
  if px4_hold_confirmed x || hold_handover_in_flight x then
    (with_ true (hold_handover_in_flight x) (hold_handover_attempts x), [])
  else if negb (shouldRetryPx4HoldHandover (hold_handover_attempts x)) then
    (with_ false false (hold_handover_attempts x), [])
  else (with_ true true ((hold_handover_attempts x + 1) mod 2 ^ 32), [schedule_hold]).

Definition checkHoldHandover (now_steady_ns : Z) (x : NavigationModeExecutor)
    : NavigationModeExecutor * list Scheduled :=
  if hold_handover_pending x && negb (px4_hold_confirmed x) && negb (hold_handover_in_flight x)
     && (hold_handover_next_retry_steady_ns x <=? now_steady_ns) then
    schedulePx4Hold (hold_handover_complete_navigation_failure x) x
  else (x, []).

Definition executor_onActivate : NavigationModeExecutor * list Scheduled :=
  (executor_initial, [schedule_owned_mode]).

Definition onOwnedModeCompleted (result : Px4Result) (x : NavigationModeExecutor)
    : NavigationModeExecutor * list Scheduled :=
  match result with
  | result_Deactivated => (x, [])
  | _ => schedulePx4Hold false x
  end.

Definition onPx4HoldHandoverCompleted (result : Px4Result) (complete_navigation_failure : bool)
    (now_steady_ns : Z) (x : NavigationModeExecutor) : NavigationModeExecutor :=
  match result with
  | result_Success | result_Deactivated =>
      mkExecutor (px4_hold_confirmed x) false false (hold_handover_complete_navigation_failure x)
        (hold_handover_attempts x) (hold_handover_next_retry_steady_ns x)
  | _ =>
      mkExecutor (px4_hold_confirmed x) true false
        (hold_handover_complete_navigation_failure x || complete_navigation_failure)
        (hold_handover_attempts x) (now_steady_ns + kHoldRetryPeriodNs)
  end.

Definition executor_onDeactivate (x : NavigationModeExecutor) : NavigationModeExecutor :=
  executor_initial.

(** ** Runs *)

Inductive executor_event : Type :=
| event_activate
| event_deactivate
| event_vehicle_status (auto_loiter : bool)
| event_timer (now_steady_ns : Z)
| event_owned_completed (result : Px4Result)
| event_handover_requested
| event_hold_completed (result : Px4Result) (now_steady_ns : Z).

Definition executor_step (x : NavigationModeExecutor) (e : executor_event)
    : NavigationModeExecutor * list Scheduled :=
  match e with
  | event_activate => executor_onActivate
  | event_deactivate => (executor_onDeactivate x, [])
  | event_vehicle_status loiter => (onVehicleStatus loiter x, [])
  | event_timer now => checkHoldHandover now x
  | event_owned_completed r => onOwnedModeCompleted r x
  | event_handover_requested => schedulePx4Hold true x
  | event_hold_completed r now =>
      (onPx4HoldHandoverCompleted r (hold_handover_complete_navigation_failure x) now x, [])
  end.

Fixpoint executor_run (x : NavigationModeExecutor) (es : list executor_event)
    : NavigationModeExecutor * list Scheduled :=
  match es with
  | [] => (x, [])
  | e :: es =>
      let '(x, s) := executor_step x e in
      let '(x, ss) := executor_run x es in (x, s ++ ss)
  end.

(** The events inside one activation. *)
Definition within_activation (e : executor_event) : bool :=
  match e with event_activate | event_deactivate => false | _ => true end.

Definition holds (ss : list Scheduled) : Z := Z.of_nat (length (filter (eq schedule_hold) ss)).

(** ** Theorems *)

(** The attempt counter counts the Hold requests and never passes the bound. *)
Lemma executor_step_attempts x e :
  within_activation e = true ->
  0 <= hold_handover_attempts x <= kMaxPx4HoldHandoverAttempts ->
  let '(x', ss) := executor_step x e in
  hold_handover_attempts x' = hold_handover_attempts x + holds ss
  /\ 0 <= hold_handover_attempts x' <= kMaxPx4HoldHandoverAttempts
  /\ (holds ss <> 0 -> hold_handover_in_flight x = false /\ px4_hold_confirmed x = false
                      /\ hold_handover_in_flight x' = true).
Proof.
  intros He Hx.
  assert (Hs : forall b, let '(x', ss) := schedulePx4Hold b x in
    hold_handover_attempts x' = hold_handover_attempts x + holds ss
    /\ 0 <= hold_handover_attempts x' <= kMaxPx4HoldHandoverAttempts
    /\ (holds ss <> 0 -> hold_handover_in_flight x = false /\ px4_hold_confirmed x = false
                        /\ hold_handover_in_flight x' = true)).
  { intros b. unfold schedulePx4Hold, shouldRetryPx4HoldHandover. cbv zeta.
    destruct (px4_hold_confirmed x), (hold_handover_in_flight x); simpl; try (unfold holds; simpl; lia).
    destruct (negb _) eqn:Hlt; simpl; [unfold holds; simpl; lia|]. breflect.
    unfold kMaxPx4HoldHandoverAttempts in *. rewrite Z.mod_small by lia.
    change (holds [schedule_hold]) with 1. split_and!; [lia..|done]. }
  destruct e; simpl; try done; try (unfold holds; simpl; split_and!; lia || done).
  - unfold onVehicleStatus. destruct auto_loiter; unfold holds; simpl; split_and!; lia || done.
  - unfold checkHoldHandover. destruct (_ && _); [apply Hs|unfold holds; simpl; split_and!; lia || done].
  - unfold onOwnedModeCompleted. destruct result; try apply Hs.
    unfold holds; simpl; split_and!; lia || done.
  - apply Hs.
  - unfold onPx4HoldHandoverCompleted. destruct result; unfold holds; simpl; split_and!; lia || done.
Qed.

Lemma holds_app s1 s2 : holds (s1 ++ s2) = holds s1 + holds s2.
Proof. unfold holds. rewrite filter_app, length_app. lia. Qed.

Lemma executor_run_attempts es x :
  forallb within_activation es = true ->
  0 <= hold_handover_attempts x <= kMaxPx4HoldHandoverAttempts ->
  let '(x', ss) := executor_run x es in
  hold_handover_attempts x' = hold_handover_attempts x + holds ss
  /\ 0 <= hold_handover_attempts x' <= kMaxPx4HoldHandoverAttempts.
Proof.
  revert x. induction es as [|e es IH]; simpl; intros x Hes Hx; [unfold holds; simpl; lia|].
  apply andb_true_iff in Hes as [He Hes].
  pose proof (executor_step_attempts x e He Hx) as Hs.
  destruct (executor_step x e) as [x1 s1]. destruct Hs as (Hs & Hx1 & _).
  specialize (IH x1 Hes Hx1). destruct (executor_run x1 es) as [x2 s2].
  rewrite holds_app. lia.
Qed.

(** Inside one activation the executor asks PX4 for Hold at most three times,
    whatever the order of handover requests, timer ticks, completions and vehicle
    statuses; and it never asks while a request is in flight or Hold is confirmed. *)
Theorem hold_requests_bounded es e :
  forallb within_activation (es ++ [e]) = true ->
  let '(x, ss) := executor_run executor_initial es in
  holds ss + holds (executor_step x e).2 <= kMaxPx4HoldHandoverAttempts
  /\ ((executor_step x e).2 = [schedule_hold] ->
      hold_handover_in_flight x = false /\ px4_hold_confirmed x = false).
Proof.
  rewrite forallb_app. intros [Hes He]%andb_true_iff. simpl in He. rewrite andb_true_r in He.
  assert (H0 : 0 <= hold_handover_attempts executor_initial <= kMaxPx4HoldHandoverAttempts)
    by (unfold kMaxPx4HoldHandoverAttempts; simpl; lia).
  pose proof (executor_run_attempts es executor_initial Hes H0) as Hr.
  destruct (executor_run executor_initial es) as [x ss]. destruct Hr as [Hn Hx].
  pose proof (executor_step_attempts x e He Hx) as Hs.
  destruct (executor_step x e) as [x' s]. destruct Hs as (Hs & Hx' & Hq). simpl in *.
  split; [lia|]. intros ->. destruct Hq as (? & ? & _); [by vm_compute|done].
Qed.

Lemma hold_requests_bounded_witness :
  holds (executor_run executor_initial
           [event_handover_requested; event_hold_completed result_other 0;
            event_timer 250000000; event_hold_completed result_other 250000000;
            event_timer 500000000; event_hold_completed result_other 500000000]).2
  + holds (executor_step
             (executor_run executor_initial
                [event_handover_requested; event_hold_completed result_other 0;
                 event_timer 250000000; event_hold_completed result_other 250000000;
                 event_timer 500000000; event_hold_completed result_other 500000000]).1
             (event_timer 750000000)).2 <= kMaxPx4HoldHandoverAttempts.
Proof.
  exact (proj1 (hold_requests_bounded
           [event_handover_requested; event_hold_completed result_other 0;
            event_timer 250000000; event_hold_completed result_other 250000000;
            event_timer 500000000; event_hold_completed result_other 500000000]
           (event_timer 750000000) eq_refl)).
Defined.

(** A failed request is not repeated before the retry period. *)
Lemma hold_retry_period x b r now t :
  r <> result_Success -> r <> result_Deactivated -> t < now + kHoldRetryPeriodNs ->
  checkHoldHandover t (onPx4HoldHandoverCompleted r b now x)
  = (onPx4HoldHandoverCompleted r b now x, []).
Proof.
  intros Hr1 Hr2 Ht. unfold checkHoldHandover, onPx4HoldHandoverCompleted.
  destruct r; try done; simpl; rewrite (proj2 (Z.leb_gt _ _) Ht), !andb_false_r; done.
Qed.

(** One round: the timer fires after the retry instant, the request fails. *)
Definition failing_round (x : NavigationModeExecutor) (t1 t2 : Z) : NavigationModeExecutor :=
  (executor_run x [event_timer t1; event_hold_completed result_other t2]).1.

Definition waiting_to_retry (x : NavigationModeExecutor) : Prop :=
  hold_handover_pending x = true /\ hold_handover_in_flight x = false
  /\ px4_hold_confirmed x = false.

Lemma failing_round_spec x t1 t2 :
  waiting_to_retry x -> hold_handover_next_retry_steady_ns x <= t1 ->
  0 <= hold_handover_attempts x < kMaxPx4HoldHandoverAttempts ->
  let x' := failing_round x t1 t2 in
  waiting_to_retry x' /\ hold_handover_attempts x' = hold_handover_attempts x + 1
  /\ hold_handover_next_retry_steady_ns x' = t2 + kHoldRetryPeriodNs.
Proof.
  intros (Hp & Hf & Hc) Ht Ha. unfold failing_round. simpl. unfold checkHoldHandover.
  rewrite Hp, Hf, Hc, (proj2 (Z.leb_le _ _) Ht). simpl.
  unfold schedulePx4Hold, shouldRetryPx4HoldHandover. rewrite Hc, Hf.
  rewrite (proj2 (Z.ltb_lt _ _)) by lia. simpl.
  unfold kMaxPx4HoldHandoverAttempts in Ha. rewrite Z.mod_small by lia.
  rewrite orb_diag. done.
Qed.

(** Rounds whose timer ticks are due, and the state after them. *)
Fixpoint failing_rounds (x : NavigationModeExecutor) (rounds : list (Z * Z))
    : option NavigationModeExecutor :=
  match rounds with
  | [] => Some x
  | (t1, t2) :: rounds =>
      if hold_handover_next_retry_steady_ns x <=? t1
      then failing_rounds (failing_round x t1 t2) rounds else None
  end.

Lemma failing_rounds_spec rounds x x' :
  waiting_to_retry x -> 0 <= hold_handover_attempts x ->
  hold_handover_attempts x + Z.of_nat (length rounds) <= kMaxPx4HoldHandoverAttempts ->
  failing_rounds x rounds = Some x' ->
  waiting_to_retry x'
  /\ hold_handover_attempts x' = hold_handover_attempts x + Z.of_nat (length rounds).
Proof.
  revert x. induction rounds as [|[t1 t2] rounds IH]; simpl; intros x Hw Ha Hn.
  { intros [= <-]. split; [done|lia]. }
  destruct (hold_handover_next_retry_steady_ns x <=? t1) eqn:Ht; [|done]. apply Z.leb_le in Ht.
  destruct (failing_round_spec x t1 t2 Hw Ht) as (Hw' & Ha' & _); [lia|].
  intros [? ?]%IH; [split; [done|lia]|done|lia|lia].
Qed.


(** The state after the first request was refused. *)
Definition w_refused : NavigationModeExecutor :=
  (executor_run executor_initial
     [event_activate; event_handover_requested; event_hold_completed result_ModeFailureOther 0]).1.

