(* ===== verification/OdometryTime.v ===== *)
(** * Time and identity guards of the odometry bridge

    [px4/px4_odometry_bridge]: [time_validator.hpp], [time_validator.cpp],
    [timestamp_conversion.hpp], [timestamp_conversion.cpp],
    [frame_generation_policy.hpp], [geometric_jump_latch.hpp] and
    [geometric_jump_latch.cpp]: which samples of a source are new, and when a
    geometric jump may be forgotten. *)

From S2P Require Import Prelude TimeNs.

(** ** [time_validator] *)

Definition checked_microseconds_to_nanoseconds (timestamp_us : Z) : option Z :=
  microsecondsToNanoseconds timestamp_us.

Definition checked_ros_time_to_nanoseconds (stamp : RosTime) : option Z :=
  match rosTimeToNanoseconds stamp with
  | Some result => if 0 <? result then Some result else None
  | None => None
  end.

Record TimeValidationConfig : Type := mkTimeValidationConfig {
  tvc_max_stale_ns : Z;
  tvc_max_future_ns : Z;
  tvc_probable_restart_regression_ns : Z;
  tvc_restart_low_epoch_max_ns : Z
}.

Definition time_validation_default : TimeValidationConfig :=
  mkTimeValidationConfig 200000000 200000000 1000000000 10000000000.

Inductive TimestampEvent : Type :=
| te_kAccepted | te_kDuplicate | te_kSmallRegression | te_kProbableSourceRestart
| te_kStale | te_kFuture | te_kInvalid.

#[export] Instance TimestampEvent_eq_dec : EqDecision TimestampEvent.
Proof. solve_decision. Defined.

Record TimeValidationResult : Type := mkTimeValidationResult {
  tv_accepted : bool;
  tv_result_generation : Z;
  tv_reason : string;
  tv_event : TimestampEvent
}.

Record TimestampValidator : Type := mkTimestampValidator {
  tv_config : TimeValidationConfig;
  tv_last_timestamp_ns : option Z;
  tv_generation : Z
}.

(** The constructor; [None] when it throws. *)
Definition TimestampValidator_make (config : TimeValidationConfig) : option TimestampValidator :=
  if (tvc_max_stale_ns config <=? 0) || (tvc_max_future_ns config <=? 0)
     || (tvc_probable_restart_regression_ns config <=? 0)
     || (tvc_restart_low_epoch_max_ns config <=? 0) then None
  else Some (mkTimestampValidator config None 0).

(** The sample is not newer than the last accepted one (lines 37-62). *)
Definition tv_not_newer (last timestamp_ns : Z) (v : TimestampValidator)
    : TimeValidationResult * TimestampValidator :=
  let reject reason event := (mkTimeValidationResult false (tv_generation v) reason event, v) in
  if timestamp_ns =? last then reject "duplicate PX4 sample timestamp"%string te_kDuplicate
  else
    match checkedDifference last timestamp_ns with
    | None => reject "timestamp delta is not representable"%string te_kInvalid
    | Some regression_ns =>
        let low := tvc_restart_low_epoch_max_ns (tv_config v) in
        if (tvc_probable_restart_regression_ns (tv_config v) <=? regression_ns)
           && (low <? last) && (timestamp_ns <=? low) then
          if tv_generation v =? u64_max then
            reject "timestamp generation exhausted"%string te_kInvalid
          else
            let generation := u64_inc (tv_generation v) in
            (mkTimeValidationResult true generation "probable PX4 source restart"
               te_kProbableSourceRestart,
             mkTimestampValidator (tv_config v) (Some timestamp_ns) generation)
        else reject "small PX4 timestamp regression"%string te_kSmallRegression
    end.

(** The sample is newer, or the first (lines 63-84). *)
Definition tv_newer (timestamp_ns now_ns : Z) (v : TimestampValidator)
    : TimeValidationResult * TimestampValidator :=
  let reject reason event := (mkTimeValidationResult false (tv_generation v) reason event, v) in
  match checkedDifference now_ns timestamp_ns with
  | None => reject "timestamp delta is not representable"%string te_kInvalid
  | Some age =>
      if tvc_max_stale_ns (tv_config v) <? age then
        reject "stale PX4 sample timestamp"%string te_kStale
      else
        match checkedDifference timestamp_ns now_ns with
        | None => reject "timestamp delta is not representable"%string te_kInvalid
        | Some future =>
            if tvc_max_future_ns (tv_config v) <? future then
              reject "future PX4 sample timestamp"%string te_kFuture
            else
              (mkTimeValidationResult true (tv_generation v) EmptyString te_kAccepted,
               mkTimestampValidator (tv_config v) (Some timestamp_ns) (tv_generation v))
        end
  end.

Definition tv_observe (timestamp_us now_ns : Z) (v : TimestampValidator)
    : TimeValidationResult * TimestampValidator :=
  let reject reason event := (mkTimeValidationResult false (tv_generation v) reason event, v) in
  if now_ns <=? 0 then reject "invalid current time"%string te_kInvalid
  else
    match checked_microseconds_to_nanoseconds timestamp_us with
    | None => reject "timestamp conversion overflow/zero"%string te_kInvalid
    | Some timestamp_ns =>
        match tv_last_timestamp_ns v with
        | Some last =>
            if timestamp_ns <=? last then tv_not_newer last timestamp_ns v
            else tv_newer timestamp_ns now_ns v
        | None => tv_newer timestamp_ns now_ns v
        end
    end.

Definition tv_clear (v : TimestampValidator) : TimestampValidator :=
  mkTimestampValidator (tv_config v) None
    (if tv_generation v =? u64_max then tv_generation v else u64_inc (tv_generation v)).

(** ** [timestamp_conversion] *)

Record TimestampConversionResult : Type := mkTimestampConversionResult {
  tc_valid : bool;
  tc_suppressed : bool;
  tc_source_domain : string;
  tc_target_domain : string;
  tc_measurement_time_us : Z;
  tc_publication_time_us : Z;
  tc_timestamp_mapping_generation : Z;
  tc_timestamp_age_ns : Z;
  tc_reason : string
}.

Definition timestamp_conversion_default : TimestampConversionResult :=
  mkTimestampConversionResult false false "UNRESOLVED" "PX4_TIME_UNRESOLVED" 0 0 0 0
    "TIME_DOMAIN_UNRESOLVED".

Record TimestampConversionDiagnostics : Type := mkTimestampConversionDiagnostics {
  td_regression_count : Z;
  td_timestamp_sample_regression_count : Z;
  td_publication_timestamp_regression_count : Z;
  td_duplicate_measurement_suppressed_count : Z;
  td_timestamp_mapping_generation : Z;
  td_timestamp_mapping_generation_change_count : Z;
  td_conversion_failure_count : Z;
  td_failure_reason : string
}.

Inductive TimestampMappingMode : Type :=
| map_kUnresolved | map_kSimulationIdentity | map_kRealtimeTransport.

#[export] Instance TimestampMappingMode_eq_dec : EqDecision TimestampMappingMode.
Proof. solve_decision. Defined.

Definition timestampMappingModeFor (use_sim_time : bool) (input_clock_domain : string)
    : TimestampMappingMode :=
  if use_sim_time && (input_clock_domain ==? "simulation_time"%string) then map_kSimulationIdentity
  else if negb use_sim_time && ((input_clock_domain ==? "ros_time"%string)
                                || (input_clock_domain ==? "system_time"%string)) then
    map_kRealtimeTransport
  else map_kUnresolved.

Record TimestampConverter : Type := mkTimestampConverter {
  tc_maximum_age_ns : Z;
  tc_last_measurement_time_us : option Z;
  tc_last_publication_time_us : option Z;
  tc_last_timestamp_mapping_generation : option Z;
  tc_diagnostics : TimestampConversionDiagnostics
}.

Definition TimestampConverter_make (maximum_age_ns : Z) : option TimestampConverter :=
  if maximum_age_ns <=? 0 then None
  else Some (mkTimestampConverter maximum_age_ns None None None
               (mkTimestampConversionDiagnostics 0 0 0 0 0 0 0 "NONE")).

Definition invalid_result (timestamp_mapping_generation : Z) (reason : string)
    : TimestampConversionResult :=
  mkTimestampConversionResult false false "UNRESOLVED" "PX4_TIME_UNRESOLVED" 0 0
    timestamp_mapping_generation 0 reason.

Definition tc_set_diagnostics (c : TimestampConverter) (d : TimestampConversionDiagnostics)
    : TimestampConverter :=
  mkTimestampConverter (tc_maximum_age_ns c) (tc_last_measurement_time_us c)
    (tc_last_publication_time_us c) (tc_last_timestamp_mapping_generation c) d.

(** The lambda [fail]. *)
Definition tc_fail (generation : Z) (reason : string) (c : TimestampConverter)
    : TimestampConversionResult * TimestampConverter :=
  let d := tc_diagnostics c in
  (invalid_result generation reason,
   tc_set_diagnostics c
     (mkTimestampConversionDiagnostics (td_regression_count d)
        (td_timestamp_sample_regression_count d) (td_publication_timestamp_regression_count d)
        (td_duplicate_measurement_suppressed_count d) (td_timestamp_mapping_generation d)
        (td_timestamp_mapping_generation_change_count d)
        (u64_inc (td_conversion_failure_count d)) reason)).

(** A new mapping generation forgets the last times (lines 55-67). *)
Definition tc_enter_generation (generation : Z) (c : TimestampConverter) : TimestampConverter :=
  let d := tc_diagnostics c in
  mkTimestampConverter (tc_maximum_age_ns c) None None (Some generation)
    (mkTimestampConversionDiagnostics (td_regression_count d)
       (td_timestamp_sample_regression_count d) (td_publication_timestamp_regression_count d)
       (td_duplicate_measurement_suppressed_count d) generation
       (if has (tc_last_timestamp_mapping_generation c)
        then u64_inc (td_timestamp_mapping_generation_change_count d)
        else td_timestamp_mapping_generation_change_count d)
       (td_conversion_failure_count d) (td_failure_reason d)).

(** [++regression_count] with the counter of the reason. *)
Definition tc_count_regression (of_sample : bool) (c : TimestampConverter) : TimestampConverter :=
  let d := tc_diagnostics c in
  tc_set_diagnostics c
    (mkTimestampConversionDiagnostics (u64_inc (td_regression_count d))
       (if of_sample then u64_inc (td_timestamp_sample_regression_count d)
        else td_timestamp_sample_regression_count d)
       (if of_sample then td_publication_timestamp_regression_count d
        else u64_inc (td_publication_timestamp_regression_count d))
       (td_duplicate_measurement_suppressed_count d) (td_timestamp_mapping_generation d)
       (td_timestamp_mapping_generation_change_count d) (td_conversion_failure_count d)
       (td_failure_reason d)).

Definition tc_suppress_duplicate (c : TimestampConverter) : TimestampConverter :=
  let d := tc_diagnostics c in
  tc_set_diagnostics c
    (mkTimestampConversionDiagnostics (td_regression_count d)
       (td_timestamp_sample_regression_count d) (td_publication_timestamp_regression_count d)
       (u64_inc (td_duplicate_measurement_suppressed_count d)) (td_timestamp_mapping_generation d)
       (td_timestamp_mapping_generation_change_count d) (td_conversion_failure_count d)
       "DUPLICATE_MEASUREMENT_SUPPRESSED").

Definition option_lt (o : option Z) (x : Z) : bool :=
  match o with Some l => x <? l | None => false end.
Definition option_eq (o : option Z) (x : Z) : bool :=
  match o with Some l => x =? l | None => false end.

Definition convert_result (mode : TimestampMappingMode)
    (measurement_us publication_us generation age : Z) : TimestampConversionResult :=
  match mode with
  | map_kSimulationIdentity =>
      mkTimestampConversionResult true false "ROS_SIMULATION_TIME" "PX4_SIMULATION_TIME"
        measurement_us publication_us generation age "VALID_SIMULATION_TIME_EQUIVALENCE"
  | _ =>
      mkTimestampConversionResult true false "ROS_SYSTEM_TIME" "PX4_TIME_VIA_UXRCE_TIMESYNC"
        measurement_us publication_us generation age "VALID_REALTIME_UXRCE_MAPPING"
  end.

Definition tc_convert (measurement_time_ns publication_time_ns : Z) (mode : TimestampMappingMode)
    (generation : Z) (c : TimestampConverter) : TimestampConversionResult * TimestampConverter :=
  if mode ==? map_kUnresolved then tc_fail generation "TIME_DOMAIN_UNRESOLVED" c
  else if generation =? 0 then tc_fail generation "TIMESTAMP_MAPPING_GENERATION_INVALID" c
  else
    let changed := negb (tc_last_timestamp_mapping_generation c ==? Some generation) in
    let c := if changed then tc_enter_generation generation c else c in
    match nanosecondsToMicroseconds measurement_time_ns,
          nanosecondsToMicroseconds publication_time_ns with
    | Some measurement_us, Some publication_us =>
        match checkedDifference publication_time_ns measurement_time_ns with
        | None => tc_fail generation "TIMESTAMP_DELTA_OVERFLOW" c
        | Some age =>
            if tc_maximum_age_ns c <? age then tc_fail generation "TIMESTAMP_STALE" c
            else if age <? - tc_maximum_age_ns c then tc_fail generation "TIMESTAMP_FUTURE" c
            else if negb changed && option_lt (tc_last_measurement_time_us c) measurement_us then
              tc_fail generation "TIMESTAMP_SAMPLE_REGRESSION" (tc_count_regression true c)
            else if negb changed && option_eq (tc_last_measurement_time_us c) measurement_us then
              (mkTimestampConversionResult false true "UNRESOLVED" "PX4_TIME_UNRESOLVED"
                 measurement_us publication_us generation age "DUPLICATE_MEASUREMENT_SUPPRESSED",
               tc_suppress_duplicate c)
            else if negb changed && option_lt (tc_last_publication_time_us c) publication_us then
              tc_fail generation "PUBLICATION_TIMESTAMP_REGRESSION" (tc_count_regression false c)
            else
              (convert_result mode measurement_us publication_us generation age,
               mkTimestampConverter (tc_maximum_age_ns c) (Some measurement_us)
                 (Some publication_us) (tc_last_timestamp_mapping_generation c)
                 (tc_diagnostics c))
        end
    | _, _ => tc_fail generation "TIMESTAMP_ZERO_OR_OVERFLOW" c
    end.

(** ** [frame_generation_policy.hpp] *)

Definition strictly_newer_source_identity (highest_epoch highest_sequence epoch sequence : Z)
    : bool :=
  if (epoch =? 0) || (sequence =? 0) then false
  else if highest_epoch =? 0 then true
  else (highest_epoch <? epoch) || ((epoch =? highest_epoch) && (highest_sequence <? sequence)).

Definition frame_generation_after_source_restart (current_generation : Z)
    (public_frame_exists : bool) : option Z :=
  if current_generation =? 0 then None
  else if negb public_frame_exists then Some current_generation
  else if current_generation =? u64_max then None
  else Some (current_generation + 1).

(** ** [geometric_jump_latch] *)

Record GeometricJumpLatch : Type := mkGeometricJumpLatch {
  jl_latched : bool;
  jl_count : Z;
  jl_last_generation : Z;
  jl_last_operator_sequence : Z;
  jl_generation_known : bool;
  jl_operator_sequence_known : bool
}.

Definition jump_latch_initial : GeometricJumpLatch :=
  mkGeometricJumpLatch false 0 0 0 false false.

Definition observeGeometricJump (jump : bool) (l : GeometricJumpLatch)
    : bool * GeometricJumpLatch :=
  if negb jump || jl_latched l then (false, l)
  else
    (true, mkGeometricJumpLatch true (u64_inc (jl_count l)) (jl_last_generation l)
             (jl_last_operator_sequence l) (jl_generation_known l) (jl_operator_sequence_known l)).

Definition observePublicFrameGeneration (valid : bool) (generation : Z) (l : GeometricJumpLatch)
    : bool * GeometricJumpLatch :=
  if negb valid || (generation =? 0) then (false, l)
  else if negb (jl_generation_known l) then
    (false, mkGeometricJumpLatch (jl_latched l) (jl_count l) generation
              (jl_last_operator_sequence l) true (jl_operator_sequence_known l))
  else if generation <=? jl_last_generation l then (false, l)
  else
    (true, mkGeometricJumpLatch false (jl_count l) generation (jl_last_operator_sequence l)
             (jl_generation_known l) (jl_operator_sequence_known l)).

Definition observeOperatorReset (requested : bool) (sequence : Z) (l : GeometricJumpLatch)
    : bool * GeometricJumpLatch :=
  let changed := requested && negb (sequence =? 0)
                 && (negb (jl_operator_sequence_known l)
                     || negb (sequence =? jl_last_operator_sequence l)) in
  (changed,
   mkGeometricJumpLatch (if changed then false else jl_latched l) (jl_count l)
     (jl_last_generation l)
     (if sequence =? 0 then jl_last_operator_sequence l else sequence)
     (jl_generation_known l)
     (if sequence =? 0 then jl_operator_sequence_known l else true)).

Definition public_frame_generation_to_reset_counter (generation : Z) : Z := generation mod 256.
