(* ===== verification/OdometryFrames.v ===== *)
(** * Frames of the odometry bridge

    [px4/px4_odometry_bridge]: [frame_converter.hpp] and [.cpp] (PX4 NED/FRD to
    ROS ENU/FLU), [reference_point_converter.hpp] and [.cpp], and
    [external_odometry_conversion.hpp] and [.cpp] (LIO odometry to PX4 NED with
    its covariances).  The pose operations of Eigen that no other file uses are
    the class [EigenPoseOps]. *)

From S2P Require Import Prelude Float64 TimeNs Geometry WorldGrid CommandContract TrackingGuard.

Class EigenPoseOps : Type := {
  (** [q.toRotationMatrix()] and [Quaterniond(m)] *)
  q_toRotationMatrix : quat -> mat3;
  q_of_matrix : mat3 -> quat;
  (** [a.slerp(t, b)] and [a.angularDistance(b)] *)
  q_slerp : quat -> f64 -> quat -> quat;
  q_angularDistance : quat -> quat -> f64;
  (** [AngleAxisd(angle, UnitZ()).toRotationMatrix()] *)
  m_angleAxisZ : f64 -> mat3;
  m_inverse : mat3 -> mat3;
  m_allFinite : mat3 -> bool;
  (** [(m - n).cwiseAbs().maxCoeff()] *)
  m_max_abs_difference : mat3 -> mat3 -> f64;
  (** The smallest eigenvalue of a self-adjoint matrix; [None] when the solver
      does not report success. *)
  m_minEigenvalue : mat3 -> option f64;
  (** [(row.array().square() * v.transpose().array()).sum()] *)
  v_squared_weights : vec3 -> vec3 -> f64;
  v_cwiseMax : vec3 -> vec3 -> vec3;
  v_cross : vec3 -> vec3 -> vec3
}.

(** [m.transpose()] and [m.diagonal()] rearrange the coefficients. *)
Definition m_transpose (m : mat3) : mat3 :=
  Mat3 (Vec3 (vx (row0 m)) (vx (row1 m)) (vx (row2 m)))
       (Vec3 (vy (row0 m)) (vy (row1 m)) (vy (row2 m)))
       (Vec3 (vz (row0 m)) (vz (row1 m)) (vz (row2 m))).
Definition m_diagonal (m : mat3) : vec3 := Vec3 (vx (row0 m)) (vy (row1 m)) (vz (row2 m)).
Definition m_identity : mat3 :=
  Mat3 (Vec3 f1 fzero fzero) (Vec3 fzero f1 fzero) (Vec3 fzero fzero f1).

(** [coeffs() *= -1.0] *)
Definition q_neg (q : quat) : quat :=
  Quat (f64_mul (qx q) fm1) (f64_mul (qy q) fm1) (f64_mul (qz q) fm1) (f64_mul (qw q) fm1).

(** ** [frame_converter.hpp]: data *)

Inductive PoseFrame : Type := pose_kUnknown | pose_kNed | pose_kFrd.
Inductive VelocityFrame : Type := vel_kUnknown | vel_kNed | vel_kFrd | vel_kBodyFrd.
Inductive WorldConvention : Type := world_kUnknown | world_kRosEnu | world_kPx4FrdLocal.

#[export] Instance PoseFrame_eq_dec : EqDecision PoseFrame.
Proof. solve_decision. Defined.
#[export] Instance VelocityFrame_eq_dec : EqDecision VelocityFrame.
Proof. solve_decision. Defined.
#[export] Instance WorldConvention_eq_dec : EqDecision WorldConvention.
Proof. solve_decision. Defined.

Record Px4OdometrySample : Type := mkPx4OdometrySample {
  ps_timestamp_ns : Z;
  ps_pose_frame : PoseFrame;
  ps_velocity_frame : VelocityFrame;
  ps_position : vec3;
  ps_orientation : quat;
  ps_velocity : vec3;
  ps_angular_velocity : vec3;
  ps_position_variance : vec3;
  ps_velocity_variance : vec3;
  ps_orientation_variance : vec3;
  ps_reset_counter : Z; (* std::uint8_t *)
  ps_angular_velocity_valid : bool
}.

Record ConvertedOdometry : Type := mkConvertedOdometry {
  co_timestamp_ns : Z;
  co_source_pose_frame : PoseFrame;
  co_source_velocity_frame : VelocityFrame;
  co_world_convention : WorldConvention;
  co_position : vec3;
  co_orientation : quat;
  co_velocity_world : vec3;
  co_velocity_body : vec3;
  co_angular_velocity_body : vec3;
  co_position_variance : vec3;
  co_velocity_variance : vec3;
  co_orientation_variance : vec3;
  co_reset_counter : Z;
  co_reset_event_generation : Z;
  co_frame_generation : Z;
  co_reset_generation : Z;
  co_time_generation : Z;
  co_position_covariance_available : bool;
  co_velocity_covariance_available : bool;
  co_orientation_covariance_available : bool;
  co_angular_velocity_valid : bool
}.

(** [FrameConverter] keeps the previous orientation for sign continuity. *)
Definition FrameConverter : Type := option quat.

Definition reset_sign_continuity (_ : FrameConverter) : FrameConverter := None.

(** [value.array() >= 0.0] on all components *)
Definition nonnegative_all {E : EigenOps} (v : vec3) : bool := v_all_ge v vec3_zero.

Section Convert.
Context {E : EigenOps} {R : EigenRotOps} {M : EigenMatOps} {P : EigenPoseOps}.

Definition rotate_component (row variance : vec3) (component : f64) : f64 :=
  if flt component fzero || negb (isfinite component) then f64_of_Z (-1)
  else v_squared_weights row variance.

Definition rotate_variance (rotation : mat3) (variance : vec3) : vec3 :=
  if negb (v_allFinite variance) then vec3_constant (f64_of_Z (-1))
  else
    Vec3 (rotate_component (row0 rotation) variance (vx variance))
         (rotate_component (row1 rotation) variance (vy variance))
         (rotate_component (row2 rotation) variance (vz variance)).

(** [1e-9] *)
Definition kMinimumQuaternionNorm : f64 := f64_lit 1 1000000000.

Definition continuous_orientation (previous : FrameConverter) (q : quat) : quat :=
  match previous with
  | Some p => if flt (q_dot p q) fzero then q_neg q else q
  | None => q
  end.

(** The velocity in the world frame, or the reason why it has none. *)
Definition velocity_in_world (s : Px4OdometrySample) (world_from_flu : mat3) : vec3 + string :=
  match ps_velocity_frame s with
  | vel_kNed =>
      if ps_pose_frame s !=? pose_kNed then
        inr "NED velocity cannot be combined with a non-NED pose frame"%string
      else inl (m_mulv c_enu_ned (ps_velocity s))
  | vel_kFrd => inr "PX4 FRD world velocity requires an explicit world alignment"%string
  | vel_kBodyFrd => inl (m_mulv (m_mul world_from_flu c_flu_frd) (ps_velocity s))
  | vel_kUnknown => inr "unsupported PX4 velocity frame"%string
  end.

Definition converted_sample (s : Px4OdometrySample) (world_from_flu : mat3)
    (position_world velocity_world : vec3) : ConvertedOdometry :=
  let position_variance := rotate_variance c_enu_ned (ps_position_variance s) in
  let velocity_variance :=
    if ps_velocity_frame s ==? vel_kBodyFrd then rotate_variance c_flu_frd (ps_velocity_variance s)
    else rotate_variance (m_transpose world_from_flu)
           (rotate_variance c_enu_ned (ps_velocity_variance s)) in
  let orientation_variance :=
    rotate_variance (m_mul world_from_flu c_flu_frd) (ps_orientation_variance s) in
  let available v := v_allFinite v && nonnegative_all v in
  mkConvertedOdometry (ps_timestamp_ns s) (ps_pose_frame s) (ps_velocity_frame s)
    (if ps_pose_frame s ==? pose_kNed then world_kRosEnu else world_kPx4FrdLocal)
    position_world (q_normalized (q_of_matrix world_from_flu)) velocity_world
    (m_mulv (m_transpose world_from_flu) velocity_world)
    (m_mulv c_flu_frd (ps_angular_velocity s))
    position_variance velocity_variance orientation_variance (ps_reset_counter s) 0 0 0 0
    (available position_variance) (available velocity_variance) (available orientation_variance)
    true.

(** [FrameConverter::convert]: the result and the reason, and the converter. *)
Definition fc_convert (s : Px4OdometrySample) (previous : FrameConverter)
    : (ConvertedOdometry + string) * FrameConverter :=
  if (ps_timestamp_ns s <=? 0) || negb (v_allFinite (ps_position s))
     || negb (v_allFinite (ps_velocity s)) || negb (v_allFinite (ps_angular_velocity s)) then
    (inr "timestamp or vector contains a non-finite/invalid value"%string, previous)
  else if negb (ps_angular_velocity_valid s) then
    (inr "PX4 angular velocity is invalid"%string, previous)
  else
    let norm := q_norm (ps_orientation s) in
    if negb (isfinite norm) || flt norm kMinimumQuaternionNorm then
      (inr "PX4 quaternion is near zero or non-finite"%string, previous)
    else
      let continuous_q := continuous_orientation previous (q_normalized (ps_orientation s)) in
      let next := Some continuous_q in
      match ps_pose_frame s with
      | pose_kFrd =>
          (inr "PX4 FRD pose frame requires an explicit world alignment"%string, next)
      | pose_kUnknown => (inr "unsupported PX4 pose frame"%string, next)
      | pose_kNed =>
          let world_from_flu := m_mul (m_mul c_enu_ned (q_toRotationMatrix continuous_q)) c_flu_frd in
          match velocity_in_world s world_from_flu with
          | inr reason => (inr reason, next)
          | inl velocity_world =>
              (inl (converted_sample s world_from_flu (m_mulv c_enu_ned (ps_position s))
                      velocity_world), next)
          end
      end.

(** ** [reference_point_converter] *)

(** [Eigen::Isometry3d base_from_source] *)
Record ReferencePointConfig : Type := mkReferencePointConfig {
  rp_source_body_frame : string;
  rp_output_body_frame : string;
  rp_linear : mat3;
  rp_translation : vec3
}.

Definition rp_convert (config : ReferencePointConfig) (source : ConvertedOdometry)
    : ConvertedOdometry :=
  let world_from_base := q_toRotationMatrix (co_orientation source) in
  let base_from_source := rp_linear config in
  let r_base_source := rp_translation config in
  let source_velocity_world := m_mulv world_from_base (co_velocity_body source) in
  let omega_base := co_angular_velocity_body source in
  let output_origin_velocity_world :=
    v_sub source_velocity_world (m_mulv world_from_base (v_cross omega_base r_base_source)) in
  mkConvertedOdometry (co_timestamp_ns source) (co_source_pose_frame source)
    (co_source_velocity_frame source) (co_world_convention source)
    (v_sub (co_position source) (m_mulv world_from_base r_base_source))
    (q_normalized (q_of_matrix (m_mul world_from_base (m_transpose base_from_source))))
    (co_velocity_world source)
    (m_mulv base_from_source
       (m_mulv (m_transpose world_from_base) output_origin_velocity_world))
    (m_mulv base_from_source omega_base)
    (co_position_variance source) (co_velocity_variance source) (co_orientation_variance source)
    (co_reset_counter source) (co_reset_event_generation source) (co_frame_generation source)
    (co_reset_generation source) (co_time_generation source)
    (co_position_covariance_available source) (co_velocity_covariance_available source)
    (co_orientation_covariance_available source) (co_angular_velocity_valid source).

(** ** [external_odometry_conversion] *)

(** [nav_msgs/Odometry] with its covariances, [std::array<double, 36>] by rows. *)
Record LioOdometry : Type := mkLioOdometry {
  lo_stamp : RosTime;
  lo_frame_id : string;
  lo_child_frame_id : string;
  lo_position : vec3;
  lo_orientation : quat;
  lo_pose_covariance : list f64;
  lo_linear : vec3;
  lo_angular : vec3;
  lo_twist_covariance : list f64
}.

Record ExternalOdometryFrame : Type := mkExternalOdometryFrame {
  ef_timestamp_ns : Z;
  ef_position_ned : vec3;
  ef_orientation_ned : quat;
  ef_velocity_ned : vec3;
  ef_angular_velocity_body_frd : vec3;
  ef_position_variance : vec3;
  ef_orientation_variance : vec3;
  ef_velocity_variance : vec3;
  ef_frame_valid : bool;
  ef_covariance_valid : bool
}.

(** [1e-10] *)
Definition kSymmetryTolerance : f64 := f64_lit 1 10000000000.
Definition kPsdTolerance : f64 := f64_lit 1 10000000000.

Definition valid_variance (value : f64) : bool := isfinite value && fgt value fzero.

Definition covariance_at (covariance : list f64) (i : Z) : f64 :=
  default fnan (covariance !! Z.to_nat i).

Definition covariance_block (covariance : list f64) (block_offset : Z) : mat3 :=
  let at_ row column :=
    covariance_at covariance ((block_offset + row) * 6 + block_offset + column) in
  let row_ row := Vec3 (at_ row 0) (at_ row 1) (at_ row 2) in
  Mat3 (row_ 0) (row_ 1) (row_ 2).

Definition valid_variances (v : vec3) : bool :=
  valid_variance (vx v) && valid_variance (vy v) && valid_variance (vz v).

Definition validated_block (covariance : list f64) (block_offset : Z) : option mat3 :=
  if 3 <? block_offset then None
  else
    let block := covariance_block covariance block_offset in
    if negb (m_allFinite block)
       || fgt (m_max_abs_difference block (m_transpose block)) kSymmetryTolerance then None
    else if negb (valid_variances (m_diagonal block)) then None
    else
      match m_minEigenvalue block with
      | None => None
      | Some smallest => if flt smallest (fopp kPsdTolerance) then None else Some block
      end.

Definition transformed_covariance_diagonal (covariance : list f64) (block_offset : Z)
    (transform : mat3) : option vec3 :=
  match validated_block covariance block_offset with
  | None => None
  | Some block =>
      if negb (m_allFinite transform) then None
      else
        let transformed := m_mul (m_mul transform block) (m_transpose transform) in
        if negb (m_allFinite transformed) then None
        else
          let diagonal := m_diagonal transformed in
          if negb (valid_variances diagonal) then None else Some diagonal
  end.

Definition positive_variance_to_px4_float (value : f64) : option f32 :=
  if negb (valid_variance value) then None
  else
    let converted := f32_of_f64 value in
    if negb (isfinite converted) || fle converted fzero then None else Some converted.

Definition positive_variances_to_px4_float (values : vec3) : option vec3f :=
  match positive_variance_to_px4_float (vx values), positive_variance_to_px4_float (vy values),
        positive_variance_to_px4_float (vz values) with
  | Some x, Some y, Some z => Some (Vec3f x y z)
  | _, _, _ => None
  end.

Definition external_frame (timestamp : Z) (message : LioOdometry) (rotation_enu_flu : mat3)
    (position_variance orientation_variance velocity_variance : vec3) : ExternalOdometryFrame :=
  let rotation_ned_frd := m_mul (m_mul c_enu_ned rotation_enu_flu) (m_inverse c_flu_frd) in
  let rotation_ned_from_body_flu := m_mul c_enu_ned rotation_enu_flu in
  let position := m_mulv c_enu_ned (lo_position message) in
  let orientation := q_normalized (q_of_matrix rotation_ned_frd) in
  let velocity := m_mulv rotation_ned_from_body_flu (lo_linear message) in
  let angular := m_mulv c_flu_frd (lo_angular message) in
  mkExternalOdometryFrame timestamp position orientation velocity angular
    position_variance orientation_variance velocity_variance
    (v_allFinite position && q_allFinite orientation && v_allFinite velocity && v_allFinite angular)
    (v_allFinite position_variance && v_allFinite orientation_variance
     && v_allFinite velocity_variance).

Definition convert_ros_lio_odometry (message : LioOdometry) : option ExternalOdometryFrame :=
  if negb ((lo_frame_id message ==? "lio_odom"%string)
           && (lo_child_frame_id message ==? "base_link"%string)) then None
  else
    match rosTimeToNanoseconds (lo_stamp message) with
    | None => None
    | Some timestamp =>
        if timestamp <=? 0 then None
        else if negb (q_allFinite (lo_orientation message))
                || flt (q_norm (lo_orientation message)) kMinimumQuaternionNorm then None
        else
          let rotation_enu_flu := q_toRotationMatrix (q_normalized (lo_orientation message)) in
          match transformed_covariance_diagonal (lo_pose_covariance message) 0 c_enu_ned,
                transformed_covariance_diagonal (lo_pose_covariance message) 3
                  (m_mul c_flu_frd (m_transpose rotation_enu_flu)),
                transformed_covariance_diagonal (lo_twist_covariance message) 0
                  (m_mul c_enu_ned rotation_enu_flu) with
          | Some position_variance, Some orientation_variance, Some velocity_variance =>
              let result := external_frame timestamp message rotation_enu_flu position_variance
                              orientation_variance velocity_variance in
              if negb (ef_frame_valid result) || negb (ef_covariance_valid result) then None
              else Some result
          | _, _, _ => None
          end
    end.
End Convert.

(** ** A concrete implementation

    Used to evaluate witnesses: exact on axis-aligned poses and diagonal
    covariances. *)

Definition ref_rotation (q : quat) : mat3 :=
  let m a b := f64_mul (f64_of_Z 2) (f64_mul a b) in
  let xx := m (qx q) (qx q) in let yy := m (qy q) (qy q) in let zz := m (qz q) (qz q) in
  let xy := m (qx q) (qy q) in let xz := m (qx q) (qz q) in let yz := m (qy q) (qz q) in
  let wx := m (qw q) (qx q) in let wy := m (qw q) (qy q) in let wz := m (qw q) (qz q) in
  Mat3 (Vec3 (f64_sub f1 (f64_add yy zz)) (f64_sub xy wz) (f64_add xz wy))
       (Vec3 (f64_add xy wz) (f64_sub f1 (f64_add xx zz)) (f64_sub yz wx))
       (Vec3 (f64_sub xz wy) (f64_add yz wx) (f64_sub f1 (f64_add xx yy))).

(** The branch of a positive trace; the identity otherwise. *)
Definition ref_quaternion (m : mat3) : quat :=
  let trace := f64_add (vx (row0 m)) (f64_add (vy (row1 m)) (vz (row2 m))) in
  if fgt trace fzero then
    let t := f64_sqrt (f64_add trace f1) in
    let half := f64_lit 1 2 in
    let s := f64_div half t in
    Quat (f64_mul (f64_sub (vy (row2 m)) (vz (row1 m))) s)
         (f64_mul (f64_sub (vz (row0 m)) (vx (row2 m))) s)
         (f64_mul (f64_sub (vx (row1 m)) (vy (row0 m))) s) (f64_mul half t)
  else quat_identity.

Definition map_quat (f : f64 -> f64 -> f64) (a b : quat) : quat :=
  Quat (f (qx a) (qx b)) (f (qy a) (qy b)) (f (qz a) (qz b)) (f (qw a) (qw b)).

Definition ref_finite3 (v : vec3) : bool := isfinite (vx v) && isfinite (vy v) && isfinite (vz v).

Definition eigen_pose_reference : EigenPoseOps := {|
  q_toRotationMatrix := ref_rotation;
  q_of_matrix := ref_quaternion;
  q_slerp a t b := map_quat (fun x y => f64_add x (f64_mul t (f64_sub y x))) a b;
  q_angularDistance a b :=
    let d := map_quat f64_sub a b in
    f64_sqrt (f64_add (f64_add (f64_mul (qx d) (qx d)) (f64_mul (qy d) (qy d)))
                      (f64_add (f64_mul (qz d) (qz d)) (f64_mul (qw d) (qw d))));
  m_angleAxisZ angle :=
    let c := f64_sub f1 (f64_div (f64_mul angle angle) (f64_of_Z 2)) in
    Mat3 (Vec3 c (fopp angle) fzero) (Vec3 angle c fzero) (Vec3 fzero fzero f1);
  m_inverse := m_transpose;
  m_allFinite m := ref_finite3 (row0 m) && ref_finite3 (row1 m) && ref_finite3 (row2 m);
  m_max_abs_difference m n :=
    let d a b := fmax (fabs (f64_sub (vx a) (vx b)))
                   (fmax (fabs (f64_sub (vy a) (vy b))) (fabs (f64_sub (vz a) (vz b)))) in
    fmax (d (row0 m) (row0 n)) (fmax (d (row1 m) (row1 n)) (d (row2 m) (row2 n)));
  m_minEigenvalue m := Some (fmin (vx (row0 m)) (fmin (vy (row1 m)) (vz (row2 m))));
  v_squared_weights r v := ref_dot (map3 f64_mul r r) v;
  v_cwiseMax := map3 fmax;
  v_cross := ref_cross
|}.

(** [q_norm], [q_dot] and [q_unrotate] of the same implementation. *)
Definition eigen_rot_reference : EigenRotOps := {|
  q_norm q :=
    f64_sqrt (f64_add (f64_add (f64_mul (qx q) (qx q)) (f64_mul (qy q) (qy q)))
                      (f64_add (f64_mul (qz q) (qz q)) (f64_mul (qw q) (qw q))));
  q_dot a b :=
    f64_add (f64_add (f64_mul (qx a) (qx b)) (f64_mul (qy a) (qy b)))
            (f64_add (f64_mul (qz a) (qz b)) (f64_mul (qw a) (qw b)));
  q_unrotate q v := ref_rotate (Quat (fopp (qx q)) (fopp (qy q)) (fopp (qz q)) (qw q)) v
|}.
