(* ===== verification/ResetCompensator.v ===== *)
(** * Compensation of PX4 resets

    [px4/px4_odometry_bridge]: [reset_compensator.hpp] and [.cpp], which keeps the
    public frame continuous across PX4 estimator resets. *)

From S2P Require Import Prelude Float64 TimeNs Geometry WorldGrid TrackingGuard OdometryFrames.

(** ** [reset_compensator]: data *)

Record DetailedResetMetadata : Type := mkDetailedResetMetadata {
  dm_timestamp_ns : Z;
  dm_matched_odometry_timestamp_ns : Z;
  dm_available : bool;
  dm_association_invalid : bool;
  dm_position_xy_reset : bool;
  dm_position_z_reset : bool;
  dm_velocity_xy_reset : bool;
  dm_velocity_z_reset : bool;
  dm_heading_reset : bool;
  dm_attitude_reset : bool;
  dm_position_delta_source : vec3;
  dm_velocity_delta_source : vec3;
  dm_heading_delta_rad : f64;
  dm_attitude_delta : quat;
  dm_xy_reset_counter : Z;
  dm_z_reset_counter : Z;
  dm_vxy_reset_counter : Z;
  dm_vz_reset_counter : Z;
  dm_heading_reset_counter : Z;
  dm_attitude_reset_counter : Z
}.

Definition reset_metadata_default : DetailedResetMetadata :=
  mkDetailedResetMetadata 0 0 false false false false false false false false vec3_zero vec3_zero
    fzero quat_identity 0 0 0 0 0 0.

Definition hasReset (m : DetailedResetMetadata) : bool :=
  dm_position_xy_reset m || dm_position_z_reset m || dm_velocity_xy_reset m
  || dm_velocity_z_reset m || dm_heading_reset m || dm_attitude_reset m.

Inductive ResetObservationStatus : Type :=
| ro_kAccepted | ro_kResetTransitionSuppressed | ro_kMetadataPending | ro_kInvalidMetadata
| ro_kCounterDiscontinuity | ro_kInvalidResetRotation | ro_kInvalidCompensatedOutput
| ro_kProbableSourceRestart | ro_kGenerationExhausted.

#[export] Instance ResetObservationStatus_eq_dec : EqDecision ResetObservationStatus.
Proof. solve_decision. Defined.

Definition reset_status_toString (s : ResetObservationStatus) : string :=
  match s with
  | ro_kAccepted => "accepted"
  | ro_kResetTransitionSuppressed => "reset_transition_suppressed"
  | ro_kMetadataPending => "metadata_pending"
  | ro_kInvalidMetadata => "invalid_metadata"
  | ro_kCounterDiscontinuity => "counter_discontinuity"
  | ro_kInvalidResetRotation => "invalid_reset_rotation"
  | ro_kInvalidCompensatedOutput => "invalid_compensated_output"
  | ro_kProbableSourceRestart => "probable_source_restart"
  | ro_kGenerationExhausted => "generation_exhausted"
  end.

Record ResetObservation : Type := mkResetObservation {
  ro_status : ResetObservationStatus;
  ro_sample : option ConvertedOdometry;
  ro_reset_generation : Z
}.

Definition ro_accepted (o : ResetObservation) : bool := has (ro_sample o).

Record ResetCompensator : Type := mkResetCompensator {
  rc_initialized : bool;
  rc_last_counter : Z;
  rc_reset_generation : Z;
  rc_continuity_rotation : mat3;
  rc_continuity_translation : vec3;
  rc_continuity_velocity_translation : vec3;
  rc_last_output : option ConvertedOdometry
}.

Definition rc_initial : ResetCompensator :=
  mkResetCompensator false 0 0 m_identity vec3_zero vec3_zero None.

(** [ResetCompensator::clear] *)
Definition rc_clear (_ : ResetCompensator) : ResetCompensator := rc_initial.

(** A wrapped difference of two [std::uint8_t] counters. *)
Definition counter_delta (before after : Z) : Z := (after - before) mod 256.

Definition knownPoseFrame (frame : PoseFrame) : bool := (frame ==? pose_kNed) || (frame ==? pose_kFrd).
Definition knownVelocityFrame (frame : VelocityFrame) : bool :=
  (frame ==? vel_kNed) || (frame ==? vel_kFrd) || (frame ==? vel_kBodyFrd).
Definition knownWorldConvention (convention : WorldConvention) : bool :=
  (convention ==? world_kRosEnu) || (convention ==? world_kPx4FrdLocal).

(** [1.0e-6] *)
Definition kUnitTolerance : f64 := f64_lit 1 1000000.

Section Compensate.
Context {E : EigenOps} {R : EigenRotOps} {M : EigenMatOps} {P : EigenPoseOps}.

Definition valid_available_variance (value : vec3) (available : bool) : bool :=
  v_allFinite value && (negb available || nonnegative_all value).

(** The components of a sample that both the compensator and the history check:
    finite vectors, a unit quaternion, valid variances. *)
Definition unit_norm_squared (n : f64) : bool :=
  isfinite n && negb (fgt (fabs (f64_sub n (f64_of_Z 1))) kUnitTolerance).

Definition components_valid (s : ConvertedOdometry) : bool :=
  v_allFinite (co_position s) && v_allFinite (co_velocity_world s)
  && v_allFinite (co_velocity_body s) && v_allFinite (co_angular_velocity_body s)
  && q_allFinite (co_orientation s) && unit_norm_squared (q_squaredNorm (co_orientation s))
  && valid_available_variance (co_position_variance s) (co_position_covariance_available s)
  && valid_available_variance (co_velocity_variance s) (co_velocity_covariance_available s)
  && valid_available_variance (co_orientation_variance s) (co_orientation_covariance_available s).

Definition reset_input_valid (s : ConvertedOdometry) : bool :=
  (0 <? co_timestamp_ns s) && negb (co_frame_generation s =? 0)
  && knownPoseFrame (co_source_pose_frame s) && knownVelocityFrame (co_source_velocity_frame s)
  && knownWorldConvention (co_world_convention s) && components_valid s.

Definition rotate_diagonal_component (row variance : vec3) (component : f64) : f64 :=
  if fge component fzero && isfinite component then v_squared_weights row variance
  else f64_of_Z (-1).

Definition rotateDiagonalVariance (rotation : mat3) (variance : vec3) : vec3 :=
  if negb (v_allFinite variance) then variance
  else
    Vec3 (rotate_diagonal_component (row0 rotation) variance (vx variance))
         (rotate_diagonal_component (row1 rotation) variance (vy variance))
         (rotate_diagonal_component (row2 rotation) variance (vz variance)).

(** The metadata carries what its reset flags announce. *)
Definition reset_deltas_valid (m : DetailedResetMetadata) : bool :=
  (0 <? dm_timestamp_ns m)
  && negb ((dm_position_xy_reset m || dm_position_z_reset m)
           && negb (v_allFinite (dm_position_delta_source m)))
  && negb ((dm_velocity_xy_reset m || dm_velocity_z_reset m)
           && negb (v_allFinite (dm_velocity_delta_source m)))
  && negb (dm_heading_reset m && negb (isfinite (dm_heading_delta_rad m))).

(** [C * rotation * C.transpose()] for the basis change between NED and ENU. *)
Definition in_enu (rotation : mat3) : mat3 :=
  m_mul (m_mul c_enu_ned rotation) (m_transpose c_enu_ned).

(** The rotation of the reset in the world frame; [None] when it is invalid. *)
Definition reset_rotation (m : DetailedResetMetadata) : option mat3 :=
  if dm_attitude_reset m then
    if q_allFinite (dm_attitude_delta m)
       && unit_norm_squared (q_squaredNorm (dm_attitude_delta m)) then
      Some (in_enu (q_toRotationMatrix (q_normalized (dm_attitude_delta m))))
    else None
  else if dm_heading_reset m then Some (in_enu (m_angleAxisZ (dm_heading_delta_rad m)))
  else Some m_identity.

Definition rc_status (status : ResetObservationStatus) (c : ResetCompensator) : ResetObservation :=
  mkResetObservation status None (rc_reset_generation c).

(** A counted reset with its metadata: the continuity transform is composed with
    the inverse reset, and the sample is suppressed (lines 108-184). *)
Definition compensate_reset (s : ConvertedOdometry) (m : DetailedResetMetadata)
    (c : ResetCompensator) : ResetObservation * ResetCompensator :=
  match reset_rotation m with
  | None => (rc_status ro_kInvalidResetRotation c, c)
  | Some reset_rotation_world =>
      let rotation := m_mul (rc_continuity_rotation c) (m_transpose reset_rotation_world) in
      let shift (flag : bool) (delta from : vec3) :=
        if flag then v_sub from (m_mulv rotation (m_mulv c_enu_ned delta)) else from in
      let translation :=
        shift (dm_position_xy_reset m || dm_position_z_reset m) (dm_position_delta_source m)
          (rc_continuity_translation c) in
      let velocity_translation :=
        shift (dm_velocity_xy_reset m || dm_velocity_z_reset m) (dm_velocity_delta_source m)
          (rc_continuity_velocity_translation c) in
      if negb (m_allFinite rotation) || negb (v_allFinite translation)
         || negb (v_allFinite velocity_translation) then
        (rc_status ro_kInvalidCompensatedOutput c, c)
      else
        let generation := u64_inc (rc_reset_generation c) in
        (mkResetObservation ro_kResetTransitionSuppressed None generation,
         mkResetCompensator (rc_initialized c) (co_reset_counter s) generation rotation
           translation velocity_translation (rc_last_output c))
  end.

(** The sample in the continuous frame (lines 187-205). *)
Definition compensated_sample (s : ConvertedOdometry) (c : ResetCompensator) : ConvertedOdometry :=
  let rotation := rc_continuity_rotation c in
  let orientation :=
    q_normalized (q_of_matrix (m_mul rotation (q_toRotationMatrix (co_orientation s)))) in
  let velocity_world :=
    v_add (rc_continuity_velocity_translation c) (m_mulv rotation (co_velocity_world s)) in
  mkConvertedOdometry (co_timestamp_ns s) (co_source_pose_frame s) (co_source_velocity_frame s)
    (co_world_convention s)
    (v_add (rc_continuity_translation c) (m_mulv rotation (co_position s)))
    orientation velocity_world
    (m_mulv (m_transpose (q_toRotationMatrix orientation)) velocity_world)
    (co_angular_velocity_body s) (rotateDiagonalVariance rotation (co_position_variance s))
    (co_velocity_variance s) (co_orientation_variance s) (co_reset_counter s)
    (rc_reset_generation c) (co_frame_generation s) (rc_reset_generation c) (co_time_generation s)
    (co_position_covariance_available s) (co_velocity_covariance_available s)
    (co_orientation_covariance_available s) (co_angular_velocity_valid s).

Definition publish_compensated (s : ConvertedOdometry) (c : ResetCompensator)
    : ResetObservation * ResetCompensator :=
  let output := compensated_sample s c in
  if negb (components_valid output) then (rc_status ro_kInvalidCompensatedOutput c, c)
  else
    (mkResetObservation ro_kAccepted (Some output) (rc_reset_generation c),
     mkResetCompensator (rc_initialized c) (rc_last_counter c) (rc_reset_generation c)
       (rc_continuity_rotation c) (rc_continuity_translation c)
       (rc_continuity_velocity_translation c) (Some output)).

(** [ResetCompensator::observe] *)
Definition rc_observe (s : ConvertedOdometry) (m : DetailedResetMetadata) (c : ResetCompensator)
    : ResetObservation * ResetCompensator :=
  if negb (reset_input_valid s) then (rc_status ro_kInvalidMetadata c, c)
  else if negb (dm_matched_odometry_timestamp_ns m =? 0)
          && negb (dm_matched_odometry_timestamp_ns m =? co_timestamp_ns s) then
    (rc_status ro_kInvalidMetadata c, c)
  else if negb (rc_initialized c) then
    publish_compensated s
      (mkResetCompensator true (co_reset_counter s) (rc_reset_generation c)
         (rc_continuity_rotation c) (rc_continuity_translation c)
         (rc_continuity_velocity_translation c) (rc_last_output c))
  else
    let delta := counter_delta (rc_last_counter c) (co_reset_counter s) in
    if delta =? 0 then publish_compensated s c
    else if negb (delta =? 1) then (rc_status ro_kCounterDiscontinuity c, c)
    else if dm_association_invalid m then (rc_status ro_kInvalidMetadata c, c)
    else if negb (dm_available m) || negb (hasReset m) then (rc_status ro_kMetadataPending c, c)
    else if rc_reset_generation c =? u64_max then (rc_status ro_kGenerationExhausted c, c)
    else if negb (has (rc_last_output c)) || negb (reset_deltas_valid m) then
      (rc_status ro_kInvalidMetadata c, c)
    else compensate_reset s m c.

Definition co_set_position (s : ConvertedOdometry) (p : vec3) : ConvertedOdometry :=
  mkConvertedOdometry (co_timestamp_ns s) (co_source_pose_frame s) (co_source_velocity_frame s)
    (co_world_convention s) p (co_orientation s) (co_velocity_world s) (co_velocity_body s)
    (co_angular_velocity_body s) (co_position_variance s) (co_velocity_variance s)
    (co_orientation_variance s) (co_reset_counter s) (co_reset_event_generation s)
    (co_frame_generation s) (co_reset_generation s) (co_time_generation s)
    (co_position_covariance_available s) (co_velocity_covariance_available s)
    (co_orientation_covariance_available s) (co_angular_velocity_valid s).

(** [rebasePositionAtCurrentOutput] *)
Definition rebasePositionAtCurrentOutput (c : ResetCompensator) : option vec3 * ResetCompensator :=
  match rc_last_output c with
  | None => (None, c)
  | Some last =>
      let origin := co_position last in
      let next_translation := v_sub (rc_continuity_translation c) origin in
      let next_position := v_sub origin origin in
      if negb (v_allFinite origin) || negb (v_allFinite next_translation)
         || negb (v_allFinite next_position) then (None, c)
      else
        (Some origin,
         mkResetCompensator (rc_initialized c) (rc_last_counter c) (rc_reset_generation c)
           (rc_continuity_rotation c) next_translation (rc_continuity_velocity_translation c)
           (Some (co_set_position last next_position)))
  end.
End Compensate.
