(* ===== verification/OdometryRing.v ===== *)
(** * The odometry history

    [px4/px4_odometry_bridge]: [odometry_ring_buffer.hpp] and [.cpp], the bounded
    history the sampling service reads: its operations, its invariant and the
    theorem that a query is a linear search for the bracket of its time. *)

From S2P Require Import Prelude Ordered Float64 TimeNs Geometry WorldGrid TrackingGuard OdometryFrames ResetCompensator.

Record RingBufferConfig : Type := mkRingBufferConfig {
  rbc_duration_ns : Z;
  rbc_capacity : Z;       (* std::size_t *)
  rbc_max_gap_ns : Z;
  rbc_stable_samples : Z  (* std::size_t *)
}.

Definition ring_buffer_default : RingBufferConfig := mkRingBufferConfig 2000000000 512 50000000 3.

Record SampledOdometry : Type := mkSampledOdometry {
  so_value : ConvertedOdometry;
  so_interpolated : bool
}.

Record OdometryRingBuffer : Type := mkOdometryRingBuffer {
  rb_config : RingBufferConfig;
  rb_samples : list ConvertedOdometry; (* the deque, front first *)
  rb_current_generation : Z;
  rb_generation_initialized : bool;
  rb_stable_sample_count : Z;
  rb_post_reset_stable : bool
}.

(** The constructor; [None] when it throws. *)
Definition OdometryRingBuffer_make (config : RingBufferConfig) : option OdometryRingBuffer :=
  if (rbc_duration_ns config <=? 0) || (rbc_capacity config =? 0)
     || (rbc_max_gap_ns config <=? 0) || (rbc_stable_samples config =? 0) then None
  else Some (mkOdometryRingBuffer config [] 0 false 0 false).

Section Ring.
Context {E : EigenOps} {R : EigenRotOps} {M : EigenMatOps} {P : EigenPoseOps}.

Definition validConvertedOdometry (s : ConvertedOdometry) : bool :=
  (0 <? co_timestamp_ns s) && negb (co_frame_generation s =? 0) && components_valid s.

(** The span between the ends of the deque is representable and in bounds. *)
Definition span_in (duration_ns : Z) (front back : ConvertedOdometry) : bool :=
  match checkedDifference (co_timestamp_ns back) (co_timestamp_ns front) with
  | Some span => negb (duration_ns <? span)
  | None => false
  end.

(** The loop of [push] that drops the oldest samples; [back] is its last one. *)
Fixpoint rb_trim (config : RingBufferConfig) (back : ConvertedOdometry)
    (samples : list ConvertedOdometry) : list ConvertedOdometry :=
  match samples with
  | [] => []
  | front :: rest =>
      if (rbc_capacity config <? Z.of_nat (length samples))
         || negb (span_in (rbc_duration_ns config) front back) then rb_trim config back rest
      else samples
  end.

Definition rb_reject (b : OdometryRingBuffer) : OdometryRingBuffer :=
  mkOdometryRingBuffer (rb_config b) [] (rb_current_generation b) (rb_generation_initialized b) 0
    false.

Definition rb_not_newer (s : ConvertedOdometry) (b : OdometryRingBuffer) : bool :=
  match last (rb_samples b) with
  | Some back => co_timestamp_ns s <=? co_timestamp_ns back
  | None => false
  end.

(** A sample of another frame generation restarts the stabilisation. *)
Definition rb_enter_generation (s : ConvertedOdometry) (b : OdometryRingBuffer)
    : OdometryRingBuffer :=
  if negb (rb_generation_initialized b)
     || negb (co_frame_generation s =? rb_current_generation b) then
    mkOdometryRingBuffer (rb_config b) (if rb_generation_initialized b then [] else rb_samples b)
      (co_frame_generation s) true 0 false
  else b.

(** [OdometryRingBuffer::push] *)
Definition rb_push (s : ConvertedOdometry) (b : OdometryRingBuffer) : bool * OdometryRingBuffer :=
  if negb (validConvertedOdometry s) || rb_not_newer s b then (false, rb_reject b)
  else
    let b := rb_enter_generation s b in
    let count := u64_inc (rb_stable_sample_count b) in
    if count <? rbc_stable_samples (rb_config b) then
      (false, mkOdometryRingBuffer (rb_config b) (rb_samples b) (rb_current_generation b)
                (rb_generation_initialized b) count (rb_post_reset_stable b))
    else
      (true, mkOdometryRingBuffer (rb_config b) (rb_trim (rb_config b) s (rb_samples b ++ [s]))
               (rb_current_generation b) (rb_generation_initialized b) count true).

Definition lerp (a b : vec3) (alpha : f64) : vec3 := v_add a (v_scale alpha (v_sub b a)).

Definition co_set_timestamp (s : ConvertedOdometry) (t : Z) : ConvertedOdometry :=
  mkConvertedOdometry t (co_source_pose_frame s) (co_source_velocity_frame s)
    (co_world_convention s) (co_position s) (co_orientation s) (co_velocity_world s)
    (co_velocity_body s) (co_angular_velocity_body s) (co_position_variance s)
    (co_velocity_variance s) (co_orientation_variance s) (co_reset_counter s)
    (co_reset_event_generation s) (co_frame_generation s) (co_reset_generation s)
    (co_time_generation s) (co_position_covariance_available s)
    (co_velocity_covariance_available s) (co_orientation_covariance_available s)
    (co_angular_velocity_valid s).

(** [OdometryRingBuffer::interpolate]; an invalid one has the timestamp zero. *)
Definition rb_interpolate (a b : ConvertedOdometry) (timestamp_ns : Z) : ConvertedOdometry :=
  let invalid := co_set_timestamp a 0 in
  match checkedDifference timestamp_ns (co_timestamp_ns a),
        checkedDifference (co_timestamp_ns b) (co_timestamp_ns a) with
  | Some numerator, Some denominator =>
      if denominator <=? 0 then invalid
      else
        let alpha := f64_div (f64_of_Z numerator) (f64_of_Z denominator) in
        if negb (isfinite alpha) || flt alpha fzero || fgt alpha (f64_of_Z 1) then invalid
        else
          mkConvertedOdometry timestamp_ns (co_source_pose_frame a) (co_source_velocity_frame a)
            (co_world_convention a)
            (lerp (co_position a) (co_position b) alpha)
            (q_normalized (q_slerp (co_orientation a) alpha (co_orientation b)))
            (lerp (co_velocity_world a) (co_velocity_world b) alpha)
            (lerp (co_velocity_body a) (co_velocity_body b) alpha)
            (lerp (co_angular_velocity_body a) (co_angular_velocity_body b) alpha)
            (v_cwiseMax (co_position_variance a) (co_position_variance b))
            (v_cwiseMax (co_velocity_variance a) (co_velocity_variance b))
            (v_cwiseMax (co_orientation_variance a) (co_orientation_variance b))
            (co_reset_counter a) (co_reset_event_generation a) (co_frame_generation a)
            (co_reset_generation a) (co_time_generation a) (co_position_covariance_available a)
            (co_velocity_covariance_available a) (co_orientation_covariance_available a)
            (co_angular_velocity_valid a && co_angular_velocity_valid b)
  | _, _ => invalid
  end.

(** The interpolation between two neighbours of the query (lines 74-87). *)
Definition rb_between (config : RingBufferConfig) (before after : ConvertedOdometry)
    (timestamp_ns : Z) : option SampledOdometry :=
  match checkedDifference (co_timestamp_ns after) (co_timestamp_ns before) with
  | None => None
  | Some bracket_delta =>
      if negb (co_frame_generation after =? co_frame_generation before)
         || negb (co_time_generation after =? co_time_generation before)
         || (rbc_max_gap_ns config <? bracket_delta) then None
      else
        let sampled := rb_interpolate before after timestamp_ns in
        if negb (validConvertedOdometry sampled) then None
        else Some (mkSampledOdometry sampled true)
  end.

(** [OdometryRingBuffer::sample] *)
Definition rb_sample (timestamp_ns : Z) (b : OdometryRingBuffer) : option SampledOdometry :=
  match head (rb_samples b), last (rb_samples b) with
  | Some front, Some back =>
      if (timestamp_ns <? co_timestamp_ns front) || (co_timestamp_ns back <? timestamp_ns) then None
      else
        let upper := lower_bound_by co_timestamp_ns timestamp_ns (rb_samples b) in
        match rb_samples b !! upper with
        | None => None
        | Some after =>
            if co_timestamp_ns after =? timestamp_ns then Some (mkSampledOdometry after false)
            else
              match upper with
              | O => None
              | S before_index =>
                  match rb_samples b !! before_index with
                  | None => None
                  | Some before => rb_between (rb_config b) before after timestamp_ns
                  end
              end
        end
  | _, _ => None
  end.

Definition rb_clear (b : OdometryRingBuffer) : OdometryRingBuffer :=
  mkOdometryRingBuffer (rb_config b) [] 0 false 0 false.

Definition setStableSamples (stable_samples : Z) (b : OdometryRingBuffer) : OdometryRingBuffer :=
  let c := rb_config b in
  mkOdometryRingBuffer
    (mkRingBufferConfig (rbc_duration_ns c) (rbc_capacity c) (rbc_max_gap_ns c)
       (Z.max 1 stable_samples))
    (rb_samples b) (rb_current_generation b) (rb_generation_initialized b) 0 false.

(** ** Runs *)

Inductive ring_op : Type :=
| ring_push (s : ConvertedOdometry) | ring_clear | ring_stable (n : Z).

Definition ring_step (b : OdometryRingBuffer) (o : ring_op) : OdometryRingBuffer :=
  match o with
  | ring_push s => (rb_push s b).2
  | ring_clear => rb_clear b
  | ring_stable n => setStableSamples n b
  end.

Definition ring_reachable (b : OdometryRingBuffer) : Prop :=
  exists config b0 ops, is_u64 (rbc_capacity config)
    /\ OdometryRingBuffer_make config = Some b0 /\ b = run ring_step b0 ops.

(** ** The invariant *)

Abbreviation stamps := (strictly_ordered co_timestamp_ns).

Record ring_inv (b : OdometryRingBuffer) : Prop := {
  ri_duration : 0 < rbc_duration_ns (rb_config b);
  ri_capacity_pos : 0 < rbc_capacity (rb_config b);
  ri_ordered : stamps (rb_samples b);
  ri_valid : Forall (fun s => validConvertedOdometry s = true) (rb_samples b);
  ri_generation :
    Forall (fun s => co_frame_generation s = rb_current_generation b) (rb_samples b);
  ri_initialized : rb_samples b <> [] -> rb_generation_initialized b = true;
  ri_capacity : Z.of_nat (length (rb_samples b)) <= rbc_capacity (rb_config b);
  ri_span : forall x y, head (rb_samples b) = Some x -> last (rb_samples b) = Some y ->
    co_timestamp_ns y - co_timestamp_ns x <= rbc_duration_ns (rb_config b)
}.

Lemma strictly_ordered_drop n l : stamps l -> stamps (drop n l).
Proof. intros Ho i j x y Hij. rewrite !lookup_drop. apply Ho. lia. Qed.

Lemma rb_trim_suffix c back l : exists n, rb_trim c back l = drop n l.
Proof.
  induction l as [|a l [n IH]]; [by exists O|]. cbn [rb_trim].
  destruct (_ || _); [by exists (S n)|by exists O].
Qed.

(** What the loop leaves: the newest sample, within the two bounds. *)
Lemma rb_trim_bounds c back l :
  0 < rbc_duration_ns c -> 0 < rbc_capacity c -> last l = Some back ->
  let r := rb_trim c back l in
  last r = Some back /\ Z.of_nat (length r) <= rbc_capacity c
  /\ forall x, head r = Some x -> span_in (rbc_duration_ns c) x back = true.
Proof.
  intros Hd Hc. induction l as [|a l IH]; intros Hl; [done|]. cbn [rb_trim]. cbv zeta.
  destruct (_ || _) eqn:Hg.
  - apply IH. destruct l as [|b l]; [|done]. injection Hl as ->. exfalso.
    apply orb_true_iff in Hg as [Hg|Hg]; [breflect; simpl in Hg; lia|].
    unfold span_in in Hg. rewrite (proj2 (checkedDifference_some _ _ 0)) in Hg; [|zlia].
    breflect. lia.
  - breflect. destruct Hg as [Hg1 Hg2]. split_and!; [done|done|]. by intros x [= <-].
Qed.

Lemma span_in_le d x y :
  span_in d x y = true -> co_timestamp_ns y - co_timestamp_ns x <= d.
Proof.
  unfold span_in. destruct (checkedDifference _ _) as [s|] eqn:Hs; [|done].
  apply checkedDifference_some in Hs as [-> _]. intros. breflect. lia.
Qed.

Lemma rb_enter_generation_inv s b :
  ring_inv b -> ring_inv (rb_enter_generation s b)
  /\ rb_generation_initialized (rb_enter_generation s b) = true
  /\ rb_current_generation (rb_enter_generation s b) = co_frame_generation s
  /\ rb_config (rb_enter_generation s b) = rb_config b
  /\ (rb_samples (rb_enter_generation s b) = rb_samples b
      \/ rb_samples (rb_enter_generation s b) = []).
Proof.
  intros [Hd Hp Ho Hv Hg Hi Hc Hs]. unfold rb_enter_generation. destruct (_ || _) eqn:Hb; simpl.
  - assert (Hnil : (if rb_generation_initialized b then [] else rb_samples b) = []).
    { destruct (rb_generation_initialized b); [done|]. destruct (rb_samples b) as [|x l]; [done|].
      by specialize (Hi ltac:(done)). }
    rewrite Hnil. split_and!; auto. split; simpl; try done; lia.
  - breflect. destruct Hb as [Hb1 Hb2]. split_and!; auto. by split.
Qed.

Lemma rb_push_inv s b : ring_inv b -> ring_inv (rb_push s b).2.
Proof.
  intros Hinv. unfold rb_push. destruct (_ || _) eqn:Hg; simpl.
  { destruct Hinv. split; simpl; try done; lia. }
  apply orb_false_iff in Hg as [Hval Hnew]. apply negb_false_iff in Hval.
  destruct (rb_enter_generation_inv s b Hinv) as ([Hd Hcap Ho Hv Hgen Hi Hc Hs]&Hini&Hcur&Hcfg&Hsam).
  set (b' := rb_enter_generation s b) in *. cbv zeta.
  destruct (_ <? _); simpl; [by split|].
  set (l := rb_samples b' ++ [s]).
  assert (Hold : stamps l).
  { apply strictly_ordered_snoc; [done|]. intros x Hx.
    destruct Hsam as [Hsam|Hsam]; rewrite Hsam in Hx, Ho; [|by apply not_elem_of_nil in Hx].
    unfold rb_not_newer in Hnew. destruct (last (rb_samples b)) as [y|] eqn:Hy.
    - breflect. enough (co_timestamp_ns x <= co_timestamp_ns y) by lia.
      apply (ordered_last co_timestamp_ns (rb_samples b)); [|done|done].
      intros i j u w Hij Hu Hw. destruct (decide (i = j)) as [->|]; [by simplify_eq|].
      enough (co_timestamp_ns u < co_timestamp_ns w) by lia. eapply (Ho i j); eauto; lia.
    - apply last_None in Hy. rewrite Hy in Hx. by apply not_elem_of_nil in Hx. }
  assert (Hlast : last l = Some s) by (unfold l; by rewrite last_snoc).
  rewrite Hcfg in Hd, Hcap.
  destruct (rb_trim_bounds (rb_config b) s l Hd Hcap Hlast) as (H1&H2&H3).
  rewrite Hcfg. destruct (rb_trim_suffix (rb_config b) s l) as [n Hn].
  split; simpl; rewrite ?Hcfg.
  - done.
  - done.
  - rewrite Hn. by apply strictly_ordered_drop.
  - rewrite Hn. apply Forall_drop. unfold l. apply Forall_app. by repeat constructor.
  - rewrite Hn. apply Forall_drop. unfold l. apply Forall_app. repeat constructor; [done|by rewrite Hcur].
  - done.
  - lia.
  - intros x y Hx Hy. rewrite H1 in Hy. injection Hy as <-. by apply span_in_le, H3.
Qed.

Lemma ring_reachable_inv b : ring_reachable b -> ring_inv b.
Proof.
  intros (config&b0&ops&Hcap&Hmake&->). apply run_invariant.
  - unfold OdometryRingBuffer_make in Hmake. destruct (_ || _) eqn:Hg; [done|].
    injection Hmake as <-. breflect. split; simpl; try done; zlia.
  - intros b' o Hb. destruct o; [by apply rb_push_inv| |]; destruct Hb; split; simpl; try done; lia.
Qed.

(** ** The query is a linear search *)

(** The reference: walk to the first neighbours around the time. *)
Fixpoint ring_lookup (config : RingBufferConfig) (samples : list ConvertedOdometry)
    (timestamp_ns : Z) : option SampledOdometry :=
  match samples with
  | [] => None
  | a :: rest =>
      if co_timestamp_ns a =? timestamp_ns then Some (mkSampledOdometry a false)
      else
        match rest with
        | b :: _ =>
            if (co_timestamp_ns a <? timestamp_ns) && (timestamp_ns <? co_timestamp_ns b) then
              rb_between config a b timestamp_ns
            else ring_lookup config rest timestamp_ns
        | [] => None
        end
  end.

(** The reference on a history split at the query. *)
Lemma ring_lookup_split config t l1 l2 :
  Forall (fun s => co_timestamp_ns s < t) l1 -> Forall (fun s => t <= co_timestamp_ns s) l2 ->
  stamps l2 ->
  ring_lookup config (l1 ++ l2) t
  = match l2 with
    | [] => None
    | b :: _ =>
        if co_timestamp_ns b =? t then Some (mkSampledOdometry b false)
        else match last l1 with Some a => rb_between config a b t | None => None end
    end.
Proof.
  intros H1 H2 Ho. induction H1 as [|a l1 Ha H1 IH].
  - simpl. destruct l2 as [|b l2]; [done|].
    assert (Hb : forall x, x ∈ b :: l2 -> t <= co_timestamp_ns x) by (by apply Forall_forall).
    simpl. destruct (_ =? _) eqn:Hbt; [done|]. clear H2. breflect.
    assert (Hlt : t < co_timestamp_ns b) by (specialize (Hb b ltac:(left)); lia).
    revert b Hb Ho Hbt Hlt; induction l2 as [|c l2 IH]; intros b Hb Ho Hbt Hlt; [done|].
    destruct (co_timestamp_ns b <? t) eqn:Hlt'; [breflect; lia|]. simpl.
    assert (Hc : co_timestamp_ns b < co_timestamp_ns c) by (by apply (Ho 0%nat 1%nat); [lia|..]).
    destruct (co_timestamp_ns c =? t) eqn:Hct; [breflect; lia|].
    apply (IH c); [|by apply (strictly_ordered_drop 1) in Ho|by breflect|lia].
    intros x Hx. apply Hb. by right.
  - simpl. destruct (_ =? _) eqn:Hat; [breflect; lia|].
    destruct l1 as [|a' l1]; simpl in *.
    + destruct l2 as [|b l2]; [done|]. inversion H2; subst.
      rewrite (proj2 (Z.ltb_lt _ _) Ha). simpl.
      destruct (t <? co_timestamp_ns b) eqn:Htb, (co_timestamp_ns b =? t) eqn:Hbt; breflect; try lia; [done|].
      done.
    + inversion H1; subst. rewrite (proj2 (Z.ltb_ge t (co_timestamp_ns a'))), andb_false_r by lia.
      exact IH.
Qed.

(** On every reachable history a query, which the code answers by bisection and
    iterators, is the linear search for the sample of that instant or for the two
    neighbours around it. *)
Theorem ring_sample_is_linear_search b t :
  ring_reachable b -> rb_sample t b = ring_lookup (rb_config b) (rb_samples b) t.
Proof.
  intros [_ _ Ho _ _ _ _ _]%ring_reachable_inv. unfold rb_sample.
  set (l := rb_samples b) in *. set (c := rb_config b).
  assert (Hord : ordered co_timestamp_ns l).
  { intros i j x y Hij Hx Hy. destruct (decide (i = j)) as [->|]; [by simplify_eq|].
    enough (co_timestamp_ns x < co_timestamp_ns y) by lia. eapply (Ho i j); eauto; lia. }
  destruct (lower_bound_by_spec co_timestamp_ns t l Hord) as (Hp&Hlo&Hhi).
  set (p := lower_bound_by co_timestamp_ns t l) in *.
  assert (ring_lookup c l t = ring_lookup c (take p l ++ drop p l) t) as -> by (by rewrite take_drop).
  rewrite ring_lookup_split.
  2: { apply Forall_forall. intros x [i Hx]%list_elem_of_lookup_1.
       apply lookup_take_Some in Hx as [Hx Hi]. by apply (Hlo i). }
  2: { apply Forall_forall. intros x [i Hx]%list_elem_of_lookup_1. rewrite lookup_drop in Hx.
       eapply Hhi; [|exact Hx]; lia. }
  2: { by apply strictly_ordered_drop. }
  destruct (head l) as [front|] eqn:Hf.
  2: { apply head_None in Hf. rewrite Hf. by rewrite drop_nil. }
  destruct (last l) as [back|] eqn:Hb; [|by apply last_None in Hb; rewrite Hb in Hf].
  rewrite head_lookup in Hf. rewrite last_lookup in Hb.
  assert (Hlen : (pred (length l) < length l)%nat) by (by eapply lookup_lt_Some).
  destruct (l !! p) as [after|] eqn:Hafter.
  - rewrite (drop_S _ _ _ Hafter).
    assert (Ha : t <= co_timestamp_ns after) by (by apply (Hhi p)).
    assert (Hback : co_timestamp_ns after <= co_timestamp_ns back).
    { apply lookup_lt_Some in Hafter as Hlt. eapply (Hord p); [|done|exact Hb]. lia. }
    rewrite (proj2 (Z.ltb_ge (co_timestamp_ns back) t)), orb_false_r by lia.
    destruct p as [|q] eqn:Hq; simpl.
    { rewrite Hf in Hafter. injection Hafter as ->. repeat case_match; breflect; try done; lia. }
    assert (Hfr : co_timestamp_ns front < t) by (apply (Hlo 0%nat); [lia|done]).
    rewrite (proj2 (Z.ltb_ge t (co_timestamp_ns front))) by lia.
    destruct (_ =? _); [done|]. apply lookup_lt_Some in Hafter.
    rewrite last_lookup, length_take, lookup_take_lt by lia.
    by replace (pred (S q `min` length l)) with q by lia.
  - apply lookup_ge_None in Hafter. rewrite drop_ge by lia.
    assert (Hlt : co_timestamp_ns back < t) by (eapply Hlo; [|exact Hb]; lia).
    by rewrite (proj2 (Z.ltb_lt _ _) Hlt), orb_true_r.
Qed.
End Ring.

Section Witness.
#[local] Existing Instances eigen_reference eigen_rot_reference eigen_mat_reference
  eigen_pose_reference.

Definition w_sample (ms : Z) : ConvertedOdometry :=
  mkConvertedOdometry (ms * 1000000) pose_kNed vel_kNed world_kRosEnu
    (Vec3 (f64_of_Z ms) fzero fzero) quat_identity vec3_zero vec3_zero vec3_zero
    (vec3_constant (f64_of_Z 1)) (vec3_constant (f64_of_Z 1)) (vec3_constant (f64_of_Z 1))
    0 0 1 0 0 true true true true.

(** Three samples stabilise the frame, two more are stored beside the third. *)
Definition w_ring : OdometryRingBuffer :=
  run ring_step (mkOdometryRingBuffer ring_buffer_default [] 0 false 0 false)
    (map (fun ms => ring_push (w_sample ms)) [10; 20; 30; 40; 50]).

Lemma w_ring_reachable : ring_reachable w_ring.
Proof.
  exists ring_buffer_default, (mkOdometryRingBuffer ring_buffer_default [] 0 false 0 false).
  eexists. split; [by vm_compute|]. split; [reflexivity|reflexivity].
Qed.

Lemma ring_sample_is_linear_search_witness :
  so_interpolated <$> rb_sample 44000000 w_ring = Some true
  /\ rb_sample 44000000 w_ring = ring_lookup (rb_config w_ring) (rb_samples w_ring) 44000000.
Proof.
  split; [vm_compute; reflexivity|].
  apply (ring_sample_is_linear_search w_ring 44000000). exact w_ring_reachable.
Defined.
End Witness.
