(* ===== verification/ExternalBridge.v ===== *)
(** * The external odometry bridge

    [px4/px4_odometry_bridge]: the geometric continuity check
    ([geometric_jump_continuity.hpp] and [.cpp]), the publication gate
    ([external_odometry_gate.hpp] and [.cpp]), the health snapshot
    ([external_lio_health.hpp]), and the node that publishes LIO odometry to PX4
    ([px4_external_odometry_bridge_node.cpp]).  The node runs on one executor
    thread, so each callback is one transition; logging is left out. *)

From S2P Require Import Prelude Float64 TimeNs Geometry WorldGrid Messages CommandContract TrackingGuard OdometryTime OdometryFrames.

(** ** [geometric_jump_continuity] *)

Record GeometricJumpContinuityConfig : Type := mkJumpConfig {
  jc_position_jump_margin_m : f64;
  jc_orientation_jump_margin_rad : f64;
  jc_maximum_expected_speed_mps : f64;
  jc_maximum_expected_angular_rate_rad_s : f64;
  jc_minimum_continuity_dt_s : f64;
  jc_maximum_continuity_dt_s : f64
}.

Inductive GeometricJumpContinuityReason : Type :=
| jump_kNoBaseline | jump_kSourceInvalid | jump_kGenerationInvalid | jump_kGenerationChanged
| jump_kPreviousFrameInvalid | jump_kCurrentFrameInvalid | jump_kTimestampNotIncreasing
| jump_kDtTooSmall | jump_kDtTooLarge | jump_kThresholdOverflow | jump_kWithinThreshold
| jump_kJumpDetected.

Record GeometricJumpContinuityObservation : Type := mkJumpObservation {
  jo_evaluated : bool;
  jo_jumped : bool;
  jo_baseline_reseeded : bool;
  jo_sample_admissible : bool;
  jo_reason : GeometricJumpContinuityReason;
  jo_dt_s : f64;
  jo_position_delta_m : f64;
  jo_allowed_position_delta_m : f64;
  jo_orientation_delta_rad : f64;
  jo_allowed_orientation_delta_rad : f64
}.

Definition jump_observation_default : GeometricJumpContinuityObservation :=
  mkJumpObservation false false false true jump_kNoBaseline fzero fzero fzero fzero fzero.

Record GeometricJumpContinuityState : Type := mkJumpState {
  js_last_received : option ExternalOdometryFrame;
  js_last_generation : Z;
  js_last_generation_valid : bool;
  js_continuity_trusted : bool
}.

Definition jump_state_initial : GeometricJumpContinuityState := mkJumpState None 0 false false.

Definition jump_reason_to_string (r : GeometricJumpContinuityReason) : string :=
  match r with
  | jump_kNoBaseline => "NO_BASELINE"
  | jump_kSourceInvalid => "SOURCE_INVALID"
  | jump_kGenerationInvalid => "GENERATION_INVALID"
  | jump_kGenerationChanged => "GENERATION_CHANGED"
  | jump_kPreviousFrameInvalid => "PREVIOUS_FRAME_INVALID"
  | jump_kCurrentFrameInvalid => "CURRENT_FRAME_INVALID"
  | jump_kTimestampNotIncreasing => "TIMESTAMP_NOT_INCREASING"
  | jump_kDtTooSmall => "DT_TOO_SMALL"
  | jump_kDtTooLarge => "DT_TOO_LARGE"
  | jump_kThresholdOverflow => "THRESHOLD_OVERFLOW"
  | jump_kWithinThreshold => "WITHIN_THRESHOLD"
  | jump_kJumpDetected => "JUMP_DETECTED"
  end.

(** [std::numeric_limits<double>::max()] *)
Definition f64_max : f64 := f64_of_Z (2 ^ 1024 - 2 ^ 971).

(** [margin + rate * duration] in [long double]. *)
Definition long_bound (margin rate duration : f64) : f80 :=
  f80_add (f80_of_f64 margin) (f80_mul (f80_of_f64 rate) (f80_of_f64 duration)).

Definition bound_representable (margin rate duration : f64) : bool :=
  let bound := long_bound margin rate duration in
  isfinite bound && fle bound (f80_of_f64 f64_max).

Definition jump_config_valid (c : GeometricJumpContinuityConfig) : bool :=
  let nonnegative x := isfinite x && fge x fzero in
  nonnegative (jc_position_jump_margin_m c) && nonnegative (jc_orientation_jump_margin_rad c)
  && nonnegative (jc_maximum_expected_speed_mps c)
  && nonnegative (jc_maximum_expected_angular_rate_rad_s c)
  && isfinite (jc_minimum_continuity_dt_s c) && fgt (jc_minimum_continuity_dt_s c) fzero
  && isfinite (jc_maximum_continuity_dt_s c)
  && fge (jc_maximum_continuity_dt_s c) (jc_minimum_continuity_dt_s c)
  && bound_representable (jc_position_jump_margin_m c) (jc_maximum_expected_speed_mps c)
       (jc_maximum_continuity_dt_s c)
  && bound_representable (jc_orientation_jump_margin_rad c)
       (jc_maximum_expected_angular_rate_rad_s c) (jc_maximum_continuity_dt_s c).

(** [1e-9] as the code multiplies it *)
Definition lit_1e_9 : f64 := f64_lit 1 1000000000.

Definition reseed (current : ExternalOdometryFrame) (generation_valid : bool) (generation : Z)
    (reason : GeometricJumpContinuityReason) (continuity_trusted : bool)
    : GeometricJumpContinuityObservation * GeometricJumpContinuityState :=
  (mkJumpObservation false false true true reason fzero fzero fzero fzero fzero,
   mkJumpState (Some current) generation generation_valid continuity_trusted).

Definition jo_set_dt (o : GeometricJumpContinuityObservation) (dt_s : f64)
    : GeometricJumpContinuityObservation :=
  mkJumpObservation (jo_evaluated o) (jo_jumped o) (jo_baseline_reseeded o)
    (jo_sample_admissible o) (jo_reason o) dt_s (jo_position_delta_m o)
    (jo_allowed_position_delta_m o) (jo_orientation_delta_rad o)
    (jo_allowed_orientation_delta_rad o).

(** A sample that is not admissible leaves the state alone. *)
Definition inadmissible (reason : GeometricJumpContinuityReason) (dt_s : f64)
    : GeometricJumpContinuityObservation :=
  mkJumpObservation false false false false reason dt_s fzero fzero fzero fzero.

Section Continuity.
Context {E : EigenOps} {R : EigenRotOps} {P : EigenPoseOps}.

Definition jump_frame_valid (frame : ExternalOdometryFrame) : bool :=
  let quaternion_squared_norm := q_squaredNorm (ef_orientation_ned frame) in
  (0 <? ef_timestamp_ns frame) && v_allFinite (ef_position_ned frame)
  && v_allFinite (ef_velocity_ned frame) && v_allFinite (ef_angular_velocity_body_frd frame)
  && q_allFinite (ef_orientation_ned frame) && isfinite quaternion_squared_norm
  && fle (fabs (f64_sub quaternion_squared_norm (f64_of_Z 1))) (f64_lit 1 1000000).

(** Both frames can be compared (lines 144-184). *)
Definition compare_frames (current previous : ExternalOdometryFrame) (generation_valid : bool)
    (generation : Z) (c : GeometricJumpContinuityConfig) (dt_s : f64)
    : GeometricJumpContinuityObservation * GeometricJumpContinuityState :=
  let position_delta_m := v_norm (v_sub (ef_position_ned current) (ef_position_ned previous)) in
  let orientation_delta_rad :=
    q_angularDistance (ef_orientation_ned previous) (ef_orientation_ned current) in
  let allowed_position :=
    f64_of_f80 (long_bound (jc_position_jump_margin_m c) (jc_maximum_expected_speed_mps c) dt_s) in
  let allowed_orientation :=
    f64_of_f80 (long_bound (jc_orientation_jump_margin_rad c)
                  (jc_maximum_expected_angular_rate_rad_s c) dt_s) in
  if negb (isfinite allowed_position) || negb (isfinite allowed_orientation) then
    reseed current generation_valid generation jump_kThresholdOverflow false
  else
    let jumped := fgt position_delta_m allowed_position
                  || fgt orientation_delta_rad allowed_orientation in
    (mkJumpObservation true jumped false true
       (if jumped then jump_kJumpDetected else jump_kWithinThreshold) dt_s position_delta_m
       allowed_position orientation_delta_rad allowed_orientation,
     mkJumpState (Some current) generation generation_valid true).

Definition observe_geometric_jump_continuity (current : ExternalOdometryFrame)
    (source_valid generation_valid : bool) (generation : Z) (c : GeometricJumpContinuityConfig)
    (s : GeometricJumpContinuityState)
    : GeometricJumpContinuityObservation * GeometricJumpContinuityState :=
  if negb (jump_config_valid c) || negb (jump_frame_valid current) then
    reseed current false generation jump_kCurrentFrameInvalid false
  else if negb source_valid then
    reseed current generation_valid generation jump_kSourceInvalid false
  else if negb generation_valid || (generation =? 0) then
    reseed current generation_valid generation jump_kGenerationInvalid false
  else if negb (ef_frame_valid current) then
    reseed current generation_valid generation jump_kCurrentFrameInvalid false
  else
    match js_last_received s with
    | None => reseed current generation_valid generation jump_kNoBaseline true
    | Some previous =>
        if negb (js_last_generation_valid s) || negb (js_continuity_trusted s) then
          reseed current generation_valid generation jump_kNoBaseline true
        else if negb (ef_frame_valid previous) || negb (jump_frame_valid previous) then
          reseed current generation_valid generation jump_kPreviousFrameInvalid true
        else if negb (js_last_generation s =? generation) then
          reseed current generation_valid generation jump_kGenerationChanged true
        else
          match checkedDifference (ef_timestamp_ns current) (ef_timestamp_ns previous) with
          | None => (inadmissible jump_kTimestampNotIncreasing fzero, s)
          | Some dt =>
              if dt <=? 0 then (inadmissible jump_kTimestampNotIncreasing fzero, s)
              else
                let dt_s := f64_mul (f64_of_Z dt) lit_1e_9 in
                if flt dt_s (jc_minimum_continuity_dt_s c) then
                  (inadmissible jump_kDtTooSmall dt_s, s)
                else if fgt dt_s (jc_maximum_continuity_dt_s c) then
                  let '(o, s) :=
                    reseed current generation_valid generation jump_kDtTooLarge false in
                  (jo_set_dt o dt_s, s)
                else compare_frames current previous generation_valid generation c dt_s
          end
    end.
End Continuity.

(** ** [external_odometry_gate] *)

Record ExternalOdometryGateInput : Type := mkGateInput {
  gi_node_ready : bool;
  gi_transport_ready : bool;
  gi_timestamp_ready : bool;
  gi_covariance_ready : bool;
  gi_public_frame_generation_valid : bool;
  gi_lio_valid : bool;
  gi_lio_fresh : bool;
  gi_frame_valid : bool;
  gi_geometric_continuity_trusted : bool;
  gi_geometric_jump_latched : bool;
  gi_geometric_sample_admissible : bool
}.

(** The result copies its input; [publisher_ready], [publication_ready] and the
    reason are computed. *)
Record ExternalOdometryGateResult : Type := mkGateResult {
  gr_input : ExternalOdometryGateInput;
  gr_publisher_ready : bool;
  gr_publication_ready : bool;
  gr_reason : string
}.

Definition gate_default : ExternalOdometryGateResult :=
  mkGateResult (mkGateInput false false false false false false false false false false false)
    false false "GATE_CLOSED".

Definition gate_ready (i : ExternalOdometryGateInput) : bool :=
  gi_node_ready i && gi_transport_ready i && gi_timestamp_ready i && gi_covariance_ready i
  && gi_lio_valid i && gi_public_frame_generation_valid i && gi_lio_fresh i && gi_frame_valid i
  && gi_geometric_continuity_trusted i && negb (gi_geometric_jump_latched i)
  && gi_geometric_sample_admissible i.

Definition gate_reason (i : ExternalOdometryGateInput) : string :=
  if gate_ready i then "READY"
  else if gi_geometric_jump_latched i then "GEOMETRIC_JUMP_LATCHED"
  else if negb (gi_geometric_sample_admissible i) then "GEOMETRIC_SAMPLE_NOT_ADMISSIBLE"
  else if negb (gi_geometric_continuity_trusted i) then "GEOMETRIC_CONTINUITY_UNTRUSTED"
  else if negb (gi_lio_valid i) then "LIO_INVALID"
  else if negb (gi_public_frame_generation_valid i) then "PUBLIC_FRAME_GENERATION_INVALID"
  else if negb (gi_timestamp_ready i) then "TIMESTAMP_INVALID"
  else if negb (gi_covariance_ready i) then "COVARIANCE_INVALID"
  else if negb (gi_lio_fresh i) then "LIO_ODOMETRY_STALE"
  else if negb (gi_frame_valid i) then "FRAME_INVALID"
  else if negb (gi_transport_ready i) then "PX4_INPUT_TRANSPORT_NOT_READY"
  else "NODE_NOT_READY".

Definition evaluate_external_odometry_gate (i : ExternalOdometryGateInput)
    : ExternalOdometryGateResult :=
  mkGateResult i (gi_node_ready i && gi_transport_ready i) (gate_ready i) (gate_reason i).

(** ** [external_lio_health.hpp] *)

Record ExternalLioHealthSnapshot : Type := mkLioHealth {
  hs_source_stamp_ns : Z;
  hs_public_frame_generation : Z;
  hs_public_frame_generation_valid : bool;
  hs_lio_valid : bool;
  hs_covariance_valid : bool
}.

Definition externalLioHealthIsNewer (health : option ExternalLioHealthSnapshot)
    (last_source_stamp_ns : Z) : bool :=
  match health with
  | Some h => last_source_stamp_ns <? hs_source_stamp_ns h
  | None => false
  end.

Definition externalLioHealthSnapshot (m : EstimatorHealth) : option ExternalLioHealthSnapshot :=
  match rosTimeToNanoseconds (eh_stamp m) with
  | None => None
  | Some source_stamp_ns =>
      if (source_stamp_ns <=? 0) || (eh_localization_epoch m =? 0) then None
      else
        let f := eh_flags m in
        Some (mkLioHealth source_stamp_ns (eh_localization_epoch m) true
                ((eh_state m =? HEALTH_TRACKING) && hf_navigation_valid f
                 && hf_observability_valid f && hf_correction_fresh f && hf_propagation_valid f)
                (hf_covariance_valid f))
  end.

(** ** The node *)

(** [navigation_contracts/PropagatedOdometry] as the bridge reads it. *)
Record LioPropagated : Type := mkLioPropagated {
  lp_odometry : LioOdometry;
  lp_localization_epoch : Z;
  lp_sequence : Z
}.

(** [px4_msgs/VehicleOdometry]; both frames are NED.  A quaternion of floats
    is a [quat] of [f32] coefficients. *)
Record VehicleOdometry : Type := mkVehicleOdometry {
  vo_timestamp : Z;
  vo_timestamp_sample : Z;
  vo_position : vec3f;
  vo_q : quat;
  vo_velocity : vec3f;
  vo_angular_velocity : vec3f;
  vo_position_variance : vec3f;
  vo_orientation_variance : vec3f;
  vo_velocity_variance : vec3f;
  vo_reset_counter : Z;
  vo_quality : Z
}.

(** The members read after construction. *)
Record ExternalBridgeConfig : Type := mkExternalBridgeConfig {
  xc_health_max_age_ns : Z;
  xc_timestamp_mapping_mode : TimestampMappingMode;
  xc_jump_continuity_config : GeometricJumpContinuityConfig
}.

Record BridgeHealth : Type := mkBridgeHealth {
  bh_public_frame_generation : Z;
  bh_public_frame_generation_valid : bool;
  bh_lio_valid : bool;
  bh_lio_covariance_valid : bool;
  bh_last_lio_health_ns : Z;
  bh_last_lio_health_stamp_ns : Z
}.

Record BridgeReport : Type := mkBridgeReport {
  br_published_count : Z;
  br_gated_count : Z;
  br_rejected_count : Z;
  br_covariance_rejected_count : Z;
  br_last_frame_valid : bool;
  br_publication_ready : bool;
  br_publication_active : bool;
  br_last_rejection_reason : string;
  br_last_gate : ExternalOdometryGateResult;
  br_last_timestamp_result : TimestampConversionResult;
  br_last_jump_observation : GeometricJumpContinuityObservation;
  br_last_published_time_ns : Z;
  br_last_reset_counter : Z
}.

Record ExternalBridge : Type := mkExternalBridge {
  xb_last_published : option ExternalOdometryFrame;
  xb_last_received : option ExternalOdometryFrame;
  xb_jump_state : GeometricJumpContinuityState;
  xb_jump_latch : GeometricJumpLatch;
  xb_converter : TimestampConverter;
  xb_highest_epoch : Z;
  xb_highest_sequence : Z;
  xb_health : BridgeHealth;
  xb_report : BridgeReport
}.

Definition kTransportTimestampMappingGeneration : Z := 1.

Definition requireDurationNanoseconds (seconds : f64) (allow_zero : bool) : option Z :=
  match secondsToNanoseconds seconds with
  | Some nanoseconds =>
      if negb allow_zero && (nanoseconds <=? 0) then None else Some nanoseconds
  | None => None
  end.

(** The constructor with the declared parameters; [None] when it throws. *)
Definition ExternalBridge_make (max_age_s health_max_age_s : f64)
    (jump : GeometricJumpContinuityConfig) (use_sim_time : bool) (clock_domain : string)
    : option (ExternalBridgeConfig * ExternalBridge) :=
  let positive x := isfinite x && fgt x fzero in
  if negb (positive max_age_s && positive health_max_age_s
           && positive (jc_position_jump_margin_m jump)
           && positive (jc_orientation_jump_margin_rad jump)
           && positive (jc_maximum_expected_speed_mps jump)
           && positive (jc_maximum_expected_angular_rate_rad_s jump)
           && positive (jc_minimum_continuity_dt_s jump)
           && isfinite (jc_maximum_continuity_dt_s jump)
           && negb (flt (jc_maximum_continuity_dt_s jump) (jc_minimum_continuity_dt_s jump))) then
    None
  else
    match requireDurationNanoseconds max_age_s false,
          requireDurationNanoseconds health_max_age_s false with
    | Some max_age_ns, Some health_max_age_ns =>
        let mode := timestampMappingModeFor use_sim_time clock_domain in
        if mode ==? map_kUnresolved then None
        else
          match TimestampConverter_make max_age_ns with
          | None => None
          | Some converter =>
              Some (mkExternalBridgeConfig health_max_age_ns mode jump,
                    mkExternalBridge None None jump_state_initial jump_latch_initial converter 0 0
                      (mkBridgeHealth 0 false false false 0 0)
                      (mkBridgeReport 0 0 0 0 false false false "NONE" gate_default
                         timestamp_conversion_default jump_observation_default 0 0))
          end
    | _, _ => None
    end.

Definition distrust (s : GeometricJumpContinuityState) : GeometricJumpContinuityState :=
  mkJumpState (js_last_received s) (js_last_generation s) (js_last_generation_valid s) false.

Definition xb_set_health (x : ExternalBridge) (h : BridgeHealth) : ExternalBridge :=
  mkExternalBridge (xb_last_published x) (xb_last_received x) (xb_jump_state x) (xb_jump_latch x)
    (xb_converter x) (xb_highest_epoch x) (xb_highest_sequence x) h (xb_report x).

Definition xb_set_report (x : ExternalBridge) (r : BridgeReport) : ExternalBridge :=
  mkExternalBridge (xb_last_published x) (xb_last_received x) (xb_jump_state x) (xb_jump_latch x)
    (xb_converter x) (xb_highest_epoch x) (xb_highest_sequence x) (xb_health x) r.

(** [on_lio_health] *)
Definition on_lio_health (message : EstimatorHealth) (x : ExternalBridge) : ExternalBridge :=
  match externalLioHealthSnapshot message with
  | None => x
  | Some h =>
      if negb (bh_last_lio_health_stamp_ns (xb_health x) <? hs_source_stamp_ns h) then x
      else
        let '(generation_changed, latch) :=
          observePublicFrameGeneration (hs_public_frame_generation_valid h)
            (hs_public_frame_generation h) (xb_jump_latch x) in
        mkExternalBridge
          (if generation_changed then None else xb_last_published x) (xb_last_received x)
          (if generation_changed then distrust (xb_jump_state x) else xb_jump_state x) latch
          (xb_converter x) (xb_highest_epoch x) (xb_highest_sequence x)
          (mkBridgeHealth (hs_public_frame_generation h) (hs_public_frame_generation_valid h)
             (hs_lio_valid h) (hs_covariance_valid h) (hs_source_stamp_ns h)
             (hs_source_stamp_ns h))
          (xb_report x)
  end.

Definition lio_health_fresh (config : ExternalBridgeConfig) (now_ns : Z) (h : BridgeHealth) : bool :=
  if (bh_last_lio_health_ns h <=? 0) || (now_ns <=? 0) then false
  else
    match checkedDifference now_ns (bh_last_lio_health_ns h) with
    | Some age => (0 <=? age) && (age <=? xc_health_max_age_ns config)
    | None => false
    end.

Definition float_finite (value : f64) : bool := isfinite (f32_of_f64 value).
Definition floats_finite (v : vec3) : bool :=
  float_finite (vx v) && float_finite (vy v) && float_finite (vz v).

Definition fits_px4_float (frame : ExternalOdometryFrame) : bool :=
  floats_finite (ef_position_ned frame)
  && (let q := ef_orientation_ned frame in
      float_finite (qx q) && float_finite (qy q) && float_finite (qz q) && float_finite (qw q))
  && floats_finite (ef_velocity_ned frame) && floats_finite (ef_angular_velocity_body_frd frame).

(** A sample refused before the gate: of an old identity ([closed] is false), or
    not convertible ([closed] is true). *)
Definition xb_reject (reason : string) (closed covariance : bool) (x : ExternalBridge)
    : ExternalBridge :=
  let r := xb_report x in
  mkExternalBridge (xb_last_published x) (xb_last_received x)
    (if closed then distrust (xb_jump_state x) else xb_jump_state x) (xb_jump_latch x)
    (xb_converter x) (xb_highest_epoch x) (xb_highest_sequence x) (xb_health x)
    (mkBridgeReport (br_published_count r) (br_gated_count r) (u64_inc (br_rejected_count r))
       (if covariance then u64_inc (br_covariance_rejected_count r)
        else br_covariance_rejected_count r)
       false false false reason (if closed then gate_default else br_last_gate r)
       (br_last_timestamp_result r) (br_last_jump_observation r) (br_last_published_time_ns r)
       (br_last_reset_counter r)).

(** The high-water mark, and the reset at a new epoch (lines 202-216). *)
Definition advance_identity (message : LioPropagated) (x : ExternalBridge) : ExternalBridge :=
  let epoch := lp_localization_epoch message in
  let epoch_changed := negb (xb_highest_epoch x =? 0) && negb (epoch =? xb_highest_epoch x) in
  mkExternalBridge
    (if epoch_changed then None else xb_last_published x)
    (if epoch_changed then None else xb_last_received x)
    (if epoch_changed then jump_state_initial else xb_jump_state x)
    (if epoch_changed then (observePublicFrameGeneration true epoch (xb_jump_latch x)).2
     else xb_jump_latch x)
    (xb_converter x) epoch (lp_sequence message) (xb_health x) (xb_report x).

Record FloatVariances : Type := mkFloatVariances {
  fv_position : vec3f;
  fv_orientation : vec3f;
  fv_velocity : vec3f
}.

Definition float_variances (frame : ExternalOdometryFrame) : option FloatVariances :=
  match positive_variances_to_px4_float (ef_position_variance frame),
        positive_variances_to_px4_float (ef_orientation_variance frame),
        positive_variances_to_px4_float (ef_velocity_variance frame) with
  | Some p, Some o, Some v => Some (mkFloatVariances p o v)
  | _, _, _ => None
  end.

Definition quat_to_float (q : quat) : quat :=
  Quat (f32_of_f64 (qx q)) (f32_of_f64 (qy q)) (f32_of_f64 (qz q)) (f32_of_f64 (qw q)).

Definition public_generation (h : BridgeHealth) : Z :=
  if bh_public_frame_generation_valid h then bh_public_frame_generation h else 0.

Definition external_output (frame : ExternalOdometryFrame) (v : FloatVariances)
    (t : TimestampConversionResult) (h : BridgeHealth) : VehicleOdometry :=
  mkVehicleOdometry (tc_publication_time_us t) (tc_measurement_time_us t)
    (vec3f_of_vec3 (ef_position_ned frame)) (quat_to_float (ef_orientation_ned frame))
    (vec3f_of_vec3 (ef_velocity_ned frame)) (vec3f_of_vec3 (ef_angular_velocity_body_frd frame))
    (fv_position v) (fv_orientation v) (fv_velocity v)
    (public_frame_generation_to_reset_counter (public_generation h))
    (if bh_lio_valid h then 100 else 50).

Section Node.
Context {E : EigenOps} {R : EigenRotOps} {M : EigenMatOps} {P : EigenPoseOps}.
Context (config : ExternalBridgeConfig).

(** The checks on a convertible sample (lines 253-306): the new state and the gate. *)
Definition gate_sample (now_ns : Z) (transport_ready : bool) (frame : ExternalOdometryFrame)
    (x : ExternalBridge) : ExternalBridge :=
  let h := xb_health x in
  let generation := public_generation h in
  let generation_valid := bh_public_frame_generation_valid h && (0 <? generation) in
  let '(t, converter) :=
    tc_convert (ef_timestamp_ns frame) now_ns (xc_timestamp_mapping_mode config)
      kTransportTimestampMappingGeneration (xb_converter x) in
  let source_continuity_valid := bh_lio_valid h && ef_frame_valid frame && generation_valid in
  let '(observation, jump_state) :=
    observe_geometric_jump_continuity frame source_continuity_valid generation_valid generation
      (xc_jump_continuity_config config)
      (mkJumpState (xb_last_received x) (js_last_generation (xb_jump_state x))
         (js_last_generation_valid (xb_jump_state x)) (js_continuity_trusted (xb_jump_state x))) in
  let '(_, latch) := observeGeometricJump (jo_jumped observation) (xb_jump_latch x) in
  let gate :=
    evaluate_external_odometry_gate
      (mkGateInput true transport_ready (tc_valid t)
         (ef_covariance_valid frame && bh_lio_covariance_valid h) generation_valid
         (bh_lio_valid h) (lio_health_fresh config now_ns h) (ef_frame_valid frame)
         (js_continuity_trusted jump_state) (jl_latched latch)
         (jo_sample_admissible observation)) in
  let r := xb_report x in
  mkExternalBridge (xb_last_published x) (js_last_received jump_state) jump_state latch converter
    (xb_highest_epoch x) (xb_highest_sequence x) h
    (mkBridgeReport (br_published_count r) (br_gated_count r) (br_rejected_count r)
       (br_covariance_rejected_count r) true (gr_publication_ready gate)
       (gr_publication_ready gate) "NONE" gate t observation (br_last_published_time_ns r)
       (br_last_reset_counter r)).

(** Behind the gate (lines 310-340). *)
Definition publish_sample (frame : ExternalOdometryFrame) (v : FloatVariances) (x : ExternalBridge)
    : option VehicleOdometry * ExternalBridge :=
  let r := xb_report x in
  if negb (br_publication_ready r) then
    (None,
     xb_set_report x
       (mkBridgeReport (br_published_count r) (u64_inc (br_gated_count r)) (br_rejected_count r)
          (br_covariance_rejected_count r) (br_last_frame_valid r) (br_publication_ready r) false
          (br_last_rejection_reason r) (br_last_gate r) (br_last_timestamp_result r)
          (br_last_jump_observation r) (br_last_published_time_ns r) (br_last_reset_counter r)))
  else
    let output := external_output frame v (br_last_timestamp_result r) (xb_health x) in
    (Some output,
     mkExternalBridge (Some frame) (xb_last_received x) (xb_jump_state x) (xb_jump_latch x)
       (xb_converter x) (xb_highest_epoch x) (xb_highest_sequence x) (xb_health x)
       (mkBridgeReport (u64_inc (br_published_count r)) (br_gated_count r) (br_rejected_count r)
          (br_covariance_rejected_count r) (br_last_frame_valid r) (br_publication_ready r) true
          (br_last_rejection_reason r) (br_last_gate r) (br_last_timestamp_result r)
          (br_last_jump_observation r) (ef_timestamp_ns frame) (vo_reset_counter output))).

(** [on_lio], with the clock and whether the publisher has a subscriber. *)
Definition on_lio (now_ns : Z) (transport_ready : bool) (message : LioPropagated)
    (x : ExternalBridge) : option VehicleOdometry * ExternalBridge :=
  if negb (strictly_newer_source_identity (xb_highest_epoch x) (xb_highest_sequence x)
             (lp_localization_epoch message) (lp_sequence message)) then
    (None, xb_reject "PROPAGATED_STATE_IDENTITY_REJECTED" false false x)
  else
    let x := advance_identity message x in
    match convert_ros_lio_odometry (lp_odometry message) with
    | None => (None, xb_reject "EXTERNAL_ODOMETRY_CONVERSION_REJECTED" true false x)
    | Some frame =>
        if negb (fits_px4_float frame) then
          (None, xb_reject "EXTERNAL_ODOMETRY_NOT_FLOAT_REPRESENTABLE" true false x)
        else
          match float_variances frame with
          | None => (None, xb_reject "COVARIANCE_NOT_FLOAT_REPRESENTABLE" true true x)
          | Some v => publish_sample frame v (gate_sample now_ns transport_ready frame x)
          end
    end.

(** ** Runs *)

Inductive bridge_event : Type :=
| bridge_health (message : EstimatorHealth)
| bridge_lio (now_ns : Z) (transport_ready : bool) (message : LioPropagated).

Definition bridge_step (x : ExternalBridge) (e : bridge_event)
    : option VehicleOdometry * ExternalBridge :=
  match e with
  | bridge_health m => (None, on_lio_health m x)
  | bridge_lio now ready m => on_lio now ready m x
  end.

(** The states of a run and what each event published. *)
Fixpoint bridge_run (x : ExternalBridge) (es : list bridge_event)
    : list (bridge_event * ExternalBridge * option VehicleOdometry) * ExternalBridge :=
  match es with
  | [] => ([], x)
  | e :: es =>
      let '(output, x') := bridge_step x e in
      let '(trace, last_) := bridge_run x' es in ((e, x, output) :: trace, last_)
  end.
End Node.
