(* ===== verification/ExternalBridgeProps.v ===== *)
(** * Theorems on the external odometry bridge

    What the node publishes to PX4 is justified by its gate, ordered in source
    time, and closed by the jump latch until the producer announces a newer
    frame; and a divergence: the first sample of a new epoch goes out under the
    reset counter of the old one. *)

From S2P Require Import Prelude Ordered Float64 TimeNs Geometry WorldGrid Messages CommandContract TrackingGuard OdometryTime OdometryFrames ExternalBridge.

(** ** The timestamp converter *)

(** What one conversion does to the high-water marks of its mapping generation. *)
Definition marks_rise (g : Z) (c c' : TimestampConverter) : Prop :=
  tc_last_timestamp_mapping_generation c = Some g ->
  tc_last_timestamp_mapping_generation c' = Some g
  /\ (forall m, tc_last_measurement_time_us c = Some m ->
      exists m', tc_last_measurement_time_us c' = Some m' /\ m <= m')
  /\ (forall p, tc_last_publication_time_us c = Some p ->
      exists p', tc_last_publication_time_us c' = Some p' /\ p <= p').

#[export] Instance marks_rise_refl g : Reflexive (marks_rise g).
Proof. intros c Hg. split_and!; eauto with lia. Qed.

#[export] Instance marks_rise_trans g : Transitive (marks_rise g).
Proof.
  intros a b c Hab Hbc Hg. destruct (Hab Hg) as (Hb&Hm&Hp), (Hbc Hb) as (Hc&Hm'&Hp').
  split_and!; [done| |].
  - intros m (m1&H1&?)%Hm. destruct (Hm' _ H1) as (m2&?&?). eauto with lia.
  - intros p (p1&H1&?)%Hp. destruct (Hp' _ H1) as (p2&?&?). eauto with lia.
Qed.

Lemma option_not_older o x :
  option_lt o x = false -> option_eq o x = false -> forall l, o = Some l -> l < x.
Proof. intros H1 H2 l ->. simpl in *. breflect. lia. Qed.

Lemma option_not_lt o x : option_lt o x = false -> forall l, o = Some l -> l <= x.
Proof. intros H l ->. simpl in *. by breflect. Qed.

(** A conversion either fails and leaves the marks of the current generation, or
    succeeds strictly above the last measurement and sets them. *)
Definition conversion_ok (g : Z) (c : TimestampConverter)
    (r : TimestampConversionResult * TimestampConverter) : Prop :=
  marks_rise g c r.2
  /\ (tc_valid r.1 = true ->
      tc_last_timestamp_mapping_generation r.2 = Some g
      /\ tc_last_measurement_time_us r.2 = Some (tc_measurement_time_us r.1)
      /\ tc_last_publication_time_us r.2 = Some (tc_publication_time_us r.1)
      /\ (tc_last_timestamp_mapping_generation c = Some g ->
          (forall l, tc_last_measurement_time_us c = Some l -> l < tc_measurement_time_us r.1)
          /\ (forall l, tc_last_publication_time_us c = Some l -> l <= tc_publication_time_us r.1))).

Lemma conversion_ok_invalid g c r :
  tc_valid r.1 = false ->
  tc_last_timestamp_mapping_generation r.2 = tc_last_timestamp_mapping_generation c ->
  tc_last_measurement_time_us r.2 = tc_last_measurement_time_us c ->
  tc_last_publication_time_us r.2 = tc_last_publication_time_us c -> conversion_ok g c r.
Proof.
  intros Hv Hg Hm Hp. split; [|congruence].
  intros Hc. rewrite Hg, Hm, Hp. split_and!; eauto with lia.
Qed.

Lemma conversion_ok_entered g c r :
  tc_last_timestamp_mapping_generation c <> Some g ->
  (tc_valid r.1 = true -> tc_last_timestamp_mapping_generation r.2 = Some g
    /\ tc_last_measurement_time_us r.2 = Some (tc_measurement_time_us r.1)
    /\ tc_last_publication_time_us r.2 = Some (tc_publication_time_us r.1)) ->
  conversion_ok g c r.
Proof. intros Hne Hv. split; [done|]. intros (?&?&?)%Hv. split_and!; done. Qed.

Lemma tc_convert_ok m p mode g c : conversion_ok g c (tc_convert m p mode g c).
Proof.
  unfold tc_convert.
  destruct (mode ==? map_kUnresolved); [by apply conversion_ok_invalid|].
  destruct (g =? 0); [by apply conversion_ok_invalid|]. cbv zeta.
  destruct (tc_last_timestamp_mapping_generation c ==? Some g) eqn:Hg; breflect; simpl.
  - repeat case_match; try (by apply conversion_ok_invalid).
    pose proof (option_not_older (tc_last_measurement_time_us c) _ ltac:(eassumption) ltac:(eassumption)) as Hm.
    pose proof (option_not_lt (tc_last_publication_time_us c) _ ltac:(eassumption)) as Hp.
    split.
    + intros _. simpl. split_and!; [done| |]; intros l Hl; eexists; (split; [done|]).
      * apply Z.lt_le_incl. by apply Hm.
      * by apply Hp.
    + intros _. by destruct mode.
  - repeat case_match; apply conversion_ok_entered; try done; by destruct mode.
Qed.

Lemma tc_convert_age m p mode g c :
  tc_valid (tc_convert m p mode g c).1 = true ->
  - tc_maximum_age_ns c <= p - m <= tc_maximum_age_ns c.
Proof.
  unfold tc_convert. destruct (mode ==? _); [done|]. destruct (g =? 0); [done|]. cbv zeta.
  set (c' := if negb _ then tc_enter_generation g c else c).
  assert (tc_maximum_age_ns c' = tc_maximum_age_ns c) as <- by (unfold c'; by case_match).
  destruct (nanosecondsToMicroseconds m); [|done]. destruct (nanosecondsToMicroseconds p); [|done].
  destruct (checkedDifference p m) as [age|] eqn:Ha; [|done].
  apply checkedDifference_some in Ha as [-> _].
  destruct (tc_maximum_age_ns c' <? p - m) eqn:H1; [done|].
  destruct (p - m <? - tc_maximum_age_ns c') eqn:H2; [done|]. intros _. breflect. lia.
Qed.

Lemma tc_convert_max_age m p mode g c :
  tc_maximum_age_ns (tc_convert m p mode g c).2 = tc_maximum_age_ns c.
Proof. unfold tc_convert. cbv zeta. by repeat case_match. Qed.

(** ** The node *)

Section Bridge.
Context {E : EigenOps} {R : EigenRotOps} {M : EigenMatOps} {P : EigenPoseOps}.
Context (config : ExternalBridgeConfig).

Definition bridge_next (x : ExternalBridge) (e : bridge_event) : ExternalBridge :=
  (bridge_step config x e).2.

(** The states after construction and any sequence of callbacks. *)
Definition bridge_reachable (x : ExternalBridge) : Prop :=
  exists max_age_s health_max_age_s jump use_sim_time domain x0 es,
    ExternalBridge_make max_age_s health_max_age_s jump use_sim_time domain = Some (config, x0)
    /\ x = run bridge_next x0 es.

(** What a callback on a LIO sample does, by the outcome. *)
Inductive lio_outcome (now_ns : Z) (ready : bool) (m : LioPropagated) (x : ExternalBridge)
    : option VehicleOdometry -> ExternalBridge -> Prop :=
| lio_old (reason : string) :
    strictly_newer_source_identity (xb_highest_epoch x) (xb_highest_sequence x)
      (lp_localization_epoch m) (lp_sequence m) = false ->
    lio_outcome now_ns ready m x None (xb_reject reason false false x)
| lio_refused (reason : string) (covariance : bool) :
    strictly_newer_source_identity (xb_highest_epoch x) (xb_highest_sequence x)
      (lp_localization_epoch m) (lp_sequence m) = true ->
    lio_outcome now_ns ready m x None (xb_reject reason true covariance (advance_identity m x))
| lio_checked frame v :
    strictly_newer_source_identity (xb_highest_epoch x) (xb_highest_sequence x)
      (lp_localization_epoch m) (lp_sequence m) = true ->
    convert_ros_lio_odometry (lp_odometry m) = Some frame ->
    fits_px4_float frame = true -> float_variances frame = Some v ->
    let r := publish_sample frame v (gate_sample config now_ns ready frame (advance_identity m x)) in
    lio_outcome now_ns ready m x r.1 r.2.

Lemma on_lio_outcome now_ns ready m x :
  lio_outcome now_ns ready m x (on_lio config now_ns ready m x).1 (on_lio config now_ns ready m x).2.
Proof.
  unfold on_lio. destruct (strictly_newer_source_identity _ _ _ _) eqn:Hn; simpl; [|by constructor].
  destruct (convert_ros_lio_odometry _) as [frame|] eqn:Hc; [|by constructor].
  destruct (fits_px4_float frame) eqn:Hf; simpl; [|by constructor].
  destruct (float_variances frame) as [v|] eqn:Hv; [|by constructor].
  by econstructor.
Qed.

(** What the gate saw when it opened. *)
Definition gate_facts (now_ns : Z) (ready : bool) (frame : ExternalOdometryFrame)
    (x x' : ExternalBridge) : Prop :=
  let h := xb_health x in
  ready = true /\ bh_lio_valid h = true /\ bh_lio_covariance_valid h = true
  /\ bh_public_frame_generation_valid h = true /\ 0 < bh_public_frame_generation h
  /\ lio_health_fresh config now_ns h = true
  /\ ef_frame_valid frame = true /\ ef_covariance_valid frame = true
  /\ tc_valid (br_last_timestamp_result (xb_report x')) = true
  /\ js_continuity_trusted (xb_jump_state x') = true
  /\ jl_latched (xb_jump_latch x') = false
  /\ jo_sample_admissible (br_last_jump_observation (xb_report x')) = true
  /\ jo_jumped (br_last_jump_observation (xb_report x')) = false.

Lemma gate_sample_facts now_ns ready frame x :
  br_publication_ready (xb_report (gate_sample config now_ns ready frame x)) = true ->
  gate_facts now_ns ready frame x (gate_sample config now_ns ready frame x).
Proof.
  unfold gate_sample, gate_facts, public_generation.
  destruct (tc_convert _ _ _ _ _) as [t c].
  destruct (observe_geometric_jump_continuity _ _ _ _ _ _) as [o j].
  unfold observeGeometricJump.
  destruct (jo_jumped o) eqn:Hj, (jl_latched (xb_jump_latch x)) eqn:Hl; simpl;
    unfold gate_ready; simpl; intros Hg; bsplit; rewrite ?Hl in *; try congruence.
  destruct (bh_public_frame_generation_valid (xb_health x)); [|done]. split_and!; done.
Qed.

(** The parts of the state the gate leaves alone. *)
Lemma gate_sample_frame now_ns ready frame x :
  let x' := gate_sample config now_ns ready frame x in
  xb_health x' = xb_health x /\ xb_highest_epoch x' = xb_highest_epoch x
  /\ xb_highest_sequence x' = xb_highest_sequence x
  /\ (br_last_timestamp_result (xb_report x'), xb_converter x')
     = tc_convert (ef_timestamp_ns frame) now_ns (xc_timestamp_mapping_mode config)
         kTransportTimestampMappingGeneration (xb_converter x)
  /\ xb_jump_latch x'
     = (observeGeometricJump (jo_jumped (br_last_jump_observation (xb_report x'))) (xb_jump_latch x)).2.
Proof.
  unfold gate_sample. destruct (tc_convert _ _ _ _ _) as [t c].
  destruct (observe_geometric_jump_continuity _ _ _ _ _ _) as [o j].
  by destruct (observeGeometricJump _ _) as [b l] eqn:Hl; simpl; rewrite Hl.
Qed.

Lemma publish_sample_frame frame v x :
  let x' := (publish_sample frame v x).2 in
  xb_health x' = xb_health x /\ xb_highest_epoch x' = xb_highest_epoch x
  /\ xb_highest_sequence x' = xb_highest_sequence x /\ xb_converter x' = xb_converter x
  /\ xb_jump_latch x' = xb_jump_latch x /\ xb_jump_state x' = xb_jump_state x
  /\ br_last_timestamp_result (xb_report x') = br_last_timestamp_result (xb_report x)
  /\ br_last_jump_observation (xb_report x') = br_last_jump_observation (xb_report x).
Proof. unfold publish_sample. by case_match. Qed.

Lemma publish_sample_some frame v x out :
  (publish_sample frame v x).1 = Some out ->
  br_publication_ready (xb_report x) = true
  /\ out = external_output frame v (br_last_timestamp_result (xb_report x)) (xb_health x).
Proof. unfold publish_sample. destruct (br_publication_ready _); simpl; [by intros [= <-]|done]. Qed.

(** A published message, with everything that led to it. *)
Lemma on_lio_published now_ns ready m x out x' :
  on_lio config now_ns ready m x = (Some out, x') ->
  exists frame v,
    let x1 := advance_identity m x in
    let x2 := gate_sample config now_ns ready frame x1 in
    strictly_newer_source_identity (xb_highest_epoch x) (xb_highest_sequence x)
      (lp_localization_epoch m) (lp_sequence m) = true
    /\ convert_ros_lio_odometry (lp_odometry m) = Some frame
    /\ fits_px4_float frame = true /\ float_variances frame = Some v
    /\ br_publication_ready (xb_report x2) = true
    /\ out = external_output frame v (br_last_timestamp_result (xb_report x2)) (xb_health x2)
    /\ x' = (publish_sample frame v x2).2.
Proof.
  intros H. pose proof (on_lio_outcome now_ns ready m x) as Ho. rewrite H in Ho. simpl in Ho.
  inversion Ho as [| |frame v Hn Hc Hf Hv r Hr Hx]; subst.
  apply publish_sample_some in Hr as [Hr ->].
  by exists frame, v.
Qed.

(** ** Justification *)


(** ** Order *)

(** What the receiver has seen only grows. *)
Definition identity_le (a b : Z * Z) : Prop := a.1 < b.1 \/ (a.1 = b.1 /\ a.2 <= b.2).
Definition identity_lt (a b : Z * Z) : Prop := a.1 < b.1 \/ (a.1 = b.1 /\ a.2 < b.2).
Definition highest (x : ExternalBridge) : Z * Z := (xb_highest_epoch x, xb_highest_sequence x).
Definition identity_of (m : LioPropagated) : Z * Z := (lp_localization_epoch m, lp_sequence m).

Definition seen_grows (x x' : ExternalBridge) : Prop :=
  (xb_highest_epoch x <> 0 -> xb_highest_epoch x' <> 0 /\ identity_le (highest x) (highest x'))
  /\ marks_rise kTransportTimestampMappingGeneration (xb_converter x) (xb_converter x').

#[export] Instance seen_grows_refl : Reflexive seen_grows.
Proof. intros x. split; [|done]. intros H. split; [done|]. unfold identity_le. lia. Qed.

#[export] Instance seen_grows_trans : Transitive seen_grows.
Proof.
  intros x y z [H1 H2] [H3 H4]. split; [|by etrans].
  intros [Hy Hxy]%H1. destruct (H3 Hy) as [Hz Hyz]. split; [done|]. unfold identity_le in *. lia.
Qed.

Lemma seen_grows_same x x' :
  highest x' = highest x -> xb_converter x' = xb_converter x -> seen_grows x x'.
Proof.
  intros [= He Hs] Hc. split; [|by rewrite Hc].
  intros H. unfold identity_le, highest. rewrite He, Hs. simpl. split; [done|lia].
Qed.

Lemma newer_identity he hs e q :
  strictly_newer_source_identity he hs e q = true ->
  e <> 0 /\ (he <> 0 -> identity_lt (he, hs) (e, q)).
Proof.
  unfold strictly_newer_source_identity, identity_lt. intros H.
  destruct (_ || _) eqn:H0; [done|]. destruct (he =? 0) eqn:Hh; breflect; simpl; [naive_solver|].
  split; [naive_solver|]. intros _. destruct H as [|[]]; lia.
Qed.

Lemma advance_identity_highest m x :
  highest (advance_identity m x) = identity_of m
  /\ xb_converter (advance_identity m x) = xb_converter x.
Proof. done. Qed.

Lemma advance_identity_grows m x :
  strictly_newer_source_identity (xb_highest_epoch x) (xb_highest_sequence x)
    (lp_localization_epoch m) (lp_sequence m) = true -> seen_grows x (advance_identity m x).
Proof.
  intros [He Hlt]%newer_identity. split; [|done].
  intros H0. specialize (Hlt H0). split; [done|]. unfold identity_le, identity_lt in *. simpl in *. lia.
Qed.

(** The state behind the gate, relative to the one before it. *)
Lemma gated_highest now_ns ready frame v m x :
  let x' := (publish_sample frame v (gate_sample config now_ns ready frame (advance_identity m x))).2 in
  highest x' = identity_of m
  /\ xb_converter x'
     = (tc_convert (ef_timestamp_ns frame) now_ns (xc_timestamp_mapping_mode config)
          kTransportTimestampMappingGeneration (xb_converter x)).2.
Proof.
  cbv zeta. set (x2 := gate_sample _ _ _ _ _).
  destruct (publish_sample_frame frame v x2) as (_&He&Hs&Hc&_).
  destruct (gate_sample_frame now_ns ready frame (advance_identity m x)) as (_&He'&Hs'&Ht&_).
  fold x2 in He', Hs', Ht. unfold highest. rewrite He, Hs, Hc, He', Hs'. split; [done|].
  exact (f_equal snd Ht).
Qed.

Lemma bridge_step_grows x e : seen_grows x (bridge_next x e).
Proof.
  unfold bridge_next. destruct e as [h|now_ns ready m]; simpl.
  - unfold on_lio_health. repeat case_match; by apply seen_grows_same.
  - destruct (on_lio_outcome now_ns ready m x) as [reason Hn|reason c Hn|frame v Hn _ _ _ r].
    + by apply seen_grows_same.
    + transitivity (advance_identity m x); [by apply advance_identity_grows|].
      by apply seen_grows_same.
    + destruct (gated_highest now_ns ready frame v m x) as [Hh Hc]. fold r in Hh, Hc.
      split.
      * intros H0. destruct (advance_identity_grows m x Hn) as [Hg _].
        destruct (Hg H0) as [H1 H2]. unfold highest in *. simplify_eq/=.
        injection Hh as He Hs. rewrite He, Hs. by split.
      * rewrite Hc. apply tc_convert_ok.
Qed.

Lemma run_grows x es : seen_grows x (run bridge_next x es).
Proof. apply run_preorder; try apply _. apply bridge_step_grows. Qed.

(** What a publication leaves behind. *)
Lemma published_marks now_ns ready m x out x' :
  on_lio config now_ns ready m x = (Some out, x') ->
  let c := xb_converter x' in
  highest x' = identity_of m /\ lp_localization_epoch m <> 0
  /\ tc_last_timestamp_mapping_generation c = Some kTransportTimestampMappingGeneration
  /\ tc_last_measurement_time_us c = Some (vo_timestamp_sample out)
  /\ tc_last_publication_time_us c = Some (vo_timestamp out)
  /\ (xb_highest_epoch x <> 0 -> identity_lt (highest x) (identity_of m))
  /\ (tc_last_timestamp_mapping_generation (xb_converter x)
         = Some kTransportTimestampMappingGeneration ->
       (forall l, tc_last_measurement_time_us (xb_converter x) = Some l -> l < vo_timestamp_sample out)
       /\ (forall l, tc_last_publication_time_us (xb_converter x) = Some l -> l <= vo_timestamp out)).
Proof.
  intros (frame&v&Hn&_&_&_&Hr&->&->)%on_lio_published. cbv zeta.
  destruct (gated_highest now_ns ready frame v m x) as [Hh Hc].
  pose proof (gate_sample_facts now_ns ready frame _ Hr) as Hg.
  destruct (gate_sample_frame now_ns ready frame (advance_identity m x)) as (_&_&_&Ht&_).
  set (x2 := gate_sample _ _ _ _ _) in *.
  assert (Hvalid : tc_valid (br_last_timestamp_result (xb_report x2)) = true) by apply Hg.
  apply newer_identity in Hn as [He Hlt]. rewrite Hc.
  pose proof (tc_convert_ok (ef_timestamp_ns frame) now_ns (xc_timestamp_mapping_mode config)
                kTransportTimestampMappingGeneration (xb_converter x)) as [_ Hok].
  change (xb_converter (advance_identity m x)) with (xb_converter x) in Ht.
  rewrite <- Ht in Hok |- *. destruct (Hok Hvalid) as (H1&H2&H3&H4). by split_and!.
Qed.

(** The stream PX4 receives is ordered: of two published messages, whatever
    happened in between, the later one has the larger source identity (epoch, then
    sequence), a strictly larger sample time and a publication time that is not
    smaller. *)
Theorem published_stream_ordered now1 ready1 m1 x out1 x1 es now2 ready2 m2 out2 x2 :
  on_lio config now1 ready1 m1 x = (Some out1, x1) ->
  on_lio config now2 ready2 m2 (run bridge_next x1 es) = (Some out2, x2) ->
  identity_lt (identity_of m1) (identity_of m2)
  /\ vo_timestamp_sample out1 < vo_timestamp_sample out2 /\ vo_timestamp out1 <= vo_timestamp out2.
Proof.
  intros (Hh&He&Hg&Hm&Hp&_&_)%published_marks (_&_&_&_&_&Hlt&Hmarks)%published_marks.
  destruct (run_grows x1 es) as [Hgrow Hrise].
  destruct (Hrise Hg) as (Hg'&Hm'&Hp').
  destruct (Hmarks Hg') as [Hm2 Hp2].
  destruct (Hm' _ Hm) as (l&Hl&?), (Hp' _ Hp) as (l'&Hl'&?).
  specialize (Hm2 _ Hl). specialize (Hp2 _ Hl').
  injection Hh as He1 Hs1. destruct Hgrow as [Hne Hle]; [by rewrite He1|].
  specialize (Hlt Hne). unfold highest, identity_le, identity_lt, identity_of in *.
  rewrite He1, Hs1 in Hle. simpl in *. lia.
Qed.

(** ** The jump latch *)

(** A latched latch knows a generation, and so does a valid health; the generation
    of the health is not above the one the latch knows. *)
Definition latch_inv (x : ExternalBridge) : Prop :=
  let l := xb_jump_latch x in let h := xb_health x in
  (jl_latched l = true -> jl_generation_known l = true)
  /\ (bh_public_frame_generation_valid h = true ->
      jl_generation_known l = true /\ bh_public_frame_generation h <= jl_last_generation l).

Lemma observe_generation_known g l :
  g <> 0 -> let l' := (observePublicFrameGeneration true g l).2 in
  jl_generation_known l' = true /\ g <= jl_last_generation l'
  /\ (jl_generation_known l = true -> jl_last_generation l <= jl_last_generation l').
Proof.
  intros Hg. unfold observePublicFrameGeneration. rewrite (proj2 (Z.eqb_neq g 0) Hg). simpl.
  destruct (jl_generation_known l) eqn:Hk; simpl; [|by split_and!; [|lia|]].
  destruct (g <=? jl_last_generation l) eqn:Hle; simpl; breflect; split_and!; auto; lia.
Qed.

Lemma observe_generation_old g l :
  jl_generation_known l = true -> g <= jl_last_generation l ->
  observePublicFrameGeneration true g l = (false, l).
Proof.
  intros Hk Hg. unfold observePublicFrameGeneration. destruct (negb true || _); [done|].
  by rewrite Hk, (proj2 (Z.leb_le _ _) Hg).
Qed.

Lemma jumped_generation_valid current sv gv g c s :
  jo_jumped (observe_geometric_jump_continuity current sv gv g c s).1 = true -> gv = true.
Proof.
  unfold observe_geometric_jump_continuity.
  destruct (_ || _); [done|]. destruct (negb sv); [done|].
  destruct gv; [done|]. done.
Qed.

Lemma gate_jump_generation now_ns ready frame x :
  jo_jumped (br_last_jump_observation (xb_report (gate_sample config now_ns ready frame x))) = true ->
  bh_public_frame_generation_valid (xb_health x) = true.
Proof.
  unfold gate_sample. destruct (tc_convert _ _ _ _ _) as [t c].
  destruct (observe_geometric_jump_continuity _ _ _ _ _ _) as [o j] eqn:Ho.
  destruct (observeGeometricJump _ _) as [b l]. simpl. intros Hj.
  apply (f_equal fst) in Ho. simpl in Ho. rewrite <- Ho in Hj.
  apply jumped_generation_valid in Hj. by apply andb_true_iff in Hj as [? _].
Qed.

(** The latch behind the gate. *)
Lemma gated_latch now_ns ready frame v x :
  let x2 := gate_sample config now_ns ready frame x in
  let x' := (publish_sample frame v x2).2 in
  xb_health x' = xb_health x
  /\ xb_jump_latch x'
     = (observeGeometricJump (jo_jumped (br_last_jump_observation (xb_report x2))) (xb_jump_latch x)).2.
Proof.
  cbv zeta. set (x2 := gate_sample config now_ns ready frame x).
  destruct (publish_sample_frame frame v x2) as (Hh&_&_&_&Hl&_).
  destruct (gate_sample_frame now_ns ready frame x) as (Hh'&_&_&_&Hl'). fold x2 in Hh', Hl'.
  by rewrite Hh, Hl, Hh', Hl'.
Qed.

Lemma advance_identity_latch m x : latch_inv x -> lp_localization_epoch m <> 0 ->
  latch_inv (advance_identity m x).
Proof.
  intros [H1 H2] He. unfold latch_inv, advance_identity. cbn [xb_jump_latch xb_health].
  destruct (_ && _); [|by split].
  destruct (observe_generation_known _ (xb_jump_latch x) He) as (Hk&_&Hm).
  split; [done|]. intros [Hk' Hg]%H2. split; [done|]. specialize (Hm Hk'). lia.
Qed.

Lemma bridge_step_latch x e : latch_inv x -> latch_inv (bridge_next x e).
Proof.
  intros Hx. unfold bridge_next. destruct e as [h|now_ns ready m]; simpl.
  - unfold on_lio_health, externalLioHealthSnapshot.
    destruct (rosTimeToNanoseconds _) as [st|]; [|done].
    destruct (_ || _) eqn:H0; [done|]. apply orb_false_iff in H0 as [_ H0]. apply Z.eqb_neq in H0.
    simpl. destruct (negb _); [done|].
    destruct (observePublicFrameGeneration true (eh_localization_epoch h) (xb_jump_latch x))
      as [b l] eqn:Hl.
    destruct (observe_generation_known _ (xb_jump_latch x) H0) as (Hk&Hg&_). rewrite Hl in Hk, Hg.
    by split.
  - destruct (on_lio_outcome now_ns ready m x) as [reason Hn|reason c Hn|frame v Hn _ _ _ r].
    + done.
    + apply newer_identity in Hn as [He _]. by apply (advance_identity_latch m).
    + apply newer_identity in Hn as [He _].
      destruct (advance_identity_latch m x Hx He) as [H1 H2].
      unfold r. clear r. generalize dependent (advance_identity m x). intros y H1 H2.
      destruct (gated_latch now_ns ready frame v y) as [Hh Hl].
      pose proof (gate_jump_generation now_ns ready frame y) as Hj.
      unfold latch_inv. rewrite Hh, Hl. unfold observeGeometricJump.
      destruct (jo_jumped _) eqn:Hjump; simpl; [|by split].
      destruct (jl_latched (xb_jump_latch y)) eqn:Hlt; simpl; [by split; [intros _; apply H1|]|].
      split; [|done]. intros _. by apply H2, Hj.
Qed.

Lemma bridge_reachable_latch x : bridge_reachable x -> latch_inv x.
Proof.
  intros (a&b&j&u&d&x0&es&Hm&->). apply run_invariant; [|intros; by apply bridge_step_latch].
  unfold ExternalBridge_make in Hm. cbv zeta in Hm.
  repeat (case_match; simplify_eq/=). by split.
Qed.

(** The frame generation an event announces. *)
Definition event_epoch (e : bridge_event) : Z :=
  match e with
  | bridge_health m => eh_localization_epoch m
  | bridge_lio _ _ m => lp_localization_epoch m
  end.

Lemma latched_step x e :
  jl_latched (xb_jump_latch x) = true -> jl_generation_known (xb_jump_latch x) = true ->
  event_epoch e <= jl_last_generation (xb_jump_latch x) ->
  (bridge_step config x e).1 = None /\ xb_jump_latch (bridge_next x e) = xb_jump_latch x.
Proof.
  intros Hl Hk He. unfold bridge_next. destruct e as [h|now_ns ready m]; simpl in *.
  - split; [done|]. unfold on_lio_health, externalLioHealthSnapshot.
    destruct (rosTimeToNanoseconds _) as [st|]; [|done].
    destruct (_ || _) eqn:H0; [done|]. simpl. destruct (negb _); [done|].
    by rewrite observe_generation_old.
  - assert (Ha : xb_jump_latch (advance_identity m x) = xb_jump_latch x).
    { unfold advance_identity. simpl. case_match; [|done]. by rewrite observe_generation_old. }
    destruct (on_lio_outcome now_ns ready m x) as [reason Hn|reason c Hn|frame v Hn _ _ _ r];
      [done|split; [done|exact Ha]|].
    destruct (gated_latch now_ns ready frame v (advance_identity m x)) as [_ Hlatch]. fold r in Hlatch.
    assert (Hsame : xb_jump_latch r.2 = xb_jump_latch x).
    { rewrite Hlatch, Ha. unfold observeGeometricJump. by rewrite Hl, orb_true_r. }
    split; [|done]. destruct r.1 as [out|] eqn:Hr; [|done]. exfalso.
    apply publish_sample_some in Hr as [Hr _].
    pose proof (gate_sample_facts now_ns ready frame _ Hr) as Hg.
    destruct (publish_sample_frame frame v
      (gate_sample config now_ns ready frame (advance_identity m x))) as (_&_&_&_&Hl'&_).
    fold r in Hl'. unfold gate_facts in Hg. rewrite <- Hl', Hsame, Hl in Hg. by destruct Hg as (_&_&_&_&_&_&_&_&_&_&?&_).
Qed.

(** Once a geometric jump is latched, nothing is published, and the latch stays,
    as long as neither health nor odometry announces an epoch above the one the
    latch knows; it is the detection that latches, in the same callback. *)
Theorem jump_latch_closes_stream x es :
  bridge_reachable x -> jl_latched (xb_jump_latch x) = true ->
  Forall (fun e => event_epoch e <= jl_last_generation (xb_jump_latch x)) es ->
  Forall (fun '(_, _, output) => output = None) (bridge_run config x es).1
  /\ xb_jump_latch (bridge_run config x es).2 = xb_jump_latch x.
Proof.
  intros [Hk _]%bridge_reachable_latch Hl. specialize (Hk Hl).
  remember (xb_jump_latch x) as l eqn:Hx. revert x Hx.
  induction es as [|e es IH]; intros x -> Hes; [by simpl|].
  inversion Hes as [|? ? He Hes']; subst.
  destruct (latched_step x e) as [Ho Hs]; [done..|]. unfold bridge_next in Hs. cbn [bridge_run].
  destruct (bridge_step config x e) as [output x'] eqn:Hstep. simpl in Ho, Hs. subst output.
  specialize (IH x' (eq_sym Hs) Hes').
  destruct (bridge_run config x' es) as [tr last_]. simpl in *. destruct IH. split; [by constructor|done].
Qed.

(** A sample of a newer epoch, arriving before the health of that epoch, is
    published: the latch and the continuity baseline are cleared, the old health
    still opens the gate, and the message carries the reset counter of the old
    epoch, so PX4 is not told that the frame changed. *)
Theorem new_epoch_published_under_old_counter now_ns m x frame v :
  bridge_reachable x ->
  xb_highest_epoch x <> 0 -> lp_sequence m <> 0 ->
  xb_highest_epoch x < lp_localization_epoch m ->
  jl_last_generation (xb_jump_latch x) < lp_localization_epoch m ->
  bh_lio_valid (xb_health x) = true -> bh_lio_covariance_valid (xb_health x) = true ->
  bh_public_frame_generation_valid (xb_health x) = true ->
  0 < bh_public_frame_generation (xb_health x) ->
  lio_health_fresh config now_ns (xb_health x) = true ->
  convert_ros_lio_odometry (lp_odometry m) = Some frame -> fits_px4_float frame = true ->
  float_variances frame = Some v -> ef_frame_valid frame = true -> ef_covariance_valid frame = true ->
  jump_config_valid (xc_jump_continuity_config config) = true -> jump_frame_valid frame = true ->
  tc_valid (tc_convert (ef_timestamp_ns frame) now_ns (xc_timestamp_mapping_mode config)
              kTransportTimestampMappingGeneration (xb_converter x)).1 = true ->
  exists out x', on_lio config now_ns true m x = (Some out, x')
    /\ vo_reset_counter out = bh_public_frame_generation (xb_health x) mod 256
    /\ bh_public_frame_generation (xb_health x) < lp_localization_epoch m.
Proof.
  intros [_ Hinv]%bridge_reachable_latch H0 Hseq Hnew Hlatch Hv Hcov Hgv Hgen Hfresh Hc Hfit Hvar
    Hfv Hfc Hcfg Hframe Ht.
  destruct (Hinv Hgv) as [Hk Hle].
  unfold on_lio.
  assert (Hid : strictly_newer_source_identity (xb_highest_epoch x) (xb_highest_sequence x)
                  (lp_localization_epoch m) (lp_sequence m) = true).
  { unfold strictly_newer_source_identity. repeat case_match; breflect; try done; lia. }
  rewrite Hid, Hc, Hfit, Hvar. cbn [negb].
  assert (Hadv : advance_identity m x = mkExternalBridge None None jump_state_initial
    (observePublicFrameGeneration true (lp_localization_epoch m) (xb_jump_latch x)).2
    (xb_converter x) (lp_localization_epoch m) (lp_sequence m) (xb_health x) (xb_report x)).
  { unfold advance_identity. cbv zeta.
    rewrite (proj2 (Z.eqb_neq _ _) H0), (proj2 (Z.eqb_neq (lp_localization_epoch m) _)) by lia.
    done. }
  assert (Hopen : jl_latched (observePublicFrameGeneration true (lp_localization_epoch m)
                                (xb_jump_latch x)).2 = false).
  { unfold observePublicFrameGeneration. rewrite Hk, (proj2 (Z.leb_gt _ _) Hlatch).
    rewrite (proj2 (Z.eqb_neq (lp_localization_epoch m) 0)) by lia. done. }
  assert (Hready : br_publication_ready (xb_report (gate_sample config now_ns true frame
                     (advance_identity m x))) = true).
  { rewrite Hadv. unfold gate_sample, public_generation. cbn [xb_health xb_converter xb_jump_state
      xb_last_received xb_jump_latch]. rewrite Hv, Hcov, Hgv, Hfv, (proj2 (Z.ltb_lt _ _) Hgen).
    destruct (tc_convert _ _ _ _ _) as [t c]. simpl in Ht.
    unfold observe_geometric_jump_continuity. rewrite Hcfg, Hframe, Hfv. simpl.
    rewrite (proj2 (Z.eqb_neq (bh_public_frame_generation (xb_health x)) 0)) by lia. simpl.
    unfold gate_ready. simpl. by rewrite Ht, Hfc, Hfresh, Hopen. }
  assert (Hh : xb_health (gate_sample config now_ns true frame (advance_identity m x)) = xb_health x).
  { destruct (gate_sample_frame now_ns true frame (advance_identity m x)) as (->&_).
    by rewrite Hadv. }
  unfold publish_sample. rewrite Hready. cbn [negb]. eexists _, _. split; [done|].
  unfold external_output, public_frame_generation_to_reset_counter, public_generation.
  cbn [vo_reset_counter]. rewrite Hh, Hgv. split; [done|lia].
Qed.
End Bridge.

(** ** Witnesses *)

Section Witnesses.
#[local] Existing Instances eigen_reference eigen_rot_reference eigen_mat_reference
  eigen_pose_reference.

Definition w_jump : GeometricJumpContinuityConfig :=
  mkJumpConfig (f64_lit 3 4) (f64_lit 35 100) (f64_of_Z 10) (f64_of_Z 6) (f64_lit 1 10000)
    (f64_lit 1 2).

Definition w_made : option (ExternalBridgeConfig * ExternalBridge) :=
  ExternalBridge_make (f64_lit 1 2) (f64_of_Z 2) w_jump false "ros_time".

Definition w_config : ExternalBridgeConfig :=
  mkExternalBridgeConfig 2000000000 map_kRealtimeTransport w_jump.
Definition w_initial : ExternalBridge :=
  match w_made with Some (_, x) => x | None => mkExternalBridge None None jump_state_initial
    jump_latch_initial (mkTimestampConverter 1 None None None
      (mkTimestampConversionDiagnostics 0 0 0 0 0 0 0 "NONE")) 0 0
    (mkBridgeHealth 0 false false false 0 0)
    (mkBridgeReport 0 0 0 0 false false false "NONE" gate_default timestamp_conversion_default
       jump_observation_default 0 0) end.

Lemma w_made_ok : w_made = Some (w_config, w_initial).
Proof. vm_compute. reflexivity. Qed.

Definition w_ns (ms : Z) : Z := 1000000000000 + ms * 1000000.
Definition w_stamp (ms : Z) : RosTime := mkRosTime (1000 + ms / 1000) (ms mod 1000 * 1000000).

Definition w_covariance : list f64 :=
  map (fun i => if i mod 7 =? 0 then f64_of_Z 1 else fzero) (seqZ 0 36).

(** A sample at [ms] of the given identity, [east] metres east of the origin. *)
Definition w_lio (ms epoch sequence east : Z) : LioPropagated :=
  mkLioPropagated
    (mkLioOdometry (w_stamp ms) "lio_odom" "base_link" (Vec3 (f64_of_Z east) fzero fzero)
       quat_identity w_covariance vec3_zero vec3_zero w_covariance) epoch sequence.

Definition w_health (ms epoch : Z) : EstimatorHealth :=
  mkEstimatorHealth (w_stamp ms) epoch HEALTH_TRACKING (mkHealthFlags true true true true true).

Definition w_sample (ms epoch sequence east : Z) : bridge_event :=
  bridge_lio (w_ns ms) true (w_lio ms epoch sequence east).

Definition w_after (es : list bridge_event) : ExternalBridge :=
  run (bridge_next w_config) w_initial es.

Lemma w_after_reachable es : bridge_reachable w_config (w_after es).
Proof.
  exists (f64_lit 1 2), (f64_of_Z 2), w_jump, false, "ros_time"%string, w_initial, es.
  split; [exact w_made_ok|reflexivity].
Qed.

Definition w_outcome (x : ExternalBridge) (ms epoch sequence east : Z)
    : option VehicleOdometry * ExternalBridge :=
  on_lio w_config (w_ns ms) true (w_lio ms epoch sequence east) x.

(** A message that does not occur: the default of the projections below. *)
Definition w_no_message : VehicleOdometry :=
  mkVehicleOdometry 0 0 (Vec3f fzero fzero fzero) quat_identity (Vec3f fzero fzero fzero)
    (Vec3f fzero fzero fzero) (Vec3f fzero fzero fzero) (Vec3f fzero fzero fzero)
    (Vec3f fzero fzero fzero) 0 0.

Definition w_message (r : option VehicleOdometry * ExternalBridge) : VehicleOdometry :=
  default w_no_message r.1.

Lemma w_published r : has r.1 = true -> r = (Some (w_message r), r.2).
Proof. by destruct r as [[o|] x]. Qed.

Definition w_tracking : ExternalBridge := w_after [bridge_health (w_health 0 1)].
Definition w_first : option VehicleOdometry * ExternalBridge := w_outcome w_tracking 10 1 1 0.


(** The next sample of the stream, after a newer health. *)
Definition w_between : list bridge_event := [bridge_health (w_health 15 1)].
Definition w_second : option VehicleOdometry * ExternalBridge :=
  w_outcome (run (bridge_next w_config) w_first.2 w_between) 20 1 2 0.

Lemma published_stream_ordered_witness :
  vo_timestamp_sample (w_message w_first) < vo_timestamp_sample (w_message w_second).
Proof.
  apply (published_stream_ordered w_config (w_ns 10) true (w_lio 10 1 1 0) w_tracking
           (w_message w_first) w_first.2 w_between (w_ns 20) true (w_lio 20 1 2 0)
           (w_message w_second) w_second.2).
  - exact (w_published w_first ltac:(vm_compute; reflexivity)).
  - exact (w_published w_second ltac:(vm_compute; reflexivity)).
Defined.

(** A sample a hundred metres away latches the jump. *)
Definition w_jumped : ExternalBridge :=
  w_after [bridge_health (w_health 0 1); w_sample 10 1 1 0; w_sample 20 1 2 100].
Definition w_later : list bridge_event :=
  [w_sample 30 1 3 100; bridge_health (w_health 35 1); w_sample 40 1 4 100].

Lemma jump_latch_closes_stream_witness :
  Forall (fun '(_, _, output) => output = None) (bridge_run w_config w_jumped w_later).1
  /\ xb_jump_latch (bridge_run w_config w_jumped w_later).2 = xb_jump_latch w_jumped.
Proof.
  apply (jump_latch_closes_stream w_config w_jumped w_later).
  - apply w_after_reachable.
  - vm_compute. reflexivity.
  - assert (jl_last_generation (xb_jump_latch w_jumped) = 1) as -> by (vm_compute; reflexivity).
    repeat constructor; simpl; lia.
Defined.

(** A sample of epoch 2 before the health of epoch 2. *)
Definition w_running : ExternalBridge :=
  w_after [bridge_health (w_health 0 1); w_sample 10 1 1 0].
Definition w_frame : ExternalOdometryFrame :=
  default (mkExternalOdometryFrame 0 vec3_zero quat_identity vec3_zero vec3_zero vec3_zero vec3_zero
             vec3_zero false false)
    (convert_ros_lio_odometry (lp_odometry (w_lio 20 2 1 100))).
Definition w_ones : vec3f := Vec3f (f32_of_f64 (f64_of_Z 1)) (f32_of_f64 (f64_of_Z 1)) (f32_of_f64 (f64_of_Z 1)).

Lemma new_epoch_published_under_old_counter_witness :
  exists out x', on_lio w_config (w_ns 20) true (w_lio 20 2 1 100) w_running = (Some out, x')
    /\ vo_reset_counter out = bh_public_frame_generation (xb_health w_running) mod 256
    /\ bh_public_frame_generation (xb_health w_running) < 2.
Proof.
  apply (new_epoch_published_under_old_counter w_config (w_ns 20) (w_lio 20 2 1 100) w_running
           w_frame (mkFloatVariances w_ones w_ones w_ones));
    [apply w_after_reachable|..]; vm_compute; try reflexivity; discriminate.
Defined.
End Witnesses.
