(* ===== verification/EstimatorBridge.v ===== *)
(** * The PX4 estimator odometry bridge

    [px4/px4_odometry_bridge/src/px4_odometry_bridge_node.cpp]: the node that
    converts PX4's [VehicleOdometry] to ROS, keeps the public frame across resets
    and serves time-indexed samples.  It runs on one executor thread, so each
    callback is one transition.  Diagnostics messages and the time-sync record are
    left out; the counters they report are kept. *)

From S2P Require Import Prelude Ordered Float64 TimeNs Geometry WorldGrid TrackingGuard OdometryTime OdometryFrames ResetCompensator OdometryRing.

(** ** PX4 messages *)

(** [px4_msgs/VehicleOdometry] as it arrives; frames are bytes, numbers floats. *)
Record Px4VehicleOdometry : Type := mkPx4VehicleOdometry {
  pv_timestamp_sample : Z;
  pv_pose_frame : Z;
  pv_velocity_frame : Z;
  pv_position : vec3f;
  pv_q : quat; (* of floats, [q[0]] is [qw] *)
  pv_velocity : vec3f;
  pv_angular_velocity : vec3f;
  pv_position_variance : vec3f;
  pv_velocity_variance : vec3f;
  pv_orientation_variance : vec3f;
  pv_reset_counter : Z
}.

Record LocalPositionResets : Type := mkLocalPositionResets {
  lr_timestamp_sample : Z;
  lr_delta_xyz : vec3f;  (* [delta_xy], [delta_z] *)
  lr_delta_vxyz : vec3f; (* [delta_vxy], [delta_vz] *)
  lr_delta_heading : f32;
  lr_xy_reset_counter : Z;
  lr_z_reset_counter : Z;
  lr_vxy_reset_counter : Z;
  lr_vz_reset_counter : Z;
  lr_heading_reset_counter : Z
}.

Record AttitudeResets : Type := mkAttitudeResets {
  ar_timestamp_sample : Z;
  ar_delta_q_reset : quat; (* of floats *)
  ar_quat_reset_counter : Z
}.

Definition vec3_of_floats (v : vec3f) : vec3 :=
  Vec3 (f64_of_f32 (fx v)) (f64_of_f32 (fy v)) (f64_of_f32 (fz v)).
Definition quat_of_floats (q : quat) : quat :=
  Quat (f64_of_f32 (qx q)) (f64_of_f32 (qy q)) (f64_of_f32 (qz q)) (f64_of_f32 (qw q)).

(** The casts of the frame bytes; the [default] branches treat every other value
    alike. *)
Definition pose_frame_of_byte (b : Z) : PoseFrame :=
  if b =? 1 then pose_kNed else if b =? 2 then pose_kFrd else pose_kUnknown.
Definition velocity_frame_of_byte (b : Z) : VelocityFrame :=
  if b =? 1 then vel_kNed else if b =? 2 then vel_kFrd
  else if b =? 3 then vel_kBodyFrd else vel_kUnknown.

(** ** State *)

Record EstimatorBridgeConfig : Type := mkEstimatorBridgeConfig {
  ec_maximum_metadata_age_ns : Z;
  ec_maximum_metadata_association_gap_ns : Z
}.

Record BridgeCounters : Type := mkBridgeCounters {
  bc_timestamp_rejected : Z;
  bc_conversion_rejected : Z;
  bc_reset_suppressed : Z;
  bc_startup_rebaseline : Z
}.

(** The public frame: what a new frame or a restart clears. *)
Record PublicFrame : Type := mkPublicFrame {
  pf_converter : FrameConverter;
  pf_compensator : ResetCompensator;
  pf_history : OdometryRingBuffer;
  pf_startup_origin_rebased : bool;
  pf_continuity_valid : bool
}.

Record BridgeOutput : Type := mkBridgeOutput {
  bo_output_valid : bool;
  bo_last_valid_sample_time_ns : Z;
  bo_last_time_generation : Z;
  bo_last_px4_timestamp_sample_ns : Z;
  bo_frame_generation : Z;
  bo_reset_event_generation : Z;
  bo_last_input_reset_counter : option Z;
  bo_last_world_convention : WorldConvention
}.

Record EstimatorBridge : Type := mkEstimatorBridge {
  eb_validator : TimestampValidator;
  eb_frame : PublicFrame;
  eb_local_reset_history : list DetailedResetMetadata;
  eb_attitude_reset_history : list DetailedResetMetadata;
  eb_output : BridgeOutput;
  eb_counters : BridgeCounters;
  eb_last_reset_observation_status : string
}.

Definition kResetHistoryCapacity : Z := 64.

(** The constructor with the declared parameters; [None] when it throws. *)
Definition EstimatorBridge_make (maximum_metadata_age_s maximum_association_gap_s : f64)
    (stable_samples_after_reset : Z) : option (EstimatorBridgeConfig * EstimatorBridge) :=
  match secondsToNanoseconds maximum_metadata_age_s,
        secondsToNanoseconds maximum_association_gap_s with
  | Some age_ns, Some gap_ns =>
      if negb (isfinite maximum_metadata_age_s) || fle maximum_metadata_age_s fzero
         || negb (isfinite maximum_association_gap_s) || flt maximum_association_gap_s fzero
         || (age_ns <=? 0) || (gap_ns <? 0) || (stable_samples_after_reset <=? 0) then None
      else
        match OdometryRingBuffer_make ring_buffer_default,
              TimestampValidator_make time_validation_default with
        | Some history, Some validator =>
            Some (mkEstimatorBridgeConfig age_ns gap_ns,
                  mkEstimatorBridge validator
                    (mkPublicFrame None rc_initial
                       (setStableSamples stable_samples_after_reset history) false true)
                    [] [] (mkBridgeOutput false 0 0 0 1 0 None world_kUnknown)
                    (mkBridgeCounters 0 0 0 0) "accepted")
        | _, _ => None
        end
  | _, _ => None
  end.

(** ** Reset metadata *)

(** [insert_metadata] *)
Definition insert_metadata (metadata : DetailedResetMetadata)
    (history : list DetailedResetMetadata) : list DetailedResetMetadata :=
  let inserted :=
    insert_at (upper_bound_by dm_timestamp_ns (dm_timestamp_ns metadata) history) metadata history in
  drop (length inserted - Z.to_nat kResetHistoryCapacity) inserted.

(** [record_local_reset_metadata] *)
Definition local_metadata (m : LocalPositionResets) : option DetailedResetMetadata :=
  match checked_microseconds_to_nanoseconds (lr_timestamp_sample m) with
  | None => None
  | Some timestamp =>
      Some (mkDetailedResetMetadata timestamp timestamp false false false false false false false
              false (vec3_of_floats (lr_delta_xyz m)) (vec3_of_floats (lr_delta_vxyz m))
              (f64_of_f32 (lr_delta_heading m)) quat_identity (lr_xy_reset_counter m)
              (lr_z_reset_counter m) (lr_vxy_reset_counter m) (lr_vz_reset_counter m)
              (lr_heading_reset_counter m) 0)
  end.

(** [record_attitude_reset_metadata] *)
Definition attitude_metadata (m : AttitudeResets) : option DetailedResetMetadata :=
  match checked_microseconds_to_nanoseconds (ar_timestamp_sample m) with
  | None => None
  | Some timestamp =>
      Some (mkDetailedResetMetadata timestamp timestamp false false false false false false false
              false vec3_zero vec3_zero fzero (quat_of_floats (ar_delta_q_reset m)) 0 0 0 0 0
              (ar_quat_reset_counter m))
  end.

Definition record_local_reset_metadata (m : LocalPositionResets) (x : EstimatorBridge)
    : EstimatorBridge :=
  match local_metadata m with
  | None => x
  | Some metadata =>
      mkEstimatorBridge (eb_validator x) (eb_frame x)
        (insert_metadata metadata (eb_local_reset_history x)) (eb_attitude_reset_history x)
        (eb_output x) (eb_counters x) (eb_last_reset_observation_status x)
  end.

Definition record_attitude_reset_metadata (m : AttitudeResets) (x : EstimatorBridge)
    : EstimatorBridge :=
  match attitude_metadata m with
  | None => x
  | Some metadata =>
      mkEstimatorBridge (eb_validator x) (eb_frame x) (eb_local_reset_history x)
        (insert_metadata metadata (eb_attitude_reset_history x)) (eb_output x) (eb_counters x)
        (eb_last_reset_observation_status x)
  end.

(** A copy with the matched time, the association and the reset flags. *)
Definition dm_with_flags (m : DetailedResetMetadata) (matched : Z)
    (available invalid xy z vxy vz heading attitude : bool) : DetailedResetMetadata :=
  mkDetailedResetMetadata (dm_timestamp_ns m) matched available invalid xy z vxy vz heading attitude
    (dm_position_delta_source m) (dm_velocity_delta_source m) (dm_heading_delta_rad m)
    (dm_attitude_delta m) (dm_xy_reset_counter m) (dm_z_reset_counter m)
    (dm_vxy_reset_counter m) (dm_vz_reset_counter m) (dm_heading_reset_counter m)
    (dm_attitude_reset_counter m).

(** The entry in force, against the entry before it (lines 222-247). *)
Definition metadata_delta (timestamp_ns : Z) (previous : option DetailedResetMetadata)
    (current : DetailedResetMetadata) : DetailedResetMetadata :=
  match previous with
  | None => dm_with_flags current timestamp_ns (dm_available current)
              (dm_association_invalid current) (dm_position_xy_reset current)
              (dm_position_z_reset current) (dm_velocity_xy_reset current)
              (dm_velocity_z_reset current) (dm_heading_reset current) (dm_attitude_reset current)
  | Some p =>
      let delta counter := counter_delta (counter p) (counter current) in
      let xy := delta dm_xy_reset_counter in
      let z := delta dm_z_reset_counter in
      let vxy := delta dm_vxy_reset_counter in
      let vz := delta dm_vz_reset_counter in
      let heading := delta dm_heading_reset_counter in
      let attitude := delta dm_attitude_reset_counter in
      if (1 <? xy) || (1 <? z) || (1 <? vxy) || (1 <? vz) || (1 <? heading) || (1 <? attitude) then
        dm_with_flags current timestamp_ns false true (dm_position_xy_reset current)
          (dm_position_z_reset current) (dm_velocity_xy_reset current)
          (dm_velocity_z_reset current) (dm_heading_reset current) (dm_attitude_reset current)
      else
        let flagged available :=
          dm_with_flags current timestamp_ns available (dm_association_invalid current) (xy =? 1)
            (z =? 1) (vxy =? 1) (vz =? 1) (heading =? 1) (attitude =? 1) in
        flagged (negb (dm_association_invalid current) && hasReset (flagged false))
  end.

(** [metadata_at] *)
Definition metadata_at (config : EstimatorBridgeConfig) (history : list DetailedResetMetadata)
    (timestamp_ns : Z) : option DetailedResetMetadata :=
  match upper_bound_by dm_timestamp_ns timestamp_ns history with
  | O => None
  | S current_index =>
      match history !! current_index with
      | None => None
      | Some current =>
          if (timestamp_ns <? dm_timestamp_ns current)
             || (ec_maximum_metadata_age_ns config <? timestamp_ns - dm_timestamp_ns current) then
            None
          else
            let previous :=
              match current_index with O => None | S i => history !! i end in
            Some (metadata_delta timestamp_ns previous current)
      end
  end.

(** [detailed_metadata_for]: the flags of the two streams in one record. *)
Definition detailed_metadata_for (config : EstimatorBridgeConfig) (timestamp_ns : Z)
    (x : EstimatorBridge) : option DetailedResetMetadata :=
  let local := metadata_at config (eb_local_reset_history x) timestamp_ns in
  let attitude := metadata_at config (eb_attitude_reset_history x) timestamp_ns in
  if negb (has local) && negb (has attitude) then None
  else
    let invalid o := match o with Some m => dm_association_invalid m | None => false end in
    let apart :=
      match local, attitude with
      | Some l, Some a =>
          hasReset l && hasReset a
          && (ec_maximum_metadata_association_gap_ns config
              <? Z.abs (dm_timestamp_ns l - dm_timestamp_ns a))
      | _, _ => false
      end in
    let association_invalid := invalid local || invalid attitude || apart in
    let l := default reset_metadata_default local in
    let a := default reset_metadata_default attitude in
    let merged available :=
      mkDetailedResetMetadata 0 timestamp_ns available association_invalid
        (dm_position_xy_reset l) (dm_position_z_reset l) (dm_velocity_xy_reset l)
        (dm_velocity_z_reset l) (dm_heading_reset l) (dm_attitude_reset a)
        (dm_position_delta_source l) (dm_velocity_delta_source l) (dm_heading_delta_rad l)
        (dm_attitude_delta a) (dm_xy_reset_counter l) (dm_z_reset_counter l)
        (dm_vxy_reset_counter l) (dm_vz_reset_counter l) (dm_heading_reset_counter l)
        (dm_attitude_reset_counter a) in
    Some (merged (negb association_invalid && hasReset (merged false))).

(** ** Updates *)

Definition pf_clear_frame (f : PublicFrame) : PublicFrame :=
  mkPublicFrame (reset_sign_continuity (pf_converter f)) (rc_clear (pf_compensator f))
    (rb_clear (pf_history f)) false false.

Definition pf_set_compensator (f : PublicFrame) (c : ResetCompensator) : PublicFrame :=
  mkPublicFrame (pf_converter f) c (pf_history f) (pf_startup_origin_rebased f)
    (pf_continuity_valid f).

Definition pf_set_continuity (f : PublicFrame) (valid : bool) : PublicFrame :=
  mkPublicFrame (pf_converter f) (pf_compensator f) (pf_history f) (pf_startup_origin_rebased f)
    valid.

Definition eb_set_frame (x : EstimatorBridge) (f : PublicFrame) : EstimatorBridge :=
  mkEstimatorBridge (eb_validator x) f (eb_local_reset_history x) (eb_attitude_reset_history x)
    (eb_output x) (eb_counters x) (eb_last_reset_observation_status x).

Definition eb_set_output (x : EstimatorBridge) (o : BridgeOutput) : EstimatorBridge :=
  mkEstimatorBridge (eb_validator x) (eb_frame x) (eb_local_reset_history x)
    (eb_attitude_reset_history x) o (eb_counters x) (eb_last_reset_observation_status x).

Definition eb_set_counters (x : EstimatorBridge) (c : BridgeCounters) : EstimatorBridge :=
  mkEstimatorBridge (eb_validator x) (eb_frame x) (eb_local_reset_history x)
    (eb_attitude_reset_history x) (eb_output x) c (eb_last_reset_observation_status x).

Definition eb_set_status (x : EstimatorBridge) (s : ResetObservationStatus) : EstimatorBridge :=
  mkEstimatorBridge (eb_validator x) (eb_frame x) (eb_local_reset_history x)
    (eb_attitude_reset_history x) (eb_output x) (eb_counters x) (reset_status_toString s).

Definition eb_set_validator (x : EstimatorBridge) (v : TimestampValidator) : EstimatorBridge :=
  mkEstimatorBridge v (eb_frame x) (eb_local_reset_history x) (eb_attitude_reset_history x)
    (eb_output x) (eb_counters x) (eb_last_reset_observation_status x).

Definition bo_with (o : BridgeOutput) (output_valid : bool) (frame_generation event_generation : Z)
    : BridgeOutput :=
  mkBridgeOutput output_valid (bo_last_valid_sample_time_ns o) (bo_last_time_generation o)
    (bo_last_px4_timestamp_sample_ns o) frame_generation event_generation
    (bo_last_input_reset_counter o) (bo_last_world_convention o).

Definition bo_set_last_valid_sample (o : BridgeOutput) (t : Z) : BridgeOutput :=
  mkBridgeOutput (bo_output_valid o) t (bo_last_time_generation o)
    (bo_last_px4_timestamp_sample_ns o) (bo_frame_generation o) (bo_reset_event_generation o)
    (bo_last_input_reset_counter o) (bo_last_world_convention o).

Definition count_timestamp_rejected (x : EstimatorBridge) : EstimatorBridge :=
  let c := eb_counters x in
  eb_set_counters x (mkBridgeCounters (u64_inc (bc_timestamp_rejected c)) (bc_conversion_rejected c)
                       (bc_reset_suppressed c) (bc_startup_rebaseline c)).
Definition count_conversion_rejected (x : EstimatorBridge) : EstimatorBridge :=
  let c := eb_counters x in
  eb_set_counters x (mkBridgeCounters (bc_timestamp_rejected c) (u64_inc (bc_conversion_rejected c))
                       (bc_reset_suppressed c) (bc_startup_rebaseline c)).
Definition count_reset_suppressed (x : EstimatorBridge) : EstimatorBridge :=
  let c := eb_counters x in
  eb_set_counters x (mkBridgeCounters (bc_timestamp_rejected c) (bc_conversion_rejected c)
                       (u64_inc (bc_reset_suppressed c)) (bc_startup_rebaseline c)).
Definition count_startup_rebaseline (x : EstimatorBridge) : EstimatorBridge :=
  let c := eb_counters x in
  eb_set_counters x (mkBridgeCounters (bc_timestamp_rejected c) (bc_conversion_rejected c)
                       (bc_reset_suppressed c) (u64_inc (bc_startup_rebaseline c))).

(** Output and continuity are withdrawn when a generation is exhausted. *)
Definition exhausted (x : EstimatorBridge) : EstimatorBridge :=
  let o := eb_output x in
  eb_set_frame
    (eb_set_output x (bo_with o false (bo_frame_generation o) (bo_reset_event_generation o)))
    (pf_set_continuity (eb_frame x) false).

(** A restart of the source time starts a new public frame (lines 307-331). *)
Definition restart (generation : Z) (x : EstimatorBridge) : EstimatorBridge * bool :=
  let o := eb_output x in
  match frame_generation_after_source_restart (bo_frame_generation o) (bo_output_valid o) with
  | None => (exhausted x, false)
  | Some next =>
      (mkEstimatorBridge (eb_validator x) (pf_clear_frame (eb_frame x)) [] []
         (mkBridgeOutput false 0 generation 0 next (bo_reset_event_generation o)
            (bo_last_input_reset_counter o) (bo_last_world_convention o))
         (eb_counters x) (eb_last_reset_observation_status x), true)
  end.

(** The generations of the node on a continuous sample, with its position. *)
Definition continuous_sample (s : ConvertedOdometry) (frame_generation event_generation
    time_generation : Z) (position : vec3) : ConvertedOdometry :=
  mkConvertedOdometry (co_timestamp_ns s) (co_source_pose_frame s) (co_source_velocity_frame s)
    (co_world_convention s) position (co_orientation s) (co_velocity_world s) (co_velocity_body s)
    (co_angular_velocity_body s) (co_position_variance s) (co_velocity_variance s)
    (co_orientation_variance s) (co_reset_counter s) event_generation frame_generation
    event_generation time_generation (co_position_covariance_available s)
    (co_velocity_covariance_available s) (co_orientation_covariance_available s)
    (co_angular_velocity_valid s).

Definition px4_sample (timestamp_ns : Z) {E : EigenOps} (m : Px4VehicleOdometry) : Px4OdometrySample :=
  let angular_velocity := vec3_of_floats (pv_angular_velocity m) in
  mkPx4OdometrySample timestamp_ns (pose_frame_of_byte (pv_pose_frame m))
    (velocity_frame_of_byte (pv_velocity_frame m)) (vec3_of_floats (pv_position m))
    (quat_of_floats (pv_q m)) (vec3_of_floats (pv_velocity m)) angular_velocity
    (vec3_of_floats (pv_position_variance m)) (vec3_of_floats (pv_velocity_variance m))
    (vec3_of_floats (pv_orientation_variance m)) (pv_reset_counter m) (v_allFinite angular_velocity).

Section Node.
Context {E : EigenOps} {R : EigenRotOps} {M : EigenMatOps} {P : EigenPoseOps}.
Context (config : EstimatorBridgeConfig).

(** One observation by the compensator. *)
Definition observe_sample (s : ConvertedOdometry) (m : DetailedResetMetadata) (x : EstimatorBridge)
    : ResetObservation * EstimatorBridge :=
  let '(o, c) := rc_observe s m (pf_compensator (eb_frame x)) in
  (o, eb_set_status (eb_set_frame x (pf_set_compensator (eb_frame x) c)) (ro_status o)).

(** A reset that cannot be compensated ends the public frame (lines 371-393). *)
Definition ends_frame (status : ResetObservationStatus) : bool :=
  (status ==? ro_kInvalidMetadata) || (status ==? ro_kCounterDiscontinuity)
  || (status ==? ro_kInvalidResetRotation).

Definition new_frame (s : ConvertedOdometry) (x : EstimatorBridge)
    : option (ResetObservation * EstimatorBridge) :=
  let o := eb_output x in
  if bo_frame_generation o =? u64_max then None
  else
    Some (observe_sample s reset_metadata_default
            (eb_set_frame
               (eb_set_output x (bo_with o (bo_output_valid o) (bo_frame_generation o + 1)
                                   (bo_reset_event_generation o)))
               (pf_clear_frame (eb_frame x)))).

(** Before the first output a pending reset restarts the baseline (lines 395-415). *)
Definition startup_rebaseline (s : ConvertedOdometry) (x : EstimatorBridge)
    : ResetObservation * EstimatorBridge :=
  let '(o, x) :=
    observe_sample s reset_metadata_default
      (eb_set_frame (eb_set_output x (bo_set_last_valid_sample (eb_output x) 0))
         (pf_clear_frame (eb_frame x))) in
  (o, count_startup_rebaseline x).

(** The position relative to the origin of the frame (lines 428-437). *)
Definition rebased_position (s : ConvertedOdometry) (f : PublicFrame)
    : option (vec3 * PublicFrame) :=
  if pf_startup_origin_rebased f then Some (co_position s, f)
  else
    match rebasePositionAtCurrentOutput (pf_compensator f) with
    | (None, _) => None
    | (Some origin, c) =>
        Some (v_sub (co_position s) origin,
              mkPublicFrame (pf_converter f) c (pf_history f) true (pf_continuity_valid f))
    end.

(** From an accepted observation to the published sample (lines 417-453). *)
Definition publish_continuous (accepted : ConvertedOdometry) (world : WorldConvention)
    (time_generation reset_counter : Z) (x : EstimatorBridge)
    : option ConvertedOdometry * EstimatorBridge :=
  let o := eb_output x in
  match rebased_position accepted (eb_frame x) with
  | None => (None, eb_set_frame x (pf_set_continuity (eb_frame x) false))
  | Some (position, f) =>
      let continuous :=
        continuous_sample accepted (bo_frame_generation o) (bo_reset_event_generation o)
          time_generation position in
      let '(stored, history) := rb_push continuous (pf_history f) in
      let f continuity :=
        mkPublicFrame (pf_converter f) (pf_compensator f) history (pf_startup_origin_rebased f)
          continuity in
      if negb stored then (None, eb_set_frame x (f false))
      else
        (Some continuous,
         eb_set_output (eb_set_frame x (f true))
           (mkBridgeOutput true (co_timestamp_ns continuous) time_generation
              (co_timestamp_ns continuous) (bo_frame_generation o) (bo_reset_event_generation o)
              (Some reset_counter) world))
  end.

(** From the first observation on (lines 361-453). *)
Definition react (s : ConvertedOdometry) (metadata : DetailedResetMetadata)
    (time_generation : Z) (x : EstimatorBridge) : option ConvertedOdometry * EstimatorBridge :=
  let reset_counter_changed :=
    match bo_last_input_reset_counter (eb_output x) with
    | Some last => negb (last =? co_reset_counter s)
    | None => false
    end in
  let '(observation, x) := observe_sample s metadata x in
  let o := eb_output x in
  let suppressed := ro_status observation ==? ro_kResetTransitionSuppressed in
  if suppressed && (bo_reset_event_generation o =? u64_max) then (None, exhausted x)
  else
    let x :=
      if suppressed then
        eb_set_output x (bo_with o (bo_output_valid o) (bo_frame_generation o)
                           (bo_reset_event_generation o + 1))
      else x in
    let step1 :=
      if reset_counter_changed && bo_output_valid (eb_output x) && ends_frame (ro_status observation)
      then new_frame s x
      else Some (observation, x) in
    match step1 with
    | None => (None, exhausted x)
    | Some (observation, x) =>
        let '(observation, x) :=
          if negb (ro_accepted observation) && negb (bo_output_valid (eb_output x))
             && (ro_status observation ==? ro_kMetadataPending)
             && negb (dm_association_invalid metadata)
          then startup_rebaseline s x
          else (observation, x) in
        match ro_sample observation with
        | None =>
            (None, let x := count_reset_suppressed x in
                   eb_set_frame x (pf_set_continuity (eb_frame x) false))
        | Some accepted =>
            publish_continuous accepted (co_world_convention s) time_generation
              (co_reset_counter s) x
        end
    end.

(** [on_odometry]: the sample published, before its conversion to a message. *)
Definition on_odometry (now_ns : Z) (m : Px4VehicleOdometry) (x : EstimatorBridge)
    : option ConvertedOdometry * EstimatorBridge :=
  match checked_microseconds_to_nanoseconds (pv_timestamp_sample m) with
  | None => (None, count_timestamp_rejected x)
  | Some timestamp_ns =>
      let '(time_result, validator) := tv_observe (pv_timestamp_sample m) now_ns (eb_validator x) in
      let x := eb_set_validator x validator in
      if negb (tv_accepted time_result) then (None, count_timestamp_rejected x)
      else
        let '(x, alive) :=
          if tv_event time_result ==? te_kProbableSourceRestart then
            restart (tv_result_generation time_result) x
          else (x, true) in
        if negb alive then (None, x)
        else
          let '(converted, converter) :=
            fc_convert (px4_sample timestamp_ns m) (pf_converter (eb_frame x)) in
          let f := eb_frame x in
          let x :=
            eb_set_frame x (mkPublicFrame converter (pf_compensator f) (pf_history f)
                              (pf_startup_origin_rebased f) (pf_continuity_valid f)) in
          match converted with
          | inr _ => (None, count_conversion_rejected x)
          | inl s =>
              react s (default reset_metadata_default (detailed_metadata_for config timestamp_ns x))
                (tv_result_generation time_result) x
          end
  end.

(** [nav_msgs/Odometry] of a sample ([to_ros]); [stamp] is [rclcpp::Time]. *)
Definition diagonal_covariance (first : option vec3) (second : option vec3) : list f64 :=
  let at_ v i := match v with Some v => nth i [vx v; vy v; vz v] fzero | None => fzero end in
  map (fun i =>
         if negb (i mod 7 =? 0) then fzero
         else if i / 7 <? 3 then at_ first (Z.to_nat (i / 7))
         else at_ second (Z.to_nat (i / 7 - 3))) (seqZ 0 36).

Definition to_ros (stamp : Z -> RosTime) (s : ConvertedOdometry) : LioOdometry :=
  let if_ (b : bool) (v : vec3) := if b then Some v else None in
  let minus_one := f64_of_Z (-1) in
  mkLioOdometry (stamp (co_timestamp_ns s)) "px4_odom" "base_link" (co_position s)
    (co_orientation s)
    (diagonal_covariance (if_ (co_position_covariance_available s) (co_position_variance s))
       (if_ (co_orientation_covariance_available s) (co_orientation_variance s)))
    (co_velocity_body s) (co_angular_velocity_body s)
    (diagonal_covariance (if_ (co_velocity_covariance_available s) (co_velocity_variance s))
       (Some (vec3_constant minus_one))).

(** [component_validity_mask] and [covariance_availability_mask], with the bits
    of [odometry_validity.hpp]. *)
Definition bit (b : bool) (n : Z) : Z := if b then Z.shiftl 1 n else 0.

Definition component_validity_mask (s : ConvertedOdometry) : Z :=
  Z.lor (bit (v_allFinite (co_position s)) 0)
    (Z.lor (bit (q_allFinite (co_orientation s)
                 && fgt (q_norm (co_orientation s)) kMinimumQuaternionNorm) 1)
       (Z.lor (bit (v_allFinite (co_velocity_body s)) 2)
          (bit (v_allFinite (co_angular_velocity_body s) && co_angular_velocity_valid s) 3))).

Definition covariance_availability_mask (s : ConvertedOdometry) : Z :=
  Z.lor (bit (co_position_covariance_available s) 0)
    (Z.lor (bit (co_orientation_covariance_available s) 1)
       (bit (co_velocity_covariance_available s) 2)).

(** The sampling service; [inr] is the reason of a failure. *)
Record SampleResponse : Type := mkSampleResponse {
  sr_odometry : LioOdometry;
  sr_interpolated : bool;
  sr_reset_event_generation : Z;
  sr_frame_generation : Z;
  sr_time_generation : Z;
  sr_component_validity_mask : Z;
  sr_covariance_availability_mask : Z
}.

Definition sample_odometry_at_time (stamp : Z -> RosTime) (query : RosTime) (x : EstimatorBridge)
    : SampleResponse + string :=
  match checked_ros_time_to_nanoseconds query with
  | None => inr "requested time is invalid"%string
  | Some t =>
      match rb_sample t (pf_history (eb_frame x)) with
      | None => inr "time is outside buffered history or crosses a generation"%string
      | Some r =>
          let s := so_value r in
          inl (mkSampleResponse (to_ros stamp s) (so_interpolated r)
                 (bo_reset_event_generation (eb_output x)) (co_frame_generation s)
                 (co_time_generation s) (component_validity_mask s)
                 (covariance_availability_mask s))
      end
  end.

(** ** Runs *)

Inductive estimator_event : Type :=
| ev_odometry (now_ns : Z) (m : Px4VehicleOdometry)
| ev_local_position (m : LocalPositionResets)
| ev_attitude (m : AttitudeResets).

Definition estimator_step (x : EstimatorBridge) (e : estimator_event)
    : option ConvertedOdometry * EstimatorBridge :=
  match e with
  | ev_odometry now m => on_odometry now m x
  | ev_local_position m => (None, record_local_reset_metadata m x)
  | ev_attitude m => (None, record_attitude_reset_metadata m x)
  end.

Definition estimator_next (x : EstimatorBridge) (e : estimator_event) : EstimatorBridge :=
  (estimator_step x e).2.
End Node.
