(* ===== verification/EstimatorBridgeProps.v ===== *)
(** * Theorems on the PX4 estimator odometry bridge

    What the reset compensator does on every branch; that the metadata the node
    associates can never reach its compensating branch; and that the node as
    written never publishes a sample nor answers a query. *)

From S2P Require Import Prelude Ordered Float64 TimeNs Geometry WorldGrid TrackingGuard OdometryTime OdometryFrames ResetCompensator OdometryRing EstimatorBridge.

Section Props.
Context {E : EigenOps} {R : EigenRotOps} {M : EigenMatOps} {P : EigenPoseOps}.

(** ** The compensator *)

(** The parts of the state only a compensated reset changes. *)
Definition same_transform (c c' : ResetCompensator) : Prop :=
  rc_reset_generation c' = rc_reset_generation c
  /\ rc_continuity_rotation c' = rc_continuity_rotation c
  /\ rc_continuity_translation c' = rc_continuity_translation c
  /\ rc_continuity_velocity_translation c' = rc_continuity_velocity_translation c.

(** What an accepted sample looks like. *)
Definition accepted_sample (s : ConvertedOdometry) (c c' : ResetCompensator) (o : ResetObservation)
    : Prop :=
  ro_sample o = Some (compensated_sample s c) /\ components_valid (compensated_sample s c) = true
  /\ rc_last_output c' = ro_sample o /\ rc_initialized c' = true
  /\ rc_last_counter c' = co_reset_counter s mod 256 /\ same_transform c c'.

(** What a compensated reset does: the rotation is composed with the inverse reset,
    the counter and the generation advance, no sample comes out. *)
Definition reset_compensated (s : ConvertedOdometry) (m : DetailedResetMetadata)
    (c c' : ResetCompensator) (o : ResetObservation) : Prop :=
  ro_sample o = None /\ rc_initialized c = true /\ is_Some (rc_last_output c)
  /\ counter_delta (rc_last_counter c) (co_reset_counter s) = 1
  /\ dm_available m = true /\ hasReset m = true /\ dm_association_invalid m = false
  /\ reset_deltas_valid m = true
  /\ (exists reset, reset_rotation m = Some reset
      /\ rc_continuity_rotation c' = m_mul (rc_continuity_rotation c) (m_transpose reset)
      /\ m_allFinite (rc_continuity_rotation c') = true)
  /\ rc_reset_generation c' = rc_reset_generation c + 1
  /\ rc_last_counter c' = co_reset_counter s /\ rc_last_output c' = rc_last_output c.

(** The counters are bytes and the generation fits its width. *)
Record rc_wf (c : ResetCompensator) : Prop := {
  rw_counter : 0 <= rc_last_counter c < 256;
  rw_generation : is_u64 (rc_reset_generation c)
}.

Lemma publish_compensated_spec s c :
  0 <= co_reset_counter s < 256 -> rc_initialized c = true ->
  rc_last_counter c = co_reset_counter s ->
  let r := publish_compensated s c in
  (ro_status r.1 = ro_kAccepted /\ accepted_sample s c r.2 r.1)
  \/ (r = (rc_status ro_kInvalidCompensatedOutput c, c)).
Proof.
  intros Hb Hi Hc. unfold publish_compensated. cbv zeta.
  destruct (components_valid (compensated_sample s c)) eqn:Hv; simpl; [|by right].
  left. split; [done|]. unfold accepted_sample, same_transform. simpl. rewrite Z.mod_small by lia. split_and!; done.
Qed.

Lemma counter_delta_zero a b :
  0 <= a < 256 -> 0 <= b < 256 -> counter_delta a b = 0 -> a = b.
Proof. unfold counter_delta. intros. Z.to_euclidean_division_equations; lia. Qed.

(** Every branch of an observation: an accepted sample is the input in the
    continuous frame, with valid components, and becomes the last output without
    touching the transform; a suppressed one is a single counted reset whose
    metadata is complete, and advances the transform and the generation; in every
    other case nothing comes out and the transform, the generation and the last
    output stay. *)
Theorem reset_observation_exact s m c :
  rc_wf c -> 0 <= co_reset_counter s < 256 ->
  let o := (rc_observe s m c).1 in
  let c' := (rc_observe s m c).2 in
  match ro_status o with
  | ro_kAccepted => accepted_sample s c c' o
  | ro_kResetTransitionSuppressed => reset_compensated s m c c' o
  | _ => ro_sample o = None /\ same_transform c c' /\ rc_last_output c' = rc_last_output c
  end.
Proof.
  intros [Hcc Hg] Hb. cbv zeta. unfold rc_observe.
  destruct (reset_input_valid s); simpl; [|by split_and!].
  destruct (negb (_ =? _) && _); simpl; [by split_and!|].
  destruct (rc_initialized c) eqn:Hi; simpl.
  2: { set (c1 := mkResetCompensator _ _ _ _ _ _ _).
       pose proof (publish_compensated_spec s c1 Hb eq_refl eq_refl) as Hp. cbv zeta in Hp.
       destruct (publish_compensated s c1) as [o c']. simpl in Hp.
       simpl. destruct Hp as [[-> Hp]|[= -> ->]]; [exact Hp|done]. }
  destruct (counter_delta _ _ =? 0) eqn:Hd0; breflect.
  { apply counter_delta_zero in Hd0; [|done..].
    pose proof (publish_compensated_spec s c Hb Hi Hd0) as Hp. cbv zeta in Hp.
    destruct (publish_compensated s c) as [o c']. simpl in Hp.
    simpl. destruct Hp as [[-> Hp]|[= -> ->]]; [exact Hp|done]. }
  destruct (counter_delta _ _ =? 1) eqn:Hd1; simpl; [|done]. breflect.
  destruct (dm_association_invalid m) eqn:Ha; simpl; [done|].
  destruct (negb (dm_available m) || negb (hasReset m)) eqn:Hr; simpl; [done|]. bsplit.
  destruct (rc_reset_generation c =? u64_max) eqn:Hmax; simpl; [done|]. breflect.
  destruct (negb (has (rc_last_output c)) || negb (reset_deltas_valid m)) eqn:Hlo; simpl; [done|].
  bsplit. unfold compensate_reset.
  destruct (reset_rotation m) as [reset|] eqn:Hrot; simpl; [|done].
  destruct (_ || _ || _) eqn:Hfin; simpl; [done|].
  apply orb_false_iff in Hfin as [[Hfin _]%orb_false_iff _]. apply negb_false_iff in Hfin.
  unfold reset_compensated. simpl. split_and!; try done; [eauto|by apply u64_inc_small].
Qed.

(** ** The node *)

Context (config : EstimatorBridgeConfig).

(** The metadata the node associates with an odometry sample carries no time of
    its own, so no compensator in any state ever compensates a reset with it: the
    branch that keeps the public frame across a reset is unreachable from the node. *)
Theorem associated_metadata_never_compensates t x m s c :
  detailed_metadata_for config t x = Some m ->
  ro_status (rc_observe s m c).1 <> ro_kResetTransitionSuppressed.
Proof.
  intros Hm. assert (Ht : dm_timestamp_ns m = 0).
  { unfold detailed_metadata_for in Hm. destruct (_ && _) in Hm; [done|]. by injection Hm as <-. }
  unfold rc_observe. repeat (case_match; simpl; try done).
  all: try (unfold publish_compensated; case_match; done).
  exfalso. breflect. destruct_and?. unfold reset_deltas_valid in *. bsplit. lia.
Qed.

Definition estimator_reachable (x : EstimatorBridge) : Prop :=
  exists age gap stable x0 es, EstimatorBridge_make age gap stable = Some (config, x0)
    /\ x = run (estimator_next config) x0 es.

(** No sample the converter produces has a frame generation. *)
Lemma converted_generation sample previous s :
  (fc_convert sample previous).1 = inl s -> co_frame_generation s = 0.
Proof. unfold fc_convert. repeat case_match; simpl; intros; by simplify_eq/=. Qed.

(** The compensator refuses a sample without a frame generation and stays as it is. *)
Lemma no_generation_refused s m c :
  co_frame_generation s = 0 -> rc_observe s m c = (rc_status ro_kInvalidMetadata c, c).
Proof.
  intros Hs. unfold rc_observe, reset_input_valid. by rewrite Hs, andb_false_r.
Qed.

(** The node has never had an output. *)
Record silent (x : EstimatorBridge) : Prop := {
  si_output : bo_output_valid (eb_output x) = false;
  si_counter : bo_last_input_reset_counter (eb_output x) = None;
  si_history : rb_samples (pf_history (eb_frame x)) = []
}.

Lemma react_silent s metadata t x :
  co_frame_generation s = 0 -> silent x ->
  (react s metadata t x).1 = None /\ silent (react s metadata t x).2.
Proof.
  intros Hs [Ho Hc Hh]. unfold react. rewrite Hc. unfold observe_sample.
  rewrite no_generation_refused by done. simpl. rewrite Ho. simpl. split; [done|by split].
Qed.

Lemma restart_silent g x : silent x -> silent (restart g x).1.
Proof. intros [Ho Hc Hh]. unfold restart. case_match; by split. Qed.

Lemma estimator_step_silent x e :
  silent x -> (estimator_step config x e).1 = None /\ silent (estimator_step config x e).2.
Proof.
  intros Hx. destruct e as [now m|m|m]; simpl.
  - unfold on_odometry. destruct (checked_microseconds_to_nanoseconds _) as [ts|]; simpl;
      [|split; [done|by destruct Hx; split]].
    destruct (tv_observe _ _ _) as [tr v]. set (x1 := eb_set_validator x v).
    assert (H1 : silent x1) by (by destruct Hx; split). clearbody x1.
    destruct (negb _); simpl; [split; [done|by destruct H1; split]|].
    match goal with |- context [let '(_, _) := ?c in _] => destruct c as [x2 alive] eqn:Hr end.
    assert (H2 : silent x2).
    { case_match; [|by injection Hr as <- <-].
      replace x2 with (restart (tv_result_generation tr) x1).1 by (by rewrite Hr).
      by apply restart_silent. }
    clear Hr. destruct (negb alive); simpl; [by split|].
    destruct (fc_convert _ _) as [r f'] eqn:Hconv.
    set (x3 := eb_set_frame x2 _).
    assert (H3 : silent x3) by (by destruct H2; split). clearbody x3.
    destruct r as [s|reason]; simpl; [|split; [done|by destruct H3; split]].
    apply react_silent; [|done]. by eapply converted_generation; rewrite Hconv.
  - split; [done|]. unfold record_local_reset_metadata. case_match; [by destruct Hx; split|done].
  - split; [done|]. unfold record_attitude_reset_metadata. case_match; [by destruct Hx; split|done].
Qed.

Lemma estimator_reachable_silent x : estimator_reachable x -> silent x.
Proof.
  intros (age&gap&n&x0&es&Hm&->). apply run_invariant.
  - unfold EstimatorBridge_make in Hm. repeat (case_match; simplify_eq/=). by split.
  - intros. by apply estimator_step_silent.
Qed.

(** In every reachable state the node publishes nothing, whatever message
    arrives, has no valid output, and refuses every query of its sampling service:
    the converter leaves the frame generation at zero and the compensator refuses
    a sample without one. *)
Theorem estimator_bridge_never_publishes x :
  estimator_reachable x ->
  (forall now m, (on_odometry config now m x).1 = None)
  /\ bo_output_valid (eb_output x) = false
  /\ (forall stamp query, exists reason, sample_odometry_at_time stamp query x = inr reason).
Proof.
  intros Hx%estimator_reachable_silent. split_and!.
  - intros now m. by apply (estimator_step_silent x (ev_odometry now m)).
  - apply Hx.
  - intros stamp query. unfold sample_odometry_at_time. case_match; [|eauto].
    unfold rb_sample. rewrite (si_history x Hx). eauto.
Qed.
End Props.

(** ** Witnesses *)

Section Witnesses.
#[local] Existing Instances eigen_reference eigen_rot_reference eigen_mat_reference
  eigen_pose_reference.

Definition w_variance : vec3 := vec3_constant (f64_of_Z 1).

(** A sample of the public frame with the given time and PX4 reset counter. *)
Definition w_sample (timestamp_ns counter : Z) : ConvertedOdometry :=
  mkConvertedOdometry timestamp_ns pose_kNed vel_kNed world_kRosEnu vec3_zero quat_identity vec3_zero
    vec3_zero vec3_zero w_variance w_variance w_variance counter 0 1 0 0 true true true true.

(** A compensator that has published one sample with counter 7. *)
Definition w_running : ResetCompensator :=
  (rc_observe (w_sample 1000000 7) reset_metadata_default rc_initial).2.

(** A heading reset with its own time. *)
Definition w_reset : DetailedResetMetadata :=
  mkDetailedResetMetadata 2000000 2000000 true false false false false false true false vec3_zero
    vec3_zero fzero quat_identity 0 0 0 0 1 0.

Definition w_observed : ResetObservation * ResetCompensator :=
  rc_observe (w_sample 2000000 8) w_reset w_running.

Lemma reset_observation_exact_witness :
  ro_status w_observed.1 = ro_kResetTransitionSuppressed
  /\ reset_compensated (w_sample 2000000 8) w_reset w_running w_observed.2 w_observed.1.
Proof.
  assert (Hwf : rc_wf w_running) by (split; vm_compute; by split).
  assert (Hb : 0 <= co_reset_counter (w_sample 2000000 8) < 256) by (simpl; lia).
  assert (Hs : ro_status w_observed.1 = ro_kResetTransitionSuppressed) by (vm_compute; reflexivity).
  split; [exact Hs|]. unfold w_observed in *.
  pose proof (reset_observation_exact (w_sample 2000000 8) w_reset w_running Hwf Hb) as H.
  cbv zeta in H. rewrite Hs in H. exact H.
Defined.

Definition w_bridge : option (EstimatorBridgeConfig * EstimatorBridge) :=
  EstimatorBridge_make (f64_lit 1 10) (f64_lit 5 1000) 3.
Definition w_config : EstimatorBridgeConfig := mkEstimatorBridgeConfig 100000000 5000000.
Definition w_initial : EstimatorBridge :=
  match w_bridge with
  | Some (_, x) => x
  | None => mkEstimatorBridge (mkTimestampValidator time_validation_default None 0)
      (mkPublicFrame None rc_initial (mkOdometryRingBuffer ring_buffer_default [] 0 false 0 false)
         false true) [] [] (mkBridgeOutput false 0 0 0 0 0 None world_kUnknown)
      (mkBridgeCounters 0 0 0 0) ""
  end.

Definition w_floats : vec3f := vec3f_of_vec3 vec3_zero.
Definition w_local (us heading_counter : Z) : LocalPositionResets :=
  mkLocalPositionResets us w_floats w_floats (f32_of_f64 fzero) 0 0 0 0 heading_counter.

(** Two local positions, the second with one more heading reset. *)
Definition w_recorded : EstimatorBridge :=
  run (estimator_next w_config) w_initial
    [ev_local_position (w_local 1000 3); ev_local_position (w_local 2000 4)].

Lemma w_made : w_bridge = Some (w_config, w_initial).
Proof. vm_compute. reflexivity. Qed.

Lemma w_recorded_reachable : estimator_reachable w_config w_recorded.
Proof.
  exists (f64_lit 1 10), (f64_lit 5 1000), 3, w_initial,
    [ev_local_position (w_local 1000 3); ev_local_position (w_local 2000 4)].
  split; [exact w_made|reflexivity].
Qed.

Definition w_associated : DetailedResetMetadata :=
  default reset_metadata_default (detailed_metadata_for w_config 2000000 w_recorded).

(** The metadata announces the reset, and the compensator waits for one. *)
Lemma associated_metadata_never_compensates_witness :
  dm_available w_associated = true /\ hasReset w_associated = true
  /\ ro_status (rc_observe (w_sample 2000000 8) w_associated w_running).1
     <> ro_kResetTransitionSuppressed.
Proof.
  split; [vm_compute; reflexivity|]. split; [vm_compute; reflexivity|].
  apply (associated_metadata_never_compensates w_config 2000000 w_recorded w_associated).
  vm_compute. reflexivity.
Defined.

(** A valid PX4 sample, five milliseconds old. *)
Definition w_odometry : Px4VehicleOdometry :=
  mkPx4VehicleOdometry 3000000 1 1 w_floats
    (Quat (f32_of_f64 fzero) (f32_of_f64 fzero) (f32_of_f64 fzero) (f32_of_f64 (f64_of_Z 1)))
    w_floats w_floats w_floats w_floats w_floats 8.

Lemma estimator_bridge_never_publishes_witness :
  (on_odometry w_config 3005000000 w_odometry w_recorded).1 = None
  /\ bc_timestamp_rejected (eb_counters (on_odometry w_config 3005000000 w_odometry w_recorded).2) = 0
  /\ bc_conversion_rejected (eb_counters (on_odometry w_config 3005000000 w_odometry w_recorded).2) = 0.
Proof.
  split.
  - by apply (estimator_bridge_never_publishes w_config w_recorded w_recorded_reachable).
  - split; vm_compute; reflexivity.
Defined.
End Witnesses.
