(* ===== verification/MappingWorker.v ===== *)
(** * The mapping worker

    [mapping/navigation_mapping/.../mapping_worker.hpp]: one inbox slot that keeps
    the latest observation, one thread that processes it, a reset barrier, and
    the accounting of every observation.

    Every critical section of [mutex_] is one transition; it holds at most one
    call of the accounting, whose own mutex then orders it with the calls made
    outside, so no interleaving is lost.  The callbacks ([process_],
    [validate_], [published_handler_]) are inputs of the transitions; the fatal
    handler is an event, as what it does is the owner's affair (the runtime node
    aborts there, and the run ends).  [cv_] is modelled with its two possible
    waiters, the worker thread and a thread in [reset].  The ingress side is one
    sequence of calls, as the runtime node makes it by
    [localization_epoch_ingress_mutex_]; refusals before the inbox come from any
    thread.  Exception objects are not modelled. *)
From S2P Require Import Prelude.

(** * Observation accounting

    [mapping/navigation_mapping/.../observation_accounting.hpp]: the counters of
    the mapping inbox.  Every operation holds the accounting mutex for its whole
    body, so it is one transition on the snapshot. *)

Record AccountingSnapshot : Type := mkAccounting {
  ac_received : Z;
  ac_rejected_before_inbox : Z;
  ac_accepted_to_inbox : Z;
  ac_replaced_waiting : Z;
  ac_discarded_waiting : Z;
  ac_discarded_nonmonotonic : Z;
  ac_ready_submitted : Z;
  ac_waiting : Z;
  ac_replaced_ready : Z;
  ac_discarded_ready : Z;
  ac_discarded_shutdown_ready : Z;
  ac_ready : Z;
  ac_replaced_pending : Z;
  ac_discarded_pending : Z;
  ac_mapping_started : Z;
  ac_mapping_published : Z;
  ac_mapping_failed : Z;
  ac_pending : Z;
  ac_in_flight : Z;
  ac_violation_count : Z
}.

Definition accounting_initial : AccountingSnapshot :=
  mkAccounting 0 0 0 0 0 0 0 0 0 0 0 0 0 0 0 0 0 0 0 0.

(** The members, by name. *)
Inductive acc_field : Type :=
| f_received | f_rejected_before_inbox | f_accepted_to_inbox | f_replaced_waiting
| f_discarded_waiting | f_discarded_nonmonotonic | f_ready_submitted | f_waiting
| f_replaced_ready | f_discarded_ready | f_discarded_shutdown_ready | f_ready
| f_replaced_pending | f_discarded_pending | f_mapping_started | f_mapping_published
| f_mapping_failed | f_pending | f_in_flight | f_violation_count.
#[export] Instance acc_field_eq_dec : EqDecision acc_field.
Proof. solve_decision. Defined.

Definition acc_get (f : acc_field) (a : AccountingSnapshot) : Z :=
  match f with
  | f_received => ac_received a
  | f_rejected_before_inbox => ac_rejected_before_inbox a
  | f_accepted_to_inbox => ac_accepted_to_inbox a
  | f_replaced_waiting => ac_replaced_waiting a
  | f_discarded_waiting => ac_discarded_waiting a
  | f_discarded_nonmonotonic => ac_discarded_nonmonotonic a
  | f_ready_submitted => ac_ready_submitted a
  | f_waiting => ac_waiting a
  | f_replaced_ready => ac_replaced_ready a
  | f_discarded_ready => ac_discarded_ready a
  | f_discarded_shutdown_ready => ac_discarded_shutdown_ready a
  | f_ready => ac_ready a
  | f_replaced_pending => ac_replaced_pending a
  | f_discarded_pending => ac_discarded_pending a
  | f_mapping_started => ac_mapping_started a
  | f_mapping_published => ac_mapping_published a
  | f_mapping_failed => ac_mapping_failed a
  | f_pending => ac_pending a
  | f_in_flight => ac_in_flight a
  | f_violation_count => ac_violation_count a
  end.

Definition acc_tabulate (v : acc_field -> Z) : AccountingSnapshot :=
  mkAccounting (v f_received) (v f_rejected_before_inbox) (v f_accepted_to_inbox)
    (v f_replaced_waiting) (v f_discarded_waiting) (v f_discarded_nonmonotonic)
    (v f_ready_submitted) (v f_waiting) (v f_replaced_ready) (v f_discarded_ready)
    (v f_discarded_shutdown_ready) (v f_ready) (v f_replaced_pending) (v f_discarded_pending)
    (v f_mapping_started) (v f_mapping_published) (v f_mapping_failed) (v f_pending)
    (v f_in_flight) (v f_violation_count).

(** [state_.f = x] and [++state_.f] *)
Definition acc_set (f : acc_field) (x : Z) (a : AccountingSnapshot) : AccountingSnapshot :=
  acc_tabulate (fun g => if f ==? g then x else acc_get g a).
Definition acc_bump (f : acc_field) (a : AccountingSnapshot) : AccountingSnapshot :=
  acc_set f (u64_inc (acc_get f a)) a.

Lemma acc_get_set f g x a : acc_get g (acc_set f x a) = if f ==? g then x else acc_get g a.
Proof. by destruct g. Qed.

Lemma acc_get_bump f g a :
  acc_get g (acc_bump f a) = if f ==? g then u64_inc (acc_get f a) else acc_get g a.
Proof. apply acc_get_set. Qed.

(** ** The invariants the snapshot can be asked for *)

Definition inputInvariantHolds (a : AccountingSnapshot) : bool :=
  ac_received a =? u64_add (ac_rejected_before_inbox a) (ac_accepted_to_inbox a).

Definition inboxInvariantHolds (a : AccountingSnapshot) : bool :=
  ac_accepted_to_inbox a =?
    u64_add (u64_add (u64_add (ac_replaced_waiting a) (ac_discarded_waiting a))
               (ac_ready_submitted a)) (ac_waiting a).

Definition readyInvariantHolds (a : AccountingSnapshot) : bool :=
  ac_ready_submitted a =?
    u64_add (u64_add (u64_add (u64_add (ac_replaced_ready a) (ac_discarded_ready a))
                        (ac_discarded_shutdown_ready a)) (ac_mapping_started a)) (ac_ready a).

Definition mappingInvariantHolds (a : AccountingSnapshot) : bool :=
  ac_mapping_started a =?
    u64_add (u64_add (ac_mapping_published a) (ac_mapping_failed a)) (ac_in_flight a).

Definition allInvariantsHold (a : AccountingSnapshot) : bool :=
  inputInvariantHolds a && inboxInvariantHolds a && readyInvariantHolds a
  && mappingInvariantHolds a && (ac_violation_count a =? 0).

(** ** The operations *)

Definition recordRejectedBeforeInbox (a : AccountingSnapshot) : AccountingSnapshot :=
  acc_bump f_rejected_before_inbox (acc_bump f_received a).

Definition recordAcceptedToInbox (a : AccountingSnapshot) : bool * AccountingSnapshot :=
  let a := acc_bump f_accepted_to_inbox (acc_bump f_received a) in
  if negb (ac_waiting a =? 0) then
    (true, acc_bump f_replaced_pending (acc_bump f_replaced_waiting a))
  else (false, acc_set f_pending 1 (acc_set f_waiting 1 a)).

Definition violation (a : AccountingSnapshot) : AccountingSnapshot := acc_bump f_violation_count a.

Definition discardedPending (a : AccountingSnapshot) : AccountingSnapshot :=
  if ac_waiting a =? 0 then violation a
  else
    let a := acc_set f_waiting 0 a in
    let a := acc_set f_pending (ac_ready a) a in
    acc_bump f_discarded_pending (acc_bump f_discarded_waiting a).

Definition discardedNonmonotonicWaiting (a : AccountingSnapshot) : AccountingSnapshot :=
  if ac_waiting a =? 0 then violation a
  else
    let a := acc_set f_waiting 0 a in
    let a := acc_set f_pending (ac_ready a) a in
    acc_bump f_discarded_pending (acc_bump f_discarded_nonmonotonic (acc_bump f_discarded_waiting a)).

Definition waitingSubmitted (replaced_ready : bool) (a : AccountingSnapshot) : AccountingSnapshot :=
  if ac_waiting a =? 0 then violation a
  else
    let a := acc_bump f_ready_submitted (acc_set f_waiting 0 a) in
    let gauge a := acc_set f_pending (u64_add (ac_waiting a) (ac_ready a)) a in
    if replaced_ready then
      if ac_ready a =? 0 then violation a
      else gauge (acc_bump f_replaced_pending (acc_bump f_replaced_ready a))
    else if negb (ac_ready a =? 0) then violation a
    else gauge (acc_set f_ready 1 a).

(** The common head of the operations that empty the READY slot. *)
Definition ready_taken (a : AccountingSnapshot) : AccountingSnapshot :=
  acc_set f_pending (ac_waiting a) (acc_set f_ready 0 a).

Definition discardedShutdownReady (a : AccountingSnapshot) : AccountingSnapshot :=
  if ac_ready a =? 0 then violation a
  else acc_bump f_discarded_pending (acc_bump f_discarded_shutdown_ready (ready_taken a)).

Definition discardedReady (a : AccountingSnapshot) : AccountingSnapshot :=
  if ac_ready a =? 0 then violation a
  else acc_bump f_discarded_pending (acc_bump f_discarded_ready (ready_taken a)).

Definition mappingStarted (a : AccountingSnapshot) : AccountingSnapshot :=
  if ac_ready a =? 0 then violation a
  else acc_bump f_in_flight (acc_bump f_mapping_started (ready_taken a)).

(** [--state_.in_flight; ++state_.f] under the test of [mappingPublished] and
    [mappingFailed] *)
Definition flight_ended (f : acc_field) (a : AccountingSnapshot) : AccountingSnapshot :=
  if ac_in_flight a =? 0 then violation a
  else acc_bump f (acc_set f_in_flight (u64_sub (ac_in_flight a) 1) a).

Definition mappingPublished (a : AccountingSnapshot) : AccountingSnapshot :=
  flight_ended f_mapping_published a.
Definition mappingFailed (a : AccountingSnapshot) : AccountingSnapshot :=
  flight_ended f_mapping_failed a.

Section Worker.
Context {O : Type}.

(** [order_key_]; a key function may throw. *)
Abbreviation OrderKey := (O -> option Z).

Record MappingWorker : Type := mkMappingWorker {
  mw_order_key : option OrderKey;
  mw_ready : option O;
  mw_accepting : bool;
  mw_started : bool;
  mw_fatal : bool;
  mw_shutdown_started : bool;
  mw_joined : bool;
  mw_resetting : bool;
  mw_in_flight : bool;
  mw_highest_admitted_key : Z
}.

Definition MappingWorker_init : MappingWorker :=
  mkMappingWorker None None true false false false false false false 0.

(** What happens to observations, in the order it happens. *)
Inductive mapping_event : Type :=
| me_reject                  (* refused before the inbox *)
| me_accept (o : O)          (* WAITING_PAIR *)
| me_refuse (o : O) (nonmonotonic : bool)
| me_replace (o : O)
| me_admit (o : O)           (* READY *)
| me_take (o : O)            (* IN_FLIGHT *)
| me_publish (o : O)
| me_fail (o : O)
| me_discard (o : O)         (* READY, by a reset or by validation *)
| me_drop (o : O)            (* READY, by the end of the worker *)
| me_reset_begin
| me_reset_end
| me_fatal                   (* the fatal handler is called *)
| me_close.                  (* no longer accepting *)

(** ** Setters *)

Definition mw_set_ready (r : option O) (w : MappingWorker) : MappingWorker :=
  mkMappingWorker (mw_order_key w) r (mw_accepting w) (mw_started w) (mw_fatal w)
    (mw_shutdown_started w) (mw_joined w) (mw_resetting w) (mw_in_flight w)
    (mw_highest_admitted_key w).
Definition mw_set_highest (key : Z) (w : MappingWorker) : MappingWorker :=
  mkMappingWorker (mw_order_key w) (mw_ready w) (mw_accepting w) (mw_started w) (mw_fatal w)
    (mw_shutdown_started w) (mw_joined w) (mw_resetting w) (mw_in_flight w) key.
(** [fatal_ = true; accepting_ = false;] *)
Definition mw_set_fatal (w : MappingWorker) : MappingWorker :=
  mkMappingWorker (mw_order_key w) (mw_ready w) false (mw_started w) true
    (mw_shutdown_started w) (mw_joined w) (mw_resetting w) (mw_in_flight w)
    (mw_highest_admitted_key w).
Definition mw_set_in_flight (b : bool) (w : MappingWorker) : MappingWorker :=
  mkMappingWorker (mw_order_key w) (mw_ready w) (mw_accepting w) (mw_started w) (mw_fatal w)
    (mw_shutdown_started w) (mw_joined w) (mw_resetting w) b (mw_highest_admitted_key w).
Definition mw_set_resetting (b : bool) (w : MappingWorker) : MappingWorker :=
  mkMappingWorker (mw_order_key w) (mw_ready w) (mw_accepting w) (mw_started w) (mw_fatal w)
    (mw_shutdown_started w) (mw_joined w) b (mw_in_flight w) (mw_highest_admitted_key w).

(** ** Operations *)

(** [setStrictlyIncreasingOrderKey]; [None] is [std::logic_error]. *)
Definition setStrictlyIncreasingOrderKey (key : OrderKey) (initial_key : Z) (w : MappingWorker)
    : option MappingWorker :=
  if mw_started w || has (mw_ready w) then None
  else
    Some (mkMappingWorker (Some key) (mw_ready w) (mw_accepting w) (mw_started w) (mw_fatal w)
            (mw_shutdown_started w) (mw_joined w) (mw_resetting w) (mw_in_flight w) initial_key).

(** [start]; [None] is [std::logic_error]. *)
Definition mapping_start (w : MappingWorker) : option MappingWorker :=
  if mw_started w || mw_shutdown_started w then None
  else
    Some (mkMappingWorker (mw_order_key w) (mw_ready w) (mw_accepting w) true (mw_fatal w)
            (mw_shutdown_started w) (mw_joined w) (mw_resetting w) (mw_in_flight w)
            (mw_highest_admitted_key w)).

(** What an operation leaves: the object, the accounting, what happened. *)
Record effect : Type := mkEffect {
  eff_worker : MappingWorker;
  eff_accounting : AccountingSnapshot;
  eff_events : list mapping_event
}.

(** The end of [submitFromWaiting]: the observation becomes READY. *)
Definition admit_ready (o : O) (w : MappingWorker) (a : AccountingSnapshot) : effect :=
  mkEffect (mw_set_ready (Some o) w) (waitingSubmitted (has (mw_ready w)) a)
    (match mw_ready w with Some old => [me_replace old] | None => [] end ++ [me_admit o]).

(** A callback of [submitFromWaiting] has thrown. *)
Definition submit_fatal (o : O) (w : MappingWorker) (a : AccountingSnapshot) : effect :=
  mkEffect (mw_set_fatal w) (discardedPending a) [me_refuse o false; me_close; me_fatal].

(** The order test of [submitFromWaiting]. *)
Definition submit_ordered (o : O) (w : MappingWorker) (a : AccountingSnapshot) : bool * effect :=
  match mw_order_key w with
  | None => (true, admit_ready o w a)
  | Some order_key =>
      match order_key o with
      | None => (false, submit_fatal o w a)
      | Some key =>
          if key <=? mw_highest_admitted_key w then
            (false, mkEffect w (discardedNonmonotonicWaiting a) [me_refuse o true])
          else (true, admit_ready o (mw_set_highest key w) a)
      end
  end.

(** [submitFromWaiting]; [validate] is [None] when no validator is set.  A [true]
    result comes with [cv_.notify_one()] inside the section. *)
Definition submitFromWaiting (validate : option callback_outcome) (o : O) (w : MappingWorker)
    (a : AccountingSnapshot) : bool * effect :=
  if negb (mw_accepting w) || mw_fatal w || mw_resetting w then
    (false, mkEffect w (discardedPending a) [me_refuse o false])
  else
    match validate with
    | Some cb_throws => (false, submit_fatal o w a)
    | Some (cb_returns false) => (false, mkEffect w (discardedPending a) [me_refuse o false])
    | Some (cb_returns true) | None => submit_ordered o w a
    end.

(** [ready_.reset()] with the accounting and the event that goes with it *)
Definition empty_ready (account : AccountingSnapshot -> AccountingSnapshot)
    (event : O -> mapping_event) (w : MappingWorker) (a : AccountingSnapshot) : effect :=
  match mw_ready w with
  | Some o => mkEffect (mw_set_ready None w) (account a) [event o]
  | None => mkEffect w a []
  end.

Definition eff_then (e : effect) (f : MappingWorker -> MappingWorker) (es : list mapping_event)
    : effect :=
  mkEffect (f (eff_worker e)) (eff_accounting e) (eff_events e ++ es).

(** The section of [reset] up to its wait. *)
Definition reset_begin (w : MappingWorker) (a : AccountingSnapshot) : effect :=
  let e := empty_ready discardedReady me_discard (mw_set_resetting true w) a in
  mkEffect (eff_worker e) (eff_accounting e) (me_reset_begin :: eff_events e).

(** What follows the wait of [reset]. *)
Definition reset_end (w : MappingWorker) : MappingWorker :=
  mw_set_resetting false (mw_set_highest 0 w).

(** The first section of [shutdown] for the caller that finds
    [shutdown_started_] unset. *)
Definition mapping_shutdown_begin (w : MappingWorker) (a : AccountingSnapshot) : effect :=
  let w := mkMappingWorker (mw_order_key w) (mw_ready w) false (mw_started w) (mw_fatal w) true
             (mw_joined w) (mw_resetting w) (mw_in_flight w) (mw_highest_admitted_key w) in
  let e := if negb (mw_started w) then empty_ready discardedShutdownReady me_drop w a
           else mkEffect w a [] in
  mkEffect (eff_worker e) (eff_accounting e) (me_close :: eff_events e).

Definition mapping_joined (w : MappingWorker) : MappingWorker :=
  mkMappingWorker (mw_order_key w) (mw_ready w) (mw_accepting w) (mw_started w) (mw_fatal w)
    (mw_shutdown_started w) true (mw_resetting w) (mw_in_flight w) (mw_highest_admitted_key w).

(** ** The worker thread *)

(** The section that moves the READY observation to the thread. *)
Definition take_ready (o : O) (w : MappingWorker) (a : AccountingSnapshot) : effect :=
  mkEffect (mw_set_in_flight true (mw_set_ready None w)) (mappingStarted a) [me_take o].

(** The validator has thrown on the READY observation. *)
Definition wait_fatal (w : MappingWorker) (a : AccountingSnapshot) : effect :=
  eff_then (empty_ready discardedReady me_discard w a) mw_set_fatal [me_close; me_fatal].

(** The section after an exception of [process_] or of [published_handler_]. *)
Definition callback_failed (w : MappingWorker) (a : AccountingSnapshot) : effect :=
  let e := empty_ready discardedShutdownReady me_drop (mw_set_fatal w) a in
  mkEffect (mw_set_in_flight false (eff_worker e)) (eff_accounting e) (me_close :: eff_events e).

(** ** The threads *)

Inductive mapping_pc : Type :=
| mNone                     (* [start] not called *)
| mWait                     (* about to evaluate the wait predicate *)
| mBlocked                  (* in the queue of [cv_] *)
| mProcess (o : O)          (* inside [process_] *)
| mHandler                  (* inside [published_handler_] *)
| mFailed                   (* a callback has thrown, lock not yet taken *)
| mClear                    (* about to clear [in_flight_] *)
| mNotify (failed : bool)   (* [in_flight_] cleared, [notify_all] owed *)
| mExited.

Inductive ingress_pc : Type :=
| iIdle
| iAccepted (o : O)         (* counted in the inbox, not yet submitted *)
| iBlocked                  (* in [reset], in the queue of [cv_] *)
| iWoken.                   (* in [reset], about to evaluate its predicate *)

Inductive mshutdown_pc : Type := dIdle | dEntered | dStopRequested | dNotified | dJoined.
#[export] Instance mshutdown_pc_eq_dec : EqDecision mshutdown_pc.
Proof. solve_decision. Defined.

Record mapping_system : Type := mkMappingSystem {
  ms_worker : MappingWorker;
  ms_accounting : AccountingSnapshot;
  ms_pc : mapping_pc;
  ms_ingress : ingress_pc;
  ms_shutdown : mshutdown_pc;
  ms_stop : bool;
  ms_log : list mapping_event
}.

Inductive mapping_action : Type :=
| m_start
| m_reject
| m_accept (o : O)
| m_submit (validate : option callback_outcome)
| m_reset
| m_reset_wait
| m_shutdown
| m_request_stop
| m_notify_all
| m_join
| m_spurious_worker
| m_spurious_reset
| m_wait (validate : option callback_outcome)
| m_process (outcome : callback_outcome)
| m_handler (outcome : callback_outcome)
| m_cleanup
| m_worker_notify.

Definition wake_worker (pc : mapping_pc) : mapping_pc :=
  match pc with mBlocked => mWait | _ => pc end.
Definition wake_reset (i : ingress_pc) : ingress_pc :=
  match i with iBlocked => iWoken | _ => i end.

(** The owner configures the key before anything else, as the runtime node does. *)
Definition mapping_init (key : option (OrderKey * Z)) : mapping_system :=
  let w := match key with
           | Some (k, initial) =>
               default MappingWorker_init (setStrictlyIncreasingOrderKey k initial MappingWorker_init)
           | None => MappingWorker_init
           end in
  mkMappingSystem w accounting_initial mNone iIdle dIdle false [].

Definition apply_effect (e : effect) (pc : mapping_pc) (i : ingress_pc) (s : mapping_system)
    : mapping_system :=
  mkMappingSystem (eff_worker e) (eff_accounting e) pc i (ms_shutdown s) (ms_stop s)
    (ms_log s ++ eff_events e).

Definition set_pcs (pc : mapping_pc) (i : ingress_pc) (s : mapping_system) : mapping_system :=
  mkMappingSystem (ms_worker s) (ms_accounting s) pc i (ms_shutdown s) (ms_stop s) (ms_log s).

(** The wait of [reset] under the lock, from [s] on. *)
Definition reset_wait (s : mapping_system) : mapping_system :=
  if mw_in_flight (ms_worker s) then set_pcs (ms_pc s) iBlocked s
  else
    apply_effect (mkEffect (reset_end (ms_worker s)) (ms_accounting s) [me_reset_end])
      (wake_worker (ms_pc s)) iIdle s.

(** The section of the worker thread that waits for an observation. *)
Definition worker_wait (validate : option callback_outcome) (s : mapping_system) : mapping_system :=
  let w := ms_worker s in
  let a := ms_accounting s in
  if ms_stop s then
    apply_effect (empty_ready discardedShutdownReady me_drop w a) mExited (ms_ingress s) s
  else
    match mw_ready w with
    | None => set_pcs mBlocked (ms_ingress s) s
    | Some o =>
        match validate with
        | Some cb_throws => apply_effect (wait_fatal w a) mExited (ms_ingress s) s
        | Some (cb_returns false) =>
            apply_effect (empty_ready discardedReady me_discard w a) mWait (ms_ingress s) s
        | Some (cb_returns true) | None =>
            apply_effect (take_ready o w a) (mProcess o) (ms_ingress s) s
        end
    end.

(** One step of one thread; [None] when the thread is not at that point.
    [handler] is whether a [published_handler_] is set. *)
Definition mapping_step (handler : bool) (s : mapping_system) (x : mapping_action)
    : option mapping_system :=
  let w := ms_worker s in
  let a := ms_accounting s in
  match x with
  | m_start =>
      match mapping_start w with
      | Some w => Some (apply_effect (mkEffect w a []) mWait (ms_ingress s) s)
      | None => Some s
      end
  | m_reject =>
      Some (apply_effect (mkEffect w (recordRejectedBeforeInbox a) [me_reject]) (ms_pc s)
              (ms_ingress s) s)
  | m_accept o =>
      match ms_ingress s with
      | iIdle => Some (apply_effect (mkEffect w (recordAcceptedToInbox a).2 [me_accept o]) (ms_pc s)
                         (iAccepted o) s)
      | _ => None
      end
  | m_submit validate =>
      match ms_ingress s with
      | iAccepted o =>
          let r := submitFromWaiting validate o w a in
          Some (apply_effect r.2 (if r.1 then wake_worker (ms_pc s) else ms_pc s) iIdle s)
      | _ => None
      end
  | m_reset =>
      match ms_ingress s with
      | iIdle =>
          if mw_shutdown_started w then Some s
          else Some (reset_wait (apply_effect (reset_begin w a) (wake_worker (ms_pc s)) iIdle s))
      | _ => None
      end
  | m_reset_wait =>
      match ms_ingress s with
      | iWoken => Some (reset_wait s)
      | _ => None
      end
  | m_shutdown =>
      if mw_shutdown_started w then None
      else
        let e := mapping_shutdown_begin w a in
        Some (mkMappingSystem (eff_worker e) (eff_accounting e) (ms_pc s) (ms_ingress s) dEntered
                (ms_stop s) (ms_log s ++ eff_events e))
  | m_request_stop =>
      if ms_shutdown s ==? dEntered then
        Some (mkMappingSystem w a (if mw_started w then wake_worker (ms_pc s) else ms_pc s)
                (ms_ingress s) dStopRequested (mw_started w) (ms_log s))
      else None
  | m_notify_all =>
      if ms_shutdown s ==? dStopRequested then
        Some (mkMappingSystem w a (wake_worker (ms_pc s)) (wake_reset (ms_ingress s)) dNotified
                (ms_stop s) (ms_log s))
      else None
  | m_join =>
      match ms_shutdown s, ms_pc s with
      | dNotified, mNone | dNotified, mExited =>
          Some (mkMappingSystem (mapping_joined w) a (ms_pc s) (ms_ingress s) dJoined (ms_stop s)
                  (ms_log s))
      | _, _ => None
      end
  | m_spurious_worker =>
      match ms_pc s with mBlocked => Some (set_pcs mWait (ms_ingress s) s) | _ => None end
  | m_spurious_reset =>
      match ms_ingress s with iBlocked => Some (set_pcs (ms_pc s) iWoken s) | _ => None end
  | m_wait validate =>
      match ms_pc s with mWait => Some (worker_wait validate s) | _ => None end
  | m_process outcome =>
      match ms_pc s with
      | mProcess o =>
          match outcome with
          | cb_returns _ =>
              Some (apply_effect (mkEffect w (mappingPublished a) [me_publish o])
                      (if handler then mHandler else mClear) (ms_ingress s) s)
          | cb_throws =>
              Some (apply_effect (mkEffect w (mappingFailed a) [me_fail o]) mFailed (ms_ingress s) s)
          end
      | _ => None
      end
  | m_handler outcome =>
      match ms_pc s with
      | mHandler =>
          Some (set_pcs (match outcome with cb_returns _ => mClear | cb_throws => mFailed end)
                  (ms_ingress s) s)
      | _ => None
      end
  | m_cleanup =>
      match ms_pc s with
      | mFailed => Some (apply_effect (callback_failed w a) (mNotify true) (ms_ingress s) s)
      | mClear =>
          Some (apply_effect (mkEffect (mw_set_in_flight false w) a []) (mNotify false)
                  (ms_ingress s) s)
      | _ => None
      end
  | m_worker_notify =>
      match ms_pc s with
      | mNotify failed =>
          Some (apply_effect (mkEffect w a (if failed then [me_fatal] else []))
                  (if failed then mExited else mWait) (wake_reset (ms_ingress s)) s)
      | _ => None
      end
  end.

(** Every state the threads can reach, in any interleaving. *)
Inductive mapping_reachable (key : option (OrderKey * Z)) (handler : bool) : mapping_system -> Prop :=
| mr_init : mapping_reachable key handler (mapping_init key)
| mr_step s x s' :
    mapping_reachable key handler s -> mapping_step handler s x = Some s' ->
    mapping_reachable key handler s'.

End Worker.

Arguments MappingWorker O : clear implicits.
Arguments mapping_event O : clear implicits.
Arguments mapping_system O : clear implicits.
Arguments mapping_action O : clear implicits.
Arguments mapping_pc O : clear implicits.
Arguments ingress_pc O : clear implicits.
