(* ===== verification/MappingWorkerProps.v ===== *)
(** * Properties of the mapping worker

    The accounting is exact in every reachable state; the history of the
    observations is a legal history of a latest-only inbox in front of one
    server with a reset barrier ([ib_step]), from which the order of processing
    and the barrier follow; and the threads always come to rest. *)

From S2P Require Import Prelude MappingWorker.

(** ** The accounting *)

Section Accounting.
Context {O : Type}.

(** The events a counter counts. *)
Definition counted (f : acc_field) (e : mapping_event O) : bool :=
  match f, e with
  | f_received, me_reject | f_received, me_accept _ | f_rejected_before_inbox, me_reject
  | f_accepted_to_inbox, me_accept _ | f_discarded_waiting, me_refuse _ _
  | f_discarded_nonmonotonic, me_refuse _ true | f_ready_submitted, me_admit _
  | f_replaced_ready, me_replace _ | f_replaced_pending, me_replace _
  | f_discarded_ready, me_discard _ | f_discarded_shutdown_ready, me_drop _
  | f_discarded_pending, me_refuse _ _ | f_discarded_pending, me_discard _
  | f_discarded_pending, me_drop _ | f_mapping_started, me_take _
  | f_mapping_published, me_publish _ | f_mapping_failed, me_fail _ => true
  | _, _ => false
  end.

Definition is_gauge (f : acc_field) : bool :=
  match f with f_waiting | f_ready | f_pending | f_in_flight => true | _ => false end.

Definition tally (f : acc_field) (l : list (mapping_event O)) : Z := count_of (counted f) l.

(** [a] is the accounting of the history [l] with the given observations in the
    three places an observation can be. *)
Record accounts (a : AccountingSnapshot) (l : list (mapping_event O)) (waiting ready flight : bool)
    : Prop := {
  as_counters : forall f, is_gauge f = false -> acc_get f a = tally f l mod 2 ^ 64;
  as_waiting : ac_waiting a = Z.b2z waiting;
  as_ready : ac_ready a = Z.b2z ready;
  as_flight : ac_in_flight a = Z.b2z flight;
  as_input : tally f_received l = tally f_rejected_before_inbox l + tally f_accepted_to_inbox l;
  as_inbox : tally f_accepted_to_inbox l =
    tally f_discarded_waiting l + tally f_ready_submitted l + Z.b2z waiting;
  as_slot : tally f_ready_submitted l =
    tally f_replaced_ready l + tally f_discarded_ready l + tally f_discarded_shutdown_ready l
    + tally f_mapping_started l + Z.b2z ready;
  as_server : tally f_mapping_started l =
    tally f_mapping_published l + tally f_mapping_failed l + Z.b2z flight
}.

Lemma accounts_initial : accounts accounting_initial [] false false false.
Proof. split; try done. by intros []. Qed.

Lemma tally_snoc f l e : tally f (l ++ [e]) = tally f l + Z.b2z (counted f e).
Proof. unfold tally. rewrite count_of_app, count_of_cons, count_of_nil. destruct (counted f e); simpl; lia. Qed.

Lemma tally_snoc2 f l e e' :
  tally f (l ++ [e; e']) = tally f l + Z.b2z (counted f e) + Z.b2z (counted f e').
Proof. change [e; e'] with ([e] ++ [e']). by rewrite app_assoc, !tally_snoc. Qed.

(** One operation of the accounting and the event it belongs to. *)
Ltac accounting_step :=
  intros [Hc Hw Hr Hf E0 E1 E2 E3]; cbn in Hw, Hr, Hf;
  unfold recordRejectedBeforeInbox, recordAcceptedToInbox, discardedPending,
    discardedNonmonotonicWaiting, waitingSubmitted, discardedShutdownReady, discardedReady,
    mappingStarted, mappingPublished, mappingFailed, flight_ended;
  simpl; rewrite ?Hw, ?Hr, ?Hf; simpl; rewrite ?Hw, ?Hr, ?Hf; simpl;
  split; rewrite ?tally_snoc, ?tally_snoc2; simpl counted in *; simpl Z.b2z in *; try done; try (cbn; rewrite Hf; reflexivity);
  try lia;
  let g := fresh "g" in let Hg := fresh in
  intros g Hg; specialize (Hc g Hg); rewrite ?tally_snoc, ?tally_snoc2;
  destruct g; try discriminate Hg; simpl in Hc |- *;
  rewrite ?Z.add_0_r, ?Hc; try done;
  unfold u64_inc, u64_add; by rewrite Zplus_mod_idemp_l.

Lemma accounts_reject a l w r f :
  accounts a l w r f -> accounts (recordRejectedBeforeInbox a) (l ++ [me_reject]) w r f.
Proof. accounting_step. Qed.

Lemma accounts_accept a l o r f :
  accounts a l false r f -> accounts (recordAcceptedToInbox a).2 (l ++ [me_accept o]) true r f.
Proof. accounting_step. Qed.

Lemma accounts_refuse a l o r f :
  accounts a l true r f -> accounts (discardedPending a) (l ++ [me_refuse o false]) false r f.
Proof. accounting_step. Qed.

Lemma accounts_refuse_order a l o r f :
  accounts a l true r f ->
  accounts (discardedNonmonotonicWaiting a) (l ++ [me_refuse o true]) false r f.
Proof. accounting_step. Qed.

Lemma accounts_admit a l o f :
  accounts a l true false f -> accounts (waitingSubmitted false a) (l ++ [me_admit o]) false true f.
Proof. accounting_step. Qed.

Lemma accounts_replace a l o o' f :
  accounts a l true true f ->
  accounts (waitingSubmitted true a) (l ++ [me_replace o; me_admit o']) false true f.
Proof. accounting_step. Qed.

Lemma accounts_discard a l o w f :
  accounts a l w true f -> accounts (discardedReady a) (l ++ [me_discard o]) w false f.
Proof. accounting_step. Qed.

Lemma accounts_drop a l o w f :
  accounts a l w true f -> accounts (discardedShutdownReady a) (l ++ [me_drop o]) w false f.
Proof. accounting_step. Qed.

Lemma accounts_take a l o w :
  accounts a l w true false -> accounts (mappingStarted a) (l ++ [me_take o]) w false true.
Proof. accounting_step. Qed.

Lemma accounts_publish a l o w r :
  accounts a l w r true -> accounts (mappingPublished a) (l ++ [me_publish o]) w r false.
Proof. accounting_step. Qed.

Lemma accounts_fail a l o w r :
  accounts a l w r true -> accounts (mappingFailed a) (l ++ [me_fail o]) w r false.
Proof. accounting_step. Qed.

(** Events that are no business of the accounting. *)
Definition silent_event (e : mapping_event O) : bool :=
  match e with me_reset_begin | me_reset_end | me_fatal | me_close => true | _ => false end.

Lemma accounts_silent a l l' e w r f :
  silent_event e = true -> accounts a (l ++ l') w r f -> accounts a (l ++ e :: l') w r f.
Proof.
  intros He [Hc Hw Hr Hf E0 E1 E2 E3].
  assert (forall g, tally g (l ++ e :: l') = tally g (l ++ l')) as Ht.
  { intros g. unfold tally. rewrite !count_of_app, count_of_cons. by destruct e, g. }
  split; rewrite ?Ht; try done. intros g Hg. rewrite Ht. auto.
Qed.

Lemma tally_none f l : (forall e, counted f e = false) -> tally f l = 0.
Proof.
  intros Hf. unfold tally. induction l as [|e l IH]; [done|]. by rewrite count_of_cons, Hf, IH.
Qed.

Lemma accounts_hold a l w r f : accounts a l w r f -> allInvariantsHold a = true.
Proof.
  intros [Hc Hw Hr Hf E0 E1 E2 E3].
  assert (tally f_replaced_waiting l = 0 /\ tally f_violation_count l = 0) as [Z1 Z2].
  { split; apply tally_none; by intros []. }
  pose proof (fun g H => Hc g H) as G.
  pose proof (G f_received eq_refl) as G1. pose proof (G f_rejected_before_inbox eq_refl) as G2.
  pose proof (G f_accepted_to_inbox eq_refl) as G3. pose proof (G f_replaced_waiting eq_refl) as G4.
  pose proof (G f_discarded_waiting eq_refl) as G5. pose proof (G f_ready_submitted eq_refl) as G6.
  pose proof (G f_replaced_ready eq_refl) as G7. pose proof (G f_discarded_ready eq_refl) as G8.
  pose proof (G f_discarded_shutdown_ready eq_refl) as G9. pose proof (G f_mapping_started eq_refl) as G10.
  pose proof (G f_mapping_published eq_refl) as G11. pose proof (G f_mapping_failed eq_refl) as G12.
  pose proof (G f_violation_count eq_refl) as G13. cbn in *. clear G Hc.
  unfold allInvariantsHold, inputInvariantHolds, inboxInvariantHolds, readyInvariantHolds,
    mappingInvariantHolds, u64_add.
  rewrite G1, G2, G3, G4, G5, G6, G7, G8, G9, G10, G11, G12, G13, Hw, Hr, Hf, Z1, Z2.
  rewrite ?Zplus_mod_idemp_l, ?Zplus_mod_idemp_r.
  rewrite !andb_true_iff, !Z.eqb_eq. split_and!; try done;
    rewrite ?E0, ?E1, ?E2, ?E3; clear; zlia.
Qed.


(** ** The abstract inbox *)

Record inbox : Type := mkInbox {
  ib_slot : option O;
  ib_server : option O;
  ib_floor : Z;
  ib_barrier : bool;
  ib_open : bool
}.

Variable order : option ((O -> option Z) * Z).
Variable handler : bool.

(** An observation in order above the floor. *)
Definition above (floor : Z) (o : O) : Prop :=
  match order with
  | Some (key, _) => exists k, key o = Some k /\ floor < k
  | None => True
  end.

Definition floor_after (o : O) (floor : Z) : Z :=
  match order with Some (key, _) => default floor (key o) | None => floor end.

(** What each event requires. *)
Definition ib_pre (m : inbox) (e : mapping_event O) : Prop :=
  match e with
  | me_admit o => ib_open m = true /\ ib_barrier m = false /\ ib_slot m = None /\ above (ib_floor m) o
  | me_replace o => ib_open m = true /\ ib_barrier m = false /\ ib_slot m = Some o
  | me_take o => ib_slot m = Some o /\ ib_server m = None
  | me_publish o | me_fail o => ib_server m = Some o
  | me_discard o | me_drop o => ib_slot m = Some o
  | me_reset_begin => ib_barrier m = false
  | me_reset_end => ib_barrier m = true /\ ib_slot m = None /\ ib_server m = None
  | me_reject | me_accept _ | me_refuse _ _ | me_fatal | me_close => True
  end.

(** What each event does. *)
Definition ib_post (m : inbox) (e : mapping_event O) : inbox :=
  let '(mkInbox slot server floor barrier open) := m in
  match e with
  | me_admit o => mkInbox (Some o) server (floor_after o floor) barrier open
  | me_replace _ | me_discard _ | me_drop _ => mkInbox None server floor barrier open
  | me_take o => mkInbox None (Some o) floor barrier open
  | me_publish _ | me_fail _ => mkInbox slot None floor barrier open
  | me_reset_begin => mkInbox slot server floor true open
  | me_reset_end => mkInbox slot server 0 false open
  | me_close => mkInbox slot server floor barrier false
  | me_reject | me_accept _ | me_refuse _ _ | me_fatal => m
  end.

Fixpoint legal (m : inbox) (es : list (mapping_event O)) : Prop :=
  match es with
  | [] => True
  | e :: es => ib_pre m e /\ legal (ib_post m e) es
  end.

Lemma legal_app m es1 es2 :
  legal m (es1 ++ es2) <-> legal m es1 /\ legal (run ib_post m es1) es2.
Proof. revert m. induction es1 as [|e es1 IH]; intros m; simpl; [tauto|]. rewrite IH. tauto. Qed.

Definition inbox_init : inbox :=
  mkInbox None None (match order with Some (_, k) => k | None => 0 end) false true.

(** The inbox a worker implements; the server is the thread inside [process_]. *)
Definition pc_server (pc : mapping_pc O) : option O :=
  match pc with mProcess o => Some o | _ => None end.

Definition inbox_of (s : mapping_system O) : inbox :=
  let w := ms_worker s in
  mkInbox (mw_ready w) (pc_server (ms_pc s)) (mw_highest_admitted_key w) (mw_resetting w)
    (mw_accepting w).

(** ** The invariant *)

Definition pc_in_flight (pc : mapping_pc O) : bool :=
  match pc with mProcess _ | mHandler | mFailed | mClear => true | _ => false end.
Definition pc_ended (pc : mapping_pc O) : bool :=
  match pc with mExited | mNotify true => true | _ => false end.
Definition pc_none (pc : mapping_pc O) : bool := match pc with mNone => true | _ => false end.
Definition pc_notify (pc : mapping_pc O) : bool := match pc with mNotify _ => true | _ => false end.
Definition in_reset (i : ingress_pc O) : bool :=
  match i with iBlocked | iWoken => true | _ => false end.
Definition holds_item (i : ingress_pc O) : bool :=
  match i with iAccepted _ => true | _ => false end.

Record mapping_inv (s : mapping_system O) : Prop := {
  mi_accounts : accounts (ms_accounting s) (ms_log s) (holds_item (ms_ingress s))
                  (has (mw_ready (ms_worker s))) (has (pc_server (ms_pc s)));
  mi_legal : legal inbox_init (ms_log s);
  mi_inbox : run ib_post inbox_init (ms_log s) = inbox_of s;
  mi_key : mw_order_key (ms_worker s) = fst <$> order;
  mi_flight : mw_in_flight (ms_worker s) = pc_in_flight (ms_pc s);
  mi_started : mw_started (ms_worker s) = negb (pc_none (ms_pc s));
  mi_accepting : mw_accepting (ms_worker s) =
    negb (mw_fatal (ms_worker s)) && negb (mw_shutdown_started (ms_worker s));
  mi_shutdown : mw_shutdown_started (ms_worker s) = negb (ms_shutdown s ==? dIdle);
  mi_stop : ms_stop s =
    match ms_shutdown s with dIdle | dEntered => false | _ => mw_started (ms_worker s) end;
  mi_resetting : mw_resetting (ms_worker s) = in_reset (ms_ingress s);
  mi_barrier : mw_resetting (ms_worker s) = true -> mw_ready (ms_worker s) = None;
  mi_blocked : match ms_pc s with
               | mBlocked => ms_stop s = false /\ mw_ready (ms_worker s) = None
               | _ => True
               end;
  mi_reset_blocked : match ms_ingress s with
                     | iBlocked => pc_in_flight (ms_pc s) || pc_notify (ms_pc s) = true
                     | _ => True
                     end;
  mi_ended : pc_ended (ms_pc s) = true ->
    mw_accepting (ms_worker s) = false /\ mw_ready (ms_worker s) = None;
  mi_unstarted : mw_shutdown_started (ms_worker s) = true -> ms_pc s = mNone ->
    mw_ready (ms_worker s) = None;
  mi_joined : ms_shutdown s = dJoined -> ms_pc s = mNone \/ ms_pc s = mExited;
  mi_joined_flag : mw_joined (ms_worker s) = (ms_shutdown s ==? dJoined)
}.

Lemma mapping_inv_init : mapping_inv (mapping_init order).
Proof.
  destruct order as [[k v]|] eqn:Ho; split; simpl; rewrite ?Ho; try done;
    try apply accounts_initial; unfold inbox_init, inbox_of; rewrite ?Ho; done.
Qed.

(** Extending the log by the events of one transition. *)
Lemma log_extends l es m m' :
  legal inbox_init l -> run ib_post inbox_init l = m ->
  legal m es -> run ib_post m es = m' ->
  legal inbox_init (l ++ es) /\ run ib_post inbox_init (l ++ es) = m'.
Proof. intros H1 <- H3 <-. rewrite legal_app, run_app. auto. Qed.

Lemma accounts_tail a l l' w r f :
  forallb silent_event l' = true -> accounts a l w r f -> accounts a (l ++ l') w r f.
Proof.
  intros Hs Ha. induction l' as [|e l' IH]; [by rewrite app_nil_r|].
  simpl in Hs. apply andb_true_iff in Hs as [He Hs]. apply accounts_silent; auto.
Qed.

Lemma accounts_then a l e l' w r f :
  forallb silent_event l' = true -> accounts a (l ++ [e]) w r f -> accounts a (l ++ e :: l') w r f.
Proof. intros Hs Ha. change (e :: l') with ([e] ++ l'). rewrite app_assoc. by apply accounts_tail. Qed.

Create HintDb mapping discriminated.
#[local] Hint Resolve accounts_reject accounts_accept accounts_refuse accounts_refuse_order
  accounts_admit accounts_replace accounts_discard accounts_drop accounts_take accounts_publish
  accounts_fail : mapping.

#[local] Arguments run : simpl never.

(** Take the invariant of a state apart, and put that of the next one together:
    the accounting by its lemma, the history by replay, the flags by cases. *)
Ltac minv_open :=
  intros [Hacc Hleg Hib Hkey Hfl Hst Hop Hsh Hstop Hres Hbar Hblk Hrblk Hend Hun Hjo Hjf];
  match type of Hib with run _ _ (ms_log ?s) = _ => destruct s as [[key ready acc started fatal shut joined resetting flight highest] a pc i sd stop log]
  end;
  unfold inbox_of in Hib; simpl in *.

Ltac minv_log :=
  rewrite ?app_nil_r, ?legal_app, ?run_app;
  first
    [done
    |match goal with H : run ib_post inbox_init _ = _ |- _ => rewrite H end; unfold run; simpl;
     try done; try (split; [done|])].

Ltac minv_accounts :=
  rewrite ?app_nil_r;
  first
    [done|solve [eauto with mapping]
    |apply accounts_then; [done|]; solve [eauto with mapping]
    |apply accounts_silent; [done|]; rewrite ?app_nil_r; solve [done|eauto with mapping]].

Ltac minv_close :=
  unfold apply_effect, set_pcs; simpl;
  split; simpl; unfold inbox_of; simpl;
  [minv_accounts
  |minv_log|minv_log
  |try done; try (match goal with J : _ = dJoined -> _ |- _ = dJoined -> _ =>
     let H := fresh in intros H; first [by auto|by destruct (J H)] end)..].

(** The observation becomes READY, after one that waited is replaced. *)
Lemma admit_inv s o floor :
  mapping_inv s -> ms_ingress s = iAccepted o ->
  mw_accepting (ms_worker s) = true -> mw_resetting (ms_worker s) = false ->
  above (mw_highest_admitted_key (ms_worker s)) o ->
  floor = floor_after o (mw_highest_admitted_key (ms_worker s)) ->
  mapping_inv (apply_effect (admit_ready o (mw_set_highest floor (ms_worker s)) (ms_accounting s))
                 (wake_worker (ms_pc s)) iIdle s).
Proof.
  minv_open. intros -> -> -> Hab ->. simpl in *. unfold admit_ready.
  assert (pc_ended pc = false) as He by (destruct (pc_ended pc); [by destruct Hend|done]).
  assert (shut = false) as Hs by (by destruct fatal, shut). subst shut.
  destruct ready as [old|]; simpl; destruct pc; minv_close; try done; naive_solver.
Qed.

(** A callback of the submission has thrown. *)
Lemma submit_fatal_inv s o :
  mapping_inv s -> ms_ingress s = iAccepted o ->
  mw_accepting (ms_worker s) = true -> mw_resetting (ms_worker s) = false ->
  mapping_inv (apply_effect (submit_fatal o (ms_worker s) (ms_accounting s)) (ms_pc s) iIdle s).
Proof.
  minv_open. intros -> -> ->. simpl in *.
  assert (pc_ended pc = false) as He by (destruct (pc_ended pc); [by destruct Hend|done]).
  assert (shut = false) as Hs by (by destruct fatal, shut). subst shut.
  unfold submit_fatal. minv_close. by rewrite He.
Qed.

Lemma submit_ordered_inv s o :
  mapping_inv s -> ms_ingress s = iAccepted o ->
  mw_accepting (ms_worker s) = true -> mw_resetting (ms_worker s) = false ->
  let r := submit_ordered o (ms_worker s) (ms_accounting s) in
  mapping_inv (apply_effect r.2 (if r.1 then wake_worker (ms_pc s) else ms_pc s) iIdle s).
Proof.
  intros Hi Ho Ha Hr. unfold submit_ordered. pose proof (mi_key s Hi) as Hk. rewrite Hk.
  pose proof (admit_inv s o (floor_after o (mw_highest_admitted_key (ms_worker s))) Hi Ho Ha Hr) as Hadm.
  unfold above, floor_after in Hadm. destruct order as [[kf v]|]; simpl in *.
  - destruct (kf o) as [k|]; [|by apply submit_fatal_inv]. simpl in Hadm. guard_case; simpl.
    + revert Hi Ho. minv_open. intros ->. minv_close.
    + apply Hadm; [|done]. exists k. bsplit. auto.
  - replace (ms_worker s) with (mw_set_highest (mw_highest_admitted_key (ms_worker s)) (ms_worker s)) at 1
      by (by destruct (ms_worker s)).
    by apply Hadm.
Qed.

Lemma submit_inv s o validate :
  mapping_inv s -> ms_ingress s = iAccepted o ->
  let r := submitFromWaiting validate o (ms_worker s) (ms_accounting s) in
  mapping_inv (apply_effect r.2 (if r.1 then wake_worker (ms_pc s) else ms_pc s) iIdle s).
Proof.
  intros Hi Ho. unfold submitFromWaiting. destruct (_ || _) eqn:E.
  { revert Hi Ho. minv_open. intros ->. minv_close. }
  apply orb_false_iff in E as [E Hr]. apply orb_false_iff in E as [Ha%negb_false_iff _].
  destruct validate as [[[|]|]|].
  - by apply submit_ordered_inv.
  - revert Hi Ho. minv_open. intros ->. minv_close.
  - by apply submit_fatal_inv.
  - by apply submit_ordered_inv.
Qed.

(** ** Resets *)

Lemma reset_wait_inv s :
  mapping_inv s -> ms_ingress s = iWoken -> mapping_inv (reset_wait s).
Proof.
  minv_open. intros ->. simpl in *. unfold reset_wait; simpl. destruct flight eqn:Hf.
  - minv_close. by rewrite <- Hfl.
  - specialize (Hbar Hres). subst ready. destruct pc; minv_close; try naive_solver.
Qed.

Lemma reset_begin_inv s :
  mapping_inv s -> ms_ingress s = iIdle ->
  mapping_inv (apply_effect (reset_begin (ms_worker s) (ms_accounting s)) (wake_worker (ms_pc s))
                 iWoken s).
Proof.
  minv_open. intros ->. simpl in *. unfold reset_begin, empty_ready; simpl.
  destruct ready as [old|]; simpl; destruct pc; minv_close; try naive_solver.
Qed.

(** ** Steps of the worker thread *)

Lemma worker_wait_inv s validate :
  mapping_inv s -> ms_pc s = mWait -> mapping_inv (worker_wait validate s).
Proof.
  minv_open. intros ->. simpl in *. unfold worker_wait, empty_ready, wait_fatal, eff_then; simpl.
  destruct stop.
  - assert (acc = false) as -> by (subst shut; rewrite Hop; destruct sd; try done; apply andb_false_r).
    destruct ready as [old|]; minv_close.
  - destruct ready as [o|]; [|minv_close].
    destruct validate as [[[|]|]|]; minv_close; by destruct i.
Qed.

Lemma callback_failed_inv s :
  mapping_inv s -> ms_pc s = mFailed ->
  mapping_inv (apply_effect (callback_failed (ms_worker s) (ms_accounting s)) (mNotify true)
                 (ms_ingress s) s).
Proof.
  minv_open. intros ->. simpl in *. unfold callback_failed, empty_ready; simpl.
  destruct ready as [old|], i; minv_close; try naive_solver.
Qed.

(** ** Every step *)

Lemma plain_step_inv s x s' :
  mapping_inv s -> mapping_step handler s x = Some s' ->
  match x with
  | m_start | m_reject | m_accept _ | m_shutdown | m_request_stop | m_notify_all | m_join
  | m_spurious_worker | m_spurious_reset | m_process _ | m_handler _ | m_worker_notify => True
  | _ => False
  end -> mapping_inv s'.
Proof.
  minv_open. intros Hstep. destruct x; try done; intros _; simpl in Hstep.
  - unfold mapping_start in Hstep. simpl in Hstep. destruct (started || shut) eqn:E.
    + injection Hstep as <-. by split.
    + injection Hstep as <-. apply orb_false_iff in E as [-> ->]. destruct pc; try done.
      minv_close; [by destruct sd|]. intros Hd. by rewrite Hd in Hsh.
  - injection Hstep as <-. minv_close.
  - destruct i; try done. injection Hstep as <-. minv_close.
  - destruct shut; [done|]. injection Hstep as <-. unfold mapping_shutdown_begin, empty_ready. simpl.
    destruct sd; try done. simpl in *.
    destruct started; [|destruct ready]; minv_close; rewrite ?andb_false_r; try done;
      try (by destruct pc). intros H. by destruct (Hend H).
  - destruct sd; try done. injection Hstep as <-. destruct started, pc; try done; minv_close.
  - destruct sd; try done. injection Hstep as <-. destruct i, pc; try done; minv_close.
  - destruct sd; try done; destruct pc; try done; injection Hstep as <-; minv_close.
  - destruct pc; try done. injection Hstep as <-. minv_close.
  - destruct i; try done. injection Hstep as <-. minv_close.
  - destruct pc; try done. destruct outcome; [destruct handler|]; injection Hstep as <-; minv_close.
  - destruct pc; try done. injection Hstep as <-. destruct outcome; minv_close.
  - destruct pc as [| | | | | | |failed|]; try done. injection Hstep as <-. destruct failed, i; minv_close.
Qed.

Lemma mapping_inv_step s x s' :
  mapping_inv s -> mapping_step handler s x = Some s' -> mapping_inv s'.
Proof.
  intros Hi Hstep. destruct x; try (by eapply plain_step_inv); simpl in Hstep.
  - destruct (ms_ingress s) eqn:E; try done. injection Hstep as <-. by apply submit_inv.
  - destruct (ms_ingress s) eqn:E; try done. destruct (mw_shutdown_started _); injection Hstep as <-; [done|].
    pose proof (reset_begin_inv s Hi E) as Hr. apply reset_wait_inv in Hr; [|done]. exact Hr.
  - destruct (ms_ingress s) eqn:E; try done. injection Hstep as <-. by apply reset_wait_inv.
  - destruct (ms_pc s) eqn:E; try done. injection Hstep as <-. by apply worker_wait_inv.
  - destruct (ms_pc s) eqn:E; try done; injection Hstep as <-; [by apply callback_failed_inv|].
    revert Hi E. minv_open. intros ->. destruct i; minv_close.
Qed.

Lemma mapping_reachable_inv s : mapping_reachable order handler s -> mapping_inv s.
Proof. induction 1; eauto using mapping_inv_init, mapping_inv_step. Qed.

(** ** Exact accounting *)

(** C21. In every reachable state, under every interleaving of the ingress, the worker
    thread, resets and the shutdown, the accounting is exact: no violation was
    recorded and all invariants the snapshot can be asked for hold; the gauges
    say where observations are; every counter is the number of its events
    modulo [2^64]; and every accepted observation is refused, replaced,
    discarded, dropped, published, failed, or in one of the three places. *)
Theorem mapping_accounting_exact (s : mapping_system O) :
  mapping_reachable order handler s ->
  let a := ms_accounting s in
  let n f := tally f (ms_log s) in
  allInvariantsHold a = true /\
  ac_waiting a = Z.b2z (holds_item (ms_ingress s)) /\
  ac_ready a = occupied (mw_ready (ms_worker s)) /\
  ac_in_flight a = occupied (pc_server (ms_pc s)) /\
  (forall f, is_gauge f = false -> acc_get f a = n f mod 2 ^ 64) /\
  n f_accepted_to_inbox =
    n f_discarded_waiting + n f_replaced_ready + n f_discarded_ready
    + n f_discarded_shutdown_ready + n f_mapping_published + n f_mapping_failed
    + ac_waiting a + ac_ready a + ac_in_flight a.
Proof.
  intros Hs%mapping_reachable_inv. pose proof (mi_accounts s Hs) as Ha. cbv zeta.
  split; [by eapply accounts_hold|]. destruct Ha as [Hc Hw Hr Hf E0 E1 E2 E3].
  rewrite Hw, Hr, Hf. unfold occupied. split; [done|].
  split; [by destruct (has _)|]. split; [by destruct (has _)|]. split; [done|]. lia.
Qed.

(** ** The order of processing *)

(** What the history says after [l1], as a machine state. *)
Lemma log_at s l1 l2 :
  mapping_inv s -> ms_log s = l1 ++ l2 ->
  legal (run ib_post inbox_init l1) l2 /\ legal inbox_init l1.
Proof. intros Hi Hl. pose proof (mi_legal s Hi) as H. rewrite Hl, legal_app in H. tauto. Qed.

Definition is_reset_end (e : mapping_event O) : bool :=
  match e with me_reset_end => true | _ => false end.

(** Everything above [k]: the floor is at least [k], and what waits is above it. *)
Definition past (key : O -> option Z) (k : Z) (m : inbox) : Prop :=
  k <= ib_floor m /\ (forall o, ib_slot m = Some o -> exists k', key o = Some k' /\ k < k').

Lemma past_step key v k m e :
  order = Some (key, v) -> is_reset_end e = false -> ib_pre m e -> past key k m ->
  past key k (ib_post m e).
Proof.
  intros Ho He Hpre [Hf Hs]. destruct m as [slot server floor barrier open].
  destruct e; try done; simpl in *; try (split; [done|]; naive_solver).
  destruct Hpre as (_ & _ & _ & Hab). unfold above, floor_after in *. rewrite Ho in *.
  destruct Hab as (k' & Hk & Hlt). rewrite Hk. split; [simpl; lia|].
  intros o' [= <-]. exists k'. split; [done|lia].
Qed.

(** The waiting observation never exceeds the floor. *)
Definition slot_below (key : O -> option Z) (m : inbox) : Prop :=
  forall o, ib_slot m = Some o -> exists k, key o = Some k /\ k <= ib_floor m.

Lemma slot_below_run key v es m :
  order = Some (key, v) -> legal m es -> slot_below key m -> slot_below key (run ib_post m es).
Proof.
  intros Ho. revert m. induction es as [|e es IH]; intros m; [done|]. intros [Hp Hl] Hs.
  apply IH; [done|]. destruct m as [slot server floor barrier open].
  destruct e; simpl in *; try (intros o' H; by (done || apply Hs)).
  - destruct Hp as (_ & _ & _ & Hab). unfold above, floor_after in *. rewrite Ho in *.
    destruct Hab as (k' & Hk & Hlt). rewrite Hk. intros o' [= <-]. exists k'. split; [done|simpl; lia].
  - destruct Hp as (_ & -> & _). by intros o'.
Qed.

Lemma past_run key v k es m :
  order = Some (key, v) -> forallb (fun e => negb (is_reset_end e)) es = true ->
  legal m es -> past key k m -> past key k (run ib_post m es).
Proof.
  intros Ho. revert m. induction es as [|e es IH]; intros m; [done|]. simpl.
  intros [He Hes]%andb_true_iff [Hp Hl] Hm. apply IH; [done..|].
  eapply past_step; [done| |done..]. by destruct (is_reset_end e).
Qed.

(** Between two resets observations are processed in strictly increasing order of
    their key (their stamp): a late observation is never processed after a newer
    one, whatever was replaced or discarded in between. *)
Theorem processed_in_order (s : mapping_system O) key v l1 o1 l2 o2 l3 :
  mapping_reachable order handler s -> order = Some (key, v) ->
  ms_log s = l1 ++ me_take o1 :: l2 ++ me_take o2 :: l3 ->
  forallb (fun e => negb (is_reset_end e)) l2 = true ->
  exists k1 k2, key o1 = Some k1 /\ key o2 = Some k2 /\ k1 < k2.
Proof.
  intros Hs%mapping_reachable_inv Ho Hl Hr.
  destruct (log_at _ _ _ Hs Hl) as [[[Hslot _] Hl2] Hl1]. simpl in Hl2.
  apply (slot_below_run key v _ _ Ho) in Hl1 as Hb;
    [|intros o'; unfold inbox_init; by rewrite Ho].
  destruct (Hb _ Hslot) as (k1 & Hk1 & Hle).
  apply legal_app in Hl2 as [Hl2 [[Hslot2 _] _]].
  assert (past key k1 (ib_post (run ib_post inbox_init l1) (me_take o1))) as Hp.
  { unfold past. destruct (run ib_post inbox_init l1). by simpl in *. }
  destruct (proj2 (past_run key v k1 _ _ Ho Hr Hl2 Hp) _ Hslot2) as (k2 & Hk2 & Hlt).
  by exists k1, k2.
Qed.

(** ** The reset barrier *)

(** What is waiting or being processed was admitted in [l]. *)
Definition admitted_in (l : list (mapping_event O)) (m : inbox) : Prop :=
  forall o, ib_slot m = Some o \/ ib_server m = Some o -> me_admit o ∈ l.

Lemma admitted_run l es m :
  legal m es -> admitted_in l m -> admitted_in (l ++ es) (run ib_post m es).
Proof.
  revert l m. induction es as [|e es IH]; intros l m; [by rewrite app_nil_r|]. intros [Hp Hl] Hm.
  change (e :: es) with ([e] ++ es). rewrite app_assoc. apply (IH (l ++ [e])); [done|].
  assert (forall o, me_admit o ∈ l -> me_admit o ∈ l ++ [e]) as Hin by (intros; apply elem_of_app; auto).
  destruct m as [slot server floor barrier open]. intros o.
  destruct e; simpl in *; intros [H|H]; try done; try (apply Hin, Hm; simpl; by auto).
  - injection H as <-. apply elem_of_app. right. by left.
  - injection H as <-. apply Hin, Hm. left. naive_solver.
Qed.

Definition processes (o : O) (e : mapping_event O) : Prop :=
  e = me_take o \/ e = me_publish o \/ e = me_fail o.

Lemma barrier_holds es m :
  legal m es -> ib_barrier m = true -> forallb (fun e => negb (is_reset_end e)) es = true ->
  forall o, me_admit o ∉ es.
Proof.
  revert m. induction es as [|e es IH]; intros m; [intros _ _ _ o; apply not_elem_of_nil|]. simpl.
  intros [Hp Hl] Hb [He Hes]%andb_true_iff o. apply not_elem_of_cons. split.
  - intros <-. simpl in Hp. destruct Hp as (_ & Hb' & _). congruence.
  - apply (IH (ib_post m e)); [done| |done].
    destruct m as [slot server floor barrier open], e; try done; simpl in *; congruence.
Qed.

(** A reset is a barrier: while it waits nothing is admitted, and whatever is taken,
    published or failed after it has returned was admitted after it, so no
    observation of before a reset is mapped after it. *)
Theorem reset_is_a_barrier (s : mapping_system O) l1 l2 l3 :
  mapping_reachable order handler s ->
  ms_log s = l1 ++ me_reset_begin :: l2 ++ me_reset_end :: l3 ->
  forallb (fun e => negb (is_reset_end e)) l2 = true ->
  (forall o, me_admit o ∉ l2) /\
  (forall o e la lb, l3 = la ++ e :: lb -> processes o e -> me_admit o ∈ la).
Proof.
  intros Hs%mapping_reachable_inv Hl Hr. destruct (log_at _ _ _ Hs Hl) as [[Hb0 Hl2] _].
  simpl in Hl2. apply legal_app in Hl2 as [Hl2 [(Hb & Hslot & Hserver) Hl3]]. split.
  - intros o. eapply barrier_holds; [done| |done]. by destruct (run ib_post inbox_init l1).
  - intros o e la lb -> He. apply legal_app in Hl3 as [Hla [Hpe _]].
    apply (admitted_run []) in Hla; simpl in *.
    + apply Hla. destruct He as [-> |[-> | ->]]; simpl in Hpe; naive_solver.
    + intros o'. destruct (run ib_post _ l2). simpl in *. naive_solver.
Qed.

(** ** Progress *)

(** The steps the threads owe: an accepted observation is submitted, a reset and
    a shutdown go on, the worker runs.  New calls and spurious wake-ups come
    from outside. *)
Definition owed_action (x : mapping_action O) : bool :=
  match x with
  | m_submit _ | m_reset_wait | m_request_stop | m_notify_all | m_join | m_wait _ | m_process _
  | m_handler _ | m_cleanup | m_worker_notify => true
  | _ => false
  end.

Definition mapping_pc_rank (pc : mapping_pc O) : nat :=
  match pc with
  | mNone | mBlocked | mExited => 0 | mWait => 1 | mNotify _ => 4 | mClear | mFailed => 5
  | mHandler => 6 | mProcess _ => 7
  end.
Definition ingress_rank (i : ingress_pc O) : nat :=
  match i with iIdle | iBlocked => 0 | iWoken => 2 | iAccepted _ => 9 end.
Definition mshutdown_rank (d : mshutdown_pc) : nat :=
  match d with dEntered => 7 | dStopRequested => 5 | dNotified => 1 | dIdle | dJoined => 0 end.

Definition mapping_measure (s : mapping_system O) : nat :=
  mapping_pc_rank (ms_pc s) + ingress_rank (ms_ingress s) + mshutdown_rank (ms_shutdown s)
  + (if has (mw_ready (ms_worker s)) then 7 else 0).

Lemma wake_worker_rank pc : (mapping_pc_rank (wake_worker pc) <= S (mapping_pc_rank pc))%nat.
Proof. destruct pc; simpl; lia. Qed.
Lemma wake_reset_rank i : (ingress_rank (wake_reset i) <= 2 + ingress_rank i)%nat.
Proof. destruct i; simpl; lia. Qed.

(** A submission leaves the slot alone or fills it. *)
Lemma submit_ready v (o : O) w a :
  let r := submitFromWaiting v o w a in
  mw_ready (eff_worker r.2) = mw_ready w \/ has (mw_ready (eff_worker r.2)) = true.
Proof.
  unfold submitFromWaiting, submit_ordered. destruct (_ || _); [by left|].
  destruct v as [[[]|]|]; try (by left); (destruct (mw_order_key w) as [kf|]; [|by right]);
    (destruct (kf o); [|by left]); guard_case; (by left) || (by right).
Qed.

Lemma owed_decreases s x s' :
  mapping_inv s -> owed_action x = true -> mapping_step handler s x = Some s' ->
  (mapping_measure s' < mapping_measure s)%nat.
Proof.
  intros Hi Hx Hstep. unfold mapping_measure. pose proof (wake_worker_rank (ms_pc s)) as W.
  pose proof (wake_reset_rank (ms_ingress s)) as R.
  destruct x; try discriminate Hx; simpl in Hstep.
  - destruct (ms_ingress s) eqn:E; try done. injection Hstep as <-. simpl.
    pose proof (submit_ready validate o (ms_worker s) (ms_accounting s)) as Hr. cbv zeta in Hr.
    destruct (submitFromWaiting validate o (ms_worker s) (ms_accounting s)) as [b [w' a' es]]. simpl in *.
    destruct Hr as [-> | ->]; destruct b, (has (mw_ready (ms_worker s))); simpl; lia.
  - destruct (ms_ingress s) eqn:E; try done. injection Hstep as <-. unfold reset_wait.
    destruct (mw_in_flight _); simpl; rewrite ?E; simpl; lia.
  - destruct (ms_shutdown s); try done. injection Hstep as <-. simpl.
    destruct (mw_started _); lia.
  - destruct (ms_shutdown s); try done. injection Hstep as <-. simpl. lia.
  - destruct (ms_shutdown s), (ms_pc s); try done; injection Hstep as <-; simpl; lia.
  - destruct (ms_pc s) eqn:E; try done. injection Hstep as <-.
    unfold worker_wait, empty_ready, wait_fatal, take_ready, eff_then.
    destruct (ms_stop s); [destruct (mw_ready _) eqn:Er; simpl; rewrite ?Er; simpl; lia|].
    destruct (mw_ready (ms_worker s)) eqn:Er; [|simpl; rewrite Er; simpl; lia].
    unfold empty_ready. rewrite Er. destruct validate as [[[]|]|]; simpl; lia.
  - destruct (ms_pc s); try done. destruct outcome; [destruct handler|]; injection Hstep as <-; simpl; lia.
  - destruct (ms_pc s); try done. injection Hstep as <-. destruct outcome; simpl; lia.
  - destruct (ms_pc s); try done; injection Hstep as <-; [|simpl; lia].
    unfold callback_failed, empty_ready. simpl.
    destruct (mw_ready (ms_worker s)) eqn:Er; simpl; rewrite ?Er; simpl; lia.
  - destruct (ms_pc s) as [| | | | | | |failed|]; try done. injection Hstep as <-.
    destruct failed; simpl in *; lia.
Qed.

(** Left alone, the mapping worker always comes to rest, and only where it should.
    Every step the threads owe lowers a measure (each callback returns or
    throws in one step); and where no thread can take a step, no accepted
    observation is left unsubmitted, no reset is waiting, nothing is being
    processed, an observation waits only if [start] was never called, and a
    shutdown that was entered has joined an ended worker. *)
Theorem mapping_comes_to_rest (s : mapping_system O) :
  mapping_reachable order handler s ->
  (forall x s', owed_action x = true -> mapping_step handler s x = Some s' ->
     (mapping_measure s' < mapping_measure s)%nat) /\
  ((forall x, owed_action x = true -> mapping_step handler s x = None) ->
   ms_ingress s = iIdle /\ mw_resetting (ms_worker s) = false /\
   mw_in_flight (ms_worker s) = false /\
   (is_Some (mw_ready (ms_worker s)) -> ms_pc s = mNone /\ ms_shutdown s = dIdle) /\
   (mw_shutdown_started (ms_worker s) = true ->
    mw_joined (ms_worker s) = true /\ (ms_pc s = mNone \/ ms_pc s = mExited))).
Proof.
  intros Hs%mapping_reachable_inv. split; [intros x s' Hx; by apply owed_decreases|].
  intros Hstuck. pose proof (Hstuck (m_submit None) eq_refl) as S1. pose proof (Hstuck m_reset_wait eq_refl) as S2.
  pose proof (Hstuck m_request_stop eq_refl) as S3. pose proof (Hstuck m_notify_all eq_refl) as S4.
  pose proof (Hstuck m_join eq_refl) as S5. pose proof (Hstuck (m_wait None) eq_refl) as S6.
  pose proof (Hstuck (m_process cb_throws) eq_refl) as S7.
  pose proof (Hstuck (m_handler cb_throws) eq_refl) as S8. pose proof (Hstuck m_cleanup eq_refl) as S9.
  pose proof (Hstuck m_worker_notify eq_refl) as S10. clear Hstuck. simpl in *.
  revert Hs. minv_open.
  assert (pc = mNone \/ pc = mBlocked \/ pc = mExited) as Hpc by (destruct pc; auto; done).
  assert (flight = false) as -> by (destruct Hpc as [-> |[-> | ->]]; done).
  assert (i = iIdle) as -> by (destruct i, Hpc as [-> |[-> | ->]]; done).
  simpl in *. subst resetting joined. do 3 (split; [done|]).
  assert (shut = true -> sd = dJoined /\ (pc = mNone \/ pc = mExited)) as Hdone.
  { intros ->. destruct sd; try done; destruct Hpc as [-> |[-> | ->]]; auto; try done;
      simpl in *; destruct Hblk; congruence. }
  split; [|intros H; destruct (Hdone H) as [-> ?]; auto].
  intros Hr. destruct shut.
  - destruct (Hdone eq_refl) as [-> [-> | ->]]; simpl in *.
    + rewrite Hun in Hr by done. by destruct Hr.
    + destruct Hend as [_ ->]; [done|]. by destruct Hr.
  - destruct sd; try done. split; [|done]. destruct Hpc as [-> |[-> | ->]]; [done| |].
    + destruct Hblk as [_ ->]. by destruct Hr.
    + destruct Hend as [_ ->]; [done|]. by destruct Hr.
Qed.
End Accounting.

Arguments legal {O} order m es.
Arguments tally {O} f l.

(** ** Witnesses *)

Section Witnesses.

Fixpoint mapping_exec (handler : bool) (s : mapping_system Z) (xs : list (mapping_action Z))
    : option (mapping_system Z) :=
  match xs with
  | [] => Some s
  | x :: xs => mapping_step handler s x ≫= fun s => mapping_exec handler s xs
  end.

Lemma mapping_exec_reachable order handler s xs s' :
  mapping_reachable order handler s -> mapping_exec handler s xs = Some s' ->
  mapping_reachable order handler s'.
Proof.
  revert s. induction xs as [|x xs IH]; intros s Hs; simpl; [by intros [= <-]|].
  intros (s1 & H1 & H2)%bind_Some. apply (IH s1); [by eapply mr_step|done].
Qed.

(** Observations are their stamps. *)
Definition w_order : option ((Z -> option Z) * Z) := Some (fun stamp => Some stamp, 0).

Definition w_submit (stamp : Z) : list (mapping_action Z) :=
  [m_accept stamp; m_submit (Some (cb_returns true))].

(** The scan 10 is in flight when 20 and 30 arrive and 20 is replaced; a reset
    discards 30 and waits for 10; then scan 5 of the new epoch is processed. *)
Definition w_script : list (mapping_action Z) :=
  [m_start; m_reject] ++ w_submit 10 ++ [m_wait (Some (cb_returns true))]
  ++ w_submit 20 ++ w_submit 30 ++ [m_reset; m_process (cb_returns true); m_handler (cb_returns true);
     m_cleanup; m_worker_notify; m_reset_wait] ++ w_submit 5 ++ [m_wait None; m_process (cb_returns true);
     m_handler (cb_returns true); m_cleanup; m_worker_notify] ++ w_submit 6 ++ w_submit 4 ++
  [m_wait None; m_shutdown].

Definition w_system : mapping_system Z :=
  default (mapping_init w_order) (mapping_exec true (mapping_init w_order) w_script).

Lemma w_reachable : mapping_reachable w_order true w_system.
Proof.
  apply (mapping_exec_reachable _ _ (mapping_init w_order) w_script); [constructor|].
  vm_compute. reflexivity.
Qed.

Lemma w_log : ms_log w_system =
  [me_reject; me_accept 10; me_admit 10; me_take 10; me_accept 20; me_admit 20; me_accept 30;
   me_replace 20; me_admit 30; me_reset_begin; me_discard 30; me_publish 10; me_reset_end;
   me_accept 5; me_admit 5; me_take 5; me_publish 5; me_accept 6; me_admit 6; me_accept 4;
   me_refuse 4 true; me_take 6; me_close].
Proof. vm_compute. reflexivity. Qed.

Lemma mapping_accounting_exact_witness :
  allInvariantsHold (ms_accounting w_system) = true /\
  acc_get f_mapping_published (ms_accounting w_system) = 2.
Proof.
  destruct (mapping_accounting_exact w_order true w_system w_reachable) as (H & _ & _ & _ & Hc & _).
  split; [exact H|]. rewrite (Hc f_mapping_published eq_refl). vm_compute. reflexivity.
Defined.

Lemma processed_in_order_witness : exists k1 k2, Some 5 = Some k1 /\ Some 6 = Some k2 /\ k1 < k2.
Proof.
  exact (processed_in_order w_order true w_system (fun stamp => Some stamp) 0
    [me_reject; me_accept 10; me_admit 10; me_take 10; me_accept 20; me_admit 20; me_accept 30;
     me_replace 20; me_admit 30; me_reset_begin; me_discard 30; me_publish 10; me_reset_end;
     me_accept 5; me_admit 5] 5
    [me_publish 5; me_accept 6; me_admit 6; me_accept 4; me_refuse 4 true] 6 [me_close]
    w_reachable eq_refl w_log eq_refl).
Defined.

Lemma reset_is_a_barrier_witness : me_admit 5 ∈ [me_accept 5; me_admit 5].
Proof.
  exact (proj2 (reset_is_a_barrier w_order true w_system
    [me_reject; me_accept 10; me_admit 10; me_take 10; me_accept 20; me_admit 20; me_accept 30;
     me_replace 20; me_admit 30]
    [me_discard 30; me_publish 10]
    [me_accept 5; me_admit 5; me_take 5; me_publish 5; me_accept 6; me_admit 6; me_accept 4;
     me_refuse 4 true; me_take 6; me_close] w_reachable w_log eq_refl)
    5 (me_take 5) [me_accept 5; me_admit 5]
    [me_publish 5; me_accept 6; me_admit 6; me_accept 4; me_refuse 4 true; me_take 6; me_close]
    eq_refl (or_introl eq_refl)).
Defined.

Lemma mapping_comes_to_rest_witness :
  (mapping_measure (default w_system (mapping_step true w_system (m_process (cb_returns true))))
   < mapping_measure w_system)%nat.
Proof.
  apply (proj1 (mapping_comes_to_rest w_order true w_system w_reachable) (m_process (cb_returns true)));
    [reflexivity|vm_compute; reflexivity].
Defined.

End Witnesses.
