(* ===== verification/MapSnapshot.v ===== *)
(** * The immutable map snapshot

    [mapping/navigation_mapping/.../mapping_world_snapshot.hpp]: the world a
    planner reads, stored as a full grid or as a patch over an older snapshot,
    with its construction checks, cell queries, ray traversal and change
    history; [observedOccupiedTubeIsClear] of
    [navigation_world_model/continuous_clearance.hpp] is here too.

    A [vector<uint8_t>] is a list of bytes; the reads the source does without a
    bounds test are [byte_at].  [noexcept] queries are total functions; a
    traversal loop has fuel and is [None] when the fuel ends first.  The static
    live counters and the vector allocations (reserve, [bad_alloc]) are left
    out, and [UnknownPolicy] has only its two enumerators. *)

From S2P Require Import Prelude Float64 Geometry World WorldGrid.
From Stdlib Require Import Floats.SpecFloat.

(** ** Storage *)

Record PlanningGridLayout : Type := mkLayout {
  pl_resolution_m : f64;
  pl_global_min_index : GridIndex3;
  pl_dimensions : GridIndex3;
  pl_local_center_m : vec3;
  pl_local_size_m : vec3
}.

Record InflatedPlanningGrid : Type := mkInflatedGrid {
  ig_layout : PlanningGridLayout;
  ig_occupied : list Z;
  ig_unknown : list Z
}.

Record PlanningGrid : Type := mkPlanningGrid {
  pg_base_layout : PlanningGridLayout;
  pg_inflated : InflatedPlanningGrid;
  pg_base_state : list Z;
  pg_nearest_offsets : option (list GridIndex3);
  pg_unknown_inflation_enabled : bool;
  pg_virtual_ground_ceiling_enabled : bool;
  pg_virtual_ground_m : f64;
  pg_virtual_ceiling_m : f64;
  pg_inflated_virtual_ground_m : f64;
  pg_inflated_virtual_ceiling_m : f64;
  pg_occupied_inflation_radius_m : f64
}.

Record PlanningGridPatch : Type := mkGridPatch {
  pp_base_layout : PlanningGridLayout;
  pp_inflated : InflatedPlanningGrid;
  pp_base_state : list Z
}.

Definition vector_size (v : list Z) : Z := Z.of_nat (length v).

Definition PlanningGrid_ownedByteSize (g : PlanningGrid) : Z :=
  vector_size (pg_base_state g) + vector_size (ig_occupied (pg_inflated g))
  + vector_size (ig_unknown (pg_inflated g)).

Definition PlanningGridPatch_ownedByteSize (p : PlanningGridPatch) : Z :=
  vector_size (pp_base_state p) + vector_size (ig_occupied (pp_inflated p))
  + vector_size (ig_unknown (pp_inflated p)).

Record WorldChangeRecord : Type := mkChange {
  wc_identity : WorldSnapshotIdentity;
  wc_affected_region : AxisAlignedBox;
  wc_affects_whole_world : bool
}.

(** Newest first. *)
Record WorldChangeHistory : Type := mkHistory { wh_records : list WorldChangeRecord }.

Inductive MappingWorldSnapshot : Type :=
| RootSnapshot (grid : PlanningGrid) (identity : WorldSnapshotIdentity)
    (change_history : option WorldChangeHistory)
| PatchSnapshot (parent : MappingWorldSnapshot) (patch : PlanningGridPatch)
    (identity : WorldSnapshotIdentity) (change_history : option WorldChangeHistory).

Definition snap_identity (s : MappingWorldSnapshot) : WorldSnapshotIdentity :=
  match s with RootSnapshot _ i _ | PatchSnapshot _ _ i _ => i end.

Definition snap_history (s : MappingWorldSnapshot) : option WorldChangeHistory :=
  match s with RootSnapshot _ _ h | PatchSnapshot _ _ _ h => h end.

Fixpoint rootGrid (s : MappingWorldSnapshot) : PlanningGrid :=
  match s with
  | RootSnapshot grid _ _ => grid
  | PatchSnapshot parent _ _ _ => rootGrid parent
  end.

Fixpoint patchDepth (s : MappingWorldSnapshot) : Z :=
  match s with
  | RootSnapshot _ _ _ => 0
  | PatchSnapshot parent _ _ _ => patchDepth parent + 1
  end.

Definition snap_ownedByteSize (s : MappingWorldSnapshot) : Z :=
  match s with
  | RootSnapshot grid _ _ => PlanningGrid_ownedByteSize grid
  | PatchSnapshot _ patch _ _ => PlanningGridPatch_ownedByteSize patch
  end.

(** ** Construction *)

Inductive snapshot_error : Type := se_invalid_argument | se_overflow_error.

Definition idx_coeffs (i : GridIndex3) : list Z := [ix i; iy i; iz i].

Definition fits_int (value : Z) : bool := (i32_min <=? value) && (value <=? i32_max).

(** The loop of [validate_layout] over the axes. *)
Fixpoint count_axes (axes : list (Z * Z)) (count : Z) : snapshot_error + Z :=
  match axes with
  | [] => inr count
  | (global_min, dimension) :: axes =>
      if u64_max / dimension <? count then inl se_overflow_error
      else if negb (fits_int (global_min + dimension - 1)) then inl se_overflow_error
      else count_axes axes (count * dimension)
  end.

Definition layout_count (l : PlanningGridLayout) : snapshot_error + Z :=
  count_axes (zip (idx_coeffs (pl_global_min_index l)) (idx_coeffs (pl_dimensions l))) 1.

Definition resolution_ok (r : f64) : bool := isfinite r && negb (fle r fzero).

Definition dimensions_ok (l : PlanningGridLayout) : bool :=
  negb (existsb (fun d => d <=? 0) (idx_coeffs (pl_dimensions l))).

(** [isStoredCellState(static_cast<CellState>(state))] on a byte *)
Definition stored_byte (state : Z) : bool := (state =? 1) || (state =? 3) || (state =? 4).

Section Construction.
Context `{EigenOps}.

Definition validate_layout (l : PlanningGridLayout) : snapshot_error + Z :=
  if negb (resolution_ok (pl_resolution_m l)) || negb (dimensions_ok l)
     || negb (v_allFinite (pl_local_center_m l)) || negb (v_allFinite (pl_local_size_m l))
     || existsb (fun c => fle c fzero) (v_coeffs (pl_local_size_m l))
  then inl se_invalid_argument
  else layout_count l.

(** The array sizes of [validated] and of [validatedPatch]. *)
Definition sizes_match (unknown_enabled : bool) (base_state : list Z) (inflated : InflatedPlanningGrid)
    (base_count inflated_count : Z) : bool :=
  (vector_size base_state =? base_count) && (vector_size (ig_occupied inflated) =? inflated_count)
  && (if unknown_enabled then vector_size (ig_unknown inflated) =? inflated_count
      else match ig_unknown inflated with [] => true | _ => false end).

Definition metadata_ok (g : PlanningGrid) (identity : WorldSnapshotIdentity) : bool :=
  isfinite (pg_virtual_ground_m g) && isfinite (pg_virtual_ceiling_m g)
  && isfinite (pg_inflated_virtual_ground_m g) && isfinite (pg_inflated_virtual_ceiling_m g)
  && isfinite (pg_occupied_inflation_radius_m g)
  && negb (flt (pg_occupied_inflation_radius_m g) fzero)
  && negb (fge (pg_virtual_ground_m g) (pg_virtual_ceiling_m g))
  && negb (fge (pg_inflated_virtual_ground_m g) (pg_inflated_virtual_ceiling_m g))
  && negb (wi_localization_epoch identity =? 0) && negb (wi_generation identity =? 0)
  && negb (wi_observation_stamp_ns identity <? 0).

Definition validated (g : PlanningGrid) (identity : WorldSnapshotIdentity)
    : snapshot_error + PlanningGrid :=
  match validate_layout (pg_base_layout g) with
  | inl e => inl e
  | inr base_count =>
      match validate_layout (ig_layout (pg_inflated g)) with
      | inl e => inl e
      | inr inflated_count =>
          if negb (sizes_match (pg_unknown_inflation_enabled g) (pg_base_state g) (pg_inflated g)
                     base_count inflated_count) then inl se_invalid_argument
          else if negb (forallb stored_byte (pg_base_state g)) then inl se_invalid_argument
          else if negb (has (pg_nearest_offsets g)) then inl se_invalid_argument
          else if negb (metadata_ok g identity) then inl se_invalid_argument
          else inr g
      end
  end.

(** [validate_layout] of [validatedPatch] *)
Definition validate_patch_layout (l : PlanningGridLayout) : snapshot_error + Z :=
  if negb (resolution_ok (pl_resolution_m l)) || negb (dimensions_ok l)
  then inl se_invalid_argument
  else layout_count l.

Definition newer_successor (parent identity : WorldSnapshotIdentity) : bool :=
  (wi_localization_epoch identity =? wi_localization_epoch parent)
  && (wi_generation identity =? wi_generation parent)
  && negb (wi_revision parent =? u64_max)
  && negb (wi_revision identity <=? wi_revision parent)
  && negb (wi_observation_stamp_ns identity <=? wi_observation_stamp_ns parent).

Definition validatedPatch (p : PlanningGridPatch) (parent : option MappingWorldSnapshot)
    (identity : WorldSnapshotIdentity) : snapshot_error + PlanningGridPatch :=
  match parent with
  | None => inl se_invalid_argument
  | Some parent =>
      if negb (newer_successor (snap_identity parent) identity) then inl se_invalid_argument
      else
        match validate_patch_layout (pp_base_layout p) with
        | inl e => inl e
        | inr base_count =>
            match validate_patch_layout (ig_layout (pp_inflated p)) with
            | inl e => inl e
            | inr inflated_count =>
                let root := rootGrid parent in
                if fne (pl_resolution_m (pp_base_layout p)) (pl_resolution_m (pg_base_layout root))
                   || fne (pl_resolution_m (ig_layout (pp_inflated p)))
                        (pl_resolution_m (ig_layout (pg_inflated root)))
                   || negb (sizes_match (pg_unknown_inflation_enabled root) (pp_base_state p)
                              (pp_inflated p) base_count inflated_count)
                then inl se_invalid_argument
                else if negb (forallb stored_byte (pp_base_state p)) then inl se_invalid_argument
                else inr p
            end
        end
  end.

(** The two constructors. *)
Definition make_root (grid : PlanningGrid) (identity : WorldSnapshotIdentity)
    (change_history : option WorldChangeHistory) : snapshot_error + MappingWorldSnapshot :=
  match validated grid identity with
  | inl e => inl e
  | inr grid => inr (RootSnapshot grid identity change_history)
  end.

Definition make_patched (parent : option MappingWorldSnapshot) (patch : PlanningGridPatch)
    (identity : WorldSnapshotIdentity) (change_history : option WorldChangeHistory)
    : snapshot_error + MappingWorldSnapshot :=
  match validatedPatch patch parent identity, parent with
  | inl e, _ => inl e
  | inr _, None => inl se_invalid_argument
  | inr patch, Some parent => inr (PatchSnapshot parent patch identity change_history)
  end.
End Construction.

(** ** Cells *)

(** [v[i]], without a bounds test *)
Definition byte_at (v : list Z) (i : Z) : Z := default 0 (v !! Z.to_nat i).

Definition offset (l : PlanningGridLayout) (index : GridIndex3) : option Z :=
  let local_x := ix index - ix (pl_global_min_index l) in
  let local_y := iy index - iy (pl_global_min_index l) in
  let local_z := iz index - iz (pl_global_min_index l) in
  let dims := pl_dimensions l in
  if (local_x <? 0) || (local_y <? 0) || (local_z <? 0)
     || (ix dims <=? local_x) || (iy dims <=? local_y) || (iz dims <=? local_z)
  then None
  else if (u64_max - local_z) / iz dims <? local_y then None
  else
    let yz := local_y * iz dims + local_z in
    if (u64_max - yz) / iy dims <? local_x then None
    else
      let xy := local_x * iy dims + local_y in
      if (u64_max - local_z) / iz dims <? xy then None
      else Some (xy * iz dims + local_z).

Definition productCell (raw_state : Z) : CellState :=
  match raw_state with
  | 0 => kUndefined
  | 1 => kUnknown
  | 2 => kOutOfMap
  | 3 => kOccupied
  | 4 => kKnownFree
  | 5 => kFrontier
  | _ => kUndefined
  end.

Fixpoint baseState (s : MappingWorldSnapshot) (index : GridIndex3) : CellState :=
  match s with
  | RootSnapshot grid _ _ =>
      match offset (pg_base_layout grid) index with
      | Some o => productCell (byte_at (pg_base_state grid) o)
      | None => kOutOfMap
      end
  | PatchSnapshot parent patch _ _ =>
      match offset (pp_base_layout patch) index with
      | Some o => productCell (byte_at (pp_base_state patch) o)
      | None => baseState parent index
      end
  end.

Fixpoint inflatedOccupied (s : MappingWorldSnapshot) (index : GridIndex3) : Z :=
  match s with
  | RootSnapshot grid _ _ =>
      match offset (ig_layout (pg_inflated grid)) index with
      | Some o => byte_at (ig_occupied (pg_inflated grid)) o
      | None => 1
      end
  | PatchSnapshot parent patch _ _ =>
      match offset (ig_layout (pp_inflated patch)) index with
      | Some o => byte_at (ig_occupied (pp_inflated patch)) o
      | None => inflatedOccupied parent index
      end
  end.

Fixpoint inflatedUnknown (s : MappingWorldSnapshot) (index : GridIndex3) : Z :=
  match s with
  | RootSnapshot grid _ _ =>
      match offset (ig_layout (pg_inflated grid)) index, ig_unknown (pg_inflated grid) with
      | Some o, _ :: _ => byte_at (ig_unknown (pg_inflated grid)) o
      | _, _ => 1
      end
  | PatchSnapshot parent patch _ _ =>
      match offset (ig_layout (pp_inflated patch)) index, ig_unknown (pp_inflated patch) with
      | Some o, _ :: _ => byte_at (ig_unknown (pp_inflated patch)) o
      | _, _ => inflatedUnknown parent index
      end
  end.

(** ** Points and indices *)

Definition checked_axis_index (coordinate resolution : f64) : option Z :=
  let scaled := f64_div coordinate resolution in
  if negb (isfinite scaled) then None
  else
    let floored := f64_floor scaled in
    if flt floored (f64_of_Z i32_min) || fgt floored (f64_of_Z i32_max) then None
    else Some (SF_trunc floored).

Definition checked_axis_position (index : Z) (resolution : f64) : option f64 :=
  let cell_center := f80_add (f80_of_Z index) (f80_lit 1 2) in
  let position := f80_mul cell_center (f80_of_f64 resolution) in
  if negb (isfinite position) || flt position (f80_of_f64 (fopp f64_max))
     || fgt position (f80_of_f64 f64_max) then None
  else Some (f64_of_f80 position).

Definition checkedIndexAdd (lhs rhs : GridIndex3) : option GridIndex3 :=
  let x := ix lhs + ix rhs in
  let y := iy lhs + iy rhs in
  let z := iz lhs + iz rhs in
  if fits_int x && fits_int y && fits_int z then Some (Idx x y z) else None.

Definition layer_layout (g : PlanningGrid) (layer : GridLayer) : PlanningGridLayout :=
  match layer with kInflated => ig_layout (pg_inflated g) | kEvidence => pg_base_layout g end.

Definition layer_resolution (g : PlanningGrid) (layer : GridLayer) : f64 :=
  pl_resolution_m (layer_layout g layer).

Definition snap_geometry (s : MappingWorldSnapshot) : WorldGeometry :=
  let g := rootGrid s in
  {| evidence_resolution_m := pl_resolution_m (pg_base_layout g);
     inflated_resolution_m := pl_resolution_m (ig_layout (pg_inflated g));
     occupied_inflation_radius_m := pg_occupied_inflation_radius_m g;
     effective_virtual_ground_m := pg_virtual_ground_m g;
     effective_virtual_ceiling_m := pg_virtual_ceiling_m g;
     local_center_m := pl_local_center_m (pg_base_layout g);
     local_size_m := pl_local_size_m (pg_base_layout g);
     virtual_ground_ceiling_enabled := pg_virtual_ground_ceiling_enabled g;
     evidence_bounds :=
       mkBounds (pl_global_min_index (pg_base_layout g)) (pl_dimensions (pg_base_layout g));
     inflated_bounds :=
       mkBounds (pl_global_min_index (ig_layout (pg_inflated g)))
         (pl_dimensions (ig_layout (pg_inflated g))) |}.

Definition snap_indexToPosition (s : MappingWorldSnapshot) (index : GridIndex3) (layer : GridLayer)
    : vec3 :=
  let resolution := layer_resolution (rootGrid s) layer in
  if negb (isfinite resolution) || fle resolution fzero then vec3_zero
  else
    match checked_axis_position (ix index) resolution, checked_axis_position (iy index) resolution,
          checked_axis_position (iz index) resolution with
    | Some x, Some y, Some z => Vec3 x y z
    | _, _, _ => vec3_zero
    end.

(** ** Change history *)

Definition history_mismatch (identity : WorldSnapshotIdentity) (expected_revision : Z)
    (r : WorldChangeRecord) : bool :=
  negb (wi_localization_epoch (wc_identity r) =? wi_localization_epoch identity)
  || negb (wi_generation (wc_identity r) =? wi_generation identity)
  || negb (wi_revision (wc_identity r) =? expected_revision).

Section Queries.
Context `{EigenOps}.

Definition boxesOverlap (lhs rhs : AxisAlignedBox) : bool :=
  if negb (AxisAlignedBox_valid lhs) || negb (AxisAlignedBox_valid rhs) then true
  else v_all_le (minimum lhs) (maximum rhs) && v_all_le (minimum rhs) (maximum lhs).

(** The loop over the records, with what follows it. *)
Fixpoint scan_changes (identity : WorldSnapshotIdentity) (older_revision : Z)
    (protected_region : AxisAlignedBox) (expected_revision : Z) (records : list WorldChangeRecord)
    : bool :=
  match records with
  | [] => older_revision <? expected_revision
  | r :: records =>
      if expected_revision <=? older_revision then older_revision <? expected_revision
      else if history_mismatch identity expected_revision r then true
      else if wc_affects_whole_world r || boxesOverlap (wc_affected_region r) protected_region
      then true
      else scan_changes identity older_revision protected_region (expected_revision - 1) records
  end.

Definition snap_changedRegionIntersectsSince (s : MappingWorldSnapshot)
    (older : WorldSnapshotIdentity) (protected_region : AxisAlignedBox) : bool :=
  let identity := snap_identity s in
  if negb (AxisAlignedBox_valid protected_region)
     || negb (wi_localization_epoch older =? wi_localization_epoch identity)
     || negb (wi_generation older =? wi_generation identity)
     || (wi_revision identity <? wi_revision older) then true
  else if wi_revision older =? wi_revision identity then
    negb (wi_observation_stamp_ns older =? wi_observation_stamp_ns identity)
  else if wi_observation_stamp_ns identity <? wi_observation_stamp_ns older then true
  else
    match snap_history s with
    | None => true
    | Some h =>
        if Z.of_nat (length (wh_records h)) <? wi_revision identity - wi_revision older then true
        else scan_changes identity (wi_revision older) protected_region (wi_revision identity)
               (wh_records h)
    end.

(** ** Cell queries *)

Definition checkedPositionToIndex (point : vec3) (resolution : f64) : option GridIndex3 :=
  if negb (v_allFinite point) || negb (isfinite resolution) || fle resolution fzero then None
  else
    match checked_axis_index (vx point) resolution, checked_axis_index (vy point) resolution,
          checked_axis_index (vz point) resolution with
    | Some x, Some y, Some z => Some (Idx x y z)
    | _, _, _ => None
    end.

Definition snap_positionToIndex (s : MappingWorldSnapshot) (point : vec3) (layer : GridLayer)
    : GridIndex3 :=
  default (Idx 0 0 0) (checkedPositionToIndex point (layer_resolution (rootGrid s) layer)).

Definition checkedOffset (l : PlanningGridLayout) (point : vec3) : option Z :=
  match checkedPositionToIndex point (pl_resolution_m l) with
  | Some index => offset l index
  | None => None
  end.

Definition containsLayer (s : MappingWorldSnapshot) (point : vec3) (layer : GridLayer) : bool :=
  if negb (v_allFinite point) then false
  else if negb (has (checkedOffset (pg_base_layout (rootGrid s)) point)) then false
  else
    match layer with
    | kEvidence => true
    | kInflated => has (checkedOffset (ig_layout (pg_inflated (rootGrid s))) point)
    end.

Definition snap_contains (s : MappingWorldSnapshot) (point : vec3) : bool :=
  v_allFinite point && has (checkedOffset (pg_base_layout (rootGrid s)) point).

(** Below the virtual ground or above the virtual ceiling. *)
Definition beyond_virtual (g : PlanningGrid) (ground ceiling : f64) (point : vec3) : bool :=
  pg_virtual_ground_ceiling_enabled g && (fle (vz point) ground || fge (vz point) ceiling).

Definition snap_classify (s : MappingWorldSnapshot) (point : vec3) (layer : GridLayer) : CellState :=
  let g := rootGrid s in
  if negb (v_allFinite point) then kOutOfMap
  else
    match layer with
    | kEvidence =>
        if beyond_virtual g (pg_virtual_ground_m g) (pg_virtual_ceiling_m g) point then kOccupied
        else if negb (containsLayer s point kEvidence) then kOutOfMap
        else baseState s (snap_positionToIndex s point kEvidence)
    | kInflated =>
        if negb (containsLayer s point kInflated) then kOutOfMap
        else if beyond_virtual g (pg_inflated_virtual_ground_m g) (pg_inflated_virtual_ceiling_m g)
                  point then kOccupied
        else
          let index := snap_positionToIndex s point kInflated in
          match offset (ig_layout (pg_inflated g)) index with
          | None => kOutOfMap
          | Some _ =>
              if negb (inflatedOccupied s index =? 0) then kOccupied
              else if pg_unknown_inflation_enabled g then
                if negb (inflatedUnknown s index =? 0) then kUnknown else kKnownFree
              else baseState s (snap_positionToIndex s point kEvidence)
          end
    end.

Definition snap_classifyFreeSpace (s : MappingWorldSnapshot) (point : vec3) (layer : GridLayer)
    : FreeSpaceEvidence :=
  let state := snap_classify s point layer in
  if state ==? kOccupied then kEvidenceOccupied
  else if state ==? kOutOfMap then kEvidenceOutOfMap
  else if state ==? kKnownFree then kSensorFree
  else kEvidenceUnknown.

Definition snap_handoverClearanceReason (s : MappingWorldSnapshot) (point : vec3)
    (layer : GridLayer) : HandoverClearanceReason :=
  let state := snap_classify s point layer in
  if state ==? kOccupied then kOccupiedContradiction
  else if state ==? kKnownFree then kReasonNone
  else kNoSensorEvidence.

(** The loop of [nearestNotOccupied] over the offsets. *)
Fixpoint nearest_scan (s : MappingWorldSnapshot) (start : vec3) (layer : GridLayer)
    (maximum_distance_m : f64) (start_index : GridIndex3) (offsets : list GridIndex3) : option vec3 :=
  match offsets with
  | [] => None
  | delta :: offsets =>
      match checkedIndexAdd start_index delta with
      | None => nearest_scan s start layer maximum_distance_m start_index offsets
      | Some candidate_index =>
          let candidate := snap_indexToPosition s candidate_index kEvidence in
          if fgt (v_norm (v_sub candidate start)) maximum_distance_m then None
          else if isCellTraversable (snap_classify s candidate layer) kAllowUnknown
          then Some candidate
          else nearest_scan s start layer maximum_distance_m start_index offsets
      end
  end.

Definition snap_nearestNotOccupied (s : MappingWorldSnapshot) (start : vec3) (layer : GridLayer)
    (maximum_distance_m : f64) : option vec3 :=
  if negb (v_allFinite start) || negb (isfinite maximum_distance_m)
     || flt maximum_distance_m fzero then None
  else
    match checkedPositionToIndex start (pl_resolution_m (pg_base_layout (rootGrid s))) with
    | None => None
    | Some start_index =>
        nearest_scan s start layer maximum_distance_m start_index
          (default [] (pg_nearest_offsets (rootGrid s)))
    end.

(** ** Occupied points in a box *)

Definition v_cwiseMax (a b : vec3) : vec3 :=
  Vec3 (fmax (vx a) (vx b)) (fmax (vy a) (vy b)) (fmax (vz a) (vz b)).
Definition v_cwiseMin (a b : vec3) : vec3 :=
  Vec3 (fmin (vx a) (vx b)) (fmin (vy a) (vy b)) (fmin (vz a) (vz b)).
Definition v_minCoeff (v : vec3) : f64 := fmin (fmin (vx v) (vy v)) (vz v).

Definition snap_clampToLocalBounds (s : MappingWorldSnapshot) (requested : AxisAlignedBox)
    : AxisAlignedBox :=
  let empty := mkBox (maximum requested) (maximum requested) in
  if negb (v_allFinite (minimum requested)) || negb (v_allFinite (maximum requested))
     || fle (v_minCoeff (v_sub (maximum requested) (minimum requested))) fzero then empty
  else
    let g := rootGrid s in
    let dims := pl_dimensions (pg_base_layout g) in
    let minimum_center := snap_indexToPosition s (pl_global_min_index (pg_base_layout g)) kEvidence in
    match checkedIndexAdd (pl_global_min_index (pg_base_layout g))
            (Idx (ix dims - 1) (iy dims - 1) (iz dims - 1)) with
    | None => empty
    | Some maximum_index =>
        let maximum_center := snap_indexToPosition s maximum_index kEvidence in
        let lo := v_cwiseMax (minimum requested) minimum_center in
        let hi := v_cwiseMin (maximum requested) maximum_center in
        if pg_virtual_ground_ceiling_enabled g then
          mkBox (Vec3 (vx lo) (vy lo) (fmax (vz lo) (pg_virtual_ground_m g)))
                (Vec3 (vx hi) (vy hi) (fmin (vz hi) (pg_virtual_ceiling_m g)))
        else mkBox lo hi
    end.

(** [for (i = lo; i < hi + 1; ++i)] *)
Definition int_range (lo hi : Z) : list Z := seqZ lo (hi + 1 - lo).

Definition observed_at (s : MappingWorldSnapshot) (index : GridIndex3) : list vec3 :=
  if has (offset (pg_base_layout (rootGrid s)) index) && (baseState s index ==? kOccupied)
  then [snap_indexToPosition s index kEvidence] else [].

Definition snap_observedOccupiedPoints (s : MappingWorldSnapshot) (requested : AxisAlignedBox)
    : list vec3 :=
  let box := snap_clampToLocalBounds s requested in
  if fle (v_minCoeff (v_sub (maximum box) (minimum box))) fzero then []
  else
    let lo := snap_positionToIndex s (minimum box) kEvidence in
    let hi := snap_positionToIndex s (maximum box) kEvidence in
    concat (map (fun x => concat (map (fun y => concat (map (fun z =>
      observed_at s (Idx x y z)) (int_range (iz lo) (iz hi)))) (int_range (iy lo) (iy hi))))
      (int_range (ix lo) (ix hi))).
End Queries.
