(* ===== verification/MapSnapshotProps.v ===== *)
(** * Properties of the map snapshot

    Addressing of the stored cells, what the constructors guarantee, the change
    history, and the equivalence of a chain of patches with one full grid into
    which the patches were written. *)

From S2P Require Import Prelude Float64 Geometry World WorldGrid MapSnapshot.

(** ** Addressing *)

(** The volume of a layout, and the cell boxes it stands for. *)
Definition layout_volume (l : PlanningGridLayout) : Z :=
  ix (pl_dimensions l) * iy (pl_dimensions l) * iz (pl_dimensions l).

Definition in_layout (l : PlanningGridLayout) (i : GridIndex3) : Prop :=
  0 <= ix i - ix (pl_global_min_index l) < ix (pl_dimensions l) /\
  0 <= iy i - iy (pl_global_min_index l) < iy (pl_dimensions l) /\
  0 <= iz i - iz (pl_global_min_index l) < iz (pl_dimensions l).

(** What both [validate_layout] functions leave of a layout. *)
Record layout_ok (l : PlanningGridLayout) : Prop := {
  lo_dims : 0 < ix (pl_dimensions l) /\ 0 < iy (pl_dimensions l) /\ 0 < iz (pl_dimensions l);
  lo_volume : layout_volume l <= u64_max;
  lo_fits : forall i, in_layout l i -> is_i32 (ix (pl_global_min_index l)) ->
    is_i32 (iy (pl_global_min_index l)) -> is_i32 (iz (pl_global_min_index l)) ->
    is_i32 (ix i) /\ is_i32 (iy i) /\ is_i32 (iz i)
}.

Lemma count_axis_step g d rest count n :
  0 < d -> count_axes ((g, d) :: rest) count = inr n ->
  count * d <= u64_max /\ fits_int (g + d - 1) = true /\ count_axes rest (count * d) = inr n.
Proof.
  intros Hd. simpl. destruct (_ <? _) eqn:E1; [done|]. destruct (fits_int _) eqn:E2; [|done].
  simpl. intros H. apply Z.ltb_ge in E1. split_and!; [|done..].
  assert (u64_max / d * d <= u64_max) by (rewrite Z.mul_comm; apply Z.mul_div_le; lia). nia.
Qed.

Lemma dimensions_ok_spec l :
  dimensions_ok l = true ->
  0 < ix (pl_dimensions l) /\ 0 < iy (pl_dimensions l) /\ 0 < iz (pl_dimensions l).
Proof. unfold dimensions_ok. cbn. intros ?. bsplit. lia. Qed.

Lemma layout_count_ok l n :
  dimensions_ok l = true -> layout_count l = inr n -> layout_ok l /\ n = layout_volume l.
Proof.
  intros (Hx & Hy & Hz)%dimensions_ok_spec. unfold layout_count, idx_coeffs. cbn [zip zip_with].
  intros (Hc1 & F1 & H)%count_axis_step; [|done].
  apply count_axis_step in H as (Hc2 & F2 & H); [|done].
  apply count_axis_step in H as (Hc3 & F3 & H); [|done]. simpl in H. injection H as <-.
  unfold layout_volume. split; [|lia]. unfold fits_int in *. bsplit.
  split; [done|unfold layout_volume; lia|]. intros i (? & ? & ?). unfold is_i32. lia.
Qed.

Lemma mixed_radix x y dx dy : 0 <= x < dx -> 0 <= y < dy -> 0 <= x * dy + y < dx * dy.
Proof. nia. Qed.

Lemma radix_div x y d : 0 <= y < d -> (x * d + y) / d = x.
Proof. intros ?. rewrite Z.div_add_l, Z.div_small by lia. lia. Qed.

Lemma radix_mod x y d : 0 <= y < d -> (x * d + y) mod d = y.
Proof. intros ?. rewrite Z.add_comm, Z.mod_add, Z.mod_small by lia. lia. Qed.

(** The box is the domain of [offset], its guards against overflow never fire. *)
Lemma offset_in l i : layout_ok l -> in_layout l i ->
  offset l i =
    Some (((ix i - ix (pl_global_min_index l)) * iy (pl_dimensions l)
           + (iy i - iy (pl_global_min_index l))) * iz (pl_dimensions l)
          + (iz i - iz (pl_global_min_index l))).
Proof.
  intros [(Hx & Hy & Hz) Hv _] (H1 & H2 & H3). unfold offset, layout_volume in *. cbv zeta.
  set (x := ix i - _) in *. set (y := iy i - _) in *. set (z := iz i - _) in *.
  set (dx := ix (pl_dimensions l)) in *. set (dy := iy (pl_dimensions l)) in *.
  set (dz := iz (pl_dimensions l)) in *. clearbody x y z dx dy dz.
  assert (dy * dz <= dx * dy * dz) by nia.
  assert (y * dz + z < dy * dz) by nia.
  assert (x * dy + y < dx * dy) by nia.
  assert ((x * dy + y) * dz + z < dx * dy * dz) by nia.
  assert (x * dy <= u64_max - (y * dz + z)) by nia.
  assert (forall a b c, 0 < c -> a * c <= b -> (b / c <? a) = false) as Hdiv.
  { intros a b c Hc Hle. apply Z.ltb_ge, Z.div_le_lower_bound; lia. }
  rewrite !Hdiv by lia. repeat match goal with
  | |- context [?a <? 0] => replace (a <? 0) with false by (symmetry; apply Z.ltb_ge; lia)
  | |- context [?a <=? ?b] => replace (a <=? b) with false by (symmetry; apply Z.leb_gt; lia)
  end. done.
Qed.

Lemma offset_some_in l i k : offset l i = Some k -> in_layout l i.
Proof.
  unfold offset, in_layout. cbv zeta. destruct (_ || _) eqn:E; [done|]. bsplit. lia.
Qed.

Lemma offset_none_out l i : layout_ok l -> offset l i = None -> ~ in_layout l i.
Proof. intros Hl Ho Hi. by rewrite (offset_in l i Hl Hi) in Ho. Qed.

(** The cell an array position stands for. *)
Definition cell_at (l : PlanningGridLayout) (k : Z) : GridIndex3 :=
  let d := pl_dimensions l in
  Idx (ix (pl_global_min_index l) + k / (iy d * iz d))
      (iy (pl_global_min_index l) + k / iz d mod iy d)
      (iz (pl_global_min_index l) + k mod iz d).

Lemma cell_at_offset l i k : layout_ok l -> offset l i = Some k ->
  0 <= k < layout_volume l /\ cell_at l k = i.
Proof.
  intros Hl Ho. pose proof (offset_some_in _ _ _ Ho) as Hi. rewrite (offset_in _ _ Hl Hi) in Ho.
  injection Ho as <-. destruct Hl as [(Hx & Hy & Hz) _ _], Hi as (H1 & H2 & H3).
  unfold cell_at, layout_volume. destruct i as [a b c]. simpl in *.
  set (gx := ix (pl_global_min_index l)) in *. set (gy := iy (pl_global_min_index l)) in *.
  set (gz := iz (pl_global_min_index l)) in *.
  set (dx := ix (pl_dimensions l)) in *. set (dy := iy (pl_dimensions l)) in *.
  set (dz := iz (pl_dimensions l)) in *. clearbody gx gy gz dx dy dz.
  split; [by do 2 (apply mixed_radix; [|done])|].
  rewrite (Z.mul_comm dy dz), <- Z.div_div by lia. rewrite !radix_div, !radix_mod by done.
  f_equal; lia.
Qed.

Lemma offset_cell_at l k : layout_ok l -> 0 <= k < layout_volume l ->
  offset l (cell_at l k) = Some k.
Proof.
  intros Hl Hk. pose proof (lo_dims _ Hl) as (Hx & Hy & Hz). unfold layout_volume in Hk.
  assert (in_layout l (cell_at l k)) as Hi.
  { unfold in_layout, cell_at. simpl.
    pose proof (Z.mod_pos_bound k (iz (pl_dimensions l)) Hz).
    pose proof (Z.mod_pos_bound (k / iz (pl_dimensions l)) (iy (pl_dimensions l)) Hy).
    assert (0 <= k / (iy (pl_dimensions l) * iz (pl_dimensions l)) < ix (pl_dimensions l)).
    { split; [apply Z.div_pos; nia|]. apply Z.div_lt_upper_bound; nia. }
    lia. }
  rewrite (offset_in _ _ Hl Hi). f_equal. unfold cell_at. cbn [ix iy iz].
  set (dy := iy (pl_dimensions l)) in *. set (dz := iz (pl_dimensions l)) in *.
  rewrite (Z.mul_comm dy dz), <- Z.div_div by lia.
  pose proof (Z.div_mod k dz). pose proof (Z.div_mod (k / dz) dy).
  assert (k / dz / dy * dy + (k / dz) mod dy = k / dz) by lia.
  replace (ix (pl_global_min_index l) + k / dz / dy - ix (pl_global_min_index l)) with (k / dz / dy) by lia.
  replace (iy (pl_global_min_index l) + (k / dz) mod dy - iy (pl_global_min_index l))
    with ((k / dz) mod dy) by lia.
  replace (iz (pl_global_min_index l) + k mod dz - iz (pl_global_min_index l)) with (k mod dz) by lia.
  nia.
Qed.

Lemma offset_inj l i j k : layout_ok l -> offset l i = Some k -> offset l j = Some k -> i = j.
Proof. by intros Hl [_ <-]%(cell_at_offset l i k Hl) [_ <-]%(cell_at_offset l j k Hl). Qed.

(** ** Well-formed storage *)

(** The arrays of a full grid or of a patch. *)
Record arrays_ok (unknown_enabled : bool) (base : PlanningGridLayout) (base_state : list Z)
    (inflated : InflatedPlanningGrid) : Prop := {
  ao_base : layout_ok base;
  ao_inflated : layout_ok (ig_layout inflated);
  ao_states : vector_size base_state = layout_volume base;
  ao_stored : forallb stored_byte base_state = true;
  ao_occupied : vector_size (ig_occupied inflated) = layout_volume (ig_layout inflated);
  ao_unknown :
    if unknown_enabled then vector_size (ig_unknown inflated) = layout_volume (ig_layout inflated)
    else ig_unknown inflated = []
}.

Fixpoint snap_ok (s : MappingWorldSnapshot) : Prop :=
  match s with
  | RootSnapshot g _ _ =>
      arrays_ok (pg_unknown_inflation_enabled g) (pg_base_layout g) (pg_base_state g) (pg_inflated g)
      /\ is_Some (pg_nearest_offsets g)
  | PatchSnapshot parent p _ _ =>
      snap_ok parent /\
      arrays_ok (pg_unknown_inflation_enabled (rootGrid parent)) (pp_base_layout p)
        (pp_base_state p) (pp_inflated p) /\
      feq (pl_resolution_m (pp_base_layout p)) (pl_resolution_m (pg_base_layout (rootGrid parent)))
        = true
  end.

Lemma sizes_match_ok unknown base states inflated n m :
  layout_ok base -> layout_ok (ig_layout inflated) ->
  n = layout_volume base -> m = layout_volume (ig_layout inflated) ->
  sizes_match unknown states inflated n m = true -> forallb stored_byte states = true ->
  arrays_ok unknown base states inflated.
Proof.
  intros ? ? -> -> Hs ?. unfold sizes_match in Hs. bsplit. split; try done; [lia..|].
  destruct unknown; [lia|]. by destruct (ig_unknown inflated).
Qed.

Section Built.
Context `{EigenOps}.

Lemma validate_layout_ok l n : validate_layout l = inr n -> layout_ok l /\ n = layout_volume l.
Proof.
  unfold validate_layout. destruct (_ || _) eqn:E; [done|]. bsplit. by apply layout_count_ok.
Qed.

Lemma validate_patch_layout_ok l n :
  validate_patch_layout l = inr n -> layout_ok l /\ n = layout_volume l.
Proof.
  unfold validate_patch_layout. destruct (_ || _) eqn:E; [done|]. bsplit. by apply layout_count_ok.
Qed.

Lemma make_root_ok g i h s : make_root g i h = inr s ->
  s = RootSnapshot g i h /\ snap_ok s.
Proof.
  unfold make_root, validated.
  destruct (validate_layout _) as [|n] eqn:E1; [done|].
  destruct (validate_layout (ig_layout _)) as [|m] eqn:E2; [done|].
  apply validate_layout_ok in E1 as [? ?], E2 as [? ?].
  destruct (sizes_match _ _ _ _ _) eqn:E3; [|done].
  destruct (forallb _ _) eqn:E4; [|done]. destruct (has _) eqn:E5; [|done].
  destruct (metadata_ok _ _); [|done]. intros [= <-]. simpl. breflect.
  eauto using sizes_match_ok.
Qed.

Lemma make_patched_ok parent p i h s : make_patched parent p i h = inr s ->
  exists q, parent = Some q /\ s = PatchSnapshot q p i h /\ newer_successor (snap_identity q) i = true
    /\ (snap_ok q -> snap_ok s).
Proof.
  unfold make_patched, validatedPatch. destruct parent as [q|]; [|done].
  destruct (newer_successor _ _) eqn:En; [|done]. simpl.
  destruct (validate_patch_layout _) as [|n] eqn:E1; [done|].
  destruct (validate_patch_layout (ig_layout _)) as [|m] eqn:E2; [done|].
  apply validate_patch_layout_ok in E1 as [? ?], E2 as [? ?].
  destruct (_ || _) eqn:E3; [done|]. bsplit. destruct (forallb _ _) eqn:E4; [|done].
  intros [= <-]. exists q. split_and!; [done..|]. intros Hq. simpl. split_and!; [done| |].
  - eauto using sizes_match_ok.
  - unfold fne in *. by breflect.
Qed.

(** Every snapshot the program can hold. *)
Inductive built : MappingWorldSnapshot -> Prop :=
| built_root g i h s : make_root g i h = inr s -> built s
| built_patch q p i h s : built q -> make_patched (Some q) p i h = inr s -> built s.

Lemma built_ok s : built s -> snap_ok s.
Proof.
  induction 1 as [g i h s Hm|q p i h s Hq IH Hm]; [by apply make_root_ok in Hm as [-> ?]|].
  apply make_patched_ok in Hm as (? & [= <-] & -> & _ & Ho). auto.
Qed.
End Built.

(** ** Memory safety of the unchecked reads *)

(** Every array the cell queries index, with the layout they index it by. *)
Fixpoint stored_arrays (s : MappingWorldSnapshot) : list (PlanningGridLayout * list Z) :=
  let arrays base states inflated :=
    [(base, states); (ig_layout inflated, ig_occupied inflated);
     (ig_layout inflated, ig_unknown inflated)] in
  match s with
  | RootSnapshot g _ _ => arrays (pg_base_layout g) (pg_base_state g) (pg_inflated g)
  | PatchSnapshot parent p _ _ =>
      arrays (pp_base_layout p) (pp_base_state p) (pp_inflated p) ++ stored_arrays parent
  end.

Lemma arrays_ok_in u base states inflated l v :
  arrays_ok u base states inflated ->
  (l, v) ∈ [(base, states); (ig_layout inflated, ig_occupied inflated);
     (ig_layout inflated, ig_unknown inflated)] ->
  layout_ok l /\ (v = [] \/ vector_size v = layout_volume l).
Proof.
  intros [] Hin. rewrite !elem_of_cons, elem_of_nil in Hin.
  destruct Hin as [[= -> ->]|[[= -> ->]|[[= -> ->]|[]]]]; split; try done; try by right.
  destruct u; auto.
Qed.

Lemma stored_arrays_ok s l v : snap_ok s -> (l, v) ∈ stored_arrays s ->
  layout_ok l /\ (v = [] \/ vector_size v = layout_volume l).
Proof.
  induction s as [g i h|q IH p i h]; simpl.
  - intros [Ha _]. by apply arrays_ok_in with (1 := Ha).
  - intros (Hq & Ha & _) Hin.
    change (_ :: _ :: _ :: stored_arrays q) with
      ([(pp_base_layout p, pp_base_state p);
        (ig_layout (pp_inflated p), ig_occupied (pp_inflated p));
        (ig_layout (pp_inflated p), ig_unknown (pp_inflated p))] ++ stored_arrays q) in Hin.
    apply elem_of_app in Hin as [Hin|Hin]; [by apply arrays_ok_in with (1 := Ha)|auto].
Qed.


(** ** A chain of patches is a full grid *)

(** The array [v] of layout [target] after the cells of [source] were written. *)
Definition write_cells (target : PlanningGridLayout) (v : list Z) (source : PlanningGridLayout)
    (w : list Z) : list Z :=
  map (fun k => match offset source (cell_at target k) with
                | Some o => byte_at w o
                | None => byte_at v k
                end) (seqZ 0 (vector_size v)).

Definition write_patch (g : PlanningGrid) (p : PlanningGridPatch) : PlanningGrid :=
  let inflated := pg_inflated g in
  mkPlanningGrid (pg_base_layout g)
    (mkInflatedGrid (ig_layout inflated)
       (write_cells (ig_layout inflated) (ig_occupied inflated) (ig_layout (pp_inflated p))
          (ig_occupied (pp_inflated p)))
       (write_cells (ig_layout inflated) (ig_unknown inflated) (ig_layout (pp_inflated p))
          (ig_unknown (pp_inflated p))))
    (write_cells (pg_base_layout g) (pg_base_state g) (pp_base_layout p) (pp_base_state p))
    (pg_nearest_offsets g) (pg_unknown_inflation_enabled g) (pg_virtual_ground_ceiling_enabled g)
    (pg_virtual_ground_m g) (pg_virtual_ceiling_m g) (pg_inflated_virtual_ground_m g)
    (pg_inflated_virtual_ceiling_m g) (pg_occupied_inflation_radius_m g).

(** One full grid: the root with every patch of the chain written, oldest first. *)
Fixpoint flatten (s : MappingWorldSnapshot) : PlanningGrid :=
  match s with
  | RootSnapshot g _ _ => g
  | PatchSnapshot parent p _ _ => write_patch (flatten parent) p
  end.

Definition flat (s : MappingWorldSnapshot) : MappingWorldSnapshot :=
  RootSnapshot (flatten s) (snap_identity s) (snap_history s).

(** A grid without its arrays. *)
Definition grid_frame (g : PlanningGrid) : PlanningGrid :=
  mkPlanningGrid (pg_base_layout g) (mkInflatedGrid (ig_layout (pg_inflated g)) [] []) []
    (pg_nearest_offsets g) (pg_unknown_inflation_enabled g) (pg_virtual_ground_ceiling_enabled g)
    (pg_virtual_ground_m g) (pg_virtual_ceiling_m g) (pg_inflated_virtual_ground_m g)
    (pg_inflated_virtual_ceiling_m g) (pg_occupied_inflation_radius_m g).

(** Two snapshots that differ in storage only. *)
Record same_world (s t : MappingWorldSnapshot) : Prop := {
  sw_identity : snap_identity s = snap_identity t;
  sw_history : snap_history s = snap_history t;
  sw_frame : grid_frame (rootGrid s) = grid_frame (rootGrid t);
  sw_base i : is_Some (offset (pg_base_layout (rootGrid s)) i) -> baseState s i = baseState t i;
  sw_occupied i : is_Some (offset (ig_layout (pg_inflated (rootGrid s))) i) ->
    inflatedOccupied s i = inflatedOccupied t i;
  sw_unknown i : is_Some (offset (ig_layout (pg_inflated (rootGrid s))) i) ->
    pg_unknown_inflation_enabled (rootGrid s) = true -> inflatedUnknown s i = inflatedUnknown t i
}.

Lemma vector_size_write_cells t v s w : vector_size (write_cells t v s w) = vector_size v.
Proof. unfold write_cells, vector_size. by rewrite length_map, length_seqZ, Nat2Z.id. Qed.

Lemma byte_at_write_cells t v s w k : 0 <= k < vector_size v ->
  byte_at (write_cells t v s w) k =
    match offset s (cell_at t k) with Some o => byte_at w o | None => byte_at v k end.
Proof.
  intros Hk. unfold byte_at at 1, write_cells. rewrite list_lookup_fmap.
  rewrite lookup_seqZ_lt by lia. simpl. by rewrite Z2Nat.id by lia.
Qed.

(** A cell read after the write: the patch where it covers the cell, else what was there. *)
Lemma written_cell t v s w i k : layout_ok t -> vector_size v = layout_volume t ->
  offset t i = Some k ->
  byte_at (write_cells t v s w) k =
    match offset s i with Some o => byte_at w o | None => byte_at v k end.
Proof.
  intros Ht Hv [Hk Hi]%(cell_at_offset t i k Ht). rewrite byte_at_write_cells by lia. by rewrite Hi.
Qed.

Lemma stored_byte_at v k : forallb stored_byte v = true -> 0 <= k < vector_size v ->
  stored_byte (byte_at v k) = true.
Proof.
  intros Hv Hk. unfold byte_at. destruct (v !! Z.to_nat k) as [b|] eqn:E.
  - apply list_elem_of_lookup_2, list_elem_of_In in E.
    by apply (proj1 (forallb_forall _ _) Hv).
  - apply lookup_ge_None in E. unfold vector_size in Hk. lia.
Qed.

Lemma flatten_frame s : grid_frame (flatten s) = grid_frame (rootGrid s).
Proof. induction s as [g i h|q IH p i h]; [done|]. simpl. by rewrite <- IH. Qed.

(** Equal frames, field by field. *)
Lemma frame_fields g g' : grid_frame g = grid_frame g' ->
  pg_base_layout g = pg_base_layout g' /\
  ig_layout (pg_inflated g) = ig_layout (pg_inflated g') /\
  pg_nearest_offsets g = pg_nearest_offsets g' /\
  pg_unknown_inflation_enabled g = pg_unknown_inflation_enabled g' /\
  pg_virtual_ground_ceiling_enabled g = pg_virtual_ground_ceiling_enabled g' /\
  pg_virtual_ground_m g = pg_virtual_ground_m g' /\
  pg_virtual_ceiling_m g = pg_virtual_ceiling_m g' /\
  pg_inflated_virtual_ground_m g = pg_inflated_virtual_ground_m g' /\
  pg_inflated_virtual_ceiling_m g = pg_inflated_virtual_ceiling_m g' /\
  pg_occupied_inflation_radius_m g = pg_occupied_inflation_radius_m g'.
Proof. by intros [=]. Qed.

(** Rewrites every field of the frame of [g] into that of [g']. *)
Ltac rewrite_frame H :=
  let H1 := fresh in let H2 := fresh in let H3 := fresh in let H4 := fresh in let H5 := fresh in
  let H6 := fresh in let H7 := fresh in let H8 := fresh in let H9 := fresh in let H10 := fresh in
  pose proof (frame_fields _ _ H) as (H1 & H2 & H3 & H4 & H5 & H6 & H7 & H8 & H9 & H10);
  rewrite ?H1, ?H2, ?H3, ?H4, ?H5, ?H6, ?H7, ?H8, ?H9, ?H10;
  clear H1 H2 H3 H4 H5 H6 H7 H8 H9 H10.

Lemma root_arrays s : snap_ok s ->
  let g := rootGrid s in
  arrays_ok (pg_unknown_inflation_enabled g) (pg_base_layout g) (pg_base_state g) (pg_inflated g).
Proof. induction s as [g i h|q IH p i h]; simpl; [by intros [? _]|intros (? & _); auto]. Qed.

Lemma flatten_sizes s : snap_ok s ->
  let g := rootGrid s in
  vector_size (pg_base_state (flatten s)) = layout_volume (pg_base_layout g) /\
  vector_size (ig_occupied (pg_inflated (flatten s))) = layout_volume (ig_layout (pg_inflated g)) /\
  (pg_unknown_inflation_enabled g = true ->
   vector_size (ig_unknown (pg_inflated (flatten s))) = layout_volume (ig_layout (pg_inflated g))).
Proof.
  induction s as [g i h|q IH p i h]; simpl.
  - intros [[] _]. split_and!; [done..|]. by intros Hu; rewrite Hu in *.
  - intros (Hq & _ & _). rewrite !vector_size_write_cells. auto.
Qed.

Lemma nonempty_array v l : layout_ok l -> vector_size v = layout_volume l -> v <> [].
Proof.
  intros [(?&?&?) _ _] Hv ->. unfold layout_volume, vector_size in Hv. simpl in Hv.
  pose proof (Z.mul_pos_pos (ix (pl_dimensions l)) (iy (pl_dimensions l))). nia.
Qed.

(** An array read that is only made when the array is not empty. *)
Lemma match_nonempty {A} (o : option Z) (v : list Z) (f : Z -> A) (d : A) : v <> [] ->
  match o, v with Some k, _ :: _ => f k | _, _ => d end =
  match o with Some k => f k | None => d end.
Proof. by destruct o, v. Qed.

Lemma flat_same_world s : snap_ok s -> same_world s (flat s).
Proof.
  intros Hs. split; [done|done|symmetry; apply flatten_frame|..];
    pose proof (flatten_frame s) as Hf; apply frame_fields in Hf as (Hb & Hi & _ & Hu & _);
    intros c [k Hk]; simpl; rewrite ?Hb, ?Hi, ?Hk; clear Hb Hi Hu; revert k Hk.
  - induction s as [g i h|q IH p i h]; simpl; intros k Hk; [by rewrite Hk|].
    destruct Hs as (Hq & Ha & _). rewrite (proj1 (frame_fields _ _ (flatten_frame q))) in *.
    rewrite (written_cell _ _ _ _ c k) by (done || apply (flatten_sizes q Hq) || apply (root_arrays q Hq)).
    destruct (offset (pp_base_layout p) c); [done|auto].
  - induction s as [g i h|q IH p i h]; simpl; intros k Hk; [by rewrite Hk|].
    destruct Hs as (Hq & Ha & _). pose proof (frame_fields _ _ (flatten_frame q)) as (_ & -> & _).
    rewrite (written_cell _ _ _ _ c k) by (done || apply (flatten_sizes q Hq) || apply (root_arrays q Hq)).
    destruct (offset (ig_layout (pp_inflated p)) c); [done|auto].
  - intros k Hk Hen. pose proof (flatten_sizes s Hs) as (_ & _ & Hsz). cbv zeta in Hsz.
    assert (exists b rest, ig_unknown (pg_inflated (flatten s)) = b :: rest) as (b & rest & E).
    { destruct (ig_unknown _) eqn:E; [|eauto]. exfalso.
      apply (nonempty_array [] (ig_layout (pg_inflated (rootGrid s)))); [|by apply Hsz|done].
      apply (root_arrays s Hs). }
    rewrite E, <- E. clear b rest E Hsz. revert k Hk Hen.
    induction s as [g i h|q IH p i h]; simpl; intros k Hk Hen.
    + rewrite match_nonempty, Hk; [done|]. destruct Hs as [[] _]. rewrite Hen in *.
      eauto using nonempty_array.
    + destruct Hs as (Hq & Ha & _). pose proof (frame_fields _ _ (flatten_frame q)) as (_ & -> & _).
      rewrite (written_cell _ _ _ _ c k)
        by first [done|by apply (flatten_sizes q Hq)|apply (root_arrays q Hq)].
      destruct Ha as [_ Hl _ _ _ Hun]. rewrite Hen in Hun.
      rewrite match_nonempty by eauto using nonempty_array.
      destruct (offset (ig_layout (pp_inflated p)) c); [done|auto].
Qed.

(** ** Patches are local *)

(** The cells of a point that a patch rewrites, in either layer. *)
Definition patch_covers `{EigenOps} (s : MappingWorldSnapshot) (p : PlanningGridPatch) (point : vec3)
    : Prop :=
  is_Some (offset (pp_base_layout p) (snap_positionToIndex s point kEvidence)) \/
  is_Some (offset (ig_layout (pp_inflated p)) (snap_positionToIndex s point kInflated)).

Lemma patch_outside `{EigenOps} q p i h point layer : ~ patch_covers q p point ->
  snap_classify (PatchSnapshot q p i h) point layer = snap_classify q point layer.
Proof.
  unfold patch_covers. intros Hno.
  destruct (offset (pp_base_layout p) _) eqn:E1; [destruct Hno; eauto|].
  destruct (offset (ig_layout (pp_inflated p)) _) eqn:E2; [destruct Hno; eauto|]. clear Hno.
  assert (forall l, containsLayer (PatchSnapshot q p i h) point l = containsLayer q point l) as Hc by done.
  unfold snap_classify. cbv zeta. rewrite !Hc.
  change (rootGrid (PatchSnapshot q p i h)) with (rootGrid q).
  change (snap_positionToIndex (PatchSnapshot q p i h)) with (snap_positionToIndex q).
  simpl baseState. simpl inflatedOccupied. simpl inflatedUnknown. by rewrite E1, E2.
Qed.

(** ** The change history *)

(** The record proves one revision harmless to a region. *)
Definition harmless `{EigenOps} (identity : WorldSnapshotIdentity) (region : AxisAlignedBox)
    (revision : Z) (r : WorldChangeRecord) : Prop :=
  wi_localization_epoch (wc_identity r) = wi_localization_epoch identity /\
  wi_generation (wc_identity r) = wi_generation identity /\
  wi_revision (wc_identity r) = revision /\
  wc_affects_whole_world r = false /\ boxesOverlap (wc_affected_region r) region = false.

Lemma scan_changes_spec `{EigenOps} identity older region records expected :
  older <= expected ->
  scan_changes identity older region expected records = false <->
  (forall revision, older < revision <= expected ->
     exists r, records !! Z.to_nat (expected - revision) = Some r /\
       harmless identity region revision r).
Proof.
  revert expected. induction records as [|r rs IH]; intros expected Hle; simpl.
  - rewrite Z.ltb_ge. split; [lia|]. intros Hall.
    destruct (Z.eq_dec older expected); [lia|]. destruct (Hall expected) as (r & Hr & _); [lia|done].
  - destruct (expected <=? older) eqn:E0; [rewrite Z.ltb_ge; split; intros; [lia|lia]|].
    unfold history_mismatch. split.
    + guard_cases; try done. intros Hs. bsplit. intros revision Hr.
      destruct (Z.eq_dec revision expected) as [->|Hne].
      * exists r. rewrite Z.sub_diag. split; [done|]. unfold harmless. split_and!; lia || done.
      * rewrite (IH (expected - 1)) in Hs by lia. destruct (Hs revision) as (r' & Hr' & ?); [lia|].
        exists r'. split; [|done].
        replace (Z.to_nat (expected - revision)) with (S (Z.to_nat (expected - 1 - revision))) by lia.
        done.
    + intros Hall. destruct (Hall expected) as (r' & Hr' & H1 & H2 & H3 & H4 & H5); [lia|].
      rewrite Z.sub_diag in Hr'. injection Hr' as <-. rewrite H1, H2, H3, H4, H5, !Z.eqb_refl. simpl.
      apply IH; [lia|]. intros revision Hr. destruct (Hall revision) as (r2 & Hr2 & ?); [lia|].
      exists r2. split; [|done].
      replace (Z.to_nat (expected - revision)) with (S (Z.to_nat (expected - 1 - revision))) in Hr2 by lia.
      done.
Qed.

Lemma unaffected_proven `{EigenOps} (s : MappingWorldSnapshot) (older : WorldSnapshotIdentity)
    (region : AxisAlignedBox) :
  let now := snap_identity s in
  snap_changedRegionIntersectsSince s older region = false ->
  AxisAlignedBox_valid region = true /\
  wi_localization_epoch older = wi_localization_epoch now /\
  wi_generation older = wi_generation now /\
  (older = now \/
   (wi_revision older < wi_revision now /\
    wi_observation_stamp_ns older <= wi_observation_stamp_ns now /\
    exists h, snap_history s = Some h /\
      forall revision, wi_revision older < revision <= wi_revision now ->
        exists r, wh_records h !! Z.to_nat (wi_revision now - revision) = Some r /\
          harmless now region revision r)).
Proof.
  cbv zeta. unfold snap_changedRegionIntersectsSince. cbv zeta.
  destruct (_ || _) eqn:E; [done|]. bsplit. destruct (_ =? _) eqn:E1.
  - intros ?. bsplit. split_and!; [done..|]. left.
      destruct older, (snap_identity s); simpl in *; f_equal; lia.
  - destruct (_ <? _) eqn:E2; [done|]. destruct (snap_history s) as [h|]; [|done].
      destruct (Z.of_nat _ <? _) eqn:E3; [done|]. intros Hs. bsplit. split_and!; [done..|].
      right. split_and!; [lia|lia|]. exists h. split; [done|].
      apply scan_changes_spec; [lia|done].
Qed.

(** The change query answers "unaffected" exactly when it can prove it: for a
    valid region and an identity of the same epoch and generation that is either
    this very identity, or an earlier revision with a stamp that is not later,
    for every revision since which the history holds, at its place, the record of
    that revision, local and with a valid region disjoint from the asked one. A
    missing, truncated, reordered or foreign history answers "affected". *)
Theorem unaffected_exact `{EigenOps} (s : MappingWorldSnapshot) (older : WorldSnapshotIdentity)
    (region : AxisAlignedBox) :
  let now := snap_identity s in
  snap_changedRegionIntersectsSince s older region = false <->
  AxisAlignedBox_valid region = true /\
  wi_localization_epoch older = wi_localization_epoch now /\
  wi_generation older = wi_generation now /\
  (older = now \/
   (wi_revision older < wi_revision now /\
    wi_observation_stamp_ns older <= wi_observation_stamp_ns now /\
    exists h, snap_history s = Some h /\
      forall revision, wi_revision older < revision <= wi_revision now ->
        exists r, wh_records h !! Z.to_nat (wi_revision now - revision) = Some r /\
          harmless now region revision r)).
Proof.
  cbv zeta. split; [apply unaffected_proven|].
  unfold snap_changedRegionIntersectsSince. cbv zeta.
  intros (-> & -> & -> & Hor). rewrite !Z.eqb_refl. simpl.
  destruct Hor as [->|(Hr & Ht & h & -> & Hall)].
  - rewrite Z.ltb_irrefl, Z.eqb_refl. simpl. by rewrite Z.eqb_refl.
  - replace (_ <? wi_revision older) with false by (symmetry; lia). simpl.
    replace (wi_revision older =? _) with false by (symmetry; lia).
    replace (_ <? wi_observation_stamp_ns older) with false by (symmetry; lia).
    assert ((Z.of_nat (length (wh_records h)) <? wi_revision (snap_identity s) - wi_revision older)
            = false) as ->.
    { destruct (Hall (wi_revision older + 1)) as (r & Hl%lookup_lt_Some & _); lia. }
    apply scan_changes_spec; [lia|done].
Qed.

(** ** A concrete world *)

Definition demo_layout : PlanningGridLayout :=
  mkLayout (f64_of_Z 1) (Idx 0 (-1) 0) (Idx 3 2 1) (Vec3 (f64_of_Z 1) fzero fzero)
    (Vec3 (f64_of_Z 3) (f64_of_Z 2) (f64_of_Z 1)).

(** Known free everywhere, nothing inflated. *)
Definition demo_grid : PlanningGrid :=
  mkPlanningGrid demo_layout (mkInflatedGrid demo_layout (replicate 6 0) []) (replicate 6 4)
    (Some [Idx 0 0 0]) false false fzero (f64_of_Z 5) fzero (f64_of_Z 5) fzero.

(** One cell becomes occupied. *)
Definition demo_patch : PlanningGridPatch :=
  let cell := mkLayout (f64_of_Z 1) (Idx 2 0 0) (Idx 1 1 1) vec3_zero vec3_zero in
  mkGridPatch cell (mkInflatedGrid cell [1] []) [3].

Definition demo_root : MappingWorldSnapshot := RootSnapshot demo_grid (mkIdentity 1 1 1 10) None.
Definition demo_patched : MappingWorldSnapshot :=
  PatchSnapshot demo_root demo_patch (mkIdentity 1 1 2 20) None.

Lemma demo_patched_built : @built eigen_reference demo_patched.
Proof.
  apply (@built_patch eigen_reference demo_root demo_patch (mkIdentity 1 1 2 20) None).
  - by apply (@built_root eigen_reference demo_grid (mkIdentity 1 1 1 10) None); vm_compute.
  - by vm_compute.
Qed.

