(* ===== verification/MapRay.v ===== *)
(** * Segments through the map snapshot

    [observedOccupiedTubeIsClear] of [continuous_clearance.hpp], the voxel
    traversals [isSegmentTraversable] and
    [isSegmentTraversableWithCurrentBodySupport] of [mapping_world_snapshot.hpp],
    its [diagnosticSnapshot], and the view it offers to the consumers.

    Both traversals are a [while (current != end_index)] loop: [march] runs it
    with fuel, and is [None] when the fuel ends before the loop does. *)

From S2P Require Import Prelude Float64 Geometry World WorldGrid MapSnapshot.
From Stdlib Require Import Floats.SpecFloat.

(** ** The occupied tube around a segment *)

Definition kClearanceToleranceM : f64 := f64_lit 1 100.

(** [static_cast<long double>(a) - static_cast<long double>(b)] *)
Definition f80_diff (a b : f64) : f80 := f80_sub (f80_of_f64 a) (f80_of_f64 b).

(** One axis of the query box. *)
Definition tube_axis (start stop : f64) (query_radius : f80) : option (f64 * f64) :=
  let lower := f80_sub (fmin (f80_of_f64 start) (f80_of_f64 stop)) query_radius in
  let upper := f80_add (fmax (f80_of_f64 start) (f80_of_f64 stop)) query_radius in
  if negb (isfinite lower) || negb (isfinite upper) || flt lower (f80_of_f64 (fopp f64_max))
     || fgt upper (f80_of_f64 f64_max) then None
  else Some (f64_of_f80 lower, f64_of_f80 upper).

(** [sum += a * b] over the axes, from [0.0L] *)
Definition f80_sum3 (a b : list f80) : f80 :=
  foldl (fun sum d => f80_add sum (f80_mul d.1 d.2)) fzero (zip a b).

Definition segment_deltas (start stop : vec3) : list f80 :=
  zip_with f80_diff (v_coeffs stop) (v_coeffs start).

(** The distance of an observed point to the segment; [None] rejects. *)
Definition tube_projection (start stop point : vec3) (segment_squared_norm : f80) : option f80 :=
  if fgt segment_squared_norm (f80_of_f64 f64_epsilon) then
    let numerator :=
      f80_sum3 (zip_with f80_diff (v_coeffs point) (v_coeffs start)) (segment_deltas start stop) in
    if negb (isfinite numerator) then None
    else Some (fclamp (f80_div numerator segment_squared_norm) fzero (f80_of_Z 1))
  else Some fzero.

Definition axis_residual (projection : f80) (start stop point : f64) : f80 :=
  f80_sub (f80_of_f64 point)
    (f80_add (f80_of_f64 start) (f80_mul projection (f80_diff stop start))).

Definition tube_distance (start stop point : vec3) (projection : f80) : f80 :=
  let residuals :=
    [axis_residual projection (vx start) (vx stop) (vx point);
     axis_residual projection (vy start) (vy stop) (vy point);
     axis_residual projection (vz start) (vz stop) (vz point)] in
  f80_sqrt (f80_sum3 residuals residuals).

Section Tube.
Context `{EigenOps}.

Definition tube_point_clear (start stop : vec3) (segment_squared_norm minimum_clearance : f80)
    (point : vec3) : bool :=
  v_allFinite point &&
  match tube_projection start stop point segment_squared_norm with
  | None => false
  | Some projection =>
      let distance := tube_distance start stop point projection in
      isfinite distance && negb (fle distance minimum_clearance)
  end.

(** [observedOccupiedPoints] is the query of the world it is given. *)
Definition observedOccupiedTubeIsClear (observedOccupiedPoints : AxisAlignedBox -> list vec3)
    (start stop : vec3) (radius_m : f64) : bool :=
  if negb (v_allFinite start) || negb (v_allFinite stop) || negb (isfinite radius_m)
     || flt radius_m fzero then false
  else
    let query_radius := f80_add (f80_of_f64 radius_m) (f80_of_f64 kClearanceToleranceM) in
    let minimum_clearance :=
      fmax fzero (f80_sub (f80_of_f64 radius_m) (f80_of_f64 kClearanceToleranceM)) in
    if negb (isfinite query_radius) || negb (isfinite minimum_clearance)
       || fgt query_radius (f80_of_f64 f64_max) then false
    else
      match tube_axis (vx start) (vx stop) query_radius, tube_axis (vy start) (vy stop) query_radius,
            tube_axis (vz start) (vz stop) query_radius with
      | Some (x0, x1), Some (y0, y1), Some (z0, z1) =>
          let query_box := mkBox (Vec3 x0 y0 z0) (Vec3 x1 y1 z1) in
          if negb (AxisAlignedBox_valid query_box) then false
          else
            let deltas := segment_deltas start stop in
            let segment_squared_norm := f80_sum3 deltas deltas in
            if negb (forallb isfinite deltas) || negb (isfinite segment_squared_norm) then false
            else forallb (tube_point_clear start stop segment_squared_norm minimum_clearance)
                   (observedOccupiedPoints query_box)
      | _, _, _ => false
      end.
End Tube.

(** ** Voxel traversal *)

(** [while (!stop(st)) { ... }], whose body goes on ([Some]) or returns false. *)
Fixpoint march {S : Type} (stop : S -> bool) (body : S -> option S) (fuel : nat) (st : S)
    : option (option S) :=
  if stop st then Some (Some st)
  else
    match fuel with
    | O => None
    | S fuel =>
        match body st with
        | None => Some None
        | Some st' => march stop body fuel st'
        end
    end.

(** [(e > s) - (e < s)] *)
Definition axis_direction (s e : Z) : Z := Z.b2z (s <? e) - Z.b2z (e <? s).
Definition grid_direction (s e : GridIndex3) : GridIndex3 :=
  Idx (axis_direction (ix s) (ix e)) (axis_direction (iy s) (iy e)) (axis_direction (iz s) (iz e)).

(** [std::numeric_limits<double>::max()], the time of an axis that never crosses *)
Definition never : f64 := f64_max.

Definition step_time (direction : Z) (absolute_delta length resolution : f64) : f64 :=
  let component := f64_div absolute_delta length in
  if direction =? 0 then never else f64_div resolution component.

Definition bound_time (direction start_index : Z) (start absolute_delta length resolution : f64)
    : f64 :=
  let center := f64_mul (f64_add (f64_of_Z start_index) (f64_lit 1 2)) resolution in
  let boundary :=
    f64_add center (f64_mul (f64_mul (f64_of_Z direction) resolution) (f64_lit 1 2)) in
  let component := f64_div absolute_delta length in
  if direction =? 0 then never else f64_div (fabs (f64_sub boundary start)) component.

Definition step_times (direction : GridIndex3) (delta : vec3) (length resolution : f64) : vec3 :=
  Vec3 (step_time (ix direction) (fabs (vx delta)) length resolution)
       (step_time (iy direction) (fabs (vy delta)) length resolution)
       (step_time (iz direction) (fabs (vz delta)) length resolution).

Definition bound_times (direction start_index : GridIndex3) (start delta : vec3)
    (length resolution : f64) : vec3 :=
  Vec3 (bound_time (ix direction) (ix start_index) (vx start) (fabs (vx delta)) length resolution)
       (bound_time (iy direction) (iy start_index) (vy start) (fabs (vy delta)) length resolution)
       (bound_time (iz direction) (iz start_index) (vz start) (fabs (vz delta)) length resolution).

(** [if (current.x() == end_index.x()) next_x = never;] on every axis *)
Definition retire (current end_index : GridIndex3) (next : vec3) : vec3 :=
  Vec3 (if ix current =? ix end_index then never else vx next)
       (if iy current =? iy end_index then never else vy next)
       (if iz current =? iz end_index then never else vz next).

(** [std::min({next_x, next_y, next_z})] *)
Definition first_boundary (next : vec3) : f64 := fmin (fmin (vx next) (vy next)) (vz next).

Definition includeBoundaryScale (scale boundary : f64) : f64 :=
  if isfinite boundary && fne boundary never then fmax scale (fabs boundary) else scale.

(** [32.0 * epsilon * scale] *)
Definition tie_tolerance (scale : f64) : f64 :=
  f64_mul (f64_mul (f64_of_Z 32) f64_epsilon) scale.

Definition boundary_scale (next : vec3) : f64 :=
  includeBoundaryScale
    (includeBoundaryScale
      (includeBoundaryScale (fmax f64_one (fabs (first_boundary next))) (vx next)) (vy next)) (vz next).

Definition tied_axis (next boundary tolerance : f64) : bool :=
  fne next never && fle (fabs (f64_sub next boundary)) tolerance.

(** The bit mask of the axes tied at a boundary. *)
Definition tied_axes (next : vec3) (boundary tolerance : f64) : Z :=
  Z.b2z (tied_axis (vx next) boundary tolerance)
  + 2 * Z.b2z (tied_axis (vy next) boundary tolerance)
  + 4 * Z.b2z (tied_axis (vz next) boundary tolerance).

(** [for (subset = mask; subset > 0; subset = (subset - 1) & mask)], on three bits *)
Fixpoint submasks_from (fuel : nat) (mask subset : Z) : list Z :=
  match fuel with
  | O => []
  | S fuel =>
      if 0 <? subset then subset :: submasks_from fuel mask (Z.land (subset - 1) mask) else []
  end.
Definition submasks (mask : Z) : list Z := submasks_from 8 mask mask.

(** [current] moved along the axes of a mask. *)
Definition move (direction : GridIndex3) (mask : Z) (current : GridIndex3) : GridIndex3 :=
  Idx (if Z.testbit mask 0 then ix current + ix direction else ix current)
      (if Z.testbit mask 1 then iy current + iy direction else iy current)
      (if Z.testbit mask 2 then iz current + iz direction else iz current).

Definition add_steps (step : vec3) (mask : Z) (next : vec3) : vec3 :=
  Vec3 (if Z.testbit mask 0 then f64_add (vx next) (vx step) else vx next)
       (if Z.testbit mask 1 then f64_add (vy next) (vy step) else vy next)
       (if Z.testbit mask 2 then f64_add (vz next) (vz step) else vz next).

(** The constants of one traversal. *)
Record ray : Type := mkRay {
  ray_direction : GridIndex3;
  ray_end : GridIndex3;
  ray_step : vec3
}.

(** Where it is. *)
Record ray_state : Type := mkRayState { rs_current : GridIndex3; rs_next : vec3 }.

(** The body of the loop of [isSegmentTraversable]; [allowed] is
    [point_is_traversable(indexToPosition(cell, layer))]. *)
Definition ray_round (allowed : GridIndex3 -> bool) (r : ray) (st : ray_state) : option ray_state :=
  let current := rs_current st in
  if negb (allowed current) then None
  else
    let next := retire current (ray_end r) (rs_next st) in
    let boundary := first_boundary next in
    if negb (isfinite boundary) then None
    else
      let tied := tied_axes next boundary (tie_tolerance (boundary_scale next)) in
      if negb (forallb (fun subset => allowed (move (ray_direction r) subset current))
                 (submasks tied)) then None
      else Some (mkRayState (move (ray_direction r) tied current) (add_steps (ray_step r) tied next)).

Definition ray_done (r : ray) (st : ray_state) : bool := rs_current st ==? ray_end r.

Section Segments.
Context `{EigenOps}.

Definition point_is_traversable (s : MappingWorldSnapshot) (layer : GridLayer)
    (unknown_policy : UnknownPolicy) (point : vec3) : bool :=
  containsLayer s point layer && isCellTraversable (snap_classify s point layer) unknown_policy.

Definition cell_is_traversable (s : MappingWorldSnapshot) (layer : GridLayer)
    (unknown_policy : UnknownPolicy) (cell : GridIndex3) : bool :=
  point_is_traversable s layer unknown_policy (snap_indexToPosition s cell layer).

(** What follows the traversal. *)
Definition segment_end_clear (s : MappingWorldSnapshot) (start stop : vec3) (layer : GridLayer)
    (unknown_policy : UnknownPolicy) : bool :=
  if negb (point_is_traversable s layer unknown_policy stop) then false
  else
    match layer with
    | kEvidence => true
    | kInflated =>
        observedOccupiedTubeIsClear (snap_observedOccupiedPoints s) start stop
          (pg_occupied_inflation_radius_m (rootGrid s))
    end.

(** The ray from the voxel of [start] to the voxel of [stop]. *)
Definition segment_ray (start_index end_index : GridIndex3) (start stop : vec3) (resolution : f64)
    : ray * ray_state :=
  let delta := v_sub stop start in
  let length := v_norm delta in
  let direction := grid_direction start_index end_index in
  (mkRay direction end_index (step_times direction delta length resolution),
   mkRayState start_index (bound_times direction start_index start delta length resolution)).

(** [isSegmentTraversable] with [fuel] rounds of its loop. *)
Definition segment_traversable_run (fuel : nat) (s : MappingWorldSnapshot) (start stop : vec3)
    (layer : GridLayer) (unknown_policy : UnknownPolicy) : option bool :=
  if negb (v_allFinite start) || negb (v_allFinite stop) || negb (containsLayer s start layer)
     || negb (containsLayer s stop layer) then Some false
  else
    let resolution := layer_resolution (rootGrid s) layer in
    let start_index := snap_positionToIndex s start layer in
    let end_index := snap_positionToIndex s stop layer in
    if negb (point_is_traversable s layer unknown_policy start) then Some false
    else if start_index ==? end_index then Some (segment_end_clear s start stop layer unknown_policy)
    else
      let length := v_norm (v_sub stop start) in
      if negb (isfinite resolution) || fle resolution fzero || negb (isfinite length)
         || fle length fzero then Some false
      else
        let rs := segment_ray start_index end_index start stop resolution in
        match march (ray_done rs.1) (ray_round (cell_is_traversable s layer unknown_policy) rs.1)
                fuel rs.2 with
        | None => None
        | Some None => Some false
        | Some (Some _) => Some (segment_end_clear s start stop layer unknown_policy)
        end.

(** Enough fuel: the faces between the voxels of the two ends, and one round. *)
Definition grid_distance (a b : GridIndex3) : nat :=
  Z.to_nat (Z.abs (ix b - ix a) + Z.abs (iy b - iy a) + Z.abs (iz b - iz a)).

Definition segment_fuel (s : MappingWorldSnapshot) (start stop : vec3) (layer : GridLayer) : nat :=
  S (grid_distance (snap_positionToIndex s start layer) (snap_positionToIndex s stop layer)).

Definition snap_isSegmentTraversable (s : MappingWorldSnapshot) (start stop : vec3)
    (layer : GridLayer) (unknown_policy : UnknownPolicy) : bool :=
  default false
    (segment_traversable_run (segment_fuel s start stop layer) s start stop layer unknown_policy).
End Segments.

(** ** Traversal with the measured body *)

(** One axis of the start face classification: whether the coordinate lies on a
    voxel face, and whether the traversal enters the cell below it. *)
Definition on_face (coordinate : f64) : bool :=
  fle (fabs (f64_sub coordinate (f64_round coordinate)))
    (f64_mul (f64_mul (f64_of_Z 32) f64_epsilon) (fmax f64_one (fabs coordinate))).

Definition face_mask (start : vec3) (resolution : f64) : Z :=
  Z.b2z (on_face (f64_div (vx start) resolution))
  + 2 * Z.b2z (on_face (f64_div (vy start) resolution))
  + 4 * Z.b2z (on_face (f64_div (vz start) resolution)).

Definition negative_mask (direction : GridIndex3) : Z :=
  Z.b2z (ix direction <? 0) + 2 * Z.b2z (iy direction <? 0) + 4 * Z.b2z (iz direction <? 0).

Definition lower_axis (on_face : bool) (direction index : Z) : Z :=
  if negb (direction <? 0) then index
  else if on_face && (i32_min <? index) then index - 1 else index.

Definition lower_start (start : vec3) (resolution : f64) (direction index : GridIndex3)
    : GridIndex3 :=
  Idx (lower_axis (on_face (f64_div (vx start) resolution)) (ix direction) (ix index))
      (lower_axis (on_face (f64_div (vy start) resolution)) (iy direction) (iy index))
      (lower_axis (on_face (f64_div (vz start) resolution)) (iz direction) (iz index)).

(** The state of the loop, with the distance reached. *)
Record body_state : Type := mkBodyState { bs_ray : ray_state; bs_distance : f64 }.

(** The body of the loop; [allowed cell b e] is [point_is_allowed] of the cell's
    center on the fractions [b] to [e]. *)
Definition body_round (allowed : GridIndex3 -> f64 -> f64 -> bool) (r : ray) (length : f64)
    (st : body_state) : option body_state :=
  let current := rs_current (bs_ray st) in
  let next := retire current (ray_end r) (rs_next (bs_ray st)) in
  let boundary := first_boundary next in
  let tolerance := tie_tolerance (fmax f64_one (fabs boundary)) in
  if negb (isfinite boundary) || fle boundary (f64_add (bs_distance st) tolerance) then None
  else if negb (allowed current (f64_div (bs_distance st) length)
                  (fmin f64_one (f64_div boundary length))) then None
  else
    let boundary_t := fclamp (f64_div boundary length) fzero f64_one in
    let tied := tied_axes next boundary tolerance in
    if negb (forallb (fun subset =>
                allowed (move (ray_direction r) subset current) boundary_t boundary_t)
               (submasks tied)) then None
    else
      Some (mkBodyState (mkRayState (move (ray_direction r) tied current)
                           (add_steps (ray_step r) tied next)) boundary).

Definition body_done (r : ray) (st : body_state) : bool := ray_done r (bs_ray st).

Section BodySegments.
Context `{EigenOps, EigenRotOps}.

Definition point_is_allowed (s : MappingWorldSnapshot) (support : CurrentBodySupport)
    (start stop : vec3) (layer : GridLayer) (point : vec3) (interval_begin interval_end : f64)
    : bool :=
  match snap_classify s point layer with
  | kOccupied | kOutOfMap | kUndefined => false
  | kKnownFree => true
  | kFrontier => false
  | kUnknown =>
      unknownIntervalWithinInitialBodyPrefix support start stop interval_begin interval_end
        (snap_identity s) (cs_source_stamp_ns support) fzero
  end.

Definition cell_is_allowed (s : MappingWorldSnapshot) (support : CurrentBodySupport)
    (start stop : vec3) (layer : GridLayer) (cell : GridIndex3) (b e : f64) : bool :=
  point_is_allowed s support start stop layer (snap_indexToPosition s cell layer) b e.

(** The cells touching the start, by the faces it lies on. *)
Definition start_cells_allowed (allowed : GridIndex3 -> f64 -> f64 -> bool) (faces negative : Z)
    (index : GridIndex3) : bool :=
  forallb (fun subset =>
      negb (Z.land subset (Z.lnot negative) =? 0)
      || allowed (move (Idx (-1) (-1) (-1)) subset index) fzero fzero)
    (submasks faces ++ [0]).

(** The tube test that ends the traversal. *)
Definition tube_clear (s : MappingWorldSnapshot) (start stop : vec3) (layer : GridLayer) : bool :=
  match layer with
  | kEvidence => true
  | kInflated =>
      observedOccupiedTubeIsClear (snap_observedOccupiedPoints s) start stop
        (pg_occupied_inflation_radius_m (rootGrid s))
  end.

(** From the adjusted start cell on. *)
Definition body_march (fuel : nat) (s : MappingWorldSnapshot) (support : CurrentBodySupport)
    (start stop : vec3) (layer : GridLayer) (start_index end_index : GridIndex3) : option bool :=
  let allowed := cell_is_allowed s support start stop layer in
  if start_index ==? end_index then
    Some (allowed start_index fzero f64_one && tube_clear s start stop layer)
  else
    let length := v_norm (v_sub stop start) in
    let rs := segment_ray start_index end_index start stop (layer_resolution (rootGrid s) layer) in
    match march (body_done rs.1) (body_round allowed rs.1 length) fuel (mkBodyState rs.2 fzero) with
    | None => None
    | Some None => Some false
    | Some (Some st) =>
        Some (allowed end_index (f64_div (bs_distance st) length) f64_one
              && tube_clear s start stop layer)
    end.

(** [isSegmentTraversableWithCurrentBodySupport] with [fuel] rounds. *)
Definition body_traversable_run (fuel : nat) (s : MappingWorldSnapshot) (start stop : vec3)
    (layer : GridLayer) (unknown_policy : UnknownPolicy) (support : option CurrentBodySupport)
    : option bool :=
  match support with
  | None => Some false
  | Some support =>
      if negb (v_allFinite start) || negb (v_allFinite stop) || negb (containsLayer s start layer)
         || negb (containsLayer s stop layer) then Some false
      else
        let length := v_norm (v_sub stop start) in
        let resolution := layer_resolution (rootGrid s) layer in
        if negb (isfinite length) || negb (isfinite resolution) || fle resolution fzero
           || negb (matchesWorldSnapshot support (snap_identity s) (cs_source_stamp_ns support))
        then Some false
        else
          let original := snap_positionToIndex s start layer in
          let end_index := snap_positionToIndex s stop layer in
          let direction := grid_direction original end_index in
          if negb (start_cells_allowed (cell_is_allowed s support start stop layer)
                     (face_mask start resolution) (negative_mask direction) original)
          then Some false
          else body_march fuel s support start stop layer
                 (lower_start start resolution direction original) end_index
  end.

(** The adjusted start lies at most one voxel per axis before the start. *)
Definition body_fuel (s : MappingWorldSnapshot) (start stop : vec3) (layer : GridLayer) : nat :=
  segment_fuel s start stop layer + 3.

Definition snap_isSegmentTraversableWithCurrentBodySupport (s : MappingWorldSnapshot)
    (start stop : vec3) (layer : GridLayer) (unknown_policy : UnknownPolicy)
    (support : ptr CurrentBodySupport) : bool :=
  default false
    (body_traversable_run (body_fuel s start stop layer) s start stop layer unknown_policy
       (sp_obj <$> support)).

(** ** The view of the consumers *)

Definition snapshot_view (s : MappingWorldSnapshot) : WorldModelView := {|
  identity := snap_identity s;
  classify := snap_classify s;
  contains := snap_contains s;
  isSegmentTraversable := snap_isSegmentTraversable s;
  changedRegionIntersectsSince := snap_changedRegionIntersectsSince s
|}.

Definition snapshot_grid_view (s : MappingWorldSnapshot) : GridWorldView := {|
  gv_view := snapshot_view s;
  gv_geometry := snap_geometry s;
  positionToIndex := snap_positionToIndex s;
  indexToPosition := snap_indexToPosition s;
  nearestNotOccupied := snap_nearestNotOccupied s;
  isSegmentTraversableWithCurrentBodySupport := snap_isSegmentTraversableWithCurrentBodySupport s
|}.
End BodySegments.

(** ** The diagnostic materialization *)

Record WorldModelDiagnosticSnapshot : Type := mkDiagnostic {
  wd_identity : WorldSnapshotIdentity;
  wd_geometry : WorldGeometry;
  wd_unknown_inflation_enabled : bool;
  wd_virtual_ground_ceiling_enabled : bool;
  wd_virtual_ground_m : f64;
  wd_virtual_ceiling_m : f64;
  wd_inflated_virtual_ground_m : f64;
  wd_inflated_virtual_ceiling_m : f64;
  wd_evidence_states : list CellState;
  wd_inflated_states : list CellState;
  wd_nearest_offsets : list GridIndex3;
  wd_complete : bool
}.

(** [cellCount] *)
Fixpoint cell_count (dimensions : list Z) (count : Z) : option Z :=
  match dimensions with
  | [] => Some count
  | d :: dimensions =>
      if (d =? 0) || (u64_max / d <? count) then None else cell_count dimensions (count * d)
  end.

(** The cells of a box, in the order of the three loops. *)
Definition box_cells (b : GridBounds) : list GridIndex3 :=
  let m := global_min_index b in
  concat (map (fun x => concat (map (fun y => map (fun z => Idx (ix m + x) (iy m + y) (iz m + z))
    (seqZ 0 (iz (dimensions b)))) (seqZ 0 (iy (dimensions b))))) (seqZ 0 (ix (dimensions b)))).

Definition materialize `{EigenOps} (s : MappingWorldSnapshot) (b : GridBounds) (layer : GridLayer)
    : list CellState :=
  map (fun index => snap_classify s (snap_indexToPosition s index layer) layer) (box_cells b).

Definition snap_diagnosticSnapshot `{EigenOps} (s : MappingWorldSnapshot)
    : option WorldModelDiagnosticSnapshot :=
  let geometry := snap_geometry s in
  if negb (GridBounds_valid (evidence_bounds geometry))
     || negb (GridBounds_valid (inflated_bounds geometry)) then None
  else
    match cell_count (idx_coeffs (dimensions (evidence_bounds geometry))) 1,
          cell_count (idx_coeffs (dimensions (inflated_bounds geometry))) 1 with
    | Some evidence_count, Some inflated_count =>
        let g := rootGrid s in
        let evidence := materialize s (evidence_bounds geometry) kEvidence in
        let inflated := materialize s (inflated_bounds geometry) kInflated in
        if (Z.of_nat (length evidence) =? evidence_count)
           && (Z.of_nat (length inflated) =? inflated_count) then
          Some (mkDiagnostic (snap_identity s) geometry (pg_unknown_inflation_enabled g)
                  (pg_virtual_ground_ceiling_enabled g) (pg_virtual_ground_m g)
                  (pg_virtual_ceiling_m g) (pg_inflated_virtual_ground_m g)
                  (pg_inflated_virtual_ceiling_m g) evidence inflated
                  (default [] (pg_nearest_offsets g)) true)
        else None
    | _, _ => None
    end.
