(* ===== verification/MapRayProps.v ===== *)
(** * Properties of the snapshot's queries

    Every query respects [same_world], so a chain of patches answers as the full
    grid it stands for; the two voxel traversals terminate within the distance
    of their ends whenever they make progress, and what an accepted segment
    certifies. *)

From S2P Require Import Prelude Float64 Float64Facts FloatOrder Geometry World WorldGrid MapSnapshot MapSnapshotProps MapRay.
From Stdlib Require Import Floats.SpecFloat.

(** ** Queries see the world, not its storage *)

Lemma march_ext {S} (stop : S -> bool) body body' fuel st :
  (forall x, body x = body' x) -> march stop body fuel st = march stop body' fuel st.
Proof.
  intros Hb. revert st. induction fuel as [|n IH]; intros st; simpl; [done|].
  rewrite Hb. destruct (stop st); [done|]. destruct (body' st); auto.
Qed.

Lemma forallb_ext {A} (f g : A -> bool) l : (forall x, f x = g x) -> forallb f l = forallb g l.
Proof. intros E. induction l; simpl; [done|]. by rewrite E, IHl. Qed.

Lemma ray_round_ext allowed allowed' r st :
  (forall c, allowed c = allowed' c) -> ray_round allowed r st = ray_round allowed' r st.
Proof.
  intros E. unfold ray_round. cbv zeta. rewrite E.
  by erewrite forallb_ext by (intros; apply E).
Qed.

Lemma body_round_ext allowed allowed' r len st :
  (forall c b e, allowed c b e = allowed' c b e) ->
  body_round allowed r len st = body_round allowed' r len st.
Proof.
  intros E. unfold body_round. cbv zeta. rewrite E.
  by erewrite forallb_ext by (intros; apply E).
Qed.

Section Same.
Context `{EigenOps} (s t : MappingWorldSnapshot) (Hst : same_world s t).

Lemma same_index p l : snap_positionToIndex s p l = snap_positionToIndex t p l.
Proof.
  unfold snap_positionToIndex, layer_resolution, layer_layout.
  rewrite_frame (sw_frame _ _ Hst). done.
Qed.

Lemma same_position i l : snap_indexToPosition s i l = snap_indexToPosition t i l.
Proof.
  unfold snap_indexToPosition, layer_resolution, layer_layout.
  rewrite_frame (sw_frame _ _ Hst). done.
Qed.

Lemma same_geometry : snap_geometry s = snap_geometry t.
Proof. unfold snap_geometry. cbv zeta. rewrite_frame (sw_frame _ _ Hst). done. Qed.

Lemma same_containsLayer p l : containsLayer s p l = containsLayer t p l.
Proof. unfold containsLayer. rewrite_frame (sw_frame _ _ Hst). done. Qed.

Lemma same_contains p : snap_contains s p = snap_contains t p.
Proof. unfold snap_contains. rewrite_frame (sw_frame _ _ Hst). done. Qed.

Lemma contains_offset w p l : containsLayer w p l = true ->
  is_Some (offset (pg_base_layout (rootGrid w)) (snap_positionToIndex w p kEvidence)).
Proof.
  unfold containsLayer, checkedOffset, snap_positionToIndex. destruct (v_allFinite p); [|done].
  simpl. destruct (checkedPositionToIndex p _) as [i|]; [|done]. simpl.
  destruct (offset _ i); [eauto|done].
Qed.

Lemma same_classify p l : snap_classify s p l = snap_classify t p l.
Proof.
  unfold snap_classify, beyond_virtual. cbv zeta. rewrite <- !same_index, <- !same_containsLayer.
  rewrite_frame (eq_sym (sw_frame _ _ Hst)).
  destruct (v_allFinite p); [|done]. destruct l; simpl.
  - destruct (_ && _); [done|]. destruct (containsLayer s p kEvidence) eqn:E; [|done].
    by apply (sw_base _ _ Hst), contains_offset with (1 := E).
  - destruct (containsLayer s p kInflated) eqn:E; [|done]. simpl. destruct (_ && _); [done|].
    destruct (offset _ _) eqn:Eo; [|done].
    rewrite <- (sw_occupied _ _ Hst) by eauto. destruct (_ =? 0); [|done]. simpl.
    destruct (pg_unknown_inflation_enabled _) eqn:Eu.
    + by rewrite <- (sw_unknown _ _ Hst) by eauto.
    + by apply (sw_base _ _ Hst), contains_offset with (1 := E).
Qed.

Lemma same_nearest p l d : snap_nearestNotOccupied s p l d = snap_nearestNotOccupied t p l d.
Proof.
  unfold snap_nearestNotOccupied. rewrite_frame (sw_frame _ _ Hst).
  destruct (_ || _); [done|]. destruct (checkedPositionToIndex _ _) as [i|]; [|done].
  induction (default [] _) as [|o os IH]; simpl; [done|]. destruct (checkedIndexAdd i o); [|done].
  rewrite same_position, same_classify, IH. done.
Qed.

Lemma same_clamp b : snap_clampToLocalBounds s b = snap_clampToLocalBounds t b.
Proof.
  unfold snap_clampToLocalBounds. cbv zeta. rewrite !same_position.
  rewrite_frame (sw_frame _ _ Hst). destruct (_ || _); [done|].
  destruct (checkedIndexAdd _ _); [|done]. by rewrite same_position.
Qed.

Lemma same_observed b : snap_observedOccupiedPoints s b = snap_observedOccupiedPoints t b.
Proof.
  unfold snap_observedOccupiedPoints. rewrite <- same_clamp. destruct (fle _ _); [done|].
  rewrite <- !same_index. f_equal. apply map_ext. intros x. f_equal. apply map_ext. intros y.
  f_equal. apply map_ext. intros z. unfold observed_at. rewrite <- same_position.
  rewrite_frame (eq_sym (sw_frame _ _ Hst)). destruct (offset _ _) eqn:E; [|done].
  by rewrite (sw_base _ _ Hst) by eauto.
Qed.

Lemma same_tube p q r :
  observedOccupiedTubeIsClear (snap_observedOccupiedPoints s) p q r =
  observedOccupiedTubeIsClear (snap_observedOccupiedPoints t) p q r.
Proof.
  unfold observedOccupiedTubeIsClear. cbv zeta. destruct (_ || _); [done|]. destruct (_ || _); [done|].
  do 3 (destruct (tube_axis _ _ _) as [[]|]; [|done]). by rewrite same_observed.
Qed.

Lemma same_traversable l u p : point_is_traversable s l u p = point_is_traversable t l u p.
Proof. unfold point_is_traversable. by rewrite same_containsLayer, same_classify. Qed.

Lemma same_cell_traversable l u c : cell_is_traversable s l u c = cell_is_traversable t l u c.
Proof. unfold cell_is_traversable. by rewrite same_position, same_traversable. Qed.

Lemma same_tube_clear p q l : tube_clear s p q l = tube_clear t p q l.
Proof.
  unfold tube_clear. destruct l; [done|]. rewrite same_tube.
  rewrite_frame (sw_frame _ _ Hst). done.
Qed.

Lemma same_resolution l : layer_resolution (rootGrid s) l = layer_resolution (rootGrid t) l.
Proof. unfold layer_resolution, layer_layout. rewrite_frame (sw_frame _ _ Hst). done. Qed.

Lemma same_segment_run n p q l u :
  segment_traversable_run n s p q l u = segment_traversable_run n t p q l u.
Proof.
  unfold segment_traversable_run. cbv zeta.
  rewrite !same_containsLayer, !same_index, same_resolution, same_traversable.
  assert (segment_end_clear s p q l u = segment_end_clear t p q l u) as ->.
  { unfold segment_end_clear. rewrite same_traversable. destruct (negb _); [done|].
    apply same_tube_clear. }
  erewrite march_ext; [done|]. intros x. apply ray_round_ext, same_cell_traversable.
Qed.

Lemma same_segment p q l u : snap_isSegmentTraversable s p q l u = snap_isSegmentTraversable t p q l u.
Proof.
  unfold snap_isSegmentTraversable, segment_fuel. by rewrite !same_index, same_segment_run.
Qed.

Lemma same_changes older region :
  snap_changedRegionIntersectsSince s older region = snap_changedRegionIntersectsSince t older region.
Proof.
  unfold snap_changedRegionIntersectsSince. by rewrite (sw_identity _ _ Hst), (sw_history _ _ Hst).
Qed.

Lemma same_diagnostic : snap_diagnosticSnapshot s = snap_diagnosticSnapshot t.
Proof.
  assert (forall b l, materialize s b l = materialize t b l) as Hm.
  { intros b l. apply map_ext. intros i. by rewrite same_position, same_classify. }
  unfold snap_diagnosticSnapshot. cbv zeta. rewrite same_geometry, !Hm, (sw_identity _ _ Hst).
  rewrite_frame (sw_frame _ _ Hst). done.
Qed.

Context `{EigenRotOps}.

Lemma same_allowed sup p q l c b e :
  cell_is_allowed s sup p q l c b e = cell_is_allowed t sup p q l c b e.
Proof.
  unfold cell_is_allowed, point_is_allowed. by rewrite same_position, same_classify, (sw_identity _ _ Hst).
Qed.

Lemma same_body_run n p q l u sup :
  body_traversable_run n s p q l u sup = body_traversable_run n t p q l u sup.
Proof.
  unfold body_traversable_run, body_march, start_cells_allowed. destruct sup as [sup|]; [|done].
  cbv zeta. rewrite !same_containsLayer, same_resolution, (sw_identity _ _ Hst), !same_index.
  rewrite same_tube_clear.
  erewrite (forallb_ext _ _ (submasks _ ++ _)) by (intros; by rewrite same_allowed).
  erewrite march_ext by (intros; apply body_round_ext, same_allowed).
  rewrite same_allowed. destruct (_ || _ || _ || _); [done|]. destruct (_ || _); [done|].
  destruct (negb _); [done|]. destruct (_ ==? _); [done|].
  destruct (march _ _ _ _) as [[st|]|]; [|done..]. by rewrite same_allowed.
Qed.

Lemma same_body_segment p q l u sup :
  snap_isSegmentTraversableWithCurrentBodySupport s p q l u sup =
  snap_isSegmentTraversableWithCurrentBodySupport t p q l u sup.
Proof.
  unfold snap_isSegmentTraversableWithCurrentBodySupport, body_fuel, segment_fuel.
  by rewrite !same_index, same_body_run.
Qed.
End Same.

(** C24. A snapshot stored as patches over older snapshots answers every query as one
    full grid into which the patches were written in order: classification in
    both layers, containment, index conversion, both segment oracles, the nearest
    free cell, the occupied points, the change query and the diagnostic
    materialization, whatever the depth of the chain. *)
Theorem patches_read_as_written_grid `{EigenOps, EigenRotOps} (s : MappingWorldSnapshot) :
  built s ->
  (forall p l, snap_classify s p l = snap_classify (flat s) p l) /\
  (forall p, snap_contains s p = snap_contains (flat s) p) /\
  (forall p l, snap_positionToIndex s p l = snap_positionToIndex (flat s) p l) /\
  (forall p q l u, snap_isSegmentTraversable s p q l u = snap_isSegmentTraversable (flat s) p q l u) /\
  (forall p q l u b, snap_isSegmentTraversableWithCurrentBodySupport s p q l u b =
     snap_isSegmentTraversableWithCurrentBodySupport (flat s) p q l u b) /\
  (forall p l d, snap_nearestNotOccupied s p l d = snap_nearestNotOccupied (flat s) p l d) /\
  (forall b, snap_observedOccupiedPoints s b = snap_observedOccupiedPoints (flat s) b) /\
  (forall older region, snap_changedRegionIntersectsSince s older region =
     snap_changedRegionIntersectsSince (flat s) older region) /\
  snap_geometry s = snap_geometry (flat s) /\
  snap_diagnosticSnapshot s = snap_diagnosticSnapshot (flat s).
Proof.
  intros Hs%built_ok%flat_same_world.
  split_and!; intros; [apply same_classify|apply same_contains|apply same_index|apply same_segment
    |apply same_body_segment|apply same_nearest|apply same_observed|apply same_changes
    |apply same_geometry|apply same_diagnostic]; done.
Qed.

(** ** Ties at a boundary *)

Lemma round_aux_nonneg prec emax m e l : 0 <= m ->
  fle fzero (binary_round_aux prec emax false m e l) = true.
Proof.
  intros Hm. unfold binary_round_aux.
  destruct (shr_fexp prec emax m e l) as [mrs1 e1] eqn:E1. apply shr_fexp_nonneg in E1; [|done].
  destruct (shr_fexp prec emax (round_nearest_even _ _) e1 _) as [mrs2 e2] eqn:E2.
  apply shr_fexp_nonneg in E2.
  - destruct (shr_m mrs2); try done. by destruct (_ <=? _).
  - destruct (round_nearest_even_cases (shr_m mrs1) (loc_of_shr_record mrs1)) as [-> | ->]; lia.
Qed.

Lemma f64_mul_nonneg x y :
  isfinite x = true -> isfinite y = true -> fle fzero x = true -> fle fzero y = true ->
  fle fzero (f64_mul x y) = true.
Proof.
  intros Fx Fy Hx Hy. unfold f64_mul.
  destruct x as [[]|[]| |[] ? ?], y as [[]|[]| |[] ? ?]; try done; by apply round_aux_nonneg.
Qed.

Lemma f64_sub_diag x : isfinite x = true -> fabs (f64_sub x x) = fzero.
Proof.
  destruct x as [[]|[]| |s m e]; try done. intros _. unfold f64_sub. simpl.
  rewrite Z.sub_diag. done.
Qed.

Lemma fabs_finite x : isfinite x = true -> isfinite (fabs x) = true /\ fle fzero (fabs x) = true.
Proof. by destruct x. Qed.

Lemma fmax_scale a b : isfinite a = true /\ fle fzero a = true -> isfinite b = true ->
  isfinite (fmax a (fabs b)) = true /\ fle fzero (fmax a (fabs b)) = true.
Proof.
  intros [Fa Ha] [Fb Hb]%fabs_finite. by destruct (fmax_cases a (fabs b)) as [-> | ->].
Qed.

Lemma include_scale a b : isfinite a = true /\ fle fzero a = true ->
  isfinite (includeBoundaryScale a b) = true /\ fle fzero (includeBoundaryScale a b) = true.
Proof.
  intros Ha. unfold includeBoundaryScale. destruct (isfinite b) eqn:Fb; [|done]. simpl.
  destruct (fne b never); [|done]. by apply fmax_scale.
Qed.

Lemma tie_tolerance_nonneg scale : isfinite scale = true /\ fle fzero scale = true ->
  fle fzero (tie_tolerance scale) = true.
Proof. intros [Fs Hs]. unfold tie_tolerance. by apply f64_mul_nonneg. Qed.

Lemma boundary_scale_ok next : isfinite (first_boundary next) = true ->
  isfinite (boundary_scale next) = true /\ fle fzero (boundary_scale next) = true.
Proof. intros Hb. unfold boundary_scale. do 3 apply include_scale. by apply fmax_scale. Qed.

Lemma feq_finite x m e : fne x (S754_finite false m e) = false -> x = S754_finite false m e.
Proof.
  unfold fne, SFeqb. rewrite negb_false_iff. destruct x as [[]|[]| |[] m' e']; try done.
  simpl. destruct (e' ?= e) eqn:E; try done. apply Z.compare_eq in E as ->.
  destruct (Pos.compare_cont Eq m' m) eqn:E; try done.
  apply Pos.compare_eq in E as ->. done.
Qed.

Lemma feq_never x : fne x never = false -> x = never.
Proof. apply feq_finite. Qed.

Lemma first_boundary_axis next :
  first_boundary next = vx next \/ first_boundary next = vy next \/ first_boundary next = vz next.
Proof.
  unfold first_boundary. destruct (fmin_cases (fmin (vx next) (vy next)) (vz next)) as [-> | ->]; auto.
  destruct (fmin_cases (vx next) (vy next)) as [-> | ->]; auto.
Qed.

Lemma tied_self b tol : isfinite b = true -> fle fzero tol = true -> tied_axis b b tol = fne b never.
Proof. intros Hb Ht. unfold tied_axis. rewrite f64_sub_diag by done. rewrite Ht. by rewrite andb_true_r. Qed.

(** A finite boundary with no tied axis is the sentinel itself. *)
Lemma no_tie_never next tol : isfinite (first_boundary next) = true -> fle fzero tol = true ->
  tied_axes next (first_boundary next) tol = 0 -> first_boundary next = never.
Proof.
  intros Hf Ht. unfold tied_axes. intros Htie.
  assert (forall b, isfinite b = true -> tied_axis b b tol = false -> b = never) as Hn.
  { intros b Hb Hb'. rewrite tied_self in Hb' by done. by apply feq_never. }
  destruct (first_boundary_axis next) as [E|[E|E]]; rewrite E in *; apply Hn; try done;
    [destruct (tied_axis (vx next) _ _)|destruct (tied_axis (vy next) _ _)
    |destruct (tied_axis (vz next) _ _)]; try done; simpl in Htie;
    repeat match goal with H : context [Z.b2z ?b] |- _ => destruct b; simpl in H end; lia.
Qed.

(** ** The masks *)

Definition small_masks : list Z := [1; 2; 3; 4; 5; 6; 7].

Lemma tied_axes_small next b tol : tied_axes next b tol = 0 \/ tied_axes next b tol ∈ small_masks.
Proof.
  unfold tied_axes, small_masks. repeat match goal with |- context [tied_axis ?a b tol] =>
    destruct (tied_axis a b tol) end; simpl; rewrite ?elem_of_cons; lia.
Qed.

Lemma tied_axes_bits next b tol :
  Z.testbit (tied_axes next b tol) 0 = tied_axis (vx next) b tol /\
  Z.testbit (tied_axes next b tol) 1 = tied_axis (vy next) b tol /\
  Z.testbit (tied_axes next b tol) 2 = tied_axis (vz next) b tol.
Proof.
  unfold tied_axes. repeat match goal with |- context [tied_axis ?a b tol] =>
    destruct (tied_axis a b tol) end; done.
Qed.

Lemma submasks_complete mask sub : mask ∈ small_masks -> sub ∈ small_masks ->
  Z.land sub mask = sub -> sub ∈ submasks mask.
Proof.
  revert mask sub.
  assert (forallb (fun mask => forallb (fun sub =>
    negb (Z.land sub mask =? sub) || bool_decide (sub ∈ submasks mask)) small_masks) small_masks
      = true) as Hall by (vm_compute; reflexivity).
  intros mask sub Hm Hs He.
  pose proof (proj1 (forallb_forall _ _) Hall mask (proj1 (list_elem_of_In _ _) Hm)) as H1.
  pose proof (proj1 (forallb_forall _ _) H1 sub (proj1 (list_elem_of_In _ _) Hs)) as H2.
  cbv beta in H2. rewrite He, Z.eqb_refl in H2. by apply bool_decide_eq_true in H2.
Qed.

(** ** Loops *)

Section March.
Context {S : Type} (stop : S -> bool) (body : S -> option S).

Lemma march_mono n m st x : march stop body n st = Some x -> (n <= m)%nat ->
  march stop body m st = Some x.
Proof.
  revert m st. induction n as [|n IH]; intros [|m] st; simpl; try (destruct (stop st); done || lia).
  destruct (stop st); [done|]. destruct (body st); [|done]. intros. apply IH; [done|lia].
Qed.

Lemma march_mono_none n m st : march stop body m st = None -> (n <= m)%nat ->
  march stop body n st = None.
Proof.
  intros Hm Hle. destruct (march stop body n st) eqn:E; [|done].
  by rewrite (march_mono _ _ _ _ E Hle) in Hm.
Qed.

Lemma march_stuck st : stop st = false -> body st = Some st -> forall n, march stop body n st = None.
Proof. intros Hs Hb n. induction n as [|n IH]; simpl; rewrite Hs; [done|]. by rewrite Hb. Qed.

(** A loop whose rounds lower a measure, or reach a state that ends at once or
    never, either ends within the measure or never. *)
Lemma march_ends (I : S -> Prop) (m : S -> nat) :
  (forall st, I st -> stop st = false -> (0 < m st)%nat) ->
  (forall st st', I st -> stop st = false -> body st = Some st' ->
     (I st' /\ (m st' < m st)%nat) \/ march stop body 1 st' <> None \/
     (forall n, march stop body n st' = None)) ->
  forall st, I st -> march stop body (1 + m st) st = None -> forall n, march stop body n st = None.
Proof.
  intros Hpos Hround st. remember (m st) as k eqn:Hk. revert st Hk.
  induction (lt_wf k) as [k _ IH]. intros st -> HI. simpl.
  destruct (stop st) eqn:Es; [done|]. destruct (body st) as [st'|] eqn:Eb; [|done]. intros Hn.
  assert (forall n, march stop body n st' = None) as Hall.
  { destruct (Hround _ _ HI Es Eb) as [[HI' Hlt]|[H1|?]]; [|exfalso; apply H1|done].
    - apply (IH (m st') Hlt st' eq_refl HI'). apply (march_mono_none _ (m st)); [done|lia].
    - apply (march_mono_none _ (m st)); [done|]. specialize (Hpos st HI Es). lia. }
  intros [|n]; simpl; rewrite Es; [done|]. by rewrite Eb.
Qed.

(** The same when the other states end. *)
Lemma march_terminates (I : S -> Prop) (m : S -> nat) :
  (forall st, I st -> stop st = false -> (0 < m st)%nat) ->
  (forall st st', I st -> stop st = false -> body st = Some st' ->
     (I st' /\ (m st' < m st)%nat) \/ is_Some (march stop body 1 st')) ->
  forall st, I st -> is_Some (march stop body (1 + m st) st).
Proof.
  intros Hpos Hround st. remember (m st) as k eqn:Hk. revert st Hk.
  induction (lt_wf k) as [k _ IH]. intros st -> HI. simpl.
  destruct (stop st) eqn:Es; [done|]. destruct (body st) as [st'|] eqn:Eb; [|done].
  specialize (Hpos st HI Es).
  destruct (Hround _ _ HI Es Eb) as [[HI' Hlt]|[x Hx]].
  - destruct (IH (m st') Hlt st' eq_refl HI') as [x Hx]. exists x.
    by apply (march_mono _ _ _ _ Hx).
  - exists x. by apply (march_mono _ _ _ _ Hx).
Qed.

(** What every round establishes holds of a finished loop. *)
Lemma march_invariant (I : S -> Prop) n st st' :
  (forall st st', I st -> stop st = false -> body st = Some st' -> I st') ->
  I st -> march stop body n st = Some (Some st') -> I st' /\ stop st' = true.
Proof.
  intros Hstep. revert st. induction n as [|n IH]; intros st HI; simpl;
    destruct (stop st) eqn:Es; try done; try (by intros [= <-]).
  destruct (body st) as [st1|] eqn:Eb; [|done]. intros Hm. apply (IH st1); eauto.
Qed.
End March.

(** ** Progress of a round *)

(** Every axis has arrived or is stepped towards the end. *)
Definition heads (r : ray) (c : GridIndex3) : Prop :=
  (ix c = ix (ray_end r) \/ ix (ray_direction r) = axis_direction (ix c) (ix (ray_end r))) /\
  (iy c = iy (ray_end r) \/ iy (ray_direction r) = axis_direction (iy c) (iy (ray_end r))) /\
  (iz c = iz (ray_end r) \/ iz (ray_direction r) = axis_direction (iz c) (iz (ray_end r))).

Lemma grid_direction_heads s e st : heads (mkRay (grid_direction s e) e st) s.
Proof. unfold heads, grid_direction. simpl. auto. Qed.

Lemma axis_toward (c e d : Z) (moved : bool) :
  c = e \/ d = axis_direction c e -> (moved = true -> c <> e) ->
  let c' := if moved then c + d else c in
  (c' = e \/ d = axis_direction c' e) /\ Z.abs (e - c') + Z.b2z moved = Z.abs (e - c).
Proof.
  unfold axis_direction. intros [-> | ->] Hne; destruct moved; simpl;
    try (by specialize (Hne eq_refl)); try lia;
    destruct (Z.ltb_spec c e), (Z.ltb_spec e c); simpl; try lia;
    repeat match goal with |- context [?a <? ?b] => destruct (Z.ltb_spec a b) end; simpl; lia.
Qed.

Lemma retired_not_tied (arrived : bool) next b tol :
  tied_axis (if arrived then never else next) b tol = true -> arrived = false.
Proof. destruct arrived; [|done]. unfold tied_axis. by vm_compute. Qed.

Lemma move_toward r c next b tol : heads r c ->
  let mask := tied_axes (retire c (ray_end r) next) b tol in
  heads r (move (ray_direction r) mask c) /\
  (mask = 0 \/ (grid_distance (move (ray_direction r) mask c) (ray_end r)
                < grid_distance c (ray_end r))%nat).
Proof.
  intros (Hx & Hy & Hz) mask. unfold move. subst mask.
  destruct (tied_axes_bits (retire c (ray_end r) next) b tol) as (-> & -> & ->).
  unfold retire at 1 2 3 4 5 6. cbn [vx vy vz].
  destruct (axis_toward _ _ _ (tied_axis (if ix c =? ix (ray_end r) then never else vx next) b tol) Hx)
    as [Hx' Dx]; [by intros ?%retired_not_tied%Z.eqb_neq|].
  destruct (axis_toward _ _ _ (tied_axis (if iy c =? iy (ray_end r) then never else vy next) b tol) Hy)
    as [Hy' Dy]; [by intros ?%retired_not_tied%Z.eqb_neq|].
  destruct (axis_toward _ _ _ (tied_axis (if iz c =? iz (ray_end r) then never else vz next) b tol) Hz)
    as [Hz' Dz]; [by intros ?%retired_not_tied%Z.eqb_neq|].
  split; [done|]. unfold tied_axes, grid_distance, retire. cbn [vx vy vz ix iy iz].
  revert Dx Dy Dz.
  destruct (tied_axis (if ix c =? _ then _ else _) b tol),
    (tied_axis (if iy c =? _ then _ else _) b tol), (tied_axis (if iz c =? _ then _ else _) b tol);
    simpl; intros; try (by left); right; lia.
Qed.

Lemma retire_idem c e next : retire c e (retire c e next) = retire c e next.
Proof. unfold retire. cbn [vx vy vz]. by repeat case_match. Qed.

Lemma ray_round_retire allowed r st :
  ray_round allowed r (mkRayState (rs_current st) (retire (rs_current st) (ray_end r) (rs_next st)))
  = ray_round allowed r st.
Proof. unfold ray_round. cbn [rs_current rs_next]. by rewrite retire_idem. Qed.

Lemma move_none d c : move d 0 c = c.
Proof. by destruct c. Qed.

Lemma grid_distance_pos r c : (c ==? ray_end r) = false -> (0 < grid_distance c (ray_end r))%nat.
Proof.
  intros Hne%bool_decide_eq_false. unfold grid_distance. destruct c as [a b d], (ray_end r) as [a' b' d'].
  simpl in *. assert (~ (a = a' /\ b = b' /\ d = d')) by (intros (-> & -> & ->); done). lia.
Qed.

(** What a round of the traversal has checked when it goes on. *)
Lemma ray_round_some allowed r st st' : ray_round allowed r st = Some st' ->
  let next := retire (rs_current st) (ray_end r) (rs_next st) in
  let mask := tied_axes next (first_boundary next) (tie_tolerance (boundary_scale next)) in
  allowed (rs_current st) = true /\ isfinite (first_boundary next) = true /\
  forallb (fun sub => allowed (move (ray_direction r) sub (rs_current st))) (submasks mask) = true /\
  st' = mkRayState (move (ray_direction r) mask (rs_current st)) (add_steps (ray_step r) mask next).
Proof.
  unfold ray_round. cbv zeta. destruct (allowed _) eqn:E1; [|done].
  destruct (isfinite _) eqn:E2; [|done]. destruct (forallb _ _) eqn:E3; [|done]. by intros [= <-].
Qed.

Definition ray_measure (r : ray) (st : ray_state) : nat := grid_distance (rs_current st) (ray_end r).

(** A round either comes closer to the end on the axes it moves, or is repeated
    for ever: no axis that is still to cross has a crossing time below the
    sentinel. *)
Lemma ray_round_progress allowed r st st' :
  heads r (rs_current st) -> ray_done r st = false -> ray_round allowed r st = Some st' ->
  heads r (rs_current st') /\
  ((ray_measure r st' < ray_measure r st)%nat \/
   (first_boundary (rs_next st') = never /\ rs_current st' = rs_current st /\
    ray_done r st' = false /\ ray_round allowed r st' = Some st')).
Proof.
  intros Hh Hd Hr. pose proof Hr as (Ha & Hf & _ & ->)%ray_round_some. unfold ray_measure.
  cbn [rs_current rs_next] in *.
  set (next := retire (rs_current st) (ray_end r) (rs_next st)) in *.
  destruct (move_toward r (rs_current st) (rs_next st) (first_boundary next)
    (tie_tolerance (boundary_scale next)) Hh) as [Hh' Hm]. fold next in Hh', Hm.
  split; [done|]. destruct Hm as [Hz|?]; [right|by left]. rewrite Hz in *.
  pose proof (no_tie_never next _ Hf (tie_tolerance_nonneg _ (boundary_scale_ok next Hf)) Hz) as Hn.
  rewrite move_none. assert (add_steps (ray_step r) 0 next = next) as Hnext by by destruct next.
  rewrite Hnext. split_and!; [done..|].
  unfold next. rewrite ray_round_retire, Hr. fold next. by rewrite ?Hz, ?move_none, ?Hnext.
Qed.

Lemma ray_march_ends allowed r st : heads r (rs_current st) ->
  march (ray_done r) (ray_round allowed r) (S (ray_measure r st)) st = None ->
  forall n, march (ray_done r) (ray_round allowed r) n st = None.
Proof.
  apply (march_ends _ _ (fun st => heads r (rs_current st)) (ray_measure r)).
  - intros st' _. apply grid_distance_pos.
  - intros st1 st2 Hh Hd Hr.
    destruct (ray_round_progress _ _ _ _ Hh Hd Hr) as [Hh' [?|(_ & _ & Hd' & Hst)]]; [by left|].
    right. right. by apply march_stuck.
Qed.

(** ** The sensor-only oracle *)

(** Cells joined by moves along a nonempty set of axes, every cell a move could
    touch (the cells across each crossed face, edge or corner) accepted. *)
Inductive staircase (allowed : GridIndex3 -> Prop) (direction : GridIndex3)
    : GridIndex3 -> GridIndex3 -> Prop :=
| stair_end c : staircase allowed direction c c
| stair_step c mask e :
    mask ∈ small_masks -> allowed c ->
    (forall sub, sub ∈ small_masks -> Z.land sub mask = sub -> allowed (move direction sub c)) ->
    staircase allowed direction (move direction mask c) e ->
    staircase allowed direction c e.

Lemma ray_march_staircase allowed r n st st' :
  march (ray_done r) (ray_round allowed r) n st = Some (Some st') ->
  staircase (fun c => allowed c = true) (ray_direction r) (rs_current st) (ray_end r).
Proof.
  revert st. induction n as [|n IH]; intros st; simpl; destruct (ray_done r st) eqn:Ed; try done.
  1,2: intros _; apply bool_decide_eq_true in Ed; rewrite Ed; constructor.
  destruct (ray_round allowed r st) as [st1|] eqn:Er; [|done]. intros Hm.
  pose proof Er as (Ha & Hf & Hsub & E1)%ray_round_some. cbv zeta in *.
  set (next := retire (rs_current st) (ray_end r) (rs_next st)) in *.
  destruct (tied_axes_small next (first_boundary next) (tie_tolerance (boundary_scale next))) as [Hz|Hmk].
  - exfalso. pose proof (no_tie_never next _ Hf (tie_tolerance_nonneg _ (boundary_scale_ok next Hf)) Hz).
    rewrite Hz, move_none in E1. assert (add_steps (ray_step r) 0 next = next) as Hn by by destruct next.
    rewrite Hn in E1. assert (ray_round allowed r st1 = Some st1) as Hst.
    { subst st1. unfold next. by rewrite ray_round_retire. }
    rewrite march_stuck in Hm; [done| |done]. by subst st1.
  - rewrite E1 in Hm. apply IH in Hm. simpl in Hm. eapply stair_step; [exact Hmk|done| |exact Hm].
    intros sub Hs Hl. apply (proj1 (forallb_forall _ _) Hsub). apply list_elem_of_In.
    by apply submasks_complete.
Qed.

Section Oracle.
Context `{EigenOps}.

(** What a run decides before, at and after its loop. *)
Lemma segment_run_cases n s p q l u b : segment_traversable_run n s p q l u = Some b ->
  b = true ->
  let i := snap_positionToIndex s p l in
  let j := snap_positionToIndex s q l in
  point_is_traversable s l u p = true /\ segment_end_clear s p q l u = true /\
  staircase (fun c => cell_is_traversable s l u c = true) (grid_direction i j) i j.
Proof.
  intros Hr ->. revert Hr. unfold segment_traversable_run. cbv zeta. destruct (_ || _); [done|].
  destruct (point_is_traversable s l u p); [|done]. simpl.
  destruct (_ ==? _) eqn:E.
  - intros [= He]. split_and!; [done..|]. apply bool_decide_eq_true in E. rewrite E. constructor.
  - destruct (_ || _); [done|].
    destruct (march _ _ _ _) as [[st|]|] eqn:Em; [|done..]. intros [= He]. split_and!; [done..|].
    by apply ray_march_staircase in Em.
Qed.

Lemma segment_end_clear_spec s p q l u : segment_end_clear s p q l u = true ->
  point_is_traversable s l u q = true /\ tube_clear s p q l = true.
Proof. unfold segment_end_clear, tube_clear. destruct (point_is_traversable _ _ _ _); [|done]. by destruct l. Qed.


Lemma segment_run_step n s p q l u :
  let i := snap_positionToIndex s p l in
  let j := snap_positionToIndex s q l in
  let rs := segment_ray i j p q (layer_resolution (rootGrid s) l) in
  (exists b, forall n, segment_traversable_run n s p q l u = Some b) \/
  segment_traversable_run n s p q l u =
    match march (ray_done rs.1) (ray_round (cell_is_traversable s l u) rs.1) n rs.2 with
    | None => None
    | Some None => Some false
    | Some (Some _) => Some (segment_end_clear s p q l u)
    end.
Proof.
  cbv zeta. unfold segment_traversable_run. cbv zeta. destruct (_ || _); [left; eauto|].
  destruct (negb _); [left; eauto|]. destruct (_ ==? _); [left; eauto|].
  destruct (_ || _); [left; eauto|]. by right.
Qed.

Lemma segment_run_none s p q l u :
  segment_traversable_run (segment_fuel s p q l) s p q l u = None ->
  forall n, segment_traversable_run n s p q l u = None.
Proof.
  intros E n. destruct (segment_run_step n s p q l u) as [[b' Hb]|Hr]; [by rewrite Hb in *|].
  destruct (segment_run_step (segment_fuel s p q l) s p q l u) as [[b' Hb]|Hr']; [by rewrite Hb in *|].
  rewrite Hr. rewrite Hr' in E. rewrite ray_march_ends; [done|apply grid_direction_heads|].
  destruct (march _ _ (segment_fuel s p q l) _) as [[]|] eqn:Em; done.
Qed.

(** The loop of the sensor-only oracle: if it ends at all, it ends within one
    round more than the faces between the two end voxels, whatever the map and
    the floating-point crossing times, and [snap_isSegmentTraversable] is the
    answer of the code; otherwise no number of rounds is enough. *)
Theorem segment_oracle_ends (s : MappingWorldSnapshot) (p q : vec3) (l : GridLayer)
    (u : UnknownPolicy) :
  (forall n, (segment_fuel s p q l <= n)%nat ->
     segment_traversable_run n s p q l u = Some (snap_isSegmentTraversable s p q l u)) \/
  (forall n, segment_traversable_run n s p q l u = None).
Proof.
  destruct (segment_traversable_run (segment_fuel s p q l) s p q l u) as [b|] eqn:E;
    [left|right; by apply segment_run_none].
  intros n Hn. unfold snap_isSegmentTraversable. rewrite E. simpl.
  destruct (segment_run_step n s p q l u) as [[b' Hb]|Hr]; [by rewrite Hb in *|].
  destruct (segment_run_step (segment_fuel s p q l) s p q l u) as [[b' Hb]|Hr']; [by rewrite Hb in *|].
  rewrite Hr, <- E, Hr'. rewrite Hr' in E.
  destruct (march _ _ (segment_fuel s p q l) _) as [x|] eqn:Em; [|done].
  by rewrite (march_mono _ _ _ _ _ _ Em Hn).
Qed.
End Oracle.

(** ** The oracle with the measured body *)

Lemma body_round_some allowed r len st st' : body_round allowed r len st = Some st' ->
  let c := rs_current (bs_ray st) in
  let next := retire c (ray_end r) (rs_next (bs_ray st)) in
  let b := first_boundary next in
  let mask := tied_axes next b (tie_tolerance (fmax f64_one (fabs b))) in
  isfinite b = true /\
  (exists t, allowed c (f64_div (bs_distance st) len) t = true) /\
  (exists t, forall sub, sub ∈ submasks mask -> allowed (move (ray_direction r) sub c) t t = true) /\
  st' = mkBodyState (mkRayState (move (ray_direction r) mask c) (add_steps (ray_step r) mask next)) b.
Proof.
  unfold body_round. cbv zeta. destruct (_ || _) eqn:E0; [done|]. bsplit.
  destruct (allowed _ _ _) eqn:E1; [|done]. destruct (forallb _ _) eqn:E2; [|done].
  intros [= <-]. split_and!; [done|eauto| |done]. eexists. intros sub Hs.
  by apply (proj1 (forallb_forall _ _) E2), list_elem_of_In.
Qed.

Lemma scale_one_ok b : isfinite b = true ->
  isfinite (fmax f64_one (fabs b)) = true /\ fle fzero (fmax f64_one (fabs b)) = true.
Proof. by apply fmax_scale. Qed.

(** With the sentinel as the distance reached no round goes on. *)
Lemma body_round_never allowed r len st :
  bs_distance st = never ->
  first_boundary (retire (rs_current (bs_ray st)) (ray_end r) (rs_next (bs_ray st))) = never ->
  body_round allowed r len st = None.
Proof.
  intros Hd Hb. unfold body_round. cbv zeta. rewrite Hd, Hb.
  assert (fle never (f64_add never (tie_tolerance (fmax f64_one (fabs never)))) = true) as ->
    by (vm_compute; reflexivity).
  by rewrite orb_true_r.
Qed.

Definition body_measure (r : ray) (st : body_state) : nat := ray_measure r (bs_ray st).

Lemma body_round_progress allowed r len st st' :
  heads r (rs_current (bs_ray st)) -> body_round allowed r len st = Some st' ->
  (heads r (rs_current (bs_ray st')) /\ (body_measure r st' < body_measure r st)%nat) \/
  body_round allowed r len st' = None.
Proof.
  intros Hh (Hf & _ & _ & ->)%body_round_some. cbv zeta in *.
  set (next := retire _ _ _) in *.
  destruct (move_toward r (rs_current (bs_ray st)) (rs_next (bs_ray st)) (first_boundary next)
    (tie_tolerance (fmax f64_one (fabs (first_boundary next)))) Hh) as [Hh' Hm].
  fold next in Hh', Hm. destruct Hm as [Hz|Hlt]; [right|by left].
  pose proof (no_tie_never next _ Hf (tie_tolerance_nonneg _ (scale_one_ok _ Hf)) Hz) as Hn.
  rewrite Hz, move_none. apply body_round_never; [done|]. simpl.
  assert (add_steps (ray_step r) 0 next = next) as -> by by destruct next.
  unfold next. rewrite retire_idem. exact Hn.
Qed.

Lemma body_march_ends allowed r len st : heads r (rs_current (bs_ray st)) ->
  is_Some (march (body_done r) (body_round allowed r len) (S (body_measure r st)) st).
Proof.
  apply (march_terminates _ _ (fun st => heads r (rs_current (bs_ray st))) (body_measure r)).
  - intros st' _. apply grid_distance_pos.
  - intros st1 st2 Hh _ [?|Hn]%body_round_progress; [by left| |done]. right. simpl.
    rewrite Hn. by destruct (body_done r st2).
Qed.

Lemma body_march_staircase (allowed : GridIndex3 -> f64 -> f64 -> bool) r len n st st' :
  march (body_done r) (body_round allowed r len) n st = Some (Some st') ->
  staircase (fun c => exists b e, allowed c b e = true) (ray_direction r)
    (rs_current (bs_ray st)) (ray_end r).
Proof.
  revert st. induction n as [|n IH]; intros st; simpl; destruct (body_done r st) eqn:Ed; try done.
  1,2: intros _; apply bool_decide_eq_true in Ed; rewrite Ed; constructor.
  destruct (body_round allowed r len st) as [st1|] eqn:Er; [|done]. intros Hm.
  pose proof Er as (Hf & [t Ht] & [t' Hsub] & E1)%body_round_some. cbv zeta in *.
  set (next := retire _ _ _) in *.
  destruct (tied_axes_small next (first_boundary next)
    (tie_tolerance (fmax f64_one (fabs (first_boundary next))))) as [Hz|Hmk].
  - exfalso. rewrite Hz, move_none in E1.
    pose proof (no_tie_never next _ Hf (tie_tolerance_nonneg _ (scale_one_ok _ Hf)) Hz) as Hn.
    assert (body_round allowed r len st1 = None) as Hst.
    { apply body_round_never; [by subst st1|]. subst st1. simpl.
      assert (add_steps (ray_step r) 0 next = next) as -> by by destruct next.
      unfold next. rewrite retire_idem. exact Hn. }
    destruct n; simpl in Hm; rewrite ?Hst in Hm; subst st1; unfold body_done, ray_done in *;
      simpl in *; by rewrite Ed in Hm.
  - rewrite E1 in Hm. apply IH in Hm. simpl in Hm. eapply stair_step; [exact Hmk|eauto| |exact Hm].
    intros sub Hs Hl. exists t', t'. apply Hsub. by apply submasks_complete.
Qed.

Lemma lower_axis_near f d i : lower_axis f d i = i \/ lower_axis f d i = i - 1.
Proof. unfold lower_axis. destruct (negb _); [by left|]. destruct (_ && _); auto. Qed.

Lemma lower_start_near p res d i j :
  (grid_distance (lower_start p res d i) j <= grid_distance i j + 3)%nat.
Proof.
  unfold lower_start, grid_distance. simpl.
  destruct (lower_axis_near (on_face (f64_div (vx p) res)) (ix d) (ix i)) as [-> | ->],
    (lower_axis_near (on_face (f64_div (vy p) res)) (iy d) (iy i)) as [-> | ->],
    (lower_axis_near (on_face (f64_div (vz p) res)) (iz d) (iz i)) as [-> | ->]; lia.
Qed.

Section BodyOracle.
Context `{EigenOps, EigenRotOps}.

Lemma body_march_some n s sup p q l i j : (S (grid_distance i j) <= n)%nat ->
  exists b, body_march n s sup p q l i j = Some b /\
    forall m, (n <= m)%nat -> body_march m s sup p q l i j = Some b.
Proof.
  intros Hn. unfold body_march. cbv zeta. destruct (_ ==? _); [eauto|].
  destruct (body_march_ends (cell_is_allowed s sup p q l)
    (segment_ray i j p q (layer_resolution (rootGrid s) l)).1 (v_norm (v_sub q p))
    (mkBodyState (segment_ray i j p q (layer_resolution (rootGrid s) l)).2 fzero)) as [x Hx].
  { apply grid_direction_heads. }
  assert (forall m, (n <= m)%nat -> march (body_done (segment_ray i j p q (layer_resolution (rootGrid s) l)).1)
    (body_round (cell_is_allowed s sup p q l) (segment_ray i j p q (layer_resolution (rootGrid s) l)).1
      (v_norm (v_sub q p))) m (mkBodyState (segment_ray i j p q (layer_resolution (rootGrid s) l)).2 fzero)
    = Some x) as Hm.
  { intros m Hm. apply (march_mono _ _ _ _ _ _ Hx). unfold body_measure, ray_measure. simpl. lia. }
  rewrite (Hm n) by done. destruct x as [st|]; eexists; (split; [done|]); intros m Hle; by rewrite (Hm m).
Qed.

(** C27. The loop of the oracle with the measured body always ends, within a number
    of rounds bounded by the distance of the end voxels, for every map, every
    witness and every floating-point crossing time: a round that moves along no
    axis is followed by a rejection. *)
Theorem body_oracle_terminates (s : MappingWorldSnapshot) (p q : vec3) (l : GridLayer)
    (u : UnknownPolicy) (support : ptr CurrentBodySupport) (n : nat) :
  (body_fuel s p q l <= n)%nat ->
  body_traversable_run n s p q l u (sp_obj <$> support)
    = Some (snap_isSegmentTraversableWithCurrentBodySupport s p q l u support).
Proof.
  intros Hn. unfold snap_isSegmentTraversableWithCurrentBodySupport, body_traversable_run.
  destruct (sp_obj <$> support) as [sup|]; [|done]. cbv zeta.
  destruct (_ || _ || _ || _); [done|]. destruct (_ || _); [done|]. destruct (negb _); [done|].
  set (i := snap_positionToIndex s p l). set (j := snap_positionToIndex s q l).
  destruct (body_march_some (body_fuel s p q l) s sup p q l
    (lower_start p (layer_resolution (rootGrid s) l) (grid_direction i j) i) j) as (b & Hb & Hm).
  - pose proof (lower_start_near p (layer_resolution (rootGrid s) l) (grid_direction i j) i j).
    unfold body_fuel, segment_fuel. fold i j. lia.
  - rewrite Hb, Hm by done. done.
Qed.

(** A cell the witness oracle may enter: known free, or unknown and inside the
    body's prefix of the segment. *)
Definition excused (s : MappingWorldSnapshot) (support : CurrentBodySupport) (p q : vec3)
    (l : GridLayer) (c : GridIndex3) : Prop :=
  let state := snap_classify s (snap_indexToPosition s c l) l in
  state = kKnownFree \/
  (state = kUnknown /\ exists b e,
     unknownIntervalWithinInitialBodyPrefix support p q b e (snap_identity s)
       (cs_source_stamp_ns support) fzero = true).

Lemma allowed_excused s sup p q l c b e :
  cell_is_allowed s sup p q l c b e = true -> excused s sup p q l c.
Proof.
  unfold cell_is_allowed, point_is_allowed, excused. cbv zeta.
  destruct (snap_classify _ _ _); try done; [|by left]. right. eauto.
Qed.

Lemma staircase_mono (P Q : GridIndex3 -> Prop) d c e :
  (forall c, P c -> Q c) -> staircase P d c e -> staircase Q d c e.
Proof. intros HPQ. induction 1; econstructor; eauto. Qed.

End BodyOracle.

(** ** Witnesses, and a traversal that does not end *)

Lemma patches_read_as_written_grid_witness :
  let p := Vec3 (f64_lit 5 2) (f64_lit 1 2) (f64_lit 1 2) in
  @snap_classify eigen_reference demo_patched p kInflated =
    @snap_classify eigen_reference (flat demo_patched) p kInflated /\
  @snap_classify eigen_reference (flat demo_patched) p kInflated = kOccupied.
Proof.
  cbv zeta. split; [|by vm_compute].
  apply (@patches_read_as_written_grid eigen_reference rot_reference demo_patched demo_patched_built).
Defined.


(** A start a denormal below a voxel face and an end on it: the component of the
    direction underflows to zero, so the axis is crossed at time infinity. *)
Definition denormal_start : vec3 :=
  Vec3 (f64_lit 1 2) (S754_finite true 1 (-1074)) (f64_lit 1 2).
Definition face_end : vec3 := Vec3 (f64_lit 5 2) fzero (f64_lit 1 2).

(** The loop of the sensor-only oracle need not end: on a small known-free map
    there is a segment for which no number of rounds is enough. *)
Theorem segment_oracle_can_spin :
  @built eigen_reference demo_root /\
  forall n, @segment_traversable_run eigen_reference n demo_root denormal_start face_end kEvidence
    kRequireKnownFree = None.
Proof.
  split; [by apply (@built_root eigen_reference demo_grid (mkIdentity 1 1 1 10) None); vm_compute|].
  apply segment_run_none. vm_compute. reflexivity.
Qed.

Lemma body_oracle_terminates_witness :
  @body_traversable_run eigen_reference rot_reference 20 demo_root denormal_start face_end kEvidence
    kRequireKnownFree (Some demo_support) = Some false.
Proof.
  refine (eq_trans (@body_oracle_terminates eigen_reference rot_reference demo_root denormal_start
    face_end kEvidence kRequireKnownFree (Some (Shared 1%positive demo_support)) 20 _) _).
  - apply Nat.leb_le. vm_compute. reflexivity.
  - vm_compute. reflexivity.
Defined.

