(* ===== verification/MapActor.v ===== *)
(** * The mapping actor

    [mapping/navigation_mapping/src/mapping_actor.cpp] with the observation, its
    header types and [mapping_types.hpp]: the only owner of the mutable map, which
    turns admitted observations into immutable snapshots with a bounded change
    history, and poisons itself after any failed transition.

    The mutable map (rog_map, vendored) is the class [MapBackend]: its update
    returns the map it leaves and, unless it throws, an outcome and diagnostics;
    [None] from another operation is an exception.  Every operation returns the
    state it leaves, an exception included.  Clock readings and the counters
    copied for reports are left out. *)

From S2P Require Import Prelude Float64 TimeNs Geometry World WorldGrid MapSnapshot.
From Stdlib Require Import Floats.SpecFloat.

(** ** Observations *)

Record PointXYZI : Type := mkPoint { pt_x : f32; pt_y : f32; pt_z : f32; pt_intensity : f32 }.

(** The fields of [nav_msgs/Odometry] the actor reads. *)
Record ObservedOdometry : Type := mkObservedOdometry {
  oo_stamp : RosTime;
  oo_frame_id : string;
  oo_child_frame_id : string;
  oo_position : vec3;
  oo_orientation : quat
}.

Record MappingObservation : Type := mkObservation {
  ob_cloud : option (list PointXYZI);
  ob_corrected_odometry : ObservedOdometry;
  ob_localization_epoch : Z;
  ob_scan_sequence : Z;
  ob_stamp_ns : Z;
  ob_free_space_endpoints : option (list PointXYZI);
  ob_sensor_origin_world : vec3;
  ob_sensor_origin_localization_epoch : Z;
  ob_sensor_origin_stamp_ns : Z
}.

Inductive MappingObservationRejectionReason : Type :=
| mr_kNone | mr_kMalformedObservation | mr_kMissingSensorOrigin | mr_kSensorOriginContractMismatch.

Definition mappingObservationRejectionReasonName (reason : MappingObservationRejectionReason)
    : string :=
  match reason with
  | mr_kNone => "NONE"
  | mr_kMalformedObservation => "MALFORMED_OBSERVATION"
  | mr_kMissingSensorOrigin => "MISSING_SENSOR_ORIGIN"
  | mr_kSensorOriginContractMismatch => "SENSOR_ORIGIN_CONTRACT_MISMATCH"
  end.

Inductive MapUpdateOutcome : Type :=
| mo_kUpdated | mo_kAccumulated | mo_kSlideOnly | mo_kEmptyCloud | mo_kCallbackOwned
| mo_kBelowGround | mo_kAboveCeiling.

Definition worldUpdateAdvanced (outcome : MapUpdateOutcome) : bool :=
  match outcome with mo_kUpdated | mo_kSlideOnly => true | _ => false end.

Definition worldUpdateOutcomeName (outcome : MapUpdateOutcome) : string :=
  match outcome with
  | mo_kUpdated => "UPDATED"
  | mo_kAccumulated => "ACCUMULATED"
  | mo_kSlideOnly => "SLIDE_ONLY"
  | mo_kEmptyCloud => "EMPTY_CLOUD"
  | mo_kCallbackOwned => "CALLBACK_OWNED"
  | mo_kBelowGround => "BELOW_GROUND"
  | mo_kAboveCeiling => "ABOVE_CEILING"
  end.

(** ** The backend *)

(** [rog_map::MapUpdateOutcome] *)
Inductive rog_outcome : Type :=
| rog_UPDATED | rog_ACCUMULATED | rog_SLIDE_ONLY | rog_EMPTY_CLOUD | rog_CALLBACK_OWNED
| rog_BELOW_GROUND | rog_ABOVE_CEILING.

Definition toProductOutcome (outcome : rog_outcome) : MapUpdateOutcome :=
  match outcome with
  | rog_UPDATED => mo_kUpdated
  | rog_ACCUMULATED => mo_kAccumulated
  | rog_SLIDE_ONLY => mo_kSlideOnly
  | rog_EMPTY_CLOUD => mo_kEmptyCloud
  | rog_CALLBACK_OWNED => mo_kCallbackOwned
  | rog_BELOW_GROUND => mo_kBelowGround
  | rog_ABOVE_CEILING => mo_kAboveCeiling
  end.

(** The diagnostics the actor itself reads. *)
Record RaycastDiagnostics : Type := mkRaycastDiagnostics {
  rd_base_planning_state_change_count : Z;
  rd_inflated_planning_state_change_count : Z;
  rd_unique_update_cache_voxel_count : Z;
  rd_allocated_voxel_count : Z;
  rd_changed_region_min : vec3;
  rd_changed_region_max : vec3;
  rd_changed_region_covers_world : bool
}.

Record MapConfig : Type := mkMapConfig {
  mc_resolution : f64;
  mc_inflation_resolution : f64;
  mc_inflation_step : Z;
  mc_unk_inflation_step : Z
}.

(** [PlanningGridRegionSizeEstimate] when it is valid *)
Record RegionEstimate : Type := mkEstimate {
  re_base_cell_count : Z;
  re_owned_byte_count : Z
}.

Class MapBackend : Type := {
  RuntimeMap : Type;
  (** construction and [loadConfigAndInit] *)
  newRuntimeMap : option RuntimeMap;
  updateMap : list PointXYZI -> list PointXYZI -> vec3 * quat -> vec3 -> RuntimeMap ->
    RuntimeMap * option (rog_outcome * RaycastDiagnostics);
  getMapConfig : RuntimeMap -> MapConfig;
  exportPlanningGrid : RuntimeMap -> option PlanningGrid;
  exportPlanningGridRegion : RuntimeMap -> vec3 -> vec3 -> option PlanningGridPatch;
  estimatePlanningGridRegionSize : RuntimeMap -> vec3 -> vec3 -> option RegionEstimate
}.

(** ** Results *)

Inductive actor_error : Type :=
| ae_logic_error
| ae_invalid_argument
| ae_runtime_error
| ae_rejected (reason : MappingObservationRejectionReason)
| ae_snapshot (e : snapshot_error)
| ae_backend.

Inductive SnapshotExportMode : Type := em_kDeferred | em_kFull | em_kPatch.

Inductive SnapshotFullExportReason : Type :=
| fr_kNone | fr_kNoCurrentSnapshot | fr_kWholeWorldChanged | fr_kInvalidChangedRegion
| fr_kPatchDepthLimit | fr_kEmptyPatch | fr_kPatchTooLarge.
#[export] Instance SnapshotFullExportReason_eq_dec : EqDecision SnapshotFullExportReason.
Proof. solve_decision. Defined.

Record MappingUpdateResult : Type := mkUpdateResult {
  ur_outcome : MapUpdateOutcome;
  ur_diagnostics : RaycastDiagnostics;
  ur_snapshot : option MappingWorldSnapshot;
  ur_identity : WorldSnapshotIdentity;
  ur_export_mode : SnapshotExportMode;
  ur_full_export_reason : SnapshotFullExportReason;
  ur_export_base_cells : Z;
  ur_export_inflated_cells : Z;
  ur_patch_depth : Z;
  ur_dirty_aabb_voxel_count : Z;
  ur_full_snapshot_bytes : Z;
  ur_copied_snapshot_bytes : Z;
  ur_reused_snapshot_bytes : Z
}.

(** ** State *)

Definition kWorldChangeHistoryRetention : nat := 256.
Definition kMaximumSnapshotPatchDepth : Z := 8.
Definition kMaximumPatchToFullOwnedByteRatio : f64 := f64_lit 2 5.

Section Actor.
Context `{EigenOps, EigenMatOps, MapBackend}.

Record MappingActor : Type := mkActor {
  ma_map : RuntimeMap;
  ma_snapshot_publication_period_ns : Z;
  ma_full_snapshot_owned_bytes : Z;
  ma_nearest_offsets : option (list GridIndex3);
  ma_current_snapshot : option MappingWorldSnapshot;
  ma_localization_epoch : Z;
  ma_world_generation : Z;
  ma_world_revision : Z;
  ma_last_observation_stamp_ns : Z;
  ma_last_scan_sequence : Z;
  ma_poisoned : bool;
  ma_change_history : option WorldChangeHistory;
  ma_pending_changed_region : AxisAlignedBox;
  ma_pending_change_covers_world : bool;
  ma_expected_world_frame_id : string;
  ma_expected_body_frame_id : string
}.

Definition actor_result (A : Type) : Type := (actor_error + A) * MappingActor.

(** The constructor. *)
Definition make_actor (world_frame_id body_frame_id : string) (snapshot_publication_period_s : f64)
    : actor_error + MappingActor :=
  match secondsToNanoseconds snapshot_publication_period_s with
  | None => inl ae_invalid_argument
  | Some period_ns =>
      if period_ns <=? 0 then inl ae_invalid_argument
      else
        match newRuntimeMap with
        | None => inl ae_backend
        | Some map =>
            inr (mkActor map period_ns 0 None None 1 1 0 0 0 false None AxisAlignedBox_default false
                   world_frame_id body_frame_id)
        end
  end.

(** Setters, by the group of members a stage of [process] writes. *)
Definition ma_set_map (m : RuntimeMap) (a : MappingActor) : MappingActor :=
  mkActor m (ma_snapshot_publication_period_ns a) (ma_full_snapshot_owned_bytes a)
    (ma_nearest_offsets a) (ma_current_snapshot a) (ma_localization_epoch a)
    (ma_world_generation a) (ma_world_revision a) (ma_last_observation_stamp_ns a)
    (ma_last_scan_sequence a) (ma_poisoned a) (ma_change_history a)
    (ma_pending_changed_region a) (ma_pending_change_covers_world a)
    (ma_expected_world_frame_id a) (ma_expected_body_frame_id a).

(** [full_snapshot_owned_bytes_] and [nearest_offsets_] *)
Definition ma_set_export (bytes : Z) (offsets : option (list GridIndex3)) (a : MappingActor)
    : MappingActor :=
  mkActor (ma_map a) (ma_snapshot_publication_period_ns a) bytes offsets (ma_current_snapshot a)
    (ma_localization_epoch a) (ma_world_generation a) (ma_world_revision a)
    (ma_last_observation_stamp_ns a) (ma_last_scan_sequence a) (ma_poisoned a)
    (ma_change_history a) (ma_pending_changed_region a) (ma_pending_change_covers_world a)
    (ma_expected_world_frame_id a) (ma_expected_body_frame_id a).

(** [current_snapshot_ = ...; pending_changed_region_ = {};
    pending_change_covers_world_ = false;] *)
Definition ma_publish (s : MappingWorldSnapshot) (a : MappingActor) : MappingActor :=
  mkActor (ma_map a) (ma_snapshot_publication_period_ns a) (ma_full_snapshot_owned_bytes a)
    (ma_nearest_offsets a) (Some s) (ma_localization_epoch a) (ma_world_generation a)
    (ma_world_revision a) (ma_last_observation_stamp_ns a) (ma_last_scan_sequence a)
    (ma_poisoned a) (ma_change_history a) AxisAlignedBox_default false
    (ma_expected_world_frame_id a) (ma_expected_body_frame_id a).

(** [++world_revision_], the new history and the new pending region *)
Definition ma_set_change (revision : Z) (history : WorldChangeHistory) (region : AxisAlignedBox)
    (covers_world : bool) (a : MappingActor) : MappingActor :=
  mkActor (ma_map a) (ma_snapshot_publication_period_ns a) (ma_full_snapshot_owned_bytes a)
    (ma_nearest_offsets a) (ma_current_snapshot a) (ma_localization_epoch a)
    (ma_world_generation a) revision (ma_last_observation_stamp_ns a)
    (ma_last_scan_sequence a) (ma_poisoned a) (Some history) region covers_world
    (ma_expected_world_frame_id a) (ma_expected_body_frame_id a).

(** [last_observation_stamp_ns_] and [last_scan_sequence_] *)
Definition ma_accept_source (o : MappingObservation) (a : MappingActor) : MappingActor :=
  mkActor (ma_map a) (ma_snapshot_publication_period_ns a) (ma_full_snapshot_owned_bytes a)
    (ma_nearest_offsets a) (ma_current_snapshot a) (ma_localization_epoch a)
    (ma_world_generation a) (ma_world_revision a) (ob_stamp_ns o)
    (if negb (ob_scan_sequence o =? 0) then ob_scan_sequence o else ma_last_scan_sequence a)
    (ma_poisoned a) (ma_change_history a) (ma_pending_changed_region a)
    (ma_pending_change_covers_world a) (ma_expected_world_frame_id a) (ma_expected_body_frame_id a).

Definition ma_poison (a : MappingActor) : MappingActor :=
  mkActor (ma_map a) (ma_snapshot_publication_period_ns a) (ma_full_snapshot_owned_bytes a)
    (ma_nearest_offsets a) (ma_current_snapshot a) (ma_localization_epoch a)
    (ma_world_generation a) (ma_world_revision a) (ma_last_observation_stamp_ns a)
    (ma_last_scan_sequence a) true (ma_change_history a) (ma_pending_changed_region a)
    (ma_pending_change_covers_world a) (ma_expected_world_frame_id a) (ma_expected_body_frame_id a).

(** The map and the members of one localization epoch. *)
Definition ma_new_epoch (m : RuntimeMap) (epoch : Z) (a : MappingActor) : MappingActor :=
  mkActor m (ma_snapshot_publication_period_ns a) (ma_full_snapshot_owned_bytes a)
    (ma_nearest_offsets a) None epoch (ma_world_generation a + 1) 0 0 0
    (ma_poisoned a) None AxisAlignedBox_default false
    (ma_expected_world_frame_id a) (ma_expected_body_frame_id a).

(** ** Validation *)

Definition finiteNonzeroQuaternion (q : quat) : bool :=
  let scale := q_absMaxCoeff q in
  q_allFinite q && isfinite scale && fgt scale (f64_lit 1 1000000).

Definition point_finite (p : PointXYZI) : bool :=
  isfinite (pt_x p) && isfinite (pt_y p) && isfinite (pt_z p) && isfinite (pt_intensity p).

(** [!cloud || cloud->empty()] *)
Definition cloud_missing (cloud : option (list PointXYZI)) : bool :=
  match cloud with None | Some [] => true | Some _ => false end.

Definition frames_invalid (a : MappingActor) (o : ObservedOdometry) : bool :=
  (oo_frame_id o ==? EmptyString) || (oo_child_frame_id o ==? EmptyString)
  || ((ma_expected_world_frame_id a !=? EmptyString)
      && (oo_frame_id o !=? ma_expected_world_frame_id a))
  || ((ma_expected_body_frame_id a !=? EmptyString)
      && (oo_child_frame_id o !=? ma_expected_body_frame_id a)).

Definition position_finite (p : vec3) : bool :=
  isfinite (vx p) && isfinite (vy p) && isfinite (vz p).

(** The part of [validateObservation] that compares with the last observation. *)
Definition validate_order (a : MappingActor) (o : MappingObservation) : option actor_error :=
  if negb (ob_localization_epoch o =? ma_localization_epoch a) then None
  else if ob_stamp_ns o <=? ma_last_observation_stamp_ns a then Some ae_runtime_error
  else if negb (ob_scan_sequence o =? 0) && negb (ma_last_scan_sequence a =? 0)
          && (ob_scan_sequence o <=? ma_last_scan_sequence a) then Some ae_runtime_error
  else None.

(** [validateObservation]; [None] is acceptance. *)
Definition validateObservation (a : MappingActor) (o : MappingObservation) : option actor_error :=
  let odometry := ob_corrected_odometry o in
  if cloud_missing (ob_cloud o) || (ob_stamp_ns o <=? 0) || (ob_localization_epoch o =? 0)
  then Some ae_invalid_argument
  else if (rosTimeToNanoseconds (oo_stamp odometry) !=? Some (ob_stamp_ns o))
  then Some ae_invalid_argument
  else if frames_invalid a odometry then Some ae_invalid_argument
  else if negb (position_finite (oo_position odometry)) then Some ae_invalid_argument
  else if negb (finiteNonzeroQuaternion (oo_orientation odometry)) then Some ae_invalid_argument
  else if negb (forallb point_finite (default [] (ob_cloud o))) then Some ae_invalid_argument
  else if negb (forallb point_finite (default [] (ob_free_space_endpoints o)))
  then Some ae_invalid_argument
  else if negb (v_allFinite (ob_sensor_origin_world o))
  then Some (ae_rejected mr_kSensorOriginContractMismatch)
  else if negb (ob_sensor_origin_localization_epoch o =? ob_localization_epoch o)
          || negb (ob_sensor_origin_stamp_ns o =? ob_stamp_ns o)
  then Some (ae_rejected mr_kSensorOriginContractMismatch)
  else validate_order a o.

(** The pose handed to the backend. *)
Definition observation_pose (o : MappingObservation) : vec3 * quat :=
  let q := oo_orientation (ob_corrected_odometry o) in
  (oo_position (ob_corrected_odometry o), q_normalized (q_div q (q_absMaxCoeff q))).

(** [fillBackendCloud]; [None] is [std::invalid_argument]. *)
Definition fillBackendCloud (source : list PointXYZI) : option (list PointXYZI) :=
  if forallb point_finite source then Some source else None.

(** ** The change record *)

(** [std::nextafter] towards either infinity, of a finite value *)
Definition next_down (x : f64) : f64 := SFpred prec64 emax64 x.
Definition next_up (x : f64) : f64 := SFsucc prec64 emax64 x.

Definition change_margin (c : MapConfig) : f64 :=
  let inflation_radius :=
    f64_mul (mc_inflation_resolution c)
      (f64_of_Z (Z.max (mc_inflation_step c) (mc_unk_inflation_step c))) in
  let quantization_shell :=
    f64_mul (f64_lit 1 2) (f64_add (mc_resolution c) (mc_inflation_resolution c)) in
  f64_add inflation_radius quantization_shell.

(** One axis of the loop; [None] leaves it. *)
Definition change_axis (changed_min changed_max margin : f64) : option (f64 * f64) :=
  let minimum := f64_sub changed_min margin in
  let maximum := f64_add changed_max margin in
  if negb (isfinite minimum) || negb (isfinite maximum) then None
  else Some (next_down minimum, next_up maximum).

(** The loop over the axes: the region it has written, and whether it was left. *)
Definition widened_region (lo hi : vec3) (margin : f64) : AxisAlignedBox * bool :=
  match change_axis (vx lo) (vx hi) margin with
  | None => (AxisAlignedBox_default, true)
  | Some (x0, x1) =>
      match change_axis (vy lo) (vy hi) margin with
      | None => (mkBox (Vec3 x0 fzero fzero) (Vec3 x1 fzero fzero), true)
      | Some (y0, y1) =>
          match change_axis (vz lo) (vz hi) margin with
          | None => (mkBox (Vec3 x0 y0 fzero) (Vec3 x1 y1 fzero), true)
          | Some (z0, z1) => (mkBox (Vec3 x0 y0 z0) (Vec3 x1 y1 z1), false)
          end
      end
  end.

(** The region and the flag of the record of an update. *)
Definition change_region (c : MapConfig) (d : RaycastDiagnostics) : AxisAlignedBox * bool :=
  if rd_changed_region_covers_world d then (AxisAlignedBox_default, true)
  else
    let margin := change_margin c in
    let r :=
      if negb (isfinite margin) || flt margin fzero || negb (v_allFinite (rd_changed_region_min d))
         || negb (v_allFinite (rd_changed_region_max d))
      then (AxisAlignedBox_default, true)
      else widened_region (rd_changed_region_min d) (rd_changed_region_max d) margin in
    (r.1, if negb (AxisAlignedBox_valid r.1) then true else r.2).

(** The bounded window, newest first. *)
Definition push_change (change : WorldChangeRecord) (history : option WorldChangeHistory)
    : WorldChangeHistory :=
  mkHistory (change :: take (kWorldChangeHistoryRetention - 1)
                         (match history with Some h => wh_records h | None => [] end)).

(** [pending_changed_region_] and [pending_change_covers_world_] after a change *)
Definition pending_after (change : WorldChangeRecord) (region : AxisAlignedBox) (covers_world : bool)
    : AxisAlignedBox * bool :=
  if wc_affects_whole_world change then (region, true)
  else if AxisAlignedBox_valid (wc_affected_region change) then
    if negb (AxisAlignedBox_valid region) then (wc_affected_region change, covers_world)
    else (mkBox (v_cwiseMin (minimum region) (minimum (wc_affected_region change)))
                (v_cwiseMax (maximum region) (maximum (wc_affected_region change))), covers_world)
  else (region, true).

(** ** The stages of [process] *)

(** The transition to a newer epoch, and the test of the revision. *)
Definition begin_epoch (o : MappingObservation) (a : MappingActor) : actor_result unit :=
  let checked a : actor_result unit :=
    if ma_world_revision a =? u64_max then (inl ae_runtime_error, a) else (inr tt, a) in
  if ma_localization_epoch a <? ob_localization_epoch o then
    if ma_world_generation a =? u64_max then (inl ae_runtime_error, a)
    else
      match newRuntimeMap with
      | None => (inl ae_backend, a)
      | Some m => checked (ma_new_epoch m (ob_localization_epoch o) a)
      end
  else checked a.

(** The update of the mutable map. *)
Definition update_backend (o : MappingObservation) (a : MappingActor)
    : actor_result (MapUpdateOutcome * RaycastDiagnostics) :=
  match fillBackendCloud (default [] (ob_cloud o)),
        fillBackendCloud (default [] (ob_free_space_endpoints o)) with
  | Some cloud, Some free_space =>
      let r := updateMap cloud free_space (observation_pose o) (ob_sensor_origin_world o) (ma_map a) in
      let a := ma_set_map r.1 a in
      match r.2 with
      | None => (inl ae_backend, a)
      | Some (backend_outcome, d) =>
          let outcome := toProductOutcome backend_outcome in
          if negb (worldUpdateAdvanced outcome) then (inl ae_runtime_error, a)
          else (inr (outcome, d), a)
      end
  | _, _ => (inl ae_invalid_argument, a)
  end.

Definition next_identity (o : MappingObservation) (a : MappingActor) : WorldSnapshotIdentity :=
  mkIdentity (ma_localization_epoch a) (ma_world_generation a) (ma_world_revision a + 1)
    (ob_stamp_ns o).

(** The new revision, its change record, the history and the pending region. *)
Definition record_change (o : MappingObservation) (d : RaycastDiagnostics) (a : MappingActor)
    : WorldChangeRecord * MappingActor :=
  let r := change_region (getMapConfig (ma_map a)) d in
  let change := mkChange (next_identity o a) r.1 r.2 in
  let pending :=
    pending_after change (ma_pending_changed_region a) (ma_pending_change_covers_world a) in
  (change, ma_set_change (ma_world_revision a + 1) (push_change change (ma_change_history a))
             pending.1 pending.2 a).

Definition dirty_voxel_count (d : RaycastDiagnostics) (a : MappingActor) : Z :=
  let region := ma_pending_changed_region a in
  if negb (ma_pending_change_covers_world a) && AxisAlignedBox_valid region then
    match estimatePlanningGridRegionSize (ma_map a) (minimum region) (maximum region) with
    | Some e => re_base_cell_count e
    | None => rd_unique_update_cache_voxel_count d
    end
  else if ma_pending_change_covers_world a then rd_allocated_voxel_count d
  else 0.

(** [publication_due]; [None] is the overflow of the stamp difference. *)
Definition publication_due (o : MappingObservation) (a : MappingActor) : option bool :=
  match ma_current_snapshot a with
  | None => Some true
  | Some s =>
      match checkedDifference (ob_stamp_ns o) (wi_observation_stamp_ns (snap_identity s)) with
      | None => None
      | Some snapshot_age =>
          Some (ma_pending_change_covers_world a
                || (ma_snapshot_publication_period_ns a <=? snapshot_age))
      end
  end.

(** What an export gives: the snapshot and what is reported of it. *)
Record Export : Type := mkExport {
  ex_snapshot : MappingWorldSnapshot;
  ex_mode : SnapshotExportMode;
  ex_reason : SnapshotFullExportReason;
  ex_base_cells : Z;
  ex_inflated_cells : Z
}.

Definition can_apply_patch (a : MappingActor) : bool :=
  match ma_current_snapshot a with
  | None => false
  | Some s =>
      negb (ma_pending_change_covers_world a) && AxisAlignedBox_valid (ma_pending_changed_region a)
      && (patchDepth s <? kMaximumSnapshotPatchDepth)
  end.

(** [patch_is_efficient], for a nonzero [full_snapshot_owned_bytes_] *)
Definition patch_efficient (a : MappingActor) : bool :=
  let region := ma_pending_changed_region a in
  match estimatePlanningGridRegionSize (ma_map a) (minimum region) (maximum region) with
  | None => false
  | Some e =>
      flt (f64_of_Z (re_owned_byte_count e))
        (f64_mul kMaximumPatchToFullOwnedByteRatio (f64_of_Z (ma_full_snapshot_owned_bytes a)))
  end.

(** [snapshot_full_export_reason] when nothing has set it yet *)
Definition default_reason (a : MappingActor) : SnapshotFullExportReason :=
  if negb (has (ma_current_snapshot a)) then fr_kNoCurrentSnapshot
  else if ma_pending_change_covers_world a then fr_kWholeWorldChanged
  else if negb (AxisAlignedBox_valid (ma_pending_changed_region a)) then fr_kInvalidChangedRegion
  else fr_kPatchDepthLimit.

(** [toProductGrid] keeps the offsets it is given. *)
Definition with_nearest_offsets (offsets : option (list GridIndex3)) (g : PlanningGrid)
    : PlanningGrid :=
  mkPlanningGrid (pg_base_layout g) (pg_inflated g) (pg_base_state g) offsets
    (pg_unknown_inflation_enabled g) (pg_virtual_ground_ceiling_enabled g) (pg_virtual_ground_m g)
    (pg_virtual_ceiling_m g) (pg_inflated_virtual_ground_m g) (pg_inflated_virtual_ceiling_m g)
    (pg_occupied_inflation_radius_m g).

Definition export_full (identity : WorldSnapshotIdentity) (reason : SnapshotFullExportReason)
    (a : MappingActor) : actor_result Export :=
  let reason := if reason ==? fr_kNone then default_reason a else reason in
  match exportPlanningGrid (ma_map a) with
  | None => (inl ae_backend, a)
  | Some exported =>
      let offsets :=
        if negb (has (ma_nearest_offsets a)) then pg_nearest_offsets exported
        else ma_nearest_offsets a in
      let a := ma_set_export (PlanningGrid_ownedByteSize exported) offsets a in
      match make_root (with_nearest_offsets offsets exported) identity (ma_change_history a) with
      | inl e => (inl (ae_snapshot e), a)
      | inr s =>
          (inr (mkExport s em_kFull reason (vector_size (pg_base_state exported))
                  (vector_size (ig_occupied (pg_inflated exported)))), a)
      end
  end.

Definition export_patch (identity : WorldSnapshotIdentity) (a : MappingActor) : actor_result Export :=
  let region := ma_pending_changed_region a in
  match exportPlanningGridRegion (ma_map a) (minimum region) (maximum region) with
  | None => (inl ae_backend, a)
  | Some patch =>
      match pp_base_state patch, ig_occupied (pp_inflated patch) with
      | _ :: _, _ :: _ =>
          match make_patched (ma_current_snapshot a) patch identity (ma_change_history a) with
          | inl e => (inl (ae_snapshot e), a)
          | inr s =>
              (inr (mkExport s em_kPatch fr_kNone (vector_size (pp_base_state patch))
                      (vector_size (ig_occupied (pp_inflated patch)))), a)
          end
      | _, _ => export_full identity fr_kEmptyPatch a
      end
  end.

Definition export_snapshot (identity : WorldSnapshotIdentity) (a : MappingActor)
    : actor_result Export :=
  if can_apply_patch a && (0 <? ma_full_snapshot_owned_bytes a) then
    if patch_efficient a then export_patch identity a else export_full identity fr_kPatchTooLarge a
  else export_full identity fr_kNone a.

Definition deferred_result (outcome : MapUpdateOutcome) (d : RaycastDiagnostics)
    (identity : WorldSnapshotIdentity) (dirty : Z) : MappingUpdateResult :=
  mkUpdateResult outcome d None identity em_kDeferred fr_kNone 0 0 0 dirty 0 0 0.

Definition published_result (outcome : MapUpdateOutcome) (d : RaycastDiagnostics)
    (identity : WorldSnapshotIdentity) (dirty : Z) (e : Export) (a : MappingActor)
    : MappingUpdateResult :=
  let full := ma_full_snapshot_owned_bytes a in
  let copied := snap_ownedByteSize (ex_snapshot e) in
  mkUpdateResult outcome d (Some (ex_snapshot e)) identity (ex_mode e) (ex_reason e)
    (ex_base_cells e) (ex_inflated_cells e) (patchDepth (ex_snapshot e)) dirty full copied
    (if copied <? full then full - copied else 0).

(** After the update of the map has advanced the world. *)
Definition advance_world (o : MappingObservation) (outcome : MapUpdateOutcome)
    (d : RaycastDiagnostics) (a : MappingActor) : actor_result MappingUpdateResult :=
  let r := record_change o d a in
  let identity := wc_identity r.1 in
  let a := r.2 in
  let dirty := dirty_voxel_count d a in
  match publication_due o a with
  | None => (inl ae_runtime_error, a)
  | Some false => (inr (deferred_result outcome d identity dirty), ma_accept_source o a)
  | Some true =>
      match export_snapshot identity a with
      | (inl e, a) => (inl e, a)
      | (inr e, a) =>
          (inr (published_result outcome d identity dirty e a),
           ma_publish (ex_snapshot e) (ma_accept_source o a))
      end
  end.

(** The body of the [try] block. *)
Definition process_body (o : MappingObservation) (a : MappingActor)
    : actor_result MappingUpdateResult :=
  match begin_epoch o a with
  | (inl e, a) => (inl e, a)
  | (inr _, a) =>
      match update_backend o a with
      | (inl e, a) => (inl e, a)
      | (inr (outcome, d), a) => advance_world o outcome d a
      end
  end.

Definition process (o : MappingObservation) (a : MappingActor) : actor_result MappingUpdateResult :=
  if ma_poisoned a then (inl ae_logic_error, a)
  else
    match validateObservation a o with
    | Some e => (inl e, a)
    | None =>
        if ob_localization_epoch o <? ma_localization_epoch a then (inl ae_runtime_error, a)
        else if negb (finiteNonzeroQuaternion (oo_orientation (ob_corrected_odometry o)))
        then (inl ae_invalid_argument, a)
        else
          match process_body o a with
          | (inl e, a) => (inl e, ma_poison a)
          | (inr r, a) => (inr r, a)
          end
    end.

(** [initialSnapshot]: the world before the first observation. *)
Definition initialSnapshot (a : MappingActor) : actor_result MappingWorldSnapshot :=
  match exportPlanningGrid (ma_map a) with
  | None => (inl ae_backend, a)
  | Some exported =>
      let a := ma_set_export (PlanningGrid_ownedByteSize exported) (pg_nearest_offsets exported) a in
      match make_root exported (mkIdentity (ma_localization_epoch a) (ma_world_generation a) 0 0)
              (ma_change_history a) with
      | inl e => (inl (ae_snapshot e), a)
      | inr s => (inr s, ma_publish s a)
      end
  end.

(** The calls of the owner. *)
Inductive actor_call : Type :=
| call_initialSnapshot
| call_process (o : MappingObservation).

Definition actor_step (c : actor_call) (a : MappingActor) : MappingActor :=
  match c with
  | call_initialSnapshot => (initialSnapshot a).2
  | call_process o => (process o a).2
  end.

(** Every state the owner can bring an actor into. *)
Inductive actor_reachable : MappingActor -> Prop :=
| actor_made w b p a : make_actor w b p = inr a -> actor_reachable a
| actor_called c a : actor_reachable a -> actor_reachable (actor_step c a).
End Actor.
