(* ===== verification/MapActorProps.v ===== *)
(** * Properties of the mapping actor

    The bounded change window, the order of the published identities, the latch
    of a failed transition; and, against a contract of the mutable map, that every
    published snapshot is the content of the map, and that a region the change
    query calls unaffected is classified alike in both worlds. *)

From S2P Require Import Prelude Float64 Float64Facts FloatOrder TimeNs Geometry World WorldGrid MapSnapshot MapSnapshotProps MapActor.

(** ** Boxes *)

(** A point inside a box. *)
Definition in_box (b : AxisAlignedBox) (p : vec3) : bool :=
  fle (vx (minimum b)) (vx p) && fle (vx p) (vx (maximum b))
  && fle (vy (minimum b)) (vy p) && fle (vy p) (vy (maximum b))
  && fle (vz (minimum b)) (vz p) && fle (vz p) (vz (maximum b)).

Definition vec3_finite (v : vec3) : Prop :=
  isfinite (vx v) = true /\ isfinite (vy v) = true /\ isfinite (vz v) = true.

Section Boxes.
Context `{E : EigenOps, !EigenLaws E}.

Lemma box_valid_spec b : AxisAlignedBox_valid b = true <->
  vec3_finite (minimum b) /\ vec3_finite (maximum b) /\
  fle (vx (minimum b)) (vx (maximum b)) = true /\ fle (vy (minimum b)) (vy (maximum b)) = true /\
  fle (vz (minimum b)) (vz (maximum b)) = true.
Proof.
  unfold AxisAlignedBox_valid, vec3_finite. rewrite !v_allFinite_spec, v_all_ge_spec.
  unfold fge, fle. rewrite !andb_true_iff. intuition.
Qed.

Lemma fmin_le_l a b : isfinite a = true -> isfinite b = true -> fle (fmin a b) a = true.
Proof.
  intros Ha Hb. unfold fmin. destruct (flt b a) eqn:Ef; [by apply flt_fle|].
  by apply fle_refl, isfinite_not_nan.
Qed.

Lemma fmin_le_r a b : isfinite a = true -> isfinite b = true -> fle (fmin a b) b = true.
Proof.
  intros Ha Hb. unfold fmin. destruct (flt b a) eqn:Ef; [by apply fle_refl, isfinite_not_nan|].
  apply fle_negb_flt. split_and!; eauto with nav.
Qed.

Lemma fmax_ge_l' a b : isfinite a = true -> isfinite b = true -> fle a (fmax a b) = true.
Proof. intros Ha Hb. by apply fmax_ge_l, isfinite_not_nan. Qed.

Lemma finite_fmin a b : isfinite a = true -> isfinite b = true -> isfinite (fmin a b) = true.
Proof. intros. by destruct (fmin_cases a b) as [-> | ->]. Qed.

Lemma finite_fmax a b : isfinite a = true -> isfinite b = true -> isfinite (fmax a b) = true.
Proof. intros. by destruct (fmax_cases a b) as [-> | ->]. Qed.

(** The union of two valid boxes as the actor computes it. *)
Definition box_union (a b : AxisAlignedBox) : AxisAlignedBox :=
  mkBox (MapSnapshot.v_cwiseMin (minimum a) (minimum b))
        (MapSnapshot.v_cwiseMax (maximum a) (maximum b)).

Lemma box_union_valid a b : AxisAlignedBox_valid a = true -> AxisAlignedBox_valid b = true ->
  AxisAlignedBox_valid (box_union a b) = true.
Proof.
  rewrite !box_valid_spec. unfold box_union, vec3_finite. simpl.
  intros ((?&?&?) & (?&?&?) & ?&?&?) ((?&?&?) & (?&?&?) & ?&?&?).
  split_and!; try (by apply finite_fmin || by apply finite_fmax);
    (eapply fle_trans'; [apply fmin_le_l; done|]; eapply fle_trans'; [eassumption|]; by apply fmax_ge_l').
Qed.

Lemma in_box_union a b p : AxisAlignedBox_valid a = true -> AxisAlignedBox_valid b = true ->
  in_box a p = true \/ in_box b p = true -> in_box (box_union a b) p = true.
Proof.
  rewrite !box_valid_spec. unfold box_union, vec3_finite, in_box. simpl.
  intros ((?&?&?) & (?&?&?) & ?&?&?) ((?&?&?) & (?&?&?) & ?&?&?) Hin.
  rewrite !andb_true_iff in *. destruct Hin as [Hin|Hin]; destruct_and!; split_and!;
    (eapply fle_trans'; [|eassumption]; (apply fmin_le_l || apply fmin_le_r); done) ||
    (eapply fle_trans'; [eassumption|]; (apply fmax_ge_l' || apply fmax_ge_r); auto with nav).
Qed.

(** Boxes that do not overlap share no point. *)
Lemma disjoint_boxes a b p : boxesOverlap a b = false -> in_box b p = true -> in_box a p = false.
Proof.
  unfold boxesOverlap. destruct (_ || _) eqn:Ev; [done|]. rewrite !v_all_le_spec. intros Hno Hb.
  destruct (in_box a p) eqn:Ha; [|done]. exfalso. unfold in_box in Ha, Hb.
  rewrite !andb_true_iff in Ha, Hb. destruct_and!. rewrite andb_false_iff in Hno.
  destruct Hno as [Hno|Hno]; rewrite !andb_false_iff in Hno; destruct Hno as [[Hno|Hno]|Hno];
    erewrite fle_trans' in Hno; done || eassumption.
Qed.
End Boxes.

(** ** The stages *)

Section ActorFacts.
Context `{E : EigenOps, EigenMatOps, MapBackend}.

Lemma process_ok o a r a' : process o a = (inr r, a') ->
  ma_poisoned a = false /\ validateObservation a o = None /\
  ma_localization_epoch a <= ob_localization_epoch o /\ process_body o a = (inr r, a').
Proof.
  unfold process. destruct (ma_poisoned a); [done|]. destruct (validateObservation a o); [done|].
  destruct (_ <? _) eqn:El; [done|]. destruct (negb _); [done|].
  destruct (process_body o a) as [[e|r'] a1]; [done|]. intros [= -> ->]. breflect. done.
Qed.

Lemma process_error o a e a' : process o a = (inl e, a') ->
  a' = a \/ (ma_poisoned a = false /\ exists a1, process_body o a = (inl e, a1) /\ a' = ma_poison a1).
Proof.
  unfold process. destruct (ma_poisoned a) eqn:Ep; [intros [= _ <-]; by left|].
  destruct (validateObservation a o); [intros [= _ <-]; by left|].
  destruct (_ <? _); [intros [= _ <-]; by left|]. destruct (negb _); [intros [= _ <-]; by left|].
  destruct (process_body o a) as [[e'|r'] a1]; [|done]. intros [= <- <-]. right. eauto.
Qed.

Lemma begin_epoch_ok o a a1 : begin_epoch o a = (inr tt, a1) ->
  ma_world_revision a1 <> u64_max /\
  ((ob_localization_epoch o <= ma_localization_epoch a /\ a1 = a) \/
   (ma_localization_epoch a < ob_localization_epoch o /\ ma_world_generation a <> u64_max /\
    exists m, newRuntimeMap = Some m /\ a1 = ma_new_epoch m (ob_localization_epoch o) a)).
Proof.
  unfold begin_epoch. cbv zeta. destruct (_ <? _) eqn:El.
  - destruct (_ =? u64_max) eqn:Eg; [done|]. destruct newRuntimeMap as [m|]; [|done].
    destruct (_ =? u64_max) eqn:Er; [done|]. intros [= <-]. breflect. split; [done|]. right. eauto.
  - destruct (_ =? u64_max) eqn:Er; [done|]. intros [= <-]. breflect. auto.
Qed.

(** The backend's update as [process] calls it. *)
Definition backend_call (o : MappingObservation) (m : RuntimeMap) :=
  updateMap (default [] (ob_cloud o)) (default [] (ob_free_space_endpoints o)) (observation_pose o)
    (ob_sensor_origin_world o) m.

Lemma fillBackendCloud_some l l' : fillBackendCloud l = Some l' -> l' = l.
Proof. unfold fillBackendCloud. destruct (forallb _ _); [|done]. by intros [= <-]. Qed.

Lemma update_backend_ok o a oc d a2 : update_backend o a = (inr (oc, d), a2) ->
  exists m bo, backend_call o (ma_map a) = (m, Some (bo, d)) /\ oc = toProductOutcome bo /\
    worldUpdateAdvanced oc = true /\ a2 = ma_set_map m a.
Proof.
  unfold update_backend. destruct (fillBackendCloud (default [] (ob_cloud o))) as [c|] eqn:Ec; [|done].
  destruct (fillBackendCloud (default [] (ob_free_space_endpoints o))) as [f|] eqn:Ef; [|done].
  apply fillBackendCloud_some in Ec as ->, Ef as ->. cbv zeta. fold (backend_call o (ma_map a)).
  destruct (backend_call o (ma_map a)) as [m [[bo d']|]] eqn:Eb; simpl; [|done].
  destruct (worldUpdateAdvanced _) eqn:Ew; [|done]. intros [= <- <- <-]. eauto 10.
Qed.

Lemma process_body_ok o a r a' : process_body o a = (inr r, a') ->
  exists a1 m bo d, begin_epoch o a = (inr tt, a1) /\
    backend_call o (ma_map a1) = (m, Some (bo, d)) /\
    worldUpdateAdvanced (toProductOutcome bo) = true /\
    advance_world o (toProductOutcome bo) d (ma_set_map m a1) = (inr r, a').
Proof.
  unfold process_body. destruct (begin_epoch o a) as [[e|[]] a1] eqn:Eb; [done|].
  destruct (update_backend o a1) as [[e|[oc d]] a2] eqn:Eu; [done|].
  apply update_backend_ok in Eu as (m & bo & ? & -> & ? & ->). intros. eauto 10.
Qed.

(** What an export has read and made. *)
Inductive export_spec (identity : WorldSnapshotIdentity) (a : MappingActor) :
    Export -> MappingActor -> Prop :=
| exported_full e g bytes offsets :
    exportPlanningGrid (ma_map a) = Some g ->
    make_root (with_nearest_offsets offsets g) identity (ma_change_history a) = inr (ex_snapshot e) ->
    export_spec identity a e (ma_set_export bytes offsets a)
| exported_patch e s p :
    ma_current_snapshot a = Some s -> patchDepth s < kMaximumSnapshotPatchDepth ->
    ma_pending_change_covers_world a = false ->
    AxisAlignedBox_valid (ma_pending_changed_region a) = true ->
    exportPlanningGridRegion (ma_map a) (minimum (ma_pending_changed_region a))
      (maximum (ma_pending_changed_region a)) = Some p ->
    make_patched (Some s) p identity (ma_change_history a) = inr (ex_snapshot e) ->
    export_spec identity a e a.

Lemma export_full_ok i reason a e a' : export_full i reason a = (inr e, a') -> export_spec i a e a'.
Proof.
  unfold export_full. cbv zeta. destruct (exportPlanningGrid (ma_map a)) as [g|] eqn:Eg; [|done].
  destruct (make_root _ _ _) as [|s] eqn:Em; [done|]. intros [= <- <-]. by econstructor.
Qed.

Lemma can_apply_patch_spec a : can_apply_patch a = true ->
  exists s, ma_current_snapshot a = Some s /\ patchDepth s < kMaximumSnapshotPatchDepth /\
    ma_pending_change_covers_world a = false /\
    AxisAlignedBox_valid (ma_pending_changed_region a) = true.
Proof. unfold can_apply_patch. destruct (ma_current_snapshot a) as [s|]; [|done]. intros. bsplit. eauto. Qed.

Lemma export_snapshot_ok i a e a' : export_snapshot i a = (inr e, a') -> export_spec i a e a'.
Proof.
  unfold export_snapshot. destruct (_ && _) eqn:Ec; [|apply export_full_ok].
  destruct (patch_efficient a); [|apply export_full_ok]. bsplit.
  match goal with H : can_apply_patch a = true |- _ => apply can_apply_patch_spec in H as (s & Hs & ? & ? & ?) end.
  unfold export_patch. cbv zeta.
  destruct (exportPlanningGridRegion _ _ _) as [p|] eqn:Ep; [|done].
  destruct (pp_base_state p); [apply export_full_ok|].
  destruct (ig_occupied (pp_inflated p)); [apply export_full_ok|].
  rewrite Hs. destruct (make_patched (Some s) p i _) as [|s'] eqn:Em; [done|].
  intros [= <- <-]. by eapply exported_patch.
Qed.

(** A successful advance: the change is recorded, then the snapshot is deferred or
    exported. *)
Inductive advance_spec (o : MappingObservation) (d : RaycastDiagnostics) (a : MappingActor) :
    MappingUpdateResult -> MappingActor -> Prop :=
| advance_deferred r :
    ur_snapshot r = None -> ur_identity r = next_identity o a ->
    is_Some (ma_current_snapshot a) ->
    ma_pending_change_covers_world (record_change o d a).2 = false ->
    advance_spec o d a r (ma_accept_source o (record_change o d a).2)
| advance_published r e a4 :
    export_spec (next_identity o a) (record_change o d a).2 e a4 ->
    ur_snapshot r = Some (ex_snapshot e) -> ur_identity r = next_identity o a ->
    advance_spec o d a r (ma_publish (ex_snapshot e) (ma_accept_source o a4)).

Lemma advance_world_ok o oc d a r a' : advance_world o oc d a = (inr r, a') ->
  advance_spec o d a r a'.
Proof.
  unfold advance_world. cbv zeta.
  change (wc_identity (record_change o d a).1) with (next_identity o a).
  destruct (publication_due o _) as [[]|] eqn:Ed; [| |done].
  - destruct (export_snapshot _ _) as [[e|e] a4] eqn:Ee; [done|]. intros [= <- <-].
    apply export_snapshot_ok in Ee. by eapply advance_published.
  - intros [= <- <-]. unfold publication_due in Ed.
    change (ma_current_snapshot (record_change o d a).2) with (ma_current_snapshot a) in Ed.
    destruct (ma_current_snapshot a) eqn:Ec; [|done].
    destruct (checkedDifference _ _); [|done]. injection Ed as Ed. breflect.
    by apply advance_deferred; try done; try rewrite Ec; destruct_and?.
Qed.
End ActorFacts.

(** ** The invariant *)

Section ActorInvariant.
Context `{E : EigenOps, !EigenLaws E, EigenMatOps, MapBackend}.

(** The change records the actor holds, newest first. *)
Definition change_window (a : MappingActor) : list WorldChangeRecord :=
  match ma_change_history a with Some h => wh_records h | None => [] end.

Definition in_epoch (a : MappingActor) (i : WorldSnapshotIdentity) : Prop :=
  wi_localization_epoch i = ma_localization_epoch a /\ wi_generation i = ma_world_generation a.

(** A snapshot the actor holds as its current one. *)
Definition snapshot_good (a : MappingActor) (s : MappingWorldSnapshot) : Prop :=
  built s /\ in_epoch a (snap_identity s) /\
  wi_revision (snap_identity s) <= ma_world_revision a /\
  wi_observation_stamp_ns (snap_identity s) <= ma_last_observation_stamp_ns a /\
  patchDepth s <= kMaximumSnapshotPatchDepth.

Record good (a : MappingActor) : Prop := {
  g_revision : 0 <= ma_world_revision a;
  g_stamp : 0 <= ma_last_observation_stamp_ns a;
  g_length : Z.of_nat (length (change_window a)) =
    Z.min (Z.of_nat kWorldChangeHistoryRetention) (ma_world_revision a);
  g_window k r : change_window a !! k = Some r ->
    in_epoch a (wc_identity r) /\ wi_revision (wc_identity r) = ma_world_revision a - Z.of_nat k /\
    0 < wi_observation_stamp_ns (wc_identity r) <= ma_last_observation_stamp_ns a;
  g_order k r r' : change_window a !! k = Some r -> change_window a !! S k = Some r' ->
    wi_observation_stamp_ns (wc_identity r') < wi_observation_stamp_ns (wc_identity r);
  g_snapshot s : ma_current_snapshot a = Some s -> snapshot_good a s;
  g_pending : AxisAlignedBox_valid (ma_pending_changed_region a) = true;
  g_origin : in_box (ma_pending_changed_region a) vec3_zero = true
}.

Lemma box_default_valid : AxisAlignedBox_valid AxisAlignedBox_default = true.
Proof. apply box_valid_spec. by vm_compute. Qed.

Lemma good_made w b p a : make_actor w b p = inr a -> good a.
Proof.
  unfold make_actor. destruct (secondsToNanoseconds p) as [n|]; [|done].
  destruct (n <=? 0); [done|]. destruct newRuntimeMap; [|done]. intros [= <-].
  split; try done. apply box_default_valid.
Qed.

Lemma good_set_map m a : good a -> good (ma_set_map m a).
Proof. by intros []; split. Qed.

Lemma good_set_export b n a : good a -> good (ma_set_export b n a).
Proof. by intros []; split. Qed.

Lemma good_publish s a : good a -> snapshot_good a s -> good (ma_publish s a).
Proof.
  intros [] Hs. split; try done; [|apply box_default_valid]. by intros s' [= <-].
Qed.

Lemma good_new_epoch m e a : good (ma_new_epoch m e a).
Proof. split; try done. apply box_default_valid. Qed.

(** ** Recording a change *)

Lemma pending_after_cases c region w :
  AxisAlignedBox_valid region = true ->
  AxisAlignedBox_valid (pending_after c region w).1 = true /\
  (in_box region vec3_zero = true -> in_box (pending_after c region w).1 vec3_zero = true) /\
  ((pending_after c region w).2 = false ->
     w = false /\ wc_affects_whole_world c = false /\
     AxisAlignedBox_valid (wc_affected_region c) = true /\
     (pending_after c region w).1 = box_union region (wc_affected_region c)).
Proof.
  intros Hv. unfold pending_after. destruct (wc_affects_whole_world c); [done|].
  destruct (AxisAlignedBox_valid (wc_affected_region c)) eqn:Ec; [|done]. rewrite Hv. simpl.
  split_and!; [by apply box_union_valid|intros; apply in_box_union; auto|done].
Qed.

Lemma push_window c h : wh_records (push_change c h) =
  c :: take (kWorldChangeHistoryRetention - 1)
         (match h with Some h => wh_records h | None => [] end).
Proof. done. Qed.

Lemma good_recorded o d a : good a ->
  ma_localization_epoch a = ob_localization_epoch o ->
  ma_last_observation_stamp_ns a < ob_stamp_ns o ->
  good (ma_accept_source o (record_change o d a).2).
Proof.
  intros Hg He Hs. destruct Hg as [Hr Hst Hl Hw Ho Hc Hp Horigin].
  set (change := (record_change o d a).1).
  set (a' := ma_accept_source o (record_change o d a).2).
  destruct (pending_after_cases change (ma_pending_changed_region a) (ma_pending_change_covers_world a) Hp)
    as (Hpv & Hp0 & _).
  assert (change_window a' = change :: take (kWorldChangeHistoryRetention - 1) (change_window a))
    as Hwin by done.
  assert (ma_world_revision a' = ma_world_revision a + 1) as Hrev by done.
  assert (ma_last_observation_stamp_ns a' = ob_stamp_ns o) as Hlast by done.
  assert (wc_identity change = next_identity o a) as Hid by done.
  assert (ma_pending_changed_region a' = (pending_after change (ma_pending_changed_region a)
    (ma_pending_change_covers_world a)).1) as Hpend by done.
  clearbody change. split; rewrite ?Hwin, ?Hrev, ?Hlast, ?Hpend; try done; try lia.
  - simpl. rewrite length_take. unfold kWorldChangeHistoryRetention in *. lia.
  - intros [|k] r; simpl.
    + intros [= <-]. rewrite Hid. split; [done|]. simpl. lia.
    + intros [Hk _]%lookup_take_Some. apply Hw in Hk as (? & ? & ?). split; [done|]. lia.
  - intros [|k] r r'; simpl.
    + intros [= <-] [Hk _]%lookup_take_Some. apply Hw in Hk as (_ & _ & ?). rewrite Hid. simpl. lia.
    + intros [Hk _]%lookup_take_Some [Hk' _]%lookup_take_Some. by apply (Ho k).
  - intros s Hcs. destruct (Hc s Hcs) as (? & ? & ? & ? & ?). split_and!; try done; rewrite ?Hrev, ?Hlast; lia.
  - auto.
Qed.

Lemma begun o a a1 : good a -> validateObservation a o = None ->
  ma_localization_epoch a <= ob_localization_epoch o -> begin_epoch o a = (inr tt, a1) ->
  good a1 /\ ma_localization_epoch a1 = ob_localization_epoch o /\
  ma_last_observation_stamp_ns a1 < ob_stamp_ns o /\
  (a1 = a \/ ma_localization_epoch a < ma_localization_epoch a1).
Proof.
  intros Hg Hv Hle (_ & [[? ->]|(? & _ & m & _ & ->)])%begin_epoch_ok.
  - assert (ma_localization_epoch a = ob_localization_epoch o) as He by lia.
    split_and!; [done|done| |by left]. unfold validateObservation in Hv. cbv zeta in Hv.
    repeat match type of Hv with (if ?b then _ else _) = None => destruct b; [done|] end.
    unfold validate_order in Hv. rewrite He, Z.eqb_refl in Hv. simpl in Hv.
    destruct (_ <=? _) eqn:El; [done|]. by breflect.
  - split_and!; [apply good_new_epoch|done| |right; simpl; lia]. simpl.
    unfold validateObservation in Hv. cbv zeta in Hv. destruct (_ || _) eqn:E0; [done|]. by bsplit; lia.
Qed.

(** The state and the snapshot of an export. *)
Lemma exported_good i a e a4 : export_spec i a e a4 ->
  (forall s, ma_current_snapshot a = Some s -> built s) ->
  built (ex_snapshot e) /\ snap_identity (ex_snapshot e) = i /\
  snap_history (ex_snapshot e) = ma_change_history a /\
  patchDepth (ex_snapshot e) <= kMaximumSnapshotPatchDepth.
Proof.
  intros [e' g b n Hx Hm|e' s p Hs Hd Hp _ Hx Hm] Hb.
  - split; [by eapply built_root|]. apply make_root_ok in Hm as [-> _]. done.
  - split; [eapply built_patch; eauto|]. apply make_patched_ok in Hm as (q & [= <-] & -> & _).
    simpl. unfold kMaximumSnapshotPatchDepth in *. split_and!; [done..|]. lia.
Qed.

Lemma export_state i a e a4 : export_spec i a e a4 ->
  a4 = a \/ exists b n, a4 = ma_set_export b n a.
Proof. intros []; eauto. Qed.

Lemma advance_good o d a r a' : good a -> advance_spec o d a r a' ->
  ma_localization_epoch a = ob_localization_epoch o ->
  ma_last_observation_stamp_ns a < ob_stamp_ns o -> good a'.
Proof.
  intros Hg Ha He Hs. pose proof (good_recorded o d a Hg He Hs) as Hrec.
  destruct Ha as [r|r e a4 Hx]; [done|].
  assert (good (ma_accept_source o a4)) as H4.
  { destruct (export_state _ _ _ _ Hx) as [->|(b & n & ->)]; [done|].
    by apply (good_set_export b n) in Hrec. }
  apply good_publish; [done|].
  apply exported_good in Hx as Hx'; [|by intros s' [? _]%(g_snapshot _ Hg)].
  destruct Hx' as (? & Hid & _ & ?). unfold snapshot_good, in_epoch. rewrite Hid.
  destruct (export_state _ _ _ _ Hx) as [->|(b & n & ->)]; simpl; split_and!; done || lia.
Qed.

Lemma process_good o a r a' : good a -> process o a = (inr r, a') -> good a'.
Proof.
  intros Hg (_ & Hv & Hle & (a1 & m & bo & d & Hb & _ & _ & Ha)%process_body_ok)%process_ok.
  destruct (begun o a a1 Hg Hv Hle Hb) as (Hg1 & He & Hs & _).
  eapply advance_good; [by apply good_set_map|by eapply advance_world_ok|done|done].
Qed.

Lemma initial_good a : good a -> good (initialSnapshot a).2.
Proof.
  intros Hg. unfold initialSnapshot. destruct (exportPlanningGrid _) as [g|] eqn:Ex; [|done].
  cbv zeta. destruct (make_root _ _ _) as [e|s] eqn:Em; simpl; [by apply good_set_export|].
  apply good_publish; [by apply good_set_export|].
  pose proof (built_root _ _ _ _ Em). apply make_root_ok in Em as [-> _].
  destruct Hg. split_and!; done || simpl; unfold kMaximumSnapshotPatchDepth; lia.
Qed.

Lemma initial_poisoned a : ma_poisoned (initialSnapshot a).2 = ma_poisoned a.
Proof.
  unfold initialSnapshot. destruct (exportPlanningGrid _) as [g|]; [|done]. cbv zeta.
  by destruct (make_root _ _ _).
Qed.

(** A reachable actor is poisoned or good. *)
Lemma reachable_good a : actor_reachable a -> ma_poisoned a = true \/ good a.
Proof.
  induction 1 as [w b p a Hm|c a _ IH]; [right; by eapply good_made|].
  destruct c as [|o]; simpl.
  - rewrite initial_poisoned. destruct IH as [?|?]; [by left|right]. by apply initial_good.
  - destruct (process o a) as [[e|r] a'] eqn:Ep; simpl.
    + apply process_error in Ep as [->|(_ & a1 & _ & ->)]; [done|by left].
    + pose proof Ep as (Hp & _)%process_ok. destruct IH as [?|Hg]; [congruence|].
      right. by eapply process_good.
Qed.
End ActorInvariant.

(** ** Order, window, latch *)

Section ActorTheorems.
Context `{E : EigenOps, !EigenLaws E, EigenMatOps, MapBackend}.

(** The identity of the world an actor has last built. *)
Definition world_identity (a : MappingActor) : WorldSnapshotIdentity :=
  mkIdentity (ma_localization_epoch a) (ma_world_generation a) (ma_world_revision a)
    (ma_last_observation_stamp_ns a).

Lemma advance_identity o d a r a' : advance_spec o d a r a' ->
  ma_localization_epoch a = ob_localization_epoch o ->
  ur_identity r = next_identity o a /\ world_identity a' = next_identity o a /\
  change_window a' = mkChange (next_identity o a) (change_region (getMapConfig (ma_map a)) d).1
                       (change_region (getMapConfig (ma_map a)) d).2
                     :: take (kWorldChangeHistoryRetention - 1) (change_window a) /\
  ma_map a' = ma_map a /\ ma_poisoned a' = ma_poisoned a.
Proof.
  intros [r' ? ? ? ?|r' e a4 Hx ? ?] He; [done|].
  by destruct (export_state _ _ _ _ Hx) as [->|(b & n & ->)].
Qed.

(** A success of [process], seen from the epoch it starts or continues. *)
Lemma process_advance o a r a' : good a -> process o a = (inr r, a') ->
  exists a1 m bo d, good a1 /\ (a1 = a \/ (change_window a1 = [] /\ ma_current_snapshot a1 = None /\
      ma_localization_epoch a < ma_localization_epoch a1 /\ ma_poisoned a1 = ma_poisoned a)) /\
    ma_localization_epoch a1 = ob_localization_epoch o /\
    ma_last_observation_stamp_ns a1 < ob_stamp_ns o /\
    backend_call o (ma_map a1) = (m, Some (bo, d)) /\
    worldUpdateAdvanced (toProductOutcome bo) = true /\
    advance_spec o d (ma_set_map m a1) r a'.
Proof.
  intros Hg (_ & Hv & Hle & (a1 & m & bo & d & Hb & Hu & Hw & Ha)%process_body_ok)%process_ok.
  destruct (begun o a a1 Hg Hv Hle Hb) as (Hg1 & He & Hs & _).
  apply begin_epoch_ok in Hb as (_ & Hb). exists a1, m, bo, d. split_and!; try done.
  - destruct Hb as [[_ ->]|(? & _ & m' & _ & ->)]; [by left|]. right. split_and!; try done; simpl; lia.
  - by eapply advance_world_ok.
Qed.

(** What a published snapshot is. *)
Lemma process_snapshot o a r a' s : good a -> process o a = (inr r, a') -> ur_snapshot r = Some s ->
  built s /\ snap_identity s = world_identity a' /\ snap_history s = ma_change_history a'.
Proof.
  intros Hg Hp Hsn. destruct (process_advance _ _ _ _ Hg Hp) as (a1 & m & bo & d & Hg1 & _ & He & _ & _ & _ & Ha).
  destruct (advance_identity _ _ _ _ _ Ha He) as (_ & -> & _).
  destruct Ha as [r'|r' e a4 Hx Hsn']; [congruence|].
  rewrite Hsn' in Hsn. injection Hsn as <-.
  destruct (exported_good _ _ _ _ Hx) as (? & ? & Hh & _).
  { intros s' [? _]%(g_snapshot _ (good_set_map m _ Hg1)). done. }
  split_and!; [done..|]. rewrite Hh. by destruct (export_state _ _ _ _ Hx) as [->|(b & n & ->)].
Qed.

(** Every processed observation makes the next world: the reported identity is
    that of the observation's epoch and stamp, is what the actor now stands for,
    and strictly advances (in the order of the snapshot store) over the world
    before it; a published snapshot is a valid one with this very identity and
    the actor's current history. *)
Theorem processed_world_advances (a : MappingActor) (o : MappingObservation)
    (r : MappingUpdateResult) (a' : MappingActor) :
  actor_reachable a -> process o a = (inr r, a') ->
  wi_localization_epoch (ur_identity r) = ob_localization_epoch o /\
  wi_observation_stamp_ns (ur_identity r) = ob_stamp_ns o /\
  world_identity a' = ur_identity r /\ advances (world_identity a) (ur_identity r) /\
  forall s, ur_snapshot r = Some s ->
    built s /\ snap_identity s = ur_identity r /\ snap_history s = ma_change_history a'.
Proof.
  intros Hr Hp. pose proof Hp as (Hnp & _)%process_ok.
  destruct (reachable_good a Hr) as [?|Hg]; [congruence|].
  destruct (process_advance _ _ _ _ Hg Hp) as (a1 & m & bo & d & Hg1 & H1 & He & Hs & _ & _ & Ha).
  destruct (advance_identity _ _ _ _ _ Ha He) as (Hid & Hw & _).
  rewrite Hid. split_and!; [done|done|done| |].
  - unfold advances, world_identity, next_identity. simpl.
    destruct H1 as [->|(_ & _ & Hlt & _)]; [|by left]. right. split; [done|]. right. split; [done|]. lia.
  - intros s Hsn. rewrite <- Hw. by apply (process_snapshot o a r a').
Qed.

(** The change window of an actor that has not failed is exact: it holds the
    records of the last revisions of this epoch and generation, newest first and
    without a gap, 256 of them or all there are, with stamps that decrease; the
    snapshot it holds is no newer and no deeper than eight patches. *)
Theorem change_window_exact (a : MappingActor) :
  actor_reachable a -> ma_poisoned a = false ->
  Z.of_nat (length (change_window a)) = Z.min 256 (ma_world_revision a) /\
  (forall k r, change_window a !! k = Some r ->
     wi_localization_epoch (wc_identity r) = ma_localization_epoch a /\
     wi_generation (wc_identity r) = ma_world_generation a /\
     wi_revision (wc_identity r) = ma_world_revision a - Z.of_nat k) /\
  (forall k r r', change_window a !! k = Some r -> change_window a !! S k = Some r' ->
     wi_observation_stamp_ns (wc_identity r') < wi_observation_stamp_ns (wc_identity r)) /\
  (forall s, ma_current_snapshot a = Some s ->
     built s /\ wi_revision (snap_identity s) <= ma_world_revision a /\ patchDepth s <= 8).
Proof.
  intros Hr Hp. destruct (reachable_good a Hr) as [?|Hg]; [congruence|]. split_and!.
  - apply (g_length a Hg).
  - intros k r Hk. by destruct (g_window a Hg k r Hk) as ([? ?] & ? & _).
  - apply (g_order a Hg).
  - intros s (? & _ & ? & _ & ?)%(g_snapshot a Hg). done.
Qed.

Lemma poisoned_stays c a : ma_poisoned a = true -> ma_poisoned (actor_step c a) = true.
Proof.
  destruct c as [|o]; simpl; [by rewrite initial_poisoned|]. unfold process. intros Hp. by rewrite Hp.
Qed.

(** C29. A failure of [process] either left the actor as it was, which is the case
    exactly when it was refused before the map was touched, or is terminal: the
    actor is poisoned, stays poisoned whatever is called, and refuses every later
    observation without changing. *)
Theorem failure_is_terminal (a : MappingActor) (o : MappingObservation) (e : actor_error)
    (a' : MappingActor) :
  process o a = (inl e, a') ->
  (a' = a /\
   (ma_poisoned a = true \/ is_Some (validateObservation a o) \/
    ob_localization_epoch o < ma_localization_epoch a \/
    finiteNonzeroQuaternion (oo_orientation (ob_corrected_odometry o)) = false)) \/
  (validateObservation a o = None /\
   forall cs o', let b := foldl (fun a c => actor_step c a) a' cs in
     ma_poisoned b = true /\ process o' b = (inl ae_logic_error, b)).
Proof.
  intros Hp. pose proof Hp as [->|(Hnp & a1 & Hb & ->)]%process_error.
  - unfold process in Hp. destruct (ma_poisoned a) eqn:E0; [left; split; [done|by left]|].
    destruct (validateObservation a o) eqn:E1; [left; split; [done|right; left; done]|].
    destruct (_ <? _) eqn:E2; [left; breflect; split; [done|tauto]|].
    destruct (finiteNonzeroQuaternion _) eqn:E3; simpl in Hp; [|left; tauto].
    destruct (process_body o a) as [[e'|r'] a1] eqn:Eb; [|done].
    injection Hp as _ Ha. exfalso. rewrite <- Ha in E0. done.
  - right. assert (validateObservation a o = None) as Hv.
    { unfold process in Hp. rewrite Hnp in Hp. destruct (validateObservation a o) eqn:E1; [|done].
      injection Hp as _ Ha. exfalso. rewrite Ha in Hnp. done. }
    split; [done|]. intros cs o'. cbv zeta.
    assert (ma_poisoned (foldl (fun a c => actor_step c a) (ma_poison a1) cs) = true) as Hb'.
    { clear. generalize (ma_poison a1) (eq_refl : ma_poisoned (ma_poison a1) = true).
      induction cs as [|c cs IH]; intros b Hb; simpl; [done|]. apply IH. by apply poisoned_stays. }
    split; [done|]. unfold process. by rewrite Hb'.
Qed.

(** The pending region is never empty: cleared, it is the box of the world origin
    alone, which is a valid region, so every later region is merged with it and
    every patch is exported over a box that reaches to the origin; the test for
    an invalid pending region never succeeds. *)
Theorem pending_region_reaches_origin (a : MappingActor) :
  actor_reachable a -> ma_poisoned a = false ->
  AxisAlignedBox_valid (ma_pending_changed_region a) = true /\
  in_box (ma_pending_changed_region a) vec3_zero = true /\
  default_reason a <> fr_kInvalidChangedRegion.
Proof.
  intros Hr Hp. destruct (reachable_good a Hr) as [?|Hg]; [congruence|].
  split_and!; [apply (g_pending a Hg)|apply (g_origin a Hg)|].
  unfold default_reason. rewrite (g_pending a Hg). by repeat case_match.
Qed.
End ActorTheorems.

(** ** A concrete backend *)

(** The map is one bit: whether a wall stands in the window. *)
Definition toy_grid (wall : bool) : PlanningGrid :=
  mkPlanningGrid demo_layout (mkInflatedGrid demo_layout (replicate 6 0) [])
    (if wall then replicate 6 3 else replicate 6 4)
    (Some [Idx 0 0 0]) false false fzero (f64_of_Z 5) fzero (f64_of_Z 5) fzero.

(** Free-space endpoints move the wall and change the whole world, other scans change
    nothing near the cell at (1, 0, 0), and a scan of several points is only
    accumulated. *)
Definition toy_diagnostics (whole : bool) : RaycastDiagnostics :=
  mkRaycastDiagnostics 0 0 0 6 (Vec3 (f64_of_Z 1) fzero fzero) (Vec3 (f64_of_Z 1) fzero fzero) whole.

Definition toy_backend : MapBackend := {|
  RuntimeMap := bool;
  newRuntimeMap := Some false;
  updateMap cloud free_space pose origin wall :=
    match cloud, free_space with
    | _ :: _ :: _, _ => (wall, Some (rog_ACCUMULATED, toy_diagnostics false))
    | _, [] => (wall, Some (rog_UPDATED, toy_diagnostics false))
    | _, _ => (negb wall, Some (rog_UPDATED, toy_diagnostics true))
    end;
  getMapConfig _ := mkMapConfig (f64_of_Z 1) (f64_of_Z 1) 0 0;
  exportPlanningGrid wall := Some (toy_grid wall);
  exportPlanningGridRegion wall _ _ :=
    Some (mkGridPatch demo_layout (pg_inflated (toy_grid wall)) (pg_base_state (toy_grid wall)));
  estimatePlanningGridRegionSize _ _ _ := Some (mkEstimate 1 2)
|}.

#[local] Existing Instance eigen_reference.
#[local] Existing Instance eigen_reference_laws.
#[local] Existing Instance eigen_mat_reference.
#[local] Existing Instance toy_backend.

Definition toy_observation (sequence stamp_ns : Z) : MappingObservation :=
  mkObservation (Some [mkPoint fzero fzero fzero fzero])
    (mkObservedOdometry (mkRosTime 0 stamp_ns) "map" "base_link" vec3_zero quat_identity)
    1 sequence stamp_ns None vec3_zero 1 stamp_ns.

(** A fresh actor, after its initial snapshot and after two observations. *)
Definition toy_fresh : MappingActor :=
  match make_actor "map" "base_link" (f64_lit 5 100) with
  | inr a => a
  | inl _ => mkActor false 0 0 None None 0 0 0 0 0 true None AxisAlignedBox_default false "" ""
  end.
Definition toy_actor0 : MappingActor := actor_step call_initialSnapshot toy_fresh.
Definition toy_result_of (r : actor_result MappingUpdateResult) : MappingUpdateResult :=
  match r.1 with
  | inr r => r
  | inl _ => deferred_result mo_kUpdated (toy_diagnostics true) WorldSnapshotIdentity_default 0
  end.
Definition toy_result1 : MappingUpdateResult := toy_result_of (process (toy_observation 1 100000000) toy_actor0).
Definition toy_actor1 : MappingActor := actor_step (call_process (toy_observation 1 100000000)) toy_actor0.
Definition toy_result2 : MappingUpdateResult := toy_result_of (process (toy_observation 2 200000000) toy_actor1).
Definition toy_actor2 : MappingActor := actor_step (call_process (toy_observation 2 200000000)) toy_actor1.

Lemma toy_made : make_actor "map" "base_link" (f64_lit 5 100) = inr toy_fresh.
Proof. vm_compute. reflexivity. Qed.

Lemma toy_reachable0 : actor_reachable toy_actor0.
Proof. unfold toy_actor0. apply actor_called. exact (actor_made _ _ _ _ toy_made). Qed.

Lemma toy_reachable1 : actor_reachable toy_actor1.
Proof. unfold toy_actor1. apply actor_called, toy_reachable0. Qed.

Lemma toy_reachable2 : actor_reachable toy_actor2.
Proof. unfold toy_actor2. apply actor_called, toy_reachable1. Qed.

Lemma toy_process2 : process (toy_observation 2 200000000) toy_actor1 = (inr toy_result2, toy_actor2).
Proof. vm_compute. reflexivity. Qed.

Lemma toy_unpoisoned2 : ma_poisoned toy_actor2 = false.
Proof. vm_compute. reflexivity. Qed.

Lemma processed_world_advances_witness :
  ur_identity toy_result2 = mkIdentity 1 1 2 200000000 /\
  advances (world_identity toy_actor1) (ur_identity toy_result2).
Proof.
  split; [vm_compute; reflexivity|].
  exact (proj1 (proj2 (proj2 (proj2 (processed_world_advances toy_actor1 (toy_observation 2 200000000)
    toy_result2 toy_actor2 toy_reachable1 toy_process2))))).
Defined.

Lemma change_window_exact_witness :
  Z.of_nat (length (change_window toy_actor2)) = Z.min 256 (ma_world_revision toy_actor2) /\
  ma_world_revision toy_actor2 = 2.
Proof.
  split; [|vm_compute; reflexivity].
  exact (proj1 (change_window_exact toy_actor2 toy_reachable2 toy_unpoisoned2)).
Defined.

(** A scan the map only accumulates. *)
Definition toy_bad_observation : MappingObservation :=
  mkObservation (Some [mkPoint fzero fzero fzero fzero; mkPoint fzero fzero fzero fzero])
    (mkObservedOdometry (mkRosTime 0 300000000) "map" "base_link" vec3_zero quat_identity)
    1 3 300000000 None vec3_zero 1 300000000.

Definition toy_failed : MappingActor := actor_step (call_process toy_bad_observation) toy_actor2.

Lemma toy_failure : process toy_bad_observation toy_actor2 = (inl ae_runtime_error, toy_failed).
Proof. vm_compute. reflexivity. Qed.

Lemma toy_failed_poisoned : ma_poisoned toy_failed = true.
Proof. vm_compute. reflexivity. Qed.

Lemma failure_is_terminal_witness :
  process (toy_observation 4 400000000) toy_failed = (inl ae_logic_error, toy_failed).
Proof.
  destruct (failure_is_terminal toy_actor2 toy_bad_observation ae_runtime_error toy_failed toy_failure)
    as [[He _]|[_ Hall]].
  - pose proof (f_equal ma_poisoned He) as Hp. rewrite toy_failed_poisoned, toy_unpoisoned2 in Hp.
    discriminate Hp.
  - exact (proj2 (Hall [] (toy_observation 4 400000000))).
Defined.

Lemma pending_region_reaches_origin_witness :
  in_box (ma_pending_changed_region toy_actor2) vec3_zero = true.
Proof.
  exact (proj1 (proj2 (pending_region_reaches_origin toy_actor2 toy_reachable2 toy_unpoisoned2))).
Defined.
