(* ===== verification/MapActorContract.v ===== *)
(** * The published world is the map

    Against a contract of the mutable map: every snapshot the mapping actor
    publishes, full or patched, classifies every point as the map does at that
    moment; and a region the change query of a later snapshot calls unaffected
    is classified alike by both, which is what lets a candidate validated against
    an older world be committed against the current one. *)

From S2P Require Import Prelude Float64 FloatOrder TimeNs Geometry World WorldGrid MapSnapshot MapSnapshotProps MapRayProps MapActor MapActorProps.

(** ** The contract *)

Section Contract.
Context `{E : EigenOps, EigenMatOps, MapBackend}.

(** What a map says of a point: the classification of its full export. *)
Definition content (m : RuntimeMap) (p : vec3) (l : GridLayer) : CellState :=
  match exportPlanningGrid m with
  | Some g => snap_classify (RootSnapshot g WorldSnapshotIdentity_default None) p l
  | None => kOutOfMap
  end.

(** The window of a map: everything of its export but the cells and the search
    offsets. *)
Definition grid_window (g : PlanningGrid) : PlanningGrid :=
  grid_frame (with_nearest_offsets None g).
Definition map_window (m : RuntimeMap) : option PlanningGrid := grid_window <$> exportPlanningGrid m.

Record backend_contract : Prop := {
  (** An update that does not cover the world leaves the window, and changes the
      map only inside the reported region widened by the margin of the actor. *)
  bc_local o m m' bo d :
    backend_call o m = (m', Some (bo, d)) -> worldUpdateAdvanced (toProductOutcome bo) = true ->
    (change_region (getMapConfig m') d).2 = false ->
    map_window m' = map_window m /\
    forall p l, in_box (change_region (getMapConfig m') d).1 p = false -> content m' p l = content m p l;
  (** A region export over an older snapshot of the same window reads as the map
      inside the region, and wherever the snapshot already did. *)
  bc_region m lo hi patch s :
    exportPlanningGridRegion m lo hi = Some patch ->
    Some (grid_window (rootGrid s)) = map_window m ->
    forall i h p l, in_box (mkBox lo hi) p = true \/ snap_classify s p l = content m p l ->
      snap_classify (PatchSnapshot s patch i h) p l = content m p l
}.

(** ** The snapshot against the map *)

Lemma classify_root_indep n g i h i' h' p l :
  snap_classify (RootSnapshot (with_nearest_offsets n g) i h) p l =
  snap_classify (RootSnapshot g i' h') p l.
Proof. done. Qed.

(** The current snapshot reads as the map outside the pending region. *)
Definition current_synced (a : MappingActor) : Prop :=
  ma_pending_change_covers_world a = false ->
  forall s, ma_current_snapshot a = Some s ->
    Some (grid_window (rootGrid s)) = map_window (ma_map a) /\
    forall p l, in_box (ma_pending_changed_region a) p = false ->
      snap_classify s p l = content (ma_map a) p l.

(** A snapshot reads as the map everywhere. *)
Definition snapshot_synced (m : RuntimeMap) (s : MappingWorldSnapshot) : Prop :=
  Some (grid_window (rootGrid s)) = map_window m /\
  forall p l, snap_classify s p l = content m p l.

Lemma root_synced m g n i h s : exportPlanningGrid m = Some g ->
  make_root (with_nearest_offsets n g) i h = inr s -> snapshot_synced m s.
Proof.
  intros Hx [-> _]%make_root_ok. unfold snapshot_synced, map_window, content. rewrite Hx. split; [done|].
  intros p l. apply classify_root_indep.
Qed.

Lemma with_own_offsets g : with_nearest_offsets (pg_nearest_offsets g) g = g.
Proof. by destruct g. Qed.

Lemma published_synced m s a : snapshot_synced m s -> ma_map a = m -> current_synced (ma_publish s a).
Proof.
  intros [Hw Hc] Hm _ s' [= <-]. simpl. rewrite Hm. split; [done|]. intros p l _. apply Hc.
Qed.

Lemma initial_synced a s a' : initialSnapshot a = (inr s, a') ->
  snapshot_synced (ma_map a') s /\ current_synced a'.
Proof.
  unfold initialSnapshot. destruct (exportPlanningGrid _) as [g|] eqn:Ex; [|done]. cbv zeta.
  destruct (make_root _ _ _) as [e|s'] eqn:Em; [done|]. intros [= <- <-].
  rewrite <- (with_own_offsets g) in Em.
  assert (snapshot_synced (ma_map a) s') as Hs by by eapply root_synced.
  split; [done|]. by eapply published_synced.
Qed.

Context `{!EigenLaws E} (Hbc : backend_contract).

(** One update of the map keeps the rest of the world synchronized. *)
Lemma recorded_synced o d a m bo : good a -> current_synced a ->
  backend_call o (ma_map a) = (m, Some (bo, d)) ->
  worldUpdateAdvanced (toProductOutcome bo) = true ->
  current_synced (record_change o d (ma_set_map m a)).2.
Proof.
  intros Hg Hs Hu Hw Hp s Hc. unfold record_change in *. cbv zeta in *.
  set (change := mkChange _ _ _) in *. simpl in Hp, Hc |- *.
  destruct (pending_after_cases change (ma_pending_changed_region a) (ma_pending_change_covers_world a)
    (g_pending a Hg)) as (_ & _ & Hcase).
  destruct (Hcase Hp) as (Hp0 & Hno & Hv & Heq). rewrite Heq.
  destruct (bc_local Hbc o (ma_map a) m bo d Hu Hw Hno) as [Hwin Hout].
  destruct (Hs Hp0 s Hc) as [Hsw Hsc]. split; [congruence|]. intros p l Hin.
  assert (in_box (ma_pending_changed_region a) p = false /\ in_box (wc_affected_region change) p = false)
    as [H1 H2].
  { split; [destruct (in_box (ma_pending_changed_region a) p) eqn:E1
           |destruct (in_box (wc_affected_region change) p) eqn:E1]; try done;
      (rewrite in_box_union in Hin; [done|apply (g_pending a Hg)|done|tauto]). }
  rewrite (Hout p l H2). by apply Hsc.
Qed.

Lemma export_synced i a e a4 : export_spec i a e a4 -> current_synced a ->
  snapshot_synced (ma_map a) (ex_snapshot e).
Proof.
  intros [e' g b n Hx Hm|e' s p Hc _ Hp _ Hx Hm] Hs; [by eapply root_synced|].
  apply make_patched_ok in Hm as (q & [= <-] & -> & _). destruct (Hs Hp s Hc) as [Hw Hcl].
  split; [done|]. intros pt l. eapply (bc_region Hbc); [done|done|].
  destruct (in_box (mkBox _ _) pt) eqn:Ein; [by left|right]. by apply Hcl.
Qed.

Lemma advance_synced o d a m bo r a' : good a -> current_synced a ->
  backend_call o (ma_map a) = (m, Some (bo, d)) ->
  worldUpdateAdvanced (toProductOutcome bo) = true ->
  advance_spec o d (ma_set_map m a) r a' ->
  current_synced a' /\ forall s, ur_snapshot r = Some s -> snapshot_synced (ma_map a') s.
Proof.
  intros Hg Hs Hu Hw Ha. pose proof (recorded_synced o d a m bo Hg Hs Hu Hw) as Hrec.
  destruct Ha as [r' Hn ? ? ?|r' e a4 Hx Hsn ?].
  - split; [done|]. by rewrite Hn.
  - pose proof (export_synced _ _ _ _ Hx Hrec) as He.
    assert (ma_map (ma_accept_source o a4) = ma_map (record_change o d (ma_set_map m a)).2) as Hm4.
    { by destruct (export_state _ _ _ _ Hx) as [->|(b & n & ->)]. }
    split; [by eapply published_synced|]. rewrite Hsn. intros s [= <-]. simpl in *. by rewrite Hm4.
Qed.

Lemma new_epoch_synced a : ma_current_snapshot a = None -> current_synced a.
Proof. intros Hn _ s Hs. congruence. Qed.

Lemma process_synced o a r a' : good a -> current_synced a -> process o a = (inr r, a') ->
  current_synced a' /\ forall s, ur_snapshot r = Some s -> snapshot_synced (ma_map a') s.
Proof.
  intros Hg Hs Hp. destruct (process_advance _ _ _ _ Hg Hp) as
    (a1 & m & bo & d & Hg1 & H1 & _ & _ & Hu & Hw & Ha).
  eapply advance_synced; [exact Hg1| |done..].
  destruct H1 as [->|(_ & Hn & _)]; [done|by apply new_epoch_synced].
Qed.

Lemma reachable_synced a : actor_reachable a -> ma_poisoned a = false -> current_synced a.
Proof.
  induction 1 as [w b p a Hm|c a Hr IH].
  - intros _. apply new_epoch_synced. unfold make_actor in Hm.
    destruct (secondsToNanoseconds p) as [n|]; [|done]. destruct (n <=? 0); [done|].
    destruct newRuntimeMap; [|done]. by injection Hm as <-.
  - destruct c as [|o]; simpl; intros Hp.
    + rewrite initial_poisoned in Hp. specialize (IH Hp).
      destruct (initialSnapshot a) as [[e|s] a'] eqn:Ei; simpl; [|by eapply initial_synced].
      unfold initialSnapshot in Ei. destruct (exportPlanningGrid _) as [g|]; [|by injection Ei as _ <-].
      cbv zeta in Ei. destruct (make_root _ _ _); [|done]. injection Ei as _ <-. exact IH.
    + destruct (process o a) as [[e|r] a'] eqn:Ep; simpl in *.
      * apply process_error in Ep as [->|(_ & a1 & _ & ->)]; [auto|done].
      * pose proof Ep as (Hnp & _)%process_ok. destruct (reachable_good a Hr) as [?|Hg]; [congruence|].
        eapply process_synced; [done|auto|done].
Qed.

(** ** Runs of one actor *)

(** Observations processed one after the other, without a failure. *)
Inductive actor_run : MappingActor -> MappingActor -> Prop :=
| run_refl a : actor_run a a
| run_step a b o r c : actor_run a b -> process o b = (inr r, c) -> actor_run a c.

Lemma run_good a b : good a -> actor_run a b -> good b.
Proof. intros Hg. induction 1; eauto using process_good. Qed.

Lemma process_epoch o a r a' : good a -> process o a = (inr r, a') ->
  ma_localization_epoch a <= ma_localization_epoch a'.
Proof.
  intros Hg Hp. pose proof Hp as (_ & _ & Hle & _)%process_ok.
  destruct (process_advance _ _ _ _ Hg Hp) as (a1 & m & bo & d & _ & _ & He & _ & _ & _ & Ha).
  destruct (advance_identity _ _ _ _ _ Ha He) as (_ & Hw & _).
  pose proof (f_equal wi_localization_epoch Hw) as Hwe. simpl in Hwe. lia.
Qed.

Lemma run_epoch a b : good a -> actor_run a b -> ma_localization_epoch a <= ma_localization_epoch b.
Proof.
  intros Hg. induction 1 as [|a b o r c Hab IH Hp]; [done|].
  pose proof (process_epoch _ _ _ _ (run_good _ _ Hg Hab) Hp). specialize (IH Hg). lia.
Qed.

(** A success inside one epoch is one update of the map and one record. *)
Lemma process_same_epoch o b r c : good b -> process o b = (inr r, c) ->
  ma_localization_epoch c <= ma_localization_epoch b ->
  exists m bo d, backend_call o (ma_map b) = (m, Some (bo, d)) /\
    worldUpdateAdvanced (toProductOutcome bo) = true /\
    ma_map c = m /\ ma_world_revision c = ma_world_revision b + 1 /\
    change_window c = mkChange (next_identity o b) (change_region (getMapConfig m) d).1
                        (change_region (getMapConfig m) d).2
                      :: take (kWorldChangeHistoryRetention - 1) (change_window b).
Proof.
  intros Hg Hp Hle.
  destruct (process_advance _ _ _ _ Hg Hp) as (b1 & m & bo & d & _ & H1 & He1 & _ & Hu & Hw & Ha).
  destruct (advance_identity _ _ _ _ _ Ha He1) as (_ & Hwc & Hwin & Hmc & _).
  pose proof (f_equal wi_localization_epoch Hwc) as Hwe. simpl in Hwe.
  pose proof (f_equal wi_revision Hwc) as Hwr. simpl in Hwr.
  destruct H1 as [->|(_ & _ & ? & _)]; [|lia]. exists m, bo, d. done.
Qed.

Lemma run_revision a b : good a -> actor_run a b ->
  ma_localization_epoch b <= ma_localization_epoch a -> ma_world_revision a <= ma_world_revision b.
Proof.
  intros Hg. induction 1 as [|a b o r c Hab IH Hp]; [lia|]. intros He.
  pose proof (run_good _ _ Hg Hab) as Hgb. pose proof (run_epoch _ _ Hg Hab).
  pose proof (process_epoch _ _ _ _ Hgb Hp).
  destruct (process_same_epoch _ _ _ _ Hgb Hp) as (m & bo & d & _ & _ & _ & Hr & _); [lia|].
  specialize (IH Hg). lia.
Qed.

(** The window proves every revision after [revision] harmless to the region. *)
Definition window_harmless (a : MappingActor) (revision : Z) (region : AxisAlignedBox) : Prop :=
  forall n, revision < n <= ma_world_revision a ->
    exists r, change_window a !! Z.to_nat (ma_world_revision a - n) = Some r /\
      wc_affects_whole_world r = false /\ boxesOverlap (wc_affected_region r) region = false.

Lemma run_unchanged a b region : good a -> actor_run a b ->
  ma_localization_epoch b <= ma_localization_epoch a ->
  window_harmless b (ma_world_revision a) region ->
  forall p l, in_box region p = true -> content (ma_map b) p l = content (ma_map a) p l.
Proof.
  intros Hg. induction 1 as [|a b o r c Hab IH Hp]; [done|]. intros He Hh p l Hin.
  pose proof (run_good _ _ Hg Hab) as Hgb. pose proof (run_epoch _ _ Hg Hab).
  pose proof (process_epoch _ _ _ _ Hgb Hp). pose proof (run_revision _ _ Hg Hab).
  destruct (process_same_epoch _ _ _ _ Hgb Hp) as (m & bo & d & Hu & Hw & -> & Hr & Hwin); [lia|].
  pose proof (g_revision a Hg).
  destruct (Hh (ma_world_revision c)) as (r' & Hr' & Hno & Hov); [lia|].
  rewrite Z.sub_diag, Hwin in Hr'. injection Hr' as <-. simpl in Hno, Hov.
  destruct (bc_local Hbc o (ma_map b) _ bo d Hu Hw Hno) as [_ Hout].
  rewrite Hout by (by eapply disjoint_boxes). apply IH; [done|lia| |done].
  intros n Hn. destruct (Hh n) as (r' & Hr' & ?); [lia|]. exists r'. split; [|done].
  rewrite Hwin in Hr'.
  replace (Z.to_nat (ma_world_revision c - n)) with (S (Z.to_nat (ma_world_revision b - n))) in Hr' by lia.
  by apply lookup_take_Some in Hr' as [Hr' _].
Qed.

(** C23. Every snapshot the actor publishes, from a full export or as a patch over the
    snapshot before it, classifies every point in both layers exactly as the
    mutable map does at that moment, however many updates were deferred since the
    last publication; so does the initial snapshot. *)
Theorem published_snapshot_is_the_map (a : MappingActor) (o : MappingObservation)
    (r : MappingUpdateResult) (a' : MappingActor) (s : MappingWorldSnapshot) :
  actor_reachable a ->
  (process o a = (inr r, a') /\ ur_snapshot r = Some s) \/ initialSnapshot a = (inr s, a') ->
  forall p l, snap_classify s p l = content (ma_map a') p l.
Proof.
  intros Hr [[Hp Hs]|Hi]; [|by apply initial_synced in Hi as [[_ ?] _]].
  pose proof Hp as (Hnp & _)%process_ok. destruct (reachable_good a Hr) as [?|Hg]; [congruence|].
  destruct (process_synced o a r a' Hg (reachable_synced a Hr Hnp) Hp) as [_ Hall].
  by destruct (Hall s Hs).
Qed.

(** C22. When the change query of a later snapshot calls a region unaffected since an
    earlier snapshot of the same actor, both classify every point of the region
    alike, in both layers, however many worlds lie between them: the premise of
    committing a candidate validated against the earlier world. *)
Theorem unaffected_region_unchanged (a0 a1 a2 a3 : MappingActor) (o1 o2 : MappingObservation)
    (r1 r2 : MappingUpdateResult) (s1 s2 : MappingWorldSnapshot) (region : AxisAlignedBox) :
  actor_reachable a0 ->
  process o1 a0 = (inr r1, a1) -> ur_snapshot r1 = Some s1 ->
  actor_run a1 a2 -> process o2 a2 = (inr r2, a3) -> ur_snapshot r2 = Some s2 ->
  snap_changedRegionIntersectsSince s2 (snap_identity s1) region = false ->
  forall p l, in_box region p = true -> snap_classify s2 p l = snap_classify s1 p l.
Proof.
  intros Hr0 Hp1 Hs1 Hrun Hp2 Hs2 Hun p l Hin.
  pose proof Hp1 as (Hn0 & _)%process_ok. destruct (reachable_good a0 Hr0) as [?|Hg0]; [congruence|].
  pose proof (process_good _ _ _ _ Hg0 Hp1) as Hg1. pose proof (run_good _ _ Hg1 Hrun) as Hg2.
  destruct (process_synced _ _ _ _ Hg0 (reachable_synced a0 Hr0 Hn0) Hp1) as [Hy1 Hsync1].
  destruct (Hsync1 s1 Hs1) as [_ ->].
  assert (current_synced a2) as Hy2.
  { clear -Hrun Hg1 Hy1 EigenLaws0 Hbc. induction Hrun as [|a b o r c Hab IH Hp]; [done|].
    eapply process_synced; [by eapply run_good|by apply IH|done]. }
  destruct (process_synced _ _ _ _ Hg2 Hy2 Hp2) as [_ Hsync2]. destruct (Hsync2 s2 Hs2) as [_ ->].
  destruct (process_snapshot _ _ _ _ _ Hg0 Hp1 Hs1) as (_ & Hid1 & _).
  destruct (process_snapshot _ _ _ _ _ Hg2 Hp2 Hs2) as (_ & Hid2 & Hh2).
  apply unaffected_proven in Hun as (_ & He & _ & Hcase). rewrite Hid1, Hid2 in *. simpl in He.
  apply run_unchanged with (region := region); [done|by eapply run_step|simpl; lia| |done].
  intros n Hn. destruct Hcase as [Heq|(_ & _ & h & Hh & Hall)].
  - pose proof (f_equal wi_revision Heq) as Hrev. simpl in Hrev. lia.
  - destruct (Hall n Hn) as (r & Hr & _ & _ & _ & ? & ?). exists r.
    split; [|done]. unfold change_window. rewrite <- Hh2, Hh. exact Hr.
Qed.
End Contract.

(** ** A concrete backend *)

(** A patch that holds a whole grid replaces it. *)
Lemma whole_patch `{EigenOps} g s i h i' h' p l :
  grid_window (rootGrid s) = grid_window g -> pg_unknown_inflation_enabled g = false ->
  snap_classify (PatchSnapshot s (mkGridPatch (pg_base_layout g) (pg_inflated g) (pg_base_state g)) i h) p l
  = snap_classify (RootSnapshot g i' h') p l.
Proof.
  intros Hw Hu. apply frame_fields in Hw as (Hb & Hi & _ & Hun & Hv & Hg & Hc & Hig & Hic & _).
  cbn [with_nearest_offsets pg_base_layout pg_inflated pg_unknown_inflation_enabled pg_virtual_ground_m
    pg_virtual_ceiling_m pg_inflated_virtual_ground_m pg_inflated_virtual_ceiling_m
    pg_virtual_ground_ceiling_enabled] in *.
  set (t := PatchSnapshot s _ i h). set (r := RootSnapshot g i' h').
  assert (rootGrid t = rootGrid s) as Ht by done. assert (rootGrid r = g) as Hr by done.
  assert (forall q k, snap_positionToIndex t q k = snap_positionToIndex r q k) as Hix.
  { intros q k. unfold snap_positionToIndex, layer_resolution, layer_layout. rewrite Ht, Hr. by rewrite Hb, Hi. }
  assert (forall q k, containsLayer t q k = containsLayer r q k) as Hct.
  { intros q k. unfold containsLayer. rewrite Ht, Hr. by rewrite Hb, Hi. }
  assert (forall k, is_Some (offset (pg_base_layout g) k) -> baseState t k = baseState r k) as Hbs.
  { intros k [o Ho]. simpl. by rewrite Ho. }
  unfold snap_classify, beyond_virtual. cbv zeta. rewrite !Hct, !Hix, Ht, Hr, Hv, Hg, Hc, Hig, Hic, Hi, Hun, Hu.
  destruct (v_allFinite p); [|done]. destruct l; simpl negb; cbv iota.
  - destruct (_ && _); [done|]. destruct (containsLayer r p kEvidence) eqn:Eq; [|done].
    apply Hbs. by eapply contains_offset in Eq.
  - destruct (containsLayer r p kInflated) eqn:Eq; [|done]. simpl negb. cbv iota. destruct (_ && _); [done|].
    destruct (offset (ig_layout (pg_inflated g)) _) as [o|] eqn:Eo; [|done].
    destruct (negb _); [done|]. apply Hbs. by eapply contains_offset in Eq.
Qed.

#[local] Existing Instance eigen_reference.
#[local] Existing Instance eigen_reference_laws.
#[local] Existing Instance eigen_mat_reference.
#[local] Existing Instance toy_backend.

Lemma toy_contract : backend_contract.
Proof.
  split.
  - intros o m m' bo d. unfold backend_call. cbn [updateMap toy_backend].
    destruct (default [] (ob_cloud o)) as [|? [|? ?]], (default [] (ob_free_space_endpoints o));
      intros Heq; injection Heq as <- <- <-;
      intros Hw Hc; try discriminate Hw; try (split; reflexivity);
      change (true = false) in Hc; discriminate Hc.
  - intros m lo hi patch s Heq Hw i h p l _. injection Heq as <-.
    apply (whole_patch (toy_grid m) s i h WorldSnapshotIdentity_default None p l); [|reflexivity].
    exact (f_equal (default (grid_window (toy_grid m))) Hw).
Qed.


Definition toy_snapshot (r : MappingUpdateResult) : MappingWorldSnapshot := default demo_root (ur_snapshot r).

Lemma published_snapshot_is_the_map_witness :
  let p := Vec3 (f64_lit 5 2) (f64_lit (-1) 2) (f64_lit 1 2) in
  snap_classify (toy_snapshot toy_result2) p kEvidence = content (ma_map toy_actor2) p kEvidence /\
  snap_classify (toy_snapshot toy_result2) p kEvidence = kKnownFree.
Proof.
  cbv zeta. split; [|vm_compute; reflexivity].
  apply (published_snapshot_is_the_map toy_contract toy_actor1 (toy_observation 2 200000000)
    toy_result2 toy_actor2); [exact toy_reachable1|left; split; vm_compute; reflexivity].
Defined.

(** A region beside the reported change, inside the window. *)
Definition toy_region : AxisAlignedBox :=
  mkBox (Vec3 (f64_lit 9 4) (f64_lit (-3) 4) (f64_lit 1 4))
        (Vec3 (f64_lit 11 4) (f64_lit (-1) 4) (f64_lit 3 4)).

Lemma unaffected_region_unchanged_witness :
  let p := Vec3 (f64_lit 5 2) (f64_lit (-1) 2) (f64_lit 1 2) in
  snap_classify (toy_snapshot toy_result2) p kEvidence = snap_classify (toy_snapshot toy_result1) p kEvidence
  /\ snap_classify (toy_snapshot toy_result2) p kEvidence = kKnownFree.
Proof.
  cbv zeta. split; [|vm_compute; reflexivity].
  apply (unaffected_region_unchanged toy_contract toy_actor0 toy_actor1 toy_actor1 toy_actor2
    (toy_observation 1 100000000) (toy_observation 2 200000000) toy_result1 toy_result2
    (toy_snapshot toy_result1) (toy_snapshot toy_result2) toy_region);
    [exact toy_reachable0|vm_compute; reflexivity|vm_compute; reflexivity|constructor
    |vm_compute; reflexivity|vm_compute; reflexivity|vm_compute; reflexivity|vm_compute; reflexivity].
Defined.
