(* ===== verification/RuntimePolicy.v ===== *)
(** * The runtime policy

    [runtime/navigation_runtime/include/navigation_runtime_policy]:
    [planning_policy.hpp], [runtime_boundaries.hpp],
    [desired_planning_intent.hpp], [baseline_refinement.hpp]; and of
    [navigation_runtime]: [planner_fsm.hpp], [commit_trace.hpp],
    [same_identity_renewal_injection.hpp], [mapping_observation_contract.hpp],
    [kinematic_derivative_estimator.hpp] and the cause mask of
    [retained_decision_observation.hpp].

    Classes are records of their members.  The lock-free counter of
    [advanceMonotonicId] is modelled at its atomic loads and exchanges; the
    other classes are used under locks of their callers, so a method is one
    transition. *)

From S2P Require Import Prelude Float64 TimeNs Geometry World Candidate Messages Lifecycle Authority.
From S2P Require Import Sampler PlanningContract MapActor.

(** ** The pending goal of a handoff *)

Definition goalMessageNewer (candidate current : NavigationGoal) : bool :=
  if g_mission_id candidate !=? g_mission_id current then false
  else if negb (g_request_id candidate =? g_request_id current)
  then g_request_id current <? g_request_id candidate
  else if negb (g_waypoint_index candidate =? g_waypoint_index current)
  then g_waypoint_index current <? g_waypoint_index candidate
  else r_route_revision (g_route current) <? r_route_revision (g_route candidate).

(** [PendingGoalHandoffOwner]: its one member [pending_goal_]. *)
Definition PendingGoalHandoffOwner : Type := GoalPtr.

Definition enqueueGoal (candidate : GoalPtr) (active : option NavigationGoal)
    (safety_suffix_active : bool) (o : PendingGoalHandoffOwner) : bool * PendingGoalHandoffOwner :=
  match candidate, active with
  | Some c, Some a =>
      if negb safety_suffix_active || (g_mission_id (sp_obj c) !=? g_mission_id a)
         || negb (goalMessageNewer (sp_obj c) a) then (false, o)
      else
        match o with
        | Some p => if negb (goalMessageNewer (sp_obj c) (sp_obj p)) then (false, o)
                    else (true, candidate)
        | None => (true, candidate)
        end
  | _, _ => (false, o)
  end.

Definition goalSnapshot (o : PendingGoalHandoffOwner) : GoalPtr := o.

Definition consumeGoal (expected : GoalPtr) (o : PendingGoalHandoffOwner)
    : bool * PendingGoalHandoffOwner :=
  if negb (has expected) then (false, o)
  else if negb (has o) || negb (same_get o expected) then (false, o)
  else (true, None).

Definition goalMatchesStatus (mission_id : string) (waypoint_index request_id : Z)
    (o : PendingGoalHandoffOwner) : bool :=
  match o with
  | None => false
  | Some p => (g_mission_id (sp_obj p) ==? mission_id)
              && (g_waypoint_index (sp_obj p) =? waypoint_index)
              && (g_request_id (sp_obj p) =? request_id)
  end.

Definition clearPendingGoal (o : PendingGoalHandoffOwner) : PendingGoalHandoffOwner := None.

Definition clearIfCurrent (expected : GoalPtr) (o : PendingGoalHandoffOwner)
    : bool * PendingGoalHandoffOwner :=
  if negb (has expected) || negb (has o) || negb (same_get o expected) then (false, o)
  else (true, None).

(** ** Predicates of [planning_policy.hpp] *)

Definition canHotRetargetAtWaypointTransition (same_logical_goal previous_goal_was_pass_through
    command_available planner_failure_latched safety_suffix_active : bool) : bool :=
  negb same_logical_goal && previous_goal_was_pass_through && command_available
  && negb planner_failure_latched && negb safety_suffix_active.

Definition watchdogTimeoutMayRetainSafetySuffix (state : ExecutionRecoveryState)
    (command_available safety_suffix_active : bool) : bool :=
  let safety_state := (state ==? rTrackBackup) || (state ==? rEmergencyBrake) in
  safety_state && command_available && safety_suffix_active.

Definition watchdogTimeoutMayRetainStoppedRecoveryHold (state : ExecutionRecoveryState)
    (command_available restart_from_rest : bool) : bool :=
  (state ==? rStoppedRecovery) && command_available && restart_from_rest.

Definition pendingGoalTerminalStatusMayClear (matches_pending safety_suffix_active : bool) : bool :=
  matches_pending && negb safety_suffix_active.

Definition clearHotGoalTransitionAfterCommit
    (measured_state_transition_committed hot_stitch_transition_committed : bool) : bool :=
  measured_state_transition_committed || hot_stitch_transition_committed.

Definition hotRetargetUsesCommittedFutureState (hot_goal_transition command_available : bool)
    (command_role : CandidateRole) (command_anchor_error_m maximum_anchor_error_m : f64) : bool :=
  hot_goal_transition && command_available && (command_role ==? kMain)
  && isfinite command_anchor_error_m && isfinite maximum_anchor_error_m
  && fgt maximum_anchor_error_m fzero && fle command_anchor_error_m maximum_anchor_error_m.

Inductive PlannerResultDisposition : Type :=
| CommandReady | RestartFromRest | RetryFromRest | ValidateRetainedCommand
| RetainCommittedCommand | FailClosed.

Inductive PlannerRenewalReason : Type :=
| kRetainCertifiedMain | kForcedTransition | kNoCommand | kSafetyRecovery | kInvalidHorizon
| kRenewalDue | kReasonQualityRefinement.
#[export] Instance PlannerRenewalReason_eq_dec : EqDecision PlannerRenewalReason.
Proof. solve_decision. Defined.

Record PlannerRenewalDecision : Type := mkRenewal {
  run_optimizer : bool;
  reason : PlannerRenewalReason;
  remaining_main_horizon_s : f64;
  required_lead_time_s : f64
}.

(** [{true, reason}]: the horizons keep their quiet NaNs. *)
Definition run_because (r : PlannerRenewalReason) : PlannerRenewalDecision :=
  mkRenewal true r SpecFloat.S754_nan SpecFloat.S754_nan.

Definition plannerTerminalStopBrakingDistanceM (speed_mps acceleration_mps2 jerk_mps3 : f64) : f64 :=
  if negb (isfinite speed_mps) || fle speed_mps fzero
     || negb (isfinite acceleration_mps2) || fle acceleration_mps2 fzero
     || negb (isfinite jerk_mps3) || fle jerk_mps3 fzero then SpecFloat.S754_infinity false
  else
    let distance :=
      f64_add (f64_div (f64_mul speed_mps speed_mps) (f64_mul (f64_of_Z 2) acceleration_mps2))
              (f64_div (f64_mul speed_mps acceleration_mps2) jerk_mps3) in
    if isfinite distance && fgt distance fzero then distance else SpecFloat.S754_infinity false.

Definition plannerTerminalStopApproachDue (terminal_stop : bool)
    (remaining_route_m speed_mps acceleration_mps2 jerk_mps3 : f64) : bool :=
  if negb terminal_stop then false
  else
    let stopping_distance :=
      plannerTerminalStopBrakingDistanceM speed_mps acceleration_mps2 jerk_mps3 in
    if negb (isfinite stopping_distance) then true
    else if negb (isfinite remaining_route_m) || flt remaining_route_m fzero then true
    else fle remaining_route_m stopping_distance.

(** The sum of [classifyPlannerRenewal], in [long double]. *)
Definition renewal_lead_time (solve_deadline_s replan_forward_s scheduling_interval_s : f64) : f80 :=
  f80_add
    (f80_add
       (f80_add (f80_of_f64 solve_deadline_s) (f80_mul (f80_of_Z 2) (f80_of_f64 replan_forward_s)))
       (f80_of_f64 scheduling_interval_s))
    (f80_of_f64 kCommitGuardS).

Definition renewal_remaining (backup_start_s command_elapsed_s : f64) : f80 :=
  f80_sub (f80_of_f64 backup_start_s) (f80_of_f64 command_elapsed_s).

Definition kCommandClockResolutionSeconds : f80 := f80_lit 1 1000000000.

Definition renewal_inputs_invalid (trajectory_metadata_valid : bool)
    (command_elapsed_s backup_start_s solve_deadline_s replan_forward_s scheduling_interval_s : f64)
    : bool :=
  negb trajectory_metadata_valid || negb (isfinite command_elapsed_s)
  || flt command_elapsed_s fzero || negb (isfinite backup_start_s) || flt backup_start_s fzero
  || negb (isfinite solve_deadline_s) || fle solve_deadline_s fzero
  || negb (isfinite replan_forward_s) || fle replan_forward_s fzero
  || negb (isfinite scheduling_interval_s) || fle scheduling_interval_s fzero.

Definition classifyPlannerRenewal (forced_transition command_available safety_suffix_active : bool)
    (command_role : CandidateRole) (trajectory_metadata_valid : bool)
    (command_elapsed_s backup_start_s solve_deadline_s replan_forward_s scheduling_interval_s : f64)
    : PlannerRenewalDecision :=
  if forced_transition then run_because kForcedTransition
  else if negb command_available then run_because kNoCommand
  else if safety_suffix_active || (command_role !=? kMain) then run_because kSafetyRecovery
  else if renewal_inputs_invalid trajectory_metadata_valid command_elapsed_s backup_start_s
            solve_deadline_s replan_forward_s scheduling_interval_s
  then run_because kInvalidHorizon
  else
    let lead_time := renewal_lead_time solve_deadline_s replan_forward_s scheduling_interval_s in
    let remaining := renewal_remaining backup_start_s command_elapsed_s in
    if negb (isfinite lead_time) || negb (isfinite remaining) || fle lead_time fzero
    then run_because kInvalidHorizon
    else
      let remaining_s := f64_of_f80 remaining in
      let lead_time_s := f64_of_f80 lead_time in
      if negb (isfinite remaining_s) || negb (isfinite lead_time_s)
      then run_because kInvalidHorizon
      else if fle remaining (f80_add lead_time kCommandClockResolutionSeconds)
      then mkRenewal true kRenewalDue remaining_s lead_time_s
      else mkRenewal false kRetainCertifiedMain remaining_s lead_time_s.

Definition retain_or_fail (command_available : bool) : PlannerResultDisposition :=
  if command_available then RetainCommittedCommand else FailClosed.

(** The [switch]; a value outside the enumeration does not exist here. *)
Definition classifyPlannerResult (result : PlannerStatus)
    (plan_from_rest command_available commit_observed : bool) : PlannerResultDisposition :=
  match result with
  | kSuccess | kFinished =>
      if commit_observed then CommandReady else retain_or_fail command_available
  | kNoNeed => if command_available then ValidateRetainedCommand else FailClosed
  | kRestartFromRest => RestartFromRest
  | kStatusFailed =>
      if command_available then RetainCommittedCommand
      else if plan_from_rest then RetryFromRest else FailClosed
  | kOptimizationFailed => retain_or_fail command_available
  | kStatusEmergency => retain_or_fail command_available
  end.

(** [planner_fsm.hpp] *)
Definition ordinaryRenewalFailureInjectionMayArm (decision : PlannerRenewalDecision)
    (scheduling_interval_s : f64) : bool :=
  if (reason decision !=? kRenewalDue)
     || negb (isfinite (remaining_main_horizon_s decision))
     || fle (remaining_main_horizon_s decision) fzero
     || negb (isfinite (required_lead_time_s decision))
     || fle (required_lead_time_s decision) fzero
     || negb (isfinite scheduling_interval_s) || fle scheduling_interval_s fzero then false
  else
    fge (remaining_main_horizon_s decision)
      (f64_sub (f64_sub (required_lead_time_s decision) scheduling_interval_s) f64_1e_9).

(** ** Goal transitions *)

Inductive GoalTransitionKind : Type :=
| kSteady | kInitialGoal | kSameRouteWaypointAdvance | kRouteReplacement | kMissionReplacement
| kCancelOrLocalizationReset.
#[export] Instance GoalTransitionKind_eq_dec : EqDecision GoalTransitionKind.
Proof. solve_decision. Defined.

Definition sameGoalIdentity (lhs rhs : option NavigationGoal) : bool :=
  match lhs, rhs with
  | Some l, Some r =>
      (g_mission_id l ==? g_mission_id r)
      && (r_route_revision (g_route l) =? r_route_revision (g_route r))
      && (g_waypoint_index l =? g_waypoint_index r) && (g_request_id l =? g_request_id r)
  | _, _ => false
  end.

Definition sameExecutionPublicationIdentity (sampled_execution current_execution : option NavigationGoal)
    (sampled_command_goal_epoch current_command_goal_epoch sampled_localization_epoch
     current_localization_epoch : Z) : bool :=
  negb (sampled_command_goal_epoch =? 0)
  && (sampled_command_goal_epoch =? current_command_goal_epoch)
  && negb (sampled_localization_epoch =? 0)
  && (sampled_localization_epoch =? current_localization_epoch)
  && sameGoalIdentity sampled_execution current_execution.

Definition goalTransitionKindName (kind : GoalTransitionKind) : string :=
  match kind with
  | kSteady => "steady"
  | kInitialGoal => "initial_goal"
  | kSameRouteWaypointAdvance => "same_route_waypoint_advance"
  | kRouteReplacement => "route_replacement"
  | kMissionReplacement => "mission_replacement"
  | kCancelOrLocalizationReset => "cancel_or_localization_reset"
  end.

Definition classifyGoalTransition (desired executing : option NavigationGoal) : GoalTransitionKind :=
  match desired, executing with
  | None, Some _ => kCancelOrLocalizationReset
  | None, None => kSteady
  | Some _, None => kInitialGoal
  | Some d, Some e =>
      if g_mission_id d !=? g_mission_id e then kMissionReplacement
      else if sameGoalIdentity desired executing then kSteady
      else if (r_route_revision (g_route d) =? r_route_revision (g_route e))
              && negb (g_waypoint_index d =? g_waypoint_index e) then kSameRouteWaypointAdvance
      else if negb (r_route_revision (g_route d) =? r_route_revision (g_route e))
              || (g_waypoint_index d =? g_waypoint_index e)
              || negb (g_request_id d =? g_request_id e) then kRouteReplacement
      else kSteady
  end.

(** ** The diagnostic failure injections *)

Record ExactOptimizationFailureTarget : Type := mkFailureTarget {
  predecessor_request : Z;
  successor_request : Z
}.

Definition failure_target_valid (t : ExactOptimizationFailureTarget) : bool :=
  negb (predecessor_request t =? 0) && negb (successor_request t =? 0)
  && negb (predecessor_request t =? successor_request t).

Section FailureInjection.
Context `{EigenOps}.

Definition active_handoff_source (a : CandidateBundle) (key : PlanningKey) (now_ns : Z) : bool :=
  (b_localization_epoch a =? key_localization_epoch key)
  && (b_bundle_generation a =? key_committed_bundle_generation key)
  && (b_role a ==? kMain) && b_backup_available a && negb (b_terminal_stop a)
  && CandidateBundle_valid a && (b_valid_from_ns a <=? now_ns) && (now_ns <=? b_valid_until_ns a).

Definition exactOptimizationFailureHotHandoffEligible (target : ExactOptimizationFailureTarget)
    (key : PlanningKey) (desired : NavigationGoal) (execution : ExecutionAuthoritySnapshot)
    (transition : GoalTransitionKind)
    (desired_current execution_current state_fresh world_fresh : bool) (now_ns : Z) : bool :=
  failure_target_valid target && desired_current && execution_current && state_fresh && world_fresh
  && (0 <? now_ns) && PlanningKey_valid key && (key_start_mode key ==? kCommittedFutureState)
  && (transition ==? kSameRouteWaypointAdvance)
  && (g_request_id desired =? successor_request target)
  && (g_behavior desired =? BEHAVIOR_PASS_THROUGH)
  && (key_request_id key =? g_request_id desired)
  && (key_route_revision key =? r_route_revision (g_route desired))
  && (key_goal_epoch key =? s_admission_goal_epoch execution)
  && (key_localization_epoch key =? s_admission_localization_epoch execution)
  && match s_active execution, s_active_goal execution with
     | Some active, Some goal =>
         negb (has (s_pending execution))
         && negb (activeGoalEpoch execution =? key_goal_epoch key)
         && (activeRequestId execution =? predecessor_request target)
         && (g_mission_id (sp_obj goal) ==? g_mission_id desired)
         && (r_route_revision (g_route (sp_obj goal)) =? key_route_revision key)
         && (g_waypoint_index (sp_obj goal) <? g_waypoint_index desired)
         && active_handoff_source (sp_obj active) key now_ns
     | _, _ => false
     end
  && commandAvailable execution && negb (failed execution)
  && negb (safetySuffixActive execution) && negb (restartFromRest execution).
End FailureInjection.

Record ExactOptimizationFailureInjection : Type := mkFailureInjection {
  fi_target : ExactOptimizationFailureTarget;
  fi_alternate : option ExactOptimizationFailureTarget;
  fi_consumed : bool
}.

Definition FailureInjection_init : ExactOptimizationFailureInjection :=
  mkFailureInjection (mkFailureTarget 0 0) None false.

Definition setTarget (t : ExactOptimizationFailureTarget) (i : ExactOptimizationFailureInjection)
    : ExactOptimizationFailureInjection :=
  mkFailureInjection (if failure_target_valid t then t else mkFailureTarget 0 0) None false.

Definition setAlternateTarget (t : ExactOptimizationFailureTarget)
    (i : ExactOptimizationFailureInjection) : ExactOptimizationFailureInjection :=
  mkFailureInjection (fi_target i) (if failure_target_valid t then Some t else None) (fi_consumed i).

Definition armed (i : ExactOptimizationFailureInjection) : bool :=
  failure_target_valid (fi_target i) && negb (fi_consumed i).

Definition target_is (t : ExactOptimizationFailureTarget) (predecessor successor : Z) : bool :=
  (predecessor_request t =? predecessor) && (successor_request t =? successor).

Definition matchingTarget (predecessor successor : Z) (i : ExactOptimizationFailureInjection)
    : option ExactOptimizationFailureTarget :=
  if negb (armed i) then None
  else if target_is (fi_target i) predecessor successor then Some (fi_target i)
  else
    match fi_alternate i with
    | Some a => if target_is a predecessor successor then Some a else None
    | None => None
    end.

Definition consumeIfEligible (eligible : bool) (i : ExactOptimizationFailureInjection)
    : bool * ExactOptimizationFailureInjection :=
  if negb (armed i) || negb eligible then (false, i)
  else (true, mkFailureInjection (fi_target i) (fi_alternate i) true).

(** [SameIdentityRenewalFacts] *)
Record SameIdentityRenewalFacts : Type := mkRenewalFacts {
  rf_start_mode : PlanningStartMode;
  rf_transition_kind : GoalTransitionKind;
  rf_recovery_state : ExecutionRecoveryState;
  rf_execution_phase : ExecutionPhase;
  rf_desired_goal_valid : bool;
  rf_executing_goal_valid : bool;
  rf_desired_identity_matches_executing : bool;
  rf_goal_epoch_matches_command : bool;
  rf_active_bundle_valid : bool;
  rf_active_bundle_is_main : bool;
  rf_active_bundle_identity_current : bool;
  rf_no_new_goal : bool;
  rf_no_hot_goal_transition : bool;
  rf_ordinary_renewal : bool;
  rf_no_pending_successor : bool;
  rf_command_available : bool;
  rf_failure_latched : bool;
  rf_safety_suffix_active : bool;
  rf_restart_from_rest : bool;
  rf_command_exposure_allowed : bool;
  rf_execution_state_fresh : bool;
  rf_world_fresh : bool;
  rf_valid_future_anchor : bool;
  rf_fresh_renewal_due_window : bool;
  rf_current_body_support_present : bool;
  rf_terminal_hold_pending : bool
}.

Definition sameIdentityRenewalInjectionEligible (f : SameIdentityRenewalFacts) : bool :=
  (rf_start_mode f ==? kCommittedFutureState) && (rf_transition_kind f ==? kSteady)
  && (rf_recovery_state f ==? rTrackMain) && (rf_execution_phase f ==? phTrackingMain)
  && rf_desired_goal_valid f && rf_executing_goal_valid f
  && rf_desired_identity_matches_executing f && rf_goal_epoch_matches_command f
  && rf_active_bundle_valid f && rf_active_bundle_is_main f && rf_active_bundle_identity_current f
  && rf_no_new_goal f && rf_no_hot_goal_transition f && rf_ordinary_renewal f
  && rf_no_pending_successor f && rf_command_available f && negb (rf_failure_latched f)
  && negb (rf_safety_suffix_active f) && negb (rf_restart_from_rest f)
  && rf_command_exposure_allowed f && rf_execution_state_fresh f && rf_world_fresh f
  && rf_valid_future_anchor f && rf_fresh_renewal_due_window f
  && negb (rf_current_body_support_present f) && negb (rf_terminal_hold_pending f).

Record SameIdentityRenewalInjectionController : Type := mkRenewalController {
  target_ordinal_ : Z;
  eligible_ordinal_ : Z;
  injection_fired_ : bool
}.

Definition setTargetOrdinal (ordinal : Z) (c : SameIdentityRenewalInjectionController) :=
  mkRenewalController ordinal (eligible_ordinal_ c) (injection_fired_ c).

Definition observeRenewal (f : SameIdentityRenewalFacts) (c : SameIdentityRenewalInjectionController)
    : Z * SameIdentityRenewalInjectionController :=
  let c := if sameIdentityRenewalInjectionEligible f
           then mkRenewalController (target_ordinal_ c) (u64_inc (eligible_ordinal_ c))
                  (injection_fired_ c)
           else c in
  (eligible_ordinal_ c, c).

Definition shouldInject (observed_ordinal : Z) (c : SameIdentityRenewalInjectionController) : bool :=
  negb (target_ordinal_ c =? 0) && negb (injection_fired_ c)
  && (observed_ordinal =? target_ordinal_ c).

Definition markInjected (c : SameIdentityRenewalInjectionController) :=
  mkRenewalController (target_ordinal_ c) (eligible_ordinal_ c) true.

(** ** The monotone identifier

    [advanceMonotonicId] (and [DesiredPlanningIntent::advanceRevision], the same
    loop) run by any number of threads: a caller loads the counter, then tries to
    exchange it until it succeeds or finds the last value. *)

Inductive advance_pc : Type := aIdle | aLoaded (current : Z).

Record advance_system : Type := mkAdvance {
  av_value : Z;
  av_threads : list advance_pc;
  (** what the calls have returned, the last one first *)
  av_returned : list (option Z)
}.

Definition advance_load (i : nat) (s : advance_system) : option advance_system :=
  match av_threads s !! i with
  | Some aIdle =>
      Some (mkAdvance (av_value s) (<[i := aLoaded (av_value s)]> (av_threads s)) (av_returned s))
  | _ => None
  end.

(** The test of the loop and, if it holds, one [compare_exchange_weak], which
    may fail spuriously; a failure reloads the counter. *)
Definition advance_exchange (i : nat) (spurious : bool) (s : advance_system)
    : option advance_system :=
  match av_threads s !! i with
  | Some (aLoaded current) =>
      if current =? u64_max then
        Some (mkAdvance (av_value s) (<[i := aIdle]> (av_threads s)) (None :: av_returned s))
      else if (av_value s =? current) && negb spurious then
        Some (mkAdvance (current + 1) (<[i := aIdle]> (av_threads s))
                (Some (current + 1) :: av_returned s))
      else
        Some (mkAdvance (av_value s) (<[i := aLoaded (av_value s)]> (av_threads s)) (av_returned s))
  | _ => None
  end.

Inductive advance_step : advance_system -> advance_system -> Prop :=
| step_load i s s' : advance_load i s = Some s' -> advance_step s s'
| step_exchange i b s s' : advance_exchange i b s = Some s' -> advance_step s s'.

(** ** The desired planning intent *)

Inductive PlanningIntentTransition : Type := iNone | iNewIntent | iHotRetarget.
#[export] Instance PlanningIntentTransition_eq_dec : EqDecision PlanningIntentTransition.
Proof. solve_decision. Defined.

Record DesiredPlanningIntent : Type := mkIntent {
  in_goal : option NavigationGoal;
  in_revision : Z;
  in_transition : PlanningIntentTransition
}.

Definition DesiredPlanningIntent_init : DesiredPlanningIntent := mkIntent None 0 iNone.

(** [advanceRevision] without interference; the loop is [advance_system]. *)
Definition advanceRevision (d : DesiredPlanningIntent) : option Z * DesiredPlanningIntent :=
  if in_revision d =? u64_max then (None, d)
  else (Some (in_revision d + 1), mkIntent (in_goal d) (in_revision d + 1) (in_transition d)).

Definition install (goal : NavigationGoal) (transition : option PlanningIntentTransition)
    (d : DesiredPlanningIntent) : DesiredPlanningIntent :=
  mkIntent (Some goal) (in_revision d)
    (match transition with Some t => t | None => in_transition d end).

Definition clearGoal (d : DesiredPlanningIntent) : DesiredPlanningIntent :=
  mkIntent None (in_revision d) iNone.

Definition rearmAfterLocalizationReset (d : DesiredPlanningIntent) : DesiredPlanningIntent :=
  mkIntent (in_goal d) (in_revision d) (if has (in_goal d) then iNewIntent else iNone).

Definition isNewIntent (d : DesiredPlanningIntent) : bool := in_transition d ==? iNewIntent.
Definition isHotRetarget (d : DesiredPlanningIntent) : bool := in_transition d ==? iHotRetarget.
Definition hasTransition (d : DesiredPlanningIntent) : bool := in_transition d !=? iNone.

Definition clearTransition (d : DesiredPlanningIntent) : DesiredPlanningIntent :=
  mkIntent (in_goal d) (in_revision d) iNone.

Definition consumeNewIntent (d : DesiredPlanningIntent) : bool * DesiredPlanningIntent :=
  if negb (isNewIntent d) then (false, d) else (true, clearTransition d).

Definition consumeHotRetarget (d : DesiredPlanningIntent) : bool * DesiredPlanningIntent :=
  if negb (isHotRetarget d) then (false, d) else (true, clearTransition d).

Definition intent_matches (goal : NavigationGoal) (revision : Z) (d : DesiredPlanningIntent) : bool :=
  match in_goal d with
  | None => false
  | Some g => (in_revision d =? revision) && (g_mission_id g ==? g_mission_id goal)
              && (g_waypoint_index g =? g_waypoint_index goal)
              && (g_request_id g =? g_request_id goal)
  end.

(** ** The marker of the running solve *)

Record PlannerSolveFailureWitness : Type := mkSolveWitness {
  sw_key : PlanningKey;
  sw_execution : ExecutionAuthoritySnapshot;
  sw_pending_goal : GoalPtr
}.

(** The members of the node the scope refers to. *)
Record SolveActivity : Type := mkSolveActivity {
  sa_started_steady_ns : Z;
  sa_active_generation : Z;
  sa_witness : option PlannerSolveFailureWitness
}.

(** Constructor and destructor of [PlannerSolveActivityScope]; [slot] tells
    whether a witness slot was passed. *)
Definition solve_scope_begin (generation started_ns : Z) (slot : bool)
    (witness : option PlannerSolveFailureWitness) (a : SolveActivity) : SolveActivity :=
  mkSolveActivity started_ns generation (if slot then witness else sa_witness a).

Definition solve_scope_end (generation : Z) (slot : bool) (a : SolveActivity) : SolveActivity :=
  if sa_active_generation a =? generation
  then mkSolveActivity 0 0 (if slot then None else sa_witness a)
  else a.

Definition failedExecutionLeaseIsCurrent (failed current : ptr ExecutionStateLease) : bool :=
  same_get failed current.

(** ** Timer arithmetic *)

Definition ratePeriodNanoseconds (rate_hz : f64) : option Z :=
  if negb (isfinite rate_hz) || fle rate_hz fzero then None
  else
    let period_ns := f80_div (f80_of_Z 1000000000) (f80_of_f64 rate_hz) in
    if negb (isfinite period_ns) || flt period_ns (f80_of_Z 1) || fgt period_ns (f80_of_Z i64_max)
    then None
    else Some (i64_of_f period_ns).

Definition plannerPeriodCoversSolveBudget (planner_rate_hz solve_deadline_s : f64) : bool :=
  if negb (isfinite planner_rate_hz) || fle planner_rate_hz fzero
     || negb (isfinite solve_deadline_s) || fle solve_deadline_s fzero then false
  else flt solve_deadline_s (f64_div f64_1 planner_rate_hz).

Definition plannerSolveDeadlineMatchesContract (solve_deadline_s : f64) : bool :=
  isfinite solve_deadline_s
  && fle (fabs (f64_sub solve_deadline_s kSolveDeadlineS)) f64_1e_9.

Definition boundedTrajectorySampleCount (duration_s sample_period_s : f64) (maximum_points : Z)
    : option Z :=
  if negb (isfinite duration_s) || fle duration_s fzero
     || negb (isfinite sample_period_s) || fle sample_period_s fzero || (maximum_points <? 2)
  then None
  else
    let ratio := f80_div (f80_of_f64 duration_s) (f80_of_f64 sample_period_s) in
    let cap := f80_of_Z (maximum_points - 1) in
    if negb (isfinite ratio) || fge ratio cap then Some maximum_points
    else
      let intervals := f80_ceil ratio in
      if negb (isfinite intervals) || flt intervals (f80_of_Z 1) || fgt intervals cap then None
      else if feq intervals cap then Some maximum_points
      else Some (SF_trunc intervals + 1).

(** ** The one quality refinement of a baseline *)

Record BaselineRefinementContext : Type := mkRefinementContext {
  bc_key : PlanningKey;
  bc_active : option CandidateBundle;
  bc_execution : ExecutionAuthoritySnapshot;
  bc_world : WorldSnapshotIdentity;
  bc_backend_generation : Z;
  bc_now_ns : Z;
  bc_sampled_role : CandidateRole;
  bc_pending : bool;
  bc_desired_matches_executing : bool;
  bc_exposure_allowed : bool;
  bc_tracking_supported : bool
}.

Record BaselineRefinementOpportunity : Type := mkOpportunity {
  op_owner : option PlanningKey;
  op_generation : Z
}.

Definition Opportunity_init : BaselineRefinementOpportunity := mkOpportunity None 0.

Definition sameGoalOwner (a b : PlanningKey) : bool :=
  (key_localization_epoch a =? key_localization_epoch b)
  && (key_goal_epoch a =? key_goal_epoch b) && (key_request_id a =? key_request_id b).

Section Refinement.
Context `{EigenOps}.

(** The admission is the first complete baseline of this goal, from a stop. *)
Definition initial_baseline (request : PlanningKey) (candidate : CandidateBundle)
    (outcome : CompletePlanningOutcome) (initial_stopped_transition : bool) : bool :=
  initial_stopped_transition && (key_start_mode request ==? kStoppedMeasuredState)
  && (outcome ==? kBaselineCompleteBundle) && (b_kind candidate ==? kMainWithBackup)
  && (b_localization_epoch candidate =? key_localization_epoch request)
  && (b_goal_epoch candidate =? key_goal_epoch request)
  && (b_request_id candidate =? key_request_id request)
  && (wi_generation (b_pinned_world_identity candidate) =? key_pinned_world_generation request).

Definition noteAdmission (request : PlanningKey) (candidate : CandidateBundle)
    (outcome : CompletePlanningOutcome) (initial_stopped_transition : bool)
    (o : BaselineRefinementOpportunity) : BaselineRefinementOpportunity :=
  if negb (PlanningKey_valid request) || negb (CandidateBundle_valid candidate) then o
  else if match op_owner o with Some owner => sameGoalOwner owner request | None => false end then o
  else
    mkOpportunity (Some request)
      (if initial_baseline request candidate outcome initial_stopped_transition
       then b_bundle_generation candidate else 0).

(** The first [return] of [ready]: everything that does not need the bundle. *)
Definition refinement_pending (ordinary : PlannerRenewalDecision) (c : BaselineRefinementContext)
    (o : BaselineRefinementOpportunity) : bool :=
  match op_owner o with
  | None => false
  | Some owner =>
      negb (op_generation o =? 0) && PlanningKey_valid (bc_key c) && has (bc_active c)
      && (reason ordinary ==? kRetainCertifiedMain) && negb (run_optimizer ordinary)
      && isfinite (remaining_main_horizon_s ordinary)
      && negb (fle (remaining_main_horizon_s ordinary) kUrgentBaselineThresholdS)
      && sameGoalOwner owner (bc_key c)
      && (key_route_revision owner =? key_route_revision (bc_key c))
      && (key_pinned_world_generation owner =? key_pinned_world_generation (bc_key c))
      && (key_dynamics_hash owner =? key_dynamics_hash (bc_key c))
  end.

Definition refinement_execution_current (a : CandidateBundle) (generation : Z)
    (e : ExecutionAuthoritySnapshot) : bool :=
  match s_active e with
  | None => false
  | Some active =>
      (b_localization_epoch (sp_obj active) =? b_localization_epoch a)
      && (activeGoalEpoch e =? b_goal_epoch a) && (activeRequestId e =? b_request_id a)
      && (activeGeneration e =? generation)
      && (phase (s_lifecycle e) ==? phTrackingMain) && (recovery (s_lifecycle e) ==? rTrackMain)
      && commandAvailable e && negb (failed e) && negb (safetySuffixActive e)
      && negb (restartFromRest e)
  end.

Definition refinement_bundle_current (a : CandidateBundle) (generation : Z)
    (c : BaselineRefinementContext) : bool :=
  let key := bc_key c in
  CandidateBundle_valid a && (b_kind a ==? kMainWithBackup) && hasTrajectoryMetadata a
  && (b_bundle_generation a =? generation) && (key_start_mode key ==? kCommittedFutureState)
  && (key_committed_bundle_generation key =? generation) && (bc_backend_generation c =? generation)
  && (b_localization_epoch a =? key_localization_epoch key)
  && (b_goal_epoch a =? key_goal_epoch key) && (b_request_id a =? key_request_id key)
  && sameWorldSnapshotIdentity (b_world_identity a) (bc_world c)
  && (wi_generation (bc_world c) =? key_pinned_world_generation key)
  && (wi_revision (bc_world c) =? key_pinned_world_revision key)
  && (b_valid_from_ns a <=? bc_now_ns c) && (bc_now_ns c <=? b_valid_until_ns a)
  && (bc_sampled_role c ==? kMain).

Definition refinement_ready (ordinary : PlannerRenewalDecision) (c : BaselineRefinementContext)
    (o : BaselineRefinementOpportunity) : bool :=
  if negb (refinement_pending ordinary c o) then false
  else
    match bc_active c with
    | None => false
    | Some a =>
        refinement_bundle_current a (op_generation o) c
        && refinement_execution_current a (op_generation o) (bc_execution c)
        && negb (bc_pending c) && bc_desired_matches_executing c && bc_exposure_allowed c
        && bc_tracking_supported c
    end.

Definition refinement_consume (ordinary : PlannerRenewalDecision) (c : BaselineRefinementContext)
    (o : BaselineRefinementOpportunity) : bool * BaselineRefinementOpportunity :=
  if negb (refinement_ready ordinary c o) then (false, o)
  else (true, mkOpportunity (op_owner o) 0).
End Refinement.

Definition withBaselineRefinement (ordinary : PlannerRenewalDecision) (ready : bool)
    : PlannerRenewalDecision :=
  if ready && negb (run_optimizer ordinary) && (reason ordinary ==? kRetainCertifiedMain)
  then mkRenewal true kReasonQualityRefinement (remaining_main_horizon_s ordinary)
         (required_lead_time_s ordinary)
  else ordinary.

(** ** Traces *)

Definition commitObservedThisCycle (generation_before generation_after diagnostics_generation : Z)
    : bool :=
  (generation_before <? generation_after) && (diagnostics_generation =? generation_after).

Definition executionStateAgeMs (solve_start_ros_ns execution_stamp_ns : Z) : f64 :=
  let delta := solve_start_ros_ns - execution_stamp_ns in
  if (delta <? i64_min) || (i64_max <? delta) then SpecFloat.S754_nan
  else f64_mul (f64_of_Z delta) f64_1e_6.

Definition kCallbackRequest : Z := Z.shiftl 1 0.
Definition kOwnerSnapshot : Z := Z.shiftl 1 1.
Definition kCauseLease : Z := Z.shiftl 1 2.
Definition kFreshness : Z := Z.shiftl 1 3.
Definition kCauseWorld : Z := Z.shiftl 1 4.
Definition kCauseAnchor : Z := Z.shiftl 1 5.
Definition kPhaseWitness : Z := Z.shiftl 1 6.
Definition kPathWitness : Z := Z.shiftl 1 7.
Definition kNoSafetySuffix : Z := Z.shiftl 1 8.

Definition mark (missing : bool) (cause mask : Z) : Z := if missing then Z.lor mask cause else mask.

Definition retainedFinalFailureCauseMask (callback_request_current owner_snapshot_current
    lease_allowed final_state_fresh final_witness_age_bounded world_valid anchor_valid
    phase_witness_accepted path_witness_accepted safety_suffix_usable : bool) : Z :=
  let mask := mark (negb callback_request_current) kCallbackRequest 0 in
  let mask := mark (negb owner_snapshot_current) kOwnerSnapshot mask in
  let mask := mark (negb lease_allowed) kCauseLease mask in
  let mask := mark (negb final_state_fresh || negb final_witness_age_bounded) kFreshness mask in
  let mask := mark (negb world_valid) kCauseWorld mask in
  let mask := mark (negb anchor_valid) kCauseAnchor mask in
  let mask := mark (negb phase_witness_accepted) kPhaseWitness mask in
  let mask := mark (negb path_witness_accepted) kPathWitness mask in
  mark (negb safety_suffix_usable) kNoSafetySuffix mask.

(** ** Ingress checks *)

(** [mapping_observation_contract.hpp]; the pose is its position and orientation. *)
Definition classifySensorOriginContract (sensor_origin_valid : bool) (position : vec3)
    (orientation : quat) : MappingObservationRejectionReason :=
  if negb sensor_origin_valid then mr_kMissingSensorOrigin
  else
    let orientation_norm :=
      f64_sqrt (f64_add (f64_add (f64_add (f64_mul (qw orientation) (qw orientation))
                                          (f64_mul (qx orientation) (qx orientation)))
                                 (f64_mul (qy orientation) (qy orientation)))
                        (f64_mul (qz orientation) (qz orientation))) in
    if negb (isfinite (vx position)) || negb (isfinite (vy position))
       || negb (isfinite (vz position)) || negb (isfinite orientation_norm)
       || fle orientation_norm f64_1e_9
    then mr_kSensorOriginContractMismatch else mr_kNone.

(** ** [KinematicDerivativeEstimator] *)

Record KinematicDerivativeEstimate : Type := mkDerivatives {
  de_acceleration_world : vec3;
  de_jerk_world : vec3;
  de_acceleration_estimated : bool;
  de_jerk_estimated : bool
}.

Record KinematicDerivativeEstimator : Type := mkEstimator {
  ke_have_velocity : bool;
  ke_have_acceleration : bool;
  ke_previous_stamp_ns : Z;
  ke_previous_epoch : Z;
  ke_previous_velocity : vec3;
  ke_previous_acceleration : vec3
}.

Definition Derivatives_none : KinematicDerivativeEstimate :=
  mkDerivatives vec3_zero vec3_zero false false.

Definition Estimator_reset : KinematicDerivativeEstimator :=
  mkEstimator false false 0 0 vec3_zero vec3_zero.

Definition kMaximumDerivativeGapNs : Z := 500000000.

Section Derivatives.
Context `{EigenOps}.

Definition derivative_dt (stamp_ns previous_stamp_ns : Z) : f64 :=
  f64_mul (f64_of_Z (stamp_ns - previous_stamp_ns)) f64_1e_9.

Definition continuous_sample (stamp_ns localization_epoch : Z) (k : KinematicDerivativeEstimator)
    : bool :=
  ke_have_velocity k && (ke_previous_epoch k =? localization_epoch)
  && (ke_previous_stamp_ns k <? stamp_ns)
  && (stamp_ns - ke_previous_stamp_ns k <=? kMaximumDerivativeGapNs).

(** The estimate and the acceleration history of a valid sample. *)
Definition derive (stamp_ns localization_epoch : Z) (velocity_world : vec3)
    (k : KinematicDerivativeEstimator) : KinematicDerivativeEstimate * (bool * vec3) :=
  if continuous_sample stamp_ns localization_epoch k then
    let dt_s := derivative_dt stamp_ns (ke_previous_stamp_ns k) in
    let acceleration := v_div (v_sub velocity_world (ke_previous_velocity k)) dt_s in
    if v_allFinite acceleration then
      let jerk := v_div (v_sub acceleration (ke_previous_acceleration k)) dt_s in
      (if ke_have_acceleration k && v_allFinite jerk
       then mkDerivatives acceleration jerk true true
       else mkDerivatives acceleration vec3_zero true false, (true, acceleration))
    else (Derivatives_none, (false, vec3_zero))
  else (Derivatives_none, (false, vec3_zero)).

Definition derivative_update (stamp_ns localization_epoch : Z) (velocity_world : vec3)
    (k : KinematicDerivativeEstimator) : KinematicDerivativeEstimate * KinematicDerivativeEstimator :=
  if (stamp_ns <=? 0) || (localization_epoch =? 0) || negb (v_allFinite velocity_world)
  then (Derivatives_none, Estimator_reset)
  else
    let r := derive stamp_ns localization_epoch velocity_world k in
    (r.1, mkEstimator true r.2.1 stamp_ns localization_epoch velocity_world r.2.2).
End Derivatives.
