(* ===== verification/RuntimePolicyProps.v ===== *)
(** * Properties of the runtime policy

    The pending goal of a handoff, the monotone identifiers, the solve marker,
    the renewal decision and its one quality refinement, the timer arithmetic,
    and the finite differences of the measured velocity. *)

From stdpp Require Import relations.
From S2P Require Import Prelude Float64 Float64Facts FloatOrder TimeNs Geometry World Candidate Messages Lifecycle Authority.
From S2P Require Import Sampler PlanningContract MapActor RuntimePolicy.

(** ** The pending goal *)

Lemma goalMessageNewer_spec c g :
  goalMessageNewer c g = true <->
  g_mission_id c = g_mission_id g /\
  (g_request_id g < g_request_id c \/
   g_request_id g = g_request_id c /\
   (g_waypoint_index g < g_waypoint_index c \/
    g_waypoint_index g = g_waypoint_index c /\
    r_route_revision (g_route g) < r_route_revision (g_route c))).
Proof.
  unfold goalMessageNewer. case_bool_decide; simpl; [|naive_solver].
  guard_cases; breflect; intuition (lia || congruence).
Qed.

Inductive handoff_op : Type :=
| hEnqueue (candidate : GoalPtr) (active : option NavigationGoal) (safety_suffix_active : bool)
| hConsume (expected : GoalPtr)
| hClear
| hClearIfCurrent (expected : GoalPtr).

(** How a goal left the mailbox. *)
Inductive leaving : Type := wReplaced | wConsumed | wCleared.

Record handoff_run : Type := mkHandoff {
  ho_pending : PendingGoalHandoffOwner;
  ho_accepted : list (shared NavigationGoal);
  ho_left : list (shared NavigationGoal * leaving)
}.

Definition handoff_init : handoff_run := mkHandoff None [] [].

Definition leave (how : leaving) (o : GoalPtr) : list (shared NavigationGoal * leaving) :=
  match o with Some g => [(g, how)] | None => [] end.

Definition handoff_step (r : handoff_run) (o : handoff_op) : handoff_run :=
  match o with
  | hEnqueue c a s =>
      let e := enqueueGoal c a s (ho_pending r) in
      if e.1 then mkHandoff e.2 (ho_accepted r ++ option_list c)
                    (ho_left r ++ leave wReplaced (ho_pending r))
      else mkHandoff e.2 (ho_accepted r) (ho_left r)
  | hConsume x =>
      let e := consumeGoal x (ho_pending r) in
      mkHandoff e.2 (ho_accepted r) (ho_left r ++ if e.1 then leave wConsumed x else [])
  | hClear =>
      mkHandoff (clearPendingGoal (ho_pending r)) (ho_accepted r)
        (ho_left r ++ leave wCleared (ho_pending r))
  | hClearIfCurrent x =>
      let e := clearIfCurrent x (ho_pending r) in
      mkHandoff e.2 (ho_accepted r) (ho_left r ++ if e.1 then leave wCleared x else [])
  end.

(** The pointers the callers pass and the one stored denote one object per
    address. *)
Definition passes_stored (r : handoff_run) (o : handoff_op) : Prop :=
  match o with
  | hConsume x | hClearIfCurrent x => aliased x (ho_pending r)
  | _ => True
  end.

Fixpoint passes_all (r : handoff_run) (ops : list handoff_op) : Prop :=
  match ops with
  | [] => True
  | o :: ops => passes_stored r o /\ passes_all (handoff_step r o) ops
  end.

Definition handoff_inv (r : handoff_run) : Prop :=
  ho_accepted r = (ho_left r).*1 ++ option_list (ho_pending r) /\
  forall k p, ho_left r !! k = Some (p, wReplaced) ->
    exists c, ho_accepted r !! S k = Some c /\ goalMessageNewer (sp_obj c) (sp_obj p) = true.

Lemma handoff_inv_leave r how c l :
  handoff_inv r -> (how = wReplaced -> False) -> ho_pending r = Some c ->
  l = (ho_left r ++ [(c, how)]) -> handoff_inv (mkHandoff None (ho_accepted r) l).
Proof.
  intros [Ha Hr] Hhow Hp ->. split; simpl.
  - by rewrite Ha, Hp, fmap_app, app_nil_r.
  - intros k p [Hk|[_ Hk]]%lookup_app_Some; [by apply Hr|].
    apply list_lookup_singleton_Some in Hk as [_ [= _ ->]]. by destruct Hhow.
Qed.

(** Both removals by pointer take exactly the pending goal. *)
Lemma clearIfCurrent_cases x o :
  aliased x o ->
  (exists c, x = Some c /\ o = Some c /\ clearIfCurrent x o = (true, None)) \/
  clearIfCurrent x o = (false, o).
Proof.
  intros Ha. unfold clearIfCurrent.
  destruct (negb (has x) || negb (has o) || negb (same_get o x)) eqn:E; [by right|left].
  bsplit. unfold same_get in *. breflect. rewrite <- (Ha ltac:(done)).
  destruct x as [c|]; [by exists c|done].
Qed.

Lemma consumeGoal_clear x o : consumeGoal x o = clearIfCurrent x o.
Proof. unfold consumeGoal, clearIfCurrent. by destruct (has x), (has o), (same_get o x). Qed.

Lemma handoff_inv_remove how x r :
  aliased x (ho_pending r) -> (how = wReplaced -> False) -> handoff_inv r ->
  let e := clearIfCurrent x (ho_pending r) in
  handoff_inv (mkHandoff e.2 (ho_accepted r) (ho_left r ++ if e.1 then leave how x else [])).
Proof.
  intros Ha Hh Hi. cbv zeta.
  destruct (clearIfCurrent_cases x _ Ha) as [(c & -> & Hc & ->)| ->]; simpl.
  - by apply (handoff_inv_leave r how c).
  - rewrite app_nil_r. by destruct r.
Qed.

Lemma handoff_inv_step r o : passes_stored r o -> handoff_inv r -> handoff_inv (handoff_step r o).
Proof.
  intros Hp Hi. destruct o as [c a s|x| |x]; simpl in *.
  - destruct Hi as [Ha Hr]. destruct c as [c|], a as [a|]; try done. simpl.
    destruct (_ || _); [done|]. destruct (ho_pending r) as [p|] eqn:Ep; simpl.
    + destruct (goalMessageNewer (sp_obj c) (sp_obj p)) eqn:En; simpl; [|by split].
      split; simpl; [by rewrite Ha, fmap_app|].
      intros k q [Hk|[Hle Hk]]%lookup_app_Some.
      * destruct (Hr k q Hk) as (c' & Hc & ?). exists c'. split; [by apply lookup_app_l_Some|done].
      * apply list_lookup_singleton_Some in Hk as [Hk [= <-]]. exists c. split; [|done].
        rewrite lookup_app_r; rewrite Ha, length_app, length_fmap; simpl; [|lia].
        by replace (S k - _)%nat with 0%nat by lia.
    + split; simpl; [by rewrite Ha, app_nil_r, app_nil_r|]. rewrite app_nil_r.
      intros k q Hk. destruct (Hr k q Hk) as (c' & Hc & ?). exists c'. split; [by apply lookup_app_l_Some|done].
  - rewrite consumeGoal_clear. by apply handoff_inv_remove.
  - destruct (ho_pending r) as [c|] eqn:Ec; simpl.
    + by apply (handoff_inv_leave r wCleared c).
    + destruct r as [q acc lft]; simpl in *; subst. rewrite app_nil_r. done.
  - by apply handoff_inv_remove.
Qed.

(** Every goal the handoff owner accepts leaves it exactly once, in the order
    of acceptance: replaced by a strictly newer goal of the same mission,
    consumed or cleared by its exact pointer, or dropped by [clearGoal]; what
    has not left is the one pending goal. *)
Theorem handoff_exactly_once (ops : list handoff_op) :
  passes_all handoff_init ops ->
  let r := run handoff_step handoff_init ops in
  ho_accepted r = (ho_left r).*1 ++ option_list (ho_pending r) /\
  forall k p, ho_left r !! k = Some (p, wReplaced) ->
    exists c, ho_accepted r !! S k = Some c /\ goalMessageNewer (sp_obj c) (sp_obj p) = true.
Proof.
  cbv zeta. change (passes_all handoff_init ops -> handoff_inv (run handoff_step handoff_init ops)).
  assert (Hi : handoff_inv handoff_init) by (split; [done|by intros]).
  revert Hi. generalize handoff_init as r. induction ops as [|o ops IH]; intros r Hi Hp; simpl; [done|].
  destruct Hp as [Hp Hps]. apply IH; [by apply handoff_inv_step|done].
Qed.

(** ** Monotone identifiers *)

Definition advance_init (value : Z) (threads : nat) : advance_system :=
  mkAdvance value (replicate threads aIdle) [].

(** The identifiers handed out so far, the oldest first. *)
Definition tickets (s : advance_system) : list Z := reverse (omap id (av_returned s)).

Definition advance_inv (v0 : Z) (s : advance_system) : Prop :=
  v0 <= av_value s <= u64_max /\ tickets s = seqZ (v0 + 1) (av_value s - v0) /\
  (None ∈ av_returned s -> av_value s = u64_max) /\
  (forall i c, av_threads s !! i = Some (aLoaded c) -> v0 <= c <= av_value s).

Lemma seqZ_snoc a n : 0 <= n -> seqZ a (n + 1) = seqZ a n ++ [a + n].
Proof. intros. rewrite seqZ_app by lia. done. Qed.

Lemma threads_insert_loaded (ts : list advance_pc) i x j c :
  <[i := x]> ts !! j = Some (aLoaded c) -> x = aLoaded c \/ ts !! j = Some (aLoaded c).
Proof.
  destruct (decide (i = j)) as [<-|Hne]; [|by rewrite list_lookup_insert_ne; [right|]].
  intros H. left. pose proof (lookup_lt_Some _ _ _ H) as Hl. rewrite length_insert in Hl.
  rewrite list_lookup_insert_eq in H by done. congruence.
Qed.

Lemma tickets_some v ts x l :
  tickets (mkAdvance v ts (Some x :: l)) = tickets (mkAdvance v ts l) ++ [x].
Proof. exact (reverse_cons (omap id l) x). Qed.

Lemma advance_inv_step v0 s s' : advance_step s s' -> advance_inv v0 s -> advance_inv v0 s'.
Proof.
  intros Hs (Hv & Ht & Hn & Hl). destruct Hs as [i s s' H|i spurious s s' H]; revert H.
  - unfold advance_load. destruct (av_threads s !! i) as [[|]|]; try done. intros [= <-].
    split_and!; simpl; try done; try lia.
    intros j c [[= <-]|Hj]%threads_insert_loaded; [lia|by apply (Hl j)].
  - unfold advance_exchange. destruct (av_threads s !! i) as [[|c]|] eqn:Ei; try done.
    specialize (Hl i c Ei) as Hc. destruct (c =? u64_max) eqn:Em; [|destruct (_ && _) eqn:Ex];
      intros [= <-]; breflect.
    + split_and!; simpl; try done; try lia.
      intros j c' [?|Hj]%threads_insert_loaded; [done|by apply (Hl j)].
    + destruct Ex as [Ex _]. split_and!; simpl; try lia.
      * rewrite tickets_some. change (tickets s ++ [c + 1] = seqZ (v0 + 1) (c + 1 - v0)). rewrite Ht, Ex.
        replace (c + 1 - v0) with (c - v0 + 1) by lia.
        rewrite seqZ_snoc by lia. by replace (v0 + 1 + (c - v0)) with (c + 1) by lia.
      * intros [?|Hin]%elem_of_cons; [done|]. specialize (Hn Hin). lia.
      * intros j c' [?|Hj]%threads_insert_loaded; [done|]. specialize (Hl j c' Hj). lia.
    + split_and!; simpl; try done; try lia.
      intros j c' [[= <-]|Hj]%threads_insert_loaded; [lia|by apply (Hl j)].
Qed.

(** Under every interleaving of any number of threads, with spurious failures
    of the exchange, the identifiers handed out are exactly the successors of the
    initial value up to the current one, each once and in order; the counter
    never wraps, and a call only gives up when the last value has been reached. *)
Theorem tickets_exact (v0 : Z) (threads : nat) (s : advance_system) :
  v0 <= u64_max -> rtc advance_step (advance_init v0 threads) s ->
  tickets s = seqZ (v0 + 1) (av_value s - v0) /\ v0 <= av_value s <= u64_max /\
  (None ∈ av_returned s -> av_value s = u64_max).
Proof.
  intros Hv Hr. assert (Hi : advance_inv v0 (advance_init v0 threads)).
  { split_and!; simpl; try done; try lia.
    - by rewrite Z.sub_diag.
    - by intros ?%elem_of_nil.
    - intros i c Hi. apply lookup_replicate_1 in Hi as [? _]. done. }
  revert Hi. induction Hr as [s|s1 s2 s3 Hst Hr IH]; [by intros (? & ? & ? & _)|].
  intros Hi. apply IH. by apply (advance_inv_step v0 s1).
Qed.

(** One call without interference is [advanceRevision]. *)
Lemma advance_alone d : 
  exists s, rtc advance_step (advance_init (in_revision d) 1) s /\
    av_returned s = [(advanceRevision d).1] /\ av_value s = in_revision (advanceRevision d).2.
Proof.
  unfold advanceRevision. set (v := in_revision d).
  assert (H1 : advance_step (advance_init v 1) (mkAdvance v [aLoaded v] [])) by by apply (step_load 0).
  destruct (v =? u64_max) eqn:E.
  - exists (mkAdvance v [aIdle] [None]). split; [|done].
    eapply rtc_l; [exact H1|]. apply rtc_once, (step_exchange 0 false).
    unfold advance_exchange. simpl. by rewrite E.
  - exists (mkAdvance (v + 1) [aIdle] [Some (v + 1)]). split; [|done].
    eapply rtc_l; [exact H1|]. apply rtc_once, (step_exchange 0 false).
    unfold advance_exchange. simpl. by rewrite E, Z.eqb_refl.
Qed.

(** ** Goal transitions *)

(** The classification of a goal transition is exact: steady for the same
    identity or for no goals at all; an advance only on one route revision to
    another waypoint; a replacement for any other change within the mission,
    and never the final [kSteady] of the function, which is unreachable. *)
Theorem goal_transition_exact (desired executing : option NavigationGoal) :
  match classifyGoalTransition desired executing with
  | kSteady => sameGoalIdentity desired executing = true \/ (desired = None /\ executing = None)
  | kInitialGoal => is_Some desired /\ executing = None
  | kCancelOrLocalizationReset => desired = None /\ is_Some executing
  | kMissionReplacement => exists d e, desired = Some d /\ executing = Some e /\ g_mission_id d <> g_mission_id e
  | kSameRouteWaypointAdvance => exists d e, desired = Some d /\ executing = Some e /\
      g_mission_id d = g_mission_id e /\
      r_route_revision (g_route d) = r_route_revision (g_route e) /\ g_waypoint_index d <> g_waypoint_index e
  | kRouteReplacement => exists d e, desired = Some d /\ executing = Some e /\
      g_mission_id d = g_mission_id e /\
      (r_route_revision (g_route d) <> r_route_revision (g_route e) \/
       g_waypoint_index d = g_waypoint_index e /\ g_request_id d <> g_request_id e)
  end.
Proof.
  destruct desired as [d|], executing as [e|]; simpl; try (split; by eauto); [|by right].
  case_bool_decide as Em; simpl; [|naive_solver].
  destruct (r_route_revision (g_route d) =? r_route_revision (g_route e)) eqn:Er,
    (g_waypoint_index d =? g_waypoint_index e) eqn:Ew,
    (g_request_id d =? g_request_id e) eqn:Eq; simpl; breflect; eauto 10.
Qed.

(** ** The cause mask *)

(** Every false predicate of the final decision, and nothing else, is visible in
    the mask: each bit is set exactly when its predicate failed. *)
Theorem cause_mask_exact (callback owner lease fresh bounded world anchor phase path suffix : bool) :
  let mask := retainedFinalFailureCauseMask callback owner lease fresh bounded world anchor phase path suffix in
  Z.testbit mask 0 = negb callback /\ Z.testbit mask 1 = negb owner /\ Z.testbit mask 2 = negb lease /\
  Z.testbit mask 3 = negb (fresh && bounded) /\ Z.testbit mask 4 = negb world /\
  Z.testbit mask 5 = negb anchor /\ Z.testbit mask 6 = negb phase /\ Z.testbit mask 7 = negb path /\
  Z.testbit mask 8 = negb suffix /\ 0 <= mask < 2 ^ 9.
Proof.
  destruct callback, owner, lease, fresh, bounded, world, anchor, phase, path, suffix;
    vm_compute; repeat split; discriminate.
Qed.

(** ** The marker of the running solve *)

Inductive solve_event : Type :=
| eBegin (generation started_ns : Z) (witness : option PlannerSolveFailureWitness)
| eEnd (generation : Z).

Definition solve_step (a : SolveActivity) (e : solve_event) : SolveActivity :=
  match e with
  | eBegin g t w => solve_scope_begin g t true w a
  | eEnd g => solve_scope_end g true a
  end.

(** The last scope begun, if it has not ended. *)
Fixpoint open_scope (es : list solve_event) (current : option (Z * Z * option PlannerSolveFailureWitness))
    : option (Z * Z * option PlannerSolveFailureWitness) :=
  match es with
  | [] => current
  | eBegin g t w :: es => open_scope es (Some (g, t, w))
  | eEnd g :: es =>
      open_scope es (match current with
                     | Some (g', t, w) => if g' =? g then None else current
                     | None => None
                     end)
  end.

Definition marker (current : option (Z * Z * option PlannerSolveFailureWitness)) : SolveActivity :=
  match current with
  | Some (g, t, w) => mkSolveActivity t g w
  | None => mkSolveActivity 0 0 None
  end.

(** Whatever the order in which the scopes of solves begin and end, the marker
    is that of the last scope begun while it lasts, and empty afterwards: the
    late end of an older scope changes nothing. *)
Theorem solve_marker_exact (es : list solve_event) :
  run solve_step (marker None) es = marker (open_scope es None).
Proof.
  generalize (None : option (Z * Z * option PlannerSolveFailureWitness)) as c.
  induction es as [|[g t w|g] es IH]; intros c; simpl; [done| |]; rewrite <- IH.
  - by destruct c as [[[??]?]|].
  - f_equal. unfold solve_scope_end. destruct c as [[[g' t] w]|]; cbn; [by destruct (g' =? g)|by destruct g].
Qed.

(** ** The renewal decision *)

Lemma f80_add_not_nan x y :
  isfinite x = true -> isfinite y = true -> isnan (f80_add x y) = false.
Proof.
  intros Hx Hy. unfold f80_add.
  destruct x as [[]|[]| |? ? ?], y as [[]|[]| |? ? ?]; try done; by apply binary_normalize_not_nan.
Qed.


(** A failed result never revokes an available command, and readiness is only
    reported for an observed commit. *)
Lemma result_keeps_command (result : PlannerStatus) (from_rest available observed : bool) :
  let d := classifyPlannerResult result from_rest available observed in
  (available = true -> d <> FailClosed /\ d <> RetryFromRest) /\
  (d = CommandReady -> observed = true /\ (result = kSuccess \/ result = kFinished)) /\
  (available = false -> d <> RetainCommittedCommand /\ d <> ValidateRetainedCommand).
Proof. destruct result, from_rest, available, observed; vm_compute; naive_solver. Qed.

(** ** The quality refinement of a baseline *)

Section Refinement.
Context `{EigenOps}.

Inductive refinement_op : Type :=
| rAdmit (request : PlanningKey) (candidate : CandidateBundle) (outcome : CompletePlanningOutcome)
    (initial_stopped : bool)
| rConsume (ordinary : PlannerRenewalDecision) (context : BaselineRefinementContext).

Definition refinement_step (o : BaselineRefinementOpportunity) (x : refinement_op)
    : BaselineRefinementOpportunity :=
  match x with
  | rAdmit r c outcome i => noteAdmission r c outcome i o
  | rConsume d c => (refinement_consume d c o).2
  end.

(** The admissions of [ops] all belong to the goal of [owner], or are refused. *)
Definition admits_goal (owner : PlanningKey) (x : refinement_op) : Prop :=
  match x with
  | rAdmit r c _ _ => PlanningKey_valid r && CandidateBundle_valid c = true -> sameGoalOwner owner r = true
  | rConsume _ _ => True
  end.

Lemma refinement_consume_some d c o :
  (refinement_consume d c o).1 = true ->
  refinement_ready d c o = true /\ (refinement_consume d c o).2 = mkOpportunity (op_owner o) 0.
Proof. unfold refinement_consume. by destruct (refinement_ready d c o). Qed.

Lemma refinement_ready_pending d c o : refinement_ready d c o = true -> refinement_pending d c o = true.
Proof. unfold refinement_ready. by destruct (refinement_pending d c o). Qed.

Lemma ready_generation d c o : refinement_ready d c o = true -> op_generation o <> 0.
Proof.
  intros Hr%refinement_ready_pending. unfold refinement_pending in Hr.
  destruct (op_owner o); [|done]. rewrite !andb_true_iff, negb_true_iff, Z.eqb_neq in Hr. tauto.
Qed.

Lemma spent_stays owner ops :
  Forall (admits_goal owner) ops ->
  run refinement_step (mkOpportunity (Some owner) 0) ops = mkOpportunity (Some owner) 0.
Proof.
  induction 1 as [|x ops Hx _ IH]; [done|]. rewrite <- IH at 2. simpl. f_equal.
  destruct x as [r c outcome i|d c]; simpl in *.
  - unfold noteAdmission. destruct (PlanningKey_valid r), (CandidateBundle_valid c); simpl; try done.
    by rewrite Hx.
  - destruct (refinement_consume d c (mkOpportunity (Some owner) 0)).1 eqn:E.
    + apply refinement_consume_some in E as [E%ready_generation _]. done.
    + revert E. unfold refinement_consume. by destruct (refinement_ready _ _ _).
Qed.

Lemma ready_spec d c o :
  refinement_ready d c o = true ->
  exists owner a, op_owner o = Some owner /\ bc_active c = Some a /\
    sameGoalOwner owner (bc_key c) = true /\
    run_optimizer d = false /\ reason d = kRetainCertifiedMain /\
    fle (remaining_main_horizon_s d) kUrgentBaselineThresholdS = false /\
    CandidateBundle_valid a = true /\ b_kind a = kMainWithBackup /\
    b_bundle_generation a = op_generation o /\
    b_goal_epoch a = key_goal_epoch (bc_key c) /\ b_request_id a = key_request_id (bc_key c) /\
    b_localization_epoch a = key_localization_epoch (bc_key c) /\
    (bc_sampled_role c = kMain /\ b_valid_from_ns a <= bc_now_ns c <= b_valid_until_ns a) /\
    commandAvailable (bc_execution c) = true /\ safetySuffixActive (bc_execution c) = false /\
    activeGeneration (bc_execution c) = op_generation o.
Proof.
  intros Hr. pose proof (refinement_ready_pending d c o Hr) as Hp.
  unfold refinement_ready in Hr. rewrite Hp in Hr. cbn [negb] in Hr. unfold refinement_pending in Hp.
  destruct (op_owner o) as [owner|]; [|done]. destruct (bc_active c) as [a|]; [|done].
  unfold refinement_bundle_current, refinement_execution_current in Hr.
  destruct (s_active (bc_execution c)) as [b|]; [|by rewrite andb_false_r in Hr].
  autorewrite with nav_bool in Hr, Hp.
  exists owner, a. destruct_and!. by split_and!.
Qed.


(** What arms the receipt: the first admitted complete baseline of a goal, from
    a stop. *)
Lemma refinement_armed_by r c outcome i o :
  let o' := noteAdmission r c outcome i o in
  op_generation o' <> op_generation o -> op_generation o' <> 0 ->
  o' = mkOpportunity (Some r) (b_bundle_generation c) /\
  initial_baseline r c outcome i = true /\ CandidateBundle_valid c = true /\
  (forall owner, op_owner o = Some owner -> sameGoalOwner owner r = false).
Proof.
  cbv zeta. unfold noteAdmission. destruct (PlanningKey_valid r), (CandidateBundle_valid c); simpl; try done.
  destruct (op_owner o) as [owner|]; [destruct (sameGoalOwner owner r) eqn:E; [done|]|]; simpl;
    (destruct (initial_baseline r c outcome i); [|done]); intros _ _; split_and!; try done; naive_solver.
Qed.
End Refinement.

(** ** Timer arithmetic *)

Lemma f80_flt_units x y :
  f80_valid x = true -> f80_valid y = true -> isfinite x = true -> isfinite y = true ->
  flt x y = (SF_units prec80 emax80 x <? SF_units prec80 emax80 y).
Proof. intros. by apply (SF_ltb_units prec80 emax80); try apply isfinite_not_nan. Qed.

(** A period is a positive number of nanoseconds in range. *)
Lemma rate_period_in_range (rate_hz : f64) (period : Z) :
  f64_valid rate_hz = true -> ratePeriodNanoseconds rate_hz = Some period -> 1 <= period <= i64_max.
Proof.
  intros Hv. unfold ratePeriodNanoseconds. destruct (_ || _); [done|].
  set (p := f80_div _ _). assert (Hp : f80_valid p = true).
  { apply f80_div_valid; [by vm_compute|by apply f80_of_f64_valid]. }
  destruct (_ || _ || _) eqn:E; [done|]. intros [= <-]. rewrite !orb_false_iff, negb_false_iff in E.
  destruct E as [[Hf Hl] Hh]. by apply (f80_trunc_between p 1 i64_max).
Qed.

(** The bounded sample count of a trajectory always exists for positive
    durations and periods, lies between two and the maximum, and unless it is
    the maximum its intervals cover the whole duration. *)
Theorem sample_count_covers (duration_s sample_period_s : f64) (maximum_points : Z) :
  f64_valid duration_s = true -> f64_valid sample_period_s = true ->
  isfinite duration_s = true -> fle duration_s fzero = false ->
  isfinite sample_period_s = true -> fle sample_period_s fzero = false ->
  2 <= maximum_points <= u64_max ->
  let ratio := f80_div (f80_of_f64 duration_s) (f80_of_f64 sample_period_s) in
  flt (f80_of_Z 0) ratio = true ->
  exists n, boundedTrajectorySampleCount duration_s sample_period_s maximum_points = Some n /\
    2 <= n <= maximum_points /\
    (n < maximum_points -> fle ratio (f80_of_Z (n - 1)) = true).
Proof.
  intros Vd Vp Fd Pd Fp Pp Hm ratio Hpos. unfold boundedTrajectorySampleCount.
  rewrite Fd, Pd, Fp, Pp. cbn [negb orb]. destruct (maximum_points <? 2) eqn:E; breflect; [lia|].
  fold ratio. assert (Hv : f80_valid ratio = true) by (by apply f80_div_valid; apply f80_of_f64_valid).
  destruct (f80_of_Z_units (maximum_points - 1) ltac:(zlia)) as [Fc Uc].
  set (cap := f80_of_Z (maximum_points - 1)) in *.
  assert (Vc : f80_valid cap = true) by apply f80_of_Z_valid.
  destruct (negb (isfinite ratio) || fge ratio cap) eqn:Eg.
  { exists maximum_points. split; [reflexivity|]. split; [lia|]. intros ?. lia. }
  rewrite orb_false_iff, negb_false_iff in Eg. destruct Eg as [Fr Eg].
  pose proof f80_scale_pos as Hs.
  assert (U : SF_units prec80 emax80 ratio < (maximum_points - 1) * f80_scale).
  { rewrite <- Uc. apply Z.ltb_lt. rewrite <- (f80_flt_units ratio cap Hv Vc Fr Fc).
    change (fgt cap ratio = true).
    rewrite (fgt_negb_fle cap ratio (isfinite_not_nan _ Fc) (isfinite_not_nan _ Fr)).
    change (negb (fge ratio cap) = true). by rewrite Eg. }
  destruct (f80_of_Z_units 0 ltac:(lia)) as [F0 U0]. pose proof (f80_of_Z_valid 0) as V0.
  assert (P : 0 < SF_units prec80 emax80 ratio).
  { rewrite (f80_flt_units _ _ V0 Hv F0 Fr), U0 in Hpos. apply Z.ltb_lt in Hpos. lia. }
  assert (Hn : flt ratio fzero = false).
  { change fzero with (f80_of_Z 0). rewrite (f80_flt_units _ _ Hv V0 Fr F0), U0. apply Z.ltb_ge. lia. }
  destruct (f80_ceil_units ratio (maximum_points - 1) Hv Fr Hn ltac:(zlia) ltac:(lia))
    as (n & Vi & Fi & Ui & Hn1 & Hn2).
  assert (1 <= n) by nia.
  destruct (f80_of_Z_units 1 ltac:(lia)) as [F1 U1]. pose proof (f80_of_Z_valid 1) as V1.
  assert (Hi : flt (f80_ceil ratio) fzero = false).
  { change fzero with (f80_of_Z 0). rewrite (f80_ltb_Z _ _ n 0 Vi V0 Fi F0 Ui U0). apply Z.ltb_ge. lia. }
  assert (Ht : SF_trunc (f80_ceil ratio) = n).
  { rewrite (f80_trunc_floor _ Vi Fi Hi), Ui. apply Z.div_mul. lia. }
  rewrite Fi. cbn [negb orb]. rewrite (f80_ltb_Z _ _ n 1 Vi V1 Fi F1 Ui U1).
  change (fgt (f80_ceil ratio) cap) with (flt cap (f80_ceil ratio)).
  rewrite (f80_ltb_Z _ _ (maximum_points - 1) n Vc Vi Fc Fi Uc Ui).
  replace (n <? 1) with false by (symmetry; apply Z.ltb_ge; lia).
  replace (maximum_points - 1 <? n) with false by (symmetry; apply Z.ltb_ge; lia). cbn [orb].
  destruct (feq (f80_ceil ratio) cap).
  { exists maximum_points. split; [reflexivity|]. split; [lia|]. intros ?. lia. }
  exists (n + 1). rewrite Ht. split; [reflexivity|]. split; [lia|]. intros _.
  replace (n + 1 - 1) with n by lia. destruct (f80_of_Z_units n ltac:(zlia)) as [Fn Un].
  pose proof (f80_of_Z_valid n) as Vn. apply fle_negb_flt.
  split; [by apply isfinite_not_nan|]. split; [by apply isfinite_not_nan|].
  rewrite (f80_flt_units _ _ Vn Hv Fn Fr), Un. apply Z.ltb_ge. lia.
Qed.

(** ** Finite differences *)

Section DerivativeTheorems.
Context `{EigenOps}.

Record velocity_sample : Type := mkVelocitySample {
  vs_stamp_ns : Z;
  vs_epoch : Z;
  vs_velocity : vec3
}.

Definition derivatives (k : KinematicDerivativeEstimator) (s : velocity_sample) :=
  derivative_update (vs_stamp_ns s) (vs_epoch s) (vs_velocity s) k.

Definition estimator_after (l : list velocity_sample) : KinematicDerivativeEstimator :=
  run (fun k s => (derivatives k s).2) Estimator_reset l.

Definition sample_valid (s : velocity_sample) : Prop :=
  0 < vs_stamp_ns s /\ vs_epoch s <> 0 /\ v_allFinite (vs_velocity s) = true.

(** Two valid samples of one epoch, in order and at most half a second apart. *)
Definition adjacent (s1 s2 : velocity_sample) : Prop :=
  sample_valid s1 /\ sample_valid s2 /\ vs_epoch s1 = vs_epoch s2 /\
  vs_stamp_ns s1 < vs_stamp_ns s2 <= vs_stamp_ns s1 + 500000000.

Definition sample_dt (s1 s2 : velocity_sample) : f64 := derivative_dt (vs_stamp_ns s2) (vs_stamp_ns s1).

(** The difference quotient of two samples. *)
Definition difference (s1 s2 : velocity_sample) : vec3 :=
  v_div (v_sub (vs_velocity s2) (vs_velocity s1)) (sample_dt s1 s2).

Definition estimator_inv (l : list velocity_sample) (k : KinematicDerivativeEstimator) : Prop :=
  (ke_have_velocity k = true -> exists l' s, l = l' ++ [s] /\ sample_valid s /\
     ke_previous_stamp_ns k = vs_stamp_ns s /\ ke_previous_epoch k = vs_epoch s /\
     ke_previous_velocity k = vs_velocity s) /\
  (ke_have_acceleration k = true -> exists l' s1 s2, l = l' ++ [s1; s2] /\ adjacent s1 s2 /\
     ke_previous_acceleration k = difference s1 s2 /\ v_allFinite (difference s1 s2) = true).

(** What a valid sample is told, after the samples [l]. *)
Definition estimate_inv (l : list velocity_sample) (s : velocity_sample)
    (e : KinematicDerivativeEstimate) : Prop :=
  (de_acceleration_estimated e = true -> exists l' s1, l = l' ++ [s1] /\ adjacent s1 s /\
     de_acceleration_world e = difference s1 s /\ v_allFinite (difference s1 s) = true) /\
  (de_acceleration_estimated e = false -> de_acceleration_world e = vec3_zero) /\
  (de_jerk_estimated e = true -> exists l' s1 s2, l = l' ++ [s1; s2] /\ adjacent s1 s2 /\ adjacent s2 s /\
     de_jerk_world e = v_div (v_sub (difference s2 s) (difference s1 s2)) (sample_dt s2 s) /\
     v_allFinite (de_jerk_world e) = true) /\
  (de_jerk_estimated e = false -> de_jerk_world e = vec3_zero).

Lemma estimate_none l s : estimate_inv l s Derivatives_none.
Proof. split_and!; done. Qed.

Lemma derive_inv l s k :
  sample_valid s -> estimator_inv l k ->
  let r := derive (vs_stamp_ns s) (vs_epoch s) (vs_velocity s) k in
  estimate_inv l s r.1 /\
  (r.2.1 = true -> exists l' s1, l = l' ++ [s1] /\ adjacent s1 s /\ r.2.2 = difference s1 s /\
     v_allFinite (difference s1 s) = true).
Proof.
  intros Hs [Hv Ha]. cbv zeta. unfold derive.
  destruct (continuous_sample _ _ _) eqn:Ec; [|split; [apply estimate_none|done]].
  unfold continuous_sample, kMaximumDerivativeGapNs in Ec. bsplit.
  destruct (Hv ltac:(done)) as (l' & s1 & -> & Hs1 & Et & Ee & Ev).
  assert (Hadj : adjacent s1 s) by (unfold adjacent; split_and!; try done; lia).
  cbv zeta. rewrite Et, Ev. change (derivative_dt _ _) with (sample_dt s1 s).
  change (v_div (v_sub (vs_velocity s) (vs_velocity s1)) (sample_dt s1 s)) with (difference s1 s).
  destruct (v_allFinite (difference s1 s)) eqn:Ef; [|split; [apply estimate_none|done]].
  split; [|by eauto 10].
  destruct (ke_have_acceleration k && v_allFinite _) eqn:Ej; split_and!; simpl; try done; eauto 10.
  bsplit. intros _. destruct (Ha ltac:(done)) as (l2 & s1' & s2' & Hl & Hadj2 & Eacc & _).
  rewrite (app_assoc _ [s1'] [s2']) in Hl. apply app_inj_tail in Hl as [-> ->].
  exists l2, s1', s2'. rewrite <- app_assoc, <- Eacc. done.
Qed.

Lemma update_estimate l s k :
  estimator_inv l k -> estimate_inv l s (derivatives k s).1 /\ estimator_inv (l ++ [s]) (derivatives k s).2.
Proof.
  intros Hi. unfold derivatives, derivative_update. destruct (_ || _ || _) eqn:E.
  - split; [apply estimate_none|]. split; done.
  - bsplit. assert (Hs : sample_valid s) by (unfold sample_valid; split_and!; [lia|done|done]).
    pose proof (derive_inv l s k Hs Hi) as [He Hacc]. split; [done|]. split; simpl.
    + intros _. by exists l, s.
    + intros Hk. destruct (Hacc Hk) as (l' & s1 & -> & Hadj & -> & ?).
      exists l', s1, s. by rewrite <- app_assoc.
Qed.

(** The estimator never manufactures a derivative: an acceleration is the
    difference quotient of the last two samples of the stream, both valid, of one
    epoch and at most half a second apart, and a jerk that of the last two such
    quotients, over three consecutive samples; otherwise both are zero and
    marked as not estimated, whatever invalid, stale or foreign samples the
    stream holds. *)
Theorem derivatives_from_consecutive_samples (l : list velocity_sample) (s : velocity_sample) :
  estimate_inv l s (derivatives (estimator_after l) s).1.
Proof.
  apply update_estimate. unfold estimator_after. induction l as [|x l IH] using rev_ind; [by split|].
  rewrite run_snoc. by apply update_estimate.
Qed.
End DerivativeTheorems.

(** ** Witnesses *)

Definition w_goal (request waypoint : Z) : NavigationGoal :=
  mkGoal "m" waypoint request vec3_zero f64_1 BEHAVIOR_STOP false vec3_zero RouteSnapshot_default.

Definition w_handoff : list handoff_op :=
  [hEnqueue (Some (Shared 1%positive (w_goal 2 1))) (Some (w_goal 1 0)) true;
   hEnqueue (Some (Shared 2%positive (w_goal 3 2))) (Some (w_goal 1 0)) true;
   hConsume (Some (Shared 2%positive (w_goal 3 2)))].

Lemma w_handoff_passes : passes_all handoff_init w_handoff.
Proof. repeat split; vm_compute; by intros. Qed.

Lemma handoff_exactly_once_witness :
  ho_accepted (run handoff_step handoff_init w_handoff) =
    [Shared 1%positive (w_goal 2 1); Shared 2%positive (w_goal 3 2)] /\
  (ho_left (run handoff_step handoff_init w_handoff)).*2 = [wReplaced; wConsumed] /\
  ho_accepted (run handoff_step handoff_init w_handoff) =
    (ho_left (run handoff_step handoff_init w_handoff)).*1 ++ [].
Proof.
  split; [by vm_compute|]. split; [by vm_compute|].
  exact (proj1 (handoff_exactly_once w_handoff w_handoff_passes)).
Defined.

Definition w_advanced : advance_system :=
  mkAdvance 7 [aLoaded 6; aIdle] [Some 7; Some 6].

Lemma w_advanced_reachable : rtc advance_step (advance_init 5 2) w_advanced.
Proof.
  eapply rtc_l; [by apply (step_load 0)|]. eapply rtc_l; [by apply (step_load 1)|].
  eapply rtc_l; [by apply (step_exchange 1 false)|]. eapply rtc_l; [by apply (step_exchange 0 false)|].
  eapply rtc_l; [by apply (step_load 1)|]. eapply rtc_l; [by apply (step_exchange 1 false)|]. done.
Qed.

Lemma tickets_exact_witness : tickets w_advanced = [6; 7] /\ 5 <= av_value w_advanced.
Proof.
  destruct (tickets_exact 5 2 w_advanced ltac:(by vm_compute) w_advanced_reachable) as (Ht & [Hv _] & _).
  split; [exact Ht|exact Hv].
Defined.


Definition w_key (mode : PlanningStartMode) : PlanningKey := mkKey 1 1 1 1 1 1 1 mode 1 1.

Definition w_snapshot : ExecutionAuthoritySnapshot :=
  mkSnapshot 1 (Some demo_identity) (Some (Shared 1%positive demo_bundle)) None 0
    (Some (Shared 2%positive (w_goal 1 0))) None 1 1 1
    (mkLifecycle phTrackingMain rTrackMain kAvailable kNominal kRestartNone).

Definition w_context : BaselineRefinementContext :=
  mkRefinementContext (w_key kCommittedFutureState) (Some demo_bundle) w_snapshot demo_identity 1
    (b_valid_from_ns demo_bundle) kMain false true true true.

Definition w_retained : PlannerRenewalDecision :=
  mkRenewal false kRetainCertifiedMain (f64_of_Z 3) f64_1.

Definition w_armed : BaselineRefinementOpportunity :=
  @noteAdmission eigen_reference (w_key kStoppedMeasuredState) demo_bundle kBaselineCompleteBundle true
    Opportunity_init.


Lemma sample_count_covers_witness :
  exists n, boundedTrajectorySampleCount (f64_of_Z 2) (f64_lit 3 10) 100 = Some n /\ 2 <= n <= 100.
Proof.
  destruct (sample_count_covers (f64_of_Z 2) (f64_lit 3 10) 100) as (n & Hn & Hb & _);
    try (vm_compute; reflexivity); [split; vm_compute; discriminate|].
  exists n. split; [exact Hn|exact Hb].
Defined.
