(* ===== verification/PathTracking.v ===== *)
(** * Path-relative tracking of the executing command

    [runtime/navigation_runtime/include/navigation_runtime]:
    [path_relative_tracking.hpp], which decides whether the vehicle is on the
    intended path although it is ahead of or behind the timed command, and
    [experimental_tracking.hpp].

    The search evaluates the bundle through [sampleAtDeclaredStamp]; its two
    mutable locals, the number of evaluations and the failure flag, are the
    [search_trace] threaded through every evaluation. *)

From S2P Require Import Prelude Float64 TimeNs Geometry World Candidate TrackingGuard.
From Stdlib Require Import Floats.SpecFloat.

Inductive PathRelativeTrackingStatus : Type :=
| pt_kInvalidInput | pt_kUnavailableSupport | pt_kLowReferenceSpeed | pt_kAmbiguousProjection
| pt_kPhaseExceeded | pt_kOutsidePathTube | pt_kReverseMotion | pt_kPredictionOutsideTube
| pt_kAbsoluteDivergence | pt_kAccepted.
#[export] Instance PathRelativeTrackingStatus_eq_dec : EqDecision PathRelativeTrackingStatus.
Proof. solve_decision. Defined.

Record PathRelativeTrackingResult : Type := mkPathResult {
  pt_status : PathRelativeTrackingStatus;
  pt_projected_stamp_ns : Z;
  pt_phase_offset_s : f64;
  pt_predicted_phase_offset_s : f64;
  pt_path_error_m : f64;
  pt_cross_track_error_m : f64;
  pt_vertical_error_m : f64;
  pt_predicted_path_error_m : f64;
  pt_progress_rate : f64;
  pt_raw_error_m : f64;
  pt_outer_anchor_limit_m : f64;
  pt_evaluation_count : Z
}.

(** A result with only a status and the evaluations so far. *)
Definition path_result (status : PathRelativeTrackingStatus) (count : Z) : PathRelativeTrackingResult :=
  mkPathResult status 0 S754_nan S754_nan S754_nan S754_nan S754_nan S754_nan S754_nan S754_nan
    S754_nan count.

Definition kSegments : nat := 32.
Definition kMaximumMinima : nat := 4.
Definition kRefinementSteps : nat := 24.
(** [0.6180339887498948482] *)
Definition kGolden : f64 := S754_finite false 5566755282872656 (-53).

Record search_trace : Type := mkTrace { st_count : Z; st_failed : bool }.

(** The request of one assessment. *)
Record tracking_query : Type := mkQuery {
  tq_bundle : CandidateBundle;
  tq_position : vec3;
  tq_velocity : vec3;
  tq_now_ns : Z;
  tq_source_stamp_ns : Z;
  tq_validation_interval_s : f64;
  tq_phase_window_s : f64;
  tq_contour_budget_m : f64;
  tq_base_outer_anchor_limit_m : f64
}.

(** What the support checks leave: the MAIN interval, the source time in it, and
    the window of the search. *)
Record path_support : Type := mkSupport {
  su_main_begin_s : f64;
  su_main_end_s : f64;
  su_source_time_s : f64;
  su_low : f64;
  su_high : f64
}.

(** A stamp relative to the declared start, in seconds. *)
Definition local_seconds (stamp_ns : Z) (b : CandidateBundle) : f64 :=
  f64_of_f80 (f80_mul (f80_sub (f80_of_Z stamp_ns) (f80_of_Z (b_declared_start_ns b)))
                (f80_lit 1 1000000000)).

Section Tracking.
Context `{EigenOps}.

Definition query_invalid (q : tracking_query) (state_fresh body_known_free path_clear : bool) : bool :=
  negb state_fresh || negb body_known_free || negb path_clear
  || negb (CandidateBundle_valid (tq_bundle q))
  || negb (v_allFinite (tq_position q)) || negb (v_allFinite (tq_velocity q))
  || (tq_now_ns q <=? 0) || (tq_source_stamp_ns q <=? 0) || (tq_now_ns q <? tq_source_stamp_ns q)
  || negb (isfinite (tq_validation_interval_s q)) || fle (tq_validation_interval_s q) fzero
  || negb (isfinite (tq_phase_window_s q)) || fle (tq_phase_window_s q) fzero
  || negb (isfinite (tq_contour_budget_m q)) || fle (tq_contour_budget_m q) fzero
  || negb (isfinite (tq_base_outer_anchor_limit_m q)) || fle (tq_base_outer_anchor_limit_m q) fzero.

(** The lease must cover the validation interval. *)
Definition lease_too_short (q : tracking_query) : bool :=
  let b := tq_bundle q in
  (b_role b !=? kMain) || b_terminal_stop b || (tq_now_ns q <? b_valid_from_ns b)
  || (b_valid_until_ns b <? tq_now_ns q)
  || fgt (f80_mul (f80_of_f64 (tq_validation_interval_s q)) (f80_of_Z 1000000000))
         (f80_sub (f80_of_Z (b_valid_until_ns b)) (f80_of_Z (tq_now_ns q))).

Definition main_interval_at (source_time_s : f64) (i : CandidateRoleInterval) : bool :=
  (interval_role i ==? kMain) && fge source_time_s (begin_time_s i) && flt source_time_s (end_time_s i).

Definition path_support_of (q : tracking_query) : option path_support :=
  let b := tq_bundle q in
  if lease_too_short q then None
  else
    let source_time_s := local_seconds (tq_source_stamp_ns q) b in
    if scheduledRole b source_time_s !=? Some kMain then None
    else
      match find (main_interval_at source_time_s) (b_role_schedule b) with
      | None => None
      | Some i =>
          let main_begin_s := begin_time_s i in
          let main_end_s := end_time_s i in
          let now_local_s := local_seconds (tq_now_ns q) b in
          if flt now_local_s main_begin_s
             || fge (f64_add now_local_s (tq_validation_interval_s q)) main_end_s then None
          else
            let low := fmax (SFopp (tq_phase_window_s q)) (f64_sub main_begin_s source_time_s) in
            let high :=
              fmin (tq_phase_window_s q) (f64_sub (f64_sub main_end_s source_time_s) f64_1e_9) in
            if negb (fgt high low) then None
            else Some (mkSupport main_begin_s main_end_s source_time_s low high)
      end.

(** ** Evaluations *)

Definition stampAtOffset (source_stamp_ns : Z) (offset_s : f64) : option Z :=
  let value :=
    f80_add (f80_of_Z source_stamp_ns)
      (f80_round (f80_mul (f80_of_f64 offset_s) (f80_of_Z 1000000000))) in
  if negb (isfinite value) || fle value fzero || fgt value (f80_of_Z i64_max) then None
  else Some (i64_of_f value).

Definition sample_offset (q : tracking_query) (offset_s : f64) (t : search_trace)
    : option TrajectoryPoint * search_trace :=
  match stampAtOffset (tq_source_stamp_ns q) offset_s with
  | None => (None, mkTrace (st_count t) true)
  | Some stamp =>
      match sampleAtDeclaredStamp (tq_bundle q) stamp with
      | Some value =>
          if p_role value !=? kMain then (None, mkTrace (st_count t + 1) true)
          else (Some value, mkTrace (st_count t + 1) (st_failed t))
      | None => (None, mkTrace (st_count t + 1) true)
      end
  end.

Definition squaredDistance (q : tracking_query) (offset_s : f64) (t : search_trace)
    : f64 * search_trace :=
  match sample_offset q offset_s t with
  | (None, t) => (S754_infinity false, t)
  | (Some point, t) => (v_squaredNorm (v_sub (p_position_world point) (tq_position q)), t)
  end.

(** ** The coarse grid *)

Definition coarse_offset (su : path_support) (i : nat) : f64 :=
  f64_add (su_low su)
    (f64_div (f64_mul (f64_sub (su_high su) (su_low su)) (f64_of_Z (Z.of_nat i)))
             (f64_of_Z (Z.of_nat kSegments))).

(** Offsets and distances of the indices of [is]; [None] after a distance that
    is not finite. *)
Fixpoint coarse_scan (q : tracking_query) (su : path_support) (is_ : list nat) (t : search_trace)
    : option (list (f64 * f64)) * search_trace :=
  match is_ with
  | [] => (Some [], t)
  | i :: is_ =>
      let offset := coarse_offset su i in
      let '(distance, t) := squaredDistance q offset t in
      if negb (isfinite distance) then (None, t)
      else
        match coarse_scan q su is_ t with
        | (None, t) => (None, t)
        | (Some rest, t) => (Some ((offset, distance) :: rest), t)
        end
  end.

(** ** Local refinement *)

Record golden : Type := mkGolden {
  go_left : f64; go_right : f64; go_x1 : f64; go_x2 : f64; go_d1 : f64; go_d2 : f64
}.

Definition golden_low (left_ right_ : f64) : f64 :=
  f64_sub right_ (f64_mul kGolden (f64_sub right_ left_)).
Definition golden_high (left_ right_ : f64) : f64 :=
  f64_add left_ (f64_mul kGolden (f64_sub right_ left_)).

Definition golden_start (q : tracking_query) (left_ right_ : f64) (t : search_trace)
    : golden * search_trace :=
  let x1 := golden_low left_ right_ in
  let x2 := golden_high left_ right_ in
  let '(d1, t) := squaredDistance q x1 t in
  let '(d2, t) := squaredDistance q x2 t in
  (mkGolden left_ right_ x1 x2 d1 d2, t).

Definition golden_step (q : tracking_query) (g : golden) (t : search_trace) : golden * search_trace :=
  if fle (go_d1 g) (go_d2 g) then
    let right_ := go_x2 g in
    let x1 := golden_low (go_left g) right_ in
    let '(d1, t) := squaredDistance q x1 t in
    (mkGolden (go_left g) right_ x1 (go_x1 g) d1 (go_d1 g), t)
  else
    let left_ := go_x1 g in
    let x2 := golden_high left_ (go_right g) in
    let '(d2, t) := squaredDistance q x2 t in
    (mkGolden left_ (go_right g) (go_x2 g) x2 (go_d2 g) d2, t).

Fixpoint golden_loop (steps : nat) (q : tracking_query) (g : golden) (t : search_trace)
    : golden * search_trace :=
  match steps with
  | O => (g, t)
  | S steps => let '(g, t) := golden_step q g t in golden_loop steps q g t
  end.

(** The refined minimum around the coarse sample [c]. *)
Definition refined_minimum (c : f64 * f64) (g : golden) : f64 * f64 :=
  let minimum_offset := if fle (go_d1 g) (go_d2 g) then go_x1 g else go_x2 g in
  let minimum_distance := fmin (go_d1 g) (go_d2 g) in
  if flt c.2 minimum_distance then c else (minimum_offset, minimum_distance).

(** ** The list of minima *)

Definition duplicate_of (m e : f64 * f64) : bool :=
  fle (fabs (f64_sub e.1 m.1)) f64_1e_6.

Definition merge_minimum (m : f64 * f64) (minima : list (f64 * f64)) : list (f64 * f64) :=
  let merged :=
    map (fun e => if duplicate_of m e && flt m.2 e.2 then m else e) minima in
  if existsb (duplicate_of m) minima then merged else merged ++ [m].

(** [distances[i]] is above a neighbour. *)
Definition not_local_minimum (grid : list (f64 * f64)) (i : nat) (distance : f64) : bool :=
  match i with
  | O => false
  | S j => match grid !! j with Some p => fgt distance p.2 | None => false end
  end
  || match grid !! S i with Some n => fgt distance n.2 | None => false end.

Definition bracket_left (grid : list (f64 * f64)) (i : nat) (own : f64) : f64 :=
  match i with
  | O => own
  | S j => match grid !! j with Some p => p.1 | None => own end
  end.
Definition bracket_right (grid : list (f64 * f64)) (i : nat) (own : f64) : f64 :=
  match grid !! S i with Some n => n.1 | None => own end.

(** One local minimum of the grid: refined and merged; [inl] is the status the
    assessment returns with. *)
Definition refine_at (q : tracking_query) (grid : list (f64 * f64)) (i : nat) (c : f64 * f64)
    (minima : list (f64 * f64)) (t : search_trace)
    : (PathRelativeTrackingStatus + list (f64 * f64)) * search_trace :=
  let '(g, t) := golden_start q (bracket_left grid i c.1) (bracket_right grid i c.1) t in
  let '(g, t) := golden_loop kRefinementSteps q g t in
  if st_failed t then (inl pt_kUnavailableSupport, t)
  else
    let m := refined_minimum c g in
    if negb (isfinite m.2) then (inl pt_kUnavailableSupport, t)
    else (inr (merge_minimum m minima), t).

(** The loop over the grid from index [i] on; [refinements] counts the minima
    refined so far. *)
Fixpoint minima_loop (q : tracking_query) (grid rest : list (f64 * f64)) (i refinements : nat)
    (minima : list (f64 * f64)) (t : search_trace)
    : (PathRelativeTrackingStatus + list (f64 * f64)) * search_trace :=
  match rest with
  | [] => (inr minima, t)
  | c :: rest =>
      if not_local_minimum grid i c.2 then minima_loop q grid rest (S i) refinements minima t
      else if (refinements =? kMaximumMinima)%nat then (inl pt_kAmbiguousProjection, t)
      else
        match refine_at q grid i c minima t with
        | (inl status, t) => (inl status, t)
        | (inr minima, t) => minima_loop q grid rest (S i) (S refinements) minima t
        end
  end.

(** ** The choice of the projection *)

(** [best]: the first entry of least distance. *)
Fixpoint best_index (minima : list (f64 * f64)) (i best : nat) (best_distance : f64) : nat :=
  match minima with
  | [] => best
  | e :: minima =>
      if flt e.2 best_distance then best_index minima (S i) i e.2
      else best_index minima (S i) best best_distance
  end.

Definition ambiguous_with (minima : list (f64 * f64)) (best : nat) (best_distance : f64) : bool :=
  existsb (fun ie : nat * (f64 * f64) =>
      negb (ie.1 =? best)%nat
      && fle (fabs (f64_sub ie.2.2 best_distance))
             (f64_mul (f64_lit 1 10000000000) (fmax f64_1 best_distance)))
    (zip (seq 0 (length minima)) minima).

Definition choose_projection (minima : list (f64 * f64)) : PathRelativeTrackingStatus + (f64 * f64) :=
  match minima with
  | [] => inl pt_kUnavailableSupport
  | e :: rest =>
      let best := best_index rest 1 0 e.2 in
      match minima !! best with
      | None => inl pt_kUnavailableSupport
      | Some m => if ambiguous_with minima best m.2 then inl pt_kAmbiguousProjection else inr m
      end
  end.

(** The search: coarse grid, refined minima, choice. *)
Definition project_on_path (q : tracking_query) (su : path_support)
    : (PathRelativeTrackingStatus + (f64 * f64)) * search_trace :=
  match coarse_scan q su (seq 0 (S kSegments)) (mkTrace 0 false) with
  | (None, t) => (inl pt_kUnavailableSupport, t)
  | (Some grid, t) =>
      match minima_loop q grid grid 0 0 [] t with
      | (inl status, t) => (inl status, t)
      | (inr minima, t) => (choose_projection minima, t)
      end
  end.

(** ** The verdict on a projection *)

(** The phase is at an end of the window with motion left beyond it. *)
Definition phase_constrained (su : path_support) (phase residual : f64) : bool :=
  (fle phase (f64_add (su_low su) (f64_lit 1 10000000)) && flt residual (SFopp f64_1e_6))
  || (fge phase (f64_sub (su_high su) (f64_lit 1 10000000)) && fgt residual f64_1e_6).

(** From the constant-velocity prediction on; the errors are known. *)
Definition assess_prediction (q : tracking_query) (su : path_support) (phase : f64) (projected_stamp : Z)
    (path_error cross_track vertical raw outer reference_speed : f64) (tangent : vec3)
    (t : search_trace) : PathRelativeTrackingResult :=
  let result status predicted_phase predicted_error progress count :=
    mkPathResult status projected_stamp phase predicted_phase path_error cross_track vertical
      predicted_error progress raw outer count in
  let tangential_speed := v_dot (tq_velocity q) tangent in
  if negb (isfinite tangential_speed) || flt tangential_speed fzero
  then result pt_kReverseMotion S754_nan S754_nan S754_nan (st_count t)
  else
    let progress := f64_div tangential_speed reference_speed in
    let horizon_s :=
      f64_add (f64_mul (f64_of_Z (tq_now_ns q - tq_source_stamp_ns q)) f64_1e_9)
              (tq_validation_interval_s q) in
    let predicted_phase := f64_add phase (f64_mul (f64_sub progress f64_1) horizon_s) in
    if negb (isfinite predicted_phase)
       || fgt (fabs predicted_phase) (f64_add (tq_phase_window_s q) (f64_lit 1 10000000))
    then result pt_kPhaseExceeded predicted_phase S754_nan progress (st_count t)
    else
      let future_offset_s := f64_add phase (f64_mul progress horizon_s) in
      let future_time := f64_add (su_source_time_s su) future_offset_s in
      if negb (isfinite future_offset_s) || flt future_time (su_main_begin_s su)
         || fge future_time (su_main_end_s su)
      then result pt_kUnavailableSupport predicted_phase S754_nan progress (st_count t)
      else
        match sample_offset q future_offset_s t with
        | (None, t) => result pt_kUnavailableSupport predicted_phase S754_nan progress (st_count t)
        | (Some future, t) =>
            let predicted_position := v_add (tq_position q) (v_scale horizon_s (tq_velocity q)) in
            let predicted_error := v_norm (v_sub predicted_position (p_position_world future)) in
            result (if negb (isfinite predicted_error) || fgt predicted_error (tq_contour_budget_m q)
                    then pt_kPredictionOutsideTube else pt_kAccepted)
              predicted_phase predicted_error progress (st_count t)
        end.

Definition assess_projection (q : tracking_query) (su : path_support) (phase : f64)
    (projected command_now : TrajectoryPoint) (projected_stamp : Z) (t : search_trace)
    : PathRelativeTrackingResult :=
  let early status :=
    mkPathResult status projected_stamp phase S754_nan S754_nan S754_nan S754_nan S754_nan S754_nan
      S754_nan S754_nan (st_count t) in
  let reference_speed := v_norm (p_velocity_world projected) in
  if negb (isfinite reference_speed) || flt reference_speed kStationarySpeedMps
  then early pt_kLowReferenceSpeed
  else
    let tangent := v_div (p_velocity_world projected) reference_speed in
    let error := v_sub (tq_position q) (p_position_world projected) in
    let residual := v_dot error tangent in
    if phase_constrained su phase residual then early pt_kPhaseExceeded
    else
      let path_error := v_norm error in
      let cross_track := v_norm (v_sub error (v_scale residual tangent)) in
      let vertical := fabs (vz error) in
      let raw := v_norm (v_sub (p_position_world command_now) (tq_position q)) in
      let measured status outer :=
        mkPathResult status projected_stamp phase S754_nan path_error cross_track vertical S754_nan
          S754_nan raw outer (st_count t) in
      if negb (isfinite path_error) || fgt path_error (tq_contour_budget_m q)
      then measured pt_kOutsidePathTube S754_nan
      else
        let outer :=
          f64_add (tq_base_outer_anchor_limit_m q)
            (f64_mul (tq_phase_window_s q)
               (fmax (fmax reference_speed (v_norm (p_velocity_world command_now)))
                     (v_norm (tq_velocity q)))) in
        if negb (isfinite raw) || negb (isfinite outer) || fgt raw outer
        then measured pt_kAbsoluteDivergence outer
        else
          assess_prediction q su phase projected_stamp path_error cross_track vertical raw outer
            reference_speed tangent t.

(** The samples at the projection and at the command clock. *)
Definition assess_phase (q : tracking_query) (su : path_support) (phase : f64) (t : search_trace)
    : PathRelativeTrackingResult :=
  let unavailable t :=
    mkPathResult pt_kUnavailableSupport 0 phase S754_nan S754_nan S754_nan S754_nan S754_nan S754_nan
      S754_nan S754_nan (st_count t) in
  match sample_offset q phase t with
  | (None, t) => unavailable t
  | (Some projected, t) =>
      match sample_offset q
              (f64_mul (f64_of_Z (tq_now_ns q - tq_source_stamp_ns q)) f64_1e_9) t with
      | (None, t) => unavailable t
      | (Some command_now, t) =>
          match stampAtOffset (tq_source_stamp_ns q) phase with
          | None => unavailable t
          | Some stamp => assess_projection q su phase projected command_now stamp t
          end
      end
  end.

Definition assessPathRelativeTracking (q : tracking_query)
    (state_fresh body_known_free path_clear : bool) : PathRelativeTrackingResult :=
  if query_invalid q state_fresh body_known_free path_clear then path_result pt_kInvalidInput 0
  else
    match path_support_of q with
    | None => path_result pt_kUnavailableSupport 0
    | Some su =>
        match project_on_path q su with
        | (inl status, t) => path_result status (st_count t)
        | (inr m, t) => assess_phase q su m.1 t
        end
    end.
End Tracking.

(** ** The experimental assessments *)

Record ExperimentalStoppedHoldResult : Type := mkStoppedHold {
  sh_support_valid : bool;
  sh_within_anchor_limit : bool;
  sh_accepted : bool;
  sh_suppression_used : bool
}.

Definition assessExperimentalStoppedHold (policy : TrackingExperimentPolicy)
    (endpoint_known_free execution_support_valid : bool) (anchor_error_m anchor_limit_m : f64)
    : ExperimentalStoppedHoldResult :=
  let support_valid :=
    endpoint_known_free && execution_support_valid && isfinite anchor_error_m
    && fge anchor_error_m fzero && isfinite anchor_limit_m && fge anchor_limit_m fzero in
  if negb support_valid then mkStoppedHold false false false false
  else
    let within := fle anchor_error_m anchor_limit_m in
    let accepted :=
      within || (tx_enabled policy && TrackingExperimentPolicy_valid policy
                 && tx_suppress_braking policy) in
    mkStoppedHold true within accepted (accepted && negb within).

Record ExperimentalTrackingResult : Type := mkExperimental {
  et_current : AdaptiveTrackingAssessment;
  et_predicted : AdaptiveTrackingAssessment;
  et_support_valid : bool;
  et_accepted : bool;
  et_suppression_used : bool
}.

Definition experimental_none : ExperimentalTrackingResult :=
  mkExperimental adaptive_default adaptive_default false false false.

Section Experimental.
Context `{EigenOps, LibmOps}.

Definition terminal_main (b : CandidateBundle) : bool :=
  b_terminal_stop b && (b_role b ==? kMain) && (b_kind b !=? kBackupOnly)
  && (b_kind b !=? kEmergencyBrake).

Definition experimental_refused (policy : TrackingExperimentPolicy) (b : CandidateBundle)
    (now_ns source_ns : Z) (interval_s : f64) (fresh body_known_free path_clear : bool) : bool :=
  negb (tx_enabled policy) || negb (TrackingExperimentPolicy_valid policy) || negb fresh
  || negb body_known_free || negb path_clear || negb (CandidateBundle_valid b)
  || (negb (terminal_main b) && b_terminal_stop b) || (b_role b !=? kMain)
  || (source_ns <=? 0) || (now_ns <? source_ns) || negb (isfinite interval_s)
  || fle interval_s fzero.

(** The forecast stamp and the interval it stands for, cut at a terminal end. *)
Definition forecast (b : CandidateBundle) (now_ns : Z) (interval_s : f64) : option (Z * f64) :=
  let future_ns :=
    f80_add (f80_of_Z now_ns) (f80_mul (f80_of_f64 interval_s) (f80_of_Z 1000000000)) in
  if fgt future_ns (f80_of_Z i64_max) then None
  else
    let future_sample_ns := i64_of_f future_ns in
    if terminal_main b && (b_declared_end_ns b <? future_sample_ns) then
      if (b_declared_end_ns b <=? now_ns) || (b_valid_until_ns b <? b_declared_end_ns b) then None
      else
        let effective := f64_mul (f64_of_Z (b_declared_end_ns b - now_ns)) f64_1e_9 in
        if negb (isfinite effective) || fle effective fzero then None
        else Some (b_declared_end_ns b, effective)
    else Some (future_sample_ns, interval_s).

Definition terminal_endpoint (b : CandidateBundle) (future_local_s : f64) (i : CandidateRoleInterval)
    : bool :=
  terminal_main b && fle (fabs (f64_sub future_local_s (end_time_s i))) f64_1e_9
  && fle (fabs (f64_sub (end_time_s i) (b_duration_s b))) f64_1e_9.

Definition same_main_interval (b : CandidateBundle) (source_local_s future_local_s : f64) : bool :=
  existsb (fun i =>
      (interval_role i ==? kMain) && fge source_local_s (begin_time_s i)
      && (flt future_local_s (end_time_s i) || terminal_endpoint b future_local_s i))
    (b_role_schedule b).

Definition main_sample (o : option TrajectoryPoint) : option TrajectoryPoint :=
  match o with Some p => if p_role p !=? kMain then None else Some p | None => None end.

Definition assessExperimentalTracking (policy : TrackingExperimentPolicy) (b : CandidateBundle)
    (position velocity : vec3) (now_ns source_ns : Z) (interval_s : f64)
    (fresh body_known_free path_clear : bool) : ExperimentalTrackingResult :=
  if experimental_refused policy b now_ns source_ns interval_s fresh body_known_free path_clear
  then experimental_none
  else
    match forecast b now_ns interval_s with
    | None => experimental_none
    | Some (future_sample_ns, effective_interval_s) =>
        match main_sample (sampleAtDeclaredStamp b source_ns), main_sample (sample b now_ns),
              main_sample (sample b future_sample_ns) with
        | Some source, Some _, Some future =>
            if negb (same_main_interval b (local_seconds source_ns b) (local_seconds future_sample_ns b))
            then experimental_none
            else
              let current :=
                assessAdaptiveTracking policy position velocity (p_position_world source)
                  (p_velocity_world source) in
              let horizon_s :=
                f64_add (f64_mul (f64_of_Z (now_ns - source_ns)) f64_1e_9) effective_interval_s in
              let predicted :=
                assessAdaptiveTracking policy (v_add position (v_scale horizon_s velocity)) velocity
                  (p_position_world future) (p_velocity_world future) in
              let support_valid := at_valid current && at_valid predicted in
              let accepted :=
                support_valid && experimentPermitsTracking policy current
                && experimentPermitsTracking policy predicted in
              mkExperimental current predicted support_valid accepted
                (accepted && tx_suppress_braking policy
                 && (negb (at_within_limits current) || negb (at_within_limits predicted)))
        | _, _, _ => experimental_none
        end
    end.
End Experimental.
