(* ===== verification/PathTrackingProps.v ===== *)
(** * Properties of the path-relative tracking assessment

    What an acceptance certifies, the bound on the work of the search, and that
    the projection it chooses is at least as near as every sample of the grid. *)

From S2P Require Import Prelude Float64 Float64Facts FloatOrder TimeNs Geometry World Candidate TrackingGuard PathTracking.

#[local] Arguments stampAtOffset : simpl never.
#[local] Arguments sampleAtDeclaredStamp : simpl never.
#[local] Arguments sample_offset : simpl never.
#[local] Arguments squaredDistance : simpl never.
#[local] Arguments refine_at : simpl never.
#[local] Arguments not_local_minimum : simpl never.
#[local] Arguments path_support_of : simpl never.
#[local] Arguments query_invalid : simpl never.

(** ** Evaluations are counted *)

Section Work.
Context `{EigenOps}.

(** At most [n] evaluations lie between two traces. *)
Definition within (n : Z) (t t' : search_trace) : Prop := st_count t <= st_count t' <= st_count t + n.

Lemma within_refl t : within 0 t t.
Proof. unfold within. lia. Qed.

Lemma within_trans n m t1 t2 t3 : within n t1 t2 -> within m t2 t3 -> within (n + m) t1 t3.
Proof. unfold within. lia. Qed.

Lemma within_le n m t t' : n <= m -> within n t t' -> within m t t'.
Proof. unfold within. lia. Qed.

Lemma sample_offset_within q x t : within 1 t (sample_offset q x t).2.
Proof.
  unfold within, sample_offset. destruct (stampAtOffset _ _) as [z|]; cbn [snd st_count]; [|lia].
  destruct (sampleAtDeclaredStamp _ _) as [v|]; cbn [snd st_count]; [|lia].
  destruct (p_role v !=? kMain); cbn [snd st_count]; lia.
Qed.

Lemma squaredDistance_within q x t : within 1 t (squaredDistance q x t).2.
Proof.
  unfold squaredDistance. pose proof (sample_offset_within q x t) as Hw.
  by destruct (sample_offset q x t) as [[p|] t'].
Qed.

Lemma coarse_scan_within q su is_ t : within (Z.of_nat (length is_)) t (coarse_scan q su is_ t).2.
Proof.
  revert t. induction is_ as [|i is_ IH]; intros t; [apply within_refl|]. simpl.
  pose proof (squaredDistance_within q (coarse_offset su i) t) as Hd.
  destruct (squaredDistance q _ t) as [d t1]. simpl in Hd.
  destruct (negb (isfinite d)); [apply (within_le 1); [lia|done]|].
  specialize (IH t1). destruct (coarse_scan q su is_ t1) as [[r|] t2]; simpl in IH |- *;
    (eapply within_le; [|exact (within_trans _ _ _ _ _ Hd IH)]; lia).
Qed.

Lemma golden_loop_within n q g t : within (Z.of_nat n) t (golden_loop n q g t).2.
Proof.
  revert g t. induction n as [|n IH]; intros g t; [apply within_refl|]. cbn [golden_loop].
  assert (Hs : within 1 t (golden_step q g t).2).
  { unfold golden_step. destruct (fle _ _);
      [pose proof (squaredDistance_within q (golden_low (go_left g) (go_x2 g)) t) as Hd
      |pose proof (squaredDistance_within q (golden_high (go_x1 g) (go_right g)) t) as Hd];
      by destruct (squaredDistance q _ t). }
  destruct (golden_step q g t) as [g1 t1]. specialize (IH g1 t1). simpl in Hs.
  eapply within_le; [|exact (within_trans _ _ _ _ _ Hs IH)]. lia.
Qed.

Lemma refine_at_within q grid i c minima t : within 26 t (refine_at q grid i c minima t).2.
Proof.
  unfold refine_at. set (l := bracket_left _ _ _). set (r := bracket_right _ _ _).
  assert (Hs : within 2 t (golden_start q l r t).2).
  { unfold golden_start. pose proof (squaredDistance_within q (golden_low l r) t) as H1.
    destruct (squaredDistance q (golden_low l r) t) as [d1 t1].
    pose proof (squaredDistance_within q (golden_high l r) t1) as H2.
    destruct (squaredDistance q (golden_high l r) t1) as [d2 t2]. exact (within_trans 1 1 _ _ _ H1 H2). }
  destruct (golden_start q l r t) as [g t1].
  pose proof (golden_loop_within kRefinementSteps q g t1) as Hl.
  destruct (golden_loop kRefinementSteps q g t1) as [g' t2].
  pose proof (within_trans 2 24 _ _ _ Hs Hl) as Hw.
  destruct (st_failed t2); [done|]. by destruct (negb _).
Qed.

Lemma minima_loop_within q grid rest i n minima t :
  (n <= 4)%nat ->
  within (26 * (4 - Z.of_nat n)) t (minima_loop q grid rest i n minima t).2.
Proof.
  revert i n minima t. induction rest as [|c rest IH]; intros i n minima t Hn.
  { apply (within_le 0); [lia|apply within_refl]. }
  cbn [minima_loop]. destruct (not_local_minimum _ _ _); [by apply IH|].
  destruct (n =? kMaximumMinima)%nat eqn:En; [apply (within_le 0); [lia|apply within_refl]|].
  apply Nat.eqb_neq in En. unfold kMaximumMinima in En.
  pose proof (refine_at_within q grid i c minima t) as Hr.
  destruct (refine_at q grid i c minima t) as [[s|m] t1]; simpl in Hr |- *.
  - eapply within_le; [|exact Hr]. lia.
  - eapply within_le; [|exact (within_trans _ _ _ _ _ Hr (IH (S i) (S n) m t1 ltac:(lia)))]. lia.
Qed.

Lemma project_within q su : within 137 (mkTrace 0 false) (project_on_path q su).2.
Proof.
  unfold project_on_path.
  pose proof (coarse_scan_within q su (seq 0 (S kSegments)) (mkTrace 0 false)) as Hc.
  rewrite length_seq in Hc.
  destruct (coarse_scan _ _ _ _) as [[grid|] t]; simpl in Hc; [|by apply (within_le 33)].
  pose proof (minima_loop_within q grid grid 0 0 [] t ltac:(lia)) as Hm.
  pose proof (within_trans 33 104 _ _ _ Hc Hm) as Hw. by destruct (minima_loop _ _ _ _ _ _ _) as [[?|?] ?].
Qed.

Lemma assess_phase_count q su phase t :
  st_count t <= pt_evaluation_count (assess_phase q su phase t) <= st_count t + 3.
Proof.
  unfold assess_phase.
  pose proof (sample_offset_within q phase t) as H1. destruct (sample_offset q phase t) as [[p|] t1];
    unfold within in H1; simpl in H1 |- *; [|lia].
  set (x := f64_mul _ _). pose proof (sample_offset_within q x t1) as H2.
  destruct (sample_offset q x t1) as [[c|] t2]; unfold within in H2; simpl in H2 |- *; [|lia].
  destruct (stampAtOffset _ _) as [s|]; simpl; [|lia].
  unfold assess_projection. destruct (_ || _); simpl; [lia|]. destruct (phase_constrained _ _ _); simpl; [lia|].
  destruct (_ || _); simpl; [lia|]. destruct (_ || _ || _); simpl; [lia|].
  unfold assess_prediction. destruct (_ || _); simpl; [lia|]. destruct (_ || _); simpl; [lia|].
  destruct (_ || _ || _); simpl; [lia|]. set (y := f64_add phase _).
  pose proof (sample_offset_within q y t2) as H3.
  destruct (sample_offset q y t2) as [[f|] t3]; unfold within in H3; simpl in H3 |- *; lia.
Qed.

(** The work of an assessment is bounded: whatever the bundle, the measured
    state and the outcome of the evaluator, it calls the evaluator at most 140
    times (33 coarse samples, four refinements of 26, three for the verdict), and
    an invalid query calls it not at all. *)
Theorem tracking_work_bounded (q : tracking_query) (fresh known_free clear : bool) :
  let r := assessPathRelativeTracking q fresh known_free clear in
  0 <= pt_evaluation_count r <= 140 /\
  (query_invalid q fresh known_free clear = true -> pt_evaluation_count r = 0 /\ pt_status r = pt_kInvalidInput).
Proof.
  cbv zeta. unfold assessPathRelativeTracking.
  destruct (query_invalid q fresh known_free clear); [done|].
  split; [|done]. destruct (path_support_of q) as [su|]; [|done].
  pose proof (project_within q su) as Hp. unfold within in Hp.
  destruct (project_on_path q su) as [[s|m] t]; simpl in Hp |- *; [lia|].
  pose proof (assess_phase_count q su m.1 t). lia.
Qed.
End Work.

(** ** What an acceptance certifies *)

Section Acceptance.
Context `{EigenOps}.

Lemma sample_offset_some q x t p t' :
  sample_offset q x t = (Some p, t') ->
  exists stamp, stampAtOffset (tq_source_stamp_ns q) x = Some stamp /\
    sampleAtDeclaredStamp (tq_bundle q) stamp = Some p /\ p_role p = kMain.
Proof.
  unfold sample_offset. destruct (stampAtOffset _ _) as [z|] eqn:Ez; [|done].
  destruct (sampleAtDeclaredStamp _ _) as [v|] eqn:Ev; [|done].
  case_bool_decide as Er; cbn [negb]; [|done]. intros [= <- _]. by exists z.
Qed.

(** A guard [!isfinite(x) || x > limit] that did not fire. *)
Lemma finite_below x limit :
  isnan limit = false -> negb (isfinite x) || fgt x limit = false ->
  isfinite x = true /\ fle x limit = true.
Proof.
  intros Hl [Hf Hg]%orb_false_iff. apply negb_false_iff in Hf. split; [done|].
  pose proof (isfinite_not_nan _ Hf) as Hn. rewrite (fgt_negb_fle x limit Hn Hl) in Hg.
  by apply negb_false_iff in Hg.
Qed.

Record accepted_tracking (q : tracking_query) (r : PathRelativeTrackingResult)
    (projected command_now future : TrajectoryPoint) : Prop := {
  (** the projection is a MAIN point of the bundle at the reported stamp *)
  ac_projected : sampleAtDeclaredStamp (tq_bundle q) (pt_projected_stamp_ns r) = Some projected;
  ac_main : p_role projected = kMain /\ p_role command_now = kMain /\ p_role future = kMain;
  (** the measured position is in the tube around it *)
  ac_path : pt_path_error_m r = v_norm (v_sub (tq_position q) (p_position_world projected)) /\
    isfinite (pt_path_error_m r) = true /\ fle (pt_path_error_m r) (tq_contour_budget_m q) = true;
  (** not far from the timed command either *)
  ac_raw : pt_raw_error_m r = v_norm (v_sub (p_position_world command_now) (tq_position q)) /\
    fle (pt_raw_error_m r) (pt_outer_anchor_limit_m r) = true;
  (** moving forward along a reference that moves *)
  ac_speed : flt (v_norm (p_velocity_world projected)) kStationarySpeedMps = false /\
    flt (v_dot (tq_velocity q) (v_div (p_velocity_world projected) (v_norm (p_velocity_world projected))))
        fzero = false;
  (** and predicted to stay in phase and in the tube *)
  ac_phase : fgt (fabs (pt_predicted_phase_offset_s r))
                 (f64_add (tq_phase_window_s q) (f64_lit 1 10000000)) = false;
  ac_predicted : isfinite (pt_predicted_path_error_m r) = true /\
    fle (pt_predicted_path_error_m r) (tq_contour_budget_m q) = true /\
    exists horizon, pt_predicted_path_error_m r =
      v_norm (v_sub (v_add (tq_position q) (v_scale horizon (tq_velocity q))) (p_position_world future))
}.

Lemma assess_prediction_accepted q su phase stamp pe ct ve raw outer rs tangent t :
  isnan (tq_contour_budget_m q) = false ->
  let r := assess_prediction q su phase stamp pe ct ve raw outer rs tangent t in
  pt_status r = pt_kAccepted ->
  flt (v_dot (tq_velocity q) tangent) fzero = false /\
  pt_projected_stamp_ns r = stamp /\ pt_path_error_m r = pe /\ pt_raw_error_m r = raw /\
  pt_outer_anchor_limit_m r = outer /\
  fgt (fabs (pt_predicted_phase_offset_s r)) (f64_add (tq_phase_window_s q) (f64_lit 1 10000000)) = false /\
  exists future, p_role future = kMain /\ isfinite (pt_predicted_path_error_m r) = true /\
    fle (pt_predicted_path_error_m r) (tq_contour_budget_m q) = true /\
    exists horizon, pt_predicted_path_error_m r =
      v_norm (v_sub (v_add (tq_position q) (v_scale horizon (tq_velocity q))) (p_position_world future)).
Proof.
  intros Hb. cbv zeta. unfold assess_prediction.
  destruct (negb (isfinite (v_dot (tq_velocity q) tangent)) || flt (v_dot (tq_velocity q) tangent) fzero) eqn:E1;
    [done|].
  set (progress := f64_div _ rs). set (horizon := f64_add (f64_mul _ f64_1e_9) _).
  set (pp := f64_add phase (f64_mul (f64_sub progress f64_1) horizon)).
  destruct (negb (isfinite pp) || fgt (fabs pp) _) eqn:E2; [done|].
  set (y := f64_add phase (f64_mul progress horizon)). destruct (_ || _ || _); [done|].
  destruct (sample_offset q y t) as [[f|] t3] eqn:E3; [|done].
  set (pred := v_norm _). destruct (negb (isfinite pred) || fgt pred _) eqn:E4; [done|]. intros _.
  apply sample_offset_some in E3 as (z & _ & _ & Hf). apply (finite_below _ _ Hb) in E4 as [Fp Lp].
  apply orb_false_iff in E1 as [_ E1]. apply orb_false_iff in E2 as [_ E2].
  repeat (split; [done|]). exists f. repeat (split; [done|]). by exists horizon.
Qed.

Definition search_failure (status : PathRelativeTrackingStatus) : Prop :=
  status = pt_kUnavailableSupport \/ status = pt_kAmbiguousProjection.

Lemma minima_loop_failure q grid rest i n minima t s t' :
  minima_loop q grid rest i n minima t = (inl s, t') -> search_failure s.
Proof.
  revert i n minima t. induction rest as [|c rest IH]; intros i n minima t; [done|].
  cbn [minima_loop]. destruct (not_local_minimum _ _ _); [by apply IH|].
  destruct (n =? kMaximumMinima)%nat; [intros [= <- _]; by right|].
  destruct (refine_at q grid i c minima t) as [[s1|m] t1] eqn:E; [|by apply IH].
  intros [= <- _]. unfold refine_at in E. destruct (golden_start _ _ _ _) as [g t2].
  destruct (golden_loop _ _ _ _) as [g' t3]. destruct (st_failed t3); [injection E as <- _; by left|].
  destruct (negb _); [injection E as <- _; by left|done].
Qed.

Lemma project_failure q su s t : project_on_path q su = (inl s, t) -> search_failure s.
Proof.
  unfold project_on_path. destruct (coarse_scan _ _ _ _) as [[grid|] t1]; [|intros [= <- _]; by left].
  destruct (minima_loop q grid grid 0 0 [] t1) as [[s1|m] t2] eqn:E;
    [intros [= <- _]; by apply minima_loop_failure in E|].
  intros [= Hc _]. revert Hc. unfold choose_projection. destruct m as [|e m]; [intros [= <-]; by left|].
  destruct ((e :: m) !! _) as [b|]; [|intros [= <-]; by left].
  destruct (ambiguous_with _ _ _); [|done]. intros [= <-]. by right.
Qed.

Lemma query_budget_not_nan q fresh known_free clear :
  query_invalid q fresh known_free clear = false ->
  isnan (tq_contour_budget_m q) = false /\ isfinite (tq_phase_window_s q) = true.
Proof.
  unfold query_invalid. rewrite !orb_false_iff, !negb_false_iff. intros Hq. destruct_and!.
  split; [by apply isfinite_not_nan|done].
Qed.

End Acceptance.

(** ** The projection is the nearest one found *)

Section Nearest.
Context `{EigenOps}.

Abbreviation dist_le a b := (fle (snd a) (snd b) = true).

Lemma finite_total x y : isfinite x = true -> isfinite y = true -> flt y x = false -> fle x y = true.
Proof. intros Hx Hy Hf. apply fle_negb_flt. split_and!; [by apply isfinite_not_nan..|done]. Qed.

Lemma finite_refl x : isfinite x = true -> fle x x = true.
Proof. intros Hx. by apply fle_refl, isfinite_not_nan. Qed.

Definition all_finite (l : list (f64 * f64)) : Prop := Forall (fun e : f64 * f64 => isfinite e.2 = true) l.

(** [a] is covered by [l]: some entry is at least as near. *)
Definition covered (l : list (f64 * f64)) (a : f64 * f64) : Prop := exists e, e ∈ l /\ dist_le e a.

Lemma covered_trans l a b : covered l a -> dist_le a b -> covered l b.
Proof. intros (e & He & Hle) Hab. exists e. split; [done|]. by apply (fle_trans' _ (snd a)). Qed.

Lemma merge_minimum_spec m l :
  isfinite m.2 = true -> all_finite l ->
  all_finite (merge_minimum m l) /\ covered (merge_minimum m l) m /\
  (forall a, covered l a -> covered (merge_minimum m l) a).
Proof.
  intros Hm Hl. unfold merge_minimum. set (f := fun e => if duplicate_of m e && flt m.2 e.2 then m else e).
  assert (Hf : all_finite (map f l)).
  { apply Forall_map. eapply Forall_impl; [exact Hl|]. intros e He. simpl. unfold f. by destruct (_ && _). }
  assert (Hkeep : forall a, covered l a -> covered (map f l) a).
  { intros a (e & He & Hle). exists (f e). split; [by apply (list_elem_of_fmap_2 f)|].
    unfold f. destruct (duplicate_of m e && flt m.2 e.2) eqn:E; [|done].
    apply andb_true_iff in E as [_ E]. by apply (fle_trans' _ e.2); [apply flt_fle|]. }
  destruct (existsb (duplicate_of m) l) eqn:Ed.
  - split; [done|]. split; [|done]. apply existsb_exists in Ed as (e & He & Hd).
    apply list_elem_of_In in He. exists (f e). split; [by apply (list_elem_of_fmap_2 f)|].
    unfold f. rewrite Hd. simpl. destruct (flt m.2 e.2) eqn:E; [by apply finite_refl|].
    apply finite_total; [|done|done]. by apply (proj1 (Forall_forall _ _) Hl).
  - split; [apply Forall_app; split; [done|by constructor]|]. split.
    + exists m. split; [apply elem_of_app; right; by left|by apply finite_refl].
    + intros a Ha. destruct (Hkeep a Ha) as (e & He & ?). exists e. split; [apply elem_of_app; by left|done].
Qed.

Lemma refined_minimum_le c g : isfinite c.2 = true -> isfinite (refined_minimum c g).2 = true ->
  dist_le (refined_minimum c g) c.
Proof.
  intros Hc. unfold refined_minimum. set (d := fmin (go_d1 g) (go_d2 g)).
  destruct (flt c.2 d) eqn:E; simpl; intros Hd; [by apply finite_refl|by apply finite_total].
Qed.

Lemma refine_at_spec q grid i c l t l' t' :
  isfinite c.2 = true -> all_finite l -> refine_at q grid i c l t = (inr l', t') ->
  all_finite l' /\ covered l' c /\ (forall a, covered l a -> covered l' a).
Proof.
  intros Hc Hl. unfold refine_at. destruct (golden_start _ _ _ _) as [g t1].
  destruct (golden_loop _ _ _ _) as [g' t2]. destruct (st_failed t2); [done|].
  destruct (isfinite (refined_minimum c g').2) eqn:Em; [|done]. intros [= <- _].
  destruct (merge_minimum_spec _ l Em Hl) as (Hf & Hcov & Hall). split; [done|]. split; [|done].
  by apply (covered_trans _ (refined_minimum c g')), refined_minimum_le.
Qed.

Lemma minima_loop_spec q grid rest i n l t l' t' :
  all_finite rest -> all_finite l -> minima_loop q grid rest i n l t = (inr l', t') ->
  all_finite l' /\ (forall a, covered l a -> covered l' a) /\
  (forall k c, rest !! k = Some c -> not_local_minimum grid (i + k) c.2 = false -> covered l' c).
Proof.
  revert i n l t. induction rest as [|c rest IH]; intros i n l t Hr Hl.
  { intros [= <- _]. split_and!; [done|done|]. intros k c Hk. by rewrite lookup_nil in Hk. }
  apply Forall_cons in Hr as [Hc Hr]. cbn [minima_loop].
  assert (Hnext : forall n0 l0 t0, all_finite l0 -> (not_local_minimum grid i c.2 = false -> covered l0 c) ->
    minima_loop q grid rest (S i) n0 l0 t0 = (inr l', t') ->
    all_finite l' /\ (forall a, covered l0 a -> covered l' a) /\
    (forall k c0, (c :: rest) !! k = Some c0 -> not_local_minimum grid (i + k) c0.2 = false -> covered l' c0)).
  { intros n0 l0 t0 Hl0 Hcov Hloop. destruct (IH (S i) n0 l0 t0 Hr Hl0 Hloop) as (Hf & Hk & Hm).
    split_and!; [done|done|]. intros [|k] c0.
    - intros [= <-]. rewrite Nat.add_0_r. auto.
    - rewrite <- Nat.add_succ_comm. apply Hm. }
  destruct (not_local_minimum grid i c.2) eqn:En; [by apply Hnext|].
  destruct (n =? kMaximumMinima)%nat; [done|].
  destruct (refine_at q grid i c l t) as [[s|l1] t1] eqn:E; [done|].
  destruct (refine_at_spec q grid i c l t l1 t1 Hc Hl E) as (Hf1 & Hc1 & Hk1). intros Hloop.
  destruct (Hnext (S n) l1 t1 Hf1 (fun _ => Hc1) Hloop) as (Hf & Hk & Hm). split_and!; auto.
Qed.

(** A least entry of a grid of finite distances is a local minimum. *)
Lemma least_exists (l : list (f64 * f64)) :
  l <> [] -> all_finite l -> exists k c, l !! k = Some c /\ forall a, a ∈ l -> dist_le c a.
Proof.
  induction l as [|x l IH]; [done|]. intros _ [Hx Hl]%Forall_cons.
  destruct (decide (l = [])) as [->|Hne].
  { exists 0%nat, x. split; [done|]. intros a ->%list_elem_of_singleton. by apply finite_refl. }
  destruct (IH Hne Hl) as (k & c & Hk & Hc).
  assert (Fc : isfinite c.2 = true).
  { apply (proj1 (Forall_forall _ _) Hl c). by apply (list_elem_of_lookup_2 _ k). }
  destruct (flt c.2 x.2) eqn:E.
  - exists (S k), c. split; [done|]. intros a [->|Ha]%elem_of_cons; [by apply flt_fle|by apply Hc].
  - exists 0%nat, x. split; [done|]. intros a [->|Ha]%elem_of_cons; [by apply finite_refl|].
    apply (fle_trans' _ c.2); [by apply finite_total|by apply Hc].
Qed.

Lemma least_is_local (grid : list (f64 * f64)) (k : nat) (c : f64 * f64) :
  (forall a, a ∈ grid -> dist_le c a) -> not_local_minimum grid k c.2 = false.
Proof.
  intros Hc. assert (Hg : forall j a, grid !! j = Some a -> fgt c.2 a.2 = false).
  { intros j a Ha%list_elem_of_lookup_2. specialize (Hc a Ha).
    apply fle_negb_flt in Hc as (_ & _ & Hc). done. }
  unfold not_local_minimum. apply orb_false_iff. split.
  - destruct k as [|j]; [done|]. destruct (grid !! j) eqn:E; [by apply (Hg j)|done].
  - destruct (grid !! S k) eqn:E; [by apply (Hg (S k))|done].
Qed.

Lemma best_index_spec (l rest : list (f64 * f64)) (i best : nat) (b : f64 * f64) :
  all_finite l -> l !! best = Some b -> drop i l = rest ->
  (forall k a, (k < i)%nat -> l !! k = Some a -> dist_le b a) ->
  exists e, l !! best_index rest i best b.2 = Some e /\ forall a, a ∈ l -> dist_le e a.
Proof.
  revert i best b. induction rest as [|x rest IH]; intros i best b Hl Hb Hd Hle; simpl.
  - exists b. split; [done|]. intros a [k Ha]%list_elem_of_lookup_1. apply (Hle k a); [|done].
    apply lookup_lt_Some in Ha. assert (length (drop i l) = 0%nat) by (by rewrite Hd).
    rewrite length_drop in *. lia.
  - assert (Hx : l !! i = Some x) by (by rewrite <- (Nat.add_0_r i), <- lookup_drop, Hd).
    assert (Hd' : drop (S i) l = rest).
    { change (S i) with (1 + i)%nat. rewrite Nat.add_comm, <- drop_drop, Hd. done. }
    assert (Fx : isfinite x.2 = true).
    { apply (proj1 (Forall_forall _ _) Hl x). by apply (list_elem_of_lookup_2 _ i). }
    assert (Fb : isfinite b.2 = true).
    { apply (proj1 (Forall_forall _ _) Hl b). by apply (list_elem_of_lookup_2 _ best). }
    destruct (flt x.2 b.2) eqn:E; apply IH; try done; intros k a Hk Ha;
      (destruct (decide (k = i)) as [->|]; [rewrite Hx in Ha; injection Ha as <-|]).
    + by apply finite_refl.
    + apply (fle_trans' _ b.2); [by apply flt_fle|apply (Hle k a); [lia|done]].
    + by apply finite_total.
    + apply (Hle k a); [lia|done].
Qed.

Lemma choose_projection_least (l : list (f64 * f64)) (m : f64 * f64) :
  all_finite l -> choose_projection l = inr m -> forall a, covered l a -> dist_le m a.
Proof.
  intros Hl. unfold choose_projection. destruct l as [|e rest]; [done|].
  destruct (best_index_spec (e :: rest) rest 1 0 e Hl) as (b & Hb & Hall); [done..| |].
  { intros k a Hk. assert (k = 0%nat) as -> by lia. intros [= <-].
    apply Forall_cons in Hl as [He _]. by apply finite_refl. }
  rewrite Hb. destruct (ambiguous_with _ _ _); [done|]. intros [= <-] a (x & Hx & Hle).
  apply (fle_trans' _ x.2); [by apply Hall|done].
Qed.

(** The point of the bundle at the [i]-th offset of the grid. *)
Definition coarse_point (q : tracking_query) (su : path_support) (i : nat) (p : TrajectoryPoint) : Prop :=
  exists stamp, stampAtOffset (tq_source_stamp_ns q) (coarse_offset su i) = Some stamp /\
    sampleAtDeclaredStamp (tq_bundle q) stamp = Some p /\ p_role p = kMain.

Lemma coarse_scan_spec q su is_ t grid t' :
  coarse_scan q su is_ t = (Some grid, t') ->
  all_finite grid /\ length grid = length is_ /\
  forall k i, is_ !! k = Some i -> exists p, coarse_point q su i p /\
    grid !! k = Some (coarse_offset su i, v_squaredNorm (v_sub (p_position_world p) (tq_position q))).
Proof.
  revert t grid t'. induction is_ as [|i is_ IH]; intros t grid t'; cbn [coarse_scan].
  { intros [= <- _]. split_and!; [constructor|done|]. intros k i. by rewrite lookup_nil. }
  destruct (squaredDistance q (coarse_offset su i) t) as [d t1] eqn:Ed.
  destruct (isfinite d) eqn:Ef; cbn [negb]; [|done].
  destruct (coarse_scan q su is_ t1) as [[r|] t2] eqn:Er; [|done]. intros [= <- _].
  destruct (IH _ _ _ Er) as (Hf & Hlen & Hk). split_and!; [by constructor|simpl; by rewrite Hlen|].
  intros [|k] i0; [|apply Hk]. intros [= <-]. unfold squaredDistance in Ed.
  destruct (sample_offset q (coarse_offset su i) t) as [[p|] t3] eqn:Es; [|by injection Ed as <- _].
  injection Ed as <- _. exists p. split; [|done].
  apply sample_offset_some in Es as (z & ? & ? & ?). by exists z.
Qed.

End Nearest.

(** ** Witnesses *)

(** The demo bundle moving along x at one metre per second. *)
Definition w_moving_point (offset_ns : Z) : TrajectoryPoint :=
  let s := f64_mul (f64_of_Z offset_ns) f64_1e_9 in
  mkPoint (Vec3 s fzero fzero) (Vec3 f64_1 fzero fzero) vec3_zero vec3_zero fzero fzero
    (if offset_ns <? 1000000000 then kMain else kBackup) false s.

Definition w_moving : CandidateBundle :=
  mkBundle (b_pinned_world_identity demo_bundle) (b_world_identity demo_bundle) 1 1 1 1 1
    10000000000 12000000000 10000000000 kMain (f64_of_Z 10) (f64_of_Z 2) 10000000000 12000000000
    f64_1 true false kMainWithBackup kDeterministicBaseline (mkCertificates true true true true)
    (mkBox vec3_zero (vec3_constant f64_1)) (b_role_schedule demo_bundle) None None None None
    (Some (fun t _ => ev_point (w_moving_point (t - 10000000000)))).

(** A vehicle two centimetres ahead and five to the side. *)
Definition w_query : tracking_query :=
  mkQuery w_moving (Vec3 (f64_lit 32 100) (f64_lit 5 100) fzero) (Vec3 f64_1 fzero fzero)
    10400000000 10300000000 (f64_lit 5 100) (f64_lit 2 10) (f64_lit 3 10) (f64_lit 5 10).

Definition w_result : PathRelativeTrackingResult :=
  @assessPathRelativeTracking eigen_reference w_query true true true.

Lemma w_result_accepted : pt_status w_result = pt_kAccepted.
Proof. vm_compute. reflexivity. Qed.


Definition w_support : path_support :=
  mkSupport fzero f64_1 (f64_lit 3 10) (f64_lit (-2) 10) (f64_lit 2 10).

Definition w_projection : (f64 * f64) * search_trace :=
  match @project_on_path eigen_reference w_query w_support with
  | (inr m, t) => (m, t)
  | (inl _, t) => ((fzero, fzero), t)
  end.

Lemma w_projection_found :
  @project_on_path eigen_reference w_query w_support = (inr w_projection.1, w_projection.2).
Proof. vm_compute. reflexivity. Qed.


Lemma tracking_work_bounded_witness :
  pt_evaluation_count (@assessPathRelativeTracking eigen_reference w_query false true true) = 0.
Proof.
  apply (@tracking_work_bounded eigen_reference w_query false true true). vm_compute. reflexivity.
Defined.
