(* ===== verification/RecordUpdate.v ===== *)
(** * Updating one member of a record

    The larger classes of the program are records of twenty and more members,
    and most operations assign one or two of them.  A record declares its
    expansion [eta], the list of its members rebuilt into the record; from it a
    type-class tactic derives the setter of any member, written
    [s <| member := value |>] and [s <| member ::= function |>]. *)

From S2P Require Import Prelude.

(** The record rebuilt from its members. *)
Class Eta (R : Type) : Type := eta : R -> R.

Class Setter {R T : Type} (member : R -> T) : Type := set_member : (T -> T) -> R -> R.
Arguments set_member {R T} member {_} _ _.

(** The expansion with the chosen member replaced by its image. *)
Ltac derive_setter R member :=
  let expansion := constr:(ltac:(let i := constr:(_ : Eta R) in let i := eval hnf in i in exact i) : R -> R) in
  let expansion := eval cbv beta in expansion in
  exact (fun f r =>
           ltac:(let body := eval cbv beta in (expansion r) in
                 lazymatch (eval pattern (member r) in body) with
                 | ?rebuild _ => let rebuilt := eval cbv beta in (rebuild (f (member r))) in exact rebuilt
                 end)).

#[export] Hint Extern 1 (@Setter ?R _ ?member) => derive_setter R member : typeclass_instances.

Declare Scope record_scope.
Notation "r <| member := v |>" := (set_member member (fun _ => v) r)
  (at level 1, member at level 1, left associativity, format "r  <| member  :=  v |>") : record_scope.
Notation "r <| member ::= f |>" := (set_member member f r)
  (at level 1, member at level 1, left associativity, format "r  <| member  ::=  f |>") : record_scope.
Open Scope record_scope.

Arguments set_member {R T} member {_} _ _ /.
