(* ===== verification/LioState.v ===== *)
(** * Poses, the nominal state and the scan of the estimation core

    [estimation/fast_lio_core]: [geometry/] (frame identifiers, rigid transforms,
    pose interpolation), [estimation/manifold_state], [estimation/imu_trajectory],
    [estimation/state_estimate.hpp], [deskew/] and [preprocessing/].  The
    operations of Eigen that only this part uses are the class [LioEigen].  A
    constructor that throws [std::invalid_argument] is [None]. *)

From Stdlib Require Import Floats.SpecFloat.
From stdpp Require Import gmap.
From S2P Require Import Prelude Ordered RecordUpdate Float64 Geometry WorldGrid CommandContract TrackingGuard OdometryFrames LioTime Measurement Candidate.

Class LioEigen : Type := {
  (** [a * b] on quaternions *)
  q_mul : quat -> quat -> quat;
  (** [m.cast<float>() * p] and [a + b] on [Vector3f] *)
  m_cast_mulv : mat3 -> vec3f -> vec3f;
  v3f_add : vec3f -> vec3f -> vec3f;
  (** [v.cwiseAbs().maxCoeff()] *)
  v_absMaxCoeff : vec3 -> f64;
  (** [(v.array() < s).any()] and [(v.array() >= s).any()] *)
  v_any_lt : vec3 -> f64 -> bool;
  v_any_ge : vec3 -> f64 -> bool
}.

(** [v.cast<double>()] *)
Definition vec3_of_vec3f (v : vec3f) : vec3 :=
  Vec3 (f64_of_f32 (fx v)) (f64_of_f32 (fy v)) (f64_of_f32 (fz v)).

(** [q.conjugate()] and [-v] *)
Definition q_conjugate (q : quat) : quat := Quat (fopp (qx q)) (fopp (qy q)) (fopp (qz q)) (qw q).
Definition v_neg (v : vec3) : vec3 := Vec3 (fopp (vx v)) (fopp (vy v)) (fopp (vz v)).

(** [1e-24] and [1e-18] *)
Definition f64_1e_24 : f64 := S754_finite false 5444517870735015 (-132).
Definition f64_1e_18 : f64 := S754_finite false 5192296858534828 (-112).

(** ** Frames and rigid transforms *)

Definition FrameId : Type := string.
Definition lioOdomFrame : FrameId := "lio_odom".
Definition baseFrame : FrameId := "base_link".
Definition imuFrame : FrameId := "livox_imu_frame".
Definition lidarFrame : FrameId := "livox_frame".
Definition frame_empty (f : FrameId) : bool := f ==? "".

Record RigidTransform : Type := mkTransform {
  rt_target_frame : FrameId;
  rt_source_frame : FrameId;
  rt_rotation : quat;
  rt_translation : vec3
}.

Section Transform.
Context {E : EigenOps} {EM : EigenMatOps} {EP : EigenPoseOps} {EF : EigenFloatOps} {EL : LioEigen}.

Definition validateTransform (target source : FrameId) (q : quat) (t : vec3) : StatusCode :=
  if frame_empty target || frame_empty source then kInvalidArgument
  else if negb (q_allFinite q) || negb (v_allFinite t) then kInvalidArgument
  else if negb (isfinite (q_squaredNorm q)) || fle (q_squaredNorm q) f64_1e_24 then kInvalidArgument
  else kOk.

(** The constructor, which throws on an invalid argument. *)
Definition RigidTransform_new (target source : FrameId) (q : quat) (t : vec3)
    : option RigidTransform :=
  if status_ok (validateTransform target source q t)
  then Some (mkTransform target source (q_normalized q) t)
  else None.

(** [RigidTransform::Create]; the constructor repeats the validation. *)
Definition RigidTransform_Create (target source : FrameId) (q : quat) (t : vec3)
    : Result RigidTransform :=
  let status := validateTransform target source q t in
  if negb (status_ok status) then Error status
  else Value (mkTransform target source (q_normalized q) t).

(** [RigidTransform::allFinite] *)
Definition rt_allFinite (T : RigidTransform) : bool :=
  q_allFinite (rt_rotation T) && isfinite (q_squaredNorm (rt_rotation T))
  && fgt (q_squaredNorm (rt_rotation T)) f64_1e_24 && v_allFinite (rt_translation T).

(** [RigidTransform::apply] at [float]: the coefficients are cast first. *)
Definition rt_apply_f (T : RigidTransform) (p : vec3f) : vec3f :=
  v3f_add (m_cast_mulv (q_toRotationMatrix (rt_rotation T)) p) (vec3f_of_vec3 (rt_translation T)).

(** [RigidTransform::inverse] *)
Definition rt_inverse (T : RigidTransform) : Result RigidTransform :=
  let q := q_conjugate (rt_rotation T) in
  let t := v_neg (q_rotate q (rt_translation T)) in
  if negb (q_allFinite q) || negb (v_allFinite t) then Error kNumericalFailure
  else RigidTransform_Create (rt_source_frame T) (rt_target_frame T) q t.

(** [RigidTransform::compose] *)
Definition rt_compose (T rhs : RigidTransform) : Result RigidTransform :=
  if rt_source_frame T !=? rt_target_frame rhs then Error kFrameMismatch
  else
    let q := q_mul (rt_rotation T) (rt_rotation rhs) in
    let t := v_add (q_rotate (rt_rotation T) (rt_translation rhs)) (rt_translation T) in
    if negb (q_allFinite q) || negb (v_allFinite t) then Error kNumericalFailure
    else RigidTransform_Create (rt_target_frame T) (rt_source_frame rhs) q t.

(** [transformPoints] *)
Definition transformPoints (T : RigidTransform) (points : list vec3f) : list vec3f :=
  map (rt_apply_f T) points.

(** ** Interpolation *)

(** [(1.0 - alpha) * a + alpha * b] *)
Definition v_mix (alpha : f64) (a b : vec3) : vec3 :=
  v_add (v_scale (f64_sub f64_1 alpha) a) (v_scale alpha b).

(** The ratio of two integer durations, in [double]. *)
Definition duration_ratio (numerator denominator : Duration) : f64 :=
  f64_div (f64_of_Z (dur_ns numerator)) (f64_of_Z (dur_ns denominator)).

Definition ratio_invalid (alpha : f64) : bool :=
  negb (isfinite alpha) || flt alpha fzero || fgt alpha f64_1.

Record PoseStamped : Type := mkPoseStamped { po_time : Timestamp; po_pose : RigidTransform }.

(** [PoseInterpolator::interpolate]; the last constructor may throw. *)
Definition pose_interpolate (lower upper : PoseStamped) (query : Timestamp)
    : option (Result RigidTransform) :=
  let lp := po_pose lower in let up := po_pose upper in
  if (rt_target_frame lp !=? rt_target_frame up) || (rt_source_frame lp !=? rt_source_frame up)
  then Some (Error kFrameMismatch)
  else if negb (sameClockDomain (po_time lower) (po_time upper))
          || negb (sameClockDomain (po_time lower) query)
  then Some (Error kClockDomainMismatch)
  else
    let lower_ns := ts_ns (po_time lower) in
    let upper_ns := ts_ns (po_time upper) in
    let query_ns := ts_ns query in
    if upper_ns <? lower_ns then Some (Error kTimestampRegression)
    else if (query_ns <? lower_ns) || (upper_ns <? query_ns) then Some (Error kOutOfRange)
    else if upper_ns =? lower_ns then
      if negb (query_ns =? lower_ns) then Some (Error kOutOfRange) else Some (Value lp)
    else
      match checkedDifference query (po_time lower), checkedDifference (po_time upper) (po_time lower) with
      | Error s, _ => Some (Error s)
      | _, Error s => Some (Error s)
      | Value numerator, Value denominator =>
          let alpha := duration_ratio numerator denominator in
          if ratio_invalid alpha then Some (Error kNumericalFailure)
          else
            let rotation := q_normalized (q_slerp (rt_rotation lp) alpha (rt_rotation up)) in
            Value <$> RigidTransform_new (rt_target_frame lp) (rt_source_frame lp) rotation
                        (v_mix alpha (rt_translation lp) (rt_translation up))
      end.

(** ** [ManifoldState] *)

Record ManifoldState : Type := mkManifold {
  mf_position_odom_imu_m : vec3;
  mf_orientation_odom_imu : quat;
  mf_rotation_imu_lidar : quat;
  mf_position_imu_lidar_m : vec3;
  mf_velocity_odom_imu_m_s : vec3;
  mf_gyro_bias_rad_s : vec3;
  mf_accel_bias_m_s2 : vec3;
  mf_gravity_odom_m_s2 : vec3
}.

#[export] Instance ManifoldState_eta : Eta ManifoldState := fun s =>
  mkManifold (mf_position_odom_imu_m s) (mf_orientation_odom_imu s) (mf_rotation_imu_lidar s)
    (mf_position_imu_lidar_m s) (mf_velocity_odom_imu_m_s s) (mf_gyro_bias_rad_s s)
    (mf_accel_bias_m_s2 s) (mf_gravity_odom_m_s2 s).

(** The default member initialisers; standard gravity is 9.80665. *)
Definition kStandardGravityMps2 : f64 := f64_lit 980665 100000.
Definition default_gravity : vec3 := Vec3 fzero fzero (fopp kStandardGravityMps2).
Definition ManifoldState_default : ManifoldState :=
  mkManifold vec3_zero quat_identity quat_identity vec3_zero vec3_zero vec3_zero vec3_zero
    default_gravity.

Definition finiteQuaternion (q : quat) : bool :=
  q_allFinite q && isfinite (q_squaredNorm q) && fgt (q_squaredNorm q) f64_1e_18.

(** A quaternion member is normalised when it is assigned, if it can be. *)
Definition normalize_if_finite (q : quat) : quat := if finiteQuaternion q then q_normalized q else q.

Definition set_orientation_odom_imu (q : quat) (s : ManifoldState) : ManifoldState :=
  s <| mf_orientation_odom_imu := normalize_if_finite q |>.
Definition set_rotation_imu_lidar (q : quat) (s : ManifoldState) : ManifoldState :=
  s <| mf_rotation_imu_lidar := normalize_if_finite q |>.

(** [ManifoldState::normalize] *)
Definition mf_normalize (s : ManifoldState) : ManifoldState :=
  s <| mf_orientation_odom_imu ::= normalize_if_finite |> <| mf_rotation_imu_lidar ::= normalize_if_finite |>.

(** [ManifoldState::allFinite] *)
Definition mf_allFinite (s : ManifoldState) : bool :=
  v_allFinite (mf_position_odom_imu_m s) && finiteQuaternion (mf_orientation_odom_imu s)
  && finiteQuaternion (mf_rotation_imu_lidar s) && v_allFinite (mf_position_imu_lidar_m s)
  && v_allFinite (mf_velocity_odom_imu_m_s s) && v_allFinite (mf_gyro_bias_rad_s s)
  && v_allFinite (mf_accel_bias_m_s2 s) && v_allFinite (mf_gravity_odom_m_s2 s)
  && isfinite (v_squaredNorm (mf_gravity_odom_m_s2 s))
  && fgt (v_squaredNorm (mf_gravity_odom_m_s2 s)) f64_1e_18.

(** [ManifoldState::transformLidarPointToOdom] *)
Definition transformLidarPointToOdom (s : ManifoldState) (p : vec3) : vec3 :=
  let point_imu := v_add (q_rotate (mf_rotation_imu_lidar s) p) (mf_position_imu_lidar_m s) in
  v_add (q_rotate (mf_orientation_odom_imu s) point_imu) (mf_position_odom_imu_m s).
End Transform.

(** ** Covariances

    [Eigen::Matrix<double, 23, 23>] by its coefficients; the reductions and the
    eigenvalue solver of Eigen are the class [CovOps]. *)

Definition kErrorStateDimension : nat := 23.
Definition Covariance : Type := nat -> nat -> f64.

Class CovOps : Type := {
  c_allFinite : Covariance -> bool;
  (** [c.cwiseAbs().maxCoeff()] and [c.diagonal().minCoeff()] *)
  c_absMaxCoeff : Covariance -> f64;
  c_minDiagonal : Covariance -> f64;
  (** [SelfAdjointEigenSolver]: the eigenvalues and the matrix of eigenvectors,
      [None] unless it reports success *)
  c_eigen : Covariance -> option (list f64 * Covariance);
  (** the same with [EigenvaluesOnly] *)
  c_eigenvalues : Covariance -> option (list f64);
  c_trace : Covariance -> f64;
  (** the reductions of a vector of eigenvalues *)
  ev_allFinite : list f64 -> bool;
  ev_minCoeff : list f64 -> f64;
  ev_maxCoeff : list f64 -> f64;
  (** [v * l.asDiagonal() * v.transpose()] *)
  c_recompose : Covariance -> list f64 -> Covariance
}.

(** [Covariance::Identity()] and [s * Covariance::Identity()] *)
Definition c_identity : Covariance := fun i j => if (i =? j)%nat then f64_1 else fzero.
Definition c_scaled_identity (s : f64) : Covariance :=
  fun i j => f64_mul s (c_identity i j).

(** [0.5 * (c + c.transpose())] *)
Definition c_symmetric (c : Covariance) : Covariance :=
  fun i j => f64_mul (f64_lit 1 2) (f64_add (c i j) (c j i)).

(** [c - c.transpose()] *)
Definition c_asymmetry (c : Covariance) : Covariance := fun i j => f64_sub (c i j) (c j i).

(** [struct StateEstimate] *)
Record StateEstimate : Type := mkEstimate {
  es_time : Timestamp;
  es_state : ManifoldState;
  es_covariance : Covariance
}.

Section Estimate.
Context {E : EigenOps} {C : CovOps}.

(** [StateEstimate::allFinite] *)
Definition es_allFinite (e : StateEstimate) : bool :=
  mf_allFinite (es_state e) && c_allFinite (es_covariance e).
End Estimate.

(** ** [ImuTrajectory] *)

Record ImuTrajectoryState : Type := mkTrajectoryState {
  tj_time : Timestamp;
  tj_orientation_odom_imu : quat;
  tj_position_odom_imu_m : vec3;
  tj_velocity_odom_imu_m_s : vec3
}.

Record ImuTrajectory : Type := mkTrajectory {
  tr_odom_frame : FrameId;
  tr_imu_frame : FrameId;
  tr_states : list ImuTrajectoryState
}.

(** The default arguments of the constructor. *)
Definition ImuTrajectory_default : ImuTrajectory := mkTrajectory lioOdomFrame imuFrame [].

Definition tj_ns (s : ImuTrajectoryState) : Z := ts_ns (tj_time s).

Section Trajectory.
Context {E : EigenOps} {EM : EigenMatOps} {EP : EigenPoseOps}.

(** [ImuTrajectoryState::allFinite] *)
Definition tj_allFinite (s : ImuTrajectoryState) : bool :=
  q_allFinite (tj_orientation_odom_imu s) && v_allFinite (tj_position_odom_imu_m s)
  && v_allFinite (tj_velocity_odom_imu_m_s s)
  && isfinite (q_squaredNorm (tj_orientation_odom_imu s))
  && fgt (q_squaredNorm (tj_orientation_odom_imu s)) f64_1e_24.

(** [orientation.normalize()], then [push_back] *)
Definition trajectory_push (s : ImuTrajectoryState) (t : ImuTrajectory) : ImuTrajectory :=
  mkTrajectory (tr_odom_frame t) (tr_imu_frame t)
    (tr_states t ++ [mkTrajectoryState (tj_time s) (q_normalized (tj_orientation_odom_imu s))
                       (tj_position_odom_imu_m s) (tj_velocity_odom_imu_m_s s)]).

(** [ImuTrajectory::addState] *)
Definition addState (state : ImuTrajectoryState) (t : ImuTrajectory) : StatusCode * ImuTrajectory :=
  if frame_empty (tr_odom_frame t) || frame_empty (tr_imu_frame t) then (kInvalidArgument, t)
  else if negb (tj_allFinite state) then (kNumericalFailure, t)
  else
    match last (tr_states t) with
    | Some back =>
        if negb (sameClockDomain (tj_time back) (tj_time state)) then (kClockDomainMismatch, t)
        else if tj_ns state <=? tj_ns back then (kTimestampRegression, t)
        else (kOk, trajectory_push state t)
    | None => (kOk, trajectory_push state t)
    end.

(** The interpolation between two neighbours (lines 66-93). *)
Definition trajectory_between (time : Timestamp) (lower upper : ImuTrajectoryState)
    : Result ImuTrajectoryState :=
  match checkedDifference time (tj_time lower), checkedDifference (tj_time upper) (tj_time lower) with
  | Error s, _ => Error s
  | _, Error s => Error s
  | Value numerator, Value denominator =>
      if dur_ns denominator <=? 0 then Error kTimestampRegression
      else
        let alpha := duration_ratio numerator denominator in
        if ratio_invalid alpha then Error kNumericalFailure
        else
          Value (mkTrajectoryState time
                   (q_normalized (q_slerp (tj_orientation_odom_imu lower) alpha
                                    (tj_orientation_odom_imu upper)))
                   (v_mix alpha (tj_position_odom_imu_m lower) (tj_position_odom_imu_m upper))
                   (v_mix alpha (tj_velocity_odom_imu_m_s lower) (tj_velocity_odom_imu_m_s upper)))
  end.

(** [ImuTrajectory::interpolate] *)
Definition trajectory_interpolate (time : Timestamp) (t : ImuTrajectory) : Result ImuTrajectoryState :=
  match head (tr_states t), last (tr_states t) with
  | Some front, Some back =>
      if negb (sameClockDomain time (tj_time front)) then Error kClockDomainMismatch
      else
        let upper := lower_bound_by tj_ns (ts_ns time) (tr_states t) in
        match tr_states t !! upper with
        | None => if time ==? tj_time back then Value back else Error kOutOfRange
        | Some u =>
            if tj_time u ==? time then Value u
            else
              match upper with
              | O => Error kOutOfRange
              | S lower =>
                  match tr_states t !! lower with
                  | Some l => trajectory_between time l u
                  | None => Error kOutOfRange
                  end
              end
        end
  | _, _ => Error kInsufficientData
  end.

(** [ImuTrajectory::pose]; the constructor may throw. *)
Definition trajectory_pose (time : Timestamp) (t : ImuTrajectory) : option (Result RigidTransform) :=
  match trajectory_interpolate time t with
  | Error s => Some (Error s)
  | Value state =>
      Value <$> RigidTransform_new (tr_odom_frame t) (tr_imu_frame t)
                  (tj_orientation_odom_imu state) (tj_position_odom_imu_m state)
  end.

(** [startTime] and [endTime] *)
Definition trajectory_startTime (t : ImuTrajectory) : option Timestamp := tj_time <$> head (tr_states t).
Definition trajectory_endTime (t : ImuTrajectory) : option Timestamp := tj_time <$> last (tr_states t).
End Trajectory.

(** ** [ScanDeskewer] *)

Inductive DeskewMode : Type := kSimultaneousScan | kPerPoint | kAuto.
Inductive DeskewReference : Type := kScanStart | kScanEnd.
Inductive DeskewStatus : Type := dk_kApplied | dk_kBypassedSimultaneousScan.

(** [toString] *)
Definition deskew_mode_name (m : DeskewMode) : string :=
  match m with
  | kSimultaneousScan => "simultaneous_scan"
  | kPerPoint => "per_point"
  | kAuto => "auto"
  end.

Record ScanDeskewerConfig : Type := mkDeskewerConfig {
  dc_mode : DeskewMode;
  dc_reference : DeskewReference
}.

Record DeskewResult : Type := mkDeskewResult {
  dr_scan : LidarScan;
  dr_status : DeskewStatus;
  dr_reference_time : Timestamp;
  dr_deskew_applied : bool;
  dr_point_time_min_ns : Z;
  dr_point_time_max_ns : Z
}.

Definition set_position (p : LidarPoint) (v : vec3f) : LidarPoint :=
  mkLidarPoint v (lp_relative_time_ns p) (lp_reflectivity p) (lp_tag p) (lp_line p).

Definition scan_with_points (s : LidarScan) (points : list LidarPoint) : LidarScan :=
  mkLidarScan (ls_start_time s) (ls_end_time s) points (ls_has_per_point_time s).

(** [std::minmax_element] by the relative time, as far as the times go; the
    scan is validated, so it has a point. *)
Definition relative_time_bounds (points : list LidarPoint) : Z * Z :=
  match points with
  | [] => (0, 0)
  | p :: rest =>
      (foldl Z.min (lp_relative_time_ns p) (map lp_relative_time_ns rest),
       foldl Z.max (lp_relative_time_ns p) (map lp_relative_time_ns rest))
  end.

(** The early returns of a function that may throw. *)
Definition outcome_bind {A B : Type} (x : option (Result A)) (k : A -> option (Result B))
    : option (Result B) :=
  match x with
  | None => None
  | Some (Error s) => Some (Error s)
  | Some (Value a) => k a
  end.

Section Deskew.
Context {E : EigenOps} {EM : EigenMatOps} {EP : EigenPoseOps} {EF : EigenFloatOps} {EL : LioEigen}.

(** One turn of the loop over the points. *)
Definition deskew_point (scan : LidarScan) (trajectory : ImuTrajectory)
    (T_imu_lidar T_lidar_reference_odom : RigidTransform) (p : LidarPoint)
    : option (Result LidarPoint) :=
  outcome_bind (Some (pointTime scan p)) (fun time =>
  outcome_bind (trajectory_pose time trajectory) (fun T_odom_imu =>
  outcome_bind (Some (rt_compose T_odom_imu T_imu_lidar)) (fun T_odom_lidar =>
  outcome_bind (Some (rt_compose T_lidar_reference_odom T_odom_lidar)) (fun T =>
  Some (Value (set_position p (rt_apply_f T (lp_position_lidar_m p)))))))).

Fixpoint deskew_points (scan : LidarScan) (trajectory : ImuTrajectory)
    (T_imu_lidar T_lidar_reference_odom : RigidTransform) (points : list LidarPoint)
    : option (Result (list LidarPoint)) :=
  match points with
  | [] => Some (Value [])
  | p :: points =>
      outcome_bind (deskew_point scan trajectory T_imu_lidar T_lidar_reference_odom p) (fun q =>
      outcome_bind (deskew_points scan trajectory T_imu_lidar T_lidar_reference_odom points) (fun qs =>
      Some (Value (q :: qs))))
  end.

Definition effective_mode (config : ScanDeskewerConfig) (scan : LidarScan) : DeskewMode :=
  match dc_mode config with
  | kAuto => if ls_has_per_point_time scan then kPerPoint else kSimultaneousScan
  | m => m
  end.

Definition deskew_reference_time (config : ScanDeskewerConfig) (scan : LidarScan) : Timestamp :=
  match dc_reference config with kScanStart => ls_start_time scan | kScanEnd => ls_end_time scan end.

(** The per-point branch (lines 44-94). *)
Definition deskew_per_point (config : ScanDeskewerConfig) (scan : LidarScan)
    (trajectory : ImuTrajectory) (T_imu_lidar : RigidTransform) : option (Result DeskewResult) :=
  let reference := deskew_reference_time config scan in
  let bounds := relative_time_bounds (ls_points scan) in
  if negb (ls_has_per_point_time scan) then Some (Error kDeskewRejected)
  else if rt_target_frame T_imu_lidar !=? tr_imu_frame trajectory then Some (Error kFrameMismatch)
  else
    outcome_bind (trajectory_pose reference trajectory) (fun T_odom_imu =>
    outcome_bind (Some (rt_compose T_odom_imu T_imu_lidar)) (fun T_odom_lidar =>
    outcome_bind (Some (rt_inverse T_odom_lidar)) (fun T_lidar_odom =>
    outcome_bind (deskew_points scan trajectory T_imu_lidar T_lidar_odom (ls_points scan)) (fun points =>
    Some (Value (mkDeskewResult (scan_with_points scan points) dk_kApplied reference true
                   bounds.1 bounds.2)))))).

(** [ScanDeskewer::deskew] *)
Definition deskew (config : ScanDeskewerConfig) (scan : LidarScan) (trajectory : ImuTrajectory)
    (T_imu_lidar : RigidTransform) : option (Result DeskewResult) :=
  let scan_status := scan_validate scan in
  if negb (status_ok scan_status) then Some (Error scan_status)
  else
    match effective_mode config scan with
    | kSimultaneousScan =>
        if ls_has_per_point_time scan then Some (Error kDeskewRejected)
        else
          let bounds := relative_time_bounds (ls_points scan) in
          Some (Value (mkDeskewResult scan dk_kBypassedSimultaneousScan
                         (deskew_reference_time config scan) false bounds.1 bounds.2))
    | _ => deskew_per_point config scan trajectory T_imu_lidar
    end.
End Deskew.

(** ** [preprocessing/] *)

Record PointFilterConfig : Type := mkPointFilterConfig {
  pf_minimum_range_m : f64;
  pf_maximum_range_m : f64
}.

Record PointCloudPreprocessorConfig : Type := mkPreprocessorConfig {
  pp_point_filter : PointFilterConfig;
  pp_voxel_size_m : f64;
  pp_enable_voxel_filter : bool
}.

Record PreprocessingResult : Type := mkPreprocessingResult {
  pr_scan : LidarScan;
  pr_input_point_count : Z;
  pr_range_filtered_point_count : Z;
  pr_output_point_count : Z
}.

Section Preprocessing.
Context {E : EigenOps} {EF : EigenFloatOps} {EL : LioEigen}.

Definition point_filter_config_invalid (c : PointFilterConfig) : bool :=
  negb (isfinite (pf_minimum_range_m c)) || negb (isfinite (pf_maximum_range_m c))
  || flt (pf_minimum_range_m c) fzero || flt (pf_maximum_range_m c) (pf_minimum_range_m c).

(** The range of a point, computed without overflow. *)
Definition scaled_range (position : vec3) : f64 :=
  let scale := v_absMaxCoeff position in
  if feq scale fzero then fzero else f64_mul scale (v_norm (v_div position scale)).

(** [PointFilter::accepts] *)
Definition point_accepts (c : PointFilterConfig) (p : LidarPoint) : bool :=
  if negb (v3f_allFinite (lp_position_lidar_m p)) || point_filter_config_invalid c then false
  else
    let position := vec3_of_vec3f (lp_position_lidar_m p) in
    if negb (isfinite (v_absMaxCoeff position)) then false
    else
      let range := scaled_range position in
      isfinite range && fge range (pf_minimum_range_m c) && fle range (pf_maximum_range_m c).

(** [PointFilter::filter] *)
Definition point_filter (c : PointFilterConfig) (points : list LidarPoint) : list LidarPoint :=
  List.filter (point_accepts c) points.

(** The bounds of the [int64] cast: [2^63] is the [double] of [INT64_MAX]. *)
Definition kMinimumIndex : f64 := f64_of_Z i64_min.
Definition kMaximumIndex : f64 := f64_of_Z i64_max.

(** The voxel of a point; [None] when the point is skipped. *)
Definition voxel_key (voxel_size_m : f64) (p : LidarPoint) : option (Z * Z * Z) :=
  if negb (v3f_allFinite (lp_position_lidar_m p)) then None
  else
    let scaled := v_div (vec3_of_vec3f (lp_position_lidar_m p)) voxel_size_m in
    if negb (v_allFinite scaled) || v_any_lt scaled kMinimumIndex || v_any_ge scaled kMaximumIndex
    then None
    else Some (i64_of_f (f64_floor (vx scaled)), i64_of_f (f64_floor (vy scaled)),
               i64_of_f (f64_floor (vz scaled))).

Fixpoint voxel_loop (voxel_size_m : f64) (occupied : gset (Z * Z * Z)) (points : list LidarPoint)
    : list LidarPoint :=
  match points with
  | [] => []
  | p :: points =>
      match voxel_key voxel_size_m p with
      | None => voxel_loop voxel_size_m occupied points
      | Some key =>
          if bool_decide (key ∈ occupied) then voxel_loop voxel_size_m occupied points
          else p :: voxel_loop voxel_size_m ({[key]} ∪ occupied) points
      end
  end.

(** [VoxelFilter::filter] *)
Definition voxel_filter (voxel_size_m : f64) (points : list LidarPoint) : list LidarPoint :=
  if negb (isfinite voxel_size_m) || fle voxel_size_m fzero then []
  else voxel_loop voxel_size_m ∅ points.

Definition points_count (points : list LidarPoint) : Z := Z.of_nat (length points).

(** [PointCloudPreprocessor::process] *)
Definition preprocess (c : PointCloudPreprocessorConfig) (scan : LidarScan)
    : Result PreprocessingResult :=
  let scan_status := scan_validate scan in
  if negb (status_ok scan_status) then Error scan_status
  else
    let filtered := point_filter (pp_point_filter c) (ls_points scan) in
    let points := if pp_enable_voxel_filter c then voxel_filter (pp_voxel_size_m c) filtered
                  else filtered in
    match points with
    | [] => Error kInsufficientData
    | _ =>
        Value (mkPreprocessingResult (scan_with_points scan points)
                 (points_count (ls_points scan))
                 (points_count (ls_points scan) - points_count filtered) (points_count points))
    end.
End Preprocessing.
