(* ===== verification/LioRegistration.v ===== *)
(** * Registration of a scan against the map

    [estimation/fast_lio_core]: [registration/] (plane estimation, residual
    gate, residual builder, linearised measurement) and [mapping/] (the
    [RegistrationMap] interface, its ikd-Tree implementation, the local map
    manager and the insertion policy).  The vendored tree is the class
    [KdTreeOps]; the matrix operations of Eigen are the class [LioMatOps].  The
    parallel loops write disjoint candidates, so they are maps over the points. *)

From Stdlib Require Import Floats.SpecFloat.
From stdpp Require Import sorting.
From S2P Require Import Prelude RecordUpdate Float64 Geometry WorldGrid CommandContract TrackingGuard OdometryFrames Candidate.
From S2P Require Import LioTime Measurement LioState.

Class LioMatOps : Type := {
  m_add : mat3 -> mat3 -> mat3;
  m_div : mat3 -> f64 -> mat3;
  (** [v * w.transpose()] and [v.transpose() * m] *)
  v_outer : vec3 -> vec3 -> mat3;
  v_mul_mat : vec3 -> mat3 -> vec3;
  (** [SelfAdjointEigenSolver<Matrix3d>]: eigenvalues in increasing order and
      eigenvectors by columns; [None] unless it reports success *)
  m_eigen : mat3 -> option (vec3 * mat3);
  (** [v.cwiseMax(s)], [v.sum()], [v.minCoeff()], [v.maxCoeff()] *)
  v_cwiseMax_scalar : vec3 -> f64 -> vec3;
  v_sum : vec3 -> f64;
  v_minCoeff : vec3 -> f64;
  v_maxCoeff : vec3 -> f64;
  (** [v.cwiseAbs().maxCoeff(&axis)]: the axis *)
  v_dominant_axis : vec3 -> nat;
  (** [(v.array() <= s).any()] and [(v.array().abs() <= s).all()] *)
  v_any_le_scalar : vec3 -> f64 -> bool;
  v_all_abs_le : vec3 -> f64 -> bool;
  (** [r.squaredNorm()] of a dynamic vector *)
  x_squaredNorm : list f64 -> f64
}.

Definition m_zero : mat3 := Mat3 vec3_zero vec3_zero vec3_zero.
(** [-m] *)
Definition m_neg (m : mat3) : mat3 := Mat3 (v_neg (row0 m)) (v_neg (row1 m)) (v_neg (row2 m)).
(** [m.col(0)] *)
Definition m_col0 (m : mat3) : vec3 := Vec3 (vx (row0 m)) (vx (row1 m)) (vx (row2 m)).
(** [v[axis]] *)
Definition v_coeff (v : vec3) (axis : nat) : f64 :=
  match axis with O => vx v | S O => vy v | _ => vz v end.

(** [skewSymmetric] *)
Definition skewSymmetric (v : vec3) : mat3 :=
  Mat3 (Vec3 fzero (fopp (vz v)) (vy v)) (Vec3 (vz v) fzero (fopp (vx v)))
       (Vec3 (fopp (vy v)) (vx v) fzero).

Definition f64_1e_12 : f64 := f64_lit 1 1000000000000.

(** ** [RegistrationMap] *)

Definition kNeighborCapacity : nat := 5.

(** [NeighborSet]: the stored points; [count] is their number. *)
Record NeighborSet : Type := mkNeighbors {
  nb_points : list vec3;
  nb_squared_distances : list f32
}.

(** [NeighborSet::complete] *)
Definition neighbors_complete (n : NeighborSet) : bool :=
  (length (nb_points n) =? kNeighborCapacity)%nat.

(** The abstract class.  [size] may refresh the count a backend caches, so it
    returns the map as well. *)
Class RegistrationMap (M : Type) : Type := {
  rm_nearestSearch : M -> vec3 -> f64 -> bool * NeighborSet;
  rm_insert : list vec3 -> M -> Z * M;
  rm_cropLocal : vec3 -> vec3 -> M -> Z * M;
  rm_size : M -> Z * M;
  rm_clear : M -> M
}.

(** ** [PlaneEstimator] *)

Record Plane : Type := mkPlane {
  pl_centroid_odom_m : vec3;
  pl_normal_odom : vec3;
  pl_rms_error_m : f64;
  pl_maximum_error_m : f64;
  pl_planarity : f64
}.

Record PlaneEstimatorConfig : Type := mkPlaneConfig {
  pc_minimum_neighbor_count : Z;
  pc_maximum_rms_error_m : f64;
  pc_maximum_point_error_m : f64;
  pc_maximum_smallest_eigenvalue_ratio : f64;
  pc_minimum_second_eigenvalue_ratio : f64
}.

(** The guard of the constructor, which throws. *)
Definition plane_config_invalid (c : PlaneEstimatorConfig) : bool :=
  (pc_minimum_neighbor_count c <? 3) || negb (fgt (pc_maximum_rms_error_m c) fzero)
  || negb (fgt (pc_maximum_point_error_m c) fzero)
  || negb (fgt (pc_maximum_smallest_eigenvalue_ratio c) fzero)
  || fge (pc_maximum_smallest_eigenvalue_ratio c) f64_1
  || negb (fgt (pc_minimum_second_eigenvalue_ratio c) fzero)
  || fge (pc_minimum_second_eigenvalue_ratio c) f64_1.

Section Plane.
Context {E : EigenOps} {EN : EigenNormOps} {EM : LioMatOps}.

(** The first loop: the sum of the points, [None] at a non-finite one. *)
Fixpoint centroid_sum (points : list vec3) (sum : vec3) : option vec3 :=
  match points with
  | [] => Some sum
  | p :: points => if negb (v_allFinite p) then None else centroid_sum points (v_add sum p)
  end.

Definition count_f64 (points : list vec3) : f64 := f64_of_Z (Z.of_nat (length points)).

(** The second loop. *)
Definition scatter (points : list vec3) (centroid : vec3) : mat3 :=
  m_div (foldl (fun m p => let c := v_sub p centroid in m_add m (v_outer c c)) m_zero points)
        (count_f64 points).

(** The sign of an eigenvector is chosen by its dominant axis. *)
Definition oriented_normal (v : vec3) : vec3 :=
  let normal := v_normalized v in
  if flt (v_coeff normal (v_dominant_axis normal)) fzero then v_neg normal else normal.

Definition plane_error (normal centroid p : vec3) : f64 := fabs (v_dot normal (v_sub p centroid)).

(** The third loop: the sum of the squared errors and the largest error. *)
Definition plane_errors (normal centroid : vec3) (points : list vec3) : f64 * f64 :=
  foldl (fun (a : f64 * f64) p =>
           let e := plane_error normal centroid p in
           (f64_add a.1 (f64_mul e e), fmax a.2 e)) (fzero, fzero) points.

(** The fit of the normal against the points (lines 69-87). *)
Definition plane_of_normal (c : PlaneEstimatorConfig) (points : list vec3) (centroid normal : vec3)
    (smallest_ratio : f64) : option Plane :=
  let errors := plane_errors normal centroid points in
  let rms := f64_sqrt (f64_div errors.1 (count_f64 points)) in
  if fgt rms (pc_maximum_rms_error_m c) || fgt errors.2 (pc_maximum_point_error_m c) then None
  else Some (mkPlane centroid normal rms errors.2 (f64_sub f64_1 smallest_ratio)).

(** [PlaneEstimator::estimate] *)
Definition plane_estimate (c : PlaneEstimatorConfig) (points : list vec3) : option Plane :=
  if Z.of_nat (length points) <? pc_minimum_neighbor_count c then None
  else
    match centroid_sum points vec3_zero with
    | None => None
    | Some sum =>
        let centroid := v_div sum (count_f64 points) in
        match m_eigen (scatter points centroid) with
        | None => None
        | Some (values, vectors) =>
            if negb (v_allFinite values)
               || negb (v_allFinite (row0 vectors) && v_allFinite (row1 vectors)
                        && v_allFinite (row2 vectors)) then None
            else
              let eigenvalues := v_cwiseMax_scalar values fzero in
              let sum := v_sum eigenvalues in
              if negb (fgt sum f64_1e_12) then None
              else
                let smallest := f64_div (vx eigenvalues) sum in
                let second := f64_div (vy eigenvalues) sum in
                if fgt smallest (pc_maximum_smallest_eigenvalue_ratio c)
                   || flt second (pc_minimum_second_eigenvalue_ratio c) then None
                else plane_of_normal c points centroid (oriented_normal (m_col0 vectors)) smallest
        end
    end.
End Plane.

(** ** [ResidualGate] *)

Inductive ResidualRejectionReason : Type :=
| rr_kAccepted | rr_kNonFinite | rr_kLowPlanarity | rr_kDistanceTooLarge.

(** [toString] *)
Definition rejection_reason_name (r : ResidualRejectionReason) : string :=
  match r with
  | rr_kAccepted => "ACCEPTED"
  | rr_kNonFinite => "NON_FINITE"
  | rr_kLowPlanarity => "LOW_PLANARITY"
  | rr_kDistanceTooLarge => "DISTANCE_TOO_LARGE"
  end.

Record ResidualGateConfig : Type := mkGateConfig {
  gc_maximum_absolute_distance_m : f64;
  gc_minimum_planarity : f64;
  gc_huber_delta_m : f64
}.

Record ResidualGateDecision : Type := mkGateDecision {
  gd_accepted : bool;
  gd_robust_weight : f64;
  gd_reason : ResidualRejectionReason
}.

(** The guard of the constructor. *)
Definition gate_config_invalid (c : ResidualGateConfig) : bool :=
  negb (fgt (gc_maximum_absolute_distance_m c) fzero) || negb (fge (gc_minimum_planarity c) fzero)
  || fgt (gc_minimum_planarity c) f64_1 || negb (fgt (gc_huber_delta_m c) fzero).

Definition gate_refuse (r : ResidualRejectionReason) : ResidualGateDecision :=
  mkGateDecision false fzero r.

Section Gate.
Context {E : EigenOps}.

(** The Huber weight of an accepted distance. *)
Definition huber_weight (c : ResidualGateConfig) (distance : f64) : f64 :=
  if fle distance (gc_huber_delta_m c) then f64_1
  else f64_div (gc_huber_delta_m c) (fmax distance f64_1e_12).

(** [ResidualGate::evaluate] *)
Definition gate_evaluate (c : ResidualGateConfig) (plane : Plane) (signed_distance_m : f64)
    : ResidualGateDecision :=
  if negb (v_allFinite (pl_centroid_odom_m plane)) || negb (v_allFinite (pl_normal_odom plane))
     || negb (isfinite (pl_planarity plane)) || negb (isfinite signed_distance_m)
  then gate_refuse rr_kNonFinite
  else if flt (pl_planarity plane) (gc_minimum_planarity c) then gate_refuse rr_kLowPlanarity
  else
    let distance := fabs signed_distance_m in
    if fgt distance (gc_maximum_absolute_distance_m c) then gate_refuse rr_kDistanceTooLarge
    else mkGateDecision true (huber_weight c distance) rr_kAccepted.
End Gate.

(** ** [ResidualBuilder] *)

Record ResidualBuilderConfig : Type := mkResidualConfig {
  rb_maximum_neighbor_distance_m : f64;
  rb_plane_estimator : PlaneEstimatorConfig;
  rb_residual_gate : ResidualGateConfig;
  rb_point_measurement_standard_deviation_m : f64;
  rb_minimum_translation_observability_ratio : f64;
  rb_parallel_thread_count : Z
}.

(** The guard of the constructor; the members' constructors throw as well. *)
Definition residual_config_invalid (c : ResidualBuilderConfig) : bool :=
  plane_config_invalid (rb_plane_estimator c) || gate_config_invalid (rb_residual_gate c)
  || negb (fgt (rb_maximum_neighbor_distance_m c) fzero)
  || negb (isfinite (rb_maximum_neighbor_distance_m c))
  || negb (fgt (rb_point_measurement_standard_deviation_m c) fzero)
  || negb (isfinite (rb_point_measurement_standard_deviation_m c))
  || flt (rb_minimum_translation_observability_ratio c) fzero
  || fgt (rb_minimum_translation_observability_ratio c) f64_1
  || negb (isfinite (rb_minimum_translation_observability_ratio c))
  || (rb_parallel_thread_count c =? 0) || (32 <? rb_parallel_thread_count c).

(** [ResidualBuildDiagnostics] without the run times. *)
Record ResidualBuildDiagnostics : Type := mkBuildDiagnostics {
  rd_input_point_count : Z;
  rd_query_count : Z;
  rd_insufficient_neighbor_count : Z;
  rd_valid_plane_count : Z;
  rd_rejected_plane_count : Z;
  rd_accepted_residual_count : Z;
  rd_rejected_residual_count : Z;
  rd_residual_rms_m : f64;
  rd_translation_observability_min_eigenvalue : f64;
  rd_translation_observability_max_eigenvalue : f64;
  rd_translation_observability_ratio : f64;
  rd_translation_observability_valid : bool
}.

#[export] Instance ResidualBuildDiagnostics_eta : Eta ResidualBuildDiagnostics := fun d =>
  mkBuildDiagnostics (rd_input_point_count d) (rd_query_count d) (rd_insufficient_neighbor_count d)
    (rd_valid_plane_count d) (rd_rejected_plane_count d) (rd_accepted_residual_count d)
    (rd_rejected_residual_count d) (rd_residual_rms_m d)
    (rd_translation_observability_min_eigenvalue d) (rd_translation_observability_max_eigenvalue d)
    (rd_translation_observability_ratio d) (rd_translation_observability_valid d).

Definition build_diagnostics_default : ResidualBuildDiagnostics :=
  mkBuildDiagnostics 0 0 0 0 0 0 0 fzero fzero fzero fzero false.

(** [CandidateOutcome], with the members the last loop reads. *)
Inductive Candidate : Type :=
| cInsufficientNeighbors
| cRejectedPlane
| cRejectedResidual
| cAccepted (normal_odom : vec3) (signed_distance_m plane_variance_m2 robust_weight : f64).

(** One row of the measurement: the two non-zero segments of the Jacobian (at
    [kPositionOffset] and at [kOrientationOffset]), the residual and the
    variance. *)
Record MeasurementRow : Type := mkRow {
  mr_position : vec3;
  mr_orientation : vec3;
  mr_residual : f64;
  mr_variance : f64
}.

Definition kPositionOffset : nat := 0.
Definition kOrientationOffset : nat := 3.

(** A coefficient of the row of the Jacobian. *)
Definition row_coeff (r : MeasurementRow) (j : nat) : f64 :=
  if (j <? kOrientationOffset)%nat then v_coeff (mr_position r) (j - kPositionOffset)
  else if (j <? kOrientationOffset + 3)%nat then v_coeff (mr_orientation r) (j - kOrientationOffset)
  else fzero.

(** What the last loop accumulates. *)
Record build_state : Type := mkBuildState {
  bd_diagnostics : ResidualBuildDiagnostics;
  bd_rows : list MeasurementRow;
  bd_information : mat3;
  bd_weight : f64
}.

Section Builder.
Context {E : EigenOps} {EN : EigenNormOps} {EMt : EigenMatOps} {EP : EigenPoseOps} {EM : LioMatOps}.
Context {M : Type} {RM : RegistrationMap M}.

(** The three parallel loops for one point. *)
Definition candidate_of (c : ResidualBuilderConfig) (s : ManifoldState) (m : M) (point_lidar_m : vec3)
    : Candidate :=
  let point := transformLidarPointToOdom s point_lidar_m in
  if negb (v_allFinite point) then cInsufficientNeighbors
  else
    let '(found, neighbors) := rm_nearestSearch m point (rb_maximum_neighbor_distance_m c) in
    if negb (found && neighbors_complete neighbors) then cInsufficientNeighbors
    else
      match plane_estimate (rb_plane_estimator c) (nb_points neighbors) with
      | None => cRejectedPlane
      | Some plane =>
          let distance := v_dot (pl_normal_odom plane) (v_sub point (pl_centroid_odom_m plane)) in
          let decision := gate_evaluate (rb_residual_gate c) plane distance in
          if negb (gd_accepted decision) then cRejectedResidual
          else cAccepted (pl_normal_odom plane) distance
                 (f64_mul (pl_rms_error_m plane) (pl_rms_error_m plane)) (gd_robust_weight decision)
      end.

(** The points that are searched for: [query_count]. *)
Definition queried (s : ManifoldState) (point_lidar_m : vec3) : bool :=
  v_allFinite (transformLidarPointToOdom s point_lidar_m).

Definition sensor_variance (c : ResidualBuilderConfig) : f64 :=
  f64_mul (rb_point_measurement_standard_deviation_m c) (rb_point_measurement_standard_deviation_m c).

(** The row of an accepted candidate (lines 187-201). *)
Definition accepted_row (c : ResidualBuilderConfig) (s : ManifoldState) (point_lidar_m normal : vec3)
    (distance plane_variance weight : f64) : MeasurementRow :=
  let rotation_odom_imu := q_toRotationMatrix (mf_orientation_odom_imu s) in
  let rotation_imu_lidar := q_toRotationMatrix (mf_rotation_imu_lidar s) in
  let point_imu := v_add (m_mulv rotation_imu_lidar point_lidar_m) (mf_position_imu_lidar_m s) in
  mkRow normal (v_mul_mat normal (m_mul (m_neg rotation_odom_imu) (skewSymmetric point_imu))) distance
    (f64_div (f64_add (sensor_variance c) plane_variance) (fmax weight f64_1e_6)).

Definition bump (x : Z) : Z := u64_inc x.

(** One turn of the last loop. *)
Definition build_step (c : ResidualBuilderConfig) (s : ManifoldState) (b : build_state)
    (pc : vec3 * Candidate) : build_state :=
  let d := bd_diagnostics b in
  let with_d d := mkBuildState d (bd_rows b) (bd_information b) (bd_weight b) in
  match pc.2 with
  | cInsufficientNeighbors => with_d (d <| rd_insufficient_neighbor_count ::= bump |>)
  | cRejectedPlane => with_d (d <| rd_rejected_plane_count ::= bump |>)
  | cRejectedResidual =>
      with_d (d <| rd_valid_plane_count ::= bump |> <| rd_rejected_residual_count ::= bump |>)
  | cAccepted normal distance plane_variance robust_weight =>
      let d := d <| rd_valid_plane_count ::= bump |> in
      let row := accepted_row c s pc.1 normal distance plane_variance robust_weight in
      let weight := f64_div robust_weight (f64_add (sensor_variance c) plane_variance) in
      if isfinite weight && fgt weight fzero then
        mkBuildState d (bd_rows b ++ [row])
          (m_add (bd_information b) (v_outer (v_scale weight normal) normal))
          (f64_add (bd_weight b) weight)
      else mkBuildState d (bd_rows b ++ [row]) (bd_information b) (bd_weight b)
  end.

(** The observability of the translation (lines 227-246). *)
Definition observability (c : ResidualBuilderConfig) (information : mat3) (weight : f64)
    (d : ResidualBuildDiagnostics) : ResidualBuildDiagnostics :=
  if fgt weight fzero && isfinite weight then
    match m_eigen (m_div information weight) with
    | None => d
    | Some (values, _) =>
        if negb (v_allFinite values) then d
        else
          let eigenvalues := v_cwiseMax_scalar values fzero in
          let low := v_minCoeff eigenvalues in
          let high := v_maxCoeff eigenvalues in
          let d := d <| rd_translation_observability_min_eigenvalue := low |>
                     <| rd_translation_observability_max_eigenvalue := high |> in
          if fgt high fzero then
            let ratio := f64_div low high in
            d <| rd_translation_observability_ratio := ratio |>
              <| rd_translation_observability_valid :=
                   isfinite ratio && fge ratio (rb_minimum_translation_observability_ratio c) |>
          else d
    end
  else d.

(** The last loop over the points and their candidates. *)
Definition build_rows (c : ResidualBuilderConfig) (s : ManifoldState) (m : M) (points : list vec3)
    : build_state :=
  let d := build_diagnostics_default
             <| rd_input_point_count := Z.of_nat (length points) |>
             <| rd_query_count := Z.of_nat (length (List.filter (queried s) points)) |> in
  foldl (build_step c s) (mkBuildState d [] m_zero fzero)
        (map (fun p => (p, candidate_of c s m p)) points).

Definition residual_rms (rows : list MeasurementRow) : f64 :=
  f64_sqrt (f64_div (x_squaredNorm (map mr_residual rows)) (f64_of_Z (Z.of_nat (length rows)))).

(** [ResidualBuilder::buildInto]: the rows and the diagnostics. *)
Definition buildInto (c : ResidualBuilderConfig) (points : list vec3) (s : ManifoldState) (m : M)
    : list MeasurementRow * ResidualBuildDiagnostics :=
  if negb (mf_allFinite s) || (match points with [] => true | _ => false end) then
    ([], build_diagnostics_default <| rd_input_point_count := Z.of_nat (length points) |>)
  else
    let b := build_rows c s m points in
    let d := (bd_diagnostics b)
      <| rd_accepted_residual_count := Z.of_nat (length (bd_rows b)) |>
      <| rd_rejected_residual_count ::= fun n =>
           u64_add n (u64_add (rd_insufficient_neighbor_count (bd_diagnostics b))
                              (rd_rejected_plane_count (bd_diagnostics b))) |> in
    match bd_rows b with
    | [] => ([], d)
    | rows => (rows, observability c (bd_information b) (bd_weight b)
                       (d <| rd_residual_rms_m := residual_rms rows |>))
    end.
End Builder.

(** ** [LinearizedMeasurement] *)

Section Linearized.
Context {E : EigenOps} {EM : LioMatOps}.

(** [LinearizedMeasurement::valid] on a measurement of whole rows, whose
    dimensions agree by construction. *)
Definition measurement_valid (rows : list MeasurementRow) : bool :=
  negb (match rows with [] => true | _ => false end)
  && forallb (fun r => v_allFinite (mr_position r) && v_allFinite (mr_orientation r)) rows
  && forallb (fun r => isfinite (mr_residual r)) rows
  && forallb (fun r => isfinite (mr_variance r)) rows
  && forallb (fun r => fgt (mr_variance r) fzero) rows.

(** [LinearizedMeasurement::residualRmsM] *)
Definition residualRmsM (rows : list MeasurementRow) : f64 :=
  if (match rows with [] => true | _ => false end)
     || negb (forallb (fun r => isfinite (mr_residual r)) rows) then fzero
  else residual_rms rows.
End Linearized.

(** ** [LocalMapManager] and [MapInsertionPolicy] *)

Record LocalMapManagerConfig : Type := mkLocalMapConfig {
  lm_half_extent_m : vec3;
  lm_crop_trigger_distance_m : f64;
  lm_absolute_map_point_guard : Z
}.

Record LocalMapManager : Type := mkLocalMapManager {
  lm_config : LocalMapManagerConfig;
  lm_last_crop_center_odom_m : vec3;
  lm_has_crop_center : bool;
  lm_insertion_frozen : bool
}.

Record LocalMapUpdate : Type := mkLocalMapUpdate {
  lu_crop_performed : bool;
  lu_absolute_guard_triggered : bool;
  lu_absolute_guard_recovery_failed : bool;
  lu_insertion_frozen : bool;
  lu_map_count_before : Z;
  lu_map_count_after_crop : Z;
  lu_removed_point_count : Z;
  lu_crop_triggered_by_motion : bool;
  lu_center_odom_m : vec3;
  lu_half_extent_m : vec3
}.

Section LocalMap.
Context {E : EigenOps} {EM : LioMatOps} {M : Type} {RM : RegistrationMap M}.

(** The constructor; it throws on an invalid configuration. *)
Definition LocalMapManager_new (c : LocalMapManagerConfig) : option LocalMapManager :=
  if negb (v_allFinite (lm_half_extent_m c)) || v_any_le_scalar (lm_half_extent_m c) fzero
     || negb (fgt (lm_crop_trigger_distance_m c) fzero) || negb (isfinite (lm_crop_trigger_distance_m c))
     || (lm_absolute_map_point_guard c =? 0)
  then None
  else Some (mkLocalMapManager c vec3_zero false false).

Definition moved_beyond_trigger (l : LocalMapManager) (position : vec3) : bool :=
  negb (lm_has_crop_center l)
  || fge (v_norm (v_sub position (lm_last_crop_center_odom_m l)))
         (lm_crop_trigger_distance_m (lm_config l)).

(** [LocalMapManager::update] *)
Definition local_map_update (l : LocalMapManager) (m : M) (position : vec3)
    : LocalMapUpdate * LocalMapManager * M :=
  let half := lm_half_extent_m (lm_config l) in
  let guard := lm_absolute_map_point_guard (lm_config l) in
  if negb (v_allFinite position) then
    (mkLocalMapUpdate false false false false 0 0 0 false position half, l, m)
  else
    let '(before, m) := rm_size m in
    let moved := moved_beyond_trigger l position in
    let triggered := guard <? before in
    if negb moved && negb triggered then
      (mkLocalMapUpdate false triggered false false before before 0 false position half, l, m)
    else
      let '(removed, m) := rm_cropLocal position half m in
      let '(after, m) := rm_size m in
      let failed := guard <? after in
      let frozen := lm_insertion_frozen l || failed in
      (mkLocalMapUpdate true triggered failed frozen before after removed moved position half,
       mkLocalMapManager (lm_config l) position true frozen, m).

(** [insertionAllowed] and [reset] *)
Definition insertionAllowed (l : LocalMapManager) : bool := negb (lm_insertion_frozen l).
Definition local_map_reset (l : LocalMapManager) : LocalMapManager :=
  mkLocalMapManager (lm_config l) vec3_zero false false.
End LocalMap.

Record MapInsertionContext : Type := mkInsertionContext {
  ic_estimator_tracking : bool;
  ic_lidar_update_successful : bool;
  ic_correction_usable : bool;
  ic_transform_finite : bool;
  ic_filtered_point_count : Z
}.

(** [MapInsertionPolicy::permits]; the policy is its minimum point count, which
    the constructor requires to be positive. *)
Definition insertion_permits (minimum_point_count : Z) (c : MapInsertionContext) : bool :=
  ic_estimator_tracking c && ic_lidar_update_successful c && ic_correction_usable c
  && ic_transform_finite c && (minimum_point_count <=? ic_filtered_point_count c).

(** ** [IkdTreeRegistrationMap] *)

(** The vendored tree.  [validnum] tries a lock a background rebuild may hold;
    it answers a negative number then.  A box is its two corners. *)
Class KdTreeOps : Type := {
  KdTree : Type;
  kt_new : f32 -> f32 -> f32 -> bool -> KdTree;
  kt_validnum : KdTree -> Z * KdTree;
  kt_Build : list vec3f -> KdTree -> KdTree;
  kt_Add_Points : list vec3f -> KdTree -> KdTree;
  kt_Nearest_Search : KdTree -> vec3f -> nat -> f64 -> list (vec3f * f32);
  kt_tree_range : KdTree -> vec3f * vec3f;
  kt_Delete_Point_Boxes : list (vec3f * vec3f) -> KdTree -> KdTree
}.

Record IkdTreeRegistrationMapConfig : Type := mkIkdConfig {
  ik_voxel_size_m : f64;
  ik_deletion_rebuild_ratio : f64;
  ik_balance_rebuild_ratio : f64;
  ik_enable_asynchronous_rebuild : bool
}.

(** [std::numeric_limits<float>::max()] is [f32_max]. *)
Definition f64_half : f64 := f64_lit 1 2.

(** [validConfig] *)
Definition ikd_config_valid (c : IkdTreeRegistrationMapConfig) : bool :=
  fgt (ik_voxel_size_m c) fzero && isfinite (ik_voxel_size_m c) && fle (ik_voxel_size_m c) f32_max
  && fgt (ik_deletion_rebuild_ratio c) fzero && flt (ik_deletion_rebuild_ratio c) f64_1
  && isfinite (ik_deletion_rebuild_ratio c)
  && fgt (ik_balance_rebuild_ratio c) f64_half && flt (ik_balance_rebuild_ratio c) f64_1
  && isfinite (ik_balance_rebuild_ratio c).

(** [std::nextafter(x, infinity)] *)
Definition f32_next_up (x : f32) : f32 := SFsucc prec32 emax32 x.

(** [upstreamPointLess]: the lexicographic order of [std::tie]. *)
Definition upstreamPointLess (a b : vec3f) : bool :=
  if flt (fx a) (fx b) then true
  else if flt (fx b) (fx a) then false
  else if flt (fy a) (fy b) then true
  else if flt (fy b) (fy a) then false
  else flt (fz a) (fz b).

(** The order [std::sort] establishes: no element precedes one that is less. *)
Definition upstream_sorted (a b : vec3f) : Prop := upstreamPointLess b a = false.
#[export] Instance upstream_sorted_dec : RelDecision upstream_sorted :=
  fun a b => decide (upstreamPointLess b a = false).

(** A box without a point is not queued. *)
Definition box_empty (b : vec3f * vec3f) : bool :=
  fge (fx b.1) (fx b.2) || fge (fy b.1) (fy b.2) || fge (fz b.1) (fz b.2).

Definition append_box (b : vec3f * vec3f) (boxes : list (vec3f * vec3f)) : list (vec3f * vec3f) :=
  if box_empty b then boxes else boxes ++ [b].

(** The six slabs of the tree range outside the kept cube. *)
Definition outer_slabs (tree_min tree_max keep_min keep_max : vec3f) : list (vec3f * vec3f) :=
  [ (tree_min, Vec3f (fx keep_min) (fy tree_max) (fz tree_max));
    (Vec3f (fx keep_max) (fy tree_min) (fz tree_min), tree_max);
    (Vec3f (fx keep_min) (fy tree_min) (fz tree_min), Vec3f (fx keep_max) (fy keep_min) (fz tree_max));
    (Vec3f (fx keep_min) (fy keep_max) (fz tree_min), Vec3f (fx keep_max) (fy tree_max) (fz tree_max));
    (Vec3f (fx keep_min) (fy keep_min) (fz tree_min), Vec3f (fx keep_max) (fy keep_max) (fz keep_min));
    (Vec3f (fx keep_min) (fy keep_min) (fz keep_max), Vec3f (fx keep_max) (fy keep_max) (fz tree_max)) ].

Definition deletion_boxes (tree_min tree_max keep_min keep_max : vec3f) : list (vec3f * vec3f) :=
  foldl (fun boxes b => append_box b boxes) [] (outer_slabs tree_min tree_max keep_min keep_max).

(** The bounds of the crop, by coefficient. *)
Definition vec3f_map2 (f : f32 -> f32 -> f32) (a b : vec3f) : vec3f :=
  Vec3f (f (fx a) (fx b)) (f (fy a) (fy b)) (f (fz a) (fz b)).
Definition vec3f_map (f : f32 -> f32) (a : vec3f) : vec3f := Vec3f (f (fx a)) (f (fy a)) (f (fz a)).

(** Everything of the tree is below [crop_tree_max]. *)
Definition crop_tree_max (range : vec3f * vec3f) : vec3f := vec3f_map f32_next_up range.2.
Definition crop_keep_min (range : vec3f * vec3f) (minimum : vec3) : vec3f :=
  vec3f_map2 fmax range.1 (vec3f_of_vec3 minimum).
Definition crop_keep_max (range : vec3f * vec3f) (maximum : vec3) : vec3f :=
  vec3f_map2 fmin (crop_tree_max range) (vec3f_map f32_next_up (vec3f_of_vec3 maximum)).

Section Ikd.
Context {E : EigenOps} {EM : LioMatOps} {K : KdTreeOps}.

(** The class with its [Impl]; the run times are left out. *)
Record IkdTreeRegistrationMap : Type := mkIkdMap {
  ikm_config : IkdTreeRegistrationMapConfig;
  ikm_tree : KdTree;
  ikm_built : bool;
  ikm_cached_valid_point_count : Z;
  ikm_valid_point_count_busy_count : Z
}.

#[export] Instance IkdTreeRegistrationMap_eta : Eta IkdTreeRegistrationMap := fun m =>
  mkIkdMap (ikm_config m) (ikm_tree m) (ikm_built m) (ikm_cached_valid_point_count m)
    (ikm_valid_point_count_busy_count m).

(** [Impl::Impl] *)
Definition ikd_fresh (c : IkdTreeRegistrationMapConfig) : IkdTreeRegistrationMap :=
  mkIkdMap c (kt_new (f32_of_f64 (ik_deletion_rebuild_ratio c)) (f32_of_f64 (ik_balance_rebuild_ratio c))
                (f32_of_f64 (ik_voxel_size_m c)) (ik_enable_asynchronous_rebuild c)) false 0 0.

(** The constructor, which throws on an invalid configuration. *)
Definition IkdTreeRegistrationMap_new (c : IkdTreeRegistrationMapConfig)
    : option IkdTreeRegistrationMap :=
  if negb (ikd_config_valid c) then None else Some (ikd_fresh c).

(** [isRepresentableAsUpstreamPoint], [toUpstreamPoint], [toEigenPoint] *)
Definition representable (p : vec3) : bool := v_allFinite p && v_all_abs_le p f32_max.
Definition toUpstreamPoint (p : vec3) : vec3f := vec3f_of_vec3 p.
Definition toEigenPoint (p : vec3f) : vec3 := vec3_of_vec3f p.

(** [Impl::validPointCount] *)
Definition validPointCount (m : IkdTreeRegistrationMap) : Z * IkdTreeRegistrationMap :=
  let '(signed_count, tree) := kt_validnum (ikm_tree m) in
  let m := m <| ikm_tree := tree |> in
  if 0 <=? signed_count then (signed_count, m <| ikm_cached_valid_point_count := signed_count |>)
  else (ikm_cached_valid_point_count m, m <| ikm_valid_point_count_busy_count ::= u64_inc |>).

(** [IkdTreeRegistrationMap::nearestSearch] *)
Definition ikd_nearestSearch (m : IkdTreeRegistrationMap) (query : vec3) (maximum_distance_m : f64)
    : bool * NeighborSet :=
  if negb (representable query) || negb (fgt maximum_distance_m fzero)
     || negb (isfinite maximum_distance_m) then (false, mkNeighbors [] [])
  else if negb (ikm_built m) then (false, mkNeighbors [] [])
  else
    let found := kt_Nearest_Search (ikm_tree m) (toUpstreamPoint query) kNeighborCapacity
                   maximum_distance_m in
    let output := mkNeighbors (map (fun f => toEigenPoint f.1) found) (map snd found) in
    (neighbors_complete output, output).

(** [build], then [Add_Points] of the rest. *)
Definition ikd_add (points : list vec3f) (rebuild : bool) (m : IkdTreeRegistrationMap)
    : IkdTreeRegistrationMap :=
  match points with
  | first :: rest =>
      if rebuild then
        let m := m <| ikm_tree ::= kt_Build [first] |> <| ikm_built := true |> in
        match rest with [] => m | _ => m <| ikm_tree ::= kt_Add_Points rest |> end
      else m <| ikm_tree ::= kt_Add_Points points |>
  | [] => m
  end.

(** [IkdTreeRegistrationMap::insert] *)
Definition ikd_insert (points_odom_m : list vec3) (m : IkdTreeRegistrationMap)
    : Z * IkdTreeRegistrationMap :=
  let points := map toUpstreamPoint (List.filter representable points_odom_m) in
  match points with
  | [] => (0, m)
  | _ =>
      let points := merge_sort upstream_sorted points in
      let '(size_before, m) := if ikm_built m then validPointCount m else (0, m) in
      let m := ikd_add points (negb (ikm_built m) || (size_before =? 0)) m in
      let '(size_after, m) := validPointCount m in
      (if size_before <? size_after then size_after - size_before else 0, m)
  end.

(** The deletion of the slabs (lines 274-284). *)
Definition ikd_delete (boxes : list (vec3f * vec3f)) (m : IkdTreeRegistrationMap)
    : IkdTreeRegistrationMap :=
  match boxes with
  | [] => m
  | _ =>
      let m := m <| ikm_tree ::= kt_Delete_Point_Boxes boxes |> in
      let '(count, m) := validPointCount m in
      if count =? 0 then m <| ikm_built := false |> else m
  end.

(** [IkdTreeRegistrationMap::cropLocal] *)
Definition ikd_cropLocal (center half : vec3) (m : IkdTreeRegistrationMap)
    : Z * IkdTreeRegistrationMap :=
  if negb (representable center) || negb (v_allFinite half) || v_any_le_scalar half fzero then (0, m)
  else
    let minimum := v_sub center half in
    let maximum := v_add center half in
    if negb (representable minimum) || negb (representable maximum) then (0, m)
    else if negb (ikm_built m) then (0, m)
    else
      let '(count, m) := validPointCount m in
      if count =? 0 then (0, m)
      else
        let '(size_before, m) := validPointCount m in
        let range := kt_tree_range (ikm_tree m) in
        let boxes := deletion_boxes range.1 (crop_tree_max range) (crop_keep_min range minimum)
                       (crop_keep_max range maximum) in
        let m := ikd_delete boxes m in
        let '(size_after, m) := validPointCount m in
        (if size_after <? size_before then size_before - size_after else 0, m).

(** [IkdTreeRegistrationMap::size] and [clear] *)
Definition ikd_size (m : IkdTreeRegistrationMap) : Z * IkdTreeRegistrationMap :=
  if ikm_built m then validPointCount m else (0, m).
Definition ikd_clear (m : IkdTreeRegistrationMap) : IkdTreeRegistrationMap := ikd_fresh (ikm_config m).

#[export] Instance ikd_registration_map : RegistrationMap IkdTreeRegistrationMap := {|
  rm_nearestSearch := ikd_nearestSearch;
  rm_insert := ikd_insert;
  rm_cropLocal := ikd_cropLocal;
  rm_size := ikd_size;
  rm_clear := ikd_clear
|}.
End Ikd.
