(* ===== verification/LioEstimator.v ===== *)
(** * The iterated Kalman filter around the vendored IKFoM

    [estimation/fast_lio_core]: [estimation/ikfom_state] and
    [estimation/ikfom_estimator].  The manifold types and the filter of IKFoM
    are vendored: the class [IkfomOps].  The measurement callback of the filter
    is a function it is given, with the state it updates; the guard against a
    reentrant callback is that structure. *)

From Stdlib Require Import Floats.SpecFloat.
From S2P Require Import Prelude Ordered RecordUpdate Float64 Geometry WorldGrid CommandContract TrackingGuard OdometryFrames Candidate.
From S2P Require Import LioTime Measurement LioState LioRegistration.

(** ** [IkfomState] and its process model *)

(** [IkfomState]: the members of [MTK_BUILD_MANIFOLD], a rotation by its
    quaternion and the gravity by its vector. *)
Record IkfomState : Type := mkIkfomState {
  ix_pos : vec3;
  ix_rot : quat;
  ix_offset_R_L_I : quat;
  ix_offset_T_L_I : vec3;
  ix_vel : vec3;
  ix_bg : vec3;
  ix_ba : vec3;
  ix_grav : vec3
}.

#[export] Instance IkfomState_eta : Eta IkfomState := fun s =>
  mkIkfomState (ix_pos s) (ix_rot s) (ix_offset_R_L_I s) (ix_offset_T_L_I s) (ix_vel s) (ix_bg s)
    (ix_ba s) (ix_grav s).

Record IkfomInput : Type := mkIkfomInput { iu_acc : vec3; iu_gyro : vec3 }.

(** What [dyn_share_datastruct] hands to the filter; [None] is [valid = false].
    From 23 rows on the variances are passed as a column. *)
Record IkfomMeasurement : Type := mkIkfomMeasurement {
  im_rows : list MeasurementRow;
  im_compact_noise : bool
}.

Record IkfomUpdateResult : Type := mkUpdateResult {
  ur_measurement_valid : bool;
  ur_numerical_failure : bool;
  ur_converged : bool;
  ur_iteration_count : Z;
  ur_final_increment_norm : f64
}.

Definition matrix : Type := nat -> nat -> f64.
Definition vector : Type := nat -> f64.

Class IkfomOps : Type := {
  (** [IkfomSo3{q}] and [IkfomGravity{v}.get_vect()] *)
  so3_of_quat : quat -> quat;
  s2_of_vec : vec3 -> vec3;
  (** [a.boxminus(r, b)] on [IkfomVector3] *)
  vect_boxminus : vec3 -> vec3 -> vec3;
  (** [state.S2_Mx(m, zero, 21)] and [state.rot.toRotationMatrix()] *)
  s2_Mx : IkfomState -> nat -> nat -> f64;
  so3_matrix : quat -> mat3;
  so3_rotate : quat -> vec3 -> vec3;
  IkfomFilter : Type;
  (** The filter [init_dyn_share] leaves: process model, its two Jacobians, the
      iteration bound and the convergence limit. *)
  fl_init : (IkfomState -> IkfomInput -> vector) -> (IkfomState -> IkfomInput -> matrix) ->
            (IkfomState -> IkfomInput -> matrix) -> Z -> f64 -> IkfomFilter;
  fl_get_x : IkfomFilter -> IkfomState;
  fl_get_P : IkfomFilter -> Covariance;
  fl_change_x : IkfomState -> IkfomFilter -> IkfomFilter;
  fl_change_P : Covariance -> IkfomFilter -> IkfomFilter;
  fl_predict : f64 -> matrix -> IkfomInput -> IkfomFilter -> IkfomFilter;
  (** [update_iterated_dyn_share] with the callback and its state *)
  fl_update : forall S : Type, (IkfomState -> S -> option IkfomMeasurement * S) -> S -> IkfomFilter ->
              IkfomUpdateResult * S * IkfomFilter
}.

(** [change_x], [change_P], [get_x] and [get_P] are assignments and reads of two
    members. *)
Class IkfomLaws (I : IkfomOps) : Prop := {
  get_change_x : forall x f, fl_get_x (fl_change_x x f) = x;
  get_change_P : forall c f, fl_get_P (fl_change_P c f) = c;
  get_x_change_P : forall c f, fl_get_x (fl_change_P c f) = fl_get_x f;
  get_P_change_x : forall x f, fl_get_P (fl_change_x x f) = fl_get_P f
}.

(** Entry [(i, j)] of the 3x3 block that starts at [(r, c)]. *)
Definition in_block (r c rows cols i j : nat) : bool :=
  (r <=? i)%nat && (i <? r + rows)%nat && (c <=? j)%nat && (j <? c + cols)%nat.
Definition m_coeff (m : mat3) (i j : nat) : f64 :=
  v_coeff (match i with O => row0 m | S O => row1 m | _ => row2 m end) j.
(** [m.block<rows, cols>(r, c) = b] *)
Definition set_block (r c rows cols : nat) (b : matrix) (m : matrix) : matrix :=
  fun i j => if in_block r c rows cols i j then b (i - r)%nat (j - c)%nat else m i j.
Definition zero_matrix : matrix := fun _ _ => fzero.
Definition identity_matrix : matrix := fun i j => if (i =? j)%nat then f64_1 else fzero.
Definition scaled (s : f64) (m : matrix) : matrix := fun i j => f64_mul s (m i j).
Definition negated (m : matrix) : matrix := fun i j => fopp (m i j).

Definition kVelocityOffset : nat := 12.
Definition kGyroBiasOffset : nat := 15.
Definition kAccelBiasOffset : nat := 18.
Definition kGravityOffset : nat := 21.
Definition kExtrinsicRotationOffset : nat := 6.
Definition kExtrinsicPositionOffset : nat := 9.

Section Process.
Context {E : EigenOps} {EMt : EigenMatOps} {EM : LioMatOps} {I : IkfomOps}.

(** [ikfomProcessModel] *)
Definition ikfomProcessModel (s : IkfomState) (u : IkfomInput) : vector :=
  let omega := vect_boxminus (iu_gyro u) (ix_bg s) in
  let acceleration := so3_rotate (ix_rot s) (v_sub (iu_acc u) (ix_ba s)) in
  fun i =>
    if (i <? 3)%nat then v_coeff (ix_vel s) i
    else if (i <? 6)%nat then v_coeff omega (i - 3)
    else if (12 <=? i)%nat && (i <? 15)%nat then
      f64_add (v_coeff acceleration (i - 12)) (v_coeff (ix_grav s) (i - 12))
    else fzero.

(** [ikfomProcessJacobianState] *)
Definition ikfomProcessJacobianState (s : IkfomState) (u : IkfomInput) : matrix :=
  let acceleration := vect_boxminus (iu_acc u) (ix_ba s) in
  let rotation := m_neg (so3_matrix (ix_rot s)) in
  set_block 3 15 3 3 (negated identity_matrix)
    (set_block 12 21 3 2 (s2_Mx s)
      (set_block 12 18 3 3 (m_coeff rotation)
        (set_block 12 3 3 3 (m_coeff (m_mul rotation (skewSymmetric acceleration)))
          (set_block 0 12 3 3 identity_matrix zero_matrix)))).

(** [ikfomProcessJacobianNoise] *)
Definition ikfomProcessJacobianNoise (s : IkfomState) (_ : IkfomInput) : matrix :=
  set_block 18 9 3 3 identity_matrix
    (set_block 15 6 3 3 identity_matrix
      (set_block 3 0 3 3 (negated identity_matrix)
        (set_block 12 3 3 3 (m_coeff (m_neg (so3_matrix (ix_rot s)))) zero_matrix))).

(** [toIkfomState] *)
Definition toIkfomState (s : ManifoldState) : IkfomState :=
  mkIkfomState (mf_position_odom_imu_m s) (so3_of_quat (mf_orientation_odom_imu s))
    (so3_of_quat (mf_rotation_imu_lidar s)) (mf_position_imu_lidar_m s) (mf_velocity_odom_imu_m_s s)
    (mf_gyro_bias_rad_s s) (mf_accel_bias_m_s2 s) (s2_of_vec (mf_gravity_odom_m_s2 s)).

(** [fromIkfomState]; the setters normalise, and so does [normalize] again. *)
Definition fromIkfomState (x : IkfomState) : ManifoldState :=
  mf_normalize
    (mkManifold (ix_pos x) (normalize_if_finite (ix_rot x)) (normalize_if_finite (ix_offset_R_L_I x))
       (ix_offset_T_L_I x) (ix_vel x) (ix_bg x) (ix_ba x) (ix_grav x)).
End Process.

(** ** The estimator *)

Record IkfomEstimatorConfig : Type := mkIkfomConfig {
  ec_maximum_iterations : Z;
  ec_minimum_accepted_residuals : Z;
  ec_maximum_integration_step_ns : Z;
  ec_convergence_limit : f64;
  ec_gyro_noise_standard_deviation : f64;
  ec_accel_noise_standard_deviation : f64;
  ec_gyro_bias_random_walk_standard_deviation : f64;
  ec_accel_bias_random_walk_standard_deviation : f64;
  ec_initial_covariance : f64
}.

(** The guards of the constructor. *)
Definition ikfom_config_invalid (c : IkfomEstimatorConfig) : bool :=
  (ec_maximum_iterations c =? 0) || (ec_minimum_accepted_residuals c =? 0)
  || (ec_maximum_integration_step_ns c <=? 0) || negb (fgt (ec_convergence_limit c) fzero)
  || negb (fgt (ec_initial_covariance c) fzero)
  || (i32_max <? ec_maximum_iterations c)
  || negb (isfinite (ec_convergence_limit c)) || negb (isfinite (ec_initial_covariance c))
  || negb (isfinite (ec_gyro_noise_standard_deviation c))
  || negb (isfinite (ec_accel_noise_standard_deviation c))
  || negb (isfinite (ec_gyro_bias_random_walk_standard_deviation c))
  || negb (isfinite (ec_accel_bias_random_walk_standard_deviation c))
  || flt (ec_gyro_noise_standard_deviation c) fzero || flt (ec_accel_noise_standard_deviation c) fzero
  || flt (ec_gyro_bias_random_walk_standard_deviation c) fzero
  || flt (ec_accel_bias_random_walk_standard_deviation c) fzero.

(** What the measurement callback updates. *)
Record measure_trace : Type := mkMeasureTrace {
  mt_residual_diagnostics : ResidualBuildDiagnostics;
  mt_call_count : Z;
  mt_query_count : Z
}.

Definition measure_trace_init : measure_trace := mkMeasureTrace build_diagnostics_default 0 0.

(** [IkfomCorrectionResult] without the run times. *)
Record IkfomCorrectionResult : Type := mkCorrection {
  cr_successful : bool;
  cr_finite : bool;
  cr_converged : bool;
  cr_reason : string;
  cr_predicted_state : ManifoldState;
  cr_corrected_state : ManifoldState;
  cr_corrected_covariance : Covariance;
  cr_residual_diagnostics : ResidualBuildDiagnostics;
  cr_iteration_count : Z;
  cr_final_increment_norm : f64;
  cr_correction_translation_norm_m : f64;
  cr_correction_rotation_norm_rad : f64;
  cr_measurement_callback_count : Z;
  cr_nearest_search_query_count : Z;
  cr_observability_rejection_count : Z
}.

Section Estimator.
Context {E : EigenOps} {EN : EigenNormOps} {EMt : EigenMatOps} {EP : EigenPoseOps} {EF : EigenFloatOps}.
Context {EM : LioMatOps} {C : CovOps} {I : IkfomOps}.

Record IkfomEstimator : Type := mkEstimator {
  ie_config : IkfomEstimatorConfig;
  ie_residual_config : ResidualBuilderConfig;
  ie_filter : IkfomFilter;
  ie_fixed_rotation_imu_lidar : quat;
  ie_fixed_position_imu_lidar_m : vec3;
  ie_fixed_gravity_odom_m_s2 : vec3;
  ie_gravity_initialized : bool
}.

#[export] Instance IkfomEstimator_eta : Eta IkfomEstimator := fun e =>
  mkEstimator (ie_config e) (ie_residual_config e) (ie_filter e) (ie_fixed_rotation_imu_lidar e)
    (ie_fixed_position_imu_lidar_m e) (ie_fixed_gravity_odom_m_s2 e) (ie_gravity_initialized e).

(** The constructor *)
Definition IkfomEstimator_new (c : IkfomEstimatorConfig) (r : ResidualBuilderConfig)
    : option IkfomEstimator :=
  if residual_config_invalid r || ikfom_config_invalid c then None
  else Some (mkEstimator c r
               (fl_init ikfomProcessModel ikfomProcessJacobianState ikfomProcessJacobianNoise
                  (ec_maximum_iterations c) (ec_convergence_limit c))
               quat_identity vec3_zero default_gravity false).

(** [stateView] and [covariance] *)
Definition stateView (e : IkfomEstimator) : ManifoldState := fromIkfomState (fl_get_x (ie_filter e)).
Definition covariance (e : IkfomEstimator) : Covariance := fl_get_P (ie_filter e).

Definition change_filter (x : IkfomState) (c : Covariance) (e : IkfomEstimator) : IkfomEstimator :=
  e <| ie_filter ::= fun f => fl_change_P c (fl_change_x x f) |>.

(** [enforceFixedGravity] *)
Definition gravity_usable (e : IkfomEstimator) : bool :=
  ie_gravity_initialized e && v_allFinite (ie_fixed_gravity_odom_m_s2 e)
  && negb (fle (v_squaredNorm (ie_fixed_gravity_odom_m_s2 e)) f64_1e_18).

(** Rows and columns 21 and 22 are cleared, then their block is set. *)
Definition fixed_gravity_covariance (c : Covariance) : Covariance :=
  set_block kGravityOffset kGravityOffset 2 2 (scaled f64_1e_12 identity_matrix)
    (set_block 0 kGravityOffset kErrorStateDimension 2 zero_matrix
      (set_block kGravityOffset 0 2 kErrorStateDimension zero_matrix c)).

Definition enforceFixedGravity (e : IkfomEstimator) (x : IkfomState) (c : Covariance)
    : IkfomState * Covariance :=
  if negb (gravity_usable e) then (x, c)
  else (x <| ix_grav := s2_of_vec (ie_fixed_gravity_odom_m_s2 e) |>, fixed_gravity_covariance c).

(** The covariance [initialize] starts from. *)
Definition initial_covariance (c : IkfomEstimatorConfig) : Covariance :=
  set_block kExtrinsicPositionOffset kExtrinsicPositionOffset 3 3 (scaled f64_1e_12 identity_matrix)
    (set_block kExtrinsicRotationOffset kExtrinsicRotationOffset 3 3 (scaled f64_1e_12 identity_matrix)
      (c_scaled_identity (ec_initial_covariance c))).

(** [IkfomEstimator::initialize], also [reset] *)
Definition estimator_initialize (s : ManifoldState) (e : IkfomEstimator) : IkfomEstimator :=
  let e := e <| ie_fixed_rotation_imu_lidar := mf_rotation_imu_lidar s |>
             <| ie_fixed_position_imu_lidar_m := mf_position_imu_lidar_m s |>
             <| ie_fixed_gravity_odom_m_s2 := s2_of_vec (mf_gravity_odom_m_s2 s) |>
             <| ie_gravity_initialized := true |> in
  let '(x, c) := enforceFixedGravity e (toIkfomState s) (initial_covariance (ie_config e)) in
  change_filter x c e.

(** [IkfomEstimator::rebase] *)
Definition estimator_rebase (s : ManifoldState) (c : Covariance) (e : IkfomEstimator) : IkfomEstimator :=
  let e := if ie_gravity_initialized e then e
           else e <| ie_fixed_gravity_odom_m_s2 := s2_of_vec (mf_gravity_odom_m_s2 s) |>
                  <| ie_gravity_initialized := true |> in
  let '(x, c) := enforceFixedGravity e (toIkfomState s) c in
  change_filter x c e.

(** ** Prediction *)

(** [covarianceValid] *)
Definition covarianceValid (c : Covariance) : bool :=
  if negb (c_allFinite c) || fgt (c_absMaxCoeff (c_asymmetry c)) (f64_lit 1 100000000) then false
  else
    match c_eigenvalues (c_symmetric c) with
    | Some values => fge (ev_minCoeff values) (fopp (f64_lit 1 10000000000))
    | None => false
    end.

(** [covarianceSaneDuringPrediction] *)
Definition covarianceSaneDuringPrediction (c : Covariance) : bool :=
  c_allFinite c
  && (let symmetry_error := c_absMaxCoeff (c_asymmetry c) in
      isfinite symmetry_error && fle symmetry_error (f64_lit 1 100000000)
      && fgt (c_minDiagonal c) (fopp (f64_lit 1 10000000000))).

(** The interpolation between two samples (lines 57-82). *)
Definition imu_between (time : Timestamp) (lower upper : ImuSample) : Result ImuSample :=
  match checkedDifference (im_time upper) (im_time lower) with
  | Error s => Error s
  | Value interval =>
      if dur_ns interval <=? 0 then Error kTimestampRegression
      else
        match checkedDifference time (im_time lower) with
        | Error s => Error s
        | Value elapsed =>
            let alpha := duration_ratio elapsed interval in
            if ratio_invalid alpha then Error kNumericalFailure
            else
              Value (mkImuSample time
                       (v_mix alpha (im_angular_velocity_imu_rad_s lower)
                                    (im_angular_velocity_imu_rad_s upper))
                       (v_mix alpha (im_linear_acceleration_imu_m_s2 lower)
                                    (im_linear_acceleration_imu_m_s2 upper)))
        end
  end.

(** [interpolateSample] *)
Definition interpolateSample (samples : list ImuSample) (time : Timestamp) : Result ImuSample :=
  let upper := lower_bound_by imu_ns (ts_ns time) samples in
  match samples !! upper with
  | None => Error kInsufficientData
  | Some u =>
      if imu_ns u =? ts_ns time then Value u
      else
        match upper with
        | O => Error kInsufficientData
        | S lower =>
            match samples !! lower with
            | Some l => imu_between time l u
            | None => Error kInsufficientData
            end
        end
  end.

(** The loop over the samples: valid, on the clock, strictly increasing. *)
Fixpoint samples_status (clock : Timestamp) (previous : option ImuSample) (samples : list ImuSample)
    : StatusCode :=
  match samples with
  | [] => kOk
  | s :: samples =>
      let validation := imu_validate s in
      if negb (status_ok validation) then validation
      else if negb (sameClockDomain (im_time s) clock) then kClockDomainMismatch
      else if match previous with Some p => imu_ns s <=? imu_ns p | None => false end
           then kTimestampRegression
      else samples_status clock (Some s) samples
  end.

Definition integration_samples (samples : list ImuSample) (start_time end_time : Timestamp)
    (start_sample end_sample : ImuSample) : list ImuSample :=
  start_sample
    :: List.filter (fun s => (ts_ns start_time <? imu_ns s) && (imu_ns s <? ts_ns end_time)) samples
    ++ (if ts_ns start_time <? ts_ns end_time then [end_sample] else []).

(** [toIkfomInput]: the mean of two samples. *)
Definition toIkfomInput (previous current : ImuSample) : IkfomInput :=
  mkIkfomInput
    (v_scale f64_half (v_add (im_linear_acceleration_imu_m_s2 previous)
                             (im_linear_acceleration_imu_m_s2 current)))
    (v_scale f64_half (v_add (im_angular_velocity_imu_rad_s previous)
                             (im_angular_velocity_imu_rad_s current))).

(** The loop over the integration steps before the filter is touched. *)
Fixpoint steps_status (maximum_step_ns : Z) (previous : ImuSample) (rest : list ImuSample) : StatusCode :=
  match rest with
  | [] => kOk
  | current :: rest =>
      match checkedDifference (im_time current) (im_time previous) with
      | Error s => s
      | Value dt =>
          if (dur_ns dt <=? 0) || (maximum_step_ns <? dur_ns dt) then kInsufficientData
          else
            let input := toIkfomInput previous current in
            if negb (v_allFinite (iu_gyro input)) || negb (v_allFinite (iu_acc input))
            then kInvalidArgument
            else steps_status maximum_step_ns current rest
      end
  end.

Definition squared (x : f64) : f64 := f64_mul x x.

(** [processNoise] *)
Definition processNoise (c : IkfomEstimatorConfig) : matrix :=
  let diagonal x : matrix := fun i j => if (i =? j)%nat then squared x else fzero in
  set_block 9 9 3 3 (diagonal (ec_accel_bias_random_walk_standard_deviation c))
    (set_block 6 6 3 3 (diagonal (ec_gyro_bias_random_walk_standard_deviation c))
      (set_block 3 3 3 3 (diagonal (ec_accel_noise_standard_deviation c))
        (set_block 0 0 3 3 (diagonal (ec_gyro_noise_standard_deviation c)) zero_matrix))).

Definition trajectoryState (s : ManifoldState) (time : Timestamp) : ImuTrajectoryState :=
  mkTrajectoryState time (mf_orientation_odom_imu s) (mf_position_odom_imu_m s)
    (mf_velocity_odom_imu_m_s s).

(** The integration loop; [inl] is the status it returns with, and whether the
    filter has been mutated ([filter_mutated]). *)
Fixpoint predict_loop (noise : matrix) (e : IkfomEstimator) (mutated : bool)
    (trajectory : ImuTrajectory) (previous : ImuSample) (rest : list ImuSample)
    : (StatusCode * bool + ImuTrajectory) * IkfomEstimator :=
  match rest with
  | [] => (inr trajectory, e)
  | current :: rest =>
      match checkedDifference (im_time current) (im_time previous) with
      | Error s => (inl (s, mutated), e)
      | Value dt =>
          let dt_seconds := f64_mul (f64_of_Z (dur_ns dt)) f64_1e_9 in
          let e := e <| ie_filter ::= fl_predict dt_seconds noise (toIkfomInput previous current) |> in
          let predicted := stateView e in
          if negb (mf_allFinite predicted) || negb (covarianceSaneDuringPrediction (covariance e))
          then (inl (kNumericalFailure, true), e)
          else
            match addState (trajectoryState predicted (im_time current)) trajectory with
            | (kOk, trajectory) => predict_loop noise e true trajectory current rest
            | (s, _) => (inl (s, true), e)
            end
      end
  end.

(** [restoreEstimatorState] *)
Definition restoreEstimatorState (mutated : bool) (before after : IkfomEstimator) : IkfomEstimator :=
  if mutated then change_filter (fl_get_x (ie_filter before)) (fl_get_P (ie_filter before)) after
  else after.

(** The integration (lines 290-326). *)
Definition predict_from (e : IkfomEstimator) (trajectory : ImuTrajectory) (steps : list ImuSample)
    : Result ImuTrajectory * IkfomEstimator :=
  match steps with
  | [] => (Value trajectory, e)
  | first :: rest =>
      match predict_loop (processNoise (ie_config e)) e false trajectory first rest with
      | (inr t, e') => (Value t, e')
      | (inl (s, mutated), e') => (Error s, restoreEstimatorState mutated e e')
      end
  end.

(** [IkfomEstimator::predict] *)
Definition predict (samples : list ImuSample) (start_time end_time : Timestamp) (e : IkfomEstimator)
    : Result ImuTrajectory * IkfomEstimator :=
  match checkedDifference end_time start_time with
  | Error s => (Error s, e)
  | Value duration =>
      if dur_ns duration <? 0 then (Error kTimestampRegression, e)
      else
        match samples with
        | [] => (Error kInsufficientData, e)
        | _ =>
            let validation := samples_status start_time None samples in
            if negb (status_ok validation) then (Error validation, e)
            else
              match interpolateSample samples start_time, interpolateSample samples end_time with
              | Error s, _ => (Error s, e)
              | _, Error s => (Error s, e)
              | Value start_sample, Value end_sample =>
                  let steps := integration_samples samples start_time end_time start_sample end_sample in
                  let status := steps_status (ec_maximum_integration_step_ns (ie_config e)) start_sample
                                  (tail steps) in
                  if negb (status_ok status) then (Error status, e)
                  else
                    match addState (trajectoryState (stateView e) start_time) ImuTrajectory_default with
                    | (kOk, trajectory) => predict_from e trajectory steps
                    | (s, _) => (Error s, e)
                    end
              end
        end
  end.

(** ** Correction *)

Section Measure.
Context {M : Type} {RM : RegistrationMap M}.

(** [buildMeasurement], the callback, on the active points and map. *)
Definition buildMeasurement (e : IkfomEstimator) (points : list vec3) (m : M) (x : IkfomState)
    (t : measure_trace) : option IkfomMeasurement * measure_trace :=
  let '(rows, diagnostics) := buildInto (ie_residual_config e) points (fromIkfomState x) m in
  let t := mkMeasureTrace diagnostics (u64_inc (mt_call_count t))
             (u64_add (mt_query_count t) (rd_query_count diagnostics)) in
  if (match rows with [] => true | _ => false end)
     || (Z.of_nat (length rows) <? ec_minimum_accepted_residuals (ie_config e))
  then (None, t)
  else (Some (mkIkfomMeasurement rows (kErrorStateDimension <=? length rows)%nat), t).

(** The extrinsic calibration and gravity are put back after the update
    (lines 372-378). *)
Definition fix_corrected (e : IkfomEstimator) : IkfomEstimator :=
  let x := (fl_get_x (ie_filter e))
             <| ix_offset_R_L_I := so3_of_quat (ie_fixed_rotation_imu_lidar e) |>
             <| ix_offset_T_L_I := ie_fixed_position_imu_lidar_m e |> in
  let '(x, c) := enforceFixedGravity e x (fl_get_P (ie_filter e)) in
  change_filter x c e.

(** Everything a correction is judged by is finite (lines 394-398). *)
Definition correction_finite (corrected : ManifoldState) (c : Covariance) (increment translation rotation : f64)
    : bool :=
  mf_allFinite corrected && covarianceValid c && isfinite increment && isfinite translation
  && isfinite rotation.

(** Lines 399-403. *)
Definition measurement_usable (config : IkfomEstimatorConfig) (u : IkfomUpdateResult)
    (d : ResidualBuildDiagnostics) : bool :=
  ur_measurement_valid u && negb (ur_numerical_failure u)
  && (ec_minimum_accepted_residuals config <=? rd_accepted_residual_count d)
  && rd_translation_observability_valid d.

Definition correction_reason (successful converged observable numerical_failure finite : bool) : string :=
  if successful then
    if converged then "IKFOM_LIDAR_UPDATE_CONVERGED"
    else "IKFOM_LIDAR_UPDATE_ACCEPTED_AT_ITERATION_LIMIT"
  else if negb observable then "INSUFFICIENT_TRANSLATIONAL_OBSERVABILITY"
  else if numerical_failure then "IKFOM_LIDAR_UPDATE_NUMERICAL_FAILURE"
  else if finite then "IKFOM_LIDAR_UPDATE_NOT_CONVERGED"
  else "IKFOM_LIDAR_UPDATE_NON_FINITE".

(** The verdict on an update (lines 379-424): [before] is the estimator the
    update started from, [e] the one it left with gravity fixed. *)
Definition correction_verdict (before e : IkfomEstimator) (u : IkfomUpdateResult) (t : measure_trace)
    : IkfomCorrectionResult :=
  let predicted := stateView before in
  let corrected := stateView e in
  let d := (mt_residual_diagnostics t) <| rd_query_count := mt_query_count t |> in
  let translation := v_norm (v_sub (mf_position_odom_imu_m corrected) (mf_position_odom_imu_m predicted)) in
  let rotation := q_angularDistance (mf_orientation_odom_imu predicted)
                    (mf_orientation_odom_imu corrected) in
  let finite := correction_finite corrected (covariance e) (ur_final_increment_norm u) translation rotation in
  let usable := measurement_usable (ie_config e) u d in
  let converged := usable && ur_converged u in
  let successful := finite && usable in
  let observable := rd_translation_observability_valid d in
  mkCorrection successful finite converged
    (correction_reason successful converged observable (ur_numerical_failure u) finite)
    predicted corrected (covariance e) d (Z.max (ur_iteration_count u) 0)
    (ur_final_increment_norm u) translation rotation (mt_call_count t) (mt_query_count t)
    (if observable then 0 else 1).

(** [IkfomEstimator::correct] *)
Definition correct (points_lidar_m : list vec3) (m : M) (before : IkfomEstimator)
    : IkfomCorrectionResult * IkfomEstimator :=
  let '(u, t, filter) :=
    fl_update measure_trace (buildMeasurement before points_lidar_m m) measure_trace_init
      (ie_filter before) in
  let e := fix_corrected (before <| ie_filter := filter |>) in
  let result := correction_verdict before e u t in
  if cr_successful result then (result, e)
  else (result, change_filter (fl_get_x (ie_filter before)) (fl_get_P (ie_filter before)) e).
End Measure.
End Estimator.
