(* ===== verification/LioPropagator.v ===== *)
(** * Propagation of corrected states at the rate of the IMU

    [estimation/fast_lio_core]: [navigation/kinematic_state_estimate.hpp],
    [navigation/angular_velocity_resolver] and
    [propagation/imu_state_propagator].  The propagator owns an estimator of its
    own, replays the IMU history from every corrected state, and predicts the
    samples that arrive after it. *)

From Stdlib Require Import Floats.SpecFloat.
From S2P Require Import Prelude Ordered RecordUpdate Float64 Geometry WorldGrid CommandContract TrackingGuard OdometryFrames Candidate.
From S2P Require Import LioTime Measurement LioState LioRegistration LioEstimator.

(** ** [AngularVelocityResolver] *)

Record KinematicStateEstimate : Type := mkKinematic {
  kn_estimate : StateEstimate;
  kn_angular_velocity_imu_rad_s : vec3
}.

Record AngularVelocityDiagnostics : Type := mkAngularDiagnostics {
  ad_angular_velocity_available : bool;
  ad_exact_sample_count : Z;
  ad_interpolated_count : Z;
  ad_missing_bracket_count : Z;
  ad_timestamp_mismatch_count : Z;
  ad_nonfinite_reject_count : Z
}.

#[export] Instance AngularVelocityDiagnostics_eta : Eta AngularVelocityDiagnostics := fun d =>
  mkAngularDiagnostics (ad_angular_velocity_available d) (ad_exact_sample_count d)
    (ad_interpolated_count d) (ad_missing_bracket_count d) (ad_timestamp_mismatch_count d)
    (ad_nonfinite_reject_count d).

Definition angular_diagnostics_default : AngularVelocityDiagnostics :=
  mkAngularDiagnostics false 0 0 0 0 0.

(** [recordFailure] *)
Definition recordFailure (s : StatusCode) (d : AngularVelocityDiagnostics) : AngularVelocityDiagnostics :=
  match s with
  | kMissingStartBracket | kMissingEndBracket => d <| ad_missing_bracket_count ::= u64_inc |>
  | kClockDomainMismatch | kTimestampRegression => d <| ad_timestamp_mismatch_count ::= u64_inc |>
  | kInvalidArgument | kNumericalFailure => d <| ad_nonfinite_reject_count ::= u64_inc |>
  | _ => d
  end.

Section Resolver.
Context {E : EigenOps} {EF : EigenFloatOps} {C : CovOps}.

(** [failure] *)
Definition resolve_failure {A} (s : StatusCode) (d : AngularVelocityDiagnostics)
    : Result A * AngularVelocityDiagnostics :=
  (Error s, recordFailure s d).

(** [finish] *)
Definition resolve_finish (e : StateEstimate) (raw_omega : vec3) (interpolated : bool)
    (d : AngularVelocityDiagnostics) : Result KinematicStateEstimate * AngularVelocityDiagnostics :=
  if negb (es_allFinite e) || negb (v_allFinite raw_omega)
     || negb (v_allFinite (mf_gyro_bias_rad_s (es_state e)))
  then resolve_failure kNumericalFailure d
  else
    let omega := v_sub raw_omega (mf_gyro_bias_rad_s (es_state e)) in
    if negb (v_allFinite omega) then resolve_failure kNumericalFailure d
    else
      let d := d <| ad_angular_velocity_available := true |> in
      (Value (mkKinematic e omega),
       if interpolated then d <| ad_interpolated_count ::= u64_inc |>
       else d <| ad_exact_sample_count ::= u64_inc |>).

(** [AngularVelocityResolver::resolveExact] *)
Definition resolveExact (e : StateEstimate) (sample : ImuSample) (d : AngularVelocityDiagnostics)
    : Result KinematicStateEstimate * AngularVelocityDiagnostics :=
  if negb (sameClockDomain (es_time e) (im_time sample)) then resolve_failure kClockDomainMismatch d
  else if es_time e !=? im_time sample then resolve_failure kTimestampRegression d
  else
    let status := imu_validate sample in
    if negb (status_ok status) then resolve_failure status d
    else resolve_finish e (im_angular_velocity_imu_rad_s sample) false d.

(** The interpolation inside a bracket (lines 138-174). *)
Definition resolve_between (e : StateEstimate) (before after : ImuSample)
    (d : AngularVelocityDiagnostics) : Result KinematicStateEstimate * AngularVelocityDiagnostics :=
  if negb (sameClockDomain (im_time before) (im_time after)) || (imu_ns after <=? imu_ns before)
     || (ts_ns (es_time e) <? imu_ns before) || (imu_ns after <? ts_ns (es_time e))
  then resolve_failure kTimestampRegression d
  else
    match checkedDifference (es_time e) (im_time before),
          checkedDifference (im_time after) (im_time before) with
    | Error s, _ => resolve_failure s d
    | _, Error s => resolve_failure s d
    | Value numerator, Value denominator =>
        let alpha := f80_div (f80_of_Z (dur_ns numerator)) (f80_of_Z (dur_ns denominator)) in
        if negb (isfinite alpha) || flt alpha fzero || fgt alpha (f80_of_Z 1)
        then resolve_failure kNumericalFailure d
        else
          resolve_finish e
            (v_add (im_angular_velocity_imu_rad_s before)
               (v_scale (f64_of_f80 alpha)
                  (v_sub (im_angular_velocity_imu_rad_s after) (im_angular_velocity_imu_rad_s before))))
            true d
    end.

(** [AngularVelocityResolver::resolve] *)
Definition resolve (e : StateEstimate) (samples : list ImuSample) (d : AngularVelocityDiagnostics)
    : Result KinematicStateEstimate * AngularVelocityDiagnostics :=
  if negb (es_allFinite e) then resolve_failure kNumericalFailure d
  else
    match samples with
    | [] => resolve_failure kMissingStartBracket d
    | _ =>
        let status := samples_status (es_time e) None samples in
        if negb (status_ok status) then resolve_failure status d
        else
          let upper := lower_bound_by imu_ns (ts_ns (es_time e)) samples in
          match samples !! upper, upper with
          | Some u, O =>
              if im_time u ==? es_time e
              then resolve_finish e (im_angular_velocity_imu_rad_s u) false d
              else resolve_failure kMissingStartBracket d
          | Some u, S lower =>
              if im_time u ==? es_time e
              then resolve_finish e (im_angular_velocity_imu_rad_s u) false d
              else
                match samples !! lower with
                | Some before => resolve_between e before u d
                | None => resolve_failure kMissingStartBracket d
                end
          | None, O => resolve_failure kMissingStartBracket d
          | None, S _ => resolve_failure kMissingEndBracket d
          end
    end.
End Resolver.

(** ** [ImuStatePropagator] *)

Inductive PropagatedOdometryStatus : Type :=
| po_kWaitingForCorrection
| po_kReady
| po_kTimestampRegression
| po_kImuGap
| po_kMissingBracket
| po_kInvalidState
| po_kStaleCorrection
| po_kMainEstimatorInvalid
| po_kQueueOverflow.

#[export] Instance PropagatedOdometryStatus_eq_dec : EqDecision PropagatedOdometryStatus.
Proof. solve_decision. Defined.

(** [toString] *)
Definition propagated_status_name (s : PropagatedOdometryStatus) : string :=
  match s with
  | po_kWaitingForCorrection => "WAITING_FOR_CORRECTION"
  | po_kReady => "READY"
  | po_kTimestampRegression => "TIMESTAMP_REGRESSION"
  | po_kImuGap => "IMU_GAP"
  | po_kMissingBracket => "MISSING_BRACKET"
  | po_kInvalidState => "INVALID_STATE"
  | po_kStaleCorrection => "STALE_CORRECTION"
  | po_kMainEstimatorInvalid => "MAIN_ESTIMATOR_INVALID"
  | po_kQueueOverflow => "QUEUE_OVERFLOW"
  end.

Inductive ImuRecordDisposition : Type := kRecorded | kContinuityRestarted | kRejected.

Record ImuStatePropagatorDiagnostics : Type := mkPropagatorDiagnostics {
  gd_status : PropagatedOdometryStatus;
  gd_anchor_time : option Timestamp;
  gd_propagated_time : option Timestamp;
  gd_latest_imu_time : option Timestamp;
  gd_current_imu_history_size : Z;
  gd_maximum_imu_history_size : Z;
  gd_reanchor_count : Z;
  gd_replay_count : Z;
  gd_last_replay_sample_count : Z;
  gd_timestamp_regression_count : Z;
  gd_imu_gap_count : Z;
  gd_missing_bracket_count : Z;
  gd_invalid_state_count : Z;
  gd_requires_reanchor : bool;
  gd_continuity_epoch : Z;
  gd_continuity_reset_count : Z;
  gd_last_continuity_reset_time : option Timestamp;
  gd_angular_velocity : AngularVelocityDiagnostics
}.

#[export] Instance ImuStatePropagatorDiagnostics_eta : Eta ImuStatePropagatorDiagnostics := fun d =>
  mkPropagatorDiagnostics (gd_status d) (gd_anchor_time d) (gd_propagated_time d)
    (gd_latest_imu_time d) (gd_current_imu_history_size d) (gd_maximum_imu_history_size d)
    (gd_reanchor_count d) (gd_replay_count d) (gd_last_replay_sample_count d)
    (gd_timestamp_regression_count d) (gd_imu_gap_count d) (gd_missing_bracket_count d)
    (gd_invalid_state_count d) (gd_requires_reanchor d) (gd_continuity_epoch d)
    (gd_continuity_reset_count d) (gd_last_continuity_reset_time d) (gd_angular_velocity d).

Definition propagator_diagnostics_default : ImuStatePropagatorDiagnostics :=
  mkPropagatorDiagnostics po_kWaitingForCorrection None None None 0 0 0 0 0 0 0 0 0 true 0 0 None
    angular_diagnostics_default.

Section Propagator.
Context {E : EigenOps} {EN : EigenNormOps} {EMt : EigenMatOps} {EP : EigenPoseOps} {EF : EigenFloatOps}.
Context {EM : LioMatOps} {C : CovOps} {I : IkfomOps}.

Record ImuStatePropagator : Type := mkPropagator {
  pg_imu_history_duration_ns : Z;
  pg_estimator : IkfomEstimator;
  pg_history : list ImuSample;
  pg_diagnostics : ImuStatePropagatorDiagnostics;
  pg_valid : bool;
  pg_previous_imu_sample : option ImuSample;
  pg_pending_prediction_samples : list ImuSample;
  pg_requires_reanchor : bool;
  pg_continuity_epoch : Z
}.

#[export] Instance ImuStatePropagator_eta : Eta ImuStatePropagator := fun p =>
  mkPropagator (pg_imu_history_duration_ns p) (pg_estimator p) (pg_history p) (pg_diagnostics p)
    (pg_valid p) (pg_previous_imu_sample p) (pg_pending_prediction_samples p)
    (pg_requires_reanchor p) (pg_continuity_epoch p).

(** The constructor; it throws. *)
Definition ImuStatePropagator_new (c : IkfomEstimatorConfig) (r : ResidualBuilderConfig)
    (imu_history_duration_ns : Z) : option ImuStatePropagator :=
  if imu_history_duration_ns <=? 0 then None
  else (fun e => mkPropagator imu_history_duration_ns e [] propagator_diagnostics_default false None []
                   true 0) <$> IkfomEstimator_new c r.

(** An update of the diagnostics. *)
Definition diag (f : ImuStatePropagatorDiagnostics -> ImuStatePropagatorDiagnostics)
    (p : ImuStatePropagator) : ImuStatePropagator := p <| pg_diagnostics ::= f |>.

(** The counter and status [setFailure] records. *)
Definition count_failure (s : StatusCode) (d : ImuStatePropagatorDiagnostics)
    : ImuStatePropagatorDiagnostics :=
  match s with
  | kTimestampRegression =>
      d <| gd_status := po_kTimestampRegression |> <| gd_timestamp_regression_count ::= u64_inc |>
  | kImuGap | kInsufficientData =>
      d <| gd_status := po_kImuGap |> <| gd_imu_gap_count ::= u64_inc |>
  | kMissingStartBracket | kMissingEndBracket =>
      d <| gd_status := po_kMissingBracket |> <| gd_missing_bracket_count ::= u64_inc |>
  | _ => d <| gd_status := po_kInvalidState |> <| gd_invalid_state_count ::= u64_inc |>
  end.

(** The state in which only a replay makes the output valid again. *)
Definition require_reanchor (p : ImuStatePropagator) : ImuStatePropagator :=
  diag (fun d => d <| gd_requires_reanchor := true |>)
    (p <| pg_valid := false |> <| pg_requires_reanchor := true |>).

(** [ImuStatePropagator::setFailure] *)
Definition setFailure (s : StatusCode) (p : ImuStatePropagator) : ImuStatePropagator :=
  diag (count_failure s) ((require_reanchor p) <| pg_pending_prediction_samples := [] |>).

(** [ImuStatePropagator::invalidate] *)
Definition propagator_invalidate (s : PropagatedOdometryStatus) (p : ImuStatePropagator)
    : ImuStatePropagator :=
  diag (fun d => d <| gd_status := s |>) ((require_reanchor p) <| pg_pending_prediction_samples := [] |>).

Definition history_size (p : ImuStatePropagator) : Z := Z.of_nat (length (pg_history p)).

(** [diagnostics_.current_imu_history_size = history_.size()] *)
Definition note_history_size (p : ImuStatePropagator) : ImuStatePropagator :=
  diag (fun d => d <| gd_current_imu_history_size := history_size p |>) p.

(** The maximum, then the current size, after a sample was recorded. *)
Definition note_maximum (p : ImuStatePropagator) : ImuStatePropagator :=
  diag (fun d => d <| gd_maximum_imu_history_size ::= Z.max (history_size p) |>) p.

(** The loop of [pruneHistory]: the front goes while the second is too old. *)
Fixpoint prune_front (cutoff : Z) (history : list ImuSample) : list ImuSample :=
  match history with
  | first :: rest =>
      match rest with
      | second :: _ => if imu_ns second <? cutoff then prune_front cutoff rest else history
      | [] => history
      end
  | [] => []
  end.

(** [ImuStatePropagator::pruneHistory] *)
Definition pruneHistory (p : ImuStatePropagator) : ImuStatePropagator :=
  match gd_latest_imu_time (pg_diagnostics p) with
  | None => p
  | Some latest =>
      if ts_ns latest <=? pg_imu_history_duration_ns p then note_history_size p
      else
        match checkedSubtract latest (mkDuration (pg_imu_history_duration_ns p)) with
        | Error s => setFailure s p
        | Value cutoff => note_history_size (p <| pg_history ::= prune_front (ts_ns cutoff) |>)
        end
  end.

(** [ImuStatePropagator::restartContinuity] *)
Definition restartContinuity (sample : ImuSample) (p : ImuStatePropagator)
    : (StatusCode * ImuRecordDisposition) * ImuStatePropagator :=
  let p := require_reanchor p in
  if pg_continuity_epoch p =? u64_max then ((kOutOfRange, kRejected), setFailure kOutOfRange p)
  else
    let epoch := pg_continuity_epoch p + 1 in
    let p := p <| pg_continuity_epoch := epoch |> <| pg_history := [sample] |>
               <| pg_pending_prediction_samples := [] |> <| pg_previous_imu_sample := Some sample |> in
    let p := diag (fun d => d <| gd_continuity_epoch := epoch |> <| gd_continuity_reset_count ::= u64_inc |>
                 <| gd_last_continuity_reset_time := Some (im_time sample) |>
                 <| gd_imu_gap_count ::= u64_inc |> <| gd_status := po_kImuGap |>
                 <| gd_anchor_time := None |> <| gd_propagated_time := None |>
                 <| gd_latest_imu_time := Some (im_time sample) |>) p in
    ((kImuGap, kContinuityRestarted), note_history_size (note_maximum p)).

(** A sample that continues the stream (lines 99-113). *)
Definition record_sample (append_pending : bool) (sample : ImuSample) (p : ImuStatePropagator)
    : ImuStatePropagator :=
  let p := p <| pg_history ::= fun h => h ++ [sample] |> in
  let p := note_maximum (diag (fun d => d <| gd_latest_imu_time := Some (im_time sample) |>) p) in
  let p := if has (pg_previous_imu_sample p) then p else p <| pg_previous_imu_sample := Some sample |> in
  let p := if append_pending && negb (pg_requires_reanchor p)
              && has (gd_propagated_time (pg_diagnostics p))
           then p <| pg_pending_prediction_samples ::= fun l => l ++ [sample] |> else p in
  note_history_size (pruneHistory p).

(** [ImuStatePropagator::validateAndRecordImu]; [acceptImu] appends to the
    pending samples, [recordImuForReplay] does not. *)
Definition validateAndRecordImu (append_pending : bool) (sample : ImuSample) (p : ImuStatePropagator)
    : (StatusCode * ImuRecordDisposition) * ImuStatePropagator :=
  let reject s := ((s, kRejected), setFailure s p) in
  let status := imu_validate sample in
  if negb (status_ok status) then reject status
  else
    match gd_latest_imu_time (pg_diagnostics p) with
    | None => ((kOk, kRecorded), record_sample append_pending sample p)
    | Some latest =>
        if negb (sameClockDomain (im_time sample) latest) then reject kClockDomainMismatch
        else if imu_ns sample <=? ts_ns latest then reject kTimestampRegression
        else
          match checkedDifference (im_time sample) latest with
          | Error s => reject s
          | Value interval =>
              if ec_maximum_integration_step_ns (ie_config (pg_estimator p)) <? dur_ns interval
              then restartContinuity sample p
              else ((kOk, kRecorded), record_sample append_pending sample p)
          end
    end.

Definition acceptImu : ImuSample -> ImuStatePropagator ->
    (StatusCode * ImuRecordDisposition) * ImuStatePropagator := validateAndRecordImu true.
Definition recordImuForReplay : ImuSample -> ImuStatePropagator ->
    (StatusCode * ImuRecordDisposition) * ImuStatePropagator := validateAndRecordImu false.

(** The propagated output is valid again. *)
Definition make_ready (p : ImuStatePropagator) : ImuStatePropagator :=
  diag (fun d => d <| gd_requires_reanchor := false |> <| gd_status := po_kReady |>)
    (p <| pg_valid := true |> <| pg_requires_reanchor := false |>).

(** [ImuStatePropagator::flushPendingPrediction]; the dereference of
    [previous_imu_sample_] is safe because a pending sample was recorded. *)
Definition flushPendingPrediction (p : ImuStatePropagator) : StatusCode * ImuStatePropagator :=
  match gd_propagated_time (pg_diagnostics p), last (pg_pending_prediction_samples p) with
  | Some propagated, Some back =>
      if pg_requires_reanchor p then (kNotReady, p)
      else
        let samples := option_list (pg_previous_imu_sample p) ++ pg_pending_prediction_samples p in
        match predict samples propagated (im_time back) (pg_estimator p) with
        | (Error s, e) => (s, setFailure s (p <| pg_estimator := e |>))
        | (Value _, e) =>
            (kOk, make_ready
                    (diag (fun d => d <| gd_propagated_time := Some (im_time back) |>)
                       (p <| pg_estimator := e |> <| pg_previous_imu_sample := Some back |>
                          <| pg_pending_prediction_samples := [] |>)))
        end
  | _, _ => (kOk, p)
  end.

(** [ImuStatePropagator::bracketHistory] *)
Definition bracketHistory (boundary : Timestamp) (p : ImuStatePropagator) : Result nat :=
  match pg_history p with
  | [] => Error kMissingStartBracket
  | history =>
      let upper := lower_bound_by imu_ns (ts_ns boundary) history in
      match history !! upper with
      | None => Error kMissingEndBracket
      | Some u =>
          if imu_ns u =? ts_ns boundary then Value upper
          else match upper with O => Error kMissingStartBracket | S first => Value first end
      end
  end.

(** [ImuStatePropagator::validateState] *)
Definition validateState (p : ImuStatePropagator) : StatusCode :=
  if negb (mf_allFinite (stateView (pg_estimator p))) || negb (covarianceValid (covariance (pg_estimator p)))
  then kNumericalFailure else kOk.

(** What a failed replay puts back. *)
Definition restore_anchor (before p : ImuStatePropagator) : ImuStatePropagator :=
  diag (fun d => d <| gd_anchor_time := gd_anchor_time (pg_diagnostics before) |>
                   <| gd_propagated_time := gd_propagated_time (pg_diagnostics before) |>)
    (p <| pg_estimator ::= estimator_rebase (stateView (pg_estimator before))
                             (covariance (pg_estimator before)) |>
       <| pg_valid := pg_valid before |>).

(** The rebase and the replay (lines 199-241). *)
Definition replay_from (corrected : StateEstimate) (first : nat) (latest : Timestamp)
    (p : ImuStatePropagator) : StatusCode * ImuStatePropagator :=
  let samples := drop first (pg_history p) in
  let q := diag (fun d => d <| gd_anchor_time := Some (es_time corrected) |>
                            <| gd_propagated_time := Some (es_time corrected) |>)
             (p <| pg_estimator ::= estimator_rebase (es_state corrected) (es_covariance corrected) |>) in
  match predict samples (es_time corrected) latest (pg_estimator q) with
  | (Error s, e) => (s, setFailure s (restore_anchor p (q <| pg_estimator := e |>)))
  | (Value _, e) =>
      let q := diag (fun d => d <| gd_propagated_time := Some latest |>)
                 (q <| pg_estimator := e |> <| pg_previous_imu_sample := last (pg_history p) |>
                    <| pg_pending_prediction_samples := [] |>) in
      let status := validateState q in
      if negb (status_ok status) then (status, setFailure status (restore_anchor p q))
      else
        let q := diag (fun d => d <| gd_reanchor_count ::= u64_inc |> <| gd_replay_count ::= u64_inc |>
                       <| gd_last_replay_sample_count := Z.of_nat (length samples) |>) (make_ready q) in
        (kOk, note_history_size (pruneHistory q))
  end.

(** [ImuStatePropagator::reanchorAndReplay] *)
Definition reanchorAndReplay (corrected : StateEstimate) (p : ImuStatePropagator)
    : StatusCode * ImuStatePropagator :=
  if negb (es_allFinite corrected) || negb (covarianceValid (es_covariance corrected))
  then (kNumericalFailure, setFailure kNumericalFailure p)
  else
    match bracketHistory (es_time corrected) p, gd_latest_imu_time (pg_diagnostics p) with
    | Error s, _ => (s, setFailure s p)
    | Value _, None => (kClockDomainMismatch, p) (* a history without a latest time does not occur *)
    | Value first, Some latest =>
        if negb (sameClockDomain (es_time corrected) latest)
        then (kClockDomainMismatch, setFailure kClockDomainMismatch p)
        else replay_from corrected first latest p
    end.

(** [ImuStatePropagator::reset] *)
Definition propagator_reset (p : ImuStatePropagator) : ImuStatePropagator :=
  let epoch := if pg_continuity_epoch p <? u64_max then pg_continuity_epoch p + 1
               else pg_continuity_epoch p in
  diag (fun d => d <| gd_status := po_kWaitingForCorrection |> <| gd_anchor_time := None |>
                   <| gd_propagated_time := None |> <| gd_latest_imu_time := None |>
                   <| gd_current_imu_history_size := 0 |> <| gd_requires_reanchor := true |>
                   <| gd_continuity_epoch := epoch |> <| gd_continuity_reset_count ::= u64_inc |>)
    (p <| pg_estimator ::= estimator_initialize ManifoldState_default |> <| pg_history := [] |>
       <| pg_pending_prediction_samples := [] |> <| pg_previous_imu_sample := None |>
       <| pg_valid := false |> <| pg_requires_reanchor := true |> <| pg_continuity_epoch := epoch |>).

(** [ImuStatePropagator::estimate] *)
Definition estimate (p : ImuStatePropagator) : option StateEstimate :=
  if negb (pg_valid p) then None
  else (fun t => mkEstimate t (stateView (pg_estimator p)) (covariance (pg_estimator p)))
         <$> gd_propagated_time (pg_diagnostics p).

(** [ImuStatePropagator::kinematicEstimate] *)
Definition kinematicEstimate (p : ImuStatePropagator)
    : option KinematicStateEstimate * ImuStatePropagator :=
  match estimate p, last (pg_history p) with
  | Some e, Some back =>
      if im_time back !=? es_time e then
        (None, diag (fun d => d <| gd_angular_velocity ::= fun a =>
                                     a <| ad_timestamp_mismatch_count ::= u64_inc |> |>) p)
      else
        let '(r, a) := resolveExact e back (gd_angular_velocity (pg_diagnostics p)) in
        (match r with Value k => Some k | Error _ => None end,
         diag (fun d => d <| gd_angular_velocity := a |>) p)
  | _, _ => (None, p)
  end.
End Propagator.
