(* ===== verification/LioInit.v ===== *)
(** * Initialisation of the estimator

    [estimation/fast_lio_core]: [initialization/] (the stationary IMU
    initializer, the initial-state prior, its policy and the applicator that
    puts it on the state).  A C++ [enum class] value outside its enumerators,
    which [InitialStatePriorPolicy::validate] also refuses, does not exist
    here. *)

From Stdlib Require Import Floats.SpecFloat.
From S2P Require Import Prelude Ordered RecordUpdate Float64 Geometry WorldGrid CommandContract TrackingGuard OdometryFrames Candidate.
From S2P Require Import LioTime Measurement LioState LioRegistration.

(** ** [InitialStatePrior] *)

Inductive InitialStatePriorSource : Type := ps_kZero | ps_kFixed | ps_kTopic.
Inductive InitialStatePriorContext : Type := kGroundStartup | kInFlightReinitialization.
Inductive PriorAttitudeMode : Type := pa_kNone | pa_kYawOnly | pa_kFull.
Inductive InitialPriorFallback : Type := pf_kReject | pf_kZero | pf_kFixed.
Inductive InitialPriorStatus : Type :=
| ip_kNotRequired | ip_kWaiting | ip_kCandidateAvailable | ip_kApplied | ip_kFallbackApplied
| ip_kRejected | ip_kClosed.

#[export] Instance InitialStatePriorSource_eq_dec : EqDecision InitialStatePriorSource.
Proof. solve_decision. Defined.
#[export] Instance InitialStatePriorContext_eq_dec : EqDecision InitialStatePriorContext.
Proof. solve_decision. Defined.
#[export] Instance PriorAttitudeMode_eq_dec : EqDecision PriorAttitudeMode.
Proof. solve_decision. Defined.
#[export] Instance InitialPriorFallback_eq_dec : EqDecision InitialPriorFallback.
Proof. solve_decision. Defined.
#[export] Instance InitialPriorStatus_eq_dec : EqDecision InitialPriorStatus.
Proof. solve_decision. Defined.

(** The four [toString] *)
Definition prior_source_name (s : InitialStatePriorSource) : string :=
  match s with ps_kZero => "zero" | ps_kFixed => "fixed" | ps_kTopic => "topic" end.
Definition prior_context_name (c : InitialStatePriorContext) : string :=
  match c with
  | kGroundStartup => "ground_startup"
  | kInFlightReinitialization => "in_flight_reinitialization"
  end.
Definition prior_attitude_name (m : PriorAttitudeMode) : string :=
  match m with pa_kNone => "none" | pa_kYawOnly => "yaw_only" | pa_kFull => "full" end.
Definition prior_status_name (s : InitialPriorStatus) : string :=
  match s with
  | ip_kNotRequired => "not_required"
  | ip_kWaiting => "waiting"
  | ip_kCandidateAvailable => "candidate_available"
  | ip_kApplied => "applied"
  | ip_kFallbackApplied => "fallback_applied"
  | ip_kRejected => "rejected"
  | ip_kClosed => "closed"
  end.

Record InitialStatePriorMask : Type := mkPriorMask {
  mk_position : bool;
  mk_velocity : bool;
  mk_attitude : PriorAttitudeMode
}.

Record InitialStatePrior : Type := mkPrior {
  pi_sample_time : Timestamp;
  pi_reference_frame : FrameId;
  pi_body_frame : FrameId;
  pi_source : InitialStatePriorSource;
  pi_context : InitialStatePriorContext;
  pi_mask : InitialStatePriorMask;
  pi_position_odom_base_m : vec3;
  pi_orientation_odom_base : quat;
  pi_linear_velocity_base_m_s : option vec3;
  pi_angular_velocity_base_rad_s : option vec3;
  pi_covariance : option Covariance;
  pi_generation : Z;
  pi_provenance : string
}.

#[export] Instance InitialStatePrior_eta : Eta InitialStatePrior := fun p =>
  mkPrior (pi_sample_time p) (pi_reference_frame p) (pi_body_frame p) (pi_source p) (pi_context p)
    (pi_mask p) (pi_position_odom_base_m p) (pi_orientation_odom_base p)
    (pi_linear_velocity_base_m_s p) (pi_angular_velocity_base_rad_s p) (pi_covariance p)
    (pi_generation p) (pi_provenance p).

Definition prior_mask_default : InitialStatePriorMask := mkPriorMask false false pa_kNone.
Definition InitialStatePrior_default : InitialStatePrior :=
  mkPrior timestamp_zero lioOdomFrame baseFrame ps_kZero kGroundStartup prior_mask_default vec3_zero
    quat_identity None None None 0 "".

Section Prior.
Context {E : EigenOps} {C : CovOps}.

Definition optional_finite (v : option vec3) : bool :=
  match v with Some v => v_allFinite v | None => true end.

(** [InitialStatePrior::allFinite] *)
Definition prior_allFinite (p : InitialStatePrior) : bool :=
  let squared_norm := q_squaredNorm (pi_orientation_odom_base p) in
  v_allFinite (pi_position_odom_base_m p) && q_allFinite (pi_orientation_odom_base p)
  && isfinite squared_norm && fle (fabs (f64_sub squared_norm f64_1)) f64_1e_6
  && optional_finite (pi_linear_velocity_base_m_s p)
  && optional_finite (pi_angular_velocity_base_rad_s p)
  && match pi_covariance p with Some c => c_allFinite c | None => true end.
End Prior.

(** ** [InitialStatePriorPolicy] *)

Record InitialStatePriorPolicy : Type := mkPriorPolicy {
  pp_source : InitialStatePriorSource;
  pp_context : InitialStatePriorContext;
  pp_mask : InitialStatePriorMask;
  pp_topic_wait_timeout_ns : Z;
  pp_maximum_topic_prior_age_ns : Z;
  pp_ground_fallback : InitialPriorFallback;
  pp_maximum_full_attitude_tilt_disagreement_rad : f64;
  pp_fixed_prior : InitialStatePrior
}.

Section Policy.
Context {E : EigenOps} {C : CovOps}.

(** The fixed prior has the frames and the values a fixed source needs. *)
Definition fixed_prior_usable (p : InitialStatePrior) : bool :=
  (pi_source p ==? ps_kFixed) && negb (frame_empty (pi_reference_frame p))
  && negb (frame_empty (pi_body_frame p)) && prior_allFinite p.

(** [InitialStatePriorPolicy::validate] *)
Definition policy_validate (p : InitialStatePriorPolicy) : StatusCode :=
  let tilt := pp_maximum_full_attitude_tilt_disagreement_rad p in
  if (pp_topic_wait_timeout_ns p <? 0) || (pp_maximum_topic_prior_age_ns p <? 0)
     || negb (isfinite tilt) || flt tilt fzero || fgt tilt f64_pi then kInvalidArgument
  else if (pp_source p ==? ps_kTopic) && (pp_context p ==? kInFlightReinitialization)
          && (pp_ground_fallback p !=? pf_kReject) then kInvalidArgument
  else if (pp_source p ==? ps_kFixed)
          && ((pi_context (pp_fixed_prior p) !=? pp_context p) || negb (fixed_prior_usable (pp_fixed_prior p)))
       then kInvalidArgument
  else if (pp_ground_fallback p ==? pf_kFixed) && negb (fixed_prior_usable (pp_fixed_prior p))
       then kInvalidArgument
  else kOk.
End Policy.

(** ** [ImuInitializer] *)

Record ImuInitializerConfig : Type := mkInitializerConfig {
  ii_minimum_imu_samples : Z;
  ii_maximum_imu_samples : Z;
  ii_require_stationary : bool;
  ii_gravity_magnitude_m_s2 : f64;
  ii_maximum_gyro_mean_norm_rad_s : f64;
  ii_maximum_gyro_variance_rad2_s2 : f64;
  ii_maximum_accel_variance_m2_s4 : f64;
  ii_maximum_gravity_norm_error_m_s2 : f64
}.

Definition finite_nonnegative (x : f64) : bool := isfinite x && negb (flt x fzero).

(** The guards of the constructor. *)
Definition initializer_config_invalid (c : ImuInitializerConfig) : bool :=
  (ii_maximum_imu_samples c =? 0) || (ii_minimum_imu_samples c =? 0)
  || (ii_maximum_imu_samples c <? ii_minimum_imu_samples c)
  || negb (isfinite (ii_gravity_magnitude_m_s2 c)) || fle (ii_gravity_magnitude_m_s2 c) fzero
  || negb (finite_nonnegative (ii_maximum_gyro_mean_norm_rad_s c))
  || negb (finite_nonnegative (ii_maximum_gyro_variance_rad2_s2 c))
  || negb (finite_nonnegative (ii_maximum_accel_variance_m2_s4 c))
  || negb (finite_nonnegative (ii_maximum_gravity_norm_error_m_s2 c)).

Record ImuInitializer : Type := mkInitializer {
  in_config : ImuInitializerConfig;
  in_samples : list ImuSample;
  in_timestamp_validator : TimestampValidator
}.

Record InitializationQuality : Type := mkQuality {
  iq_samples_collected : Z;
  iq_gyro_mean_rad_s : vec3;
  iq_gyro_variance_rad2_s2 : vec3;
  iq_accel_mean_m_s2 : vec3;
  iq_accel_variance_m2_s4 : vec3;
  iq_measured_gravity_norm_m_s2 : f64;
  iq_stationary : bool
}.

Record InitializationResult : Type := mkInitialization {
  ir_orientation_odom_imu : quat;
  ir_gyro_bias_rad_s : vec3;
  ir_accel_bias_m_s2 : vec3;
  ir_gravity_odom_m_s2 : vec3;
  ir_quality : InitializationQuality
}.

(** The operations of Eigen only the initialisation uses. *)
Class LioInitOps : Type := {
  (** [Quaterniond::FromTwoVectors(a, b)] *)
  q_fromTwoVectors : vec3 -> vec3 -> quat;
  (** [std::acos] *)
  std_acos : f64 -> f64
}.

(** Three [long double] accumulators. *)
Record vec3l : Type := Vec3l { lx : f80; ly : f80; lz : f80 }.
Definition vec3l_zero : vec3l := Vec3l fzero fzero fzero.

(** The sums of a member over the samples. *)
Definition sum_step (value : ImuSample -> vec3) (a : vec3l) (s : ImuSample) : vec3l :=
  let v := value s in
  Vec3l (f80_add (lx a) (f80_of_f64 (vx v))) (f80_add (ly a) (f80_of_f64 (vy v)))
        (f80_add (lz a) (f80_of_f64 (vz v))).

Definition scaled_down (a : vec3l) (n : nat) : vec3 :=
  let d := f80_of_Z (Z.of_nat n) in
  Vec3 (f64_of_f80 (f80_div (lx a) d)) (f64_of_f80 (f80_div (ly a) d)) (f64_of_f80 (f80_div (lz a) d)).

Definition sample_mean (value : ImuSample -> vec3) (samples : list ImuSample) : vec3 :=
  scaled_down (foldl (sum_step value) vec3l_zero samples) (length samples).

Section Initializer.
Context {E : EigenOps} {EN : EigenNormOps} {EM : LioMatOps} {ER : EigenRotOps} {EI : LioInitOps}.
Context {EMt : EigenMatOps}.

Definition square_step (value : ImuSample -> vec3) (mean : vec3) (a : vec3l) (s : ImuSample) : vec3l :=
  let d := v_sub (value s) mean in
  let sq x := let l := f80_of_f64 x in f80_mul l l in
  Vec3l (f80_add (lx a) (sq (vx d))) (f80_add (ly a) (sq (vy d))) (f80_add (lz a) (sq (vz d))).

(** [componentVariance] *)
Definition componentVariance (value : ImuSample -> vec3) (samples : list ImuSample) (mean : vec3) : vec3 :=
  scaled_down (foldl (square_step value mean) vec3l_zero samples) (length samples).

(** The constructor; its validator takes no clock and rejects regressions. *)
Definition ImuInitializer_new (c : ImuInitializerConfig) : option ImuInitializer :=
  if initializer_config_invalid c then None
  else Some (mkInitializer c [] (validator_new (mkTimestampValidatorConfig None true false))).

(** [ImuInitializer::addSample] *)
Definition addSample (s : ImuSample) (i : ImuInitializer) : StatusCode * ImuInitializer :=
  let status := imu_validate s in
  if negb (status_ok status) then (status, i)
  else
    let '(time_status, v) := tv_validate (in_timestamp_validator i) (im_time s) in
    let i := mkInitializer (in_config i) (in_samples i) v in
    if negb (status_ok time_status) then (time_status, i)
    else if ii_maximum_imu_samples (in_config i) =? 0 then (kInvalidArgument, i)
    else
      let samples := in_samples i ++ [s] in
      let excess := (length samples - Z.to_nat (ii_maximum_imu_samples (in_config i)))%nat in
      (kOk, mkInitializer (in_config i) (drop excess samples) v).

Definition statistics_finite (q : InitializationQuality) : bool :=
  v_allFinite (iq_gyro_mean_rad_s q) && v_allFinite (iq_accel_mean_m_s2 q)
  && v_allFinite (iq_gyro_variance_rad2_s2 q) && v_allFinite (iq_accel_variance_m2_s4 q)
  && isfinite (iq_measured_gravity_norm_m_s2 q).

(** The stationarity gate. *)
Definition stationary (c : ImuInitializerConfig) (q : InitializationQuality) : bool :=
  fle (v_norm (iq_gyro_mean_rad_s q)) (ii_maximum_gyro_mean_norm_rad_s c)
  && fle (v_maxCoeff (iq_gyro_variance_rad2_s2 q)) (ii_maximum_gyro_variance_rad2_s2 c)
  && fle (v_maxCoeff (iq_accel_variance_m2_s4 q)) (ii_maximum_accel_variance_m2_s4 c)
  && fle (fabs (f64_sub (iq_measured_gravity_norm_m_s2 q) (ii_gravity_magnitude_m_s2 c)))
         (ii_maximum_gravity_norm_error_m_s2 c).

Definition quality_none : InitializationQuality :=
  mkQuality 0 vec3_zero vec3_zero vec3_zero vec3_zero fzero false.

(** [ImuInitializer::quality] *)
Definition quality (i : ImuInitializer) : InitializationQuality :=
  match in_samples i with
  | [] => quality_none
  | samples =>
      let gyro := sample_mean im_angular_velocity_imu_rad_s samples in
      let accel := sample_mean im_linear_acceleration_imu_m_s2 samples in
      let q := mkQuality (Z.of_nat (length samples)) gyro
                 (componentVariance im_angular_velocity_imu_rad_s samples gyro) accel
                 (componentVariance im_linear_acceleration_imu_m_s2 samples accel)
                 (v_norm accel) false in
      if negb (statistics_finite q) then q
      else mkQuality (iq_samples_collected q) gyro (iq_gyro_variance_rad2_s2 q) accel
             (iq_accel_variance_m2_s4 q) (iq_measured_gravity_norm_m_s2 q) (stationary (in_config i) q)
  end.

(** [sampleCount], [hasEnoughSamples], [reset] *)
Definition sampleCount (i : ImuInitializer) : Z := Z.of_nat (length (in_samples i)).
Definition hasEnoughSamples (i : ImuInitializer) : bool :=
  ii_minimum_imu_samples (in_config i) <=? sampleCount i.
Definition initializer_reset (i : ImuInitializer) : ImuInitializer :=
  mkInitializer (in_config i) [] (tv_reset (in_timestamp_validator i)).

Definition unit_z : vec3 := Vec3 fzero fzero f64_1.

(** The alignment of the mean acceleration with the vertical (lines 130-139). *)
Definition aligned (c : ImuInitializerConfig) (q : InitializationQuality) : InitializationResult :=
  let gravity := Vec3 fzero fzero (fopp (ii_gravity_magnitude_m_s2 c)) in
  let orientation := q_normalized (q_fromTwoVectors (v_normalized (iq_accel_mean_m_s2 q)) unit_z) in
  let expected := q_unrotate orientation (v_neg gravity) in
  mkInitialization orientation (iq_gyro_mean_rad_s q) (v_sub (iq_accel_mean_m_s2 q) expected) gravity q.

Definition initialization_finite (r : InitializationResult) : bool :=
  q_allFinite (ir_orientation_odom_imu r) && isfinite (q_squaredNorm (ir_orientation_odom_imu r))
  && negb (fle (q_squaredNorm (ir_orientation_odom_imu r)) f64_1e_24)
  && v_allFinite (ir_gyro_bias_rad_s r) && v_allFinite (ir_accel_bias_m_s2 r)
  && v_allFinite (ir_gravity_odom_m_s2 r).

(** [ImuInitializer::tryInitialize] *)
Definition tryInitialize (i : ImuInitializer) : Result InitializationResult :=
  if negb (hasEnoughSamples i) then Error kNotReady
  else
    let q := quality i in
    if negb (statistics_finite q) then Error kNumericalFailure
    else if ii_require_stationary (in_config i) && negb (iq_stationary q) then
      Error kInitializationRejected
    else if flt (iq_measured_gravity_norm_m_s2 q) f64_1e_6 then Error kNumericalFailure
    else
      let r := aligned (in_config i) q in
      if negb (initialization_finite r) then Error kNumericalFailure else Value r.
End Initializer.

(** ** [InitialStatePriorApplicator] *)

Section Applicator.
Context {E : EigenOps} {EN : EigenNormOps} {EMt : EigenMatOps} {EP : EigenPoseOps} {EM : LioMatOps}.
Context {EI : LioInitOps} {L : LibmOps} {C : CovOps}.

(** [setGeometry] *)
Definition geometry_accepted (base_to_imu : RigidTransform) : bool :=
  (rt_target_frame base_to_imu ==? baseFrame) && (rt_source_frame base_to_imu ==? imuFrame)
  && rt_allFinite base_to_imu.

Definition setGeometry (base_to_imu current : RigidTransform) : StatusCode * RigidTransform :=
  if negb (geometry_accepted base_to_imu) then (kFrameMismatch, current) else (kOk, base_to_imu).

Definition two_pi : f64 := f64_mul (f64_of_Z 2) f64_pi.

(** [wrapAngle]: the two loops, with a bound on their turns. *)
Fixpoint wrap_down (fuel : nat) (angle : f64) : f64 :=
  match fuel with
  | O => angle
  | S fuel => if fgt angle f64_pi then wrap_down fuel (f64_sub angle two_pi) else angle
  end.
Fixpoint wrap_up (fuel : nat) (angle : f64) : f64 :=
  match fuel with
  | O => angle
  | S fuel => if flt angle (fopp f64_pi) then wrap_up fuel (f64_add angle two_pi) else angle
  end.
(** The argument is the difference of two results of [atan2]: two turns are
    enough. *)
Definition kWrapTurns : nat := 2.
Definition wrapAngle (angle : f64) : f64 := wrap_up kWrapTurns (wrap_down kWrapTurns angle).

(** [std::atan2(m(1, 0), m(0, 0))] *)
Definition matrix_yaw (m : mat3) : f64 := std_atan2 (vx (row1 m)) (vx (row0 m)).

(** The tilt between the prior and the gravity the IMU measured. *)
Definition tilt_disagreement (R_OB_imu R_OB_prior : mat3) (gravity : vec3) : f64 :=
  let g := v_normalized gravity in
  std_acos (fclamp (v_dot (m_mulv (m_transpose R_OB_imu) g) (m_mulv (m_transpose R_OB_prior) g))
                   (fopp f64_1) f64_1).

(** The attitude the prior and its mask select (lines 55-84). *)
Definition prior_attitude (p : InitialStatePrior) (s : ManifoldState) (maximum_tilt : f64) (R_OB_imu : mat3)
    : Result mat3 :=
  let R_OB_prior := q_toRotationMatrix (pi_orientation_odom_base p) in
  match mk_attitude (pi_mask p) with
  | pa_kNone => Value R_OB_imu
  | pa_kYawOnly =>
      Value (m_mul (m_angleAxisZ (wrapAngle (f64_sub (matrix_yaw R_OB_prior) (matrix_yaw R_OB_imu)))) R_OB_imu)
  | pa_kFull =>
      if (pi_context p !=? kInFlightReinitialization)
         && fgt (tilt_disagreement R_OB_imu R_OB_prior (mf_gravity_odom_m_s2 s)) maximum_tilt
      then Error kInitializationRejected
      else Value R_OB_prior
  end.

Definition kGeometryTolerance : f64 := f64_1e_12.

(** The velocity of the prior at the IMU (lines 91-99). *)
Definition prior_velocity (p : InitialStatePrior) (R_OB : mat3) (r_BI : vec3) : Result vec3 :=
  match pi_linear_velocity_base_m_s p with
  | None => Error kInvalidArgument
  | Some linear =>
      if negb (has (pi_angular_velocity_base_rad_s p)) && fgt (v_norm r_BI) kGeometryTolerance
      then Error kInvalidArgument
      else
        let omega := default vec3_zero (pi_angular_velocity_base_rad_s p) in
        Value (v_add (m_mulv R_OB linear) (m_mulv R_OB (v_cross omega r_BI)))
  end.

(** The state with the parts the mask enables (lines 86-104). *)
Definition apply_masked (p : InitialStatePrior) (s : ManifoldState) (R_OB R_BI : mat3) (r_BI : vec3)
    : Result ManifoldState :=
  let out := set_orientation_odom_imu (q_of_matrix (m_mul R_OB R_BI)) s in
  let out := if mk_position (pi_mask p)
             then out <| mf_position_odom_imu_m := v_add (pi_position_odom_base_m p) (m_mulv R_OB r_BI) |>
             else out in
  result_bind
    (if mk_velocity (pi_mask p)
     then result_bind (prior_velocity p R_OB r_BI)
            (fun v => Value (out <| mf_velocity_odom_imu_m_s := v |>))
     else Value out)
    (fun out =>
       let out := mf_normalize out in
       if negb (mf_allFinite out) then Error kNumericalFailure else Value out).

(** [InitialStatePriorApplicator::apply] *)
Definition prior_apply (base_to_imu : RigidTransform) (p : InitialStatePrior) (s : ManifoldState)
    (maximum_tilt : f64) : Result ManifoldState :=
  if (pi_reference_frame p !=? lioOdomFrame) || (pi_body_frame p !=? baseFrame) then Error kFrameMismatch
  else if negb (prior_allFinite p) || negb (mf_allFinite s) || negb (isfinite maximum_tilt)
          || flt maximum_tilt fzero then Error kInvalidArgument
  else if negb (geometry_accepted base_to_imu) then Error kFrameMismatch
  else
    let R_BI := q_toRotationMatrix (rt_rotation base_to_imu) in
    let R_OB_imu := m_mul (q_toRotationMatrix (mf_orientation_odom_imu s)) (m_transpose R_BI) in
    result_bind (prior_attitude p s maximum_tilt R_OB_imu)
      (fun R_OB => apply_masked p s R_OB R_BI (rt_translation base_to_imu)).
End Applicator.
