(* ===== verification/LioPipeline.v ===== *)
(** * The FAST-LIO pipeline

    [estimation/fast_lio_core]: [pipeline/] — the lifecycle of the estimator,
    from the first IMU sample over initialisation, the initial-state prior and
    the first map to tracking, degradation, recovery and loss.  The class is one
    record; every public method and every private one that changes state is a
    function on it.  Of the diagnostics the record keeps the members the code
    reads back, the counters and the reason; run times and values copied for
    reports are left out.

    The prior mailbox has a mutex of its own, so submissions of other threads may
    fall between the critical sections of an initialisation attempt: such a
    method takes the lists of the submissions that do ([between 0] and
    [between 1] around the read of the in-flight evaluation, [between 2] before
    the read of the prior that is applied). *)

From Stdlib Require Import Floats.SpecFloat.
From S2P Require Import Prelude Ordered RecordUpdate Float64 Geometry WorldGrid CommandContract TrackingGuard OdometryFrames Candidate.
From S2P Require Import LioTime Measurement LioState LioRegistration LioEstimator LioPropagator LioInit.

(** ** [estimator_diagnostics.hpp] *)

Inductive EstimatorStatus : Type :=
| kWaitingForSensors
| kCollectingImu
| kInitializingImu
| kInitializingMap
| kTracking
| kDegraded
| kLost
| kResetting.

Inductive EstimateValidity : Type := ev_kUnavailable | ev_kPredictedOnly | ev_kCorrected.
Inductive LidarUpdateStatus : Type := lu_kNotAttempted | lu_kSucceeded | lu_kRejected.

Inductive LidarUpdateFailureClass : Type :=
| fc_kNone
| fc_kSynchronization
| fc_kPrediction
| fc_kDeskew
| fc_kPreprocessing
| fc_kInsufficientPoints
| fc_kRegistration
| fc_kPropagationDiscontinuity
| fc_kStateCorruption.

#[export] Instance EstimatorStatus_eq_dec : EqDecision EstimatorStatus.
Proof. solve_decision. Defined.
#[export] Instance EstimateValidity_eq_dec : EqDecision EstimateValidity.
Proof. solve_decision. Defined.
#[export] Instance LidarUpdateStatus_eq_dec : EqDecision LidarUpdateStatus.
Proof. solve_decision. Defined.

(** The four [toString] *)
Definition estimator_status_name (s : EstimatorStatus) : string :=
  match s with
  | kWaitingForSensors => "WAITING_FOR_SENSORS"
  | kCollectingImu => "COLLECTING_IMU"
  | kInitializingImu => "INITIALIZING_IMU"
  | kInitializingMap => "INITIALIZING_MAP"
  | kTracking => "TRACKING"
  | kDegraded => "DEGRADED"
  | kLost => "LOST"
  | kResetting => "RESETTING"
  end.
Definition estimate_validity_name (v : EstimateValidity) : string :=
  match v with
  | ev_kUnavailable => "UNAVAILABLE"
  | ev_kPredictedOnly => "PREDICTED_ONLY"
  | ev_kCorrected => "CORRECTED"
  end.
Definition lidar_update_name (s : LidarUpdateStatus) : string :=
  match s with
  | lu_kNotAttempted => "NOT_ATTEMPTED"
  | lu_kSucceeded => "SUCCEEDED"
  | lu_kRejected => "REJECTED"
  end.
Definition failure_class_name (f : LidarUpdateFailureClass) : string :=
  match f with
  | fc_kNone => "none"
  | fc_kSynchronization => "synchronization"
  | fc_kPrediction => "prediction"
  | fc_kDeskew => "deskew"
  | fc_kPreprocessing => "preprocessing"
  | fc_kInsufficientPoints => "insufficient_points"
  | fc_kRegistration => "registration"
  | fc_kPropagationDiscontinuity => "propagation_discontinuity"
  | fc_kStateCorruption => "state_corruption"
  end.

(** A reason: a literal, or the message of a status, which its code stands for. *)
Inductive Reason : Type :=
| rText (text : string)
| rStatus (status : StatusCode).

(** The counters of [SensorDiagnostics] and [ProcessingStatistics] the pipeline
    maintains. *)
Record PipelineCounters : Type := mkCounters {
  cn_imu_drop_count : Z;
  cn_lidar_drop_count : Z;
  cn_timestamp_regression_count : Z;
  cn_raw_lidar_count : Z;
  cn_buffer_accepted_lidar_count : Z;
  cn_overlap_rejected_count : Z;
  cn_missing_bracket_rejected_count : Z;
  cn_invalid_timestamp_rejected_count : Z;
  cn_synchronized_group_count : Z;
  cn_correction_attempt_count : Z;
  cn_correction_success_count : Z;
  cn_correction_failure_count : Z
}.

#[export] Instance PipelineCounters_eta : Eta PipelineCounters := fun c =>
  mkCounters (cn_imu_drop_count c) (cn_lidar_drop_count c) (cn_timestamp_regression_count c)
    (cn_raw_lidar_count c) (cn_buffer_accepted_lidar_count c) (cn_overlap_rejected_count c)
    (cn_missing_bracket_rejected_count c) (cn_invalid_timestamp_rejected_count c)
    (cn_synchronized_group_count c) (cn_correction_attempt_count c) (cn_correction_success_count c)
    (cn_correction_failure_count c).

Definition counters_zero : PipelineCounters := mkCounters 0 0 0 0 0 0 0 0 0 0 0 0.

(** [InitialPriorDiagnostics], the members that are not copies. *)
Record InitialPriorDiagnostics : Type := mkPriorDiagnostics {
  qd_status : InitialPriorStatus;
  qd_applied : bool;
  qd_fallback_applied : bool;
  qd_covariance_applied : bool;
  qd_propagated_to_application : bool;
  qd_bootstrap_map_after_prior : bool;
  qd_waiting_for_sensor_time : bool;
  qd_wait_timeout_count : Z;
  qd_zero_fallback_count : Z;
  qd_fixed_fallback_count : Z;
  qd_reason : Reason
}.

#[export] Instance InitialPriorDiagnostics_eta : Eta InitialPriorDiagnostics := fun d =>
  mkPriorDiagnostics (qd_status d) (qd_applied d) (qd_fallback_applied d) (qd_covariance_applied d)
    (qd_propagated_to_application d) (qd_bootstrap_map_after_prior d) (qd_waiting_for_sensor_time d)
    (qd_wait_timeout_count d) (qd_zero_fallback_count d) (qd_fixed_fallback_count d) (qd_reason d).

Definition prior_diagnostics_new (source : InitialStatePriorSource) : InitialPriorDiagnostics :=
  mkPriorDiagnostics (if source ==? ps_kZero then ip_kNotRequired else ip_kWaiting)
    false false false false false false 0 0 0 (rText "").

(** [EstimatorDiagnostics] *)
Record EstimatorDiagnostics : Type := mkDiagnostics {
  dg_previous_status : EstimatorStatus;
  dg_status_transition_count : Z;
  dg_consecutive_registration_failure_count : Z;
  dg_propagation_discontinuity_count : Z;
  dg_last_propagation_gap_ns : Z;
  dg_recovery_covariance_clamp_count : Z;
  dg_eigenvalue_before_clamp : f64;
  dg_eigenvalue_after_clamp : f64;
  dg_last_update_failure_class : LidarUpdateFailureClass;
  dg_reason : Reason;
  dg_counters : PipelineCounters;
  dg_initial_prior : InitialPriorDiagnostics;
  dg_corrected_angular_velocity : AngularVelocityDiagnostics
}.

#[export] Instance EstimatorDiagnostics_eta : Eta EstimatorDiagnostics := fun d =>
  mkDiagnostics (dg_previous_status d) (dg_status_transition_count d)
    (dg_consecutive_registration_failure_count d) (dg_propagation_discontinuity_count d)
    (dg_last_propagation_gap_ns d) (dg_recovery_covariance_clamp_count d)
    (dg_eigenvalue_before_clamp d) (dg_eigenvalue_after_clamp d) (dg_last_update_failure_class d)
    (dg_reason d) (dg_counters d) (dg_initial_prior d) (dg_corrected_angular_velocity d).

Definition diagnostics_new (source : InitialStatePriorSource) (previous : EstimatorStatus)
    (transitions : Z) (reason : Reason) : EstimatorDiagnostics :=
  mkDiagnostics previous transitions 0 0 0 0 fzero fzero fc_kNone reason counters_zero
    (prior_diagnostics_new source) angular_diagnostics_default.

(** ** The configuration *)

Record LifecycleConfig : Type := mkLifecycleConfig {
  lc_maximum_initial_map_registration_failures : Z;
  lc_lost_after_registration_failures : Z;
  lc_degraded_after_lidar_gap_ns : Z;
  lc_lost_after_lidar_gap_ns : Z
}.

Record TrackingConfig : Type := mkTrackingConfig {
  tc_maximum_recoverable_imu_gap_ns : Z;
  tc_recovery_confirmation_updates : Z;
  tc_discontinuity_covariance_inflation : f64
}.

Record ExtrinsicConfig : Type := mkExtrinsicConfig {
  xc_rotation_imu_lidar : quat;
  xc_translation_imu_lidar_m : vec3
}.

Record EstimatorConfig : Type := mkEstimatorConfig {
  cf_measurement_buffer : MeasurementBufferConfig;
  cf_maximum_imu_gap_ns : Z;
  cf_initialization : ImuInitializerConfig;
  cf_initial_prior : InitialStatePriorPolicy;
  cf_ikfom : IkfomEstimatorConfig;
  cf_deskew : ScanDeskewerConfig;
  cf_preprocessing : PointCloudPreprocessorConfig;
  cf_residual_builder : ResidualBuilderConfig;
  cf_local_map : LocalMapManagerConfig;
  cf_insertion_minimum_point_count : Z;
  cf_extrinsic : ExtrinsicConfig;
  cf_lifecycle : LifecycleConfig;
  cf_tracking : TrackingConfig
}.

(** ** The prior mailbox *)

Record PriorMailbox : Type := mkMailbox {
  mx_candidate : option InitialStatePrior;
  mx_last_candidate_time : option Timestamp;
  mx_candidate_count : Z;
  mx_accepted_count : Z;
  mx_rejected_count : Z;
  mx_late_rejected_count : Z;
  mx_stale_rejected_count : Z;
  mx_frame_rejected_count : Z;
  mx_timestamp_rejected_count : Z;
  mx_invalid_value_count : Z
}.

#[export] Instance PriorMailbox_eta : Eta PriorMailbox := fun m =>
  mkMailbox (mx_candidate m) (mx_last_candidate_time m) (mx_candidate_count m) (mx_accepted_count m)
    (mx_rejected_count m) (mx_late_rejected_count m) (mx_stale_rejected_count m)
    (mx_frame_rejected_count m) (mx_timestamp_rejected_count m) (mx_invalid_value_count m).

Definition mailbox_empty : PriorMailbox := mkMailbox None None 0 0 0 0 0 0 0 0.

Inductive LateSubmissionPolicy : Type := kRecordRejection | kIgnore.

(** ** Covariance inflation *)

Definition kMaximumRecoveryCovarianceEigenvalue : f64 := f64_of_Z 100.

Record InflationResult : Type := mkInflation {
  if_successful : bool;
  if_clamped : bool;
  if_maximum_before : f64;
  if_maximum_after : f64
}.

Definition inflation_failed : InflationResult := mkInflation false false fzero fzero.

Section Inflate.
Context {C : CovOps}.

Definition f64_m1e_9 : f64 := fopp f64_1e_9.

(** [solver.eigenvalues().cwiseMax(0.0)] *)
Definition nonnegative_eigenvalues (values : list f64) : list f64 := map (fun v => fmax v fzero) values.

(** The loop over the eigenvalues. *)
Definition inflate_eigenvalue (inflation v : f64) : f64 :=
  fmin kMaximumRecoveryCovarianceEigenvalue (f64_mul v inflation).

(** [inflateRecoveryCovariance] *)
Definition inflateRecoveryCovariance (c : Covariance) (inflation : f64) : InflationResult * Covariance :=
  match c_eigen (c_symmetric c) with
  | None => (inflation_failed, c)
  | Some (values, vectors) =>
      if negb (ev_allFinite values) || flt (ev_minCoeff values) f64_m1e_9 then (inflation_failed, c)
      else
        let values := nonnegative_eigenvalues values in
        let before := f64_mul (ev_maxCoeff values) inflation in
        let values := map (inflate_eigenvalue inflation) values in
        let c' := c_symmetric (c_recompose vectors values) in
        (mkInflation (c_allFinite c') (fgt before kMaximumRecoveryCovarianceEigenvalue) before
           (ev_maxCoeff values), c')
  end.

(** An eigenvalue check of a prior's covariance: its symmetric part, if it is
    positive semidefinite. *)
Definition prior_covariance_accepted (c : Covariance) : option Covariance :=
  let symmetric := c_symmetric c in
  match c_eigen symmetric with
  | None => None
  | Some (values, _) =>
      if negb (c_allFinite symmetric) || flt (ev_minCoeff values) f64_m1e_9 then None
      else Some symmetric
  end.
End Inflate.

(** ** The state *)

Section Pipeline.
Context {E : EigenOps} {EN : EigenNormOps} {EMt : EigenMatOps} {EP : EigenPoseOps} {EF : EigenFloatOps}.
Context {ER : EigenRotOps} {EL : LioEigen} {EM : LioMatOps} {EI : LioInitOps} {L : LibmOps}.
Context {C : CovOps} {I : IkfomOps} {M : Type} {RM : RegistrationMap M}.

(** [class FastLioPipeline]; a time point of the steady clock is its count of
    nanoseconds. *)
Record FastLioPipeline : Type := mkPipeline {
  fp_config : EstimatorConfig;
  fp_buffer : MeasurementBuffer;
  fp_synchronizer : MeasurementSynchronizer;
  fp_initializer : ImuInitializer;
  fp_estimator : IkfomEstimator;
  fp_registration_map : M;
  fp_bootstrap_map : M;
  fp_local_map_manager : LocalMapManager;
  fp_status : EstimatorStatus;
  fp_state : ManifoldState;
  fp_covariance : Covariance;
  fp_state_time : option Timestamp;
  fp_initial_prior_state_time : option Timestamp;
  fp_prior_imu_history : list ImuSample;
  fp_last_initialization_imu_time : option Timestamp;
  fp_last_correction_time : option Timestamp;
  fp_last_lidar_arrival : option Z;
  fp_bootstrap_reference_points : list vec3;
  fp_diagnostics : EstimatorDiagnostics;
  fp_base_to_imu : RigidTransform;
  fp_mailbox : PriorMailbox;
  fp_imu_initialization_result : option InitializationResult;
  fp_prior_wait_start_time : option Timestamp;
  fp_estimator_initialized : bool;
  fp_initial_prior_gate_closed : bool;
  fp_initial_prior_applied : bool;
  fp_initial_prior_fallback_applied : bool;
  fp_consecutive_registration_failures : Z;
  fp_initial_map_registration_failures : Z;
  fp_corrected_scan_count : Z;
  fp_consecutive_uncorrected_lidar_updates : Z;
  fp_consecutive_recovery_successes : Z;
  fp_map_recovery_required : bool;
  fp_tracking_ever_confirmed : bool;
  fp_generation : Z
}.

#[export] Instance FastLioPipeline_eta : Eta FastLioPipeline := fun p =>
  mkPipeline (fp_config p) (fp_buffer p) (fp_synchronizer p) (fp_initializer p) (fp_estimator p)
    (fp_registration_map p) (fp_bootstrap_map p) (fp_local_map_manager p) (fp_status p) (fp_state p)
    (fp_covariance p) (fp_state_time p) (fp_initial_prior_state_time p) (fp_prior_imu_history p)
    (fp_last_initialization_imu_time p) (fp_last_correction_time p) (fp_last_lidar_arrival p)
    (fp_bootstrap_reference_points p) (fp_diagnostics p) (fp_base_to_imu p) (fp_mailbox p)
    (fp_imu_initialization_result p) (fp_prior_wait_start_time p) (fp_estimator_initialized p)
    (fp_initial_prior_gate_closed p) (fp_initial_prior_applied p)
    (fp_initial_prior_fallback_applied p) (fp_consecutive_registration_failures p)
    (fp_initial_map_registration_failures p) (fp_corrected_scan_count p)
    (fp_consecutive_uncorrected_lidar_updates p) (fp_consecutive_recovery_successes p)
    (fp_map_recovery_required p) (fp_tracking_ever_confirmed p) (fp_generation p).

(** Updates of the diagnostics. *)
Definition diagnose (f : EstimatorDiagnostics -> EstimatorDiagnostics) (p : FastLioPipeline)
    : FastLioPipeline := p <| fp_diagnostics ::= f |>.
Definition count (f : PipelineCounters -> PipelineCounters) : FastLioPipeline -> FastLioPipeline :=
  diagnose (fun d => d <| dg_counters ::= f |>).
Definition prior_diag (f : InitialPriorDiagnostics -> InitialPriorDiagnostics)
    : FastLioPipeline -> FastLioPipeline :=
  diagnose (fun d => d <| dg_initial_prior ::= f |>).
Definition set_reason (r : Reason) : FastLioPipeline -> FastLioPipeline :=
  diagnose (fun d => d <| dg_reason := r |>).
Definition mailbox (f : PriorMailbox -> PriorMailbox) (p : FastLioPipeline) : FastLioPipeline :=
  p <| fp_mailbox ::= f |>.

Definition prior_policy (p : FastLioPipeline) : InitialStatePriorPolicy := cf_initial_prior (fp_config p).
Definition lifecycle (p : FastLioPipeline) : LifecycleConfig := cf_lifecycle (fp_config p).
Definition tracking (p : FastLioPipeline) : TrackingConfig := cf_tracking (fp_config p).

(** [statusUsesEstimatorState] *)
Definition statusUsesEstimatorState (s : EstimatorStatus) : bool :=
  match s with kInitializingMap | kTracking | kDegraded | kLost => true | _ => false end.

(** The extrinsic calibration on a state. *)
Definition with_extrinsic (c : ExtrinsicConfig) (s : ManifoldState) : ManifoldState :=
  (set_rotation_imu_lidar (xc_rotation_imu_lidar c) s)
    <| mf_position_imu_lidar_m := xc_translation_imu_lidar_m c |>.

(** The guard of the constructor. *)
Definition pipeline_config_invalid (c : EstimatorConfig) : bool :=
  negb (q_allFinite (xc_rotation_imu_lidar (cf_extrinsic c)))
  || flt (q_squaredNorm (xc_rotation_imu_lidar (cf_extrinsic c))) f64_1e_18
  || negb (v_allFinite (xc_translation_imu_lidar_m (cf_extrinsic c)))
  || (lc_maximum_initial_map_registration_failures (cf_lifecycle c) =? 0)
  || (lc_lost_after_registration_failures (cf_lifecycle c) =? 0)
  || (lc_degraded_after_lidar_gap_ns (cf_lifecycle c) <=? 0)
  || (lc_lost_after_lidar_gap_ns (cf_lifecycle c) <=? 0)
  || (lc_lost_after_lidar_gap_ns (cf_lifecycle c) <? lc_degraded_after_lidar_gap_ns (cf_lifecycle c))
  || (tc_maximum_recoverable_imu_gap_ns (cf_tracking c) <=? 0)
  || (tc_recovery_confirmation_updates (cf_tracking c) =? 0)
  || negb (isfinite (tc_discontinuity_covariance_inflation (cf_tracking c)))
  || flt (tc_discontinuity_covariance_inflation (cf_tracking c)) f64_1
  || fgt (tc_discontinuity_covariance_inflation (cf_tracking c)) (f64_of_Z 1000)
  || (tc_maximum_recoverable_imu_gap_ns (cf_tracking c) <? cf_maximum_imu_gap_ns c).

(** The identity of [^base_link T_livox_imu_frame]. *)
Definition base_to_imu_identity : RigidTransform :=
  mkTransform baseFrame imuFrame (q_normalized quat_identity) vec3_zero.

(** The constructor: the members' constructors and its own guards throw.  The
    two maps are constructed from one configuration. *)
Definition FastLioPipeline_new (c : EstimatorConfig) (empty_map : M) : option FastLioPipeline :=
  buffer ← buffer_new (cf_measurement_buffer c);
  synchronizer ← synchronizer_new (cf_maximum_imu_gap_ns c);
  initializer ← ImuInitializer_new (cf_initialization c);
  estimator ← IkfomEstimator_new (cf_ikfom c) (cf_residual_builder c);
  local_map ← LocalMapManager_new (cf_local_map c);
  if (cf_insertion_minimum_point_count c =? 0) || pipeline_config_invalid c
     || negb (status_ok (policy_validate (cf_initial_prior c))) then None
  else
    Some (mkPipeline c buffer synchronizer initializer estimator empty_map empty_map local_map
            kWaitingForSensors (with_extrinsic (cf_extrinsic c) ManifoldState_default) c_identity
            None None [] None None None []
            (diagnostics_new (pp_source (cf_initial_prior c)) kWaitingForSensors 0 (rText ""))
            base_to_imu_identity mailbox_empty None None false false false false 0 0 0 0 0 false false 1).

(** ** Lifecycle *)

(** [transitionTo] *)
Definition transitionTo (next : EstimatorStatus) (reason : string) (p : FastLioPipeline) : FastLioPipeline :=
  let p := if fp_status p !=? next then
             diagnose (fun d => d <| dg_previous_status := fp_status p |>
                                  <| dg_status_transition_count ::= u64_inc |>)
               (p <| fp_status := next |>)
           else p in
  set_reason (rText reason) p.

(** [recordUncorrectedUpdate] *)
Definition recordUncorrectedUpdate (failure_class : LidarUpdateFailureClass) (p : FastLioPipeline)
    : FastLioPipeline :=
  let p := diagnose (fun d => d <| dg_last_update_failure_class := failure_class |>) p in
  if negb (fp_tracking_ever_confirmed p) then p
  else
    let p := p <| fp_consecutive_uncorrected_lidar_updates ::= u64_inc |>
               <| fp_consecutive_recovery_successes := 0 |> in
    if lc_lost_after_registration_failures (lifecycle p) <=? fp_consecutive_uncorrected_lidar_updates p
    then transitionTo kLost "LIDAR_UPDATE_FAILURE_LIMIT_REACHED" p
    else if fp_status p !=? kLost then transitionTo kDegraded "LIDAR_UPDATE_UNCORRECTED" p
    else p.

(** [superviseLidarTimeout] at the steady time [now]. *)
Definition superviseLidarTimeout (now : Z) (p : FastLioPipeline) : FastLioPipeline :=
  match fp_last_lidar_arrival p with
  | None => p
  | Some arrival =>
      if (fp_status p !=? kTracking) && (fp_status p !=? kDegraded) then p
      else
        let elapsed := now - arrival in
        let p := if (fp_status p ==? kTracking) && (lc_degraded_after_lidar_gap_ns (lifecycle p) <=? elapsed)
                 then transitionTo kDegraded "LIDAR_TIMEOUT_DEGRADED_INERTIAL" p else p in
        if (fp_status p ==? kDegraded) && (lc_lost_after_lidar_gap_ns (lifecycle p) <=? elapsed)
        then transitionTo kLost "LIDAR_TIMEOUT_LOST" p else p
  end.

(** What [fillStateDiagnostics] reports of the lifecycle. *)
Record LifecycleReport : Type := mkLifecycleReport {
  lr_status : EstimatorStatus;
  lr_generation : Z;
  lr_generation_locked : bool;
  lr_map_insertion_frozen : bool;
  lr_navigation_valid : bool
}.

Definition lifecycle_report (p : FastLioPipeline) : LifecycleReport :=
  let tracking := fp_status p ==? kTracking in
  mkLifecycleReport (fp_status p) (fp_generation p) (fp_tracking_ever_confirmed p && tracking)
    (fp_tracking_ever_confirmed p && negb tracking) (fp_tracking_ever_confirmed p && tracking).

(** ** The ingress *)

Definition kPriorImuHistoryDurationNs : Z := 1000000000.

(** The loop of [retainPriorImuSample]: the front goes while the history is
    longer than a second. *)
Fixpoint trim_history (time : Timestamp) (history : list ImuSample) : list ImuSample :=
  match history with
  | front :: ((_ :: _) as rest) =>
      match checkedDifference time (im_time front) with
      | Error _ => history
      | Value span => if dur_ns span <=? kPriorImuHistoryDurationNs then history
                      else trim_history time rest
      end
  | _ => history
  end.

(** [history.back() = sample] *)
Definition replace_last (s : ImuSample) (history : list ImuSample) : list ImuSample :=
  removelast history ++ [s].

Definition retained (s : ImuSample) (history : list ImuSample) : list ImuSample :=
  match last history with
  | Some back =>
      if negb (sameClockDomain (im_time s) (im_time back)) || (imu_ns s <? imu_ns back) then history
      else if imu_ns s =? imu_ns back then replace_last s history
      else trim_history (im_time s) (history ++ [s])
  | None => trim_history (im_time s) (history ++ [s])
  end.

(** [retainPriorImuSample] *)
Definition retainPriorImuSample (s : ImuSample) (p : FastLioPipeline) : FastLioPipeline :=
  p <| fp_prior_imu_history ::= retained s |>.

(** A sample that is later than the last one goes to the initialiser. *)
Definition feed_initializer (s : ImuSample) (p : FastLioPipeline) : StatusCode * FastLioPipeline :=
  let '(status, i) := addSample s (fp_initializer p) in
  let p := p <| fp_initializer := i |> in
  if status_ok status then
    let p := p <| fp_last_initialization_imu_time := Some (im_time s) |> in
    (status, if hasEnoughSamples i && (fp_status p ==? kCollectingImu)
             then transitionTo kInitializingImu "MINIMUM_IMU_SAMPLES_COLLECTED" p else p)
  else (status, p).

(** [addInitializationSample] *)
Definition addInitializationSample (s : ImuSample) (p : FastLioPipeline) : StatusCode * FastLioPipeline :=
  match fp_last_initialization_imu_time p with
  | Some last =>
      if negb (sameClockDomain (im_time s) last) then (kClockDomainMismatch, p)
      else if negb (ts_ns last <? imu_ns s) then (kOk, p)
      else feed_initializer s p
  | None => feed_initializer s p
  end.

(** ** The initial-state prior *)

Definition reject_prior (f : PriorMailbox -> PriorMailbox) (p : FastLioPipeline) : FastLioPipeline :=
  mailbox (fun m => (f m) <| mx_rejected_count ::= u64_inc |>) p.

(** [submitInitialStatePrior]; one critical section. *)
Definition submitInitialStatePrior (prior : InitialStatePrior) (late : LateSubmissionPolicy)
    (p : FastLioPipeline) : StatusCode * FastLioPipeline :=
  if fp_initial_prior_gate_closed p || fp_estimator_initialized p then
    (kNotReady,
     match late with
     | kRecordRejection =>
         reject_prior (fun m => m <| mx_candidate_count ::= u64_inc |>
                                  <| mx_late_rejected_count ::= u64_inc |>) p
     | kIgnore => p
     end)
  else
    let p := mailbox (fun m => m <| mx_candidate_count ::= u64_inc |>) p in
    if (pi_source prior !=? ps_kTopic) || (pi_context prior !=? pp_context (prior_policy p))
       || (pi_reference_frame prior !=? lioOdomFrame) || (pi_body_frame prior !=? baseFrame)
    then (kFrameMismatch, reject_prior (fun m => m <| mx_frame_rejected_count ::= u64_inc |>) p)
    else if (ts_ns (pi_sample_time prior) =? 0) || negb (prior_allFinite prior)
    then (kInvalidArgument, reject_prior (fun m => m <| mx_invalid_value_count ::= u64_inc |>) p)
    else
      let refuse (s : StatusCode) :=
        (s, reject_prior (fun m => m <| mx_timestamp_rejected_count ::= u64_inc |>) p) in
      let accept :=
        (kOk, mailbox (fun m => m <| mx_last_candidate_time := Some (pi_sample_time prior) |>
                                  <| mx_candidate := Some prior |>
                                  <| mx_accepted_count ::= u64_inc |>) p) in
      match mx_last_candidate_time (fp_mailbox p) with
      | None => accept
      | Some last =>
          if negb (sameClockDomain (pi_sample_time prior) last) then refuse kClockDomainMismatch
          else if ts_ns (pi_sample_time prior) <=? ts_ns last then refuse kTimestampRegression
          else accept
      end.

(** Submissions of other threads. *)
Definition prior_submission : Type := InitialStatePrior * LateSubmissionPolicy.
Definition submissions (l : list prior_submission) (p : FastLioPipeline) : FastLioPipeline :=
  foldl (fun p s => (submitInitialStatePrior s.1 s.2 p).2) p l.

(** [setInitialStatePriorGeometry] *)
Definition setInitialStatePriorGeometry (base_to_imu : RigidTransform) (p : FastLioPipeline)
    : StatusCode * FastLioPipeline :=
  if fp_estimator_initialized p || fp_initial_prior_gate_closed p then (kNotReady, p)
  else
    let '(status, geometry) := setGeometry base_to_imu (fp_base_to_imu p) in
    (status, p <| fp_base_to_imu := geometry |>).

(** [makeZeroPrior] and [makeFixedPrior] *)
Definition makeZeroPrior (time : Timestamp) (p : FastLioPipeline) : InitialStatePrior :=
  InitialStatePrior_default
    <| pi_sample_time := time |> <| pi_source := ps_kZero |>
    <| pi_context := pp_context (prior_policy p) |> <| pi_mask := pp_mask (prior_policy p) |>
    <| pi_provenance := "zero" |> <| pi_linear_velocity_base_m_s := Some vec3_zero |>
    <| pi_angular_velocity_base_rad_s := Some vec3_zero |>.
Definition makeFixedPrior (time : Timestamp) (p : FastLioPipeline) : InitialStatePrior :=
  (pp_fixed_prior (prior_policy p))
    <| pi_sample_time := time |> <| pi_source := ps_kFixed |>
    <| pi_context := pp_context (prior_policy p) |> <| pi_mask := pp_mask (prior_policy p) |>.

(** The status and reason of the prior's diagnostics. *)
Definition prior_status (s : InitialPriorStatus) (reason : string) : FastLioPipeline -> FastLioPipeline :=
  prior_diag (fun d => d <| qd_status := s |> <| qd_reason := rText reason |>).

(** A candidate is dropped from the mailbox. *)
Definition drop_candidate (f : PriorMailbox -> PriorMailbox) (reason : string) (p : FastLioPipeline)
    : FastLioPipeline :=
  prior_diag (fun d => d <| qd_reason := rText reason |>)
    (reject_prior (fun m => f (m <| mx_candidate := None |>)) p).

(** The examination of a topic candidate (lines 1423-1462): [true] when it is
    accepted. *)
Definition examine_candidate (candidate : InitialStatePrior) (application_time : Timestamp)
    (p : FastLioPipeline) : bool * FastLioPipeline :=
  let count_timestamp := fun m : PriorMailbox => m <| mx_timestamp_rejected_count ::= u64_inc |> in
  if negb (sameClockDomain (pi_sample_time candidate) application_time) then
    (false, drop_candidate count_timestamp "TOPIC_PRIOR_CLOCK_DOMAIN_MISMATCH" p)
  else
    match checkedDifference application_time (pi_sample_time candidate) with
    | Error _ => (false, drop_candidate count_timestamp "TOPIC_PRIOR_TIMESTAMP_OVERFLOW" p)
    | Value age =>
        if ts_ns application_time <? ts_ns (pi_sample_time candidate) then
          (false, prior_diag (fun d => d <| qd_waiting_for_sensor_time := true |>)
                    (prior_status ip_kWaiting "TOPIC_PRIOR_WAITING_FOR_SENSOR_TIME" p))
        else if dur_ns age <=? pp_maximum_topic_prior_age_ns (prior_policy p) then
          (true, (prior_status ip_kApplied "TOPIC_PRIOR_ACCEPTED" p) <| fp_initial_prior_applied := true |>)
        else
          (false, drop_candidate (fun m => m <| mx_stale_rejected_count ::= u64_inc |>)
                    "TOPIC_PRIOR_STALE" p)
    end.

(** The candidate can still become applicable as the sensor time advances. *)
Definition candidate_ahead (candidate : option InitialStatePrior) (application_time : Timestamp) : bool :=
  match candidate with
  | Some c => sameClockDomain (pi_sample_time c) application_time
              && (ts_ns application_time <? ts_ns (pi_sample_time c))
  | None => false
  end.

(** The wait for a topic prior and its timeout (lines 1464-1508). *)
Definition await_topic_prior (candidate : option InitialStatePrior) (application_time : Timestamp)
    (p : FastLioPipeline) : bool * FastLioPipeline :=
  let p := prior_diag (fun d => d <| qd_status := ip_kWaiting |>) p in
  let wait_start := default application_time (fp_prior_wait_start_time p) in
  if negb (sameClockDomain wait_start application_time) then
    (false, prior_status ip_kRejected "TOPIC_PRIOR_WAIT_CLOCK_DOMAIN_MISMATCH" p)
  else
    match checkedDifference application_time wait_start with
    | Error _ => (false, prior_status ip_kRejected "TOPIC_PRIOR_WAIT_TIMESTAMP_OVERFLOW" p)
    | Value elapsed =>
        if dur_ns elapsed <? pp_topic_wait_timeout_ns (prior_policy p) then (false, p)
        else
          let p := prior_diag (fun d => d <| qd_wait_timeout_count ::= u64_inc |>) p in
          if candidate_ahead candidate application_time then
            (false, prior_diag (fun d => d <| qd_waiting_for_sensor_time := true |>)
                      (prior_status ip_kWaiting "TOPIC_PRIOR_WAITING_FOR_SENSOR_TIME" p))
          else if (pp_context (prior_policy p) ==? kInFlightReinitialization)
                  || (pp_ground_fallback (prior_policy p) ==? pf_kReject)
          then (false, prior_status ip_kRejected "TOPIC_PRIOR_TIMEOUT_REJECTED" p)
          else
            let p := p <| fp_initial_prior_fallback_applied := true |> in
            (true,
             if pp_ground_fallback (prior_policy p) ==? pf_kFixed then
               prior_diag (fun d => d <| qd_fixed_fallback_count ::= u64_inc |>)
                 (prior_status ip_kFallbackApplied "TOPIC_PRIOR_TIMEOUT_FIXED_FALLBACK" p)
             else
               prior_diag (fun d => d <| qd_zero_fallback_count ::= u64_inc |>)
                 (prior_status ip_kFallbackApplied "TOPIC_PRIOR_TIMEOUT_ZERO_FALLBACK" p))
    end.

(** [resolveInitialStatePrior] *)
Definition resolveInitialStatePrior (application_time : Timestamp) (p : FastLioPipeline)
    : bool * FastLioPipeline :=
  let p := prior_diag (fun d => d <| qd_waiting_for_sensor_time := false |>) p in
  match pp_source (prior_policy p) with
  | ps_kZero => (true, (prior_status ip_kApplied "ZERO_PRIOR_ACCEPTED" p) <| fp_initial_prior_applied := true |>)
  | ps_kFixed => (true, (prior_status ip_kApplied "FIXED_PRIOR_ACCEPTED" p) <| fp_initial_prior_applied := true |>)
  | ps_kTopic =>
      match mx_candidate (fp_mailbox p) with
      | None => await_topic_prior None application_time p
      | Some candidate =>
          match examine_candidate candidate application_time p with
          | (true, p) => (true, p)
          | (false, p) => await_topic_prior (Some candidate) application_time p
          end
      end
  end.

(** The prior that is applied, read in a critical section of its own. *)
Definition selected_prior (application_time : Timestamp) (p : FastLioPipeline) : InitialStatePrior :=
  match pp_source (prior_policy p) with
  | ps_kZero => makeZeroPrior application_time p
  | ps_kFixed => makeFixedPrior application_time p
  | ps_kTopic =>
      if fp_initial_prior_fallback_applied p then
        if pp_ground_fallback (prior_policy p) ==? pf_kFixed then makeFixedPrior application_time p
        else makeZeroPrior application_time p
      else default InitialStatePrior_default (mx_candidate (fp_mailbox p))
  end.

(** The state the IMU initialisation gives. *)
Definition imu_initialized (r : InitializationResult) (x : ExtrinsicConfig) (s : ManifoldState)
    : ManifoldState :=
  with_extrinsic x
    ((set_orientation_odom_imu (ir_orientation_odom_imu r) s)
       <| mf_gyro_bias_rad_s := ir_gyro_bias_rad_s r |>
       <| mf_accel_bias_m_s2 := ir_accel_bias_m_s2 r |>
       <| mf_gravity_odom_m_s2 := ir_gravity_odom_m_s2 r |>).

Definition prior_rejected (reason : Reason) (p : FastLioPipeline) : FastLioPipeline :=
  set_reason reason (prior_diag (fun d => d <| qd_status := ip_kRejected |> <| qd_reason := reason |>) p).

(** The estimator starts from the applied state (lines 1359-1377). *)
Definition start_estimator (prior : InitialStatePrior) (applied : ManifoldState)
    (prior_covariance : option Covariance) (p : FastLioPipeline) : FastLioPipeline :=
  let estimator := estimator_initialize applied (fp_estimator p) in
  let p := p <| fp_state := applied |> <| fp_estimator := estimator |>
             <| fp_estimator_initialized := true |> <| fp_covariance := covariance estimator |>
             <| fp_initial_prior_state_time := Some (pi_sample_time prior) |> in
  let p := match prior_covariance with
           | Some c =>
               prior_diag (fun d => d <| qd_covariance_applied := true |>)
                 (p <| fp_covariance := c |> <| fp_estimator ::= estimator_rebase applied c |>)
           | None => p
           end in
  let p := prior_diag (fun d => d <| qd_applied := true |>
                                  <| qd_fallback_applied := fp_initial_prior_fallback_applied p |>
                                  <| qd_propagated_to_application := false |>) p in
  transitionTo kInitializingMap
    (if fp_initial_prior_fallback_applied p then "IMU_INITIALIZATION_PRIOR_FALLBACK_ACCEPTED"
     else "IMU_INITIALIZATION_PRIOR_ACCEPTED") p.

(** The application of the resolved prior (lines 1301-1377); the submissions of
    [between] precede the second read of the mailbox. *)
Definition apply_resolved_prior (between : nat -> list prior_submission) (r : InitializationResult)
    (application_time : Timestamp) (p : FastLioPipeline) : FastLioPipeline :=
  let x := cf_extrinsic (fp_config p) in
  let p := p <| fp_state ::= imu_initialized r x |> in
  let prior_state := mf_normalize (imu_initialized r x ManifoldState_default) in
  let p := submissions (between 2%nat) p in
  let prior := selected_prior application_time p in
  match prior_apply (fp_base_to_imu p) prior prior_state
          (pp_maximum_full_attitude_tilt_disagreement_rad (prior_policy p)) with
  | Error s => prior_rejected (rStatus s) p
  | Value applied =>
      match pi_covariance prior with
      | None => start_estimator prior applied None p
      | Some c =>
          match prior_covariance_accepted c with
          | None => prior_rejected (rText "INITIAL_PRIOR_COVARIANCE_NOT_PSD") p
          | Some c => start_estimator prior applied (Some c) p
          end
      end
  end.

(** The in-flight evaluation (lines 1254-1282): the prior replaces the
    stationary initialiser. *)
Definition in_flight_initialization (between : nat -> list prior_submission)
    (application_time : Timestamp) (p : FastLioPipeline)
    : option InitializationResult * FastLioPipeline :=
  match resolveInitialStatePrior application_time p with
  | (false, p) => (None, p)
  | (true, p) =>
      let p := submissions (between 0%nat) p in
      let prior := default InitialStatePrior_default (mx_candidate (fp_mailbox p)) in
      let q := quality (fp_initializer p) in
      if mk_attitude (pi_mask prior) !=? pa_kFull then
        (None, prior_rejected (rText "IN_FLIGHT_PRIOR_REQUIRES_FULL_ATTITUDE") p)
      else if (iq_samples_collected q =? 0) || negb (v_allFinite (iq_accel_mean_m_s2 q))
              || flt (iq_measured_gravity_norm_m_s2 q) f64_1e_6 then
        (None, prior_rejected (rText "IN_FLIGHT_PRIOR_IMU_EVIDENCE_INVALID") p)
      else
        (Some (mkInitialization quat_identity vec3_zero vec3_zero default_gravity q), p)
  end.

(** The evaluation of the IMU data, once (lines 1246-1293). *)
Definition evaluate_imu (between : nat -> list prior_submission) (progress_time : option Timestamp)
    (p : FastLioPipeline)
    : option InitializationResult * FastLioPipeline :=
  let p := transitionTo kInitializingImu "EVALUATING_IMU_INITIALIZATION" p in
  let start := match progress_time with Some t => Some t | None => fp_last_initialization_imu_time p end in
  let p := p <| fp_prior_wait_start_time := start |> in
  let r :=
    if pp_context (prior_policy p) ==? kInFlightReinitialization then
      in_flight_initialization between (default timestamp_zero start) p
    else
      match tryInitialize (fp_initializer p) with
      | Error s => (None, set_reason (rStatus s) p)
      | Value r => (Some r, p)
      end in
  (r.1, match r.1 with
        | Some result => r.2 <| fp_imu_initialization_result := Some result |>
        | None => r.2
        end).

(** [tryCompleteImuInitialization] *)
Definition tryCompleteImuInitialization (between : nat -> list prior_submission)
    (progress_time : option Timestamp) (p : FastLioPipeline) : FastLioPipeline :=
  if negb (hasEnoughSamples (fp_initializer p)) || statusUsesEstimatorState (fp_status p) then p
  else
    let '(result, p) :=
      match fp_imu_initialization_result p with
      | Some r => (Some r, p)
      | None => evaluate_imu between progress_time p
      end in
    match result with
    | None => p
    | Some r =>
        let application_time :=
          match progress_time with
          | Some t => t
          | None => default (default timestamp_zero (fp_last_initialization_imu_time p))
                            (fp_prior_wait_start_time p)
          end in
        match resolveInitialStatePrior application_time (submissions (between 1%nat) p) with
        | (false, p) => p
        | (true, p) => apply_resolved_prior between r application_time p
        end
    end.

(** ** [pushImu] and [pushLidar] *)

Definition pipeline_pushImu (between : nat -> list prior_submission) (s : ImuSample) (p : FastLioPipeline)
    : StatusCode * FastLioPipeline :=
  let '(status, buffer) := pushImu (fp_buffer p) s in
  let p := p <| fp_buffer := buffer |> in
  if negb (status_ok status) then
    let p := count (fun c => c <| cn_imu_drop_count ::= u64_inc |>) p in
    let p := if status ==? kTimestampRegression
             then count (fun c => c <| cn_timestamp_regression_count ::= u64_inc |>) p else p in
    (status, set_reason (rStatus status) p)
  else
    let p := retainPriorImuSample s p in
    let p := if fp_status p ==? kWaitingForSensors
             then transitionTo kCollectingImu "FIRST_IMU_SAMPLE_ACCEPTED" p else p in
    if (fp_status p ==? kCollectingImu) || (fp_status p ==? kInitializingImu) then
      match addInitializationSample s p with
      | (kOk, p) => (kOk, tryCompleteImuInitialization between (Some (im_time s)) p)
      | (status, p) => (status, set_reason (rStatus status) p)
      end
    else (kOk, p).

(** [pushLidar] at the steady time [now]. *)
Definition pipeline_pushLidar (now : Z) (scan : LidarScan) (p : FastLioPipeline)
    : StatusCode * FastLioPipeline :=
  let p := count (fun c => c <| cn_raw_lidar_count ::= u64_inc |>) p in
  let '(status, buffer) := pushLidar (fp_buffer p) scan in
  let p := p <| fp_buffer := buffer |> in
  if negb (status_ok status) then
    let p := count (fun c => c <| cn_lidar_drop_count ::= u64_inc |>) p in
    let p := if status ==? kTimestampRegression
             then count (fun c => c <| cn_timestamp_regression_count ::= u64_inc |>
                                    <| cn_invalid_timestamp_rejected_count ::= u64_inc |>) p else p in
    (status, set_reason (rStatus status) p)
  else
    (status, (count (fun c => c <| cn_buffer_accepted_lidar_count ::= u64_inc |>) p)
               <| fp_last_lidar_arrival := Some now |>).

(** ** The prediction samples *)

(** [validate_sequence]: valid, on the clock of the start, strictly increasing. *)
Definition sequence_status (start_time : Timestamp) (samples : list ImuSample) : StatusCode :=
  samples_status start_time None samples.

(** The merge of the retained history and the group; the group wins at equal
    times.  Each turn consumes a sample. *)
Fixpoint merge_samples (history : list ImuSample) : list ImuSample -> list ImuSample :=
  fix merge_group (group : list ImuSample) : list ImuSample :=
    match history, group with
    | [], _ => group
    | _, [] => history
    | h :: history', g :: group' =>
        if imu_ns h <? imu_ns g then h :: merge_samples history' group
        else if imu_ns g <? imu_ns h then g :: merge_group group'
        else g :: merge_samples history' group'
    end.

(** The position of the first sample used (lines 999-1018). *)
Definition start_bracket (start_ns : Z) (samples : list ImuSample) : option nat :=
  let first_after := lower_bound_by imu_ns start_ns samples in
  let at_start i := match samples !! i with Some s => imu_ns s =? start_ns | None => false end in
  let first :=
    if (first_after =? length samples)%nat || ((0 <? first_after)%nat && negb (at_start first_after))
    then match first_after with O => None | S i => Some i end
    else Some first_after in
  match first with
  | None => None
  | Some i => match samples !! i with
              | Some s => if start_ns <? imu_ns s then None else Some i
              | None => None
              end
  end.

(** The position of the last sample used (lines 1020-1039). *)
Definition end_bracket (end_ns : Z) (samples : list ImuSample) : option nat :=
  match upper_bound_by imu_ns end_ns samples with
  | O => None
  | S last =>
      match samples !! last with
      | Some s =>
          if imu_ns s <? end_ns then
            if (length samples <=? S last)%nat then None else Some (S last)
          else Some last
      | None => None
      end
  end.

(** The loop over the gaps of the bracket. *)
Fixpoint gaps_status (configured_gap : Z) (previous : ImuSample) (rest : list ImuSample) : StatusCode :=
  match rest with
  | [] => kOk
  | current :: rest =>
      match checkedDifference (im_time current) (im_time previous) with
      | Error _ => kOutOfRange
      | Value gap =>
          if dur_ns gap <=? 0 then kTimestampRegression
          else if (0 <? configured_gap) && (configured_gap <? dur_ns gap) then kImuGap
          else gaps_status configured_gap current rest
      end
  end.

(** The bracket of the chosen samples (lines 999-1076). *)
Definition bracket_samples (configured_gap : Z) (start_time end_time : Timestamp)
    (samples : list ImuSample) : Result (list ImuSample) :=
  match start_bracket (ts_ns start_time) samples with
  | None => Error kMissingStartBracket
  | Some first =>
      match end_bracket (ts_ns end_time) samples with
      | None => Error kMissingEndBracket
      | Some last =>
          let output := take (S last - first) (drop first samples) in
          let status := match drop first samples with
                        | s :: rest => gaps_status configured_gap s (take (last - first) rest)
                        | [] => kOk
                        end in
          if negb (status_ok status) then Error status
          else if (last =? first)%nat && negb (ts_ns start_time =? ts_ns end_time)
          then Error kMissingEndBracket
          else match output with [] => Error kInsufficientData | _ => Value output end
      end
  end.

(** [buildPredictionImuSamples] *)
Definition buildPredictionImuSamples (group : MeasurementGroup) (start_time end_time : Timestamp)
    (p : FastLioPipeline) : Result (list ImuSample) :=
  if negb (sameClockDomain start_time end_time) then Error kClockDomainMismatch
  else if ts_ns end_time <? ts_ns start_time then Error kTimestampRegression
  else
    let group_status := sequence_status start_time (mg_imu_samples group) in
    if negb (status_ok group_status) then Error group_status
    else
      let steady_state := ts_ns start_time =? scan_start_ns (mg_scan group) in
      let history_status := if steady_state then kOk
                            else sequence_status start_time (fp_prior_imu_history p) in
      if negb (status_ok history_status) then Error history_status
      else
        let samples := if steady_state then mg_imu_samples group
                       else merge_samples (fp_prior_imu_history p) (mg_imu_samples group) in
        match samples with
        | [] => Error kMissingStartBracket
        | _ =>
            let configured_gap := if 0 <? mg_max_imu_gap_ns group then mg_max_imu_gap_ns group
                                  else cf_maximum_imu_gap_ns (fp_config p) in
            bracket_samples configured_gap start_time end_time samples
        end.

(** ** Results *)

(** [ProcessResult]; of its diagnostics, the lifecycle report. *)
Record ProcessResult : Type := mkResult {
  re_status_before : EstimatorStatus;
  re_status_after : EstimatorStatus;
  re_scan_time : option Timestamp;
  re_estimate_validity : EstimateValidity;
  re_lidar_update_status : LidarUpdateStatus;
  re_predicted_estimate : option StateEstimate;
  re_corrected_estimate : option StateEstimate;
  re_corrected_kinematic_estimate : option KinematicStateEstimate;
  re_last_lidar_correction_time : option Timestamp;
  re_registered_points_odom_m : list vec3;
  re_report : option LifecycleReport;
  re_rejection_reason : Reason
}.

#[export] Instance ProcessResult_eta : Eta ProcessResult := fun r =>
  mkResult (re_status_before r) (re_status_after r) (re_scan_time r) (re_estimate_validity r)
    (re_lidar_update_status r) (re_predicted_estimate r) (re_corrected_estimate r)
    (re_corrected_kinematic_estimate r) (re_last_lidar_correction_time r)
    (re_registered_points_odom_m r) (re_report r) (re_rejection_reason r).

Definition result_new (status_before : EstimatorStatus) : ProcessResult :=
  mkResult status_before kWaitingForSensors None ev_kUnavailable lu_kNotAttempted None None None None
    [] None (rText "").

(** [hasPredictedOutput], [hasCorrectedOutput], [hasRegisteredScanOutput] *)
Definition estimate_finite (e : option StateEstimate) : bool :=
  match e with Some e => es_allFinite e | None => false end.
Definition hasPredictedOutput (r : ProcessResult) : bool :=
  estimate_finite (re_predicted_estimate r) && (re_estimate_validity r !=? ev_kUnavailable).
Definition hasCorrectedOutput (r : ProcessResult) : bool :=
  estimate_finite (re_corrected_estimate r) && (re_estimate_validity r ==? ev_kCorrected)
  && (re_lidar_update_status r ==? lu_kSucceeded).
Definition hasRegisteredScanOutput (r : ProcessResult) : bool :=
  hasCorrectedOutput r && negb (match re_registered_points_odom_m r with [] => true | _ => false end).

(** [makeBaseResult] *)
Definition makeBaseResult (group : MeasurementGroup) (p : FastLioPipeline) : ProcessResult :=
  (result_new (fp_status p)) <| re_status_after := fp_status p |>
    <| re_scan_time := Some (ls_end_time (mg_scan group)) |>.

(** [copyInitialPriorMailboxDiagnostics], as far as the pipeline reads it back. *)
Definition copyInitialPriorMailboxDiagnostics (p : FastLioPipeline) : FastLioPipeline :=
  if has (mx_candidate (fp_mailbox p)) && negb (qd_applied (dg_initial_prior (fp_diagnostics p)))
  then prior_diag (fun d => d <| qd_status := ip_kCandidateAvailable |>) p
  else p.

(** How a call of [process] ends: with a result, without one, or by an
    exception. *)
Inductive process_outcome : Type :=
| oResult (r : ProcessResult)
| oWaiting
| oThrows.

(** [finalizeResult] *)
Definition finalizeResult (r : ProcessResult) (p : FastLioPipeline) : process_outcome * FastLioPipeline :=
  let p := copyInitialPriorMailboxDiagnostics p in
  (oResult (r <| re_status_after := fp_status p |>
              <| re_last_lidar_correction_time := fp_last_correction_time p |>
              <| re_report := Some (lifecycle_report p) |>), p).

(** A rejection with its reason. *)
Definition reject (r : ProcessResult) (reason : Reason) (p : FastLioPipeline)
    : process_outcome * FastLioPipeline :=
  finalizeResult (r <| re_rejection_reason := reason |>) (set_reason reason p).

(** The same, with an uncorrected update recorded. *)
Definition reject_update (r : ProcessResult) (reason : Reason) (failure : LidarUpdateFailureClass)
    (p : FastLioPipeline) : process_outcome * FastLioPipeline :=
  finalizeResult (r <| re_rejection_reason := reason |>)
    (recordUncorrectedUpdate failure (set_reason reason p)).

(** [registration_map_.size()] for a report: the count a backend caches may
    change. *)
Definition report_size (p : FastLioPipeline) : FastLioPipeline :=
  p <| fp_registration_map ::= fun m => (rm_size m).2 |>.

(** [resetTransientDiagnostics]: of the members kept here it clears the reason,
    and it asks the map for its size. *)
Definition resetTransientDiagnostics (p : FastLioPipeline) : FastLioPipeline :=
  report_size (set_reason (rText "") p).

(** ** [reset] *)

Definition pipeline_reset (p : FastLioPipeline) : FastLioPipeline :=
  let c := fp_config p in
  let state := with_extrinsic (cf_extrinsic c) ManifoldState_default in
  let estimator := estimator_initialize state (fp_estimator p) in
  mkPipeline c (buffer_clear (fp_buffer p)) (synchronizer_reset (fp_synchronizer p))
    (initializer_reset (fp_initializer p)) estimator
    (rm_clear (fp_registration_map p)) (rm_clear (fp_bootstrap_map p))
    (local_map_reset (fp_local_map_manager p)) kWaitingForSensors state (covariance estimator)
    None None [] None None None []
    (diagnostics_new (pp_source (cf_initial_prior c)) kResetting 2 (rText "RESET_COMPLETE"))
    (fp_base_to_imu p) mailbox_empty None None false false false false 0 0 0 0 0 false false
    (u64_inc (fp_generation p)).

(** ** Processing a group *)

(** The checks of a group against itself (lines 318-370): the reason it is
    rejected for. *)
Definition imu_sequence_reason (clock : Timestamp) (samples : list ImuSample) : option Reason :=
  match samples_status clock None samples with
  | kOk => None
  | kInvalidArgument => Some (rStatus kInvalidArgument)
  | _ => Some (rText "INVALID_IMU_TIME_SEQUENCE")
  end.

Definition negative_interval (later earlier : Timestamp) : bool :=
  match checkedDifference later earlier with Error _ => true | Value d => dur_ns d <? 0 end.

Definition group_reason (group : MeasurementGroup) : option Reason :=
  let scan := mg_scan group in
  if negative_interval (ls_end_time scan) (ls_start_time scan)
  then Some (rText "INVALID_SCAN_TIME_INTERVAL")
  else if negative_interval (ls_end_time scan) (mg_propagation_start_time group)
  then Some (rText "INVALID_PROPAGATION_START_TIME")
  else if negb (fullyBracketed group) then Some (rText "MEASUREMENT_GROUP_NOT_FULLY_BRACKETED")
  else if negb (status_ok (scan_validate scan)) then Some (rStatus (scan_validate scan))
  else imu_sequence_reason (ls_start_time scan) (mg_imu_samples group).

Definition retain_all (samples : list ImuSample) (p : FastLioPipeline) : FastLioPipeline :=
  foldl (fun p s => retainPriorImuSample s p) p samples.

(** The loop over the samples a direct caller supplies. *)
Fixpoint add_initialization_samples (samples : list ImuSample) (p : FastLioPipeline)
    : StatusCode * FastLioPipeline :=
  match samples with
  | [] => (kOk, p)
  | s :: samples =>
      match addInitializationSample s p with
      | (kOk, p) => add_initialization_samples samples p
      | (status, p) => (status, p)
      end
  end.

Definition collecting (s : EstimatorStatus) : bool := (s ==? kCollectingImu) || (s ==? kInitializingImu).

(** Why the initialisation has not completed. *)
Definition pending_reason (p : FastLioPipeline) : string :=
  if has (fp_imu_initialization_result p)
     || ((pp_context (prior_policy p) ==? kInFlightReinitialization)
         && (qd_status (dg_initial_prior (fp_diagnostics p)) ==? ip_kWaiting))
  then "INITIAL_STATE_PRIOR_PENDING" else "IMU_INITIALIZATION_NOT_READY".

(** The initialisation stage (lines 378-412): the reason to stop at it. *)
Definition initialization_stage (between : nat -> list prior_submission) (group : MeasurementGroup)
    (imu_samples_already_ingested : bool) (p : FastLioPipeline) : option Reason * FastLioPipeline :=
  let p := if fp_status p ==? kWaitingForSensors
           then transitionTo kCollectingImu "SYNCHRONIZED_MEASUREMENT_RECEIVED" p else p in
  if collecting (fp_status p) then
    let '(status, p) := if imu_samples_already_ingested then (kOk, p)
                        else add_initialization_samples (mg_imu_samples group) p in
    if negb (status_ok status) then (Some (rStatus status), p)
    else
      let progress_time := match last (mg_imu_samples group) with
                           | Some s => Some (im_time s)
                           | None => fp_last_initialization_imu_time p
                           end in
      let p := tryCompleteImuInitialization between progress_time p in
      if fp_status p !=? kInitializingMap then (Some (rText (pending_reason p)), p) else (None, p)
  else if negb (statusUsesEstimatorState (fp_status p))
  then (Some (rText "ESTIMATOR_STATE_NOT_PROCESSABLE"), p)
  else (None, p).

(** The first epoch of the state (lines 416-443); [inl] is the rejection. *)
Definition first_epoch (group : MeasurementGroup) (p : FastLioPipeline)
    : (string * option LidarUpdateFailureClass) + FastLioPipeline :=
  let scan_start := ls_start_time (mg_scan group) in
  let configured_prior_owns_epoch :=
    (pp_source (prior_policy p) !=? ps_kZero) && negb (fp_initial_prior_fallback_applied p) in
  let initial_epoch :=
    match fp_initial_prior_state_time p with
    | Some t => if configured_prior_owns_epoch then t else mg_propagation_start_time group
    | None => mg_propagation_start_time group
    end in
  if negb (sameClockDomain initial_epoch scan_start) then
    inl ("INITIAL_PRIOR_CLOCK_DOMAIN_MISMATCH"%string, Some fc_kPrediction)
  else if match fp_last_initialization_imu_time p with
          | Some t => negb (sameClockDomain t scan_start) || (ts_ns scan_start <? ts_ns t)
          | None => false
          end then inl ("SCAN_PRECEDES_IMU_INITIALIZATION_EPOCH"%string, None)
  else if ts_ns scan_start <? ts_ns initial_epoch then
    inl ("INITIAL_PRIOR_AFTER_APPLICATION_EPOCH"%string, None)
  else inr (p <| fp_state_time := Some initial_epoch |>).

(** The inflation of the covariance at a rebase, with its diagnostics. *)
Definition inflate (p : FastLioPipeline) : InflationResult * FastLioPipeline :=
  let '(r, c) := inflateRecoveryCovariance (fp_covariance p)
                   (tc_discontinuity_covariance_inflation (tracking p)) in
  (r, diagnose (fun d => (if if_clamped r then d <| dg_recovery_covariance_clamp_count ::= u64_inc |> else d)
                           <| dg_eigenvalue_before_clamp ::= fun x => fmax x (if_maximum_before r) |>
                           <| dg_eigenvalue_after_clamp ::= fun x => fmax x (if_maximum_after r) |>)
        (p <| fp_covariance := c |>)).

(** The rebase of a degraded estimator onto the boundary of the synchroniser
    (lines 466-496); [inl] is the rejection. *)
Definition rebase_state_time (state_time : Timestamp) (group : MeasurementGroup) (p : FastLioPipeline)
    : (string * LidarUpdateFailureClass) * FastLioPipeline + FastLioPipeline :=
  let start := mg_propagation_start_time group in
  let '(r, p) := inflate p in
  match checkedDifference start state_time with
  | Error _ => inl (("PROPAGATION_STATE_TIME_REBASE_FAILED"%string, fc_kStateCorruption), p)
  | Value gap =>
      if negb (if_successful r)
      then inl (("PROPAGATION_STATE_TIME_REBASE_FAILED"%string, fc_kStateCorruption), p)
      else
        let p := p <| fp_estimator ::= estimator_rebase (fp_state p) (fp_covariance p) |>
                   <| fp_state_time := Some start |> in
        let p := diagnose (fun d => d <| dg_propagation_discontinuity_count ::= u64_inc |>
                                      <| dg_last_propagation_gap_ns := dur_ns gap |>) p in
        inr (recordUncorrectedUpdate fc_kPropagationDiscontinuity
               (set_reason (rText "PROPAGATION_STATE_TIME_REBASED") p))
  end.

Definition same_instant (a b : Timestamp) : bool := sameClockDomain a b && (ts_ns a =? ts_ns b).

(** The alignment of the state with the group (lines 414-507): [inl] is the
    rejection, and the class of the uncorrected update if one is recorded. *)
Definition align_state_time (group : MeasurementGroup) (p : FastLioPipeline)
    : (string * option LidarUpdateFailureClass) * FastLioPipeline + Timestamp * FastLioPipeline :=
  match fp_state_time p with
  | None =>
      match first_epoch group p with
      | inl reason => inl (reason, p)
      | inr q => inr (default timestamp_zero (fp_state_time q), q)
      end
  | Some state_time =>
      let start := mg_propagation_start_time group in
      if same_instant state_time start then inr (state_time, p)
      else
        let recoverable_forward_mismatch :=
          sameClockDomain state_time start && (ts_ns state_time <? ts_ns start)
          && fp_tracking_ever_confirmed p
          && ((fp_status p ==? kDegraded) || (fp_status p ==? kLost)) in
        if negb recoverable_forward_mismatch then
          inl (("PROPAGATION_START_DOES_NOT_MATCH_STATE_TIME"%string, Some fc_kPrediction), p)
        else
          match rebase_state_time state_time group p with
          | inl ((reason, class), p) => inl ((reason, Some class), p)
          | inr p => inr (start, p)
          end
  end.

(** The prior has been propagated up to the scan. *)
Definition note_prior_propagation (group : MeasurementGroup) (start : Timestamp) (p : FastLioPipeline)
    : FastLioPipeline :=
  let scan_end := ls_end_time (mg_scan group) in
  match fp_initial_prior_state_time p with
  | Some t =>
      if qd_applied (dg_initial_prior (fp_diagnostics p)) && (ts_ns start <? ts_ns scan_end)
         && sameClockDomain t scan_end && (ts_ns t <? ts_ns scan_end)
      then prior_diag (fun d => d <| qd_propagated_to_application := true |>) p else p
  | None => p
  end.

(** The prediction (lines 509-570): [inl] is the reason it failed for. *)
Definition prediction_stage (group : MeasurementGroup) (start : Timestamp) (p : FastLioPipeline)
    : Reason * FastLioPipeline + ImuTrajectory * FastLioPipeline :=
  let scan_end := ls_end_time (mg_scan group) in
  match checkedDifference scan_end start with
  | Error _ => inl (rText "PREDICTION_TIME_INTERVAL_OVERFLOW", p)
  | Value _ =>
      match buildPredictionImuSamples group start scan_end p with
      | Error s => inl (rStatus s, p)
      | Value samples =>
          let p := prior_diag (fun d => d <| qd_status := ip_kClosed |>)
                     (p <| fp_initial_prior_gate_closed := true |>) in
          let '(trajectory, e) := predict samples start scan_end (fp_estimator p) in
          let p := p <| fp_estimator := e |> in
          match trajectory with
          | Error s => inl (rStatus s, p)
          | Value trajectory =>
              let p := note_prior_propagation group start p in
              inr (trajectory, p <| fp_state := stateView e |> <| fp_covariance := covariance e |>
                                 <| fp_state_time := Some scan_end |>)
          end
      end
  end.

(** [toDoublePoints] and [transformPointsToOdom] *)
Definition toDoublePoints (scan : LidarScan) : list vec3 :=
  map (fun p => vec3_of_vec3f (lp_position_lidar_m p)) (ls_points scan).
Definition transformPointsToOdom (points : list vec3) (s : ManifoldState) : list vec3 :=
  map (transformLidarPointToOdom s) points.

(** Deskewing and preprocessing (lines 575-617): the points, or the reason and
    class of the failure; [None] when a transform throws. *)
Definition scan_stage (group : MeasurementGroup) (trajectory : ImuTrajectory) (p : FastLioPipeline)
    : option ((Reason * LidarUpdateFailureClass) + list vec3) :=
  T_imu_lidar ← RigidTransform_new imuFrame lidarFrame (mf_rotation_imu_lidar (fp_state p))
                  (mf_position_imu_lidar_m (fp_state p));
  deskewed ← deskew (cf_deskew (fp_config p)) (mg_scan group) trajectory T_imu_lidar;
  Some match deskewed with
       | Error s => inl (rStatus s, fc_kDeskew)
       | Value d =>
           match preprocess (cf_preprocessing (fp_config p)) (dr_scan d) with
           | Error s => inl (rStatus s, fc_kPreprocessing)
           | Value r => inr (toDoublePoints (pr_scan r))
           end
       end.

(** The first scan of the map (lines 619-627). *)
Definition capture_reference (points : list vec3) (p : FastLioPipeline) : FastLioPipeline :=
  let reference := transformPointsToOdom points (fp_state p) in
  let p := p <| fp_bootstrap_reference_points := reference |>
             <| fp_bootstrap_map ::= fun m => (rm_insert reference m).2 |> in
  report_size (prior_diag (fun d => d <| qd_bootstrap_map_after_prior := qd_applied d |>) p).

(** A failed correction (lines 682-692). *)
Definition correction_failed (p : FastLioPipeline) : FastLioPipeline :=
  let failures := u64_inc (fp_consecutive_registration_failures p) in
  let p := diagnose (fun d => d <| dg_consecutive_registration_failure_count := failures |>)
             (count (fun c => c <| cn_correction_failure_count ::= u64_inc |>)
                (p <| fp_consecutive_registration_failures := failures |>)) in
  let p :=
    if fp_status p ==? kInitializingMap then
      let p := p <| fp_initial_map_registration_failures ::= u64_inc |> in
      if lc_maximum_initial_map_registration_failures (lifecycle p)
           <=? fp_initial_map_registration_failures p
      then transitionTo kLost "INITIAL_MAP_REGISTRATION_EXHAUSTED" p else p
    else p in
  recordUncorrectedUpdate fc_kRegistration p.

Definition converged_reason (converged : bool) : string :=
  if converged then "LIDAR_CORRECTION_CONVERGED" else "LIDAR_CORRECTION_ACCEPTED_AT_ITERATION_LIMIT".

(** What a successful correction does to the lifecycle (lines 704-730). *)
Definition confirm_correction (converged : bool) (p : FastLioPipeline) : FastLioPipeline :=
  if negb (fp_tracking_ever_confirmed p) then
    transitionTo kTracking (converged_reason converged)
      (p <| fp_tracking_ever_confirmed := true |>
         <| fp_consecutive_uncorrected_lidar_updates := 0 |>
         <| fp_consecutive_recovery_successes := 0 |>)
  else if (fp_status p ==? kDegraded) || (fp_status p ==? kLost) then
    let p := p <| fp_consecutive_recovery_successes ::= u64_inc |> in
    if fp_map_recovery_required p then
      if fp_status p !=? kLost then transitionTo kDegraded "LOCAL_MAP_RECOVERY_REQUIRED" p else p
    else if tc_recovery_confirmation_updates (tracking p) <=? fp_consecutive_recovery_successes p then
      transitionTo kTracking "LIDAR_RECOVERY_CONFIRMED"
        (p <| fp_consecutive_uncorrected_lidar_updates := 0 |>
           <| fp_consecutive_recovery_successes := 0 |>)
    else transitionTo kDegraded "LIDAR_RECOVERY_CONFIRMATION_PENDING" p
  else p.

(** The state of a corrected pipeline (lines 698-736). *)
Definition accept_correction (scan_end : Timestamp) (converged : bool) (p : FastLioPipeline)
    : FastLioPipeline :=
  let p := p <| fp_state := stateView (fp_estimator p) |>
             <| fp_covariance := covariance (fp_estimator p) |>
             <| fp_last_correction_time := Some scan_end |>
             <| fp_consecutive_registration_failures := 0 |>
             <| fp_initial_map_registration_failures := 0 |> in
  let p := diagnose (fun d => d <| dg_consecutive_registration_failure_count := 0 |>) p in
  let p := confirm_correction converged p in
  count (fun c => c <| cn_correction_success_count ::= u64_inc |>)
    (diagnose (fun d => d <| dg_last_update_failure_class := fc_kNone |>) p).

(** The points go into the map (lines 764-776). *)
Definition insert_points (registered : list vec3) (p : FastLioPipeline) : FastLioPipeline :=
  let '(size, m) := rm_size (fp_registration_map (report_size p)) in
  let p := p <| fp_registration_map := m |> in
  let p :=
    match fp_bootstrap_reference_points p with
    | [] => p
    | reference =>
        if size =? 0 then
          p <| fp_registration_map ::= fun m => (rm_insert reference m).2 |>
            <| fp_bootstrap_reference_points := [] |> <| fp_bootstrap_map ::= rm_clear |>
        else p
    end in
  report_size (report_size (p <| fp_registration_map ::= fun m => (rm_insert registered m).2 |>)).

(** The map is cropped, and its guard may fail (lines 778-801). *)
Definition maintain_map (p : FastLioPipeline) : FastLioPipeline :=
  let '(u, l, m) := local_map_update (fp_local_map_manager p) (fp_registration_map p)
                      (mf_position_odom_imu_m (fp_state p)) in
  let p := report_size (p <| fp_local_map_manager := l |> <| fp_registration_map := m |>) in
  if lu_absolute_guard_recovery_failed u then
    let p := p <| fp_map_recovery_required := true |> in
    if fp_status p ==? kTracking then transitionTo kDegraded "LOCAL_MAP_ABSOLUTE_GUARD_EXCEEDED" p else p
  else p.

(** The insertion of a corrected scan (lines 747-818). *)
Definition insertion_stage (correction_usable : bool) (point_count : nat) (registered : list vec3)
    (p : FastLioPipeline) : FastLioPipeline :=
  let context := mkInsertionContext (fp_status p ==? kTracking) true correction_usable
                   (mf_allFinite (fp_state p)) (Z.of_nat point_count) in
  let allowed := insertionAllowed (fp_local_map_manager p) in
  let p := if allowed then p else p <| fp_map_recovery_required := true |> in
  if allowed && insertion_permits (cf_insertion_minimum_point_count (fp_config p)) context
  then maintain_map (insert_points registered p) else p.

(** The map the correction associates with. *)
Definition association_map (p : FastLioPipeline) : M * FastLioPipeline :=
  let '(size, m) := rm_size (fp_registration_map p) in
  let p := p <| fp_registration_map := m |> in
  (if size =? 0 then fp_bootstrap_map p else m, p).

(** The outputs of a corrected scan (lines 734-746). *)
Definition corrected_result (group : MeasurementGroup) (points : list vec3) (r : ProcessResult)
    (p : FastLioPipeline) : ProcessResult * FastLioPipeline :=
  let scan_end := ls_end_time (mg_scan group) in
  let e := mkEstimate scan_end (fp_state p) (fp_covariance p) in
  let '(kinematic, a) := resolve e (mg_imu_samples group)
                           (dg_corrected_angular_velocity (fp_diagnostics p)) in
  let p := diagnose (fun d => d <| dg_corrected_angular_velocity := a |>) p in
  (r <| re_lidar_update_status := lu_kSucceeded |> <| re_estimate_validity := ev_kCorrected |>
     <| re_scan_time := Some scan_end |> <| re_corrected_estimate := Some e |>
     <| re_corrected_kinematic_estimate :=
          match kinematic with Value k => Some k | Error _ => None end |>
     <| re_registered_points_odom_m := transformPointsToOdom points (fp_state p) |>, p).

(** The correction and what follows it (lines 629-845). *)
Definition correction_stage (group : MeasurementGroup) (points : list vec3) (r : ProcessResult)
    (p : FastLioPipeline) : process_outcome * FastLioPipeline :=
  let r := r <| re_lidar_update_status := lu_kRejected |> in
  let '(m, p) := association_map p in
  let p := count (fun c => c <| cn_correction_attempt_count ::= u64_inc |>) p in
  let '(correction, e) := correct points m (fp_estimator p) in
  let p := p <| fp_estimator := e |> in
  if negb (cr_successful correction) || negb (cr_finite correction)
     || negb (mf_allFinite (cr_corrected_state correction))
  then
    let reason := rText (cr_reason correction) in
    finalizeResult (r <| re_rejection_reason := reason |>) (set_reason reason (correction_failed p))
  else
    let p := accept_correction (ls_end_time (mg_scan group)) (cr_converged correction) p in
    let '(r, p) := corrected_result group points r p in
    let p := insertion_stage (cr_successful correction) (length points)
               (re_registered_points_odom_m r) p in
    let p := (report_size p) <| fp_corrected_scan_count ::= u64_inc |> in
    let reason := if fp_map_recovery_required p then "LOCAL_MAP_RECOVERY_REQUIRED"%string
                  else converged_reason (cr_converged correction) in
    finalizeResult r (set_reason (rText reason) p).

(** A predicted scan (lines 571-627): the points, the first reference or the
    correction. *)
Definition predicted_stage (group : MeasurementGroup) (trajectory : ImuTrajectory) (r : ProcessResult)
    (p : FastLioPipeline) : process_outcome * FastLioPipeline :=
  let r := r <| re_predicted_estimate :=
                  Some (mkEstimate (ls_end_time (mg_scan group)) (fp_state p) (fp_covariance p)) |>
             <| re_estimate_validity := ev_kPredictedOnly |> in
  match scan_stage group trajectory p with
  | None => (oThrows, p)
  | Some (inl (reason, class)) => reject_update r reason class p
  | Some (inr points) =>
      if Z.of_nat (length points) <? cf_insertion_minimum_point_count (fp_config p) then
        reject_update (r <| re_lidar_update_status := lu_kRejected |>)
          (rText "INSUFFICIENT_FILTERED_POINTS") fc_kInsufficientPoints p
      else
        let '(size, bootstrap) := if fp_status p ==? kInitializingMap
                                  then rm_size (fp_bootstrap_map p) else (1, fp_bootstrap_map p) in
        let p := p <| fp_bootstrap_map := bootstrap |> in
        if size =? 0 then
          reject r (rText "INITIAL_MAP_REFERENCE_CAPTURED") (capture_reference points p)
        else correction_stage group points r p
  end.

(** [processInternal] *)
Definition processInternal (between : nat -> list prior_submission) (group : MeasurementGroup)
    (imu_samples_already_ingested : bool) (p : FastLioPipeline) : process_outcome * FastLioPipeline :=
  let r := makeBaseResult group p in
  match group_reason group with
  | Some reason => reject_update r reason fc_kSynchronization p
  | None =>
      let p := retain_all (mg_imu_samples group) p in
      match initialization_stage between group imu_samples_already_ingested p with
      | (Some reason, p) => reject r reason p
      | (None, p) =>
          match align_state_time group p with
          | inl ((reason, None), p) => reject r (rText reason) p
          | inl ((reason, Some class), p) => reject_update r (rText reason) class p
          | inr (start, p) =>
              match prediction_stage group start p with
              | inl (reason, p) => reject_update r reason fc_kPrediction p
              | inr (trajectory, p) => predicted_stage group trajectory r p
              end
          end
      end
  end.

(** [process]: the direct path. *)
Definition pipeline_process (between : nat -> list prior_submission) (group : MeasurementGroup)
    (p : FastLioPipeline) : process_outcome * FastLioPipeline :=
  processInternal between group false (resetTransientDiagnostics p).

(** ** Recovery from a discontinuity *)

(** What the discontinuity does to a pipeline that uses the estimator
    (lines 1190-1212), after a successful inflation. *)
Definition resume_after_gap (long_gap : bool) (resume : Timestamp) (p : FastLioPipeline) : FastLioPipeline :=
  let p := p <| fp_estimator ::= estimator_rebase (fp_state p) (fp_covariance p) |>
             <| fp_state_time := Some resume |> in
  let p := recordUncorrectedUpdate fc_kPropagationDiscontinuity p in
  if negb (fp_tracking_ever_confirmed p) then
    if long_gap then
      let p := p <| fp_bootstrap_map ::= rm_clear |> <| fp_bootstrap_reference_points := [] |>
                 <| fp_initial_map_registration_failures := 0 |> in
      let '(size, m) := rm_size (fp_registration_map p) in
      transitionTo kInitializingMap
        (if size =? 0 then "INITIAL_MAP_RESTART_AFTER_LONG_IMU_DISCONTINUITY"
         else "INITIAL_MAP_REGISTRATION_MAP_INVARIANT_VIOLATION")
        (p <| fp_registration_map := m |>)
    else transitionTo kInitializingMap "INITIAL_MAP_RECOVERY_AFTER_SHORT_IMU_DISCONTINUITY" p
  else if long_gap then transitionTo kLost "IMU_DISCONTINUITY_LOCAL_LOST" p
  else set_reason (rText "IMU_DISCONTINUITY_RECOVERY_REBASE") p.

(** [recoverFromDiscontinuity] *)
Definition recoverFromDiscontinuity (d : PropagationDiscontinuity) (p : FastLioPipeline)
    : process_outcome * FastLioPipeline :=
  let r := (result_new (fp_status p)) <| re_scan_time := Some (pd_scan_end d) |>
             <| re_lidar_update_status := lu_kRejected |> in
  let p := diagnose (fun g => g <| dg_propagation_discontinuity_count ::= u64_inc |>
                                <| dg_last_propagation_gap_ns := pd_gap_duration_ns d |>) p in
  let p :=
    if statusUsesEstimatorState (fp_status p) && has (fp_state_time p) then
      let long_gap := tc_maximum_recoverable_imu_gap_ns (tracking p) <? pd_gap_duration_ns d in
      let '(i, p) := inflate p in
      if negb (if_successful i)
      then transitionTo kLost "IMU_DISCONTINUITY_COVARIANCE_INFLATION_FAILED" p
      else resume_after_gap long_gap (pd_resume_time d) p
    else p in
  finalizeResult (r <| re_rejection_reason := dg_reason (fp_diagnostics p) |>) p.

(** The counters of a synchronisation error. *)
Definition count_sync_error (s : StatusCode) (c : PipelineCounters) : PipelineCounters :=
  match s with
  | kOverlappingLidarInterval => c <| cn_overlap_rejected_count ::= u64_inc |>
  | kMissingStartBracket | kMissingEndBracket => c <| cn_missing_bracket_rejected_count ::= u64_inc |>
  | kTimestampRegression => c <| cn_invalid_timestamp_rejected_count ::= u64_inc |>
  | _ => c
  end.

(** [processNext] *)
Definition processNext (between : nat -> list prior_submission) (p : FastLioPipeline)
    : process_outcome * FastLioPipeline :=
  let p := resetTransientDiagnostics p in
  if has (fp_imu_initialization_result p) && negb (fp_estimator_initialized p)
     && (pp_source (prior_policy p) ==? ps_kTopic)
  then (oWaiting, p)
  else
    let '(synchronized, synchronizer, buffer) := synchronizeNext (fp_synchronizer p) (fp_buffer p) in
    let p := p <| fp_synchronizer := synchronizer |> <| fp_buffer := buffer |> in
    match synchronized with
    | Error s =>
        let r := (result_new (fp_status p)) <| re_rejection_reason := rStatus s |> in
        let p := recordUncorrectedUpdate fc_kSynchronization (set_reason (rStatus s) p) in
        finalizeResult r (count (count_sync_error s) p)
    | Value s =>
        match sr_discontinuity s, sr_measurement_group s with
        | Some d, _ => recoverFromDiscontinuity d p
        | None, None => (oWaiting, p)
        | None, Some group =>
            processInternal between group true
              (count (fun c => c <| cn_synchronized_group_count ::= u64_inc |>) p)
        end
    end.

(** The accessors [pendingLidarCount] and [synchronizationEpoch]. *)
Definition pendingLidarCount (p : FastLioPipeline) : Z := lidarSize (fp_buffer p).
Definition synchronizationEpoch (p : FastLioPipeline) : option Timestamp := epoch (fp_synchronizer p).
End Pipeline.
