(* ===== verification/LioReference.v ===== *)
(** * A concrete instance of the estimation core

    Implementations of the operations [LioState], [LioRegistration],
    [LioEstimator] and [LioInit] take from Eigen, IKFoM and the standard
    library, on which the theorems with hypotheses are run.  The eigenvalue
    solvers are those of diagonal matrices, the filter moves the position by its
    velocity and leaves the covariance, and the map is a list of points. *)

From Stdlib Require Import Floats.SpecFloat.
From stdpp Require Import sorting.
From S2P Require Import Prelude Ordered RecordUpdate Float64 Geometry WorldGrid CommandContract TrackingGuard OdometryFrames Candidate.
From S2P Require Import LioTime Measurement LioState LioRegistration LioEstimator LioPropagator LioInit.

(** ** Eigen *)

Definition coefficients (v : vec3) : list f64 := [vx v; vy v; vz v].
Definition fold1 (f : f64 -> f64 -> f64) (l : list f64) : f64 :=
  match l with x :: l => foldl f x l | [] => fzero end.

Definition lio_eigen_reference : LioEigen := {|
  q_mul a b :=
    let u := Vec3 (qx a) (qy a) (qz a) in
    let v := Vec3 (qx b) (qy b) (qz b) in
    let w := map3 f64_add (ref_cross u v)
               (map3 f64_add (map3 f64_mul (vec3_constant (qw a)) v) (map3 f64_mul (vec3_constant (qw b)) u)) in
    Quat (vx w) (vy w) (vz w) (f64_sub (f64_mul (qw a) (qw b)) (ref_dot u v));
  m_cast_mulv m p :=
    vec3f_of_vec3 (ref_mulv m (vec3_of_vec3f p));
  v3f_add a b := vec3f_of_vec3 (map3 f64_add (vec3_of_vec3f a) (vec3_of_vec3f b));
  v_absMaxCoeff v := fold1 fmax (map fabs (coefficients v));
  v_any_lt v s := existsb (fun x => flt x s) (coefficients v);
  v_any_ge v s := existsb (fun x => fge x s) (coefficients v)
|}.

Definition ref_mat_map2 (f : f64 -> f64 -> f64) (m n : mat3) : mat3 :=
  Mat3 (map3 f (row0 m) (row0 n)) (map3 f (row1 m) (row1 n)) (map3 f (row2 m) (row2 n)).
Definition mat3_constant (x : f64) : mat3 := Mat3 (vec3_constant x) (vec3_constant x) (vec3_constant x).
Definition mat3_identity : mat3 :=
  Mat3 (Vec3 f64_1 fzero fzero) (Vec3 fzero f64_1 fzero) (Vec3 fzero fzero f64_1).

Definition lio_mat_reference : LioMatOps := {|
  m_add := ref_mat_map2 f64_add;
  m_div m s := ref_mat_map2 f64_div m (mat3_constant s);
  v_outer v w :=
    Mat3 (map3 f64_mul (vec3_constant (vx v)) w) (map3 f64_mul (vec3_constant (vy v)) w)
         (map3 f64_mul (vec3_constant (vz v)) w);
  v_mul_mat v m := ref_mulv (m_transpose m) v;
  m_eigen m := Some (Vec3 (vx (row0 m)) (vy (row1 m)) (vz (row2 m)), mat3_identity);
  v_cwiseMax_scalar v s := map3 fmax v (vec3_constant s);
  v_sum v := fold1 f64_add (coefficients v);
  v_minCoeff v := fold1 fmin (coefficients v);
  v_maxCoeff v := fold1 fmax (coefficients v);
  v_dominant_axis v :=
    if fge (fabs (vx v)) (fmax (fabs (vy v)) (fabs (vz v))) then 0%nat
    else if fge (fabs (vy v)) (fabs (vz v)) then 1%nat else 2%nat;
  v_any_le_scalar v s := existsb (fun x => fle x s) (coefficients v);
  v_all_abs_le v s := forallb (fun x => fle (fabs x) s) (coefficients v);
  x_squaredNorm l := foldl (fun a x => f64_add a (f64_mul x x)) fzero l
|}.

(** ** Covariances *)

Definition indices : list nat := seq 0 kErrorStateDimension.
Definition entries (c : Covariance) : list f64 := concat (map (fun i => map (c i) indices) indices).
Definition diagonal (c : Covariance) : list f64 := map (fun i => c i i) indices.

Definition cov_reference : CovOps := {|
  c_allFinite c := forallb isfinite (entries c);
  c_absMaxCoeff c := fold1 fmax (map fabs (entries c));
  c_minDiagonal c := fold1 fmin (diagonal c);
  c_eigen c := Some (diagonal c, c_identity);
  c_eigenvalues c := Some (diagonal c);
  c_trace c := fold1 f64_add (diagonal c);
  ev_allFinite := forallb isfinite;
  ev_minCoeff := fold1 fmin;
  ev_maxCoeff := fold1 fmax;
  c_recompose _ values := fun i j => if (i =? j)%nat then nth i values fzero else fzero
|}.

(** ** Initialisation *)

Definition init_reference : LioInitOps := {|
  q_fromTwoVectors a b :=
    let c := ref_cross a b in
    Quat (vx c) (vy c) (vz c) (f64_add f64_1 (ref_dot a b));
  std_acos x := f64_sub f64_1 x
|}.

(** ** The filter: its state and its covariance *)

Definition ikfom_reference : IkfomOps := {|
  so3_of_quat q := q;
  s2_of_vec v := v;
  vect_boxminus a b := map3 f64_sub a b;
  s2_Mx _ _ _ := fzero;
  so3_matrix := ref_rotation;
  so3_rotate := ref_rotate;
  IkfomFilter := IkfomState * Covariance;
  fl_init _ _ _ _ _ :=
    (mkIkfomState vec3_zero quat_identity quat_identity vec3_zero vec3_zero vec3_zero vec3_zero default_gravity,
     c_identity);
  fl_get_x f := f.1;
  fl_get_P f := f.2;
  fl_change_x x f := (x, f.2);
  fl_change_P c f := (f.1, c);
  fl_predict dt _ _ f :=
    ((f.1) <| ix_pos ::= fun p => map3 f64_add p (map3 f64_mul (vec3_constant dt) (ix_vel f.1)) |>, f.2);
  fl_update _ measure s f :=
    let '(m, s) := measure f.1 s in
    (mkUpdateResult (has m) false true 1 fzero, s, f)
|}.

#[export] Instance ikfom_reference_laws : IkfomLaws ikfom_reference.
Proof. by constructor. Qed.

(** ** The map: its points in the order they came *)

Definition squared_distance (a b : vec3) : f64 := let d := map3 f64_sub a b in ref_dot d d.
Definition closer (q : vec3) (a b : vec3) : Prop := fle (squared_distance q a) (squared_distance q b) = true.
#[export] Instance closer_dec q : RelDecision (closer q) :=
  fun a b => decide (fle (squared_distance q a) (squared_distance q b) = true).

Definition inside_box (center half p : vec3) : bool :=
  let d := map3 f64_sub p center in
  flt (fabs (vx d)) (vx half) && flt (fabs (vy d)) (vy half) && flt (fabs (vz d)) (vz half).

Definition point_count (m : list vec3) : Z := Z.of_nat (length m).

Definition list_map_reference : RegistrationMap (list vec3) := {|
  rm_nearestSearch m q d :=
    let near := List.filter (fun p => fle (squared_distance q p) (f64_mul d d)) m in
    let found := take kNeighborCapacity (merge_sort (closer q) near) in
    ((length found =? kNeighborCapacity)%nat,
     mkNeighbors found (map (fun p => f32_of_f64 (squared_distance q p)) found));
  rm_insert points m := (point_count points, m ++ points);
  rm_cropLocal center half m :=
    let kept := List.filter (inside_box center half) m in
    (point_count m - point_count kept, kept);
  rm_size m := (point_count m, m);
  rm_clear _ := []
|}.

(** ** Measurements of a vehicle at rest before a wall *)

Definition w_ms (n : Z) : Timestamp := mkTimestamp (n * 1000000) kSensorTime.
Definition w_v (x y z : Z) : vec3 := Vec3 (f64_of_Z x) (f64_of_Z y) (f64_of_Z z).

Definition w_ikfom_config : IkfomEstimatorConfig :=
  mkIkfomConfig 3 1 1000000000 f64_1e_6 fzero fzero fzero fzero f64_1.
Definition w_residual_config : ResidualBuilderConfig :=
  mkResidualConfig (f64_of_Z 100) (mkPlaneConfig 5 f64_1 f64_1 f64_half (f64_lit 1 4))
    (mkGateConfig f64_1 fzero f64_1) f64_1 fzero 1.

Definition w_sample (ms : Z) : ImuSample := mkImuSample (w_ms ms) vec3_zero (w_v 0 0 10).
Definition w_point (y z : Z) : LidarPoint := mkLidarPoint (vec3f_of_vec3 (w_v 5 y z)) 0 0 0 0.
Definition w_scan (ms : Z) : LidarScan :=
  mkLidarScan (w_ms ms) (w_ms (ms + 100))
    [w_point 0 0; w_point 1 1; w_point 1 (-1); w_point (-1) 1; w_point (-1) (-1)] false.
Definition w_group (ms : Z) : MeasurementGroup :=
  mkMeasurementGroup (w_scan ms) [w_sample ms; w_sample (ms + 100)] (w_ms ms) true true 100000000.
