(* ===== verification/LioEstimatorProps.v ===== *)
(** * Correctness of the iterated filter

    Properties of [LioEstimator]: predictions and corrections are transactions
    on the vendored filter, and what a successful one guarantees. *)

From Stdlib Require Import Floats.SpecFloat.
From stdpp Require Import sorting.
From S2P Require Import Prelude Ordered RecordUpdate Float64 Geometry WorldGrid CommandContract TrackingGuard OdometryFrames Candidate.
From S2P Require Import LioTime Measurement LioState LioRegistration LioEstimator LioReference AStarProps.

Section Estimator.
Context {E : EigenOps} {EN : EigenNormOps} {EMt : EigenMatOps} {EP : EigenPoseOps} {EF : EigenFloatOps}.
Context {EM : LioMatOps} {C : CovOps} {I : IkfomOps}.

(** Both halves of the filter the estimator can observe. *)
Definition filter_state (e : IkfomEstimator) : IkfomState * Covariance :=
  (fl_get_x (ie_filter e), fl_get_P (ie_filter e)).

Lemma change_filter_state {Laws : IkfomLaws I} x c e : filter_state (change_filter x c e) = (x, c).
Proof.
  unfold filter_state, change_filter. simpl.
  by rewrite get_x_change_P, get_change_x, get_change_P.
Qed.

(** Nothing but the filter differs. *)
Definition only_filter (e e' : IkfomEstimator) : Prop := e' = e <| ie_filter := ie_filter e' |>.

Lemma only_filter_trans e1 e2 e3 : only_filter e1 e2 -> only_filter e2 e3 -> only_filter e1 e3.
Proof. unfold only_filter. intros H1 H2. rewrite H2, H1. by destruct e1. Qed.

Lemma only_filter_change x c e : only_filter e (change_filter x c e).
Proof. done. Qed.

Lemma enforce_fields e x c : only_filter e (let '(x, c) := enforceFixedGravity e x c in change_filter x c e).
Proof. by destruct (enforceFixedGravity e x c). Qed.

(** ** Predictions *)

(** A trajectory from [start] to [finish] that ends in the state of [e]. *)
Record trajectory_good (start finish : Timestamp) (e : IkfomEstimator) (t : ImuTrajectory) : Prop := {
  tg_increasing : strictly_ordered tj_ns (tr_states t);
  tg_finite : Forall (fun s => v_allFinite (tj_position_odom_imu_m s) = true
                               /\ v_allFinite (tj_velocity_odom_imu_m_s s) = true) (tr_states t);
  tg_first : tj_time <$> head (tr_states t) = Some start;
  tg_last : exists s, last (tr_states t) = Some s /\ tj_time s = finish
                      /\ tj_position_odom_imu_m s = mf_position_odom_imu_m (stateView e)
                      /\ tj_velocity_odom_imu_m_s s = mf_velocity_odom_imu_m_s (stateView e)
}.

Lemma addState_ok s t t' :
  addState s t = (kOk, t') ->
  t' = trajectory_push s t /\ tj_allFinite s = true
  /\ forall back, last (tr_states t) = Some back -> tj_ns back < tj_ns s.
Proof.
  unfold addState. repeat case_match; intros; simplify_eq; bsplit;
    (split_and!; [done|done|intros back Hb; simplify_eq; lia]).
Qed.

Lemma tj_allFinite_parts s :
  tj_allFinite s = true ->
  v_allFinite (tj_position_odom_imu_m s) = true /\ v_allFinite (tj_velocity_odom_imu_m_s s) = true.
Proof. unfold tj_allFinite. intros H. bsplit. done. Qed.

Lemma strictly_ordered_last {A} (key : A -> Z) l y :
  strictly_ordered key l -> last l = Some y -> forall x, x ∈ l -> key x <= key y.
Proof.
  intros Ho Hy. assert (ordered key l) as Hle.
  { intros i j a b Hij Ha Hb. destruct (decide (i = j)) as [->|]; [simplify_eq; lia|].
    specialize (Ho i j a b). assert (key a < key b) by (apply Ho; [lia|done..]). lia. }
  intros x Hx. by eapply ordered_last.
Qed.

(** A state of [e] that [addState] takes extends a good trajectory. *)
Lemma addState_good start finish e0 t e time t' :
  trajectory_good start finish e0 t ->
  addState (trajectoryState (stateView e) time) t = (kOk, t') -> trajectory_good start time e t'.
Proof.
  intros [Hi Hf H1 (back & Hb & _)] H. apply addState_ok in H as (-> & Hfin & Hlt).
  specialize (Hlt back Hb). constructor; simpl.
  - apply strictly_ordered_snoc; [done|]. intros x Hx.
    pose proof (strictly_ordered_last _ _ _ Hi Hb x Hx). unfold tj_ns in *. simpl in *. lia.
  - apply Forall_app. split; [done|]. apply Forall_singleton. by apply tj_allFinite_parts in Hfin.
  - by destruct (tr_states t).
  - eexists. by rewrite last_snoc.
Qed.

Lemma addState_first e time t' :
  addState (trajectoryState (stateView e) time) ImuTrajectory_default = (kOk, t') ->
  trajectory_good time time e t'.
Proof.
  intros H. apply addState_ok in H as (-> & Hfin & _). constructor; simpl.
  - intros i j x y Hij Hx Hy. apply list_lookup_singleton_Some in Hx as [-> _], Hy as [-> _]. lia.
  - apply Forall_singleton. by apply tj_allFinite_parts in Hfin.
  - done.
  - by eexists.
Qed.

(** The state the integration leaves was checked. *)
Definition state_checked (e : IkfomEstimator) : Prop :=
  mf_allFinite (stateView e) = true /\ covarianceSaneDuringPrediction (covariance e) = true.

Lemma predict_loop_spec noise start rest :
  forall e mutated t previous r e',
  predict_loop noise e mutated t previous rest = (r, e') ->
  only_filter e e'
  /\ match r with
     | inl (_, mutated') => (mutated' = false -> e' = e) /\ (mutated = true -> mutated' = true)
     | inr t' => trajectory_good start (im_time previous) e t ->
                 trajectory_good start (im_time (default previous (last rest))) e' t'
                 /\ (rest <> [] -> state_checked e')
     end.
Proof.
  induction rest as [|current rest IH]; intros e mutated t previous r e'; simpl.
  { intros [= <- <-]. split; [by destruct e|]. intros Hg. by split. }
  destruct (checkedDifference _ _) as [dt|s]; [|intros [= <- <-]; by destruct e].
  match goal with |- context [stateView ?x] => set (e1 := x) end.
  assert (only_filter e e1) as H1 by done. clearbody e1.
  case_match eqn:Hc; [by intros [= <- <-]|].
  destruct (addState _ t) as [[] t1] eqn:Ha; try (by intros [= <- <-]).
  intros Hp. destruct (IH _ _ _ _ _ _ Hp) as [Hof Hr].
  split; [by eapply only_filter_trans|].
  destruct r as [[s' m]|t'].
  - destruct Hr as [_ Hm]. rewrite Hm by done. by split.
  - intros Hg. destruct Hr as [Hg' Hc']; [by eapply addState_good|].
    rewrite last_cons. replace (default previous _) with (default current (last rest)) by by destruct (last rest).
    split; [done|]. intros _. destruct rest; [|by apply Hc'].
    simpl in Hp. injection Hp as <- <-. apply orb_false_iff in Hc as [Hx Hy].
    by split; apply negb_false_iff.
Qed.

Lemma samples_status_clocks clock samples : forall previous,
  samples_status clock previous samples = kOk -> Forall (fun s => ts_clock (im_time s) = ts_clock clock) samples.
Proof.
  induction samples as [|s samples IH]; intros previous; simpl; [by constructor|].
  destruct (status_ok (imu_validate s)) eqn:Hv; simpl; [|by intros Hk; rewrite Hk in Hv].
  destruct (sameClockDomain (im_time s) clock) eqn:Hc; simpl; [|done].
  destruct (match previous with Some _ => _ | None => _ end); [done|]. intros Hs.
  constructor; [by apply sameClockDomain_true|by eapply IH].
Qed.

Lemma interpolate_time samples time x :
  Forall (fun s => ts_clock (im_time s) = ts_clock time) samples ->
  interpolateSample samples time = Value x -> im_time x = time.
Proof.
  intros Hclock. unfold interpolateSample. cbv zeta.
  destruct (samples !! _) as [u|] eqn:Hu; [|done]. case_match eqn:Hn.
  - intros [= ->]. apply Z.eqb_eq in Hn. rewrite Forall_lookup in Hclock. specialize (Hclock _ _ Hu).
    unfold imu_ns in Hn. destruct (im_time x), time. simpl in *. congruence.
  - repeat case_match; try done. unfold imu_between. repeat case_match; intros; by simplify_eq.
Qed.

(** The samples of the integration end at the end time. *)
Lemma integration_last samples start finish x y :
  im_time x = start -> im_time y = finish -> ts_clock start = ts_clock finish ->
  ts_ns start <= ts_ns finish ->
  im_time (default x (last (tail (integration_samples samples start finish x y)))) = finish
  /\ (ts_ns start < ts_ns finish -> tail (integration_samples samples start finish x y) <> []).
Proof.
  intros Hx Hy Hc Hle. unfold integration_samples. simpl. case_match eqn:Hlt.
  - rewrite last_snoc. split; [done|]. intros _ H. by apply app_nil in H as [_ H].
  - apply Z.ltb_ge in Hlt. split; [|lia].
    assert (start = finish) as -> by (destruct start, finish; simpl in *; f_equal; [lia|done]).
    rewrite app_nil_r. clear -Hx. induction samples as [|s samples IH]; simpl; [done|].
    case_match; [lia|done].
Qed.

Definition prediction_outcome (start finish : Timestamp) (e : IkfomEstimator)
    (r : Result ImuTrajectory) (e' : IkfomEstimator) : Prop :=
  match r with
  | Error _ => filter_state e' = filter_state e
  | Value t => trajectory_good start finish e' t /\ (ts_ns start < ts_ns finish -> state_checked e')
  end.

(** C17. A prediction is a transaction on the filter.  When it fails, state and
    covariance of the filter are what they were, however far the integration got;
    when it succeeds, the trajectory it returns starts at the start time and ends
    at the end time in the state of the filter, its times increase strictly, its
    positions and velocities are finite, and the final state and covariance
    passed the checks.  Nothing but the filter changes. *)
Theorem prediction_transactional {Laws : IkfomLaws I} samples start finish e :
  let result := predict samples start finish e in
  only_filter e result.2 /\ prediction_outcome start finish e result.1 result.2.
Proof.
  cbv zeta. destruct (predict samples start finish e) as [r e'] eqn:Hpredict. simpl. revert Hpredict.
  assert (forall s, (Error s, e) = (r, e') -> only_filter e e' /\ prediction_outcome start finish e r e') as Herr.
  { intros s [= <- <-]. split; [by destruct e|done]. }
  unfold predict. destruct (checkedDifference finish start) as [d|] eqn:Hd; [|apply Herr].
  destruct (dur_ns d <? 0) eqn:Hneg; [apply Herr|]. destruct samples as [|s0 rest0]; [apply Herr|].
  set (samples := s0 :: rest0). cbv zeta.
  destruct (negb (status_ok (samples_status start None samples))) eqn:Hs; [apply Herr|].
  assert (samples_status start None samples = kOk) as Hs' by (by destruct (samples_status start None samples)).
  clear Hs. apply samples_status_clocks in Hs' as Hs.
  destruct (checkedDifference_inv _ _ _ Hd) as [Hclock Hns].
  destruct (interpolateSample samples start) as [x|] eqn:Hx; [|apply Herr].
  destruct (interpolateSample samples finish) as [y|] eqn:Hy; [|apply Herr].
  apply interpolate_time in Hx; [|done].
  apply interpolate_time in Hy; [|eapply Forall_impl; [exact Hs|]; simpl; intros; congruence].
  match goal with |- (if ?b then _ else _) = _ -> _ => destruct b; [apply Herr|] end.
  destruct (addState _ ImuTrajectory_default) as [[] t0] eqn:Ha; try apply Herr.
  apply addState_first in Ha.
  assert (ts_ns start <= ts_ns finish) as Hle by lia.
  destruct (integration_last samples start finish x y Hx Hy ltac:(done) Hle) as [Hlast Hne].
  unfold predict_from. change (integration_samples samples start finish x y) with
    (x :: tail (integration_samples samples start finish x y)).
  set (steps := tail _) in *. clearbody steps.
  cbv beta iota. match goal with |- context [predict_loop ?n e false t0 x steps] =>
    destruct (predict_loop n e false t0 x steps) as [r' e1] eqn:Hp end.
  destruct (predict_loop_spec _ start _ _ _ _ _ _ _ Hp) as [Hof Hr].
  destruct r' as [[s [|]]|t']; intros [= <- <-].
  - split; [|exact (change_filter_state _ _ _)]. eapply only_filter_trans; [exact Hof|done].
  - destruct Hr as [He _]. rewrite (He eq_refl). split; [by destruct e|done].
  - destruct Hr as [Hg Hc]; [by rewrite Hx|]. rewrite Hlast in Hg. by split; [|split; [|auto]].
Qed.

Section Correct.
Context {M : Type} {RM : RegistrationMap M}.

(** ** Corrections *)

(** What a result that is called successful has been checked for. *)
Record correction_good (c : IkfomCorrectionResult) (e e' : IkfomEstimator) : Prop := {
  good_finite : cr_finite c = true;
  good_state : cr_corrected_state c = stateView e' /\ mf_allFinite (stateView e') = true;
  good_covariance : cr_corrected_covariance c = covariance e' /\ covarianceValid (covariance e') = true;
  good_residuals : ec_minimum_accepted_residuals (ie_config e)
                   <= rd_accepted_residual_count (cr_residual_diagnostics c);
  good_observable : rd_translation_observability_valid (cr_residual_diagnostics c) = true
}.

Lemma correct_successful points (m : M) e c e' :
  correct points m e = (c, e') -> cr_successful c = true -> correction_good c e e'.
Proof.
  unfold correct. destruct (fl_update _ _ _ _) as [[u t] f]. cbv zeta.
  set (e1 := fix_corrected (e <| ie_filter := f |>)).
  assert (ie_config e1 = ie_config e) as Hcfg.
  { subst e1. unfold fix_corrected. by destruct (enforceFixedGravity _ _ _). }
  clearbody e1. case_match eqn:Hs; intros [= <- <-]; [|congruence]. intros _.
  unfold correction_verdict in Hs. simpl in Hs. apply andb_true_iff in Hs as [Hf Hu].
  pose proof Hf as Hfin. unfold correction_finite in Hf. apply andb_true_iff in Hf as [[[[Hst Hcov]%andb_true_iff _]%andb_true_iff _]%andb_true_iff _].
  unfold measurement_usable in Hu. apply andb_true_iff in Hu as [[[_ _]%andb_true_iff Hr]%andb_true_iff Ho].
  rewrite Hcfg in Hr. constructor; simpl; auto. by apply Z.leb_le.
Qed.

(** The calibration and the gravity a correction may not change. *)
Definition calibration_fixed (e : IkfomEstimator) : Prop :=
  let x := (filter_state e).1 in
  ix_offset_R_L_I x = so3_of_quat (ie_fixed_rotation_imu_lidar e)
  /\ ix_offset_T_L_I x = ie_fixed_position_imu_lidar_m e
  /\ (gravity_usable e = true -> ix_grav x = s2_of_vec (ie_fixed_gravity_odom_m_s2 e)).

Lemma fix_corrected_fixed {Laws : IkfomLaws I} e :
  only_filter e (fix_corrected e) /\ calibration_fixed (fix_corrected e).
Proof.
  unfold fix_corrected, calibration_fixed. cbv zeta. unfold enforceFixedGravity.
  destruct (gravity_usable e) eqn:Hg; simpl negb; cbv iota.
  - split; [apply only_filter_change|]. rewrite change_filter_state. by split_and!.
  - split; [apply only_filter_change|]. rewrite change_filter_state. split_and!; [done|done|].
    change (gravity_usable e = true -> ix_grav (fl_get_x (ie_filter e)) = s2_of_vec (ie_fixed_gravity_odom_m_s2 e)).
    by rewrite Hg.
Qed.

Definition correction_outcome (e : IkfomEstimator) (c : IkfomCorrectionResult) (e' : IkfomEstimator) : Prop :=
  if cr_successful c then correction_good c e e' /\ calibration_fixed e'
  else filter_state e' = filter_state e.

(** C18. A correction is a transaction on the filter.  When it is not successful,
    state and covariance of the filter are what they were before the update;
    when it is, the corrected state is finite, its covariance valid, at least the
    configured number of residuals was accepted, the translation is observable,
    and the extrinsic calibration and the gravity are the fixed ones.  Nothing but
    the filter changes. *)
Theorem correction_transactional {Laws : IkfomLaws I} points (m : M) e :
  let result := correct points m e in only_filter e result.2 /\ correction_outcome e result.1 result.2.
Proof.
  cbv zeta. destruct (correct points m e) as [c e'] eqn:Hc. simpl. unfold correction_outcome.
  pose proof (correct_successful _ _ _ _ _ Hc) as Hgood. revert Hc. unfold correct.
  destruct (fl_update _ _ _ _) as [[u t] f]. cbv zeta.
  destruct (fix_corrected_fixed (e <| ie_filter := f |>)) as [Ho Hfix].
  set (e1 := fix_corrected _) in *. clearbody e1.
  assert (only_filter e e1) as Ho1 by (unfold only_filter in *; by rewrite Ho at 1).
  destruct (cr_successful (correction_verdict _ _ _ _)) eqn:Hs; intros [= <- <-]; rewrite Hs.
  - split; [exact Ho1|]. split; [by apply Hgood|exact Hfix].
  - split; [|exact (change_filter_state _ _ _)]. eapply only_filter_trans; [exact Ho1|done].
Qed.
End Correct.
End Estimator.

(** ** Runs of the concrete filter *)

#[local] Existing Instances eigen_reference norm_reference eigen_mat_reference eigen_pose_reference
  eigen_float_reference lio_mat_reference cov_reference ikfom_reference list_map_reference.

Lemma w_estimator_constructed : is_Some (IkfomEstimator_new w_ikfom_config w_residual_config).
Proof.
  assert (has (IkfomEstimator_new w_ikfom_config w_residual_config) = true) as H by by vm_compute.
  by destruct (IkfomEstimator_new _ _).
Qed.
Definition w_estimator : IkfomEstimator :=
  estimator_initialize ManifoldState_default (is_Some_proj w_estimator_constructed).

Lemma prediction_transactional_witness :
  IkfomLaws ikfom_reference
  /\ let result := predict [w_sample 100; w_sample 200; w_sample 300] (w_ms 150) (w_ms 250) w_estimator in
     only_filter w_estimator result.2
     /\ prediction_outcome (w_ms 150) (w_ms 250) w_estimator result.1 result.2.
Proof.
  split; [exact ikfom_reference_laws|].
  exact (prediction_transactional [w_sample 100; w_sample 200; w_sample 300] (w_ms 150) (w_ms 250) w_estimator).
Defined.

Definition w_points : list vec3 := map (fun p => vec3_of_vec3f (lp_position_lidar_m p)) (ls_points (w_scan 100)).

Lemma correction_transactional_witness :
  IkfomLaws ikfom_reference
  /\ let result := correct w_points w_points w_estimator in
     only_filter w_estimator result.2 /\ correction_outcome w_estimator result.1 result.2.
Proof.
  split; [exact ikfom_reference_laws|]. exact (correction_transactional w_points w_points w_estimator).
Defined.

(** The concrete prediction and the concrete correction succeed. *)
Example w_prediction_succeeds :
  result_status (predict [w_sample 100; w_sample 200; w_sample 300] (w_ms 150) (w_ms 250) w_estimator).1 = kOk.
Proof. by vm_compute. Qed.
Example w_correction_succeeds : cr_successful (correct w_points w_points w_estimator).1 = true.
Proof. by vm_compute. Qed.
