(* ===== verification/LioPipelineProps.v ===== *)
(** * Correctness of the FAST-LIO pipeline

    Properties of [LioPipeline]: what it takes to be in [kTracking], the state
    in which navigation is reported valid; the samples a prediction is made
    from; the retained IMU history; and the mailbox of the initial-state
    prior. *)

From Stdlib Require Import Floats.SpecFloat.
From stdpp Require Import relations.
From S2P Require Import Prelude Ordered RecordUpdate Float64 Geometry WorldGrid CommandContract TrackingGuard OdometryFrames Candidate.
From S2P Require Import LioTime Measurement LioState LioRegistration LioEstimator LioPropagator LioInit LioPipeline LioReference AStarProps LioEstimatorProps.

Section Lifecycle.
Context {E : EigenOps} {EN : EigenNormOps} {EMt : EigenMatOps} {EP : EigenPoseOps} {EF : EigenFloatOps}.
Context {ER : EigenRotOps} {EL : LioEigen} {EM : LioMatOps} {EI : LioInitOps} {L : LibmOps}.
Context {C : CovOps} {I : IkfomOps} {M : Type} {RM : RegistrationMap M}.

Abbreviation pipeline := (FastLioPipeline (M := M)).

(** ** What an operation that corrects nothing may do *)

Definition life_of (p : pipeline) :=
  (fp_config p, fp_status p, fp_tracking_ever_confirmed p, fp_state_time p,
   fp_consecutive_recovery_successes p, fp_map_recovery_required p).

(** The part of the state the lifecycle is about is untouched. *)
Definition same_life (p q : pipeline) : Prop := life_of q = life_of p.

(** No operation but a correction enters [kTracking], confirms the tracking or
    counts a recovery. *)
Record calmer (p q : pipeline) : Prop := {
  calmer_config : fp_config q = fp_config p;
  calmer_status : fp_status q = kTracking -> fp_status p = kTracking;
  calmer_confirmed : fp_tracking_ever_confirmed q = fp_tracking_ever_confirmed p;
  calmer_time : fp_state_time p <> None -> fp_state_time q <> None;
  calmer_successes : fp_consecutive_recovery_successes q = fp_consecutive_recovery_successes p
                     \/ fp_consecutive_recovery_successes q = 0;
  calmer_recovery : fp_map_recovery_required p = true -> fp_map_recovery_required q = true
}.

#[local] Instance same_life_preorder : PreOrder same_life.
Proof. split; [done|intros p q r; unfold same_life; congruence]. Qed.

#[local] Instance calmer_preorder : PreOrder calmer.
Proof.
  split; [constructor; auto|].
  intros p q r [C1 S1 F1 T1 N1 R1] [C2 S2 F2 T2 N2 R2].
  constructor; auto; try congruence. destruct N2 as [->| ->]; auto.
Qed.

Lemma same_life_calmer (p q : pipeline) : same_life p q -> calmer p q.
Proof. intros [= Hc Hs Hf Ht Hn Hr]. constructor; first [congruence|left; congruence]. Qed.

Lemma same_life_copy (p : pipeline) : same_life p (copyInitialPriorMailboxDiagnostics p).
Proof. unfold copyInitialPriorMailboxDiagnostics. by case_match. Qed.

Lemma same_life_submit prior late (p : pipeline) : same_life p (submitInitialStatePrior prior late p).2.
Proof. unfold submitInitialStatePrior. repeat case_match; done. Qed.

Lemma same_life_submissions l (p : pipeline) : same_life p (submissions l p).
Proof.
  unfold submissions. revert p. induction l as [|s l IH]; intros p; [done|].
  simpl. etransitivity; [apply same_life_submit|apply IH].
Qed.

Lemma same_life_retain_all samples (p : pipeline) : same_life p (retain_all samples p).
Proof.
  unfold retain_all. revert p. induction samples as [|s l IH]; intros p; [done|].
  simpl. etransitivity; [|apply IH]. done.
Qed.

Lemma same_life_await candidate time (p : pipeline) : same_life p (await_topic_prior candidate time p).2.
Proof. unfold await_topic_prior. repeat case_match; done. Qed.

Lemma same_life_examine candidate time (p : pipeline) : same_life p (examine_candidate candidate time p).2.
Proof. unfold examine_candidate. repeat case_match; done. Qed.

Lemma same_life_resolve time (p : pipeline) : same_life p (resolveInitialStatePrior time p).2.
Proof.
  unfold resolveInitialStatePrior.
  destruct (pp_source _); [done|done|]. case_match.
  - match goal with |- context [examine_candidate ?c ?t ?q] =>
      pose proof (same_life_examine c t q) as H'; destruct (examine_candidate c t q) as [[] r] end;
      [done|].
    etransitivity; [|apply same_life_await]. done.
  - etransitivity; [|apply same_life_await]. done.
Qed.

Lemma same_life_inflate (p : pipeline) : same_life p (inflate p).2.
Proof. unfold inflate. by destruct (inflateRecoveryCovariance _ _). Qed.

Lemma transitionTo_life s reason (p : pipeline) :
  life_of (transitionTo s reason p) =
  (fp_config p, s, fp_tracking_ever_confirmed p, fp_state_time p,
   fp_consecutive_recovery_successes p, fp_map_recovery_required p).
Proof.
  unfold transitionTo. destruct (decide (fp_status p = s)) as [<-|Hne].
  - rewrite bool_decide_true by done. done.
  - rewrite bool_decide_false by done. done.
Qed.

Lemma life_inv (q : pipeline) c s f t n r :
  life_of q = (c, s, f, t, n, r) ->
  fp_config q = c /\ fp_status q = s /\ fp_tracking_ever_confirmed q = f /\ fp_state_time q = t
  /\ fp_consecutive_recovery_successes q = n /\ fp_map_recovery_required q = r.
Proof. by intros [=]. Qed.

Lemma transitionTo_status s reason (p : pipeline) : fp_status (transitionTo s reason p) = s.
Proof. by destruct (life_inv _ _ _ _ _ _ _ (transitionTo_life s reason p)) as (_ & -> & _). Qed.

Lemma transitionTo_calmer s reason (p : pipeline) : s <> kTracking -> calmer p (transitionTo s reason p).
Proof.
  intros Hs. destruct (life_inv _ _ _ _ _ _ _ (transitionTo_life s reason p)) as (?&?&?&?&?&?).
  constructor; first [congruence|left; congruence].
Qed.

Lemma recordUncorrectedUpdate_calmer class (p : pipeline) : calmer p (recordUncorrectedUpdate class p).
Proof.
  unfold recordUncorrectedUpdate. case_match; [by apply same_life_calmer|].
  repeat case_match; try (etransitivity; [|by apply transitionTo_calmer]);
    constructor; simpl; auto.
Qed.

(** Once tracking was confirmed, an uncorrected update leaves [kTracking]. *)
Lemma recordUncorrectedUpdate_not_tracking class (p : pipeline) :
  fp_tracking_ever_confirmed p = true -> fp_status (recordUncorrectedUpdate class p) <> kTracking.
Proof.
  intros Hc. unfold recordUncorrectedUpdate. simpl. rewrite Hc. simpl.
  repeat case_match.
  - by rewrite transitionTo_status.
  - by rewrite transitionTo_status.
  - simpl. match goal with H : negb (bool_decide _) = false |- _ =>
      apply negb_false_iff, bool_decide_eq_true in H; simpl in H end. congruence.
Qed.

Lemma start_estimator_calmer prior applied c (p : pipeline) :
  calmer p (start_estimator prior applied c p).
Proof.
  unfold start_estimator. etransitivity; [|by apply transitionTo_calmer].
  destruct c; by apply same_life_calmer.
Qed.

Lemma apply_resolved_calmer between r time (p : pipeline) :
  calmer p (apply_resolved_prior between r time p).
Proof.
  unfold apply_resolved_prior. cbv zeta. set (q := submissions _ _).
  assert (same_life p q) as Hq by (etransitivity; [|apply same_life_submissions]; done).
  apply same_life_calmer in Hq. etransitivity; [exact Hq|]. clearbody q.
  repeat case_match; try apply start_estimator_calmer; by apply same_life_calmer.
Qed.

Lemma evaluate_imu_calmer between progress (p : pipeline) :
  calmer p (evaluate_imu between progress p).2.
Proof.
  unfold evaluate_imu. cbv zeta. set (start := match progress with Some _ => _ | None => _ end).
  set (q := (transitionTo _ _ p) <| fp_prior_wait_start_time := _ |>).
  assert (calmer p q) as Hq.
  { transitivity (transitionTo kInitializingImu "EVALUATING_IMU_INITIALIZATION" p);
      [by apply transitionTo_calmer|by apply same_life_calmer]. }
  etransitivity; [exact Hq|]. clearbody q. apply same_life_calmer.
  set (r := if bool_decide _ then _ else _).
  assert (same_life q r.2) as Hr.
  { subst r. case_match; [|by case_match]. unfold in_flight_initialization.
    pose proof (same_life_resolve (default timestamp_zero start) q) as Hr.
    destruct (resolveInitialStatePrior _ _) as [[] s]; [|done].
    etransitivity; [exact Hr|]. etransitivity; [apply (same_life_submissions (between 0%nat))|].
    simpl. repeat case_match; done. }
  simpl. destruct r.1; [|done]. etransitivity; [exact Hr|done].
Qed.

Lemma try_complete_calmer between progress (p : pipeline) :
  calmer p (tryCompleteImuInitialization between progress p).
Proof.
  unfold tryCompleteImuInitialization. case_match; [done|].
  set (r := match fp_imu_initialization_result p with Some _ => _ | None => _ end).
  assert (calmer p r.2) as Hr.
  { subst r. case_match; [done|]. apply evaluate_imu_calmer. }
  destruct r as [[result|] q]; simpl in *; [|done].
  etransitivity; [exact Hr|].
  set (time := match progress with Some _ => _ | None => _ end). clearbody time. clear.
  pose proof (same_life_resolve time (submissions (between 1%nat) q)) as Hl.
  destruct (resolveInitialStatePrior _ _) as [[] s]; simpl in Hl.
  - etransitivity; [|apply apply_resolved_calmer]. apply same_life_calmer.
    etransitivity; [apply same_life_submissions|exact Hl].
  - apply same_life_calmer. etransitivity; [apply same_life_submissions|exact Hl].
Qed.

Lemma add_initialization_calmer s (p : pipeline) : calmer p (addInitializationSample s p).2.
Proof.
  assert (calmer p (feed_initializer s p).2) as Hadd.
  { unfold feed_initializer. destruct (addSample s (fp_initializer p)) as [status i].
    case_match; [|by apply same_life_calmer].
    cbv zeta. simpl snd. case_match; [|by apply same_life_calmer].
    etransitivity; [|by apply transitionTo_calmer]. by apply same_life_calmer. }
  unfold addInitializationSample. repeat case_match; done.
Qed.

Lemma add_initialization_samples_calmer samples (p : pipeline) :
  calmer p (add_initialization_samples samples p).2.
Proof.
  revert p. induction samples as [|s samples IH]; intros p; [done|]. simpl.
  pose proof (add_initialization_calmer s p) as Hs.
  destruct (addInitializationSample s p) as [[] q]; simpl in *; try done.
  etransitivity; [exact Hs|apply IH].
Qed.

Lemma initialization_calmer between group ingested (p : pipeline) :
  calmer p (initialization_stage between group ingested p).2.
Proof.
  unfold initialization_stage. cbv zeta.
  set (q := if bool_decide (fp_status p = kWaitingForSensors) then _ else _).
  assert (calmer p q) as Hq by (subst q; case_match; [by apply transitionTo_calmer|done]).
  etransitivity; [exact Hq|]. clearbody q.
  case_match; [|by case_match].
  set (r := if ingested then _ else _).
  assert (calmer q r.2) as Hr by (subst r; destruct ingested; [done|apply add_initialization_samples_calmer]).
  destruct r as [status s]; simpl in Hr. case_match; [done|].
  etransitivity; [exact Hr|].
  set (progress := match last _ with Some _ => _ | None => _ end).
  pose proof (try_complete_calmer between progress s) as Ht.
  by destruct (negb (bool_decide (fp_status _ = kInitializingMap))).
Qed.

(** ** The invariant of the lifecycle *)

Record pipeline_inv (p : pipeline) : Prop := {
  inv_confirmed : fp_status p = kTracking -> fp_tracking_ever_confirmed p = true;
  inv_time : fp_tracking_ever_confirmed p = true -> fp_state_time p <> None;
  inv_successes : 0 <= fp_consecutive_recovery_successes p
}.

Lemma calmer_inv (p q : pipeline) : calmer p q -> pipeline_inv p -> pipeline_inv q.
Proof.
  intros [Hc Hs Hf Ht Hn Hr] [Ic It In]. constructor.
  - rewrite Hf. auto.
  - rewrite Hf. auto.
  - destruct Hn as [->| ->]; lia.
Qed.

(** The result hands out the corrected state the pipeline is now in. *)
Definition corrected_by (r : ProcessResult) (q : pipeline) : Prop :=
  re_lidar_update_status r = lu_kSucceeded
  /\ exists e, re_corrected_estimate r = Some e /\ fp_state_time q = Some (es_time e)
     /\ fp_state q = es_state e /\ fp_covariance q = es_covariance e
     /\ mf_allFinite (es_state e) = true /\ covarianceValid (es_covariance e) = true.

(** Tracking is confirmed for the first time, goes on, or has been re-earned by
    the configured number of corrections in a row. *)
Definition tracking_earned (p : pipeline) : Prop :=
  fp_tracking_ever_confirmed p = false
  \/ fp_status p = kTracking
  \/ (fp_map_recovery_required p = false
      /\ tc_recovery_confirmation_updates (tracking p) <= fp_consecutive_recovery_successes p + 1).

Definition outcome_ok (p : pipeline) (o : process_outcome * pipeline) : Prop :=
  pipeline_inv o.2 /\ fp_config o.2 = fp_config p
  /\ match o.1 with
     | oResult r => fp_status o.2 = kTracking -> corrected_by r o.2 /\ tracking_earned p
     | _ => fp_status o.2 = kTracking -> fp_status p = kTracking
     end.

Lemma outcome_calmer (p q : pipeline) o : calmer p q -> pipeline_inv p -> outcome_ok q o -> outcome_ok p o.
Proof.
  intros [Hc Hs Hf Ht Hn Hr] Hinv (Ho & Hco & Hm). split_and!; [done|congruence|].
  destruct o as [[r| |] s]; simpl in *; auto.
  intros Hst. destruct (Hm Hst) as [Hby Hearned]. split; [done|].
  destruct Hearned as [?|[?|[Hrec Hreq]]]; [left; congruence|right; left; auto|right; right].
  split; [destruct (fp_map_recovery_required p); [by rewrite Hr in Hrec|done]|].
  pose proof (inv_successes _ Hinv). unfold tracking in *. rewrite <- Hc.
  destruct Hn as [Hn|Hn]; rewrite Hn in Hreq; lia.
Qed.

Lemma record_not_tracking class (p : pipeline) :
  pipeline_inv p -> fp_status (recordUncorrectedUpdate class p) <> kTracking.
Proof.
  intros Hinv. destruct (fp_tracking_ever_confirmed p) eqn:Hc.
  - by apply recordUncorrectedUpdate_not_tracking.
  - unfold recordUncorrectedUpdate. simpl. rewrite Hc. simpl.
    intros Ht. apply (inv_confirmed _ Hinv) in Ht. congruence.
Qed.

Lemma finalize_ok r (p : pipeline) : pipeline_inv p -> fp_status p <> kTracking -> outcome_ok p (finalizeResult r p).
Proof.
  intros Hinv Hn. pose proof (same_life_copy p) as Hl. apply same_life_calmer in Hl.
  unfold finalizeResult, outcome_ok. simpl. split_and!.
  - by eapply calmer_inv.
  - by apply calmer_config.
  - intros Ht. apply (calmer_status _ _ Hl) in Ht. done.
Qed.

Lemma reject_ok r reason (p : pipeline) : pipeline_inv p -> fp_status p <> kTracking -> outcome_ok p (reject r reason p).
Proof.
  intros Hinv Hn. unfold reject.
  assert (calmer p (set_reason reason p)) as Hc by by apply same_life_calmer.
  eapply outcome_calmer; [exact Hc|done|]. apply finalize_ok; [|done]. by eapply calmer_inv.
Qed.

Lemma reject_update_ok r reason class (p : pipeline) : pipeline_inv p -> outcome_ok p (reject_update r reason class p).
Proof.
  intros Hinv. unfold reject_update.
  assert (pipeline_inv (set_reason reason p)) as Hr.
  { eapply calmer_inv; [|exact Hinv]. by apply same_life_calmer. }
  assert (calmer p (recordUncorrectedUpdate class (set_reason reason p))) as Hc.
  { etransitivity; [|apply recordUncorrectedUpdate_calmer]. by apply same_life_calmer. }
  eapply outcome_calmer; [exact Hc|done|]. apply finalize_ok; [by eapply calmer_inv|].
  by apply record_not_tracking.
Qed.

(** ** The stages of a processed group *)

Lemma align_spec group (p : pipeline) :
  pipeline_inv p ->
  match align_state_time group p with
  | inl ((_, None), q) => q = p /\ fp_status p <> kTracking
  | inl ((_, Some _), q) => calmer p q
  | inr (_, q) => calmer p q
  end.
Proof.
  intros Hinv. unfold align_state_time. destruct (fp_state_time p) as [t|] eqn:Ht.
  - cbv zeta. destruct (same_instant _ _); [done|]. destruct (negb _); [done|].
    unfold rebase_state_time. pose proof (same_life_inflate p) as Hi. apply same_life_calmer in Hi.
    destruct (inflate p) as [r q]. simpl in Hi.
    destruct (checkedDifference _ _) as [gap|]; [|done]. destruct (negb _); [done|].
    etransitivity; [exact Hi|]. etransitivity; [|apply recordUncorrectedUpdate_calmer].
    constructor; simpl; auto.
  - assert (fp_status p <> kTracking) as Hn.
    { intros Hs. apply (inv_time _ Hinv); [|done]. by apply (inv_confirmed _ Hinv). }
    unfold first_epoch. cbv zeta. set (epoch := match fp_initial_prior_state_time p with Some _ => _ | None => _ end).
    clearbody epoch. destruct (negb (sameClockDomain epoch _)); [done|].
    destruct (match fp_last_initialization_imu_time p with Some _ => _ | None => _ end); [done|].
    destruct (_ <? _); [done|]. constructor; simpl; auto.
Qed.

Lemma prediction_spec group start (p : pipeline) :
  match prediction_stage group start p with
  | inl (_, q) => calmer p q
  | inr (_, q) => calmer p q /\ fp_state_time q = Some (ls_end_time (mg_scan group))
  end.
Proof.
  unfold prediction_stage. cbv zeta. destruct (checkedDifference _ _); [|done].
  destruct (buildPredictionImuSamples _ _ _ _); [|done].
  destruct (predict _ _ _ _) as [[t|s] e]; [|by apply same_life_calmer].
  set (q := _ <| fp_estimator := e |>). assert (calmer p q) as Hq by by apply same_life_calmer.
  clearbody q. set (q' := note_prior_propagation group start q).
  assert (calmer q q') as Hq'.
  { subst q'. unfold note_prior_propagation. repeat case_match; by apply same_life_calmer. }
  split; [|done]. etransitivity; [exact Hq|]. etransitivity; [exact Hq'|]. constructor; simpl; auto.
Qed.

Lemma insertion_calmer usable n registered (p : pipeline) :
  calmer p (insertion_stage usable n registered p)
  /\ fp_state (insertion_stage usable n registered p) = fp_state p
  /\ fp_covariance (insertion_stage usable n registered p) = fp_covariance p
  /\ fp_state_time (insertion_stage usable n registered p) = fp_state_time p.
Proof.
  set (keeps := fun (q r : pipeline) => calmer q r /\ fp_state r = fp_state q
    /\ fp_covariance r = fp_covariance q /\ fp_state_time r = fp_state_time q).
  change (keeps p (insertion_stage usable n registered p)).
  assert (forall q r s, keeps q r -> keeps r s -> keeps q s) as Htrans.
  { intros q r s (?&?&?&?) (?&?&?&?). split_and!; [by etransitivity|congruence..]. }
  assert (forall q, keeps q (insert_points registered q)) as Hinsert.
  { intros q. unfold insert_points. destruct (rm_size _) as [size m].
    assert (forall r : pipeline, same_life q r -> fp_state r = fp_state q ->
              fp_covariance r = fp_covariance q -> fp_state_time r = fp_state_time q -> keeps q r) as Hk.
    { intros r ? ? ? ?. split_and!; auto. by apply same_life_calmer. }
    repeat case_match; by apply Hk. }
  assert (forall q, keeps q (maintain_map q)) as Hmaintain.
  { intros q. unfold maintain_map. destruct (local_map_update _ _ _) as [[u l] m].
    case_match; [|split_and!; try done; by apply same_life_calmer].
    cbv zeta. set (r := _ <| fp_map_recovery_required := true |>).
    assert (keeps q r) as Hr by (split_and!; try done; constructor; simpl; auto).
    case_match; [|done]. eapply Htrans; [exact Hr|]. clearbody r.
    split_and!; [by apply transitionTo_calmer|..]; unfold transitionTo; by case_match. }
  unfold insertion_stage. cbv zeta.
  set (q := if insertionAllowed _ then p else _).
  assert (keeps p q) as Hq.
  { subst q. case_match; split_and!; try done. constructor; simpl; auto. }
  clearbody q. case_match; [|done].
  eapply Htrans; [exact Hq|]. eapply Htrans; [apply Hinsert|apply Hmaintain].
Qed.

Lemma correction_failed_spec (p : pipeline) :
  pipeline_inv p -> calmer p (correction_failed p) /\ fp_status (correction_failed p) <> kTracking.
Proof.
  intros Hinv. unfold correction_failed. cbv zeta.
  set (q := if bool_decide _ then _ else _).
  assert (calmer p q) as Hq.
  { subst q. case_match; [|by apply same_life_calmer].
    case_match; [|by apply same_life_calmer].
    etransitivity; [|by apply transitionTo_calmer]. by apply same_life_calmer. }
  clearbody q. split; [etransitivity; [exact Hq|apply recordUncorrectedUpdate_calmer]|].
  apply record_not_tracking. by eapply calmer_inv.
Qed.

Lemma u64_inc_le x : 0 <= x -> 0 <= u64_inc x <= x + 1.
Proof. intros Hx. unfold u64_inc, u64_add. pose proof (Z.mod_pos_bound (x + 1) (2 ^ 64)). pose proof (Z.mod_le (x + 1) (2 ^ 64)). lia. Qed.

(** A successful correction: [kTracking] has to be earned. *)
Lemma confirm_spec converged (p : pipeline) :
  pipeline_inv p -> fp_state_time p <> None ->
  let q := confirm_correction converged p in
  pipeline_inv q /\ fp_config q = fp_config p /\ fp_state q = fp_state p
  /\ fp_covariance q = fp_covariance p /\ fp_state_time q = fp_state_time p
  /\ (fp_status q = kTracking -> tracking_earned p).
Proof.
  intros Hinv Ht. cbv zeta. unfold confirm_correction.
  assert (forall s r q, (s = kTracking -> fp_tracking_ever_confirmed q = true) ->
            fp_state_time q <> None -> 0 <= fp_consecutive_recovery_successes q ->
            fp_config q = fp_config p -> fp_state q = fp_state p -> fp_covariance q = fp_covariance p ->
            fp_state_time q = fp_state_time p -> (s = kTracking -> tracking_earned p) ->
            let q' := transitionTo s r q in
            pipeline_inv q' /\ fp_config q' = fp_config p /\ fp_state q' = fp_state p
            /\ fp_covariance q' = fp_covariance p /\ fp_state_time q' = fp_state_time p
            /\ (fp_status q' = kTracking -> tracking_earned p)) as Hto.
  { intros s r q H1 H2 H3 H4 H5 H6 H7 H8. cbv zeta.
    destruct (life_inv _ _ _ _ _ _ _ (transitionTo_life s r q)) as (Hc&Hs&Hf&Htt&Hn&Hr).
    assert (fp_state (transitionTo s r q) = fp_state q /\ fp_covariance (transitionTo s r q) = fp_covariance q)
      as [Hst Hcov] by (unfold transitionTo; by case_match).
    rewrite Hc, Hst, Hcov, Htt, Hs. split_and!; auto.
    constructor; rewrite ?Hs, ?Hf, ?Htt, ?Hn; auto. }
  pose proof (inv_successes _ Hinv) as Hn. pose proof (u64_inc_le _ Hn) as Hu.
  destruct (fp_tracking_ever_confirmed p) eqn:Hc; simpl negb; cbv iota.
  - case_match.
    + cbv zeta. change (fp_map_recovery_required (set_member _ _ p)) with (fp_map_recovery_required p).
      case_match eqn:Hrec.
      * case_match.
        -- apply Hto; simpl; auto; lia || done.
        -- split_and!; try done; [constructor; simpl; auto; lia|].
           simpl. intros Hs. by right; left.
      * case_match eqn:Hreq; (apply Hto; simpl; auto; [lia|try done]).
        intros _. right; right. split; [done|].
        apply Z.leb_le in Hreq. simpl in Hreq. unfold tracking in *. simpl in Hreq. lia.
    + split_and!; try done. intros Hs. by right; left.
  - apply Hto; simpl; auto; [lia|]. intros _. by left.
Qed.

Lemma correction_ok group points r (p : pipeline) :
  pipeline_inv p -> fp_state_time p = Some (ls_end_time (mg_scan group)) ->
  outcome_ok p (correction_stage group points r p).
Proof.
  intros Hinv Ht. unfold correction_stage.
  assert (same_life p (association_map p).2) as Hl
    by (unfold association_map; by destruct (rm_size (fp_registration_map p))).
  assert (fp_estimator (association_map p).2 = fp_estimator p) as He
    by (unfold association_map; by destruct (rm_size (fp_registration_map p))).
  destruct (association_map p) as [m q]. simpl in Hl, He. cbv zeta.
  set (q1 := count _ q). assert (same_life p q1) as Hl1 by (etransitivity; [exact Hl|done]).
  change (fp_estimator q1) with (fp_estimator q). rewrite He.
  destruct (correct points m (fp_estimator p)) as [c e] eqn:Hcorr.
  set (q2 := q1 <| fp_estimator := e |>). assert (same_life p q2) as Hl2 by (etransitivity; [exact Hl1|done]).
  assert (fp_estimator q2 = e) as He2 by done. clearbody q2. clear q q1 Hl Hl1 He.
  pose proof (same_life_calmer _ _ Hl2) as Hc2. pose proof (calmer_inv _ _ Hc2 Hinv) as Hinv2.
  eapply outcome_calmer; [exact Hc2|exact Hinv|].
  case_match eqn:Hok.
  - destruct (correction_failed_spec q2 Hinv2) as [Hcf Hnt].
    eapply outcome_calmer; [exact Hcf|done|]. apply reject_ok; [by eapply calmer_inv|done].
  - apply orb_false_iff in Hok as [[Hs _]%orb_false_iff _]. apply negb_false_iff in Hs.
    destruct (correct_successful points m _ _ _ Hcorr Hs) as [_ [_ Hst] [_ Hcov] _ _].
    unfold accept_correction. cbv zeta.
    match goal with |- context [confirm_correction _ ?x] => set (q3 := x) end.
    assert (calmer q2 q3) as Hc3 by (apply same_life_calmer; done).
    assert (tracking_earned q3 -> tracking_earned q2) as He3 by done.
    assert (pipeline_inv q3) as Hinv3 by (by eapply calmer_inv).
    assert (fp_state q3 = stateView e /\ fp_covariance q3 = covariance e) as [Hs3 Hcv3] by (by rewrite <- He2).
    assert (fp_state_time q3 = Some (ls_end_time (mg_scan group))) as Ht3.
    { apply life_inv in Hl2 as (_&_&_&Hx&_). change (fp_state_time q3) with (fp_state_time q2). congruence. }
    assert (fp_config q3 = fp_config q2) as Hcf3 by done.
    clearbody q3.
    destruct (confirm_spec (cr_converged c) q3 Hinv3 ltac:(by rewrite Ht3)) as (Hi4 & Hcf4 & Hs4 & Hcv4 & Ht4 & Hearn).
    set (q4 := confirm_correction (cr_converged c) q3) in *. clearbody q4.
    set (q5 := count _ _). assert (same_life q4 q5) as Hl5 by done.
    assert (fp_state q5 = fp_state q4 /\ fp_covariance q5 = fp_covariance q4) as [Hs5 Hcv5] by done.
    clearbody q5.
    unfold corrected_result. destruct (resolve _ _ _) as [kin a].
    set (q6 := diagnose _ q5). assert (same_life q4 q6) as Hl6 by (etransitivity; [exact Hl5|done]).
    assert (fp_state q6 = fp_state q4 /\ fp_covariance q6 = fp_covariance q4) as [Hs6 Hcv6] by done.
    clearbody q6.
    cbv zeta.
    set (pts := re_registered_points_odom_m _). clearbody pts.
    destruct (insertion_calmer (cr_successful c) (length points) pts q6) as (Hc7 & Hs7 & Hcv7 & Ht7).
    set (q7 := insertion_stage _ _ _ q6) in *. clearbody q7.
    set (q8 := set_reason _ _). assert (same_life q7 q8 /\ fp_state q8 = fp_state q7
      /\ fp_covariance q8 = fp_covariance q7) as (Hl8 & Hs8 & Hcv8) by (split_and!; done). clearbody q8.
    pose proof (same_life_copy q8) as Hl9.
    assert (fp_state (copyInitialPriorMailboxDiagnostics q8) = fp_state q8
            /\ fp_covariance (copyInitialPriorMailboxDiagnostics q8) = fp_covariance q8) as [Hs9 Hcv9]
      by (unfold copyInitialPriorMailboxDiagnostics; by case_match).
    assert (calmer q4 (copyInitialPriorMailboxDiagnostics q8)) as Hc9.
    { etransitivity; [by apply same_life_calmer|]. etransitivity; [exact Hc7|].
      etransitivity; [by apply same_life_calmer|]. by apply same_life_calmer. }
    apply life_inv in Hl9 as (_&_&_&Ht9&_). apply life_inv in Hl8 as (_&_&_&Ht8&_).
    apply life_inv in Hl6 as (_&_&_&Ht6&_).
    unfold finalizeResult, outcome_ok. simpl. split_and!.
    + by eapply calmer_inv.
    + rewrite (calmer_config _ _ Hc9). congruence.
    + intros Htr. split; [|apply He3, Hearn; by apply (calmer_status _ _ Hc9)].
      split; [done|]. eexists. split; [done|]. simpl.
      split_and!; congruence.
Qed.

(** The initialisation stage only stops outside [kTracking]. *)
Lemma initialization_not_tracking between group ingested (p : pipeline) :
  (initialization_stage between group ingested p).1 <> None ->
  fp_status (initialization_stage between group ingested p).2 <> kTracking.
Proof.
  unfold initialization_stage. cbv zeta.
  set (q := if bool_decide (fp_status p = kWaitingForSensors) then _ else _). clearbody q.
  destruct (collecting (fp_status q)) eqn:Hcol.
  - set (r := if ingested then _ else _).
    assert (calmer q r.2) as Hr by (subst r; destruct ingested; [done|apply add_initialization_samples_calmer]).
    assert (fp_status q <> kTracking) as Hq.
    { intros Hs. rewrite Hs in Hcol. done. }
    destruct r as [status s]; simpl in Hr.
    assert (fp_status s <> kTracking) as Hs by (intros Hs; by apply (calmer_status _ _ Hr) in Hs).
    case_match; [done|]. set (progress := match last _ with Some _ => _ | None => _ end).
    pose proof (try_complete_calmer between progress s) as Ht.
    case_match; [|done]. intros _ Htr. by apply (calmer_status _ _ Ht) in Htr.
  - case_match eqn:Hu; [|done]. simpl. intros _ Hs. rewrite Hs in Hu. done.
Qed.

Lemma predicted_ok group trajectory r (p : pipeline) :
  pipeline_inv p -> fp_state_time p = Some (ls_end_time (mg_scan group)) ->
  outcome_ok p (predicted_stage group trajectory r p).
Proof.
  intros Hinv Ht. unfold predicted_stage. cbv zeta.
  destruct (scan_stage group trajectory p) as [[[reason class]|points]|].
  - by apply reject_update_ok.
  - case_match; [by apply reject_update_ok|].
    destruct (if bool_decide (fp_status p = kInitializingMap) then _ else _) as [size bootstrap] eqn:Hb.
    set (q := p <| fp_bootstrap_map := bootstrap |>).
    assert (calmer p q) as Hq by by apply same_life_calmer.
    eapply outcome_calmer; [exact Hq|done|].
    assert (pipeline_inv q) as Hinvq by by eapply calmer_inv.
    destruct (size =? 0) eqn:Hsize; [|by apply correction_ok].
    assert (fp_status q <> kTracking) as Hn.
    { change (fp_status q) with (fp_status p). apply Z.eqb_eq in Hsize. subst size.
      revert Hb. destruct (bool_decide (fp_status p = kInitializingMap)) eqn:Hst; [|by intros [=]].
      apply bool_decide_eq_true in Hst. congruence. }
    assert (calmer q (capture_reference points q)) as Hc by by apply same_life_calmer.
    eapply outcome_calmer; [exact Hc|done|]. apply reject_ok; [by eapply calmer_inv|done].
  - unfold outcome_ok. simpl. split_and!; done.
Qed.

Lemma process_internal_ok between group ingested (p : pipeline) :
  pipeline_inv p -> outcome_ok p (processInternal between group ingested p).
Proof.
  intros Hinv. unfold processInternal. cbv zeta.
  set (r := makeBaseResult group p). clearbody r. destruct (group_reason group).
  { by apply reject_update_ok. }
  set (q := retain_all (mg_imu_samples group) p).
  assert (calmer p q) as Hq by (apply same_life_calmer, same_life_retain_all).
  eapply outcome_calmer; [exact Hq|done|]. pose proof (calmer_inv _ _ Hq Hinv) as Hinvq.
  clearbody q. clear p Hinv Hq.
  pose proof (initialization_calmer between group ingested q) as Hi.
  pose proof (initialization_not_tracking between group ingested q) as Hn.
  destruct (initialization_stage between group ingested q) as [[reason|] s]; simpl in Hi, Hn.
  { eapply outcome_calmer; [exact Hi|done|]. apply reject_ok; [by eapply calmer_inv|by apply Hn]. }
  eapply outcome_calmer; [exact Hi|done|]. pose proof (calmer_inv _ _ Hi Hinvq) as Hinvs.
  pose proof (align_spec group s Hinvs) as Ha.
  destruct (align_state_time group s) as [[[reason [class|]] t]|[start t]].
  - eapply outcome_calmer; [exact Ha|done|]. apply reject_update_ok. by eapply calmer_inv.
  - destruct Ha as [-> Hnt]. by apply reject_ok.
  - eapply outcome_calmer; [exact Ha|done|]. pose proof (calmer_inv _ _ Ha Hinvs) as Hinvt.
    pose proof (prediction_spec group start t) as Hp.
    destruct (prediction_stage group start t) as [[reason u]|[trajectory u]].
    + eapply outcome_calmer; [exact Hp|done|]. apply reject_update_ok. by eapply calmer_inv.
    + destruct Hp as [Hc Htime]. eapply outcome_calmer; [exact Hc|done|].
      apply predicted_ok; [by eapply calmer_inv|done].
Qed.

Lemma resume_after_gap_ok long resume (p : pipeline) :
  pipeline_inv p ->
  calmer p (resume_after_gap long resume p) /\ fp_status (resume_after_gap long resume p) <> kTracking.
Proof.
  intros Hinv. unfold resume_after_gap. cbv zeta.
  set (q := _ <| fp_state_time := Some resume |>).
  assert (calmer p q) as Hq by (constructor; simpl; auto).
  assert (pipeline_inv q) as Hinvq by by eapply calmer_inv. clearbody q.
  pose proof (recordUncorrectedUpdate_calmer fc_kPropagationDiscontinuity q) as Hr.
  pose proof (record_not_tracking fc_kPropagationDiscontinuity q Hinvq) as Hn.
  set (s := recordUncorrectedUpdate _ q) in *. clearbody s.
  assert (forall t : pipeline, calmer s t -> fp_status t <> kTracking -> calmer p t /\ fp_status t <> kTracking) as Hto.
  { intros t Ht ?. split; [|done]. etransitivity; [exact Hq|]. etransitivity; [exact Hr|exact Ht]. }
  case_match; [destruct long|case_match].
  - destruct (rm_size _) as [size m]. apply Hto; [|by rewrite transitionTo_status].
    etransitivity; [|by apply transitionTo_calmer]. by apply same_life_calmer.
  - apply Hto; [by apply transitionTo_calmer|by rewrite transitionTo_status].
  - apply Hto; [by apply transitionTo_calmer|by rewrite transitionTo_status].
  - apply Hto; [by apply same_life_calmer|done].
Qed.

(** A discontinuity leaves [kTracking]. *)
Lemma recover_ok d (p : pipeline) : pipeline_inv p -> outcome_ok p (recoverFromDiscontinuity d p).
Proof.
  intros Hinv. unfold recoverFromDiscontinuity. cbv zeta.
  set (q := diagnose _ p). assert (calmer p q) as Hq by by apply same_life_calmer.
  assert (pipeline_inv q) as Hinvq by by eapply calmer_inv.
  assert (fp_status q = fp_status p /\ fp_state_time q = fp_state_time p
          /\ fp_tracking_ever_confirmed q = fp_tracking_ever_confirmed p) as (Hs & Ht & Hf) by done. clearbody q.
  eapply outcome_calmer; [exact Hq|done|].
  match goal with |- context [finalizeResult _ ?x] => set (s := x) end.
  assert (calmer q s /\ fp_status s <> kTracking) as [Hc Hn].
  { subst s. case_match eqn:Huse.
    - pose proof (same_life_inflate q) as Hi. apply same_life_calmer in Hi.
      destruct (inflate q) as [i u]. simpl in Hi. case_match.
      + split; [|by rewrite transitionTo_status]. etransitivity; [exact Hi|by apply transitionTo_calmer].
      + assert (pipeline_inv u) as Hinvu by by eapply calmer_inv.
        match goal with |- context [resume_after_gap ?l ?t u] =>
          destruct (resume_after_gap_ok l t u Hinvu) as [Hc Hn] end.
        split; [|exact Hn]. etransitivity; [exact Hi|exact Hc].
    - split; [done|]. intros Htr. rewrite Htr in Huse. simpl in Huse.
      pose proof (inv_time _ Hinvq (inv_confirmed _ Hinvq Htr)) as Htime.
      by destruct (fp_state_time q). }
  eapply outcome_calmer; [exact Hc|done|]. apply finalize_ok; [by eapply calmer_inv|done].
Qed.

Lemma same_life_reset_transient (p : pipeline) : same_life p (resetTransientDiagnostics p).
Proof. done. Qed.

Lemma waiting_ok (p : pipeline) : pipeline_inv p -> outcome_ok p (oWaiting, p).
Proof. intros Hinv. unfold outcome_ok. simpl. auto. Qed.

Lemma next_ok between (p : pipeline) : pipeline_inv p -> outcome_ok p (processNext between p).
Proof.
  intros Hinv. unfold processNext. cbv zeta.
  set (q := resetTransientDiagnostics p).
  assert (calmer p q) as Hq by apply same_life_calmer, same_life_reset_transient. clearbody q.
  assert (pipeline_inv q) as Hinvq by by eapply calmer_inv.
  eapply outcome_calmer; [exact Hq|done|]. clear p Hinv Hq.
  match goal with |- outcome_ok _ (if ?b then _ else _) => destruct b end; [by apply waiting_ok|].
  destruct (synchronizeNext _ _) as [[synchronized synchronizer] buffer].
  set (s := _ <| fp_buffer := buffer |>). assert (calmer q s) as Hs by by apply same_life_calmer.
  assert (pipeline_inv s) as Hinvs by by eapply calmer_inv. clearbody s.
  eapply outcome_calmer; [exact Hs|done|]. clear q Hinvq Hs.
  destruct synchronized as [sync|status].
  - repeat case_match; [by apply recover_ok| |by apply waiting_ok].
    eapply outcome_calmer; [|exact Hinvs|apply process_internal_ok]; [by apply same_life_calmer|].
    eapply calmer_inv; [|exact Hinvs]. by apply same_life_calmer.
  - match goal with |- context [finalizeResult ?r ?t] =>
      assert (calmer s t) as Hc; [|assert (fp_status t <> kTracking) as Hn] end.
    + transitivity (set_reason (rStatus status) s); [by apply same_life_calmer|].
      transitivity (recordUncorrectedUpdate fc_kSynchronization (set_reason (rStatus status) s));
        [apply recordUncorrectedUpdate_calmer|by apply same_life_calmer].
    + apply (record_not_tracking fc_kSynchronization (set_reason (rStatus status) s)).
      eapply calmer_inv; [|exact Hinvs]. by apply same_life_calmer.
    + eapply outcome_calmer; [exact Hc|done|]. apply finalize_ok; [by eapply calmer_inv|done].
Qed.

Lemma direct_ok between group (p : pipeline) : pipeline_inv p -> outcome_ok p (pipeline_process between group p).
Proof.
  intros Hinv. unfold pipeline_process.
  pose proof (same_life_calmer _ _ (same_life_reset_transient p)) as Hc.
  eapply outcome_calmer; [exact Hc|done|]. apply process_internal_ok. by eapply calmer_inv.
Qed.

(** ** The other entry points *)

Lemma push_imu_calmer between s (p : pipeline) : calmer p (pipeline_pushImu between s p).2.
Proof.
  unfold pipeline_pushImu. destruct (pushImu _ s) as [status buffer]. cbv zeta.
  set (q := p <| fp_buffer := buffer |>).
  assert (calmer p q) as Hq by by apply same_life_calmer. etransitivity; [exact Hq|]. clearbody q.
  destruct (negb (status_ok status)).
  { simpl. case_match; by apply same_life_calmer. }
  match goal with |- context [fp_status ?x ==? kCollectingImu] => set (r := x) end.
  assert (calmer q r) as Hr.
  { subst r. set (t := retainPriorImuSample s q).
    assert (calmer q t) as Ht by by apply same_life_calmer. clearbody t.
    case_match; [|done]. etransitivity; [exact Ht|by apply transitionTo_calmer]. }
  clearbody r. etransitivity; [exact Hr|]. destruct (_ || _); [|done].
  pose proof (add_initialization_calmer s r) as Ha.
  destruct (addInitializationSample s r) as [[] u]; simpl in *;
    try (etransitivity; [exact Ha|by apply same_life_calmer]).
  etransitivity; [exact Ha|apply try_complete_calmer].
Qed.

Lemma push_lidar_calmer now scan (p : pipeline) : calmer p (pipeline_pushLidar now scan p).2.
Proof.
  unfold pipeline_pushLidar. destruct (pushLidar _ scan) as [status buffer]. cbv zeta.
  apply same_life_calmer. repeat case_match; done.
Qed.

Lemma geometry_calmer t (p : pipeline) : calmer p (setInitialStatePriorGeometry t p).2.
Proof.
  apply same_life_calmer. unfold setInitialStatePriorGeometry. case_match; [done|].
  by destruct (setGeometry _ _).
Qed.

Lemma supervise_calmer now (p : pipeline) : calmer p (superviseLidarTimeout now p).
Proof.
  unfold superviseLidarTimeout. case_match; [|done]. case_match; [done|]. cbv zeta.
  match goal with |- context [if ?b then transitionTo kDegraded ?r p else p] =>
    set (q := if b then transitionTo kDegraded r p else p) end.
  assert (calmer p q) as Hq by (subst q; case_match; [by apply transitionTo_calmer|done]).
  clearbody q. case_match; [|done]. etransitivity; [exact Hq|by apply transitionTo_calmer].
Qed.

Lemma reset_inv (p : pipeline) : pipeline_inv (pipeline_reset p).
Proof. by constructor. Qed.

Lemma new_inv c m (p : pipeline) : FastLioPipeline_new c m = Some p -> pipeline_inv p /\ fp_config p = c.
Proof.
  unfold FastLioPipeline_new. intros H.
  repeat (apply bind_Some in H as (? & _ & H)). destruct (_ || _); simplify_eq. by split.
Qed.

(** ** Runs of the pipeline *)

(** The calls of the public methods that change the pipeline. *)
Inductive pipeline_event : Type :=
| evPushImu (between : nat -> list prior_submission) (s : ImuSample)
| evPushLidar (now : Z) (scan : LidarScan)
| evSubmitPrior (prior : InitialStatePrior) (late : LateSubmissionPolicy)
| evSetGeometry (base_to_imu : RigidTransform)
| evSupervise (now : Z)
| evReset
| evProcessNext (between : nat -> list prior_submission)
| evProcess (between : nat -> list prior_submission) (group : MeasurementGroup).

(** What a call that processes a scan gives, and the pipeline after the call. *)
Definition pipeline_step (e : pipeline_event) (p : pipeline) : option process_outcome * pipeline :=
  match e with
  | evPushImu between s => (None, (pipeline_pushImu between s p).2)
  | evPushLidar now scan => (None, (pipeline_pushLidar now scan p).2)
  | evSubmitPrior prior late => (None, (submitInitialStatePrior prior late p).2)
  | evSetGeometry t => (None, (setInitialStatePriorGeometry t p).2)
  | evSupervise now => (None, superviseLidarTimeout now p)
  | evReset => (None, pipeline_reset p)
  | evProcessNext between => let '(o, q) := processNext between p in (Some o, q)
  | evProcess between group => let '(o, q) := pipeline_process between group p in (Some o, q)
  end.

Inductive pipeline_reachable (c : EstimatorConfig) (empty_map : M) : pipeline -> Prop :=
| reachable_new p : FastLioPipeline_new c empty_map = Some p -> pipeline_reachable c empty_map p
| reachable_step p e : pipeline_reachable c empty_map p -> pipeline_reachable c empty_map (pipeline_step e p).2.

(** A step keeps the invariant; it is either calm or gives a result. *)
Lemma step_spec e (p : pipeline) :
  pipeline_inv p ->
  pipeline_inv (pipeline_step e p).2
  /\ (fp_status (pipeline_step e p).2 = kTracking ->
      (fp_status p = kTracking /\ forall r, (pipeline_step e p).1 <> Some (oResult r))
      \/ exists r, (pipeline_step e p).1 = Some (oResult r)
                   /\ corrected_by r (pipeline_step e p).2 /\ tracking_earned p).
Proof.
  intros Hinv.
  assert (forall q, calmer p q -> pipeline_inv q /\ (fp_status q = kTracking ->
    (fp_status p = kTracking /\ forall r, None <> Some (oResult r))
    \/ exists r, None = Some (oResult r) /\ corrected_by r q /\ tracking_earned p)) as Hcalm.
  { intros q Hq. split; [by eapply calmer_inv|]. intros Ht. left. split; [by apply (calmer_status _ _ Hq)|done]. }
  assert (forall o q, outcome_ok p (o, q) -> pipeline_inv q /\ (fp_status q = kTracking ->
    (fp_status p = kTracking /\ forall r, Some o <> Some (oResult r))
    \/ exists r, Some o = Some (oResult r) /\ corrected_by r q /\ tracking_earned p)) as Hout.
  { intros o q (Hi & _ & Hm). split; [done|]. intros Ht. simpl in *.
    destruct o as [r| |]; [right; exists r; split; [done|auto]|left..]; (split; [auto|done]). }
  destruct e; simpl.
  - apply Hcalm, push_imu_calmer.
  - apply Hcalm, push_lidar_calmer.
  - apply Hcalm, same_life_calmer, same_life_submit.
  - apply Hcalm, geometry_calmer.
  - apply Hcalm, supervise_calmer.
  - by split; [apply reset_inv|].
  - pose proof (next_ok between p Hinv) as Ho. destruct (processNext between p) as [o q]. by apply Hout.
  - pose proof (direct_ok between group p Hinv) as Ho.
    destruct (pipeline_process between group p) as [o q]. by apply Hout.
Qed.

Lemma pipeline_reachable_inv c m (p : pipeline) : pipeline_reachable c m p -> pipeline_inv p.
Proof.
  induction 1 as [p Hp|p e _ IH]; [by apply new_inv in Hp as [? _]|by apply step_spec].
Qed.

End Lifecycle.

(** ** A run

    Two IMU samples of a vehicle at rest initialise the estimator, the next scan
    of a wall captures the reference of the map, and the one after it is
    corrected. *)

#[local] Existing Instances eigen_reference norm_reference eigen_mat_reference eigen_pose_reference
  eigen_float_reference eigen_rot_reference lio_eigen_reference lio_mat_reference init_reference
  libm_reference cov_reference ikfom_reference list_map_reference.

Definition w_config : EstimatorConfig := {|
  cf_measurement_buffer := mkMeasurementBufferConfig 10 100 true;
  cf_maximum_imu_gap_ns := 500000000;
  cf_initialization :=
    mkInitializerConfig 2 10 true (f64_of_Z 10) (f64_of_Z 1) (f64_of_Z 1) (f64_of_Z 1) (f64_of_Z 1);
  cf_initial_prior :=
    mkPriorPolicy ps_kZero kGroundStartup prior_mask_default 0 0 pf_kZero (f64_of_Z 1) InitialStatePrior_default;
  cf_ikfom := w_ikfom_config;
  cf_deskew := mkDeskewerConfig kAuto kScanEnd;
  cf_preprocessing := mkPreprocessorConfig (mkPointFilterConfig fzero (f64_of_Z 100)) f64_half true;
  cf_residual_builder := w_residual_config;
  cf_local_map := mkLocalMapConfig (w_v 100 100 100) f64_1 1000;
  cf_insertion_minimum_point_count := 3;
  cf_extrinsic := mkExtrinsicConfig quat_identity vec3_zero;
  cf_lifecycle := mkLifecycleConfig 5 3 1000000000 2000000000;
  cf_tracking := mkTrackingConfig 1000000000 2 (f64_of_Z 2)
|}.

Definition w_process (ms : Z) : pipeline_event := evProcess (fun _ => []) (w_group ms).

Lemma w_constructed : is_Some (FastLioPipeline_new (M := list vec3) w_config []).
Proof.
  assert (has (FastLioPipeline_new (M := list vec3) w_config []) = true) as H by by vm_compute.
  by destruct (FastLioPipeline_new _ _).
Qed.
Definition w_new : FastLioPipeline (M := list vec3) := is_Some_proj w_constructed.

Lemma w_new_eq : FastLioPipeline_new w_config [] = Some w_new.
Proof.
  unfold w_new. generalize w_constructed. destruct (FastLioPipeline_new w_config []); [done|].
  by intros [? ?].
Qed.

(** The pipeline after the first two scans. *)
Definition w_referenced : FastLioPipeline (M := list vec3) :=
  (pipeline_step (w_process 200) (pipeline_step (w_process 100) w_new).2).2.

Lemma w_pipeline_reachable : pipeline_reachable w_config [] w_referenced.
Proof. repeat apply reachable_step. apply reachable_new, w_new_eq. Qed.

(** The first two scans do not make navigation valid, the third one does. *)
Lemma w_not_valid : lr_navigation_valid (lifecycle_report w_referenced) = false.
Proof. by vm_compute. Qed.
Lemma w_valid : lr_navigation_valid (lifecycle_report (pipeline_step (w_process 300) w_referenced).2) = true.
Proof. by vm_compute. Qed.

