(* ===== verification/RogSliding.v ===== *)
(** * The sliding window of the voxel map

    [mapping/rog_map_vendor/.../sliding_map.h] and [sliding_map.cpp], built with
    [ORIGIN_AT_CORNER]: a cubic window of voxels in a flat buffer, addressed by
    the residues of the global index, that follows the vehicle by clearing only
    the slices it leaves.

    [SlidingMap] is an abstract class: its virtual members are the class
    [SlidingOps], and [mapSliding] is written once over it, as in the source.
    [int] is [Z]: the source computes indices without tests, and every index of
    the window fits because [updateLocalMapOriginAndBound] refuses one that does
    not ([slot_range], [window_fits]).  Printing and timers are left out. *)
From S2P Require Import Prelude Float64 Geometry WorldGrid MapSnapshot RecordUpdate.

(** ** Indices *)

(** A three-vector of [int] is [GridIndex3]. *)
Definition idx_zip (f : Z -> Z -> Z) (a b : GridIndex3) : GridIndex3 :=
  Idx (f (ix a) (ix b)) (f (iy a) (iy b)) (f (iz a) (iz b)).
Definition idx_add : GridIndex3 -> GridIndex3 -> GridIndex3 := idx_zip Z.add.
Definition idx_sub : GridIndex3 -> GridIndex3 -> GridIndex3 := idx_zip Z.sub.
Definition idx_neg (a : GridIndex3) : GridIndex3 := Idx (- ix a) (- iy a) (- iz a).
Definition idx_constant (c : Z) : GridIndex3 := Idx c c c.
Definition idx_scale (c : Z) (a : GridIndex3) : GridIndex3 := Idx (c * ix a) (c * iy a) (c * iz a).
Definition idx_prod (a : GridIndex3) : Z := ix a * iy a * iz a.

(** [v(axis)] for [axis] in 0, 1, 2 *)
Definition idx_at (a : GridIndex3) (axis : Z) : Z :=
  if axis =? 0 then ix a else if axis =? 1 then iy a else iz a.

(** [v.cast<double>()] *)
Definition idx_cast (a : GridIndex3) : vec3 :=
  Vec3 (f64_of_Z (ix a)) (f64_of_Z (iy a)) (f64_of_Z (iz a)).

(** [std::floor] of a [long double] *)
Definition f80_floor (x : f80) : f80 := fopp (f80_ceil (fopp x)).

Definition checkedIndexOffset (base offset : GridIndex3) : option GridIndex3 :=
  let r := idx_add base offset in
  if fits_int (ix r) && fits_int (iy r) && fits_int (iz r) then Some r else None.

(** [None] is the result [false], after which the index is zero. *)
Definition indexFromCoordinate (coordinate resolution : f64) : option Z :=
  if negb (isfinite coordinate) || negb (isfinite resolution) || fle resolution fzero then None
  else
    let scaled := f80_div (f80_of_f64 coordinate) (f80_of_f64 resolution) in
    let candidate := f80_floor scaled in
    if negb (isfinite candidate) || flt candidate (f80_of_Z i32_min)
       || fgt candidate (f80_of_Z i32_max)
    then None
    else Some (SF_trunc candidate).

Definition lit_half : f64 := f64_lit 1 2.

(** ** State *)

(** The members of [SlidingConfig] and the window. [visualization_range_i] is
    never read. *)
Record SlidingMap : Type := mkSliding {
  sc_resolution : f64;
  sc_resolution_inv : f64;
  sc_sliding_thresh : f64;
  sc_map_sliding_en : bool;
  sc_fix_map_origin : vec3;
  sc_map_size_i : GridIndex3;
  sc_half_map_size_i : GridIndex3;
  sc_virtual_ceil_height_id_g : Z;
  sc_virtual_ground_height_id_g : Z;
  sc_safe_margin_i : Z;
  sc_map_vox_num : Z;
  local_map_origin_d : vec3;
  local_map_bound_min_d : vec3;
  local_map_bound_max_d : vec3;
  local_map_origin_i : GridIndex3;
  local_map_bound_min_i : GridIndex3;
  local_map_bound_max_i : GridIndex3;
  last_slide_cells_cleared : Z;
  sm_had_been_initialized : bool
}.

#[export] Instance SlidingMap_eta : Eta SlidingMap := fun s =>
  mkSliding (sc_resolution s) (sc_resolution_inv s) (sc_sliding_thresh s) (sc_map_sliding_en s)
    (sc_fix_map_origin s) (sc_map_size_i s) (sc_half_map_size_i s)
    (sc_virtual_ceil_height_id_g s) (sc_virtual_ground_height_id_g s) (sc_safe_margin_i s)
    (sc_map_vox_num s) (local_map_origin_d s) (local_map_bound_min_d s)
    (local_map_bound_max_d s) (local_map_origin_i s) (local_map_bound_min_i s)
    (local_map_bound_max_i s) (last_slide_cells_cleared s) (sm_had_been_initialized s).

Definition idx_zero : GridIndex3 := idx_constant 0.

(** [SlidingMap()]: the vectors without an initialiser are zero here. *)
Definition SlidingMap_default : SlidingMap :=
  mkSliding fzero fzero fzero false vec3_zero idx_zero idx_zero 0 0 0 0
    vec3_zero vec3_zero vec3_zero idx_zero idx_zero idx_zero 0 false.

Inductive rog_error : Type := rog_runtime_error | rog_invalid_argument.

(** ** Addressing *)

(** One axis of [globalIndexToLocalIndex]: [size] cells, [half] on each side. *)
Definition axis_local (size half id_g : Z) : Z :=
  let id_l := Z.rem id_g size in
  if half <? id_l then id_l - size
  else if id_l <? - half then id_l + size
  else id_l.

Definition globalIndexToLocalIndex (sc : SlidingMap) (id_g : GridIndex3) : GridIndex3 :=
  let n := sc_map_size_i sc in
  let h := sc_half_map_size_i sc in
  Idx (axis_local (ix n) (ix h) (ix id_g)) (axis_local (iy n) (iy h) (iy id_g))
      (axis_local (iz n) (iz h) (iz id_g)).

(** One axis of [localIndexToGlobalIndex]. *)
Definition axis_global (size half origin id_l : Z) : Z :=
  let min_id_g := - half + origin in
  let min_id_l := Z.rem min_id_g size in
  let min_id_l := min_id_l - (if half <? min_id_l then size else 0) in
  let min_id_l := min_id_l + (if min_id_l <? - half then size else 0) in
  let cur_dis_to_min_id := id_l - min_id_l in
  let cur_dis_to_min_id :=
    if cur_dis_to_min_id <? 0 then size + cur_dis_to_min_id else cur_dis_to_min_id in
  cur_dis_to_min_id + min_id_g.

Definition localIndexToGlobalIndex (sc : SlidingMap) (id_l : GridIndex3) : GridIndex3 :=
  let n := sc_map_size_i sc in
  let h := sc_half_map_size_i sc in
  let o := local_map_origin_i sc in
  Idx (axis_global (ix n) (ix h) (ix o) (ix id_l)) (axis_global (iy n) (iy h) (iy o) (iy id_l))
      (axis_global (iz n) (iz h) (iz o) (iz id_l)).

Definition getLocalIndexHash (sc : SlidingMap) (id_in : GridIndex3) : Z :=
  let id := idx_add id_in (sc_half_map_size_i sc) in
  ix id * iy (sc_map_size_i sc) * iz (sc_map_size_i sc) + iy id * iz (sc_map_size_i sc) + iz id.

Definition getHashIndexFromGlobalIndex (sc : SlidingMap) (id_g : GridIndex3) : Z :=
  getLocalIndexHash sc (globalIndexToLocalIndex sc id_g).

(** The integer divisions of C++ truncate. *)
Definition hashIdToLocalIndex (sc : SlidingMap) (hash_id : Z) : GridIndex3 :=
  let ny := iy (sc_map_size_i sc) in
  let nz := iz (sc_map_size_i sc) in
  let x := Z.quot hash_id (ny * nz) in
  let y := Z.quot (hash_id - x * ny * nz) nz in
  let z := hash_id - x * ny * nz - y * nz in
  idx_sub (Idx x y z) (sc_half_map_size_i sc).

Definition hashIdToGlobalIndex (sc : SlidingMap) (hash_id : Z) : GridIndex3 :=
  localIndexToGlobalIndex sc (hashIdToLocalIndex sc hash_id).

(** [(cur_id + 0.5) * sc_.resolution] *)
Definition axis_pos (sc : SlidingMap) (cur_id : Z) : f64 :=
  f64_mul (f64_add (f64_of_Z cur_id) lit_half) (sc_resolution sc).

Definition localIndexToPos (sc : SlidingMap) (id_l : GridIndex3) : vec3 :=
  let cur_id := localIndexToGlobalIndex sc id_l in
  Vec3 (axis_pos sc (ix cur_id)) (axis_pos sc (iy cur_id)) (axis_pos sc (iz cur_id)).

Definition hashIdToPos (sc : SlidingMap) (hash_id : Z) : vec3 :=
  localIndexToPos sc (hashIdToLocalIndex sc hash_id).

(** [insideLocalMap(id_g)] *)
Definition insideLocalMap_i (sc : SlidingMap) (id_g : GridIndex3) : bool :=
  let o := local_map_origin_i sc in
  let h := sc_half_map_size_i sc in
  (Z.abs (ix id_g - ix o) <=? ix h) && (Z.abs (iy id_g - iy o) <=? iy h)
  && (Z.abs (iz id_g - iz o) <=? iz h).

Section Positions.
Context `{EigenOps}.

Definition indexFromPosition (position : vec3) (resolution : f64) : option GridIndex3 :=
  if negb (v_allFinite position) then None
  else match indexFromCoordinate (vx position) resolution,
             indexFromCoordinate (vy position) resolution,
             indexFromCoordinate (vz position) resolution with
       | Some x, Some y, Some z => Some (Idx x y z)
       | _, _, _ => None
       end.

(** The two overloads of [posToGlobalIndex]: the index is zero after a failure. *)
Definition posToGlobalIndex (sc : SlidingMap) (pos : vec3) : GridIndex3 :=
  default idx_zero (indexFromPosition pos (sc_resolution sc)).
Definition posToGlobalIndex_axis (sc : SlidingMap) (pos : f64) : Z :=
  default 0 (indexFromCoordinate pos (sc_resolution sc)).

Definition globalIndexToPos (sc : SlidingMap) (id_g : GridIndex3) : vec3 :=
  v_scale (sc_resolution sc) (v_add (idx_cast id_g) (vec3_constant lit_half)).

(** [insideLocalMap(pos)] *)
Definition insideLocalMap (sc : SlidingMap) (pos : vec3) : bool :=
  match indexFromPosition pos (sc_resolution sc) with
  | Some id_g => insideLocalMap_i sc id_g
  | None => false
  end.

Definition getHashIndexFromPos (sc : SlidingMap) (pos : vec3) : Z :=
  match indexFromPosition pos (sc_resolution sc) with
  | Some id_g =>
      if negb (insideLocalMap_i sc id_g) then -1
      else getLocalIndexHash sc (globalIndexToLocalIndex sc id_g)
  | None => -1
  end.

Definition initSlidingMap (half_map_size_i : GridIndex3) (resolution : f64) (map_sliding_en : bool)
    (sliding_thresh : f64) (fix_map_origin : vec3) (sc : SlidingMap) : rog_error + SlidingMap :=
  if sm_had_been_initialized sc then inl rog_runtime_error
  else match indexFromPosition fix_map_origin resolution with
       | None => inl rog_invalid_argument
       | Some origin_index =>
           let size := idx_add (idx_scale 2 half_map_size_i) (idx_constant 1) in
           inr (sc <| sc_resolution := resolution |>
                   <| sc_resolution_inv := f64_div (f64_of_Z 1) resolution |>
                   <| sc_map_sliding_en := map_sliding_en |>
                   <| sc_sliding_thresh := sliding_thresh |>
                   <| sc_fix_map_origin := fix_map_origin |>
                   <| sc_half_map_size_i := half_map_size_i |>
                   <| sc_map_size_i := size |>
                   <| sc_map_vox_num := idx_prod size |>
                   <| local_map_origin_d := fix_map_origin |>
                   <| local_map_origin_i := origin_index |>
                   <| sm_had_been_initialized := true |>)
       end.

Definition updateLocalMapOriginAndBound (new_origin_d : vec3) (new_origin_i : GridIndex3)
    (sc : SlidingMap) : SlidingMap :=
  match checkedIndexOffset new_origin_i (sc_half_map_size_i sc),
        checkedIndexOffset new_origin_i (idx_neg (sc_half_map_size_i sc)) with
  | Some maximum_index, Some minimum_index =>
      let sc := sc <| local_map_origin_i := new_origin_i |>
                   <| local_map_origin_d := new_origin_d |>
                   <| local_map_bound_max_i := maximum_index |>
                   <| local_map_bound_min_i := minimum_index |> in
      sc <| local_map_bound_min_d := globalIndexToPos sc minimum_index |>
         <| local_map_bound_max_d := globalIndexToPos sc maximum_index |>
  | _, _ => sc
  end.
End Positions.

(** ** Sliding *)

(** What a derived class provides: its base part and the two virtual members. *)
Class SlidingOps (S : Type) : Type := {
  sm_base : S -> SlidingMap;
  sm_set_base : SlidingMap -> S -> S;
  resetLocalMap : S -> S;
  resetCell : Z -> S -> S
}.

(** [normalize] *)
Definition normalize (x a b : Z) : Z :=
  let range := b - a + 1 in
  let y := Z.rem (x - a) range in
  (if y <? 0 then y + range else y) + a.

(** The index with the given values on axes [i], [(i + 1) % 3], [(i + 2) % 3]. *)
Definition idx_of_axes (i a b c : Z) : GridIndex3 :=
  if i =? 0 then Idx a b c else if i =? 1 then Idx c a b else Idx b c a.

(** [for (k = lo; k <= hi; k++)] *)
Definition z_range (lo hi : Z) : list Z := seqZ lo (hi - lo + 1).

(** The slices of one axis that leave the window, as local indices. *)
Definition slide_clear_ids (sc : SlidingMap) (i shift : Z) : list Z :=
  let half := idx_at (sc_half_map_size_i sc) i in
  let min_id_g := - half + idx_at (local_map_origin_i sc) i in
  let min_id_l := Z.rem min_id_g (idx_at (sc_map_size_i sc) i) in
  if 0 <? shift
  then map (fun k => normalize (min_id_l + k) (- half) half) (z_range 0 (shift - 1))
  else map (fun k => normalize (min_id_l - k) (- half) half) (z_range 1 (- shift)).

(** The cells [clearMemoryOutOfMap] visits, in its order. *)
Definition clear_cells (sc : SlidingMap) (clear_id : list Z) (i : Z) : list Z :=
  let h1 := idx_at (sc_half_map_size_i sc) ((i + 1) mod 3) in
  let h2 := idx_at (sc_half_map_size_i sc) ((i + 2) mod 3) in
  clear_id ≫= fun idd =>
  z_range (- h1) h1 ≫= fun x =>
  map (fun y => getLocalIndexHash sc (idx_of_axes i idd x y)) (z_range (- h2) h2).

Section Sliding.
Context `{EigenOps} {S : Type} `{SlidingOps S}.

Definition clearMemoryOutOfMap (clear_id : list Z) (i : Z) (s : S) : S :=
  foldl (fun s h => resetCell h s) s (clear_cells (sm_base s) clear_id i).

Definition set_cleared (n : Z) (s : S) : S :=
  sm_set_base ((sm_base s) <| last_slide_cells_cleared := n |>) s.

(** One turn of the clearing loop of [mapSliding]. *)
Definition slide_axis (shift_num : GridIndex3) (s : S) (i : Z) : S :=
  let shift := idx_at shift_num i in
  if shift =? 0 then s
  else
    let sc := sm_base s in
    let clear_id := slide_clear_ids sc i shift in
    let cleared := u64_add (last_slide_cells_cleared sc)
        (Z.of_nat (length clear_id) * idx_at (sc_map_size_i sc) ((i + 1) mod 3)
         * idx_at (sc_map_size_i sc) ((i + 2) mod 3)) in
    clearMemoryOutOfMap clear_id i (set_cleared cleared s).

(** A shift by more than the window on some axis. *)
Definition shift_too_far (size shift_num : GridIndex3) : bool :=
  (ix size <? Z.abs (ix shift_num)) || (iy size <? Z.abs (iy shift_num))
  || (iz size <? Z.abs (iz shift_num)).

Definition mapSliding (odom : vec3) (s : S) : S :=
  let s := set_cleared 0 s in
  match indexFromPosition odom (sc_resolution (sm_base s)) with
  | None => s
  | Some new_origin_i =>
      let new_origin_d := v_scale (sc_resolution (sm_base s)) (idx_cast new_origin_i) in
      let shift_num := idx_sub new_origin_i (local_map_origin_i (sm_base s)) in
      let s :=
        if shift_too_far (sc_map_size_i (sm_base s)) shift_num
        then let s := resetLocalMap s in set_cleared (sc_map_vox_num (sm_base s)) s
        else foldl (slide_axis shift_num) s [0; 1; 2] in
      sm_set_base (updateLocalMapOriginAndBound new_origin_d new_origin_i (sm_base s)) s
  end.
End Sliding.

(** ** A map with one counter per cell *)

(** [std::vector]: reads and writes the source does without a bounds test; the
    addresses are those of the window ([slot_range]). *)
Definition vec_at {A} (d : A) (v : list A) (i : Z) : A := default d (v !! Z.to_nat i).
Definition vec_set {A} (i : Z) (x : A) (v : list A) : list A := <[Z.to_nat i := x]> v.
Definition vec_fill {A} (x : A) (v : list A) : list A := replicate (length v) x.

(** Storing an [int] into an [int16_t] and a [uint16_t]. *)
Definition int16 (x : Z) : Z := (x + 2 ^ 15) mod 2 ^ 16 - 2 ^ 15.
Definition uint16 (x : Z) : Z := x mod 2 ^ 16.

(** * The sliding window loses nothing it keeps

    Addressing: inside the window the buffer address is a bijection, and every
    index, inside or not, has an address in the buffer.  Sliding: for every
    derived class that resets cell by cell, the map after [mapSliding] is the old
    map restricted to the new window, with unobserved cells everywhere else. *)

(** ** One axis *)

Section Axis.
Context (n h : Z) (Hh : 0 <= h) (Hn : n = 2 * h + 1).

Lemma residue_unique a b : - h <= a <= h -> - h <= b <= h -> (n | a - b) -> a = b.
Proof. intros Ha Hb [k Hk]. assert (k = 0) by nia. nia. Qed.

Lemma rem_residue g : (n | g - Z.rem g n) /\ - n < Z.rem g n < n.
Proof.
  pose proof (Z.quot_rem' g n). pose proof (Z.rem_bound_abs g n). split; [exists (Z.quot g n)|]; lia.
Qed.

Lemma axis_local_spec g : - h <= axis_local n h g <= h /\ (n | g - axis_local n h g).
Proof.
  unfold axis_local. destruct (rem_residue g) as [[k Hk] Hr].
  destruct (Z.ltb_spec h (Z.rem g n)); [|destruct (Z.ltb_spec (Z.rem g n) (- h))].
  - split; [lia|]. exists (k + 1). lia.
  - split; [lia|]. exists (k - 1). lia.
  - split; [lia|]. by exists k.
Qed.

Lemma axis_local_unique g l : - h <= l <= h -> (n | g - l) -> axis_local n h g = l.
Proof.
  intros Hl [k Hk]. destruct (axis_local_spec g) as [Hb [k' Hk']].
  apply residue_unique; [done|done|]. exists (k - k'). lia.
Qed.

Lemma axis_local_eq g g' : axis_local n h g = axis_local n h g' <-> (n | g - g').
Proof.
  destruct (axis_local_spec g) as [Hb [k Hk]], (axis_local_spec g') as [Hb' [k' Hk']]. split.
  - intros E. exists (k - k'). lia.
  - intros [q Hq]. apply residue_unique; [done|done|]. exists (q - k + k'). lia.
Qed.

Lemma axis_local_window o g g' : Z.abs (g - o) <= h -> Z.abs (g' - o) <= h ->
  axis_local n h g = axis_local n h g' -> g = g'.
Proof. intros ? ? [k Hk]%axis_local_eq. assert (k = 0) by nia. nia. Qed.

Lemma axis_global_spec o l : - h <= l <= h ->
  Z.abs (axis_global n h o l - o) <= h /\ (n | axis_global n h o l - l).
Proof.
  intros Hl. unfold axis_global. set (r := Z.rem (- h + o) n).
  assert (axis_local n h (- h + o) =
    r - (if h <? r then n else 0) + (if r - (if h <? r then n else 0) <? - h then n else 0)) as <-.
  { unfold axis_local. fold r. destruct (rem_residue (- h + o)) as [_ Hr]. fold r in Hr.
    destruct (Z.ltb_spec h r).
    - rewrite (proj2 (Z.ltb_ge _ _)); lia.
    - rewrite Z.sub_0_r. destruct (Z.ltb_spec r (- h)); lia. }
  destruct (axis_local_spec (- h + o)) as [Hb [k Hk]].
  set (m := axis_local n h (- h + o)) in *.
  destruct (Z.ltb_spec (l - m) 0); (split; [lia|]); [exists (k + 1)|exists k]; lia.
Qed.

Lemma axis_local_global o l : - h <= l <= h -> axis_local n h (axis_global n h o l) = l.
Proof. intros Hl. apply axis_local_unique; [done|]. by apply axis_global_spec. Qed.

Lemma axis_global_local o g : Z.abs (g - o) <= h -> axis_global n h o (axis_local n h g) = g.
Proof.
  intros Hg. destruct (axis_local_spec g) as [Hl _]. destruct (axis_global_spec o _ Hl) as [Hw _].
  apply (axis_local_window o); [done|done|]. by apply axis_local_global.
Qed.

Lemma normalize_residue x : normalize x (- h) h = axis_local n h x.
Proof.
  symmetry. unfold normalize. replace (h - - h + 1) with n by lia.
  destruct (rem_residue (x - - h)) as [[k Hk] Hr]. set (y := Z.rem (x - - h) n) in *.
  apply axis_local_unique; destruct (Z.ltb_spec y 0); try lia; [exists (k - 1)|exists k]; lia.
Qed.

(** The slices cleared are those of the old window outside the new one. *)
Lemma leaving_slices o shift a :
  shift <> 0 -> Z.abs shift <= n ->
  a ∈ (let m := Z.rem (- h + o) n in
       if 0 <? shift then map (fun k => normalize (m + k) (- h) h) (z_range 0 (shift - 1))
       else map (fun k => normalize (m - k) (- h) h) (z_range 1 (- shift))) <->
  exists g, Z.abs (g - o) <= h /\ h < Z.abs (g - (o + shift)) /\ a = axis_local n h g.
Proof.
  intros Hs Hn'. cbv zeta. destruct (rem_residue (- h + o)) as [[q Hq] _].
  set (m := Z.rem (- h + o) n) in *. unfold z_range.
  destruct (Z.ltb_spec 0 shift); rewrite list_elem_of_fmap; setoid_rewrite elem_of_seqZ;
    setoid_rewrite normalize_residue; split.
  - intros (k & -> & Hk). exists (- h + o + k). split_and!; [lia..|]. apply axis_local_eq. exists (- q). lia.
  - intros (g & H1 & H2 & ->). exists (g - (- h + o)). split; [|lia]. apply axis_local_eq. exists q. lia.
  - intros (k & -> & Hk). exists (h + o + 1 - k). split_and!; [lia..|]. apply axis_local_eq. exists (- q - 1). lia.
  - intros (g & H1 & H2 & ->). exists (h + o + 1 - g). split; [|lia]. apply axis_local_eq. exists (1 + q). lia.
Qed.

(** An index of the new window outside the old one shares its slice with one
    that leaves. *)
Lemma entering_slice o shift g : Z.abs (g - (o + shift)) <= h -> h < Z.abs (g - o) -> Z.abs shift <= n ->
  shift <> 0 /\ exists g', Z.abs (g' - o) <= h /\ h < Z.abs (g' - (o + shift)) /\ axis_local n h g = axis_local n h g'.
Proof.
  intros Hnew Hold Hs. split; [lia|]. destruct (Z.le_gt_cases g o).
  - exists (g + n). split_and!; [lia..|]. apply axis_local_eq. exists (-1). lia.
  - exists (g - n). split_and!; [lia..|]. apply axis_local_eq. exists 1. lia.
Qed.
End Axis.

(** ** The address of a cell *)

(** What [initSlidingMap] establishes. *)
Record window_wf (sc : SlidingMap) : Prop := {
  ww_x : 0 <= ix (sc_half_map_size_i sc);
  ww_y : 0 <= iy (sc_half_map_size_i sc);
  ww_z : 0 <= iz (sc_half_map_size_i sc);
  ww_size : sc_map_size_i sc = idx_add (idx_scale 2 (sc_half_map_size_i sc)) (idx_constant 1);
  ww_vox : sc_map_vox_num sc = idx_prod (sc_map_size_i sc)
}.

(** A local index. *)
Definition local_ok (sc : SlidingMap) (l : GridIndex3) : Prop :=
  let h := sc_half_map_size_i sc in
  - ix h <= ix l <= ix h /\ - iy h <= iy l <= iy h /\ - iz h <= iz l <= iz h.

(** The two maps address alike. *)
Definition same_shape (a b : SlidingMap) : Prop :=
  sc_map_size_i a = sc_map_size_i b /\ sc_half_map_size_i a = sc_half_map_size_i b.

Lemma hash_same_shape a b g : same_shape a b ->
  getHashIndexFromGlobalIndex a g = getHashIndexFromGlobalIndex b g.
Proof. intros [Hn Hh]. unfold getHashIndexFromGlobalIndex, getLocalIndexHash, globalIndexToLocalIndex. by rewrite Hn, Hh. Qed.

Section Addressing.
Context (sc : SlidingMap) (Hwf : window_wf sc).

Abbreviation hx := (ix (sc_half_map_size_i sc)).
Abbreviation hy := (iy (sc_half_map_size_i sc)).
Abbreviation hz := (iz (sc_half_map_size_i sc)).

Lemma size_x : ix (sc_map_size_i sc) = 2 * hx + 1.
Proof. by rewrite (ww_size sc Hwf). Qed.
Lemma size_y : iy (sc_map_size_i sc) = 2 * hy + 1.
Proof. by rewrite (ww_size sc Hwf). Qed.
Lemma size_z : iz (sc_map_size_i sc) = 2 * hz + 1.
Proof. by rewrite (ww_size sc Hwf). Qed.

Lemma half_pos : 0 <= hx /\ 0 <= hy /\ 0 <= hz.
Proof. by destruct Hwf. Qed.

Lemma vox_eq : sc_map_vox_num sc = (2 * hx + 1) * (2 * hy + 1) * (2 * hz + 1).
Proof. rewrite (ww_vox sc Hwf). unfold idx_prod. by rewrite size_x, size_y, size_z. Qed.

Lemma globalIndexToLocalIndex_ok g : local_ok sc (globalIndexToLocalIndex sc g).
Proof.
  destruct half_pos as (? & ? & ?). unfold globalIndexToLocalIndex, local_ok; simpl.
  split_and!; apply axis_local_spec; (done || apply size_x || apply size_y || apply size_z).
Qed.

Lemma localHash_range l : local_ok sc l -> 0 <= getLocalIndexHash sc l < sc_map_vox_num sc.
Proof.
  destruct half_pos as (? & ? & ?). intros (Hx & Hy & Hz). rewrite vox_eq. unfold getLocalIndexHash; simpl.
  rewrite size_y, size_z.
  assert (0 <= (ix l + hx) * (2 * hy + 1) + (iy l + hy) <= (2 * hx + 1) * (2 * hy + 1) - 1) by nia.
  nia.
Qed.

Lemma mixed_radix_inj m n a b c a' b' c' :
  0 <= b < m -> 0 <= b' < m -> 0 <= c < n -> 0 <= c' < n ->
  a * m * n + b * n + c = a' * m * n + b' * n + c' -> a = a' /\ b = b' /\ c = c'.
Proof.
  intros Hb Hb' Hc Hc' E.
  assert (a * m + b = a' * m + b') as E2.
  { assert ((a * m + b - (a' * m + b')) * n = c' - c) by lia. nia. }
  assert (a = a') by (assert ((a - a') * m = b' - b) by lia; nia). nia.
Qed.

Lemma localHash_inj l l' : local_ok sc l -> local_ok sc l' ->
  getLocalIndexHash sc l = getLocalIndexHash sc l' -> l = l'.
Proof.
  intros (? & ? & ?) (? & ? & ?) E. unfold getLocalIndexHash in E; simpl in E.
  rewrite size_y, size_z in E. apply mixed_radix_inj in E as (? & ? & ?); [|lia..].
  destruct l, l'; simpl in *; f_equal; lia.
Qed.

Lemma hashIdToLocalIndex_hash l : local_ok sc l -> hashIdToLocalIndex sc (getLocalIndexHash sc l) = l.
Proof.
  intros (Hx & Hy & Hz). destruct half_pos as (? & ? & ?). unfold hashIdToLocalIndex, getLocalIndexHash; simpl.
  rewrite size_y, size_z. set (m := 2 * hy + 1) in *. set (n := 2 * hz + 1) in *.
  set (a := ix l + hx) in *. set (b := iy l + hy) in *. set (c := iz l + hz) in *.
  assert (0 <= a * m) by nia. assert (0 <= a * m * n) by nia. assert (0 <= b * n <= (m - 1) * n) by nia.
  assert (Z.quot (a * m * n + b * n + c) (m * n) = a) as ->.
  { symmetry. apply (Z.quot_unique _ _ _ (b * n + c)); lia. }
  assert (Z.quot (a * m * n + b * n + c - a * m * n) n = b) as ->.
  { symmetry. apply (Z.quot_unique _ _ _ c); lia. }
  unfold idx_sub, idx_zip; simpl. destruct l; simpl in *. f_equal; lia.
Qed.

Lemma hashIdToLocalIndex_ok h : 0 <= h < sc_map_vox_num sc ->
  local_ok sc (hashIdToLocalIndex sc h) /\ getLocalIndexHash sc (hashIdToLocalIndex sc h) = h.
Proof.
  destruct half_pos as (? & ? & ?). rewrite vox_eq. intros Hr.
  unfold hashIdToLocalIndex, getLocalIndexHash, local_ok; simpl. rewrite size_y, size_z.
  set (m := 2 * hy + 1) in *. set (n := 2 * hz + 1) in *.
  pose proof (Z.quot_rem' h (m * n)) as E1. pose proof (Z.rem_bound_pos h (m * n)) as B1.
  set (x := Z.quot h (m * n)) in *. set (r := Z.rem h (m * n)) in *.
  assert (h - x * m * n = r) as -> by lia.
  pose proof (Z.quot_rem' r n) as E2. pose proof (Z.rem_bound_pos r n) as B2.
  set (y := Z.quot r n) in *. set (z := Z.rem r n) in *.
  assert (r - y * n = z) as -> by lia.
  specialize (B1 ltac:(lia) ltac:(nia)). specialize (B2 ltac:(lia) ltac:(lia)).
  assert (0 < m * n) by nia. assert (0 <= x) by nia.
  assert (x < 2 * hx + 1) by (apply (Z.mul_lt_mono_pos_l (m * n)); [done|]; nia).
  assert (0 <= y) by nia. assert (y < m) by (apply (Z.mul_lt_mono_pos_l n); lia). split; lia.
Qed.

Lemma slot_range g : 0 <= getHashIndexFromGlobalIndex sc g < sc_map_vox_num sc.
Proof. apply localHash_range, globalIndexToLocalIndex_ok. Qed.

Lemma window_inside_spec g : insideLocalMap_i sc g = true <->
  Z.abs (ix g - ix (local_map_origin_i sc)) <= hx /\
  Z.abs (iy g - iy (local_map_origin_i sc)) <= hy /\
  Z.abs (iz g - iz (local_map_origin_i sc)) <= hz.
Proof. unfold insideLocalMap_i. rewrite !andb_true_iff, !Z.leb_le. tauto. Qed.

(** Two indices share an address exactly when they differ by whole windows. *)
Lemma hash_eq g g' : getHashIndexFromGlobalIndex sc g = getHashIndexFromGlobalIndex sc g' <->
  ((2 * hx + 1 | ix g - ix g') /\ (2 * hy + 1 | iy g - iy g') /\ (2 * hz + 1 | iz g - iz g')).
Proof.
  destruct half_pos as (Px & Py & Pz).
  rewrite <- (axis_local_eq _ hx Px eq_refl), <- (axis_local_eq _ hy Py eq_refl), <- (axis_local_eq _ hz Pz eq_refl).
  split.
  - intros E%localHash_inj; try apply globalIndexToLocalIndex_ok.
    unfold globalIndexToLocalIndex in E. rewrite size_x, size_y, size_z in E. by injection E as -> -> ->.
  - intros (Ex & Ey & Ez). unfold getHashIndexFromGlobalIndex, globalIndexToLocalIndex.
    rewrite size_x, size_y, size_z. by rewrite Ex, Ey, Ez.
Qed.

Lemma hash_add g g' d : getHashIndexFromGlobalIndex sc g = getHashIndexFromGlobalIndex sc g' ->
  getHashIndexFromGlobalIndex sc (idx_add g d) = getHashIndexFromGlobalIndex sc (idx_add g' d).
Proof.
  rewrite !hash_eq. simpl. intros (Hx & Hy & Hz).
  replace (ix g + ix d - (ix g' + ix d)) with (ix g - ix g') by lia.
  replace (iy g + iy d - (iy g' + iy d)) with (iy g - iy g') by lia.
  by replace (iz g + iz d - (iz g' + iz d)) with (iz g - iz g') by lia.
Qed.

Lemma hash_inside_inj g g' : insideLocalMap_i sc g = true -> insideLocalMap_i sc g' = true ->
  getHashIndexFromGlobalIndex sc g = getHashIndexFromGlobalIndex sc g' -> g = g'.
Proof.
  rewrite !window_inside_spec, hash_eq. destruct half_pos as (? & ? & ?). intros (? & ? & ?) (? & ? & ?) ([k Hk] & [k' Hk'] & [k'' Hk'']).
  assert (k = 0) by nia. assert (k' = 0) by nia. assert (k'' = 0) by nia. destruct g, g'; simpl in *; f_equal; nia.
Qed.

Lemma global_of_hash h : 0 <= h < sc_map_vox_num sc ->
  insideLocalMap_i sc (hashIdToGlobalIndex sc h) = true /\
  getHashIndexFromGlobalIndex sc (hashIdToGlobalIndex sc h) = h.
Proof.
  intros Hr. destruct (hashIdToLocalIndex_ok h Hr) as [(Hx & Hy & Hz) Hl]. destruct half_pos as (Px & Py & Pz).
  unfold hashIdToGlobalIndex. generalize dependent (hashIdToLocalIndex sc h). intros l Hx Hy Hz <-.
  unfold localIndexToGlobalIndex. split.
  - apply window_inside_spec. cbn [ix iy iz]. rewrite size_x, size_y, size_z.
    split_and!; by eapply axis_global_spec.
  - unfold getHashIndexFromGlobalIndex, globalIndexToLocalIndex. cbn [ix iy iz]. rewrite size_x, size_y, size_z.
    rewrite !axis_local_global by done. by destruct l.
Qed.

Lemma hash_of_global g : insideLocalMap_i sc g = true ->
  hashIdToGlobalIndex sc (getHashIndexFromGlobalIndex sc g) = g.
Proof.
  intros Hg. destruct (global_of_hash _ (slot_range g)) as [Hi He]. by apply hash_inside_inj.
Qed.
End Addressing.

(** ** The interface of a derived class *)

(** The configuration, which sliding never changes. *)
Record same_config (a b : SlidingMap) : Prop := {
  cfg_size : sc_map_size_i a = sc_map_size_i b;
  cfg_half : sc_half_map_size_i a = sc_half_map_size_i b;
  cfg_vox : sc_map_vox_num a = sc_map_vox_num b;
  cfg_res : sc_resolution a = sc_resolution b;
  cfg_ceil : sc_virtual_ceil_height_id_g a = sc_virtual_ceil_height_id_g b;
  cfg_ground : sc_virtual_ground_height_id_g a = sc_virtual_ground_height_id_g b;
  cfg_margin : sc_safe_margin_i a = sc_safe_margin_i b
}.

#[export] Instance same_config_equiv : Equivalence same_config.
Proof.
  split; [by constructor|by intros a b []; constructor|].
  intros a b c [] []; constructor; congruence.
Qed.

Lemma same_config_wf a b : same_config a b -> window_wf b -> window_wf a.
Proof. intros [] []; constructor; congruence. Qed.

Lemma same_config_shape a b : same_config a b -> same_shape a b.
Proof. by intros []. Qed.

(** A map that keeps a value per cell, resets cells one at a time and knows what
    a cell without observation looks like. *)
Class SlidingCells (S A : Type) (O : SlidingOps S) : Type := {
  cell : S -> Z -> A;
  fresh : A -> Prop;
  cells_ok : S -> Prop;
  set_base_base b s : sm_base (sm_set_base b s) = b;
  set_base_cell b s k : cell (sm_set_base b s) k = cell s k;
  set_base_ok b s : cells_ok s -> same_config b (sm_base s) -> cells_ok (sm_set_base b s);
  reset_map_spec s : cells_ok s ->
    cells_ok (resetLocalMap s) /\ sm_base (resetLocalMap s) = sm_base s /\
    forall k, 0 <= k < sc_map_vox_num (sm_base s) -> fresh (cell (resetLocalMap s) k);
  reset_cell_spec h s : cells_ok s -> 0 <= h < sc_map_vox_num (sm_base s) ->
    cells_ok (resetCell h s) /\ sm_base (resetCell h s) = sm_base s /\
    fresh (cell (resetCell h s) h) /\
    forall k, 0 <= k -> k <> h -> cell (resetCell h s) k = cell s k
}.

(** ** Sliding *)

Lemma updateLocalMapOriginAndBound_config `{EigenOps} d i sc : same_config (updateLocalMapOriginAndBound d i sc) sc.
Proof. unfold updateLocalMapOriginAndBound. repeat case_match; by constructor. Qed.

Lemma elem_of_clear_cells sc ids i k :
  k ∈ clear_cells sc ids i <->
  exists a x y, a ∈ ids /\ Z.abs x <= idx_at (sc_half_map_size_i sc) ((i + 1) mod 3) /\
    Z.abs y <= idx_at (sc_half_map_size_i sc) ((i + 2) mod 3) /\
    k = getLocalIndexHash sc (idx_of_axes i a x y).
Proof.
  unfold clear_cells, z_range. rewrite list_elem_of_bind. split.
  - intros (a & (x & (y & -> & Hy)%list_elem_of_fmap & Hx)%list_elem_of_bind & Ha).
    apply elem_of_seqZ in Hx, Hy. exists a, x, y. split_and!; [done|lia|lia|done].
  - intros (a & x & y & Ha & Hx & Hy & ->). exists a. split; [|done]. apply list_elem_of_bind.
    exists x. split; [|apply elem_of_seqZ; lia]. apply list_elem_of_fmap. exists y. split; [done|]. apply elem_of_seqZ. lia.
Qed.

Section Slide.
Context `{E : EigenOps} {S A : Type} `{O : SlidingOps S} `{!SlidingCells S A O}.

(** Resetting the cells of a list. *)
Lemma reset_cells_spec L s : cells_ok s -> Forall (fun h => 0 <= h < sc_map_vox_num (sm_base s)) L ->
  let s' := foldl (fun s h => resetCell h s) s L in
  cells_ok s' /\ sm_base s' = sm_base s /\
  forall k, 0 <= k -> (k ∈ L -> fresh (cell s' k)) /\ (k ∉ L -> cell s' k = cell s k).
Proof.
  intros Hok HL. cbv zeta. induction L as [|h L IH] using rev_ind.
  { split_and!; [done..|]. intros k _. split; [by intros ?%not_elem_of_nil|done]. }
  rewrite Forall_app, Forall_singleton in HL. destruct HL as [HL Hh].
  rewrite foldl_app. cbn [foldl]. destruct (IH HL) as (Hok' & Hb & Hk).
  set (s' := foldl _ s L) in *. rewrite <- Hb in Hh.
  destruct (reset_cell_spec h s' Hok' Hh) as (Hok2 & Hb2 & Hf & Hsame).
  split_and!; [done|congruence|]. intros k Hk0. destruct (Hk k Hk0) as [Hk1 Hk2].
  destruct (decide (k = h)) as [->|Hne]; split.
  - done.
  - intros [_ []]%not_elem_of_app. by left.
  - intros [Hin| ->%list_elem_of_singleton]%elem_of_app; [|done]. rewrite Hsame by done. by apply Hk1.
  - intros [Hn _]%not_elem_of_app. rewrite Hsame by done. by apply Hk2.
Qed.

Definition axis3 (i : Z) : Prop := i = 0 \/ i = 1 \/ i = 2.

(** The shift fits the window on every axis. *)
Definition shift_ok (sc : SlidingMap) (shift : GridIndex3) : Prop :=
  Z.abs (ix shift) <= ix (sc_map_size_i sc) /\ Z.abs (iy shift) <= iy (sc_map_size_i sc) /\
  Z.abs (iz shift) <= iz (sc_map_size_i sc).

(** Cells of slice [i] that leave the window. *)
Definition leaves (sc : SlidingMap) (shift : GridIndex3) (i : Z) (g : GridIndex3) : Prop :=
  let h := idx_at (sc_half_map_size_i sc) i in
  let o := idx_at (local_map_origin_i sc) i in
  exists m, Z.abs (m - o) <= h /\ h < Z.abs (m - (o + idx_at shift i)) /\ (2 * h + 1 | idx_at g i - m).

Lemma shift_at sc shift i : axis3 i -> window_wf sc -> shift_ok sc shift ->
  0 <= idx_at (sc_half_map_size_i sc) i /\
  idx_at (sc_map_size_i sc) i = 2 * idx_at (sc_half_map_size_i sc) i + 1 /\
  Z.abs (idx_at shift i) <= idx_at (sc_map_size_i sc) i.
Proof.
  intros Hi Hw (? & ? & ?). pose proof (size_x sc Hw). pose proof (size_y sc Hw). pose proof (size_z sc Hw).
  destruct (half_pos sc Hw) as (? & ? & ?). by destruct Hi as [->|[->| ->]].
Qed.

Lemma local_of_axes sc i a x y : axis3 i ->
  local_ok sc (idx_of_axes i a x y) <->
  (Z.abs a <= idx_at (sc_half_map_size_i sc) i /\
   Z.abs x <= idx_at (sc_half_map_size_i sc) ((i + 1) mod 3) /\
   Z.abs y <= idx_at (sc_half_map_size_i sc) ((i + 2) mod 3)).
Proof.
  intros Hi. unfold local_ok, idx_of_axes, idx_at.
  destruct Hi as [->|[->| ->]]; cbn [Z.eqb Z.add Z.modulo Z.div_eucl Pos.add Z.pos_sub snd ix iy iz]; simpl; lia.
Qed.

Lemma local_at sc i l : axis3 i -> local_ok sc l ->
  Z.abs (idx_at l i) <= idx_at (sc_half_map_size_i sc) i /\
  Z.abs (idx_at l ((i + 1) mod 3)) <= idx_at (sc_half_map_size_i sc) ((i + 1) mod 3) /\
  Z.abs (idx_at l ((i + 2) mod 3)) <= idx_at (sc_half_map_size_i sc) ((i + 2) mod 3).
Proof. intros Hi (? & ? & ?). unfold idx_at. destruct Hi as [->|[->| ->]]; simpl; lia. Qed.

Lemma slide_ids_spec sc shift i a : axis3 i -> window_wf sc -> shift_ok sc shift -> idx_at shift i <> 0 ->
  a ∈ slide_clear_ids sc i (idx_at shift i) <->
  exists m, Z.abs (m - idx_at (local_map_origin_i sc) i) <= idx_at (sc_half_map_size_i sc) i /\
    idx_at (sc_half_map_size_i sc) i < Z.abs (m - (idx_at (local_map_origin_i sc) i + idx_at shift i)) /\
    a = axis_local (idx_at (sc_map_size_i sc) i) (idx_at (sc_half_map_size_i sc) i) m.
Proof.
  intros Hi Hw Hs Hn. destruct (shift_at sc shift i Hi Hw Hs) as (Hp & Hsz & Hb).
  by apply (leaving_slices _ _ Hp Hsz).
Qed.

(** The cells one turn of the clearing loop visits. *)
Lemma slide_cells_spec sc shift i g : axis3 i -> window_wf sc -> shift_ok sc shift -> idx_at shift i <> 0 ->
  getHashIndexFromGlobalIndex sc g ∈ clear_cells sc (slide_clear_ids sc i (idx_at shift i)) i <-> leaves sc shift i g.
Proof.
  intros Hi Hw Hs Hn. destruct (shift_at sc shift i Hi Hw Hs) as (Hp & Hsz & Hb).
  rewrite elem_of_clear_cells. pose proof (globalIndexToLocalIndex_ok sc Hw g) as Hl. split.
  - intros (a & x & y & Ha & Hx & Hy & Eh). apply (slide_ids_spec sc shift i a Hi Hw Hs Hn) in Ha as (m & H1 & H2 & ->).
    pose proof (axis_local_spec _ _ Hp Hsz m) as [Hal _].
    apply localHash_inj in Eh; [|done|done|by apply local_of_axes; [done|split_and!; lia]].
    exists m. split_and!; [done..|]. rewrite <- Hsz. apply (axis_local_eq _ _ Hp Hsz).
    destruct Hi as [->|[->| ->]]; unfold globalIndexToLocalIndex, idx_of_axes in Eh; cbn in Eh |- *; by injection Eh.
  - intros (m & H1 & H2 & H3). rewrite <- Hsz in H3. apply (axis_local_eq _ _ Hp Hsz) in H3.
    set (l := globalIndexToLocalIndex sc g) in *.
    exists (idx_at l i), (idx_at l ((i + 1) mod 3)), (idx_at l ((i + 2) mod 3)).
    destruct (local_at sc i l Hi Hl) as (_ & Hl1 & Hl2). split_and!; [|done|done|].
    + apply (slide_ids_spec sc shift i _ Hi Hw Hs Hn). exists m. split_and!; [done..|]. rewrite <- H3.
      by destruct Hi as [->|[->| ->]].
    + unfold getHashIndexFromGlobalIndex. fold l. f_equal. destruct l. by destruct Hi as [->|[->| ->]].
Qed.

Lemma clear_cells_range sc shift i k : axis3 i -> window_wf sc -> shift_ok sc shift -> idx_at shift i <> 0 ->
  k ∈ clear_cells sc (slide_clear_ids sc i (idx_at shift i)) i -> 0 <= k < sc_map_vox_num sc.
Proof.
  intros Hi Hw Hs Hn. destruct (shift_at sc shift i Hi Hw Hs) as (Hp & Hsz & Hb).
  rewrite elem_of_clear_cells. intros (a & x & y & Ha & Hx & Hy & ->).
  apply (slide_ids_spec sc shift i a Hi Hw Hs Hn) in Ha as (m & _ & _ & ->).
  pose proof (axis_local_spec _ _ Hp Hsz m) as [Hal _].
  apply localHash_range; [done|]. apply local_of_axes; [done|]. split_and!; lia.
Qed.

(** ** From one axis to the window *)

Lemma leaves_dec sc shift i g : axis3 i -> window_wf sc -> shift_ok sc shift -> Decision (leaves sc shift i g).
Proof.
  intros Hi Hw Hs. destruct (decide (idx_at shift i = 0)) as [E0|Hn].
  - right. intros (m & H1 & H2 & _). rewrite E0 in H2. lia.
  - destruct (decide (getHashIndexFromGlobalIndex sc g ∈
      clear_cells sc (slide_clear_ids sc i (idx_at shift i)) i)) as [Hin|Hin];
      rewrite slide_cells_spec in Hin by done; [by left|by right].
Qed.

Lemma leaves_ext a b shift i g : same_config a b -> local_map_origin_i a = local_map_origin_i b ->
  leaves a shift i g -> leaves b shift i g.
Proof. intros [] Ho (m & Hm). exists m. rewrite <- cfg_half0, <- Ho. done. Qed.

(** Same configuration and same origin. *)
Definition same_window (a b : SlidingMap) : Prop :=
  same_config a b /\ local_map_origin_i a = local_map_origin_i b.

Lemma set_cleared_spec n s : cells_ok s ->
  cells_ok (set_cleared n s) /\ same_window (sm_base (set_cleared n s)) (sm_base s) /\
  forall k, cell (set_cleared n s) k = cell s k.
Proof.
  intros Hok. unfold set_cleared, same_window. rewrite set_base_base. split_and!.
  - apply set_base_ok; [done|]. by constructor.
  - by constructor.
  - done.
  - intros k. apply set_base_cell.
Qed.

Lemma slide_axis_spec shift s i : axis3 i -> cells_ok s -> window_wf (sm_base s) -> shift_ok (sm_base s) shift ->
  let s' := slide_axis shift s i in
  cells_ok s' /\ same_window (sm_base s') (sm_base s) /\
  forall g, let k := getHashIndexFromGlobalIndex (sm_base s) g in
    (leaves (sm_base s) shift i g -> fresh (cell s' k)) /\
    (~ leaves (sm_base s) shift i g -> cell s' k = cell s k).
Proof.
  intros Hi Hok Hw Hs. cbv zeta. unfold slide_axis. destruct (Z.eqb_spec (idx_at shift i) 0) as [E0|Hn].
  { split_and!; [done|done|]. intros g. split; [|done]. intros (m & H1 & H2 & _). rewrite E0 in H2. lia. }
  set (n := u64_add _ _). destruct (set_cleared_spec n s Hok) as (Hok1 & [Hc1 Ho1] & Hk1).
  unfold clearMemoryOutOfMap.
  assert (clear_cells (sm_base (set_cleared n s)) (slide_clear_ids (sm_base s) i (idx_at shift i)) i =
    clear_cells (sm_base s) (slide_clear_ids (sm_base s) i (idx_at shift i)) i) as ->.
  { unfold clear_cells, getLocalIndexHash. by rewrite (cfg_half _ _ Hc1), (cfg_size _ _ Hc1). }
  destruct (reset_cells_spec (clear_cells (sm_base s) (slide_clear_ids (sm_base s) i (idx_at shift i)) i)
    (set_cleared n s) Hok1) as (Hok2 & Hb2 & Hk2).
  { apply Forall_forall. intros k Hk. rewrite (cfg_vox _ _ Hc1). by eapply clear_cells_range. }
  split_and!; [done|by rewrite Hb2|].
  intros g. destruct (Hk2 (getHashIndexFromGlobalIndex (sm_base s) g)) as [Hin Hout]; [by apply slot_range|].
  rewrite slide_cells_spec in Hin, Hout by done. rewrite Hk1 in Hout. by split.
Qed.

Definition leaves_any (sc : SlidingMap) (shift : GridIndex3) (g : GridIndex3) : Prop :=
  leaves sc shift 0 g \/ leaves sc shift 1 g \/ leaves sc shift 2 g.

Lemma slide_axes_spec shift l s : Forall axis3 l -> cells_ok s -> window_wf (sm_base s) -> shift_ok (sm_base s) shift ->
  let s' := foldl (slide_axis shift) s l in
  cells_ok s' /\ same_window (sm_base s') (sm_base s) /\
  forall g, let k := getHashIndexFromGlobalIndex (sm_base s) g in
    (Exists (fun i => leaves (sm_base s) shift i g) l -> fresh (cell s' k)) /\
    (~ Exists (fun i => leaves (sm_base s) shift i g) l -> cell s' k = cell s k).
Proof.
  intros Hl Hok Hw Hs. cbv zeta. induction l as [|i l IH] using rev_ind.
  { split_and!; try done. intros g. split; [by intros ?%Exists_nil|done]. }
  rewrite Forall_app, Forall_singleton in Hl. destruct Hl as [Hl Hi].
  destruct (IH Hl) as (Hok1 & Hsw & Hk1). rewrite foldl_app. cbn [foldl].
  set (s1 := foldl _ s l) in *. destruct Hsw as [Hc1 Ho1].
  assert (window_wf (sm_base s1)) as Hw1 by by eapply same_config_wf.
  assert (shift_ok (sm_base s1) shift) as Hs1 by (unfold shift_ok in *; by rewrite (cfg_size _ _ Hc1)).
  destruct (slide_axis_spec shift s1 i Hi Hok1 Hw1 Hs1) as (Hok2 & [Hc2 Ho2] & Hk2).
  split_and!; [done|split; [by transitivity (sm_base s1)|congruence]|]. intros g.
  specialize (Hk1 g) as [Hin1 Hout1]. specialize (Hk2 g) as [Hin2 Hout2].
  rewrite (hash_same_shape _ (sm_base s)) in Hin2, Hout2 by by apply same_config_shape.
  rewrite Exists_app, Exists_cons, Exists_nil.
  destruct (leaves_dec (sm_base s1) shift i g Hi Hw1 Hs1) as [Hlv|Hlv].
  - split; [by intros _; apply Hin2|]. intros Hno. exfalso. apply Hno. right; left. by eapply leaves_ext.
  - rewrite (Hout2 Hlv). split.
    + intros [He|[Hlv'|[]]]; [by apply Hin1|]. exfalso. apply Hlv.
      apply (leaves_ext (sm_base s)); [by symmetry|done|done].
    + intros Hno. apply Hout1. tauto.
Qed.

(** An index of the new window leaves the old one exactly when its cell is cleared. *)
Lemma leaves_new_window sc o shift g : window_wf sc -> shift_ok sc shift ->
  o = idx_add (local_map_origin_i sc) shift ->
  insideLocalMap_i (sc <| local_map_origin_i := o |>) g = true ->
  Exists (fun i => leaves sc shift i g) [0; 1; 2] <-> insideLocalMap_i sc g = false.
Proof.
  intros Hw (Sx & Sy & Sz) -> Hnew. destruct (half_pos sc Hw) as (Px & Py & Pz).
  rewrite size_x in Sx by done. rewrite size_y in Sy by done. rewrite size_z in Sz by done.
  apply window_inside_spec in Hnew. simpl in Hnew. destruct Hnew as (Nx & Ny & Nz).
  rewrite <- not_true_iff_false, window_inside_spec, !Exists_cons, Exists_nil. unfold leaves; simpl. split.
  - assert (forall h a m o s, 0 <= h -> Z.abs (a - (o + s)) <= h -> Z.abs (a - o) <= h -> Z.abs (m - o) <= h ->
      h < Z.abs (m - (o + s)) -> (2 * h + 1 | a - m) -> False) as Hcl.
    { intros h a m o s Hh H1 H2 H3 H4 Hd%(axis_local_eq _ h Hh eq_refl).
      rewrite (axis_local_window _ h Hh eq_refl o a m H2 H3 Hd) in H1. lia. }
    intros [(m & ? & ? & ?)|[(m & ? & ? & ?)|[(m & ? & ? & ?)|[]]]] (Ox & Oy & Oz); eauto.
  - assert (forall h a o s, 0 <= h -> Z.abs (a - (o + s)) <= h -> h < Z.abs (a - o) -> Z.abs s <= 2 * h + 1 ->
      exists m, Z.abs (m - o) <= h /\ h < Z.abs (m - (o + s)) /\ (2 * h + 1 | a - m)) as Hen.
    { intros h a o s Hh H1 H2 H3. destruct (entering_slice _ h Hh eq_refl o s a H1 H2 H3) as (_ & m & ? & ? & Hm).
      exists m. split_and!; [done..|]. by apply (axis_local_eq _ h Hh eq_refl). }
    intros Hout. destruct (Z.le_gt_cases (Z.abs (ix g - ix (local_map_origin_i sc))) (ix (sc_half_map_size_i sc)));
      [|left; apply (Hen _ (ix g)); done].
    destruct (Z.le_gt_cases (Z.abs (iy g - iy (local_map_origin_i sc))) (iy (sc_half_map_size_i sc)));
      [|right; left; apply (Hen _ (iy g)); done].
    right; right; left. apply (Hen _ (iz g)); [done..| |done]. cbn in Hout |- *. lia.
Qed.

Definition window_of (sc : SlidingMap) (o : GridIndex3) : SlidingMap := sc <| local_map_origin_i := o |>.

(** A shift beyond the window leaves nothing of it. *)
Lemma far_windows_disjoint sc o g : window_wf sc ->
  shift_too_far (sc_map_size_i sc) (idx_sub o (local_map_origin_i sc)) = true ->
  insideLocalMap_i (window_of sc o) g = true -> insideLocalMap_i sc g = false.
Proof.
  intros Hw. unfold shift_too_far. rewrite size_x, size_y, size_z by done. cbn. rewrite !orb_true_iff, !Z.ltb_lt.
  intros Hfar Hnew%window_inside_spec. apply not_true_iff_false. rewrite window_inside_spec. cbn in *. lia.
Qed.

Lemma near_shift_ok sc shift : shift_too_far (sc_map_size_i sc) shift = false -> shift_ok sc shift.
Proof. unfold shift_too_far, shift_ok. rewrite !orb_false_iff, !Z.ltb_ge. tauto. Qed.

Lemma idx_add_sub a b : idx_add a (idx_sub b a) = b.
Proof. destruct a, b; unfold idx_add, idx_sub, idx_zip; simpl. f_equal; lia. Qed.

(** The window the code moves to, when its bounds are machine integers. *)
Definition window_fits (sc : SlidingMap) (o : GridIndex3) : bool :=
  has (checkedIndexOffset o (sc_half_map_size_i sc)) && has (checkedIndexOffset o (idx_neg (sc_half_map_size_i sc))).

Lemma updateLocalMapOriginAndBound_origin d o sc : window_fits sc o = true ->
  local_map_origin_i (updateLocalMapOriginAndBound d o sc) = o.
Proof. unfold window_fits, updateLocalMapOriginAndBound. by repeat case_match. Qed.

(** The cells before the window moves. *)
Lemma slide_cells o s : cells_ok s -> window_wf (sm_base s) ->
  let shift := idx_sub o (local_map_origin_i (sm_base s)) in
  let s' := if shift_too_far (sc_map_size_i (sm_base s)) shift
            then set_cleared (sc_map_vox_num (sm_base (resetLocalMap s))) (resetLocalMap s)
            else foldl (slide_axis shift) s [0; 1; 2] in
  cells_ok s' /\ same_window (sm_base s') (sm_base s) /\
  forall g, insideLocalMap_i (window_of (sm_base s) o) g = true ->
    let k := getHashIndexFromGlobalIndex (sm_base s) g in
    if insideLocalMap_i (sm_base s) g then cell s' k = cell s k else fresh (cell s' k).
Proof.
  intros Hok Hw. cbv zeta. destruct (shift_too_far _ _) eqn:Efar.
  - destruct (reset_map_spec s Hok) as (Hok1 & Hb1 & Hf1).
    destruct (set_cleared_spec (sc_map_vox_num (sm_base (resetLocalMap s))) _ Hok1) as (Hok2 & Hw2 & Hk2).
    rewrite Hb1 in Hw2 at 2. split_and!; [done|done|]. intros g Hg.
    rewrite (far_windows_disjoint _ o) by done. rewrite Hk2. apply Hf1. by apply slot_range.
  - pose proof (near_shift_ok _ _ Efar) as Hs.
    destruct (slide_axes_spec _ [0; 1; 2] s ltac:(repeat constructor; unfold axis3; lia) Hok Hw Hs) as (Hok1 & Hw1 & Hk1).
    split_and!; [done|done|]. intros g Hg. destruct (Hk1 g) as [Hin Hout].
    rewrite (leaves_new_window _ o) in Hin, Hout by (done || by rewrite idx_add_sub).
    destruct (insideLocalMap_i (sm_base s) g); [by apply Hout|by apply Hin].
Qed.

(** Sliding a well-formed map. *)
Lemma mapSliding_config odom s : cells_ok s -> window_wf (sm_base s) ->
  cells_ok (mapSliding odom s) /\ same_config (sm_base (mapSliding odom s)) (sm_base s).
Proof.
  intros Hok Hw. unfold mapSliding. destruct (set_cleared_spec 0 s Hok) as (Hok1 & [Hc1 Ho1] & Hk1).
  destruct (indexFromPosition _ _) as [o|]; [|done].
  assert (window_wf (sm_base (set_cleared 0 s))) as Hw1 by by eapply same_config_wf.
  destruct (slide_cells o _ Hok1 Hw1) as (Hok2 & [Hc2 Ho2] & Hk2). cbv zeta in *.
  rewrite set_base_base. split.
  - apply set_base_ok; [done|]. apply updateLocalMapOriginAndBound_config.
  - etransitivity; [apply updateLocalMapOriginAndBound_config|]. by etransitivity.
Qed.
End Slide.

(** C7. After a slide every cell of the new window that was inside the old one keeps
    its content and every other cell is fresh, for every map built on the window. *)
Theorem mapSliding_restricts `{EigenOps} {S A : Type} `{O : SlidingOps S} `{!SlidingCells S A O} odom s o :
  cells_ok s -> window_wf (sm_base s) ->
  indexFromPosition odom (sc_resolution (sm_base s)) = Some o -> window_fits (sm_base s) o = true ->
  let s' := mapSliding odom s in
  local_map_origin_i (sm_base s') = o /\
  forall g, insideLocalMap_i (sm_base s') g = true ->
    if insideLocalMap_i (sm_base s) g
    then cell s' (getHashIndexFromGlobalIndex (sm_base s') g) = cell s (getHashIndexFromGlobalIndex (sm_base s) g)
    else fresh (cell s' (getHashIndexFromGlobalIndex (sm_base s') g)).
Proof.
  intros Hok Hw Ho Hfit. cbv zeta. destruct (mapSliding_config odom s Hok Hw) as [_ Hcfg].
  destruct (set_cleared_spec 0 s Hok) as (Hok1 & [Hc1 Ho1] & Hk1).
  revert Hcfg. unfold mapSliding. rewrite (cfg_res _ _ Hc1), Ho, set_base_base.
  assert (window_wf (sm_base (set_cleared 0 s))) as Hw1 by by eapply same_config_wf.
  destruct (slide_cells o _ Hok1 Hw1) as (Hok2 & [Hc2 Ho2] & Hk2). cbv zeta in *.
  set (s2 := if shift_too_far _ _ then _ else _) in *. intros Hcfg.
  assert (local_map_origin_i (updateLocalMapOriginAndBound
    (v_scale (sc_resolution (sm_base s)) (idx_cast o)) o (sm_base s2)) = o) as Hor.
  { apply updateLocalMapOriginAndBound_origin. revert Hfit. unfold window_fits.
    by rewrite (cfg_half _ _ Hc2), (cfg_half _ _ Hc1). }
  split; [done|]. intros g Hg. rewrite set_base_cell.
  rewrite (hash_same_shape _ (sm_base s)) by by apply same_config_shape.
  assert (insideLocalMap_i (window_of (sm_base (set_cleared 0 s)) o) g = true) as Hg'.
  { revert Hg. unfold insideLocalMap_i. rewrite Hor, (cfg_half _ _ Hcfg). cbn. by rewrite (cfg_half _ _ Hc1). }
  specialize (Hk2 g Hg'). rewrite (hash_same_shape _ (sm_base s)) in Hk2 by by apply same_config_shape.
  rewrite Hk1 in Hk2. revert Hk2. unfold insideLocalMap_i. by rewrite Ho1, (cfg_half _ _ Hc1).
Qed.

(** C9. The addresses of the window and the cells inside it are the same thing:
    every cell inside has an address in the buffer, every address is the address
    of exactly one cell inside, and each conversion undoes the other. *)
Theorem window_addressing_bijective sc : window_wf sc ->
  (forall g, insideLocalMap_i sc g = true ->
     0 <= getHashIndexFromGlobalIndex sc g < sc_map_vox_num sc /\
     hashIdToGlobalIndex sc (getHashIndexFromGlobalIndex sc g) = g) /\
  (forall h, 0 <= h < sc_map_vox_num sc ->
     insideLocalMap_i sc (hashIdToGlobalIndex sc h) = true /\
     getHashIndexFromGlobalIndex sc (hashIdToGlobalIndex sc h) = h).
Proof.
  intros Hw. split; [|intros h; by apply global_of_hash].
  intros g Hg. split; [by apply slot_range|by apply hash_of_global].
Qed.

(** A window of three by five by seven cells that does not start at the origin. *)
Definition demo_window : SlidingMap :=
  match @initSlidingMap eigen_reference (Idx 1 2 3) (f64_lit 1 2) true fzero
          (Vec3 (f64_of_Z (-9)) (f64_of_Z 4) (f64_of_Z 1)) SlidingMap_default with
  | inr sc => sc
  | inl _ => SlidingMap_default
  end.

Lemma window_addressing_bijective_witness :
  hashIdToGlobalIndex demo_window (getHashIndexFromGlobalIndex demo_window (Idx (-19) 10 (-1))) = Idx (-19) 10 (-1).
Proof.
  refine (proj2 (proj1 (window_addressing_bijective demo_window _) (Idx (-19) 10 (-1)) _)); [|vm_compute; reflexivity].
  constructor; vm_compute; done.
Defined.
