(* ===== verification/RogCounter.v ===== *)
(** * The counting maps: sub-cell counters and inflation

    [counter_map.h], [counter_map.cpp], [inf_map.h], [inf_map.cpp] and
    [free_cnt_map.h] of [mapping/rog_map_vendor].  A [CounterMap] counts, per
    coarse cell, how many of its fine cells are occupied and unknown; [InfMap]
    turns every change of a coarse cell into a change of the inflation counters of
    its neighbours.  The pure virtual members of [CounterMap] are the class
    [CounterOps].  Counters are [int16_t] and wrap on store ([int16]).  The
    consistency checks of [COUNTER_MAP_DEBUG], printing and timing are left out;
    that build flag is not set. *)
From S2P Require Import Prelude Float64 Geometry WorldGrid MapSnapshot RecordUpdate RogSliding.

(** * Configuration of the voxel map

    [mapping/rog_map_vendor/.../config.hpp]: the members the map reads, the
    validation of a loaded configuration and the derivation of the grid extents
    ([ORIGIN_AT_CORNER]).  Reading the YAML file, the logarithms of the
    probabilities and the sorted neighbour tables are done by the constructor
    before or after these two functions; here they are members like any other. *)

Record Config : Type := mkConfig {
  esdf_en : bool;
  esdf_resolution : f64;
  esdf_local_update_box : vec3;
  cf_resolution : f64;
  inflation_resolution : f64;
  inflation_step : Z;
  local_update_box_d : vec3;
  half_local_update_box_d : vec3;
  local_update_box_i : GridIndex3;
  half_local_update_box_i : GridIndex3;
  map_size_d : vec3;
  half_map_size_d : vec3;
  inf_half_map_size_i : GridIndex3;
  half_map_size_i : GridIndex3;
  fro_half_map_size_i : GridIndex3;
  virtual_ground_ceiling_en : bool;
  virtual_ceil_height : f64;
  virtual_ground_height : f64;
  inf_virtual_ceil_height_id_g : Z;
  inf_virtual_ground_height_id_g : Z;
  frontier_extraction_en : bool;
  raycasting_en : bool;
  ros_callback_en : bool;
  inf_spherical_neighbor : list GridIndex3;
  unk_inf_spherical_neighbor : list GridIndex3;
  spherical_neighbor : list GridIndex3;
  intensity_thresh : Z;
  map_sliding_en : bool;
  fix_map_origin : vec3;
  raycast_range_min : f64;
  raycast_range_max : f64;
  sqr_raycast_range_min : f64;
  sqr_raycast_range_max : f64;
  point_filt_num : Z;
  batch_update_size : Z;
  p_hit : f32; p_miss : f32; p_min : f32; p_max : f32; p_occ : f32; p_free : f32;
  l_hit : f32; l_miss : f32; l_min : f32; l_max : f32; l_occ : f32; l_free : f32;
  unk_inflation_en : bool;
  unk_inflation_step : Z;
  odom_timeout : f64;
  unk_thresh : f64;
  map_sliding_thresh : f64
}.

#[export] Instance Config_eta : Eta Config := fun c =>
  mkConfig (esdf_en c) (esdf_resolution c) (esdf_local_update_box c) (cf_resolution c)
    (inflation_resolution c) (inflation_step c) (local_update_box_d c)
    (half_local_update_box_d c) (local_update_box_i c) (half_local_update_box_i c)
    (map_size_d c) (half_map_size_d c) (inf_half_map_size_i c) (half_map_size_i c)
    (fro_half_map_size_i c) (virtual_ground_ceiling_en c) (virtual_ceil_height c)
    (virtual_ground_height c) (inf_virtual_ceil_height_id_g c)
    (inf_virtual_ground_height_id_g c) (frontier_extraction_en c) (raycasting_en c)
    (ros_callback_en c) (inf_spherical_neighbor c) (unk_inf_spherical_neighbor c)
    (spherical_neighbor c) (intensity_thresh c) (map_sliding_en c) (fix_map_origin c)
    (raycast_range_min c) (raycast_range_max c) (sqr_raycast_range_min c)
    (sqr_raycast_range_max c) (point_filt_num c) (batch_update_size c)
    (p_hit c) (p_miss c) (p_min c) (p_max c) (p_occ c) (p_free c)
    (l_hit c) (l_miss c) (l_min c) (l_max c) (l_occ c) (l_free c)
    (unk_inflation_en c) (unk_inflation_step c) (odom_timeout c) (unk_thresh c)
    (map_sliding_thresh c).

(** ** Validation *)

Definition kMaximumGeneratedNeighborCells : f80 := f80_of_Z 8000000.
Definition kMaximumGridCells : f80 := f80_of_Z 128000000.
Definition kMaximumHalfExtent : f80 := f80_of_Z 1000000.

Definition positiveFinite (value : f64) : bool := isfinite value && fgt value fzero.
Definition nonNegativeFinite (value : f64) : bool := isfinite value && fge value fzero.

Definition int_range (index : f80) : bool :=
  isfinite index && fge index (f80_of_Z i32_min) && fle index (f80_of_Z i32_max).

Definition indexRepresentable (coordinate grid_resolution : f80) : bool :=
  if negb (isfinite coordinate) || negb (isfinite grid_resolution) || fle grid_resolution fzero
  then false
  else int_range (f80_floor (f80_div coordinate grid_resolution)).

Definition neighborBudgetValid (step : f80) : bool :=
  if negb (isfinite step) || flt step fzero || fgt step (f80_of_Z 99) then false
  else
    let side := f80_add (f80_mul (f80_of_Z 2) step) (f80_of_Z 1) in
    fle (f80_mul (f80_mul side side) side) kMaximumGeneratedNeighborCells.

(** [float] values strictly between 0 and 1 *)
Definition probability (value : f32) : bool :=
  isfinite value && fgt value fzero && flt value (f64_of_Z 1).

(** One axis of the grid extents: [None] when they exceed the envelope, [Some]
    the side of the probability map. *)
Definition axis_extent (map_size local_box : f64) (resolution inflationResolution inflationRatioReal : f80)
    (maxInflationStep : Z) : option f80 :=
  let half := f80_mul (f80_of_f64 map_size) (f80_lit 1 2) in
  let cells := f80_ceil (f80_div half inflationResolution) in
  let infHalf := f80_add cells (f80_of_Z (maxInflationStep + 1)) in
  let localHalf := f80_ceil (f80_div (f80_mul (f80_of_f64 local_box) (f80_lit 1 2)) resolution) in
  if negb (isfinite infHalf) || negb (isfinite localHalf) || flt infHalf fzero
     || flt localHalf fzero || fgt infHalf kMaximumHalfExtent || fgt localHalf kMaximumHalfExtent
  then None
  else Some (f80_add (f80_mul (f80_mul (f80_of_Z 2) (f80_sub cells (f80_of_Z 1))) inflationRatioReal)
                     (f80_of_Z 1)).

Section Validation.
Context `{EigenOps}.

(** [true] when it does not throw. *)
Definition validateConfiguration (c : Config) : bool :=
  let resolution := f80_of_f64 (cf_resolution c) in
  let inflationRatioReal := f80_ceil (f80_div (f80_of_f64 (inflation_resolution c)) resolution) in
  let nearestSearchStepReal := f80_ceil (f80_div (f80_of_Z 5) resolution) in
  let maxInflationStep := Z.max (inflation_step c) (unk_inflation_step c) in
  let inflationResolution := f80_mul resolution inflationRatioReal in
  let extent a b := axis_extent a b resolution inflationResolution inflationRatioReal maxInflationStep in
  positiveFinite (cf_resolution c) && positiveFinite (inflation_resolution c)
  && negb (flt (inflation_resolution c) (cf_resolution c)) && (0 <? inflation_step c)
  && (0 <? unk_inflation_step c) && v_allFinite (map_size_d c)
  && forallb (fun x => negb (fle x fzero)) (v_coeffs (map_size_d c)) && v_allFinite (fix_map_origin c)
  && isfinite inflationRatioReal && negb (flt inflationRatioReal (f80_of_Z 1))
  && negb (fgt inflationRatioReal (f80_of_Z 99))
  && neighborBudgetValid (f80_of_Z (inflation_step c))
  && neighborBudgetValid (f80_of_Z (unk_inflation_step c))
  && neighborBudgetValid nearestSearchStepReal
  && isfinite inflationResolution && negb (fgt inflationResolution (f80_of_f64 f64_max))
  && match extent (vx (map_size_d c)) (vx (local_update_box_d c)),
           extent (vy (map_size_d c)) (vy (local_update_box_d c)),
           extent (vz (map_size_d c)) (vz (local_update_box_d c)) with
     | Some x, Some y, Some z =>
         forallb (fun s => negb (fle s fzero) && isfinite s) [x; y; z]
         && negb (fgt (f80_mul (f80_mul x y) z) kMaximumGridCells)
     | _, _, _ => false
     end
  && (negb (map_sliding_en c) || positiveFinite (map_sliding_thresh c))
  && nonNegativeFinite (map_sliding_thresh c)
  && (0 <? point_filt_num c) && (0 <? batch_update_size c)
  && negb (ros_callback_en c && negb (positiveFinite (odom_timeout c)))
  && negb (esdf_en c && (negb (positiveFinite (esdf_resolution c))
                         || negb (v_allFinite (esdf_local_update_box c))
                         || existsb (fun x => fle x fzero) (v_coeffs (esdf_local_update_box c))))
  && v_allFinite (local_update_box_d c)
  && forallb (fun x => negb (fle x fzero)) (v_coeffs (local_update_box_d c))
  && isfinite (raycast_range_min c) && negb (flt (raycast_range_min c) fzero)
  && isfinite (raycast_range_max c) && negb (fle (raycast_range_max c) (raycast_range_min c))
  && forallb probability [p_min c; p_max c; p_hit c; p_miss c; p_occ c; p_free c]
  && flt (p_min c) (p_free c) && flt (p_free c) (p_occ c) && flt (p_occ c) (p_max c)
  && flt (p_miss c) lit_half && fgt (p_hit c) lit_half
  && isfinite (unk_thresh c) && negb (flt (unk_thresh c) fzero) && negb (fgt (unk_thresh c) (f64_of_Z 1))
  && isfinite (virtual_ground_height c) && isfinite (virtual_ceil_height c)
  && negb (fge (virtual_ground_height c) (virtual_ceil_height c))
  && forallb (fun x => indexRepresentable (f80_of_f64 x) resolution) (v_coeffs (fix_map_origin c))
  && indexRepresentable (f80_of_f64 (virtual_ground_height c)) (f80_of_f64 (inflation_resolution c))
  && indexRepresentable (f80_of_f64 (virtual_ceil_height c)) (f80_of_f64 (inflation_resolution c)).

(** [v.cast<int>()] *)
Definition v_cast_int (v : vec3) : GridIndex3 := Idx (SF_trunc (vx v)) (SF_trunc (vy v)) (SF_trunc (vz v)).

(** The indices of the virtual planes in the inflated map, before the heights
    are recomputed from them. *)
Definition virtual_plane_indices (c : Config) (inflation_res : f64) : option (Z * Z) :=
  let r := f80_of_f64 inflation_res in
  let final_ceil_index :=
    f80_sub (f80_floor (f80_div (f80_of_f64 (virtual_ceil_height c)) r)) (f80_of_Z (inflation_step c)) in
  let final_ground_index :=
    f80_add (f80_floor (f80_div (f80_of_f64 (virtual_ground_height c)) r)) (f80_of_Z (inflation_step c)) in
  if negb (int_range final_ceil_index) || negb (int_range final_ground_index) then None
  else Some (SF_trunc final_ceil_index, SF_trunc final_ground_index).

Definition virtual_plane_heights (ceil_id ground_id : Z) (inflation_res : f64) : option (f64 * f64) :=
  let r := f80_of_f64 inflation_res in
  let half := f80_mul (f80_lit 1 2) r in
  let final_ceil_height := f80_sub (f80_mul (f80_of_Z ceil_id) r) half in
  let final_ground_height := f80_add (f80_mul (f80_of_Z ground_id) r) half in
  if negb (isfinite final_ceil_height) || negb (isfinite final_ground_height)
     || fge final_ground_height final_ceil_height
     || flt final_ground_height (f80_of_f64 (fopp f64_max))
     || fgt final_ceil_height (f80_of_f64 f64_max)
  then None
  else Some (f64_of_f80 final_ceil_height, f64_of_f80 final_ground_height).

(** [inl] is a throw. *)
Definition resetMapSize (c : Config) : rog_error + Config :=
  if negb (validateConfiguration c) then inl rog_invalid_argument
  else
    let resolution := f80_of_f64 (cf_resolution c) in
    let inflation_ratio := SF_trunc (f80_ceil (f80_div (f80_of_f64 (inflation_resolution c)) resolution)) in
    let derived := f80_mul resolution (f80_of_Z inflation_ratio) in
    if negb (isfinite derived) || fle derived fzero || fgt derived (f80_of_f64 f64_max)
    then inl rog_invalid_argument
    else
      let inflation_res := f64_of_f80 derived in
      if negb (isfinite inflation_res) || fle inflation_res fzero then inl rog_invalid_argument
      else
        let half_d := v_div (map_size_d c) (f64_of_Z 2) in
        let max_step :=
          if negb (unk_inflation_en c) then inflation_step c
          else Z.max (inflation_step c) (unk_inflation_step c) in
        let margin := idx_scale (max_step + 1) (idx_constant 1) in
        let inf_half_i := idx_add (v_cast_int (v_div half_d inflation_res)) margin in
        let half_i := idx_scale inflation_ratio (idx_sub inf_half_i margin) in
        let fro_half_i :=
          if frontier_extraction_en c then idx_add half_i (idx_constant 1) else fro_half_map_size_i c in
        let size_d :=
          v_scale (cf_resolution c) (idx_cast (idx_add (idx_scale 2 half_i) (idx_constant 1))) in
        let half_box_d := v_div (local_update_box_d c) (f64_of_Z 2) in
        let half_box_i := v_cast_int (v_div half_box_d (cf_resolution c)) in
        let box_i := idx_add (idx_scale 2 half_box_i) (idx_constant 1) in
        match virtual_plane_indices c inflation_res with
        | None => inl rog_invalid_argument
        | Some (ceil_id, ground_id) =>
            match virtual_plane_heights ceil_id ground_id inflation_res with
            | None => inl rog_invalid_argument
            | Some (ceil_height, ground_height) =>
                inr (c <| inflation_resolution := inflation_res |>
                       <| inf_half_map_size_i := inf_half_i |>
                       <| half_map_size_i := half_i |>
                       <| fro_half_map_size_i := fro_half_i |>
                       <| map_size_d := size_d |>
                       <| half_map_size_d := v_div size_d (f64_of_Z 2) |>
                       <| half_local_update_box_d := half_box_d |>
                       <| half_local_update_box_i := half_box_i |>
                       <| local_update_box_i := box_i |>
                       <| local_update_box_d := v_scale (cf_resolution c) (idx_cast box_i) |>
                       <| inf_virtual_ceil_height_id_g := ceil_id |>
                       <| inf_virtual_ground_height_id_g := ground_id |>
                       <| virtual_ceil_height := ceil_height |>
                       <| virtual_ground_height := ground_height |>)
            end
        end.
End Validation.

(** ** The neighbour tables *)

(** The cube of side [2 step + 1] in the order of the three loops. *)
Definition neighbor_cube (step : Z) : list GridIndex3 :=
  z_range (- step) step ≫= fun dx =>
  z_range (- step) step ≫= fun dy =>
  map (fun dz => Idx dx dy dz) (z_range (- step) step).

Definition idx_sq (d : GridIndex3) : Z := ix d * ix d + iy d * iy d + iz d * iz d.

(** The offsets of an inflation table; [std::sort] then orders them by length. *)
Definition inflation_neighbors (step : Z) : list GridIndex3 :=
  List.filter (fun d => (step =? 1) || (idx_sq d <=? step * step)) (neighbor_cube step).
Definition search_neighbors (max_seach_step : Z) : list GridIndex3 :=
  List.filter (fun d => idx_sq d <=? max_seach_step * max_seach_step) (neighbor_cube max_seach_step).

Inductive GridType : Type := UNDEFINED | UNKNOWN | OUT_OF_MAP | OCCUPIED | KNOWN_FREE | FRONTIER.
#[export] Instance GridType_eq_dec : EqDecision GridType.
Proof. solve_decision. Defined.

(** The value of the enumerator. *)
Definition GridType_value (t : GridType) : Z :=
  match t with
  | UNDEFINED => 0 | UNKNOWN => 1 | OUT_OF_MAP => 2 | OCCUPIED => 3 | KNOWN_FREE => 4 | FRONTIER => 5
  end.

(** ** CounterMap *)

Record CounterMap : Type := mkCounter {
  cm_sliding : SlidingMap;
  cm_map_empty : bool;
  md_occupied_cnt : list Z;
  md_unknown_cnt : list Z;
  md_sub_grid_num : Z;
  md_unk_thresh : Z;
  cm_had_been_initialized : bool
}.

#[export] Instance CounterMap_eta : Eta CounterMap := fun c =>
  mkCounter (cm_sliding c) (cm_map_empty c) (md_occupied_cnt c) (md_unknown_cnt c)
    (md_sub_grid_num c) (md_unk_thresh c) (cm_had_been_initialized c).

(** [v[i] += d] on a vector of [int16_t] *)
Definition cnt_add (i d : Z) (v : list Z) : list Z := vec_set i (int16 (vec_at 0 v i + d)) v.

Definition isUnknown_h (c : CounterMap) (hash_id : Z) : bool :=
  md_unk_thresh c <=? vec_at 0 (md_unknown_cnt c) hash_id.
Definition isOccupied_h (c : CounterMap) (hash_id : Z) : bool :=
  0 <? vec_at 0 (md_occupied_cnt c) hash_id.
Definition isKnownFree_h (c : CounterMap) (hash_id : Z) : bool :=
  (vec_at 0 (md_unknown_cnt c) hash_id <? md_unk_thresh c)
  && (vec_at 0 (md_occupied_cnt c) hash_id =? 0).

Definition isUnknown_i (c : CounterMap) (id_g : GridIndex3) : bool :=
  isUnknown_h c (getHashIndexFromGlobalIndex (cm_sliding c) id_g).
Definition isOccupied_i (c : CounterMap) (id_g : GridIndex3) : bool :=
  isOccupied_h c (getHashIndexFromGlobalIndex (cm_sliding c) id_g).
Definition isKnownFree_i (c : CounterMap) (id_g : GridIndex3) : bool :=
  isKnownFree_h c (getHashIndexFromGlobalIndex (cm_sliding c) id_g).

(** [CounterMap::getGridType] *)
Definition counter_type (c : CounterMap) (hash_id : Z) : GridType :=
  if isOccupied_h c hash_id then OCCUPIED
  else if isUnknown_h c hash_id then UNKNOWN
  else KNOWN_FREE.

(** The two counters after a sub-cell went from one type to another. *)
Definition count_transition (addr : Z) (from_type to_type : GridType) (c : CounterMap) : CounterMap :=
  let c := if from_type ==? OCCUPIED then c <| md_occupied_cnt ::= cnt_add addr (-1) |> else c in
  let c := if to_type ==? OCCUPIED then c <| md_occupied_cnt ::= cnt_add addr 1 |> else c in
  let c := if from_type ==? UNKNOWN then c <| md_unknown_cnt ::= cnt_add addr (-1) |> else c in
  if to_type ==? UNKNOWN then c <| md_unknown_cnt ::= cnt_add addr 1 |> else c.

(** What a derived class provides. *)
Class CounterOps (S : Type) : Type := {
  cm_of : S -> CounterMap;
  cm_set : CounterMap -> S -> S;
  triggerJumpingEdge : GridIndex3 -> GridType -> GridType -> S -> S;
  resetOneCell : Z -> S -> S
}.

Section CounterMapOps.
Context `{EigenOps} {S : Type} `{CounterOps S}.

Definition updateGridCounter (pos : vec3) (from_type to_type : GridType) (s : S) : S :=
  let s := cm_set ((cm_of s) <| cm_map_empty := false |>) s in
  let id_g := posToGlobalIndex (cm_sliding (cm_of s)) pos in
  let addr := getHashIndexFromGlobalIndex (cm_sliding (cm_of s)) id_g in
  let counter_cell_from_type := counter_type (cm_of s) addr in
  let s := cm_set (count_transition addr from_type to_type (cm_of s)) s in
  let counter_cell_to_type := counter_type (cm_of s) addr in
  if counter_cell_from_type !=? counter_cell_to_type
  then triggerJumpingEdge id_g counter_cell_from_type counter_cell_to_type s
  else s.

(** [CounterMap::resetCell] *)
Definition counter_resetCell (hash_id : Z) (s : S) : S :=
  let c := (cm_of s) <| md_occupied_cnt ::= vec_set hash_id 0 |> in
  let c := c <| md_unknown_cnt ::= vec_set hash_id (int16 (md_sub_grid_num c)) |> in
  resetOneCell hash_id (cm_set c s).
End CounterMapOps.

(** [initCounterMap] before its call of the virtual [resetLocalMap]. *)
Definition initCounterMap `{EigenOps} (half_prob_map_size_i : GridIndex3)
    (prob_map_resolution temp_counter_map_resolution : f64) (inflation_step : Z)
    (map_sliding_en : bool) (sliding_thresh : f64) (fix_map_origin : vec3) (unk_thresh : f64)
    (c : CounterMap) : rog_error + CounterMap :=
  if cm_had_been_initialized c then inl rog_runtime_error
  else if fgt prob_map_resolution temp_counter_map_resolution then inl rog_invalid_argument
  else if flt unk_thresh fzero || fgt unk_thresh (f64_of_Z 1) then inl rog_invalid_argument
  else
    let inflation_ratio := SF_trunc (f64_round (f64_div temp_counter_map_resolution prob_map_resolution)) in
    let counter_map_resolution := f64_mul prob_map_resolution (f64_of_Z inflation_ratio) in
    let half_prob_map_size_d := v_scale prob_map_resolution (idx_cast half_prob_map_size_i) in
    let half_counter_map_size_i :=
      idx_add (v_cast_int (v_div half_prob_map_size_d counter_map_resolution))
              (idx_scale (inflation_step + 1) (idx_constant 1)) in
    match initSlidingMap half_counter_map_size_i counter_map_resolution map_sliding_en sliding_thresh
            fix_map_origin (cm_sliding c) with
    | inl e => inl e
    | inr sc =>
        let map_size := Z.to_nat (idx_prod (sc_map_size_i sc)) in
        let ratio := f64_round (f64_div counter_map_resolution prob_map_resolution) in
        (* [pow] of a small integer is exact *)
        let sub_grid_num := SF_trunc (f64_mul ratio (f64_mul ratio ratio)) in
        let thresh := SF_trunc (f64_ceil (f64_mul unk_thresh (f64_of_Z sub_grid_num))) in
        inr (c <| cm_sliding := sc |>
               <| md_sub_grid_num := sub_grid_num |>
               <| md_unk_thresh := Z.min (Z.max 1 thresh) sub_grid_num |>
               <| md_unknown_cnt := replicate map_size (int16 sub_grid_num) |>
               <| md_occupied_cnt := replicate map_size 0 |>
               <| cm_had_been_initialized := true |>)
    end.

(** ** InfMap *)

Record InfMap : Type := mkInf {
  im_counter : CounterMap;
  imd_occ_inflate_cnt : list Z;
  imd_unk_inflate_cnt : list Z;
  imd_unk_neighbor_num : Z;
  imd_occ_neighbor_num : Z;
  im_cfg : Config;
  im_inf_num : Z;
  im_planning_state_change_count : Z
}.

#[export] Instance InfMap_eta : Eta InfMap := fun m =>
  mkInf (im_counter m) (imd_occ_inflate_cnt m) (imd_unk_inflate_cnt m) (imd_unk_neighbor_num m)
    (imd_occ_neighbor_num m) (im_cfg m) (im_inf_num m) (im_planning_state_change_count m).

Definition im_sliding (m : InfMap) : SlidingMap := cm_sliding (im_counter m).

(** The loops of [updateInflation] and [updateUnkInflation]. *)
Definition updateInflation (id_g : GridIndex3) (is_hit : bool) (m : InfMap) : InfMap :=
  foldl (fun m nei =>
           let addr := getHashIndexFromGlobalIndex (im_sliding m) (idx_add id_g nei) in
           m <| im_inf_num ::= Z.succ |>
             <| imd_occ_inflate_cnt ::= cnt_add addr (if is_hit then 1 else -1) |>)
    m (inf_spherical_neighbor (im_cfg m)).

Definition updateUnkInflation (id_g : GridIndex3) (is_add : bool) (m : InfMap) : InfMap :=
  if negb (unk_inflation_en (im_cfg m)) then m
  else
    foldl (fun m nei =>
             let addr := getHashIndexFromGlobalIndex (im_sliding m) (idx_add id_g nei) in
             m <| im_inf_num ::= Z.succ |>
               <| imd_unk_inflate_cnt ::= cnt_add addr (if is_add then 1 else -1) |>)
      m (unk_inf_spherical_neighbor (im_cfg m)).

(** [InfMap::triggerJumpingEdge] *)
Definition inf_triggerJumpingEdge (id_g : GridIndex3) (from_type to_type : GridType) (m : InfMap) : InfMap :=
  let m := if from_type ==? OCCUPIED then updateInflation id_g false m else m in
  let m := if to_type ==? OCCUPIED then updateInflation id_g true m else m in
  if unk_inflation_en (im_cfg m) then
    let m := if from_type ==? UNKNOWN then updateUnkInflation id_g false m else m in
    if to_type ==? UNKNOWN then updateUnkInflation id_g true m else m
  else m.

(** [InfMap::resetOneCell] *)
Definition inf_resetOneCell (hash_id : Z) (m : InfMap) : InfMap :=
  let cur_grid_type := counter_type (im_counter m) hash_id in
  if cur_grid_type !=? UNKNOWN
  then inf_triggerJumpingEdge (hashIdToGlobalIndex (im_sliding m) hash_id) cur_grid_type UNKNOWN m
  else m.

#[export] Instance InfMap_counter : CounterOps InfMap := {
  cm_of := im_counter;
  cm_set c m := m <| im_counter := c |>;
  triggerJumpingEdge := inf_triggerJumpingEdge;
  resetOneCell := inf_resetOneCell
}.

(** [InfMap::resetLocalMap] *)
Definition inf_resetLocalMap (m : InfMap) : InfMap :=
  let c := im_counter m in
  let c := c <| md_unknown_cnt ::= vec_fill (int16 (md_sub_grid_num c)) |>
             <| md_occupied_cnt ::= vec_fill 0 |> in
  let m := m <| im_counter := c |> <| imd_occ_inflate_cnt ::= vec_fill 0 |> in
  if unk_inflation_en (im_cfg m)
  then m <| imd_unk_inflate_cnt ::= vec_fill (int16 (imd_unk_neighbor_num m)) |>
  else m.

#[export] Instance InfMap_sliding : SlidingOps InfMap := {
  sm_base := im_sliding;
  sm_set_base b m := m <| im_counter := (im_counter m) <| cm_sliding := b |> |>;
  RogSliding.resetLocalMap := inf_resetLocalMap;
  RogSliding.resetCell := counter_resetCell
}.

Section InfMapOps.
Context `{EigenOps}.

Definition CounterMap_default : CounterMap := mkCounter SlidingMap_default true [] [] 0 0 false.

(** [InfMap::InfMap(cfg)] *)
Definition InfMap_new (cfg : Config) : rog_error + InfMap :=
  let max_step :=
    if unk_inflation_en cfg then Z.max (inflation_step cfg) (unk_inflation_step cfg)
    else inflation_step cfg in
  match initCounterMap (half_map_size_i cfg) (cf_resolution cfg) (inflation_resolution cfg) max_step
          (map_sliding_en cfg) (map_sliding_thresh cfg) (fix_map_origin cfg) (unk_thresh cfg)
          CounterMap_default with
  | inl e => inl e
  | inr c =>
      let m := inf_resetLocalMap (mkInf c [] [] 0 0 cfg 0 0) in
      let vox := Z.to_nat (sc_map_vox_num (im_sliding m)) in
      let m := m <| imd_occ_inflate_cnt := replicate vox 0 |>
                 <| imd_occ_neighbor_num := Z.of_nat (length (inf_spherical_neighbor cfg)) |> in
      let m := if unk_inflation_en cfg
               then m <| imd_unk_neighbor_num := Z.of_nat (length (unk_inf_spherical_neighbor cfg)) |>
                      <| imd_unk_inflate_cnt := replicate vox 0 |>
               else m in
      inr (inf_resetLocalMap m)
  end.

(** *** Queries *)

(** [isOccupiedInflate(pos)] *)
Definition isOccupiedInflate (m : InfMap) (pos : vec3) : bool :=
  if negb (insideLocalMap (im_sliding m) pos) then false
  else if virtual_ground_ceiling_en (im_cfg m) && fgt (vz pos) (virtual_ceil_height (im_cfg m)) then true
  else if virtual_ground_ceiling_en (im_cfg m) && flt (vz pos) (virtual_ground_height (im_cfg m)) then true
  else 0 <? vec_at 0 (imd_occ_inflate_cnt m) (getHashIndexFromPos (im_sliding m) pos).

(** [isOccupiedInflate(id_g)] *)
Definition isOccupiedInflate_i (m : InfMap) (id_g : GridIndex3) : bool :=
  if negb (insideLocalMap_i (im_sliding m) id_g) then false
  else if virtual_ground_ceiling_en (im_cfg m) && (inf_virtual_ceil_height_id_g (im_cfg m) <? iz id_g) then true
  else if virtual_ground_ceiling_en (im_cfg m) && (iz id_g <? inf_virtual_ground_height_id_g (im_cfg m)) then true
  else 0 <? vec_at 0 (imd_occ_inflate_cnt m) (getHashIndexFromGlobalIndex (im_sliding m) id_g).

(** The result of a query that can throw, and that reads its vector at [-1]
    for a point outside the window. *)
Inductive inf_read : Type := ir_value (b : bool) | ir_throws | ir_out_of_bounds.
#[export] Instance inf_read_eq_dec : EqDecision inf_read.
Proof. solve_decision. Defined.

Definition isUnknownInflate (m : InfMap) (pos : vec3) : inf_read :=
  let cfg := im_cfg m in
  if negb (unk_inflation_en cfg) then ir_throws
  else if virtual_ground_ceiling_en cfg
          && (fge (vz pos) (f64_sub (virtual_ceil_height cfg) (inflation_resolution cfg))
              || fle (vz pos) (f64_add (virtual_ground_height cfg) (inflation_resolution cfg)))
  then ir_value false
  else
    let addr := getHashIndexFromPos (im_sliding m) pos in
    if addr <? 0 then ir_out_of_bounds
    else ir_value (0 <? vec_at 0 (imd_unk_inflate_cnt m) addr).

Definition isKnownFreeInflate (m : InfMap) (pos : vec3) : inf_read :=
  if negb (unk_inflation_en (im_cfg m)) then ir_value (negb (isOccupiedInflate m pos))
  else if isOccupiedInflate m pos then ir_value false
  else match isUnknownInflate m pos with ir_value b => ir_value (negb b) | r => r end.

(** [InfMap::getGridType(id_g)] *)
Definition inf_getGridType_i (m : InfMap) (id_g : GridIndex3) : GridType :=
  if negb (insideLocalMap_i (im_sliding m) id_g) then OUT_OF_MAP
  else
    let addr := getLocalIndexHash (im_sliding m) (globalIndexToLocalIndex (im_sliding m) id_g) in
    if 0 <? vec_at 0 (imd_occ_inflate_cnt m) addr then OCCUPIED
    else if unk_inflation_en (im_cfg m) && (0 <? vec_at 0 (imd_unk_inflate_cnt m) addr) then UNKNOWN
    else KNOWN_FREE.

Definition getBaseGridType (m : InfMap) (id_g : GridIndex3) : GridType :=
  if negb (insideLocalMap_i (im_sliding m) id_g) then OUT_OF_MAP
  else counter_type (im_counter m) (getLocalIndexHash (im_sliding m) (globalIndexToLocalIndex (im_sliding m) id_g)).

(** [cfg_.inflation_resolution * (1 + cfg_.inflation_step)] *)
Definition inflation_halo (cfg : Config) : f64 :=
  f64_mul (inflation_resolution cfg) (f64_of_Z (1 + inflation_step cfg)).

(** [InfMap::getGridType(pos)] *)
Definition inf_getGridType (m : InfMap) (pos : vec3) : GridType :=
  let cfg := im_cfg m in
  if negb (v_allFinite pos) || negb (insideLocalMap (im_sliding m) pos) then OUT_OF_MAP
  else if virtual_ground_ceiling_en cfg
          && (fge (vz pos) (f64_sub (virtual_ceil_height cfg) (inflation_halo cfg))
              || fle (vz pos) (f64_add (virtual_ground_height cfg) (inflation_halo cfg)))
  then OCCUPIED
  else inf_getGridType_i m (posToGlobalIndex (im_sliding m) pos).

Definition infMapGlobalIndexToPos (m : InfMap) (id_g : GridIndex3) : vec3 := globalIndexToPos (im_sliding m) id_g.
Definition infMapPosToGlobalIndex (m : InfMap) (pos : vec3) : GridIndex3 := posToGlobalIndex (im_sliding m) pos.

(** The indices of a box, both ends included, in the order of the three loops. *)
Definition box_indices (lo hi : GridIndex3) : list GridIndex3 :=
  z_range (ix lo) (ix hi) ≫= fun i =>
  z_range (iy lo) (iy hi) ≫= fun j =>
  map (fun k => Idx i j k) (z_range (iz lo) (iz hi)).

(** [InfMap::boxSearch]; [None] is the throw. *)
Definition inf_boxSearch (m : InfMap) (box_min box_max : vec3) (gt : GridType) : option (list vec3) :=
  if cm_map_empty (im_counter m) then Some []
  else
    let ids := box_indices (posToGlobalIndex (im_sliding m) box_min) (posToGlobalIndex (im_sliding m) box_max) in
    match gt with
    | UNKNOWN =>
        if negb (unk_inflation_en (im_cfg m)) then Some []
        else Some (map (globalIndexToPos (im_sliding m)) (List.filter (isUnknown_i (im_counter m)) ids))
    | OCCUPIED => Some (map (globalIndexToPos (im_sliding m)) (List.filter (isOccupiedInflate_i m) ids))
    | _ => None
    end.

(** [getInflationNumAndTime] without the time *)
Definition getInflationNum (m : InfMap) : Z * InfMap := (im_inf_num m, m <| im_inf_num := 0 |>).

Definition resetPlanningStateChangeCount (m : InfMap) : InfMap := m <| im_planning_state_change_count := 0 |>.
End InfMapOps.

(** ** FreeCntMap *)

Record FreeCntMap : Type := mkFreeCnt {
  fm_sliding : SlidingMap;
  neighbor_free_cnt : list Z
}.

#[export] Instance FreeCntMap_eta : Eta FreeCntMap := fun m => mkFreeCnt (fm_sliding m) (neighbor_free_cnt m).

#[export] Instance FreeCntMap_sliding : SlidingOps FreeCntMap := {
  sm_base := fm_sliding;
  sm_set_base b m := m <| fm_sliding := b |>;
  RogSliding.resetLocalMap m := m <| neighbor_free_cnt ::= vec_fill 0 |>;
  RogSliding.resetCell hash_id m := m <| neighbor_free_cnt ::= vec_set hash_id 0 |>
}.

Section FreeCntMapOps.
Context `{EigenOps}.

Definition FreeCntMap_new (half_map_size_i : GridIndex3) (resolution : f64) (sliding_en : bool)
    (sliding_thresh : f64) (fix_map_origin : vec3) : rog_error + FreeCntMap :=
  match initSlidingMap half_map_size_i resolution sliding_en sliding_thresh fix_map_origin SlidingMap_default with
  | inl e => inl e
  | inr sc => inr (RogSliding.resetLocalMap (mkFreeCnt sc (replicate (Z.to_nat (idx_prod (sc_map_size_i sc))) 0)))
  end.

Definition getFreeCnt (m : FreeCntMap) (id_g : GridIndex3) : Z :=
  vec_at 0 (neighbor_free_cnt m) (getHashIndexFromGlobalIndex (fm_sliding m) id_g).

(** [getFreeCnt(pos)]; [None] reads the vector at [-1]. *)
Definition getFreeCnt_pos (m : FreeCntMap) (pos : vec3) : option Z :=
  let addr := getHashIndexFromPos (fm_sliding m) pos in
  if addr <? 0 then None else Some (vec_at 0 (neighbor_free_cnt m) addr).

(** [None] is the throw on a counter outside 0 to 27. *)
Definition updateFrontierCounter (id_g : GridIndex3) (add : bool) (m : FreeCntMap) : option FreeCntMap :=
  if negb (insideLocalMap_i (fm_sliding m) id_g) then Some m
  else
    foldl (fun acc d =>
             acc ≫= fun m =>
             let hash_id := getHashIndexFromGlobalIndex (fm_sliding m) (idx_add id_g d) in
             let m := m <| neighbor_free_cnt ::= cnt_add hash_id (if add then 1 else -1) |> in
             let c := vec_at 0 (neighbor_free_cnt m) hash_id in
             if (if add then 27 <? c else c <? 0) then None else Some m)
      (Some m) (neighbor_cube 1).
End FreeCntMapOps.
