(* ===== verification/RogInfProps.v ===== *)
(** * Inflation is the neighbourhood of the occupied cells

    The inflation counters are maintained by increments and decrements spread
    over the neighbour table.  Here: at every moment a counter is the number of
    neighbours that are occupied (unknown), so the inflated layer is the dilation
    of the coarse cells, as long as sliding clears only cells that are unknown
    already; and what happens when it does not. *)

From S2P Require Import Prelude Float64 Geometry RecordUpdate WorldGrid MapSnapshot RogSliding RogCounter.

(** ** Vectors and machine integers *)

Lemma length_vec_set {A} i (x : A) v : length (vec_set i x v) = length v.
Proof. apply length_insert. Qed.

Lemma length_vec_fill {A} (x : A) v : length (vec_fill x v) = length v.
Proof. apply length_replicate. Qed.

Lemma vec_at_set_eq {A} (d x : A) v i : 0 <= i < Z.of_nat (length v) -> vec_at d (vec_set i x v) i = x.
Proof. intros Hi. unfold vec_at, vec_set. rewrite list_lookup_insert_eq by lia. done. Qed.

Lemma vec_at_set_ne {A} (d x : A) v i j : 0 <= i -> 0 <= j -> i <> j -> vec_at d (vec_set i x v) j = vec_at d v j.
Proof. intros Hi Hj Hne. unfold vec_at, vec_set. by rewrite list_lookup_insert_ne by lia. Qed.

Lemma vec_at_fill {A} (d x : A) v i : 0 <= i < Z.of_nat (length v) -> vec_at d (vec_fill x v) i = x.
Proof. intros Hi. unfold vec_at, vec_fill. by rewrite lookup_replicate_2 by lia. Qed.

Lemma vec_at_replicate {A} (d x : A) n i : 0 <= i < Z.of_nat n -> vec_at d (replicate n x) i = x.
Proof. intros Hi. unfold vec_at. by rewrite lookup_replicate_2 by lia. Qed.

Lemma int16_id x : - 2 ^ 15 <= x < 2 ^ 15 -> int16 x = x.
Proof. intros Hx. unfold int16. rewrite Z.mod_small; lia. Qed.

Lemma int16_add x y : int16 (int16 x + y) = int16 (x + y).
Proof.
  unfold int16. f_equal. set (m := (x + 2 ^ 15) mod 2 ^ 16).
  replace (m - 2 ^ 15 + y + 2 ^ 15) with (m + y) by lia. unfold m.
  rewrite Zplus_mod_idemp_l. f_equal. lia.
Qed.

Lemma int16_int16 x : int16 (int16 x) = int16 x.
Proof. pose proof (int16_add x 0) as E. by rewrite !Z.add_0_r in E. Qed.

(** ** Counting occurrences *)

Lemma count_of_ext {A} (f g : A -> bool) l : (forall x, x ∈ l -> f x = g x) -> count_of f l = count_of g l.
Proof.
  induction l as [|x l IH]; intros Hfg; [done|]. rewrite !count_of_cons, (Hfg x) by by left.
  rewrite IH; [done|]. intros y Hy. apply Hfg. by right.
Qed.

Lemma count_of_bound {A} (f : A -> bool) l : 0 <= count_of f l <= Z.of_nat (length l).
Proof. induction l as [|x l IH]; [done|]. rewrite count_of_cons. simpl length. destruct (f x); lia. Qed.

Lemma count_of_positive {A} (f : A -> bool) l : (0 <? count_of f l) = existsb f l.
Proof.
  induction l as [|x l IH]; [done|]. rewrite count_of_cons. simpl existsb. pose proof (count_of_bound f l).
  rewrite <- IH. destruct (f x); [simpl; apply Z.ltb_lt; lia|done].
Qed.

(** [f] is [g] with the elements of [h] added. *)
Lemma count_of_diff {A} (f g h : A -> bool) l :
  (forall x, x ∈ l -> h x = true -> f x = true /\ g x = false) ->
  (forall x, x ∈ l -> h x = false -> f x = g x) -> count_of f l = count_of g l + count_of h l.
Proof.
  induction l as [|x l IH]; intros H1 H2; [done|]. rewrite !count_of_cons.
  rewrite IH by (intros y Hy; (apply H1 || apply H2); by right).
  destruct (h x) eqn:Eh.
  - destruct (H1 x ltac:(by left) Eh) as [-> ->]. lia.
  - rewrite (H2 x ltac:(by left) Eh). lia.
Qed.

(** ** The invariant *)

Record inf_ok (m : InfMap) : Prop := {
  io_wf : window_wf (im_sliding m);
  io_occ : Z.of_nat (length (md_occupied_cnt (im_counter m))) = sc_map_vox_num (im_sliding m);
  io_unk : Z.of_nat (length (md_unknown_cnt (im_counter m))) = sc_map_vox_num (im_sliding m);
  io_occ_inf : Z.of_nat (length (imd_occ_inflate_cnt m)) = sc_map_vox_num (im_sliding m);
  io_unk_inf : unk_inflation_en (im_cfg m) = true ->
    Z.of_nat (length (imd_unk_inflate_cnt m)) = sc_map_vox_num (im_sliding m);
  (** the sub-cells fit the counter, and an unobserved cell is unknown *)
  io_sub : 1 <= md_unk_thresh (im_counter m) <= md_sub_grid_num (im_counter m) /\
    md_sub_grid_num (im_counter m) < 2 ^ 15
}.

(** The neighbours of a cell that satisfy a predicate: those whose offset leads to it. *)
Definition neighbor_count (sc : SlidingMap) (table : list GridIndex3) (P : Z -> bool) (h : Z) : Z :=
  count_of (fun nei => P (getHashIndexFromGlobalIndex sc (idx_sub (hashIdToGlobalIndex sc h) nei))) table.

Definition has_type (m : InfMap) (t : GridType) (h : Z) : bool := counter_type (im_counter m) h ==? t.

(** Every inflation counter is the number of its neighbours of the type. *)
Record inflation_exact (m : InfMap) : Prop := {
  ie_occ h : 0 <= h < sc_map_vox_num (im_sliding m) ->
    vec_at 0 (imd_occ_inflate_cnt m) h =
    int16 (neighbor_count (im_sliding m) (inf_spherical_neighbor (im_cfg m)) (has_type m OCCUPIED) h);
  ie_unk h : unk_inflation_en (im_cfg m) = true -> 0 <= h < sc_map_vox_num (im_sliding m) ->
    vec_at 0 (imd_unk_inflate_cnt m) h =
    int16 (neighbor_count (im_sliding m) (unk_inf_spherical_neighbor (im_cfg m)) (has_type m UNKNOWN) h)
}.

(** ** Spreading over a table *)

Lemma hash_sub_iff sc g h n : window_wf sc -> 0 <= h < sc_map_vox_num sc ->
  (getHashIndexFromGlobalIndex sc (idx_sub (hashIdToGlobalIndex sc h) n) =? getHashIndexFromGlobalIndex sc g) =
  (getHashIndexFromGlobalIndex sc (idx_add g n) =? h).
Proof.
  intros Hw Hh. destruct (global_of_hash sc Hw h Hh) as [_ Hg]. set (c := hashIdToGlobalIndex sc h) in *.
  clearbody c. rewrite <- Hg. apply Bool.eq_true_iff_eq. rewrite !Z.eqb_eq, !hash_eq by done. simpl.
  replace (ix c - ix n - ix g) with (- (ix g + ix n - ix c)) by lia.
  replace (iy c - iy n - iy g) with (- (iy g + iy n - iy c)) by lia.
  replace (iz c - iz n - iz g) with (- (iz g + iz n - iz c)) by lia.
  by rewrite !Z.divide_opp_r.
Qed.

Lemma neighbor_count_range sc table P Q : window_wf sc ->
  (forall k, 0 <= k < sc_map_vox_num sc -> P k = Q k) ->
  forall h, neighbor_count sc table P h = neighbor_count sc table Q h.
Proof. intros Hw HPQ h. apply count_of_ext. intros n _. by apply HPQ, slot_range. Qed.

(** One cell of the type more: as many more neighbours as the table leads to it. *)
Lemma neighbor_count_more sc table P Q g h : window_wf sc -> 0 <= h < sc_map_vox_num sc ->
  let a := getHashIndexFromGlobalIndex sc g in
  P a = true -> Q a = false -> (forall k, 0 <= k < sc_map_vox_num sc -> k <> a -> P k = Q k) ->
  neighbor_count sc table P h =
  neighbor_count sc table Q h + count_of (fun n => getHashIndexFromGlobalIndex sc (idx_add g n) =? h) table.
Proof.
  intros Hw Hh a HP HQ Hrest. apply count_of_diff.
  - intros n _. rewrite <- hash_sub_iff, Z.eqb_eq by done. by intros ->.
  - intros n _. rewrite <- hash_sub_iff, Z.eqb_neq by done. intros Hne. apply Hrest; [by apply slot_range|done].
Qed.

(** The loop over a table. *)
Definition spread (sc : SlidingMap) (g : GridIndex3) (d : Z) (table : list GridIndex3) (v : list Z) : list Z :=
  foldl (fun v nei => cnt_add (getHashIndexFromGlobalIndex sc (idx_add g nei)) d v) v table.

Lemma length_spread sc g d table v : length (spread sc g d table v) = length v.
Proof. revert v. induction table as [|n table IH]; intros v; [done|]. simpl. rewrite IH. apply length_vec_set. Qed.

Lemma spread_at sc g d table v h : window_wf sc -> Z.of_nat (length v) = sc_map_vox_num sc ->
  0 <= h < sc_map_vox_num sc -> int16 (vec_at 0 v h) = vec_at 0 v h ->
  vec_at 0 (spread sc g d table v) h =
  int16 (vec_at 0 v h + d * count_of (fun n => getHashIndexFromGlobalIndex sc (idx_add g n) =? h) table).
Proof.
  intros Hw. revert v. induction table as [|n table IH]; intros v Hl Hh Hv.
  { rewrite count_of_nil. simpl. by rewrite Z.mul_0_r, Z.add_0_r. }
  simpl. pose proof (slot_range sc Hw (idx_add g n)) as Hr. set (a := getHashIndexFromGlobalIndex sc (idx_add g n)) in *.
  rewrite IH; [|by unfold cnt_add; rewrite length_vec_set|done|].
  - rewrite count_of_cons. fold a. unfold cnt_add. destruct (Z.eqb_spec a h) as [->|Hne].
    + rewrite vec_at_set_eq by lia. rewrite int16_add. f_equal. lia.
    + rewrite vec_at_set_ne by lia. done.
  - unfold cnt_add. destruct (decide (a = h)) as [->|Hne].
    + rewrite vec_at_set_eq by lia. apply int16_int16.
    + by rewrite vec_at_set_ne by lia.
Qed.

(** The two counters of a map after the spread. *)
Lemma updateInflation_eq g b m :
  let m' := updateInflation g b m in
  imd_occ_inflate_cnt m' = spread (im_sliding m) g (if b then 1 else -1) (inf_spherical_neighbor (im_cfg m)) (imd_occ_inflate_cnt m)
  /\ imd_unk_inflate_cnt m' = imd_unk_inflate_cnt m /\ im_counter m' = im_counter m /\ im_cfg m' = im_cfg m.
Proof.
  cbv zeta. unfold updateInflation. generalize (inf_spherical_neighbor (im_cfg m)) as table. intros table.
  revert m. unfold spread. induction table as [|n table IH]; intros m; [done|]. cbn [foldl].
  match goal with |- context [foldl ?f ?m' table] => destruct (IH m') as (E1 & E2 & E3 & E4) end.
  split_and!; [exact E1|exact E2|exact E3|exact E4].
Qed.

Lemma updateUnkInflation_eq g b m : unk_inflation_en (im_cfg m) = true ->
  let m' := updateUnkInflation g b m in
  imd_unk_inflate_cnt m' = spread (im_sliding m) g (if b then 1 else -1) (unk_inf_spherical_neighbor (im_cfg m)) (imd_unk_inflate_cnt m)
  /\ imd_occ_inflate_cnt m' = imd_occ_inflate_cnt m /\ im_counter m' = im_counter m /\ im_cfg m' = im_cfg m.
Proof.
  intros Hen. cbv zeta. unfold updateUnkInflation. rewrite Hen. simpl.
  generalize (unk_inf_spherical_neighbor (im_cfg m)) as table. intros table. clear Hen.
  revert m. unfold spread. induction table as [|n table IH]; intros m; [done|]. cbn [foldl].
  match goal with |- context [foldl ?f ?m' table] => destruct (IH m') as (E1 & E2 & E3 & E4) end.
  split_and!; [exact E1|exact E2|exact E3|exact E4].
Qed.

(** ** One transition of a coarse cell *)

Definition spread_count (sc : SlidingMap) (g : GridIndex3) (table : list GridIndex3) (h : Z) : Z :=
  count_of (fun n => getHashIndexFromGlobalIndex sc (idx_add g n) =? h) table.

(** [1] when the cell became of type [t], [-1] when it ceased to be. *)
Definition type_delta (t from to : GridType) : Z :=
  (if to ==? t then 1 else 0) - (if from ==? t then 1 else 0).

Lemma bool_decide_refl {A} `{EqDecision A} (x : A) : (x ==? x) = true.
Proof. by apply bool_decide_eq_true. Qed.

Lemma type_count m0 m t g from to table h : window_wf (im_sliding m) -> 0 <= h < sc_map_vox_num (im_sliding m) ->
  let a := getHashIndexFromGlobalIndex (im_sliding m) g in
  counter_type (im_counter m0) a = from -> counter_type (im_counter m) a = to ->
  (forall k, 0 <= k < sc_map_vox_num (im_sliding m) -> k <> a ->
     counter_type (im_counter m) k = counter_type (im_counter m0) k) ->
  neighbor_count (im_sliding m) table (has_type m t) h =
  neighbor_count (im_sliding m) table (has_type m0 t) h + type_delta t from to * spread_count (im_sliding m) g table h.
Proof.
  intros Hw Hh a Hf Ht Hrest. unfold type_delta, spread_count.
  assert (forall k, 0 <= k < sc_map_vox_num (im_sliding m) -> k <> a -> has_type m t k = has_type m0 t k) as Hrest'.
  { intros k Hk Hne. unfold has_type. by rewrite Hrest. }
  assert (has_type m t a = (to ==? t)) as Hm by (unfold has_type; by rewrite Ht).
  assert (has_type m0 t a = (from ==? t)) as Hm0 by (unfold has_type; by rewrite Hf).
  destruct (to ==? t) eqn:Et, (from ==? t) eqn:Ef.
  - rewrite Z.mul_0_l, Z.add_0_r. apply neighbor_count_range; [done|]. intros k Hk.
    destruct (decide (k = a)) as [->|]; [congruence|auto].
  - rewrite (neighbor_count_more _ _ (has_type m t) (has_type m0 t) g) by done. lia.
  - rewrite (neighbor_count_more _ _ (has_type m0 t) (has_type m t) g); [lia|done..|].
    intros k Hk Hne. symmetry. by apply Hrest'.
  - rewrite Z.mul_0_l, Z.add_0_r. apply neighbor_count_range; [done|]. intros k Hk.
    destruct (decide (k = a)) as [->|]; [congruence|auto].
Qed.

(** What the loops over the tables add up to. *)
Lemma trigger_counts g from to m : from <> to ->
  let m' := inf_triggerJumpingEdge g from to m in
  im_counter m' = im_counter m /\ im_cfg m' = im_cfg m /\
  length (imd_occ_inflate_cnt m') = length (imd_occ_inflate_cnt m) /\
  length (imd_unk_inflate_cnt m') = length (imd_unk_inflate_cnt m) /\
  (window_wf (im_sliding m) -> Z.of_nat (length (imd_occ_inflate_cnt m)) = sc_map_vox_num (im_sliding m) ->
   forall h, 0 <= h < sc_map_vox_num (im_sliding m) ->
     int16 (vec_at 0 (imd_occ_inflate_cnt m) h) = vec_at 0 (imd_occ_inflate_cnt m) h ->
     vec_at 0 (imd_occ_inflate_cnt m') h = int16 (vec_at 0 (imd_occ_inflate_cnt m) h +
       type_delta OCCUPIED from to * spread_count (im_sliding m) g (inf_spherical_neighbor (im_cfg m)) h)) /\
  (unk_inflation_en (im_cfg m) = true -> window_wf (im_sliding m) ->
   Z.of_nat (length (imd_unk_inflate_cnt m)) = sc_map_vox_num (im_sliding m) ->
   forall h, 0 <= h < sc_map_vox_num (im_sliding m) ->
     int16 (vec_at 0 (imd_unk_inflate_cnt m) h) = vec_at 0 (imd_unk_inflate_cnt m) h ->
     vec_at 0 (imd_unk_inflate_cnt m') h = int16 (vec_at 0 (imd_unk_inflate_cnt m) h +
       type_delta UNKNOWN from to * spread_count (im_sliding m) g (unk_inf_spherical_neighbor (im_cfg m)) h)).
Proof.
  intros Hne. cbv zeta. unfold inf_triggerJumpingEdge.
  set (m1 := if from ==? OCCUPIED then updateInflation g false m else m).
  set (m2 := if to ==? OCCUPIED then updateInflation g true m1 else m1).
  assert (im_counter m2 = im_counter m /\ im_cfg m2 = im_cfg m /\ imd_unk_inflate_cnt m2 = imd_unk_inflate_cnt m /\
    imd_occ_inflate_cnt m2 = (if type_delta OCCUPIED from to =? 0 then imd_occ_inflate_cnt m else
      spread (im_sliding m) g (type_delta OCCUPIED from to) (inf_spherical_neighbor (im_cfg m)) (imd_occ_inflate_cnt m)))
    as (Hc & Hcfg & Hu & Ho).
  { subst m2 m1. unfold type_delta. destruct (bool_decide_reflect (from = OCCUPIED)), (bool_decide_reflect (to = OCCUPIED));
      try congruence; try done; simpl;
      match goal with |- context [updateInflation g ?b m] => destruct (updateInflation_eq g b m) as (-> & -> & -> & ->) end; done. }
  clearbody m2. clear m1.
  assert (forall h, int16 (vec_at 0 (imd_occ_inflate_cnt m) h) = vec_at 0 (imd_occ_inflate_cnt m) h ->
    window_wf (im_sliding m) -> Z.of_nat (length (imd_occ_inflate_cnt m)) = sc_map_vox_num (im_sliding m) ->
    0 <= h < sc_map_vox_num (im_sliding m) ->
    vec_at 0 (imd_occ_inflate_cnt m2) h = int16 (vec_at 0 (imd_occ_inflate_cnt m) h +
      type_delta OCCUPIED from to * spread_count (im_sliding m) g (inf_spherical_neighbor (im_cfg m)) h)) as Hocc.
  { intros h Hi Hw Hl Hh. rewrite Ho. destruct (Z.eqb_spec (type_delta OCCUPIED from to) 0) as [->|_].
    - by rewrite Z.mul_0_l, Z.add_0_r. - by apply spread_at. }
  assert (length (imd_occ_inflate_cnt m2) = length (imd_occ_inflate_cnt m)) as Hlo.
  { rewrite Ho. destruct (type_delta OCCUPIED from to =? 0); [done|apply length_spread]. }
  rewrite Hcfg. destruct (unk_inflation_en (im_cfg m)) eqn:Een; [|split_and!; rewrite ?Hu; done || auto].
  set (m3 := if from ==? UNKNOWN then updateUnkInflation g false m2 else m2).
  set (m4 := if to ==? UNKNOWN then updateUnkInflation g true m3 else m3).
  assert (im_counter m4 = im_counter m /\ im_cfg m4 = im_cfg m /\ imd_occ_inflate_cnt m4 = imd_occ_inflate_cnt m2 /\
    imd_unk_inflate_cnt m4 = (if type_delta UNKNOWN from to =? 0 then imd_unk_inflate_cnt m else
      spread (im_sliding m) g (type_delta UNKNOWN from to) (unk_inf_spherical_neighbor (im_cfg m)) (imd_unk_inflate_cnt m)))
    as (Hc4 & Hcfg4 & Ho4 & Hu4).
  { subst m4 m3. unfold type_delta. assert (unk_inflation_en (im_cfg m2) = true) as Hen2 by by rewrite Hcfg.
    destruct (bool_decide_reflect (from = UNKNOWN)), (bool_decide_reflect (to = UNKNOWN)); try congruence; simpl;
      try (split_and!; done);
      match goal with |- context [updateUnkInflation g ?b m2] => destruct (updateUnkInflation_eq g b m2 Hen2) as (-> & -> & -> & ->) end;
      unfold im_sliding; rewrite Hc, Hcfg, Hu; done. }
  clearbody m4. clear m3. split_and!; try done.
  - congruence.
  - rewrite Hu4. destruct (type_delta UNKNOWN from to =? 0); [done|apply length_spread].
  - intros Hw Hl h Hh Hi. rewrite Ho4. by apply Hocc.
  - intros _ Hw Hl h Hh Hi. rewrite Hu4. destruct (Z.eqb_spec (type_delta UNKNOWN from to) 0) as [->|_].
    + by rewrite Z.mul_0_l, Z.add_0_r. + by apply spread_at.
Qed.

Lemma cell_type_cases c h : counter_type c h = OCCUPIED \/ counter_type c h = UNKNOWN \/ counter_type c h = KNOWN_FREE.
Proof. unfold counter_type. destruct (isOccupied_h c h), (isUnknown_h c h); auto. Qed.

(** Spreading the change of one cell restores the invariant. *)
Lemma edge_exact m0 m g : inf_ok m0 -> inf_ok m -> inflation_exact m0 ->
  im_sliding m = im_sliding m0 -> im_cfg m = im_cfg m0 ->
  imd_occ_inflate_cnt m = imd_occ_inflate_cnt m0 -> imd_unk_inflate_cnt m = imd_unk_inflate_cnt m0 ->
  let a := getHashIndexFromGlobalIndex (im_sliding m) g in
  let from := counter_type (im_counter m0) a in
  let to := counter_type (im_counter m) a in
  (forall k, 0 <= k < sc_map_vox_num (im_sliding m) -> k <> a ->
     counter_type (im_counter m) k = counter_type (im_counter m0) k) ->
  let m' := if from !=? to then inf_triggerJumpingEdge g from to m else m in
  inf_ok m' /\ inflation_exact m' /\ im_counter m' = im_counter m /\ im_cfg m' = im_cfg m.
Proof.
  intros Hok0 Hok Hex Hs Hc Ho Hu a from to Hrest. cbv zeta.
  pose proof (io_wf m Hok) as Hw. destruct (bool_decide_reflect (from = to)) as [Heq|Hne]; simpl.
  - split_and!; [done| |done|done]. destruct Hex as [Hexo Hexu]. constructor.
    + intros h Hh. rewrite Ho, Hc, Hexo by (by rewrite <- Hs). rewrite <- Hs. f_equal.
      symmetry. apply neighbor_count_range; [done|]. intros k Hk. unfold has_type.
      destruct (decide (k = a)) as [->|]; [unfold from, to in Heq; by rewrite Heq|by rewrite Hrest].
    + intros h Hen Hh. rewrite Hu, Hc, Hexu by (by rewrite <- ?Hs, <- ?Hc). rewrite <- Hs. f_equal.
      symmetry. apply neighbor_count_range; [done|]. intros k Hk. unfold has_type.
      destruct (decide (k = a)) as [->|]; [unfold from, to in Heq; by rewrite Heq|by rewrite Hrest].
  - destruct (trigger_counts g from to m Hne) as (Hc' & Hcfg' & Hl1 & Hl2 & H1 & H2).
    set (m' := inf_triggerJumpingEdge g from to m) in *.
    assert (im_sliding m' = im_sliding m) as Hs' by (unfold im_sliding; by rewrite Hc').
    destruct Hex as [Hexo Hexu]. destruct Hok. split_and!; [constructor; rewrite ?Hs', ?Hc', ?Hcfg', ?Hl1, ?Hl2; done| |done|done].
    constructor.
    + rewrite Hs', Hcfg'. intros h Hh.
      assert (vec_at 0 (imd_occ_inflate_cnt m) h = int16 (neighbor_count (im_sliding m) (inf_spherical_neighbor (im_cfg m)) (has_type m0 OCCUPIED) h)) as Hv.
      { rewrite Ho, Hexo by (by rewrite <- Hs). by rewrite Hs, Hc. }
      rewrite H1 by (done || rewrite Hv; apply int16_int16). rewrite Hv, int16_add. f_equal.
      unfold has_type at 2. rewrite Hc'. symmetry. by apply type_count.
    + rewrite Hs', Hcfg'. intros h Hen Hh.
      assert (vec_at 0 (imd_unk_inflate_cnt m) h = int16 (neighbor_count (im_sliding m) (unk_inf_spherical_neighbor (im_cfg m)) (has_type m0 UNKNOWN) h)) as Hv.
      { rewrite Hu, Hexu by (by rewrite <- ?Hs, <- ?Hc). by rewrite Hs, Hc. }
      rewrite H2 by (auto || rewrite Hv; apply int16_int16). rewrite Hv, int16_add. f_equal.
      unfold has_type at 2. rewrite Hc'. symmetry. by apply type_count.
Qed.

(** ** Updating a sub-cell *)

Lemma vec_at_cnt_add_ne i d v k : 0 <= i -> 0 <= k -> k <> i -> vec_at 0 (cnt_add i d v) k = vec_at 0 v k.
Proof. intros. apply vec_at_set_ne; [done|done|congruence]. Qed.

(** Only the counters of the addressed cell change. *)
Lemma count_transition_spec addr from to c :
  let c' := count_transition addr from to c in
  cm_sliding c' = cm_sliding c /\ md_sub_grid_num c' = md_sub_grid_num c /\ md_unk_thresh c' = md_unk_thresh c /\
  length (md_occupied_cnt c') = length (md_occupied_cnt c) /\
  length (md_unknown_cnt c') = length (md_unknown_cnt c) /\
  forall k, 0 <= addr -> 0 <= k -> k <> addr -> counter_type c' k = counter_type c k.
Proof.
  cbv zeta. unfold count_transition.
  destruct (from ==? OCCUPIED), (to ==? OCCUPIED), (from ==? UNKNOWN), (to ==? UNKNOWN); simpl;
    unfold cnt_add; rewrite ?length_vec_set; split_and!; try done;
    intros k Ha Hk Hne; unfold counter_type, isOccupied_h, isUnknown_h; simpl;
    by rewrite ?(vec_at_set_ne 0) by (done || congruence).
Qed.

Section Updates.
Context `{EigenOps}.

Lemma updateGridCounter_exact pos from to m : inf_ok m -> inflation_exact m ->
  let m' := updateGridCounter pos from to m in
  inf_ok m' /\ inflation_exact m' /\ im_sliding m' = im_sliding m /\ im_cfg m' = im_cfg m /\
  md_sub_grid_num (im_counter m') = md_sub_grid_num (im_counter m).
Proof.
  intros Hok Hex. cbv zeta. unfold updateGridCounter. cbn [cm_of cm_set InfMap_counter triggerJumpingEdge].
  set (m1 := m <| im_counter := (im_counter m) <| cm_map_empty := false |> |>).
  change (cm_sliding (im_counter m1)) with (im_sliding m). set (g := posToGlobalIndex (im_sliding m) pos).
  set (a := getHashIndexFromGlobalIndex (im_sliding m) g).
  pose proof (slot_range (im_sliding m) (io_wf m Hok) g) as Ha. fold a in Ha.
  destruct (count_transition_spec a from to (im_counter m1)) as (Hs & Hsub & Hth & Hlo & Hlu & Hrest).
  set (c2 := count_transition a from to (im_counter m1)) in *. set (m2 := m1 <| im_counter := c2 |>).
  assert (inf_ok m1) as Hok1 by (destruct Hok; by constructor).
  assert (inflation_exact m1) as Hex1 by (destruct Hex; by constructor).
  assert (im_sliding m2 = im_sliding m1) as Hs2 by exact Hs.
  assert (inf_ok m2) as Hok2.
  { destruct Hok1 as [Hw1 Ho1 Hu1 Hoi1 Hui1 Hsub1]. constructor; rewrite ?Hs2; simpl; rewrite ?Hlo, ?Hlu, ?Hth, ?Hsub; done. }
  destruct (edge_exact m1 m2 g Hok1 Hok2 Hex1 Hs2 eq_refl eq_refl eq_refl) as (Hok3 & Hex3 & Hc3 & Hcfg3).
  { intros k Hk Hne. rewrite Hs2 in Hne. apply Hrest; [lia|lia|done]. }
  rewrite Hs2 in *. change (getHashIndexFromGlobalIndex (im_sliding m1) g) with a in *.
  change (im_counter m2) with c2 in *. split_and!; [exact Hok3|exact Hex3|..].
  - unfold im_sliding. transitivity (cm_sliding c2); [by f_equal|exact Hs].
  - exact Hcfg3.
  - transitivity (md_sub_grid_num c2); [by f_equal|exact Hsub].
Qed.

(** ** Resetting cells *)

(** The jumping edge of [resetOneCell] is never taken: [resetCell] has already
    made the cell unknown. *)
Lemma resetCell_dead h m : inf_ok m -> 0 <= h < sc_map_vox_num (im_sliding m) ->
  counter_resetCell h m =
  m <| im_counter := (im_counter m) <| md_occupied_cnt ::= vec_set h 0 |>
                                    <| md_unknown_cnt ::= vec_set h (md_sub_grid_num (im_counter m)) |> |>.
Proof.
  intros [Hw Ho Hu _ _ [Ht Hsub]] Hh. unfold counter_resetCell. cbn [cm_of cm_set InfMap_counter resetOneCell].
  unfold inf_resetOneCell, counter_type, isOccupied_h, isUnknown_h. simpl. rewrite int16_id by lia.
  rewrite (vec_at_set_eq 0), (vec_at_set_eq 0) by lia. rewrite Z.ltb_irrefl.
  by rewrite (proj2 (Z.leb_le _ _)) by lia.
Qed.

Lemma resetCell_ok h m : inf_ok m -> 0 <= h < sc_map_vox_num (im_sliding m) ->
  let m' := counter_resetCell h m in
  inf_ok m' /\ im_sliding m' = im_sliding m /\ im_cfg m' = im_cfg m /\
  md_sub_grid_num (im_counter m') = md_sub_grid_num (im_counter m) /\
  counter_type (im_counter m') h = UNKNOWN /\
  (forall k, 0 <= k -> k <> h -> counter_type (im_counter m') k = counter_type (im_counter m) k).
Proof.
  intros Hok Hh. cbv zeta. rewrite resetCell_dead by done. destruct Hok as [Hw Ho Hu Hoi Hui [Ht Hsub]].
  split_and!; try done.
  - constructor; simpl; rewrite ?length_vec_set; done.
  - unfold counter_type, isOccupied_h, isUnknown_h. simpl.
    rewrite (vec_at_set_eq 0), (vec_at_set_eq 0) by lia. rewrite Z.ltb_irrefl.
    by rewrite (proj2 (Z.leb_le _ _)) by lia.
  - intros k Hk Hne. unfold counter_type, isOccupied_h, isUnknown_h. simpl. by rewrite !(vec_at_set_ne 0) by lia.
Qed.

Lemma same_types_exact m m' : inf_ok m -> inflation_exact m -> im_sliding m' = im_sliding m -> im_cfg m' = im_cfg m ->
  imd_occ_inflate_cnt m' = imd_occ_inflate_cnt m -> imd_unk_inflate_cnt m' = imd_unk_inflate_cnt m ->
  (forall k, 0 <= k < sc_map_vox_num (im_sliding m) -> counter_type (im_counter m') k = counter_type (im_counter m) k) ->
  inflation_exact m'.
Proof.
  intros Hok [Hexo Hexu] Hs Hc Ho Hu Hk. constructor; rewrite Hs, Hc, ?Ho, ?Hu.
  - intros h Hh. rewrite Hexo by done. f_equal. apply neighbor_count_range; [by destruct Hok|].
    intros k Hkr. unfold has_type. by rewrite Hk.
  - intros h Hen Hh. rewrite Hexu by done. f_equal. apply neighbor_count_range; [by destruct Hok|].
    intros k Hkr. unfold has_type. by rewrite Hk.
Qed.

(** [resetLocalMap] *)
Lemma resetLocalMap_spec m : inf_ok m ->
  let m' := inf_resetLocalMap m in
  inf_ok m' /\ im_sliding m' = im_sliding m /\ im_cfg m' = im_cfg m /\
  md_sub_grid_num (im_counter m') = md_sub_grid_num (im_counter m) /\
  (forall k, 0 <= k < sc_map_vox_num (im_sliding m) ->
     vec_at 0 (md_occupied_cnt (im_counter m')) k = 0 /\
     vec_at 0 (md_unknown_cnt (im_counter m')) k = md_sub_grid_num (im_counter m) /\
     counter_type (im_counter m') k = UNKNOWN).
Proof.
  intros Hok. cbv zeta. unfold inf_resetLocalMap. set (m1 := set_member imd_occ_inflate_cnt _ _).
  assert (im_sliding m1 = im_sliding m /\ im_cfg m1 = im_cfg m /\
    md_sub_grid_num (im_counter m1) = md_sub_grid_num (im_counter m) /\
    (forall k, 0 <= k < sc_map_vox_num (im_sliding m) ->
     vec_at 0 (md_occupied_cnt (im_counter m1)) k = 0 /\
     vec_at 0 (md_unknown_cnt (im_counter m1)) k = md_sub_grid_num (im_counter m) /\
     counter_type (im_counter m1) k = UNKNOWN)) as (Hs & Hc & Hsub & Hk).
  { split_and!; try done. intros k Hk. destruct Hok as [Hw Ho Hu Hoi Hui [Ht Hsb]].
    assert (vec_at 0 (md_occupied_cnt (im_counter m1)) k = 0) as E1 by (simpl; apply vec_at_fill; lia).
    assert (vec_at 0 (md_unknown_cnt (im_counter m1)) k = md_sub_grid_num (im_counter m)) as E2.
    { simpl. rewrite vec_at_fill by lia. apply int16_id. lia. }
    split_and!; [done|done|]. unfold counter_type, isOccupied_h, isUnknown_h. rewrite E1, E2, Z.ltb_irrefl.
    simpl. by rewrite (proj2 (Z.leb_le _ _)) by lia. }
  assert (inf_ok m1) as Hok1.
  { destruct Hok. constructor; simpl; rewrite ?length_vec_fill; done. }
  destruct (unk_inflation_en (im_cfg m1)) eqn:Een; [|done].
  split_and!; try done. destruct Hok1. constructor; try done. intros _. simpl. rewrite length_vec_fill. auto.
Qed.

Lemma neighbor_count_none sc table P h : window_wf sc -> (forall k, 0 <= k < sc_map_vox_num sc -> P k = false) ->
  neighbor_count sc table P h = 0.
Proof.
  intros Hw HP. unfold neighbor_count. rewrite (count_of_ext _ (fun _ => false)).
  - induction table; [done|]. rewrite count_of_cons. lia.
  - intros n _. by apply HP, slot_range.
Qed.

Lemma neighbor_count_all sc table P h : window_wf sc -> (forall k, 0 <= k < sc_map_vox_num sc -> P k = true) ->
  neighbor_count sc table P h = Z.of_nat (length table).
Proof.
  intros Hw HP. unfold neighbor_count. rewrite (count_of_ext _ (fun _ => true)).
  - induction table; [done|]. rewrite count_of_cons. simpl length. lia.
  - intros n _. by apply HP, slot_range.
Qed.

(** An unobserved map: its counters are the sizes of the tables. *)
Lemma resetLocalMap_exact m : inf_ok m ->
  imd_unk_neighbor_num m = Z.of_nat (length (unk_inf_spherical_neighbor (im_cfg m))) \/ unk_inflation_en (im_cfg m) = false ->
  inflation_exact (inf_resetLocalMap m).
Proof.
  intros Hok Hnum. destruct (resetLocalMap_spec m Hok) as (Hok' & Hs & Hc & _ & Hk). constructor; rewrite Hs, Hc.
  - intros h Hh. rewrite neighbor_count_none; [|by destruct Hok|].
    + unfold inf_resetLocalMap. destruct (unk_inflation_en _); simpl; apply vec_at_fill; by rewrite (io_occ_inf m Hok).
    + intros k Hkr. unfold has_type. by destruct (Hk k Hkr) as (_ & _ & ->).
  - intros h Hen Hh. destruct Hnum as [Hnum|]; [|congruence]. rewrite neighbor_count_all; [|by destruct Hok|].
    + unfold inf_resetLocalMap. simpl. rewrite Hen. simpl. rewrite vec_at_fill by (by rewrite (io_unk_inf m Hok)).
      by rewrite Hnum.
    + intros k Hkr. unfold has_type. by destruct (Hk k Hkr) as (_ & _ & ->).
Qed.
End Updates.

(** ** Sliding the inflated map *)

(** The derived classes implement the interface of the sliding window. *)
#[export, refine] Instance InfMap_cells (n : Z) : SlidingCells InfMap (Z * Z) InfMap_sliding := {
  cell m k := (vec_at 0 (md_occupied_cnt (im_counter m)) k, vec_at 0 (md_unknown_cnt (im_counter m)) k);
  fresh c := c = (0, n);
  cells_ok m := inf_ok m /\ md_sub_grid_num (im_counter m) = n
}.
Proof.
  - done.
  - done.
  - intros b m [[Hw Ho Hu Hoi Hui Hsub] Hn] Hc. simpl in Hc. split; [|done].
    pose proof (cfg_vox _ _ Hc) as Hv. constructor; change (im_sliding (sm_set_base b m)) with b; rewrite ?Hv;
      [by eapply same_config_wf|done..].
  - intros m [Hok Hn]. destruct (resetLocalMap_spec m Hok) as (Hok' & Hs & Hc & Hsub & Hk). simpl.
    split; [split; [done|by rewrite <- Hn]|]. split; [done|]. intros k Hkr. destruct (Hk k Hkr) as (-> & -> & _). by rewrite Hn.
  - intros h m [Hok Hn] Hh. change (sm_base m) with (im_sliding m) in *.
    change (resetCell h m) with (counter_resetCell h m). destruct (resetCell_ok h m Hok Hh) as (Hok' & Hs & Hc & Hsub & _).
    split; [split; [done|by rewrite <- Hn]|]. split; [done|]. split.
    + rewrite resetCell_dead by done. simpl. destruct Hok as [_ Ho Hu _ _ _].
      rewrite (vec_at_set_eq 0), (vec_at_set_eq 0) by lia. by rewrite Hn.
    + intros k Hk Hne. rewrite resetCell_dead by done. simpl. by rewrite !(vec_at_set_ne 0) by lia.
Defined.

#[export, refine] Instance FreeCntMap_cells : SlidingCells FreeCntMap Z FreeCntMap_sliding := {
  cell m k := vec_at 0 (neighbor_free_cnt m) k;
  fresh c := c = 0;
  cells_ok m := Z.of_nat (length (neighbor_free_cnt m)) = sc_map_vox_num (fm_sliding m)
}.
Proof.
  - done.
  - done.
  - intros b m Hl Hc. simpl in *. by rewrite Hl, (cfg_vox _ _ Hc).
  - intros m Hl. simpl. split_and!; [by rewrite length_vec_fill|done|]. intros k Hk. by rewrite vec_at_fill by lia.
  - intros h m Hl Hh. simpl in *. split_and!; [by rewrite length_vec_set|done|by rewrite vec_at_set_eq by lia|].
    intros k Hk Hne. by rewrite vec_at_set_ne by lia.
Defined.

(** The invariant does not depend on where the window is. *)
Lemma neighbor_count_shape a b table P h : window_wf a -> same_config b a -> 0 <= h < sc_map_vox_num a ->
  neighbor_count b table P h = neighbor_count a table P h.
Proof.
  intros Hw Hc Hh. assert (window_wf b) as Hwb by by eapply same_config_wf. pose proof (same_config_shape _ _ Hc) as Hsh.
  apply count_of_ext. intros n _. f_equal. rewrite !(hash_same_shape b a) by done.
  change (idx_sub ?g n) with (idx_add g (idx_neg n)). apply hash_add; [done|].
  rewrite <- (hash_same_shape b a) by done.
  destruct (global_of_hash a Hw h Hh) as [_ ->]. by apply global_of_hash; [|rewrite (cfg_vox _ _ Hc)].
Qed.

Lemma retarget_exact b m : inf_ok m -> same_config b (im_sliding m) ->
  inf_ok (sm_set_base b m) /\ (inflation_exact m -> inflation_exact (sm_set_base b m)).
Proof.
  intros Hok Hc. split.
  - by apply (set_base_ok (SlidingCells := InfMap_cells (md_sub_grid_num (im_counter m))) b m).
  - pose proof (io_wf m Hok) as Hw. intros [Hexo Hexu].
    constructor; change (im_sliding (sm_set_base b m)) with b; rewrite (cfg_vox _ _ Hc); simpl.
    + intros h Hh. rewrite (neighbor_count_shape (im_sliding m)) by done. by apply Hexo.
    + intros h Hen Hh. rewrite (neighbor_count_shape (im_sliding m)) by done. by apply Hexu.
Qed.

Lemma reset_unknown_exact L m : inf_ok m -> inflation_exact m ->
  Forall (fun h => 0 <= h < sc_map_vox_num (im_sliding m) /\ counter_type (im_counter m) h = UNKNOWN) L ->
  let m' := foldl (fun m h => resetCell h m) m L in
  inf_ok m' /\ inflation_exact m' /\ im_sliding m' = im_sliding m /\ im_cfg m' = im_cfg m /\
  forall k, 0 <= k < sc_map_vox_num (im_sliding m) -> counter_type (im_counter m') k = counter_type (im_counter m) k.
Proof.
  revert m. induction L as [|h L IH]; intros m Hok Hex HL; cbv zeta; [done|].
  apply Forall_cons in HL as [[Hh Ht] HL]. cbn [foldl]. change (resetCell h m) with (counter_resetCell h m).
  destruct (resetCell_ok h m Hok Hh) as (Hok1 & Hs1 & Hc1 & _ & Ht1 & Hk1).
  assert (forall k, 0 <= k < sc_map_vox_num (im_sliding m) ->
    counter_type (im_counter (counter_resetCell h m)) k = counter_type (im_counter m) k) as Hsame.
  { intros k Hk. destruct (decide (k = h)) as [->|]; [congruence|apply Hk1; [lia|done]]. }
  assert (inflation_exact (counter_resetCell h m)) as Hex1.
  { apply (same_types_exact m); try done; by rewrite (resetCell_dead h m Hok Hh). }
  destruct (IH _ Hok1 Hex1) as (Hok2 & Hex2 & Hs2 & Hc2 & Hk2).
  { rewrite Hs1. eapply Forall_impl; [exact HL|]. intros k [Hk Hkt]. split; [done|]. by rewrite Hsame. }
  split_and!; [done|done|congruence|congruence|]. rewrite Hs1 in Hk2. intros k Hk. by rewrite Hk2, Hsame.
Qed.

Section Slides.
Context `{EigenOps}.

(** The cells cleared when the window moves to [o]. *)
Definition slide_clean (m : InfMap) (o : GridIndex3) : bool :=
  forallb (fun h => insideLocalMap_i (window_of (im_sliding m) o) (hashIdToGlobalIndex (im_sliding m) h)
                    || (counter_type (im_counter m) h ==? UNKNOWN))
    (seqZ 0 (sc_map_vox_num (im_sliding m))).

(** [false] exactly when sliding to [odom] clears a cell that is not unknown,
    other than by clearing the whole map. *)
Definition slide_keeps_inflation (m : InfMap) (odom : vec3) : bool :=
  match indexFromPosition odom (sc_resolution (im_sliding m)) with
  | None => true
  | Some o =>
      shift_too_far (sc_map_size_i (im_sliding m)) (idx_sub o (local_map_origin_i (im_sliding m)))
      || slide_clean m o
  end.

Lemma cleared_cell_leaves sc shift i k : axis3 i -> window_wf sc -> shift_ok sc shift -> idx_at shift i <> 0 ->
  k ∈ clear_cells sc (slide_clear_ids sc i (idx_at shift i)) i ->
  insideLocalMap_i (window_of sc (idx_add (local_map_origin_i sc) shift)) (hashIdToGlobalIndex sc k) = false.
Proof.
  intros Hi Hw Hs Hn Hk. pose proof (clear_cells_range sc shift i k Hi Hw Hs Hn Hk) as Hr.
  destruct (global_of_hash sc Hw k Hr) as [Hin Hh]. rewrite <- Hh in Hk.
  apply slide_cells_spec in Hk; [|done..]. apply not_true_iff_false. intros Hnew.
  assert (Exists (fun i => leaves sc shift i (hashIdToGlobalIndex sc k)) [0; 1; 2]) as Hex.
  { apply Exists_exists. exists i. split; [|done]. destruct Hi as [->|[->| ->]]; [by left|right; by left|right; right; by left]. }
  apply (leaves_new_window sc (idx_add (local_map_origin_i sc) shift)) in Hex; [congruence|done..].
Qed.

(** What [InfMap_new] establishes of the number of neighbours. *)
Definition neighbors_known (m : InfMap) : Prop :=
  imd_unk_neighbor_num m = Z.of_nat (length (unk_inf_spherical_neighbor (im_cfg m))) \/
  unk_inflation_en (im_cfg m) = false.

Definition inf_inv (m : InfMap) : Prop := inf_ok m /\ inflation_exact m /\ neighbors_known m.

(** Everything but the counters. *)
Definition same_setup (a b : InfMap) : Prop :=
  im_cfg a = im_cfg b /\ imd_unk_neighbor_num a = imd_unk_neighbor_num b.

Lemma updateInflation_setup g b m : same_setup (updateInflation g b m) m.
Proof.
  unfold updateInflation. generalize (inf_spherical_neighbor (im_cfg m)) as table. intros table.
  revert m. induction table as [|n table IH]; intros m; [done|]. cbn [foldl].
  match goal with |- same_setup (foldl ?f ?m' table) m => exact (IH m') end.
Qed.

Lemma updateUnkInflation_setup g b m : same_setup (updateUnkInflation g b m) m.
Proof.
  unfold updateUnkInflation. destruct (negb _); [done|].
  generalize (unk_inf_spherical_neighbor (im_cfg m)) as table. intros table.
  revert m. induction table as [|n table IH]; intros m; [done|]. cbn [foldl].
  match goal with |- same_setup (foldl ?f ?m' table) m => exact (IH m') end.
Qed.

Lemma same_setup_trans a b c : same_setup a b -> same_setup b c -> same_setup a c.
Proof. intros [? ?] [? ?]. split; congruence. Qed.

Lemma trigger_setup g from to m : same_setup (inf_triggerJumpingEdge g from to m) m.
Proof.
  unfold inf_triggerJumpingEdge.
  set (m1 := if from ==? OCCUPIED then _ else m).
  assert (same_setup m1 m) as H1 by (subst m1; case_match; [apply updateInflation_setup|done]). clearbody m1.
  set (m2 := if to ==? OCCUPIED then _ else m1).
  assert (same_setup m2 m) as H2.
  { subst m2; case_match; [eapply same_setup_trans; [apply updateInflation_setup|]|]; done. } clearbody m2.
  destruct (unk_inflation_en (im_cfg m2)); [|done].
  set (m3 := if from ==? UNKNOWN then _ else m2).
  assert (same_setup m3 m) as H3.
  { subst m3; case_match; [eapply same_setup_trans; [apply updateUnkInflation_setup|]|]; done. } clearbody m3.
  case_match; [eapply same_setup_trans; [apply updateUnkInflation_setup|]|]; done.
Qed.

Lemma updateGridCounter_setup pos from to m : same_setup (updateGridCounter pos from to m) m.
Proof.
  unfold updateGridCounter. cbv zeta.
  match goal with |- same_setup (if ?b then _ else _) _ => destruct b end; [|done].
  eapply same_setup_trans; [apply trigger_setup|done].
Qed.

Lemma known_setup a b : same_setup a b -> neighbors_known b -> neighbors_known a.
Proof. unfold neighbors_known. by intros [-> ->]. Qed.

Lemma reset_cells_setup L m : same_setup (foldl (fun m h => resetCell h m) m L) m.
Proof.
  revert m. induction L as [|h L IH]; intros m; [done|]. cbn [foldl]. eapply same_setup_trans; [apply IH|].
  change (resetCell h m) with (counter_resetCell h m). unfold counter_resetCell. cbn [cm_of cm_set InfMap_counter resetOneCell].
  unfold inf_resetOneCell. case_match; [|done]. eapply same_setup_trans; [apply trigger_setup|done].
Qed.

(** One axis. *)
Lemma slide_axis_exact shift i m : axis3 i -> inf_inv m -> shift_ok (im_sliding m) shift ->
  (forall k, idx_at shift i <> 0 -> k ∈ clear_cells (im_sliding m) (slide_clear_ids (im_sliding m) i (idx_at shift i)) i ->
     counter_type (im_counter m) k = UNKNOWN) ->
  let m' := slide_axis shift m i in
  inf_inv m' /\ same_window (im_sliding m') (im_sliding m) /\
  forall k, 0 <= k < sc_map_vox_num (im_sliding m) -> counter_type (im_counter m') k = counter_type (im_counter m) k.
Proof.
  intros Hi (Hok & Hex & Hkn) Hs Hcl. cbv zeta. unfold slide_axis. change (sm_base m) with (im_sliding m).
  destruct (Z.eqb_spec (idx_at shift i) 0) as [E0|Hn]; [by split_and!|].
  set (n := u64_add _ _). unfold set_cleared, clearMemoryOutOfMap. change (sm_base m) with (im_sliding m).
  set (b := (im_sliding m) <| last_slide_cells_cleared := n |>).
  assert (same_config b (im_sliding m)) as Hb by by constructor.
  destruct (retarget_exact b m Hok Hb) as [Hok1 Hex1]. specialize (Hex1 Hex).
  set (m1 := sm_set_base b m) in *. change (sm_base m1) with b.
  change (clear_cells b) with (clear_cells (im_sliding m)).
  destruct (reset_unknown_exact (clear_cells (im_sliding m) (slide_clear_ids (im_sliding m) i (idx_at shift i)) i) m1 Hok1 Hex1)
    as (Hok2 & Hex2 & Hs2 & Hc2 & Hk2).
  { apply Forall_forall. intros k Hk. split; [|by apply Hcl].
    change (sc_map_vox_num (im_sliding m1)) with (sc_map_vox_num (im_sliding m)).
    eapply clear_cells_range; [done|by destruct Hok|done..]. }
  set (m2 := foldl _ m1 _) in *. split_and!.
  - split_and!; [done|done|]. by apply (known_setup m2 m), Hkn; apply (reset_cells_setup _ m1).
  - by rewrite Hs2.
  - exact Hk2.
Qed.

Lemma slide_axes_exact shift l m : Forall axis3 l -> inf_inv m -> shift_ok (im_sliding m) shift ->
  (forall i k, i ∈ l -> idx_at shift i <> 0 ->
     k ∈ clear_cells (im_sliding m) (slide_clear_ids (im_sliding m) i (idx_at shift i)) i ->
     counter_type (im_counter m) k = UNKNOWN) ->
  inf_inv (foldl (slide_axis shift) m l).
Proof.
  revert m. induction l as [|i l IH]; intros m Hl Hm Hs Hcl; [done|]. apply Forall_cons in Hl as [Hi Hl].
  cbn [foldl]. destruct (slide_axis_exact shift i m Hi Hm Hs) as (Hm1 & [Hc1 Ho1] & Hk1).
  { intros k. apply Hcl. by left. }
  apply IH; [done|done|unfold shift_ok in *; by rewrite (cfg_size _ _ Hc1)|].
  intros j k Hj Hn Hk.
  assert (clear_cells (im_sliding (slide_axis shift m i)) (slide_clear_ids (im_sliding (slide_axis shift m i)) j (idx_at shift j)) j
    = clear_cells (im_sliding m) (slide_clear_ids (im_sliding m) j (idx_at shift j)) j) as E.
  { unfold clear_cells, slide_clear_ids, getLocalIndexHash. by rewrite (cfg_size _ _ Hc1), (cfg_half _ _ Hc1), Ho1. }
  rewrite E in Hk. rewrite Hk1; [apply (Hcl j); [by right|done|done]|].
  eapply (clear_cells_range _ shift j); [by eapply Forall_forall in Hl|by destruct Hm as [[] _]|done..].
Qed.

Lemma set_base_inv b m : inf_inv m -> same_config b (im_sliding m) -> inf_inv (sm_set_base b m).
Proof.
  intros (Hok & Hex & Hkn) Hb. destruct (retarget_exact b m Hok Hb) as [Hok1 Hex1]. split_and!; [done|by apply Hex1|done].
Qed.

Lemma resetLocalMap_inv m : inf_inv m -> inf_inv (inf_resetLocalMap m).
Proof.
  intros (Hok & Hex & Hkn). destruct (resetLocalMap_spec m Hok) as (Hok' & Hs' & Hc' & _).
  split_and!; [done|by apply resetLocalMap_exact|]. apply (known_setup _ m); [|done]. split; [done|].
  unfold inf_resetLocalMap. by case_match.
Qed.

(** The axes of a shift inside the window. *)
Lemma slide_near_inv o m : inf_inv m ->
  let shift := idx_sub o (local_map_origin_i (im_sliding m)) in
  shift_too_far (sc_map_size_i (im_sliding m)) shift = false -> slide_clean m o = true ->
  inf_inv (foldl (slide_axis shift) m [0; 1; 2]).
Proof.
  intros Hm shift Hnear Hclean. pose proof (near_shift_ok _ _ Hnear) as Hs. pose proof (io_wf m (proj1 Hm)) as Hw.
  apply slide_axes_exact; [repeat constructor; unfold axis3; lia|done|done|].
  intros i k Hi Hn Hk. unfold slide_clean in Hclean. rewrite forallb_forall in Hclean.
  assert (axis3 i) as Hi3.
  { unfold axis3. rewrite !elem_of_cons, elem_of_nil in Hi. tauto. }
  pose proof (clear_cells_range (im_sliding m) shift i k Hi3 Hw Hs Hn Hk) as Hr.
  specialize (Hclean k). rewrite <- list_elem_of_In, elem_of_seqZ in Hclean. specialize (Hclean ltac:(lia)).
  apply orb_true_iff in Hclean as [Hin|Ht]; [|by apply bool_decide_eq_true in Ht].
  pose proof (cleared_cell_leaves (im_sliding m) shift i k Hi3 Hw Hs Hn Hk) as Hout.
  unfold shift in Hout. rewrite idx_add_sub in Hout. congruence.
Qed.

(** Sliding keeps the invariant when what it clears is unknown. *)
Lemma mapSliding_exact odom m : inf_inv m -> slide_keeps_inflation m odom = true -> inf_inv (mapSliding odom m).
Proof.
  intros Hm Hkeep. unfold mapSliding, set_cleared. change (sm_base m) with (im_sliding m).
  set (b0 := (im_sliding m) <| last_slide_cells_cleared := 0 |>).
  pose proof (set_base_inv b0 m Hm ltac:(by constructor)) as Hm0. set (m0 := sm_set_base b0 m) in *.
  change (sm_base m0) with b0. change (sc_resolution b0) with (sc_resolution (im_sliding m)).
  unfold slide_keeps_inflation in Hkeep.
  destruct (indexFromPosition odom (sc_resolution (im_sliding m))) as [o|]; [|done].
  change (sc_map_size_i b0) with (sc_map_size_i (im_sliding m)).
  change (local_map_origin_i b0) with (local_map_origin_i (im_sliding m)).
  set (m2 := if shift_too_far _ _ then _ else _).
  assert (inf_inv m2) as Hm2.
  { subst m2. destruct (shift_too_far _ _) eqn:Efar.
    - apply set_base_inv; [by apply resetLocalMap_inv|by constructor].
    - exact (slide_near_inv o m0 Hm0 Efar Hkeep). }
  apply set_base_inv; [done|]. apply updateLocalMapOriginAndBound_config.
Qed.
End Slides.

(** ** Reachable maps *)

Lemma initSlidingMap_size `{EigenOps} half res en th orig sc sc' : initSlidingMap half res en th orig sc = inr sc' ->
  sc_map_size_i sc' = idx_add (idx_scale 2 (sc_half_map_size_i sc')) (idx_constant 1) /\
  sc_map_vox_num sc' = idx_prod (sc_map_size_i sc').
Proof. unfold initSlidingMap. repeat case_match; try done. by intros [= <-]. Qed.

Lemma initCounterMap_spec `{EigenOps} half a b st en th orig u c c' :
  initCounterMap half a b st en th orig u c = inr c' ->
  let sc := cm_sliding c' in
  sc_map_size_i sc = idx_add (idx_scale 2 (sc_half_map_size_i sc)) (idx_constant 1) /\
  sc_map_vox_num sc = idx_prod (sc_map_size_i sc) /\
  length (md_occupied_cnt c') = Z.to_nat (sc_map_vox_num sc) /\
  length (md_unknown_cnt c') = Z.to_nat (sc_map_vox_num sc) /\
  (1 <= md_sub_grid_num c' -> 1 <= md_unk_thresh c' <= md_sub_grid_num c').
Proof.
  unfold initCounterMap. destruct (cm_had_been_initialized c); [done|].
  destruct (fgt a b); [done|]. destruct (flt u fzero || _); [done|].
  destruct (initSlidingMap _ _ _ _ _ _) as [|sc] eqn:Ei; [done|]. cbv zeta.
  generalize (SF_trunc (f64_mul (f64_round (f64_div (f64_mul a (f64_of_Z (SF_trunc (f64_round (f64_div b a))))) a))
    (f64_mul (f64_round (f64_div (f64_mul a (f64_of_Z (SF_trunc (f64_round (f64_div b a))))) a))
       (f64_round (f64_div (f64_mul a (f64_of_Z (SF_trunc (f64_round (f64_div b a))))) a))))) as n. intros n.
  generalize (SF_trunc (f64_ceil (f64_mul u (f64_of_Z n)))) as t. intros t [= <-].
  destruct (initSlidingMap_size _ _ _ _ _ _ _ Ei) as [Hs Hv]. cbn -[Z.min Z.max].
  rewrite !length_replicate, Hv. split_and!; try done; lia.
Qed.

Section Reach.
Context `{EigenOps}.

(** A window is not empty and its sub-cells fit the counters. *)
Definition inf_sane (m : InfMap) : bool :=
  let h := sc_half_map_size_i (im_sliding m) in
  (0 <=? ix h) && (0 <=? iy h) && (0 <=? iz h)
  && (1 <=? md_sub_grid_num (im_counter m)) && (md_sub_grid_num (im_counter m) <? 2 ^ 15).

Lemma resetLocalMap_frame m :
  let m' := inf_resetLocalMap m in
  im_sliding m' = im_sliding m /\ im_cfg m' = im_cfg m /\ imd_unk_neighbor_num m' = imd_unk_neighbor_num m /\
  md_sub_grid_num (im_counter m') = md_sub_grid_num (im_counter m) /\
  md_unk_thresh (im_counter m') = md_unk_thresh (im_counter m) /\
  length (md_occupied_cnt (im_counter m')) = length (md_occupied_cnt (im_counter m)) /\
  length (md_unknown_cnt (im_counter m')) = length (md_unknown_cnt (im_counter m)).
Proof. unfold inf_resetLocalMap. case_match; simpl; rewrite !length_vec_fill; done. Qed.

Lemma sane_ok m : window_wf (im_sliding m) ->
  length (md_occupied_cnt (im_counter m)) = Z.to_nat (sc_map_vox_num (im_sliding m)) ->
  length (md_unknown_cnt (im_counter m)) = Z.to_nat (sc_map_vox_num (im_sliding m)) ->
  length (imd_occ_inflate_cnt m) = Z.to_nat (sc_map_vox_num (im_sliding m)) ->
  (unk_inflation_en (im_cfg m) = true -> length (imd_unk_inflate_cnt m) = Z.to_nat (sc_map_vox_num (im_sliding m))) ->
  1 <= md_unk_thresh (im_counter m) <= md_sub_grid_num (im_counter m) -> md_sub_grid_num (im_counter m) < 2 ^ 15 ->
  inf_ok m.
Proof.
  intros Hw Hlo Hlu Hoi Hui Ht Hs. pose proof (slot_range _ Hw idx_zero).
  constructor; [done|lia|lia|lia| |done]. intros Hen. specialize (Hui Hen). lia.
Qed.

Lemma InfMap_new_inv cfg m : InfMap_new cfg = inr m -> inf_sane m = true -> inf_inv m.
Proof.
  unfold InfMap_new. destruct (initCounterMap _ _ _ _ _ _ _ _ _) as [|c] eqn:Ec; [done|].
  destruct (initCounterMap_spec _ _ _ _ _ _ _ _ _ _ Ec) as (Hsz & Hv & Hlo & Hlu & Hth).
  cbv zeta. set (m0 := inf_resetLocalMap (mkInf c [] [] 0 0 cfg 0 0)).
  destruct (resetLocalMap_frame (mkInf c [] [] 0 0 cfg 0 0)) as (Es & Ecf & _ & Esub & Eth & Elo & Elu).
  fold m0 in Es, Ecf, Esub, Eth, Elo, Elu. simpl in Es, Ecf, Esub, Eth, Elo, Elu. change (im_sliding _) with (cm_sliding c) in Es at 2.
  clearbody m0. set (m1 := set_member imd_occ_neighbor_num _ _). set (m2 := if unk_inflation_en cfg then _ else m1).
  assert (im_counter m2 = im_counter m0 /\ im_cfg m2 = cfg /\
    length (imd_occ_inflate_cnt m2) = Z.to_nat (sc_map_vox_num (cm_sliding c)) /\
    (unk_inflation_en cfg = true -> length (imd_unk_inflate_cnt m2) = Z.to_nat (sc_map_vox_num (cm_sliding c)) /\
       imd_unk_neighbor_num m2 = Z.of_nat (length (unk_inf_spherical_neighbor cfg)))) as (Ec2 & Ecf2 & El2 & Eu2).
  { subst m2 m1. destruct (unk_inflation_en cfg); simpl; rewrite ?length_replicate, ?Es; done. }
  clearbody m2. clear m1. intros [= <-] Hsane.
  destruct (resetLocalMap_frame m2) as (E1 & _ & _ & E2 & _).
  assert (im_sliding m2 = cm_sliding c) as Es2 by (unfold im_sliding; by rewrite Ec2).
  unfold inf_sane in Hsane. rewrite E1, E2, Es2, Ec2, Esub in Hsane.
  rewrite !andb_true_iff, !Z.leb_le, Z.ltb_lt in Hsane. destruct Hsane as ((((Hx & Hy) & Hz) & H1) & H2).
  assert (inf_ok m2) as Hok.
  { apply sane_ok; rewrite ?Es2, ?Ec2, ?Ecf2, ?Elo, ?Elu, ?Esub, ?Eth; [by constructor|done|done|done|..|by apply Hth|done].
    intros Hen. exact (proj1 (Eu2 Hen)). }
  assert (neighbors_known m2) as Hkn.
  { unfold neighbors_known. rewrite Ecf2. destruct (unk_inflation_en cfg) eqn:Een; [left; by apply Eu2|by right]. }
  destruct (resetLocalMap_spec m2 Hok) as (Hok' & Hs' & Hc' & _).
  split_and!; [done|by apply resetLocalMap_exact|]. apply (known_setup _ m2); [|done].
  destruct (resetLocalMap_frame m2) as (_ & E3 & E4 & _). by split.
Qed.

(** The histories of an inflated map: sub-cells change, and the window slides
    without clearing a cell that is not unknown. *)
Inductive inf_reach (cfg : Config) : InfMap -> Prop :=
| ir_new m : InfMap_new cfg = inr m -> inf_sane m = true -> inf_reach cfg m
| ir_update m pos from to : inf_reach cfg m -> inf_reach cfg (updateGridCounter pos from to m)
| ir_slide m odom : inf_reach cfg m -> slide_keeps_inflation m odom = true -> inf_reach cfg (mapSliding odom m).

Lemma inf_reach_inv cfg m : inf_reach cfg m -> inf_inv m.
Proof.
  induction 1 as [m Hn Hs|m pos from to _ (Hok & Hex & Hkn)|m odom _ IH Hk].
  - by eapply InfMap_new_inv.
  - destruct (updateGridCounter_exact pos from to m Hok Hex) as (Hok' & Hex' & _). split_and!; [done|done|].
    eapply known_setup; [apply updateGridCounter_setup|done].
  - by apply mapSliding_exact.
Qed.

(** A counter that cannot wrap says whether a neighbour is occupied. *)
Lemma exact_positive m g : inf_inv m -> insideLocalMap_i (im_sliding m) g = true ->
  (Z.of_nat (length (inf_spherical_neighbor (im_cfg m))) <? 2 ^ 15) = true ->
  (0 <? vec_at 0 (imd_occ_inflate_cnt m) (getHashIndexFromGlobalIndex (im_sliding m) g)) =
  existsb (fun nei => isOccupied_i (im_counter m) (idx_sub g nei)) (inf_spherical_neighbor (im_cfg m)).
Proof.
  intros (Hok & Hex & _) Hg Hlen%Z.ltb_lt. pose proof (io_wf m Hok) as Hw.
  rewrite (ie_occ m Hex) by by apply slot_range. unfold neighbor_count. rewrite hash_of_global by done.
  match goal with |- (0 <? int16 (count_of ?f ?l)) = _ => pose proof (count_of_bound f l) end.
  rewrite int16_id by lia. rewrite count_of_positive.
  induction (inf_spherical_neighbor (im_cfg m)) as [|n l IH] in |- *; [done|]. simpl. rewrite IH. f_equal.
  unfold has_type, counter_type, isOccupied_i. fold (im_sliding m). by repeat case_match.
Qed.
End Reach.


(** ** A small map *)

(** Cells of one metre, five a side, and an inflation of one step. *)
Definition demo_config : Config :=
  mkConfig false (f64_of_Z 1) vec3_zero (f64_of_Z 1) (f64_of_Z 1) 1 vec3_zero vec3_zero idx_zero idx_zero
    vec3_zero vec3_zero (idx_constant 3) (idx_constant 1) idx_zero true (f64_of_Z 4) (f64_of_Z (-4)) 4 (-4)
    false true false (inflation_neighbors 1) (inflation_neighbors 1) [] 0 true vec3_zero
    fzero (f64_of_Z 10) fzero (f64_of_Z 100) 1 1
    fzero fzero fzero fzero fzero fzero fzero fzero fzero fzero fzero fzero
    true 1 (f64_of_Z 1) (f64_of_Z 1) fzero.

Definition demo_inf : InfMap :=
  match @InfMap_new eigen_reference demo_config with
  | inr m => m
  | inl _ => mkInf CounterMap_default [] [] 0 0 demo_config 0 0
  end.
Definition demo_pos (x : Z) : vec3 := Vec3 (f64_lit x 2) (f64_lit 1 2) (f64_lit 1 2).
Definition demo_hit : InfMap := @updateGridCounter eigen_reference _ _ (demo_pos 1) UNKNOWN OCCUPIED demo_inf.
Definition demo_slid : InfMap := @mapSliding eigen_reference _ _ (demo_pos 3) demo_hit.


Definition demo_free : FreeCntMap :=
  match @FreeCntMap_new eigen_reference (idx_constant 1) (f64_of_Z 1) true fzero vec3_zero with
  | inr m => m
  | inl _ => mkFreeCnt SlidingMap_default []
  end.

(** A count that stays inside the window survives, and one that enters is fresh. *)
Definition demo_counted : FreeCntMap := default demo_free (updateFrontierCounter (Idx 1 0 0) true demo_free).
Definition demo_free_slid : FreeCntMap := @mapSliding eigen_reference _ _ (demo_pos 3) demo_counted.

Lemma mapSliding_restricts_witness :
  getFreeCnt demo_free_slid (Idx 1 0 0) = 1 /\ getFreeCnt demo_free_slid (Idx 2 0 0) = 0.
Proof.
  assert (@window_wf (fm_sliding demo_counted)) as Hw by (constructor; vm_compute; done).
  destruct (@mapSliding_restricts eigen_reference FreeCntMap Z FreeCntMap_sliding FreeCntMap_cells
    (demo_pos 3) demo_counted (Idx 1 0 0) ltac:(vm_compute; reflexivity) Hw ltac:(vm_compute; reflexivity)
    ltac:(vm_compute; reflexivity)) as [_ Hc].
  pose proof (Hc (Idx 1 0 0) ltac:(vm_compute; reflexivity)) as H1.
  pose proof (Hc (Idx 2 0 0) ltac:(vm_compute; reflexivity)) as H2.
  assert (insideLocalMap_i (sm_base demo_counted) (Idx 1 0 0) = true) as E1 by (vm_compute; reflexivity).
  assert (insideLocalMap_i (sm_base demo_counted) (Idx 2 0 0) = false) as E2 by (vm_compute; reflexivity).
  rewrite E1 in H1. rewrite E2 in H2. split; [|exact H2].
  etransitivity; [exact H1|vm_compute; reflexivity].
Defined.

(** ** A slide that is not reported *)

(** Without the hypothesis of [ir_slide] the inflation of a coarse cell that
    leaves the window stays: [counter_resetCell] has already made the cell unknown when
    [inf_resetOneCell] asks for its type. *)
Definition demo_phantom : InfMap := @mapSliding eigen_reference _ _ (demo_pos 9) demo_hit.

Theorem slide_leaves_phantom_inflation :
  @slide_keeps_inflation eigen_reference demo_hit (demo_pos 9) = false /\
  isOccupiedInflate_i demo_phantom (Idx 1 0 0) = true /\
  forallb (fun h => negb (isOccupied_h (im_counter demo_phantom) h)) (seqZ 0 (sc_map_vox_num (im_sliding demo_phantom))) = true.
Proof. repeat split; vm_compute; reflexivity. Qed.
