(* ===== verification/RogRaycaster.v ===== *)
(** * The voxel traversal of the mutable map

    [mapping/rog_map_vendor/.../raycaster.h] and [raycaster.cpp] with
    [ORIGIN_AT_CORNER]: a digital differential analyser that enumerates the voxels
    between two points.  [step_num_] and [first_point] are written and never
    read; they are left out. *)
From S2P Require Import Prelude Float64 Float64Facts Geometry FloatOrder WorldGrid RecordUpdate RogSliding.
From Stdlib Require Import Floats.SpecFloat.

Definition signum (val : Z) : Z := (if 0 <? val then 1 else 0) - (if val <? 0 then 1 else 0).

Record RayCaster : Type := mkRay {
  rc_resolution : f64;
  start_d : vec3;
  end_d : vec3;
  t_to_bound_x : f64; t_to_bound_y : f64; t_to_bound_z : f64;
  expand_dir : GridIndex3;
  end_i : GridIndex3;
  start_i : GridIndex3;
  cur_ray_pt_id : GridIndex3;
  t_when_step_x : f64; t_when_step_y : f64; t_when_step_z : f64
}.

#[export] Instance RayCaster_eta : Eta RayCaster := fun r =>
  mkRay (rc_resolution r) (start_d r) (end_d r) (t_to_bound_x r) (t_to_bound_y r) (t_to_bound_z r)
    (expand_dir r) (end_i r) (start_i r) (cur_ray_pt_id r) (t_when_step_x r) (t_when_step_y r)
    (t_when_step_z r).

(** [RayCaster()]; the members without an initialiser are zero here. *)
Definition RayCaster_default : RayCaster :=
  mkRay (f64_of_Z (-1)) vec3_zero vec3_zero fzero fzero fzero idx_zero idx_zero idx_zero idx_zero
    fzero fzero fzero.

Definition resolution_ok (resolution : f64) : bool := isfinite resolution && negb (fle resolution fzero).

(** [None] is the throw. *)
Definition setResolution (resolution : f64) (r : RayCaster) : option RayCaster :=
  if negb (resolution_ok resolution) then None else Some (r <| rc_resolution := resolution |>).

(** [posToIndex]: the index is zero after a failure. *)
Definition posToIndex (r : RayCaster) (d : f64) : Z := default 0 (indexFromCoordinate d (rc_resolution r)).

Definition indexToPos (r : RayCaster) (id : Z) : f64 :=
  f64_mul (f64_add (f64_of_Z id) lit_half) (rc_resolution r).

(** The local lambda [coordinateToIndex] *)
Definition coordinateToIndex (r : RayCaster) (value : f64) : option Z :=
  let candidate := f80_floor (f80_div (f80_of_f64 value) (f80_of_f64 (rc_resolution r))) in
  if negb (isfinite candidate) || flt candidate (f80_of_Z i32_min) || fgt candidate (f80_of_Z i32_max)
  then None
  else Some (SF_trunc candidate).

(** [std::numeric_limits<double>::max()], the time of an axis that must not be
    selected. *)
Definition never : f64 := f64_max.

Definition axis_t_when_step (r : RayCaster) (dir : Z) (dis_over_t : f64) : f64 :=
  if dir =? 0 then never else fabs (f64_div (rc_resolution r) dis_over_t).

Definition axis_t_to_bound (r : RayCaster) (dir start_index : Z) (start dis_over_t : f64) : f64 :=
  let next_bound := f64_add (indexToPos r start_index)
                      (f64_mul (f64_mul (f64_of_Z dir) (rc_resolution r)) lit_half) in
  if dir =? 0 then never else f64_div (fabs (f64_sub next_bound start)) dis_over_t.

(** The component of the direction along one axis. *)
Definition f80_distance (e s : f64) : f80 := fabs (f80_sub (f80_of_f64 e) (f80_of_f64 s)).

(** Once both ends are indexed. [None] is the result [false]. *)
Definition traversal_setup (s_i e_i : GridIndex3) (r : RayCaster) : option RayCaster :=
  let r := r <| start_i := s_i |> <| end_i := e_i |> <| cur_ray_pt_id := s_i |>
             <| expand_dir := Idx (signum (ix e_i - ix s_i)) (signum (iy e_i - iy s_i))
                                  (signum (iz e_i - iz s_i)) |> in
  let dir := expand_dir r in
  if (ix dir =? 0) && (iy dir =? 0) && (iz dir =? 0) then None
  else
    let dx := f80_distance (vx (end_d r)) (vx (start_d r)) in
    let dy := f80_distance (vy (end_d r)) (vy (start_d r)) in
    let dz := f80_distance (vz (end_d r)) (vz (start_d r)) in
    let t_max_ld :=
      f80_sqrt (f80_add (f80_add (f80_mul dx dx) (f80_mul dy dy)) (f80_mul dz dz)) in
    if negb (isfinite t_max_ld) || fle t_max_ld fzero || fgt t_max_ld (f80_of_f64 f64_max) then None
    else
      let t_max := f64_of_f80 t_max_ld in
      let dis_x := f64_div (f64_of_f80 dx) t_max in
      let dis_y := f64_div (f64_of_f80 dy) t_max in
      let dis_z := f64_div (f64_of_f80 dz) t_max in
      Some (r <| t_when_step_x := axis_t_when_step r (ix dir) dis_x |>
              <| t_when_step_y := axis_t_when_step r (iy dir) dis_y |>
              <| t_when_step_z := axis_t_when_step r (iz dir) dis_z |>
              <| t_to_bound_x := axis_t_to_bound r (ix dir) (ix s_i) (vx (start_d r)) dis_x |>
              <| t_to_bound_y := axis_t_to_bound r (iy dir) (iy s_i) (vy (start_d r)) dis_y |>
              <| t_to_bound_z := axis_t_to_bound r (iz dir) (iz s_i) (vz (start_d r)) dis_z |>).

(** [setInput]: [None] is the throw on an unset resolution, [Some None] the
    result [false] (what is left in the members is not used after it). *)
Definition setInput `{EigenOps} (start end_ : vec3) (r : RayCaster) : option (option RayCaster) :=
  if negb (resolution_ok (rc_resolution r)) then None
  else if negb (v_allFinite start) || negb (v_allFinite end_) then Some None
  else
    let r := r <| start_d := start |> <| end_d := end_ |> in
    match coordinateToIndex r (vx start), coordinateToIndex r (vy start), coordinateToIndex r (vz start),
          coordinateToIndex r (vx end_), coordinateToIndex r (vy end_), coordinateToIndex r (vz end_) with
    | Some sx, Some sy, Some sz, Some ex, Some ey, Some ez =>
        Some (traversal_setup (Idx sx sy sz) (Idx ex ey ez) r)
    | _, _, _, _, _, _ => Some None
    end.

Definition expand_x (r : RayCaster) : RayCaster :=
  r <| cur_ray_pt_id ::= fun i => Idx (ix i + ix (expand_dir r)) (iy i) (iz i) |>
    <| t_to_bound_x ::= fun t => f64_add t (t_when_step_x r) |>.
Definition expand_y (r : RayCaster) : RayCaster :=
  r <| cur_ray_pt_id ::= fun i => Idx (ix i) (iy i + iy (expand_dir r)) (iz i) |>
    <| t_to_bound_y ::= fun t => f64_add t (t_when_step_y r) |>.
Definition expand_z (r : RayCaster) : RayCaster :=
  r <| cur_ray_pt_id ::= fun i => Idx (ix i) (iy i) (iz i + iz (expand_dir r)) |>
    <| t_to_bound_z ::= fun t => f64_add t (t_when_step_z r) |>.

(** A finished axis is never selected again. *)
Definition retire_axes (r : RayCaster) : RayCaster :=
  let r := if ix (cur_ray_pt_id r) =? ix (end_i r) then r <| t_to_bound_x := never |> else r in
  let r := if iy (cur_ray_pt_id r) =? iy (end_i r) then r <| t_to_bound_y := never |> else r in
  if iz (cur_ray_pt_id r) =? iz (end_i r) then r <| t_to_bound_z := never |> else r.

Definition select_axis (r : RayCaster) : RayCaster :=
  if flt (t_to_bound_x r) (t_to_bound_y r) then
    if flt (t_to_bound_x r) (t_to_bound_z r) then expand_x r else expand_z r
  else
    if flt (t_to_bound_y r) (t_to_bound_z r) then expand_y r else expand_z r.

(** [stepIndex]: the voxel and the result with the state it leaves. *)
Definition stepIndex (r : RayCaster) : GridIndex3 * bool * RayCaster :=
  let voxel := cur_ray_pt_id r in
  if (ix voxel =? ix (end_i r)) && (iy voxel =? iy (end_i r)) && (iz voxel =? iz (end_i r))
  then (voxel, false, r)
  else (voxel, true, select_axis (retire_axes r)).

(** [step]: the same in metric points. *)
Definition step (r : RayCaster) : vec3 * bool * RayCaster :=
  let '(voxel, has_step, r') := stepIndex r in
  (Vec3 (indexToPos r (ix voxel)) (indexToPos r (iy voxel)) (indexToPos r (iz voxel)), has_step, r').

(** The loop [while (raycaster.stepIndex(voxel))] of a client, which may end it:
    [visit] returns [None] to break.  [None] is an unfinished traversal. *)
Section Loop.
Context {A : Type} (visit : GridIndex3 -> A -> A + A).

(** [inl a] stops with [a], [inr a] goes on. *)
Fixpoint traverse (fuel : nat) (r : RayCaster) (a : A) : option A :=
  match fuel with
  | O => None
  | S fuel =>
      let '(voxel, has_step, r') := stepIndex r in
      if has_step
      then match visit voxel a with inl a' => Some a' | inr a' => traverse fuel r' a' end
      else Some a
  end.
End Loop.

(** The steps between the two ends. *)
Definition steps_left (r : RayCaster) : Z :=
  Z.abs (ix (end_i r) - ix (cur_ray_pt_id r)) + Z.abs (iy (end_i r) - iy (cur_ray_pt_id r))
  + Z.abs (iz (end_i r) - iz (cur_ray_pt_id r)).
Definition traversal_fuel (r : RayCaster) : nat := S (Z.to_nat (steps_left r)).

(** * The traversal of the mutable map is a shortest lattice path

    With boundary times of an ordinary size the traversal ends at the voxel of
    the end point after exactly the steps between the two voxels, one voxel face
    at a time; the guard that retires a finished axis is what prevents an
    overshoot.  The guard does not help an axis whose boundary time overflows:
    [raycaster_can_spin]. *)

(** ** Indices are machine integers *)

Lemma f80_floor_valid x : f80_valid x = true -> f80_valid (f80_floor x) = true.
Proof. intros Hx. unfold f80_floor. apply f80_valid_opp, SF_ceil_valid; [done|]. by apply f80_valid_opp. Qed.

Lemma fopp_isfinite x : isfinite (fopp x) = isfinite x.
Proof. by destruct x. Qed.

Lemma fopp_fopp x : fopp (fopp x) = x.
Proof. destruct x as [[]|[]| |[] m e]; done. Qed.

Lemma SF_trunc_opp x : SF_trunc (fopp x) = - SF_trunc x.
Proof. destruct x as [s|s| |s m e]; try done. by destruct s; simpl; rewrite ?Z.opp_involutive. Qed.

Lemma flt_opp_f80 x y : f80_valid x = true -> f80_valid y = true -> isnan x = false -> isnan y = false ->
  flt (fopp x) (fopp y) = flt y x.
Proof.
  intros Hx Hy Nx Ny.
  assert (isnan (fopp x) = false) by (by destruct x). assert (isnan (fopp y) = false) by (by destruct y).
  rewrite (SF_ltb_units prec80 emax80) by (done || by apply f80_valid_opp).
  rewrite (SF_ltb_units prec80 emax80) by done. rewrite !SF_units_opp.
  apply Bool.eq_true_iff_eq. rewrite !Z.ltb_lt. lia.
Qed.

(** Truncation between two integers, of either sign. *)
Lemma f80_trunc_between_Z x lo hi :
  f80_valid x = true -> isfinite x = true -> - 2 ^ 63 <= lo <= 0 -> 0 <= hi < 2 ^ 63 ->
  flt x (f80_of_Z lo) = false -> fgt x (f80_of_Z hi) = false -> lo <= SF_trunc x <= hi.
Proof.
  intros Hv Hf Hlo Hhi Hl Hh. destruct (flt x fzero) eqn:Ez.
  - rewrite <- (fopp_fopp x), SF_trunc_opp.
    enough (0 <= SF_trunc (fopp x) <= - lo) by lia.
    assert (fopp (f80_of_Z (- lo)) = f80_of_Z lo \/ lo = 0) as Hopp.
    { destruct (decide (lo = 0)) as [->|Hne]; [by right|left]. destruct lo as [|p|p]; [done|lia|].
      unfold f80_of_Z, binary_normalize. simpl. unfold binary_round. destruct (shl_align p 0 _) as [mz ez].
      unfold binary_round_aux. destruct (shr_fexp _ _ _ ez _) as [mrs e1].
      destruct (shr_fexp _ _ (round_nearest_even _ _) e1 _) as [mrs2 e2]. destruct (shr_m mrs2); try done. by case_match. }
    destruct Hopp as [Hopp| ->]; [|by change (f80_of_Z 0) with fzero in Hl; rewrite Ez in Hl].
    apply (f80_trunc_between (fopp x) 0 (- lo)); try lia.
    + by apply f80_valid_opp.
    + by rewrite fopp_isfinite.
    + change (f80_of_Z 0) with fzero. apply not_true_iff_false. intros Ht.
      destruct x as [[]|[]| |[] m e]; try done.
    + unfold fgt. rewrite <- (fopp_fopp (f80_of_Z (- lo))), Hopp.
      change (SFltb (fopp (f80_of_Z lo)) (fopp x)) with (flt (fopp (f80_of_Z lo)) (fopp x)).
      rewrite flt_opp_f80; [done|apply f80_of_Z_valid|done| |by apply isfinite_not_nan].
      apply isfinite_not_nan. apply (f80_of_Z_units lo). lia.
  - destruct (f80_trunc_between x 0 hi); try done; try lia.
Qed.

Lemma coordinateToIndex_range r v i : coordinateToIndex r v = Some i ->
  i32_min <= i <= i32_max.
Proof.
  unfold coordinateToIndex. set (c := f80_floor _). intros H.
  destruct (negb (isfinite c)) eqn:Ef; [done|]. destruct (flt c (f80_of_Z i32_min)) eqn:El; [done|].
  destruct (fgt c (f80_of_Z i32_max)) eqn:Eh; [done|]. injection H as <-.
  apply f80_trunc_between_Z; [|by apply negb_false_iff|done..].
  unfold c. apply f80_floor_valid, f80_div_valid; apply f80_of_f64_valid.
Qed.

(** ** Boundary times *)

(** [2^900], in units [2^1974]. *)
Definition time_limit : f64 := S754_finite false 4503599627370496 848.

(** A boundary time or increment of an ordinary size. *)
Definition ordinary_time (t : f64) : bool := f64_valid t && fle fzero t && fle t time_limit.

(** The times of the axes that have to move. *)
Definition ordinary (r : RayCaster) : bool :=
  (ix (expand_dir r) =? 0) && (iy (expand_dir r) =? 0) && (iz (expand_dir r) =? 0)
  || ((ix (expand_dir r) =? 0) || ordinary_time (t_to_bound_x r) && ordinary_time (t_when_step_x r))
     && ((iy (expand_dir r) =? 0) || ordinary_time (t_to_bound_y r) && ordinary_time (t_when_step_y r))
     && ((iz (expand_dir r) =? 0) || ordinary_time (t_to_bound_z r) && ordinary_time (t_when_step_z r)).

Definition limit_units : Z := 2 ^ (900 - emin prec64 emax64).
Lemma limit_pos : 0 < limit_units.
Proof. by apply Z.pow_pos_nonneg. Qed.
Lemma time_limit_units : f64_units time_limit = limit_units.
Proof. vm_compute. reflexivity. Qed.
Lemma limit_never : 2 ^ 53 * limit_units < f64_units never.
Proof. vm_compute. reflexivity. Qed.
#[global] Opaque limit_units.

(** After [j] additions a time is at most [j + 1] times the limit. *)
Definition time_below (j : Z) (t : f64) : Prop :=
  f64_valid t = true /\ isfinite t = true /\ 0 <= f64_units t <= (j + 1) * limit_units.

Lemma ordinary_time_below t : ordinary_time t = true -> time_below 0 t.
Proof.
  unfold ordinary_time. rewrite !andb_true_iff. intros [[Hv H0] H1]. destruct (fle_not_nan _ _ H0) as [_ Hn].
  assert (f64_units t <= f64_units time_limit) as Hu.
  { unfold fle, SFleb in H1. rewrite (SF_compare_units prec64 emax64) in H1 by done. fold f64_units in H1.
    unfold f64_units in *. destruct (Z.compare_spec (SF_units prec64 emax64 t) (SF_units prec64 emax64 time_limit)); lia || done. }
  assert (0 <= f64_units t) as Hp.
  { unfold fle, SFleb in H0. rewrite (SF_compare_units prec64 emax64) in H0 by done.
    change (SF_units prec64 emax64 fzero) with 0 in H0. unfold f64_units.
    destruct (Z.compare_spec 0 (SF_units prec64 emax64 t)); lia || done. }
  rewrite time_limit_units in Hu. split_and!; [done| |done|lia].
  destruct t as [s|s| |s m e]; try done. exfalso. destruct s; [done|]. revert H1. by vm_compute.
Qed.

Lemma time_below_mono j j' t : j <= j' -> time_below j t -> time_below j' t.
Proof.
  intros Hj (Hv & Hf & Hu). split_and!; [done..|lia|].
  pose proof limit_pos. etransitivity; [apply Hu|]. apply Z.mul_le_mono_nonneg_r; lia.
Qed.

(** Below the limit no sum overflows: rounding does not pass [j + 2] limits. *)
Lemma time_below_add j t d : 0 <= j < 2 ^ 52 -> time_below j t -> time_below 0 d -> time_below (j + 1) (f64_add t d).
Proof.
  intros Hj (Hv & Hf & Hu) (Hvd & Hfd & Hud).
  destruct (SFadd_le prec64 emax64 ltac:(done) ltac:(done) t d (j + 1 + 1) 900 Hv Hvd Hf Hfd) as [Hfin Hb].
  - apply Hu.
  - apply Hud.
  - unfold representable. change (2 ^ prec64) with (2 ^ 52 * 2). split_and!; try lia; done.
  - change (2 ^ (900 - emin prec64 emax64)) with limit_units. unfold f64_units in *. lia.
  - split_and!; [by apply f64_add_valid|done|apply Hb|apply Hb].
Qed.

Lemma time_below_never j t : 0 <= j < 2 ^ 52 -> time_below j t -> flt t never = true.
Proof.
  intros Hj (Hv & Hf & Hu). unfold never. rewrite (SF_ltb_units prec64 emax64) by (done || by apply isfinite_not_nan).
  apply Z.ltb_lt. eapply Z.le_lt_trans; [|apply limit_never]. etransitivity; [apply Hu|].
  pose proof limit_pos. apply Z.mul_le_mono_nonneg_r; lia.
Qed.

(** ** One axis *)

(** An axis that still moves goes towards its end, at times that cannot overflow. *)
Definition axis_inv (j cur last dir : Z) (t d : f64) : Prop :=
  cur = last \/ (dir = signum (last - cur) /\ time_below j t /\ time_below 0 d).

Definition walk_inv (j : Z) (r : RayCaster) : Prop :=
  axis_inv j (ix (cur_ray_pt_id r)) (ix (end_i r)) (ix (expand_dir r)) (t_to_bound_x r) (t_when_step_x r) /\
  axis_inv j (iy (cur_ray_pt_id r)) (iy (end_i r)) (iy (expand_dir r)) (t_to_bound_y r) (t_when_step_y r) /\
  axis_inv j (iz (cur_ray_pt_id r)) (iz (end_i r)) (iz (expand_dir r)) (t_to_bound_z r) (t_when_step_z r).

Lemma axis_inv_mono j j' cur last dir t d : j <= j' -> axis_inv j cur last dir t d -> axis_inv j' cur last dir t d.
Proof. intros Hj [->|(Hd & Ht & Hs)]; [by left|right]. split_and!; [done|by eapply time_below_mono|done]. Qed.

(** A finished axis may have its time overwritten. *)
Lemma axis_inv_retire j cur last dir t d :
  axis_inv j cur last dir t d -> axis_inv j cur last dir (if cur =? last then never else t) d.
Proof. destruct (Z.eqb_spec cur last) as [->|]; [by left|done]. Qed.

Lemma axis_inv_step j cur last dir t d : 0 <= j < 2 ^ 52 -> cur <> last -> axis_inv j cur last dir t d ->
  axis_inv (j + 1) (cur + dir) last dir (f64_add t d) d /\
  Z.abs (last - (cur + dir)) = Z.abs (last - cur) - 1 /\ Z.abs dir = 1.
Proof.
  intros Hj Hne [?|(-> & Ht & Hd)]; [done|].
  assert (Z.abs (signum (last - cur)) = 1 /\ Z.abs (last - (cur + signum (last - cur))) = Z.abs (last - cur) - 1) as [Hs Ha].
  { unfold signum. destruct (Z.ltb_spec 0 (last - cur)), (Z.ltb_spec (last - cur) 0); lia. }
  split_and!; [|done..]. destruct (Z.eq_dec (cur + signum (last - cur)) last) as [->|Hne']; [by left|right].
  split_and!; [|by apply time_below_add|done]. unfold signum in *.
  destruct (Z.ltb_spec 0 (last - cur)), (Z.ltb_spec (last - cur) 0), (Z.ltb_spec 0 (last - (cur + (1 - 0)))); try lia;
    repeat match goal with |- context [?a <? ?b] => destruct (Z.ltb_spec a b); try lia end.
Qed.

(** The times a selection compares: retired, or below [never]. *)
Definition selectable (fin : bool) (t : f64) : Prop := if fin then t = never else flt t never = true.

Lemma retired_selectable j cur last dir t d : 0 <= j < 2 ^ 52 -> axis_inv j cur last dir t d ->
  selectable (cur =? last) (if cur =? last then never else t).
Proof.
  intros Hj Hi. unfold selectable. destruct (Z.eqb_spec cur last); [done|].
  destruct Hi as [?|(_ & Ht & _)]; [done|]. by eapply time_below_never.
Qed.

Lemma never_irrefl : flt never never = false.
Proof. reflexivity. Qed.

Lemma not_above_never fin t : selectable fin t -> flt never t = false.
Proof.
  destruct fin; simpl; [intros ->; apply never_irrefl|]. intros Ht. apply not_true_iff_false. intros Hn.
  pose proof (flt_trans _ _ _ Hn Ht) as Hc. by rewrite never_irrefl in Hc.
Qed.

(** A finished axis is never the earlier one. *)
Lemma earlier_unfinished f1 t1 f2 t2 : selectable f1 t1 -> selectable f2 t2 -> flt t1 t2 = true -> f1 = false.
Proof. intros H1 H2 Hlt. destruct f1; [|done]. simpl in H1. subst t1. by rewrite (not_above_never f2) in Hlt. Qed.

(** An unfinished axis is earlier than a finished one. *)
Lemma later_finished f1 t1 t2 : selectable f1 t1 -> selectable true t2 -> flt t1 t2 = false -> f1 = true.
Proof. intros H1 -> Hlt. destruct f1; [done|]. simpl in H1. congruence. Qed.

(** ** One step *)

Definition l1 (a b : GridIndex3) : Z := Z.abs (ix b - ix a) + Z.abs (iy b - iy a) + Z.abs (iz b - iz a).

Definition arrived (r : RayCaster) : bool :=
  (ix (cur_ray_pt_id r) =? ix (end_i r)) && (iy (cur_ray_pt_id r) =? iy (end_i r))
  && (iz (cur_ray_pt_id r) =? iz (end_i r)).

Lemma arrived_spec r : arrived r = true <-> cur_ray_pt_id r = end_i r.
Proof.
  unfold arrived. rewrite !andb_true_iff, !Z.eqb_eq. destruct (cur_ray_pt_id r), (end_i r); simpl.
  split; [intros [[-> ->] ->]; done|by intros [= -> -> ->]].
Qed.

Lemma retire_axes_eq r :
  retire_axes r = r <| t_to_bound_x := if ix (cur_ray_pt_id r) =? ix (end_i r) then never else t_to_bound_x r |>
                    <| t_to_bound_y := if iy (cur_ray_pt_id r) =? iy (end_i r) then never else t_to_bound_y r |>
                    <| t_to_bound_z := if iz (cur_ray_pt_id r) =? iz (end_i r) then never else t_to_bound_z r |>.
Proof.
  unfold retire_axes. destruct r; simpl.
  by destruct (ix _ =? _), (iy _ =? _), (iz _ =? _).
Qed.

(** What a step of an unfinished walk does. *)
Definition steps_once (r r' : RayCaster) : Prop :=
  end_i r' = end_i r /\ l1 (cur_ray_pt_id r) (cur_ray_pt_id r') = 1 /\
  l1 (cur_ray_pt_id r') (end_i r) = l1 (cur_ray_pt_id r) (end_i r) - 1.

Ltac step_axis H :=
  destruct H as (? & ? & ?); repeat split; try assumption; lia.

Lemma select_axis_spec j r : 0 <= j < 2 ^ 52 -> walk_inv j r -> arrived r = false ->
  walk_inv (j + 1) (select_axis (retire_axes r)) /\ steps_once r (select_axis (retire_axes r)).
Proof.
  intros Hj (Hx & Hy & Hz) Harr. rewrite retire_axes_eq.
  pose proof (retired_selectable j _ _ _ _ _ Hj Hx) as Sx. pose proof (retired_selectable j _ _ _ _ _ Hj Hy) as Sy.
  pose proof (retired_selectable j _ _ _ _ _ Hj Hz) as Sz.
  apply axis_inv_retire in Hx, Hy, Hz. unfold arrived in Harr.
  set (tx := if ix _ =? _ then _ else t_to_bound_x r) in *. set (ty := if iy _ =? _ then _ else t_to_bound_y r) in *.
  set (tz := if iz _ =? _ then _ else t_to_bound_z r) in *.
  set (fx := ix _ =? _) in Sx, Harr. set (fy := iy _ =? _) in Sy, Harr. set (fz := iz _ =? _) in Sz, Harr.
  assert (fx = false -> ix (cur_ray_pt_id r) <> ix (end_i r)) as Nx by (by intros ?%Z.eqb_neq).
  assert (fy = false -> iy (cur_ray_pt_id r) <> iy (end_i r)) as Ny by (by intros ?%Z.eqb_neq).
  assert (fz = false -> iz (cur_ray_pt_id r) <> iz (end_i r)) as Nz by (by intros ?%Z.eqb_neq).
  clearbody tx ty tz fx fy fz.
  pose proof (axis_inv_mono j (j + 1) _ _ _ _ _ ltac:(lia) Hx) as Hx1.
  pose proof (axis_inv_mono j (j + 1) _ _ _ _ _ ltac:(lia) Hy) as Hy1.
  pose proof (axis_inv_mono j (j + 1) _ _ _ _ _ ltac:(lia) Hz) as Hz1.
  unfold select_axis, walk_inv, steps_once, l1. cbn -[never flt].
  destruct (flt tx ty) eqn:Exy.
  - assert (fx = false) as Fx by (by eapply (earlier_unfinished fx tx fy ty)).
    destruct (flt tx tz) eqn:Exz; cbn -[never flt].
    + step_axis (axis_inv_step _ _ _ _ _ _ Hj (Nx Fx) Hx).
    + destruct fz; [by rewrite (later_finished fx tx tz Sx Sz Exz) in Fx|].
      step_axis (axis_inv_step _ _ _ _ _ _ Hj (Nz eq_refl) Hz).
  - destruct (flt ty tz) eqn:Eyz; cbn -[never flt].
    + assert (fy = false) as Fy by (by eapply (earlier_unfinished fy ty fz tz)).
      step_axis (axis_inv_step _ _ _ _ _ _ Hj (Ny Fy) Hy).
    + assert (fz = false) as Fz.
      { destruct fz; [|done]. pose proof (later_finished fy ty tz Sy Sz Eyz) as ->.
        by rewrite (later_finished fx tx ty Sx Sy Exy) in Harr. }
      step_axis (axis_inv_step _ _ _ _ _ _ Hj (Nz Fz) Hz).
Qed.

(** ** The walk *)

(** The voxels the traversal visits before the end voxel. *)
Fixpoint voxels (n : nat) (r : RayCaster) : list GridIndex3 :=
  match n with
  | O => []
  | S n => cur_ray_pt_id r :: voxels n (stepIndex r).2
  end.
Definition ray_path (r : RayCaster) : list GridIndex3 := voxels (Z.to_nat (steps_left r)) r.

(** A client loop over a list of voxels. *)
Fixpoint fold_until {A} (visit : GridIndex3 -> A -> A + A) (l : list GridIndex3) (a : A) : A :=
  match l with
  | [] => a
  | v :: l => match visit v a with inl a' => a' | inr a' => fold_until visit l a' end
  end.

Lemma steps_left_l1 r : steps_left r = l1 (cur_ray_pt_id r) (end_i r).
Proof. done. Qed.

Lemma stepIndex_go r : arrived r = false -> stepIndex r = (cur_ray_pt_id r, true, select_axis (retire_axes r)).
Proof. unfold stepIndex, arrived. by intros ->. Qed.
Lemma stepIndex_stop r : arrived r = true -> stepIndex r = (cur_ray_pt_id r, false, r).
Proof. unfold stepIndex, arrived. by intros ->. Qed.

Lemma l1_zero a b : l1 a b = 0 <-> a = b.
Proof.
  unfold l1. split; [|by intros ->; lia]. intros E. destruct a, b; simpl in *. f_equal; lia.
Qed.

Lemma traverse_fold {A} (visit : GridIndex3 -> A -> A + A) n j r a fuel :
  0 <= j -> j + Z.of_nat n < 2 ^ 52 -> walk_inv j r -> l1 (cur_ray_pt_id r) (end_i r) = Z.of_nat n -> (n < fuel)%nat ->
  traverse visit fuel r a = Some (fold_until visit (voxels n r) a).
Proof.
  revert j r a fuel. induction n as [|n IH]; intros j r a fuel Hj Hjn Hw Hn Hf;
    (destruct fuel as [|fuel]; [lia|]); simpl.
  - rewrite stepIndex_stop; [done|]. by apply arrived_spec, l1_zero.
  - assert (arrived r = false) as Harr.
    { apply not_true_iff_false. rewrite arrived_spec, <- l1_zero. lia. }
    rewrite stepIndex_go by done. destruct (select_axis_spec j r ltac:(lia) Hw Harr) as (Hw' & He & H1 & H2).
    destruct (visit (cur_ray_pt_id r) a) as [a'|a']; [done|]. simpl.
    apply (IH (j + 1)); [lia|lia|done| |lia]. rewrite He. lia.
Qed.

Lemma voxels_spec n j r : 0 <= j -> j + Z.of_nat n < 2 ^ 52 -> walk_inv j r ->
  l1 (cur_ray_pt_id r) (end_i r) = Z.of_nat n ->
  length (voxels n r) = n /\
  (forall i v, voxels n r !! i = Some v -> l1 v (end_i r) = Z.of_nat n - Z.of_nat i) /\
  (forall i v w, (voxels n r ++ [end_i r]) !! i = Some v -> (voxels n r ++ [end_i r]) !! S i = Some w -> l1 v w = 1) /\
  (voxels n r ++ [end_i r]) !! 0%nat = Some (cur_ray_pt_id r).
Proof.
  revert j r. induction n as [|n IH]; intros j r Hj Hjn Hw Hn.
  { apply l1_zero in Hn. simpl. split_and!; [done|by intros [|i] v| |by rewrite Hn]. by intros [|i] v w. }
  assert (arrived r = false) as Harr.
  { apply not_true_iff_false. rewrite arrived_spec, <- l1_zero. lia. }
  simpl voxels. rewrite stepIndex_go by done. destruct (select_axis_spec j r ltac:(lia) Hw Harr) as (Hw' & He & H1 & H2).
  set (r' := select_axis (retire_axes r)) in *. simpl snd.
  destruct (IH (j + 1) r' ltac:(lia) ltac:(lia) Hw' ltac:(rewrite He; lia)) as (Hl & Hd & Hu & Hh).
  rewrite He in *. simpl. split_and!.
  - by rewrite Hl.
  - intros [|i] v; simpl; [intros [= <-]; lia|]. intros Hv. rewrite (Hd i v Hv). lia.
  - intros [|i] v w; simpl; [intros [= <-] E; rewrite Hh in E; by injection E as <-|]. apply Hu.
  - done.
Qed.

Lemma l1_triangle a b c : l1 a c <= l1 a b + l1 b c.
Proof. unfold l1. lia. Qed.

(** The whole path is a shortest one. *)
Lemma voxels_start n r (p : list GridIndex3) : p = voxels n r ++ [end_i r] ->
  (forall i v w, p !! i = Some v -> p !! S i = Some w -> l1 v w = 1) ->
  p !! 0%nat = Some (cur_ray_pt_id r) ->
  forall i v, p !! i = Some v -> l1 (cur_ray_pt_id r) v <= Z.of_nat i.
Proof.
  intros _ Hu H0 i. induction i as [|i IH]; intros v Hv.
  { rewrite H0 in Hv. injection Hv as <-. assert (l1 (cur_ray_pt_id r) (cur_ray_pt_id r) = 0) by by apply l1_zero. lia. }
  destruct (p !! i) as [u|] eqn:Eu; [|apply lookup_ge_None in Eu; apply lookup_lt_Some in Hv; lia].
  specialize (IH u eq_refl). pose proof (Hu i u v Eu Hv). pose proof (l1_triangle (cur_ray_pt_id r) u v). lia.
Qed.

(** ** From [setInput] *)

Lemma traversal_setup_spec s e r r' : traversal_setup s e r = Some r' ->
  cur_ray_pt_id r' = s /\ end_i r' = e /\ start_i r' = s /\
  expand_dir r' = Idx (signum (ix e - ix s)) (signum (iy e - iy s)) (signum (iz e - iz s)) /\
  rc_resolution r' = rc_resolution r.
Proof. unfold traversal_setup. do 2 (case_match; [done|]). by intros [= <-]. Qed.

Lemma signum_zero z : signum z = 0 -> z = 0.
Proof. unfold signum. destruct (Z.ltb_spec 0 z), (Z.ltb_spec z 0); lia. Qed.

Lemma ordinary_walk_inv s e r r' : traversal_setup s e r = Some r' -> ordinary r' = true -> walk_inv 0 r'.
Proof.
  intros (Hc & He & _ & Hd & _)%traversal_setup_spec Hord. unfold walk_inv, ordinary in *. rewrite Hc, He, Hd in *. simpl in *.
  assert (forall a b t d, (signum (b - a) =? 0) || ordinary_time t && ordinary_time d = true ->
    axis_inv 0 a b (signum (b - a)) t d) as Hax.
  { intros a b t d. rewrite orb_true_iff, andb_true_iff, Z.eqb_eq. intros [H0%signum_zero|[Ht Hs]]; [left; lia|right].
    split_and!; [done|by apply ordinary_time_below..]. }
  rewrite orb_true_iff, !andb_true_iff, !Z.eqb_eq in Hord. destruct Hord as [[[H1 H2] H3]|[[H1 H2] H3]].
  - apply signum_zero in H1, H2, H3. split_and!; left; lia.
  - split_and!; by apply Hax.
Qed.

Lemma setInput_inv `{EigenOps} start end_ r r' : setInput start end_ r = Some (Some r') ->
  exists s e r0, traversal_setup s e r0 = Some r' /\
    i32_min <= ix s <= i32_max /\ i32_min <= iy s <= i32_max /\ i32_min <= iz s <= i32_max /\
    i32_min <= ix e <= i32_max /\ i32_min <= iy e <= i32_max /\ i32_min <= iz e <= i32_max.
Proof.
  unfold setInput. destruct (negb (resolution_ok _)); [done|]. destruct (negb _ || _); [done|].
  set (r0 := r <| start_d := start |> <| end_d := end_ |>). cbv zeta.
  destruct (coordinateToIndex r0 (vx start)) as [sx|] eqn:Esx; [|done].
  destruct (coordinateToIndex r0 (vy start)) as [sy|] eqn:Esy; [|done].
  destruct (coordinateToIndex r0 (vz start)) as [sz|] eqn:Esz; [|done].
  destruct (coordinateToIndex r0 (vx end_)) as [ex|] eqn:Eex; [|done].
  destruct (coordinateToIndex r0 (vy end_)) as [ey|] eqn:Eey; [|done].
  destruct (coordinateToIndex r0 (vz end_)) as [ez|] eqn:Eez; [|done].
  intros [= Ht]. exists (Idx sx sy sz), (Idx ex ey ez), r0.
  split_and!; try done; by eapply coordinateToIndex_range.
Qed.

(** C8. A traversal whose boundary times are of an ordinary size ends, and visits
    a shortest lattice path from the voxel of the start to the voxel of the end,
    one voxel face at a time. *)
Theorem raycast_is_shortest_path `{EigenOps} start end_ r0 r :
  setInput start end_ r0 = Some (Some r) -> ordinary r = true ->
  let path := ray_path r in
  (forall (A : Type) (visit : GridIndex3 -> A -> A + A) a fuel, (traversal_fuel r <= fuel)%nat ->
     traverse visit fuel r a = Some (fold_until visit path a)) /\
  Z.of_nat (length path) = l1 (start_i r) (end_i r) /\
  (path ++ [end_i r]) !! 0%nat = Some (start_i r) /\
  (forall i v w, (path ++ [end_i r]) !! i = Some v -> (path ++ [end_i r]) !! S i = Some w -> l1 v w = 1) /\
  forall i v, path !! i = Some v ->
    l1 (start_i r) v = Z.of_nat i /\ l1 v (end_i r) = l1 (start_i r) (end_i r) - Z.of_nat i.
Proof.
  intros (s & e & r1 & Ht & Bounds)%setInput_inv Hord path.
  pose proof (ordinary_walk_inv _ _ _ _ Ht Hord) as Hw. apply traversal_setup_spec in Ht as (Hc & He & Hs & _).
  assert (0 <= l1 s e < 2 ^ 52) as Hlen by (unfold l1, i32_min, i32_max in *; lia).
  set (n := Z.to_nat (steps_left r)) in *.
  assert (l1 (cur_ray_pt_id r) (end_i r) = Z.of_nat n) as Hn by (unfold n; rewrite steps_left_l1, Hc, He; lia).
  assert (0 + Z.of_nat n < 2 ^ 52) as Hlim by (rewrite <- Hn, Hc, He; lia).
  destruct (voxels_spec n 0 r ltac:(lia) Hlim Hw Hn) as (Hl & Hd & Hu & H0).
  pose proof (voxels_start n r _ eq_refl Hu H0) as Hst. fold n in path. subst path. unfold ray_path. fold n.
  rewrite Hs, <- Hc. split_and!; [|by rewrite Hl, Hn|done|done|].
  - intros A visit a fuel Hf. apply (traverse_fold visit n 0); try done; try lia.
  - intros i v Hv. pose proof (Hd i v Hv) as Hvd. rewrite Hn. split; [|done].
    assert ((voxels n r ++ [end_i r]) !! i = Some v) as Hv' by (by apply lookup_app_l_Some).
    pose proof (Hst i v Hv'). pose proof (l1_triangle (cur_ray_pt_id r) v (end_i r)). lia.
Qed.

(** ** A concrete traversal *)

Definition demo_caster : RayCaster := RayCaster_default <| rc_resolution := f64_lit 1 2 |>.
Definition demo_ray : option (option RayCaster) :=
  @setInput eigen_reference (Vec3 (f64_lit 1 4) (f64_lit (-7) 8) (f64_lit 3 8))
    (Vec3 (f64_lit 11 8) (f64_lit 3 8) (f64_lit (-9) 8)) demo_caster.
Definition demo_walk : RayCaster := default RayCaster_default (default None demo_ray).

Lemma raycast_is_shortest_path_witness :
  Z.of_nat (length (ray_path demo_walk)) = 7 /\
  @traverse nat (fun _ n => inr (S n)) (traversal_fuel demo_walk) demo_walk 0%nat = Some 7%nat.
Proof.
  destruct (@raycast_is_shortest_path eigen_reference _ _ _ demo_walk (eq_refl : demo_ray = _) eq_refl) as (Ht & Hl & _).
  split; [etransitivity; [apply Hl|vm_compute; reflexivity]|].
  rewrite (Ht nat (fun _ n => inr (S n)) 0%nat (traversal_fuel demo_walk)) by reflexivity. vm_compute. reflexivity.
Defined.

(** ** A traversal that never ends *)

(** The smallest distance below a voxel face: the boundary time of the y axis
    is a division by a zero direction, infinite, and every axis the selection
    prefers over it is finished. *)
Definition spin_caster : RayCaster := RayCaster_default <| rc_resolution := f64_of_Z 1 |>.
Definition spin_start : vec3 := Vec3 (f64_lit 1 2) (S754_finite true 1 (-1074)) (f64_lit 1 2).
Definition spin_end : vec3 := Vec3 (f64_lit 5 2) fzero (f64_lit 1 2).
Definition spin_ray : option (option RayCaster) := @setInput eigen_reference spin_start spin_end spin_caster.
Definition spin_walk : RayCaster := default RayCaster_default (default None spin_ray).

Lemma traverse_fixpoint {A} (r : RayCaster) (v : GridIndex3) (a : A) fuel :
  stepIndex r = (v, true, r) -> traverse (fun _ a => inr a) fuel r a = None.
Proof. intros E. induction fuel as [|fuel IH]; [done|]. simpl. by rewrite E. Qed.

(** The guard against a finished axis does not make every traversal end. *)
Theorem raycaster_can_spin :
  @setInput eigen_reference spin_start spin_end spin_caster = Some (Some spin_walk) /\
  forall fuel, @traverse nat (fun _ n => inr n) fuel spin_walk 0%nat = None.
Proof.
  split; [vm_compute; reflexivity|].
  set (r3 := (stepIndex (stepIndex (stepIndex spin_walk).2).2).2).
  assert (Hfix : stepIndex r3 = (cur_ray_pt_id r3, true, r3)) by (vm_compute; reflexivity).
  assert (forall r, stepIndex r = (cur_ray_pt_id r, true, (stepIndex r).2) ->
    (forall fuel, @traverse nat (fun _ n => inr n) fuel (stepIndex r).2 0%nat = None) ->
    forall fuel, @traverse nat (fun _ n => inr n) fuel r 0%nat = None) as Hstep.
  { intros r E H [|fuel]; [done|]. simpl. rewrite E. apply H. }
  do 3 (apply Hstep; [vm_compute; reflexivity|]). intros fuel. by eapply traverse_fixpoint.
Qed.
